(* ===== verification/_CoqProject ===== *)
-Q . S2P
Prelude.v
Async.v
Traces.v
Rules.v
JsNum.v
Json.v
Types.v
Validate.v
PhasePlan.v
Planner.v
PlannerFacts.v
PlannerSound.v
Resources.v
Fleet.v
Topology.v
Registry.v
Manager.v
Deployments.v
Allocation.v
ControlLoop.v
Scenario.v
DeploymentsFacts.v
AllocationFacts.v
ControlFacts.v
JobFacts.v
QueueFacts.v
AllocationInv.v
MoveFacts.v
ResourcesSound.v
FleetFacts.v
AllocationSound.v
TopologyFacts.v
Recipes.v
Identity.v
ServeDial.v
AgentState.v
Agent.v
AgentInv.v
AgentRules.v
AgentTasks.v
AgentStart.v
AgentStop.v
AgentFacts.v
AgentEnds.v
HarnessTypes.v
Canon.v
DataListener.v
DataListenerFacts.v
Dial.v
DialFacts.v
Mock.v
Regex.v
Events.v
Graduate.v
Curate.v
Templates.v
Transforms.v
Score.v
Frame.v
FrameFacts.v
Outbox.v
MeshCoordinator.v
MeshCoordinatorFacts.v
Utf8.v
StageExecution.v
StageExecutionFacts.v
StageDecode.v
Sse.v
SseFacts.v
Router.v
RouterFacts.v
Download.v
DownloadFacts.v
UpdateLease.v
UpdateLeaseFacts.v
Release.v
ReleaseStage.v
Supervisor.v
SupervisorFacts.v
Nat.v
