(* ===== verification/Prelude.v ===== *)
(** * Swarmlet: a verification development

    Swarmlet runs language models over machines their owners lend to a fleet.  The repository has two
    halves.  [src/swarmlet] is the fleet: a control process ([control/]) that keeps a registry of nodes,
    places models on them and drives their agents ([node-agent/]) over one WebSocket each, with the wire
    format of [protocol/].  [src/sin-harness] is a self-improvement harness: it captures what users do
    ([loop/]), generates and scores evaluations ([evals/]), decides whether a change is kept, and lets a
    mesh of untrusted nodes certify the decision ([mesh/]).

    ** The library

    Foundations: [Prelude] (errors as a sum, the state and exception monad with its Hoare rules, list
    lemmas), [Async] (asynchronous methods as resumptions), [Traces] (what a method asks, and triples over it),
    [Rules] (invariant, relational and rely-guarantee rules), [JsNum] (binary64 numbers, among which safe
    integers are exact), [Json] (parsed JSON as the code inspects it).

    Fleet, from the data up:
    - [Types]: the records of protocol/types.ts and the rows of control/registry.ts;
    - [Validate]: protocol/validate.ts; [PhasePlan]: control/phase-plan.ts;
    - [Planner], [PlannerFacts], [PlannerSound]: control/planner.ts;
    - [Resources], [ResourcesSound]: the capacity ledger of control/resources.ts;
    - [Fleet], [FleetFacts]: placing several deployments at once (control/fleet.ts); [Topology],
      [TopologyFacts]: choosing a kind and nodes from measurements (control/topology.ts);
    - [Registry]: the tables and statements of control/registry.ts;
    - [Manager] (state and effects), [Deployments] (the methods) of control/deployments.ts, and
      [ControlLoop] (the messages of control/channel.ts and the turns of the process); [Allocation]: the second half
      of deployments.ts, fleet allocations and layer distributions, whose long calls are resumed by the jobs they
      wait for; [DeploymentsFacts], [AllocationFacts], [ControlFacts], [JobFacts] and [MoveFacts] prove their
      properties, [Scenario] is a concrete fleet; [QueueFacts] (what every method leaves of the queues),
      [AllocationInv] and [AllocationSound] are about allocations;
    - [StageExecution], [StageExecutionFacts], [StageDecode]: generation over native stage workers
      (control/stage-execution.ts), with [Utf8], the streaming decoder it feeds;
    - [Sse], [SseFacts]: event streams on their way through the router (control/router.ts, protocol/inference-stream.ts
      and completions-compat.ts); [Router], [RouterFacts]: choice, admission and forwarding of requests
      (control/router.ts, stage-router.ts);
    - [Frame], [FrameFacts]: the stream multiplexer of protocol/frame.ts; [Outbox]:
      control/socket-outbox.ts;
    - [UpdateLease], [UpdateLeaseFacts]: the lease under which a node restarts, on both sides (control/update-lease.ts,
      node-agent/update-lease.ts, protocol/bounded-body.ts).

    Node agent:
    - [Recipes]: command lines and stage readiness (node-agent/roles/recipes.ts, stage.ts); [Identity]: recovery of
      recorded processes (roles/identity.ts); [ServeDial]: the pool of reverse streams (transport/servedial.ts);
    - [AgentState] (data), [Agent] (methods and machine): node-agent/assignments.ts with roles/process.ts and
      enforce/index.ts;
    - [AgentInv] (the invariant and its writes), [AgentRules] (synchronous methods), [AgentTasks], [AgentStart],
      [AgentStop] (calls under rely and guarantee), [AgentFacts] (every run), [AgentEnds] (the rounds suffice);
    - [DataListener], [DataListenerFacts]: the exposed socket (transport/dataListener.ts, streams.ts) and what the
      runner lets it see; [Dial], [DialFacts]: pairing and path choice of transport/dial.ts;
    - [Download], [DownloadFacts]: fetching a model's weights (node-agent/download.ts, with the declared files of
      protocol/types.ts);
    - [Nat]: the port mapping of the gateway (node-agent/nat.ts);
    - [Release]: signed releases (protocol/release.ts) and the record of updates
      (node-agent/update-state.ts); [ReleaseStage]: how its files get into place
      (node-agent/update-stage.ts); [Supervisor], [SupervisorFacts]: the process that runs, restarts and updates the
      agent (node-agent/supervisor.ts).

    Harness:
    - [HarnessTypes]: core/types.ts; [Canon]: canonical JSON of core/sign.ts; [Mock]: core/mock.ts;
    - [Regex], [Events], [Graduate], [Curate]: capture, redaction, saturation and curation in loop/;
    - [Templates], [Transforms], [Score]: templates, transforms, suites, scoring and the gate of evals/
      and loop/gate.ts;
    - [MeshCoordinator], [MeshCoordinatorFacts]: mesh/coordinator.ts.

    ** How the parts meet

    [Registry] holds what [Deployments] reads and writes through [regw]; [Deployments] plans with
    [Resources.planWithResources], which calls [Planner.planDeployment] inside the ledger's bounds, and sends
    the assignments of [Types] to agents.  [Router.accept] chooses from [Deployments.routing] and reserves a place, and
    [StageExecution.generate] takes the lease.  [ControlLoop.handle] is one turn of the control process;
    a run is any list of turns.  [Validate] guards what agents send before it reaches the registry.  [Curate]
    reads the store of [Events]; [Score] runs the suites of [Transforms] over the templates of [Templates];
    [MeshCoordinator] signs with [Canon].  [UpdateLease.handle_lease] takes and gives back the lease of [Deployments] that
    [Supervisor.under_lease] asks for, and [Supervisor] installs what [Release.verifyRelease] accepts.

    ** What the theorems show

    - Placement: a returned plan uses distinct usable nodes, fits their memory, tiles the model's layers and
      takes free ports; refusals carry reasons; the ledger never over-commits, and it is exactly what the
      deployments and the processes left behind hold.
    - Fleet: accepted requests are well formed; a preview's plans fit the offers together, are the planner's
      own at the placements shown, and come from a bounded search.  A topology is chosen only among admitted plans;
      a pinned model is lost to it, and its ranking is not an order.
    - Registry: keys stay distinct and every deployment keeps its intent; a join code admits one node.
    - Control process: after any sequence of turns, routes belong to wanted deployments in service and
      automatic recovery stays within its budget; a start writes no engine before the earlier ones are
      acknowledged as stopped, whatever happens between its awaits; a stop that succeeds proves every
      engine stopped; an update lease is exclusive; and a move can recurse for ever.
    - Updates: a signed lease request acts once however calls interleave (but for one instant, shown by an example), and a
      lease comes back to its node unchanged for clocks close enough; an accepted release is newer, signed, and stays
      inside its directory, and gets its name only whole; and from whatever a killed supervisor leaves on disk the next one
      starts, the floor of accepted releases never sinks, only a release whose own agent answered enters service, and one agent runs at a time.
    - Port mapping: only the default gateway is asked, only for the listener, and endpoints are published only once accepted.
    - Models: whatever a server sends, only files of the declared size and hash are installed by one fetch, and an honest
      server completes it; fetches that overlap can break this, as an example shows.
    - Allocations: the token is held exactly while an allocation is performed, and then a queued job resumes it, so that it
      never hangs; meanwhile nothing else starts or stops, and people's requests are refused and move nothing, but for
      creating a deployment, which only adds one; an allocation is admitted
      only for plans that fit the offers together, and they are validated again before specifications change.
    - Native stages: whatever the network and the workers answer, a call leaves every worker it fed empty and every
      capsule deleted, or marks the deployment unsafe and asks for its withdrawal; and with deterministic workers it
      returns the greedy continuation of the prompt by the composed stages.
    - Requests: an admitted request goes to a least loaded deployment that can take it, loads are exact, a native
      deployment never refuses what it was given; a relayed stream is forwarded whole while its lines are at most 1 MiB
      and says so when it breaks off; how the bytes of a stream were cut matters to no reader, except for what a legacy
      client still gets before a line that throws.
    - Node agent: after any sequence of messages, process events, timers and segments of pending calls, a report
      "stopped" means that nothing of the assignment is left, engines run within the owner's offer, one for an
      assignment; recovery signals only the recorded process.
    - Transport: frames round trip, buffers are bounded, relays keep order, the outbox is a bounded FIFO; the
      listener forwards only what live assignments authorize, unchanged and in order, and a [null] header brings it
      down; reverse streams are paired at most once, and every engine connection gets a verdict.
    - Harness: certification ends under every schedule and accepts every twentieth instance only by a majority; curation never silences a
      signal; the event store is append only; suites are schedule independent; the gate's certificate
      says what happened.

    ** Conventions

    Integers the code keeps integral are [Z]; computed quantities are binary64 ([num]).  Strings are byte
    strings.  Code outside the repository (collation, URL parsing, regular expressions of profiles, random ids,
    signatures, sockets, model endpoints) is a parameter.  An await splits a method into segments: the pools of
    the harness are schedules over segments, the jobs of the control process are resumptions that an
    arbitrary state resumes.  Fuel: [Regex] and the loops over lists recurse on their input; ports are searched
    among one more than are taken; [redistribute] has 100 rounds, and [MoveFacts.redistribute_diverges]
    shows that it can outlast any number, where the code would never return; [Supervisor.spawn_tries] has three tries, since
    there is no older release after the bootstrap, and [Supervisor.healthy] one round for each half second before its
    deadline and two more, which suffice ([SupervisorFacts.healthy_enough]); [Supervisor.supervise] performs any number of rounds; [Fleet] searches bounded lists
    and [Dial.forward] is a finite tree of questions.  The waiting loops of the agent carry one round for
    each delay before their deadline and two more; [AgentEnds.waits_end] shows that they suffice.

    ** Not modelled

    Headers and streamed native answers of the router, telemetry, the HTTP servers and the agent's client socket,
    hardware probes, the mesh worker, the harness's refinement loop and the tiny
    mixture of experts proof are listed with their reasons in the manifest.  Pure I/O
    (files, processes, sockets, probes, browser scripts) has no counterpart. *)

From stdpp Require Export base option list strings pretty gmap numbers sorting.
From Stdlib Require Export ZArith Lia.

#[global] Open Scope Z_scope.

(** ** Error values: [throw new Error(..)] as a sum *)

Inductive result (E A : Type) : Type :=
  | Ok (a : A)
  | Err (e : E).
Arguments Ok {E A} a.
Arguments Err {E A} e.

#[export] Instance result_ret {E} : MRet (result E) := fun A a => Ok a.
#[export] Instance result_bind {E} : MBind (result E) := fun A B f m =>
  match m with Ok a => f a | Err e => Err e end.
#[export] Instance result_fmap {E} : FMap (result E) := fun A B f m =>
  match m with Ok a => Ok (f a) | Err e => Err e end.

Definition is_ok {E A} (r : result E A) : bool :=
  match r with Ok _ => true | Err _ => false end.

(** [Array.prototype.map] with a callback that may throw. *)
Fixpoint mapM_result {E A B} (f : A -> result E B) (l : list A) : result E (list B) :=
  match l with
  | [] => Ok []
  | x :: l => y ← f x; ys ← mapM_result f l; Ok (y :: ys)
  end.

(** ** State and exceptions: a computation that mutates [S] and may throw [E] *)

Definition M (S E A : Type) : Type := S -> result E A * S.

#[export] Instance M_ret {S E} : MRet (M S E) := fun A a s => (Ok a, s).
#[export] Instance M_bind {S E} : MBind (M S E) := fun A B f m s =>
  match m s with
  | (Ok a, s') => f a s'
  | (Err e, s') => (Err e, s')
  end.

Definition mthrow {S E A} (e : E) : M S E A := fun s => (Err e, s).
Definition mget {S E} : M S E S := fun s => (Ok s, s).
Definition mgets {S E A} (f : S -> A) : M S E A := fun s => (Ok (f s), s).
Definition mmodify {S E} (f : S -> S) : M S E unit := fun s => (Ok tt, f s).
Definition mwhen {S E} (b : bool) (m : M S E unit) : M S E unit :=
  if b then m else mret tt.

(** [try { m } catch (e) { h(e) }] and [try { m } finally { fin }] *)
Definition mtry {S E A} (m : M S E A) (h : E -> M S E A) : M S E A := fun s =>
  match m s with (Err e, s') => h e s' | r => r end.
Definition mfinally {S E A} (m : M S E A) (fin : M S E unit) : M S E A := fun s =>
  let '(r, s1) := m s in
  match fin s1 with (Ok _, s2) => (r, s2) | (Err e, s2) => (Err e, s2) end.

(** [for (const x of l) body(x)] *)
Fixpoint mfor {S E A} (l : list A) (body : A -> M S E unit) : M S E unit :=
  match l with
  | [] => mret tt
  | x :: l => body x ;; mfor l body
  end.

(** [l.map((x, i) => body(x, i))] with a stateful callback. *)
Fixpoint mmap_i {S E A B} (i : nat) (l : list A) (body : nat -> A -> M S E B) : M S E (list B) :=
  match l with
  | [] => mret []
  | x :: l => y ← body i x; ys ← mmap_i (Datatypes.S i) l body; mret (y :: ys)
  end.

Section monad_laws.
Context {S E : Type}.

Lemma M_bind_ok {A B} (m : M S E A) (f : A -> M S E B) s b s' :
  (m ≫= f) s = (Ok b, s') <-> exists a s1, m s = (Ok a, s1) /\ f a s1 = (Ok b, s').
Proof.
  unfold mbind, M_bind. destruct (m s) as [[a|e] s1]; split.
  - intros H. eauto.
  - naive_solver.
  - done.
  - intros (a' & s1' & [=] & _).
Qed.

Lemma M_bind_err {A B} (m : M S E A) (f : A -> M S E B) s e s' :
  (m ≫= f) s = (Err e, s') <->
    m s = (Err e, s') \/ exists a s1, m s = (Ok a, s1) /\ f a s1 = (Err e, s').
Proof.
  unfold mbind, M_bind. destruct (m s) as [[a|e1] s1]; split; by naive_solver.
Qed.

Lemma mret_ok {A} (a b : A) (s s' : S) :
  (mret a : M S E A) s = (Ok b, s') <-> a = b /\ s = s'.
Proof. unfold mret, M_ret. naive_solver. Qed.
End monad_laws.

(** Weakest-precondition style specification of a computation: from a state in [P] it
    either returns with [Q] or throws with [R]. *)
Definition spec {S E A} (P : S -> Prop) (m : M S E A)
    (Q : A -> S -> Prop) (R : E -> S -> Prop) : Prop :=
  forall s, P s -> match m s with (Ok a, s') => Q a s' | (Err e, s') => R e s' end.

Section spec_rules.
Context {S E : Type}.
Implicit Types P : S -> Prop.

Lemma spec_ret {A} (a : A) P (Q : A -> S -> Prop) (R : E -> S -> Prop) :
  (forall s, P s -> Q a s) -> spec P (mret a) Q R.
Proof. intros H s Hs. apply H, Hs. Qed.

Lemma spec_throw {A} (e : E) P (Q : A -> S -> Prop) (R : E -> S -> Prop) :
  (forall s, P s -> R e s) -> spec P (mthrow e) Q R.
Proof. intros H s Hs. apply H, Hs. Qed.

Lemma spec_modify (f : S -> S) P (Q : unit -> S -> Prop) (R : E -> S -> Prop) :
  (forall s, P s -> Q tt (f s)) -> spec P (mmodify f) Q R.
Proof. intros H s Hs. apply H, Hs. Qed.

Lemma spec_gets {A} (f : S -> A) P (Q : A -> S -> Prop) (R : E -> S -> Prop) :
  (forall s, P s -> Q (f s) s) -> spec P (mgets f) Q R.
Proof. intros H s Hs. apply H, Hs. Qed.

Lemma spec_bind {A B} (m : M S E A) (f : A -> M S E B) P
    (I : A -> S -> Prop) (Q : B -> S -> Prop) (R : E -> S -> Prop) :
  spec P m I R -> (forall a, spec (I a) (f a) Q R) -> spec P (m ≫= f) Q R.
Proof.
  intros Hm Hf s Hs. specialize (Hm s Hs). unfold mbind, M_bind.
  destruct (m s) as [[a|e] s']; [apply Hf, Hm|done].
Qed.

Lemma spec_try {A} (m : M S E A) (h : E -> M S E A) P (Q : A -> S -> Prop) (R R' : E -> S -> Prop) :
  spec P m Q R' -> (forall e, spec (R' e) (h e) Q R) -> spec P (mtry m h) Q R.
Proof.
  intros Hm Hh s Hs. specialize (Hm s Hs). unfold mtry.
  destruct (m s) as [[a|e] s']; [done|]. apply Hh, Hm.
Qed.

Lemma spec_finally {A} (m : M S E A) (fin : M S E unit) P (I : S -> Prop) :
  spec P m (fun _ => I) (fun _ => I) -> spec I fin (fun _ => I) (fun _ => I) ->
  spec P (mfinally m fin) (fun _ => I) (fun _ => I).
Proof.
  intros Hm Hf s Hs. specialize (Hm s Hs). unfold mfinally.
  destruct (m s) as [[a|e] s1]; specialize (Hf s1 Hm); by destruct (fin s1) as [[u|e2] s2].
Qed.

Lemma spec_weaken {A} (m : M S E A) P P' (Q Q' : A -> S -> Prop) (R R' : E -> S -> Prop) :
  spec P' m Q' R' -> (forall s, P s -> P' s) -> (forall a s, Q' a s -> Q a s) ->
  (forall e s, R' e s -> R e s) -> spec P m Q R.
Proof.
  intros Hm HP HQ HR s Hs. specialize (Hm s (HP s Hs)).
  destruct (m s) as [[a|e] s']; auto.
Qed.

Lemma spec_if {A} (b : bool) (m1 m2 : M S E A) P Q R :
  (b = true -> spec P m1 Q R) -> (b = false -> spec P m2 Q R) ->
  spec P (if b then m1 else m2) Q R.
Proof. destruct b; auto. Qed.

Lemma spec_mfor {A} (l : list A) (body : A -> M S E unit) (I : S -> Prop) (R : E -> S -> Prop) :
  (forall x, x ∈ l -> spec I (body x) (fun _ => I) R) -> spec I (mfor l body) (fun _ => I) R.
Proof.
  induction l as [|x l IH]; intros Hb; simpl.
  - by apply spec_ret.
  - eapply spec_bind; [apply Hb; left|]. intros []. apply IH. intros y Hy. apply Hb. by right.
Qed.
End spec_rules.

(** ** Tactics *)

(** Break an equation [m s = (Ok v, s')] through binds, returns, guards and throws. *)
Ltac minv :=
  repeat match goal with
  | H : (_ ≫= _) _ = (Ok _, _) |- _ =>
      apply M_bind_ok in H; destruct H as (? & ? & ? & H)
  | H : mret _ _ = (Ok _, _) |- _ => apply mret_ok in H; destruct H as [? ?]; subst
  | H : mthrow _ _ = (Ok _, _) |- _ => discriminate H
  | H : mget _ = (Ok _, _) |- _ => injection H as ? ?; subst
  | H : mgets _ _ = (Ok _, _) |- _ => injection H as ? ?; subst
  | H : mmodify _ _ = (Ok _, _) |- _ => injection H as ? ?; subst
  | H : Ok _ = Ok _ |- _ => injection H as ?; subst
  | H : Ok _ = Err _ |- _ => discriminate H
  | H : Err _ = Ok _ |- _ => discriminate H
  | H : (Err _, _) = (Ok _, _) |- _ => discriminate H
  end.

(** Turn boolean tests of the code into the propositions they decide. *)
Ltac bool_to_prop :=
  repeat match goal with
  | H : andb _ _ = true |- _ => apply andb_true_iff in H; destruct H
  | H : orb _ _ = false |- _ => apply orb_false_iff in H; destruct H
  | H : negb _ = true |- _ => apply negb_true_iff in H
  | H : negb _ = false |- _ => apply negb_false_iff in H
  | H : Z.ltb _ _ = true |- _ => apply Z.ltb_lt in H
  | H : Z.ltb _ _ = false |- _ => apply Z.ltb_ge in H
  | H : Z.leb _ _ = true |- _ => apply Z.leb_le in H
  | H : Z.leb _ _ = false |- _ => apply Z.leb_gt in H
  | H : Z.eqb _ _ = true |- _ => apply Z.eqb_eq in H
  | H : Z.eqb _ _ = false |- _ => apply Z.eqb_neq in H
  | H : bool_decide _ = true |- _ => apply bool_decide_eq_true in H
  | H : bool_decide _ = false |- _ => apply bool_decide_eq_false in H
  end.

(** Case analysis on the innermost test of the goal, then arithmetic. *)
Ltac case_ifs := repeat (case_match; bool_to_prop; simplify_eq/=; try done; try lia).

(** ** Lists *)

(** [Array.prototype.find]. *)
Fixpoint find {A} (f : A -> bool) (l : list A) : option A :=
  match l with
  | [] => None
  | x :: l => if f x then Some x else find f l
  end.

Lemma find_Some {A} (f : A -> bool) l x : find f l = Some x -> x ∈ l /\ f x = true.
Proof.
  induction l as [|y l IH]; simpl; [done|]. case_match eqn:E; intros H; simplify_eq.
  - split; [left|done].
  - destruct (IH H). split; [by right|done].
Qed.

Lemma find_None {A} (f : A -> bool) l : find f l = None <-> forall x, x ∈ l -> f x = false.
Proof.
  induction l as [|y l IH]; simpl.
  - split; [|done]. intros _ x Hx. by apply elem_of_nil in Hx.
  - destruct (f y) eqn:E.
    + split; [done|]. intros H. specialize (H y (list_elem_of_here _ _)). congruence.
    + rewrite IH. split; intros H x Hx.
      * apply elem_of_cons in Hx as [->|Hx]; auto.
      * apply H. by right.
Qed.

(** [Array.prototype.filter]. *)
Lemma List_filter_elem {A} (f : A -> bool) l x : x ∈ List.filter f l <-> x ∈ l ∧ f x = true.
Proof. by rewrite !list_elem_of_In, List.filter_In. Qed.

Lemma NoDup_fmap_filter {A B} (g : A -> B) (f : A -> bool) l :
  NoDup (g <$> l) -> NoDup (g <$> List.filter f l).
Proof.
  induction l as [|x l IH]; simpl; [done|]. intros [Hx Hl]%NoDup_cons.
  destruct (f x); [|auto]. simpl. constructor; [|auto].
  intros (y & Hxy & Hy)%list_elem_of_fmap. apply List_filter_elem in Hy as [Hy _].
  apply Hx. apply list_elem_of_fmap. eauto.
Qed.

(** [l.reduce((sum, x) => sum + x, 0)] *)
Definition sumZ (l : list Z) : Z := foldr Z.add 0 l.
Arguments sumZ : simpl never.

Lemma sumZ_nil : sumZ [] = 0.
Proof. done. Qed.
Lemma sumZ_cons x l : sumZ (x :: l) = x + sumZ l.
Proof. done. Qed.
Lemma sumZ_app l k : sumZ (l ++ k) = sumZ l + sumZ k.
Proof.
  induction l as [|x l IH]; [done|]. rewrite <-app_comm_cons, !sumZ_cons, IH. lia.
Qed.
Lemma sumZ_insert (l : list Z) i x y :
  l !! i = Some x -> sumZ (<[i:=y]> l) = sumZ l - x + y.
Proof.
  revert i. induction l as [|z l IH]; intros [|i]; simpl; try done.
  - intros [= ->]. rewrite !sumZ_cons. lia.
  - intros H. rewrite !sumZ_cons, (IH i H). lia.
Qed.
Lemma sumZ_replicate n x : sumZ (replicate n x) = Z.of_nat n * x.
Proof. induction n as [|n IH]; [done|]. simpl replicate. rewrite sumZ_cons, IH. lia. Qed.
Lemma sumZ_nonneg l : Forall (fun x => 0 <= x) l -> 0 <= sumZ l.
Proof. induction 1; [done|]. rewrite sumZ_cons. lia. Qed.

Create HintDb swarm discriminated.
Create Rewrite HintDb swarm.
#[export] Hint Rewrite sumZ_nil sumZ_cons sumZ_app sumZ_replicate : swarm.
#[export] Hint Resolve sumZ_nonneg : swarm.

(** ** Stable sorting: [Array.prototype.sort] with a comparator

    The comparator is given by its test [le a b], true when the comparator returns a value
    [<= 0].  ECMAScript requires the sort to be stable; insertion sort that puts a new
    element after the elements it does not precede is the reference definition. *)
Section sort.
Context {A : Type} (le : A -> A -> bool).

Fixpoint sort_insert (x : A) (l : list A) : list A :=
  match l with
  | [] => [x]
  | y :: l => if le x y then x :: y :: l else y :: sort_insert x l
  end.

Definition js_sort (l : list A) : list A := foldr sort_insert [] l.

Lemma sort_insert_perm x l : sort_insert x l ≡ₚ x :: l.
Proof.
  induction l as [|y l IH]; simpl; [done|]. case_match; [done|].
  rewrite IH. constructor.
Qed.

Lemma js_sort_perm l : js_sort l ≡ₚ l.
Proof.
  induction l as [|x l IH]; simpl; [done|]. by rewrite sort_insert_perm, IH.
Qed.

Lemma js_sort_elem x l : x ∈ js_sort l <-> x ∈ l.
Proof. by rewrite js_sort_perm. Qed.

Lemma js_sort_length l : length (js_sort l) = length l.
Proof. by rewrite js_sort_perm. Qed.

Hypothesis le_total : forall x y, le x y = false -> le y x = true.
Hypothesis le_trans : forall x y z, le x y = true -> le y z = true -> le x z = true.

Lemma js_sort_StronglySorted l : StronglySorted (fun x y => le x y = true) (js_sort l).
Proof using le_total le_trans.
  induction l as [|x l IH]; simpl; [constructor|].
  induction (js_sort l) as [|y k IHk]; simpl; [by repeat constructor|].
  inversion IH as [|? ? Hk Hy]; subst. case_match eqn:E.
  - constructor; [done|]. constructor; [done|].
    eapply Forall_impl; [exact Hy|]. intros z Hz. eauto.
  - constructor; [auto|]. rewrite sort_insert_perm. constructor; [auto|done].
Qed.
End sort.

(** ** Numbers *)

Lemma div_mul_le a b : 0 < b -> (a / b) * b <= a.
Proof. intros Hb. pose proof (Z.mul_div_le a b Hb). lia. Qed.

#[export] Hint Resolve div_mul_le : swarm.

(** ** Strings and sets *)

(** [a < b] on strings: lexicographic on code units. *)
Definition str_ltb (a b : string) : bool :=
  match String.compare a b with Lt => true | _ => false end.

Lemma length_app_string (s t : string) : String.length (s +:+ t) = (String.length s + String.length t)%nat.
Proof.
  induction s as [|a s IH]; [done|]. change (String a s +:+ t) with (String a (s +:+ t)).
  cbn [String.length]. by rewrite IH.
Qed.

Lemma str_compare_refl a : String.compare a a = Eq.
Proof.
  induction a as [|x a IH]; [done|]. simpl.
  unfold Ascii.compare. by rewrite N.compare_refl.
Qed.

Lemma ascii_compare_Lt (a b : Ascii.ascii) :
  Ascii.compare a b = Lt <-> (Ascii.N_of_ascii a < Ascii.N_of_ascii b)%N.
Proof. unfold Ascii.compare. apply N.compare_lt_iff. Qed.

Lemma str_ltb_trans a b c : str_ltb a b = true -> str_ltb b c = true -> str_ltb a c = true.
Proof.
  unfold str_ltb. revert b c. induction a as [|x a IH]; intros [|y b] [|z c]; try done. simpl.
  destruct (Ascii.compare x y) eqn:Exy; [|destruct (Ascii.compare y z) eqn:Eyz|]; try done.
  - apply Ascii.compare_eq_iff in Exy as ->.
    destruct (Ascii.compare y z); [|done..]. apply IH.
  - apply Ascii.compare_eq_iff in Eyz as ->. by rewrite Exy.
  - intros _ _. rewrite ascii_compare_Lt in Exy, Eyz.
    assert (Ascii.compare x z = Lt) as ->; [|done].
    apply ascii_compare_Lt. by etrans.
Qed.

Lemma str_ltb_trichotomy a b : str_ltb a b = true \/ a = b \/ str_ltb b a = true.
Proof.
  unfold str_ltb. rewrite (String.compare_antisym b a).
  destruct (String.compare a b) eqn:E; simpl; auto. apply String.compare_eq_iff in E. auto.
Qed.

Lemma str_ltb_irrefl a : str_ltb a a = false.
Proof. unfold str_ltb. by rewrite str_compare_refl. Qed.

(** What the code relies on of [String.prototype.localeCompare]: a consistent total order on
    strings, with 0 only for equal strings.  The collation itself is the host's. *)
Class Collation (cmp : string -> string -> comparison) : Prop := {
  coll_antisym a b : cmp a b = CompOpp (cmp b a);
  coll_eq a b : cmp a b = Eq -> a = b;
  coll_trans a b c : cmp a b <> Gt -> cmp b c <> Gt -> cmp a c <> Gt }.

(** Code-unit order is such a collation. *)
#[export] Instance String_compare_collation : Collation String.compare.
Proof.
  split.
  - intros a b. apply String.compare_antisym.
  - intros a b. apply String.compare_eq_iff.
  - intros a b c Hab Hbc Hac.
    assert (str_ltb c a = true) as Hca.
    { unfold str_ltb. by rewrite String.compare_antisym, Hac. }
    destruct (str_ltb_trichotomy a b) as [H|[->|H]]; [| |].
    + assert (str_ltb c b = true) as H' by eauto using str_ltb_trans.
      unfold str_ltb in H'. rewrite String.compare_antisym in H'. by destruct (String.compare b c).
    + done.
    + unfold str_ltb in H. rewrite String.compare_antisym in H. by destruct (String.compare a b).
Qed.

(** Sorting records by a key under a collation. *)
Section sort_by_key.
Context {A : Type} (cmp : string -> string -> comparison) `{!Collation cmp} (key : A -> string).

Definition by_key (x y : A) : bool := match cmp (key x) (key y) with Gt => false | _ => true end.

Lemma by_key_true x y : by_key x y = true <-> cmp (key x) (key y) <> Gt.
Proof. unfold by_key. by destruct cmp. Qed.

Lemma by_key_sorted l : StronglySorted (fun x y => by_key x y = true) (js_sort by_key l).
Proof using Type*.
  apply js_sort_StronglySorted.
  - intros x y. unfold by_key. rewrite (coll_antisym (key y)). by destruct cmp.
  - intros x y z. rewrite !by_key_true. apply coll_trans.
Qed.

(** With distinct keys the sorted list does not depend on the order of the input. *)
Lemma js_sort_by_key l l' : l ≡ₚ l' -> NoDup (key <$> l) -> js_sort by_key l = js_sort by_key l'.
Proof using Type*.
  intros Hperm Hnd.
  eapply (StronglySorted_unique_strong (fun x y => by_key x y = true)); [|apply by_key_sorted..|by rewrite !js_sort_perm].
  intros x y Hx Hy Hxy Hyx. rewrite js_sort_elem in Hx, Hy. rewrite <-Hperm in Hy.
  assert (key x = key y) as Hid.
  { apply coll_eq. rewrite by_key_true in Hxy, Hyx. rewrite (coll_antisym (key y)) in Hyx.
    by destruct (cmp (key x) (key y)). }
  apply list_elem_of_lookup in Hx as [i Hi], Hy as [j Hj]. assert (i = j) as <-; [|congruence].
  eapply NoDup_lookup; [exact Hnd|..]; rewrite list_lookup_fmap; [by rewrite Hi|by rewrite Hj, Hid].
Qed.
End sort_by_key.

(** [[...new Set(l)]]: first occurrences, in order. *)
Fixpoint dedup_from {A} `{EqDecision A} (seen : list A) (l : list A) : list A :=
  match l with
  | [] => []
  | x :: l =>
      if bool_decide (x ∈ seen) then dedup_from seen l else x :: dedup_from (x :: seen) l
  end.
Definition dedup {A} `{EqDecision A} (l : list A) : list A := dedup_from [] l.

Lemma elem_of_dedup_from {A} `{EqDecision A} (seen l : list A) x :
  x ∈ dedup_from seen l <-> x ∈ l /\ x ∉ seen.
Proof.
  revert seen. induction l as [|y l IH]; intros seen; simpl.
  - set_solver.
  - case_bool_decide; rewrite ?elem_of_cons, IH; [set_solver|].
    rewrite elem_of_cons. destruct (decide (x = y)); set_solver.
Qed.

Lemma elem_of_dedup {A} `{EqDecision A} (l : list A) x : x ∈ dedup l <-> x ∈ l.
Proof. unfold dedup. rewrite elem_of_dedup_from. set_solver. Qed.

Lemma NoDup_dedup {A} `{EqDecision A} (l : list A) : NoDup (dedup l).
Proof.
  unfold dedup. generalize (@nil A) as seen.
  induction l as [|y l IH]; intros seen; simpl; [constructor|].
  case_bool_decide; [apply IH|]. constructor; [|apply IH].
  rewrite elem_of_dedup_from. set_solver.
Qed.

(** [/^[a-f0-9]{64}$/] *)
Definition is_hex (a : Ascii.ascii) : bool :=
  let n := Ascii.nat_of_ascii a in
  ((48 <=? n)%nat && (n <=? 57)%nat) || ((97 <=? n)%nat && (n <=? 102)%nat).
Fixpoint all_chars (f : Ascii.ascii -> bool) (s : string) : bool :=
  match s with EmptyString => true | String a s => f a && all_chars f s end.
Definition SHA256 (s : string) : bool := (String.length s =? 64)%nat && all_chars is_hex s.

(** A check that contributes one error when it fails. *)
Definition err_if {A} (b : bool) (e : A) : list A := if b then [e] else [].

Lemma err_if_nil {A} b (e : A) : err_if b e = [] <-> b = false.
Proof. by destruct b. Qed.

(** ** Grouping: a [Map] from keys to arrays, filled in one pass over a list *)
Section grouping.
Context {A : Type}.
Implicit Types (g : list (string * list A)) (x : A) (l : list A).

(** [const list = map.get(k) ?? []; list.push(x); map.set(k, list)] *)
Fixpoint push_group (k : string) x g : list (string * list A) :=
  match g with
  | [] => [(k, [x])]
  | (k', xs) :: g => if String.eqb k' k then (k', xs ++ [x]) :: g else (k', xs) :: push_group k x g
  end.

Context (keyOf : A -> option string).

Definition group_step g x : list (string * list A) :=
  match keyOf x with Some k => push_group k x g | None => g end.
Definition group_by l : list (string * list A) := foldl group_step [] l.

(** Reference: the elements of a key. *)
Definition members (k : string) l : list A := base.filter (fun x => keyOf x = Some k) l.

Definition grouped l g : Prop :=
  NoDup g.*1 /\ (forall k, k ∈ g.*1 <-> members k l <> []) /\ Forall (fun kg => kg.2 = members kg.1 l) g.

Lemma members_snoc k l x :
  members k (l ++ [x]) = members k l ++ (if bool_decide (keyOf x = Some k) then [x] else []).
Proof.
  unfold members. rewrite filter_app. f_equal. rewrite filter_cons, filter_nil.
  case_decide; case_bool_decide; done.
Qed.

Lemma push_group_keys k x g : (push_group k x g).*1 = if bool_decide (k ∈ g.*1) then g.*1 else g.*1 ++ [k].
Proof.
  induction g as [|[k' xs] g IH]; cbn; [done|]. destruct (String.eqb k' k) eqn:E; cbn.
  - apply String.eqb_eq in E as ->. by rewrite bool_decide_eq_true_2 by left.
  - apply String.eqb_neq in E. rewrite IH. case_bool_decide as H1; case_bool_decide as H2; try done.
    + destruct H2. by right.
    + apply elem_of_cons in H2 as [?|?]; congruence.
Qed.

Lemma push_group_elem k x g kg : NoDup g.*1 -> kg ∈ push_group k x g ->
  (kg ∈ g /\ kg.1 <> k) \/
  (kg.1 = k /\ ((exists xs, (k, xs) ∈ g /\ kg.2 = xs ++ [x]) \/ (k ∉ g.*1 /\ kg.2 = [x]))).
Proof.
  induction g as [|[k' xs] g IH]; cbn; intros Hnd.
  - intros ->%list_elem_of_singleton. right. split; [done|]. right. split; [by intros ?%elem_of_nil|done].
  - apply NoDup_cons in Hnd as [Hni Hnd]. destruct (String.eqb k' k) eqn:E.
    + apply String.eqb_eq in E as ->. intros [->|Hin]%elem_of_cons.
      * right. split; [done|]. left. exists xs. split; [by left|done].
      * left. split; [by right|]. intros <-. apply Hni. by apply list_elem_of_fmap_2.
    + apply String.eqb_neq in E. intros [->|Hin]%elem_of_cons.
      * left. split; [by left|done].
      * destruct (IH Hnd Hin) as [[? ?]|[Hk [(ys & ? & ?)|[? ?]]]].
        -- left. split; [by right|done].
        -- right. split; [done|]. left. exists ys. split; [by right|done].
        -- right. split; [done|]. right. split; [|done]. rewrite not_elem_of_cons. done.
Qed.

Lemma group_step_grouped l g x : grouped l g -> grouped (l ++ [x]) (group_step g x).
Proof.
  intros (Hnd & Hk & Hall). rewrite Forall_forall in Hall. unfold group_step.
  destruct (keyOf x) as [k|] eqn:Hx.
  2: { assert (forall k, members k (l ++ [x]) = members k l) as Heq.
       { intros k. rewrite members_snoc, Hx. by rewrite bool_decide_eq_false_2, app_nil_r. }
       split_and!; [done|intros k; by rewrite Heq|]. apply Forall_forall. intros kg Hkg. rewrite Heq. auto. }
  split_and!.
  - rewrite push_group_keys. case_bool_decide as Hb; [done|]. apply NoDup_app.
    split; [done|]. split; [|apply NoDup_singleton]. intros y Hy ->%list_elem_of_singleton. done.
  - intros k'. rewrite push_group_keys, members_snoc, Hx. destruct (decide (k' = k)) as [->|Hne].
    + rewrite (bool_decide_eq_true_2 (Some k = Some k)) by done. split.
      * intros _. by destruct (members k l).
      * intros _. case_bool_decide; [done|]. apply elem_of_app. right. by left.
    + rewrite (bool_decide_eq_false_2 (Some k = Some k')), app_nil_r, <-Hk by congruence.
      case_bool_decide; [done|]. rewrite elem_of_app, list_elem_of_singleton. naive_solver.
  - apply Forall_forall. intros kg Hkg.
    destruct (push_group_elem k x g kg Hnd Hkg) as [[Hin Hne]|[-> [(xs & Hin & ->)|[Hni ->]]]];
      rewrite members_snoc, Hx.
    + rewrite bool_decide_eq_false_2, app_nil_r by congruence. by apply Hall.
    + rewrite bool_decide_eq_true_2 by done. pose proof (Hall _ Hin) as Ha. cbn in Ha. by rewrite Ha.
    + rewrite bool_decide_eq_true_2 by done. destruct (members k l) eqn:E; [done|].
      destruct Hni. apply Hk. by rewrite E.
Qed.

(** The groups list each key once, with exactly its elements, in order. *)
Lemma group_by_grouped l : grouped l (group_by l).
Proof.
  induction l as [|x l IH] using rev_ind.
  - split_and!; [constructor| |constructor]. intros k. split; [by intros ?%elem_of_nil|done].
  - unfold group_by. rewrite foldl_app. by apply group_step_grouped.
Qed.
End grouping.
