(* ===== verification/Async.v ===== *)
(** * Asynchronous methods

    A method runs in segments between its awaits.  [Step] is what a segment ends with: the method is
    finished, or it suspends on something of [W] with the rest of the method as a continuation, which
    gets the answer and whatever state the other turns have left.  [try] and sequencing are those of the
    language; a segment that throws before it suspends is a rejected promise. *)

From S2P Require Import Prelude.

Section async.
Context {S W : Type} (ans : W -> Type).

Inductive Step (A : Type) : Type :=
  | Fin (r : result string A)
  | Susp (w : W) (k : ans w -> S -> Step A * S).

Definition Async (A : Type) : Type := S -> Step A * S.
End async.
Arguments Fin {S W ans A} r.
Arguments Susp {S W ans A} w k.

Section combinators.
Context {S W : Type} {ans : W -> Type}.
Abbreviation Step := (Step (S := S) ans).
Abbreviation Async := (Async (S := S) ans).

Fixpoint step_bind {A B} (s : Step A) (f : A -> Async B) : Async B := fun m =>
  match s with
  | Fin (Ok a) => f a m
  | Fin (Err e) => (Fin (Err e), m)
  | Susp w k => (Susp w (fun r m => let '(s, m) := k r m in step_bind s f m), m)
  end.
Fixpoint step_catch {A} (s : Step A) (h : string -> Async A) : Async A := fun m =>
  match s with
  | Fin (Ok a) => (Fin (Ok a), m)
  | Fin (Err e) => h e m
  | Susp w k => (Susp w (fun r m => let '(s, m) := k r m in step_catch s h m), m)
  end.

#[export] Instance Async_ret : MRet Async := fun A a m => (Fin (Ok a), m).
#[export] Instance Async_bind : MBind Async := fun A B f x m => let '(s, m) := x m in step_bind s f m.
(** [try { x } catch (e) { h(e) }] *)
Definition acatch {A} (x : Async A) (h : string -> Async A) : Async A := fun m => let '(s, m) := x m in step_catch s h m.
Definition lift {A} (x : M S string A) : Async A := fun m => let '(r, m) := x m in (Fin r, m).
Definition athrow {A} (e : string) : Async A := fun m => (Fin (Err e), m).

(** Induction on the segments a method may still run *)
Lemma step_ind {A} (P : Step A -> Prop) : (forall r, P (Fin r)) ->
  (forall w k, (forall r m, P (k r m).1) -> P (Susp w k)) -> forall s, P s.
Proof. intros Hf Hs. fix IH 1. intros [r|ws k]; [apply Hf|]. apply Hs. intros r m. apply IH. Qed.

Lemma async_get {B} (f : S -> Async B) m : (lift mget ≫= f) m = f m m.
Proof. done. Qed.
Lemma async_lift {A B} (x : M S string A) (f : A -> Async B) m :
  (lift x ≫= f) m = match x m with (Ok a, m') => f a m' | (Err e, m') => (Fin (Err e), m') end.
Proof. unfold lift, mbind, Async_bind. by destruct (x m) as [[a|e] m']. Qed.
(** Two synchronous steps are one. *)
Lemma lift_lift {A B C} (x : M S string A) (y : A -> M S string B) (f : A -> Async C) m :
  (a ← lift x; lift (y a) ;; f a) m = (a ← lift (a ← x; y a ;; mret a); f a) m.
Proof.
  rewrite !async_lift. unfold mbind at 2, M_bind at 1. destruct (x m) as [[a|e] m1]; [|done]. rewrite async_lift.
  unfold mbind at 1, M_bind at 1. by destruct (y a m1) as [[b|e] m2].
Qed.
Lemma bind_first {A B} (x : Async A) (f : A -> Async B) m :
  (x ≫= f) m = match x m with (Fin (Ok a), m') => f a m' | (s, m') => step_bind s f m' end.
Proof. unfold mbind, Async_bind. by destruct (x m) as [[[a|e]|ws k] m']. Qed.
End combinators.
