(* ===== verification/Traces.v ===== *)
(** * Asynchronous methods and what they ask

    [plays] are the complete runs of a method: its asks with the answers they got, in order.  The answers satisfy [V], which
    may depend on what was asked before; while the method waits, others move the state by [R].  [hoare P x Q E] is the
    triple over states and the asks so far; its rules follow the constructs of a method. *)

From S2P Require Import Prelude Async.

Section traces.
Context {S W : Type} {ans : W -> Type}.
Abbreviation Step := (Step (S := S) ans).
Abbreviation Async := (Async (S := S) ans).

Record Event := Ev { ev_ask : W; ev_answer : ans ev_ask }.

Context (V : list Event -> forall w, ans w -> Prop) (R : S -> S -> Prop).

(** [before] is what was asked already. *)
Inductive plays {A} (before : list Event) : Step A -> S -> list Event -> result string A -> S -> Prop :=
  | plays_fin r m : plays before (Fin r) m [] r m
  | plays_ask w k m a m' l r m'' : R m m' -> V before w a -> plays (before ++ [Ev w a]) (k a m').1 (k a m').2 l r m'' ->
      plays before (Susp w k) m (Ev w a :: l) r m''.

Fixpoint wp {A} (Q : list Event -> result string A -> S -> Prop) (tr : list Event) (s : Step A) (m : S) : Prop :=
  match s with
  | Fin r => Q tr r m
  | Susp w k => forall a m', R m m' -> V tr w a -> wp Q (tr ++ [Ev w a]) (k a m').1 (k a m').2
  end.

Lemma wp_plays {A} (Q : list Event -> result string A -> S -> Prop) tr s m l r m' :
  plays tr s m l r m' -> wp Q tr s m -> Q (tr ++ l) r m'.
Proof.
  induction 1 as [tr r m|tr w k m a m' l r m'' HR HV _ IH]; cbn; intros H; [by rewrite app_nil_r|].
  specialize (IH (H a m' HR HV)). by rewrite <-app_assoc in IH.
Qed.

(** The run in which [f] answers, and nobody else moves the state *)
Fixpoint run {A} (f : list Event -> forall w, ans w) (before : list Event) (s : Step A) (m : S)
    : list Event * result string A * S :=
  match s with
  | Fin r => ([], r, m)
  | Susp w k =>
      let e := Ev w (f before w) in
      let '(l, r, m') := run f (before ++ [e]) (k (ev_answer e) m).1 (k (ev_answer e) m).2 in (e :: l, r, m')
  end.
Lemma run_plays {A} f : (forall m, R m m) -> (forall tr w, V tr w (f tr w)) -> forall (s : Step A) before m,
  let x := run f before s m in plays before s m x.1.1 x.1.2 x.2.
Proof.
  intros HR HV s. induction s as [r|w k IH] using step_ind; intros before m; cbn; [constructor|].
  specialize (IH (f before w) m (before ++ [Ev w (f before w)]) (k (f before w) m).2). cbv zeta in IH.
  destruct (run _ _ _ _) as [[l r] m']. econstructor; [apply HR|apply HV|exact IH].
Qed.

Lemma wp_mono {A} (Q Q' : list Event -> result string A -> S -> Prop) s : (forall tr r m, Q tr r m -> Q' tr r m) ->
  forall tr m, wp Q tr s m -> wp Q' tr s m.
Proof. intros HQ. induction s as [r|w k IH] using step_ind; cbn; auto. Qed.

Lemma wp_bind {A B} (Q : list Event -> result string B -> S -> Prop) (f : A -> Async B) s : forall tr m,
  wp (fun tr r m => match r with Ok a => wp Q tr (f a m).1 (f a m).2 | Err e => Q tr (Err e) m end) tr s m ->
  wp Q tr (step_bind s f m).1 (step_bind s f m).2.
Proof.
  induction s as [[a|e]|w k IH] using step_ind; intros tr m H; cbn; [done..|].
  intros a m' HR HV. specialize (IH a m' _ _ (H a m' HR HV)). by destruct (k a m') as [s1 m1].
Qed.
Lemma wp_catch {A} (Q : list Event -> result string A -> S -> Prop) (h : string -> Async A) s : forall tr m,
  wp (fun tr r m => match r with Ok a => Q tr (Ok a) m | Err e => wp Q tr (h e m).1 (h e m).2 end) tr s m ->
  wp Q tr (step_catch s h m).1 (step_catch s h m).2.
Proof.
  induction s as [[a|e]|w k IH] using step_ind; intros tr m H; cbn; [done..|].
  intros a m' HR HV. specialize (IH a m' _ _ (H a m' HR HV)). by destruct (k a m') as [s1 m1].
Qed.

(** ** Triples *)

Definition post {A} (Q : A -> list Event -> S -> Prop) (E : string -> list Event -> S -> Prop) (tr : list Event)
    (r : result string A) (m : S) : Prop :=
  match r with Ok a => Q a tr m | Err e => E e tr m end.
Definition hoare {A} (P : list Event -> S -> Prop) (x : Async A) Q E : Prop :=
  forall tr m, P tr m -> wp (post Q E) tr (x m).1 (x m).2.

Lemma hoare_plays {A} P (x : Async A) Q E tr m l r m' : hoare P x Q E -> P tr m ->
  plays tr (x m).1 (x m).2 l r m' -> post Q E (tr ++ l) r m'.
Proof. intros Hx HP Hp. exact (wp_plays _ _ _ _ _ _ _ Hp (Hx tr m HP)). Qed.

Lemma hoare_weaken {A} (P P' : list Event -> S -> Prop) (x : Async A) (Q Q' : A -> list Event -> S -> Prop) (E E' : string -> list Event -> S -> Prop) :
  hoare P' x Q' E' -> (forall tr m, P tr m -> P' tr m) -> (forall a tr m, Q' a tr m -> Q a tr m) ->
  (forall e tr m, E' e tr m -> E e tr m) -> hoare P x Q E.
Proof. intros Hx HP HQ HE tr m Hm. eapply wp_mono; [|by apply Hx, HP]. intros tr' [a|e] m'; [apply HQ|apply HE]. Qed.
Lemma hoare_ret {A} (a : A) (P : list Event -> S -> Prop) (Q : A -> list Event -> S -> Prop) E : (forall tr m, P tr m -> Q a tr m) -> hoare P (mret a) Q E.
Proof. intros H tr m Hm. by apply H. Qed.
Lemma hoare_throw {A} e (P : list Event -> S -> Prop) (Q : A -> list Event -> S -> Prop) (E : string -> list Event -> S -> Prop) :
  (forall tr m, P tr m -> E e tr m) -> hoare P (athrow e) Q E.
Proof. intros H tr m Hm. by apply H. Qed.
Lemma hoare_result {A} (r : result string A) (P : list Event -> S -> Prop) (Q : A -> list Event -> S -> Prop) (E : string -> list Event -> S -> Prop) :
  (forall tr m, P tr m -> post Q E tr r m) -> hoare P (fun m => (Fin r, m)) Q E.
Proof. intros H tr m Hm. by apply H. Qed.
Lemma hoare_bind {A B} P (I : A -> list Event -> S -> Prop) (Q : B -> list Event -> S -> Prop) E (x : Async A) (f : A -> Async B) :
  hoare P x I E -> (forall a, hoare (I a) (f a) Q E) -> hoare P (x ≫= f) Q E.
Proof.
  intros Hx Hf tr m Hm. unfold mbind, Async_bind. specialize (Hx tr m Hm). destruct (x m) as [s m1].
  apply wp_bind. eapply wp_mono; [|exact Hx]. intros tr' [a|e] m' H; [by apply Hf|done].
Qed.
Lemma hoare_catch {A} P (Q : A -> list Event -> S -> Prop) E' E (x : Async A) h :
  hoare P x Q E' -> (forall e, hoare (E' e) (h e) Q E) -> hoare P (acatch x h) Q E.
Proof.
  intros Hx Hh tr m Hm. unfold acatch. specialize (Hx tr m Hm). destruct (x m) as [s m1].
  apply wp_catch. eapply wp_mono; [|exact Hx]. intros tr' [a|e] m' H; [done|by apply Hh].
Qed.
Lemma hoare_lift {A} (x : M S string A) (P : list Event -> S -> Prop) (Q : A -> list Event -> S -> Prop) (E : string -> list Event -> S -> Prop) :
  (forall tr m, P tr m -> match x m with (Ok a, m') => Q a tr m' | (Err e, m') => E e tr m' end) -> hoare P (lift x) Q E.
Proof. intros H tr m Hm. specialize (H tr m Hm). unfold lift. by destruct (x m) as [[a|e] m']. Qed.
Lemma hoare_ask w (P : list Event -> S -> Prop) (Q : ans w -> list Event -> S -> Prop) E :
  (forall a tr m m', P tr m -> R m m' -> V tr w a -> Q a (tr ++ [Ev w a]) m') ->
  hoare P (fun m => (Susp w (fun r m => (Fin (Ok r), m)), m)) Q E.
Proof. intros H tr m Hm. cbn. intros a m' HR HV. by apply (H a tr m m'). Qed.
Lemma hoare_if {A} (b : bool) P (x y : Async A) Q E :
  (b = true -> hoare P x Q E) -> (b = false -> hoare P y Q E) -> hoare P (if b then x else y) Q E.
Proof. destruct b; auto. Qed.
(** A fact about the values at hand *)
Lemma hoare_pure {A} (p : Prop) P (x : Async A) Q E : (p -> hoare P x Q E) -> hoare (fun tr m => p ∧ P tr m) x Q E.
Proof. intros H tr m [Hp Hm]. by apply H. Qed.
End traces.
Arguments Event {W} ans.
Arguments Ev {W ans} ev_ask ev_answer.
