(* ===== verification/Rules.v ===== *)
(** * Rules for methods

    [pres I x]: a synchronous method keeps [I], whether it returns or throws.  [apres I x]: so does
    every segment of an asynchronous one, from whatever state satisfying [I] its awaits resume in.
    The tactic [pres] works through a method's binds and branches and leaves the writes.

    [rg P x Q E] is the rely-guarantee triple for methods whose awaits only get valid answers: from an
    [I]-state in [P], every segment keeps [I] and guarantees [G], provided that the others keep [I] and move
    the state by [R] while it waits; the method returns in [Q] or throws in [E].  [sspec] is the
    triple of a synchronous method.

    [rpres R x] and [leads R Q x] are the relational forms: every segment keeps the relation [R] to the
    state it began in, and [Q] holds when the method gets through. *)

From S2P Require Import Prelude Async.

Section pres.
Context {S W : Type} {ans : W -> Type} (I : S -> Prop).
Abbreviation Sync := (M S string).
Abbreviation Step := (Step (S := S) ans).
Abbreviation Async := (Async (S := S) ans).

Definition pres {A} (x : Sync A) : Prop := forall m, I m -> I (x m).2.

Lemma pres_ret {A} (a : A) : pres (mret a).
Proof. by intros m. Qed.
Lemma pres_throw {A} e : pres (@mthrow _ _ A e).
Proof. by intros m. Qed.
Lemma pres_modify f : (forall m, I m -> I (f m)) -> pres (mmodify f).
Proof. intros H m Hm. by apply H. Qed.
Lemma pres_bind {A B} (x : Sync A) (f : A -> Sync B) : pres x -> (forall a, pres (f a)) -> pres (x ≫= f).
Proof.
  intros Hx Hf m Hm. specialize (Hx m Hm). unfold mbind, M_bind. destruct (x m) as [[a|e] m']; [by apply Hf|done].
Qed.
Lemma pres_get {B} (f : S -> Sync B) : (forall m, I m -> pres (f m)) -> pres (mget ≫= f).
Proof. intros Hf m Hm. by apply (Hf m Hm m). Qed.
Lemma pres_if {A} (b : bool) (x y : Sync A) : (b = true -> pres x) -> (b = false -> pres y) -> pres (if b then x else y).
Proof. by destruct b; auto. Qed.
Lemma pres_when b x : (b = true -> pres x) -> pres (mwhen b x).
Proof. unfold mwhen. destruct b; auto using pres_ret. Qed.
Lemma pres_try {A} (x : Sync A) h : pres x -> (forall e, pres (h e)) -> pres (mtry x h).
Proof.
  intros Hx Hh m Hm. specialize (Hx m Hm). unfold mtry. destruct (x m) as [[a|e] m']; [done|by apply Hh].
Qed.
Lemma pres_finally {A} (x : Sync A) y : pres x -> pres y -> pres (mfinally x y).
Proof.
  intros Hx Hy m Hm. specialize (Hx m Hm). unfold mfinally. destruct (x m) as [r m1]. specialize (Hy m1 Hx).
  by destruct (y m1) as [[]].
Qed.
Lemma pres_for {A} (l : list A) body : (forall x, x ∈ l -> pres (body x)) -> pres (mfor l body).
Proof.
  induction l as [|x l IH]; cbn; intros Hb; [apply pres_ret|].
  apply pres_bind; [apply Hb; left|]. intros _. apply IH. intros y Hy. apply Hb. by right.
Qed.
Lemma pres_map {A B} (l : list A) (body : nat -> A -> Sync B) : (forall i x, pres (body i x)) ->
  forall i, pres (mmap_i i l body).
Proof.
  intros Hb. induction l as [|x l IH]; intros i; cbn; [apply pres_ret|].
  apply pres_bind; [apply Hb|]. intros y. apply pres_bind; [apply IH|]. intros ys. apply pres_ret.
Qed.

(** ** Asynchronous methods *)

Fixpoint good_step {A} (s : Step A) : Prop :=
  match s with
  | Fin _ => True
  | Susp ws k => forall r m, I m -> I (k r m).2 /\ good_step (k r m).1
  end.
Definition apres {A} (x : Async A) : Prop := forall m, I m -> I (x m).2 /\ good_step (x m).1.

Lemma apres_ret {A} (a : A) : apres (mret a).
Proof. by intros m. Qed.
Lemma apres_throw {A} e : apres (athrow (A := A) e).
Proof. by intros m. Qed.
Lemma apres_lift {A} (x : Sync A) : pres x -> apres (lift x).
Proof. intros Hx m Hm. specialize (Hx m Hm). unfold lift. by destruct (x m) as [r m']. Qed.

Lemma good_step_bind {A B} (f : A -> Async B) : (forall a, apres (f a)) ->
  forall (s : Step A) m, I m -> good_step s -> I (step_bind s f m).2 /\ good_step (step_bind s f m).1.
Proof.
  intros Hf. fix IH 1. intros [[a|e]|ws k] m Hm Hs; cbn; [by apply Hf|done|].
  split; [done|]. intros r m' Hm'. specialize (Hs r m' Hm'). destruct Hs as [H1 H2].
  specialize (IH (k r m').1 (k r m').2 H1 H2). by destruct (k r m') as [s m''].
Qed.
Lemma apres_bind {A B} (x : Async A) (f : A -> Async B) : apres x -> (forall a, apres (f a)) -> apres (x ≫= f).
Proof.
  intros Hx Hf m Hm. specialize (Hx m Hm) as [H1 H2]. unfold mbind, Async_bind.
  destruct (x m) as [s m']. by apply good_step_bind.
Qed.
Lemma apres_get {B} (f : S -> Async B) : (forall m, I m -> apres (f m)) -> apres (lift mget ≫= f).
Proof. intros Hf m Hm. by apply (Hf m Hm m). Qed.

(** A synchronous head whose result is needed in the rest. *)
Lemma apres_lift_bind {A B} (x : Sync A) (f : A -> Async B) (Q : A -> Prop) :
  pres x -> (forall m, I m -> match (x m).1 with Ok a => Q a | Err _ => True end) ->
  (forall a, Q a -> apres (f a)) -> apres (lift x ≫= f).
Proof.
  intros Hx HQ Hf m Hm. specialize (Hx m Hm). specialize (HQ m Hm). unfold mbind, Async_bind, lift.
  destruct (x m) as [[a|e] m']; cbn in *; [by apply Hf|done].
Qed.

Lemma good_step_catch {A} (h : string -> Async A) : (forall e, apres (h e)) ->
  forall (s : Step A) m, I m -> good_step s -> I (step_catch s h m).2 /\ good_step (step_catch s h m).1.
Proof.
  intros Hh. fix IH 1. intros [[a|e]|ws k] m Hm Hs; cbn; [done|by apply Hh|].
  split; [done|]. intros r m' Hm'. specialize (Hs r m' Hm'). destruct Hs as [H1 H2].
  specialize (IH (k r m').1 (k r m').2 H1 H2). by destruct (k r m') as [s m''].
Qed.
Lemma apres_catch {A} (x : Async A) h : apres x -> (forall e, apres (h e)) -> apres (acatch x h).
Proof.
  intros Hx Hh m Hm. specialize (Hx m Hm) as [H1 H2]. unfold acatch. destruct (x m) as [s m'].
  by apply good_step_catch.
Qed.
Lemma apres_if {A} (b : bool) (x y : Async A) : (b = true -> apres x) -> (b = false -> apres y) -> apres (if b then x else y).
Proof. by destruct b; auto. Qed.
End pres.

Create HintDb pres discriminated.
#[export] Hint Resolve pres_ret pres_throw apres_ret apres_throw : pres.

(** One construct of a method. *)
Ltac pres_step :=
  match goal with
  | |- forall _, _ => intros ?
  | |- pres _ (mget ≫= _) => apply pres_get; intros ? ?
  | |- pres _ (_ ≫= _) => apply pres_bind
  | |- pres _ (mret _) => apply pres_ret
  | |- pres _ (mthrow _) => apply pres_throw
  | |- pres _ (mwhen _ _) => apply pres_when; intros ?
  | |- pres _ (mtry _ _) => apply pres_try
  | |- pres _ (mfinally _ _) => apply pres_finally
  | |- pres _ (mfor _ _) => apply pres_for; intros ? ?
  | |- pres _ (mmap_i _ _ _) => apply pres_map
  | |- apres _ (lift mget ≫= _) => apply apres_get; intros ? ?
  | |- apres _ (_ ≫= _) => apply apres_bind
  | |- apres _ (mret _) => apply apres_ret
  | |- apres _ (athrow _) => apply apres_throw
  | |- apres _ (acatch _ _) => apply apres_catch
  | |- apres _ (lift _) => apply apres_lift
  | |- pres _ (let _ := _ in _) => cbv zeta
  | |- apres _ (let _ := _ in _) => cbv zeta
  | |- pres _ (if ?b then _ else _) => destruct b eqn:?
  | |- apres _ (if ?b then _ else _) => destruct b eqn:?
  | |- pres _ (match ?x with _ => _ end) => destruct x eqn:?
  | |- apres _ (match ?x with _ => _ end) => destruct x eqn:?
  end.
Ltac pres := repeat first [solve [auto with pres] | pres_step].

(** ** Relations between the ends of segments *)

Section relation.
Context {S W : Type} {ans : W -> Type} (R : S -> S -> Prop) `{!PreOrder R}.
Abbreviation Sync := (M S string).
Abbreviation Step := (Step (S := S) ans).
Abbreviation Async := (Async (S := S) ans).

(** A synchronous method respects [R]: it keeps what [R] says of any earlier state. *)
Definition rpres {A} (x : Sync A) : Prop := forall m0, pres (R m0) x.

Lemma rpres_at {A} (x : Sync A) m : rpres x -> R m (x m).2.
Proof using Type*. intros Hx. by apply Hx. Qed.

(** Every segment respects [R], and a path to the end arrives in [Q]. *)
Section leads.
Context {A : Type} (Q : A -> S -> Prop).
Fixpoint arrives (m : S) (s : Step A) (m' : S) : Prop :=
  R m m' /\
  match s with
  | Fin (Ok a) => Q a m'
  | Fin (Err _) => True
  | Susp _ k => forall r m, arrives m (k r m).1 (k r m).2
  end.
Definition leads (x : Async A) : Prop := forall m, arrives m (x m).1 (x m).2.
End leads.

Lemma arrives_rel {A} Q m (s : Step A) m' : arrives Q m s m' -> R m m'.
Proof. destruct s; by intros []. Qed.

Lemma arrives_trans {A} Q m0 m (s : Step A) m' : R m0 m -> arrives Q m s m' -> arrives Q m0 s m'.
Proof using Type*. intros H0. destruct s; intros [H1 H2]; split; try done; by etrans. Qed.

Lemma leads_lift {A} (x : Sync A) (Q : A -> S -> Prop) : rpres x ->
  (forall m, match x m with (Ok a, m') => Q a m' | _ => True end) -> leads Q (lift x).
Proof using Type*.
  intros Hx HQ m. pose proof (rpres_at x m Hx) as HR. specialize (HQ m). unfold lift. destruct (x m) as [[a|e] m']; by split.
Qed.

Lemma arrives_bind {A B} (Q : A -> S -> Prop) (Q' : B -> S -> Prop) (f : A -> Async B) :
  (forall a m, Q a m -> arrives Q' m (f a m).1 (f a m).2) ->
  forall s m0 m, arrives Q m0 s m -> arrives Q' m0 (step_bind s f m).1 (step_bind s f m).2.
Proof using Type*.
  intros Hf s. induction s as [[a|e]|ws k IH] using step_ind; intros m0 m [H0 H1]; cbn.
  - eapply arrives_trans; [exact H0|]. by apply Hf.
  - by split.
  - split; [done|]. intros r m'. specialize (IH r m' m' (k r m').2 (H1 r m')). by destruct (k r m') as [s m''].
Qed.
Lemma leads_bind {A B} (Q : A -> S -> Prop) (Q' : B -> S -> Prop) (x : Async A) (f : A -> Async B) :
  leads Q x -> (forall a m, Q a m -> arrives Q' m (f a m).1 (f a m).2) -> leads Q' (x ≫= f).
Proof using Type*.
  intros Hx Hf m. specialize (Hx m). unfold mbind, Async_bind. destruct (x m) as [s m'].
  by apply (arrives_bind Q).
Qed.

Definition any {A} : A -> S -> Prop := fun _ _ => True.

Lemma arrives_any {A} Q m (s : Step A) m' : arrives Q m s m' -> arrives any m s m'.
Proof.
  revert m m'. induction s as [[a|e]|ws k IH] using step_ind; intros m m' [H1 H2]; split; try done.
  intros r m2. specialize (H2 r m2). by apply (IH r m2).
Qed.

Lemma arrives_catch {A} (Q : A -> S -> Prop) (h : string -> Async A) : (forall e, leads Q (h e)) ->
  forall s m0 m, arrives Q m0 s m -> arrives Q m0 (step_catch s h m).1 (step_catch s h m).2.
Proof using Type*.
  intros Hh s. induction s as [[a|e]|ws k IH] using step_ind; intros m0 m [H0 H1]; cbn.
  - by split.
  - eapply arrives_trans; [exact H0|]. apply Hh.
  - split; [done|]. intros r m'. specialize (IH r m' m' (k r m').2 (H1 r m')). by destruct (k r m') as [s m''].
Qed.
Lemma leads_catch {A} (Q : A -> S -> Prop) (x : Async A) h : leads Q x -> (forall e, leads Q (h e)) -> leads Q (acatch x h).
Proof using Type*.
  intros Hx Hh m. specialize (Hx m). unfold acatch. destruct (x m) as [s m']. by apply arrives_catch.
Qed.
Lemma leads_ret {A} (a : A) : leads any (mret a).
Proof using Type*. intros m. cbn. split; [reflexivity|done]. Qed.
Lemma leads_throw {A} Q e : leads Q (athrow (A := A) e).
Proof using Type*. intros m. cbn. split; [reflexivity|done]. Qed.
Lemma leads_lift_any {A} (x : Sync A) : rpres x -> leads any (lift x).
Proof using Type*. intros Hx. apply leads_lift; [done|]. intros m. by destruct (x m) as [[a|e] m']. Qed.
Lemma leads_bind_any {A B} (Q : B -> S -> Prop) (x : Async A) (f : A -> Async B) :
  leads any x -> (forall a, leads Q (f a)) -> leads Q (x ≫= f).
Proof using Type*. intros Hx Hf. eapply leads_bind; [exact Hx|]. intros a m _. apply Hf. Qed.
End relation.


Lemma arrives_mono {S W} {ans : W -> Type} {A} (R R' : S -> S -> Prop) (Q Q' : A -> S -> Prop) : (forall m m', R m m' -> R' m m') ->
  (forall a m, Q a m -> Q' a m) -> forall (s : Step (S := S) ans A) m m', arrives R Q m s m' -> arrives R' Q' m s m'.
Proof.
  intros HR HQ s. induction s as [[a|e]|ws k IH] using step_ind; intros m m' [H1 H2]; split; auto.
Qed.


(** ** Rely and guarantee *)

(** How a state may move: any number of times, none included. *)
Structure Moves (S : Type) := { moves_rel :> S -> S -> Prop; moves_preorder : PreOrder moves_rel }.
Arguments moves_rel {S} _ _ _.
#[export] Existing Instance moves_preorder.

Section rely_guarantee.
Context {S W : Type} {ans : W -> Type} (valid : forall w, ans w -> S -> Prop).
Context (I : S -> Prop) (R G : Moves S).
Abbreviation Sync := (M S string).
Abbreviation Step := (Step (S := S) ans).
Abbreviation Async := (Async (S := S) ans).

(** [m0] is where the segment began. *)
Fixpoint safe {A} (F : S -> result string A -> S -> Prop) (m0 : S) (s : Step A) (m : S) : Prop :=
  match s with
  | Fin r => F m0 r m
  | Susp w k => I m /\ G m0 m /\ forall a m', I m' -> R m m' -> valid w a m' -> safe F m' (k a m').1 (k a m').2
  end.

(** A suspended method goes on safely from whatever its wait leaves. *)
Definition waiting {A} (F : S -> result string A -> S -> Prop) (s : Step A) (m : S) : Prop :=
  match s with
  | Fin _ => True
  | Susp w k => forall a m', I m' -> R m m' -> valid w a m' -> safe F m' (k a m').1 (k a m').2
  end.
Lemma waiting_stable {A} F (s : Step A) m m' : R m m' -> waiting F s m -> waiting F s m'.
Proof. destruct s as [r|w k]; cbn; [done|]. intros HR H a m2 HI HR2. apply H; [done|]. by etrans. Qed.

Definition keeps {A} (Q : A -> S -> Prop) (E : string -> S -> Prop) (m0 : S) (r : result string A) (m : S) : Prop :=
  I m /\ G m0 m /\ match r with Ok a => Q a m | Err e => E e m end.

Definition rg {A} (P : S -> Prop) (x : Async A) (Q : A -> S -> Prop) (E : string -> S -> Prop) : Prop :=
  forall m0 m, I m -> G m0 m -> P m -> safe (keeps Q E) m0 (x m).1 (x m).2.
Definition sspec {A} (P : S -> Prop) (x : Sync A) (Q : A -> S -> Prop) (E : string -> S -> Prop) : Prop :=
  forall m, I m -> P m -> keeps Q E m (x m).1 (x m).2.

Lemma safe_mono {A} (F F' : S -> result string A -> S -> Prop) (s : Step A) m0 m :
  (forall m0 r m, F m0 r m -> F' m0 r m) -> safe F m0 s m -> safe F' m0 s m.
Proof.
  intros HF. revert m0 m. induction s as [r|w k IH] using step_ind; intros m0 m; cbn; [apply HF|].
  intros (HI & HG & H). split_and!; [done..|]. intros a m' HI' HR Hv. by apply IH, H.
Qed.

(** Sequencing, for any final condition of the whole *)
Lemma safe_bind {A B} (x : Step A) (f : A -> Async B) F F' m0 m :
  safe F m0 x m -> (forall m0 m e, F m0 (Err e) m -> F' m0 (Err e) m) ->
  (forall m0 m a, F m0 (Ok a) m -> safe F' m0 (f a m).1 (f a m).2) ->
  safe F' m0 (step_bind x f m).1 (step_bind x f m).2.
Proof.
  intros H HE HQ. revert m0 m H. induction x as [[a|e]|w k IH] using step_ind; intros m0 m; cbn.
  - apply HQ.
  - apply HE.
  - intros (HI & HG & H). split_and!; [done..|]. intros a m' HI' HR Hv. specialize (IH a m' m' (k a m').2 (H a m' HI' HR Hv)).
    by destruct (k a m') as [s m''].
Qed.
Lemma rg_bind_then {A B} P Q E (x : Async A) (f : A -> Async B) F m0 m :
  rg P x Q E -> I m -> G m0 m -> P m ->
  (forall m0 m e, keeps Q E m0 (Err e) m -> F m0 (Err e) m) ->
  (forall m0 m a, I m -> G m0 m -> Q a m -> safe F m0 (f a m).1 (f a m).2) ->
  safe F m0 ((x ≫= f) m).1 ((x ≫= f) m).2.
Proof.
  intros Hx HI HG HP HE Hf. specialize (Hx m0 m HI HG HP). unfold mbind, Async_bind. destruct (x m) as [s m'].
  eapply safe_bind; [exact Hx|exact HE|]. intros m1 m2 a (H1 & H2 & H3). by apply Hf.
Qed.
Lemma rg_bind {A B} P Q Q' E (x : Async A) (f : A -> Async B) :
  rg P x Q E -> (forall a, rg (Q a) (f a) Q' E) -> rg P (x ≫= f) Q' E.
Proof.
  intros Hx Hf m0 m HI HG HP. eapply rg_bind_then; [exact Hx|done..| |].
  - intros m1 m2 e H. exact H.
  - intros m1 m2 a. apply Hf.
Qed.

Lemma rg_catch {A} P Q E E' (x : Async A) h : rg P x Q E' -> (forall e, rg (E' e) (h e) Q E) -> rg P (acatch x h) Q E.
Proof.
  intros Hx Hh m0 m HI HG HP. specialize (Hx m0 m HI HG HP). unfold acatch. destruct (x m) as [s m']. cbn in Hx.
  clear HG HP HI. revert m0 m' Hx. induction s as [[a|e]|w k IH] using step_ind; intros m0 m'; cbn.
  - done.
  - intros (H1 & H2 & H3). by apply Hh.
  - intros (HI & HG & H). split_and!; [done..|]. intros a m2 HI' HR Hv. specialize (IH a m2 m2 (k a m2).2 (H a m2 HI' HR Hv)).
    by destruct (k a m2) as [s m''].
Qed.

Lemma rg_conseq {A} P P' Q Q' E E' (x : Async A) : rg P' x Q' E' -> (forall m, I m -> P m -> P' m) ->
  (forall a m, I m -> Q' a m -> Q a m) -> (forall e m, I m -> E' e m -> E e m) -> rg P x Q E.
Proof.
  intros Hx HP HQ HE m0 m HI HG Hm. eapply safe_mono; [|by apply Hx, HP].
  intros m1 [a|e] m2 (H1 & H2 & H3); (split_and!; [done..|]); [by apply HQ|by apply HE].
Qed.

(** Facts that the method itself and the others leave alone *)
Lemma rg_frame {A} F P Q E (x : Async A) : (forall m m', R m m' -> F m -> F m') -> (forall m m', G m m' -> F m -> F m') ->
  rg P x Q E -> rg (fun m => P m /\ F m) x (fun a m => Q a m /\ F m) E.
Proof.
  intros HR HG H m0 m HI HG0 [HP Hm]. specialize (H m m HI (reflexivity m) HP).
  assert (forall s m0' m1 m2, G m0' m1 -> F m1 -> safe (keeps Q E) m1 s m2 -> safe (keeps (fun a m => Q a m /\ F m) E) m0' s m2) as Hs.
  { induction s as [[a|e]|w k IH] using step_ind; intros m0' m1 m2 H0 H1 H2; cbn in *.
    - destruct H2 as (H2 & H3 & H4). split_and!; [done|by etrans|done|by eapply HG].
    - destruct H2 as (H2 & H3 & H4). split_and!; [done|by etrans|done].
    - destruct H2 as (H2 & H3 & H4). split_and!; [done|by etrans|]. intros a m' HI' HR' Hv.
      eapply IH; [reflexivity| |by apply H4]. eapply HR; [exact HR'|]. by eapply HG. }
  by eapply Hs.
Qed.

Lemma rg_eq {A} P (x y : Async A) Q E : (forall m, x m = y m) -> rg P y Q E -> rg P x Q E.
Proof. intros He H m0 m HI HG HP. rewrite He. by apply H. Qed.
Lemma rg_ret {A} (a : A) P Q E : (forall m, I m -> P m -> Q a m) -> rg P (mret a) Q E.
Proof. intros H m0 m HI HG HP. split_and!; [done..|by apply H]. Qed.
Lemma rg_throw {A} e P (Q : A -> S -> Prop) E : (forall m, I m -> P m -> E e m) -> rg P (athrow e) Q E.
Proof. intros H m0 m HI HG HP. split_and!; [done..|by apply H]. Qed.
Lemma rg_result {A} (r : result string A) P Q E :
  (forall m, I m -> P m -> match r with Ok a => Q a m | Err e => E e m end) -> rg P (fun m => (Fin r, m)) Q E.
Proof. intros H m0 m HI HG HP. split_and!; [done..|]. by apply H. Qed.
Lemma rg_lift {A} (x : Sync A) P Q E : sspec P x Q E -> rg P (lift x) Q E.
Proof.
  intros H m0 m HI HG HP. specialize (H m HI HP). unfold lift. destruct (x m) as [r m']. destruct H as (H1 & H2 & H3).
  split_and!; [done| |done]. by etrans.
Qed.
Lemma rg_get {A} P Q E (f : S -> Async A) : (forall m, I m -> P m -> rg (fun m' => m' = m) (f m) Q E) -> rg P (lift mget ≫= f) Q E.
Proof. intros H m0 m HI HG HP. rewrite async_get. by apply H. Qed.

(** An await: what is known must survive the others; the answer adds to it. *)
Lemma rg_await w P (Q : ans w -> S -> Prop) E :
  (forall m m', I m -> I m' -> R m m' -> P m -> P m') -> (forall a m, I m -> P m -> valid w a m -> Q a m) ->
  rg P (fun m => (Susp w (fun r m => (Fin (Ok r), m)), m)) Q E.
Proof.
  intros HS HQ m0 m HI HG HP. cbn. split_and!; [done..|]. intros a m' HI' HR Hv. split_and!; [done|reflexivity|]. eauto.
Qed.

Lemma sspec_ret {A} (a : A) P Q E : (forall m, I m -> P m -> Q a m) -> sspec P (mret a) Q E.
Proof. intros H m HI HP. split_and!; [done|reflexivity|by apply H]. Qed.
Lemma sspec_throw {A} e P (Q : A -> S -> Prop) E : (forall m, I m -> P m -> E e m) -> sspec P (mthrow e) Q E.
Proof. intros H m HI HP. split_and!; [done|reflexivity|by apply H]. Qed.
Lemma sspec_modify f P Q E : (forall m, I m -> P m -> I (f m) /\ G m (f m) /\ Q tt (f m)) -> sspec P (mmodify f) Q E.
Proof. intros H m HI HP. by apply H. Qed.
Lemma sspec_bind {A B} P Q Q' E (x : Sync A) (f : A -> Sync B) :
  sspec P x Q E -> (forall a, sspec (Q a) (f a) Q' E) -> sspec P (x ≫= f) Q' E.
Proof.
  intros Hx Hf m HI HP. specialize (Hx m HI HP). unfold mbind, M_bind. destruct (x m) as [[a|e] m']; destruct Hx as (H1 & H2 & H3).
  - specialize (Hf a m' H1 H3). cbn in *. destruct (f a m') as [r m'']. destruct Hf as (H4 & H5 & H6). split_and!; [done| |done]. by etrans.
  - by split_and!.
Qed.
Lemma sspec_get {A} P Q E (f : S -> Sync A) : (forall m, I m -> P m -> sspec (fun m' => m' = m) (f m) Q E) -> sspec P (mget ≫= f) Q E.
Proof. intros H m HI HP. by apply (H m HI HP m). Qed.
Lemma sspec_conseq {A} P P' Q Q' E E' (x : Sync A) : sspec P' x Q' E' -> (forall m, I m -> P m -> P' m) ->
  (forall a m, I m -> Q' a m -> Q a m) -> (forall e m, I m -> E' e m -> E e m) -> sspec P x Q E.
Proof.
  intros Hx HP HQ HE m HI Hm. destruct (Hx m HI (HP m HI Hm)) as (H1 & H2 & H3).
  split_and!; [done..|]. destruct (x m) as [[a|e] m']; [by apply HQ|by apply HE].
Qed.
End rely_guarantee.
