(* ===== verification/JsNum.v ===== *)
(** * JavaScript numbers

    An ECMAScript Number is an IEEE 754 binary64 value.  [num] is Rocq's [spec_float], whose
    operations are instantiated at precision 53 and maximal exponent 1024; [as_int] is the
    value of [Number.isInteger] together with the integer, so that code which first tests
    for an integer continues on [Z].  The order lemmas are what the deterministic tie-breaks of
    the planner and of the phase placement rely on. *)

From S2P Require Import Prelude.
From Stdlib Require Import SpecFloat.

Definition num : Type := spec_float.

Definition num_of_Z (z : Z) : num := binary_normalize 53 1024 z 0 false.
Definition num_add : num -> num -> num := SFadd 53 1024.
Definition num_sub : num -> num -> num := SFsub 53 1024.
Definition num_mul : num -> num -> num := SFmul 53 1024.
Definition num_div : num -> num -> num := SFdiv 53 1024.
Definition num_ltb : num -> num -> bool := SFltb.
Definition num_leb : num -> num -> bool := SFleb.
(** [===] on numbers. *)
Definition num_eqb : num -> num -> bool := SFeqb.

Definition num_nan : num := S754_nan.
Definition num_inf : num := S754_infinity false.
Definition num_zero : num := S754_zero false.

(** A literal [m * 2^e] *)
Definition num_lit (m e : Z) : num := binary_normalize 53 1024 m e false.
(** [Math.abs], [Math.sqrt], [-x] *)
Definition num_abs (x : num) : num := SFabs x.
Definition num_sqrt (x : num) : num := SFsqrt 53 1024 x.
Definition num_opp (x : num) : num := SFopp x.
(** [Math.max(a, b)] and [Math.min(a, b)] (the sign of zero aside) *)
Definition num_max (a b : num) : num :=
  match a, b with S754_nan, _ | _, S754_nan => S754_nan | _, _ => if num_ltb a b then b else a end.
Definition num_min (a b : num) : num :=
  match a, b with S754_nan, _ | _, S754_nan => S754_nan | _, _ => if num_ltb b a then b else a end.

Definition isNaN (x : num) : bool := match x with S754_nan => true | _ => false end.
(** [Number.isFinite] *)
Definition isFinite (x : num) : bool :=
  match x with S754_nan | S754_infinity _ => false | _ => true end.

Definition signed (s : bool) (m : positive) : Z := if s then Z.neg m else Z.pos m.

(** [Number.isInteger(x)], with the integer when it holds. *)
Definition as_int (x : num) : option Z :=
  match x with
  | S754_zero _ => Some 0
  | S754_finite s m e =>
      if 0 <=? e then Some (signed s m * 2 ^ e)
      else if Z.pos m mod 2 ^ (- e) =? 0 then Some (signed s m / 2 ^ (- e)) else None
  | _ => None
  end.

Definition isInteger (x : num) : bool :=
  match as_int x with Some _ => true | None => false end.

Definition MAX_SAFE_INTEGER : Z := 2 ^ 53 - 1.

(** [Number.isSafeInteger(x)], with the integer when it holds. *)
Definition as_safe_int (x : num) : option Z :=
  match as_int x with
  | Some z => if (Z.abs z <=? MAX_SAFE_INTEGER) then Some z else None
  | None => None
  end.

(** The greatest integer below a finite number. *)
Definition floor_Z (x : num) : option Z :=
  match x with
  | S754_zero _ => Some 0
  | S754_finite s m e =>
      if 0 <=? e then Some (signed s m * 2 ^ e) else Some (signed s m / 2 ^ (- e))
  | _ => None
  end.

(** [Math.floor] *)
Definition js_floor (x : num) : num :=
  match x with
  | S754_finite _ _ _ => match floor_Z x with Some z => num_of_Z z | None => x end
  | _ => x
  end.

(** [Math.ceil] *)
Definition js_ceil (x : num) : num := num_opp (js_floor (num_opp x)).

(** [Math.round]: the integer nearest to [x], ties towards +Infinity. *)
Definition js_round (x : num) : num :=
  match x with
  | S754_finite s m e =>
      if 0 <=? e then x
      else
        let z := (2 * signed s m + 2 ^ (- e)) / 2 ^ (1 - e) in
        if (z =? 0) && s then S754_zero true else num_of_Z z
  | _ => x
  end.

(** Truthiness of a number: [NaN], [0] and [-0] are falsy. *)
Definition truthy_num (x : num) : bool :=
  match x with S754_nan | S754_zero _ => false | _ => true end.

(** [x && x > 0] on an optional number. *)
Definition positive_num (x : num) : bool := num_ltb num_zero x.

Example num_of_Z_3 : as_int (num_of_Z 3) = Some 3.
Proof. reflexivity. Qed.
Example num_half_not_int : as_int (num_div (num_of_Z 1) (num_of_Z 2)) = None.
Proof. reflexivity. Qed.
Example js_round_tie : js_round (num_div (num_of_Z 5) (num_of_Z 2)) = num_of_Z 3.
Proof. reflexivity. Qed.

(** ** Order *)

Lemma pos_compare_cont_Eq m n : Pos.compare_cont Eq m n = Pos.compare m n.
Proof. reflexivity. Qed.

(** The comparison of finite numbers, zeros and infinities is the comparison of a triple of
    integers: the sign class, the signed exponent and the signed mantissa. *)
Definition num_key (x : num) : Z * Z * Z :=
  match x with
  | S754_nan => (0, 0, 0)
  | S754_zero _ => (0, 0, 0)
  | S754_infinity s => (if s then -2 else 2, 0, 0)
  | S754_finite s m e =>
      if s then (-1, - e, Z.neg m) else (1, e, Z.pos m)
  end.

Definition key_compare (a b : Z * Z * Z) : comparison :=
  match a.1.1 ?= b.1.1 with
  | Eq => match a.1.2 ?= b.1.2 with Eq => a.2 ?= b.2 | c => c end
  | c => c
  end.

Lemma num_compare_key x y :
  isNaN x = false -> isNaN y = false -> SFcompare x y = Some (key_compare (num_key x) (num_key y)).
Proof.
  destruct x as [s|s| |s m e], y as [s'|s'| |s' m' e']; try done; intros _ _;
    try (destruct s); try (destruct s'); try reflexivity;
    unfold SFcompare, key_compare, num_key; simpl; rewrite pos_compare_cont_Eq.
  rewrite Z.compare_opp, (Z.compare_antisym e' e).
    destruct (e' ?= e); reflexivity.
Qed.

Lemma key_compare_Lt a b :
  key_compare a b = Lt <->
    a.1.1 < b.1.1 \/ a.1.1 = b.1.1 /\ (a.1.2 < b.1.2 \/ a.1.2 = b.1.2 /\ a.2 < b.2).
Proof.
  unfold key_compare.
  destruct (Z.compare_spec a.1.1 b.1.1), (Z.compare_spec a.1.2 b.1.2),
    (Z.compare_spec a.2 b.2); split; intros; try done; lia.
Qed.

Lemma key_compare_lt_trans a b c :
  key_compare a b = Lt -> key_compare b c = Lt -> key_compare a c = Lt.
Proof. rewrite !key_compare_Lt. lia. Qed.

Lemma key_compare_antisym a b : key_compare b a = CompOpp (key_compare a b).
Proof.
  destruct a as [[a1 a2] a3], b as [[b1 b2] b3]. unfold key_compare; simpl.
  rewrite (Z.compare_antisym a1 b1), (Z.compare_antisym a2 b2), (Z.compare_antisym a3 b3).
  destruct (a1 ?= b1), (a2 ?= b2), (a3 ?= b3); reflexivity.
Qed.

Lemma key_compare_eq a b : key_compare a b = Eq -> a = b.
Proof.
  destruct a as [[a1 a2] a3], b as [[b1 b2] b3]. unfold key_compare; simpl.
  destruct (Z.compare_spec a1 b1), (Z.compare_spec a2 b2), (Z.compare_spec a3 b3);
    by intros; subst.
Qed.

Lemma num_ltb_lt x y :
  isNaN x = false -> isNaN y = false ->
  num_ltb x y = true <-> key_compare (num_key x) (num_key y) = Lt.
Proof.
  intros Hx Hy. unfold num_ltb, SFltb. rewrite num_compare_key by done.
  destruct key_compare; naive_solver.
Qed.

Lemma num_ltb_not_nan x y : num_ltb x y = true -> isNaN x = false /\ isNaN y = false.
Proof. by destruct x as [[]|[]| |[] ? ?], y as [[]|[]| |[] ? ?]. Qed.

Lemma num_ltb_trans x y z : num_ltb x y = true -> num_ltb y z = true -> num_ltb x z = true.
Proof.
  intros H1 H2. destruct (num_ltb_not_nan _ _ H1) as [Hx Hy], (num_ltb_not_nan _ _ H2) as [_ Hz].
  rewrite num_ltb_lt in * by done. eauto using key_compare_lt_trans.
Qed.

Lemma num_ltb_irrefl x : num_ltb x x = false.
Proof.
  destruct (isNaN x) eqn:E; [by destruct x|].
  apply not_true_is_false. rewrite num_ltb_lt by done. intros H.
  pose proof (key_compare_antisym (num_key x) (num_key x)) as Ha. by rewrite H in Ha.
Qed.

(** On values that are not NaN, [<] is a total preorder whose equivalence is [===]. *)
Lemma num_trichotomy x y :
  isNaN x = false -> isNaN y = false ->
  num_ltb x y = true \/ num_eqb x y = true \/ num_ltb y x = true.
Proof.
  intros Hx Hy. rewrite !num_ltb_lt by done.
  unfold num_eqb, SFeqb. rewrite num_compare_key by done.
  rewrite (key_compare_antisym (num_key x)). destruct key_compare; auto.
Qed.

Lemma num_eqb_key x y :
  isNaN x = false -> isNaN y = false -> num_eqb x y = true <-> num_key x = num_key y.
Proof.
  intros Hx Hy. unfold num_eqb, SFeqb. rewrite num_compare_key by done. split.
  - destruct key_compare eqn:E; intros; try done. by apply key_compare_eq.
  - intros ->. destruct (key_compare (num_key y) (num_key y)) eqn:E; [done|..];
    pose proof (key_compare_antisym (num_key y) (num_key y)) as Ha; by rewrite E in Ha.
Qed.

Lemma isInteger_not_nan x : isInteger x = true -> isNaN x = false.
Proof. by destruct x. Qed.

Lemma num_leb_false_ltb x y :
  isNaN x = false -> isNaN y = false -> num_leb y x = false -> num_ltb x y = true.
Proof.
  intros Hx Hy. rewrite num_ltb_lt by done. unfold num_leb, SFleb. rewrite num_compare_key by done.
  rewrite (key_compare_antisym (num_key x)). by destruct key_compare.
Qed.

(** ** Arithmetic on non-negative values never produces NaN *)

Definition nonneg (x : num) : bool :=
  match x with
  | S754_nan => false
  | S754_zero s | S754_infinity s | S754_finite s _ _ => negb s
  end.

Lemma nonneg_not_nan x : nonneg x = true -> isNaN x = false.
Proof. by destruct x. Qed.

Lemma shr_1_nonneg mrs : 0 <= shr_m mrs -> 0 <= shr_m (shr_1 mrs).
Proof. destruct mrs as [[|[p|p|]|[p|p|]] r s]; simpl; lia. Qed.

Lemma iter_pos_ind {A} (f : A -> A) (P : A -> Prop) n x :
  (forall y, P y -> P (f y)) -> P x -> P (iter_pos f n x).
Proof. intros Hf. revert x. induction n; simpl; auto. Qed.

Lemma shr_nonneg mrs e n : 0 <= shr_m mrs -> 0 <= shr_m (shr mrs e n).1.
Proof.
  intros H. unfold shr. destruct n; simpl; [done| |done].
  by apply (iter_pos_ind shr_1 (fun m => 0 <= shr_m m)); [apply shr_1_nonneg|].
Qed.

Lemma shr_fexp_nonneg p em m e l : 0 <= m -> 0 <= shr_m (shr_fexp p em m e l).1.
Proof.
  intros H. unfold shr_fexp. apply shr_nonneg. by destruct l as [|[]].
Qed.

Lemma round_nearest_even_nonneg m l : 0 <= m -> 0 <= round_nearest_even m l.
Proof. intros H. destruct l as [|[]]; simpl; [lia| |lia|lia]. destruct (Z.even m); lia. Qed.

Lemma binary_round_aux_nonneg m e l :
  0 <= m -> nonneg (binary_round_aux 53 1024 false m e l) = true.
Proof.
  intros H. unfold binary_round_aux.
  pose proof (shr_fexp_nonneg 53 1024 m e l H) as H1.
  destruct (shr_fexp 53 1024 m e l) as [mrs e1]. simpl in H1.
  pose proof (shr_fexp_nonneg 53 1024 _ e1 loc_Exact
    (round_nearest_even_nonneg _ (loc_of_shr_record mrs) H1)) as H2.
  destruct (shr_fexp 53 1024 _ e1 loc_Exact) as [mrs2 e2]. simpl in H2.
  destruct (shr_m mrs2); [done| |lia]. by case_match.
Qed.

(** The product of a non-negative value (possibly infinite) and a positive finite one. *)
Lemma num_mul_nonneg x y :
  nonneg x = true -> positive_num y = true -> isFinite y = true -> nonneg (num_mul x y) = true.
Proof.
  destruct x as [[]|[]| |[] m e], y as [[]|[]| |[] m' e']; try done; intros _ _ _.
  by apply binary_round_aux_nonneg.
Qed.

(** The quotient of a non-negative value by a positive one, not both infinite. *)
Lemma num_div_nonneg x y :
  nonneg x = true -> positive_num y = true -> isFinite x = true \/ isFinite y = true ->
  nonneg (num_div x y) = true.
Proof.
  destruct x as [[]|[]| |[] m e], y as [[]|[]| |[] m' e']; try done; intros _ _ H;
    try (destruct H; done).
  unfold num_div, SFdiv. simpl xorb. unfold SFdiv_core_binary.
  destruct (Z.div_eucl _ (Z.pos m')) as [q r] eqn:E.
  apply binary_round_aux_nonneg.
  change q with (fst (q, r)). rewrite <-E. change (fst (Z.div_eucl ?a ?b)) with (a / b).
  apply Z.div_pos; [|lia]. case_match; try lia. apply Z.shiftl_nonneg. lia.
Qed.

Lemma binary_normalize_nonneg m e : 0 <= m -> nonneg (binary_normalize 53 1024 m e false) = true.
Proof.
  intros H. unfold binary_normalize. destruct m; [done| |lia].
  unfold binary_round. destruct shl_align. apply binary_round_aux_nonneg. lia.
Qed.

Lemma num_add_nonneg x y : nonneg x = true -> nonneg y = true -> nonneg (num_add x y) = true.
Proof.
  destruct x as [[]|[]| |[] m e], y as [[]|[]| |[] m' e']; try done; intros _ _.
  unfold num_add, SFadd. apply binary_normalize_nonneg. simpl. lia.
Qed.

(** ** Integers as numbers

    A safe integer is a binary64 value exactly, so writing one into a message and reading it back loses nothing. *)

Lemma digits_size p : digits2_pos p = Pos.size p.
Proof. induction p as [p IH|p IH|]; cbn; by rewrite ?IH. Qed.

Lemma shift_pos_mul d m : Z.pos (Pos.iter xO m d) = Z.pos m * 2 ^ Z.pos d.
Proof.
  induction d as [|d IH] using Pos.peano_ind; [cbn; lia|]. rewrite Pos.iter_succ, Pos2Z.inj_succ, Z.pow_succ_r by lia. lia.
Qed.

Lemma fexp_small p : (Pos.size p <= 53)%positive -> fexp 53 1024 (Z.pos (digits2_pos p) + 0) = Z.pos (Pos.size p) - 53.
Proof. intros H. unfold fexp, emin. rewrite digits_size. lia. Qed.

Lemma size_shift d p : Pos.size (Pos.iter xO p d) = (Pos.size p + d)%positive.
Proof.
  induction d as [|d IH] using Pos.peano_ind.
  - cbn. lia.
  - rewrite Pos.iter_succ. cbn [Pos.size]. rewrite IH. lia.
Qed.

(** A mantissa of 53 bits is not rounded. *)
Lemma round_aux_exact s m e : Pos.size m = 53%positive -> -1074 <= e <= 971 ->
  binary_round_aux 53 1024 s (Z.pos m) e loc_Exact = S754_finite s m e.
Proof.
  intros Hs He. unfold binary_round_aux, shr_fexp. cbn [Zdigits2]. rewrite digits_size, Hs.
  assert (fexp 53 1024 (53 + e) = e) as Hf by (unfold fexp, emin; lia). rewrite Hf, Z.sub_diag. cbn [shr].
  cbn [shr_record_of_loc shr_m shr_r shr_s loc_of_shr_record round_nearest_even].
  cbn [Zdigits2]. rewrite digits_size, Hs, Hf, Z.sub_diag. cbn. destruct (Z.leb_spec e (1024 - 53)); [done|lia].
Qed.

Lemma normalize_exact s p : (Pos.size p <= 53)%positive -> exists m e, binary_round 53 1024 s p 0 = S754_finite s m e ∧
  e <= 0 ∧ Z.pos m = Z.pos p * 2 ^ (- e).
Proof.
  intros Hp. unfold binary_round. rewrite fexp_small by done. unfold shl_align. rewrite Z.sub_0_r.
  destruct (Z.pos (Pos.size p) - 53) as [|q|q] eqn:E; [|lia|].
  - exists p, 0. split; [apply round_aux_exact; lia|]. split; [lia|]. cbn. lia.
  - exists (Pos.iter xO p q), (Z.neg q). split; [|split; [lia|apply shift_pos_mul]].
    apply round_aux_exact; [rewrite size_shift|]; lia.
Qed.

Lemma as_int_scaled s m e p : e <= 0 -> Z.pos m = Z.pos p * 2 ^ (- e) -> as_int (S754_finite s m e) = Some (signed s p).
Proof.
  intros He Hm. unfold as_int. destruct (Z.leb_spec 0 e) as [H0|H0].
  - assert (e = 0) as -> by lia. cbn in Hm. f_equal. unfold signed. destruct s; lia.
  - rewrite Hm, Z.mod_mul by (apply Z.pow_nonzero; lia). cbn. f_equal.
    assert (signed s m = signed s p * 2 ^ (- e)) as -> by (unfold signed; destruct s; lia).
    apply Z.div_mul. apply Z.pow_nonzero; lia.
Qed.

Lemma size_safe p : Z.pos p <= MAX_SAFE_INTEGER -> (Pos.size p <= 53)%positive.
Proof.
  intros Hp. destruct (Pos.leb_spec (Pos.size p) 53) as [|H]; [done|]. exfalso.
  pose proof (Pos2Z.pos_le_pos _ _ (Pos.size_le p)) as Hl. rewrite Pos2Z.inj_pow in Hl.
  pose proof (Z.pow_le_mono_r 2 54 (Z.pos (Pos.size p)) ltac:(lia) ltac:(lia)) as H2.
  unfold MAX_SAFE_INTEGER in Hp. change (2 ^ 53) with 9007199254740992 in Hp. change (2 ^ 54) with 18014398509481984 in H2. lia.
Qed.

Lemma num_of_Z_exact z : Z.abs z <= MAX_SAFE_INTEGER -> as_safe_int (num_of_Z z) = Some z.
Proof.
  intros Hz. unfold as_safe_int. assert (as_int (num_of_Z z) = Some z) as ->.
  { destruct z as [|p|p]; [done|..]; unfold num_of_Z, binary_normalize.
    - destruct (normalize_exact false p) as (m & e & -> & He & Hm); [apply size_safe; lia|]. by apply (as_int_scaled false m e p).
    - destruct (normalize_exact true p) as (m & e & -> & He & Hm); [apply size_safe; lia|]. by apply (as_int_scaled true m e p). }
  by destruct (Z.leb_spec (Z.abs z) MAX_SAFE_INTEGER); [|lia].
Qed.
