(* ===== verification/Json.v ===== *)
(** * JSON values

    What [JSON.parse] produces, as the code inspects it: [typeof], [Array.isArray], property reads
    (an absent property is [undefined], here [None]) and [Object.keys].  Objects are association
    lists in insertion order, the first binding of a key being the object's. *)

From S2P Require Import Prelude JsNum.

Inductive json :=
  | JNull
  | JBool (b : bool)
  | JNum (n : num)
  | JStr (s : string)
  | JArr (l : list json)
  | JObj (l : list (string * json)).

Definition fields : Type := list (string * json).

(** [o[k]] *)
Definition jget (o : fields) (k : string) : option json :=
  snd <$> find (fun kv => String.eqb kv.1 k) o.

(** [Object.keys(o)], [Object.values(o)] *)
Definition keys (o : fields) : list string := fst <$> o.
Definition values (o : fields) : list json := snd <$> o.

(** [typeof v === "string"] and the like on a property that may be absent. *)
Definition as_str (v : option json) : option string := match v with Some (JStr s) => Some s | _ => None end.
Definition as_num (v : option json) : option num := match v with Some (JNum n) => Some n | _ => None end.
Definition as_bool (v : option json) : option bool := match v with Some (JBool b) => Some b | _ => None end.
Definition as_arr (v : option json) : option (list json) := match v with Some (JArr l) => Some l | _ => None end.
Definition as_obj (v : option json) : option fields := match v with Some (JObj o) => Some o | _ => None end.

Definition holds {A} (f : A -> bool) (o : option A) : bool := match o with Some a => f a | None => false end.
Definition present {A} (o : option A) : bool := match o with Some _ => true | None => false end.

Definition isStr (v : option json) : bool := present (as_str v).
Definition isObj (v : option json) : bool := present (as_obj v).
Definition isArray (v : option json) : bool := present (as_arr v).
Definition isBool (v : option json) : bool := present (as_bool v).
(** [typeof v === "number" && Number.isFinite(v)] *)
Definition isNum (v : option json) : bool := holds isFinite (as_num v).

(** Truthiness of a property. *)
Definition truthy_json (v : option json) : bool :=
  match v with
  | None | Some JNull => false
  | Some (JBool b) => b
  | Some (JNum n) => truthy_num n
  | Some (JStr s) => negb (String.eqb s "")
  | Some (JArr _) | Some (JObj _) => true
  end.

(** [l.includes(v as string)] *)
Definition one_of (l : list string) (v : option json) : bool :=
  holds (fun s => existsb (String.eqb s) l) (as_str v).

(** [v === s] for a string literal, [v === z] for an integer literal. *)
Definition is_string (s : string) (v : option json) : bool := holds (String.eqb s) (as_str v).
Definition is_number (z : Z) (v : option json) : bool := holds (fun n => num_eqb n (num_of_Z z)) (as_num v).

Lemma holds_true {A} (f : A -> bool) o : holds f o = true <-> exists a, o = Some a ∧ f a = true.
Proof. destruct o; simpl; naive_solver. Qed.

Lemma is_string_spec s v : is_string s v = true <-> v = Some (JStr s).
Proof.
  unfold is_string. rewrite holds_true. split.
  - intros (t & Ht & ->%String.eqb_eq). destruct v as [[]|]; naive_solver.
  - intros ->. exists s. by rewrite String.eqb_refl.
Qed.

(** [a === b]; two arrays or objects read from different places are different references. *)
Definition strict_eq (a b : option json) : bool :=
  match a, b with
  | None, None => true
  | Some JNull, Some JNull => true
  | Some (JBool x), Some (JBool y) => Bool.eqb x y
  | Some (JNum x), Some (JNum y) => num_eqb x y
  | Some (JStr x), Some (JStr y) => String.eqb x y
  | _, _ => false
  end.
