(* ===== verification/Types.v ===== *)
(** * The shared contract (swarmlet/protocol/types.ts, control/registry.ts rows)

    One record per interface, optional properties as [option], string unions as inductive
    types.  Sizes are MiB and are integers ([Z]): offers are floored by [validateOffer] and profile
    numbers are integers by [validateProfile].  Quantities that arrive unvalidated from a request
    or a measurement (ctx, parallel, chain, layer counts, RTTs, throughputs) are JavaScript
    numbers ([num]), so the integer tests of the code are real tests here. *)

From S2P Require Import Prelude JsNum Json.

Inductive Backend := cuda | metal | cpu | other.
Inductive Os := darwin | linux | win32.
Inductive Arch := arm64 | x64.
Inductive ModelKind := gguf | mtp | mmproj.

#[export] Instance Backend_eq : EqDecision Backend.
Proof. solve_decision. Defined.
#[export] Instance Os_eq : EqDecision Os.
Proof. solve_decision. Defined.
#[export] Instance ModelKind_eq : EqDecision ModelKind.
Proof. solve_decision. Defined.

Record GpuDevice := {
  gd_id : string; gd_name : string; gd_backend : Backend;
  gd_engineName : string; gd_totalMiB : Z; gd_freeMiB : option Z }.

Record NetMeasurement := {
  nm_rttMs : num; nm_upMbit : option num; nm_downMbit : option num; nm_measuredAt : string }.

Record BenchResult := {
  br_modelSha256 : string; br_engine : string; br_engineSha256 : string; br_kind : string;
  br_ctx : num; br_parallel : num; br_promptTokens : num; br_genTokens : num;
  br_prefillTokPerSec : num; br_decodeTokPerSec : num; br_measuredAt : string }.

Record HostPort := { hp_host : string; hp_port : Z }.

Record EngineCaps := {
  en_proto : string; en_sha256 : gmap string string; en_stages : option string }.

Record Capabilities := {
  cap_allocationVersion : option Z;
  cap_os : Os; cap_arch : Arch; cap_hostname : string;
  cap_ramMiB : Z; cap_ramReserveMiB : Z; cap_cpuCores : Z;
  cap_gpus : list GpuDevice; cap_diskFreeMiB : Z;
  cap_privateIps : list string; cap_publicIp : option string;
  cap_publicEndpoints : option (list HostPort); cap_dataPort : option Z;
  cap_cgroup : option (bool * bool);
  cap_engine : option EngineCaps; cap_net : option NetMeasurement;
  cap_bench : option (list BenchResult); cap_measuredAt : string }.

Record Roles := { ro_worker : bool; ro_coordinator : bool; ro_replica : bool }.
Record GpuMem := { gm_id : string; gm_memMiB : Z }.

Record Offer := {
  of_enabled : bool; of_roles : Roles; of_gpu : list GpuMem;
  of_ramMiB : Z; of_cpuCores : Z; of_diskMiB : Z; of_modelsDir : string }.

Record ModelFile := {
  mf_name : string; mf_path : string; mf_sizeBytes : Z;
  mf_sha256 : option string; mf_kind : ModelKind }.

(** [{ rttMs, measuredAt }] of a heartbeat's link. *)
Record LinkMeasurement := { lm_rttMs : num; lm_measuredAt : string }.

(** The measurements of a heartbeat the control plane computes with; [mx_gpu] pairs a device id with [usedMiB]. *)
Record NodeMetrics := {
  mx_ts : string; mx_link : option LinkMeasurement; mx_cpuPct : option num;
  mx_gpu : option (list (string * num));
  mx_tokPerSec : option num; mx_prefillTokPerSec : option num;
  mx_freeRamMiB : option num; mx_rssMiB : option num }.

(** ** Assignments *)

Record Endpoint := {
  ep_nodeId : string; ep_certFp : string; ep_port : Z;
  ep_direct : list HostPort; ep_relay : bool; ep_inbound : option bool }.

Record Enforce := { ef_ramMiB : option Z; ef_cpuCores : option Z }.
Record ModelRef := { mr_path : string; mr_sha256 : option string }.
Record MtpRef := { mt_path : string; mt_chain : Z }.

(** [sp_extra] lists the keys of the request object other than [type]. *)
Record NgramSpeculation := { sp_type : string; sp_extra : list string }.

Record WorkerAssignment := {
  wa_id : string; wa_deploymentId : string; wa_port : Z; wa_device : string; wa_threads : Z;
  wa_memCapMiB : option Z; wa_layers : option Z; wa_modelLayers : option Z;
  wa_peerPort : option Z; wa_peers : option (list (Z * Endpoint)); wa_serve : option Endpoint;
  wa_allow : list string; wa_enforce : option Enforce; wa_cache : option bool }.

Record CoordinatorAssignment := {
  ca_id : string; ca_deploymentId : string; ca_model : ModelRef; ca_rpc : list Endpoint;
  ca_devices : list string; ca_tensorSplit : list Z; ca_ctx : Z; ca_parallel : Z;
  ca_mtp : option MtpRef; ca_speculation : option NgramSpeculation;
  ca_env : list (string * string); ca_extraArgs : list string; ca_port : Z;
  ca_modelName : option string; ca_fitMiB : option Z; ca_stopExternal : option string;
  ca_allow : list string; ca_enforce : option Enforce }.

Record ExternalServer := {
  ex_url : string; ex_healthPath : string; ex_maintenance : option string;
  ex_upstreamModel : option string }.

Record ReplicaAssignment := {
  ra_id : string; ra_deploymentId : string; ra_port : Z; ra_model : option ModelRef;
  ra_external : option ExternalServer; ra_modelName : option string;
  ra_ctx : option Z; ra_parallel : option Z; ra_device : option string;
  ra_mtp : option MtpRef; ra_speculation : option NgramSpeculation;
  ra_extraArgs : option (list string); ra_enforce : option Enforce; ra_fitMiB : option Z;
  ra_stopExternal : option string; ra_allow : list string }.

Record NativeStageIdentity := {
  si_schema : Z; si_engine : string; si_model_sha256 : string; si_source_sha256 : string;
  si_ctx : Z; si_cache_k : string; si_cache_v : string; si_ubatch : Z; si_flash_attn : string;
  si_stage_start : string; si_stage_end : string; si_stage_total : string }.

Record NativeStageEndpoint := {
  se_nodeId : string; se_port : Z; se_identity : NativeStageIdentity; se_binarySha256 : string }.

Inductive NativeMode := stages_mode | prefill_decode_mode.
#[export] Instance NativeMode_eq : EqDecision NativeMode.
Proof. solve_decision. Defined.

Record StateTransferQualification := {
  st_sourceBinarySha256 : string; st_targetBinarySha256 : string; st_evidenceSha256 : string }.

Record NativeStageWorkerPlan := {
  sw_endpoint : NativeStageEndpoint; sw_modelPath : string; sw_device : string;
  sw_fitMiB : option Z; sw_enforce_ramMiB : Z; sw_enforce_cpuCores : Z }.

Record NativeExecutionPlacement := {
  np_mode : NativeMode; np_profile : string; np_endpoints : list NativeStageWorkerPlan;
  np_stateTransferQualification : option StateTransferQualification;
  np_qualificationEvidenceSha256 : string }.

Record StageAssignment := {
  sa_id : string; sa_deploymentId : string; sa_model_path : string; sa_model_sha256 : string;
  sa_port : Z; sa_ctx : Z; sa_gpuLayers : Z; sa_identity : NativeStageIdentity;
  sa_binarySha256 : string; sa_fitMiB : option Z; sa_allow : list string;
  sa_enforce_ramMiB : Z; sa_enforce_cpuCores : Z }.

Record StopAssignment := { so_id : string; so_deploymentId : string }.

Inductive Assignment :=
  | AWorker (a : WorkerAssignment)
  | ACoordinator (a : CoordinatorAssignment)
  | AReplica (a : ReplicaAssignment)
  | AStage (a : StageAssignment)
  | AStop (a : StopAssignment).

Inductive AssignmentState := starting | listening | a_loading | a_ready | a_stopped | a_failed.
#[export] Instance AssignmentState_eq : EqDecision AssignmentState.
Proof. solve_decision. Defined.

(** ** Deployments *)

Inductive DeploymentKind := split | replica | external | stages | prefill_decode.
#[export] Instance DeploymentKind_eq : EqDecision DeploymentKind.
Proof. solve_decision. Defined.

Inductive DeploymentState := planned | placing | loading | ready | draining | stopped | failed.
#[export] Instance DeploymentState_eq : EqDecision DeploymentState.
Proof. solve_decision. Defined.

Record NodeAllocation := {
  na_nodeId : string; na_ramMiB : Z; na_cpuCores : Z; na_gpu : list GpuMem }.

(** An entry of [spec.stages]; [ss_extra] lists the keys outside the five the type names. *)
Record StageSpec := {
  ss_nodeId : string; ss_modelPath : string; ss_modelSha256 : string;
  ss_start : num; ss_end : num; ss_extra : list string }.

Record ExternalSpec := {
  xs_nodeId : string; xs_url : string; xs_healthPath : string; xs_modelName : string;
  xs_upstreamModel : option string; xs_maintenance : option string }.

Record DeploymentSpec := {
  ds_name : string; ds_profile : string; ds_autoTopology : option bool;
  ds_autoModel : option bool; ds_kind : DeploymentKind;
  ds_coordinatorNodeId : option string; ds_workerNodeIds : option (list string);
  ds_workerLayers : option (list num); ds_replicaNodeId : option string;
  ds_allocations : option json;
  ds_stages : option (list StageSpec);
  ds_prefillNodeId : option string; ds_decodeNodeId : option string;
  ds_modelSha256 : option string;
  ds_ctx : option num; ds_parallel : option num; ds_chain : option num;
  ds_speculation : option NgramSpeculation; ds_wire : option string;
  ds_batchedGets : option bool; ds_forwarding : option bool; ds_stopExternal : option bool;
  ds_transport : option string; ds_external : option ExternalSpec }.

Record PlanWorker := {
  pw_nodeId : string; pw_device : string; pw_layers : Z; pw_port : Z;
  pw_peerPort : option Z; pw_threads : Z; pw_memCapMiB : Z }.

Record LayerDistribution := {
  ld_coordinatorNodeId : string; ld_workerNodeIds : list string; ld_workerLayers : list Z }.

Record EnvelopeRow := {
  er_workerLayers : Z; er_maxCtx : Z; er_maxParallel : Z; er_maxChain : Z; er_maxFit : bool }.

Record ModelDownloadFile := {
  df_name : string; df_kind : ModelKind; df_url : string; df_sha256 : string; df_bytes : Z }.

Record ModelProfile := {
  mp_id : string; mp_rank : option Z; mp_name : string; mp_modelName : string;
  mp_ggufPattern : string; mp_mtpPattern : option string;
  mp_layers : Z; mp_layerMiB : Z; mp_coordinatorHostMiB : Z; mp_boundaryBytes : Z;
  mp_envelope : list EnvelopeRow; mp_extraArgs : list string; mp_workerMarginMiB : Z;
  mp_download : option (list ModelDownloadFile) }.

(** ** Registry rows *)

Record NodeRow := {
  nr_id : string; nr_certFp : string; nr_hostname : string; nr_os : Os; nr_online : bool;
  nr_caps : option Capabilities; nr_offer : option Offer;
  nr_models : list ModelFile; nr_metrics : option NodeMetrics }.

Record AssignmentRow := {
  ar_id : string; ar_deploymentId : string; ar_nodeId : string; ar_body : Assignment;
  (** [None] is the state "sent". *)
  ar_state : option AssignmentState; ar_detail : option string;
  (** milliseconds of the ISO text *)
  ar_updatedAt : Z; ar_retired : bool }.

(** A controller-owned record of a native execution that passed its proof
    (control/profiles/qwen35-native.ts). *)
Record NativeArtifact := { qa_name : string; qa_sha256 : string; qa_start : num; qa_end : num }.
Record NativeQualEndpoint := { qe_artifact : NativeArtifact; qe_binarySha256 : string }.
Record Qwen35NativeQualification := {
  qn_mode : NativeMode; qn_engine : string; qn_sourceSha256 : string;
  qn_sourceSizeBytes : num; qn_ctx : num; qn_workspaceMiB : num; qn_hostMiB : num;
  qn_endpoints : list NativeQualEndpoint; qn_evidenceSha256 : string }.

(** The records the control plane ships. *)
Definition proof_engine : string := "fefcec450d5b009e1f6fd2853c892e7d4be45d6a765ce9f7207d94e9589f9a3c".
Definition proof_source : string := "1b04acba824817554f4ce23639bc8495ff70453b8fcb047900c731521021f2c1".
Definition qualified_proof (mode : NativeMode) (endpoints : list NativeQualEndpoint) : Qwen35NativeQualification :=
  {| qn_mode := mode; qn_engine := proof_engine; qn_sourceSha256 := proof_source;
     qn_sourceSizeBytes := num_of_Z 2012012800; qn_ctx := num_of_Z 1024; qn_workspaceMiB := num_of_Z 512;
     qn_hostMiB := num_of_Z 3072; qn_endpoints := endpoints;
     qn_evidenceSha256 := "5bddb3bec4a3bd437af76f8dd3b045e5e73fbbc9365bb725e6780d34d5ea3d79" |}.
Definition metal_binary : string := "0121c1cbb375040fa78a16f19f71b6b40bd95804831b1f3638b71dc73f30d430".
Definition cuda_binary : string := "35b5bcf5c7740390465193df9efb837d5a5cb77ec089fdd43bb6d70d25ed2b64".
Definition qualified_artifact (name sha256 : string) (start end_ : Z) : NativeArtifact :=
  {| qa_name := name; qa_sha256 := sha256; qa_start := num_of_Z start; qa_end := num_of_Z end_ |}.
Definition full_model : NativeArtifact := qualified_artifact "Qwen3.5-2B-Q8_0.gguf" proof_source 0 24.
Definition first_shard : NativeArtifact :=
  qualified_artifact "stage-0-3.gguf" "c57aea57890507cc8baf08691349ad6be21052fa1611f56974f41b2946c01e46" 0 3.
Definition middle_shard : NativeArtifact :=
  qualified_artifact "stage-3-6.gguf" "f979c19916871ac08ce9f37d55c19513b35db1773a086feed4def9eaa0028593" 3 6.
Definition last21 : NativeArtifact :=
  qualified_artifact "stage-3-24.gguf" "228c3c76c249a24da4746afe76d7144bdb4f12b2520f8acc2e863766f9227f6b" 3 24.
Definition last18 : NativeArtifact :=
  qualified_artifact "stage-6-24.gguf" "d1baa07f6abececc46f9fe31212448a26933b79aa3bac2285e4e1241272fa40c" 6 24.
Definition on_engine (a : NativeArtifact) (b : string) : NativeQualEndpoint := {| qe_artifact := a; qe_binarySha256 := b |}.
Definition QWEN35_NATIVE_QUALIFICATIONS : list Qwen35NativeQualification :=
  [qualified_proof stages_mode [on_engine first_shard cuda_binary; on_engine last21 metal_binary];
   qualified_proof stages_mode [on_engine first_shard cuda_binary; on_engine middle_shard cuda_binary; on_engine last18 metal_binary];
   qualified_proof prefill_decode_mode [on_engine full_model metal_binary; on_engine full_model cuda_binary];
   qualified_proof prefill_decode_mode [on_engine full_model cuda_binary; on_engine full_model metal_binary]].
