(* ===== verification/Validate.v ===== *)
(** * Validators (swarmlet/protocol/validate.ts)

    Shape checks of what arrives on the wire and of an owner's offer.  Inputs are JSON values; the
    text of a message has been through [JSON.parse] ([None] when it threw). *)

From S2P Require Import Prelude JsNum Json Types.

Local Open Scope string_scope.
Local Open Scope list_scope.
Local Open Scope Z_scope.

(** ** Offers *)

(** [0.35] *)
Definition c_035 : num := num_div (num_of_Z 35) (num_of_Z 100).

(** [totalMiB] is [None] when the caller leaves it out. *)
Definition defaultRamReserveMiB (os : Os) (totalMiB : option Z) : Z :=
  match os with
  | darwin => 12 * 1024
  | linux => 4 * 1024
  | win32 =>
      let fixed := 6 * 1024 in
      match totalMiB with
      | Some t =>
          if t <=? 0 then fixed
          else Z.min fixed (Z.max (2 * 1024) (default 0 (as_int (js_round (num_mul (num_of_Z t) c_035)))))
      | None => fixed
      end
  end.

(** GPU devices the engine can run layers on. *)
Definition usableGpus (gpus : list GpuDevice) : list GpuDevice :=
  List.filter (fun g => negb (bool_decide (gd_backend g = cpu)) && (0 <? gd_totalMiB g)) gpus.

Definition computes (r : Roles) : bool := ro_worker r || ro_coordinator r || ro_replica r.

(** The refusal names the usable GPUs of the machine. *)
Definition cpuOnlyRefusal (enabled : bool) (roles : Roles) (gpu : list GpuMem) (caps_gpus : list GpuDevice)
    : option (list GpuDevice) :=
  if negb enabled || negb (computes roles) || existsb (fun g => 0 <? gm_memMiB g) gpu then None
  else match usableGpus caps_gpus with [] => None | usable => Some usable end.

Inductive OfferError :=
  | OE_not_object | OE_ram | OE_ram_exceeds (ramMiB ramMax totalMiB reserve : Z)
  | OE_cores | OE_cores_exceed (cores have : Z) | OE_disk | OE_modelsDir
  | OE_gpu_shape | OE_gpu_absent (id : string) (have : list string)
  | OE_gpu_negative (id : string) | OE_gpu_exceeds (id : string) (memMiB totalMiB : Z)
  | OE_needs_core | OE_worker_memory | OE_cpu_only (usable : list GpuDevice).
Inductive OfferWarning := OW_disk (diskMiB free : Z) | OW_no_roles.

Definition Result (E V : Type) : Type := result (list E) (V * list OfferWarning).

(** [isNum(v) ? Math.floor(v) : NaN]; [None] is NaN. *)
Definition floor_field (v : option json) : option Z := if isNum v then as_num v ≫= floor_Z else None.

(** [o.k === true] *)
Definition is_true (v : option json) : bool := match v with Some (JBool true) => true | _ => false end.

(** The loop over the offered GPUs: the errors and the kept entries. *)
Fixpoint offer_gpus (devices : list GpuDevice) (l : list json) : list OfferError * list GpuMem :=
  match l with
  | [] => ([], [])
  | g :: l =>
      let '(es, gs) := offer_gpus devices l in
      match as_obj (Some g) with
      | None => (OE_gpu_shape :: es, gs)
      | Some o =>
          match as_str (jget o "id"), floor_field (jget o "memMiB") with
          | Some id, Some mem =>
              match find (fun d => bool_decide (gd_id d = id)) devices with
              | None => (OE_gpu_absent id (gd_id <$> devices) :: es, gs)
              | Some dev =>
                  if mem <? 0 then (OE_gpu_negative id :: es, gs)
                  else if gd_totalMiB dev <? mem then (OE_gpu_exceeds id mem (gd_totalMiB dev) :: es, gs)
                  else (es, {| gm_id := id; gm_memMiB := mem |} :: gs)
              end
          | _, _ => (OE_gpu_shape :: es, gs)
          end
      end
  end.

Definition reserve_of (caps : Capabilities) : Z :=
  if cap_ramReserveMiB caps =? 0 then defaultRamReserveMiB (cap_os caps) (Some (cap_ramMiB caps))
  else cap_ramReserveMiB caps.
Definition ramMax_of (caps : Capabilities) : Z := Z.max 0 (cap_ramMiB caps - reserve_of caps).

(** [!isNum(v) || v < 0] then [v > max] *)
Definition bounded (v : option Z) (bad : OfferError) (over : Z -> list OfferError) : list OfferError :=
  match v with Some z => if z <? 0 then [bad] else over z | None => [bad] end.

Definition validateOffer (input : json) (caps : Capabilities) : Result OfferError Offer :=
  match input with
  | JObj o =>
      let roles := default [] (as_obj (jget o "roles")) in
      let r := {| ro_worker := is_true (jget roles "worker");
                  ro_coordinator := is_true (jget roles "coordinator");
                  ro_replica := is_true (jget roles "replica") |} in
      let enabled := is_true (jget o "enabled") in
      let ram := floor_field (jget o "ramMiB") in
      let cores := floor_field (jget o "cpuCores") in
      let disk := floor_field (jget o "diskMiB") in
      let modelsDir := default "" (as_str (jget o "modelsDir")) in
      let ramMax := ramMax_of caps in
      let '(gpu_errors, gpu) := offer_gpus (cap_gpus caps) (default [] (as_arr (jget o "gpu"))) in
      let lt_one v := match v with Some z => z <? 1 | None => false end in
      let errors :=
        bounded ram OE_ram (fun z => err_if (ramMax <? z) (OE_ram_exceeds z ramMax (cap_ramMiB caps) (reserve_of caps))) ++
        bounded cores OE_cores (fun z => err_if (cap_cpuCores caps <? z) (OE_cores_exceed z (cap_cpuCores caps))) ++
        bounded disk OE_disk (fun _ => []) ++
        err_if (String.eqb modelsDir "") OE_modelsDir ++
        gpu_errors ++
        err_if (enabled && computes r && lt_one cores) OE_needs_core ++
        err_if (enabled && ro_worker r && forallb (fun g => gm_memMiB g =? 0) gpu &&
                match ram with Some z => z =? 0 | None => false end) OE_worker_memory ++
        match cpuOnlyRefusal enabled r gpu (cap_gpus caps) with Some u => [OE_cpu_only u] | None => [] end in
      let warnings :=
        match disk with
        | Some z => if z <? 0 then [] else err_if (cap_diskFreeMiB caps <? z) (OW_disk z (cap_diskFreeMiB caps))
        | None => [] end ++
        err_if (enabled && negb (computes r)) OW_no_roles in
      match errors with
      | [] => Ok ({| of_enabled := enabled; of_roles := r; of_gpu := gpu; of_ramMiB := default 0 ram;
                     of_cpuCores := default 0 cores; of_diskMiB := default 0 disk; of_modelsDir := modelsDir |},
                  warnings)
      | _ => Err errors
      end
  | _ => Err [OE_not_object]
  end.

(** ** Wire shapes *)

Definition nonnegative (v : option json) : bool := isNum v && holds (fun n => num_leb num_zero n) (as_num v).
Definition optional (o : fields) (k : string) (check : option json -> bool) : bool :=
  match jget o k with None => true | v => check v end.
Definition every (f : option json -> bool) (v : option json) : bool :=
  holds (forallb (fun x => f (Some x))) (as_arr v).
Definition strings : option json -> bool := every isStr.
Definition numbers (o : fields) (ks : list string) : bool := forallb (fun k => optional o k nonnegative) ks.
(** [isObj(v) && ..] *)
Definition obj (f : fields -> bool) (v : option json) : bool := holds f (as_obj v).
Definition str_at (o : fields) (k : string) : bool := isStr (jget o k).

Definition netShape : option json -> bool :=
  obj (fun v => nonnegative (jget v "rttMs") && str_at v "measuredAt" && numbers v ["upMbit"; "downMbit"]).

Definition PORT_OK (p : option json) : bool :=
  holds (fun n => holds (fun z => (0 <? z) && (z <? 65536)) (as_int n)) (as_num p).
Definition FP_OK (s : option json) : bool := holds SHA256 (as_str s).

Definition gpuShape : option json -> bool :=
  obj (fun g => str_at g "id" && str_at g "name" && one_of ["cuda"; "metal"; "cpu"; "other"] (jget g "backend") &&
    str_at g "engineName" && nonnegative (jget g "totalMiB") && optional g "freeMiB" nonnegative).

(** The [checks] table. *)
Definition caps_checks : list (string * (option json -> bool)) :=
  [("os", one_of ["darwin"; "linux"; "win32"]); ("arch", one_of ["arm64"; "x64"]);
   ("hostname", isStr); ("ramMiB", nonnegative); ("ramReserveMiB", nonnegative); ("cpuCores", nonnegative);
   ("diskFreeMiB", nonnegative); ("privateIps", strings); ("measuredAt", isStr); ("gpus", every gpuShape)].

Definition capabilitiesShape (partial : bool) : option json -> bool :=
  obj (fun v =>
    forallb (fun kc => (partial && negb (present (jget v kc.1))) || kc.2 (jget v kc.1)) caps_checks &&
    optional v "allocationVersion" (is_number 1) && optional v "publicIp" isStr &&
    optional v "dataPort" PORT_OK && optional v "net" netShape &&
    optional v "cgroup" (obj (fun c => isBool (jget c "memory") && isBool (jget c "cpu"))) &&
    optional v "engine" (obj (fun e => str_at e "proto" &&
      obj (fun s => forallb (fun x => isStr (Some x)) (values s)) (jget e "sha256") &&
      optional e "stages" (obj (fun s => str_at s "engine"))))).

Definition offerShape : option json -> bool :=
  obj (fun v => isBool (jget v "enabled") &&
    obj (fun r => forallb (fun k => isBool (jget r k)) ["worker"; "coordinator"; "replica"]) (jget v "roles") &&
    forallb (fun k => nonnegative (jget v k)) ["ramMiB"; "cpuCores"; "diskMiB"] && str_at v "modelsDir" &&
    every (obj (fun g => str_at g "id" && nonnegative (jget g "memMiB"))) (jget v "gpu")).

Definition modelsShape : option json -> bool :=
  every (obj (fun f => str_at f "name" && str_at f "path" && nonnegative (jget f "sizeBytes") &&
    one_of ["gguf"; "mtp"; "mmproj"] (jget f "kind") && optional f "sha256" isStr)).

Definition assignment_states : list string := ["starting"; "listening"; "loading"; "ready"; "stopped"; "failed"].

Definition assignmentReportShape : option json -> bool :=
  obj (fun v => str_at v "id" && one_of assignment_states (jget v "state") && optional v "detail" isStr &&
    optional v "ports" (obj (fun p => forallb (fun x => PORT_OK (Some x)) (values p)))).

Definition hardwareShape : option json -> bool :=
  obj (fun v => str_at v "measuredAt" &&
    every (obj (fun f => str_at f "id" && str_at f "name" && numbers f ["rpm"; "targetRpm"; "maxRpm"] &&
                         optional f "mode" isStr)) (jget v "fans") &&
    every (obj (fun t => str_at t "name" && isNum (jget t "celsius"))) (jget v "temperatures") &&
    obj (fun f => str_at f "detail" &&
      one_of ["max"; "requested"; "automatic"; "unsupported"; "permission-required"; "error"] (jget f "state"))
      (jget v "fanControl")).

Definition metricsShape : option json -> bool :=
  obj (fun v =>
    optional v "runtime" (obj (fun r => forallb (fun k => nonnegative (jget r k))
      ["releaseSequence"; "uptimeSec"; "workers"; "coordinators"; "replicas"; "stages"])) &&
    optional v "ts" isStr &&
    numbers v ["cpuPct"; "rssMiB"; "freeRamMiB"; "tokPerSec"; "tokPerSecAvg"; "tokensTotal"; "inflight"] &&
    optional v "serving" isStr && optional v "serverMetricsTs" isStr &&
    optional v "serverMetricsState" (one_of ["ok"; "partial"; "unavailable"]) &&
    optional v "link" netShape &&
    optional v "gpu" (every (obj (fun g => str_at g "id" && nonnegative (jget g "usedMiB") &&
      numbers g ["utilizationPct"; "powerW"; "fanPct"] && optional g "temperatureC" isNum))) &&
    optional v "network" (every (obj (fun n => str_at n "name" && numbers n ["rxBps"; "txBps"]))) &&
    optional v "hardware" hardwareShape).

(** ** Messages *)

Inductive MsgError :=
  | ME_not_json | ME_missing_t | ME_needs (t what : string) | ME_unknown (t : string)
  | ME_assignment (errors : list string).

Definition need (t : string) (cond : bool) (what : string) (m : fields) : result MsgError fields :=
  if cond then Ok m else Err (ME_needs t what).

Definition parseAgentMessage (raw : option json) : result MsgError fields :=
  match raw with
  | None => Err ME_not_json
  | Some v =>
      match as_obj (Some v) with
      | None => Err ME_missing_t
      | Some m =>
          match as_str (jget m "t") with
          | None => Err ME_missing_t
          | Some t =>
              if String.eqb t "auth" then need t (str_at m "nodeId" && str_at m "nonce" && str_at m "certFp" &&
                str_at m "signature") "needs nodeId, nonce, certFp, signature" m
              else if String.eqb t "hello" then need t (isNum (jget m "proto") && str_at m "agentVersion" &&
                capabilitiesShape false (jget m "caps") && offerShape (jget m "offer") &&
                modelsShape (jget m "models") && every assignmentReportShape (jget m "assignments"))
                "needs proto, caps, offer, models, assignments" m
              else if String.eqb t "heartbeat" then need t (str_at m "ts" && metricsShape (jget m "metrics") &&
                optional m "caps" (capabilitiesShape true)) "needs ts, metrics" m
              else if String.eqb t "offer" then need t (offerShape (jget m "offer")) "needs offer" m
              else if String.eqb t "models" then need t (modelsShape (jget m "models")) "needs models" m
              else if String.eqb t "assignment" then need t (assignmentReportShape (Some (JObj m))) "needs id, state" m
              else if String.eqb t "log" then need t (str_at m "assignmentId" && str_at m "line")
                "needs assignmentId, line" m
              else if String.eqb t "pong" then need t (str_at m "ts") "needs ts" m
              else Err (ME_unknown t)
          end
      end
  end.

(** ** Assignments *)

Definition only (o : fields) (allowed : list string) : bool :=
  forallb (fun k => existsb (String.eqb k) allowed) (keys o).
(** [isNum(v) && Number.isSafeInteger(v) && v > 0] *)
Definition positiveInt (v : option json) : bool :=
  holds (fun n => holds (fun z => 0 <? z) (as_safe_int n)) (as_num v).
(** [isNum(v) && v >= 1] *)
Definition at_least_one (v : option json) : bool :=
  isNum v && holds (fun n => num_leb (num_of_Z 1) n) (as_num v).

(** [/[A-Za-z0-9_-]/] *)
Definition id_char (a : Ascii.ascii) : bool :=
  let n := Ascii.nat_of_ascii a in
  ((48 <=? n) && (n <=? 57) || (65 <=? n) && (n <=? 90) || (97 <=? n) && (n <=? 122) || (n =? 95) || (n =? 45))%nat.
Definition valid_id (s : string) : bool :=
  (1 <=? String.length s)%nat && (String.length s <=? 128)%nat && all_chars id_char s.
Definition no_nul (s : string) : bool := all_chars (fun a => negb (Ascii.nat_of_ascii a =? 0)%nat) s.

(** [/^(?:[0-9]|1[0-9]|2[0-4])$/], with the number it denotes. *)
Definition block (v : option json) : option Z :=
  as_str v ≫= fun s => find (fun z => String.eqb s (pretty z)) (Z.of_nat <$> seq 0 25).

Definition endpoint_ok (e : fields) : bool :=
  str_at e "nodeId" && FP_OK (jget e "certFp") && PORT_OK (jget e "port") && isArray (jget e "direct") &&
  isBool (jget e "relay").
Definition checkEndpoint (e : option json) (where_ : string) : list string :=
  match as_obj e with
  | Some o =>
      if endpoint_ok o then
        flat_map (fun d => err_if (negb (obj (fun d => str_at d "host" && PORT_OK (jget d "port")) (Some d)))
          (where_ +:+ ": direct entries need host, port")) (default [] (as_arr (jget o "direct")))
      else [where_ +:+ ": endpoint needs nodeId, certFp(sha256 hex), port, direct[], relay"]
  | None => [where_ +:+ ": endpoint needs nodeId, certFp(sha256 hex), port, direct[], relay"]
  end.
Definition checkAllow (a : fields) : list string :=
  err_if (negb (every FP_OK (jget a "allow"))) "allow must be a list of sha256 hex fingerprints".

(** [l.forEach((x, i) => ..)] collecting errors. *)
Definition each (l : list json) (f : nat -> json -> list string) : list string :=
  List.concat (imap f l).
Definition at_index (name : string) (i : nat) : string := name +:+ "[" +:+ pretty (N.of_nat i) +:+ "]".

Definition STAGE_KEYS : list string :=
  ["kind"; "id"; "deploymentId"; "model"; "port"; "ctx"; "gpuLayers"; "identity"; "binarySha256"; "fitMiB"; "allow"; "enforce"].
Definition IDENTITY_KEYS : list string :=
  ["schema"; "engine"; "model_sha256"; "source_sha256"; "ctx"; "cache_k"; "cache_v"; "ubatch"; "flash_attn";
   "stage_start"; "stage_end"; "stage_total"].

(** The digest of [a.model] when it is an object. *)
Definition model_sha (a : fields) : option json := as_obj (jget a "model") ≫= fun m => jget m "sha256".

Definition stage_range_errors (i : fields) : list string :=
  if is_string "" (jget i "stage_start") && is_string "" (jget i "stage_end") && is_string "" (jget i "stage_total") then
    err_if (negb (strict_eq (jget i "source_sha256") (jget i "model_sha256")))
      "full native context source digest must match model digest"
  else
    err_if (match block (jget i "stage_start"), block (jget i "stage_end") with
            | Some s, Some e => (e <=? s) || negb (is_string "24" (jget i "stage_total"))
            | _, _ => true
            end) "stage identity requires a nonempty canonical block range within [0,24)".

Definition identity_errors (a i : fields) : list string :=
  err_if (negb (only i IDENTITY_KEYS)) "stage identity has unsupported fields" ++
  err_if (negb (is_number 1 (jget i "schema")) || negb (FP_OK (jget i "engine")) ||
          negb (FP_OK (jget i "model_sha256")) || negb (FP_OK (jget i "source_sha256")))
    "stage identity needs schema 1 and lowercase SHA256 pins" ++
  err_if (negb (isObj (jget a "model")) || negb (strict_eq (jget i "model_sha256") (model_sha a)))
    "stage model digest differs from identity" ++
  err_if (negb (is_number 1024 (jget i "ctx")) || negb (is_string "f32" (jget i "cache_k")) ||
          negb (is_string "f32" (jget i "cache_v")) || negb (is_number 1 (jget i "ubatch")) ||
          negb (is_string "disabled" (jget i "flash_attn")))
    "stage identity requires ctx 1024, F32 K/V, ubatch 1 and disabled flash attention" ++
  stage_range_errors i.

Definition stage_assignment_errors (a : fields) (id dep : string) : list string :=
  err_if (negb (only a STAGE_KEYS)) "stage has unsupported fields" ++
  err_if (negb (valid_id id) || (String.length dep =? 0)%nat || (128 <? String.length dep)%nat)
    "stage needs valid assignment and deployment IDs" ++
  err_if (negb (obj (fun m => only m ["path"; "sha256"] &&
                holds (fun p => negb (String.eqb p "") && no_nul p) (as_str (jget m "path")) &&
                FP_OK (jget m "sha256")) (jget a "model")))
    "stage needs model.path and lowercase model.sha256" ++
  err_if (negb (PORT_OK (jget a "port")) || negb (holds (fun n => num_leb (num_of_Z 1024) n) (as_num (jget a "port"))))
    "stage needs integer port in [1024,65535]" ++
  err_if (negb (is_number 1024 (jget a "ctx")) || negb (is_number 999 (jget a "gpuLayers")))
    "stage requires ctx 1024 and gpuLayers 999" ++
  err_if (negb (FP_OK (jget a "binarySha256"))) "stage needs lowercase binarySha256" ++
  err_if (present (jget a "fitMiB") && negb (positiveInt (jget a "fitMiB"))) "stage fitMiB must be a positive integer" ++
  err_if (match as_arr (jget a "allow") with Some [] => false | _ => true end)
    "stage requires empty allow[]; transport is agent relay only" ++
  err_if (negb (obj (fun e => only e ["ramMiB"; "cpuCores"] && positiveInt (jget e "ramMiB") &&
                is_number 2 (jget e "cpuCores")) (jget a "enforce")))
    "stage enforce requires positive integer ramMiB and cpuCores 2" ++
  match as_obj (jget a "identity") with
  | None => ["stage needs identity"]
  | Some i => identity_errors a i
  end.

Definition worker_assignment_errors (a : fields) : list string :=
  err_if (negb (PORT_OK (jget a "port"))) "worker needs port" ++
  err_if (negb (str_at a "device")) "worker needs device" ++
  err_if (negb (at_least_one (jget a "threads"))) "worker needs threads >= 1" ++
  err_if (present (jget a "memCapMiB") && negb (at_least_one (jget a "memCapMiB"))) "memCapMiB must be >= 1" ++
  err_if (present (jget a "peerPort") && negb (PORT_OK (jget a "peerPort"))) "peerPort invalid" ++
  match jget a "peers" with
  | None => []
  | Some (JArr l) =>
      each l (fun i p => match as_obj (Some p) with
        | Some o => if isNum (jget o "index") then checkEndpoint (jget o "endpoint") (at_index "peers" i)
                    else [at_index "peers" i +:+ " needs index"]
        | None => [at_index "peers" i +:+ " needs index"]
        end)
  | Some _ => ["peers must be a list"]
  end ++
  checkAllow a.

Definition coordinator_assignment_errors (a : fields) : list string :=
  err_if (negb (obj (fun m => str_at m "path") (jget a "model"))) "coordinator needs model.path" ++
  match as_arr (jget a "rpc") with
  | None => ["coordinator needs rpc[]"]
  | Some l => each l (fun i e => checkEndpoint (Some e) (at_index "rpc" i))
  end ++
  err_if (negb (strings (jget a "devices"))) "coordinator needs devices[]" ++
  (if negb (every isNum (jget a "tensorSplit")) then ["coordinator needs tensorSplit[]"]
   else match as_arr (jget a "devices"), as_arr (jget a "tensorSplit") with
        | Some d, Some t => err_if (negb (length d =? length t)%nat) "devices and tensorSplit lengths differ"
        | _, _ => []
        end) ++
  err_if (negb (at_least_one (jget a "ctx"))) "coordinator needs ctx" ++
  err_if (negb (at_least_one (jget a "parallel"))) "coordinator needs parallel" ++
  err_if (present (jget a "mtp") && negb (obj (fun m => str_at m "path" && at_least_one (jget m "chain")) (jget a "mtp")))
    "mtp needs path, chain >= 1" ++
  err_if (negb (isObj (jget a "env"))) "coordinator needs env" ++
  err_if (negb (strings (jget a "extraArgs"))) "coordinator needs extraArgs[]" ++
  err_if (negb (PORT_OK (jget a "port"))) "coordinator needs port" ++
  checkAllow a.

Definition replica_assignment_errors (a : fields) : list string :=
  err_if (negb (PORT_OK (jget a "port"))) "replica needs port" ++
  err_if (negb (truthy_json (jget a "model")) && negb (truthy_json (jget a "external"))) "replica needs model or external" ++
  err_if (present (jget a "external") &&
          negb (obj (fun e => str_at e "url" && str_at e "healthPath") (jget a "external")))
    "external needs url, healthPath" ++
  checkAllow a.

Definition validateAssignment (input : option json) : result (list string) fields :=
  match as_obj input with
  | None => Err ["assignment needs kind, id, deploymentId"]
  | Some a =>
      match as_str (jget a "kind"), as_str (jget a "id"), as_str (jget a "deploymentId") with
      | Some kind, Some id, Some dep =>
          let finish errors := match errors with [] => Ok a | _ => Err errors end in
          if String.eqb kind "stage" then finish (stage_assignment_errors a id dep)
          else if String.eqb kind "worker" then finish (worker_assignment_errors a)
          else if String.eqb kind "coordinator" then finish (coordinator_assignment_errors a)
          else if String.eqb kind "replica" then finish (replica_assignment_errors a)
          else if String.eqb kind "stop" then finish []
          else Err ["unknown assignment kind " +:+ kind]
      | _, _, _ => Err ["assignment needs kind, id, deploymentId"]
      end
  end.

Definition parseControlMessage (raw : option json) : result MsgError fields :=
  match raw with
  | None => Err ME_not_json
  | Some v =>
      match as_obj (Some v) with
      | None => Err ME_missing_t
      | Some m =>
          match as_str (jget m "t") with
          | None => Err ME_missing_t
          | Some t =>
              if String.eqb t "challenge" then need t (str_at m "nonce") "challenge needs nonce" m
              else if String.eqb t "welcome" then need t (str_at m "nodeId" && optional m "inferenceKey" isStr)
                "welcome needs nodeId and optional inferenceKey string" m
              else if String.eqb t "assign" then
                match validateAssignment (jget m "assignment") with Ok _ => Ok m | Err es => Err (ME_assignment es) end
              else if String.eqb t "error" then need t (str_at m "message") "error needs message" m
              else if String.eqb t "ping" then need t (str_at m "ts") "ping needs ts" m
              else Err (ME_unknown t)
          end
      end
  end.

(** ** What an accepted offer guarantees *)

Record offer_within (caps : Capabilities) (o : Offer) : Prop := {
  ow_ram : 0 <= of_ramMiB o <= ramMax_of caps;
  ow_cores : 0 <= of_cpuCores o <= cap_cpuCores caps;
  ow_disk : 0 <= of_diskMiB o;
  ow_dir : of_modelsDir o <> "";
  ow_gpu : Forall (fun g => 0 <= gm_memMiB g ∧
    exists d, d ∈ cap_gpus caps ∧ gd_id d = gm_id g ∧ gm_memMiB g <= gd_totalMiB d) (of_gpu o);
  ow_core : of_enabled o = true -> computes (of_roles o) = true -> 1 <= of_cpuCores o;
  ow_cpu_only : of_enabled o = true -> computes (of_roles o) = true ->
    Exists (fun g => 0 < gm_memMiB g) (of_gpu o) ∨ usableGpus (cap_gpus caps) = [];
  ow_worker : of_enabled o = true -> ro_worker (of_roles o) = true ->
    Exists (fun g => gm_memMiB g <> 0) (of_gpu o) ∨ of_ramMiB o <> 0 }.

Lemma offer_gpus_sound devices l gs :
  offer_gpus devices l = ([], gs) ->
  Forall (fun g => 0 <= gm_memMiB g ∧
    exists d, d ∈ devices ∧ gd_id d = gm_id g ∧ gm_memMiB g <= gd_totalMiB d) gs.
Proof.
  revert gs. induction l as [|g l IH]; intros gs; simpl; [intros [= <-]; constructor|].
  destruct (offer_gpus devices l) as [es gs'].
  destruct g as [| | | | |o]; simpl; try done.
  destruct (as_str (jget o "id")) as [id|]; [|done].
  destruct (floor_field (jget o "memMiB")) as [mem|]; [|done].
  destruct (find _ devices) as [dev|] eqn:Ed; [|done].
  destruct (mem <? 0) eqn:E1; [done|]. destruct (gd_totalMiB dev <? mem) eqn:E2; [done|].
  intros [= -> <-]. apply find_Some in Ed as [Hin Hid]. bool_to_prop.
  constructor; [|by apply IH]. split; [done|]. exists dev. done.
Qed.

Lemma bounded_nil v bad over : bounded v bad over = [] -> exists z, v = Some z ∧ 0 <= z ∧ over z = [].
Proof. destruct v as [z|]; simpl; [|done]. destruct (z <? 0) eqn:E; [done|]. bool_to_prop. eauto. Qed.

Lemma cpuOnlyRefusal_None enabled roles gpu gpus :
  cpuOnlyRefusal enabled roles gpu gpus = None -> enabled = true -> computes roles = true ->
  Exists (fun g => 0 < gm_memMiB g) gpu ∨ usableGpus gpus = [].
Proof.
  unfold cpuOnlyRefusal. intros H -> Hc. rewrite Hc in H. simpl in H.
  destruct (existsb _ gpu) eqn:E.
  - left. apply existsb_exists in E as (g & Hin & Hg). apply Exists_exists. exists g.
    rewrite list_elem_of_In. bool_to_prop. done.
  - right. by destruct (usableGpus gpus).
Qed.

Lemma not_all_zero gpu :
  forallb (fun g => gm_memMiB g =? 0) gpu = false -> Exists (fun g => gm_memMiB g <> 0) gpu.
Proof.
  induction gpu as [|g gpu IH]; simpl; [done|].
  destruct (gm_memMiB g =? 0) eqn:E; bool_to_prop; [right; auto|by left].
Qed.

(** An offer [validateOffer] accepts stays within the machine: RAM within the total less the OS
    reserve, cores and every GPU entry within what the probe reports (and only reported devices),
    at least one core for an enabled compute role, memory for a worker, and no CPU-only compute
    offer on a machine that has a usable GPU. *)
Theorem validateOffer_sound input caps o ws :
  validateOffer input caps = Ok (o, ws) -> offer_within caps o.
Proof.
  unfold validateOffer. destruct input as [| | | | |f]; try done.
  destruct (offer_gpus _ _) as [ge gpu] eqn:Eg. cbv zeta.
  match goal with |- match ?e with _ => _ end = _ -> _ => destruct e eqn:He; [|done] end.
  intros [= <- <-]. apply app_eq_nil in He as [Hram He]. apply app_eq_nil in He as [Hcores He].
  apply app_eq_nil in He as [Hdisk He]. apply app_eq_nil in He as [Hdir He].
  apply app_eq_nil in He as [-> He]. apply app_eq_nil in He as [Hcore He].
  apply app_eq_nil in He as [Hmem Hcpu].
  apply bounded_nil in Hram as (ram & Eram & Hram & Hrmax), Hcores as (cores & Ecores & Hc & Hcmax),
    Hdisk as (disk & Edisk & Hd & _).
  apply err_if_nil in Hrmax, Hcmax, Hdir, Hcore, Hmem. rewrite Eram, Ecores, Edisk in *. bool_to_prop.
  constructor; simpl; try (intros Hen Hro; rewrite Hen, Hro in *; simpl in *).
  - done.
  - done.
  - done.
  - intros Hx. by rewrite Hx in Hdir.
  - by eapply offer_gpus_sound.
  - by bool_to_prop.
  - eapply (cpuOnlyRefusal_None true); [|done|exact Hro]. by destruct cpuOnlyRefusal.
  - apply andb_false_iff in Hmem as [?|?]; bool_to_prop; [left; by apply not_all_zero|by right].
Qed.

(** ** Control messages *)

(** The agent's parser of control messages rejects every "fetch" message, whatever its other
    fields: the type declares [FetchMsg], the control server sends it and the agent's dispatcher
    has a case for it, but [parseControlMessage] answers "unknown control message". *)
Theorem parseControlMessage_rejects_fetch m :
  jget m "t" = Some (JStr "fetch") -> parseControlMessage (Some (JObj m)) = Err (ME_unknown "fetch").
Proof. intros H. unfold parseControlMessage. simpl. by rewrite H. Qed.

Lemma parseControlMessage_rejects_fetch_witness :
  parseControlMessage (Some (JObj [("t", JStr "fetch"); ("profile", JStr "p")])) = Err (ME_unknown "fetch").
Proof. exact (parseControlMessage_rejects_fetch [("t", JStr "fetch"); ("profile", JStr "p")] eq_refl). Defined.

(** ** Stage assignments *)

(** A stage assignment the agent will run: relay transport only, an unprivileged port, the model
    file pinned by the identity's digest, and a nonempty block range of the 24, or the full model. *)
Record stage_pinned (a i : fields) : Prop := {
  sg_allow : jget a "allow" = Some (JArr []);
  sg_port : exists n z, jget a "port" = Some (JNum n) ∧ as_int n = Some z ∧ z < 65536 ∧ num_leb (num_of_Z 1024) n = true;
  sg_identity : jget a "identity" = Some (JObj i);
  sg_digest : exists m sha, jget a "model" = Some (JObj m) ∧ jget m "sha256" = Some (JStr sha) ∧
    SHA256 sha = true ∧ jget i "model_sha256" = Some (JStr sha);
  sg_range : (jget i "stage_start" = Some (JStr "") ∧ jget i "source_sha256" = jget i "model_sha256") ∨
    exists s e, block (jget i "stage_start") = Some s ∧ block (jget i "stage_end") = Some e ∧ 0 <= s < e ∧ e <= 24 }.

Lemma block_bounds v z : block v = Some z -> 0 <= z <= 24.
Proof.
  unfold block. destruct (as_str v) as [s|]; [|done]. cbn [mbind option_bind].
  intros [Hin _]%find_Some. apply list_elem_of_fmap in Hin as (n & -> & Hn).
  apply elem_of_seq in Hn. lia.
Qed.

Lemma as_obj_Some v o : as_obj v = Some o -> v = Some (JObj o).
Proof. destruct v as [[]|]; naive_solver. Qed.
Lemma as_str_Some v s : as_str v = Some s -> v = Some (JStr s).
Proof. destruct v as [[]|]; naive_solver. Qed.
Lemma as_num_Some v n : as_num v = Some n -> v = Some (JNum n).
Proof. destruct v as [[]|]; naive_solver. Qed.
Lemma strict_eq_str v s : strict_eq v (Some (JStr s)) = true -> v = Some (JStr s).
Proof. destruct v as [[]|]; simpl; try done. by intros ->%String.eqb_eq. Qed.

Lemma stage_port a : PORT_OK (jget a "port") = true ->
  exists n z, jget a "port" = Some (JNum n) ∧ as_int n = Some z ∧ z < 65536.
Proof.
  intros (n & En & (z & Hz & Hb)%holds_true)%holds_true. apply as_num_Some in En. bool_to_prop. eauto.
Qed.

Lemma stage_range_sound i : FP_OK (jget i "model_sha256") = true -> stage_range_errors i = [] ->
  (jget i "stage_start" = Some (JStr "") ∧ jget i "source_sha256" = jget i "model_sha256") ∨
  exists s e, block (jget i "stage_start") = Some s ∧ block (jget i "stage_end") = Some e ∧ 0 <= s < e ∧ e <= 24.
Proof.
  intros (sha & Hs & _)%holds_true. apply as_str_Some in Hs. unfold stage_range_errors. case_match eqn:E.
  - rewrite err_if_nil, Hs. intros H. bool_to_prop. left. rewrite is_string_spec in *.
    split; [done|]. by apply strict_eq_str.
  - rewrite err_if_nil. destruct (block (jget i "stage_start")) as [s|] eqn:Es; [|done].
    destruct (block (jget i "stage_end")) as [e|] eqn:Ee; [|done]. intros H. bool_to_prop.
    pose proof (block_bounds _ _ Es). pose proof (block_bounds _ _ Ee). right. exists s, e. split_and!; done || lia.
Qed.

Lemma stage_errors_pinned a id dep : stage_assignment_errors a id dep = [] -> exists i, stage_pinned a i.
Proof.
  unfold stage_assignment_errors. intros H.
  apply app_eq_nil in H as [_ H]. apply app_eq_nil in H as [_ H]. apply app_eq_nil in H as [Hm H].
  apply app_eq_nil in H as [Hp H]. do 3 (apply app_eq_nil in H as [_ H]). apply app_eq_nil in H as [Ha H].
  apply app_eq_nil in H as [_ H]. apply err_if_nil in Hm, Hp, Ha. bool_to_prop.
  destruct (as_obj (jget a "identity")) as [i|] eqn:Ei; [|done]. apply as_obj_Some in Ei.
  unfold identity_errors in H. apply app_eq_nil in H as [_ H]. apply app_eq_nil in H as [Hfp H].
  apply app_eq_nil in H as [Hd H]. apply app_eq_nil in H as [_ Hr].
  apply err_if_nil in Hfp, Hd. bool_to_prop. unfold obj in Hm. apply holds_true in Hm as (m & Em & Hm).
  apply as_obj_Some in Em. bool_to_prop. unfold model_sha in *. rewrite Em in *. simpl in *.
  match goal with H : FP_OK (jget m "sha256") = true |- _ => apply holds_true in H as (sha & Hs & Hsha) end.
  apply as_str_Some in Hs. rewrite Hs in *. exists i. constructor.
  - destruct (jget a "allow") as [[| | | |[|]|]|]; naive_solver.
  - match goal with H : PORT_OK _ = true |- _ => destruct (stage_port a H) as (n & z & En & Ez & Hz) end.
    rewrite En in *. exists n, z. done.
  - done.
  - exists m, sha. split_and!; [done..|]. by apply strict_eq_str.
  - by apply stage_range_sound.
Qed.

(** A native stage assignment that the agent accepts is pinned: no peer may dial it (empty
    [allow], relay only), its port is an integer in [1024, 65535], the identity's model digest is the
    SHA-256 of the model file it loads, and it covers the full model with its source digest equal to
    the model digest, or a nonempty block range within [0, 24). *)
Theorem validateAssignment_stage_pinned a :
  jget a "kind" = Some (JStr "stage") -> validateAssignment (Some (JObj a)) = Ok a ->
  exists i, stage_pinned a i.
Proof.
  intros Hk. unfold validateAssignment. simpl. rewrite Hk. simpl.
  destruct (as_str (jget a "id")) as [id|]; [|done]. destruct (as_str (jget a "deploymentId")) as [dep|]; [|done].
  destruct (stage_assignment_errors a id dep) eqn:E; [|done]. intros _. by eapply stage_errors_pinned.
Qed.

(** ** Concrete messages *)

Definition demo_sha : string := "aaaaaaaaaaaaaaaaaaaaaaaaaaaaaaaaaaaaaaaaaaaaaaaaaaaaaaaaaaaaaaaa".
Definition jint (z : Z) : json := JNum (num_of_Z z).

Definition demo_stage_assignment : fields :=
  [("kind", JStr "stage"); ("id", JStr "a-1"); ("deploymentId", JStr "d-1");
   ("model", JObj [("path", JStr "/m.gguf"); ("sha256", JStr demo_sha)]); ("port", jint 50200);
   ("ctx", jint 1024); ("gpuLayers", jint 999); ("binarySha256", JStr demo_sha); ("allow", JArr []);
   ("enforce", JObj [("ramMiB", jint 4096); ("cpuCores", jint 2)]);
   ("identity", JObj [("schema", jint 1); ("engine", JStr demo_sha); ("model_sha256", JStr demo_sha);
     ("source_sha256", JStr demo_sha); ("ctx", jint 1024); ("cache_k", JStr "f32"); ("cache_v", JStr "f32");
     ("ubatch", jint 1); ("flash_attn", JStr "disabled"); ("stage_start", JStr "0");
     ("stage_end", JStr "12"); ("stage_total", JStr "24")])].

Lemma validateAssignment_stage_pinned_witness : exists i, stage_pinned demo_stage_assignment i.
Proof. apply (validateAssignment_stage_pinned demo_stage_assignment); [reflexivity|vm_compute; reflexivity]. Defined.

Definition demo_capabilities : Capabilities :=
  {| cap_allocationVersion := None; cap_os := win32; cap_arch := x64; cap_hostname := "h";
     cap_ramMiB := 8192; cap_ramReserveMiB := 0; cap_cpuCores := 8;
     cap_gpus := [{| gd_id := "g0"; gd_name := "gpu"; gd_backend := cuda; gd_engineName := "CUDA0";
                     gd_totalMiB := 8000; gd_freeMiB := None |}];
     cap_diskFreeMiB := 1000; cap_privateIps := []; cap_publicIp := None; cap_publicEndpoints := None;
     cap_dataPort := None; cap_cgroup := None; cap_engine := None; cap_net := None;
     cap_bench := None; cap_measuredAt := "t" |}.
Definition demo_offer_json : json :=
  JObj [("enabled", JBool true); ("roles", JObj [("worker", JBool true)]);
        ("gpu", JArr [JObj [("id", JStr "g0"); ("memMiB", jint 6000)]]);
        ("ramMiB", jint 5325); ("cpuCores", jint 4); ("diskMiB", jint 10); ("modelsDir", JStr "/models")].

Lemma validateOffer_sound_witness :
  match validateOffer demo_offer_json demo_capabilities with
  | Ok (o, _) => of_ramMiB o = 5325 ∧ ramMax_of demo_capabilities = 5325 ∧ offer_within demo_capabilities o
  | Err _ => False
  end.
Proof.
  destruct (validateOffer demo_offer_json demo_capabilities) as [[o ws]|e] eqn:E.
  - pose proof (validateOffer_sound demo_offer_json demo_capabilities o ws E) as H. revert H.
    vm_compute in E. injection E as <- <-. intros H. split; [reflexivity|split; [vm_compute; reflexivity|exact H]].
  - vm_compute in E. discriminate E.
Defined.
