(* ===== verification/PhasePlan.v ===== *)
(** * Phase placement (swarmlet/control/phase-plan.ts)

    [choosePhasePlan] picks the prefill node and the decode node that minimise the time of one
    reference request.  Times are binary64 ([JsNum.num]); [localeCompare] is the collation of
    the host and the transfer rate between two nodes is given by the caller, so both are
    parameters. *)

From S2P Require Import Prelude JsNum.

Record PhaseCandidate := {
  pc_nodeId : string; pc_prefillTokPerSec : option num; pc_decodeTokPerSec : option num }.

Record PhasePlanInput := {
  pi_candidates : list PhaseCandidate;
  pi_promptTokens : num; pi_outputTokens : num; pi_stateBytesPerToken : num;
  pi_transferBytesPerSec : string -> string -> num;
  pi_prefillNodeIds : option (list string); pi_decodeNodeIds : option (list string) }.

Inductive PhaseReason :=
  | PR_speeds (nodeId : string) (prefill decode : option num)
  | PR_reference (prompt output stateMiB perToken : num)
  | PR_chosen (isLocal : bool) (prefill decode : string) (prefillMs transferMs decodeMs total : num).

Record PhasePlan := {
  pp_prefillNodeId : string; pp_decodeNodeId : string; pp_local : bool;
  pp_estimatedMs : num; pp_reasons : list PhaseReason }.

Inductive PhasePlanError :=
  | PE_no_node
  | PE_sizes
  | PE_unmeasured (ids : list string)
  | PE_no_node_with_both
  | PE_unreachable.

Definition ms (tokens perSecond : num) : num := num_mul (num_div tokens perSecond) (num_of_Z 1000).
Definition one (n : num) : num := num_div (js_round (num_mul n (num_of_Z 10))) (num_of_Z 10).

(** [c.speed && c.speed > 0] *)
Definition measured (speed : option num) : bool :=
  match speed with Some x => positive_num x | None => false end.

Definition speed (s : option num) : num := default num_nan s.

Definition may (ids : option (list string)) (id : string) : bool :=
  match ids with Some l => bool_decide (id ∈ l) | None => true end.

Record Best := {
  b_prefill : string; b_decode : string; b_local : bool; b_total : num;
  b_prefillMs : num; b_transferMs : num; b_decodeMs : num }.

(** [`${prefill}\0${decode}`] *)
Definition pair_key (p d : string) : string := p ++ String (Ascii.ascii_of_nat 0) d.

Section choose.
Context (localeCompare : string -> string -> comparison).
Implicit Types (inp : PhasePlanInput) (c p d : PhaseCandidate).

Definition by_locale c1 c2 : bool :=
  match localeCompare (pc_nodeId c1) (pc_nodeId c2) with Gt => false | _ => true end.

Definition sorted_candidates inp : list PhaseCandidate := js_sort by_locale (pi_candidates inp).

Definition stateBytes inp : num := num_mul (pi_promptTokens inp) (pi_stateBytesPerToken inp).

Definition may_prefill inp p : bool :=
  measured (pc_prefillTokPerSec p) && may (pi_prefillNodeIds inp) (pc_nodeId p).
Definition may_decode inp d : bool :=
  measured (pc_decodeTokPerSec d) && may (pi_decodeNodeIds inp) (pc_nodeId d).

Definition is_local p d : bool := bool_decide (pc_nodeId p = pc_nodeId d).
Definition rate inp p d : num :=
  if is_local p d then num_inf else pi_transferBytesPerSec inp (pc_nodeId p) (pc_nodeId d).

(** The body of the inner loop: the pair's timing, or [None] when the loop continues. *)
Definition price inp p d : option Best :=
  if negb (may_prefill inp p) then None
  else if negb (may_decode inp d) then None
  else if negb (is_local p d) && negb (positive_num (rate inp p d)) then None
  else
    let prefillMs := ms (pi_promptTokens inp) (speed (pc_prefillTokPerSec p)) in
    let decodeMs := ms (pi_outputTokens inp) (speed (pc_decodeTokPerSec d)) in
    let transferMs := if is_local p d then num_zero else ms (stateBytes inp) (rate inp p d) in
    Some {| b_prefill := pc_nodeId p; b_decode := pc_nodeId d; b_local := is_local p d;
            b_total := num_add (num_add prefillMs transferMs) decodeMs;
            b_prefillMs := prefillMs; b_transferMs := transferMs; b_decodeMs := decodeMs |}.

(** [!best || total < best.total || (total === best.total && key < bestKey)] *)
Definition improves (new : Best) (best : option Best) : bool :=
  match best with
  | None => true
  | Some b =>
      num_ltb (b_total new) (b_total b) ||
      (num_eqb (b_total new) (b_total b) &&
       str_ltb (pair_key (b_prefill new) (b_decode new)) (pair_key (b_prefill b) (b_decode b)))
  end.

Definition consider inp p (best : option Best) d : option Best :=
  match price inp p d with
  | Some new => if improves new best then Some new else best
  | None => best
  end.

Definition search inp (candidates : list PhaseCandidate) : option Best :=
  foldl (fun best p => foldl (consider inp p) best candidates) None candidates.

Definition missing (f : PhaseCandidate -> option num) (l : list PhaseCandidate) : list string :=
  pc_nodeId <$> List.filter (fun c => negb (measured (f c))) l.

Definition choosePhasePlan inp : result PhasePlanError PhasePlan :=
  let candidates := sorted_candidates inp in
  if bool_decide (candidates = []) then Err PE_no_node
  else if negb (positive_num (pi_promptTokens inp)) || negb (positive_num (pi_outputTokens inp))
          || negb (positive_num (pi_stateBytesPerToken inp)) then Err PE_sizes
  else
    let missingPrefill := missing pc_prefillTokPerSec candidates in
    let missingDecode := missing pc_decodeTokPerSec candidates in
    if negb (bool_decide (missingPrefill = [])) && negb (bool_decide (missingDecode = []))
    then Err (PE_unmeasured (dedup (missingPrefill ++ missingDecode)))
    else if negb (existsb (fun c => measured (pc_prefillTokPerSec c) &&
                                    measured (pc_decodeTokPerSec c)) candidates)
    then Err PE_no_node_with_both
    else
      match search inp candidates with
      | None => Err PE_unreachable
      | Some best =>
          let shown s := if measured s then one <$> s else None in
          Ok {| pp_prefillNodeId := b_prefill best; pp_decodeNodeId := b_decode best;
                pp_local := b_local best; pp_estimatedMs := one (b_total best);
                pp_reasons :=
                  ((fun c => PR_speeds (pc_nodeId c) (shown (pc_prefillTokPerSec c))
                                       (shown (pc_decodeTokPerSec c))) <$> candidates) ++
                  [PR_reference (pi_promptTokens inp) (pi_outputTokens inp)
                     (one (num_div (stateBytes inp) (num_of_Z 1048576))) (pi_stateBytesPerToken inp);
                   PR_chosen (b_local best) (b_prefill best) (b_decode best)
                     (one (b_prefillMs best)) (one (b_transferMs best)) (one (b_decodeMs best))
                     (one (b_total best))] |}
      end.

(** ** What the search returns *)

(** Every priced pair, in the order the loops visit them. *)
Definition priced inp (l : list PhaseCandidate) : list Best :=
  p ← l; d ← l; match price inp p d with Some b => [b] | None => [] end.

Definition step (best : option Best) (new : Best) : option Best :=
  if improves new best then Some new else best.

Lemma foldl_consider inp p l best :
  foldl (consider inp p) best l =
  foldl step best (l ≫= fun d => match price inp p d with Some b => [b] | None => [] end).
Proof.
  revert best. induction l as [|d l IH]; intros best; [done|]. simpl.
  rewrite IH, foldl_app. f_equal. unfold consider, step. by destruct (price inp p d).
Qed.

Lemma foldl_pairs inp l k best :
  foldl (fun best p => foldl (consider inp p) best l) best k =
  foldl step best (p ← k; d ← l; match price inp p d with Some b => [b] | None => [] end).
Proof.
  revert best. induction k as [|p k IH]; intros best; [done|].
  rewrite bind_cons, foldl_app. simpl. by rewrite IH, foldl_consider.
Qed.

Lemma search_step inp l : search inp l = foldl step None (priced inp l).
Proof. apply foldl_pairs. Qed.

(** The order the search minimises: total time first, the pair key on exact ties. *)
Definition worse (b new : Best) : bool := improves new (Some b).

Lemma improves_trans (a b c : Best) :
  isNaN (b_total a) = false -> isNaN (b_total b) = false -> isNaN (b_total c) = false ->
  improves a (Some b) = true -> improves b (Some c) = true -> improves a (Some c) = true.
Proof.
  intros Ha Hb Hc. unfold improves. rewrite !orb_true_iff, !andb_true_iff.
  intros [H1|[H1 H1']] [H2|[H2 H2']].
  - left. by eapply num_ltb_trans.
  - left. rewrite num_ltb_lt in * by done. apply num_eqb_key in H2; [|done..]. by rewrite <-H2.
  - left. rewrite num_ltb_lt in * by done. apply num_eqb_key in H1; [|done..]. by rewrite H1.
  - right. rewrite num_eqb_key in * by done. split; [congruence|]. by eapply str_ltb_trans.
Qed.

Lemma improves_irrefl b : improves b (Some b) = false.
Proof. unfold improves. by rewrite num_ltb_irrefl, str_ltb_irrefl, andb_false_r. Qed.

Lemma improves_total (a b : Best) :
  isNaN (b_total a) = false -> isNaN (b_total b) = false ->
  improves a (Some b) = false -> improves b (Some a) = false ->
  pair_key (b_prefill a) (b_decode a) = pair_key (b_prefill b) (b_decode b) ∧
  num_eqb (b_total a) (b_total b) = true.
Proof.
  intros Ha Hb. unfold improves. rewrite !orb_false_iff. intros [L1 K1] [L2 K2].
  destruct (num_trichotomy _ _ Ha Hb) as [H|[H|H]]; [congruence| |congruence].
  split; [|done]. rewrite H in K1. simpl in K1.
  assert (num_eqb (b_total b) (b_total a) = true) as H'.
  { rewrite num_eqb_key in * by done. done. }
  rewrite H' in K2. simpl in K2.
  destruct (str_ltb_trichotomy (pair_key (b_prefill a) (b_decode a))
              (pair_key (b_prefill b) (b_decode b))) as [?|[?|?]]; congruence.
Qed.

Lemma improves_neg_trans (a y b : Best) :
  isNaN (b_total a) = false -> isNaN (b_total y) = false -> isNaN (b_total b) = false ->
  improves a (Some y) = false -> improves y (Some b) = false -> improves a (Some b) = false.
Proof.
  intros Hna Hny Hnb Hay Hyb. apply not_true_is_false. intros Hab.
  destruct (improves b (Some y)) eqn:Eby.
  { rewrite (improves_trans a b y) in Hay by done. done. }
  destruct (improves_total y b Hny Hnb Hyb Eby) as [Hk Ht].
  revert Hay Hab. unfold improves. rewrite Hk. rewrite num_eqb_key in Ht by done.
  rewrite orb_false_iff, orb_true_iff, !andb_true_iff, andb_false_iff.
  intros [Hl1 Hl2] [Hb1|[Hb1 Hb2]].
  - rewrite num_ltb_lt in Hb1 by done. rewrite <-Ht, <-num_ltb_lt in Hb1 by done. congruence.
  - rewrite num_eqb_key in Hb1 by done. rewrite <-Ht, <-num_eqb_key in Hb1 by done.
    destruct Hl2; congruence.
Qed.

(** Nothing in the list improves on what the fold keeps. *)
Lemma foldl_step_best (l : list Best) (b0 : option Best) :
  Forall (fun b => isNaN (b_total b) = false) l ->
  (forall b, b0 = Some b -> isNaN (b_total b) = false) ->
  match foldl step b0 l with
  | Some b => (b ∈ l ∨ b0 = Some b) ∧ isNaN (b_total b) = false ∧
              (forall a, a ∈ l ∨ b0 = Some a -> improves a (Some b) = false)
  | None => l = [] ∧ b0 = None
  end.
Proof.
  revert b0. induction l as [|x l IH]; intros b0 Hl Hb0; simpl.
  - destruct b0 as [b|]; [|done]. repeat split; eauto.
    intros a [Ha|[= ->]]; [by apply elem_of_nil in Ha|apply improves_irrefl].
  - apply Forall_cons in Hl as [Hx Hl].
    assert (forall b, step b0 x = Some b -> isNaN (b_total b) = false) as Hs.
    { unfold step. intros b. case_match; naive_solver. }
    specialize (IH (step b0 x) Hl Hs).
    assert (exists y, step b0 x = Some y ∧ (y = x ∨ b0 = Some y) ∧
              (forall a, a = x ∨ b0 = Some a -> improves a (Some y) = false)) as
      (y & Hy & Hyo & Hymin).
    { unfold step. destruct (improves x b0) eqn:E.
      - exists x. repeat split; auto. intros a [-> | Ha]; [apply improves_irrefl|].
        apply not_true_is_false. intros Hax. rewrite Ha in E.
        pose proof (improves_trans a x a (Hb0 a Ha) Hx (Hb0 a Ha) Hax E) as Haa.
        by rewrite improves_irrefl in Haa.
      - destruct b0 as [b|]; [|done]. exists b. repeat split; auto.
        intros a [-> | [= ->]]; [done|apply improves_irrefl]. }
    rewrite Hy in IH |- *. destruct (foldl step (Some y) l) as [b|] eqn:Ef; [|naive_solver].
    destruct IH as (Hin & Hn & Hmin). split; [set_solver|]. split; [done|].
    intros a Ha. rewrite elem_of_cons in Ha.
    assert (a ∈ l ∨ (a = x ∨ b0 = Some a)) as [Hal|Ha'] by tauto; [eauto|].
    apply (improves_neg_trans a y b); eauto. naive_solver.
Qed.

(** Numbers of a well-formed request: finite sizes and finite link rates. *)
Definition finite_input inp : Prop :=
  isFinite (pi_promptTokens inp) = true ∧ isFinite (pi_outputTokens inp) = true ∧
  isFinite (pi_stateBytesPerToken inp) = true ∧
  forall a b, isFinite (pi_transferBytesPerSec inp a b) = true.

Definition positive_sizes inp : Prop :=
  positive_num (pi_promptTokens inp) = true ∧ positive_num (pi_outputTokens inp) = true ∧
  positive_num (pi_stateBytesPerToken inp) = true.

Lemma positive_nonneg x : positive_num x = true -> nonneg x = true.
Proof. by destruct x as [[]|[]| |[] ? ?]. Qed.

Lemma ms_nonneg tokens perSecond :
  nonneg tokens = true -> positive_num perSecond = true ->
  isFinite tokens = true ∨ isFinite perSecond = true -> nonneg (ms tokens perSecond) = true.
Proof. intros. unfold ms. by apply num_mul_nonneg; [apply num_div_nonneg|..]. Qed.

Lemma price_nonneg inp p d b :
  finite_input inp -> positive_sizes inp -> price inp p d = Some b -> nonneg (b_total b) = true.
Proof.
  intros (Fp & Fo & Fs & Fr) (Pp & Po & Ps). unfold price.
  destruct (negb (may_prefill inp p)) eqn:Ep; [done|].
  destruct (negb (may_decode inp d)) eqn:Ed; [done|].
  destruct (negb (is_local p d) && negb (positive_num (rate inp p d))) eqn:Er; [done|].
  intros [= <-]. unfold may_prefill, may_decode, measured in Ep, Ed. bool_to_prop.
  destruct (pc_prefillTokPerSec p) as [sp|]; [|done].
  destruct (pc_decodeTokPerSec d) as [sd|]; [|done]. simpl.
  assert (nonneg (if is_local p d then num_zero else ms (stateBytes inp) (rate inp p d)) = true).
  { destruct (is_local p d) eqn:El; [done|]. apply andb_false_iff in Er as [?|?]; bool_to_prop; [done|].
    apply ms_nonneg; [|done|].
    - apply num_mul_nonneg; auto using positive_nonneg.
    - right. unfold rate. by rewrite El. }
  repeat apply num_add_nonneg; auto using ms_nonneg, positive_nonneg.
Qed.

Lemma elem_of_priced inp l b :
  b ∈ priced inp l <-> exists p d, p ∈ l ∧ d ∈ l ∧ price inp p d = Some b.
Proof.
  unfold priced. rewrite list_elem_of_bind. split.
  - intros (p & Hb & Hp). rewrite list_elem_of_bind in Hb. destruct Hb as (d & Hb & Hd).
    destruct (price inp p d) eqn:E; [|by apply elem_of_nil in Hb].
    apply list_elem_of_singleton in Hb as ->. eauto.
  - intros (p & d & Hp & Hd & E). exists p. split; [|done]. rewrite list_elem_of_bind.
    exists d. rewrite E. split; [left|done].
Qed.

Lemma search_optimal inp l b :
  finite_input inp -> positive_sizes inp -> search inp l = Some b ->
  b ∈ priced inp l ∧ forall a, a ∈ priced inp l -> improves a (Some b) = false.
Proof.
  intros Hf Hp. rewrite search_step. intros Hs.
  pose proof (foldl_step_best (priced inp l) None) as H. rewrite Hs in H.
  destruct H as (Hin & _ & Hmin); [|done|].
  - apply Forall_forall. intros a (p & d & _ & _ & E)%elem_of_priced.
    eauto using nonneg_not_nan, price_nonneg.
  - split; [naive_solver|]. intros a Ha. apply Hmin. by left.
Qed.

Lemma choosePhasePlan_inv inp plan :
  choosePhasePlan inp = Ok plan ->
  positive_sizes inp ∧ exists b, search inp (sorted_candidates inp) = Some b ∧
    pp_prefillNodeId plan = b_prefill b ∧ pp_decodeNodeId plan = b_decode b ∧
    pp_local plan = b_local b ∧ pp_estimatedMs plan = one (b_total b).
Proof.
  unfold choosePhasePlan. case_bool_decide; [done|].
  destruct (positive_num (pi_promptTokens inp)) eqn:E1; [|done].
  destruct (positive_num (pi_outputTokens inp)) eqn:E2; [|done].
  destruct (positive_num (pi_stateBytesPerToken inp)) eqn:E3; [|done]. simpl.
  do 2 (case_match; [done|]). destruct (search _ _) as [b|] eqn:Es; [|done].
  intros [= <-]. split; [done|]. exists b. done.
Qed.

(** Sorting by a total order makes the visiting order independent of the caller's order. *)
Lemma sorted_candidates_perm `{!Collation localeCompare} inp inp' :
  pi_candidates inp ≡ₚ pi_candidates inp' -> NoDup (pc_nodeId <$> pi_candidates inp) ->
  sorted_candidates inp = sorted_candidates inp'.
Proof.
  intros Hperm Hnd. by apply (js_sort_by_key localeCompare pc_nodeId).
Qed.
End choose.

Lemma price_ids inp p d b :
  price inp p d = Some b ->
  b_prefill b = pc_nodeId p ∧ b_decode b = pc_nodeId d ∧ b_local b = is_local p d.
Proof. unfold price. repeat (case_match; [done|]). by intros [= <-]. Qed.

(** C23: for finite sizes and link rates, the placement [choosePhasePlan] returns is a pair of
    candidates that the loops price, and no other admissible pair is faster for the reference
    request (binary64 [<]), nor equally fast with a smaller [prefill\0decode] key. *)
Theorem choosePhasePlan_optimal localeCompare inp plan :
  finite_input inp -> choosePhasePlan localeCompare inp = Ok plan ->
  exists p d b, p ∈ pi_candidates inp ∧ d ∈ pi_candidates inp ∧ price inp p d = Some b ∧
    pp_prefillNodeId plan = pc_nodeId p ∧ pp_decodeNodeId plan = pc_nodeId d ∧
    pp_local plan = is_local p d ∧ pp_estimatedMs plan = one (b_total b) ∧
    forall p' d' b', p' ∈ pi_candidates inp -> d' ∈ pi_candidates inp -> price inp p' d' = Some b' ->
      num_ltb (b_total b') (b_total b) = false ∧
      (num_eqb (b_total b') (b_total b) = true ->
       str_ltb (pair_key (pc_nodeId p') (pc_nodeId d')) (pair_key (pc_nodeId p) (pc_nodeId d)) = false).
Proof.
  intros Hf Hok. apply choosePhasePlan_inv in Hok as (Hp & b & Hs & H1 & H2 & H3 & H4).
  destruct (search_optimal _ _ _ Hf Hp Hs) as [(p & d & Hpi & Hdi & E)%elem_of_priced Hmin].
  apply js_sort_elem in Hpi, Hdi. destruct (price_ids _ _ _ _ E) as (I1 & I2 & I3).
  exists p, d, b. do 3 (split; [done|]). do 4 (split; [congruence|]).
  intros p' d' b' Hp' Hd' E'. destruct (price_ids _ _ _ _ E') as (J1 & J2 & _).
  assert (improves b' (Some b) = false) as Hi.
  { apply Hmin, elem_of_priced. exists p', d'. unfold sorted_candidates. by rewrite !js_sort_elem. }
  unfold improves in Hi. rewrite I1, I2, J1, J2 in Hi. apply orb_false_iff in Hi as [? Hi].
  split; [done|]. intros Heq. by rewrite Heq in Hi.
Qed.

(** The decision does not depend on the order in which the caller lists the candidates: with
    distinct node ids and a consistent collation, two permutations of the same candidates get
    the same plan, the same explanation and the same refusals. *)
Theorem choosePhasePlan_order_independent localeCompare `{!Collation localeCompare} inp inp' :
  pi_candidates inp ≡ₚ pi_candidates inp' -> NoDup (pc_nodeId <$> pi_candidates inp) ->
  inp' = {| pi_candidates := pi_candidates inp'; pi_promptTokens := pi_promptTokens inp;
            pi_outputTokens := pi_outputTokens inp;
            pi_stateBytesPerToken := pi_stateBytesPerToken inp;
            pi_transferBytesPerSec := pi_transferBytesPerSec inp;
            pi_prefillNodeIds := pi_prefillNodeIds inp; pi_decodeNodeIds := pi_decodeNodeIds inp |} ->
  choosePhasePlan localeCompare inp = choosePhasePlan localeCompare inp'.
Proof.
  intros Hperm Hnd Hrest. unfold choosePhasePlan.
  rewrite (sorted_candidates_perm localeCompare inp inp') by done.
  rewrite Hrest. done.
Qed.

(** ** Concrete requests *)

Definition cand (id : string) (p d : Z) : PhaseCandidate :=
  {| pc_nodeId := id; pc_prefillTokPerSec := Some (num_of_Z p); pc_decodeTokPerSec := Some (num_of_Z d) |}.

(** A node fast at prefill and a node fast at decode over a quick link. *)
Definition demo_input (l : list PhaseCandidate) : PhasePlanInput :=
  {| pi_candidates := l; pi_promptTokens := num_of_Z 512; pi_outputTokens := num_of_Z 64;
     pi_stateBytesPerToken := num_of_Z 4096; pi_transferBytesPerSec := fun _ _ => num_of_Z 100000000;
     pi_prefillNodeIds := None; pi_decodeNodeIds := None |}.

Example choosePhasePlan_splits :
  match choosePhasePlan String.compare (demo_input [cand "b" 100 80; cand "a" 2000 10]) with
  | Ok p => pp_prefillNodeId p = "a"%string ∧ pp_decodeNodeId p = "b"%string ∧ pp_local p = false
  | Err _ => False
  end.
Proof. vm_compute. done. Qed.

Lemma demo_input_finite l : finite_input (demo_input l).
Proof. done. Qed.

Lemma choosePhasePlan_optimal_witness :
  exists p d b, p ∈ [cand "b" 100 80; cand "a" 2000 10] ∧ d ∈ [cand "b" 100 80; cand "a" 2000 10] ∧
    price (demo_input [cand "b" 100 80; cand "a" 2000 10]) p d = Some b ∧ pc_nodeId p = "a"%string.
Proof.
  destruct (choosePhasePlan String.compare (demo_input [cand "b" 100 80; cand "a" 2000 10])) as [plan|e] eqn:E;
    [|vm_compute in E; discriminate E].
  destruct (choosePhasePlan_optimal String.compare _ plan (demo_input_finite _) E)
    as (p & d & b & Hp & Hd & Hb & Hpn & _).
  exists p, d, b. split; [exact Hp|]. split; [exact Hd|]. split; [exact Hb|].
  rewrite <- Hpn. vm_compute in E. injection E as <-. reflexivity.
Defined.

Lemma choosePhasePlan_order_independent_witness :
  choosePhasePlan String.compare (demo_input [cand "b" 100 80; cand "a" 2000 10]) =
  choosePhasePlan String.compare (demo_input [cand "a" 2000 10; cand "b" 100 80]).
Proof.
  apply (choosePhasePlan_order_independent String.compare).
  - apply perm_swap.
  - apply (bool_decide_unpack _). vm_compute. exact I.
  - reflexivity.
Defined.
