(* ===== verification/Planner.v ===== *)
(** * The placement planner (swarmlet/control/planner.ts)

    [planDeployment] turns a deployment request, a model profile and the registry's node rows
    into a placement or a refusal.  [Ctx] carries the immutable part of the code's context;
    its two growing arrays [reasons] and [errors] are the state of the monad [P], and
    [throw new PlanError] is its exception.  Messages are constructors
    carrying the values that matter for the decision.  [re_test p s] is [new RegExp(p).test(s)]. *)

From S2P Require Import Prelude JsNum Json Types Validate PhasePlan.


Definition DEFAULT_CTX : Z := 1536.
Definition DEFAULT_PARALLEL : Z := 1.
Definition DEFAULT_CHAIN : Z := 0.
Definition WORKER_PORT_BASE : Z := 50200.
Definition WORKER_PORT_STEP : Z := 10.
Definition MAX_WORKER_THREADS : Z := 10.
Definition WIRE_MODES : list string := ["off"; "f16"; "q8"]%string.

Inductive Role := coordinator_role | replica_role | worker_role.

(** ** Messages *)

Inductive Problem :=
  | is_offline | no_offer | offer_disabled | role_not_offered (r : Role) | no_model (pattern : string).

Inductive RamShortfall := Ram_shortfall (host : string) (needMiB ramMiB : Z).

Inductive Blocked :=
  | Bl_ctx (ctx maxCtx : Z) | Bl_parallel (parallel maxParallel : Z) | Bl_chain (chain maxChain : Z)
  | Bl_no_layer (host : string) (layerMiB margin memMiB : Z) (engineName : string)
  | Bl_ram (r : RamShortfall)
  | Bl_leaves_none (workers workerLayers layers : Z)
  | Bl_gpu (host : string) (need workerLayers memMiB : Z) (engineName : string).

Inductive Refusal :=
  (* request *)
  | R_ctx | R_parallel | R_chain | R_replica_mtp | R_speculation | R_speculation_chain
  | R_wire (w : string) | R_kind (k : DeploymentKind) | R_native_fields
  | R_workerNodeIds | R_exact_mtp | R_layers_kind | R_layers_shape | R_layers_length
  (* native request *)
  | R_native_field (key : string) | R_native_profile | R_native_sizes | R_native_transport
  | R_stages_count | R_stage_fields (i : nat) | R_stage_node (i : nat) | R_stage_model (i : nat)
  | R_stage_range (i : nat) | R_stage_cover | R_phase_both | R_phase_distinct | R_model_sha
  (* nodes *)
  | R_not_enrolled (r : Role) (id : string) | R_node (r : Role) (host : string) (ps : list Problem)
  | R_no_mtpPattern (chain : Z) (profile : string)
  | R_no_draft (chain : Z) (pattern host : string) (models : nat)
  | R_resident_unified (role host : string) (layers need ramMiB : Z)
  | R_resident_gpu (role host : string) (layers need memMiB : Z) (engineName : string)
  | R_resident_host (role host : string) (hostMiB ramMiB : Z)
  | R_resident_cpu_only (role host : string) (gpus : list string)
  | R_resident_cpu (role host : string) (layers need ramMiB : Z)
  | R_no_row (profile : string) (ctx parallel chain : Z) (workers : nat)
  | R_slot_max (host : string) (memMiB maxLayers : Z)
  | R_row_skipped (row : EnvelopeRow) (blocked : list Blocked)
  | R_no_replica (pattern : string) | R_no_coordinator (pattern : string)
  | R_layers_row (host : string) (count ctx parallel chain : Z)
  | R_layers_gpu (host : string) (need count memMiB : Z)
  | R_layers_ram (r : RamShortfall) | R_layers_total (total layers : Z)
  | R_listed_twice (id : string) | R_coordinator_worker (host : string)
  | R_no_gpu_offer (host : string) | R_needs_worker | R_no_free_port
  (* native placement *)
  | R_native_model | R_phase_none | R_phase_rejected (errs : list (string * option PhasePlanError))
  | R_phase_local (host : string) | R_unqualified
  | R_native_gpu_count (host : string) | R_native_cores (host : string)
  | R_native_unified (host : string) (fit ramMiB : Z) | R_native_gpu (host : string) (need memMiB : Z)
  | R_native_host (host : string) (need ramMiB : Z).

Inductive Reason :=
  | A_request (ctx parallel chain : Z) | A_eligible (eligible all : nat) (hosts : list string)
  | A_node (r : Role) (host : string) (needModel : bool)
  | A_ngram | A_no_speculation | A_draft (chain : Z) (file host : string)
  | A_resident (role host device : string) (layers need offered : Z)
  | A_resident_host (role host : string) (hostMiB ramMiB : Z)
  | A_row (row : EnvelopeRow) (skipped : list (EnvelopeRow * list Blocked))
  | A_replica (host : string) | A_whole_model (device : string) | A_env (env : list (string * string))
  | A_layers (host : string) (count need memMiB : Z)
  | A_coordinator (host : string) (ramMiB : Z) (others : list string)
  | A_relayed_request (host : string) | A_workers_given (hosts : list string)
  | A_relayed (hosts : list string) | A_workers_auto (hosts : list string)
  | A_max_fit (host : string) (layers : Z)
  | A_worker (i : nat) (w : PlanWorker) | A_devices (n : nat) (device : string) (split : list Z)
  | A_exact (split engine : list Z) | A_historical | A_forwarding (on : bool)
  | A_batched_off | A_wire (w : string) | A_boundary (bytes : Z) (crossings : Z)
  | A_phase (r : PhaseReason) | A_native (i : nat) (host : string) (gpuNeed hostNeed : Z)
  | A_qualification (evidence : string)
  | A_fleet_budgets.

Inductive Headline :=
  | Cannot_plan (name profile : string) (k : DeploymentKind)
  | No_free_worker_port.

Record PlanError := { pe_message : Headline; pe_reasons : list Refusal }.

Record Plan := {
  pl_coordinatorNodeId : string; pl_coordinatorDevice : string; pl_workers : list PlanWorker;
  pl_tensorSplit : list Z; pl_engineTensorSplit : option (list Z);
  pl_ctx : Z; pl_parallel : Z; pl_chain : Z; pl_speculation : option NgramSpeculation;
  pl_env : list (string * string); pl_modelPath : string; pl_mtpPath : option string;
  pl_nativeExecution : option NativeExecutionPlacement;
  pl_reasons : list Reason; pl_allocations : option (list NodeAllocation) }.

(** ** Context and monad *)

Record Ctx := {
  c_spec : DeploymentSpec; c_profile : ModelProfile; c_ctx : Z; c_parallel : Z; c_chain : Z;
  c_all : list NodeRow; c_eligible : list NodeRow;
  c_usedPorts : gmap string (gset Z); c_headline : Headline }.

Record PState := { p_reasons : list Reason; p_errors : list Refusal }.
Definition P (A : Type) : Type := M PState PlanError A.

Definition reason (r : Reason) : P unit :=
  mmodify (fun s => {| p_reasons := p_reasons s ++ [r]; p_errors := p_errors s |}).
Definition refuse (r : Refusal) : P unit :=
  mmodify (fun s => {| p_reasons := p_reasons s; p_errors := p_errors s ++ [r] |}).
(** [throw new PlanError(c.headline, c.errors)] *)
Definition throw_errors {A} (c : Ctx) : P A :=
  fun s => (Err {| pe_message := c_headline c; pe_reasons := p_errors s |}, s).
(** [if (c.errors.length) throw new PlanError(c.headline, c.errors)] *)
Definition check_errors (c : Ctx) : P unit :=
  fun s => if bool_decide (p_errors s = []) then (Ok tt, s) else throw_errors c s.

(** ** Helpers *)

Definition byHost_cmp (a b : NodeRow) : comparison :=
  match String.compare (nr_hostname a) (nr_hostname b) with
  | Eq => String.compare (nr_id a) (nr_id b)
  | c => c
  end.
Definition byHost (a b : NodeRow) : bool := match byHost_cmp a b with Gt => false | _ => true end.

Definition rttOf (n : NodeRow) : num :=
  match nr_caps n ≫= cap_net with Some m => nm_rttMs m | None => num_inf end.

Definition dialableDirectly (n : NodeRow) : bool :=
  match nr_caps n ≫= cap_publicEndpoints with Some (_ :: _) => true | _ => false end.

(** [ra === rb ? byHost(a, b) : ra < rb ? -1 : 1] *)
Definition byRtt (a b : NodeRow) : bool :=
  if num_eqb (rttOf a) (rttOf b) then byHost a b else num_ltb (rttOf a) (rttOf b).

Definition role_offered (o : Offer) (r : Role) : bool :=
  match r with
  | coordinator_role => ro_coordinator (of_roles o)
  | replica_role => ro_replica (of_roles o)
  | worker_role => ro_worker (of_roles o)
  end.

(** [n.offer!.roles.r] on a node whose offer is known to be present. *)
Definition offers (n : NodeRow) (r : Role) : bool :=
  match nr_offer n with Some o => role_offered o r | None => false end.

Record GpuSlot := { gs_id : string; gs_engineName : string; gs_memMiB : Z }.
Record WorkerSlot := { ws_node : NodeRow; ws_gpu : GpuSlot }.

Fixpoint offeredGpu_in (devices : list GpuDevice) (l : list GpuMem) : option GpuSlot :=
  match l with
  | [] => None
  | o :: l =>
      match find (fun g => bool_decide (gd_id g = gm_id o)) devices with
      | Some d =>
          if 0 <? gm_memMiB o
          then Some {| gs_id := gd_id d; gs_engineName := gd_engineName d; gs_memMiB := gm_memMiB o |}
          else offeredGpu_in devices l
      | None => offeredGpu_in devices l
      end
  end.

Definition caps_gpus (n : NodeRow) : list GpuDevice :=
  match nr_caps n with Some c => cap_gpus c | None => [] end.

(** First GPU the owner offers that the node's capabilities also report. *)
Definition offeredGpu (n : NodeRow) : option GpuSlot :=
  match nr_offer n with Some o => offeredGpu_in (caps_gpus n) (of_gpu o) | None => None end.

Definition offer_ram (n : NodeRow) : Z := match nr_offer n with Some o => of_ramMiB o | None => 0 end.
Definition offer_cores (n : NodeRow) : Z := match nr_offer n with Some o => of_cpuCores o | None => 0 end.

Definition envFor (spec : DeploymentSpec) (workers : nat) : list (string * string) :=
  let on b := if b : bool then "1"%string else "0"%string in
  [("GGML_RPC_FORWARD", on (negb (bool_decide (ds_forwarding spec = Some false)) && (1 <? Z.of_nat workers)%Z));
   ("GGML_RPC_PIPELINE", "1"); ("GGML_SCHED_PIPELINED_COPY", "1");
   ("GGML_RPC_GET_PIPELINE", on (negb (bool_decide (ds_batchedGets spec = Some false))));
   ("GGML_RPC_WIRE", default "off" (ds_wire spec))]%string.

(** The port loop: [for (p = BASE; p + 1 < 65536; p += STEP)].  [fuel] bounds the number of
    iterations; 1534 of them exhaust the range (see [pickPort_total]). *)
Fixpoint pickPort_from (fuel : nat) (used : gset Z) (p : Z) : option Z :=
  match fuel with
  | O => None
  | S fuel =>
      if p + 1 <? 65536 then
        if bool_decide (p ∉ used) && bool_decide (p + 1 ∉ used) then Some p
        else pickPort_from fuel used (p + WORKER_PORT_STEP)
      else None
  end.
Definition pickPort_fuel : nat := 1600.

Definition pickPort (used : option (gset Z)) : P Z :=
  match pickPort_from pickPort_fuel (default ∅ used) WORKER_PORT_BASE with
  | Some p => mret p
  | None => mthrow {| pe_message := No_free_worker_port; pe_reasons := [R_no_free_port] |}
  end.

(** [path.basename] on POSIX paths: trailing slashes removed, then the last component. *)
Fixpoint split_slash (s acc : string) : list string :=
  match s with
  | EmptyString => [acc]
  | String a s =>
      if (Ascii.nat_of_ascii a =? 47)%nat then acc :: split_slash s EmptyString
      else split_slash s (acc ++ String a EmptyString)
  end.
Definition basename (s : string) : string :=
  default EmptyString (last (List.filter (fun x => negb (String.eqb x EmptyString)) (split_slash s EmptyString))).

Section planner.
Context (re_test : string -> string -> bool).
Context (localeCompare : string -> string -> comparison).

Definition findModel (n : NodeRow) (pattern : string) : option ModelFile :=
  find (fun m => re_test pattern (mf_name m)) (nr_models n).

Definition gguf_re (c : Ctx) : string := mp_ggufPattern (c_profile c).

Definition has_model (c : Ctx) (n : NodeRow) : bool :=
  match findModel n (gguf_re c) with Some _ => true | None => false end.

(** A node named in the spec: enrolled, online, offering the role (and the model when asked). *)
Definition node_problems (c : Ctx) (n : NodeRow) (role : Role) (needModel : bool) : list Problem :=
  (if nr_online n then [] else [is_offline]) ++
  (match nr_offer n with
   | None => [no_offer]
   | Some o => (if of_enabled o then [] else [offer_disabled]) ++
               (if role_offered o role then [] else [role_not_offered role])
   end) ++
  (if needModel && negb (has_model c n) then [no_model (gguf_re c)] else []).

Definition requireNode (c : Ctx) (id : string) (role : Role) (needModel : bool) : P (option NodeRow) :=
  match find (fun x => bool_decide (nr_id x = id)) (c_all c) with
  | None => refuse (R_not_enrolled role id) ;; mret None
  | Some n =>
      match node_problems c n role needModel with
      | [] => reason (A_node role (nr_hostname n) needModel) ;; mret (Some n)
      | ps => refuse (R_node role (nr_hostname n) ps) ;; mret None
      end
  end.

(** MTP draft head for chain > 0. *)
Definition draftHead (c : Ctx) (n : NodeRow) : P (option string) :=
  if c_chain c =? 0 then
    reason (match ds_speculation (c_spec c) with Some _ => A_ngram | None => A_no_speculation end) ;;
    mret None
  else
    match mp_mtpPattern (c_profile c) with
    | None => refuse (R_no_mtpPattern (c_chain c) (mp_id (c_profile c))) ;; mret None
    | Some pat =>
        match findModel n pat with
        | None => refuse (R_no_draft (c_chain c) pat (nr_hostname n) (length (nr_models n))) ;; mret None
        | Some f => reason (A_draft (c_chain c) (mf_name f) (nr_hostname n)) ;; mret (Some (mf_path f))
        end
    end.

(** Device for the layers the coordinator or replica keeps itself. *)
Definition placeResident (c : Ctx) (n : NodeRow) (layers : Z) (role : string) : P string :=
  let p := c_profile c in
  let layersMiB := layers * mp_layerMiB p in
  let host := mp_coordinatorHostMiB p in
  let ram := offer_ram n in
  let hn := nr_hostname n in
  if bool_decide (nr_os n = darwin) then
    let device := match caps_gpus n with g :: _ => gd_engineName g | [] => "CPU"%string end in
    let need := layersMiB + host in
    (if need <=? ram then reason (A_resident role hn device layers need ram)
     else refuse (R_resident_unified role hn layers need ram)) ;; mret device
  else
    match offeredGpu n with
    | Some gpu =>
        (if layersMiB <=? gs_memMiB gpu
         then reason (A_resident role hn (gs_engineName gpu) layers layersMiB (gs_memMiB gpu))
         else refuse (R_resident_gpu role hn layers layersMiB (gs_memMiB gpu) (gs_engineName gpu))) ;;
        (if host <=? ram then reason (A_resident_host role hn host ram)
         else refuse (R_resident_host role hn host ram)) ;;
        mret (gs_engineName gpu)
    | None =>
        match usableGpus (caps_gpus n) with
        | [] =>
            let need := layersMiB + host in
            (if need <=? ram then reason (A_resident role hn "CPU" layers need ram)
             else refuse (R_resident_cpu role hn layers need ram)) ;; mret "CPU"%string
        | unused => refuse (R_resident_cpu_only role hn (gd_name <$> unused)) ;; mret "CPU"%string
        end
    end.

(** The most layers a worker can hold, by its GPU offer and by the RAM the agent enforces. *)
Definition maxFitLayers (slot : WorkerSlot) (p : ModelProfile) : Z :=
  let byGpu := (gs_memMiB (ws_gpu slot) - mp_workerMarginMiB p) / mp_layerMiB p in
  let byRam := (offer_ram (ws_node slot) - mp_workerMarginMiB p) / mp_layerMiB p in
  Z.max 0 (Z.min byGpu byRam).

Definition ramShortfall (n : NodeRow) (needMiB : Z) : option RamShortfall :=
  match nr_offer n with
  | None => None
  | Some o =>
      if negb (bool_decide (nr_os n = darwin)) || (needMiB <=? of_ramMiB o) then None
      else Some (Ram_shortfall (nr_hostname n) needMiB (of_ramMiB o))
  end.

Definition ram_blocked (n : NodeRow) (needMiB : Z) : list Blocked :=
  match ramShortfall n needMiB with Some r => [Bl_ram r] | None => [] end.

(** The blockers of one envelope row. *)
Definition row_blocked (c : Ctx) (slots : list WorkerSlot) (row : EnvelopeRow) : list Blocked :=
  let p := c_profile c in
  (if er_maxCtx row <? c_ctx c then [Bl_ctx (c_ctx c) (er_maxCtx row)] else []) ++
  (if er_maxParallel row <? c_parallel c then [Bl_parallel (c_parallel c) (er_maxParallel row)] else []) ++
  (if er_maxChain row <? c_chain c then [Bl_chain (c_chain c) (er_maxChain row)] else []) ++
  (if er_maxFit row then
     s ← slots;
     let fit := maxFitLayers s p in
     (if fit <? 1 then [Bl_no_layer (nr_hostname (ws_node s)) (mp_layerMiB p) (mp_workerMarginMiB p)
                          (gs_memMiB (ws_gpu s)) (gs_engineName (ws_gpu s))] else []) ++
     ram_blocked (ws_node s) (fit * mp_layerMiB p + mp_workerMarginMiB p)
   else
     (if mp_layers p - 1 <? er_workerLayers row * Z.of_nat (length slots)
      then [Bl_leaves_none (Z.of_nat (length slots)) (er_workerLayers row) (mp_layers p)] else []) ++
     let need := er_workerLayers row * mp_layerMiB p + mp_workerMarginMiB p in
     s ← slots;
     (if gs_memMiB (ws_gpu s) <? need
      then [Bl_gpu (nr_hostname (ws_node s)) need (er_workerLayers row) (gs_memMiB (ws_gpu s))
              (gs_engineName (ws_gpu s))] else []) ++
     ram_blocked (ws_node s) need).

(** [.sort((a, b) => b.row.workerLayers - a.row.workerLayers || a.i - b.i)]: a stable sort by
    decreasing layers already keeps profile order on ties. *)
Definition rows_by_layers (rows : list EnvelopeRow) : list EnvelopeRow :=
  js_sort (fun a b => er_workerLayers b <=? er_workerLayers a) rows.

Fixpoint choose_from (c : Ctx) (slots : list WorkerSlot)
    (skipped : list (EnvelopeRow * list Blocked)) (rows : list EnvelopeRow)
    : P (option EnvelopeRow) :=
  match rows with
  | [] =>
      let p := c_profile c in
      refuse (R_no_row (mp_id p) (c_ctx c) (c_parallel c) (c_chain c) (length slots)) ;;
      mfor slots (fun s =>
        refuse (R_slot_max (nr_hostname (ws_node s)) (gs_memMiB (ws_gpu s))
          (Z.max 0 ((gs_memMiB (ws_gpu s) - mp_workerMarginMiB p) / mp_layerMiB p)))) ;;
      mfor skipped (fun rb => refuse (R_row_skipped rb.1 rb.2)) ;;
      mret None
  | row :: rows =>
      match row_blocked c slots row with
      | [] => reason (A_row row skipped) ;; mret (Some row)
      | bl => choose_from c slots (skipped ++ [(row, bl)]) rows
      end
  end.

Definition chooseRow (c : Ctx) (slots : list WorkerSlot) : P (option EnvelopeRow) :=
  choose_from c slots [] (rows_by_layers (mp_envelope (c_profile c))).

Definition model_path (c : Ctx) (n : NodeRow) : string :=
  match findModel n (gguf_re c) with Some f => mf_path f | None => ""%string end.

Definition planReplica (c : Ctx) : P Plan :=
  let spec := c_spec c in
  node ← match ds_replicaNodeId spec with
         | Some id => requireNode c id replica_role true
         | None =>
             match find (fun n => offers n replica_role && has_model c n) (c_eligible c) with
             | Some n => reason (A_replica (nr_hostname n)) ;; mret (Some n)
             | None => refuse (R_no_replica (gguf_re c)) ;; mret None
             end
         end;
  match node with
  | None => throw_errors c
  | Some n =>
      mtpPath ← draftHead c n;
      device ← placeResident c n (mp_layers (c_profile c)) "Replica";
      check_errors c ;;
      let env := envFor spec 0 in
      reason (A_whole_model device) ;;
      reason (A_env env) ;;
      s ← mget;
      mret {| pl_coordinatorNodeId := nr_id n; pl_coordinatorDevice := device; pl_workers := [];
              pl_tensorSplit := []; pl_engineTensorSplit := None;
              pl_ctx := c_ctx c; pl_parallel := c_parallel c; pl_chain := c_chain c;
              pl_speculation := ds_speculation spec; pl_env := env; pl_modelPath := model_path c n;
              pl_mtpPath := mtpPath; pl_nativeExecution := None;
              pl_reasons := p_reasons s; pl_allocations := None |}
  end.

(** Explicit placement keeps each count inside one complete envelope row and its node's offer. *)
Definition row_for (c : Ctx) (count : Z) : option EnvelopeRow :=
  find (fun r => (er_workerLayers r =? count) && (c_ctx c <=? er_maxCtx r) &&
                 (c_parallel c <=? er_maxParallel r) && (c_chain c <=? er_maxChain r))
       (mp_envelope (c_profile c)).

Definition requestedLayers (c : Ctx) (layers : list Z) (slots : list WorkerSlot) : P (list Z) :=
  mmap_i 0 slots (fun i s =>
    let count := default 0 (layers !! i) in
    let hn := nr_hostname (ws_node s) in
    let row := row_for c count in
    mwhen (bool_decide (row = None)) (refuse (R_layers_row hn count (c_ctx c) (c_parallel c) (c_chain c))) ;;
    let need := count * mp_layerMiB (c_profile c) + mp_workerMarginMiB (c_profile c) in
    let overGpu := gs_memMiB (ws_gpu s) <? need in
    mwhen overGpu (refuse (R_layers_gpu hn need count (gs_memMiB (ws_gpu s)))) ;;
    let ram := ramShortfall (ws_node s) need in
    match ram with Some r => refuse (R_layers_ram r) | None => mret tt end ;;
    mwhen (bool_decide (row <> None) && negb overGpu && bool_decide (ram = None))
      (reason (A_layers hn count need (gs_memMiB (ws_gpu s)))) ;;
    mret tt) ;;
  let total := sumZ layers in
  mwhen (mp_layers (c_profile c) <=? total) (refuse (R_layers_total total (mp_layers (c_profile c)))) ;;
  check_errors c ;;
  mret layers.

(** Index of the first maximal entry: [let i = 0; for (j = 1; ..) if (l[j] > l[i]) i = j]. *)
Fixpoint argmax_from (l : list Z) (j i : nat) (v : Z) : nat :=
  match l with
  | [] => i
  | x :: l => if v <? x then argmax_from l (S j) j x else argmax_from l (S j) i v
  end.
Definition argmax (l : list Z) : nat :=
  match l with [] => 0%nat | x :: l => argmax_from l 1 0 x end.

(** [layers[i]!--] *)
Definition decr (i : nat) (l : list Z) : list Z :=
  match l !! i with Some x => <[i := x - 1]> l | None => l end.

(** [while (sum(layers) > cap) layers[argmax]--]; each turn takes one layer off, so
    [sum - cap] turns are enough ([shave_sum]). *)
Fixpoint shave_loop (fuel : nat) (cap : Z) (layers : list Z) : list Z :=
  match fuel with
  | O => layers
  | S fuel => if cap <? sumZ layers then shave_loop fuel cap (decr (argmax layers) layers) else layers
  end.
Definition shave (cap : Z) (layers : list Z) : list Z :=
  shave_loop (Z.to_nat (sumZ layers - cap)) cap layers.

(** One requested worker: not the coordinator, usable, and offering GPU memory. *)
Definition requested_slot (c : Ctx) (coord : option NodeRow) (id : string) : P (list WorkerSlot) :=
  match List.filter (fun co => bool_decide (id = nr_id co)) (option_list coord) with
  | co :: _ => refuse (R_coordinator_worker (nr_hostname co)) ;; mret []
  | [] =>
    n ← requireNode c id worker_role false;
    match n with
    | None => mret []
    | Some n =>
        match offeredGpu n with
        | None => refuse (R_no_gpu_offer (nr_hostname n)) ;; mret []
        | Some gpu =>
            mwhen (negb (dialableDirectly n)) (reason (A_relayed_request (nr_hostname n))) ;;
            mret [{| ws_node := n; ws_gpu := gpu |}]
        end
    end
  end.

(** The requested worker ids, in order; a repeated id is an error. *)
Fixpoint requested_slots (c : Ctx) (coord : option NodeRow) (seen : list string) (ids : list string)
    : P (list WorkerSlot) :=
  match ids with
  | [] => mret []
  | id :: ids =>
      if bool_decide (id ∈ seen) then
        refuse (R_listed_twice id) ;; requested_slots c coord seen ids
      else
        s ← requested_slot c coord id;
        rest ← requested_slots c coord (id :: seen) ids;
        mret (s ++ rest)
  end.

(** The coordinator-role nodes holding the model, largest RAM offer first. *)
Definition by_ram (a b : NodeRow) : bool :=
  if offer_ram b - offer_ram a =? 0 then byHost a b else offer_ram b - offer_ram a <=? 0.

Definition coordinator_candidates (c : Ctx) : list NodeRow :=
  js_sort by_ram (List.filter (fun n => offers n coordinator_role && has_model c n) (c_eligible c)).

Definition pick_coordinator (c : Ctx) : P (option NodeRow) :=
  match ds_coordinatorNodeId (c_spec c) with
  | Some id => requireNode c id coordinator_role true
  | None =>
      match coordinator_candidates c with
      | co :: others =>
          reason (A_coordinator (nr_hostname co) (offer_ram co) (nr_hostname <$> others)) ;; mret (Some co)
      | [] => refuse (R_no_coordinator (gguf_re c)) ;; mret None
      end
  end.

Definition slot_of (n : NodeRow) : list WorkerSlot :=
  match offeredGpu n with Some gpu => [{| ws_node := n; ws_gpu := gpu |}] | None => [] end.

(** Every other eligible worker; direct paths first, then relayed ones, each by RTT.
    [n !== coord] compares rows; ids are the registry's primary key. *)
Definition eligible_workers (c : Ctx) (coord : option NodeRow) : list NodeRow :=
  List.filter (fun n =>
    match coord with Some co => negb (bool_decide (nr_id n = nr_id co)) | None => true end &&
    offers n worker_role &&
    match offeredGpu n with Some _ => true | None => false end) (c_eligible c).

Definition pick_workers (c : Ctx) (coord : option NodeRow) : P (list WorkerSlot) :=
  match ds_workerNodeIds (c_spec c) with
  | Some ids =>
      slots ← requested_slots c coord [] ids;
      mwhen (bool_decide (slots <> []))
        (reason (A_workers_given ((fun s => nr_hostname (ws_node s)) <$> slots))) ;;
      mret slots
  | None =>
      let direct := js_sort byRtt (List.filter dialableDirectly (eligible_workers c coord)) in
      let relayed := js_sort byRtt
        (List.filter (fun n => negb (dialableDirectly n)) (eligible_workers c coord)) in
      let slots := (direct ++ relayed) ≫= slot_of in
      mwhen (bool_decide (relayed <> [])) (reason (A_relayed (nr_hostname <$> relayed))) ;;
      mwhen (bool_decide (slots <> []))
        (reason (A_workers_auto ((fun s => nr_hostname (ws_node s)) <$> slots))) ;;
      mret slots
  end.

(** The per-worker layer counts: requested, max-fit and shaved, or one row's count each. *)
Definition worker_layers (c : Ctx) (slots : list WorkerSlot) : P (list Z) :=
  let p := c_profile c in
  match ds_workerLayers (c_spec c) with
  | Some ls => requestedLayers c (omap as_safe_int ls) slots
  | None =>
      row ← chooseRow c slots;
      match row with
      | None => throw_errors c
      | Some row =>
          if er_maxFit row then
            let layers := shave (mp_layers p - 1) ((fun s => maxFitLayers s p) <$> slots) in
            mfor (zip slots layers) (fun sl => reason (A_max_fit (nr_hostname (ws_node sl.1)) sl.2)) ;;
            mret layers
          else mret ((fun _ => er_workerLayers row) <$> slots)
      end
  end.

Definition forwarding_on (spec : DeploymentSpec) (slots : list WorkerSlot) : bool :=
  negb (bool_decide (ds_forwarding spec = Some false)) && (1 <? Z.of_nat (length slots)).

Definition plan_worker (c : Ctx) (forwarding : bool) (i : nat) (sl : WorkerSlot * Z) : P PlanWorker :=
  let node := ws_node sl.1 in
  let gpu := ws_gpu sl.1 in
  port ← pickPort (c_usedPorts c !! nr_id node);
  let threads := Z.max 1 (Z.min (offer_cores node) MAX_WORKER_THREADS) in
  let w := {| pw_nodeId := nr_id node; pw_device := gs_engineName gpu; pw_layers := sl.2;
              pw_port := port; pw_peerPort := if forwarding then Some (port + 1) else None;
              pw_threads := threads; pw_memCapMiB := gs_memMiB gpu |} in
  reason (A_worker i w) ;; mret w.

Definition planSplit (c : Ctx) : P Plan :=
  let spec := c_spec c in
  let profile := c_profile c in
  coord ← pick_coordinator c;
  slots ← pick_workers c coord;
  mwhen (bool_decide (slots = [])) (refuse R_needs_worker) ;;
  match coord with
  | None => throw_errors c
  | Some coord =>
      check_errors c ;;
      mtpPath ← draftHead c coord;
      layers ← worker_layers c slots;
      let remaining := mp_layers profile - sumZ layers in
      device ← placeResident c coord remaining "Coordinator";
      check_errors c ;;
      let forwarding := forwarding_on spec slots in
      workers ← mmap_i 0 (zip slots layers) (plan_worker c forwarding);
      let env := envFor spec (length slots) in
      let tensorSplit := (pw_layers <$> workers) ++ [remaining] in
      let engineTensorSplit :=
        match ds_workerLayers spec with Some _ => Some (layers ++ [remaining + 1]) | None => None end in
      reason (A_devices (length workers) device tensorSplit) ;;
      match engineTensorSplit with
      | Some e => reason (A_exact tensorSplit e) | None => reason A_historical end ;;
      reason (A_forwarding forwarding) ;;
      mwhen (bool_decide (ds_batchedGets spec = Some false)) (reason A_batched_off) ;;
      match ds_wire spec with
      | Some w => mwhen (negb (bool_decide (w = "off"%string))) (reason (A_wire w)) | None => mret tt end ;;
      reason (A_boundary (mp_boundaryBytes profile) (Z.of_nat (length slots) + 1)) ;;
      reason (A_env env) ;;
      s ← mget;
      mret {| pl_coordinatorNodeId := nr_id coord; pl_coordinatorDevice := device;
              pl_workers := workers; pl_tensorSplit := tensorSplit;
              pl_engineTensorSplit := engineTensorSplit;
              pl_ctx := c_ctx c; pl_parallel := c_parallel c; pl_chain := c_chain c;
              pl_speculation := ds_speculation spec; pl_env := env;
              pl_modelPath := model_path c coord; pl_mtpPath := mtpPath;
              pl_nativeExecution := None; pl_reasons := p_reasons s; pl_allocations := None |}
  end.

(** ** Native execution: two or three qualified shards, or a prefill/decode pair *)

Definition key_if (k : string) (present : bool) : list string := if present then [k] else [].
Definition is_some {A} (o : option A) : bool := match o with Some _ => true | None => false end.

(** [Object.keys(spec)], in the order of the type's declaration. *)
Definition spec_keys (s : DeploymentSpec) : list string :=
  (["name"; "profile"; "kind"]%string ++
   key_if "autoTopology" (is_some (ds_autoTopology s)) ++ key_if "autoModel" (is_some (ds_autoModel s)) ++
   key_if "coordinatorNodeId" (is_some (ds_coordinatorNodeId s)) ++
   key_if "workerNodeIds" (is_some (ds_workerNodeIds s)) ++
   key_if "workerLayers" (is_some (ds_workerLayers s)) ++
   key_if "replicaNodeId" (is_some (ds_replicaNodeId s)) ++
   key_if "allocations" (is_some (ds_allocations s)) ++ key_if "stages" (is_some (ds_stages s)) ++
   key_if "prefillNodeId" (is_some (ds_prefillNodeId s)) ++
   key_if "decodeNodeId" (is_some (ds_decodeNodeId s)) ++
   key_if "modelSha256" (is_some (ds_modelSha256 s)) ++ key_if "ctx" (is_some (ds_ctx s)) ++
   key_if "parallel" (is_some (ds_parallel s)) ++ key_if "chain" (is_some (ds_chain s)) ++
   key_if "speculation" (is_some (ds_speculation s)) ++ key_if "wire" (is_some (ds_wire s)) ++
   key_if "batchedGets" (is_some (ds_batchedGets s)) ++ key_if "forwarding" (is_some (ds_forwarding s)) ++
   key_if "stopExternal" (is_some (ds_stopExternal s)) ++ key_if "transport" (is_some (ds_transport s)) ++
   key_if "external" (is_some (ds_external s))).

Definition native_allowed (k : DeploymentKind) : list string :=
  ["name"; "profile"; "kind"; "ctx"; "parallel"; "chain"; "transport"]%string ++
  (if bool_decide (k = stages) then ["stages"]%string
   else ["prefillNodeId"; "decodeNodeId"; "modelSha256"]%string).

Definition num_24 : num := num_of_Z 24.

(** The loop over [spec.stages] with its running [end] and its set of node ids. *)
Fixpoint stage_errors (i : nat) (end_ : num) (nodes : list string) (l : list StageSpec)
    : list Refusal * num :=
  match l with
  | [] => ([], end_)
  | s :: l =>
      if negb (bool_decide (ss_extra s = [])) then
        let '(es, e) := stage_errors (S i) end_ nodes l in (R_stage_fields i :: es, e)
      else
        let bad_node := bool_decide (ss_nodeId s = ""%string) || bool_decide (ss_nodeId s ∈ nodes) in
        let nodes' := if bad_node then nodes else ss_nodeId s :: nodes in
        let bad_model := bool_decide (ss_modelPath s = ""%string) || negb (SHA256 (ss_modelSha256 s)) in
        let bad_range := negb (isInteger (ss_start s)) || negb (isInteger (ss_end s)) ||
                         negb (num_eqb (ss_start s) end_) || num_leb (ss_end s) (ss_start s) ||
                         num_ltb num_24 (ss_end s) in
        let '(es, e) := stage_errors (S i) (ss_end s) nodes' l in
        (err_if bad_node (R_stage_node i) ++ err_if bad_model (R_stage_model i) ++
         err_if bad_range (R_stage_range i) ++ es, e)
  end.

(** Truthiness of an optional string. *)
Definition truthy (o : option string) : bool :=
  match o with Some s => negb (bool_decide (s = ""%string)) | None => false end.

Definition nativeRequestErrors (spec : DeploymentSpec) (ctx parallel chain : num) : list Refusal :=
  (R_native_field <$> List.filter (fun k => negb (bool_decide (k ∈ native_allowed (ds_kind spec)))) (spec_keys spec)) ++
  err_if (negb (bool_decide (ds_profile spec = "qwen35-2b-q8"%string))) R_native_profile ++
  err_if (negb (num_eqb ctx (num_of_Z 1024)) || negb (num_eqb parallel (num_of_Z 1)) ||
          negb (num_eqb chain (num_of_Z 0))) R_native_sizes ++
  err_if (match ds_transport spec with Some t => negb (bool_decide (t = "relay"%string)) | None => false end)
    R_native_transport ++
  if bool_decide (ds_kind spec = stages) then
    match ds_stages spec with
    | Some l =>
        if ((length l =? 2) || (length l =? 3))%nat then
          let '(es, e) := stage_errors 0 num_zero [] l in
          es ++ err_if (negb (num_eqb e num_24)) R_stage_cover
        else [R_stages_count]
    | None => [R_stages_count]
    end
  else
    let hasPrefill := truthy (ds_prefillNodeId spec) in
    let hasDecode := truthy (ds_decodeNodeId spec) in
    (if negb (Bool.eqb hasPrefill hasDecode) then [R_phase_both]
     else err_if (hasPrefill && bool_decide (ds_prefillNodeId spec = ds_decodeNodeId spec)) R_phase_distinct) ++
    err_if (match ds_modelSha256 spec with Some s => negb (SHA256 s) | None => false end) R_model_sha.

Definition positive_safe (x : num) : bool :=
  match as_safe_int x with Some z => 1 <=? z | None => false end.

Fixpoint valid_endpoints (q : Qwen35NativeQualification) (end_ : num) (l : list NativeQualEndpoint) : bool :=
  match l with
  | [] => negb (bool_decide (qn_mode q = stages_mode)) || num_eqb end_ num_24
  | e :: l =>
      let a := qe_artifact e in
      if negb (SHA256 (qe_binarySha256 e)) || bool_decide (qa_name a = ""%string) ||
         negb (bool_decide (basename (qa_name a) = qa_name a)) || negb (SHA256 (qa_sha256 a)) ||
         negb (isInteger (qa_start a)) || negb (isInteger (qa_end a)) ||
         num_ltb (qa_start a) num_zero || num_leb (qa_end a) (qa_start a) || num_ltb num_24 (qa_end a)
      then false
      else if bool_decide (qn_mode q = stages_mode) then
        if negb (num_eqb (qa_start a) end_) then false else valid_endpoints q (qa_end a) l
      else if negb (num_eqb (qa_start a) num_zero) || negb (num_eqb (qa_end a) num_24) ||
              negb (bool_decide (qa_sha256 a = qn_sourceSha256 q)) then false
      else valid_endpoints q end_ l
  end.

(** Reject malformed controller records. *)
Definition validNativeQualification (q : Qwen35NativeQualification) : bool :=
  if negb (SHA256 (qn_sourceSha256 q)) || negb (SHA256 (qn_evidenceSha256 q)) ||
     negb (SHA256 (qn_engine q)) || negb (num_eqb (qn_ctx q) (num_of_Z 1024)) ||
     negb (positive_safe (qn_sourceSizeBytes q)) || negb (positive_safe (qn_workspaceMiB q)) ||
     negb (positive_safe (qn_hostMiB q)) then false
  else
    let n := length (qn_endpoints q) in
    if negb (if bool_decide (qn_mode q = stages_mode) then ((n =? 2) || (n =? 3))%nat else (n =? 2)%nat)
    then false
    else valid_endpoints q num_zero (qn_endpoints q).

Example shipped_qualifications_valid : forallb validNativeQualification QWEN35_NATIVE_QUALIFICATIONS = true.
Proof. vm_compute. reflexivity. Qed.

(** Integer value of a field that [validNativeQualification] has checked. *)
Definition safe_Z (x : num) : Z := default 0 (as_safe_int x).
Definition ceil_div (a b : Z) : Z := - ((- a) / b).
(** [Math.ceil(q.sourceSizeBytes / 1048576) + q.workspaceMiB] *)
Definition gpu_need (q : Qwen35NativeQualification) : Z :=
  ceil_div (safe_Z (qn_sourceSizeBytes q)) 1048576 + safe_Z (qn_workspaceMiB q).

Definition stage_engine (n : NodeRow) : option string :=
  match nr_caps n ≫= cap_engine with Some e => en_stages e | None => None end.
Definition worker_binary (n : NodeRow) : option string :=
  match nr_caps n ≫= cap_engine with
  | Some e => en_sha256 e !! "mesh-stage-worker"%string | None => None end.

Definition artifact_file (a : NativeArtifact) (m : ModelFile) : bool :=
  bool_decide (mf_kind m = gguf) && bool_decide (mf_name m = qa_name a) &&
  bool_decide (mf_sha256 m = Some (qa_sha256 a)).

(** A node can run one qualified native role. *)
Definition nativeEndpointFits (n : NodeRow) (q : Qwen35NativeQualification) (e : NativeQualEndpoint) : bool :=
  match nr_offer n with
  | None => false
  | Some o =>
      nr_online n && of_enabled o && ro_replica (of_roles o) &&
      bool_decide (stage_engine n = Some (qn_engine q)) &&
      bool_decide (worker_binary n = Some (qe_binarySha256 e)) &&
      existsb (artifact_file (qe_artifact e)) (nr_models n) &&
      (2 <=? of_cpuCores o) &&
      match caps_gpus n, offeredGpu n with
      | [g], Some offered =>
          bool_decide (gs_id offered = gd_id g) &&
          let gpuNeed := gpu_need q in
          let host := safe_Z (qn_hostMiB q) in
          if bool_decide (nr_os n = darwin)
          then (gpuNeed + host <=? of_ramMiB o) && (gpuNeed <=? gs_memMiB offered)
          else (gpuNeed <=? gs_memMiB offered) && (host <=? of_ramMiB o)
      | _, _ => false
      end
  end.

(** [0.9 * 2 ** 20] *)
Definition NATIVE_STATE_TRANSFER_BYTES_PER_SEC : num :=
  num_mul (num_div (num_of_Z 9) (num_of_Z 10)) (num_of_Z 1048576).

(** [[...new Map(l.map((n) => [n.id, n])).values()]] *)
Fixpoint unique_rows (seen : list string) (l : list NodeRow) : list NodeRow :=
  match l with
  | [] => []
  | n :: l => if bool_decide (nr_id n ∈ seen) then unique_rows seen l
              else n :: unique_rows (nr_id n :: seen) l
  end.

Definition phase_input (c : Ctx) (prefill decode : list NodeRow) : PhasePlanInput :=
  {| pi_candidates := (fun n => {| pc_nodeId := nr_id n;
         pc_prefillTokPerSec := nr_metrics n ≫= mx_prefillTokPerSec;
         pc_decodeTokPerSec := nr_metrics n ≫= mx_tokPerSec |}) <$> unique_rows [] (prefill ++ decode);
     pi_promptTokens := num_of_Z 512; pi_outputTokens := num_of_Z 64;
     pi_stateBytesPerToken := num_of_Z (mp_boundaryBytes (c_profile c));
     pi_transferBytesPerSec := fun _ _ => NATIVE_STATE_TRANSFER_BYTES_PER_SEC;
     pi_prefillNodeIds := Some (nr_id <$> prefill); pi_decodeNodeIds := Some (nr_id <$> decode) |}.

Fixpoint phase_search (c : Ctx) (qs : list Qwen35NativeQualification)
    (best : option PhasePlan) (rejections : list (string * option PhasePlanError))
    : option PhasePlan * list (string * option PhasePlanError) :=
  match qs with
  | [] => (best, rejections)
  | q :: qs =>
      match qn_endpoints q with
      | [e0; e1] =>
          let prefill := List.filter (fun n => nativeEndpointFits n q e0) (c_eligible c) in
          let decode := List.filter (fun n => nativeEndpointFits n q e1) (c_eligible c) in
          if bool_decide (prefill = []) || bool_decide (decode = [])
          then phase_search c qs best (rejections ++ [(qn_evidenceSha256 q, None)])
          else
            match choosePhasePlan localeCompare (phase_input c prefill decode) with
            | Err e => phase_search c qs best (rejections ++ [(qn_evidenceSha256 q, Some e)])
            | Ok choice =>
                let better := match best with
                  | None => true | Some b => num_ltb (pp_estimatedMs choice) (pp_estimatedMs b) end in
                phase_search c qs (if better then Some choice else best) rejections
            end
      | _ => phase_search c qs best rejections
      end
  end.

(** Automatic prefill/decode placement. *)
Definition chooseNativePhaseNodes (c : Ctx) (qualifications : list Qwen35NativeQualification)
    : result Refusal PhasePlan :=
  let usable := List.filter (fun q => validNativeQualification q &&
      bool_decide (qn_mode q = prefill_decode_mode) &&
      num_eqb (qn_ctx q) (num_of_Z (c_ctx c)) && (length (qn_endpoints q) =? 2)%nat) qualifications in
  if bool_decide (usable = []) then Err R_phase_none
  else
    match phase_search c usable None [] with
    | (None, rejections) => Err (R_phase_rejected rejections)
    | (Some best, _) =>
        if pp_local best then
          Err (R_phase_local
            (match find (fun n => bool_decide (nr_id n = pp_prefillNodeId best)) (c_eligible c) with
             | Some n => nr_hostname n | None => pp_prefillNodeId best end))
        else Ok best
    end.

Definition native_mode (k : DeploymentKind) : NativeMode :=
  if bool_decide (k = stages) then stages_mode else prefill_decode_mode.

(** The qualification's endpoint [i] matches node [n] and the request's stage [i]. *)
Definition endpoint_matches (c : Ctx) (q : Qwen35NativeQualification) (e : NativeQualEndpoint)
    (n : NodeRow) (requested : option StageSpec) : bool :=
  let a := qe_artifact e in
  bool_decide (stage_engine n = Some (qn_engine q)) &&
  bool_decide (worker_binary n = Some (qe_binarySha256 e)) &&
  (match requested with
   | Some r => bool_decide (ss_modelSha256 r = qa_sha256 a) && num_eqb (ss_start r) (qa_start a) &&
               num_eqb (ss_end r) (qa_end a) && bool_decide (basename (ss_modelPath r) = qa_name a)
   | None => if truthy (ds_modelSha256 (c_spec c))
             then bool_decide (ds_modelSha256 (c_spec c) = Some (qn_sourceSha256 q)) else true
   end) &&
  existsb (fun m => artifact_file a m &&
    match requested with Some r => bool_decide (mf_path m = ss_modelPath r) | None => true end) (nr_models n).

(** [c.spec.stages?.[i]] *)
Definition stage_at (c : Ctx) (i : nat) : option StageSpec := ds_stages (c_spec c) ≫= (.!! i).

Definition qualification_matches (c : Ctx) (nodes : list NodeRow) (q : Qwen35NativeQualification) : bool :=
  forallb (fun ien => endpoint_matches c q ien.2.1 ien.2.2 (stage_at c ien.1))
    (zip (seq 0 (length nodes)) (zip (qn_endpoints q) nodes)).

Definition num_text (x : num) : string := pretty (default 0 (as_int x)).

Definition native_endpoint (c : Ctx) (q : Qwen35NativeQualification) (i : nat)
    (en : NativeQualEndpoint * NodeRow) : P NativeStageWorkerPlan :=
  let '(entry, n) := en in
  let a := qe_artifact entry in
  let hn := nr_hostname n in
  let ram := offer_ram n in
  let gpuNeed := gpu_need q in
  let hostNeed := safe_Z (qn_hostMiB q) in
  let offered := offeredGpu n in
  let primary := head (caps_gpus n) in
  let gpu_ok := match offered, caps_gpus n with
    | Some o, [g] => bool_decide (gs_id o = gd_id g) | _, _ => false end in
  mwhen (negb gpu_ok) (refuse (R_native_gpu_count hn)) ;;
  mwhen (offer_cores n <? 2) (refuse (R_native_cores hn)) ;;
  let fit := gpuNeed + hostNeed in
  let over_gpu := match offered with Some o => gs_memMiB o <? gpuNeed | None => false end in
  let gpu_mem := match offered with Some o => gs_memMiB o | None => 0 end in
  (if bool_decide (nr_os n = darwin) then
     mwhen (ram <? fit) (refuse (R_native_unified hn fit ram)) ;;
     mwhen over_gpu (refuse (R_native_gpu hn gpuNeed gpu_mem))
   else
     mwhen over_gpu (refuse (R_native_gpu hn gpuNeed gpu_mem)) ;;
     mwhen (ram <? hostNeed) (refuse (R_native_host hn hostNeed ram))) ;;
  let requested := stage_at c i in
  let model := find (fun m => artifact_file a m &&
    match requested with Some r => bool_decide (mf_path m = ss_modelPath r) | None => true end) (nr_models n) in
  reason (A_native i hn gpuNeed hostNeed) ;;
  port ← pickPort (c_usedPorts c !! nr_id n);
  let st := bool_decide (ds_kind (c_spec c) = stages) in
  mret {| sw_endpoint :=
            {| se_nodeId := nr_id n; se_port := port;
               se_identity :=
                 {| si_schema := 1; si_engine := qn_engine q; si_model_sha256 := qa_sha256 a;
                    si_source_sha256 := qn_sourceSha256 q; si_ctx := 1024; si_cache_k := "f32";
                    si_cache_v := "f32"; si_ubatch := 1; si_flash_attn := "disabled";
                    si_stage_start := if st then num_text (qa_start a) else "";
                    si_stage_end := if st then num_text (qa_end a) else "";
                    si_stage_total := if st then "24" else "" |}%string;
               se_binarySha256 := qe_binarySha256 entry |};
          sw_modelPath := match model with Some m => mf_path m | None => ""%string end;
          sw_device := match primary with Some g => gd_engineName g | None => ""%string end;
          sw_fitMiB := if bool_decide (nr_os n = darwin) then Some fit else None;
          sw_enforce_ramMiB := ram; sw_enforce_cpuCores := 2 |}.

Definition throw_with {A} (c : Ctx) (r : Refusal) : P A :=
  mthrow {| pe_message := c_headline c; pe_reasons := [r] |}.

(** The node ids of the native roles: the request's, or the automatic phase choice. *)
Definition native_ids (c : Ctx) (qualifications : list Qwen35NativeQualification) : P (list string) :=
  let spec := c_spec c in
  if bool_decide (ds_kind spec = stages) then mret (ss_nodeId <$> default [] (ds_stages spec))
  else if negb (truthy (ds_prefillNodeId spec)) && negb (truthy (ds_decodeNodeId spec)) then
    match chooseNativePhaseNodes c qualifications with
    | Err e => throw_with c e
    | Ok picked =>
        mfor (pp_reasons picked) (fun r => reason (A_phase r)) ;;
        mret [pp_prefillNodeId picked; pp_decodeNodeId picked]
    end
  else mret [default ""%string (ds_prefillNodeId spec); default ""%string (ds_decodeNodeId spec)].

Definition planNative (c : Ctx) (qualifications : list Qwen35NativeQualification) : P Plan :=
  let spec := c_spec c in
  if negb (bool_decide (mp_id (c_profile c) = "qwen35-2b-q8"%string)) || negb (mp_layers (c_profile c) =? 24)
  then throw_with c R_native_model
  else
    ids ← native_ids c qualifications;
    let role := if bool_decide (ds_kind spec = stages) then worker_role else replica_role in
    found ← mmap_i 0 ids (fun _ id => requireNode c id role false);
    check_errors c ;;
    let nodes := omap id found in
    match find (qualification_matches c nodes)
            (List.filter (fun q => validNativeQualification q &&
               bool_decide (qn_mode q = native_mode (ds_kind spec)) &&
               num_eqb (qn_ctx q) (num_of_Z (c_ctx c)) &&
               (length (qn_endpoints q) =? length nodes)%nat) qualifications) with
    | None => throw_with c R_unqualified
    | Some q =>
        endpoints ← mmap_i 0 (zip (qn_endpoints q) nodes) (native_endpoint c q);
        check_errors c ;;
        reason (A_qualification (qn_evidenceSha256 q)) ;;
        s ← mget;
        match endpoints with
        | [] => throw_with c R_unqualified
        | e0 :: _ =>
            mret {| pl_coordinatorNodeId := se_nodeId (sw_endpoint e0); pl_coordinatorDevice := sw_device e0;
                    pl_workers := []; pl_tensorSplit := []; pl_engineTensorSplit := None;
                    pl_ctx := 1024; pl_parallel := 1; pl_chain := 0; pl_speculation := None;
                    pl_env := []; pl_modelPath := sw_modelPath e0; pl_mtpPath := None;
                    pl_nativeExecution := Some
                      {| np_mode := qn_mode q; np_profile := "qwen35-2b-q8"; np_endpoints := endpoints;
                         np_stateTransferQualification :=
                           match qn_mode q, qn_endpoints q with
                           | prefill_decode_mode, e0 :: e1 :: _ =>
                               Some {| st_sourceBinarySha256 := qe_binarySha256 e0;
                                       st_targetBinarySha256 := qe_binarySha256 e1;
                                       st_evidenceSha256 := qn_evidenceSha256 q |}
                           | _, _ => None
                           end;
                         np_qualificationEvidenceSha256 := qn_evidenceSha256 q |};
                    pl_reasons := p_reasons s; pl_allocations := None |}
        end
    end.

(** ** The entry point *)

Record PlanInput := {
  in_spec : DeploymentSpec; in_profile : ModelProfile; in_nodes : list NodeRow;
  in_usedPorts : gmap string (gset Z); in_nativeQualifications : list Qwen35NativeQualification }.

Definition is_native (k : DeploymentKind) : bool := bool_decide (k = stages) || bool_decide (k = prefill_decode).

Definition req_ctx (spec : DeploymentSpec) : num :=
  default (if is_native (ds_kind spec) then num_of_Z 1024 else num_of_Z DEFAULT_CTX) (ds_ctx spec).
Definition req_parallel (spec : DeploymentSpec) : num := default (num_of_Z DEFAULT_PARALLEL) (ds_parallel spec).
Definition req_chain (spec : DeploymentSpec) : num := default (num_of_Z DEFAULT_CHAIN) (ds_chain spec).

Definition int_at_least (min : Z) (x : num) : bool :=
  match as_int x with Some z => min <=? z | None => false end.

(** Everything the request itself gets wrong, before any node is looked at. *)
Definition request_errors (spec : DeploymentSpec) : list Refusal :=
  let ctx := req_ctx spec in
  let parallel := req_parallel spec in
  let chain := req_chain spec in
  let native := is_native (ds_kind spec) in
  let chained := num_ltb num_zero chain in
  err_if (negb (int_at_least 1 ctx)) R_ctx ++
  err_if (negb (int_at_least 1 parallel)) R_parallel ++
  err_if (negb (int_at_least 0 chain)) R_chain ++
  err_if (bool_decide (ds_kind spec = replica) && chained) R_replica_mtp ++
  (match ds_speculation spec with
   | Some s => err_if (negb (bool_decide (sp_type s = "ngram-simple"%string)) ||
                       negb (bool_decide (sp_extra s = []))) R_speculation ++
               err_if chained R_speculation_chain
   | None => []
   end) ++
  (match ds_wire spec with Some w => err_if (negb (bool_decide (w ∈ WIRE_MODES))) (R_wire w) | None => [] end) ++
  err_if (negb (bool_decide (ds_kind spec = split)) && negb (bool_decide (ds_kind spec = replica)) && negb native)
    (R_kind (ds_kind spec)) ++
  (if native then nativeRequestErrors spec ctx parallel chain
   else err_if (is_some (ds_stages spec) || is_some (ds_prefillNodeId spec) ||
                is_some (ds_decodeNodeId spec) || is_some (ds_modelSha256 spec)) R_native_fields) ++
  (match ds_workerNodeIds spec with
   | Some ids => err_if (existsb (fun id => bool_decide (id = ""%string)) ids) R_workerNodeIds | None => [] end) ++
  (match ds_workerLayers spec with
   | Some ls =>
       err_if chained R_exact_mtp ++
       err_if (negb (bool_decide (ds_kind spec = split))) R_layers_kind ++
       err_if (bool_decide (ls = []) ||
               existsb (fun n => negb (positive_safe n)) ls) R_layers_shape ++
       err_if (match ds_workerNodeIds spec with
               | Some ids => negb (length ids =? length ls)%nat | None => true end) R_layers_length
   | None => []
   end).

Definition eligible_of (nodes : list NodeRow) : list NodeRow :=
  List.filter (fun n => nr_online n && match nr_offer n with Some o => of_enabled o | None => false end)
    (js_sort byHost nodes).

Definition make_ctx (input : PlanInput) : Ctx :=
  let spec := in_spec input in
  let int x := default 0 (as_int x) in
  {| c_spec := spec; c_profile := in_profile input;
     c_ctx := int (req_ctx spec); c_parallel := int (req_parallel spec); c_chain := int (req_chain spec);
     c_all := in_nodes input; c_eligible := eligible_of (in_nodes input);
     c_usedPorts := in_usedPorts input;
     c_headline := Cannot_plan (ds_name spec) (mp_id (in_profile input)) (ds_kind spec) |}.

Definition plan_body (input : PlanInput) (c : Ctx) : P Plan :=
  reason (A_request (c_ctx c) (c_parallel c) (c_chain c)) ;;
  reason (A_eligible (length (c_eligible c)) (length (in_nodes input)) (nr_hostname <$> c_eligible c)) ;;
  if is_native (ds_kind (c_spec c)) then planNative c (in_nativeQualifications input)
  else if bool_decide (ds_kind (c_spec c) = replica) then planReplica c
  else planSplit c.

(** Deterministic placement. *)
Definition planDeployment (input : PlanInput) : result PlanError Plan :=
  let c := make_ctx input in
  match request_errors (in_spec input) with
  | [] => (plan_body input c {| p_reasons := []; p_errors := [] |}).1
  | errors => Err {| pe_message := c_headline c; pe_reasons := errors |}
  end.
End planner.

(** The engine's device list: RPC0..RPC<n-1>, then the coordinator's own device. *)
Definition planDevices (plan : Plan) : list string :=
  imap (fun i _ => "RPC" +:+ pretty (N.of_nat i)) (pl_workers plan) ++ [pl_coordinatorDevice plan].
