(* ===== verification/PlannerFacts.v ===== *)
(** * Properties of the placement planner

    A small program logic over the planner's error list ([mono], [clean]), the behaviour of its
    helper loops, and what a returned split, replica or native plan guarantees. *)

From S2P Require Import Prelude JsNum Json Types Validate PhasePlan Planner.

(** ** A logic of runs that add no refusal

    [mono m]: a run never removes a refusal.  [clean m Q]: a run after which the error list is
    empty returns a result in [Q]; a run that refuses or throws satisfies every [Q], which is
    what the planner's "collect every problem, then throw" style needs. *)

Definition mono {A} (m : P A) : Prop :=
  forall s a s', m s = (Ok a, s') -> p_errors s' = [] -> p_errors s = [].

Definition clean {A} (m : P A) (Q : A -> Prop) : Prop :=
  forall s a s', m s = (Ok a, s') -> p_errors s' = [] -> Q a.

(** [quiet m]: a returning run leaves the error list alone. *)
Definition quiet {A} (m : P A) : Prop :=
  forall s a s', m s = (Ok a, s') -> p_errors s' = p_errors s.

Create HintDb plan discriminated.

Section mono_rules.
Context {A B : Type}.

Lemma mono_ret (a : A) : mono (mret a).
Proof. by intros s b s' [-> <-]%mret_ok. Qed.
Lemma mono_throw e : mono (mthrow e : P A).
Proof. intros s a s' [=]. Qed.
Lemma mono_throw_errors c : mono (throw_errors c : P A).
Proof. intros s a s' [=]. Qed.
Lemma mono_bind (m : P A) (f : A -> P B) : mono m -> (forall a, mono (f a)) -> mono (m ≫= f).
Proof. intros Hm Hf s b s' (a & s1 & H1 & H2)%M_bind_ok He. by eapply Hm, Hf. Qed.
Lemma mono_reason r : mono (reason r).
Proof. by intros s a s' [= <- <-]. Qed.
Lemma mono_refuse r : mono (refuse r).
Proof. intros s a s' [= <- <-]; simpl. by destruct (p_errors s). Qed.
Lemma mono_check c : mono (check_errors c).
Proof. intros s a s'. unfold check_errors. case_bool_decide; naive_solver. Qed.
Lemma mono_get : mono mget.
Proof. by intros s a s' [= <- <-]. Qed.
Lemma mono_when b m : mono m -> mono (mwhen b m).
Proof. destruct b; [done|]. intros _. by intros s a s' [_ <-]%mret_ok. Qed.
Lemma mono_pickPort used : mono (pickPort used).
Proof. unfold pickPort. case_match; [by intros s b s' [-> <-]%mret_ok|by intros s a s' [=]]. Qed.
Lemma mono_for (l : list A) (f : A -> P unit) : (forall x, mono (f x)) -> mono (mfor l f).
Proof.
  intros Hf. induction l as [|x l IH]; simpl; [by intros s a s' [_ <-]%mret_ok|].
  intros s b s' (a & s1 & H1 & H2)%M_bind_ok He. by eapply Hf, IH.
Qed.
Lemma mono_map (l : list A) (f : nat -> A -> P B) i :
  (forall j x, mono (f j x)) -> mono (mmap_i i l f).
Proof.
  intros Hf. revert i. induction l as [|x l IH]; intros i; simpl;
    [by intros s a s' [_ <-]%mret_ok|].
  intros s b s' (a & s1 & H1 & H2)%M_bind_ok He.
  apply M_bind_ok in H2 as (ys & s2 & H2 & H3). apply mret_ok in H3 as [<- <-].
  by eapply Hf, IH.
Qed.
End mono_rules.

#[export] Hint Resolve mono_ret mono_throw mono_throw_errors mono_reason mono_refuse mono_check
  mono_get mono_pickPort mono_when mono_for mono_map : plan.

(** Walk through binds and case analyses; base cases are in the hint database. *)
Ltac mono_solve :=
  repeat (first
    [ progress intros
    | apply mono_bind
    | solve [auto with plan]
    | apply mono_when | apply mono_for | apply mono_map
    | case_match ]).

Section clean_rules.
Context {A B : Type}.

Lemma clean_ret (a : A) (Q : A -> Prop) : Q a -> clean (mret a) Q.
Proof. by intros HQ s b s' [-> <-]%mret_ok. Qed.
Lemma clean_throw e (Q : A -> Prop) : clean (mthrow e) Q.
Proof. intros s a s' [=]. Qed.
Lemma clean_throw_errors c (Q : A -> Prop) : clean (throw_errors c) Q.
Proof. intros s a s' [=]. Qed.
Lemma clean_refuse r (Q : unit -> Prop) : clean (refuse r) Q.
Proof. intros s a s' [= <- <-]; simpl. by destruct (p_errors s). Qed.
Lemma clean_bind (I : A -> Prop) (m : P A) (f : A -> P B) (Q : B -> Prop) :
  clean m I -> (forall a, mono (f a)) -> (forall a, I a -> clean (f a) Q) -> clean (m ≫= f) Q.
Proof.
  intros Hm Hmo Hf s b s' (a & s1 & H1 & H2)%M_bind_ok He.
  eapply Hf; [|exact H2|exact He]. eapply Hm; [exact H1|]. by eapply Hmo.
Qed.
Lemma clean_seq (m : P A) (f : A -> P B) (Q : B -> Prop) :
  (forall a, clean (f a) Q) -> clean (m ≫= f) Q.
Proof. intros Hf s b s' (a & s1 & H1 & H2)%M_bind_ok He. by eapply Hf. Qed.
Lemma clean_weaken (m : P A) (Q Q' : A -> Prop) :
  clean m Q -> (forall a, Q a -> Q' a) -> clean m Q'.
Proof. intros Hm HQ s a s' H He. apply HQ. by eapply Hm. Qed.
Lemma clean_any (m : P A) : clean m (fun _ => True).
Proof. done. Qed.
End clean_rules.

(** A refused prefix makes any continuation vacuous. *)
Lemma clean_refuse_then {A} r (m : P A) (Q : A -> Prop) : mono m -> clean (refuse r ;; m) Q.
Proof.
  intros Hm. eapply clean_bind; [apply (clean_refuse r (fun _ => False))| |]; [auto|done].
Qed.

Lemma clean_when b m (Q : unit -> Prop) : (b = true -> clean m Q) -> (b = false -> Q tt) -> clean (mwhen b m) Q.
Proof. destruct b; simpl; intros H1 H2; [auto|]. apply clean_ret. auto. Qed.

Lemma clean_map {A B} (R : nat -> A -> B -> Prop) (l : list A) (f : nat -> A -> P B) i :
  (forall j x, mono (f j x)) -> (forall j x, l !! j = Some x -> clean (f (i + j)%nat x) (R (i + j)%nat x)) ->
  clean (mmap_i i l f) (fun ys => length ys = length l ∧
    forall j x y, l !! j = Some x -> ys !! j = Some y -> R (i + j)%nat x y).
Proof.
  intros Hmo. revert i. induction l as [|x l IH]; intros i Hf; simpl.
  - apply clean_ret. done.
  - eapply clean_bind; [specialize (Hf 0%nat x eq_refl); rewrite Nat.add_0_r in Hf; exact Hf|mono_solve|].
    intros y Hy. eapply clean_bind; [apply (IH (S i))|mono_solve|].
    + intros j z Hj. specialize (Hf (S j) z Hj). by rewrite Nat.add_succ_r in Hf.
    + intros ys [Hlen Hys]. apply clean_ret. simpl. split; [by rewrite Hlen|].
      intros [|j] a b Ha Hb; simplify_eq/=; [by rewrite Nat.add_0_r|].
      rewrite Nat.add_succ_r. by apply Hys.
Qed.

(** ** The port loop *)

Lemma pickPort_from_Some fuel used p q :
  pickPort_from fuel used p = Some q ->
  (q ∉ used) ∧ (q + 1 ∉ used) ∧ q + 1 < 65536 ∧ (exists k, 0 <= k ∧ q = p + k * WORKER_PORT_STEP ∧
    forall j, 0 <= j < k -> p + j * WORKER_PORT_STEP ∈ used ∨ p + j * WORKER_PORT_STEP + 1 ∈ used).
Proof.
  revert p. induction fuel as [|fuel IH]; intros p; simpl; [done|].
  destruct (p + 1 <? 65536) eqn:E; [|done]. bool_to_prop.
  destruct (bool_decide (p ∉ used) && bool_decide (p + 1 ∉ used)) eqn:E2.
  - intros [= <-]. bool_to_prop. split_and!; [done..|]. exists 0. split_and!; lia.
  - intros H. destruct (IH _ H) as (? & ? & ? & k & Hk & -> & Hj). split_and!; [done..|].
    exists (k + 1). split_and!; [lia|lia|]. intros j Hj'.
    destruct (decide (j = 0)) as [->|].
    + rewrite Z.mul_0_l, Z.add_0_r. apply andb_false_iff in E2 as [?|?]; bool_to_prop.
      * left. by apply dec_stable.
      * right. by apply dec_stable.
    + replace (p + j * WORKER_PORT_STEP) with (p + WORKER_PORT_STEP + (j - 1) * WORKER_PORT_STEP) by lia.
      apply Hj. lia.
Qed.

Lemma pickPort_from_None fuel used p :
  pickPort_from fuel used p = None ->
  forall k, 0 <= k < Z.of_nat fuel -> p + k * WORKER_PORT_STEP + 1 < 65536 ->
    p + k * WORKER_PORT_STEP ∈ used ∨ p + k * WORKER_PORT_STEP + 1 ∈ used.
Proof.
  revert p. induction fuel as [|fuel IH]; intros p; simpl; [lia|].
  destruct (p + 1 <? 65536) eqn:E; bool_to_prop.
  2: { unfold WORKER_PORT_STEP. intros _ k Hk Hlt. lia. }
  destruct (bool_decide (p ∉ used) && bool_decide (p + 1 ∉ used)) eqn:E2; [done|].
  intros H k Hk Hlt. destruct (decide (k = 0)) as [->|].
  - rewrite Z.mul_0_l, Z.add_0_r. apply andb_false_iff in E2 as [?|?]; bool_to_prop.
    + left. by apply dec_stable.
    + right. by apply dec_stable.
  - replace (p + k * WORKER_PORT_STEP) with (p + WORKER_PORT_STEP + (k - 1) * WORKER_PORT_STEP) by lia.
    apply IH; [done|lia|]. unfold WORKER_PORT_STEP in *. lia.
Qed.

(** What a worker port promises: a free rpc/peer pair on the port grid. *)
Definition free_port (used : option (gset Z)) (p : Z) : Prop :=
  (p ∉ default ∅ used) ∧ (p + 1 ∉ default ∅ used) ∧ WORKER_PORT_BASE <= p ∧ p + 1 < 65536.

Lemma pickPort_spec used s :
  match pickPort used s with
  | (Ok p, s') => s' = s ∧ free_port used p ∧
      forall q, WORKER_PORT_BASE <= q < p -> (q - WORKER_PORT_BASE) mod WORKER_PORT_STEP = 0 ->
        q ∈ default ∅ used ∨ q + 1 ∈ default ∅ used
  | (Err e, s') => s' = s ∧ pe_message e = No_free_worker_port ∧
      forall q, WORKER_PORT_BASE <= q -> q + 1 < 65536 ->
        (q - WORKER_PORT_BASE) mod WORKER_PORT_STEP = 0 ->
        q ∈ default ∅ used ∨ q + 1 ∈ default ∅ used
  end.
Proof.
  unfold pickPort.
  assert (forall q, (q - WORKER_PORT_BASE) mod WORKER_PORT_STEP = 0 ->
    q = WORKER_PORT_BASE + ((q - WORKER_PORT_BASE) / WORKER_PORT_STEP) * WORKER_PORT_STEP) as Hgrid.
  { intros q Hq. pose proof (Z.div_mod (q - WORKER_PORT_BASE) WORKER_PORT_STEP). unfold WORKER_PORT_STEP in *. lia. }
  destruct pickPort_from as [p|] eqn:E; simpl.
  - destruct (pickPort_from_Some _ _ _ _ E) as (H1 & H2 & H3 & k & Hk & -> & Hj).
    split; [done|]. split.
    { unfold free_port, WORKER_PORT_STEP in *. split_and!; [done..|lia|lia]. }
    intros q Hq Hm. specialize (Hgrid q Hm). rewrite Hgrid. apply Hj.
    unfold WORKER_PORT_STEP in *. lia.
  - split; [done|]. split; [done|]. intros q Hq Hlt Hm. specialize (Hgrid q Hm).
    rewrite Hgrid. apply (pickPort_from_None _ _ _ E); [|by rewrite <-Hgrid].
    unfold pickPort_fuel, WORKER_PORT_STEP, WORKER_PORT_BASE in *. lia.
Qed.

Lemma clean_pickPort used : clean (pickPort used) (free_port used).
Proof.
  intros s p s' H _. pose proof (pickPort_spec used s) as Hs. rewrite H in Hs. tauto.
Qed.

(** ** Shaving the largest worker *)

Lemma argmax_from_spec l j i v :
  (argmax_from l j i v = i ∧ (forall x, x ∈ l -> x <= v)) ∨
  (exists k x, argmax_from l j i v = (j + k)%nat ∧ l !! k = Some x ∧ v < x ∧ forall y, y ∈ l -> y <= x).
Proof.
  revert j i v. induction l as [|x l IH]; intros j i v; simpl.
  { left. split; [done|]. intros x Hx. by apply elem_of_nil in Hx. }
  destruct (v <? x) eqn:E; bool_to_prop.
  - right. destruct (IH (S j) j x) as [[-> Hle]|(k & y & -> & Hk & Hlt & Hle)].
    + exists 0%nat, x. split_and!; [lia|done|done|]. intros y [->|Hy]%elem_of_cons; [done|auto].
    + exists (S k), y. split_and!; [lia|done|lia|]. intros z [->|Hz]%elem_of_cons; [lia|auto].
  - destruct (IH (S j) i v) as [[-> Hle]|(k & y & -> & Hk & Hlt & Hle)].
    + left. split; [done|]. intros y [->|Hy]%elem_of_cons; [done|auto].
    + right. exists (S k), y. split_and!; [lia|done|done|]. intros z [->|Hz]%elem_of_cons; [lia|auto].
Qed.

(** The chosen entry exists and is maximal. *)
Lemma argmax_spec l : l <> [] -> exists x, l !! argmax l = Some x ∧ forall y, y ∈ l -> y <= x.
Proof.
  destruct l as [|x l]; [done|]. intros _. unfold argmax.
  destruct (argmax_from_spec l 1 0 x) as [[-> Hle]|(k & y & -> & Hk & Hlt & Hle)].
  - exists x. split; [done|]. intros y [->|Hy]%elem_of_cons; [done|auto].
  - exists y. split; [done|]. intros z [->|Hz]%elem_of_cons; [lia|auto].
Qed.

Lemma decr_sum l : l <> [] -> sumZ (decr (argmax l) l) = sumZ l - 1.
Proof.
  intros Hl. destruct (argmax_spec l Hl) as (x & Hx & _). unfold decr. rewrite Hx.
  rewrite (sumZ_insert _ _ _ _ Hx). lia.
Qed.

Lemma decr_le l i : Forall2 Z.le (decr i l) l.
Proof.
  unfold decr. destruct (l !! i) as [x|] eqn:E.
  - apply Forall2_same_length_lookup_2; [by rewrite length_insert|].
    intros k a b Ha Hb. destruct (decide (k = i)) as [->|].
    + rewrite list_lookup_insert_eq in Ha by (by eapply lookup_lt_Some). simplify_eq. lia.
    + rewrite list_lookup_insert_ne in Ha by done. simplify_eq. lia.
  - apply Forall_Forall2_diag, Forall_forall. lia.
Qed.

Lemma sum_pos_max l x : (forall y, y ∈ l -> y <= x) -> 0 < sumZ l -> 0 < x.
Proof.
  intros Hle Hs. destruct (decide (0 < x)); [done|]. exfalso.
  assert (sumZ l <= 0); [|lia]. clear Hs. induction l as [|y l IH]; [done|].
  rewrite sumZ_cons. assert (y <= x) by (apply Hle; left).
  assert (sumZ l <= 0) by (apply IH; intros z Hz; apply Hle; by right). lia.
Qed.

Lemma decr_nonneg l : Forall (Z.le 0) l -> 0 < sumZ l -> Forall (Z.le 0) (decr (argmax l) l).
Proof.
  intros Hl Hs. assert (l <> []) as Hne by (by intros ->).
  destruct (argmax_spec l Hne) as (x & Hx & Hmax). unfold decr. rewrite Hx.
  apply Forall_insert; [done|]. pose proof (sum_pos_max l x Hmax Hs). lia.
Qed.

Lemma shave_loop_spec fuel cap l :
  0 <= cap -> Forall (Z.le 0) l -> (Z.to_nat (sumZ l - cap) <= fuel)%nat ->
  let r := shave_loop fuel cap l in
  sumZ r <= cap ∧ Forall (Z.le 0) r ∧ Forall2 Z.le r l ∧ (sumZ l <= cap -> r = l) ∧
  (cap <= sumZ l -> sumZ r = cap).
Proof.
  intros Hcap. revert l. induction fuel as [|fuel IH]; intros l Hl Hf; simpl.
  - split_and!; [lia|done|apply Forall_Forall2_diag, Forall_forall; lia|done|lia].
  - destruct (cap <? sumZ l) eqn:E; bool_to_prop.
    + assert (l <> []) as Hne by (intros ->; rewrite sumZ_nil in E; lia).
      pose proof (decr_sum l Hne) as Hd.
      destruct (IH (decr (argmax l) l)) as (H1 & H2 & H3 & H4 & H5);
        [apply decr_nonneg; [done|lia]|lia|].
      split_and!; [done|done| |lia|lia].
      by etrans; [exact H3|apply decr_le].
    + split_and!; [lia|done|apply Forall_Forall2_diag, Forall_forall; lia|done|lia].
Qed.

Lemma shave_spec cap l :
  0 <= cap -> Forall (Z.le 0) l ->
  sumZ (shave cap l) <= cap ∧ Forall (Z.le 0) (shave cap l) ∧ Forall2 Z.le (shave cap l) l ∧
  (sumZ l <= cap -> shave cap l = l) ∧ (cap <= sumZ l -> sumZ (shave cap l) = cap).
Proof. intros. by apply shave_loop_spec. Qed.

#[export] Hint Resolve clean_pickPort decr_le : plan.

(** ** Nodes, slots and residency *)

Section facts.
Context (re_test : string -> string -> bool).
Context (localeCompare : string -> string -> comparison).

Definition enabled (n : NodeRow) : bool := match nr_offer n with Some o => of_enabled o | None => false end.

(** A node the planner may use in a role: enrolled, online, enabled and offering the role. *)
Definition usable (c : Ctx) (n : NodeRow) (r : Role) : Prop :=
  n ∈ c_all c ∧ nr_online n = true ∧ enabled n = true ∧ offers n r = true.

(** The context [planDeployment] builds over a registry with unique ids and a valid profile. *)
Record ctx_ok (c : Ctx) : Prop := {
  ok_eligible : c_eligible c = eligible_of (c_all c);
  ok_ids : NoDup (nr_id <$> c_all c);
  ok_layers : 1 <= mp_layers (c_profile c);
  ok_layerMiB : 1 <= mp_layerMiB (c_profile c);
  ok_rows : Forall (fun r => 1 <= er_workerLayers r) (mp_envelope (c_profile c)) }.

Lemma elem_of_filter {A} (f : A -> bool) l x : x ∈ List.filter f l <-> x ∈ l ∧ f x = true.
Proof. rewrite !list_elem_of_In. apply filter_In. Qed.

Lemma eligible_usable c n : ctx_ok c -> n ∈ c_eligible c ->
  n ∈ c_all c ∧ nr_online n = true ∧ enabled n = true.
Proof.
  intros Hc. rewrite (ok_eligible c Hc). unfold eligible_of.
  rewrite elem_of_filter, js_sort_elem. intros [? ?]. by bool_to_prop.
Qed.

Lemma clean_requireNode c i r needModel :
  clean (requireNode re_test c i r needModel)
    (fun o => exists n, o = Some n ∧ nr_id n = i ∧ usable c n r ∧
       (needModel = true -> has_model re_test c n = true)).
Proof.
  unfold requireNode. destruct find as [n|] eqn:E; [|apply clean_refuse_then; mono_solve].
  destruct (node_problems re_test c n r needModel) as [|pr prs] eqn:Ep; [|apply clean_refuse_then; mono_solve].
  apply clean_seq. intros _. apply clean_ret. exists n. apply find_Some in E as [Hin Hid].
  bool_to_prop. split; [done|]. split; [done|].
  unfold node_problems, usable, enabled, offers in *.
  apply app_eq_nil in Ep as [E1 Ep]. apply app_eq_nil in Ep as [E2 E3].
  destruct (nr_online n); [|done]. destruct (nr_offer n) as [o|]; [|done].
  apply app_eq_nil in E2 as [E2 E2']. destruct (of_enabled o); [|done].
  destruct (role_offered o r); [|done]. split; [done|]. intros ->.
  by destruct (has_model re_test c n).
Qed.

Lemma mono_requireNode c i r needModel : mono (requireNode re_test c i r needModel).
Proof. unfold requireNode. mono_solve. Qed.
Hint Resolve mono_requireNode : plan.

Lemma mono_draftHead c n : mono (draftHead re_test c n).
Proof. unfold draftHead. mono_solve. Qed.
Hint Resolve mono_draftHead : plan.

(** How much a resident part of [layers] layers must find on its node. *)
Definition resident_fits (c : Ctx) (n : NodeRow) (layers : Z) : Prop :=
  let layersMiB := layers * mp_layerMiB (c_profile c) in
  let host := mp_coordinatorHostMiB (c_profile c) in
  match nr_os n, offeredGpu n with
  | darwin, _ => layersMiB + host <= offer_ram n
  | _, Some gpu => layersMiB <= gs_memMiB gpu ∧ host <= offer_ram n
  | _, None => usableGpus (caps_gpus n) = [] ∧ layersMiB + host <= offer_ram n
  end.

(** The CPU backend is chosen only on a node without a usable GPU (off darwin, where the first
    reported device is the unified-memory one). *)
Definition device_ok (n : NodeRow) (device : string) : Prop :=
  match nr_os n, offeredGpu n with
  | darwin, _ => device = match caps_gpus n with g :: _ => gd_engineName g | [] => "CPU"%string end
  | _, Some gpu => device = gs_engineName gpu
  | _, None => device = "CPU"%string ∧ usableGpus (caps_gpus n) = []
  end.

Lemma mono_placeResident c n layers role : mono (placeResident c n layers role).
Proof. unfold placeResident. mono_solve. Qed.
Hint Resolve mono_placeResident : plan.

Lemma clean_le a b r r' : clean (if a <=? b then reason r else refuse r') (fun _ => a <= b).
Proof.
  destruct (a <=? b) eqn:E; bool_to_prop; [|apply clean_refuse]. by intros s [] s' _ _.
Qed.

Lemma clean_placeResident c n layers role :
  clean (placeResident c n layers role) (fun d => resident_fits c n layers ∧ device_ok n d).
Proof.
  unfold placeResident, resident_fits, device_ok. case_bool_decide as Hos.
  - rewrite Hos. eapply clean_bind; [apply clean_le|mono_solve|].
    intros [] H. by apply clean_ret.
  - destruct (offeredGpu n) as [gpu|].
    + eapply clean_bind; [apply clean_le|mono_solve|].
      intros [] H1.
      eapply clean_bind; [apply clean_le|mono_solve|].
      intros [] H2. apply clean_ret. destruct (nr_os n); [done|..]; split; done.
    + destruct (usableGpus (caps_gpus n)) as [|g gs]; [|apply clean_refuse_then; mono_solve].
      eapply clean_bind; [apply clean_le|mono_solve|].
      intros [] H. apply clean_ret. by destruct (nr_os n).
Qed.

(** ** Worker slots *)

Definition slot_ok (c : Ctx) (s : WorkerSlot) : Prop :=
  usable c (ws_node s) worker_role ∧ offeredGpu (ws_node s) = Some (ws_gpu s).

Definition slot_id (s : WorkerSlot) : string := nr_id (ws_node s).

Definition slots_ok (c : Ctx) (coord : option NodeRow) (slots : list WorkerSlot) : Prop :=
  Forall (slot_ok c) slots ∧ NoDup (slot_id <$> slots) ∧
  forall co, coord = Some co -> nr_id co ∉ slot_id <$> slots.

Lemma mono_requested_slot c coord i : mono (requested_slot re_test c coord i).
Proof. unfold requested_slot. mono_solve. Qed.
Hint Resolve mono_requested_slot : plan.

Lemma mono_requested_slots c coord seen ids : mono (requested_slots re_test c coord seen ids).
Proof. revert seen. induction ids; intros seen; simpl; mono_solve. Qed.
Hint Resolve mono_requested_slots : plan.

Lemma clean_requested_slot c coord i :
  clean (requested_slot re_test c coord i)
    (fun l => exists s, l = [s] ∧ slot_ok c s ∧ slot_id s = i ∧
       forall co, coord = Some co -> nr_id co <> i).
Proof.
  unfold requested_slot.
  destruct (List.filter _ (option_list coord)) as [|co cos] eqn:Ec; [|apply clean_refuse_then; mono_solve].
  eapply clean_bind; [apply clean_requireNode|mono_solve|].
  intros o (n & -> & Hid & Hu & _).
  destruct (offeredGpu n) as [gpu|] eqn:Eg; [|apply clean_refuse_then; mono_solve].
  apply clean_seq. intros _. apply clean_ret. eexists. split; [done|]. split; [done|].
  split; [done|]. intros co -> Hco. simpl in Ec. rewrite bool_decide_eq_true_2 in Ec by done. done.
Qed.

Lemma clean_requested_slots c coord ids seen :
  clean (requested_slots re_test c coord seen ids)
    (fun slots => slot_id <$> slots = ids ∧ Forall (slot_ok c) slots ∧ NoDup ids ∧
       Forall (fun i => i ∉ seen) ids ∧ forall co, coord = Some co -> nr_id co ∉ ids).
Proof.
  revert seen. induction ids as [|i ids IH]; intros seen; simpl.
  { apply clean_ret. split_and!; [done|constructor|constructor|constructor|]. intros. apply not_elem_of_nil. }
  case_bool_decide as Hseen; [apply clean_refuse_then; mono_solve|].
  eapply clean_bind; [apply clean_requested_slot|mono_solve|].
  intros l (s & -> & Hs & Hid & Hco).
  eapply clean_bind; [apply IH|mono_solve|].
  intros rest (Hids & Hok & Hnd & Hns & Hcos). apply clean_ret.
  rewrite Forall_forall in Hns. split_and!.
  - rewrite fmap_app, Hids. simpl. by rewrite Hid.
  - by constructor.
  - constructor; [|done]. intros Hi. destruct (Hns i Hi). left.
  - constructor; [done|]. rewrite Forall_forall. intros j Hj Hjs. destruct (Hns j Hj). by right.
  - intros co Eco [Hc|Hc]%elem_of_cons; [by apply (Hco co)|by apply (Hcos co)].
Qed.

Lemma filter_split_perm {A} (f : A -> bool) l :
  List.filter f l ++ List.filter (fun x => negb (f x)) l ≡ₚ l.
Proof.
  induction l as [|x l IH]; simpl; [done|]. destruct (f x); simpl.
  - by rewrite IH.
  - rewrite <-Permutation_middle. by rewrite IH.
Qed.

Lemma NoDup_eligible c : ctx_ok c -> NoDup (nr_id <$> c_eligible c).
Proof.
  intros Hc. rewrite (ok_eligible c Hc). apply NoDup_fmap_filter.
  rewrite js_sort_perm. apply (ok_ids c Hc).
Qed.

Lemma clean_pick_coordinator c : ctx_ok c ->
  clean (pick_coordinator re_test c)
    (fun o => exists co, o = Some co ∧ usable c co coordinator_role ∧ has_model re_test c co = true).
Proof.
  intros Hc. unfold pick_coordinator. destruct (ds_coordinatorNodeId (c_spec c)) as [i|].
  - eapply clean_weaken; [apply clean_requireNode|]. intros o (n & -> & _ & Hu & Hm). eauto 6.
  - destruct (coordinator_candidates re_test c) as [|co cos] eqn:E; [apply clean_refuse_then; mono_solve|].
    apply clean_seq. intros _. apply clean_ret. exists co. split; [done|].
    assert (co ∈ coordinator_candidates re_test c) as Hin by (rewrite E; left).
    unfold coordinator_candidates in Hin. rewrite js_sort_elem, elem_of_filter in Hin.
    destruct Hin as [Hin Hb]. bool_to_prop. destruct (eligible_usable c co Hc Hin) as (?&?&?).
    done.
Qed.

Lemma mono_pick_coordinator c : mono (pick_coordinator re_test c).
Proof. unfold pick_coordinator. mono_solve. Qed.
Lemma mono_pick_workers c coord : mono (pick_workers re_test c coord).
Proof. unfold pick_workers. mono_solve. Qed.
Hint Resolve mono_pick_coordinator mono_pick_workers : plan.

Lemma slot_of_ids l :
  Forall (fun n => is_Some (offeredGpu n)) l -> slot_id <$> (l ≫= slot_of) = nr_id <$> l.
Proof.
  induction 1 as [|n l [g Hg] _ IH]; [done|].
  rewrite bind_cons, fmap_app, IH. unfold slot_of. by rewrite Hg.
Qed.

Lemma auto_slots_ok c coord l :
  ctx_ok c -> l ≡ₚ eligible_workers c coord -> slots_ok c coord (l ≫= slot_of).
Proof.
  intros Hc Hl.
  assert (forall n, n ∈ l -> n ∈ c_eligible c ∧ offers n worker_role = true ∧
    is_Some (offeredGpu n) ∧ forall co, coord = Some co -> nr_id n <> nr_id co) as Hn.
  { intros n. rewrite Hl. unfold eligible_workers. rewrite elem_of_filter. intros [Hin Hb].
    bool_to_prop. split_and!; [done|done|by destruct (offeredGpu n)|].
    intros co ->. by bool_to_prop. }
  assert (slot_id <$> (l ≫= slot_of) = nr_id <$> l) as Hids.
  { apply slot_of_ids, Forall_forall. intros n Hin. by apply Hn. }
  unfold slots_ok. rewrite Hids. split_and!.
  - apply Forall_forall. intros s (n & Hs & Hin)%list_elem_of_bind.
    unfold slot_of in Hs. destruct (offeredGpu n) as [g|] eqn:Eg; [|by apply elem_of_nil in Hs].
    apply list_elem_of_singleton in Hs as ->. destruct (Hn n Hin) as (He & Hr & _).
    destruct (eligible_usable c n Hc He) as (?&?&?). done.
  - rewrite Hl. by apply NoDup_fmap_filter, NoDup_eligible.
  - intros co -> (n & Hid & Hin)%list_elem_of_fmap. destruct (Hn n Hin) as (_ & _ & _ & Hne). by apply (Hne co).
Qed.

Lemma clean_pick_workers c coord : ctx_ok c ->
  clean (pick_workers re_test c coord)
    (fun slots => slots_ok c coord slots ∧
       forall ids, ds_workerNodeIds (c_spec c) = Some ids -> slot_id <$> slots = ids).
Proof.
  intros Hc. unfold pick_workers. destruct (ds_workerNodeIds (c_spec c)) as [ids|].
  - eapply clean_bind; [apply clean_requested_slots|mono_solve|].
    intros slots (Hids & Hok & Hnd & _ & Hco). apply clean_seq. intros _. apply clean_ret.
    unfold slots_ok. rewrite Hids. split; [done|]. by intros ? [= ->].
  - do 2 (apply clean_seq; intros _). apply clean_ret. split; [|done]. apply auto_slots_ok; [done|].
    rewrite !js_sort_perm. apply filter_split_perm.
Qed.

(** ** Layer counts *)

(** [l] layers fit slot [s]: its GPU offer, and on darwin the RAM its watchdog enforces. *)
Definition layers_fit (c : Ctx) (s : WorkerSlot) (l : Z) : Prop :=
  let need := l * mp_layerMiB (c_profile c) + mp_workerMarginMiB (c_profile c) in
  0 <= l ∧ need <= gs_memMiB (ws_gpu s) ∧ (nr_os (ws_node s) = darwin -> need <= offer_ram (ws_node s)).

Lemma ramShortfall_None n need :
  ramShortfall n need = None -> is_Some (nr_offer n) -> nr_os n = darwin -> need <= offer_ram n.
Proof.
  unfold ramShortfall, offer_ram. intros H [o Ho] Hos. rewrite Ho in *. rewrite bool_decide_eq_true_2 in H by done.
  destruct (need <=? of_ramMiB o) eqn:E; bool_to_prop; [done|]. simpl in H. done.
Qed.

Lemma usable_offer c n r : usable c n r -> is_Some (nr_offer n).
Proof. intros (_ & _ & He & _). unfold enabled in He. destruct (nr_offer n); [eauto|done]. Qed.

Lemma bind_nil_inv {A B} (f : A -> list B) l : l ≫= f = [] -> Forall (fun x => f x = []) l.
Proof.
  induction l as [|x l IH]; [done|]. rewrite bind_cons. intros [? ?]%app_eq_nil. constructor; auto.
Qed.

(** An unblocked row admits the request on every slot. *)
Definition row_fits (c : Ctx) (slots : list WorkerSlot) (row : EnvelopeRow) : Prop :=
  c_ctx c <= er_maxCtx row ∧ c_parallel c <= er_maxParallel row ∧ c_chain c <= er_maxChain row ∧
  if er_maxFit row
  then Forall (fun s => 1 <= maxFitLayers s (c_profile c) ∧
                        layers_fit c s (maxFitLayers s (c_profile c))) slots
  else er_workerLayers row * Z.of_nat (length slots) <= mp_layers (c_profile c) - 1 ∧
       Forall (fun s => layers_fit c s (er_workerLayers row)) slots.

Lemma maxFit_gpu s p : 1 <= mp_layerMiB p -> 1 <= maxFitLayers s p ->
  maxFitLayers s p * mp_layerMiB p + mp_workerMarginMiB p <= gs_memMiB (ws_gpu s).
Proof.
  unfold maxFitLayers. intros Hl Hf.
  assert (Z.min ((gs_memMiB (ws_gpu s) - mp_workerMarginMiB p) / mp_layerMiB p)
    ((offer_ram (ws_node s) - mp_workerMarginMiB p) / mp_layerMiB p) <=
    (gs_memMiB (ws_gpu s) - mp_workerMarginMiB p) / mp_layerMiB p) as Hmin by lia.
  pose proof (div_mul_le (gs_memMiB (ws_gpu s) - mp_workerMarginMiB p) (mp_layerMiB p)).
  rewrite Z.max_r in * by lia. nia.
Qed.

Lemma ram_blocked_nil n need : ram_blocked n need = [] -> ramShortfall n need = None.
Proof. unfold ram_blocked. by destruct ramShortfall. Qed.

Lemma row_blocked_nil c slots row :
  ctx_ok c -> Forall (slot_ok c) slots -> row ∈ mp_envelope (c_profile c) ->
  row_blocked c slots row = [] -> row_fits c slots row.
Proof.
  intros Hc Hs Hrow. pose proof (ok_rows c Hc) as Hrows. rewrite Forall_forall in Hrows.
  specialize (Hrows row Hrow). pose proof (ok_layerMiB c Hc) as HM.
  unfold row_blocked, row_fits. intros H.
  apply app_eq_nil in H as [H1 H]. apply app_eq_nil in H as [H2 H]. apply app_eq_nil in H as [H3 H].
  assert (c_ctx c <= er_maxCtx row) by (destruct (er_maxCtx row <? c_ctx c) eqn:E; bool_to_prop; [done|lia]).
  assert (c_parallel c <= er_maxParallel row) by (destruct (er_maxParallel row <? c_parallel c) eqn:E; bool_to_prop; [done|lia]).
  assert (c_chain c <= er_maxChain row) by (destruct (er_maxChain row <? c_chain c) eqn:E; bool_to_prop; [done|lia]).
  split_and!; [done..|]. destruct (er_maxFit row).
  - apply bind_nil_inv in H. rewrite Forall_forall in *. intros s Hin. specialize (H s Hin). simpl in H.
    apply app_eq_nil in H as [Hf Hr].
    destruct (maxFitLayers s (c_profile c) <? 1) eqn:E; [done|]. bool_to_prop.
    apply ram_blocked_nil in Hr. split; [done|]. unfold layers_fit. split_and!; [lia|by apply maxFit_gpu|].
    apply ramShortfall_None; [done|]. eapply usable_offer, (Hs s Hin).
  - apply app_eq_nil in H as [Hn H].
    destruct (mp_layers (c_profile c) - 1 <? er_workerLayers row * Z.of_nat (length slots)) eqn:E; [done|].
    bool_to_prop. split; [done|]. apply bind_nil_inv in H. rewrite Forall_forall in *.
    intros s Hin. specialize (H s Hin). simpl in H. apply app_eq_nil in H as [Hg Hr].
    destruct (gs_memMiB (ws_gpu s) <? _) eqn:Eg; [done|]. bool_to_prop. apply ram_blocked_nil in Hr.
    unfold layers_fit. split_and!; [lia|done|]. apply ramShortfall_None; [done|].
    eapply usable_offer, (Hs s Hin).
Qed.

Lemma mono_choose_from c slots rows skipped : mono (choose_from c slots skipped rows).
Proof. revert skipped. induction rows; intros skipped; simpl; mono_solve. Qed.
Lemma mono_chooseRow c slots : mono (chooseRow c slots).
Proof. apply mono_choose_from. Qed.
Lemma mono_requestedLayers c layers slots : mono (requestedLayers c layers slots).
Proof. unfold requestedLayers. mono_solve. Qed.
Hint Resolve mono_choose_from mono_chooseRow mono_requestedLayers : plan.
Lemma mono_worker_layers c slots : mono (worker_layers c slots).
Proof. unfold worker_layers. mono_solve. Qed.
Hint Resolve mono_worker_layers : plan.

(** The chosen row is unblocked, and every row that precedes it by layer count is blocked: it has
    the most layers per worker among the rows that admit the request. *)
Lemma clean_choose_from c slots rows skipped :
  clean (choose_from c slots skipped rows)
    (fun o => exists pre row post, rows = pre ++ row :: post ∧ o = Some row ∧
       row_blocked c slots row = [] ∧ Forall (fun r => row_blocked c slots r <> []) pre).
Proof.
  revert skipped. induction rows as [|row rows IH]; intros skipped; simpl.
  { apply clean_refuse_then. mono_solve. }
  destruct (row_blocked c slots row) as [|b bs] eqn:E.
  - apply clean_seq. intros _. apply clean_ret. exists [], row, rows. done.
  - eapply clean_weaken; [apply IH|]. intros o (pre & r & post & -> & -> & Hr & Hpre).
    exists (row :: pre), r, post. split_and!; [done..|]. constructor; [by rewrite E|done].
Qed.

Lemma rows_by_layers_sorted rows :
  StronglySorted (fun a b => er_workerLayers b <= er_workerLayers a) (rows_by_layers rows).
Proof.
  pose proof (js_sort_StronglySorted (fun a b => er_workerLayers b <=? er_workerLayers a)
    ltac:(simpl; intros; bool_to_prop; apply Z.leb_le; lia)
    ltac:(simpl; intros; bool_to_prop; apply Z.leb_le; lia) rows) as H.
  unfold rows_by_layers. induction H as [|a l _ IH Ha]; constructor; [done|].
  eapply Forall_impl; [exact Ha|]. simpl. intros b Hb. by bool_to_prop.
Qed.

Lemma clean_chooseRow c slots : ctx_ok c -> Forall (slot_ok c) slots ->
  clean (chooseRow c slots)
    (fun o => exists row, o = Some row ∧ row ∈ mp_envelope (c_profile c) ∧ row_fits c slots row ∧
       forall r, r ∈ mp_envelope (c_profile c) -> er_workerLayers row < er_workerLayers r ->
         row_blocked c slots r <> []).
Proof.
  intros Hc Hs. unfold chooseRow. eapply clean_weaken; [apply clean_choose_from|].
  intros o (pre & row & post & Erows & -> & Hb & Hpre). exists row. split; [done|].
  assert (row ∈ mp_envelope (c_profile c)) as Hin.
  { rewrite <-(js_sort_elem (fun a b => er_workerLayers b <=? er_workerLayers a)).
    unfold rows_by_layers in Erows. rewrite Erows. set_solver. }
  split; [done|]. split; [by apply row_blocked_nil|].
  intros r Hr Hlt. pose proof (rows_by_layers_sorted (mp_envelope (c_profile c))) as Hsort.
  rewrite Erows in Hsort. apply (js_sort_elem (fun a b => er_workerLayers b <=? er_workerLayers a)) in Hr.
  unfold rows_by_layers in Erows. rewrite Erows in Hr. rewrite Forall_forall in Hpre.
  apply elem_of_app in Hr as [Hr|[->|Hr]%elem_of_cons]; [by apply Hpre|lia|].
  apply StronglySorted_app in Hsort as (_ & _ & Hsort).
  inversion Hsort as [|? ? _ Hpost]; subst. rewrite Forall_forall in Hpost.
  specialize (Hpost r Hr). simpl in Hpost. lia.
Qed.

(** What the layer counts of a split satisfy. *)
Definition layers_ok (c : Ctx) (slots : list WorkerSlot) (layers : list Z) : Prop :=
  Forall2 (layers_fit c) slots layers ∧ sumZ layers <= mp_layers (c_profile c) - 1.

Lemma clean_check c : clean (check_errors c) (fun _ => True).
Proof. done. Qed.

Lemma clean_mwhen_refuse b r : clean (mwhen b (refuse r)) (fun _ => b = false).
Proof. destruct b; simpl; [apply clean_refuse|by apply clean_ret]. Qed.

Lemma clean_ram n need :
  clean (match ramShortfall n need with Some r => refuse (R_layers_ram r) | None => mret tt end)
    (fun _ => ramShortfall n need = None).
Proof. destruct ramShortfall; [apply clean_refuse|by apply clean_ret]. Qed.

Lemma clean_requestedLayers c layers slots :
  ctx_ok c -> Forall (slot_ok c) slots -> length layers = length slots ->
  Forall (fun l => 1 <= l) layers ->
  clean (requestedLayers c layers slots)
    (fun r => r = layers ∧ layers_ok c slots layers ∧ Forall (fun l => is_Some (row_for c l)) layers).
Proof.
  intros Hc Hs Hlen Hpos. unfold requestedLayers.
  set (R := fun (i : nat) (s : WorkerSlot) (_ : unit) => forall l, layers !! i = Some l ->
    layers_fit c s l ∧ is_Some (row_for c l)).
  eapply clean_bind; [apply (clean_map R)|mono_solve|].
  - mono_solve.
  - intros j s Hj. rewrite Nat.add_0_l.
    eapply clean_bind; [apply clean_mwhen_refuse|mono_solve|]. intros [] Hrow.
    eapply clean_bind; [apply clean_mwhen_refuse|mono_solve|]. intros [] Hgpu.
    eapply clean_bind; [apply clean_ram|mono_solve|]. intros [] Hram. apply clean_seq. intros _. apply clean_ret. intros l Hl. rewrite Hl in *. simpl in *.
    bool_to_prop. rewrite Forall_lookup in Hpos. rewrite Forall_lookup in Hs. specialize (Hpos _ _ Hl). split.
    + unfold layers_fit. split_and!; [lia|lia|]. apply ramShortfall_None; [done|].
      eapply usable_offer, (Hs _ _ Hj).
    + by destruct (row_for c l).
  - intros us [Hus HR]. eapply clean_bind; [apply clean_mwhen_refuse|mono_solve|].
    intros [] Htot. bool_to_prop. apply clean_seq. intros _. apply clean_ret. split; [done|].
    assert (forall j l, layers !! j = Some l -> exists s, slots !! j = Some s ∧
      layers_fit c s l ∧ is_Some (row_for c l)) as Hall.
    { intros j l Hl. destruct (lookup_lt_is_Some_2 slots j) as [s Hj].
      { rewrite <-Hlen. by eapply lookup_lt_Some. }
      destruct (lookup_lt_is_Some_2 us j) as [u Hu].
      { rewrite Hus. by eapply lookup_lt_Some. }
      exists s. split; [done|]. by apply (HR j s u Hj Hu). }
    split.
    + split; [|lia]. apply Forall2_same_length_lookup_2; [done|].
      intros j s l Hj Hl. destruct (Hall j l Hl) as (s' & ? & ? & _). by simplify_eq.
    + apply Forall_lookup. intros j l Hl. by destruct (Hall j l Hl) as (? & _ & _ & ?).
Qed.

(** Counts from a max-fit row are the per-worker maxima, shaved; from a plain row, its count. *)
Lemma clean_worker_layers c slots :
  ctx_ok c -> Forall (slot_ok c) slots ->
  (forall ls, ds_workerLayers (c_spec c) = Some ls ->
     length (omap as_safe_int ls) = length slots ∧ Forall (fun l => 1 <= l) (omap as_safe_int ls)) ->
  clean (worker_layers c slots) (layers_ok c slots).
Proof.
  intros Hc Hs Hreq. unfold worker_layers. destruct (ds_workerLayers (c_spec c)) as [ls|].
  { destruct (Hreq ls eq_refl) as [Hlen Hpos].
    eapply clean_weaken; [by apply clean_requestedLayers|]. by intros r (-> & ? & _). }
  eapply clean_bind; [by apply clean_chooseRow|mono_solve|].
  intros o (row & -> & Hin & (_ & _ & _ & Hfit) & _). destruct (er_maxFit row).
  - apply clean_seq. intros _. apply clean_ret.
    pose proof (ok_layers c Hc). pose proof (ok_layerMiB c Hc).
    set (fits := (fun s => maxFitLayers s (c_profile c)) <$> slots).
    assert (Forall (Z.le 0) fits) as Hnn.
    { apply Forall_fmap. eapply Forall_impl; [exact Hfit|]. simpl. intros s [? _]. lia. }
    destruct (shave_spec (mp_layers (c_profile c) - 1) fits) as (Hsum & Hpos & Hle & _); [lia|done|].
    split; [|done]. apply Forall2_same_length_lookup_2.
    { rewrite (Forall2_length _ _ _ Hle). unfold fits. by rewrite length_fmap. }
    intros j s l Hj Hl. rewrite Forall_lookup in Hfit. rewrite Forall_lookup in Hpos. specialize (Hpos _ _ Hl).
    destruct (Forall2_lookup_l _ _ _ _ _ Hle Hl) as (f & Hf & Hlf).
    unfold fits in Hf. rewrite list_lookup_fmap, Hj in Hf. simpl in Hf. simplify_eq.
    destruct (Hfit _ _ Hj) as (_ & _ & Hg & Hr). unfold layers_fit. split_and!; [lia|nia|].
    intros Hos. specialize (Hr Hos). nia.
  - apply clean_ret. destruct Hfit as [Htot Hfit]. split.
    + apply Forall2_fmap_r, Forall_Forall2_diag. done.
    + assert ((fun _ => er_workerLayers row) <$> slots = replicate (length slots) (er_workerLayers row)) as ->.
      { clear. induction slots; [done|]. simpl. by f_equal. }
      rewrite sumZ_replicate. lia.
Qed.
End facts.
