(* ===== verification/PlannerSound.v ===== *)
(** * What a returned plan guarantees

    The claims about [planDeployment]: soundness of split, replica and native placements, and that
    a refusal always names a reason. *)

From Stdlib Require Import Ascii.
From S2P Require Import Prelude JsNum Json Types Validate PhasePlan Planner PlannerFacts.

Section sound.
Context (re_test : string -> string -> bool).
Context (localeCompare : string -> string -> comparison).

(** ** Split placements *)

(** One worker of a split plan: an enrolled, online, enabled worker-role node; its first offered
    GPU; layers plus margin within that GPU's offered memory (and within the RAM offer on
    darwin); a free rpc/peer port pair; one to ten threads. *)
Definition worker_ok (c : Ctx) (forwarding : bool) (w : PlanWorker) : Prop :=
  exists s, slot_ok c s ∧ pw_nodeId w = slot_id s ∧
    pw_device w = gs_engineName (ws_gpu s) ∧ pw_memCapMiB w = gs_memMiB (ws_gpu s) ∧
    layers_fit c s (pw_layers w) ∧ free_port (c_usedPorts c !! pw_nodeId w) (pw_port w) ∧
    pw_peerPort w = (if forwarding then Some (pw_port w + 1) else None) ∧
    1 <= pw_threads w <= MAX_WORKER_THREADS.

Record sound_split (c : Ctx) (plan : Plan) : Prop := {
  sp_workers : pl_workers plan <> [];
  sp_worker_ok : Forall (worker_ok c (negb (bool_decide (ds_forwarding (c_spec c) = Some false)) &&
      (1 <? Z.of_nat (length (pl_workers plan))))) (pl_workers plan);
  sp_distinct : NoDup (pl_coordinatorNodeId plan :: (pw_nodeId <$> pl_workers plan));
  sp_split : pl_tensorSplit plan =
    (pw_layers <$> pl_workers plan) ++ [mp_layers (c_profile c) - sumZ (pw_layers <$> pl_workers plan)];
  sp_coordinator_keeps : sumZ (pw_layers <$> pl_workers plan) < mp_layers (c_profile c);
  sp_coordinator : exists co, usable c co coordinator_role ∧ has_model re_test c co = true ∧
    pl_coordinatorNodeId plan = nr_id co ∧
    resident_fits c co (mp_layers (c_profile c) - sumZ (pw_layers <$> pl_workers plan)) ∧
    device_ok co (pl_coordinatorDevice plan);
  sp_request : pl_ctx plan = c_ctx c ∧ pl_parallel plan = c_parallel c ∧ pl_chain plan = c_chain c }.

Lemma mono_plan_worker c f i sl : mono (plan_worker c f i sl).
Proof. unfold plan_worker. mono_solve. Qed.
#[local] Hint Resolve mono_plan_worker mono_draftHead mono_worker_layers mono_placeResident
  mono_pick_coordinator mono_pick_workers mono_requireNode : plan.

Definition worker_of (c : Ctx) (forwarding : bool) (sl : WorkerSlot * Z) (w : PlanWorker) : Prop :=
  pw_nodeId w = slot_id sl.1 ∧ pw_device w = gs_engineName (ws_gpu sl.1) ∧
  pw_memCapMiB w = gs_memMiB (ws_gpu sl.1) ∧ pw_layers w = sl.2 ∧
  free_port (c_usedPorts c !! pw_nodeId w) (pw_port w) ∧
  pw_peerPort w = (if forwarding then Some (pw_port w + 1) else None) ∧
  1 <= pw_threads w <= MAX_WORKER_THREADS.

Lemma clean_plan_worker c f i sl : clean (plan_worker c f i sl) (worker_of c f sl).
Proof.
  unfold plan_worker. eapply clean_bind; [apply clean_pickPort|mono_solve|].
  intros p Hp. apply clean_seq. intros _. apply clean_ret. unfold worker_of; simpl.
  split_and!; try done; unfold MAX_WORKER_THREADS; lia.
Qed.

Lemma quiet_plan_workers c f l i : quiet (mmap_i i l (plan_worker c f)).
Proof.
  revert i. induction l as [|sl l IH]; intros i s ws s' H; simpl in H.
  { by apply mret_ok in H as [_ <-]. }
  apply M_bind_ok in H as (w & s1 & H1 & H). apply M_bind_ok in H as (ws' & s2 & H2 & H).
  apply mret_ok in H as [_ <-]. rewrite (IH _ _ _ _ H2).
  unfold plan_worker in H1. apply M_bind_ok in H1 as (p & s3 & Hp & H1).
  pose proof (pickPort_spec (c_usedPorts c !! nr_id (ws_node sl.1)) s) as Hs. rewrite Hp in Hs.
  destruct Hs as [-> _]. apply M_bind_ok in H1 as ([] & s4 & [= <-] & H1).
  by apply mret_ok in H1 as [_ <-].
Qed.

(** The part of [request_errors] a split with explicit layers relies on. *)
Definition layers_requested (spec : DeploymentSpec) : Prop :=
  forall ls, ds_workerLayers spec = Some ls ->
    exists ids, ds_workerNodeIds spec = Some ids ∧ length ids = length ls ∧
      Forall (fun n => positive_safe n = true) ls.

Lemma omap_safe ls : Forall (fun n => positive_safe n = true) ls ->
  length (omap as_safe_int ls) = length ls ∧ Forall (fun l => 1 <= l) (omap as_safe_int ls).
Proof.
  induction 1 as [|n ls Hn _ [IH1 IH2]]; [done|]. unfold positive_safe in Hn.
  cbn [omap list_omap]. destruct (as_safe_int n) as [z|]; [|done]. bool_to_prop.
  split; [simpl; f_equal; exact IH1|by constructor].
Qed.

Lemma workers_sound c forwarding slots layers workers :
  Forall (slot_ok c) slots -> Forall2 (layers_fit c) slots layers ->
  length workers = length (zip slots layers) ->
  (forall j sl w, zip slots layers !! j = Some sl -> workers !! j = Some w -> worker_of c forwarding sl w) ->
  Forall (worker_ok c forwarding) workers ∧ pw_nodeId <$> workers = slot_id <$> slots ∧
  pw_layers <$> workers = layers.
Proof.
  intros Hs Hl Hlen HR.
  assert (Forall2 (worker_of c forwarding) (zip slots layers) workers) as HF.
  { apply Forall2_same_length_lookup_2; [done|]. intros j sl w ? ?. by apply (HR j). }
  clear Hlen HR. revert workers HF Hs. induction Hl as [|s l slots layers Hsl Hl IH]; simpl; intros workers HF Hs.
  { inversion HF; subst. split_and!; [constructor|done|done]. }
  inversion HF as [|? w ? ws Hw HF']; subst. inversion Hs as [|? ? Hs0 Hs']; subst.
  destruct (IH ws HF' Hs') as (H1 & H2 & H3).
  destruct Hw as (E1 & E2 & E3 & E4 & Hport & Hpeer & Hth). simpl in *. subst.
  split_and!; [|by f_equal|by f_equal]. constructor; [|done]. exists s. done.
Qed.

Lemma check_errors_ok c s u s' : check_errors c s = (Ok u, s') -> s' = s ∧ p_errors s = [].
Proof. unfold check_errors. case_bool_decide; naive_solver. Qed.

(** The steps of a split up to the layer counts and the coordinator's own part. *)
Lemma split_front c s coord s1 slots s2 s3 mtpPath s5 layers s6 device s7 :
  ctx_ok c -> layers_requested (c_spec c) ->
  pick_coordinator re_test c s = (Ok (Some coord), s1) ->
  pick_workers re_test c (Some coord) s1 = (Ok slots, s2) ->
  mwhen (bool_decide (slots = [])) (refuse R_needs_worker) s2 = (Ok tt, s3) -> p_errors s3 = [] ->
  draftHead re_test c coord s3 = (Ok mtpPath, s5) ->
  worker_layers c slots s5 = (Ok layers, s6) ->
  placeResident c coord (mp_layers (c_profile c) - sumZ layers) "Coordinator" s6 = (Ok device, s7) ->
  p_errors s7 = [] ->
  usable c coord coordinator_role ∧ has_model re_test c coord = true ∧
  slots_ok c (Some coord) slots ∧ slots <> [] ∧ layers_ok c slots layers ∧
  resident_fits c coord (mp_layers (c_profile c) - sumZ layers) ∧ device_ok coord device.
Proof.
  intros Hc Hreq H1 H2 H3 He3 H5 H6 H7 He7.
  assert (p_errors s6 = []) as He6 by (by eapply mono_placeResident).
  assert (p_errors s2 = []) as He2 by (eapply (mono_when _ _ (mono_refuse _)); [exact H3|done]).
  assert (p_errors s1 = []) as He1 by (by eapply mono_pick_workers).
  destruct (clean_pick_coordinator re_test c Hc _ _ _ H1 He1) as (co' & [= <-] & Hu & Hm).
  destruct (clean_pick_workers re_test c (Some coord) Hc _ _ _ H2 He2) as [Hsl Hids].
  assert (bool_decide (slots = []) = false) as Hne by (by eapply clean_mwhen_refuse).
  bool_to_prop. destruct Hsl as (Hok & Hnd & Hco).
  assert (layers_ok c slots layers) as Hl.
  { eapply (clean_worker_layers c slots Hc Hok); [|exact H6|done].
    intros ls Hls. destruct (Hreq ls Hls) as (ids & Hi & Hlen & Hpos).
    destruct (omap_safe ls Hpos) as [-> ?]. split; [|done].
    rewrite <-Hlen, <-(Hids ids Hi). by rewrite length_fmap. }
  destruct (clean_placeResident c coord _ _ _ _ _ H7 He7) as [Hres Hdev].
  done.
Qed.

Lemma planSplit_sound c s plan s' :
  ctx_ok c -> layers_requested (c_spec c) -> planSplit re_test c s = (Ok plan, s') ->
  sound_split c plan.
Proof.
  intros Hc Hreq H. unfold planSplit in H.
  apply M_bind_ok in H as (coord & s1 & H1 & H). apply M_bind_ok in H as (slots & s2 & H2 & H).
  apply M_bind_ok in H as ([] & s3 & H3 & H). destruct coord as [co|]; [|done].
  apply M_bind_ok in H as ([] & s4 & H4 & H). apply M_bind_ok in H as (mtpPath & s5 & H5 & H).
  apply M_bind_ok in H as (layers & s6 & H6 & H). apply M_bind_ok in H as (device & s7 & H7 & H).
  apply M_bind_ok in H as ([] & s8 & H8 & H). apply M_bind_ok in H as (workers & s9 & H9 & H).
  apply check_errors_ok in H4 as [-> He3], H8 as [-> He7].
  destruct (split_front _ _ _ _ _ _ _ _ _ _ _ _ _ Hc Hreq H1 H2 H3 He3 H5 H6 H7 He7)
    as (Hu & Hm & (Hok & Hnd & Hco) & Hne & [Hfit Hsum] & Hres & Hdev).
  assert (p_errors s9 = []) as He9 by (by rewrite (quiet_plan_workers _ _ _ _ _ _ _ H9)).
  pose proof (clean_map (fun _ => worker_of c (forwarding_on (c_spec c) slots)) (zip slots layers)
    (plan_worker c (forwarding_on (c_spec c) slots)) 0 (mono_plan_worker _ _)
    ltac:(intros; apply clean_plan_worker) _ _ _ H9 He9) as [Hlen HR].
  destruct (workers_sound _ _ _ _ _ Hok Hfit Hlen HR) as (HW & HI & HL).
  assert (length workers = length slots) as Hlw.
  { rewrite Hlen, length_zip, <-(Forall2_length _ _ _ Hfit). lia. }
  repeat (apply M_bind_ok in H as (? & ? & _ & H)). apply mret_ok in H as [<- _].
  constructor; simpl; rewrite ?HL, ?HI; try done.
  - intros ->. by destruct slots.
  - unfold forwarding_on in HW. by rewrite Hlw.
  - constructor; [by apply Hco|done].
  - lia.
  - exists co. done.
Qed.

(** ** From the request to the context *)

(** The profile facts [validateProfile] establishes and the registry's primary key. *)
Record input_ok (input : PlanInput) : Prop := {
  in_ids : NoDup (nr_id <$> in_nodes input);
  in_layers : 1 <= mp_layers (in_profile input);
  in_layerMiB : 1 <= mp_layerMiB (in_profile input);
  in_rows : Forall (fun r => 1 <= er_workerLayers r) (mp_envelope (in_profile input)) }.

Lemma make_ctx_ok input : input_ok input -> ctx_ok (make_ctx input).
Proof. intros []. by constructor. Qed.

Lemma request_errors_layers spec : request_errors spec = [] -> layers_requested spec.
Proof.
  unfold request_errors. intros H ls Hls. rewrite Hls in H.
  do 9 (apply app_eq_nil in H as [_ H]).
  apply app_eq_nil in H as [_ H]. apply app_eq_nil in H as [_ H]. apply app_eq_nil in H as [Hs Hl].
  apply err_if_nil in Hs, Hl. bool_to_prop.
  destruct (ds_workerNodeIds spec) as [ids|]; [|done]. exists ids. split; [done|].
  bool_to_prop. apply Nat.eqb_eq in Hl. split; [done|].
  apply Forall_forall. intros n Hn. apply not_false_is_true. intros Hf.
  assert (existsb (fun n => negb (positive_safe n)) ls = true) as Hx.
  { apply existsb_exists. exists n. rewrite <-list_elem_of_In. by rewrite Hf. }
  congruence.
Qed.

Lemma planDeployment_ok input plan :
  planDeployment re_test localeCompare input = Ok plan ->
  request_errors (in_spec input) = [] ∧ exists s s', p_errors s = [] ∧
    (if is_native (ds_kind (in_spec input))
     then planNative re_test localeCompare (make_ctx input) (in_nativeQualifications input)
     else if bool_decide (ds_kind (in_spec input) = replica) then planReplica re_test (make_ctx input)
     else planSplit re_test (make_ctx input)) s = (Ok plan, s').
Proof.
  unfold planDeployment. destruct (request_errors (in_spec input)) eqn:E; [|done].
  intros H. split; [done|]. unfold plan_body in H.
  match type of H with fst ?p = _ => destruct p as [r s'] eqn:Ep end. simpl in H. subst r.
  apply M_bind_ok in Ep as ([] & s1 & [= <-] & Ep). apply M_bind_ok in Ep as ([] & s2 & [= <-] & Ep).
  eexists _, s'. split; [|exact Ep]. done.
Qed.

(** ** Replica placements *)

(** One enrolled, online, enabled node offers the role, holds the model and fits all of it. *)
Record sound_replica (c : Ctx) (plan : Plan) : Prop := {
  sr_alone : pl_workers plan = [] ∧ pl_tensorSplit plan = [] ∧ pl_nativeExecution plan = None;
  sr_node : exists n f, usable c n replica_role ∧ pl_coordinatorNodeId plan = nr_id n ∧
    f ∈ nr_models n ∧ re_test (mp_ggufPattern (c_profile c)) (mf_name f) = true ∧
    pl_modelPath plan = mf_path f ∧
    resident_fits c n (mp_layers (c_profile c)) ∧ device_ok n (pl_coordinatorDevice plan);
  sr_request : pl_ctx plan = c_ctx c ∧ pl_parallel plan = c_parallel c ∧ pl_chain plan = c_chain c }.

Lemma has_model_file c n : has_model re_test c n = true ->
  exists f, f ∈ nr_models n ∧ re_test (mp_ggufPattern (c_profile c)) (mf_name f) = true ∧
    model_path re_test c n = mf_path f.
Proof.
  unfold has_model, model_path, findModel, gguf_re. destruct find as [f|] eqn:E; [|done].
  apply find_Some in E as [??]. eauto.
Qed.

Lemma planReplica_sound c s plan s' :
  ctx_ok c -> planReplica re_test c s = (Ok plan, s') -> sound_replica c plan.
Proof.
  intros Hc H. unfold planReplica in H.
  apply M_bind_ok in H as (node & s1 & H1 & H). destruct node as [n|]; [|done].
  apply M_bind_ok in H as (mtpPath & s2 & H2 & H). apply M_bind_ok in H as (device & s3 & H3 & H).
  apply M_bind_ok in H as ([] & s4 & H4 & H). apply check_errors_ok in H4 as [-> He3].
  destruct (clean_placeResident c n _ _ _ _ _ H3 He3) as [Hres Hdev].
  assert (p_errors s1 = []) as He1.
  { eapply mono_draftHead; [exact H2|]. by eapply mono_placeResident. }
  assert (usable c n replica_role ∧ has_model re_test c n = true) as [Hu Hm].
  { destruct (ds_replicaNodeId (c_spec c)) as [i|].
    - destruct (clean_requireNode re_test c i _ _ _ _ _ H1 He1) as (n' & [= <-] & _ & ? & ?). auto.
    - destruct find as [n'|] eqn:E; apply M_bind_ok in H1 as ([] & s0 & _ & H1);
        apply mret_ok in H1 as [[= ->] _].
      apply find_Some in E as [Hin Hb]. bool_to_prop.
      destruct (eligible_usable c n Hc Hin) as (?&?&?). done. }
  destruct (has_model_file c n Hm) as (f & Hf & Hre & Hpath).
  repeat (apply M_bind_ok in H as (? & ? & _ & H)). apply mret_ok in H as [<- _].
  constructor; simpl; [done| |done]. exists n, f. done.
Qed.

(** ** Native placements *)

Definition native_role (c : Ctx) : Role :=
  if bool_decide (ds_kind (c_spec c) = stages) then worker_role else replica_role.

(** A node with exactly one GPU, offered, big enough for the shard and its workspace, with the
    host share in its RAM offer (both together on darwin) and two cores. *)
Definition native_fits (n : NodeRow) (q : Qwen35NativeQualification) : Prop :=
  exists g o, caps_gpus n = [g] ∧ offeredGpu n = Some o ∧ gs_id o = gd_id g ∧
    gpu_need q <= gs_memMiB o ∧ 2 <= offer_cores n ∧
    (if bool_decide (nr_os n = darwin) then gpu_need q + safe_Z (qn_hostMiB q) <= offer_ram n
     else safe_Z (qn_hostMiB q) <= offer_ram n).

(** One planned endpoint against its qualification entry. *)
Definition native_worker_ok (c : Ctx) (q : Qwen35NativeQualification)
    (en : NativeQualEndpoint * NodeRow) (w : NativeStageWorkerPlan) : Prop :=
  let '(e, n) := en in
  let a := qe_artifact e in
  usable c n (native_role c) ∧ se_nodeId (sw_endpoint w) = nr_id n ∧ native_fits n q ∧
  free_port (c_usedPorts c !! nr_id n) (se_port (sw_endpoint w)) ∧
  stage_engine n = Some (qn_engine q) ∧ worker_binary n = Some (qe_binarySha256 e) ∧
  se_binarySha256 (sw_endpoint w) = qe_binarySha256 e ∧
  si_model_sha256 (se_identity (sw_endpoint w)) = qa_sha256 a ∧
  exists m, m ∈ nr_models n ∧ artifact_file a m = true ∧ sw_modelPath w = mf_path m.

(** The ranges [start, end) tile an interval. *)
Fixpoint contiguous (from to : num) (l : list NativeQualEndpoint) : Prop :=
  match l with
  | [] => num_eqb from to = true
  | e :: l => num_eqb (qa_start (qe_artifact e)) from = true ∧
      num_ltb (qa_start (qe_artifact e)) (qa_end (qe_artifact e)) = true ∧
      contiguous (qa_end (qe_artifact e)) to l
  end.

Lemma clean_native_endpoint c q i en :
  usable c en.2 (native_role c) -> endpoint_matches c q en.1 en.2 (stage_at c i) = true ->
  clean (native_endpoint c q i en) (native_worker_ok c q en).
Proof.
  destruct en as [e n]. simpl. intros Hu Hm. unfold native_endpoint.
  eapply clean_bind; [apply clean_mwhen_refuse|mono_solve|]. intros [] Hgpu.
  eapply clean_bind; [apply clean_mwhen_refuse|mono_solve|]. intros [] Hcores. bool_to_prop.
  destruct (offeredGpu n) as [o|] eqn:Eo; [|done].
  destruct (caps_gpus n) as [|g [|]] eqn:Eg; [done| |done]. bool_to_prop.
  eapply clean_bind with (I := fun _ => native_fits n q); [|mono_solve|].
  - unfold native_fits. case_bool_decide as Hos;
      (eapply clean_bind; [apply clean_mwhen_refuse|mono_solve|]; intros [] H1;
       eapply clean_weaken; [apply clean_mwhen_refuse|]; intros [] H2; bool_to_prop;
       exists g, o; split_and!; lia || done).
  - intros _ Hfit. apply clean_seq. intros _.
    eapply clean_bind; [apply clean_pickPort|mono_solve|]. intros p Hp. apply clean_ret.
    unfold endpoint_matches in Hm. bool_to_prop. unfold native_worker_ok. simpl.
    split_and!; try done.
    destruct find as [m|] eqn:Em.
    + apply find_Some in Em as [Hin Hb]. bool_to_prop. eauto.
    + exfalso. match goal with H : existsb _ _ = true |- _ => apply existsb_exists in H as (m & Hin & Hb) end.
      rewrite <-list_elem_of_In in Hin. pose proof (proj1 (find_None _ _) Em m Hin). congruence.
Qed.

(** *** The native node ids are distinct *)

Lemma foldl_step_in l b0 b : foldl step b0 l = Some b -> b ∈ l ∨ b0 = Some b.
Proof.
  revert b0. induction l as [|x l IH]; intros b0; simpl; [auto|]. intros H.
  destruct (IH _ H) as [Hin|Hs]; [left; by right|]. unfold step in Hs.
  destruct (improves x b0); [|auto]. simplify_eq. left. left.
Qed.

Lemma choosePhasePlan_local inp plan :
  choosePhasePlan localeCompare inp = Ok plan ->
  pp_local plan = bool_decide (pp_prefillNodeId plan = pp_decodeNodeId plan).
Proof.
  intros (_ & b & Hs & -> & -> & -> & _)%choosePhasePlan_inv. rewrite search_step in Hs.
  apply foldl_step_in in Hs as [(p & d & _ & _ & E)%elem_of_priced|[=]].
  apply price_ids in E as (-> & -> & ->). done.
Qed.

Lemma phase_search_local c qs best rejections b r :
  (forall b0, best = Some b0 -> pp_local b0 = bool_decide (pp_prefillNodeId b0 = pp_decodeNodeId b0)) ->
  phase_search localeCompare c qs best rejections = (Some b, r) ->
  pp_local b = bool_decide (pp_prefillNodeId b = pp_decodeNodeId b).
Proof.
  revert best rejections. induction qs as [|q qs IH]; intros best rejections Hb; simpl.
  { intros [= -> <-]. auto. }
  destruct (qn_endpoints q) as [|e0 [|e1 [|]]]; try (intros H; by eapply IH, H).
  destruct (_ || _); [intros H; by eapply IH, H|].
  destruct (choosePhasePlan _ _) as [p|] eqn:E; [|intros H; by eapply IH, H].
  intros H. eapply IH, H. intros b0. case_match; [|auto]. intros [= <-]. by eapply choosePhasePlan_local.
Qed.

Lemma chooseNativePhaseNodes_distinct c qs p :
  chooseNativePhaseNodes localeCompare c qs = Ok p -> pp_prefillNodeId p <> pp_decodeNodeId p.
Proof.
  unfold chooseNativePhaseNodes. case_bool_decide; [done|].
  destruct phase_search as [[b|] r] eqn:E; [|done]. destruct (pp_local b) eqn:El; [done|].
  intros [= <-]. apply phase_search_local in E; [|done]. rewrite El in E. symmetry in E. by apply bool_decide_eq_false in E.
Qed.

Lemma stage_errors_ids i end_ nodes l e :
  stage_errors i end_ nodes l = ([], e) ->
  NoDup (ss_nodeId <$> l) ∧ Forall (fun x => ss_nodeId x ∉ nodes) l.
Proof.
  revert i end_ nodes e. induction l as [|x l IH]; intros i end_ nodes e; simpl.
  { intros _. split; constructor. }
  destruct (negb _); [by destruct stage_errors|].
  destruct (bool_decide (ss_nodeId x = _) || bool_decide (ss_nodeId x ∈ nodes)) eqn:Eb;
    [by destruct stage_errors|].
  destruct (stage_errors (S i) (ss_end x) _ l) as [es e'] eqn:Es.
  intros [= H <-]. simpl in H. apply app_eq_nil in H as [_ H]. apply app_eq_nil in H as [_ ->].
  destruct (IH _ _ _ _ Es) as [Hnd Hns]. apply orb_false_iff in Eb as [_ Eb]. bool_to_prop.
  rewrite Forall_forall in Hns. split.
  - constructor; [|done]. intros (y & Hy & Hin)%list_elem_of_fmap. destruct (Hns y Hin). rewrite <-Hy. left.
  - constructor; [done|]. apply Forall_forall. intros y Hin Hy. destruct (Hns y Hin). by right.
Qed.

Lemma nativeRequest_ids c qs s ids s' ctx parallel chain :
  nativeRequestErrors (c_spec c) ctx parallel chain = [] ->
  native_ids localeCompare c qs s = (Ok ids, s') -> NoDup ids.
Proof.
  unfold nativeRequestErrors. intros H. do 4 (apply app_eq_nil in H as [_ H]). unfold native_ids.
  case_bool_decide.
  - destruct (ds_stages (c_spec c)) as [l|]; [|done]. destruct (_ || _); [|done].
    destruct (stage_errors 0 num_zero [] l) as [es e] eqn:Es. apply app_eq_nil in H as [-> _].
    intros [<- _]%mret_ok. by eapply stage_errors_ids.
  - apply app_eq_nil in H as [H _]. destruct (truthy (ds_prefillNodeId _)) eqn:Ep, (truthy (ds_decodeNodeId _)) eqn:Ed; simpl in H; try done.
    + apply err_if_nil in H. bool_to_prop. simpl. intros [<- _]%mret_ok.
      unfold truthy in Ep, Ed. destruct (ds_prefillNodeId _), (ds_decodeNodeId _); try done. simpl.
      apply NoDup_cons; split; [|apply NoDup_singleton]. rewrite list_elem_of_singleton. congruence.
    + simpl. destruct chooseNativePhaseNodes as [p|] eqn:E; [|done].
      intros (u & s1 & _ & H1)%M_bind_ok. apply mret_ok in H1 as [<- _].
      apply NoDup_cons; split; [|apply NoDup_singleton]. rewrite list_elem_of_singleton.
      by eapply chooseNativePhaseNodes_distinct.
Qed.

(** *** The planned endpoints *)

Lemma valid_endpoints_contiguous q from l :
  qn_mode q = stages_mode -> valid_endpoints q from l = true -> contiguous from num_24 l.
Proof.
  intros Hm. revert from. induction l as [|e l IH]; intros from; simpl; rewrite Hm; simpl; [done|].
  destruct (_ || num_ltb num_24 _) eqn:E; [done|]. repeat (apply orb_false_iff in E as [E ?]).
  destruct (num_eqb _ from) eqn:Ef; [|done]. simpl. intros Hl. split_and!; [done| |auto].
  apply num_leb_false_ltb; [by apply isInteger_not_nan, negb_false_iff..|done].
Qed.

Lemma requireNodes_found c r ids found s s' :
  mmap_i 0 ids (fun _ id => requireNode re_test c id r false) s = (Ok found, s') -> p_errors s' = [] ->
  nr_id <$> omap id found = ids ∧ Forall (fun n => usable c n r) (omap id found).
Proof.
  intros H He.
  pose proof (clean_map (fun _ i o => exists n, o = Some n ∧ nr_id n = i ∧ usable c n r) ids
    (fun _ id => requireNode re_test c id r false) 0) as Hc.
  destruct (Hc ltac:(intros; apply mono_requireNode)
    ltac:(intros; eapply clean_weaken; [apply clean_requireNode|]; naive_solver) _ _ _ H He) as [Hlen HR].
  assert (Forall2 (fun i o => exists n, o = Some n ∧ nr_id n = i ∧ usable c n r) ids found) as HF.
  { apply Forall2_same_length_lookup_2; [done|]. intros j i o ? ?. by apply (HR j). }
  clear - HF. induction HF as [|i o ids found (n & -> & <- & Hn) _ [IH1 IH2]]; [done|]. cbn [omap list_omap id].
  split; [simpl; f_equal; exact IH1|by constructor].
Qed.

Lemma qualification_matches_lookup c nodes q j en :
  qualification_matches c nodes q = true -> zip (qn_endpoints q) nodes !! j = Some en ->
  endpoint_matches c q en.1 en.2 (stage_at c j) = true.
Proof.
  unfold qualification_matches. rewrite forallb_forall. intros H Hj.
  apply (H (j, en)). apply list_elem_of_In, list_elem_of_lookup. exists j. apply lookup_zip_with_Some.
  exists j, en. split_and!; [done| |done]. apply lookup_seq. split; [done|].
  apply lookup_zip_with_Some in Hj as (e & n & _ & _ & Hn). by apply lookup_lt_Some in Hn.
Qed.

(** A native plan follows one valid qualification the controller holds. *)
Record sound_native (c : Ctx) (quals : list Qwen35NativeQualification) (plan : Plan)
    (q : Qwen35NativeQualification) (np : NativeExecutionPlacement) : Prop := {
  sn_plan : pl_nativeExecution plan = Some np ∧ pl_workers plan = [] ∧ np_mode np = qn_mode q;
  sn_qualified : q ∈ quals ∧ validNativeQualification q = true ∧
    qn_mode q = native_mode (ds_kind (c_spec c)) ∧ np_qualificationEvidenceSha256 np = qn_evidenceSha256 q;
  sn_distinct : NoDup ((fun w => se_nodeId (sw_endpoint w)) <$> np_endpoints np);
  sn_endpoints : exists nodes, length nodes = length (qn_endpoints q) ∧
    Forall2 (native_worker_ok c q) (zip (qn_endpoints q) nodes) (np_endpoints np);
  sn_cover : qn_mode q = stages_mode -> contiguous num_zero num_24 (qn_endpoints q) }.

Lemma mono_native_endpoint c q i en : mono (native_endpoint c q i en).
Proof. unfold native_endpoint. mono_solve. Qed.

Lemma worker_ids c q l ws :
  Forall2 (native_worker_ok c q) l ws -> (fun w => se_nodeId (sw_endpoint w)) <$> ws = nr_id ∘ snd <$> l.
Proof.
  induction 1 as [|[e n] w l ws Hw _ IH]; [done|]. cbn. f_equal; [|exact IH]. by destruct Hw as (_ & -> & _).
Qed.

Lemma valid_cover q : validNativeQualification q = true -> qn_mode q = stages_mode ->
  contiguous num_zero num_24 (qn_endpoints q).
Proof.
  unfold validNativeQualification. intros H Hm. do 2 (case_match; [done|]). by apply (valid_endpoints_contiguous q).
Qed.

Lemma planNative_sound c quals s plan s' ctx parallel chain :
  nativeRequestErrors (c_spec c) ctx parallel chain = [] ->
  planNative re_test localeCompare c quals s = (Ok plan, s') -> exists q np, sound_native c quals plan q np.
Proof.
  intros Hreq H. unfold planNative in H. case_match; [done|].
  apply M_bind_ok in H as (ids & s1 & H1 & H). apply (nativeRequest_ids _ _ _ _ _ _ _ _ Hreq) in H1.
  apply M_bind_ok in H as (found & s2 & H2 & H). apply M_bind_ok in H as ([] & s3 & H3 & H).
  apply check_errors_ok in H3 as [-> He2]. destruct (requireNodes_found _ _ _ _ _ _ H2 He2) as [Hids Hus].
  set (nodes := omap id found) in *.
  destruct (find (qualification_matches c nodes) _) as [q|] eqn:Ef; [|done].
  apply find_Some in Ef as [Hq Hmatch]. apply elem_of_filter in Hq as [Hq Hb]. bool_to_prop.
  match goal with H : (_ =? _)%nat = true |- _ => apply Nat.eqb_eq in H as Hlen end.
  apply M_bind_ok in H as (ws & s4 & Hws & H). apply M_bind_ok in H as ([] & s5 & Hck & H).
  apply check_errors_ok in Hck as [-> He4].
  destruct (clean_map (fun _ => native_worker_ok c q) (zip (qn_endpoints q) nodes) (native_endpoint c q) 0
    (mono_native_endpoint c q) ltac:(
      intros j en Hj; apply clean_native_endpoint;
        [|by apply (qualification_matches_lookup c nodes)];
      apply lookup_zip_with_Some in Hj as (e & n & -> & _ & Hn); rewrite Forall_lookup in Hus;
      by apply (Hus j)) _ _ _ Hws He4) as [Hlw HR].
  repeat (apply M_bind_ok in H as (? & ? & _ & H)). destruct ws as [|w ws]; [done|].
  apply mret_ok in H as [<- _].
  assert (Forall2 (native_worker_ok c q) (zip (qn_endpoints q) nodes) (w :: ws)) as HF.
  { apply Forall2_same_length_lookup_2; [done|]. intros j en w' ? ?. by apply (HR j). }
  eexists q, _. constructor; simpl; try done.
  - change (NoDup ((fun w => se_nodeId (sw_endpoint w)) <$> w :: ws)). rewrite (worker_ids _ _ _ _ HF).
    rewrite list_fmap_compose, snd_zip by lia. by rewrite Hids.
  - exists nodes. done.
  - intros Hm. by apply valid_cover.
Qed.

(** ** Refusals are explained *)

(** [explained m]: whenever [m] throws, the error carries at least one reason. *)
Definition explained {A} (m : P A) : Prop :=
  forall s e s', m s = (Err e, s') -> pe_reasons e <> [].

Lemma explained_bind {A B} (m : P A) (f : A -> P B) :
  explained m -> (forall a, explained (f a)) -> explained (m ≫= f).
Proof. intros Hm Hf s e s' [H|(a & s1 & _ & H)]%M_bind_err; [by eapply Hm|by eapply Hf]. Qed.

(** A computation whose clean runs satisfy [I] may be followed by [throw_errors] off [I]. *)
Lemma explained_bind_clean {A B} (I : A -> Prop) (m : P A) (f : A -> P B) :
  explained m -> clean m I -> (forall a, I a -> explained (f a)) ->
  (forall a s e s', ~ I a -> f a s = (Err e, s') -> p_errors s <> [] -> pe_reasons e <> []) ->
  (forall a, I a ∨ ~ I a) -> explained (m ≫= f).
Proof.
  intros Hm Hc Hf Hthrow Hdec s e s' [H|(a & s1 & H1 & H)]%M_bind_err; [by eapply Hm|].
  destruct (Hdec a) as [Ha|Ha]; [by eapply Hf|]. eapply Hthrow; [done|exact H|].
  intros He. by apply Ha, (Hc _ _ _ H1).
Qed.

Lemma explained_total {A} (m : P A) : (forall s, exists a s', m s = (Ok a, s')) -> explained m.
Proof. intros H s e s' He. destruct (H s) as (a & s1 & E). congruence. Qed.
Lemma explained_ret {A} (a : A) : explained (mret a).
Proof. apply explained_total. intros s. by exists a, s. Qed.
Lemma explained_reason r : explained (reason r).
Proof. by intros s e s' [=]. Qed.
Lemma explained_refuse r : explained (refuse r).
Proof. by intros s e s' [=]. Qed.
Lemma explained_get : explained mget.
Proof. by intros s e s' [=]. Qed.
Lemma explained_check c : explained (check_errors c).
Proof. intros s e s'. unfold check_errors. case_bool_decide; [done|]. by intros [= <- <-]. Qed.
Lemma explained_throw_with {A} c r : explained (throw_with c r : P A).
Proof. by intros s e s' [= <- <-]. Qed.
Lemma explained_pickPort used : explained (pickPort used).
Proof. unfold pickPort. case_match; [apply explained_ret|]. by intros s e s' [= <- <-]. Qed.
Lemma explained_when b m : explained m -> explained (mwhen b m).
Proof. destruct b; [done|]. intros _. apply explained_ret. Qed.
Lemma explained_for {A} (l : list A) (f : A -> P unit) : (forall x, explained (f x)) -> explained (mfor l f).
Proof. intros Hf. induction l; simpl; [apply explained_ret|by apply explained_bind]. Qed.
Lemma explained_map {A B} (l : list A) (f : nat -> A -> P B) i :
  (forall j x, explained (f j x)) -> explained (mmap_i i l f).
Proof.
  intros Hf. revert i. induction l as [|x l IH]; intros i; simpl; [apply explained_ret|].
  apply explained_bind; [done|]. intros y. apply explained_bind; [done|]. intros. apply explained_ret.
Qed.
#[local] Hint Resolve explained_ret explained_reason explained_refuse explained_get explained_check
  explained_throw_with explained_pickPort : plan.

Ltac explained_solve :=
  repeat (first
    [ progress intros
    | solve [auto with plan]
    | apply explained_when | apply explained_for | apply explained_map
    | apply explained_bind | case_match ]).

Lemma explained_requireNode c i r b : explained (requireNode re_test c i r b).
Proof. unfold requireNode. explained_solve. Qed.
Lemma explained_draftHead c n : explained (draftHead re_test c n).
Proof. unfold draftHead. explained_solve. Qed.
Lemma explained_placeResident c n l r : explained (placeResident c n l r).
Proof. unfold placeResident. explained_solve. Qed.
#[local] Hint Resolve explained_requireNode explained_draftHead explained_placeResident : plan.

Lemma explained_requested_slots c coord seen ids : explained (requested_slots re_test c coord seen ids).
Proof.
  revert seen. induction ids as [|i ids IH]; intros seen; simpl; [explained_solve|].
  unfold requested_slot. explained_solve.
Qed.
Lemma explained_choose_from c slots skipped rows : explained (choose_from c slots skipped rows).
Proof. revert skipped. induction rows; intros skipped; simpl; explained_solve. Qed.
#[local] Hint Resolve explained_requested_slots explained_choose_from : plan.

(** [throw_errors] after a node or row was not found is explained by the recorded refusals. *)
Lemma explained_found {A B} (m : P (option A)) (k : A -> P B) c :
  explained m -> clean m (fun o => is_Some o) -> (forall a, explained (k a)) ->
  explained (o ← m; match o with Some a => k a | None => throw_errors c end).
Proof.
  intros Hm Hc Hk. eapply (explained_bind_clean is_Some); [done|done|..].
  - intros o [a ->]. apply Hk.
  - intros [a|] s e s' Ho; [by destruct Ho|]. by intros [= <- <-].
  - intros [a|]; [left; eauto|right]. by intros [? ?].
Qed.

Lemma explained_worker_layers c slots : explained (worker_layers c slots).
Proof.
  unfold worker_layers, requestedLayers, chooseRow. case_match; [explained_solve|].
  apply explained_found; [explained_solve| |explained_solve].
  eapply clean_weaken; [apply clean_choose_from|]. intros o (pre & row & post & _ & -> & _). eauto.
Qed.
#[local] Hint Resolve explained_worker_layers : plan.

Lemma explained_replica c : explained (planReplica re_test c).
Proof.
  unfold planReplica. apply explained_found; [explained_solve| |explained_solve].
  destruct (ds_replicaNodeId _).
  - eapply clean_weaken; [apply clean_requireNode|]. naive_solver.
  - case_match; [|apply clean_refuse_then; mono_solve]. apply clean_seq. intros _. apply clean_ret. eauto.
Qed.

Lemma coordinator_found c : clean (pick_coordinator re_test c) is_Some.
Proof.
  unfold pick_coordinator. case_match.
  - eapply clean_weaken; [apply clean_requireNode|]. naive_solver.
  - case_match; [apply clean_refuse_then; mono_solve|]. apply clean_seq. intros _. apply clean_ret. eauto.
Qed.

Lemma explained_pick_workers c coord : explained (pick_workers re_test c coord).
Proof. unfold pick_workers. explained_solve. Qed.
#[local] Hint Resolve explained_pick_workers : plan.

Lemma explained_split c : explained (planSplit re_test c).
Proof.
  unfold planSplit. eapply (explained_bind_clean is_Some); [|apply coordinator_found|..].
  - unfold pick_coordinator. explained_solve.
  - intros o [co ->]. unfold plan_worker. explained_solve.
  - intros [co|] s e s' Ho; [by destruct Ho|]. intros H Hs.
    apply M_bind_err in H as [H|(slots & s1 & H1 & H)].
    { by apply explained_pick_workers in H. }
    apply M_bind_err in H as [H|([] & s2 & H2 & H)]; [by destruct (bool_decide _)|].
    injection H as <- <-. simpl. intros He. apply Hs.
    eapply mono_pick_workers; [exact H1|]. eapply (mono_when _ _ (mono_refuse _)); [exact H2|done].
  - intros [a|]; [left; eauto|right]. by intros [? ?].
Qed.

Lemma explained_native c quals : explained (planNative re_test localeCompare c quals).
Proof. unfold planNative, native_ids, native_endpoint. explained_solve. Qed.

(** C9: a split plan is sound.  Workers and coordinator are distinct, enrolled, online, enabled nodes
    offering their role; every worker's layers plus the profile margin fit the memory of its first
    offered GPU (and its RAM offer on darwin); the coordinator keeps at least one layer, holds the
    model and fits the rest; the tensor split lists the workers' layers then the coordinator's and
    sums to the model's layers; each worker gets a free rpc/peer port pair and 1 to 10 threads. *)
Theorem planDeployment_split_sound input plan :
  input_ok input -> ds_kind (in_spec input) = split ->
  planDeployment re_test localeCompare input = Ok plan ->
  sound_split (make_ctx input) plan ∧ sumZ (pl_tensorSplit plan) = mp_layers (in_profile input).
Proof.
  intros Hin Hk H. apply planDeployment_ok in H as (Hreq & s & s' & _ & H). rewrite Hk in H. simpl in H.
  assert (sound_split (make_ctx input) plan) as Hs.
  { eapply planSplit_sound; [by apply make_ctx_ok|by apply request_errors_layers|exact H]. }
  split; [done|]. rewrite (sp_split _ _ Hs), sumZ_app, sumZ_cons, sumZ_nil. simpl. lia.
Qed.

(** A replica plan names one enrolled, online, enabled node that offers the replica role, holds
    a file matching the profile's pattern (the plan's model path), and fits the whole model: in its
    offered GPU with the host share in RAM, or in RAM on a unified-memory or GPU-less node. *)
Theorem planDeployment_replica_sound input plan :
  input_ok input -> ds_kind (in_spec input) = replica ->
  planDeployment re_test localeCompare input = Ok plan -> sound_replica (make_ctx input) plan.
Proof.
  intros Hin Hk H. apply planDeployment_ok in H as (_ & s & s' & _ & H). rewrite Hk in H.
  eapply planReplica_sound; [by apply make_ctx_ok|exact H].
Qed.

(** C24: a native plan follows one valid qualification record the controller holds: its endpoints run
    on pairwise distinct, enrolled, online, enabled nodes that each report exactly one GPU, offer it
    with enough memory for the shard and its workspace (host share in RAM too), and hold the
    qualified artifact and worker binary; each gets a free port; stage ranges tile layers 0 to 24. *)
Theorem planDeployment_native_sound input plan :
  is_native (ds_kind (in_spec input)) = true ->
  planDeployment re_test localeCompare input = Ok plan ->
  exists q np, sound_native (make_ctx input) (in_nativeQualifications input) plan q np.
Proof.
  intros Hk H. apply planDeployment_ok in H as (Hreq & s & s' & _ & H). rewrite Hk in H.
  unfold request_errors in Hreq. rewrite Hk in Hreq. do 7 (apply app_eq_nil in Hreq as [_ Hreq]).
  apply app_eq_nil in Hreq as [Hreq _]. eapply planNative_sound; [exact Hreq|exact H].
Qed.

(** A refused deployment is always explained: whatever the request and the fleet, an error of
    [planDeployment] carries at least one reason. *)
Theorem planDeployment_refusal_explained input e :
  planDeployment re_test localeCompare input = Err e -> pe_reasons e <> [].
Proof.
  unfold planDeployment. destruct (request_errors (in_spec input)) as [|r rs]; [|by intros [= <-]].
  intros H. destruct (plan_body _ _ _ _) as [res s'] eqn:Ep. simpl in H. subst res.
  revert Ep. apply (explained_bind (reason _)); [apply explained_reason|]. intros _.
  apply explained_bind; [apply explained_reason|]. intros _.
  repeat case_match; auto using explained_native, explained_replica, explained_split.
Qed.
End sound.

(** ** Concrete fleets *)

Section demo.
Local Open Scope string_scope.


Definition demo_offer (gpu ram : Z) : Offer :=
  {| of_enabled := true; of_roles := {| ro_worker := true; ro_coordinator := true; ro_replica := true |};
     of_gpu := [{| gm_id := "g0"; gm_memMiB := gpu |}]; of_ramMiB := ram; of_cpuCores := 8;
     of_diskMiB := 1000; of_modelsDir := "/models" |}.

Definition demo_caps (engine : option EngineCaps) : Capabilities :=
  {| cap_allocationVersion := Some 1; cap_os := linux; cap_arch := x64; cap_hostname := "h";
     cap_ramMiB := 64000; cap_ramReserveMiB := 2000; cap_cpuCores := 16;
     cap_gpus := [{| gd_id := "g0"; gd_name := "gpu"; gd_backend := cuda; gd_engineName := "CUDA0";
                     gd_totalMiB := 24000; gd_freeMiB := None |}];
     cap_diskFreeMiB := 1000; cap_privateIps := []; cap_publicIp := None; cap_publicEndpoints := None;
     cap_dataPort := None; cap_cgroup := None; cap_engine := engine; cap_net := None;
     cap_bench := None; cap_measuredAt := "t" |}.

Definition demo_node (id : string) (gpu ram : Z) (models : list ModelFile) (engine : option EngineCaps) : NodeRow :=
  {| nr_id := id; nr_certFp := "fp"; nr_hostname := "host-" +:+ id; nr_os := linux; nr_online := true;
     nr_caps := Some (demo_caps engine); nr_offer := Some (demo_offer gpu ram);
     nr_models := models; nr_metrics := None |}.

Definition demo_profile (id : string) (layers : Z) : ModelProfile :=
  {| mp_id := id; mp_rank := None; mp_name := "m"; mp_modelName := "m"; mp_ggufPattern := "m.gguf";
     mp_mtpPattern := None; mp_layers := layers; mp_layerMiB := 100; mp_coordinatorHostMiB := 500;
     mp_boundaryBytes := 4096;
     mp_envelope := [{| er_workerLayers := 8; er_maxCtx := 4096; er_maxParallel := 1; er_maxChain := 0; er_maxFit := false |};
                     {| er_workerLayers := 12; er_maxCtx := 2048; er_maxParallel := 2; er_maxChain := 0; er_maxFit := true |}];
     mp_extraArgs := []; mp_workerMarginMiB := 200; mp_download := None |}.

Definition demo_spec (kind : DeploymentKind) (profile : string) (sts : option (list StageSpec)) : DeploymentSpec :=
  {| ds_name := "demo"; ds_profile := profile; ds_autoTopology := None; ds_autoModel := None; ds_kind := kind;
     ds_coordinatorNodeId := None; ds_workerNodeIds := None; ds_workerLayers := None; ds_replicaNodeId := None;
     ds_allocations := None; ds_stages := sts; ds_prefillNodeId := None; ds_decodeNodeId := None;
     ds_modelSha256 := None; ds_ctx := None; ds_parallel := None; ds_chain := None; ds_speculation := None;
     ds_wire := None; ds_batchedGets := None; ds_forwarding := None; ds_stopExternal := None;
     ds_transport := None; ds_external := None |}.

Definition demo_model : ModelFile :=
  {| mf_name := "m.gguf"; mf_path := "/models/m.gguf"; mf_sizeBytes := 1; mf_sha256 := None; mf_kind := gguf |}.

Definition demo_input (kind : DeploymentKind) : PlanInput :=
  {| in_spec := demo_spec kind "demo" None; in_profile := demo_profile "demo" 24;
     in_nodes := [demo_node "b" 1500 4000 [] None; demo_node "a" 6000 8000 [demo_model] None;
                  demo_node "c" 1400 4000 [] None];
     in_usedPorts := {[ "b" := {[50200]} ]}; in_nativeQualifications := [] |}.

Lemma demo_input_ok kind : input_ok (demo_input kind).
Proof. constructor; [apply (bool_decide_eq_true_1 _); vm_compute; reflexivity|done|done|repeat constructor; done]. Qed.

Lemma planDeployment_split_sound_witness :
  match planDeployment String.eqb String.compare (demo_input split) with
  | Ok plan => pl_tensorSplit plan = [11; 12; 1] ∧ pw_port <$> pl_workers plan = [50210; 50200] ∧
      sound_split String.eqb (make_ctx (demo_input split)) plan
  | Err _ => False
  end.
Proof.
  destruct (planDeployment String.eqb String.compare (demo_input split)) as [plan|e] eqn:E.
  - destruct (planDeployment_split_sound String.eqb String.compare (demo_input split) plan
      (demo_input_ok _) eq_refl E) as [Hs _].
    split; [|split; [|exact Hs]]; vm_compute in E; injection E as <-; reflexivity.
  - vm_compute in E. discriminate E.
Defined.

Lemma planDeployment_replica_sound_witness :
  match planDeployment String.eqb String.compare (demo_input replica) with
  | Ok plan => pl_coordinatorNodeId plan = "a" ∧
      sound_replica String.eqb (make_ctx (demo_input replica)) plan
  | Err _ => False
  end.
Proof.
  destruct (planDeployment String.eqb String.compare (demo_input replica)) as [plan|e] eqn:E.
  - split; [vm_compute in E; injection E as <-; reflexivity|].
    exact (planDeployment_replica_sound String.eqb String.compare (demo_input replica) plan
      (demo_input_ok _) eq_refl E).
  - vm_compute in E. discriminate E.
Defined.

Definition sha (a : Ascii.ascii) : string := String.concat "" (replicate 64 (String a "")).
Definition demo_shard (name : string) (d : Ascii.ascii) : ModelFile :=
  {| mf_name := name; mf_path := "/models/" +:+ name; mf_sizeBytes := 1; mf_sha256 := Some (sha d); mf_kind := gguf |}.
Definition demo_engine : option EngineCaps :=
  Some {| en_proto := "1"; en_sha256 := {[ "mesh-stage-worker" := sha "b"%char ]}; en_stages := Some (sha "e"%char) |}.
Definition demo_entry (name : string) (d : Ascii.ascii) (from to : Z) : NativeQualEndpoint :=
  {| qe_artifact := {| qa_name := name; qa_sha256 := sha d; qa_start := num_of_Z from; qa_end := num_of_Z to |};
     qe_binarySha256 := sha "b"%char |}.
Definition demo_stage (node name : string) (d : Ascii.ascii) (from to : Z) : StageSpec :=
  {| ss_nodeId := node; ss_modelPath := "/models/" +:+ name; ss_modelSha256 := sha d;
     ss_start := num_of_Z from; ss_end := num_of_Z to; ss_extra := [] |}.
Definition demo_qualification : Qwen35NativeQualification :=
  {| qn_mode := stages_mode; qn_engine := sha "e"%char; qn_sourceSha256 := sha "f"%char;
     qn_sourceSizeBytes := num_of_Z 2000000000; qn_ctx := num_of_Z 1024; qn_workspaceMiB := num_of_Z 512;
     qn_hostMiB := num_of_Z 1024; qn_evidenceSha256 := sha "d"%char;
     qn_endpoints := [demo_entry "s0.gguf" "0"%char 0 12; demo_entry "s1.gguf" "1"%char 12 24] |}.
Definition demo_native : PlanInput :=
  {| in_spec := demo_spec stages "qwen35-2b-q8"
       (Some [demo_stage "a" "s0.gguf" "0"%char 0 12; demo_stage "b" "s1.gguf" "1"%char 12 24]);
     in_profile := demo_profile "qwen35-2b-q8" 24;
     in_nodes := [demo_node "a" 4000 4000 [demo_shard "s0.gguf" "0"%char] demo_engine;
                  demo_node "b" 4000 4000 [demo_shard "s1.gguf" "1"%char] demo_engine];
     in_usedPorts := ∅; in_nativeQualifications := [demo_qualification] |}.

Lemma planDeployment_native_sound_witness :
  match planDeployment String.eqb String.compare demo_native with
  | Ok plan => pl_coordinatorNodeId plan = "a" ∧
      exists q np, sound_native (make_ctx demo_native) [demo_qualification] plan q np
  | Err _ => False
  end.
Proof.
  destruct (planDeployment String.eqb String.compare demo_native) as [plan|e] eqn:E.
  - split; [vm_compute in E; injection E as <-; reflexivity|].
    exact (planDeployment_native_sound String.eqb String.compare demo_native plan eq_refl E).
  - vm_compute in E. discriminate E.
Defined.

Lemma planDeployment_refusal_explained_witness :
  match planDeployment String.eqb String.compare (demo_input stages) with
  | Ok _ => False
  | Err e => pe_reasons e <> []
  end.
Proof.
  destruct (planDeployment String.eqb String.compare (demo_input stages)) as [plan|e] eqn:E.
  - vm_compute in E. discriminate E.
  - exact (planDeployment_refusal_explained String.eqb String.compare (demo_input stages) e E).
Defined.

(** The layer count of a max-fit row is not a floor for each worker.  On a fleet whose two
    workers fit 13 and 12 layers of a 24-layer model, the planner takes the max-fit row of 12 layers
    per worker and then shaves the larger worker to 11 so that the coordinator keeps one layer. *)
Theorem maxFit_row_is_not_a_floor :
  exists plan row w, planDeployment String.eqb String.compare (demo_input split) = Ok plan ∧
    row ∈ mp_envelope (in_profile (demo_input split)) ∧ er_maxFit row = true ∧
    A_row row [] ∈ pl_reasons plan ∧ w ∈ pl_workers plan ∧ pw_layers w < er_workerLayers row.
Proof.
  destruct (planDeployment String.eqb String.compare (demo_input split)) as [plan|e] eqn:E;
    vm_compute in E; [|discriminate E]. injection E as <-.
  eexists _, {| er_workerLayers := 12; er_maxCtx := 2048; er_maxParallel := 2; er_maxChain := 0; er_maxFit := true |}, _.
  split_and!; [reflexivity|..].
  - right. left.
  - reflexivity.
  - simpl. do 6 right. left.
  - simpl. left.
  - done.
Qed.
End demo.
