(* ===== verification/Resources.v ===== *)
(** * Capacity ledger (swarmlet/control/resources.ts)

    Shared capacity for admission, previews and runtime assignments.  A ledger maps node ids to
    what is reserved there.  [Map] insertion order is never observed, so a ledger is a [gmap];
    [addAllocations] copies the GPU entries it inserts, so no entry is aliased with its argument. *)

From S2P Require Import Prelude JsNum Json Types Validate PhasePlan Planner.

Record Deployment := {
  dep_id : string; dep_spec : DeploymentSpec; dep_savedDistribution : option LayerDistribution;
  dep_state : DeploymentState; dep_plan : option Plan;
  dep_endpoint : option (string * Z * string); dep_error : option string;
  (** milliseconds of the ISO texts *)
  dep_createdAt : Z; dep_updatedAt : Z }.

Abbreviation ResourceLedger := (gmap string NodeAllocation).

Definition emptyAllocation (nodeId : string) : NodeAllocation :=
  {| na_nodeId := nodeId; na_ramMiB := 0; na_cpuCores := 0; na_gpu := [] |}.

(** [existing.memMiB += gpu.memMiB] on the first entry with the id, or a push. *)
Fixpoint add_gpu (l : list GpuMem) (g : GpuMem) : list GpuMem :=
  match l with
  | [] => [g]
  | e :: l =>
      if bool_decide (gm_id e = gm_id g)
      then {| gm_id := gm_id e; gm_memMiB := gm_memMiB e + gm_memMiB g |} :: l
      else e :: add_gpu l g
  end.

Definition add_allocation (ledger : ResourceLedger) (value : NodeAllocation) : ResourceLedger :=
  let current := default (emptyAllocation (na_nodeId value)) (ledger !! na_nodeId value) in
  <[na_nodeId value :=
     {| na_nodeId := na_nodeId current;
        na_ramMiB := na_ramMiB current + na_ramMiB value;
        na_cpuCores := na_cpuCores current + na_cpuCores value;
        na_gpu := foldl add_gpu (na_gpu current) (na_gpu value) |}]> ledger.

Definition addAllocations (ledger : ResourceLedger) (values : list NodeAllocation) : ResourceLedger :=
  foldl add_allocation ledger values.

Definition offeredAllocation (node : NodeRow) : NodeAllocation :=
  match nr_offer node with
  | Some o => {| na_nodeId := nr_id node; na_ramMiB := of_ramMiB o; na_cpuCores := of_cpuCores o; na_gpu := of_gpu o |}
  | None => emptyAllocation (nr_id node)
  end.

Definition endpoint_node (e : NativeStageWorkerPlan) : string := se_nodeId (sw_endpoint e).

Definition planNodeIds (plan : Plan) : list string :=
  match pl_nativeExecution plan with
  | Some np => dedup (endpoint_node <$> np_endpoints np)
  | None => pl_coordinatorNodeId plan :: (pw_nodeId <$> pl_workers plan)
  end.

Definition healthWatch (row : AssignmentRow) : bool :=
  match ar_body row with AReplica a => match ra_external a with Some _ => true | None => false end | _ => false end.

(** [new Map(nodes.map(n => [n.id, n])).get(id)]: the last row of an id. *)
Definition by_id (nodes : list NodeRow) (id : string) : option NodeRow :=
  find (fun n => bool_decide (nr_id n = id)) (reverse nodes).

(** Rows whose process may still hold memory. *)
Definition live_row (row : AssignmentRow) : bool :=
  negb (bool_decide (ar_state row = Some a_stopped)) && negb (healthWatch row).

Definition active_state (s : DeploymentState) : bool :=
  match s with placing | loading | ready | draining => true | _ => false end.

(** [for (const id of ids) { const n = byId.get(id); if (n) addAllocations(ledger, [offeredAllocation(n)]) }] *)
Definition charge_offers (nodes : list NodeRow) (ledger : ResourceLedger) (ids : list string) : ResourceLedger :=
  foldl (fun l id => match by_id nodes id with Some n => addAllocations l [offeredAllocation n] | None => l end)
    ledger ids.

Definition charge_deployment (assignments : list AssignmentRow) (nodes : list NodeRow) (exclude : gset string)
    (ledger : ResourceLedger) (dep : Deployment) : ResourceLedger :=
  if bool_decide (dep_id dep ∈ exclude) || bool_decide (ds_kind (dep_spec dep) = external) then ledger
  else
    let rows := List.filter (fun r => live_row r && bool_decide (ar_deploymentId r = dep_id dep)) assignments in
    let active := active_state (dep_state dep) in
    if negb active && bool_decide (rows = []) then ledger
    else
      match dep_plan dep ≫= pl_allocations with
      | Some allocations =>
          let planned := na_nodeId <$> allocations in
          charge_offers nodes (addAllocations ledger allocations)
            (dedup (ar_nodeId <$> List.filter (fun r => negb (bool_decide (ar_nodeId r ∈ planned))) rows))
      | None =>
          charge_offers nodes ledger
            (dedup ((ar_nodeId <$> rows) ++
                    match dep_plan dep with Some p => if active then planNodeIds p else [] | None => [] end))
      end.

(** The ids of [live], in insertion order. *)
Definition live_ids (assignments : list AssignmentRow) : list string :=
  dedup (ar_deploymentId <$> List.filter live_row assignments).

Definition charge_orphan (assignments : list AssignmentRow) (nodes : list NodeRow) (known : list string)
    (exclude : gset string) (ledger : ResourceLedger) (id : string) : ResourceLedger :=
  if bool_decide (id ∈ known) || bool_decide (id ∈ exclude) then ledger
  else charge_offers nodes ledger
    (dedup (ar_nodeId <$> List.filter (fun r => live_row r && bool_decide (ar_deploymentId r = id)) assignments)).

Definition reservedResources (deployments : list Deployment) (assignments : list AssignmentRow)
    (nodes : list NodeRow) (exclude : gset string) : ResourceLedger :=
  let l1 := foldl (charge_deployment assignments nodes exclude) ∅ deployments in
  foldl (charge_orphan assignments nodes (dep_id <$> deployments) exclude) l1 (live_ids assignments).

(** ** Remaining capacity *)

(** [used.gpu.find(v => v.id === id)?.memMiB ?? 0] *)
Definition gpu_mem (l : list GpuMem) (id : string) : Z :=
  match find (fun g => bool_decide (gm_id g = id)) l with Some g => gm_memMiB g | None => 0 end.

Definition used_on (reserved : ResourceLedger) (id : string) : NodeAllocation :=
  default (emptyAllocation id) (reserved !! id).

Definition keep_gpus (caps : Capabilities) (gpu : list GpuMem) : Capabilities :=
  {| cap_allocationVersion := cap_allocationVersion caps; cap_os := cap_os caps; cap_arch := cap_arch caps;
     cap_hostname := cap_hostname caps; cap_ramMiB := cap_ramMiB caps; cap_ramReserveMiB := cap_ramReserveMiB caps;
     cap_cpuCores := cap_cpuCores caps;
     cap_gpus := List.filter (fun g => existsb (fun v => bool_decide (gm_id v = gd_id g)) gpu) (cap_gpus caps);
     cap_diskFreeMiB := cap_diskFreeMiB caps; cap_privateIps := cap_privateIps caps; cap_publicIp := cap_publicIp caps;
     cap_publicEndpoints := cap_publicEndpoints caps; cap_dataPort := cap_dataPort caps; cap_cgroup := cap_cgroup caps;
     cap_engine := cap_engine caps; cap_net := cap_net caps; cap_bench := cap_bench caps;
     cap_measuredAt := cap_measuredAt caps |}.

Definition with_offer (node : NodeRow) (online : bool) (offer : Offer) : NodeRow :=
  {| nr_id := nr_id node; nr_certFp := nr_certFp node; nr_hostname := nr_hostname node; nr_os := nr_os node;
     nr_online := online; nr_caps := (fun c => keep_gpus c (of_gpu offer)) <$> nr_caps node;
     nr_offer := Some offer; nr_models := nr_models node; nr_metrics := nr_metrics node |}.

Definition available_offer (o : Offer) (used : NodeAllocation) : Offer :=
  let ram := Z.max 0 (of_ramMiB o - na_ramMiB used) in
  let cores := Z.max 0 (of_cpuCores o - na_cpuCores used) in
  {| of_enabled := of_enabled o && (0 <? ram) && (1 <=? cores); of_roles := of_roles o;
     of_gpu := List.filter (fun g => 0 <? gm_memMiB g)
       ((fun g => {| gm_id := gm_id g; gm_memMiB := Z.max 0 (gm_memMiB g - gpu_mem (na_gpu used) (gm_id g)) |})
          <$> of_gpu o);
     of_ramMiB := ram; of_cpuCores := cores; of_diskMiB := of_diskMiB o; of_modelsDir := of_modelsDir o |}.

Definition available_node (reserved : ResourceLedger) (node : NodeRow) : NodeRow :=
  match nr_offer node with
  | None => node
  | Some o => with_offer node (nr_online node) (available_offer o (used_on reserved (nr_id node)))
  end.
Definition availableNodes (nodes : list NodeRow) (reserved : ResourceLedger) : list NodeRow :=
  available_node reserved <$> nodes.

(** ** Explicit budgets *)

Inductive ResourceError :=
  | RE_count | RE_entry | RE_gpu
  | RE_offline (host : string)
  | RE_budget (host : string) (ramMiB cpuCores haveRam haveCpu : Z)
  | RE_gpu_budget (host id : string) (need free : Z)
  | RE_unknown_node (id : string) | RE_old_agent (host : string)
  | RE_not_exact | RE_below_minimum (host : string)
  | RE_undefined  (** a property read of [undefined] *)
  | RE_plan (e : PlanError).

(** [Number.isSafeInteger(v) && v >= 1] *)
Definition safe_pos (v : option json) : option Z :=
  n ← as_num v; z ← as_safe_int n; if 1 <=? z then Some z else None.

(** [typeof v === 'string' && v] *)
Definition nonempty_str (v : option json) : option string :=
  as_str v ≫= fun s => if bool_decide (s = ""%string) then None else Some s.

Fixpoint parse_gpus (seen : list string) (l : list json) : result ResourceError (list GpuMem) :=
  match l with
  | [] => Ok []
  | g :: l =>
      match as_obj (Some g) with
      | None => Err RE_gpu
      | Some o =>
          match only o ["id"; "memMiB"]%string, nonempty_str (jget o "id"), safe_pos (jget o "memMiB") with
          | true, Some id, Some mem =>
              if bool_decide (id ∈ seen) then Err RE_gpu
              else gs ← parse_gpus (id :: seen) l; Ok ({| gm_id := id; gm_memMiB := mem |} :: gs)
          | _, _, _ => Err RE_gpu
          end
      end
  end.

Fixpoint parse_entries (seen : list string) (l : list json) : result ResourceError (list NodeAllocation) :=
  match l with
  | [] => Ok []
  | a :: l =>
      match as_obj (Some a) with
      | None => Err RE_entry
      | Some o =>
          match only o ["nodeId"; "ramMiB"; "cpuCores"; "gpu"]%string, nonempty_str (jget o "nodeId"),
                safe_pos (jget o "ramMiB"), safe_pos (jget o "cpuCores"), as_arr (jget o "gpu") with
          | true, Some id, Some ram, Some cores, Some gpus =>
              if bool_decide (id ∈ seen) || (64 <? length gpus)%nat then Err RE_entry
              else
                gpu ← parse_gpus [] gpus;
                rest ← parse_entries (id :: seen) l;
                Ok ({| na_nodeId := id; na_ramMiB := ram; na_cpuCores := cores; na_gpu := gpu |} :: rest)
          | _, _, _, _, _ => Err RE_entry
          end
      end
  end.

Definition parseAllocations (value : json) : result ResourceError (list NodeAllocation) :=
  match value with
  | JArr l => if (length l =? 0)%nat || (1000 <? length l)%nat then Err RE_count else parse_entries [] l
  | _ => Err RE_count
  end.

Definition assertFits (allocation : NodeAllocation) (node : NodeRow) : result ResourceError unit :=
  match nr_online node, nr_offer node with
  | true, Some offer =>
      if negb (of_enabled offer) then Err (RE_offline (nr_hostname node))
      else if (of_ramMiB offer <? na_ramMiB allocation) || (of_cpuCores offer <? na_cpuCores allocation)
      then Err (RE_budget (nr_hostname node) (na_ramMiB allocation) (na_cpuCores allocation) (of_ramMiB offer) (of_cpuCores offer))
      else
        match find (fun g => gpu_mem (of_gpu offer) (gm_id g) <? gm_memMiB g) (na_gpu allocation) with
        | Some g => Err (RE_gpu_budget (nr_hostname node) (gm_id g) (gm_memMiB g) (gpu_mem (of_gpu offer) (gm_id g)))
        | None => Ok tt
        end
  | _, _ => Err (RE_offline (nr_hostname node))
  end.

(** The admission minimum of one plan node. *)
Definition minimum_of (plan : Plan) (profile : ModelProfile) (n : NodeRow) (id : string) : NodeAllocation :=
  let worker := find (fun w => bool_decide (pw_nodeId w = id)) (pl_workers plan) in
  let layers := match worker with
    | Some w => pw_layers w
    | None => match pl_workers plan with [] => mp_layers profile | _ => default 0 (last (pl_tensorSplit plan)) end
    end in
  let device := match worker with Some w => pw_device w | None => pl_coordinatorDevice plan end in
  let gpu := find (fun g => bool_decide (gd_engineName g = device)) (caps_gpus n) in
  let draft := match worker, pl_mtpPath plan with
    | None, Some path =>
        if bool_decide (path = ""%string) then 0
        else match find (fun f => bool_decide (mf_path f = path)) (nr_models n) with
             | Some f => ceil_div (mf_sizeBytes f) 1048576 | None => 0 end
    | _, _ => 0
    end in
  let resident := layers * mp_layerMiB profile + draft in
  let gpuMiB := match gpu with Some _ => resident + mp_workerMarginMiB profile | None => 0 end in
  let ramMiB := match worker with
    | Some _ => Z.max 1024 gpuMiB
    | None => (if bool_decide (nr_os n = darwin) || bool_decide (gpu = None) then resident
               else Z.max resident (mp_coordinatorHostMiB profile)) + mp_coordinatorHostMiB profile
    end in
  {| na_nodeId := id; na_ramMiB := ramMiB; na_cpuCores := 1;
     na_gpu := match gpu with Some g => [{| gm_id := gd_id g; gm_memMiB := gpuMiB |}] | None => [] end |}.

Definition node_or_undefined (nodes : list NodeRow) (id : string) : result ResourceError NodeRow :=
  match by_id nodes id with Some n => Ok n | None => Err RE_undefined end.

Definition minimumAllocations (plan : Plan) (profile : ModelProfile) (nodes : list NodeRow)
    : result ResourceError (list NodeAllocation) :=
  match pl_nativeExecution plan with
  | Some np =>
      mapM_result (fun e =>
        n ← node_or_undefined nodes (endpoint_node e);
        Ok {| na_nodeId := endpoint_node e; na_ramMiB := sw_enforce_ramMiB e; na_cpuCores := sw_enforce_cpuCores e;
              na_gpu := na_gpu (offeredAllocation n) |}) (np_endpoints np)
  | None =>
      mapM_result (fun id => n ← node_or_undefined nodes id; Ok (minimum_of plan profile n id)) (planNodeIds plan)
  end.

(** ** Planning within what remains *)

Fixpoint check_explicit (available : list NodeRow) (l : list NodeAllocation) : result ResourceError unit :=
  match l with
  | [] => Ok tt
  | a :: l =>
      match by_id available (na_nodeId a) with
      | None => Err (RE_unknown_node (na_nodeId a))
      | Some n =>
          if bool_decide ((nr_caps n ≫= cap_allocationVersion) = Some 1)
          then _ ← assertFits a n; check_explicit available l
          else Err (RE_old_agent (nr_hostname n))
      end
  end.

Definition allocation_of (explicit : list NodeAllocation) (id : string) : option NodeAllocation :=
  find (fun a => bool_decide (na_nodeId a = id)) explicit.

Definition offline (n : NodeRow) : NodeRow :=
  {| nr_id := nr_id n; nr_certFp := nr_certFp n; nr_hostname := nr_hostname n; nr_os := nr_os n; nr_online := false;
     nr_caps := nr_caps n; nr_offer := nr_offer n; nr_models := nr_models n; nr_metrics := nr_metrics n |}.

(** The node as the planner sees it under an explicit budget. *)
Definition bound_node (explicit : list NodeAllocation) (n : NodeRow) : NodeRow :=
  match allocation_of explicit (nr_id n), nr_offer n with
  | Some a, Some o =>
      with_offer n (nr_online n)
        {| of_enabled := of_enabled o; of_roles := of_roles o; of_gpu := na_gpu a; of_ramMiB := na_ramMiB a;
           of_cpuCores := na_cpuCores a; of_diskMiB := of_diskMiB o; of_modelsDir := of_modelsDir o |}
  | _, _ => offline n
  end.

Definition below_minimum (a minimum : NodeAllocation) : bool :=
  (na_ramMiB a <? na_ramMiB minimum) ||
  existsb (fun g => gpu_mem (na_gpu a) (gm_id g) <? gm_memMiB g) (na_gpu minimum).

Fixpoint check_minimums (available : list NodeRow) (explicit minimums : list NodeAllocation) : result ResourceError unit :=
  match minimums with
  | [] => Ok tt
  | m :: ms =>
      match allocation_of explicit (na_nodeId m) with
      | None => Err RE_undefined
      | Some a =>
          if below_minimum a m then
            n ← node_or_undefined available (na_nodeId a); Err (RE_below_minimum (nr_hostname n))
          else check_minimums available explicit ms
      end
  end.

Definition with_allocations (plan : Plan) (allocations : list NodeAllocation) (fleet : bool) : Plan :=
  {| pl_coordinatorNodeId := pl_coordinatorNodeId plan; pl_coordinatorDevice := pl_coordinatorDevice plan;
     pl_workers := pl_workers plan; pl_tensorSplit := pl_tensorSplit plan;
     pl_engineTensorSplit := pl_engineTensorSplit plan; pl_ctx := pl_ctx plan; pl_parallel := pl_parallel plan;
     pl_chain := pl_chain plan; pl_speculation := pl_speculation plan; pl_env := pl_env plan;
     pl_modelPath := pl_modelPath plan; pl_mtpPath := pl_mtpPath plan; pl_nativeExecution := pl_nativeExecution plan;
     pl_reasons := pl_reasons plan ++ (if fleet then [A_fleet_budgets] else []);
     pl_allocations := Some allocations |}.

(** ** Ports held by assignment rows (shared by the planners' callers) *)

Definition add_port (nodeId : string) (p : Z) (used : gmap string (gset Z)) : gmap string (gset Z) :=
  <[nodeId := {[p]} ∪ default ∅ (used !! nodeId)]> used.
Definition row_ports (r : AssignmentRow) : list Z :=
  match ar_body r with
  | AWorker a => wa_port a :: match wa_peerPort a with Some p => if p =? 0 then [] else [p] | None => [] end
  | ACoordinator a => [ca_port a]
  | AReplica a => [ra_port a]
  | AStage a => [sa_port a]
  | AStop _ => []
  end.

Section resources.
Context (re_test : string -> string -> bool).
Context (localeCompare : string -> string -> comparison).

Definition plan_in (spec : DeploymentSpec) (profile : ModelProfile) (usedPorts : gmap string (gset Z))
    (quals : list Qwen35NativeQualification) (nodes : list NodeRow) : result ResourceError Plan :=
  match planDeployment re_test localeCompare
    {| in_spec := spec; in_profile := profile; in_nodes := nodes; in_usedPorts := usedPorts;
       in_nativeQualifications := quals |} with
  | Ok p => Ok p
  | Err e => Err (RE_plan e)
  end.

Definition planWithResources (spec : DeploymentSpec) (profile : ModelProfile) (nodes : list NodeRow)
    (reserved : ResourceLedger) (usedPorts : gmap string (gset Z)) (quals : list Qwen35NativeQualification)
    : result ResourceError Plan :=
  let available := availableNodes nodes reserved in
  match ds_allocations spec with
  | Some value =>
      explicit ← parseAllocations value;
      _ ← check_explicit available explicit;
      let bounded := bound_node explicit <$> available in
      plan ← plan_in spec profile usedPorts quals bounded;
      let ids := dedup (planNodeIds plan) in
      if negb (length ids =? length explicit)%nat || existsb (fun a => negb (bool_decide (na_nodeId a ∈ ids))) explicit
      then Err RE_not_exact
      else
        minimums ← minimumAllocations plan profile bounded;
        _ ← check_minimums available explicit minimums;
        Ok (with_allocations plan explicit true)
  | None =>
      plan ← plan_in spec profile usedPorts quals available;
      allocations ← mapM_result (fun id => n ← node_or_undefined available id; Ok (offeredAllocation n))
        (dedup (planNodeIds plan));
      Ok (with_allocations plan allocations false)
  end.
End resources.
