(* ===== verification/Fleet.v ===== *)
(** * Fleet placement (swarmlet/control/fleet.ts)

    [previewFleet] places several deployments at once: for each CPU-sharing budget it walks the
    selected deployments in a fixed order, tries a bounded list of candidate placements for each
    through [planWithResources], charges the cheapest to a ledger and finally keeps the budget
    that placed most deployments, the cheaper one among equals.  Scores are binary64.
    [Math_pow] is the host's [Math.pow] (the standard leaves its precision open), [Date_parse] its
    [Date.parse], and [show_failure] the text of a caught error. *)

From S2P Require Import Prelude JsNum Json Types Validate PhasePlan Planner Resources.

(** ** Requests *)

(** [fp_keys] lists the object's own keys in insertion order: a placement is compared as JSON text. *)
Record FleetPlacement := {
  fp_kind : DeploymentKind; fp_replicaNodeId : option string; fp_coordinatorNodeId : option string;
  fp_workerNodeIds : option (list string); fp_workerLayers : option (list num); fp_keys : list string }.

Inductive FleetMode := balanced | keep | manual.
#[export] Instance FleetMode_eq : EqDecision FleetMode.
Proof. solve_decision. Defined.

Record FleetItem := {
  fi_deploymentId : string; fi_mode : FleetMode; fi_cpuCores : option Z; fi_placement : option FleetPlacement }.
Record FleetRequest := { fq_items : list FleetItem; fq_poolNodeIds : list string }.

Inductive FleetRequestError :=
  | FQ_shape | FQ_sizes | FQ_selection | FQ_cpu | FQ_settings | FQ_replica | FQ_split | FQ_layers | FQ_override.

Definition keys_in (o : fields) (allowed : list string) : bool :=
  forallb (fun k => bool_decide (k ∈ allowed)) (keys o).

Definition fleet_id (v : option json) : option string :=
  s ← as_str v; if (0 <? String.length s)%nat && (String.length s <=? 128)%nat then Some s else None.

(** An array of [id]s without repetition. *)
Definition distinct_ids (limit : nat) (v : option json) : option (list string) :=
  l ← as_arr v; ids ← mapM (fun j => fleet_id (Some j)) l;
  if bool_decide (l = [] ) || (limit <? length l)%nat || negb (bool_decide (NoDup ids)) then None else Some ids.

Definition parse_mode (v : option json) : option FleetMode :=
  s ← as_str v;
  if String.eqb s "balanced" then Some balanced else if String.eqb s "keep" then Some keep
  else if String.eqb s "manual" then Some manual else None.

(** [Number.isSafeInteger(n) && n >= 1] *)
Definition layer_count (v : json) : option num :=
  n ← as_num (Some v); z ← as_safe_int n; if 1 <=? z then Some n else None.

Definition PLACEMENT_KEYS : list string :=
  ["kind"; "replicaNodeId"; "coordinatorNodeId"; "workerNodeIds"; "workerLayers"]%string.

Definition placement_kind (v : option json) : option DeploymentKind :=
  s ← as_str v;
  if String.eqb s "replica" then Some replica else if String.eqb s "split" then Some split else None.

Definition parse_split_layers (p : fields) (ids : list string) : result FleetRequestError (option (list num)) :=
  match jget p "workerLayers" with
  | None => Ok None
  | Some (JArr l) =>
      match mapM layer_count l with
      | Some ls => if (length l =? length ids)%nat then Ok (Some ls) else Err FQ_layers
      | None => Err FQ_layers
      end
  | Some _ => Err FQ_layers
  end.

Definition parse_placement (v : option json) : result FleetRequestError FleetPlacement :=
  match as_obj v with
  | None => Err FQ_settings
  | Some p =>
      match keys_in p PLACEMENT_KEYS, placement_kind (jget p "kind") with
      | true, Some replica =>
          match fleet_id (jget p "replicaNodeId"), jget p "coordinatorNodeId", jget p "workerNodeIds", jget p "workerLayers" with
          | Some n, None, None, None =>
              Ok {| fp_kind := replica; fp_replicaNodeId := Some n; fp_coordinatorNodeId := None;
                    fp_workerNodeIds := None; fp_workerLayers := None; fp_keys := keys p |}
          | _, _, _, _ => Err FQ_replica
          end
      | true, Some _ =>
          match fleet_id (jget p "coordinatorNodeId"), jget p "replicaNodeId", distinct_ids 1000 (jget p "workerNodeIds") with
          | Some c, None, Some ids =>
              layers ← parse_split_layers p ids;
              Ok {| fp_kind := split; fp_replicaNodeId := None; fp_coordinatorNodeId := Some c;
                    fp_workerNodeIds := Some ids; fp_workerLayers := layers; fp_keys := keys p |}
          | _, _, _ => Err FQ_split
          end
      | _, _ => Err FQ_settings
      end
  end.

Definition parse_cpu (v : option json) : result FleetRequestError (option Z) :=
  match v with
  | None => Ok None
  | Some _ =>
      match safe_pos v with
      | Some z => if 65536 <? z then Err FQ_cpu else Ok (Some z)
      | None => Err FQ_cpu
      end
  end.

Fixpoint parse_items (seen : list string) (l : list json) : result FleetRequestError (list FleetItem) :=
  match l with
  | [] => Ok []
  | j :: l =>
      match as_obj (Some j) with
      | None => Err FQ_selection
      | Some o =>
          match keys_in o ["deploymentId"; "mode"; "cpuCores"; "placement"]%string, fleet_id (jget o "deploymentId"),
                parse_mode (jget o "mode") with
          | true, Some id, Some mode =>
              if bool_decide (id ∈ seen) then Err FQ_selection
              else
                cpu ← parse_cpu (jget o "cpuCores");
                placement ←
                  (if bool_decide (mode = manual) then p ← parse_placement (jget o "placement"); Ok (Some p)
                   else match jget o "placement" with None => Ok None | Some _ => Err FQ_override end);
                rest ← parse_items (id :: seen) l;
                Ok ({| fi_deploymentId := id; fi_mode := mode; fi_cpuCores := cpu; fi_placement := placement |} :: rest)
          | _, _, _ => Err FQ_selection
          end
      end
  end.

Definition parseFleetRequest (value : json) : result FleetRequestError FleetRequest :=
  match as_obj (Some value) with
  | None => Err FQ_shape
  | Some v =>
      if keys_in v ["items"; "poolNodeIds"]%string then
        match as_arr (jget v "items"), distinct_ids 2000 (jget v "poolNodeIds") with
        | Some items, Some pool =>
            if bool_decide (items = []) || (500 <? length items)%nat then Err FQ_sizes
            else parsed ← parse_items [] items; Ok {| fq_items := parsed; fq_poolNodeIds := pool |}
        | _, _ => Err FQ_sizes
        end
      else Err FQ_shape
  end.

(** ** Placements of deployments *)

(** A replica on a node, a split over a coordinator and workers. *)
Definition replica_placement (node : option string) : FleetPlacement :=
  {| fp_kind := replica; fp_replicaNodeId := node; fp_coordinatorNodeId := None; fp_workerNodeIds := None;
     fp_workerLayers := None; fp_keys := ["kind"; "replicaNodeId"]%string |}.
Definition split_placement (coordinator : option string) (workers : option (list string)) (layers : option (list num))
    : FleetPlacement :=
  {| fp_kind := split; fp_replicaNodeId := None; fp_coordinatorNodeId := coordinator; fp_workerNodeIds := workers;
     fp_workerLayers := layers;
     fp_keys := ["kind"; "coordinatorNodeId"; "workerNodeIds"] ++
                (if layers then ["workerLayers"] else []) |}%string.

Definition currentPlacement (dep : Deployment) : FleetPlacement :=
  let spec := dep_spec dep in
  if bool_decide (ds_kind spec = replica)
  then replica_placement (match dep_plan dep with Some p => Some (pl_coordinatorNodeId p) | None => ds_replicaNodeId spec end)
  else split_placement
    (match dep_plan dep with Some p => Some (pl_coordinatorNodeId p) | None => ds_coordinatorNodeId spec end)
    (match dep_plan dep with Some p => Some (pw_nodeId <$> pl_workers p) | None => ds_workerNodeIds spec end)
    (ds_workerLayers spec).

(** [{ ...rest, ...placement }] and, later, [spec.allocations = ..]. *)
Definition placed_spec (base : DeploymentSpec) (p : FleetPlacement) (allocations : option json) : DeploymentSpec :=
  {| ds_name := ds_name base; ds_profile := ds_profile base; ds_autoTopology := ds_autoTopology base;
     ds_autoModel := ds_autoModel base; ds_kind := fp_kind p;
     ds_coordinatorNodeId := fp_coordinatorNodeId p; ds_workerNodeIds := fp_workerNodeIds p;
     ds_workerLayers := fp_workerLayers p; ds_replicaNodeId := fp_replicaNodeId p; ds_allocations := allocations;
     ds_stages := ds_stages base; ds_prefillNodeId := ds_prefillNodeId base; ds_decodeNodeId := ds_decodeNodeId base;
     ds_modelSha256 := ds_modelSha256 base; ds_ctx := ds_ctx base; ds_parallel := ds_parallel base;
     ds_chain := ds_chain base; ds_speculation := ds_speculation base; ds_wire := ds_wire base;
     ds_batchedGets := ds_batchedGets base; ds_forwarding := ds_forwarding base;
     ds_stopExternal := ds_stopExternal base; ds_transport := ds_transport base; ds_external := ds_external base |}.
Definition placementSpec (base : DeploymentSpec) (p : FleetPlacement) : DeploymentSpec := placed_spec base p None.

(** Equality of two numbers' JSON texts. *)
Definition same_number (a b : num) : bool := num_eqb a b || (negb (isFinite a) && negb (isFinite b)).
Definition same_list (a b : list num) : bool :=
  (length a =? length b)%nat && forallb (fun ab => same_number ab.1 ab.2) (zip a b).

(** The keys [JSON.stringify] prints: those whose value is not [undefined]. *)
Definition printed_keys (p : FleetPlacement) : list string :=
  List.filter (fun k =>
    if String.eqb k "replicaNodeId" then present (fp_replicaNodeId p)
    else if String.eqb k "coordinatorNodeId" then present (fp_coordinatorNodeId p)
    else if String.eqb k "workerNodeIds" then present (fp_workerNodeIds p)
    else if String.eqb k "workerLayers" then present (fp_workerLayers p) else true) (fp_keys p).

(** [JSON.stringify(a) === JSON.stringify(b)] *)
Definition same_placement (a b : FleetPlacement) : bool :=
  bool_decide (printed_keys a = printed_keys b) && bool_decide (fp_kind a = fp_kind b) &&
  bool_decide (fp_replicaNodeId a = fp_replicaNodeId b) && bool_decide (fp_coordinatorNodeId a = fp_coordinatorNodeId b) &&
  bool_decide (fp_workerNodeIds a = fp_workerNodeIds b) &&
  match fp_workerLayers a, fp_workerLayers b with
  | None, None => true
  | Some x, Some y => same_list x y
  | _, _ => false
  end.

(** ** Results *)

Inductive MemoryError :=
  | ME_gpu (host gpu : string) (need : Z) (available : num)
  | ME_ram (host : string) (need : Z) (available : num).

(** What a candidate's evaluation, or the preview itself, throws. *)
Inductive FleetFailure :=
  | FF_unknown_deployment (id : string) | FF_unknown_node (id : string)
  | FF_pool | FF_undefined | FF_resources (e : ResourceError) | FF_memory (l : list MemoryError).

Inductive FleetReason :=
  | FR_hops (n : nat) | FR_whole | FR_budget (cores : Z) (nodes : nat)
  | FR_rtt (ms : num) | FR_rtt_unknown | FR_shares | FR_avoids.

Inductive FleetEntryError := FE_kind | FE_stopExternal | FE_failures (text : string) | FE_none.

Record FleetWinner := {
  fw_spec : DeploymentSpec; fw_plan : Plan; fw_score : num; fw_networkRttMs : option num; fw_reasons : list FleetReason }.

(** [fe_winner] holds the properties [Object.assign(entry, winner)] adds. *)
Record FleetEntry := {
  fe_deploymentId : string; fe_name : string; fe_before : FleetPlacement;
  fe_winner : option FleetWinner; fe_error : option FleetEntryError }.

Definition fe_plan (e : FleetEntry) : option Plan := fw_plan <$> fe_winner e.

Record FleetInput := {
  fin_nodes : list NodeRow; fin_deployments : list Deployment; fin_assignments : list AssignmentRow;
  (** a [Map] in insertion order *)
  fin_profiles : list (string * ModelProfile);
  fin_now : num }.

Inductive FleetWarning := FW_estimates | FW_memory (e : MemoryError) | FW_excluded.

Record FleetPreview := {
  fv_revision : string; fv_entries : list FleetEntry; fv_canApply : bool; fv_plannedCount : nat;
  fv_selectedCount : nat; fv_allocations : ResourceLedger; fv_warnings : list FleetWarning;
  fv_evaluatedCandidates : nat }.

Inductive Phase := q_queued | q_stopping | q_starting | q_ready | q_failed.
#[export] Instance Phase_eq : EqDecision Phase.
Proof. solve_decision. Defined.
Inductive RunStatus := s_preview | s_applying | s_succeeded | s_partial | s_interrupted.
#[export] Instance RunStatus_eq : EqDecision RunStatus.
Proof. solve_decision. Defined.

(** An entry of a run: as previewed, with its phase and the error of applying it. *)
Record RunEntry := { re_entry : FleetEntry; re_phase : option Phase; re_error : option string }.
(** The entries of [fr_preview] are those the run started with. *)
Record FleetRun := {
  fr_id : string; fr_request : FleetRequest; fr_createdAt : Z; fr_updatedAt : Z; fr_status : RunStatus;
  fr_error : option string; fr_preview : FleetPreview; fr_entries : list RunEntry }.

(** What [fleetRevision] hashes of a node: identity, offer, and the lasting capabilities and files. *)
Record RevisionCaps := {
  rc_allocationVersion : option Z; rc_os : Os; rc_gpus : list (string * string * Z); rc_engine : option EngineCaps }.
Record RevisionNode := {
  rn_id : string; rn_online : bool; rn_offer : option Offer; rn_caps : option RevisionCaps;
  rn_models : list (string * Z * option string) }.
Record RevisionDeployment := {
  rd_id : string; rd_spec : DeploymentSpec; rd_state : DeploymentState; rd_plan : option Plan;
  rd_savedDistribution : option LayerDistribution }.
Record RevisionRow := {
  rr_id : string; rr_nodeId : string; rr_deploymentId : string; rr_retired : bool; rr_body : Assignment }.
Record RevisionBody := {
  rv_nodes : list RevisionNode; rv_deployments : list RevisionDeployment; rv_assignments : list RevisionRow;
  rv_profiles : list ModelProfile }.

(** ** Helpers *)

(** Falls through [a || b] on comparator values: 0 (and NaN) are falsy. *)
Definition or_num (a b : num) : num := if truthy_num a then a else b.
(** A comparator's test for [Array.prototype.sort]: NaN counts as 0. *)
Definition not_after (c : num) : bool := negb (num_ltb num_zero c).

(** [Math.ceil] of a finite number. *)
Definition ceil_Z (x : num) : Z := match floor_Z (num_opp x) with Some z => - z | None => 0 end.
Definition num_11 : num := num_div (num_of_Z 11) (num_of_Z 10).
Definition num_12 : num := num_div (num_of_Z 12) (num_of_Z 10).
(** [Math.ceil(v / 64) * 64] *)
Definition round64 (v : num) : Z := ceil_Z (num_div v (num_of_Z 64)) * 64.

Definition gpuMemory (n : NodeRow) : Z :=
  foldr Z.max 0 (match nr_offer n with Some o => gm_memMiB <$> of_gpu o | None => [] end).

(** [for (const w of plan.workers) ..] *)
Definition occupyPorts (ports : gmap string (gset Z)) (plan : Plan) : gmap string (gset Z) :=
  foldl (fun ports w =>
    let ports := add_port (pw_nodeId w) (pw_port w) ports in
    match pw_peerPort w with Some p => if p =? 0 then ports else add_port (pw_nodeId w) p ports | None => ports end)
    ports (pl_workers plan).

Definition usedPorts_of (assignments : list AssignmentRow) (exclude : gset string) : gmap string (gset Z) :=
  foldl (fun ports r =>
    if bool_decide (ar_state r = Some a_stopped) || bool_decide (ar_deploymentId r ∈ exclude) then ports
    else foldl (fun ports p => add_port (ar_nodeId r) p ports) ports (row_ports r)) ∅ assignments.

Definition jnum (z : Z) : json := JNum (num_of_Z z).
Definition allocation_json (a : NodeAllocation) : json :=
  JObj [("nodeId", JStr (na_nodeId a)); ("ramMiB", jnum (na_ramMiB a)); ("cpuCores", jnum (na_cpuCores a));
        ("gpu", JArr ((fun g => JObj [("id", JStr (gm_id g)); ("memMiB", jnum (gm_memMiB g))]) <$> na_gpu a))]%string.

(** Layer counts for a group of workers: the largest qualified count that fits the worker's GPU and
    leaves the smallest one for each worker after it; [None] when a worker has none. *)
Fixpoint assign_layers (profile : ModelProfile) (rows : list Z) (least left : Z) (group : list NodeRow) : option (list Z) :=
  match group with
  | [] => Some []
  | n :: group =>
      k ← find (fun k => (k * mp_layerMiB profile + mp_workerMarginMiB profile <=? gpuMemory n) &&
                         (k <=? left - Z.of_nat (length group) * least)) rows;
      ks ← assign_layers profile rows least (left - k) group;
      Some (k :: ks)
  end.

(** The layer counts the profile qualifies for the request, largest first. *)
Definition qualified_rows (spec : DeploymentSpec) (profile : ModelProfile) : list Z :=
  js_sort (fun a b => b <=? a) (List.filter (fun n => 0 <? n) (er_workerLayers <$>
    List.filter (fun r =>
      num_leb (default (num_of_Z 1536) (ds_ctx spec)) (num_of_Z (er_maxCtx r)) &&
      num_leb (default (num_of_Z 1) (ds_parallel spec)) (num_of_Z (er_maxParallel r)) &&
      num_leb (default num_zero (ds_chain spec)) (num_of_Z (er_maxChain r))) (mp_envelope profile))).

Definition chained (spec : DeploymentSpec) : bool := truthy_num (default num_zero (ds_chain spec)).

(** Worker counts tried for one coordinator. *)
Definition worker_counts (most : Z) : list Z :=
  List.filter (fun n => (0 <? n) && (n <=? most)) (dedup [1; 2; 3; 4; 8; 12; 16; 32; most]).

(** [ledger.get(id)?.ramMiB ?? 0] *)
Definition ram_on (l : ResourceLedger) (id : string) : Z := match l !! id with Some v => na_ramMiB v | None => 0 end.

(** The search of one deployment: the best candidate so far, at most three messages, the count. *)
Record Search := { sr_winner : option FleetWinner; sr_failures : list string; sr_evaluated : nat }.

Definition note_failure (message : string) (s : Search) : Search :=
  {| sr_winner := sr_winner s;
     sr_failures := if (length (sr_failures s) <? 3)%nat && negb (bool_decide (message ∈ sr_failures s))
                    then sr_failures s ++ [message] else sr_failures s;
     sr_evaluated := sr_evaluated s |}.

Section fleet.
Context (re_test : string -> string -> bool).
Context (localeCompare : string -> string -> comparison).
Context (Date_parse : string -> num) (Math_pow : num -> num -> num).
Context (show_failure : FleetFailure -> string) (sha256_json : RevisionBody -> string).
Context (quals : list Qwen35NativeQualification).

(** [localeCompare(a, b) <= 0] on a key. *)
Definition by_locale {A} (key : A -> string) (a b : A) : bool :=
  match localeCompare (key a) (key b) with Gt => false | _ => true end.

(** Structural revision: throughputs and heartbeats are left out. *)
Definition revision_node (n : NodeRow) : RevisionNode :=
  {| rn_id := nr_id n; rn_online := nr_online n; rn_offer := nr_offer n;
     rn_caps := (fun c => {| rc_allocationVersion := cap_allocationVersion c; rc_os := cap_os c;
        rc_gpus := (fun g => (gd_id g, gd_engineName g, gd_totalMiB g)) <$> cap_gpus c;
        rc_engine := cap_engine c |}) <$> nr_caps n;
     rn_models := js_sort (by_locale (fun m => m.1.1)) ((fun m => (mf_path m, mf_sizeBytes m, mf_sha256 m)) <$> nr_models n) |}.
Definition revision_body (input : FleetInput) : RevisionBody :=
  {| rv_nodes := revision_node <$> js_sort (by_locale nr_id) (fin_nodes input);
     rv_deployments := (fun d => {| rd_id := dep_id d; rd_spec := dep_spec d; rd_state := dep_state d; rd_plan := dep_plan d;
        rd_savedDistribution := dep_savedDistribution d |}) <$> js_sort (by_locale dep_id) (fin_deployments input);
     rv_assignments := js_sort (by_locale rr_id)
       ((fun r => {| rr_id := ar_id r; rr_nodeId := ar_nodeId r; rr_deploymentId := ar_deploymentId r;
           rr_retired := ar_retired r; rr_body := ar_body r |}) <$>
         List.filter (fun r => negb (bool_decide (ar_state r = Some a_stopped))) (fin_assignments input));
     rv_profiles := js_sort (by_locale mp_id) (fin_profiles input).*2 |}.
Definition fleetRevision (input : FleetInput) : string := sha256_json (revision_body input).

(** A fresh round trip to the controller. *)
Definition rtt (n : NodeRow) (now : num) : option num :=
  let m := match nr_metrics n ≫= mx_link with
    | Some l => Some (lm_rttMs l, lm_measuredAt l)
    | None => (fun m => (nm_rttMs m, nm_measuredAt m)) <$> (nr_caps n ≫= cap_net) end in
  match m with
  | Some (ms, at_) =>
      if isFinite ms && num_leb num_zero ms && num_ltb (num_sub now (Date_parse at_)) (num_of_Z 3600000)
      then Some ms else None
  | None => None
  end.

Definition modelOn (n : NodeRow) (profile : ModelProfile) : bool :=
  existsb (fun m => bool_decide (mf_kind m = gguf) && re_test (mp_ggufPattern profile) (mf_name m)) (nr_models n).

(** [input.nodes.find(n => n.id === id)] *)
Definition find_node (nodes : list NodeRow) (id : string) : option NodeRow :=
  find (fun n => bool_decide (nr_id n = id)) nodes.
(** The same with [!]: the read that follows throws on [undefined]. *)
Definition the_node (nodes : list NodeRow) (id : string) : result FleetFailure NodeRow :=
  match find_node nodes id with Some n => Ok n | None => Err FF_undefined end.
Definition the_offer (n : NodeRow) : result FleetFailure Offer :=
  match nr_offer n with Some o => Ok o | None => Err FF_undefined end.

(** ** Host memory *)

Definition gpu_memory_error (n : NodeRow) (metrics : NodeMetrics) (g : GpuMem) : list MemoryError :=
  match find (fun d => bool_decide (gd_id d = gm_id g)) (caps_gpus n),
        find (fun u => bool_decide (u.1 = gm_id g)) (default [] (mx_gpu metrics)) with
  | Some device, Some observed =>
      if isFinite observed.2 then
        let available := num_max num_zero (num_sub (num_of_Z (gd_totalMiB device)) observed.2) in
        if num_ltb available (num_of_Z (gm_memMiB g))
        then [ME_gpu (nr_hostname n) (gm_id g) (gm_memMiB g) (js_floor available)] else []
      else []
  | _, _ => []
  end.

(** One node of [hostMemoryErrors]'s loop. *)
Definition node_memory_errors (input : FleetInput) (outside selectedReservations : ResourceLedger) (selected : gset string)
    (id : string) (value : NodeAllocation) : result FleetFailure (list MemoryError) :=
  n ← the_node (fin_nodes input) id;
  match nr_metrics n with
  | None => Ok []
  | Some metrics =>
      let ts := Date_parse (mx_ts metrics) in
      if negb (isFinite ts) || num_ltb (num_of_Z 15000) (num_sub (fin_now input) ts) then Ok []
      else
        let gpus := flat_map (gpu_memory_error n metrics) (na_gpu value) in
        match mx_freeRamMiB metrics with
        | None => Ok gpus
        | Some free =>
            if negb (isFinite free) || negb (bool_decide (nr_os n = darwin)) then Ok gpus
            else
              let hasSelected := existsb (fun r => bool_decide (ar_nodeId r = id) && bool_decide (ar_deploymentId r ∈ selected) &&
                live_row r) (fin_assignments input) in
              let reclaim := if hasSelected
                then num_min (num_of_Z (ram_on selectedReservations id)) (num_max num_zero (default num_zero (mx_rssMiB metrics)))
                else num_zero in
              let future := na_ramMiB value + ram_on outside id in
              o ← the_offer n;
              let available := num_min (num_of_Z (of_ramMiB o)) (num_add (num_max num_zero free) reclaim) in
              Ok (gpus ++ if num_ltb available (num_of_Z future) then [ME_ram (nr_hostname n) future (js_floor available)] else [])
        end
  end.

Definition plan_allocations (plans : list (option Plan)) : list NodeAllocation :=
  flat_map (fun p => default [] (p ≫= pl_allocations)) plans.

Definition in_selected (selected : gset string) (d : Deployment) : bool := bool_decide (dep_id d ∈ selected).

Definition hostMemoryErrors (input : FleetInput) (plans : list (option Plan)) (selected : gset string)
    : result FleetFailure (list MemoryError) :=
  let values := plan_allocations plans in
  let totals := addAllocations ∅ values in
  let outside := reservedResources (fin_deployments input) (fin_assignments input) (fin_nodes input) selected in
  let selectedReservations := reservedResources (List.filter (in_selected selected) (fin_deployments input))
    (List.filter (fun r => bool_decide (ar_deploymentId r ∈ selected)) (fin_assignments input)) (fin_nodes input) ∅ in
  errors ← mapM_result (fun id => node_memory_errors input outside selectedReservations selected id (used_on totals id))
    (dedup (na_nodeId <$> values));
  Ok (List.concat errors).

(** ** One candidate *)

(** The state of one budget's walk: entries so far, what is reserved, ports, candidates tried. *)
Record Run := {
  ru_entries : list FleetEntry; ru_ledger : ResourceLedger; ru_ports : gmap string (gset Z); ru_evaluated : nat }.

(** What the closure [attempt] captures. *)
Record Attempt := {
  at_input : FleetInput; at_selected : gset string; at_pool : list string; at_sharing : Z; at_run : Run;
  at_item : FleetItem; at_spec : DeploymentSpec; at_profile : ModelProfile; at_before : FleetPlacement;
  at_free : list NodeRow }.

Definition lift_res {A} (r : result ResourceError A) : result FleetFailure A :=
  match r with Ok a => Ok a | Err e => Err (FF_resources e) end.

(** The budget asked for on one node: the admission minimum with headroom, within the free offer. *)
Definition budget_of (c : Attempt) (nodes : list NodeRow) (base : Plan) (a : NodeAllocation) : result FleetFailure NodeAllocation :=
  n ← the_node nodes (na_nodeId a);
  o ← the_offer n;
  cores ← match fi_cpuCores (at_item c) with
    | Some k => Ok k
    | None =>
        n0 ← the_node (fin_nodes (at_input c)) (nr_id n);
        o0 ← the_offer n0;
        let worker := existsb (fun w => bool_decide (pw_nodeId w = na_nodeId a)) (pl_workers base) in
        Ok (Z.max 1 (Z.min (of_cpuCores o) (Z.min (if worker then MAX_WORKER_THREADS else of_cpuCores o)
                                                  (of_cpuCores o0 / at_sharing c))))
    end;
  gpus ← mapM_result (fun g =>
    match find (fun v => bool_decide (gm_id v = gm_id g)) (of_gpu o) with
    | Some v => Ok {| gm_id := gm_id g; gm_memMiB := Z.min (gm_memMiB v) (round64 (num_mul (num_of_Z (gm_memMiB g)) num_11)) |}
    | None => Err FF_undefined
    end) (na_gpu a);
  Ok {| na_nodeId := na_nodeId a; na_ramMiB := Z.min (of_ramMiB o) (round64 (num_mul (num_of_Z (na_ramMiB a)) num_12));
        na_cpuCores := cores; na_gpu := gpus |}.

(** [15 * Math.pow(need / offered, 2)] *)
Definition pressure_of (need offered : Z) : num :=
  num_mul (num_of_Z 15) (Math_pow (num_div (num_of_Z need) (num_of_Z offered)) (num_of_Z 2)).

(** (pressure, contention, cpuPenalty) after one more node. *)
Definition node_cost (c : Attempt) (acc : num * num * num) (a : NodeAllocation) : result FleetFailure (num * num * num) :=
  let '(pressure, contention, cpuPenalty) := acc in
  n ← the_node (fin_nodes (at_input c)) (na_nodeId a);
  o ← the_offer n;
  let used := used_on (ru_ledger (at_run c)) (na_nodeId a) in
  gpus ← mapM_result (fun g =>
    match find (fun v => bool_decide (gm_id v = gm_id g)) (of_gpu o) with
    | Some v => Ok (pressure_of (gm_memMiB g + gpu_mem (na_gpu used) (gm_id g)) (gm_memMiB v))
    | None => Err FF_undefined
    end) (na_gpu a);
  let pressure := num_add pressure (pressure_of (na_ramMiB a + na_ramMiB used) (of_ramMiB o)) in
  let contention := if na_cpuCores used =? 0 then contention else num_add contention (num_of_Z 10) in
  let free_share := num_sub (num_of_Z 1) (num_div (num_of_Z (na_cpuCores a)) (num_of_Z (of_cpuCores o))) in
  Ok (num_add pressure (foldl num_add num_zero gpus), contention, num_add cpuPenalty (num_mul (num_of_Z 12) free_share)).

Fixpoint fold_result {A B} (f : A -> B -> result FleetFailure A) (acc : A) (l : list B) : result FleetFailure A :=
  match l with [] => Ok acc | x :: l => acc ← f acc x; fold_result f acc l end.

Definition placement_ids (p : FleetPlacement) : list (option string) :=
  (match fp_replicaNodeId p with Some n => Some n | None => fp_coordinatorNodeId p end) ::
  (Some <$> default [] (fp_workerNodeIds p)).

Definition in_pool (pool : list string) (id : option string) : bool :=
  match id with Some id => bool_decide (id ∈ pool) | None => false end.

(** The plan of a candidate placement under an explicit budget. *)
Definition candidate_plan (c : Attempt) (placement : FleetPlacement) : result FleetFailure (DeploymentSpec * Plan) :=
  let spec := placementSpec (at_spec c) placement in
  let ids := placement_ids placement in
  if existsb (fun id => negb (in_pool (at_pool c) id)) ids then Err FF_pool
  else
    let nodes := List.filter (fun n => bool_decide (Some (nr_id n) ∈ ids)) (at_free c) in
    let ports := ru_ports (at_run c) in
    base ← lift_res (plan_in re_test localeCompare spec (at_profile c) ports quals nodes);
    minima ← lift_res (minimumAllocations base (at_profile c) nodes);
    allocations ← mapM_result (budget_of c nodes base) minima;
    let spec := placed_spec (at_spec c) placement (Some (JArr (allocation_json <$> allocations))) in
    plan ← lift_res (planWithResources re_test localeCompare spec (at_profile c) (fin_nodes (at_input c))
                       (ru_ledger (at_run c)) ports quals);
    Ok (spec, plan).

(** The candidate with its score. *)
Definition candidate (c : Attempt) (placement : FleetPlacement) : result FleetFailure FleetWinner :=
  sp ← candidate_plan c placement;
  let '(spec, plan) := sp in
  match pl_allocations plan with
  | None => Err FF_undefined
  | Some budget =>
      costs ← fold_result (node_cost c) (num_zero, num_zero, num_zero) budget;
      let '(pressure, contention, cpuPenalty) := costs in
      times ← mapM_result (fun id => n ← the_node (fin_nodes (at_input c)) id; Ok (rtt n (fin_now (at_input c)))) (planNodeIds plan);
      let known := forallb present times in
      let networkRttMs := if known then Some (foldl num_add num_zero (omap id times)) else None in
      let hops := length (pl_workers plan) in
      let network := num_add (num_of_Z (Z.of_nat hops * 12))
        (foldl (fun sum t => num_add sum (num_div (num_min (default (num_of_Z 100) t) (num_of_Z 1000)) (num_of_Z 10))) num_zero times) in
      let device := if bool_decide (pl_coordinatorDevice plan = "CPU"%string) then num_of_Z 60 else num_zero in
      let moved := if same_placement placement (at_before c) then num_zero else num_of_Z 3 in
      let score := num_add (num_add (num_add (num_add (num_add pressure contention) cpuPenalty) network) device) moved in
      Ok {| fw_spec := spec; fw_plan := plan; fw_score := score; fw_networkRttMs := networkRttMs;
            fw_reasons :=
              [if (hops =? 0)%nat then FR_whole else FR_hops hops;
               FR_budget (sumZ (na_cpuCores <$> budget)) (length budget);
               match networkRttMs with Some ms => FR_rtt (js_round ms) | None => FR_rtt_unknown end;
               if truthy_num contention then FR_shares else FR_avoids] |}
  end.

(** [attempt]: whether the placement is feasible, and the search afterwards. *)
Definition attempt (c : Attempt) (placement : FleetPlacement) (s : Search) : bool * Search :=
  let s := {| sr_winner := sr_winner s; sr_failures := sr_failures s; sr_evaluated := S (sr_evaluated s) |} in
  let failed e := (false, note_failure (show_failure e) s) in
  match candidate c placement with
  | Err e => failed e
  | Ok w =>
      if match sr_winner s with None => true | Some v => num_ltb (fw_score w) (fw_score v) end then
        match hostMemoryErrors (at_input c) ((fe_plan <$> ru_entries (at_run c)) ++ [Some (fw_plan w)]) (at_selected c) with
        | Err e => failed e
        | Ok [] => (true, {| sr_winner := Some w; sr_failures := sr_failures s; sr_evaluated := sr_evaluated s |})
        | Ok errors => failed (FF_memory errors)
        end
      else (true, s)
  end.

(** ** One deployment *)

(** The comparator of [rank]. *)
Definition rank_num (now : num) (a b : NodeRow) : num :=
  let ms n := default (num_of_Z 100) (rtt n now) in
  or_num (num_sub (ms a) (ms b))
    (num_of_Z (let gpu := gpuMemory b - gpuMemory a in let ram := offer_ram b - offer_ram a in
      if gpu =? 0 then if ram =? 0 then match localeCompare (nr_id a) (nr_id b) with Lt => -1 | Eq => 0 | Gt => 1 end
                       else ram else gpu)).
Definition rank (now : num) (a b : NodeRow) : bool := not_after (rank_num now a b).

Definition node_offers (role : Roles -> bool) (n : NodeRow) : bool :=
  match nr_offer n with Some o => role (of_roles o) | None => false end.

Fixpoint try_replicas (c : Attempt) (holders : list NodeRow) (feasible : nat) (s : Search) : Search :=
  match holders with
  | [] => s
  | n :: holders =>
      let '(ok, s) := attempt c (replica_placement (Some (nr_id n))) s in
      let feasible := if ok then S feasible else feasible in
      if ok && (24 <=? feasible)%nat then s else try_replicas c holders feasible s
  end.

(** The placement tried for one worker count, unless the exact layer counts do not work out. *)
Definition group_placement (c : Attempt) (coord : NodeRow) (rows : list Z) (least : Z) (group : list NodeRow) : option FleetPlacement :=
  let ids := Some (nr_id <$> group) in
  if chained (at_spec c) then Some (split_placement (Some (nr_id coord)) ids None)
  else
    ks ← assign_layers (at_profile c) rows least (mp_layers (at_profile c) - 1) group;
    Some (split_placement (Some (nr_id coord)) ids (Some (num_of_Z <$> ks))).

Fixpoint try_counts (c : Attempt) (coord : NodeRow) (rows : list Z) (least : Z) (workers : list NodeRow) (counts : list Z)
    (feasible : bool) (s : Search) : bool * Search :=
  match counts with
  | [] => (feasible, s)
  | k :: counts =>
      match group_placement c coord rows least (take (Z.to_nat k) workers) with
      | None => try_counts c coord rows least workers counts feasible s
      | Some p => let '(ok, s) := attempt c p s in try_counts c coord rows least workers counts (ok || feasible) s
      end
  end.

Definition workers_for (c : Attempt) (coord : NodeRow) (least : Z) : list NodeRow :=
  let p := at_profile c in
  js_sort (rank (fin_now (at_input c))) (List.filter (fun n =>
    negb (bool_decide (nr_id n = nr_id coord)) && node_offers ro_worker n &&
    (least * mp_layerMiB p + mp_workerMarginMiB p <=? gpuMemory n)) (at_free c)).

Fixpoint try_coordinators (c : Attempt) (rows : list Z) (least : Z) (coords : list NodeRow) (feasible : nat) (s : Search) : Search :=
  match coords with
  | [] => s
  | coord :: coords =>
      let workers := workers_for c coord least in
      let most := Z.min (Z.of_nat (length workers)) (Z.min 64 ((mp_layers (at_profile c) - 1) / least)) in
      let '(ok, s) := try_counts c coord rows least workers (worker_counts most) false s in
      let feasible := if ok then S feasible else feasible in
      if ok && (12 <=? feasible)%nat then s else try_coordinators c rows least coords feasible s
  end.

Definition holders (c : Attempt) : list NodeRow :=
  js_sort (rank (fin_now (at_input c))) (List.filter (fun n => modelOn n (at_profile c)) (at_free c)).

Definition balanced_search (c : Attempt) (s : Search) : Search :=
  let s := if chained (at_spec c) then s
           else try_replicas c (List.filter (node_offers ro_replica) (holders c)) 0 s in
  let rows := qualified_rows (at_spec c) (at_profile c) in
  match last rows with
  | None => s
  | Some least => try_coordinators c rows least (List.filter (node_offers ro_coordinator) (holders c)) 0 s
  end.

(** [previewFleet]'s search for one item. *)
Definition search_item (c : Attempt) : Search :=
  let s0 := {| sr_winner := None; sr_failures := []; sr_evaluated := 0 |} in
  match fi_mode (at_item c) with
  | balanced => balanced_search c s0
  | keep => (attempt c (at_before c) s0).2
  | manual => match fi_placement (at_item c) with Some p => (attempt c p s0).2 | None => note_failure (show_failure FF_undefined) {| sr_winner := None; sr_failures := []; sr_evaluated := 1 |} end
  end.

Definition enabled_free (poolNodes : list NodeRow) (ledger : ResourceLedger) : list NodeRow :=
  List.filter (fun n => match nr_offer n with Some o => of_enabled o | None => false end) (availableNodes poolNodes ledger).

Definition get_profile (input : FleetInput) (id : string) : option ModelProfile :=
  snd <$> find (fun kp => bool_decide (kp.1 = id)) (fin_profiles input).

(** ** One budget *)

(** What is fixed for a preview. *)
Record Fleet := {
  fl_input : FleetInput; fl_selected : gset string; fl_pool : list string; fl_poolNodes : list NodeRow;
  fl_order : list (FleetItem * Deployment) }.

Definition bare_entry (dep : Deployment) (error : option FleetEntryError) : FleetEntry :=
  {| fe_deploymentId := dep_id dep; fe_name := ds_name (dep_spec dep); fe_before := currentPlacement dep;
     fe_winner := None; fe_error := error |}.

Definition push_entry (e : FleetEntry) (evaluated : nat) (r : Run) : Run :=
  {| ru_entries := ru_entries r ++ [e]; ru_ledger := ru_ledger r; ru_ports := ru_ports r; ru_evaluated := ru_evaluated r + evaluated |}.

(** [[...failures].join(' ') || 'No eligible nodes ..'] *)
Definition failure_text (failures : list string) : FleetEntryError :=
  let text := String.concat " " failures in if String.eqb text "" then FE_none else FE_failures text.

Definition attempt_of (f : Fleet) (sharing : Z) (r : Run) (item : FleetItem) (dep : Deployment) (profile : ModelProfile) : Attempt :=
  {| at_input := fl_input f; at_selected := fl_selected f; at_pool := fl_pool f; at_sharing := sharing; at_run := r;
     at_item := item; at_spec := dep_spec dep; at_profile := profile; at_before := currentPlacement dep;
     at_free := enabled_free (fl_poolNodes f) (ru_ledger r) |}.

(** Charge a placed deployment. *)
Definition charge_winner (dep : Deployment) (w : FleetWinner) (evaluated : nat) (r : Run) : Run :=
  {| ru_entries := ru_entries r ++
       [{| fe_deploymentId := dep_id dep; fe_name := ds_name (dep_spec dep); fe_before := currentPlacement dep;
           fe_winner := Some w; fe_error := None |}];
     ru_ledger := addAllocations (ru_ledger r) (default [] (pl_allocations (fw_plan w)));
     ru_ports := occupyPorts (ru_ports r) (fw_plan w); ru_evaluated := ru_evaluated r + evaluated |}.

Definition place_item (f : Fleet) (sharing : Z) (r : Run) (id : FleetItem * Deployment) : Run :=
  let '(item, dep) := id in
  let kind := ds_kind (dep_spec dep) in
  match get_profile (fl_input f) (ds_profile (dep_spec dep)) with
  | None => push_entry (bare_entry dep (Some FE_kind)) 0 r
  | Some profile =>
      if negb (bool_decide (kind = split)) && negb (bool_decide (kind = replica)) then push_entry (bare_entry dep (Some FE_kind)) 0 r
      else if default false (ds_stopExternal (dep_spec dep)) then push_entry (bare_entry dep (Some FE_stopExternal)) 0 r
      else
        let s := search_item (attempt_of f sharing r item dep profile) in
        match sr_winner s with
        | None => push_entry (bare_entry dep (Some (failure_text (sr_failures s)))) (sr_evaluated s) r
        | Some w => charge_winner dep w (sr_evaluated s) r
        end
  end.

Definition run_budget (f : Fleet) (baseline : ResourceLedger) (sharing : Z) : Run :=
  foldl (place_item f sharing)
    {| ru_entries := []; ru_ledger := baseline; ru_ports := usedPorts_of (fin_assignments (fl_input f)) (fl_selected f);
       ru_evaluated := 0 |} (fl_order f).

Definition planned_count (r : Run) : nat := length (omap fe_winner (ru_entries r)).
Definition run_score (r : Run) : num :=
  foldl (fun sum e => num_add sum (match fe_winner e with Some w => fw_score w | None => num_zero end)) num_zero (ru_entries r).

(** [count > best.count || (count === best.count && score < best.score)] *)
Definition better_run (r best : Run) : bool :=
  (planned_count best <? planned_count r)%nat ||
  ((planned_count r =? planned_count best)%nat && num_ltb (run_score r) (run_score best)).

Definition keep_best (best : option Run) (r : Run) : option Run :=
  match best with None => Some r | Some b => if better_run r b then Some r else Some b end.

Definition sharing_budgets (n : nat) : list Z := dedup [1; 2; 4; Z.max 1 (Z.of_nat n)].

(** ** The preview *)

Definition dep_by_id (deployments : list Deployment) (id : string) : option Deployment :=
  find (fun d => bool_decide (dep_id d = id)) (reverse deployments).

Definition pool_nodes (input : FleetInput) (pool : list string) : list NodeRow :=
  List.filter (fun n => bool_decide (nr_id n ∈ pool) && nr_online n &&
    match nr_offer n with Some o => of_enabled o | None => false end &&
    bool_decide ((nr_caps n ≫= cap_allocationVersion) = Some 1)) (fin_nodes input).

Definition scarcity (input : FleetInput) (poolNodes : list NodeRow) (d : Deployment) : Z :=
  match get_profile input (ds_profile (dep_spec d)) with
  | Some p => Z.of_nat (length (List.filter (fun n => modelOn n p) poolNodes))
  | None => 0
  end.
Definition layer_size (input : FleetInput) (d : Deployment) : Z :=
  match get_profile input (ds_profile (dep_spec d)) with Some p => mp_layerMiB p | None => 0 end.
Definition fixed_mode (i : FleetItem) : Z := if bool_decide (fi_mode i = balanced) then 0 else 1.

Definition or_Z (a b : Z) : Z := if a =? 0 then b else a.

(** Fixed placements first, then rarer models, then larger ones, then the id. *)
Definition item_order (input : FleetInput) (poolNodes : list NodeRow) (a b : FleetItem * Deployment) : bool :=
  or_Z (fixed_mode b.1 - fixed_mode a.1)
    (or_Z (scarcity input poolNodes a.2 - scarcity input poolNodes b.2)
      (or_Z (layer_size input b.2 - layer_size input a.2)
        (match localeCompare (fi_deploymentId a.1) (fi_deploymentId b.1) with Lt => -1 | Eq => 0 | Gt => 1 end))) <=? 0.

Definition resolve (input : FleetInput) (i : FleetItem) : result FleetFailure (FleetItem * Deployment) :=
  match dep_by_id (fin_deployments input) (fi_deploymentId i) with
  | Some d => Ok (i, d) | None => Err (FF_unknown_deployment (fi_deploymentId i)) end.

Definition known_pool (input : FleetInput) (id : string) : result FleetFailure unit :=
  match find_node (fin_nodes input) id with Some _ => Ok tt | None => Err (FF_unknown_node id) end.

Definition entry_of (best : Run) (i : FleetItem) : result FleetFailure FleetEntry :=
  match find (fun e => bool_decide (fe_deploymentId e = fi_deploymentId i)) (ru_entries best) with
  | Some e => Ok e | None => Err FF_undefined end.

Definition make_fleet (request : FleetRequest) (input : FleetInput) (items : list (FleetItem * Deployment)) : Fleet :=
  let poolNodes := pool_nodes input (fq_poolNodeIds request) in
  {| fl_input := input; fl_selected := list_to_set (fi_deploymentId <$> fq_items request);
     fl_pool := fq_poolNodeIds request; fl_poolNodes := poolNodes; fl_order := js_sort (item_order input poolNodes) items |}.

Definition baseline_of (f : Fleet) : ResourceLedger :=
  reservedResources (fin_deployments (fl_input f)) (fin_assignments (fl_input f)) (fin_nodes (fl_input f)) (fl_selected f).

Definition all_runs (request : FleetRequest) (f : Fleet) : list Run :=
  run_budget f (baseline_of f) <$> sharing_budgets (length (fq_items request)).

Definition previewFleet (request : FleetRequest) (input : FleetInput) : result FleetFailure FleetPreview :=
  items ← mapM_result (resolve input) (fq_items request);
  _ ← mapM_result (known_pool input) (dedup (fq_poolNodeIds request));
  let f := make_fleet request input items in
  let runs := all_runs request f in
  match foldl keep_best None runs with
  | None => Err FF_undefined
  | Some best =>
      entries ← mapM_result (entry_of best) (fq_items request);
      errors ← hostMemoryErrors input (fe_plan <$> entries) (fl_selected f);
      let selected := length (fq_items request) in
      Ok {| fv_revision := fleetRevision input; fv_entries := entries;
            fv_canApply := (planned_count best =? selected)%nat && bool_decide (length errors = 0%nat);
            fv_plannedCount := planned_count best; fv_selectedCount := selected; fv_allocations := ru_ledger best;
            fv_warnings := [FW_estimates] ++ (FW_memory <$> errors) ++
              (if (length (fl_poolNodes f) <? length (dedup (fq_poolNodeIds request)))%nat then [FW_excluded] else []);
            fv_evaluatedCandidates := sum_list (ru_evaluated <$> runs) |}
  end.
End fleet.
