(* ===== verification/Topology.v ===== *)
(** * Topology choice (swarmlet/control/topology.ts)

    [chooseTopology] prices every replica, prefill/decode pair and same-LAN split that it can, asks the ordinary
    planner to admit each, and returns the cheapest under a local-first score.  Texts are constructors carrying
    what they print; [plan_hash] is the digest of the decision.  The code sorts with a comparator that is not an
    order (see [TopologyFacts]); [js_sort] is one of the results the standard then allows. *)

From S2P Require Import Prelude JsNum Json Types Validate PhasePlan Planner.

(** [{ promptTokens, outputTokens }] *)
Record Reference := { rf_promptTokens : num; rf_outputTokens : num }.
Definition REFERENCE_REQUEST : Reference := {| rf_promptTokens := num_of_Z 512; rf_outputTokens := num_of_Z 64 |}.
Definition LAN_MIB_PER_SEC : num := num_of_Z 1.
Definition RELAY_MIB_PER_SEC : num := num_div (num_of_Z 1) (num_of_Z 10).
Definition RELAY_PENALTY : num := num_div (num_of_Z 5) (num_of_Z 4).
Definition EPSILON_MS : num := num_of_Z 1.

(** ** Locality *)

Definition is_digit (a : Ascii.ascii) : bool := let n := Ascii.nat_of_ascii a in ((48 <=? n) && (n <=? 57))%nat.
(** The decimal value of a string of digits. *)
Fixpoint digits_value (acc : Z) (s : string) : Z :=
  match s with
  | EmptyString => acc
  | String a s => digits_value (10 * acc + (Z.of_nat (Ascii.nat_of_ascii a) - 48)) s
  end.
(** [s.split(".")] *)
Fixpoint split_dot (s acc : string) : list string :=
  match s with
  | EmptyString => [acc]
  | String a s => if (Ascii.nat_of_ascii a =? 46)%nat then acc :: split_dot s EmptyString
                  else split_dot s (acc ++ String a EmptyString)
  end.
(** [\d{1,3}] *)
Definition octet (s : string) : bool := (1 <=? String.length s)%nat && (String.length s <=? 3)%nat && all_chars is_digit s.

Definition isPrivateV4 (ip : string) : bool :=
  match split_dot ip EmptyString with
  | [p; q; r; s] =>
      if octet p && octet q && octet r && octet s then
        let a := digits_value 0 p in let b := digits_value 0 q in
        (a =? 10) || ((a =? 192) && (b =? 168)) || ((a =? 172) && (16 <=? b) && (b <=? 31))
      else false
  | _ => false
  end.

Definition str_le (a b : string) : bool := negb (str_ltb b a).
Definition subnetsOf (n : NodeRow) : list string :=
  js_sort str_le (dedup ((fun ip => String.concat "." (take 3 (split_dot ip EmptyString))) <$>
    List.filter isPrivateV4 (match nr_caps n with Some c => cap_privateIps c | None => [] end))).
Definition sameLan (a b : NodeRow) : bool := existsb (fun s => bool_decide (s ∈ subnetsOf a)) (subnetsOf b).

(** ** Data *)

Record BenchRow := { bn_prefillTokPerSec : num; bn_decodeTokPerSec : num }.

Inductive TopologyKind := k_replica | k_phase | k_split.
#[export] Instance TopologyKind_eq : EqDecision TopologyKind.
Proof. solve_decision. Defined.
Definition kind_name (k : TopologyKind) : string :=
  match k with k_replica => "replica" | k_phase => "prefill-decode" | k_split => "split" end.
Definition kind_of (k : TopologyKind) : DeploymentKind :=
  match k with k_replica => replica | k_phase => prefill_decode | k_split => split end.

(** The [reason] text is determined by the kind, the host names, the estimate and the locality. *)
Record TopologyCandidate := {
  tc_kind : TopologyKind; tc_nodes : list string; tc_hosts : list string; tc_estimatedMs : num; tc_local : bool }.

Inductive Unpriced := UP_bench (model host : string) | UP_hosts (hosts : list string) | UP_phase (e : PhasePlanError).
Inductive Rejection := RJ_unpriced (k : TopologyKind) (hosts : list string) (u : Unpriced)
                     | RJ_refused (k : TopologyKind) (hosts : list string) (e : PlanError).

Record TopologyChoice := {
  tp_best : TopologyCandidate; tp_spec : DeploymentSpec; tp_planHash : string;
  tp_candidates : list TopologyCandidate; tp_rejected : list Rejection }.

Inductive TopologyError := TE_no_model (profile : string) | TE_no_node | TE_none (profile : string) (rejected : list Rejection).

Record TopologyInput := {
  ti_spec : DeploymentSpec; ti_profile : ModelProfile; ti_nodes : list NodeRow;
  ti_usedPorts : gmap string (gset Z); ti_qualifications : list Qwen35NativeQualification;
  ti_reference : Reference }.

Definition scoreCandidate (c : TopologyCandidate) : num :=
  num_mul (tc_estimatedMs c) (if tc_local c then num_of_Z 1 else RELAY_PENALTY).

(** The spec of a candidate: the common fields of the request and the nodes of the kind. *)
Definition candidate_spec (spec : DeploymentSpec) (profile modelSha256 : string) (k : TopologyKind) (nodes : list string)
    : DeploymentSpec :=
  {| ds_name := ds_name spec; ds_profile := profile; ds_autoTopology := None; ds_autoModel := None; ds_kind := kind_of k;
     ds_coordinatorNodeId := if bool_decide (k = k_split) then head nodes else None;
     ds_workerNodeIds := if bool_decide (k = k_split) then Some (tail nodes) else None;
     ds_workerLayers := None; ds_replicaNodeId := if bool_decide (k = k_replica) then head nodes else None;
     ds_allocations := None; ds_stages := None;
     ds_prefillNodeId := if bool_decide (k = k_phase) then head nodes else None;
     ds_decodeNodeId := if bool_decide (k = k_phase) then nodes !! 1%nat else None;
     ds_modelSha256 := if bool_decide (k = k_phase) then Some modelSha256 else None;
     ds_ctx := Some (default (num_of_Z 1024) (ds_ctx spec)); ds_parallel := Some (default (num_of_Z 1) (ds_parallel spec));
     ds_chain := Some (default num_zero (ds_chain spec)); ds_speculation := None; ds_wire := None; ds_batchedGets := None;
     ds_forwarding := None; ds_stopExternal := None; ds_transport := ds_transport spec; ds_external := None |}.

(** [create]'s [{ ...clean, ...choice.spec, profile }]: a property the choice does not set stays the request's. *)
Definition merge_choice (clean choice : DeploymentSpec) : DeploymentSpec :=
  let or {A} (a b : option A) := match a with Some _ => a | None => b end in
  {| ds_name := ds_name choice; ds_profile := ds_profile choice; ds_autoTopology := None; ds_autoModel := None;
     ds_kind := ds_kind choice;
     ds_coordinatorNodeId := or (ds_coordinatorNodeId choice) (ds_coordinatorNodeId clean);
     ds_workerNodeIds := or (ds_workerNodeIds choice) (ds_workerNodeIds clean);
     ds_workerLayers := ds_workerLayers clean;
     ds_replicaNodeId := or (ds_replicaNodeId choice) (ds_replicaNodeId clean);
     ds_allocations := ds_allocations clean; ds_stages := ds_stages clean;
     ds_prefillNodeId := or (ds_prefillNodeId choice) (ds_prefillNodeId clean);
     ds_decodeNodeId := or (ds_decodeNodeId choice) (ds_decodeNodeId clean);
     ds_modelSha256 := or (ds_modelSha256 choice) (ds_modelSha256 clean);
     ds_ctx := ds_ctx choice; ds_parallel := ds_parallel choice; ds_chain := ds_chain choice;
     ds_speculation := ds_speculation clean; ds_wire := ds_wire clean; ds_batchedGets := ds_batchedGets clean;
     ds_forwarding := ds_forwarding clean; ds_stopExternal := ds_stopExternal clean;
     ds_transport := ds_transport choice; ds_external := ds_external clean |}.

Section topology.
Context (re_test : string -> string -> bool).
Context (localeCompare : string -> string -> comparison).
Context (plan_hash : string -> Reference -> TopologyCandidate -> list TopologyCandidate -> string).

(** [a.localeCompare(b) || ...] as a comparator value. *)
Definition then_locale (a b : string) (next : comparison) : comparison :=
  match localeCompare a b with Eq => next | c => c end.
Definition not_gt (c : comparison) : bool := match c with Gt => false | _ => true end.

Definition orderNodes (nodes : list NodeRow) : list NodeRow :=
  js_sort (fun a b => not_gt (then_locale (nr_hostname a) (nr_hostname b) (localeCompare (nr_id a) (nr_id b)))) nodes.

(** [b.ctx - a.ctx || b.measuredAt.localeCompare(a.measuredAt)], at most 0. *)
Definition bench_order (a b : BenchResult) : bool :=
  let d := num_sub (br_ctx b) (br_ctx a) in
  if truthy_num d then negb (num_ltb num_zero d) else not_gt (localeCompare (br_measuredAt b) (br_measuredAt a)).

Definition benchFor (n : NodeRow) (modelSha256 : string) : option BenchRow :=
  let engine := (nr_caps n ≫= cap_engine) ≫= fun e => en_sha256 e !! "llama-server"%string in
  let entries := List.filter (fun b => bool_decide (br_kind b = "llama-server"%string) && bool_decide (br_modelSha256 b = modelSha256) &&
      (match engine with Some e => bool_decide (e = ""%string) || bool_decide (br_engineSha256 b = e) | None => true end) &&
      positive_num (br_prefillTokPerSec b) && positive_num (br_decodeTokPerSec b))
    (default [] (nr_caps n ≫= cap_bench)) in
  (fun b => {| bn_prefillTokPerSec := br_prefillTokPerSec b; bn_decodeTokPerSec := br_decodeTokPerSec b |}) <$>
    head (js_sort bench_order entries).

(** [node.metrics?.link?.rttMs ?? node.caps?.net?.rttMs ?? 50] *)
Definition link_rtt (n : NodeRow) : num :=
  match nr_metrics n ≫= mx_link with
  | Some l => lm_rttMs l
  | None => match nr_caps n ≫= cap_net with Some m => nm_rttMs m | None => num_of_Z 50 end
  end.

(** Each node after the first shares a LAN with its predecessor. *)
Fixpoint chain_local (prev : NodeRow) (l : list NodeRow) : bool :=
  match l with [] => true | n :: l => sameLan prev n && chain_local n l end.

Definition candidate_local (k : TopologyKind) (nodes : list NodeRow) : bool :=
  match k, nodes with
  | k_replica, _ => true
  | _, n :: ((_ :: _) as rest) => chain_local n rest
  | _, _ => false
  end.

(** [Math.min(...l)] and [Math.max(...l)] *)
Definition min_list (l : list num) : num := foldl num_min num_inf l.
Definition max_list (l : list num) : num := foldl num_max (num_opp num_inf) l.

Definition serial_ms (ref : Reference) (prefill decode : num) : num :=
  num_add (ms (rf_promptTokens ref) prefill) (ms (rf_outputTokens ref) decode).

Definition phase_request (input : TopologyInput) (isLocal : bool) (a b : NodeRow) (pa pb : BenchRow) : PhasePlanInput :=
  let rate := if isLocal then LAN_MIB_PER_SEC else RELAY_MIB_PER_SEC in
  let row n p := {| pc_nodeId := nr_id n; pc_prefillTokPerSec := Some (bn_prefillTokPerSec p);
                    pc_decodeTokPerSec := Some (bn_decodeTokPerSec p) |} in
  {| pi_candidates := [row a pa; row b pb];
     pi_promptTokens := rf_promptTokens (ti_reference input); pi_outputTokens := rf_outputTokens (ti_reference input);
     pi_stateBytesPerToken := num_of_Z (mp_boundaryBytes (ti_profile input));
     pi_transferBytesPerSec := fun _ _ => num_mul rate (num_of_Z 1048576);
     pi_prefillNodeIds := Some [nr_id a]; pi_decodeNodeIds := Some [nr_id b] |}.

(** Estimated time of the reference request, or why the plan cannot be priced. *)
Definition estimate (input : TopologyInput) (k : TopologyKind) (nodes : list NodeRow) (modelSha256 : string) : num + Unpriced :=
  let ref := ti_reference input in
  match k, nodes with
  | k_replica, n :: _ =>
      match benchFor n modelSha256 with
      | Some b => inl (serial_ms ref (bn_prefillTokPerSec b) (bn_decodeTokPerSec b))
      | None => inr (UP_bench modelSha256 (nr_hostname n))
      end
  | k_phase, a :: b :: _ =>
      match benchFor a modelSha256, benchFor b modelSha256 with
      | Some pa, Some pb =>
          match choosePhasePlan localeCompare (phase_request input (candidate_local k nodes) a b pa pb) with
          | Ok choice => inl (num_add (pp_estimatedMs choice) num_zero)
          | Err e => inr (UP_phase e)
          end
      | None, _ => inr (UP_hosts [nr_hostname a])
      | Some _, None => inr (UP_hosts [nr_hostname b])
      end
  | k_split, _ =>
      let benches := (fun n => benchFor n modelSha256) <$> nodes in
      if existsb (fun b => negb (match b with Some _ => true | None => false end)) benches
      then inr (UP_hosts (nr_hostname <$> List.filter (fun n => match benchFor n modelSha256 with Some _ => false | None => true end) nodes))
      else
        let bs := omap id benches in
        let hops := num_of_Z (Z.of_nat (length nodes) - 1) in
        let crossings := num_add (js_ceil (num_div (rf_promptTokens ref) (num_of_Z 64))) (rf_outputTokens ref) in
        inl (num_add (serial_ms ref (min_list (bn_prefillTokPerSec <$> bs)) (min_list (bn_decodeTokPerSec <$> bs)))
               (num_mul (num_mul hops crossings) (max_list (link_rtt <$> nodes))))
  | _, _ => inr (UP_hosts [])
  end.

(** Model sha for a profile when the spec does not pin one. *)
Definition profileModelSha (profile : ModelProfile) (nodes : list NodeRow) : option string :=
  head (omap (fun m => if bool_decide (mf_kind m = gguf) && re_test (mp_ggufPattern profile) (mf_name m)
                       then match mf_sha256 m with Some s => if bool_decide (s = ""%string) then None else Some s | None => None end
                       else None) (flat_map nr_models nodes)).

(** A node can hold one endpoint of a qualification. *)
Definition endpoint_fits (q : Qwen35NativeQualification) (e : NativeQualEndpoint) (n : NodeRow) : bool :=
  match nr_offer n with Some o => ro_replica (of_roles o) | None => false end &&
  bool_decide (stage_engine n = Some (qn_engine q)) &&
  bool_decide (worker_binary n = Some (qe_binarySha256 e)) &&
  existsb (fun m => bool_decide (mf_kind m = gguf) && bool_decide (mf_name m = qa_name (qe_artifact e)) &&
                    bool_decide (mf_sha256 m = Some (qa_sha256 (qe_artifact e)))) (nr_models n).

Definition qualificationPairs (nodes : list NodeRow) (quals : list Qwen35NativeQualification) (modelSha256 : string)
    : list (NodeRow * NodeRow) :=
  flat_map (fun q =>
    match qn_endpoints q with
    | e0 :: e1 :: _ =>
        if bool_decide (qn_mode q = prefill_decode_mode) && bool_decide (qn_sourceSha256 q = modelSha256) then
          flat_map (fun a => omap (fun b =>
            if negb (bool_decide (nr_id a = nr_id b)) && endpoint_fits q e0 a && endpoint_fits q e1 b then Some (a, b) else None)
            nodes) nodes
        else []
    | _ => []
    end) quals.

(** Same-LAN groups; [seen] holds the ids already grouped. *)
Fixpoint lan_groups_from (all : list NodeRow) (seen : list string) (l : list NodeRow) : list (list NodeRow) :=
  match l with
  | [] => []
  | n :: l =>
      if bool_decide (nr_id n ∈ seen) then lan_groups_from all seen l
      else
        let group := n :: List.filter (fun o => negb (bool_decide (nr_id o = nr_id n)) && negb (bool_decide (nr_id o ∈ seen)) && sameLan n o) all in
        orderNodes group :: lan_groups_from all (seen ++ (nr_id <$> group)) l
  end.
Definition lanGroups (nodes : list NodeRow) : list (list NodeRow) := lan_groups_from nodes [] nodes.

(** The plans [chooseTopology] considers, in order. *)
Definition considered (eligible : list NodeRow) (quals : list Qwen35NativeQualification) (modelSha256 : string)
    : list (TopologyKind * list NodeRow) :=
  ((fun n => (k_replica, [n])) <$> eligible) ++
  flat_map (fun ab => [(k_phase, [ab.1; ab.2]); (k_phase, [ab.2; ab.1])]) (qualificationPairs eligible quals modelSha256) ++
  flat_map (fun group =>
    if (length group <? 2)%nat then []
    else (fun c => (k_split, c :: List.filter (fun n => negb (bool_decide (nr_id n = nr_id c))) group)) <$> group)
    (lanGroups eligible).

(** [consider]: price, then let the planner admit. *)
Definition consider (input : TopologyInput) (modelSha256 : string) (kp : TopologyKind * list NodeRow)
    : TopologyCandidate + Rejection :=
  let '(k, picked) := kp in
  let hosts := nr_hostname <$> picked in
  match estimate input k picked modelSha256 with
  | inr u => inr (RJ_unpriced k hosts u)
  | inl total =>
      let trial := candidate_spec (ti_spec input) (mp_id (ti_profile input)) modelSha256 k (nr_id <$> picked) in
      match planDeployment re_test localeCompare
        {| in_spec := trial; in_profile := ti_profile input; in_nodes := ti_nodes input; in_usedPorts := ti_usedPorts input;
           in_nativeQualifications := ti_qualifications input |} with
      | Err e => inr (RJ_refused k hosts e)
      | Ok _ => inl {| tc_kind := k; tc_nodes := nr_id <$> picked; tc_hosts := hosts; tc_estimatedMs := total;
                       tc_local := candidate_local k picked |}
      end
  end.

(** The comparator, at most 0: scores more than a millisecond apart decide, then kind and node list. *)
Definition candidate_order (a b : TopologyCandidate) : bool :=
  let d := num_sub (scoreCandidate a) (scoreCandidate b) in
  if num_ltb EPSILON_MS (num_abs d) then negb (num_ltb num_zero d)
  else not_gt (then_locale (kind_name (tc_kind a)) (kind_name (tc_kind b))
                 (localeCompare (String.concat "," (tc_nodes a)) (String.concat "," (tc_nodes b)))).

Definition eligible_nodes (nodes : list NodeRow) : list NodeRow :=
  orderNodes (List.filter (fun n => nr_online n && match nr_offer n with Some o => of_enabled o | None => false end) nodes).

Definition model_sha (input : TopologyInput) : option string :=
  match ds_modelSha256 (ti_spec input) with Some s => Some s | None => profileModelSha (ti_profile input) (ti_nodes input) end.

(** The admitted candidates and the rejections of a request. *)
Definition considerations (input : TopologyInput) (sha : string) : list (TopologyCandidate + Rejection) :=
  consider input sha <$> considered (eligible_nodes (ti_nodes input)) (ti_qualifications input) sha.
Definition admitted (input : TopologyInput) (sha : string) : list TopologyCandidate :=
  omap (fun r => match r with inl c => Some c | inr _ => None end) (considerations input sha).

Definition chooseTopology (input : TopologyInput) : result TopologyError TopologyChoice :=
  let profile := mp_id (ti_profile input) in
  match model_sha input with
  | None => Err (TE_no_model profile)
  | Some sha =>
      if bool_decide (sha = ""%string) then Err (TE_no_model profile)
      else if bool_decide (eligible_nodes (ti_nodes input) = []) then Err TE_no_node
      else
        let rejected := omap (fun r => match r with inr e => Some e | inl _ => None end) (considerations input sha) in
        let candidates := js_sort candidate_order (admitted input sha) in
        match candidates with
        | [] => Err (TE_none profile rejected)
        | best :: _ =>
            Ok {| tp_best := best; tp_spec := candidate_spec (ti_spec input) profile sha (tc_kind best) (tc_nodes best);
                  tp_planHash := plan_hash sha (ti_reference input) best candidates;
                  tp_candidates := candidates; tp_rejected := rejected |}
        end
  end.
End topology.
