(* ===== verification/Registry.v ===== *)
(** * Registry (swarmlet/control/registry.ts)

    The control plane's tables as lists of rows in rowid order, one field per table of the schema;
    the intent and API key tables likewise.  [ORDER BY] is a stable sort of that order.  A time is the
    number of milliseconds its ISO text prints, so comparing texts is comparing numbers, and every
    statement that calls [now()] takes it as an argument.  A statement that violates a primary key
    throws.  JSON columns hold the protocol values.  Random bytes are arguments. *)

From S2P Require Import Prelude JsNum Json Types Validate PhasePlan Planner Resources Fleet.

Local Open Scope string_scope.
Local Open Scope list_scope.
Local Open Scope Z_scope.

(** ** Rows *)

(** A [NodeRow] with the columns the placement code never reads. *)
Record NodeEntry := {
  ne_row : NodeRow; ne_pubJwk : string; ne_arch : string; ne_enrolledAt : Z;
  ne_lastSeen : option Z; ne_agentVersion : option string }.

Record JoinCode := { jc_code : string; jc_createdAt : Z; jc_expiresAt : Z; jc_usedBy : option string }.
Record Intent := { di_running : bool; di_attempts : Z; di_retryAt : Z }.
Record IntentRow := { ir_deploymentId : string; ir_intent : Intent }.
Record EventRow := {
  er_id : Z; er_ts : Z; er_kind : string; er_nodeId : option string; er_deploymentId : option string;
  er_message : string }.
Record ApiKey := { ak_key : string; ak_name : string; ak_createdAt : Z }.
(** The columns of [fleet_runs]; the body is the run itself. *)
Record FleetRow := { fo_id : string; fo_status : RunStatus; fo_createdAt : Z; fo_updatedAt : Z; fo_body : FleetRun }.

Record Registry := {
  rg_nodes : list NodeEntry; rg_joinCodes : list JoinCode; rg_deployments : list Deployment;
  rg_intents : list IntentRow; rg_assignments : list AssignmentRow; rg_events : list EventRow;
  rg_apiKeys : list ApiKey; rg_fleetRuns : list FleetRow }.

Definition set_nodes (l : list NodeEntry) (r : Registry) : Registry :=
  {| rg_nodes := l; rg_joinCodes := rg_joinCodes r; rg_deployments := rg_deployments r; rg_intents := rg_intents
     r; rg_assignments := rg_assignments r; rg_events := rg_events r; rg_apiKeys := rg_apiKeys r; rg_fleetRuns
     := rg_fleetRuns r |}.
Definition set_joinCodes (l : list JoinCode) (r : Registry) : Registry :=
  {| rg_nodes := rg_nodes r; rg_joinCodes := l; rg_deployments := rg_deployments r; rg_intents := rg_intents r;
     rg_assignments := rg_assignments r; rg_events := rg_events r; rg_apiKeys := rg_apiKeys r; rg_fleetRuns :=
     rg_fleetRuns r |}.
Definition set_deployments (l : list Deployment) (r : Registry) : Registry :=
  {| rg_nodes := rg_nodes r; rg_joinCodes := rg_joinCodes r; rg_deployments := l; rg_intents := rg_intents r;
     rg_assignments := rg_assignments r; rg_events := rg_events r; rg_apiKeys := rg_apiKeys r; rg_fleetRuns :=
     rg_fleetRuns r |}.
Definition set_intents (l : list IntentRow) (r : Registry) : Registry :=
  {| rg_nodes := rg_nodes r; rg_joinCodes := rg_joinCodes r; rg_deployments := rg_deployments r; rg_intents :=
     l; rg_assignments := rg_assignments r; rg_events := rg_events r; rg_apiKeys := rg_apiKeys r; rg_fleetRuns
     := rg_fleetRuns r |}.
Definition set_assignments (l : list AssignmentRow) (r : Registry) : Registry :=
  {| rg_nodes := rg_nodes r; rg_joinCodes := rg_joinCodes r; rg_deployments := rg_deployments r; rg_intents :=
     rg_intents r; rg_assignments := l; rg_events := rg_events r; rg_apiKeys := rg_apiKeys r; rg_fleetRuns :=
     rg_fleetRuns r |}.
Definition set_events (l : list EventRow) (r : Registry) : Registry :=
  {| rg_nodes := rg_nodes r; rg_joinCodes := rg_joinCodes r; rg_deployments := rg_deployments r; rg_intents :=
     rg_intents r; rg_assignments := rg_assignments r; rg_events := l; rg_apiKeys := rg_apiKeys r; rg_fleetRuns
     := rg_fleetRuns r |}.
Definition set_apiKeys (l : list ApiKey) (r : Registry) : Registry :=
  {| rg_nodes := rg_nodes r; rg_joinCodes := rg_joinCodes r; rg_deployments := rg_deployments r; rg_intents :=
     rg_intents r; rg_assignments := rg_assignments r; rg_events := rg_events r; rg_apiKeys := l; rg_fleetRuns
     := rg_fleetRuns r |}.
Definition set_fleetRuns (l : list FleetRow) (r : Registry) : Registry :=
  {| rg_nodes := rg_nodes r; rg_joinCodes := rg_joinCodes r; rg_deployments := rg_deployments r; rg_intents :=
     rg_intents r; rg_assignments := rg_assignments r; rg_events := rg_events r; rg_apiKeys := rg_apiKeys r;
     rg_fleetRuns := l |}.

(** ** Tables with a primary key *)
Section table.
Context {A : Type} (key : A -> string).

(** [SELECT * WHERE key = k] *)
Definition row (k : string) (l : list A) : option A := find (fun x => String.eqb (key x) k) l.
(** [UPDATE .. WHERE key = k] *)
Definition update (k : string) (f : A -> A) (l : list A) : list A :=
  (fun x => if String.eqb (key x) k then f x else x) <$> l.
(** [INSERT], which throws on a taken key *)
Definition insert_new (x : A) (l : list A) : result string (list A) :=
  match row (key x) l with Some _ => Err "UNIQUE constraint failed" | None => Ok (l ++ [x]) end.
(** [INSERT .. ON CONFLICT(key) DO UPDATE] *)
Definition upsert (x : A) (f : A -> A) (l : list A) : list A :=
  match row (key x) l with Some _ => update (key x) f l | None => l ++ [x] end.
(** [DELETE .. WHERE key = k] *)
Definition delete_row (k : string) (l : list A) : list A := List.filter (fun x => negb (String.eqb (key x) k)) l.
End table.
#[global] Arguments row : simpl never.
#[global] Arguments update : simpl never.
#[global] Arguments upsert : simpl never.
#[global] Arguments insert_new : simpl never.

Definition ne_id (n : NodeEntry) : string := nr_id (ne_row n).

(** [ORDER BY] an integer column *)
Definition asc {A} (f : A -> Z) (l : list A) : list A := js_sort (fun x y => f x <=? f y) l.
Definition desc {A} (f : A -> Z) (l : list A) : list A := js_sort (fun x y => f y <=? f x) l.

(** ** Opening the file *)

(** [INSERT OR IGNORE INTO deployment_intent .. SELECT .. FROM deployments] *)
Definition backfill_intent (l : list IntentRow) (d : Deployment) : list IntentRow :=
  match row ir_deploymentId (dep_id d) l with
  | Some _ => l
  | None =>
      l ++ [{| ir_deploymentId := dep_id d;
               ir_intent := {| di_running := match dep_state d with placing | loading | ready => true | _ => false end;
                               di_attempts := 0; di_retryAt := 0 |} |}]
  end.

Definition set_node_online (b : bool) (n : NodeRow) : NodeRow :=
  {| nr_id := nr_id n; nr_certFp := nr_certFp n; nr_hostname := nr_hostname n; nr_os := nr_os n; nr_online := b;
     nr_caps := nr_caps n; nr_offer := nr_offer n; nr_models := nr_models n; nr_metrics := nr_metrics n |}.
Definition with_row (f : NodeRow -> NodeRow) (n : NodeEntry) : NodeEntry :=
  {| ne_row := f (ne_row n); ne_pubJwk := ne_pubJwk n; ne_arch := ne_arch n; ne_enrolledAt := ne_enrolledAt n;
     ne_lastSeen := ne_lastSeen n; ne_agentVersion := ne_agentVersion n |}.

(** The constructor on an existing file. *)
Definition open_registry (r : Registry) : Registry :=
  set_nodes (with_row (set_node_online false) <$> rg_nodes r)
    (set_intents (foldl backfill_intent (rg_intents r) (rg_deployments r)) r).

(** ** Fleet runs *)

Definition fleet_row (x : FleetRun) : FleetRow :=
  {| fo_id := fr_id x; fo_status := fr_status x; fo_createdAt := fr_createdAt x; fo_updatedAt := fr_updatedAt x; fo_body := x |}.

Definition is_preview (x : FleetRow) : bool := bool_decide (fo_status x = s_preview).

(** Two statements: the upsert, and the deletion of every preview but the 20 newest. *)
Definition saveFleetRun (x : FleetRun) (r : Registry) : Registry :=
  let l := upsert fo_id (fleet_row x)
    (fun o => {| fo_id := fo_id o; fo_status := fr_status x; fo_createdAt := fo_createdAt o; fo_updatedAt := fr_updatedAt x;
                 fo_body := x |}) (rg_fleetRuns r) in
  let newest := fo_id <$> take 20 (desc fo_createdAt (List.filter is_preview l)) in
  set_fleetRuns (List.filter (fun o => negb (is_preview o && negb (bool_decide (fo_id o ∈ newest)))) l) r.

Definition fleetRun (r : Registry) (id : string) : option FleetRun := fo_body <$> row fo_id id (rg_fleetRuns r).

Definition fleetRuns (r : Registry) : list FleetRun :=
  fo_body <$> take 20 (desc fo_createdAt (List.filter (fun o => negb (is_preview o)) (rg_fleetRuns r))).

(** ** Join codes *)

Definition digit36 (x : Z) : Ascii.ascii :=
  Ascii.ascii_of_nat (Z.to_nat (if x <? 10 then 48 + x else 65 + (x - 10))).
(** [[...b].map((x) => (x % 36).toString(36)).join("").toUpperCase()] *)
Definition join_code (bytes : list Z) : string :=
  foldr (fun x s => String (digit36 (x mod 36)) s) "" bytes.

Definition upper_char (a : Ascii.ascii) : Ascii.ascii :=
  let n := Ascii.nat_of_ascii a in
  if ((97 <=? n)%nat && (n <=? 122)%nat) then Ascii.ascii_of_nat (n - 32)%nat else a.
(** [s.toUpperCase()] on ASCII *)
Fixpoint toUpperCase (s : string) : string :=
  match s with EmptyString => "" | String a s => String (upper_char a) (toUpperCase s) end.

Definition createJoinCode (now ttlMs : Z) (bytes : list Z) (r : Registry) : result string ((string * Z) * Registry) :=
  let code := join_code bytes in
  let expiresAt := now + ttlMs in
  l ← insert_new jc_code {| jc_code := code; jc_createdAt := now; jc_expiresAt := expiresAt; jc_usedBy := None |}
        (rg_joinCodes r);
  Ok ((code, expiresAt), set_joinCodes l r).

Definition used_by (nodeId : string) (c : JoinCode) : JoinCode :=
  {| jc_code := jc_code c; jc_createdAt := jc_createdAt c; jc_expiresAt := jc_expiresAt c; jc_usedBy := Some nodeId |}.

(** The reason of a refusal, or [None]. *)
Definition consumeJoinCode (now : Z) (code nodeId : string) (r : Registry) : option string * Registry :=
  match row jc_code (toUpperCase code) (rg_joinCodes r) with
  | None => (Some "unknown join code", r)
  | Some c =>
      if match jc_usedBy c with Some u => negb (String.eqb u "") && negb (String.eqb u nodeId) | None => false end
      then (Some "join code already used", r)
      else if jc_expiresAt c <? now then (Some "join code expired", r)
      else (None, set_joinCodes (update jc_code (toUpperCase code) (used_by nodeId) (rg_joinCodes r)) r)
  end.

(** ** Nodes *)

Definition new_node (now : Z) (id pubJwk certFp hostname : string) (os : Os) (arch : string)
    (caps : option Capabilities) : NodeEntry :=
  {| ne_row := {| nr_id := id; nr_certFp := certFp; nr_hostname := hostname; nr_os := os; nr_online := false;
                  nr_caps := caps; nr_offer := None; nr_models := []; nr_metrics := None |};
     ne_pubJwk := pubJwk; ne_arch := arch; ne_enrolledAt := now; ne_lastSeen := None; ne_agentVersion := None |}.

Definition upsertNode (now : Z) (id pubJwk certFp hostname : string) (os : Os) (arch : string)
    (caps : option Capabilities) (r : Registry) : Registry :=
  set_nodes (upsert ne_id (new_node now id pubJwk certFp hostname os arch caps)
    (fun n => {| ne_row := {| nr_id := nr_id (ne_row n); nr_certFp := certFp; nr_hostname := hostname; nr_os := os;
                              nr_online := nr_online (ne_row n);
                              nr_caps := match caps with Some c => Some c | None => nr_caps (ne_row n) end;
                              nr_offer := nr_offer (ne_row n); nr_models := nr_models (ne_row n);
                              nr_metrics := nr_metrics (ne_row n) |};
                 ne_pubJwk := pubJwk; ne_arch := arch; ne_enrolledAt := ne_enrolledAt n;
                 ne_lastSeen := ne_lastSeen n; ne_agentVersion := ne_agentVersion n |}) (rg_nodes r)) r.

Definition getNode (r : Registry) (id : string) : option NodeRow := ne_row <$> row ne_id id (rg_nodes r).

(** [ORDER BY hostname]: SQLite compares the bytes. *)
Definition listNodes (r : Registry) : list NodeRow :=
  js_sort (by_key String.compare nr_hostname) (ne_row <$> rg_nodes r).

Definition update_node (id : string) (f : NodeEntry -> NodeEntry) (r : Registry) : Registry :=
  set_nodes (update ne_id id f (rg_nodes r)) r.

Definition seen (now : Z) (n : NodeEntry) : NodeEntry :=
  {| ne_row := ne_row n; ne_pubJwk := ne_pubJwk n; ne_arch := ne_arch n; ne_enrolledAt := ne_enrolledAt n;
     ne_lastSeen := Some now; ne_agentVersion := ne_agentVersion n |}.
Definition versioned (v : option string) (n : NodeEntry) : NodeEntry :=
  {| ne_row := ne_row n; ne_pubJwk := ne_pubJwk n; ne_arch := ne_arch n; ne_enrolledAt := ne_enrolledAt n;
     ne_lastSeen := ne_lastSeen n; ne_agentVersion := match v with Some v => Some v | None => ne_agentVersion n end |}.

Definition setOnline (now : Z) (id : string) (online : bool) (agentVersion : option string) (r : Registry) : Registry :=
  update_node id (fun n => versioned agentVersion (seen now (with_row (set_node_online online) n))) r.

Definition row_caps (c : Capabilities) (n : NodeRow) : NodeRow :=
  {| nr_id := nr_id n; nr_certFp := nr_certFp n; nr_hostname := nr_hostname n; nr_os := nr_os n;
     nr_online := nr_online n; nr_caps := Some c; nr_offer := nr_offer n; nr_models := nr_models n;
     nr_metrics := nr_metrics n |}.
Definition row_offer (o : Offer) (n : NodeRow) : NodeRow :=
  {| nr_id := nr_id n; nr_certFp := nr_certFp n; nr_hostname := nr_hostname n; nr_os := nr_os n;
     nr_online := nr_online n; nr_caps := nr_caps n; nr_offer := Some o; nr_models := nr_models n;
     nr_metrics := nr_metrics n |}.
Definition row_models (l : list ModelFile) (n : NodeRow) : NodeRow :=
  {| nr_id := nr_id n; nr_certFp := nr_certFp n; nr_hostname := nr_hostname n; nr_os := nr_os n;
     nr_online := nr_online n; nr_caps := nr_caps n; nr_offer := nr_offer n; nr_models := l;
     nr_metrics := nr_metrics n |}.
Definition row_metrics (m : NodeMetrics) (n : NodeRow) : NodeRow :=
  {| nr_id := nr_id n; nr_certFp := nr_certFp n; nr_hostname := nr_hostname n; nr_os := nr_os n;
     nr_online := true; nr_caps := nr_caps n; nr_offer := nr_offer n; nr_models := nr_models n;
     nr_metrics := Some m |}.

Definition setCaps (now : Z) (id : string) (caps : Capabilities) (r : Registry) : Registry :=
  update_node id (fun n => seen now (with_row (row_caps caps) n)) r.
Definition setOffer (id : string) (offer : Offer) (r : Registry) : Registry :=
  update_node id (with_row (row_offer offer)) r.
Definition setModels (id : string) (models : list ModelFile) (r : Registry) : Registry :=
  update_node id (with_row (row_models models)) r.

(** [caps] is the partial record of a heartbeat, as the override [{ ...cur, ...caps }] it makes. *)
Definition setMetrics (now : Z) (id : string) (metrics : NodeMetrics) (caps : option (Capabilities -> Capabilities))
    (r : Registry) : Registry :=
  let r := match caps with
           | Some over =>
               match getNode r id ≫= nr_caps with
               | Some cur => update_node id (with_row (row_caps (over cur))) r
               | None => r
               end
           | None => r
           end in
  update_node id (fun n => seen now (with_row (row_metrics metrics) n)) r.

(** ** Deployments *)

Definition no_intent : Intent := {| di_running := false; di_attempts := 0; di_retryAt := 0 |}.

Definition new_deployment (now : Z) (id : string) (spec : DeploymentSpec) : Deployment :=
  {| dep_id := id; dep_spec := spec; dep_savedDistribution := None; dep_state := planned; dep_plan := None;
     dep_endpoint := None; dep_error := None; dep_createdAt := now; dep_updatedAt := now |}.

(** Two statements, no transaction: the first one stays when the second throws. *)
Definition createDeployment (now : Z) (id : string) (spec : DeploymentSpec) (r : Registry) : result string unit * Registry :=
  match insert_new dep_id (new_deployment now id spec) (rg_deployments r) with
  | Err e => (Err e, r)
  | Ok ds =>
      let r := set_deployments ds r in
      match insert_new ir_deploymentId {| ir_deploymentId := id; ir_intent := no_intent |} (rg_intents r) with
      | Err e => (Err e, r)
      | Ok l => (Ok tt, set_intents l r)
      end
  end.

Definition getDeployment (r : Registry) (id : string) : option Deployment := row dep_id id (rg_deployments r).
Definition listDeployments (r : Registry) : list Deployment := desc dep_createdAt (rg_deployments r).

Definition update_dep (id : string) (f : Deployment -> Deployment) (r : Registry) : Registry :=
  set_deployments (update dep_id id f (rg_deployments r)) r.

Definition saveDistribution (now : Z) (id : string) (d : LayerDistribution) (r : Registry) : Registry :=
  update_dep id (fun x =>
    {| dep_id := dep_id x; dep_spec := dep_spec x; dep_savedDistribution := Some d; dep_state := dep_state x;
       dep_plan := dep_plan x; dep_endpoint := dep_endpoint x; dep_error := dep_error x;
       dep_createdAt := dep_createdAt x; dep_updatedAt := now |}) r.

Definition applyDistributionSpec (now : Z) (id : string) (spec : DeploymentSpec) (r : Registry) : Registry :=
  update_dep id (fun x =>
    {| dep_id := dep_id x; dep_spec := spec; dep_savedDistribution := dep_savedDistribution x; dep_state := planned;
       dep_plan := None; dep_endpoint := None; dep_error := None;
       dep_createdAt := dep_createdAt x; dep_updatedAt := now |}) r.

Definition applyFleetSpecs (now : Z) (entries : list (string * DeploymentSpec)) (r : Registry) : Registry :=
  foldl (fun r e => applyDistributionSpec now e.1 e.2 r) r entries.

(** A patch: [None] is an absent property, [Some None] a [null]. *)
Record Patch := {
  pt_state : option DeploymentState; pt_plan : option (option Plan);
  pt_endpoint : option (option (string * Z * string)); pt_error : option (option string);
  pt_spec : option DeploymentSpec }.

Definition patched (now : Z) (p : Patch) (x : Deployment) : Deployment :=
  {| dep_id := dep_id x; dep_spec := default (dep_spec x) (pt_spec p);
     dep_savedDistribution := dep_savedDistribution x; dep_state := default (dep_state x) (pt_state p);
     dep_plan := default (dep_plan x) (pt_plan p); dep_endpoint := default (dep_endpoint x) (pt_endpoint p);
     dep_error := default (dep_error x) (pt_error p); dep_createdAt := dep_createdAt x; dep_updatedAt := now |}.

Definition updateDeployment (now : Z) (id : string) (p : Patch) (r : Registry) : Registry :=
  update_dep id (patched now p) r.

Definition deleteDeployment (id : string) (r : Registry) : Registry :=
  set_deployments (delete_row dep_id id (rg_deployments r))
    (set_assignments (delete_row ar_deploymentId id (rg_assignments r))
      (set_intents (delete_row ir_deploymentId id (rg_intents r)) r)).

Definition deploymentIntent (r : Registry) (id : string) : Intent :=
  default no_intent (ir_intent <$> row ir_deploymentId id (rg_intents r)).

Definition setDeploymentIntent (id : string) (running : option bool) (attempts retryAt : option Z)
    (r : Registry) : Registry :=
  let cur := deploymentIntent r id in
  let next := {| di_running := default (di_running cur) running; di_attempts := default (di_attempts cur) attempts;
                 di_retryAt := default (di_retryAt cur) retryAt |} in
  let x := {| ir_deploymentId := id; ir_intent := next |} in
  set_intents (upsert ir_deploymentId x (fun _ => x) (rg_intents r)) r.

(** ** Assignments *)

Definition assignment_id (a : Assignment) : string :=
  match a with AWorker a => wa_id a | ACoordinator a => ca_id a | AReplica a => ra_id a | AStage a => sa_id a
  | AStop a => so_id a end.
Definition assignment_deployment (a : Assignment) : string :=
  match a with AWorker a => wa_deploymentId a | ACoordinator a => ca_deploymentId a | AReplica a => ra_deploymentId a
  | AStage a => sa_deploymentId a | AStop a => so_deploymentId a end.

Definition putAssignment (now : Z) (a : Assignment) (nodeId : string) (r : Registry) : Registry :=
  set_assignments (upsert ar_id
    {| ar_id := assignment_id a; ar_deploymentId := assignment_deployment a; ar_nodeId := nodeId; ar_body := a;
       ar_state := None; ar_detail := None; ar_updatedAt := now; ar_retired := false |}
    (fun x => {| ar_id := ar_id x; ar_deploymentId := ar_deploymentId x; ar_nodeId := nodeId; ar_body := a;
                 ar_state := None; ar_detail := ar_detail x; ar_updatedAt := now; ar_retired := false |})
    (rg_assignments r)) r.

Definition setAssignmentState (now : Z) (id : string) (state : AssignmentState) (detail : option string)
    (r : Registry) : Registry :=
  set_assignments (update ar_id id (fun x =>
    {| ar_id := ar_id x; ar_deploymentId := ar_deploymentId x; ar_nodeId := ar_nodeId x; ar_body := ar_body x;
       ar_state := Some state; ar_detail := match detail with Some d => Some d | None => ar_detail x end;
       ar_updatedAt := now; ar_retired := ar_retired x |}) (rg_assignments r)) r.

Definition retireAssignment (id : string) (r : Registry) : Registry :=
  set_assignments (update ar_id id (fun x =>
    {| ar_id := ar_id x; ar_deploymentId := ar_deploymentId x; ar_nodeId := ar_nodeId x; ar_body := ar_body x;
       ar_state := ar_state x; ar_detail := ar_detail x; ar_updatedAt := ar_updatedAt x; ar_retired := true |})
    (rg_assignments r)) r.

Definition getAssignment (r : Registry) (id : string) : option AssignmentRow := row ar_id id (rg_assignments r).
Definition listAssignments (r : Registry) (deploymentId : option string) : list AssignmentRow :=
  asc ar_updatedAt
    match deploymentId with
    | Some d => if String.eqb d "" then rg_assignments r
                else List.filter (fun x => String.eqb (ar_deploymentId x) d) (rg_assignments r)
    | None => rg_assignments r
    end.

(** ** Events and API keys *)

(** AUTOINCREMENT: one above the largest id so far (no event is ever deleted). *)
Definition event (now : Z) (kind message : string) (nodeId deploymentId : option string) (r : Registry) : Registry :=
  let id := 1 + foldr Z.max 0 (er_id <$> rg_events r) in
  set_events (rg_events r ++ [{| er_id := id; er_ts := now; er_kind := kind; er_nodeId := nodeId;
                                 er_deploymentId := deploymentId; er_message := message |}]) r.

(** A negative limit is none. *)
Definition listEvents (r : Registry) (limit : Z) : list EventRow :=
  let l := desc er_id (rg_events r) in if limit <? 0 then l else take (Z.to_nat limit) l.

Definition hex_digit (x : Z) : Ascii.ascii :=
  Ascii.ascii_of_nat (Z.to_nat (if x <? 10 then 48 + x else 87 + x)).
Definition hex_key (bytes : list Z) : string :=
  "sw-" +:+ foldr (fun x s => String (hex_digit (x / 16)) (String (hex_digit (x mod 16)) s)) "" bytes.

Definition createApiKey (now : Z) (name : string) (bytes : list Z) (r : Registry) : result string (string * Registry) :=
  let key := hex_key bytes in
  l ← insert_new ak_key {| ak_key := key; ak_name := name; ak_createdAt := now |} (rg_apiKeys r);
  Ok (key, set_apiKeys l r).

Definition hasApiKey (r : Registry) (key : string) : bool :=
  match row ak_key key (rg_apiKeys r) with Some _ => true | None => false end.

Definition nodeApiKey (now : Z) (nodeId : string) (bytes : list Z) (r : Registry) : result string (string * Registry) :=
  match getNode r nodeId with
  | None => Err "unknown node"
  | Some _ =>
      let name := "node:" +:+ nodeId in
      match head (asc ak_createdAt (List.filter (fun k => String.eqb (ak_name k) name) (rg_apiKeys r))) with
      | Some k => Ok (ak_key k, r)
      | None => createApiKey now name bytes r
      end
  end.

Definition listApiKeys (r : Registry) : list (string * Z * string) :=
  (fun k => (ak_name k, ak_createdAt k, String.substring 0 8 (ak_key k))) <$> asc ak_createdAt (rg_apiKeys r).

(** ** The writes of the registry, as one type *)

Inductive Op :=
  | OpJoinCode (now ttlMs : Z) (bytes : list Z)
  | OpConsume (now : Z) (code nodeId : string)
  | OpUpsert (now : Z) (id pubJwk certFp hostname : string) (os : Os) (arch : string) (caps : option Capabilities)
  | OpOnline (now : Z) (id : string) (online : bool) (version : option string)
  | OpCaps (now : Z) (id : string) (caps : Capabilities)
  | OpOffer (id : string) (offer : Offer)
  | OpModels (id : string) (models : list ModelFile)
  | OpMetrics (now : Z) (id : string) (metrics : NodeMetrics) (caps : option (Capabilities -> Capabilities))
  | OpCreate (now : Z) (id : string) (spec : DeploymentSpec)
  | OpSave (now : Z) (id : string) (d : LayerDistribution)
  | OpFleetSpecs (now : Z) (entries : list (string * DeploymentSpec))
  | OpUpdate (now : Z) (id : string) (p : Patch)
  | OpDelete (id : string)
  | OpIntent (id : string) (running : option bool) (attempts retryAt : option Z)
  | OpPut (now : Z) (a : Assignment) (nodeId : string)
  | OpState (now : Z) (id : string) (state : AssignmentState) (detail : option string)
  | OpRetire (id : string)
  | OpEvent (now : Z) (kind message : string) (nodeId deploymentId : option string)
  | OpApiKey (now : Z) (name : string) (bytes : list Z)
  | OpNodeKey (now : Z) (nodeId : string) (bytes : list Z)
  | OpRun (x : FleetRun)
  | OpOpen.

(** A statement that throws changes nothing. *)
Definition kept {A} (r : Registry) (x : result string (A * Registry)) : Registry :=
  match x with Ok (_, r') => r' | Err _ => r end.

Definition apply_op (r : Registry) (o : Op) : Registry :=
  match o with
  | OpJoinCode now ttlMs bytes => kept r (createJoinCode now ttlMs bytes r)
  | OpConsume now code nodeId => (consumeJoinCode now code nodeId r).2
  | OpUpsert now id pubJwk certFp hostname os arch caps => upsertNode now id pubJwk certFp hostname os arch caps r
  | OpOnline now id online version => setOnline now id online version r
  | OpCaps now id caps => setCaps now id caps r
  | OpOffer id offer => setOffer id offer r
  | OpModels id models => setModels id models r
  | OpMetrics now id metrics caps => setMetrics now id metrics caps r
  | OpCreate now id spec => (createDeployment now id spec r).2
  | OpSave now id d => saveDistribution now id d r
  | OpFleetSpecs now entries => applyFleetSpecs now entries r
  | OpUpdate now id p => updateDeployment now id p r
  | OpDelete id => deleteDeployment id r
  | OpIntent id running attempts retryAt => setDeploymentIntent id running attempts retryAt r
  | OpPut now a nodeId => putAssignment now a nodeId r
  | OpState now id state detail => setAssignmentState now id state detail r
  | OpRetire id => retireAssignment id r
  | OpEvent now kind message nodeId deploymentId => event now kind message nodeId deploymentId r
  | OpApiKey now name bytes => kept r (createApiKey now name bytes r)
  | OpNodeKey now nodeId bytes => kept r (nodeApiKey now nodeId bytes r)
  | OpRun x => saveFleetRun x r
  | OpOpen => open_registry r
  end.

Definition empty_registry : Registry :=
  {| rg_nodes := []; rg_joinCodes := []; rg_deployments := []; rg_intents := []; rg_assignments := [];
     rg_events := []; rg_apiKeys := []; rg_fleetRuns := [] |}.

(** ** Tables: facts *)
Section table_facts.
Context {A : Type} (key : A -> string).
Implicit Types (l : list A) (f : A -> A) (k : string).

Lemma row_key k l x : row key k l = Some x -> key x = k /\ x ∈ l.
Proof. intros [Hin E]%find_Some. split; [by apply String.eqb_eq|done]. Qed.

Lemma row_None k l : row key k l = None <-> k ∉ key <$> l.
Proof.
  unfold row. rewrite find_None, list_elem_of_fmap. split.
  - intros H (x & -> & Hx). specialize (H x Hx). by rewrite String.eqb_refl in H.
  - intros H x Hx. apply String.eqb_neq. intros <-. apply H. eauto.
Qed.

Lemma update_keys k f l : (forall x, key x = k -> key (f x) = k) -> key <$> update key k f l = key <$> l.
Proof.
  intros Hf. unfold update. rewrite <-list_fmap_compose. apply list_fmap_ext. intros i x _. cbn.
  destruct (String.eqb (key x) k) eqn:E; [|done]. apply String.eqb_eq in E. by rewrite Hf.
Qed.

Lemma row_update k k' f l : (forall x, key x = k -> key (f x) = k) ->
  row key k' (update key k f l) = (if String.eqb k k' then f <$> row key k' l else row key k' l).
Proof.
  intros Hf. unfold row, update. induction l as [|x l IH]; cbn; [by destruct (String.eqb k k')|].
  destruct (String.eqb (key x) k) eqn:E1.
  - apply String.eqb_eq in E1. rewrite (Hf x E1), E1. destruct (String.eqb k k') eqn:E2; cbn; [done|].
    by rewrite IH.
  - destruct (String.eqb (key x) k') eqn:E2; cbn; [|done].
    apply String.eqb_eq in E2. subst k'. rewrite String.eqb_sym, E1. done.
Qed.

Lemma row_app k l l' : row key k (l ++ l') = match row key k l with Some x => Some x | None => row key k l' end.
Proof. unfold row. induction l as [|x l IH]; cbn; [done|]. by destruct (String.eqb (key x) k). Qed.

Lemma row_snoc k l x :
  row key k (l ++ [x]) = match row key k l with Some y => Some y | None => if String.eqb (key x) k then Some x else None end.
Proof. rewrite row_app. done. Qed.

Lemma insert_new_NoDup x l l' : insert_new key x l = Ok l' -> NoDup (key <$> l) -> NoDup (key <$> l').
Proof.
  unfold insert_new. destruct (row key (key x) l) eqn:E; [done|]. intros [= <-] Hnd.
  rewrite fmap_app. apply NoDup_app. apply row_None in E.
  split_and!; [done| |apply NoDup_singleton]. by intros y Hy ->%list_elem_of_singleton.
Qed.

Lemma upsert_keys x f l : (forall y, key y = key x -> key (f y) = key x) ->
  key <$> upsert key x f l = (key <$> l) ++ (if bool_decide (key x ∈ key <$> l) then [] else [key x]).
Proof.
  intros Hf. unfold upsert. destruct (row key (key x) l) as [y|] eqn:E.
  - rewrite update_keys by done. rewrite bool_decide_eq_true_2, app_nil_r; [done|].
    apply row_key in E as [<- Hin]. by apply list_elem_of_fmap_2.
  - apply row_None in E. rewrite bool_decide_eq_false_2 by done. by rewrite fmap_app.
Qed.

Lemma snoc_key_NoDup (l : list string) k :
  NoDup l -> NoDup (l ++ (if bool_decide (k ∈ l) then [] else [k])).
Proof.
  intros Hnd. case_bool_decide as Hb; [by rewrite app_nil_r|].
  apply NoDup_app. split_and!; [done| |apply NoDup_singleton]. by intros y Hy ->%list_elem_of_singleton.
Qed.

Lemma upsert_NoDup x f l : (forall y, key y = key x -> key (f y) = key x) -> NoDup (key <$> l) -> NoDup (key <$> upsert key x f l).
Proof. intros Hf Hnd. rewrite upsert_keys by done. by apply snoc_key_NoDup. Qed.

Lemma row_upsert x f k l : (forall y, key y = key x -> key (f y) = key x) ->
  row key k (upsert key x f l) =
    (if String.eqb (key x) k then Some (match row key k l with Some y => f y | None => x end) else row key k l).
Proof.
  intros Hf. unfold upsert. destruct (row key (key x) l) as [y|] eqn:E.
  - rewrite row_update by done. destruct (String.eqb (key x) k) eqn:Ek; [|done].
    apply String.eqb_eq in Ek as <-. by rewrite E.
  - rewrite row_snoc. destruct (String.eqb (key x) k) eqn:Ek.
    + apply String.eqb_eq in Ek as <-. by rewrite E.
    + by destruct (row key k l).
Qed.

Lemma elem_of_delete k l x : x ∈ delete_row key k l <-> x ∈ l /\ key x <> k.
Proof.
  unfold delete_row. rewrite !list_elem_of_In, filter_In, negb_true_iff. by rewrite String.eqb_neq.
Qed.
End table_facts.

(** ** Well-formed tables

    Primary keys are unique, event ids are above all earlier ones, and every deployment has its row of
    intent. *)
Record wf (r : Registry) : Prop := {
  wf_nodes : NoDup (ne_id <$> rg_nodes r);
  wf_codes : NoDup (jc_code <$> rg_joinCodes r);
  wf_deps : NoDup (dep_id <$> rg_deployments r);
  wf_intents : NoDup (ir_deploymentId <$> rg_intents r);
  wf_assignments : NoDup (ar_id <$> rg_assignments r);
  wf_keys : NoDup (ak_key <$> rg_apiKeys r);
  wf_runs : NoDup (fo_id <$> rg_fleetRuns r);
  wf_events : StronglySorted Z.lt (er_id <$> rg_events r);
  wf_intent_of : forall d, d ∈ dep_id <$> rg_deployments r -> d ∈ ir_deploymentId <$> rg_intents r }.

Lemma wf_empty : wf empty_registry.
Proof. split; cbn; try constructor. by intros d ?%elem_of_nil. Qed.

(** Writes that keep the keys of a table keep the registry well-formed. *)
Lemma wf_update_node id f r : (forall n, ne_id n = id -> ne_id (f n) = id) -> wf r -> wf (update_node id f r).
Proof. intros Hf []. split; cbn; try done. by rewrite update_keys. Qed.

Lemma wf_update_dep id f r : (forall d, dep_id d = id -> dep_id (f d) = id) -> wf r -> wf (update_dep id f r).
Proof. intros Hf []. split; cbn; try done; by rewrite update_keys. Qed.

Lemma wf_update_assignment id f r : (forall a, ar_id a = id -> ar_id (f a) = id) -> wf r ->
  wf (set_assignments (update ar_id id f (rg_assignments r)) r).
Proof. intros Hf []. split; cbn; try done; by rewrite update_keys. Qed.

Lemma wf_metrics now id m caps r : wf r -> wf (setMetrics now id m caps r).
Proof.
  intros H. unfold setMetrics. apply wf_update_node; [done|]. destruct caps as [over|]; [|done].
  destruct (getNode r id ≫= nr_caps); [|done]. by apply wf_update_node.
Qed.

Lemma wf_createApiKey now name bytes r : wf r -> wf (kept r (createApiKey now name bytes r)).
Proof.
  intros H. unfold createApiKey. destruct (insert_new _ _ _) as [l|] eqn:E; cbn; [|done].
  destruct H. split; cbn; try done. by eapply insert_new_NoDup.
Qed.

Lemma wf_nodeApiKey now nodeId bytes r : wf r -> wf (kept r (nodeApiKey now nodeId bytes r)).
Proof.
  intros H. unfold nodeApiKey. destruct (getNode r nodeId); [|done].
  destruct (head _); [done|]. by apply wf_createApiKey.
Qed.

Lemma wf_create now id spec r : wf r -> wf (createDeployment now id spec r).2.
Proof.
  intros H. pose proof H as []. unfold createDeployment. destruct (insert_new dep_id _ _) as [ds|] eqn:E1; [|done].
  pose proof (insert_new_NoDup _ _ _ _ E1 wf_deps0) as Hnd.
  unfold insert_new in E1. destruct (row dep_id _ _); [done|]. injection E1 as <-. cbn.
  destruct (insert_new ir_deploymentId _ _) as [l|] eqn:E2; cbn.
  - pose proof (insert_new_NoDup _ _ _ _ E2 wf_intents0) as Hni.
    unfold insert_new in E2. destruct (row ir_deploymentId _ _); [done|]. injection E2 as <-.
    split; cbn; try done. intros d. rewrite !fmap_app, !elem_of_app. cbn. intros [?|?]; auto.
  - split; cbn; try done. intros d. rewrite fmap_app, elem_of_app. intros [?|Hd]; [auto|].
    apply list_elem_of_singleton in Hd as ->. unfold insert_new in E2.
    destruct (row ir_deploymentId _ _) as [x|] eqn:E3; [|done]. cbn in E3.
    apply row_key in E3 as [<- Hin]. by apply (list_elem_of_fmap_2 ir_deploymentId).
Qed.

Lemma delete_row_NoDup {A B} (key : A -> string) (key' : A -> B) k l :
  NoDup (key' <$> l) -> NoDup (key' <$> delete_row key k l).
Proof.
  apply NoDup_fmap_filter.
Qed.

Lemma wf_delete id r : wf r -> wf (deleteDeployment id r).
Proof.
  intros []. split; cbn; auto using delete_row_NoDup.
  intros d Hd. apply list_elem_of_fmap in Hd as (x & -> & Hx). apply elem_of_delete in Hx as [Hx Hne].
  specialize (wf_intent_of0 (dep_id x) (list_elem_of_fmap_2 _ _ _ Hx)).
  apply list_elem_of_fmap in wf_intent_of0 as (y & Hy & Hin). rewrite Hy. apply list_elem_of_fmap_2.
  apply elem_of_delete. split; [done|]. congruence.
Qed.

Lemma backfill_keys l d : ir_deploymentId <$> backfill_intent l d =
  (ir_deploymentId <$> l) ++ (if bool_decide (dep_id d ∈ ir_deploymentId <$> l) then [] else [dep_id d]).
Proof.
  unfold backfill_intent. destruct (row ir_deploymentId (dep_id d) l) as [y|] eqn:E.
  - rewrite bool_decide_eq_true_2, app_nil_r; [done|]. apply row_key in E as [<- Hin]. by apply list_elem_of_fmap_2.
  - apply row_None in E. rewrite bool_decide_eq_false_2 by done. by rewrite fmap_app.
Qed.

Lemma backfill_all ds : forall l, NoDup (ir_deploymentId <$> l) ->
  NoDup (ir_deploymentId <$> foldl backfill_intent l ds) /\
  forall d, d ∈ ir_deploymentId <$> l \/ d ∈ dep_id <$> ds -> d ∈ ir_deploymentId <$> foldl backfill_intent l ds.
Proof.
  induction ds as [|x ds IH]; cbn; intros l Hnd.
  - split; [done|]. intros d [?|?%elem_of_nil]; done.
  - destruct (IH (backfill_intent l x)) as [H1 H2].
    { rewrite backfill_keys. by apply snoc_key_NoDup. }
    split; [done|]. intros d Hd. apply H2. rewrite backfill_keys, elem_of_app, elem_of_cons in *.
    case_bool_decide; set_solver.
Qed.

Lemma wf_open r : wf r -> wf (open_registry r).
Proof.
  intros []. destruct (backfill_all (rg_deployments r) (rg_intents r)) as [H1 H2]; [done|].
  split; cbn; try done; [|by auto]. by rewrite <-list_fmap_compose.
Qed.

Lemma autoincrement_sorted l : StronglySorted Z.lt l -> StronglySorted Z.lt (l ++ [1 + foldr Z.max 0 l]).
Proof.
  intros Hs. assert (Forall (fun x => x < 1 + foldr Z.max 0 l) l) as Hf.
  { clear Hs. induction l as [|x l IH]; cbn; constructor; [lia|]. eapply Forall_impl; [exact IH|]. cbn. intros; lia. }
  revert Hf. generalize (1 + foldr Z.max 0 l) as m. induction l as [|x l IH]; cbn; intros m Hf; [by repeat constructor|].
  apply StronglySorted_inv in Hs as [Hs Hx]. apply Forall_cons in Hf as [Hm Hf].
  constructor; [auto|]. apply Forall_app. auto.
Qed.

Lemma wf_event now kind message n d r : wf r -> wf (event now kind message n d r).
Proof.
  intros []. split; cbn; try done. rewrite fmap_app. cbn.
  by apply autoincrement_sorted.
Qed.

Lemma wf_joinCode now ttl bytes r : wf r -> wf (kept r (createJoinCode now ttl bytes r)).
Proof.
  intros H. unfold createJoinCode. destruct (insert_new _ _ _) as [l|] eqn:E; cbn; [|done].
  destruct H. split; cbn; try done. by eapply insert_new_NoDup.
Qed.

Lemma wf_consume now code n r : wf r -> wf (consumeJoinCode now code n r).2.
Proof.
  intros H. unfold consumeJoinCode. destruct (row _ _ _); [|done]. repeat case_match; try done.
  all: destruct H; split; cbn; try done; by rewrite update_keys.
Qed.

Lemma wf_intent id running attempts retryAt r : wf r -> wf (setDeploymentIntent id running attempts retryAt r).
Proof.
  intros []. split; cbn; try done.
  - apply upsert_NoDup; done.
  - intros d Hd. rewrite upsert_keys by done. apply elem_of_app. auto.
Qed.

Lemma wf_put now a n r : wf r -> wf (putAssignment now a n r).
Proof. intros []. split; cbn; try done. by apply upsert_NoDup. Qed.

Lemma wf_upsertNode now id pubJwk certFp hostname os arch caps r :
  wf r -> wf (upsertNode now id pubJwk certFp hostname os arch caps r).
Proof. intros []. split; cbn; try done. by apply upsert_NoDup. Qed.

Lemma wf_fleet now entries : forall r, wf r -> wf (applyFleetSpecs now entries r).
Proof.
  induction entries as [|e l IH]; intros r H; [done|]. cbn. apply IH. by apply wf_update_dep.
Qed.

Lemma wf_run_saved x r : wf r -> wf (saveFleetRun x r).
Proof. intros []. split; cbn; try done. apply NoDup_fmap_filter. by apply upsert_NoDup. Qed.

Lemma wf_step r o : wf r -> wf (apply_op r o).
Proof.
  destruct o; cbn [apply_op]; auto using wf_joinCode, wf_consume, wf_upsertNode, wf_metrics, wf_create, wf_fleet,
    wf_delete, wf_intent, wf_put, wf_event, wf_createApiKey, wf_nodeApiKey, wf_run_saved, wf_open.
  all: intros H; first [apply wf_update_node|apply wf_update_dep|apply wf_update_assignment]; try done;
    by intros n ?.
Qed.

Lemma wf_run ops : forall r, wf r -> wf (foldl apply_op r ops).
Proof. induction ops as [|o l IH]; intros r H; [done|]. cbn. apply IH. by apply wf_step. Qed.

(** ** Join codes *)

(** Row of [code] once a node has taken it: every later write keeps that node, unless it is consumed by
    the same one. *)
Definition taken (code node : string) (r : Registry) : Prop :=
  exists c, row jc_code code (rg_joinCodes r) = Some c /\ jc_usedBy c = Some node.

Lemma taken_consume now code n r : (consumeJoinCode now code n r).1 = None ->
  taken (toUpperCase code) n (consumeJoinCode now code n r).2.
Proof.
  unfold consumeJoinCode, taken. destruct (row _ _ _) as [c|] eqn:E; [|done].
  destruct (match jc_usedBy c with Some _ => _ | None => _ end); [done|]. case_match; [done|]. intros _. cbn.
  rewrite row_update by done. rewrite String.eqb_refl, E. cbn. eauto.
Qed.

Lemma taken_refuses now code n m r : taken (toUpperCase code) m r -> m <> "" -> n <> m ->
  (consumeJoinCode now code n r).1 <> None.
Proof.
  intros (c & E & Hu) Hm Hn. unfold consumeJoinCode. rewrite E, Hu.
  by rewrite (proj2 (String.eqb_neq m ""%string) Hm), (proj2 (String.eqb_neq m n) (not_eq_sym Hn)).
Qed.

Lemma taken_step code m r o : m <> ""%string -> taken code m r -> taken code m (apply_op r o).
Proof.
  intros Hm (c & E & Hu). pose proof (conj E Hu) as Hc.
  assert (forall r', rg_joinCodes r' = rg_joinCodes r -> taken code m r') as Hsame.
  { intros r' Hr. exists c. by rewrite Hr. }
  destruct o; cbn [apply_op]; try (apply Hsame; reflexivity).
  - unfold createJoinCode, insert_new. destruct (row _ (jc_code _) _) eqn:E2; [by apply Hsame|].
    exists c. cbn. rewrite row_app, E. done.
  - unfold consumeJoinCode. destruct (row _ (toUpperCase code0) _) as [c0|] eqn:E2; [|by apply Hsame].
    destruct (match jc_usedBy c0 with Some _ => _ | None => _ end) eqn:E3; [by apply Hsame|].
    destruct (jc_expiresAt c0 <? now); [by apply Hsame|].
    exists (if String.eqb (toUpperCase code0) code then used_by nodeId c else c).
    cbn. rewrite row_update by done. destruct (String.eqb (toUpperCase code0) code) eqn:E4.
    + apply String.eqb_eq in E4 as <-. rewrite E. split; [done|]. cbn. f_equal.
      rewrite E in E2. injection E2 as <-. rewrite Hu in E3. cbn in E3.
      rewrite (proj2 (String.eqb_neq m ""%string) Hm) in E3. cbn in E3.
      apply negb_false_iff, String.eqb_eq in E3. done.
    + by rewrite E.
  - apply Hsame. unfold setMetrics. destruct caps as [over|]; [|done]. by destruct (getNode r id ≫= nr_caps).
  - apply Hsame. unfold createDeployment. destruct (insert_new dep_id _ _); [|done]. by destruct (insert_new _ _ _).
  - apply Hsame. clear. unfold applyFleetSpecs. revert r. induction entries as [|e l IH]; intros r; [done|].
    cbn [foldl]. by rewrite IH.
  - apply Hsame. unfold createApiKey. by destruct (insert_new _ _ _).
  - apply Hsame. unfold nodeApiKey, createApiKey. destruct (getNode r nodeId); [|done].
    destruct (head _); [done|]. by destruct (insert_new _ _ _).
Qed.

Lemma taken_run code m ops : forall r, m <> ""%string -> taken code m r -> taken code m (foldl apply_op r ops).
Proof. induction ops as [|o l IH]; intros r Hm H; [done|]. cbn. apply IH; [done|]. by apply taken_step. Qed.

(** ** Properties *)

(** C33: However the control plane writes to its tables (enrolment, heartbeats, deployments, assignments,
    events, keys, reopening the file), primary keys stay unique, event ids stay increasing and every
    deployment has exactly one row of intent. *)
Theorem registry_well_formed ops : wf (foldl apply_op empty_registry ops).
Proof. apply wf_run, wf_empty. Qed.

(** A join code enrols one node: once a consumption by a node was accepted, whatever is written
    afterwards, every consumption of the code (in any letter case) by another node is refused. *)
Theorem join_code_single_node now1 now2 code1 code2 node1 node2 ops r :
  node1 <> ""%string -> toUpperCase code1 = toUpperCase code2 ->
  (consumeJoinCode now1 code1 node1 r).1 = None ->
  (consumeJoinCode now2 code2 node2 (foldl apply_op (consumeJoinCode now1 code1 node1 r).2 ops)).1 = None ->
  node2 = node1.
Proof.
  intros Hn Hcode H1 H2. destruct (decide (node2 = node1)) as [|Hne]; [done|].
  apply taken_consume, (taken_run _ _ ops _ Hn) in H1. rewrite Hcode in H1.
  by destruct (taken_refuses now2 code2 node2 node1 _ H1 Hn Hne).
Qed.

Definition demo_join : list Op := [OpJoinCode 0 600000 [10; 11; 12; 1; 2; 3]].

Lemma join_code_single_node_witness :
  let r := foldl apply_op empty_registry demo_join in
  let r1 := (consumeJoinCode 10 "abc123" "n1" r).2 in
  (consumeJoinCode 10 "abc123" "n1" r).1 = None /\
  (consumeJoinCode 20 "ABC123" "n1" (foldl apply_op r1 [OpOpen])).1 = None /\ "n1"%string = "n1"%string.
Proof.
  split; [vm_compute; reflexivity|]. split; [vm_compute; reflexivity|].
  apply (join_code_single_node 10 20 "abc123" "ABC123" "n1" "n1" [OpOpen] (foldl apply_op empty_registry demo_join));
    vm_compute; congruence.
Defined.
