(* ===== verification/Manager.v ===== *)
(** * Deployment manager: state and effects (swarmlet/control/deployments.ts, control/channel.ts)

    [Mgr] is the deployment manager with what its methods mutate: the registry, the
    connections of the agent channel, the channel's outgoing messages, and the manager's own maps.  A
    synchronous method is a computation of [Sync], an asynchronous one of [Async]: it either finishes or suspends on
    waiters (the callbacks [waitFor] registers) with the rest of the method as a continuation.
    [operations] holds the queue of jobs of each deployment, which run one after the other.

    An await whose promise is already settled continues at once, since nothing but other
    continuations can run in between.  Logging has no counterpart.  What the process gets from its host
    and from third-party code (random ids, the socket's verdict on a frame, URL parsing, regular
    expression matching of profile patterns, the collation) and the rendering of numbers and
    refusals as text are the parameters of [Host]. *)

From S2P Require Import Prelude Async JsNum Json Types Validate PhasePlan Planner Resources Fleet Topology Registry.

Local Open Scope string_scope.
Local Open Scope list_scope.
Local Open Scope Z_scope.

#[export] Instance NgramSpeculation_eq : EqDecision NgramSpeculation.
Proof. solve_decision. Defined.
#[export] Instance NativeStageIdentity_eq : EqDecision NativeStageIdentity.
Proof. solve_decision. Defined.
#[export] Instance NativeStageEndpoint_eq : EqDecision NativeStageEndpoint.
Proof. solve_decision. Defined.
#[export] Instance NativeStageWorkerPlan_eq : EqDecision NativeStageWorkerPlan.
Proof. solve_decision. Defined.
#[export] Instance StateTransferQualification_eq : EqDecision StateTransferQualification.
Proof. solve_decision. Defined.
#[export] Instance NativeExecutionPlacement_eq : EqDecision NativeExecutionPlacement.
Proof. solve_decision. Defined.

(** ** Plans *)

Definition planNodes (plan : Plan) : list string :=
  match pl_nativeExecution plan with
  | Some np => endpoint_node <$> np_endpoints np
  | None => pl_coordinatorNodeId plan :: (pw_nodeId <$> pl_workers plan)
  end.

Definition same_worker (x y : PlanWorker) : bool :=
  String.eqb (pw_nodeId x) (pw_nodeId y) && (pw_layers x =? pw_layers y) &&
  String.eqb (pw_device x) (pw_device y) && (pw_threads x =? pw_threads y).

Fixpoint same_list {A} (f : A -> A -> bool) (l k : list A) : bool :=
  match l, k with
  | [], [] => true
  | x :: l, y :: k => f x y && same_list f l k
  | _, _ => false
  end.

Definition split_of (p : Plan) : list Z := default (pl_tensorSplit p) (pl_engineTensorSplit p).

Definition samePlacement (a b : option Plan) : bool :=
  match a, b with
  | Some a, Some b =>
      String.eqb (pl_coordinatorNodeId a) (pl_coordinatorNodeId b) &&
      String.eqb (pl_coordinatorDevice a) (pl_coordinatorDevice b) &&
      String.eqb (pl_modelPath a) (pl_modelPath b) && bool_decide (pl_mtpPath a = pl_mtpPath b) &&
      (pl_ctx a =? pl_ctx b) && (pl_parallel a =? pl_parallel b) && (pl_chain a =? pl_chain b) &&
      bool_decide (pl_speculation a = pl_speculation b) &&
      bool_decide (pl_nativeExecution a = pl_nativeExecution b) &&
      same_list same_worker (pl_workers a) (pl_workers b) &&
      same_list Z.eqb (split_of a) (split_of b)
  | _, _ => false
  end.

Definition planFingerprint (plan : Plan) : string :=
  let workers := String.concat "," ((fun w =>
      pw_nodeId w +:+ "/" +:+ pw_device w +:+ "/" +:+ pretty (pw_layers w) +:+ "/" +:+ pretty (pw_threads w))
      <$> pl_workers plan) in
  String.concat "|" [pl_coordinatorNodeId plan; pl_coordinatorDevice plan; workers;
    String.concat "-" (pretty <$> split_of plan); pretty (pl_ctx plan); pretty (pl_parallel plan);
    pretty (pl_chain plan); pl_modelPath plan].

(** ** The manager's state *)

Record Lease := { le_nodeId : string; le_token : string; le_expiresAt : Z }.
Record Reconnect := {
  rc_deadline : Z; rc_cleanupDeadline : option Z; rc_nodes : list string; rc_reason : string }.
Record Excluded := { xc_nodes : list string; xc_at : Z }.
Record Block := { bk_until : Z; bk_cooldownMs : Z; bk_why : string }.

(** What a job does: the closures passed to [enqueue]. *)
Inductive Work :=
  | WStart (dep : Deployment) (generation : Z) (abandon : bool)
  | WTeardown
  | WStop.

(** What the caller does once the promise of its job settles. *)
Inductive After :=
  | Nothing
  | Then_delete                                          (** [remove] *)
  | Then_moved (reason : string) (else_fail : option string)  (** [redistribute], with [reconcile]'s failure text *)
  | Then_stopped (i : nat) | Then_started (i : nat)           (** [performAllocation], at its entry [i] *)
  | Then_distribute (spec : DeploymentSpec) (gen : Z) | Then_distributed  (** [applyDistribution] *).

Record Job := { jb_work : Work; jb_after : After }.

(** A call of an assignment's waiters: the state and detail passed to each. *)
Record Notice := { nt_id : string; nt_state : AssignmentState; nt_detail : option string }.

(** A [performAllocation] that awaits: the run it mutates, what its stops settled to, the shared counter
    [next] of its workers, and how many of them await a start. *)
Record Allocation := {
  al_run : FleetRun; al_stops : list (option (result string unit)); al_next : nat; al_active : nat }.

Record Mgr := {
  reg : Registry; now : Z; fresh : nat;
  (** [channel.conns], those of them marked unresponsive, and the messages written *)
  conns : gset string; quiet : gset string; sent : list (string * Assignment);
  inflight : gmap string Z; updateLease : option Lease; updateRecovery : list string;
  operations : gmap string (list Job); distributionApplications : gset string;
  generations : gmap string Z; closed : bool;
  (** whether an allocation is applying, and whether one is being planned *)
  fleetToken : bool; fleetPlanning : bool;
  (** the allocation that holds the token, and what the planning worker was sent *)
  allocation : option Allocation; fleetWorker : option (FleetRequest * FleetInput);
  nativeLifetimes : gmap string nat; reconnecting : gmap string Reconnect;
  lastMove : gmap string Z; blocked : gmap string (gmap string Block);
  moveExcluded : list (string * Excluded);
  tokenBuckets : gmap string (gmap Z Z);
  (** waiters called in this synchronous section *)
  notices : list Notice }.

Definition set_reg v (m : Mgr) : Mgr :=
  {| reg := v; now := now m; fresh := fresh m; conns := conns m; quiet := quiet m; sent := sent m;
     inflight := inflight m; updateLease := updateLease m; updateRecovery := updateRecovery m;
     operations := operations m; distributionApplications := distributionApplications m;
     generations := generations m; closed := closed m; fleetToken := fleetToken m;
     fleetPlanning := fleetPlanning m; allocation := allocation m; fleetWorker := fleetWorker m;
     nativeLifetimes := nativeLifetimes m; reconnecting := reconnecting m; lastMove := lastMove m;
     blocked := blocked m; moveExcluded := moveExcluded m; tokenBuckets := tokenBuckets m; notices := notices m |}.
Definition set_now v (m : Mgr) : Mgr :=
  {| reg := reg m; now := v; fresh := fresh m; conns := conns m; quiet := quiet m; sent := sent m;
     inflight := inflight m; updateLease := updateLease m; updateRecovery := updateRecovery m;
     operations := operations m; distributionApplications := distributionApplications m;
     generations := generations m; closed := closed m; fleetToken := fleetToken m;
     fleetPlanning := fleetPlanning m; allocation := allocation m; fleetWorker := fleetWorker m;
     nativeLifetimes := nativeLifetimes m; reconnecting := reconnecting m; lastMove := lastMove m;
     blocked := blocked m; moveExcluded := moveExcluded m; tokenBuckets := tokenBuckets m; notices := notices m |}.
Definition set_fresh v (m : Mgr) : Mgr :=
  {| reg := reg m; now := now m; fresh := v; conns := conns m; quiet := quiet m; sent := sent m;
     inflight := inflight m; updateLease := updateLease m; updateRecovery := updateRecovery m;
     operations := operations m; distributionApplications := distributionApplications m;
     generations := generations m; closed := closed m; fleetToken := fleetToken m;
     fleetPlanning := fleetPlanning m; allocation := allocation m; fleetWorker := fleetWorker m;
     nativeLifetimes := nativeLifetimes m; reconnecting := reconnecting m; lastMove := lastMove m;
     blocked := blocked m; moveExcluded := moveExcluded m; tokenBuckets := tokenBuckets m; notices := notices m |}.
Definition set_conns v (m : Mgr) : Mgr :=
  {| reg := reg m; now := now m; fresh := fresh m; conns := v; quiet := quiet m; sent := sent m;
     inflight := inflight m; updateLease := updateLease m; updateRecovery := updateRecovery m;
     operations := operations m; distributionApplications := distributionApplications m;
     generations := generations m; closed := closed m; fleetToken := fleetToken m;
     fleetPlanning := fleetPlanning m; allocation := allocation m; fleetWorker := fleetWorker m;
     nativeLifetimes := nativeLifetimes m; reconnecting := reconnecting m; lastMove := lastMove m;
     blocked := blocked m; moveExcluded := moveExcluded m; tokenBuckets := tokenBuckets m; notices := notices m |}.
Definition set_quiet v (m : Mgr) : Mgr :=
  {| reg := reg m; now := now m; fresh := fresh m; conns := conns m; quiet := v; sent := sent m;
     inflight := inflight m; updateLease := updateLease m; updateRecovery := updateRecovery m;
     operations := operations m; distributionApplications := distributionApplications m;
     generations := generations m; closed := closed m; fleetToken := fleetToken m;
     fleetPlanning := fleetPlanning m; allocation := allocation m; fleetWorker := fleetWorker m;
     nativeLifetimes := nativeLifetimes m; reconnecting := reconnecting m; lastMove := lastMove m;
     blocked := blocked m; moveExcluded := moveExcluded m; tokenBuckets := tokenBuckets m; notices := notices m |}.
Definition set_sent v (m : Mgr) : Mgr :=
  {| reg := reg m; now := now m; fresh := fresh m; conns := conns m; quiet := quiet m; sent := v;
     inflight := inflight m; updateLease := updateLease m; updateRecovery := updateRecovery m;
     operations := operations m; distributionApplications := distributionApplications m;
     generations := generations m; closed := closed m; fleetToken := fleetToken m;
     fleetPlanning := fleetPlanning m; allocation := allocation m; fleetWorker := fleetWorker m;
     nativeLifetimes := nativeLifetimes m; reconnecting := reconnecting m; lastMove := lastMove m;
     blocked := blocked m; moveExcluded := moveExcluded m; tokenBuckets := tokenBuckets m; notices := notices m |}.
Definition set_inflight v (m : Mgr) : Mgr :=
  {| reg := reg m; now := now m; fresh := fresh m; conns := conns m; quiet := quiet m; sent := sent m;
     inflight := v; updateLease := updateLease m; updateRecovery := updateRecovery m;
     operations := operations m; distributionApplications := distributionApplications m;
     generations := generations m; closed := closed m; fleetToken := fleetToken m;
     fleetPlanning := fleetPlanning m; allocation := allocation m; fleetWorker := fleetWorker m;
     nativeLifetimes := nativeLifetimes m; reconnecting := reconnecting m; lastMove := lastMove m;
     blocked := blocked m; moveExcluded := moveExcluded m; tokenBuckets := tokenBuckets m; notices := notices m |}.
Definition set_updateLease v (m : Mgr) : Mgr :=
  {| reg := reg m; now := now m; fresh := fresh m; conns := conns m; quiet := quiet m; sent := sent m;
     inflight := inflight m; updateLease := v; updateRecovery := updateRecovery m; operations := operations m;
     distributionApplications := distributionApplications m; generations := generations m; closed := closed m;
     fleetToken := fleetToken m; fleetPlanning := fleetPlanning m; allocation := allocation m;
     fleetWorker := fleetWorker m; nativeLifetimes := nativeLifetimes m; reconnecting := reconnecting m;
     lastMove := lastMove m; blocked := blocked m; moveExcluded := moveExcluded m;
     tokenBuckets := tokenBuckets m; notices := notices m |}.
Definition set_updateRecovery v (m : Mgr) : Mgr :=
  {| reg := reg m; now := now m; fresh := fresh m; conns := conns m; quiet := quiet m; sent := sent m;
     inflight := inflight m; updateLease := updateLease m; updateRecovery := v; operations := operations m;
     distributionApplications := distributionApplications m; generations := generations m; closed := closed m;
     fleetToken := fleetToken m; fleetPlanning := fleetPlanning m; allocation := allocation m;
     fleetWorker := fleetWorker m; nativeLifetimes := nativeLifetimes m; reconnecting := reconnecting m;
     lastMove := lastMove m; blocked := blocked m; moveExcluded := moveExcluded m;
     tokenBuckets := tokenBuckets m; notices := notices m |}.
Definition set_operations v (m : Mgr) : Mgr :=
  {| reg := reg m; now := now m; fresh := fresh m; conns := conns m; quiet := quiet m; sent := sent m;
     inflight := inflight m; updateLease := updateLease m; updateRecovery := updateRecovery m; operations := v;
     distributionApplications := distributionApplications m; generations := generations m; closed := closed m;
     fleetToken := fleetToken m; fleetPlanning := fleetPlanning m; allocation := allocation m;
     fleetWorker := fleetWorker m; nativeLifetimes := nativeLifetimes m; reconnecting := reconnecting m;
     lastMove := lastMove m; blocked := blocked m; moveExcluded := moveExcluded m;
     tokenBuckets := tokenBuckets m; notices := notices m |}.
Definition set_distributionApplications v (m : Mgr) : Mgr :=
  {| reg := reg m; now := now m; fresh := fresh m; conns := conns m; quiet := quiet m; sent := sent m;
     inflight := inflight m; updateLease := updateLease m; updateRecovery := updateRecovery m;
     operations := operations m; distributionApplications := v; generations := generations m;
     closed := closed m; fleetToken := fleetToken m; fleetPlanning := fleetPlanning m;
     allocation := allocation m; fleetWorker := fleetWorker m; nativeLifetimes := nativeLifetimes m;
     reconnecting := reconnecting m; lastMove := lastMove m;
     blocked := blocked m; moveExcluded := moveExcluded m; tokenBuckets := tokenBuckets m; notices := notices m |}.
Definition set_generations v (m : Mgr) : Mgr :=
  {| reg := reg m; now := now m; fresh := fresh m; conns := conns m; quiet := quiet m; sent := sent m;
     inflight := inflight m; updateLease := updateLease m; updateRecovery := updateRecovery m;
     operations := operations m; distributionApplications := distributionApplications m; generations := v;
     closed := closed m; fleetToken := fleetToken m; fleetPlanning := fleetPlanning m;
     allocation := allocation m; fleetWorker := fleetWorker m; nativeLifetimes := nativeLifetimes m;
     reconnecting := reconnecting m; lastMove := lastMove m;
     blocked := blocked m; moveExcluded := moveExcluded m; tokenBuckets := tokenBuckets m; notices := notices m |}.
Definition set_closed v (m : Mgr) : Mgr :=
  {| reg := reg m; now := now m; fresh := fresh m; conns := conns m; quiet := quiet m; sent := sent m;
     inflight := inflight m; updateLease := updateLease m; updateRecovery := updateRecovery m;
     operations := operations m; distributionApplications := distributionApplications m;
     generations := generations m; closed := v; fleetToken := fleetToken m; fleetPlanning := fleetPlanning m;
     allocation := allocation m; fleetWorker := fleetWorker m; nativeLifetimes := nativeLifetimes m;
     reconnecting := reconnecting m; lastMove := lastMove m;
     blocked := blocked m; moveExcluded := moveExcluded m; tokenBuckets := tokenBuckets m; notices := notices m |}.
Definition set_fleetToken v (m : Mgr) : Mgr :=
  {| reg := reg m; now := now m; fresh := fresh m; conns := conns m; quiet := quiet m; sent := sent m;
     inflight := inflight m; updateLease := updateLease m; updateRecovery := updateRecovery m;
     operations := operations m; distributionApplications := distributionApplications m;
     generations := generations m; closed := closed m; fleetToken := v; fleetPlanning := fleetPlanning m;
     allocation := allocation m; fleetWorker := fleetWorker m; nativeLifetimes := nativeLifetimes m;
     reconnecting := reconnecting m; lastMove := lastMove m;
     blocked := blocked m; moveExcluded := moveExcluded m; tokenBuckets := tokenBuckets m; notices := notices m |}.
Definition set_fleetPlanning v (m : Mgr) : Mgr :=
  {| reg := reg m; now := now m; fresh := fresh m; conns := conns m; quiet := quiet m; sent := sent m;
     inflight := inflight m; updateLease := updateLease m; updateRecovery := updateRecovery m;
     operations := operations m; distributionApplications := distributionApplications m;
     generations := generations m; closed := closed m; fleetToken := fleetToken m; fleetPlanning := v;
     allocation := allocation m; fleetWorker := fleetWorker m; nativeLifetimes := nativeLifetimes m;
     reconnecting := reconnecting m; lastMove := lastMove m;
     blocked := blocked m; moveExcluded := moveExcluded m; tokenBuckets := tokenBuckets m; notices := notices m |}.
Definition set_allocation v (m : Mgr) : Mgr :=
  {| reg := reg m; now := now m; fresh := fresh m; conns := conns m; quiet := quiet m; sent := sent m;
     inflight := inflight m; updateLease := updateLease m; updateRecovery := updateRecovery m;
     operations := operations m; distributionApplications := distributionApplications m;
     generations := generations m; closed := closed m; fleetToken := fleetToken m;
     fleetPlanning := fleetPlanning m; allocation := v; fleetWorker := fleetWorker m;
     nativeLifetimes := nativeLifetimes m; reconnecting := reconnecting m; lastMove := lastMove m;
     blocked := blocked m; moveExcluded := moveExcluded m; tokenBuckets := tokenBuckets m; notices := notices m |}.
Definition set_fleetWorker v (m : Mgr) : Mgr :=
  {| reg := reg m; now := now m; fresh := fresh m; conns := conns m; quiet := quiet m; sent := sent m;
     inflight := inflight m; updateLease := updateLease m; updateRecovery := updateRecovery m;
     operations := operations m; distributionApplications := distributionApplications m;
     generations := generations m; closed := closed m; fleetToken := fleetToken m;
     fleetPlanning := fleetPlanning m; allocation := allocation m; fleetWorker := v;
     nativeLifetimes := nativeLifetimes m; reconnecting := reconnecting m; lastMove := lastMove m;
     blocked := blocked m; moveExcluded := moveExcluded m; tokenBuckets := tokenBuckets m; notices := notices m |}.
Definition set_nativeLifetimes v (m : Mgr) : Mgr :=
  {| reg := reg m; now := now m; fresh := fresh m; conns := conns m; quiet := quiet m; sent := sent m;
     inflight := inflight m; updateLease := updateLease m; updateRecovery := updateRecovery m;
     operations := operations m; distributionApplications := distributionApplications m;
     generations := generations m; closed := closed m; fleetToken := fleetToken m;
     fleetPlanning := fleetPlanning m; allocation := allocation m; fleetWorker := fleetWorker m;
     nativeLifetimes := v; reconnecting := reconnecting m; lastMove := lastMove m;
     blocked := blocked m; moveExcluded := moveExcluded m; tokenBuckets := tokenBuckets m; notices := notices m |}.
Definition set_reconnecting v (m : Mgr) : Mgr :=
  {| reg := reg m; now := now m; fresh := fresh m; conns := conns m; quiet := quiet m; sent := sent m;
     inflight := inflight m; updateLease := updateLease m; updateRecovery := updateRecovery m;
     operations := operations m; distributionApplications := distributionApplications m;
     generations := generations m; closed := closed m; fleetToken := fleetToken m;
     fleetPlanning := fleetPlanning m; allocation := allocation m; fleetWorker := fleetWorker m;
     nativeLifetimes := nativeLifetimes m; reconnecting := v; lastMove := lastMove m;
     blocked := blocked m; moveExcluded := moveExcluded m; tokenBuckets := tokenBuckets m; notices := notices m |}.
Definition set_lastMove v (m : Mgr) : Mgr :=
  {| reg := reg m; now := now m; fresh := fresh m; conns := conns m; quiet := quiet m; sent := sent m;
     inflight := inflight m; updateLease := updateLease m; updateRecovery := updateRecovery m;
     operations := operations m; distributionApplications := distributionApplications m;
     generations := generations m; closed := closed m; fleetToken := fleetToken m;
     fleetPlanning := fleetPlanning m; allocation := allocation m; fleetWorker := fleetWorker m;
     nativeLifetimes := nativeLifetimes m; reconnecting := reconnecting m; lastMove := v;
     blocked := blocked m; moveExcluded := moveExcluded m; tokenBuckets := tokenBuckets m; notices := notices m |}.
Definition set_blocked v (m : Mgr) : Mgr :=
  {| reg := reg m; now := now m; fresh := fresh m; conns := conns m; quiet := quiet m; sent := sent m;
     inflight := inflight m; updateLease := updateLease m; updateRecovery := updateRecovery m;
     operations := operations m; distributionApplications := distributionApplications m;
     generations := generations m; closed := closed m; fleetToken := fleetToken m;
     fleetPlanning := fleetPlanning m; allocation := allocation m; fleetWorker := fleetWorker m;
     nativeLifetimes := nativeLifetimes m; reconnecting := reconnecting m; lastMove := lastMove m;
     blocked := v; moveExcluded := moveExcluded m; tokenBuckets := tokenBuckets m; notices := notices m |}.
Definition set_moveExcluded v (m : Mgr) : Mgr :=
  {| reg := reg m; now := now m; fresh := fresh m; conns := conns m; quiet := quiet m; sent := sent m;
     inflight := inflight m; updateLease := updateLease m; updateRecovery := updateRecovery m;
     operations := operations m; distributionApplications := distributionApplications m;
     generations := generations m; closed := closed m; fleetToken := fleetToken m;
     fleetPlanning := fleetPlanning m; allocation := allocation m; fleetWorker := fleetWorker m;
     nativeLifetimes := nativeLifetimes m; reconnecting := reconnecting m; lastMove := lastMove m;
     blocked := blocked m; moveExcluded := v; tokenBuckets := tokenBuckets m; notices := notices m |}.
Definition set_tokenBuckets v (m : Mgr) : Mgr :=
  {| reg := reg m; now := now m; fresh := fresh m; conns := conns m; quiet := quiet m; sent := sent m;
     inflight := inflight m; updateLease := updateLease m; updateRecovery := updateRecovery m;
     operations := operations m; distributionApplications := distributionApplications m;
     generations := generations m; closed := closed m; fleetToken := fleetToken m;
     fleetPlanning := fleetPlanning m; allocation := allocation m; fleetWorker := fleetWorker m;
     nativeLifetimes := nativeLifetimes m; reconnecting := reconnecting m; lastMove := lastMove m;
     blocked := blocked m; moveExcluded := moveExcluded m; tokenBuckets := v; notices := notices m |}.
Definition set_notices v (m : Mgr) : Mgr :=
  {| reg := reg m; now := now m; fresh := fresh m; conns := conns m; quiet := quiet m; sent := sent m;
     inflight := inflight m; updateLease := updateLease m; updateRecovery := updateRecovery m;
     operations := operations m; distributionApplications := distributionApplications m;
     generations := generations m; closed := closed m; fleetToken := fleetToken m;
     fleetPlanning := fleetPlanning m; allocation := allocation m; fleetWorker := fleetWorker m;
     nativeLifetimes := nativeLifetimes m; reconnecting := reconnecting m; lastMove := lastMove m;
     blocked := blocked m; moveExcluded := moveExcluded m; tokenBuckets := tokenBuckets m; notices := v |}.

(** ** The host and the manager's dependencies *)

(** What the code reads of [new URL(s)]; [url_port] is [None] for the protocol's default port. *)
Record URL := { url_protocol : string; url_hostname : string; url_port : option Z }.

Class Host := {
  newId : string -> nat -> string;
  write_ok : string -> nat -> bool;
  new_URL : string -> option URL;
  re_test : string -> string -> bool;
  localeCompare : string -> string -> comparison;
  show_error : ResourceError -> string;
  show_num : num -> string;
  Date_parse : string -> num;
  Math_pow : num -> num -> num;
  show_failure : FleetFailure -> string;
  show_memory : MemoryError -> string;
  show_topology : TopologyError -> string;
  sha256_json : RevisionBody -> string;
  plan_hash : string -> Reference -> TopologyCandidate -> list TopologyCandidate -> string }.

(** [DeploymentDeps] with its environment variables. *)
Record Deps := {
  dp_profiles : list ModelProfile; dp_recoveryDelayMs : option Z; dp_stopTimeoutMs : option Z;
  dp_reconnectGraceMs : option Z; dp_moveIntervalMs : option Z; dp_crashCooldownMs : option Z;
  dp_moveSettleMs : option Z; dp_wedgedLoadMs : option Z;
  dp_nativeQualifications : option (list Qwen35NativeQualification);
  dp_serverPortBase : Z; dp_reverseDial : bool }.

Definition MAX_RECOVERY_ATTEMPTS : Z := 5.
Definition CRASH_COOLDOWN_MS : Z := 60 * 60000.
Definition CRASH_COOLDOWN_MAX_MS : Z := 24 * 60 * 60000.
Definition WEDGED_LOAD_MS : Z := 5 * 60000.
Definition moveMarginLayers : Z := 2.
Definition moveIntervalMs (d : Deps) : Z := default (10 * 60000) (dp_moveIntervalMs d).
Definition crashCooldownMs (d : Deps) : Z := default CRASH_COOLDOWN_MS (dp_crashCooldownMs d).
Definition wedgedLoadMs (d : Deps) : Z := default WEDGED_LOAD_MS (dp_wedgedLoadMs d).

(** ** Synchronous methods *)

Abbreviation Sync := (M Mgr string).

Definition online (m : Mgr) (id : string) : bool := bool_decide (id ∈ conns m) && negb (bool_decide (id ∈ quiet m)).
(** [channel.isOnline(n) && reg.getNode(n)?.online] *)
Definition reachable (m : Mgr) (id : string) : bool :=
  online m id && match getNode (reg m) id with Some n => nr_online n | None => false end.
Definition hostname (m : Mgr) (id : string) : string :=
  match getNode (reg m) id with Some n => nr_hostname n | None => id end.
Definition intent (m : Mgr) (id : string) : Intent := deploymentIntent (reg m) id.
Definition rows (m : Mgr) (id : string) : list AssignmentRow := listAssignments (reg m) (Some id).
Definition generation (m : Mgr) (id : string) : Z := default 0 (generations m !! id).
Definition busy (m : Mgr) (id : string) : bool := present (operations m !! id).

Definition regw (f : Z -> Registry -> Registry) : Sync unit := mmodify (fun m => set_reg (f (now m) (reg m)) m).
Definition ev (id message : string) : Sync unit := regw (fun t => event t "deployment" message None (Some id)).
Definition updateDep (id : string) (p : Patch) : Sync unit := regw (fun t => updateDeployment t id p).
Definition setIntent (id : string) (running : option bool) (attempts retryAt : option Z) : Sync unit :=
  regw (fun _ => setDeploymentIntent id running attempts retryAt).

(** A patch of state, plan, endpoint and error; [None] leaves a property out. *)
Definition pt (s : option DeploymentState) (p : option (option Plan)) (e : option (option (string * Z * string)))
    (err : option (option string)) : Patch :=
  {| pt_state := s; pt_plan := p; pt_endpoint := e; pt_error := err; pt_spec := None |}.

Section effects.
Context `{Host}.

Definition new_id (prefix : string) : Sync string := fun m => (Ok (newId prefix (fresh m)), set_fresh (S (fresh m)) m).

(** [channel.send]: false without a connection or when its outbox refuses the frame. *)
Definition send (nodeId : string) (a : Assignment) : Sync bool := fun m =>
  if bool_decide (nodeId ∈ conns m) && write_ok nodeId (length (sent m))
  then (Ok true, set_sent (sent m ++ [(nodeId, a)]) m) else (Ok false, m).

Definition assign (nodeId : string) (a : Assignment) : Sync bool :=
  regw (fun t => putAssignment t a nodeId) ;; send nodeId a.

Definition send_stop (nodeId id deploymentId : string) : Sync unit :=
  send nodeId (AStop {| so_id := id; so_deploymentId := deploymentId |}) ;; mret tt.
End effects.

(** [for (const w of waiters.get(id) ?? []) w(state, detail)] *)
Definition notify (id : string) (state : AssignmentState) (detail : option string) : Sync unit :=
  mmodify (fun m => set_notices (notices m ++ [{| nt_id := id; nt_state := state; nt_detail := detail |}]) m).

(** [this.must(id)] *)
Definition must (id : string) : Sync Deployment :=
  m ← mget; match getDeployment (reg m) id with Some d => mret d | None => mthrow ("unknown deployment " +:+ id) end.

(** ** Asynchronous methods *)

Record Waiter := { wt_id : string; wt_states : list AssignmentState; wt_reject : bool }.

(** An await waits for all of its waiters, or for the first rejection of one. *)
Abbreviation Step := (Async.Step (S := Mgr) (fun _ : list Waiter => result string unit)).
Abbreviation Async := (Async.Async (S := Mgr) (fun _ : list Waiter => result string unit)).

(** [waitFor] on the row as it is: settled, or a waiter. *)
Definition waitFor (m : Mgr) (w : Waiter) : option (result string unit) :=
  match getAssignment (reg m) (wt_id w) with
  | Some r =>
      match ar_state r with
      | Some s =>
          if bool_decide (s ∈ wt_states w) then Some (Ok tt)
          else if wt_reject w && bool_decide (s = a_failed)
          then Some (Err (wt_id w +:+ " failed: " +:+ default "" (ar_detail r)))
          else None
      | None => None
      end
  | None => None
  end.

Definition rejection (r : option (result string unit)) : option string :=
  match r with Some (Err e) => Some e | _ => None end.

(** [await Promise.all(ws.map(waitFor))] *)
Definition await_all (ws : list Waiter) : Async unit := fun m =>
  match head (omap (fun w => rejection (waitFor m w)) ws) with
  | Some e => (Fin (Err e), m)
  | None =>
      match List.filter (fun w => negb (present (waitFor m w))) ws with
      | [] => (Fin (Ok tt), m)
      | pending => (Susp pending (fun r m => (Fin r, m)), m)
      end
  end.

(** The callback of a waiter: what a notice does to its promise. *)
Definition heard (closed : bool) (n : Notice) (w : Waiter) : option (result string unit) :=
  if negb (String.eqb (wt_id w) (nt_id n)) then None
  else if bool_decide (nt_state n ∈ wt_states w) then Some (Ok tt)
  else if bool_decide (nt_state n = a_failed) && (wt_reject w || closed)
  then Some (Err (wt_id w +:+ " failed: " +:+ default "" (nt_detail n)))
  else None.
