(* ===== verification/Deployments.v ===== *)
(** * Deployment manager: methods (swarmlet/control/deployments.ts)

    The state machine of the control plane: planned, placing, loading, ready, draining, stopped,
    failed.  Methods are listed in the order of the class.  A promise nobody awaits
    ([void this.fail(..)]) is a job of the queue; what a caller does after awaiting one is the job's
    [After].  Event texts keep the code's wording, not every value it prints. *)

From S2P Require Import Prelude Async JsNum Json Types Validate PhasePlan Planner Resources Fleet Topology Registry Manager.

Local Open Scope string_scope.
Local Open Scope list_scope.
Local Open Scope Z_scope.

(** [Math.round(ms / unit)] of integers *)
Definition rounded (x unit : Z) : Z := (2 * x + unit) / (2 * unit).

(** The first port at or above [p] outside [used]: one of [p .. p + size used] is free. *)
Fixpoint free_from (fuel : nat) (used : gset Z) (p : Z) : Z :=
  match fuel with
  | O => p
  | S fuel => if bool_decide (p ∈ used) then free_from fuel used (p + 1) else p
  end.

(** [includes] and the expressions the code tests details with *)
Fixpoint contains (s t : string) : bool :=
  String.prefix t s || match s with EmptyString => false | String _ s => contains s t end.
Definition lower (a : Ascii.ascii) : Ascii.ascii :=
  let n := Ascii.nat_of_ascii a in
  if ((65 <=? n)%nat && (n <=? 90)%nat) then Ascii.ascii_of_nat (n + 32)%nat else a.
Fixpoint lowercase (s : string) : string :=
  match s with EmptyString => "" | String a s => String (lower a) (lowercase s) end.
(** [/a|b|c/i.test(s)] of literals without letters whose case folding leaves ASCII *)
Definition mentions (words : list string) (s : string) : bool :=
  existsb (fun w => contains (lowercase s) w) words.

Definition leaving_words : list string := ["shutting down"; "going offline"; "agent stopping"].
Definition engine_words : list string :=
  ["engine exited"; "exited (code"; "sigabrt"; "sigterm"; "failed to allocate"; "not healthy"].

Fixpoint skip_spaces (s : string) : string :=
  match s with
  | String a t => if existsb (Nat.eqb (Ascii.nat_of_ascii a)) [9; 10; 11; 12; 13; 32; 160]%nat then skip_spaces t else s
  | EmptyString => ""
  end.
Definition starts_with (f : Ascii.ascii -> bool) (s : string) : bool :=
  match s with String a _ => f a | EmptyString => false end.
Definition in_range (lo hi : nat) (a : Ascii.ascii) : bool :=
  ((lo <=? Ascii.nat_of_ascii a) && (Ascii.nat_of_ascii a <=? hi))%nat.
(** [/code\s*(?!0[,\s)])[1-9]|SIG[A-Z]+/.test(s)]: the lookahead is idle, since the digit it looks
    at is not 0. *)
Definition crash_here (s : string) : bool :=
  (String.prefix "code" s && starts_with (in_range 49 57) (skip_spaces (String.substring 4 (String.length s) s))) ||
  (String.prefix "SIG" s && starts_with (in_range 65 90) (String.substring 3 (String.length s) s)).
Fixpoint crashed (s : string) : bool :=
  crash_here s || match s with EmptyString => false | String _ s => crashed s end.

(** [Map.get], [Map.set] and [Map.delete] where the order of insertion shows *)
Definition al_get {A} (l : list (string * A)) (k : string) : option A := snd <$> find (fun e => String.eqb e.1 k) l.
Fixpoint al_set {A} (l : list (string * A)) (k : string) (v : A) : list (string * A) :=
  match l with
  | [] => [(k, v)]
  | (k', v') :: l => if String.eqb k' k then (k, v) :: l else (k', v') :: al_set l k v
  end.
Definition al_delete {A} (l : list (string * A)) (k : string) : list (string * A) :=
  List.filter (fun e => negb (String.eqb e.1 k)) l.

Definition is_stopped (r : AssignmentRow) : bool := bool_decide (ar_state r = Some a_stopped).
(** [!nodeIds || !nodeIds.length] *)
Definition some_ids (o : option (list string)) : bool := match o with Some (_ :: _) => true | _ => false end.
(** [!!s] of an optional string *)
Definition truthy_str (o : option string) : bool := match o with Some s => negb (String.eqb s "") | None => false end.

Definition AGENT_DATA_PORT : Z := 47801.

Section deployments.
Context `{Host} (deps : Deps).

(** ** Update leases *)

Definition updatingNode : Sync (option string) := fun m =>
  let m := match updateLease m with
           | Some l => if le_expiresAt l <=? now m then set_updateLease None m else m
           | None => m
           end in
  (Ok (le_nodeId <$> updateLease m), m).

(** Whether a deployment an update interrupted is serving again, or need not. *)
Definition recovered (m : Mgr) (id : string) : bool :=
  match getDeployment (reg m) id with
  | Some d => bool_decide (dep_state d = ready) || negb (di_running (intent m id))
  | None => true
  end.

Definition dep_nodes (d : Deployment) : list string :=
  match dep_plan d with
  | Some p => planNodes p
  | None => match dep_endpoint d with Some (n, _, _) => [n] | None => [] end
  end.

Definition load (m : Mgr) (id : string) : Z := default 0 (inflight m !! id).

Definition acquireUpdate (nodeId : string) : Sync (option Lease) :=
  m ← mget;
  if closed m || negb (online m nodeId) || negb (present (getNode (reg m) nodeId)) then mret None else
  updating ← updatingNode;
  if present updating then mret None else
  if negb (bool_decide (operations m = ∅)) || negb (bool_decide (distributionApplications m = ∅)) ||
     negb (bool_decide (reconnecting m = ∅)) || fleetToken m || fleetPlanning m then mret None else
  mmodify (fun m => set_updateRecovery (List.filter (fun id => negb (recovered m id)) (updateRecovery m)) m) ;;
  m ← mget;
  if negb (bool_decide (updateRecovery m = [])) then mret None else
  let users := List.filter (fun d => bool_decide (nodeId ∈ dep_nodes d)) (listDeployments (reg m)) in
  if existsb (fun d => 0 <? load m (dep_id d)) users then mret None else
  token ← new_id "lease";
  let lease := {| le_nodeId := nodeId; le_token := token; le_expiresAt := now m + 120000 |} in
  mmodify (fun m => set_updateLease (Some lease)
    (set_updateRecovery (dep_id <$> List.filter (fun d =>
       bool_decide (dep_state d = ready) && di_running (intent m (dep_id d))) users) m)) ;;
  mret (Some lease).

Definition releaseUpdate (nodeId token : string) : Sync bool :=
  m ← mget;
  match updateLease m with
  | Some l =>
      if String.eqb (le_nodeId l) nodeId && String.eqb (le_token l) token
      then mmodify (set_updateLease None) ;; mret true else mret false
  | None => mret false
  end.

(** ** Helpers *)

Definition externalOrigin (url : string) : Sync string :=
  match new_URL url with
  | None => mthrow "Invalid URL"
  | Some u =>
      let host := if existsb (String.eqb (url_hostname u)) ["localhost"; "[::1]"] then "127.0.0.1" else url_hostname u in
      mret (url_protocol u +:+ "//" +:+ host +:+ match url_port u with Some p => ":" +:+ pretty p | None => "" end)
  end.

(** [spec.external!]: reading a property of [undefined] throws. *)
Definition the_external (spec : DeploymentSpec) : Sync ExternalSpec :=
  match ds_external spec with Some x => mret x | None => mthrow "undefined is not an object" end.

Definition scheduleRecovery (id : string) : Sync unit :=
  m ← mget;
  let i := intent m id in
  if negb (di_running i) then mret tt else
  let delay := Z.min 60000 (default 5000 (dp_recoveryDelayMs deps) * 2 ^ Z.max 0 (di_attempts i - 1)) in
  setIntent id None None (Some (now m + delay)) ;;
  ev id (if MAX_RECOVERY_ATTEMPTS <=? di_attempts i then "automatic recovery exhausted; explicit Start required"
         else "recovery scheduled in " +:+ pretty delay +:+ "ms after required nodes reconnect").

Definition recordFailure (id why : string) : Sync unit :=
  mmodify (fun m => set_reconnecting (base.delete id (reconnecting m)) m) ;;
  updateDep id (pt (Some failed) None (Some None) (Some (Some why))) ;;
  ev id ("failed: " +:+ why) ;;
  scheduleRecovery id.

Definition finishDraining (id : string) : Sync unit :=
  m ← mget;
  if bool_decide (dep_state <$> getDeployment (reg m) id = Some draining) && negb (di_running (intent m id)) &&
     forallb is_stopped (rows m id)
  then updateDep id (pt (Some stopped) None (Some None) (Some None)) ;;
       ev id "stopped after all cleanup acknowledgements"
  else mret tt.

Definition enqueue (id : string) (j : Job) : Sync unit :=
  mmodify (fun m => set_operations (<[id := default [] (operations m !! id) ++ [j]]> (operations m)) m).

Definition cancel (id : string) : Sync unit :=
  mmodify (fun m => set_generations (<[id := generation m id + 1]> (generations m))
                      (set_nativeLifetimes (base.delete id (nativeLifetimes m)) m)) ;;
  m ← mget;
  mfor (rows m id) (fun r => notify (ar_id r) a_failed (Some "deployment operation cancelled")).

Definition assertRunning (id : string) (gen : Z) : Sync unit :=
  m ← mget;
  if closed m || negb (di_running (intent m id)) || negb (gen =? generation m id)
  then mthrow "deployment operation cancelled" else mret tt.

Definition assertFleetAccess (holder : bool) : Sync unit :=
  m ← mget;
  if fleetToken m && negb holder
  then mthrow "Fleet allocation is applying; wait for its result before changing deployments." else mret tt.

Definition node (id : string) : Sync NodeRow :=
  m ← mget;
  match getNode (reg m) id with
  | None => mthrow ("unknown node " +:+ id)
  | Some n =>
      if negb (nr_online n) || negb (online m id)
      then mthrow ("node " +:+ nr_hostname n +:+ " (" +:+ id +:+ ") is offline or awaiting hello") else mret n
  end.

(** Every row that is not stopped, in the order of [listAssignments()]. *)
Definition usedPorts (m : Mgr) : gmap string (gset Z) :=
  foldl (fun used r => if is_stopped r then used
                       else foldl (fun used p => add_port (ar_nodeId r) p used)
                              (<[ar_nodeId r := default ∅ (used !! ar_nodeId r)]> used) (row_ports r))
    ∅ (listAssignments (reg m) None).

Definition freePort (nodeId : string) (from : Z) (used : gmap string (gset Z)) : Z :=
  let s := default ∅ (used !! nodeId) in free_from (S (size s)) s from.

Definition assertExternalOptions (spec : DeploymentSpec) : Sync unit :=
  if present (ds_workerLayers spec) || present (ds_speculation spec) ||
     match ds_chain spec with Some c => negb (num_eqb c num_zero) | None => false end
  then mthrow "external deployments cannot configure workerLayers, speculation or an MTP chain" else mret tt.

(** Whether [d] is another live deployment of the same external server. *)
Definition duplicate_external (m : Mgr) (x : ExternalSpec) (key : string) (except : option string) (d : Deployment) : Sync bool :=
  if bool_decide (Some (dep_id d) = except) || negb (bool_decide (ds_kind (dep_spec d) = external)) then mret false else
  match ds_external (dep_spec d) with
  | None => mret false
  | Some y =>
      if negb (String.eqb (xs_nodeId y) (xs_nodeId x)) then mret false else
      k ← externalOrigin (xs_url y);
      mret (String.eqb k key && (di_running (intent m (dep_id d)) ||
                                 negb (bool_decide (dep_state d = failed \/ dep_state d = stopped))))
  end.
Fixpoint first_duplicate (m : Mgr) (x : ExternalSpec) (key : string) (except : option string) (l : list Deployment)
    : Sync (option Deployment) :=
  match l with
  | [] => mret None
  | d :: l => b ← duplicate_external m x key except d; if (b : bool) then mret (Some d) else first_duplicate m x key except l
  end.
Definition assertUniqueExternal (spec : DeploymentSpec) (except : option string) : Sync unit :=
  x ← the_external spec;
  key ← externalOrigin (xs_url x);
  m ← mget;
  d ← first_duplicate m x key except (listDeployments (reg m));
  match d with
  | Some d => mthrow ("external endpoint already registered by " +:+ ds_name (dep_spec d) +:+ " (" +:+ dep_id d +:+ ")")
  | None => mret tt
  end.

(** ** Planning *)

(** The nodes of [fleetInput()] *)
Definition fleet_nodes (m : Mgr) (updating : option string) : list NodeRow :=
  (fun n => set_node_online (nr_online n && online m (nr_id n) && negb (bool_decide (Some (nr_id n) = updating))) n)
    <$> listNodes (reg m).

(** [fleetInput()]; the planner of fleets reads the clock itself. *)
Definition fleetInput : Sync FleetInput :=
  updating ← updatingNode;
  m ← mget;
  mret {| fin_nodes := fleet_nodes m updating; fin_deployments := listDeployments (reg m);
          fin_assignments := listAssignments (reg m) None;
          fin_profiles := (fun p => (mp_id p, p)) <$> dp_profiles deps; fin_now := num_of_Z (now m) |}.

Definition profile_of (id : string) : option ModelProfile := find (fun p => String.eqb (mp_id p) id) (dp_profiles deps).

Definition plan_text (e : ResourceError) : string :=
  match e with RE_plan _ => "no plan: " +:+ show_error e | _ => show_error e end.

Definition plan (spec : DeploymentSpec) (used : gmap string (gset Z)) (replacing : option string)
    (exclude : list string) : Sync Plan :=
  match profile_of (ds_profile spec) with
  | None => mthrow ("unknown profile " +:+ ds_profile spec)
  | Some profile =>
      updating ← updatingNode;
      m ← mget;
      let remembered := match replacing with Some id => al_get (moveExcluded m) id | None => None end in
      let fresh_ := match remembered with Some x => now m - xc_at x <=? 10 * 60000 | None => false end in
      mwhen (present remembered && negb fresh_)
        (mmodify (fun m => set_moveExcluded (al_delete (moveExcluded m) (default "" replacing)) m)) ;;
      let exclude := exclude ++ (if fresh_ then match remembered with Some x => xc_nodes x | None => [] end else []) in
      let all := fleet_nodes m updating in
      let nodes := List.filter (fun n => negb (bool_decide (nr_id n ∈ exclude))) all in
      let reserved := reservedResources (listDeployments (reg m)) (listAssignments (reg m) None) all
                        (match replacing with Some id => {[id]} | None => ∅ end) in
      match planWithResources re_test localeCompare spec profile nodes reserved used
              (default QWEN35_NATIVE_QUALIFICATIONS (dp_nativeQualifications deps)) with
      | Ok p => mret p
      | Err e => mthrow (plan_text e)
      end
  end.

Definition blockPlacement (id : string) (p : Plan) (why : string) : Sync unit :=
  m ← mget;
  let fp := planFingerprint p in
  let per := default ∅ (blocked m !! id) in
  let cooldownMs := match per !! fp with
                    | Some b => Z.min (bk_cooldownMs b * 4) CRASH_COOLDOWN_MAX_MS
                    | None => crashCooldownMs deps
                    end in
  mmodify (set_blocked (<[id := <[fp := {| bk_until := now m + cooldownMs; bk_cooldownMs := cooldownMs; bk_why := why |}]> per]>
    (blocked m))) ;;
  ev id ("this placement crashed (" +:+ why +:+ "); not retrying it for " +:+ pretty (rounded cooldownMs 60000) +:+
         " min - stop and start the deployment to clear that memory").

Definition blockedUntil (id : string) (p : Plan) : Sync (option Block) :=
  m ← mget;
  let fp := planFingerprint p in
  match blocked m !! id ≫= (fun per => per !! fp) with
  | None => mret None
  | Some b =>
      if bk_until b <=? now m
      then mmodify (fun m => set_blocked (alter (base.delete fp) id (blocked m)) m) ;; mret None
      else mret (Some b)
  end.

Definition planFor (dep : Deployment) : Sync Plan :=
  m ← mget;
  p ← plan (dep_spec dep) (usedPorts m) (Some (dep_id dep)) [];
  b ← blockedUntil (dep_id dep) p;
  match b with
  | Some b => mthrow ("refusing a placement this deployment crashed on " +:+
                      pretty (Z.max 1 (rounded (bk_until b - now m) 60000)) +:+ " min ago: " +:+ bk_why b)
  | None => mret p
  end.

(** ** Teardown *)

Definition stopTimeoutMs : Z := default (2 * 60000) (dp_stopTimeoutMs deps).

Definition is_coordinator (r : AssignmentRow) : bool := match ar_body r with ACoordinator _ => true | _ => false end.

(** One row of the loop: retire it, tell its node to stop it, and wait for the acknowledgement unless
    the node cannot answer. *)
Definition stop_row (id : string) (abandon : bool) (r : AssignmentRow) : Async unit :=
  lift (regw (fun _ => retireAssignment (ar_id r)) ;;
        send_stop (ar_nodeId r) (assignment_id (ar_body r)) id) ;;
  m ← lift mget;
  if abandon && negb (online m (ar_nodeId r)) then
    lift (ev id (hostname m (ar_nodeId r) +:+
      " is offline; its cleanup is unprovable, retired and will be stopped on reconnect"))
  else
    acatch (await_all [{| wt_id := ar_id r; wt_states := [a_stopped]; wt_reject := false |}]) (fun _ => mret tt) ;;
    m ← lift mget;
    if closed m then athrow "control is shutting down" else mret tt.

Fixpoint stop_rows (id : string) (abandon : bool) (l : list AssignmentRow) : Async unit :=
  match l with
  | [] => mret tt
  | r :: l => stop_row id abandon r ;; stop_rows id abandon l
  end.

(** The rows of [id] that may still run an engine. *)
Definition pending_rows (m : Mgr) (abandon : bool) (id : string) : list AssignmentRow :=
  List.filter (fun r => negb (is_stopped r) && negb (abandon && negb (online m (ar_nodeId r)))) (rows m id).

Definition teardown (id : string) (abandon : bool) : Async unit :=
  m ← lift mget;
  if closed m then athrow "control is shutting down" else
  let live := List.filter (fun r => negb (is_stopped r)) (rows m id) in
  stop_rows id abandon (List.filter is_coordinator live ++ List.filter (fun r => negb (is_coordinator r)) live) ;;
  m ← lift mget;
  match pending_rows m abandon id with
  | [] => mret tt
  | l => athrow ("cleanup pending acknowledgement: " +:+ String.concat ", " (ar_id <$> l))
  end.

(** ** Starters *)

Definition waiting (id : string) (s : AssignmentState) : Waiter :=
  {| wt_id := id; wt_states := [s]; wt_reject := true |}.

Definition assign_or_throw (nodeId : string) (a : Assignment) (why : string) : Async unit :=
  ok ← lift (assign nodeId a); if (ok : bool) then mret tt else athrow why.

Definition offline_text (nodeId : string) : string := "node " +:+ nodeId +:+ " is offline".

Definition dispatch (nodeId : string) (a : Assignment) (s : AssignmentState) : Async unit :=
  assign_or_throw nodeId a (offline_text nodeId) ;; await_all [waiting (assignment_id a) s].

Definition go_ready (id nodeId : string) (port : Z) (modelName : string) : Sync unit :=
  updateDep id (pt (Some ready) None (Some (Some (nodeId, port, modelName))) None).

Definition url_of (url : string) : Sync URL := match new_URL url with Some u => mret u | None => mthrow "Invalid URL" end.
(** [Number(url.port)] *)
Definition port_number (u : URL) : Z := default 0 (url_port u).

Definition startExternal (dep : Deployment) (gen : Z) : Async unit :=
  '(ext, n, u, a) ← lift (
     ext ← the_external (dep_spec dep);
     n ← node (xs_nodeId ext);
     u ← url_of (xs_url ext);
     aid ← new_id "as";
     updateDep (dep_id dep) (pt (Some loading) (Some None) None None) ;;
     mret (ext, n, u,
       {| ra_id := aid; ra_deploymentId := dep_id dep; ra_port := port_number u; ra_model := None;
          ra_external := Some {| ex_url := xs_url ext;
                                 ex_healthPath := if String.eqb (xs_healthPath ext) "" then "/health" else xs_healthPath ext;
                                 ex_maintenance := xs_maintenance ext;
                                 ex_upstreamModel := if truthy_str (xs_upstreamModel ext) then xs_upstreamModel ext else None |};
          ra_modelName := Some (xs_modelName ext); ra_ctx := None; ra_parallel := None; ra_device := None;
          ra_mtp := None; ra_speculation := None; ra_extraArgs := None; ra_enforce := None; ra_fitMiB := None;
          ra_stopExternal := None; ra_allow := [] |}));
  dispatch (nr_id n) (AReplica a) a_ready ;;
  lift (assertRunning (dep_id dep) gen ;;
        go_ready (dep_id dep) (nr_id n) (port_number u) (xs_modelName ext) ;;
        ev (dep_id dep) ("ready (external " +:+ xs_url ext +:+ ")")).

Definition allocation_at (p : Plan) (nodeId : string) : option NodeAllocation :=
  pl_allocations p ≫= find (fun a => String.eqb (na_nodeId a) nodeId).
Definition enforce_of (a : NodeAllocation) : Enforce :=
  {| ef_ramMiB := Some (na_ramMiB a); ef_cpuCores := Some (na_cpuCores a) |}.
(** [{ ramMiB: allocation?.ramMiB ?? offer?.ramMiB, cpuCores: .. }] *)
Definition enforce_or_offer (a : option NodeAllocation) (n : NodeRow) : Enforce :=
  {| ef_ramMiB := match a with Some a => Some (na_ramMiB a) | None => of_ramMiB <$> nr_offer n end;
     ef_cpuCores := match a with Some a => Some (na_cpuCores a) | None => of_cpuCores <$> nr_offer n end |}.

(** The external deployment an engine on [nodeId] may stop. *)
Definition stop_external (m : Mgr) (spec : DeploymentSpec) (nodeId : string) : option string :=
  if default false (ds_stopExternal spec) then
    (fun d => ds_name (dep_spec d)) <$>
      head (List.filter (fun d => bool_decide (ds_kind (dep_spec d) = external) &&
                                  bool_decide (xs_nodeId <$> ds_external (dep_spec d) = Some nodeId))
              (listDeployments (reg m)))
  else None.

Definition mtp_of (p : Plan) : option MtpRef :=
  match pl_mtpPath p with
  | Some path => if (0 <? pl_chain p) && negb (String.eqb path "") then Some {| mt_path := path; mt_chain := pl_chain p |} else None
  | None => None
  end.

(** [profiles.get(id)!], whose properties are read next *)
Definition the_profile (id : string) : Sync ModelProfile :=
  match profile_of id with Some p => mret p | None => mthrow "undefined is not an object" end.

Definition startReplica (dep : Deployment) (gen : Z) : Async unit :=
  '(n, a, profile) ← lift (
     p ← planFor dep;
     updateDep (dep_id dep) (pt (Some loading) (Some (Some p)) None None) ;;
     n ← node (pl_coordinatorNodeId p);
     m ← mget;
     let port := freePort (nr_id n) (dp_serverPortBase deps) (usedPorts m) in
     aid ← new_id "as";
     profile ← the_profile (ds_profile (dep_spec dep));
     let alloc := allocation_at p (nr_id n) in
     mret (n, {| ra_id := aid; ra_deploymentId := dep_id dep; ra_port := port;
       ra_model := Some {| mr_path := pl_modelPath p; mr_sha256 := None |}; ra_external := None;
       ra_modelName := Some (mp_modelName profile); ra_ctx := Some (pl_ctx p); ra_parallel := Some (pl_parallel p);
       ra_device := Some (pl_coordinatorDevice p); ra_mtp := mtp_of p; ra_speculation := pl_speculation p;
       ra_extraArgs := Some (mp_extraArgs profile); ra_enforce := enforce_of <$> alloc;
       ra_fitMiB := if bool_decide (nr_os n = darwin)
                    then if present (ds_allocations (dep_spec dep)) then na_ramMiB <$> alloc
                         else Some (mp_layers profile * mp_layerMiB profile + mp_coordinatorHostMiB profile)
                    else None;
       ra_stopExternal := stop_external m (dep_spec dep) (nr_id n); ra_allow := [] |}, profile));
  dispatch (nr_id n) (AReplica a) a_ready ;;
  lift (assertRunning (dep_id dep) gen ;;
        go_ready (dep_id dep) (nr_id n) (ra_port a) (mp_modelName profile) ;;
        ev (dep_id dep) ("ready (replica on " +:+ nr_hostname n +:+ ")")).

Definition stage_of (depId aid : string) (p : Plan) (w : NativeStageWorkerPlan) : StageAssignment :=
  let e := sw_endpoint w in
  {| sa_id := aid; sa_deploymentId := depId; sa_model_path := sw_modelPath w;
     sa_model_sha256 := si_model_sha256 (se_identity e); sa_port := se_port e; sa_ctx := pl_ctx p; sa_gpuLayers := 999;
     sa_identity := se_identity e; sa_binarySha256 := se_binarySha256 e; sa_fitMiB := sw_fitMiB w; sa_allow := [];
     sa_enforce_ramMiB := sw_enforce_ramMiB w; sa_enforce_cpuCores := sw_enforce_cpuCores w |}.

(** [for (const { nodeId, a } of assignments) { check; if (!assign) throw }] *)
Fixpoint assign_all (check : Sync unit) (l : list (string * Assignment)) : Async unit :=
  match l with
  | [] => mret tt
  | (nodeId, a) :: l => lift check ;; assign_or_throw nodeId a (offline_text nodeId) ;; assign_all check l
  end.

Definition startNative (dep : Deployment) (gen : Z) : Async unit :=
  '(p, np, l) ← lift (
     m ← mget;
     p ← plan (dep_spec dep) (usedPorts m) (Some (dep_id dep)) [];
     match pl_nativeExecution p with
     | None => mthrow "native execution plan missing"
     | Some np =>
         updateDep (dep_id dep) (pt (Some loading) (Some (Some p)) None None) ;;
         l ← mmap_i 0 (np_endpoints np) (fun _ w =>
               aid ← new_id "as"; mret (endpoint_node w, AStage (stage_of (dep_id dep) aid p w)));
         mret (p, np, l)
     end);
  assign_all (assertRunning (dep_id dep) gen) l ;;
  await_all ((fun x => waiting (assignment_id x.2) a_ready) <$> l) ;;
  lift (
    assertRunning (dep_id dep) gen ;;
    match np_endpoints np with
    | [] => mthrow "undefined is not an object"
    | first :: _ =>
        mmodify (fun m => set_fresh (S (fresh m)) (set_nativeLifetimes (<[dep_id dep := fresh m]> (nativeLifetimes m)) m)) ;;
        profile ← the_profile (ds_profile (dep_spec dep));
        go_ready (dep_id dep) (endpoint_node first) (se_port (sw_endpoint first)) (mp_modelName profile) ;;
        hosts ← mmap_i 0 l (fun _ x => n ← node x.1; mret (nr_hostname n));
        ev (dep_id dep) ("ready (" +:+ String.concat " > " hosts +:+ ")")
    end).

(** Every address a peer published, the relay as the fallback. *)
Definition endpointFor (n : NodeRow) (port : Z) (inbound : option bool) : Endpoint :=
  {| ep_nodeId := nr_id n; ep_certFp := nr_certFp n; ep_port := port;
     ep_direct :=
       match nr_caps n with
       | None => []
       | Some c =>
           let dataPort := default AGENT_DATA_PORT (cap_dataPort c) in
           ((fun h => {| hp_host := h; hp_port := dataPort |}) <$> cap_privateIps c) ++
           match cap_publicIp c with
           | Some ip => if String.eqb ip "" then [] else [{| hp_host := ip; hp_port := dataPort |}]
           | None => []
           end ++
           List.filter (fun e => (0 <? Z.of_nat (String.length (hp_host e))) && (0 <? hp_port e) && (hp_port e <? 65536))
             (default [] (cap_publicEndpoints c))
       end;
     ep_relay := true; ep_inbound := inbound |}.

Definition positive_port (o : option Z) : option Z := match o with Some p => if p =? 0 then None else Some p | None => None end.

(** The [i]-th worker of the ring: it admits the coordinator and its predecessor and pushes to its
    successor when both have a peer port. *)
Definition worker_assignment (dep : Deployment) (p : Plan) (profile : ModelProfile) (coord : NodeRow)
    (workers : list (PlanWorker * NodeRow)) (i : nat) (w : PlanWorker) (n : NodeRow) (aid : string) : WorkerAssignment :=
  let next := workers !! S i in
  let prev := match i with O => None | S j => workers !! j end in
  {| wa_id := aid; wa_deploymentId := dep_id dep; wa_port := pw_port w; wa_device := pw_device w;
     wa_threads := pw_threads w; wa_memCapMiB := Some (pw_memCapMiB w); wa_layers := Some (pw_layers w);
     wa_modelLayers := Some (mp_layers profile); wa_peerPort := pw_peerPort w;
     wa_peers := match next, positive_port (pw_peerPort w) with
                 | Some (w', n'), Some _ =>
                     match positive_port (pw_peerPort w') with
                     | Some q => Some [(Z.of_nat i + 1, endpointFor n' q None)]
                     | None => None
                     end
                 | _, _ => None
                 end;
     wa_serve := if dp_reverseDial deps then Some (endpointFor coord (pw_port w) None) else None;
     wa_allow := nr_certFp coord :: match prev with Some (_, n') => [nr_certFp n'] | None => [] end;
     wa_enforce := Some (enforce_or_offer (allocation_at p (nr_id n)) n); wa_cache := None |}.

Definition coordinator_assignment (m : Mgr) (dep : Deployment) (p : Plan) (profile : ModelProfile) (coord : NodeRow)
    (workers : list (PlanWorker * NodeRow)) (port : Z) (aid : string) : result string CoordinatorAssignment :=
  let alloc := allocation_at p (nr_id coord) in
  let coordLayers := default 0 (last (pl_tensorSplit p)) in
  match bool_decide (nr_os coord = darwin), present (ds_allocations (dep_spec dep)), alloc with
  | true, true, None => Err "undefined is not an object"
  | mac, fleet, _ =>
      Ok {| ca_id := aid; ca_deploymentId := dep_id dep;
            ca_model := {| mr_path := pl_modelPath p; mr_sha256 := None |};
            ca_rpc := (fun wn => endpointFor wn.2 (pw_port wn.1) (Some (dp_reverseDial deps))) <$> workers;
            ca_devices := ((fun i => "RPC" +:+ pretty (Z.of_nat i)) <$> seq 0 (length workers)) ++ [pl_coordinatorDevice p];
            ca_tensorSplit := split_of p; ca_ctx := pl_ctx p; ca_parallel := pl_parallel p; ca_mtp := mtp_of p;
            ca_speculation := pl_speculation p;
            ca_env := match pl_engineTensorSplit p with
                      | Some _ => al_set (pl_env p) "LLAMA_ARG_LOG_VERBOSITY" "4"
                      | None => pl_env p
                      end;
            ca_extraArgs := mp_extraArgs profile; ca_port := port; ca_modelName := Some (mp_modelName profile);
            ca_fitMiB := if mac then if fleet then na_ramMiB <$> alloc
                                     else Some (coordLayers * mp_layerMiB profile + mp_coordinatorHostMiB profile)
                         else None;
            ca_stopExternal := stop_external m (dep_spec dep) (nr_id coord); ca_allow := [];
            ca_enforce := Some (enforce_or_offer alloc coord) |}
  end.

Definition startSplit (dep : Deployment) (gen : Z) : Async unit :=
  '(p, profile, coord, workers, l) ← lift (
     p ← planFor dep;
     updateDep (dep_id dep) (pt None (Some (Some p)) None None) ;;
     coord ← node (pl_coordinatorNodeId p);
     workers ← mmap_i 0 (pl_workers p) (fun _ w => n ← node (pw_nodeId w); mret (w, n));
     profile ← the_profile (ds_profile (dep_spec dep));
     l ← mmap_i 0 workers (fun i wn =>
           aid ← new_id "as";
           mret (nr_id wn.2, AWorker (worker_assignment dep p profile coord workers i wn.1 wn.2 aid)));
     mret (p, profile, coord, workers, l));
  assign_all (mret tt) l ;;
  await_all ((fun x => waiting (assignment_id x.2) listening) <$> l) ;;
  c ← lift (
    assertRunning (dep_id dep) gen ;;
    updateDep (dep_id dep) (pt (Some loading) None None None) ;;
    m ← mget;
    let port := freePort (nr_id coord) (dp_serverPortBase deps) (usedPorts m) in
    aid ← new_id "as";
    match coordinator_assignment m dep p profile coord workers port aid with Ok c => mret c | Err e => mthrow e end);
  assign_or_throw (nr_id coord) (ACoordinator c) ("coordinator " +:+ nr_id coord +:+ " is offline") ;;
  await_all [waiting (ca_id c) a_ready] ;;
  lift (
    assertRunning (dep_id dep) gen ;;
    go_ready (dep_id dep) (nr_id coord) (ca_port c) (mp_modelName profile) ;;
    ev (dep_id dep) ("ready (split " +:+ String.concat "/" (pretty <$> pl_tensorSplit p) +:+ " on " +:+
      String.concat " > " (((fun wn => nr_hostname wn.2) <$> workers) ++ [nr_hostname coord]) +:+ ")")).

(** ** Jobs *)

Definition start_kind (dep : Deployment) (gen : Z) : Async unit :=
  match ds_kind (dep_spec dep) with
  | external => startExternal dep gen
  | replica => startReplica dep gen
  | stages | prefill_decode => startNative dep gen
  | split => startSplit dep gen
  end.

Definition run_work (id : string) (w : Work) : Async unit :=
  match w with
  | WTeardown => teardown id false
  | WStop =>
      teardown id false ;;
      lift (updateDep id (pt (Some stopped) None None None) ;; ev id "stopped")
  | WStart dep gen abandon =>
      acatch
        (teardown id abandon ;; lift (assertRunning id gen) ;; start_kind dep gen)
        (fun e =>
           m ← lift mget;
           (if negb (closed m) && (gen =? generation m id)
            then lift (recordFailure id e) ;; acatch (teardown id abandon) (fun _ => mret tt)
            else mret tt) ;;
           athrow e)
  end.

(** ** Failure and reconnection *)

Definition fail (id why : string) : Sync unit :=
  m ← mget;
  match getDeployment (reg m) id with
  | None => mret tt
  | Some d =>
      if bool_decide (dep_state d ∈ [failed; stopped; draining]) || closed m then mret tt
      else cancel id ;; recordFailure id why ;; enqueue id {| jb_work := WTeardown; jb_after := Nothing |}
  end.

Definition observeReconnect (id : string) : Sync unit :=
  m ← mget;
  match reconnecting m !! id with
  | None => mret tt
  | Some r =>
      if present (rc_cleanupDeadline r) || (rc_deadline r <=? now m) then mret tt
      else if negb (forallb (reachable m) (rc_nodes r)) then mret tt
      else
        let pending := Z.of_nat (length (List.filter (fun a => negb (is_stopped a)) (rows m id))) in
        mmodify (fun m => set_reconnecting (<[id := {| rc_deadline := rc_deadline r;
          rc_cleanupDeadline := Some (now m + Z.max 1 pending * stopTimeoutMs);
          rc_nodes := rc_nodes r; rc_reason := rc_reason r |}]> (reconnecting m)) m)
  end.

Definition watches (r : AssignmentRow) : bool := healthWatch r.

Definition onOffline_one (nodeId : string) (d : Deployment) : Sync unit :=
  m ← mget;
  let id := dep_id d in
  if closed m || negb (di_running (intent m id)) || bool_decide (dep_state d ∈ [stopped; failed; planned; draining]) ||
     present (reconnecting m !! id) then mret tt else
  let here := List.filter (fun a => String.eqb (ar_nodeId a) nodeId && negb (is_stopped a)) (rows m id) in
  let in_plan := match dep_plan d with Some p => bool_decide (nodeId ∈ planNodes p) | None => false end in
  if bool_decide (length here = 0%nat) && negb in_plan then mret tt else
  if negb (bool_decide (length here = 0%nat)) && forallb watches here then
    updateDep id (pt (Some loading) None (Some None) (Some (Some ("external agent " +:+ nodeId +:+ " offline")))) ;;
    ev id ("agent on " +:+ nodeId +:+ " offline; external route withdrawn until reconnect")
  else
    let reason := "node " +:+ nodeId +:+ " went offline" in
    cancel id ;;
    m ← mget;
    let nodes := match dep_plan d with
                 | Some p => planNodes p
                 | None => dedup (ar_nodeId <$> List.filter (fun a => negb (ar_retired a)) (rows m id))
                 end in
    let lease := match updateLease m with
                 | Some l => if String.eqb (le_nodeId l) nodeId then le_expiresAt l else 0
                 | None => 0
                 end in
    let grace := default 30000 (dp_reconnectGraceMs deps) in
    mmodify (fun m => set_reconnecting (<[id := {| rc_deadline := Z.max (now m) lease + grace;
      rc_cleanupDeadline := None; rc_nodes := nodes; rc_reason := reason |}]> (reconnecting m)) m) ;;
    updateDep id (pt (Some loading) None (Some None)
      (Some (Some (reason +:+ "; reconnecting with fresh placement required")))) ;;
    ev id (reason +:+ "; route withdrawn, waiting up to " +:+ pretty grace +:+ "ms for reconnect") ;;
    enqueue id {| jb_work := WTeardown; jb_after := Nothing |}.

Definition onOffline (nodeId : string) : Sync unit :=
  m ← mget; mfor (listDeployments (reg m)) (onOffline_one nodeId).

(** ** Reports of the agents *)

Definition external_report (nodeId : string) (d : Deployment) (state : AssignmentState) (detail : option string) : Sync unit :=
  let id := dep_id d in
  if bool_decide (state ∈ [a_failed; a_stopped]) && bool_decide (dep_state d = ready) then
    updateDep id (pt (Some loading) None (Some None) (Some (Some ("external server unhealthy: " +:+ default "" detail)))) ;;
    ev id ("external server unhealthy, out of routing (" +:+ default "" detail +:+ ")")
  else if bool_decide (state = a_ready) && bool_decide (dep_state d = loading) then
    match ds_external (dep_spec d) with
    | None => mret tt
    | Some x =>
        u ← url_of (xs_url x);
        updateDep id (pt (Some ready) None (Some (Some (nodeId, port_number u, xs_modelName x))) (Some None)) ;;
        ev id "external server healthy again, back in routing"
    end
  else mret tt.

Definition onAssignmentState (nodeId id : string) (state : AssignmentState) (detail : option string) : Sync unit :=
  m ← mget;
  match getAssignment (reg m) id with
  | None => mret tt
  | Some r =>
      if negb (String.eqb (ar_nodeId r) nodeId) then mret tt
      else if ar_retired r && negb (bool_decide (state = a_stopped)) then send_stop nodeId id (ar_deploymentId r)
      else
        notify id state detail ;;
        match getDeployment (reg m) (ar_deploymentId r) with
        | None => mret tt
        | Some d =>
            let did := dep_id d in
            mwhen (bool_decide (state = a_stopped)) (finishDraining did) ;;
            if ar_retired r || present (reconnecting m !! did) then mret tt
            else if watches r && di_running (intent m did) && bool_decide (dep_state d ∈ [ready; loading])
            then external_report nodeId d state detail
            else if bool_decide (state ∈ [a_failed; a_stopped]) &&
                    negb (bool_decide (dep_state d ∈ [stopped; failed; draining]))
            then
              let text := default "" detail in
              if negb (online m nodeId) || mentions leaving_words text then onOffline nodeId
              else
                match dep_plan d with
                | Some p => mwhen (crashed text) (blockPlacement did p (default "engine failed" detail))
                | None => mret tt
                end ;;
                fail did ("assignment " +:+ id +:+ " on " +:+ nodeId +:+ " failed: " +:+ default "no detail" detail)
            else mret tt
        end
  end.

(** A row of the node that said hello; [seen] are the deployments whose watch it still runs. *)
Definition onHello_row (nodeId : string) (have : list (string * AssignmentState)) (seen : list string)
    (r : AssignmentRow) : Sync (list string) :=
  if negb (String.eqb (ar_nodeId r) nodeId) then mret seen else
  m ← mget;
  let id := ar_id r in
  let dep := getDeployment (reg m) (ar_deploymentId r) in
  let wants := match dep with
               | Some d => negb (present (reconnecting m !! dep_id d)) && negb (ar_retired r) &&
                           di_running (intent m (dep_id d)) &&
                           negb (bool_decide (dep_state d ∈ [failed; stopped; planned; draining]))
               | None => false
               end in
  let duplicate := watches r && bool_decide (ar_deploymentId r ∈ seen) in
  let seen := if watches r && wants && negb duplicate then ar_deploymentId r :: seen else seen in
  let fail_dep why := match dep with Some d => fail (dep_id d) why | None => mret tt end in
  let reported := al_get have id in
  match reported with
  | None | Some a_stopped =>
      regw (fun _ => retireAssignment id) ;;
      regw (fun t => setAssignmentState t id a_stopped (Some "agent confirmed assignment absent")) ;;
      notify id a_stopped None ;;
      (if wants && negb (is_stopped r) then
         if watches r then if negb duplicate then assign nodeId (ar_body r) ;; mret tt else mret tt
         else fail_dep ("node " +:+ nodeId +:+ " restarted without assignment " +:+ id)
       else mret tt)
  | Some s =>
      if negb wants || duplicate || is_stopped r then
        regw (fun t => setAssignmentState t id s None) ;;
        regw (fun _ => retireAssignment id) ;;
        send_stop nodeId id (ar_deploymentId r)
      else if watches r then onAssignmentState nodeId id s None
      else if bool_decide (s = a_failed) then fail_dep ("node " +:+ nodeId +:+ " reported failed assignment " +:+ id)
      else mret tt
  end ;;
  mret seen.

Fixpoint onHello_rows (nodeId : string) (have : list (string * AssignmentState)) (seen : list string)
    (l : list AssignmentRow) : Sync unit :=
  match l with
  | [] => mret tt
  | r :: l => seen ← onHello_row nodeId have seen r; onHello_rows nodeId have seen l
  end.

(** [Number(a.retired) - Number(b.retired) || a.id.localeCompare(b.id)] *)
Definition hello_le (a b : AssignmentRow) : bool :=
  match ar_retired a, ar_retired b with
  | false, true => true
  | true, false => false
  | _, _ => by_key localeCompare ar_id a b
  end.

Definition onHello (nodeId : string) (reported : list (string * AssignmentState)) : Sync unit :=
  m ← mget;
  mfor (map_to_list (reconnecting m)) (fun kr =>
    if bool_decide (nodeId ∈ rc_nodes kr.2) then observeReconnect kr.1 else mret tt) ;;
  let have := foldl (fun l r => al_set l r.1 r.2) [] reported in
  mfor reported (fun r =>
    m ← mget;
    if negb (present (getAssignment (reg m) r.1)) && negb (bool_decide (r.2 = a_stopped))
    then send_stop nodeId r.1 "orphan" else mret tt) ;;
  m ← mget;
  onHello_rows nodeId have [] (js_sort hello_le (listAssignments (reg m) None)).

(** ** Starting *)

Definition clearExclusions (id : string) : Sync unit :=
  m ← mget;
  match al_get (moveExcluded m) id with
  | Some x =>
      if bool_decide (xc_nodes x = []) then mret tt else
      ev id (pretty (Z.of_nat (length (xc_nodes x))) +:+
        " node(s) excluded by an earlier failed re-placement are eligible again: an explicit start was requested") ;;
      mmodify (fun m => set_moveExcluded (al_delete (moveExcluded m) id) m)
  | None => mret tt
  end.

Definition state_text (s : DeploymentState) : string :=
  match s with planned => "planned" | placing => "placing" | loading => "loading" | ready => "ready"
  | draining => "draining" | stopped => "stopped" | failed => "failed" end.

(** [start] up to its [enqueue]; [after] is what the caller awaits the job for. *)
Definition start (id : string) (recovering holder abandon fromReady : bool) (after : After) : Sync unit :=
  mwhen (negb recovering) (clearExclusions id) ;;
  assertFleetAccess holder ;;
  dep ← must id;
  m ← mget;
  if closed m then mthrow "control is shutting down" else
  updating ← updatingNode;
  if present updating then mthrow "node update in progress; retry after recovery" else
  if busy m id then mthrow "deployment operation already in progress" else
  let restartable := bool_decide (dep_state dep ∈ [planned; stopped; failed]) ||
    (recovering && present (reconnecting m !! id) && bool_decide (dep_state dep = loading)) ||
    (fromReady && bool_decide (dep_state dep ∈ [ready; placing; loading])) in
  if negb restartable then mthrow ("cannot start from state " +:+ state_text (dep_state dep)) else
  mwhen (bool_decide (ds_kind (dep_spec dep) = external))
    (assertExternalOptions (dep_spec dep) ;; assertUniqueExternal (dep_spec dep) (Some id)) ;;
  mmodify (fun m => set_reconnecting (base.delete id (reconnecting m)) m) ;;
  setIntent id (Some true) (if recovering then None else Some 0) (if recovering then None else Some 0) ;;
  m ← mget;
  updateDep id (pt (Some placing) None (Some None) (Some None)) ;;
  enqueue id {| jb_work := WStart dep (generation m id) abandon; jb_after := after |}.

(** ** Automatic choice and movement *)

Definition pinsNodes (spec : DeploymentSpec) : bool :=
  match ds_kind spec with
  | external | stages | prefill_decode => true
  | replica => truthy_str (ds_replicaNodeId spec)
  | split => truthy_str (ds_coordinatorNodeId spec) || some_ids (ds_workerNodeIds spec)
  end.

Definition fitNeedMiB (p : Plan) (profile : ModelProfile) (kind : DeploymentKind) : Z :=
  let layers := if bool_decide (kind = replica) then mp_layers profile
                else default (mp_layers profile) (last (split_of p)) in
  layers * mp_layerMiB profile + mp_coordinatorHostMiB profile.

Definition free_ram (m : Mgr) (id : string) : option num :=
  match getNode (reg m) id with Some n => nr_metrics n ≫= mx_freeRamMiB | None => None end.

Definition fitsNow (m : Mgr) (p : Plan) (profile : ModelProfile) (kind : DeploymentKind) : bool :=
  match getNode (reg m) (pl_coordinatorNodeId p) with
  | None => true
  | Some n =>
      if negb (bool_decide (nr_os n = darwin)) then true else
      match nr_metrics n ≫= mx_freeRamMiB with
      | None => true
      | Some free => num_leb (num_of_Z (fitNeedMiB p profile kind)) free
      end
  end.

Definition kind_text (k : DeploymentKind) : string :=
  match k with split => "split" | replica => "replica" | external => "external" | stages => "stages"
  | prefill_decode => "prefill-decode" end.

Definition auto_spec (base : DeploymentSpec) (profile : string) (kind : DeploymentKind) : DeploymentSpec :=
  {| ds_name := ds_name base; ds_profile := profile; ds_autoTopology := ds_autoTopology base;
     ds_autoModel := Some true; ds_kind := kind; ds_coordinatorNodeId := ds_coordinatorNodeId base;
     ds_workerNodeIds := None; ds_workerLayers := None; ds_replicaNodeId := None;
     ds_allocations := ds_allocations base; ds_stages := ds_stages base;
     ds_prefillNodeId := ds_prefillNodeId base; ds_decodeNodeId := ds_decodeNodeId base;
     ds_modelSha256 := ds_modelSha256 base; ds_ctx := ds_ctx base; ds_parallel := ds_parallel base;
     ds_chain := ds_chain base; ds_speculation := ds_speculation base; ds_wire := ds_wire base;
     ds_batchedGets := ds_batchedGets base; ds_forwarding := ds_forwarding base;
     ds_stopExternal := ds_stopExternal base; ds_transport := ds_transport base; ds_external := ds_external base |}.

(** The ranked profiles, best first, each as a replica and then as a split. *)
Definition candidates : list (ModelProfile * DeploymentKind) :=
  js_sort (fun a b => default 0 (mp_rank b) <=? default 0 (mp_rank a))
    (List.filter (fun p => present (mp_rank p)) (dp_profiles deps)) ≫= fun p => [(p, replica); (p, split)].

Definition strip_no_plan (s : string) : string :=
  if String.prefix "no plan: " s then String.substring 9 (String.length s) s else s.

(** The first candidate that can be placed and fits now, with the reason; or what was tried. *)
Fixpoint choose_from (base : DeploymentSpec) (replacing : option string) (exclude : list string)
    (tried skipped : list string) (l : list (ModelProfile * DeploymentKind))
    : Sync (list string + DeploymentSpec * string) :=
  match l with
  | [] => mret (inl tried)
  | (p, kind) :: l =>
      let spec := auto_spec base (mp_id p) kind in
      m ← mget;
      planned_ ← mtry (x ← plan spec (usedPorts m) replacing exclude; mret (inr x)) (fun e => mret (inl e));
      match planned_ with
      | inl e =>
          choose_from base replacing exclude
            (tried ++ [mp_id p +:+ "/" +:+ kind_text kind +:+ ": " +:+ String.substring 0 140 (strip_no_plan e)]) skipped l
      | inr x =>
          m ← mget;
          if fitsNow m x p kind then
            mret (inr (spec, mp_id p +:+ " as " +:+ kind_text kind +:+
              match skipped with s :: _ => " (skipped: " +:+ s +:+ ")" | [] => "" end))
          else
            choose_from base replacing exclude tried
              (skipped ++ [mp_id p +:+ " needs " +:+ pretty (fitNeedMiB x p kind) +:+ " MiB free on " +:+
                 hostname m (pl_coordinatorNodeId x) +:+ ", which has " +:+
                 show_num (js_round (default num_zero (free_ram m (pl_coordinatorNodeId x))))]) l
      end
  end.
Definition chooseAuto (base : DeploymentSpec) (replacing : option string) (exclude : list string)
    : Sync (list string + DeploymentSpec * string) :=
  choose_from base replacing exclude [] [] candidates.

Definition servingLayers (p : option Plan) : option Z := p ≫= fun p => last (split_of p).

Definition offered_ram (m : Mgr) (id : string) : Z :=
  match getNode (reg m) id ≫= nr_offer with Some o => of_ramMiB o | None => 0 end.

Definition placementGain (m : Mgr) (current : option Plan) (candidate : Plan) : option string :=
  let fewer := match servingLayers current, servingLayers (Some candidate) with
               | Some a, Some b =>
                   if b <=? a - moveMarginLayers
                   then Some (pretty a +:+ " -> " +:+ pretty b +:+ " layers on the serving node") else None
               | _, _ => None
               end in
  match fewer with
  | Some t => Some t
  | None =>
      let next := pl_coordinatorNodeId candidate in
      if negb (String.eqb next "") && negb (bool_decide (Some next = pl_coordinatorNodeId <$> current)) then
        let a := offered_ram m (default "" (pl_coordinatorNodeId <$> current)) in
        let b := offered_ram m next in
        if (0 <? a) && (5 * a <=? 4 * b)
        then Some ("coordinator " +:+ hostname m next +:+ " offers " +:+ pretty (rounded b 1024) +:+ " vs " +:+
                   pretty (rounded a 1024) +:+ " GiB")
        else None
      else None
  end.

Definition wedgedLoadReason (m : Mgr) (d : Deployment) : option string :=
  if negb (bool_decide (dep_state d ∈ [placing; loading])) then None else
  match dep_plan d with
  | None => None
  | Some p =>
      if pinsNodes (dep_spec d) then None else
      let age := now m - dep_updatedAt d in
      if age <? default 60000 (dp_moveSettleMs deps) then None else
      if now m <? default 0 (lastMove m !! dep_id d) + moveIntervalMs deps then None else
      match List.filter (fun n => negb (reachable m n)) (planNodes p) with
      | [] => if age <? wedgedLoadMs deps then None
              else Some ("still not ready after " +:+ pretty (rounded age 1000) +:+ "s")
      | gone => Some ("plan names " +:+ String.concat ", " (hostname m <$> gone) +:+ ", which is offline")
      end
  end.

Definition moved_now (id : string) : Sync unit := mmodify (fun m => set_lastMove (<[id := now m]> (lastMove m)) m).

(** Whether the nodes of a plan are all still here. *)
Definition rank_of (profile : string) : option Z := if String.eqb profile "" then None else profile_of profile ≫= mp_rank.

(** Re-deciding the model of an automatic deployment: [None] when nothing is placeable, otherwise
    whether the record was changed. *)
Definition redecide (id : string) (dep : Deployment) (reason : string) : Sync (option bool) :=
  if negb (default false (ds_autoModel (dep_spec dep))) then mret (Some false) else
  m ← mget;
  choice ← chooseAuto (dep_spec dep) (Some id) (match al_get (moveExcluded m) id with Some x => xc_nodes x | None => [] end);
  match choice with
  | inl tried =>
      ev id (ds_name (dep_spec dep) +:+ ": nothing placeable after " +:+ reason +:+ " - " +:+
             default "no candidate" (head tried)) ;; mret None
  | inr (spec, why) =>
      m ← mget;
      let kindChanged := negb (bool_decide (ds_kind spec = ds_kind (dep_spec dep))) in
      let profileChanged := negb (String.eqb (ds_profile spec) (ds_profile (dep_spec dep))) in
      let intact := bool_decide (dep_state dep = ready) &&
        match dep_plan dep with
        | Some p => forallb (fun n => match getNode (reg m) n with Some x => nr_online x | None => false end) (planNodes p)
        | None => false
        end in
      let worse := match rank_of (ds_profile (dep_spec dep)), rank_of (ds_profile spec) with
                   | Some a, Some b => b <? a
                   | _, _ => false
                   end in
      if profileChanged && intact && worse then
        ev id (ds_name (dep_spec dep) +:+ ": automatic model choice wanted " +:+ why +:+ ", but that ranks below " +:+
               ds_profile (dep_spec dep) +:+ ", which is serving and placeable - keeping the model") ;; mret (Some false)
      else if kindChanged && bool_decide (dep_state dep = ready) then
        ev id (ds_name (dep_spec dep) +:+ ": automatic model choice wanted " +:+ why +:+ ", but " +:+
               kind_text (ds_kind (dep_spec dep)) +:+ " is serving - keeping the shape") ;; mret (Some false)
      else if profileChanged || kindChanged then
        ev id (ds_name (dep_spec dep) +:+ ": automatic model choice is now " +:+ why) ;;
        updateDep id {| pt_state := None; pt_plan := None; pt_endpoint := None; pt_error := None; pt_spec := Some spec |} ;;
        mret (Some true)
      else mret (Some false)
  end.

Definition same_request (a b : Plan) : bool :=
  String.eqb (pl_modelPath a) (pl_modelPath b) && bool_decide (pl_mtpPath a = pl_mtpPath b) &&
  (pl_ctx a =? pl_ctx b) && (pl_parallel a =? pl_parallel b) && (pl_chain a =? pl_chain b) &&
  bool_decide (pl_speculation a = pl_speculation b) && bool_decide (pl_nativeExecution a = pl_nativeExecution b).

(** Why a candidate is not worth a reload, or [None]. *)
Definition refuse_move (m : Mgr) (dep : Deployment) (candidate : Plan) (block : option Block) (modelChanged : bool)
    : option string :=
  let serving := bool_decide (dep_state dep = ready) in
  match block with
  | Some b => Some ("crashed recently (" +:+ bk_why b +:+ ")")
  | None =>
      if serving && samePlacement (dep_plan dep) (Some candidate) then Some "placement unchanged - not restarting" else
      match dep_plan dep with
      | Some p =>
          if negb modelChanged && serving && same_request p candidate && forallb (reachable m) (planNodes p) &&
             negb (present (placementGain m (Some p) candidate))
          then Some "not a material gain - not restarting" else None
      | None => None
      end
  end.

(** The value [redistribute] resolves to, a job it awaits, or no end of the recursion within the fuel. *)
Inductive Moved := Returned (b : bool) | Pending | Spinning.

(** The [catch] of [redistribute]: the nodes whose engines did not come up are excluded and, when there
    are any, [again] runs. *)
Definition move_failed (id reason why : string) (again : Sync Moved) : Sync Moved :=
  m ← mget;
  let name := default "" ((fun d => ds_name (dep_spec d)) <$> getDeployment (reg m) id) in
  let bad := dedup (ar_nodeId <$> List.filter (fun a => match ar_detail a with
                                                        | Some t => negb (String.eqb t "") && mentions engine_words t
                                                        | None => false end) (rows m id)) in
  match bad with
  | [] => ev id (name +:+ ": re-placement did not start (" +:+ why +:+ ")") ;; mret (Returned false)
  | _ =>
      let seen := match al_get (moveExcluded m) id with Some x => xc_nodes x | None => [] end in
      mmodify (fun m => set_moveExcluded (al_set (moveExcluded m) id
        {| xc_nodes := seen ++ List.filter (fun n => negb (bool_decide (n ∈ seen))) bad; xc_at := now m |}) m) ;;
      ev id (name +:+ ": re-placement did not start (" +:+ why +:+ "); re-placing without " +:+
             String.concat ", " (hostname m <$> bad)) ;;
      again
  end.

(** [else_fail] is the text [reconcile] fails the deployment with when the move does not happen; [again] the
    recursive call. *)
Definition redistribute_once (again : Sync Moved) (id reason : string) (else_fail : option string) : Sync Moved :=
  m ← mget;
  match getDeployment (reg m) id with
  | None => mret (Returned false)
  | Some dep0 =>
      if closed m || busy m id then mret (Returned false) else
      if pinsNodes (dep_spec dep0) then
        ev id (ds_name (dep_spec dep0) +:+ ": " +:+ reason +:+ "; placement is pinned, not moving") ;;
        mret (Returned false)
      else
        changed ← redecide id dep0 reason;
        match changed with
        | None => mret (Returned false)
        | Some modelChanged =>
            m ← mget;
            let dep := default dep0 (if (modelChanged : bool) then getDeployment (reg m) id else None) in
            candidate ← mtry (x ← plan (dep_spec dep) (usedPorts m) (Some id) []; mret (inr x)) (fun e => mret (inl e));
            match candidate with
            | inl e =>
                ev id (ds_name (dep_spec dep) +:+ ": cannot re-place after " +:+ reason +:+ " - " +:+ e) ;;
                mret (Returned false)
            | inr candidate =>
                block ← blockedUntil id candidate;
                m ← mget;
                match refuse_move m dep candidate block modelChanged with
                | Some text =>
                    moved_now id ;;
                    ev id (ds_name (dep_spec dep) +:+ ": " +:+ reason +:+ "; " +:+ text) ;;
                    mret (Returned false)
                | None =>
                    setIntent id None (Some 0) (Some 0) ;;
                    ev id (ds_name (dep_spec dep) +:+ ": re-placing after " +:+ reason) ;;
                    moved_now id ;;
                    mtry (start id true false true true (Then_moved reason else_fail) ;; mret Pending)
                      (fun e => move_failed id reason e again)
                end
            end
        end
  end.
Fixpoint redistribute (fuel : nat) (id reason : string) (else_fail : option string) : Sync Moved :=
  match fuel with
  | O => mret Spinning
  | S fuel => redistribute_once (redistribute fuel id reason else_fail) id reason else_fail
  end.

(** [void this.redistribute(..)] from a handler: an endless recursion would hang the process. *)
Definition move_fuel : nat := 100.
Definition try_move (id reason : string) : Sync unit := redistribute move_fuel id reason None ;; mret tt.

(** A failed plan is tried again when a node joins, at the pace of the moves. *)
Definition retry_failed_plan (nodeId : string) (d : Deployment) : Sync unit :=
  m ← mget;
  let id := dep_id d in
  if negb (bool_decide (dep_state d = failed)) || negb (String.prefix "no plan" (default "" (dep_error d))) then mret tt else
  if negb (di_running (intent m id)) then mret tt else
  if pinsNodes (dep_spec d) || busy m id then mret tt else
  if now m <? default 0 (lastMove m !! id) + moveIntervalMs deps then mret tt else
  moved_now id ;;
  ev id (hostname m nodeId +:+ " joined; retrying " +:+ ds_name (dep_spec d) +:+
         ", whose plan failed while the fleet was away") ;;
  mtry (start id true false true false Nothing) (fun _ => mret tt).

Definition reconsider (nodeId : string) (d : Deployment) : Sync unit :=
  m ← mget;
  let id := dep_id d in
  if negb (bool_decide (dep_state d = ready)) || negb (di_running (intent m id)) then mret tt else
  if pinsNodes (dep_spec d) || present (reconnecting m !! id) || busy m id then mret tt else
  if now m <? default 0 (lastMove m !! id) + moveIntervalMs deps then mret tt else
  if now m - dep_updatedAt d <? default 60000 (dp_moveSettleMs deps) then mret tt else
  if default false (ds_autoModel (dep_spec d)) then try_move id (hostname m nodeId +:+ " joined") else
  candidate ← mtry (x ← plan (dep_spec d) (usedPorts m) (Some id) []; mret (Some x)) (fun _ => mret None);
  match candidate with
  | None => mret tt
  | Some c =>
      m ← mget;
      match placementGain m (dep_plan d) c with
      | None => mret tt
      | Some gain =>
          ev id (hostname m nodeId +:+ " joined; " +:+ ds_name (dep_spec d) +:+ " fits better there (" +:+ gain +:+ ")") ;;
          try_move id ("better placement available (" +:+ gain +:+ ")")
      end
  end.

(** An exclusion the joining node is lifted from keeps its other nodes. *)
Definition readmit (nodeId : string) (e : string * Excluded) : Sync unit :=
  if bool_decide (nodeId ∈ xc_nodes e.2) then
    mmodify (fun m => set_moveExcluded (al_set (moveExcluded m) e.1
      {| xc_nodes := List.filter (fun n => negb (String.eqb n nodeId)) (xc_nodes e.2); xc_at := xc_at e.2 |}) m) ;;
    m ← mget;
    ev e.1 (hostname m nodeId +:+ " is back; its exclusion from a failed re-placement is cleared")
  else mret tt.

Definition onNodeOnline (nodeId : string) : Sync unit :=
  m ← mget;
  if closed m then mret tt else
  mfor (moveExcluded m) (readmit nodeId) ;;
  m ← mget;
  mfor (listDeployments (reg m)) (retry_failed_plan nodeId) ;;
  m ← mget;
  mfor (listDeployments (reg m)) (reconsider nodeId).

(** ** The sweeper *)

(** A reconnect whose grace ran out, or whose cleanup did not finish in its time. *)
Definition expired (m : Mgr) (id : string) (r : Reconnect) : bool :=
  let cleanupPending := existsb (fun a => negb (is_stopped a)) (rows m id) ||
                        existsb (fun n => negb (reachable m n)) (rc_nodes r) in
  match rc_cleanupDeadline r with
  | None => rc_deadline r <=? now m
  | Some c => cleanupPending && (c <=? now m)
  end.

(** The nodes a recovery waits for; [None] when no plan says which. *)
Definition required_nodes (d : Deployment) : Sync (option (list string)) :=
  match ds_external (dep_spec d), dep_plan d with
  | Some x, _ => mret (Some [xs_nodeId x])
  | None, Some p =>
      match planNodes p with
      | [] => m ← mget; mtry (x ← plan (dep_spec d) (usedPorts m) (Some (dep_id d)) []; mret (Some (planNodes x))) (fun _ => mret None)
      | l => mret (Some l)
      end
  | None, None =>
      let named := match ds_coordinatorNodeId (dep_spec d) with Some n => Some n | None => ds_replicaNodeId (dep_spec d) end in
      match List.filter (fun n => negb (String.eqb n "")) (option_list named ++ default [] (ds_workerNodeIds (dep_spec d))) with
      | [] => m ← mget; mtry (x ← plan (dep_spec d) (usedPorts m) (Some (dep_id d)) []; mret (Some (planNodes x))) (fun _ => mret None)
      | l => mret (Some l)
      end
  end.

(** The last part of the tick: another automatic start, within the budget of attempts. *)
Definition attempt_recovery (d : Deployment) (i : Intent) (reconnect : bool) : Sync unit :=
  m ← mget;
  let id := dep_id d in
  if negb (di_running i) || (negb (bool_decide (dep_state d = failed)) && negb reconnect) || busy m id ||
     (MAX_RECOVERY_ATTEMPTS <=? di_attempts i) || (now m <? di_retryAt i) then mret tt else
  required ← required_nodes d;
  match required with
  | None => mret tt
  | Some required =>
      m ← mget;
      let offline := List.filter (fun n => negb (reachable m n)) required in
      go ← (if negb (bool_decide (offline = [])) && negb reconnect then
        if present (ds_external (dep_spec d)) || pinsNodes (dep_spec d) then mret false else
        let seen := match al_get (moveExcluded m) id with Some x => xc_nodes x | None => [] end in
        mmodify (fun m => set_moveExcluded (al_set (moveExcluded m) id
          {| xc_nodes := seen ++ List.filter (fun n => negb (bool_decide (n ∈ seen))) offline; xc_at := now m |}) m) ;;
        ev id (ds_name (dep_spec d) +:+ ": recovery re-plans without " +:+ String.concat ", " (hostname m <$> offline)) ;;
        again ← mtry (m ← mget; x ← plan (dep_spec d) (usedPorts m) (Some id) []; mret (Some (planNodes x)))
                     (fun _ => mret None);
        match again with
        | None => mret false
        | Some required =>
            m ← mget;
            if negb (forallb (reachable m) required) then mret false else
            setIntent id None (Some (di_attempts i)) (Some (now m + 5000)) ;; mret true
        end
      else mret true);
      if (go : bool) then
        setIntent id None (Some (di_attempts i + 1)) None ;;
        ev id ("automatic recovery attempt " +:+ pretty (di_attempts i + 1) +:+ "/" +:+ pretty MAX_RECOVERY_ATTEMPTS) ;;
        mtry (start id true false true false Nothing) (fun _ => mret tt)
      else mret tt
  end.

(** A deployment that served for a minute is given its exclusions and attempts back. *)
Definition reconcile_tail (d : Deployment) (i : Intent) (reconnect : bool) : Sync unit :=
  m ← mget;
  let id := dep_id d in
  mwhen (bool_decide (dep_state d = ready) && (match al_get (moveExcluded m) id with Some x => xc_at x | None => 0 end <? now m - 60000))
    (mmodify (fun m => set_moveExcluded (al_delete (moveExcluded m) id) m)) ;;
  mwhen (bool_decide (dep_state d = ready) && negb (di_attempts i =? 0) && (60000 <? now m - dep_updatedAt d))
    (setIntent id None (Some 0) None) ;;
  attempt_recovery d i reconnect.

(** One deployment of the tick.  After a wedged load was moved or not, nothing else applies to it: it is
    neither ready nor failed and has no reconnect. *)
Definition reconcile_one (d : Deployment) : Sync unit :=
  let id := dep_id d in
  finishDraining id ;;
  m ← mget;
  let i := intent m id in
  observeReconnect id ;;
  m ← mget;
  let reconnect := reconnecting m !! id in
  match reconnect with
  | Some r =>
      if expired m id r || (MAX_RECOVERY_ATTEMPTS <=? di_attempts i) then
        if busy m id then mret tt else
        let text := rc_reason r +:+ "; " +:+ (if present (rc_cleanupDeadline r) then "reconnect cleanup deadline" else "reconnect grace") +:+
                    " expired or recovery budget exhausted" in
        moved ← redistribute move_fuel id (rc_reason r) (Some text);
        match moved with Returned false => recordFailure id text | _ => mret tt end
      else reconcile_tail d i true
  | None =>
      let wedged := if di_running i && negb (busy m id) then wedgedLoadReason m d else None in
      match wedged with
      | Some why => moved_now id ;; try_move id why
      | None => reconcile_tail d i false
      end
  end.

Definition reconcile : Sync unit :=
  m ← mget;
  if closed m then mret tt else
  updating ← updatingNode;
  if present updating || fleetToken m then mret tt else
  m ← mget;
  mfor (listDeployments (reg m)) reconcile_one.

(** ** Restart of the control plane *)

Definition restore_one (seen : list string) (d : Deployment) : Sync (list string) :=
  m ← mget;
  let id := dep_id d in
  if negb (di_running (intent m id)) then
    (if bool_decide (dep_state d ∈ [ready; placing; loading; draining])
     then updateDep id (pt (Some draining) None (Some None) None)
     else if present (dep_endpoint d) then updateDep id (pt None None (Some None) None) else mret tt) ;;
    mret seen
  else if bool_decide (ds_kind (dep_spec d) = external) then
    x ← the_external (dep_spec d);
    origin ← externalOrigin (xs_url x);
    let key := xs_nodeId x +:+ ":" +:+ origin in
    if bool_decide (key ∈ seen) then
      setIntent id (Some false) None None ;;
      updateDep id (pt (Some stopped) None (Some None) (Some (Some "duplicate external endpoint; health watch retired"))) ;;
      ev id "duplicate external endpoint retired (external server remains running)" ;;
      mret seen
    else
      let hasWatch := existsb (fun a => negb (ar_retired a) && watches a) (rows m id) in
      updateDep id (pt (Some (if hasWatch then loading else failed)) None (Some None) None) ;;
      mwhen (negb hasWatch) (scheduleRecovery id) ;;
      mret (key :: seen)
  else
    mwhen (negb (bool_decide (dep_state d = failed)))
      (updateDep id (pt (Some failed) None (Some None) (Some (Some "control restarted; awaiting node reconciliation"))) ;;
       scheduleRecovery id) ;;
    mret seen.

Fixpoint restore_all (seen : list string) (l : list Deployment) : Sync unit :=
  match l with
  | [] => mret tt
  | d :: l => seen ← restore_one seen d; restore_all seen l
  end.

(** A process that ended while it applied an allocation left it so. *)
Definition interrupted (t : Z) (x : FleetRun) : FleetRun :=
  {| fr_id := fr_id x; fr_request := fr_request x; fr_createdAt := fr_createdAt x; fr_updatedAt := t;
     fr_status := s_interrupted;
     fr_error := Some "Control restarted during allocation. Review current placements and preview again before retrying.";
     fr_preview := fr_preview x; fr_entries := fr_entries x |}.
Definition restore_run (x : FleetRun) : Sync unit :=
  mwhen (bool_decide (fr_status x = s_applying)) (regw (fun t => saveFleetRun (interrupted t x))).

(** Oldest first. *)
Definition restore_le (a b : Deployment) : bool :=
  (dep_createdAt a <? dep_createdAt b) ||
  ((dep_createdAt a =? dep_createdAt b) && by_key localeCompare dep_id a b).
Definition restore : Sync unit :=
  m ← mget;
  mfor (fleetRuns (reg m)) restore_run ;;
  m ← mget;
  restore_all [] (js_sort restore_le (listDeployments (reg m))).

(** ** The API *)

Definition valid_name_char (a : Ascii.ascii) : bool :=
  in_range 97 122 a || in_range 65 90 a || in_range 48 57 a || existsb (Nat.eqb (Ascii.nat_of_ascii a)) [46; 95; 45]%nat.
(** [/^[a-zA-Z0-9._-]{1,64}$/] *)
Definition valid_name (s : string) : bool :=
  (1 <=? String.length s)%nat && (String.length s <=? 64)%nat && all_chars valid_name_char s.

(** [reg.createDeployment], which throws on a taken id *)
Definition create_row (id : string) (spec : DeploymentSpec) : Sync unit :=
  fun m => let '(r, g) := createDeployment (now m) id spec (reg m) in (r, set_reg g m).

(** The topology [create] folds into a spec that asks for one, with its note. *)
Definition autodiscover (spec : DeploymentSpec) (profile : ModelProfile) : Sync (DeploymentSpec * string) :=
  input ← fleetInput;
  m ← mget;
  match chooseTopology re_test localeCompare plan_hash
          {| ti_spec := spec; ti_profile := profile; ti_nodes := fin_nodes input; ti_usedPorts := usedPorts m;
             ti_qualifications := QWEN35_NATIVE_QUALIFICATIONS; ti_reference := REFERENCE_REQUEST |} with
  | Err e => mthrow (show_topology e)
  | Ok choice =>
      let c := tp_best choice in
      regw (fun t => event t "deployment" ("topology autodiscovery for " +:+ ds_name spec +:+ ": " +:+ kind_name (tc_kind c) +:+
        " [" +:+ String.concat " > " (tc_nodes c) +:+ "]") None None) ;;
      mret (merge_choice spec (tp_spec choice),
            kind_name (tc_kind c) +:+ " by measurement (" +:+ (if tc_local c then "LAN" else "relayed") +:+ ")")
  end.

Definition create (spec : DeploymentSpec) : Sync string :=
  if negb (valid_name (ds_name spec)) then mthrow "name must be 1-64 chars of [a-zA-Z0-9._-]" else
  '(spec, note) ← (
    if bool_decide (ds_kind spec = external) then
      assertExternalOptions spec ;;
      match ds_external spec with
      | Some x =>
          if String.eqb (xs_nodeId x) "" || String.eqb (xs_url x) "" || String.eqb (xs_modelName x) ""
          then mthrow "external needs external.nodeId, url, modelName"
          else assertUniqueExternal spec None ;; mret (spec, None)
      | None => mthrow "external needs external.nodeId, url, modelName"
      end
    else if String.eqb (ds_profile spec) "auto" || default false (ds_autoModel spec) then
      choice ← chooseAuto spec None [];
      match choice with
      | inl tried => mthrow ("no model can be placed on the nodes online right now. The best candidate failed with: " +:+
                             default "no profile is ranked and placeable" (head tried))
      | inr (spec, why) => mret (spec, Some why)
      end
    else if negb (present (profile_of (ds_profile spec))) then mthrow ("unknown profile " +:+ ds_profile spec)
    else mret (spec, None));
  '(spec, note) ← (
    if default false (ds_autoTopology spec) then
      match profile_of (ds_profile spec) with
      | None => mthrow ("unknown profile " +:+ ds_profile spec)
      | Some profile => '(spec, why) ← autodiscover spec profile; mret (spec, Some why)
      end
    else mret (spec, note));
  id ← new_id "dep";
  create_row id spec ;;
  ev id ("created " +:+ ds_name spec +:+ " (" +:+ kind_text (ds_kind spec) +:+
         match note with Some n => ", " +:+ n | None => "" end +:+ ")") ;;
  mret id.

(** [stop] up to its [enqueue]. *)
Definition stop (id : string) (holder : bool) (after : After) : Sync unit :=
  assertFleetAccess holder ;;
  must id ;;
  mmodify (fun m => set_reconnecting (base.delete id (reconnecting m)) m) ;;
  mmodify (fun m => set_blocked (base.delete id (blocked m)) m) ;;
  setIntent id (Some false) (Some 0) (Some 0) ;;
  cancel id ;;
  updateDep id (pt (Some draining) None (Some None) None) ;;
  enqueue id {| jb_work := WStop; jb_after := after |}.

Definition remove (id : string) : Sync unit :=
  dep ← must id;
  if negb (bool_decide (dep_state dep ∈ [planned; stopped; failed])) then mthrow "stop the deployment first"
  else stop id false Then_delete.

Definition dispose : Sync unit :=
  mmodify (set_closed true) ;;
  m ← mget;
  mfor (listDeployments (reg m)) (fun d => cancel (dep_id d)).

Definition trackInflight (id : string) (delta : Z) : Sync unit :=
  mmodify (fun m => set_inflight (<[id := Z.max 0 (load m id + delta)]> (inflight m)) m).

Definition nativeExecution (m : Mgr) (id : string) : option (NativeExecutionPlacement * nat) :=
  match getDeployment (reg m) id, nativeLifetimes m !! id with
  | Some d, Some lifetime =>
      if bool_decide (dep_state d = ready) then (fun np => (np, lifetime)) <$> (dep_plan d ≫= pl_nativeExecution) else None
  | _, _ => None
  end.

Definition nativeExecutionFailed (id reason : string) (expected : option nat) : Sync unit :=
  m ← mget;
  match expected with
  | Some l => if bool_decide (nativeLifetimes m !! id = Some l) then fail id reason else mret tt
  | None => fail id reason
  end.

(** ** Routing *)

Record Route := {
  ro_id : string; ro_name : string; ro_kind : DeploymentKind; ro_nodeId : string; ro_port : Z;
  ro_nodes : list string; ro_inflight : Z; ro_tokPerSec : num; ro_rttMs : option num; ro_upstreamModel : option string }.

Definition recordTokens (id : string) (n : Z) : Sync unit :=
  if n <=? 0 then mret tt else
  mmodify (fun m =>
    let sec := now m / 1000 in
    let b := default ∅ (tokenBuckets m !! id) in
    let b := <[sec := default 0 (b !! sec) + n]> b in
    set_tokenBuckets (<[id := base.filter (fun kv : Z * Z => sec - 30 <= kv.1) b]> (tokenBuckets m)) m).

(** [Math.round((total / windowSec) * 10) / 10] *)
Definition liveTokPerSec (m : Mgr) (id : string) (windowSec : Z) : num :=
  match tokenBuckets m !! id with
  | None => num_zero
  | Some b =>
      let t := now m / 1000 in
      let total := map_fold (fun k v acc => if (t - windowSec <? k) && (k <=? t) then acc + v else acc) 0 b in
      num_div (js_round (num_mul (num_div (num_of_Z total) (num_of_Z windowSec)) (num_of_Z 10))) (num_of_Z 10)
  end.

(** The route of a deployment that is in service, with its model name. *)
Definition route_of (m : Mgr) (updating : option string) (d : Deployment) : option (string * Route) :=
  match dep_state d, dep_endpoint d with
  | ready, Some (nodeId, port, modelName) =>
      let nodes := match dep_plan d with Some p => planNodes p | None => [nodeId] end in
      if bool_decide (default "" updating ∈ nodes) then None else
      Some (modelName,
        {| ro_id := dep_id d; ro_name := ds_name (dep_spec d); ro_kind := ds_kind (dep_spec d); ro_nodeId := nodeId;
           ro_port := port; ro_nodes := nodes; ro_inflight := load m (dep_id d);
           ro_tokPerSec := liveTokPerSec m (dep_id d) 5;
           ro_rttMs := (getNode (reg m) nodeId ≫= nr_caps) ≫= (fun c => nm_rttMs <$> cap_net c);
           ro_upstreamModel := ds_external (dep_spec d) ≫= fun x =>
             if truthy_str (xs_upstreamModel x) then xs_upstreamModel x else None |})
  | _, _ => None
  end.

(** Deployments in service by model name, in the order of their first deployment. *)
Definition routing : Sync (list (string * list Route)) :=
  updating ← updatingNode;
  m ← mget;
  mret (foldl (fun g x => push_group x.1 x.2 g) [] (omap (route_of m updating) (listDeployments (reg m)))).
End deployments.
