(* ===== verification/Allocation.v ===== *)
(** * Fleet allocations and layer distributions (swarmlet/control/deployments.ts, the second half of the API)

    A preview plans several deployments at once and saves a run; applying it withdraws their routes, stops them, writes
    their specs and starts them, with at most four starts pending.  [performAllocation] awaits the jobs of other deployments: its
    state between awaits is [allocation], and the jobs it waits for carry [Then_stopped] and [Then_started] as what
    their caller does next.  Likewise [applyDistribution] continues in [Then_distribute] and [Then_distributed].

    The symbol [fleetToken] is a flag here, and only the calls of [performAllocation] hold it: it is set and cleared
    with the one allocation that runs.  A rejected call does not yield here before its worker goes on; in the code
    it does, which changes which of the four workers takes the next entry and nothing else.  The registry's
    transactions do not fail. *)

From S2P Require Import Prelude Async JsNum Json Types Validate PhasePlan Planner Resources Fleet Topology Registry Manager Deployments.

Local Open Scope string_scope.
Local Open Scope list_scope.
Local Open Scope Z_scope.

(** ** Runs *)

Definition request_text (e : FleetRequestError) : string :=
  match e with
  | FQ_shape => "A fleet request needs items and poolNodeIds."
  | FQ_sizes => "Choose 1-500 deployments and 1-2000 distinct pool nodes."
  | FQ_selection => "Invalid or duplicate deployment selection."
  | FQ_cpu => "CPU budget must be a positive integer."
  | FQ_settings => "Manual placement needs replica or split settings."
  | FQ_replica => "Replica placement needs only a replica node."
  | FQ_split => "Split placement needs a coordinator and distinct workers."
  | FQ_layers => "Layer counts must match the worker list."
  | FQ_override => "Placement overrides require manual mode."
  end.

Definition new_run (id : string) (t : Z) (request : FleetRequest) (v : FleetPreview) : FleetRun :=
  {| fr_id := id; fr_request := request; fr_createdAt := t; fr_updatedAt := t; fr_status := s_preview; fr_error := None;
     fr_preview := v;
     fr_entries := (fun e => {| re_entry := e; re_phase := None; re_error := None |}) <$> fv_entries v |}.

Definition run_id_of (e : RunEntry) : string := fe_deploymentId (re_entry e).

Definition with_status (t : Z) (s : RunStatus) (err : option string) (x : FleetRun) : FleetRun :=
  {| fr_id := fr_id x; fr_request := fr_request x; fr_createdAt := fr_createdAt x; fr_updatedAt := t; fr_status := s;
     fr_error := err; fr_preview := fr_preview x; fr_entries := fr_entries x |}.
Definition with_entries (f : list RunEntry -> list RunEntry) (x : FleetRun) : FleetRun :=
  {| fr_id := fr_id x; fr_request := fr_request x; fr_createdAt := fr_createdAt x; fr_updatedAt := fr_updatedAt x;
     fr_status := fr_status x; fr_error := fr_error x; fr_preview := fr_preview x; fr_entries := f (fr_entries x) |}.
Definition in_phase (p : Phase) (e : RunEntry) : RunEntry :=
  {| re_entry := re_entry e; re_phase := Some p; re_error := re_error e |}.
Definition entry_failed (why : string) (e : RunEntry) : RunEntry :=
  {| re_entry := re_entry e; re_phase := Some q_failed; re_error := Some why |}.
Definition settled_entry (e : RunEntry) : bool := bool_decide (re_phase e = Some q_ready \/ re_phase e = Some q_failed).

Section allocation.
Context `{Host} (deps : Deps).

Definition revision_of (input : FleetInput) : string := fleetRevision localeCompare sha256_json input.

(** ** Previews *)

Definition preview_result (request : FleetRequest) (input : FleetInput) : result FleetFailure FleetPreview :=
  previewFleet re_test localeCompare Date_parse Math_pow show_failure sha256_json QWEN35_NATIVE_QUALIFICATIONS request input.

(** The rest of [previewAllocation] once the plan is there. *)
Definition preview_done (request : FleetRequest) (r : result FleetFailure FleetPreview) : Sync unit :=
  mfinally (
    match r with
    | Err e => mthrow (show_failure e)
    | Ok v =>
        input ← fleetInput deps;
        m ← mget;
        if closed m || negb (String.eqb (fv_revision v) (revision_of input))
        then mthrow "Fleet changed during planning. Preview again." else
        id ← new_id "fleet";
        regw (fun t => saveFleetRun (new_run id t request v))
    end)
    (mmodify (set_fleetPlanning false)).

(** A large search goes to a worker. *)
Definition large (request : FleetRequest) (input : FleetInput) : bool :=
  (64 <? length (fin_nodes input))%nat || (20 <? length (fq_items request))%nat.

Definition previewAllocation (value : json) : Sync unit :=
  m ← mget;
  if closed m || fleetToken m || fleetPlanning m then mthrow "An allocation operation is already in progress." else
  match parseFleetRequest value with
  | Err e => mthrow (request_text e)
  | Ok request =>
      input ← fleetInput deps;
      mmodify (set_fleetPlanning true) ;;
      if large request input then mmodify (set_fleetWorker (Some (request, input)))
      else preview_done request (preview_result request input)
  end.

Definition at_time (t : num) (input : FleetInput) : FleetInput :=
  {| fin_nodes := fin_nodes input; fin_deployments := fin_deployments input; fin_assignments := fin_assignments input;
     fin_profiles := fin_profiles input; fin_now := t |}.

(** The worker answers, by its own clock; or its 20 seconds are over. *)
Definition worker_planned (t : num) : Sync unit :=
  m ← mget;
  match fleetWorker m with
  | None => mret tt
  | Some (request, input) =>
      mmodify (set_fleetWorker None) ;; preview_done request (preview_result request (at_time t input))
  end.
Definition worker_timeout : Sync unit :=
  m ← mget;
  match fleetWorker m with
  | None => mret tt
  | Some _ =>
      mmodify (set_fleetWorker None) ;;
      mfinally (mthrow "Planning exceeded 20 seconds. Select a smaller deployment batch.") (mmodify (set_fleetPlanning false))
  end.

(** ** Applying a run *)

(** One entry planned again, on top of what the others hold. *)
Definition validate_entry (input : FleetInput) (reserved : ResourceLedger) (e : RunEntry) : result string ResourceLedger :=
  match fe_winner (re_entry e), fe_error (re_entry e), re_error e with
  | Some w, None, None =>
      match get_profile input (ds_profile (fw_spec w)) with
      | None => Err "Model profile changed; preview again."
      | Some profile =>
          match planWithResources re_test localeCompare (fw_spec w) profile (fin_nodes input) reserved ∅
                  QWEN35_NATIVE_QUALIFICATIONS with
          | Err e => Err (show_error e)
          | Ok plan =>
              match pl_allocations plan with
              | Some l => Ok (addAllocations reserved l)
              | None => Err "undefined is not iterable"
              end
          end
      end
  | _, _, _ => Err "Every selected deployment needs a valid plan."
  end.
Fixpoint validate_entries (input : FleetInput) (reserved : ResourceLedger) (l : list RunEntry) : result string ResourceLedger :=
  match l with
  | [] => Ok reserved
  | e :: l => reserved ← validate_entry input reserved e; validate_entries input reserved l
  end.

Definition validateFleetPlans (run : FleetRun) : Sync unit :=
  input ← fleetInput deps;
  let selected := list_to_set (run_id_of <$> fr_entries run) in
  let reserved := reservedResources (fin_deployments input) (fin_assignments input) (fin_nodes input) selected in
  match validate_entries input reserved (fr_entries run) with
  | Err e => mthrow e
  | Ok _ =>
      match hostMemoryErrors Date_parse input ((fun e => fe_plan (re_entry e)) <$> fr_entries run) selected with
      | Err e => mthrow (show_failure e)
      | Ok [] => mret tt
      | Ok errors => mthrow (String.concat " " (show_memory <$> errors))
      end
  end.

Definition alloc_modify (f : Allocation -> Allocation) : Sync unit :=
  mmodify (fun m => set_allocation (f <$> allocation m) m).
Definition with_run (f : FleetRun -> FleetRun) (a : Allocation) : Allocation :=
  {| al_run := f (al_run a); al_stops := al_stops a; al_next := al_next a; al_active := al_active a |}.

(** [save]: nothing once the process shuts down. *)
Definition save_run : Sync unit :=
  m ← mget;
  match allocation m with
  | Some a =>
      if closed m then mret tt else
      let run := with_status (now m) (fr_status (al_run a)) (fr_error (al_run a)) (al_run a) in
      alloc_modify (with_run (fun _ => run)) ;; regw (fun _ => saveFleetRun run)
  | None => mret tt
  end.

(** [finally]: save, and give the token back. *)
Definition alloc_end : Sync unit :=
  save_run ;;
  mmodify (fun m => set_fleetToken false (set_allocation None m)).

Definition alloc_fail (why : string) : Sync unit :=
  m ← mget;
  mwhen (negb (closed m))
    (alloc_modify (with_run (fun x =>
      with_entries (fmap (fun e => if settled_entry e then e else entry_failed ("Error: " +:+ why) e))
        (with_status (fr_updatedAt x) s_partial (Some ("Error: " +:+ why)) x)))) ;;
  alloc_end.

Definition alloc_done : Sync unit :=
  m ← mget;
  mwhen (negb (closed m))
    (alloc_modify (with_run (fun x =>
      with_status (fr_updatedAt x) (if forallb (fun e => bool_decide (re_phase e = Some q_ready)) (fr_entries x)
                                    then s_succeeded else s_partial) (fr_error x) x))) ;;
  alloc_end.

Definition set_entry (i : nat) (f : RunEntry -> RunEntry) : Sync unit :=
  alloc_modify (with_run (with_entries (alter f i))).

(** A worker takes entries until one of them starts a job to wait for: whether it waits. *)
Fixpoint take_entries (fuel : nat) : Sync bool :=
  match fuel with
  | O => mret false
  | S fuel =>
      m ← mget;
      match allocation m with
      | None => mret false
      | Some a =>
          match fr_entries (al_run a) !! al_next a with
          | None => mret false
          | Some e =>
              if closed m then mret false else
              let i := al_next a in
              alloc_modify (fun a => {| al_run := al_run a; al_stops := al_stops a; al_next := S i; al_active := al_active a |}) ;;
              set_entry i (in_phase q_starting) ;; save_run ;;
              failed ← mtry (start (run_id_of e) false true true false (Then_started i) ;; mret None) (fun e => mret (Some e));
              match failed with
              | None => mret true
              | Some why => set_entry i (entry_failed ("Error: " +:+ why)) ;; save_run ;; take_entries fuel
              end
          end
      end
  end.

(** A worker goes on, and the last one to return ends the allocation. *)
Definition worker_turn : Sync unit :=
  m ← mget;
  match allocation m with
  | None => mret tt
  | Some a =>
      waits ← take_entries (length (fr_entries (al_run a)));
      mwhen (negb waits)
        (alloc_modify (fun a => {| al_run := al_run a; al_stops := al_stops a; al_next := al_next a; al_active := pred (al_active a) |}))
  end.
Definition workers_end : Sync unit :=
  m ← mget;
  match allocation m with
  | Some a => if (al_active a =? 0)%nat then alloc_done else mret tt
  | None => mret tt
  end.

Definition entry_specs (l : list RunEntry) : list (string * DeploymentSpec) :=
  omap (fun e => (fun w => (run_id_of e, fw_spec w)) <$> fe_winner (re_entry e)) l.

(** What follows once every stop is acknowledged. *)
Definition start_entries : Sync unit :=
  m ← mget;
  match allocation m with
  | None => mret tt
  | Some a =>
      let run := al_run a in
      let workers := Nat.min 4 (length (fr_entries run)) in
      failed ← mtry (
        validateFleetPlans run ;;
        regw (fun t => applyFleetSpecs t (entry_specs (fr_entries run))) ;;
        mret None) (fun e => mret (Some e));
      match failed with
      | Some why => alloc_fail why
      | None =>
          alloc_modify (fun a => {| al_run := al_run a; al_stops := al_stops a; al_next := 0; al_active := workers |}) ;;
          mfor (repeat tt workers) (fun _ => worker_turn) ;;
          workers_end
      end
  end.

(** [Promise.allSettled] on the stops. *)
Definition stops_settled : Sync unit :=
  m ← mget;
  match allocation m with
  | None => mret tt
  | Some a =>
      if negb (forallb present (al_stops a)) then mret tt else
      match head (omap rejection (al_stops a)) with
      | Some e => alloc_fail ("Cleanup was not acknowledged: Error: " +:+ e +:+ ". Original specifications retained.")
      | None => if closed m then alloc_end else start_entries
      end
  end.

Definition stop_settled (i : nat) (r : result string unit) : Sync unit :=
  alloc_modify (fun a => {| al_run := al_run a; al_stops := <[i := Some r]> (al_stops a); al_next := al_next a;
                            al_active := al_active a |}).

(** [performAllocation] up to its first await. *)
Definition performAllocation (run : FleetRun) : Sync unit :=
  mmodify (set_allocation (Some {| al_run := with_entries (fmap (in_phase q_stopping)) run;
    al_stops := (fun _ => None) <$> fr_entries run; al_next := 0; al_active := 0 |})) ;;
  save_run ;;
  mmap_i 0 (fr_entries run) (fun i e =>
    mtry (stop (run_id_of e) true (Then_stopped i)) (fun why => stop_settled i (Err why))) ;;
  stops_settled.

(** A repeated request returns the run as it is. *)
Definition applyAllocation (id : string) : Sync (option FleetRun) :=
  m ← mget;
  match fleetRun (reg m) id with
  | None => mthrow "Allocation preview not found. Preview again."
  | Some run =>
      if negb (bool_decide (fr_status run = s_preview)) then mret (Some run) else
      if closed m || fleetToken m || fleetPlanning m then mthrow "Another deployment or node operation is in progress. Retry when it finishes." else
      updating ← updatingNode;
      m ← mget;
      if present updating || negb (bool_decide (operations m = ∅)) || negb (bool_decide (distributionApplications m = ∅)) ||
         negb (bool_decide (reconnecting m = ∅))
      then mthrow "Another deployment or node operation is in progress. Retry when it finishes." else
      if negb (fv_canApply (fr_preview run)) || (10 * 60000 <? now m - fr_createdAt run)
      then mthrow "This preview is invalid or expired. Preview again." else
      input ← fleetInput deps;
      if negb (String.eqb (fv_revision (fr_preview run)) (revision_of input))
      then mthrow "Nodes, offers or deployments changed since this preview. Preview again." else
      if existsb (fun e => 0 <? load m (run_id_of e)) (fr_entries run)
      then mthrow "Selected deployments have active requests. Wait for them to finish before applying." else
      validateFleetPlans run ;;
      m ← mget;
      let run := with_entries (fmap (in_phase q_queued)) (with_status (now m) s_applying (fr_error run) run) in
      mmodify (set_fleetToken true) ;;
      regw (fun _ => saveFleetRun run) ;;
      mfor (fr_entries run) (fun e => updateDep (run_id_of e) (pt (Some draining) None (Some None) None)) ;;
      performAllocation run ;;
      mret None
  end.

(** The continuations. *)
Definition then_stopped (i : nat) (r : result string unit) : Sync unit := stop_settled i r ;; stops_settled.

Definition then_started (i : nat) (r : result string unit) : Sync unit :=
  set_entry i (match r with Ok _ => in_phase q_ready | Err why => entry_failed ("Error: " +:+ why) end) ;;
  save_run ;;
  worker_turn ;;
  workers_end.

(** ** Layer distributions *)

(** The checks on the value; a worker id or layer count of another type becomes one the planner refuses in the same check. *)
Definition parse_distribution (value : json) : result string (string * list string * list num) :=
  match as_obj (Some value) with
  | None => Err "A layer distribution is required."
  | Some d =>
      match as_str (jget d "coordinatorNodeId"), as_arr (jget d "workerNodeIds"), as_arr (jget d "workerLayers") with
      | Some c, Some ids, Some layers =>
          if negb (keys_in d ["coordinatorNodeId"; "workerNodeIds"; "workerLayers"]) || String.eqb c ""
          then Err "Distribution needs coordinatorNodeId, workerNodeIds and workerLayers only."
          else Ok (c, (fun v => default "" (as_str (Some v))) <$> ids, (fun v => default num_nan (as_num (Some v))) <$> layers)
      | _, _, _ => Err "Distribution needs coordinatorNodeId, workerNodeIds and workerLayers only."
      end
  end.

Definition saved_distribution (d : option LayerDistribution) : result string (string * list string * list num) :=
  match d with
  | None => Err "A layer distribution is required."
  | Some d =>
      if String.eqb (ld_coordinatorNodeId d) ""
      then Err "Distribution needs coordinatorNodeId, workerNodeIds and workerLayers only."
      else Ok (ld_coordinatorNodeId d, ld_workerNodeIds d, num_of_Z <$> ld_workerLayers d)
  end.

Definition distributed_spec (base : DeploymentSpec) (d : string * list string * list num) : DeploymentSpec :=
  {| ds_name := ds_name base; ds_profile := ds_profile base; ds_autoTopology := ds_autoTopology base;
     ds_autoModel := ds_autoModel base; ds_kind := ds_kind base; ds_coordinatorNodeId := Some d.1.1;
     ds_workerNodeIds := Some d.1.2; ds_workerLayers := Some d.2; ds_replicaNodeId := ds_replicaNodeId base;
     ds_allocations := ds_allocations base; ds_stages := ds_stages base; ds_prefillNodeId := ds_prefillNodeId base;
     ds_decodeNodeId := ds_decodeNodeId base; ds_modelSha256 := ds_modelSha256 base; ds_ctx := ds_ctx base;
     ds_parallel := ds_parallel base; ds_chain := ds_chain base; ds_speculation := ds_speculation base;
     ds_wire := ds_wire base; ds_batchedGets := ds_batchedGets base; ds_forwarding := ds_forwarding base;
     ds_stopExternal := ds_stopExternal base; ds_transport := ds_transport base; ds_external := ds_external base |}.

Definition distributionSpec (id : string) (d : result string (string * list string * list num)) : Sync DeploymentSpec :=
  dep ← must id;
  if present (ds_allocations (dep_spec dep))
  then mthrow "Use Fleet allocation to change a deployment with shared resource budgets." else
  if negb (bool_decide (ds_kind (dep_spec dep) = split)) then mthrow "Layer distribution requires a split deployment." else
  match d with Err e => mthrow e | Ok d => mret (distributed_spec (dep_spec dep) d) end.

Definition saveDistribution (id : string) (value : json) : Sync Plan :=
  assertFleetAccess false ;;
  m ← mget;
  if closed m || bool_decide (id ∈ distributionApplications m)
  then mthrow "Distribution apply is in progress; retry after it finishes." else
  spec ← distributionSpec id (parse_distribution value);
  m ← mget;
  p ← plan deps spec (usedPorts m) (Some id) [];
  regw (fun t => Registry.saveDistribution t id
    {| ld_coordinatorNodeId := default "" (ds_coordinatorNodeId spec); ld_workerNodeIds := default [] (ds_workerNodeIds spec);
       ld_workerLayers := omap as_safe_int (default [] (ds_workerLayers spec)) |}) ;;
  ev id "layer distribution saved; active placement unchanged" ;;
  mret p.

(** [catch] and [finally] of the application *)
Definition distribution_failed (id why : string) : Sync unit :=
  m ← mget;
  mwhen (present (getDeployment (reg m) id))
    (updateDep id (pt None None None (Some (Some ("Apply distribution: Error: " +:+ why)))) ;;
     ev id ("distribution apply failed: Error: " +:+ why)).
Definition distribution_end (id : string) : Sync unit :=
  mmodify (fun m => set_distributionApplications (distributionApplications m ∖ {[id]}) m).
Definition distributing (id : string) (x : Sync unit) : Sync unit :=
  mtry x (fun why => distribution_failed id why ;; distribution_end id).

(** [stop] raises the generation by one before it suspends; the application remembers the value it finds then. *)
Definition applyDistribution (id : string) : Sync unit :=
  assertFleetAccess false ;;
  m ← mget;
  if closed m || bool_decide (id ∈ distributionApplications m) || busy m id
  then mthrow "Deployment operation already in progress." else
  if negb (load m id =? 0) then mthrow "Deployment has active requests; wait for them to finish before applying." else
  dep ← must id;
  spec ← distributionSpec id (saved_distribution (dep_savedDistribution dep));
  m ← mget;
  plan deps spec (usedPorts m) (Some id) [] ;;
  mmodify (fun m => set_distributionApplications ({[id]} ∪ distributionApplications m) m) ;;
  m ← mget;
  distributing id (stop id false (Then_distribute spec (generation m id + 1))).

Definition then_distribute (id : string) (spec : DeploymentSpec) (gen : Z) (r : result string unit) : Sync unit :=
  distributing id (
    match r with
    | Err e => mthrow e
    | Ok _ =>
        m ← mget;
        if closed m then mthrow "Control is shutting down; saved distribution retained." else
        if negb (gen =? generation m id)
        then mthrow "Apply cancelled by another deployment operation; saved distribution retained." else
        plan deps spec (usedPorts m) (Some id) [] ;;
        regw (fun t => applyDistributionSpec t id spec) ;;
        start id false false true false Then_distributed
    end).

Definition then_distributed (id : string) (r : result string unit) : Sync unit :=
  match r with
  | Ok _ => distribution_end id
  | Err why => distribution_failed id why ;; distribution_end id
  end.
End allocation.
