(* ===== verification/ControlLoop.v ===== *)
(** * The control process (swarmlet/control/channel.ts, server.ts, deployments.ts promises)

    [System] is the manager with the jobs its promises run.  [handle] is one turn of the process: a
    message of an agent, a change of a connection, an API call, a sweep, or the continuation of a job
    whose promise settled.  The environment picks the turns in any order; a turn that cannot happen
    changes nothing.  Timers are turns too: a wait may time out whenever the clock is advanced, so the
    length of a timeout has no counterpart. *)

From S2P Require Import Prelude Async JsNum Json Types Validate PhasePlan Planner Resources Fleet Topology Registry Manager Deployments Allocation.

Local Open Scope string_scope.
Local Open Scope list_scope.
Local Open Scope Z_scope.

(** A suspended job: its waiters with what their promises settled to, and the rest of the job. *)
Record Running := {
  rn_job : Job; rn_wait : list (Waiter * option (result string unit));
  rn_k : result string unit -> Mgr -> Step unit * Mgr }.

Record System := { mgr : Mgr; running : gmap string Running }.

(** ** Promises *)

Definition settle (closed : bool) (ns : list Notice) (w : Waiter * option (result string unit))
    : Waiter * option (result string unit) :=
  (w.1, match w.2 with Some r => Some r | None => head (omap (fun n => heard closed n w.1) ns) end).

Definition settle_job (closed : bool) (ns : list Notice) (r : Running) : Running :=
  {| rn_job := rn_job r; rn_wait := settle closed ns <$> rn_wait r; rn_k := rn_k r |}.

(** The end of a synchronous section: the waiters it called settle. *)
Definition after_sync (s : System) (m : Mgr) : System :=
  {| mgr := set_notices [] m; running := settle_job (closed m) (notices m) <$> running s |}.

(** [Promise.all]: the first rejection, or all fulfilled. *)
Definition outcome (l : list (Waiter * option (result string unit))) : option (result string unit) :=
  match head (omap (fun w => rejection w.2) l) with
  | Some e => Some (Err e)
  | None => if forallb (fun w => present w.2) l then Some (Ok tt) else None
  end.

Section loop.
Context `{Host} (deps : Deps).

(** [operations] without the job that settled *)
Definition pop_job (id : string) : Sync unit :=
  mmodify (fun m =>
    match operations m !! id with
    | Some (_ :: j :: l) => set_operations (<[id := j :: l]> (operations m)) m
    | _ => set_operations (base.delete id (operations m)) m
    end).

(** What the caller that awaits a job does next. *)
Definition run_after (id : string) (r : result string unit) (a : After) : Sync unit :=
  match a, r with
  | Then_delete, Ok _ => regw (fun _ => deleteDeployment id)
  | Then_moved reason else_fail, Err e =>
      moved ← move_failed id reason e (redistribute deps move_fuel id reason else_fail);
      match moved, else_fail with
      | Returned false, Some text => recordFailure deps id text
      | _, _ => mret tt
      end
  | Then_stopped i, _ => then_stopped deps i r
  | Then_started i, _ => then_started i r
  | Then_distribute spec gen, _ => then_distribute deps id spec gen r
  | Then_distributed, _ => then_distributed id r
  | _, _ => mret tt
  end.

Definition run_sync {A} (x : Sync A) (s : System) : System := after_sync s (x (mgr s)).2.

(** A job ran up to its next await, or to its end. *)
Definition advance (id : string) (j : Job) (x : Step unit * Mgr) (s : System) : System :=
  match x.1 with
  | Susp ws k =>
      let s := after_sync s x.2 in
      {| mgr := mgr s; running := <[id := {| rn_job := j; rn_wait := (fun w => (w, None)) <$> ws; rn_k := k |}]> (running s) |}
  | Fin r =>
      run_sync (pop_job id ;; run_after id r (jb_after j))
        {| mgr := x.2; running := base.delete id (running s) |}
  end.

(** ** Turns *)

Inductive Turn :=
  (* the channel *)
  | Connect (nodeId : string)
  | Hello (nodeId version : string) (caps : Capabilities) (offer : Offer) (models : list ModelFile)
          (assignments : list (string * AssignmentState * option string))
  | Heartbeat (nodeId : string) (metrics : NodeMetrics) (caps : option (Capabilities -> Capabilities))
  | NewOffer (nodeId : string) (offer : Offer)
  | NewModels (nodeId : string) (models : list ModelFile)
  | Report (nodeId id : string) (state : AssignmentState) (detail : option string)
  | Close (nodeId : string)
  | Unresponsive (nodeId : string)
  | Responsive (nodeId version : string)
  (* the API *)
  | Create (spec : DeploymentSpec)
  | Start (id : string)
  | Stop (id : string)
  | Remove (id : string)
  | Acquire (nodeId : string)
  | Release (nodeId token : string)
  | Inflight (id : string) (delta : Z)
  | Tokens (id : string) (n : Z)
  | NativeFailed (id reason : string) (lifetime : option nat)
  | Preview (value : json)
  | Apply (runId : string)
  | Distribute (id : string) (value : json)
  | ApplyDistribution (id : string)
  (* the process *)
  | Planned (t : num)
  | PlanTimeout
  | Sweep
  | Dispose
  | Tick (ms : Z)
  | Begin (id : string)
  | Resume (id : string)
  | Timeout (id : string) (i : nat).

(** [message]: a report about another node's row is dropped. *)
Definition own_reports (nodeId : string) (l : list (string * AssignmentState * option string))
    : Sync (list (string * AssignmentState)) :=
  kept ← mmap_i 0 l (fun _ a =>
    m ← mget;
    let '(id, state, detail) := a in
    match getAssignment (reg m) id with
    | Some r =>
        if negb (String.eqb (ar_nodeId r) nodeId) then mret []
        else regw (fun t => setAssignmentState t id state detail) ;; mret [(id, state)]
    | None => mret [(id, state)]
    end);
  mret (concat kept).

Definition channel_event (kind message nodeId : string) : Sync unit :=
  regw (fun t => event t kind message (Some nodeId) None).

Definition hello (nodeId version : string) (caps : Capabilities) (offer : Offer) (models : list ModelFile)
    (assignments : list (string * AssignmentState * option string)) : Sync unit :=
  regw (fun t => setOnline t nodeId true (Some version)) ;;
  regw (fun t => setCaps t nodeId caps) ;;
  regw (fun _ => setOffer nodeId offer) ;;
  regw (fun _ => setModels nodeId models) ;;
  mine ← own_reports nodeId assignments;
  channel_event "online" (cap_hostname caps +:+ " online (agent " +:+ version +:+ ")") nodeId ;;
  onHello deps nodeId mine ;;
  onNodeOnline deps nodeId.

Definition state_name (s : AssignmentState) : string :=
  match s with starting => "starting" | listening => "listening" | a_loading => "loading" | a_ready => "ready"
  | a_stopped => "stopped" | a_failed => "failed" end.

Definition report (nodeId id : string) (state : AssignmentState) (detail : option string) : Sync unit :=
  m ← mget;
  match getAssignment (reg m) id with
  | None => mret tt
  | Some r =>
      if negb (String.eqb (ar_nodeId r) nodeId) then mret tt else
      regw (fun t => setAssignmentState t id state detail) ;;
      regw (fun t => event t "assignment" (id +:+ " " +:+ state_name state +:+
        match detail with Some d => if String.eqb d "" then "" else ": " +:+ d | None => "" end)
        (Some nodeId) (Some (ar_deploymentId r))) ;;
      onAssignmentState deps nodeId id state detail
  end.

(** [close] of the connection a node has now; nothing more when the process shuts down. *)
Definition close (nodeId : string) : Sync unit :=
  m ← mget;
  if negb (bool_decide (nodeId ∈ conns m)) then mret tt else
  mmodify (fun m => set_conns (conns m ∖ {[nodeId]}) (set_quiet (quiet m ∖ {[nodeId]}) m)) ;;
  regw (fun t => setOnline t nodeId false None) ;;
  if closed m then mret tt else
  channel_event "offline" "disconnected" nodeId ;;
  onOffline deps nodeId.

(** [sweep] on a silent and on an answering connection *)
Definition unresponsive (nodeId : string) : Sync unit :=
  m ← mget;
  if negb (online m nodeId) then mret tt else
  mmodify (fun m => set_quiet ({[nodeId]} ∪ quiet m) m) ;;
  regw (fun t => setOnline t nodeId false None) ;;
  channel_event "offline" "unresponsive (route withdrawn, socket kept)" nodeId ;;
  onOffline deps nodeId.
Definition responsive (nodeId version : string) : Sync unit :=
  m ← mget;
  if negb (bool_decide (nodeId ∈ conns m) && bool_decide (nodeId ∈ quiet m)) then mret tt else
  mmodify (fun m => set_quiet (quiet m ∖ {[nodeId]}) m) ;;
  regw (fun t => setOnline t nodeId true (if String.eqb version "" then None else Some version)) ;;
  channel_event "online" "responsive again (route restored)" nodeId ;;
  onNodeOnline deps nodeId.

(** [authenticate] with a valid signature: the connection replaces an earlier one. *)
Definition connect (nodeId : string) : Sync unit :=
  m ← mget;
  if present (getNode (reg m) nodeId)
  then mmodify (fun m => set_conns ({[nodeId]} ∪ conns m) (set_quiet (quiet m ∖ {[nodeId]}) m)) else mret tt.

Definition sync_turn (t : Turn) : Sync unit :=
  match t with
  | Connect n => connect n
  | Hello n v caps offer models l => hello n v caps offer models l
  | Heartbeat n metrics caps => regw (fun t => setMetrics t n metrics caps)
  | NewOffer n offer => regw (fun _ => setOffer n offer) ;; channel_event "offer" "offer updated" n
  | NewModels n models => regw (fun _ => setModels n models)
  | Report n id state detail => report n id state detail
  | Close n => close n
  | Unresponsive n => unresponsive n
  | Responsive n v => responsive n v
  | Create spec => create deps spec ;; mret tt
  | Start id => start id false false true false Nothing
  | Stop id => stop id false Nothing
  | Remove id => remove id
  | Acquire n => acquireUpdate n ;; mret tt
  | Release n token => releaseUpdate n token ;; mret tt
  | Inflight id delta => trackInflight id delta
  | Tokens id n => recordTokens id n
  | NativeFailed id reason lifetime => nativeExecutionFailed deps id reason lifetime
  | Preview value => previewAllocation deps value
  | Apply runId => applyAllocation deps runId ;; mret tt
  | Distribute id value => saveDistribution deps id value ;; mret tt
  | ApplyDistribution id => applyDistribution deps id
  | Planned t => worker_planned deps t
  | PlanTimeout => worker_timeout
  | Sweep => reconcile deps
  | Dispose => dispose
  | Tick ms => mmodify (fun m => set_now (now m + Z.max 0 ms) m)
  | Begin _ | Resume _ | Timeout _ _ => mret tt
  end.

Definition handle (s : System) (t : Turn) : System :=
  match t with
  | Begin id =>
      match running s !! id, operations (mgr s) !! id with
      | None, Some (j :: _) => advance id j (run_work deps id (jb_work j) (mgr s)) s
      | _, _ => s
      end
  | Resume id =>
      match running s !! id with
      | Some r =>
          match outcome (rn_wait r) with
          | Some x => advance id (rn_job r) (rn_k r x (mgr s)) s
          | None => s
          end
      | None => s
      end
  | Timeout id i =>
      match running s !! id with
      | Some r =>
          match rn_wait r !! i with
          | Some (w, None) =>
              {| mgr := mgr s;
                 running := <[id := {| rn_job := rn_job r;
                                       rn_wait := <[i := (w, Some (Err ("timeout waiting for " +:+ wt_id w)))]> (rn_wait r);
                                       rn_k := rn_k r |}]> (running s) |}
          | _ => s
          end
      | None => s
      end
  | _ => run_sync (sync_turn t) s
  end.

Definition run (s : System) (l : list Turn) : System := foldl handle s l.

(** The manager of a new process over the registry file, before any agent is connected; [server.ts]
    restores before it serves. *)
Definition fresh_manager (r : Registry) (t : Z) : Mgr :=
  {| reg := open_registry r; now := t; fresh := 0; conns := ∅; quiet := ∅; sent := []; inflight := ∅;
     updateLease := None; updateRecovery := []; operations := ∅; distributionApplications := ∅;
     generations := ∅; closed := false; fleetToken := false; fleetPlanning := false; allocation := None; fleetWorker := None;
     nativeLifetimes := ∅; reconnecting := ∅; lastMove := ∅; blocked := ∅; moveExcluded := [];
     tokenBuckets := ∅; notices := [] |}.
Definition boot (r : Registry) (t : Z) : System :=
  run_sync (restore deps) {| mgr := fresh_manager r t; running := ∅ |}.
End loop.
