(* ===== verification/Scenario.v ===== *)
(** * A small fleet

    One node with an external server, and the turns that put it into service: the concrete inputs the
    properties of the deployment manager are tried on. *)

From S2P Require Import Prelude Async JsNum Json Types Validate PhasePlan Planner Resources Fleet Topology Registry Manager Deployments Allocation ControlLoop.

Local Open Scope string_scope.
Local Open Scope list_scope.
Local Open Scope Z_scope.

(** A host whose sockets take every frame. *)
#[export] Instance sc_host : Host := {|
  newId := fun prefix n => prefix +:+ "-" +:+ pretty n;
  write_ok := fun _ _ => true;
  new_URL := fun s => if String.eqb s "http://127.0.0.1:8000"
                      then Some {| url_protocol := "http:"; url_hostname := "127.0.0.1"; url_port := Some 8000 |} else None;
  re_test := String.eqb;
  localeCompare := String.compare;
  show_error := fun _ => "error";
  show_num := fun _ => "n";
  Date_parse := fun _ => num_zero;
  Math_pow := fun x _ => num_mul x x;
  show_failure := fun _ => "failure";
  show_memory := fun _ => "memory";
  show_topology := fun _ => "topology";
  sha256_json := fun _ => "hash";
  plan_hash := fun _ _ _ _ => "hash" |}.

Definition sc_deps : Deps := {|
  dp_profiles := []; dp_recoveryDelayMs := None; dp_stopTimeoutMs := None; dp_reconnectGraceMs := None;
  dp_moveIntervalMs := None; dp_crashCooldownMs := None; dp_moveSettleMs := None; dp_wedgedLoadMs := None;
  dp_nativeQualifications := Some []; dp_serverPortBase := 18080; dp_reverseDial := false |}.

Definition sc_offer : Offer := {|
  of_enabled := true; of_roles := {| ro_worker := true; ro_coordinator := true; ro_replica := true |};
  of_gpu := []; of_ramMiB := 8000; of_cpuCores := 4; of_diskMiB := 0; of_modelsDir := "/models" |}.
Definition sc_caps : Capabilities := {|
  cap_allocationVersion := None; cap_os := linux; cap_arch := x64; cap_hostname := "host"; cap_ramMiB := 16000;
  cap_ramReserveMiB := 0; cap_cpuCores := 8; cap_gpus := []; cap_diskFreeMiB := 0; cap_privateIps := [];
  cap_publicIp := None; cap_publicEndpoints := None; cap_dataPort := None; cap_cgroup := None; cap_engine := None;
  cap_net := None; cap_bench := None; cap_measuredAt := "" |}.

Definition sc_external (url : string) : ExternalSpec := {|
  xs_nodeId := "n1"; xs_url := url; xs_healthPath := "/health"; xs_modelName := "m"; xs_upstreamModel := None;
  xs_maintenance := None |}.
Definition sc_spec (kind : DeploymentKind) (x : option ExternalSpec) : DeploymentSpec := {|
  ds_name := "web"; ds_profile := "p"; ds_autoTopology := None; ds_autoModel := None; ds_kind := kind;
  ds_coordinatorNodeId := None; ds_workerNodeIds := None; ds_workerLayers := None; ds_replicaNodeId := None;
  ds_allocations := None; ds_stages := None; ds_prefillNodeId := None; ds_decodeNodeId := None; ds_modelSha256 := None;
  ds_ctx := None; ds_parallel := None; ds_chain := None; ds_speculation := None; ds_wire := None;
  ds_batchedGets := None; ds_forwarding := None; ds_stopExternal := None; ds_transport := None; ds_external := x |}.

Definition sc_registry : Registry := {|
  rg_nodes := [new_node 0 "n1" "" "fp" "host" linux "x64" None]; rg_joinCodes := []; rg_deployments := [];
  rg_intents := []; rg_assignments := []; rg_events := []; rg_apiKeys := []; rg_fleetRuns := [] |}.

(** From the agent's connection to the first route. *)
Definition sc_turns : list Turn :=
  [Connect "n1"; Hello "n1" "1" sc_caps sc_offer [] [];
   Create (sc_spec external (Some (sc_external "http://127.0.0.1:8000")));
   Start "dep-0"; Begin "dep-0"; Report "n1" "as-1" a_ready None; Resume "dep-0"].

Definition sc_ready : System := run sc_deps (boot sc_deps sc_registry 1000) sc_turns.

Definition route_ids (m : Mgr) : list (string * list string) :=
  match (routing m).1 with
  | Ok g => List.map (fun x => (x.1, List.map ro_id x.2)) g
  | Err _ => []
  end.

Example sc_ready_routes : route_ids (mgr sc_ready) = [("m", ["dep-0"])].
Proof. vm_compute. reflexivity. Qed.

(** The server never becomes healthy: the start fails, its watch is stopped, and the sweep tries again. *)
Definition sc_failing : list Turn :=
  take 5 sc_turns ++
  [Report "n1" "as-1" a_failed (Some "connection refused"); Resume "dep-0"; Report "n1" "as-1" a_stopped None;
   Resume "dep-0"; Tick 10000; Sweep].

Example sc_failing_attempt :
  di_attempts (intent (mgr (run sc_deps (boot sc_deps sc_registry 1000) sc_failing)) "dep-0") = 1.
Proof. vm_compute. reflexivity. Qed.
