(* ===== verification/DeploymentsFacts.v ===== *)
(** * Deployment manager: what every method keeps

    [J]: a deployment in service has an endpoint and is wanted by its owner, and the attempts of every
    intent are within the recovery budget.  The methods are taken in the order they call each other. *)

From S2P Require Import Prelude Async Rules JsNum Json Types Validate PhasePlan Planner Resources Fleet Topology Registry Manager Deployments.

Local Open Scope Z_scope.

Definition served (r : Registry) : Prop := forall d, d ∈ rg_deployments r -> dep_state d = ready ->
  dep_endpoint d <> None /\ di_running (deploymentIntent r (dep_id d)) = true.
Definition budget (r : Registry) : Prop :=
  forall id, 0 <= di_attempts (deploymentIntent r id) <= MAX_RECOVERY_ATTEMPTS.
Definition J (m : Mgr) : Prop := served (reg m) /\ budget (reg m).

Lemma apres_await I ws : apres I (await_all ws).
Proof.
  intros m Hm. unfold await_all. destruct (head _); [done|]. destruct (List.filter _ _); cbn; [done|].
  split; [done|]. by intros r m' Hm'.
Qed.
#[export] Hint Resolve apres_await : pres.

(** ** The writes *)

Lemma intent_set id running attempts retryAt r id' :
  deploymentIntent (setDeploymentIntent id running attempts retryAt r) id' =
    if String.eqb id id' then
      {| di_running := default (di_running (deploymentIntent r id)) running;
         di_attempts := default (di_attempts (deploymentIntent r id)) attempts;
         di_retryAt := default (di_retryAt (deploymentIntent r id)) retryAt |}
    else deploymentIntent r id'.
Proof.
  unfold deploymentIntent at 1, setDeploymentIntent. cbn [rg_intents set_intents].
  rewrite row_upsert by (intros ? _; reflexivity). cbn [ir_deploymentId].
  destruct (String.eqb id id'); [|done]. by destruct (row ir_deploymentId id' (rg_intents r)).
Qed.

(** The facts only depend on the deployments and their intents. *)
Lemma J_frame m m' : rg_deployments (reg m') = rg_deployments (reg m) -> rg_intents (reg m') = rg_intents (reg m) ->
  J m -> J m'.
Proof. unfold J, served, budget, deploymentIntent. by intros -> ->. Qed.

Lemma J_update id p m : J m ->
  (forall d, dep_id d = id -> d ∈ rg_deployments (reg m) -> dep_state (patched (now m) p d) = ready ->
     dep_endpoint (patched (now m) p d) <> None /\ di_running (intent m id) = true) ->
  J (set_reg (updateDeployment (now m) id p (reg m)) m).
Proof.
  intros [Hs Hb] Hp. split; [|done]. intros d Hd Hr. cbn in Hd.
  unfold updateDeployment, update_dep, update in Hd. cbn in Hd. apply list_elem_of_fmap in Hd as (d0 & -> & Hd).
  destruct (String.eqb (dep_id d0) id) eqn:E; [|by apply Hs].
  apply String.eqb_eq in E. cbn [dep_id patched]. rewrite E. by apply Hp.
Qed.

Lemma J_down id p s m : pt_state p = Some s -> s <> ready -> J m -> J (set_reg (updateDeployment (now m) id p (reg m)) m).
Proof. intros Hp Hs Hm. apply J_update; [done|]. intros d _ _. cbn. rewrite Hp. cbn. congruence. Qed.

Lemma J_keep id p m : pt_state p = None -> pt_endpoint p = None -> J m ->
  J (set_reg (updateDeployment (now m) id p (reg m)) m).
Proof.
  intros H1 H2 Hm. apply J_update; [done|]. intros d <- Hd. cbn. rewrite H1, H2. cbn.
  intros Hr. by apply (proj1 Hm).
Qed.

(** A step into service needs the owner's intent. *)
Lemma J_up id p e m : pt_endpoint p = Some (Some e) -> di_running (intent m id) = true -> J m ->
  J (set_reg (updateDeployment (now m) id p (reg m)) m).
Proof. intros Hp Hr Hm. apply J_update; [done|]. intros d _ _ _. cbn. by rewrite Hp. Qed.

Definition attempts_ok (a : option Z) : Prop := match a with Some a => 0 <= a <= MAX_RECOVERY_ATTEMPTS | None => True end.

Lemma J_intent id running attempts retryAt m : running <> Some false -> attempts_ok attempts -> J m ->
  J (set_reg (setDeploymentIntent id running attempts retryAt (reg m)) m).
Proof.
  intros Hr Ha [Hs Hb]. split.
  - intros d Hd Hst. destruct (Hs d Hd Hst) as [H1 H2]. split; [done|]. cbn. rewrite intent_set.
    destruct (String.eqb id (dep_id d)) eqn:E; [|done]. apply String.eqb_eq in E as ->. cbn.
    by destruct running as [[]|].
  - intros id'. cbn. rewrite intent_set. specialize (Hb id'). destruct (String.eqb id id') eqn:E; [|done].
    apply String.eqb_eq in E as ->. by destruct attempts.
Qed.

#[export] Hint Extern 1 (attempts_ok _) => (cbn; unfold MAX_RECOVERY_ATTEMPTS; lia) : pres.

Section writes.
Lemma pres_frame f : (forall m, rg_deployments (reg (f m)) = rg_deployments (reg m)) ->
  (forall m, rg_intents (reg (f m)) = rg_intents (reg m)) -> pres J (mmodify f).
Proof. intros H1 H2. apply pres_modify. intros m. by apply J_frame. Qed.

Lemma pres_down id s p e err : s <> ready -> pres J (updateDep id (pt (Some s) p e err)).
Proof. intros Hs. apply pres_modify. intros m Hm. by eapply J_down. Qed.
Lemma pres_keep id p : pt_state p = None -> pt_endpoint p = None -> pres J (updateDep id p).
Proof. intros H1 H2. apply pres_modify. intros m Hm. by apply J_keep. Qed.
Lemma pres_intent id running attempts retryAt : running <> Some false -> attempts_ok attempts ->
  pres J (setIntent id running attempts retryAt).
Proof. intros H1 H2. apply pres_modify. intros m Hm. by apply J_intent. Qed.
Lemma pres_ev id t : pres J (ev id t).
Proof. by apply pres_frame. Qed.
Lemma pres_reg_frame (f : Z -> Registry -> Registry) : (forall t r, rg_deployments (f t r) = rg_deployments r) ->
  (forall t r, rg_intents (f t r) = rg_intents r) -> pres J (regw f).
Proof. intros H1 H2. apply pres_frame; intros m; cbn; auto. Qed.
Lemma pres_notify id s d : pres J (notify id s d).
Proof. by apply pres_frame. Qed.
Lemma pres_must id : pres J (must id).
Proof. unfold must. pres. Qed.
Lemma pres_new_id `{Host} p : pres J (new_id p).
Proof. intros m Hm. by eapply J_frame; [| |exact Hm]. Qed.
Lemma pres_send `{Host} n a : pres J (send n a).
Proof. intros m Hm. unfold send. destruct (_ && _); [|done]. by eapply J_frame; [| |exact Hm]. Qed.
End writes.
#[export] Hint Resolve pres_ev pres_notify pres_must pres_new_id pres_send : pres.
#[export] Hint Extern 2 (pres J (updateDep _ (pt (Some _) _ _ _))) => (apply pres_down; discriminate) : pres.
#[export] Hint Extern 2 (pres J (updateDep _ (pt None _ None _))) => (apply pres_keep; reflexivity) : pres.
#[export] Hint Extern 2 (pres J (updateDep _ (Build_Patch None _ None _ _))) => (apply pres_keep; reflexivity) : pres.
#[export] Hint Extern 2 (pres J (setIntent _ _ _ _)) => (apply pres_intent; [discriminate|auto with pres]) : pres.
#[export] Hint Extern 3 (pres J (mmodify _)) => (apply pres_frame; reflexivity) : pres.
#[export] Hint Extern 3 (pres J (regw _)) => (apply pres_reg_frame; reflexivity) : pres.

(** ** Methods that never put a deployment into service *)
Section methods.
Context `{Host} (deps : Deps).

Lemma pres_updatingNode : pres J updatingNode.
Proof.
  intros m Hm. unfold updatingNode. cbn. destruct (updateLease m) as [l|]; [|done].
  destruct (_ <=? _); [|done]. by eapply J_frame; [| |exact Hm].
Qed.
#[local] Hint Resolve pres_updatingNode : pres.

Lemma pres_send_stop n i d : pres J (send_stop n i d).
Proof. unfold send_stop. pres. Qed.
Lemma pres_assign n a : pres J (assign n a).
Proof. unfold assign. pres. Qed.
#[local] Hint Resolve pres_send_stop pres_assign : pres.

Lemma pres_acquireUpdate n : pres J (acquireUpdate n).
Proof. unfold acquireUpdate. pres. Qed.
Lemma pres_releaseUpdate n t : pres J (releaseUpdate n t).
Proof. unfold releaseUpdate. pres. Qed.
Lemma pres_scheduleRecovery id : pres J (scheduleRecovery deps id).
Proof. unfold scheduleRecovery. pres. Qed.
#[local] Hint Resolve pres_scheduleRecovery : pres.
Lemma pres_recordFailure id w : pres J (recordFailure deps id w).
Proof. unfold recordFailure. pres. Qed.
Lemma pres_finishDraining id : pres J (finishDraining id).
Proof. unfold finishDraining. pres. Qed.
Lemma pres_enqueue id j : pres J (enqueue id j).
Proof. unfold enqueue. pres. Qed.
Lemma pres_cancel id : pres J (cancel id).
Proof. unfold cancel. pres. Qed.
Lemma pres_assertRunning id g : pres J (assertRunning id g).
Proof. unfold assertRunning. pres. Qed.
Lemma pres_assertFleetAccess b : pres J (assertFleetAccess b).
Proof. unfold assertFleetAccess. pres. Qed.
Lemma pres_node id : pres J (node id).
Proof. unfold node. pres. Qed.
Lemma pres_externalOrigin u : pres J (externalOrigin u).
Proof. unfold externalOrigin. pres. Qed.
Lemma pres_the_external s : pres J (the_external s).
Proof. unfold the_external. pres. Qed.
Lemma pres_assertExternalOptions s : pres J (assertExternalOptions s).
Proof. unfold assertExternalOptions. pres. Qed.
#[local] Hint Resolve pres_recordFailure pres_finishDraining pres_enqueue pres_cancel pres_assertRunning
  pres_assertFleetAccess pres_node pres_externalOrigin pres_the_external pres_assertExternalOptions : pres.

Lemma pres_duplicate_external m0 x k e d : pres J (duplicate_external m0 x k e d).
Proof. unfold duplicate_external. pres. Qed.
#[local] Hint Resolve pres_duplicate_external : pres.
Lemma pres_first_duplicate m0 x k e l : pres J (first_duplicate m0 x k e l).
Proof. induction l; cbn [first_duplicate]; pres. Qed.
#[local] Hint Resolve pres_first_duplicate : pres.
Lemma pres_assertUniqueExternal s e : pres J (assertUniqueExternal s e).
Proof. unfold assertUniqueExternal. pres. Qed.
#[local] Hint Resolve pres_assertUniqueExternal : pres.

Lemma pres_plan s u r e : pres J (plan deps s u r e).
Proof. unfold plan. pres. Qed.
#[local] Hint Resolve pres_plan : pres.
Lemma pres_blockPlacement id p w : pres J (blockPlacement deps id p w).
Proof. unfold blockPlacement. pres. Qed.
Lemma pres_blockedUntil id p : pres J (blockedUntil id p).
Proof. unfold blockedUntil. pres. Qed.
#[local] Hint Resolve pres_blockPlacement pres_blockedUntil : pres.
Lemma pres_planFor d : pres J (planFor deps d).
Proof. unfold planFor. pres. Qed.
Lemma pres_url_of u : pres J (url_of u).
Proof. unfold url_of. pres. Qed.
Lemma pres_the_profile u : pres J (the_profile deps u).
Proof. unfold the_profile. pres. Qed.
#[local] Hint Resolve pres_planFor pres_url_of pres_the_profile : pres.

Lemma apres_stop_row id b r : apres J (stop_row id b r).
Proof. unfold stop_row. pres. Qed.
#[local] Hint Resolve apres_stop_row : pres.
Lemma apres_stop_rows id b l : apres J (stop_rows id b l).
Proof. induction l; cbn [stop_rows]; pres. Qed.
#[local] Hint Resolve apres_stop_rows : pres.
Lemma apres_teardown id b : apres J (teardown id b).
Proof. unfold teardown. pres. Qed.
Lemma apres_assign_or_throw n a w : apres J (assign_or_throw n a w).
Proof. unfold assign_or_throw. pres. Qed.
#[local] Hint Resolve apres_teardown apres_assign_or_throw : pres.
Lemma apres_dispatch n a s : apres J (dispatch n a s).
Proof. unfold dispatch. pres. Qed.
Lemma apres_assign_all c l : pres J c -> apres J (assign_all c l).
Proof. intros Hc. induction l as [|[n a] l IH]; cbn [assign_all]; pres. Qed.
#[local] Hint Resolve apres_dispatch apres_assign_all : pres.

(** ** Going into service

    What [assertRunning] lets through is wanted, and nothing in the rest of the section changes that. *)
Definition K (id : string) (m : Mgr) : Prop := J m /\ di_running (intent m id) = true.

Lemma K_frame id m m' : rg_deployments (reg m') = rg_deployments (reg m) -> rg_intents (reg m') = rg_intents (reg m) ->
  K id m -> K id m'.
Proof. intros H1 H2 [Hj Hr]. split; [by eapply J_frame|]. unfold intent, deploymentIntent. by rewrite H2. Qed.

Lemma pres_K_frame id f : (forall m, rg_deployments (reg (f m)) = rg_deployments (reg m)) ->
  (forall m, rg_intents (reg (f m)) = rg_intents (reg m)) -> pres (K id) (mmodify f).
Proof. intros H1 H2. apply pres_modify. intros m. by apply K_frame. Qed.
Lemma pres_K_ready id n p name : pres (K id) (go_ready id n p name).
Proof. apply pres_modify. intros m [Hj Hr]. split; [by eapply J_up|done]. Qed.
Lemma pres_K_up id x e : pres (K id) (updateDep id (pt (Some ready) None (Some (Some x)) e)).
Proof. apply pres_modify. intros m [Hj Hr]. split; [by eapply J_up|done]. Qed.
Lemma pres_K_down id id' s p e err : s <> ready -> pres (K id) (updateDep id' (pt (Some s) p e err)).
Proof. intros Hs. apply pres_modify. intros m [Hj Hr]. split; [by eapply J_down|done]. Qed.
#[local] Hint Resolve pres_K_ready pres_K_up : pres.
#[local] Hint Extern 2 (pres (K _) (updateDep _ (pt (Some _) _ _ _))) => (apply pres_K_down; discriminate) : pres.
#[local] Hint Extern 3 (pres (K _) (mmodify _)) => (apply pres_K_frame; reflexivity) : pres.
#[local] Hint Extern 3 (pres (K _) (notify _ _ _)) => (apply pres_K_frame; reflexivity) : pres.
Lemma pres_K_ev id id' t : pres (K id) (ev id' t).
Proof. by apply pres_K_frame. Qed.
#[local] Hint Resolve pres_K_ev : pres.
Lemma pres_K_node id n : pres (K id) (node n).
Proof. unfold node. pres. Qed.
Lemma pres_K_profile id n : pres (K id) (the_profile deps n).
Proof. unfold the_profile. pres. Qed.
Lemma pres_K_url id u : pres (K id) (url_of u).
Proof. unfold url_of. pres. Qed.
Lemma pres_K_finishDraining id id' : pres (K id) (finishDraining id').
Proof.
  unfold finishDraining. pres.
Qed.
#[local] Hint Resolve pres_K_node pres_K_profile pres_K_url pres_K_finishDraining : pres.

Lemma pres_running id g (x : Sync unit) : pres (K id) x -> pres J (assertRunning id g ;; x).
Proof.
  intros Hx m Hm. unfold assertRunning. unfold mbind, M_bind. cbn.
  destruct (closed m || negb (di_running (intent m id)) || negb (g =? generation m id)) eqn:E; cbn; [done|].
  apply Hx. split; [done|]. apply orb_false_iff in E as [E _]. apply orb_false_iff in E as [_ E].
  by apply negb_false_iff.
Qed.

Lemma apres_startExternal d g : apres J (startExternal d g).
Proof. unfold startExternal. repeat first [apply pres_running | pres_step | solve [auto with pres]]. Qed.
Lemma apres_startReplica d g : apres J (startReplica deps d g).
Proof. unfold startReplica. repeat first [apply pres_running | solve [auto with pres] | pres_step]. Qed.
Lemma apres_startNative d g : apres J (startNative deps d g).
Proof. unfold startNative. repeat first [solve [auto with pres] | apply pres_running | pres_step]. Qed.
Lemma apres_startSplit d g : apres J (startSplit deps d g).
Proof. unfold startSplit. repeat first [solve [auto with pres] | apply pres_running | pres_step]. Qed.
#[local] Hint Resolve apres_startExternal apres_startReplica apres_startNative apres_startSplit : pres.

Lemma apres_run_work id w : apres J (run_work deps id w).
Proof. unfold run_work, start_kind. pres. Qed.

(** ** Handlers *)

Lemma pres_fail id w : pres J (fail deps id w).
Proof. unfold fail. pres. Qed.
Lemma pres_observeReconnect id : pres J (observeReconnect deps id).
Proof. unfold observeReconnect. pres. Qed.
Lemma pres_onOffline_one n d : pres J (onOffline_one deps n d).
Proof. unfold onOffline_one. pres. Qed.
#[local] Hint Resolve pres_fail pres_observeReconnect pres_onOffline_one : pres.
Lemma pres_onOffline n : pres J (onOffline deps n).
Proof. unfold onOffline. pres. Qed.
#[local] Hint Resolve pres_onOffline : pres.

Lemma pres_external_report n d s t : pres (K (dep_id d)) (external_report n d s t).
Proof. unfold external_report. pres. Qed.

Lemma pres_at {A} (x : Sync A) m : J m -> pres J x -> J (x m).2.
Proof. auto. Qed.
Lemma from_K {A} id (x : Sync A) m : pres (K id) x -> K id m -> J (x m).2.
Proof. intros Hx Hm. by apply (Hx m Hm). Qed.
#[local] Hint Resolve pres_external_report : pres.

(** A health report puts a deployment back into service only if it is still wanted. *)
Lemma pres_onAssignmentState n id s t : pres J (onAssignmentState deps n id s t).
Proof.
  unfold onAssignmentState. intros m Hm. unfold mbind at 1, M_bind at 1, mget. cbv beta iota.
  destruct (getAssignment (reg m) id) as [r|]; [|done].
  destruct (negb _); [done|]. destruct (_ && _); [by apply pres_send_stop|].
  destruct (getDeployment (reg m) (ar_deploymentId r)) as [d|] eqn:Hd; [|by apply pres_notify].
  cbv zeta. destruct (watches r && di_running (intent m (dep_id d)) && bool_decide (dep_state d ∈ [ready; loading])) eqn:E.
  - apply (from_K (dep_id d)).
    + pres.
    + split; [done|]. apply andb_true_iff in E as [E _]. by apply andb_true_iff in E as [_ E].
  - revert m Hm Hd E. intros m0 Hm _ _. apply (pres_at _ m0 Hm). pres.
Qed.
#[local] Hint Resolve pres_onAssignmentState : pres.

Lemma pres_onHello_row n h seen r : pres J (onHello_row deps n h seen r).
Proof. unfold onHello_row. pres. Qed.
#[local] Hint Resolve pres_onHello_row : pres.
Lemma pres_onHello_rows n h l : forall seen, pres J (onHello_rows deps n h seen l).
Proof. induction l; intros seen; cbn [onHello_rows]; pres. Qed.
#[local] Hint Resolve pres_onHello_rows : pres.
Lemma pres_onHello n l : pres J (onHello deps n l).
Proof. unfold onHello. pres. Qed.

Lemma pres_clearExclusions id : pres J (clearExclusions id).
Proof. unfold clearExclusions. pres. Qed.
#[local] Hint Resolve pres_clearExclusions : pres.
Lemma pres_start id b1 b2 b3 b4 a : pres J (start id b1 b2 b3 b4 a).
Proof. unfold start. pres. apply pres_intent; [done|]. destruct b1; cbn; unfold MAX_RECOVERY_ATTEMPTS; lia. Qed.
#[local] Hint Resolve pres_start : pres.

Lemma pres_choose_from b r e l : forall tried skipped, pres J (choose_from deps b r e tried skipped l).
Proof. induction l; intros tried skipped; cbn [choose_from]; pres. Qed.
#[local] Hint Resolve pres_choose_from : pres.
Lemma pres_chooseAuto b r e : pres J (chooseAuto deps b r e).
Proof. unfold chooseAuto. pres. Qed.
#[local] Hint Resolve pres_chooseAuto : pres.
Lemma pres_moved_now id : pres J (moved_now id).
Proof. unfold moved_now. pres. Qed.
Lemma pres_redecide id d r : pres J (redecide deps id d r).
Proof. unfold redecide. pres. Qed.
#[local] Hint Resolve pres_moved_now pres_redecide : pres.
Lemma pres_move_failed id r w x : pres J x -> pres J (move_failed id r w x).
Proof. intros Hx. unfold move_failed. pres. Qed.
#[local] Hint Resolve pres_move_failed : pres.
Lemma pres_redistribute fuel : forall id r e, pres J (redistribute deps fuel id r e).
Proof. induction fuel; intros id r e; cbn [redistribute]; unfold redistribute_once; pres. Qed.
#[local] Hint Resolve pres_redistribute : pres.
Lemma pres_try_move id r : pres J (try_move deps id r).
Proof. unfold try_move. pres. Qed.
#[local] Hint Resolve pres_try_move : pres.
Lemma pres_retry n d : pres J (retry_failed_plan deps n d).
Proof. unfold retry_failed_plan. pres. Qed.
Lemma pres_reconsider n d : pres J (reconsider deps n d).
Proof. unfold reconsider. pres. Qed.
Lemma pres_readmit n e : pres J (readmit n e).
Proof. unfold readmit. pres. Qed.
#[local] Hint Resolve pres_retry pres_reconsider pres_readmit : pres.
Lemma pres_onNodeOnline n : pres J (onNodeOnline deps n).
Proof. unfold onNodeOnline. pres. Qed.

(** ** The sweeper *)

Lemma pres_required_nodes d : pres J (required_nodes deps d).
Proof. unfold required_nodes. pres. Qed.
#[local] Hint Resolve pres_required_nodes : pres.

Lemma pres_attempt_recovery d i b : 0 <= di_attempts i <= MAX_RECOVERY_ATTEMPTS -> pres J (attempt_recovery deps d i b).
Proof.
  intros Hi. unfold attempt_recovery. pres; apply pres_intent; try done; cbn.
  apply orb_false_iff in Heqb0 as [Hb _]. apply orb_false_iff in Hb as [_ Hb]. apply Z.leb_gt in Hb. lia.
Qed.
Lemma pres_reconcile_tail d i b : 0 <= di_attempts i <= MAX_RECOVERY_ATTEMPTS -> pres J (reconcile_tail deps d i b).
Proof. intros Hi. unfold reconcile_tail. pres. by apply pres_attempt_recovery. Qed.

Lemma pres_reconcile_one d : pres J (reconcile_one deps d).
Proof. unfold reconcile_one. pres; apply pres_reconcile_tail; match goal with H : J ?m |- context [intent ?m] => apply H end. Qed.
#[local] Hint Resolve pres_reconcile_one : pres.
Lemma pres_reconcile : pres J (reconcile deps).
Proof. unfold reconcile. pres. Qed.

(** ** The API *)

(** Between the two writes of [stop] the facts hold of every other deployment. *)
Definition J_but (id : string) (m : Mgr) : Prop :=
  (forall d, d ∈ rg_deployments (reg m) -> dep_id d <> id -> dep_state d = ready ->
     dep_endpoint d <> None /\ di_running (intent m (dep_id d)) = true) /\ budget (reg m).

Lemma J_but_stop id m : J m -> J_but id (set_reg (setDeploymentIntent id (Some false) (Some 0) (Some 0) (reg m)) m).
Proof.
  intros [Hs Hb]. split.
  - intros d Hd Hne Hr. destruct (Hs d Hd Hr) as [H1 H2]. split; [done|]. unfold intent. cbn. rewrite intent_set.
    by rewrite (proj2 (String.eqb_neq id (dep_id d)) (not_eq_sym Hne)).
  - intros id'. cbn. rewrite intent_set. destruct (String.eqb id id'); [cbn; unfold MAX_RECOVERY_ATTEMPTS; lia|apply Hb].
Qed.

Lemma J_but_frame id m m' : rg_deployments (reg m') = rg_deployments (reg m) -> rg_intents (reg m') = rg_intents (reg m) ->
  J_but id m -> J_but id m'.
Proof. unfold J_but, intent, budget, deploymentIntent. by intros -> ->. Qed.

Lemma pres_J_but_cancel id id' : pres (J_but id) (cancel id').
Proof.
  unfold cancel. repeat first [pres_step | done]; apply pres_modify; intros ?; by apply J_but_frame.
Qed.

(** [cancel] does not throw. *)
Lemma cancel_ok id m : (cancel id m).1 = Ok tt.
Proof.
  unfold cancel. unfold mbind, M_bind, mmodify, mget. cbv beta iota.
  generalize (set_generations (<[id:=generation m id + 1]> (generations m))
    (set_nativeLifetimes (base.delete id (nativeLifetimes m)) m)). intros m1.
  generalize (rows m1 id) as l. intros l. revert m1. induction l as [|r l IH]; intros m1; [done|]. cbn. apply IH.
Qed.

Lemma J_but_done id s p e err m : s <> ready -> J_but id m ->
  J (set_reg (updateDeployment (now m) id (pt (Some s) p e err) (reg m)) m).
Proof.
  intros Hst [Hs Hb]. split; [|done]. intros d Hd Hr. cbn in Hd.
  unfold updateDeployment, update_dep, update in Hd. cbn in Hd. apply list_elem_of_fmap in Hd as (d0 & -> & Hd).
  destruct (String.eqb (dep_id d0) id) eqn:E; [by cbn in Hr|]. apply String.eqb_neq in E. by apply Hs.
Qed.

Lemma pres_stop id h a : pres J (stop id h a).
Proof.
  unfold stop. repeat first [solve [auto with pres] | apply pres_bind; [solve [auto with pres]|]; intros ?].
  intros m Hm. unfold setIntent, regw, mmodify at 1. unfold mbind at 1, M_bind at 1. cbv beta iota.
  pose proof (pres_J_but_cancel id id _ (J_but_stop id m Hm)) as Hc. revert Hc.
  generalize (set_reg (setDeploymentIntent id (Some false) (Some 0) (Some 0) (reg m)) m) as m1. intros m1 Hc.
  unfold mbind at 1, M_bind at 1. pose proof (cancel_ok id m1) as Hok.
  destruct (cancel id m1) as [[[]|e] m2]; [|done].
  assert (J (set_reg (updateDeployment (now m2) id (pt (Some draining) None (Some None) None) (reg m2)) m2)) as Hd.
  { apply J_but_done; [discriminate|exact Hc]. }
  exact (pres_enqueue id _ _ Hd).
Qed.
#[local] Hint Resolve pres_stop : pres.
Lemma pres_remove id : pres J (remove id).
Proof. unfold remove. pres. Qed.
Lemma pres_dispose : pres J dispose.
Proof. unfold dispose. pres. Qed.
Lemma pres_trackInflight id d : pres J (trackInflight id d).
Proof. unfold trackInflight. pres. Qed.
Lemma pres_recordTokens id n : pres J (recordTokens id n).
Proof. unfold recordTokens. pres. Qed.
Lemma pres_nativeFailed id r l : pres J (nativeExecutionFailed deps id r l).
Proof. unfold nativeExecutionFailed. pres. Qed.

Lemma intent_new id id' r : row ir_deploymentId id (rg_intents r) = None ->
  deploymentIntent (set_intents (rg_intents r ++ [{| ir_deploymentId := id; ir_intent := no_intent |}]) r) id' =
  deploymentIntent r id'.
Proof.
  intros Hn. unfold deploymentIntent. cbn [rg_intents set_intents]. rewrite row_snoc.
  destruct (row ir_deploymentId id' (rg_intents r)) eqn:E; [done|]. cbn. by destruct (String.eqb id id').
Qed.

Lemma J_create t id s m : J m -> J (set_reg (createDeployment t id s (reg m)).2 m).
Proof.
  intros [Hs Hb]. unfold createDeployment. unfold insert_new at 1. destruct (row dep_id _ _); [done|].
  assert (served (set_deployments (rg_deployments (reg m) ++ [new_deployment t id s]) (reg m))) as Hs'.
  { intros d Hd Hr. cbn in Hd. apply elem_of_app in Hd as [Hd|Hd]; [by apply Hs|].
    by apply list_elem_of_singleton in Hd as ->. }
  unfold insert_new. cbn [ir_deploymentId rg_intents set_deployments].
  destruct (row ir_deploymentId id (rg_intents (reg m))) eqn:E; [done|]. split.
  - intros d Hd Hr. cbn [snd reg set_reg] in *. rewrite (intent_new id (dep_id d) (set_deployments _ (reg m))) by done. by apply Hs'.
  - intros id'. cbn [snd reg set_reg]. rewrite (intent_new id id' (set_deployments _ (reg m))) by done. apply Hb.
Qed.

Lemma pres_create_row id s : pres J (create_row id s).
Proof.
  intros m Hm. pose proof (J_create (now m) id s m Hm) as Hc. unfold create_row.
  by destruct (createDeployment (now m) id s (reg m)).
Qed.
#[local] Hint Resolve pres_create_row : pres.
Lemma pres_fleetInput : pres J (fleetInput deps).
Proof. unfold fleetInput. pres. Qed.
#[local] Hint Resolve pres_fleetInput : pres.
Lemma pres_autodiscover s p : pres J (autodiscover deps s p).
Proof. unfold autodiscover. pres. Qed.
#[local] Hint Resolve pres_autodiscover : pres.
Lemma pres_create s : pres J (create deps s).
Proof. unfold create. pres. Qed.

Lemma J_delete id m : J m -> J (set_reg (deleteDeployment id (reg m)) m).
Proof.
  intros [Hs Hb].
  assert (forall id', deploymentIntent (deleteDeployment id (reg m)) id' =
    if String.eqb id' id then no_intent else deploymentIntent (reg m) id') as Hi.
  { intros id'. unfold deploymentIntent. cbn. unfold delete_row, row. induction (rg_intents (reg m)) as [|x l IH]; cbn.
    - by destruct (String.eqb id' id).
    - destruct (String.eqb (ir_deploymentId x) id) eqn:E1; cbn.
      + rewrite IH. apply String.eqb_eq in E1 as ->. rewrite (String.eqb_sym id id'). by destruct (String.eqb id' id).
      + destruct (String.eqb (ir_deploymentId x) id') eqn:E2; cbn; [|done].
        apply String.eqb_eq in E2 as <-. by rewrite E1. }
  split.
  - intros d Hd Hr. cbn in Hd. apply elem_of_delete in Hd as [Hd Hne]. destruct (Hs d Hd Hr) as [H1 H2].
    split; [done|]. cbn [reg set_reg]. rewrite Hi. by rewrite (proj2 (String.eqb_neq _ _) Hne).
  - intros id'. cbn [reg set_reg]. rewrite Hi. destruct (String.eqb id' id); [|apply Hb].
    cbn. unfold MAX_RECOVERY_ATTEMPTS. lia.
Qed.
End methods.
