(* ===== verification/AllocationFacts.v ===== *)
(** * Fleet allocations and distributions: what they keep

    The methods of [Allocation] keep [J], like those of [Deployments]. *)

From S2P Require Import Prelude Async Rules JsNum Json Types Validate PhasePlan Planner Resources Fleet Topology Registry Manager Deployments DeploymentsFacts Allocation.

Local Open Scope Z_scope.

(** ** Specs are written out of service *)

Lemma J_spec t id s m : J m -> J (set_reg (applyDistributionSpec t id s (reg m)) m).
Proof.
  intros [Hs Hb]. split; [|done]. intros d Hd Hr. cbn in Hd.
  unfold applyDistributionSpec, update_dep, update in Hd. cbn in Hd. apply list_elem_of_fmap in Hd as (d0 & -> & Hd).
  destruct (String.eqb (dep_id d0) id) eqn:E; [by cbn in Hr|]. by apply Hs.
Qed.
Lemma J_specs t l : forall m, J m -> J (set_reg (applyFleetSpecs t l (reg m)) m).
Proof.
  induction l as [|e l IH]; intros m Hm; [by eapply J_frame|]. cbn [applyFleetSpecs foldl].
  exact (IH (set_reg (applyDistributionSpec t e.1 e.2 (reg m)) m) (J_spec t e.1 e.2 m Hm)).
Qed.
Lemma pres_spec id s : pres J (regw (fun t => applyDistributionSpec t id s)).
Proof. apply pres_modify. intros m. apply J_spec. Qed.
Lemma pres_specs l : pres J (regw (fun t => applyFleetSpecs t l)).
Proof. apply pres_modify. intros m. apply J_specs. Qed.
Lemma pres_saved id d : pres J (regw (fun t => Registry.saveDistribution t id d)).
Proof.
  apply pres_modify. intros m [Hs Hb]. split; [|done]. intros x Hx Hr. cbn in Hx.
  unfold Registry.saveDistribution, update_dep, update in Hx. cbn in Hx. apply list_elem_of_fmap in Hx as (x0 & -> & Hx).
  destruct (String.eqb (dep_id x0) id); by apply (Hs x0).
Qed.
#[local] Hint Resolve pres_spec pres_specs pres_saved : pres.

Section keep.
Context `{Host} (deps : Deps).

#[local] Hint Resolve pres_updatingNode pres_fleetInput pres_start pres_stop pres_plan pres_assertFleetAccess
  pres_reg_frame : pres.
#[local] Hint Extern 2 (pres J (alloc_modify _)) => (apply pres_frame; reflexivity) : pres.

Lemma pres_preview_done q r : pres J (preview_done deps q r).
Proof. unfold preview_done. pres. Qed.
#[local] Hint Resolve pres_preview_done : pres.
Lemma pres_previewAllocation v : pres J (previewAllocation deps v).
Proof. unfold previewAllocation. pres. Qed.
Lemma pres_worker_planned t : pres J (worker_planned deps t).
Proof. unfold worker_planned. pres. Qed.
Lemma pres_worker_timeout : pres J worker_timeout.
Proof. unfold worker_timeout. pres. Qed.
Lemma pres_validateFleetPlans x : pres J (validateFleetPlans deps x).
Proof. unfold validateFleetPlans. pres. Qed.
#[local] Hint Resolve pres_validateFleetPlans : pres.
Lemma pres_save_run : pres J save_run.
Proof. unfold save_run. pres. Qed.
Lemma pres_set_entry i f : pres J (set_entry i f).
Proof. unfold set_entry. pres. Qed.
#[local] Hint Resolve pres_save_run pres_set_entry : pres.
Lemma pres_alloc_end : pres J alloc_end.
Proof. unfold alloc_end. pres. Qed.
#[local] Hint Resolve pres_alloc_end : pres.
Lemma pres_alloc_fail w : pres J (alloc_fail w).
Proof. unfold alloc_fail. pres. Qed.
Lemma pres_alloc_done : pres J alloc_done.
Proof. unfold alloc_done. pres. Qed.
#[local] Hint Resolve pres_alloc_fail pres_alloc_done : pres.
Lemma pres_take_entries fuel : pres J (take_entries fuel).
Proof. induction fuel; cbn [take_entries]; pres. Qed.
#[local] Hint Resolve pres_take_entries : pres.
Lemma pres_worker_turn : pres J worker_turn.
Proof. unfold worker_turn. pres. Qed.
Lemma pres_workers_end : pres J workers_end.
Proof. unfold workers_end. pres. Qed.
#[local] Hint Resolve pres_worker_turn pres_workers_end : pres.
Lemma pres_start_entries : pres J (start_entries deps).
Proof. unfold start_entries. pres. Qed.
#[local] Hint Resolve pres_start_entries : pres.
Lemma pres_stops_settled : pres J (stops_settled deps).
Proof. unfold stops_settled. pres. Qed.
Lemma pres_stop_settled i r : pres J (stop_settled i r).
Proof. unfold stop_settled. pres. Qed.
#[local] Hint Resolve pres_stops_settled pres_stop_settled : pres.
Lemma pres_performAllocation x : pres J (performAllocation deps x).
Proof. unfold performAllocation. pres. Qed.
#[local] Hint Resolve pres_performAllocation : pres.
Lemma pres_applyAllocation i : pres J (applyAllocation deps i).
Proof. unfold applyAllocation. pres. Qed.
Lemma pres_then_stopped i r : pres J (then_stopped deps i r).
Proof. unfold then_stopped. pres. Qed.
Lemma pres_then_started i r : pres J (then_started i r).
Proof. unfold then_started. pres. Qed.

Lemma pres_distributionSpec id d : pres J (distributionSpec id d).
Proof. unfold distributionSpec. pres. Qed.
#[local] Hint Resolve pres_distributionSpec : pres.
Lemma pres_saveDistribution id v : pres J (saveDistribution deps id v).
Proof. unfold saveDistribution. pres. Qed.
Lemma pres_distribution_failed id w : pres J (distribution_failed id w).
Proof. unfold distribution_failed. pres. Qed.
Lemma pres_distribution_end id : pres J (distribution_end id).
Proof. unfold distribution_end. pres. Qed.
#[local] Hint Resolve pres_distribution_failed pres_distribution_end : pres.
Lemma pres_distributing id x : pres J x -> pres J (distributing id x).
Proof. intros Hx. unfold distributing. pres. Qed.
#[local] Hint Resolve pres_distributing : pres.
Lemma pres_applyDistribution id : pres J (applyDistribution deps id).
Proof. unfold applyDistribution. pres. Qed.
Lemma pres_then_distribute id s g r : pres J (then_distribute deps id s g r).
Proof. unfold then_distribute. pres. apply pres_distributing. pres. Qed.
Lemma pres_then_distributed id r : pres J (then_distributed id r).
Proof. unfold then_distributed. pres. Qed.
End keep.
