(* ===== verification/ControlFacts.v ===== *)
(** * The control process: properties over every sequence of turns *)

From S2P Require Import Prelude Async Rules JsNum Json Types Validate PhasePlan Planner Resources Fleet Topology Registry Manager Deployments DeploymentsFacts Allocation AllocationFacts ControlLoop Scenario.

Local Open Scope Z_scope.

Section facts.
Context `{Host} (deps : Deps).

#[local] Hint Resolve pres_updatingNode pres_assign pres_acquireUpdate pres_releaseUpdate pres_recordFailure
  pres_onOffline pres_onAssignmentState pres_onHello pres_onNodeOnline pres_start pres_stop pres_remove pres_dispose
  pres_trackInflight pres_recordTokens pres_nativeFailed pres_create pres_reconcile pres_redistribute
  pres_move_failed pres_reg_frame pres_previewAllocation pres_worker_planned pres_worker_timeout pres_applyAllocation
  pres_then_stopped pres_then_started pres_saveDistribution pres_applyDistribution pres_then_distribute pres_then_distributed : pres.

(** ** The turns keep [J] *)

Lemma pres_pop_job id : pres J (pop_job id).
Proof.
  apply pres_modify. intros m Hm. destruct (operations m !! id) as [[|j [|j' l]]|]; by eapply J_frame; [| |exact Hm].
Qed.
Lemma pres_delete id : pres J (regw (fun _ => deleteDeployment id)).
Proof. apply pres_modify. intros m. apply J_delete. Qed.
#[local] Hint Resolve pres_pop_job pres_delete : pres.
Lemma pres_run_after id r a : pres J (run_after deps id r a).
Proof. unfold run_after. pres. Qed.
#[local] Hint Resolve pres_run_after : pres.

Lemma pres_own_reports n l : pres J (own_reports n l).
Proof. unfold own_reports. pres. Qed.
Lemma pres_channel_event k t n : pres J (channel_event k t n).
Proof. unfold channel_event. pres. Qed.
#[local] Hint Resolve pres_own_reports pres_channel_event : pres.
Lemma pres_metrics n x c : pres J (regw (fun t => setMetrics t n x c)).
Proof.
  apply pres_reg_frame; intros t r; unfold setMetrics; destruct c; [|done| |done];
    by destruct (getNode r n ≫= nr_caps).
Qed.
#[local] Hint Resolve pres_metrics : pres.
Lemma pres_hello n v c o ms l : pres J (hello deps n v c o ms l).
Proof. unfold hello. pres. Qed.
Lemma pres_report n i s d : pres J (report deps n i s d).
Proof. unfold report. pres. Qed.
Lemma pres_close n : pres J (close deps n).
Proof. unfold close. pres. Qed.
Lemma pres_unresponsive n : pres J (unresponsive deps n).
Proof. unfold unresponsive. pres. Qed.
Lemma pres_responsive n v : pres J (responsive deps n v).
Proof. unfold responsive. pres. Qed.
Lemma pres_connect n : pres J (connect n).
Proof. unfold connect. pres. Qed.
#[local] Hint Resolve pres_hello pres_report pres_close pres_unresponsive pres_responsive pres_connect : pres.
Lemma pres_sync_turn t : pres J (sync_turn deps t).
Proof. unfold sync_turn. pres. Qed.

(** ** Systems *)

Definition Inv (s : System) : Prop := J (mgr s) /\
  forall id r, running s !! id = Some r -> forall x m, J m -> J (rn_k r x m).2 /\ good_step J (rn_k r x m).1.

Lemma Inv_after_sync s m : J m -> Inv s -> Inv (after_sync s m).
Proof.
  intros Hm [_ Hr]. split; [by eapply J_frame; [| |exact Hm]|]. intros id r. cbn. rewrite lookup_fmap.
  destruct (running s !! id) as [r0|] eqn:E; [|done]. intros [= <-]. cbn. by apply (Hr id).
Qed.

Lemma Inv_run_sync {A} (x : Sync A) s : pres J x -> Inv s -> Inv (run_sync x s).
Proof. intros Hx Hs. apply Inv_after_sync; [|done]. by apply Hx, Hs. Qed.

Lemma Inv_advance id j x s : J x.2 /\ good_step J x.1 -> Inv s -> Inv (advance deps id j x s).
Proof.
  intros [Hm Hg] Hs. unfold advance. destruct x.1 as [r|ws k].
  - apply Inv_run_sync; [by pres|]. split; [done|]. intros id' r' Hr. cbn in Hr.
    apply lookup_delete_Some in Hr as [_ Hr]. by apply (proj2 Hs id').
  - destruct (Inv_after_sync s x.2 Hm Hs) as [H1 H2]. split; [done|]. intros id' r'. cbn.
    intros [[<- <-]|[_ Hr]]%lookup_insert_Some; [|by apply (H2 id')]. cbn. intros y m' Hm'. by apply Hg.
Qed.

Lemma Inv_handle s t : Inv s -> Inv (handle deps s t).
Proof.
  intros Hs. unfold handle. destruct t; try (apply Inv_run_sync; [apply pres_sync_turn|done]).
  - destruct (running s !! id); [done|]. destruct (operations (mgr s) !! id) as [[|j l]|]; [done| |done].
    apply Inv_advance; [|done]. apply apres_run_work, Hs.
  - destruct (running s !! id) as [r|] eqn:E; [|done]. destruct (outcome _); [|done].
    apply Inv_advance; [|done]. apply (proj2 Hs _ _ E), Hs.
  - destruct (running s !! id) as [r|] eqn:E; [|done]. destruct (rn_wait r !! i) as [[w [x|]]|]; try done.
    split; [apply Hs|]. intros id' r'. cbn. intros [[<- <-]|[_ Hr]]%lookup_insert_Some.
    + cbn. by apply (proj2 Hs _ _ E).
    + by apply (proj2 Hs id').
Qed.

Lemma Inv_run l : forall s, Inv s -> Inv (run deps s l).
Proof. induction l as [|t l IH]; intros s Hs; [done|]. cbn. by apply IH, Inv_handle. Qed.

(** ** Restart *)

Definition B (m : Mgr) : Prop := budget (reg m).

Lemma pres_B_updateDep id p : pres B (updateDep id p).
Proof. by apply pres_modify. Qed.
Lemma pres_B_ev id t : pres B (ev id t).
Proof. by apply pres_modify. Qed.
Lemma pres_B_setIntent id b r : pres B (setIntent id b None r).
Proof.
  apply pres_modify. intros m Hm id'. cbn. rewrite intent_set. specialize (Hm id').
  destruct (String.eqb id id') eqn:E; [|done]. by apply String.eqb_eq in E as ->.
Qed.
#[local] Hint Resolve pres_B_updateDep pres_B_ev pres_B_setIntent : pres.
Lemma pres_B_origin u : pres B (externalOrigin u).
Proof. unfold externalOrigin. pres. Qed.
Lemma pres_B_external s : pres B (the_external s).
Proof. unfold the_external. pres. Qed.
Lemma pres_B_schedule id : pres B (scheduleRecovery deps id).
Proof. unfold scheduleRecovery. pres. Qed.
#[local] Hint Resolve pres_B_origin pres_B_external pres_B_schedule : pres.
Lemma pres_B_restore_one seen d : pres B (restore_one deps seen d).
Proof. unfold restore_one. pres. Qed.
#[local] Hint Resolve pres_B_restore_one : pres.
Lemma pres_B_restore_all l : forall seen, pres B (restore_all deps seen l).
Proof. induction l; intros seen; cbn [restore_all]; pres. Qed.

(** What is left of [l] may still be in service. *)
Definition pending_restore (l : list Deployment) (m : Mgr) : Prop :=
  forall x, x ∈ rg_deployments (reg m) -> x ∈ l \/ dep_state x <> ready.

Lemma pending_frame l m m' : rg_deployments (reg m') = rg_deployments (reg m) -> pending_restore l m -> pending_restore l m'.
Proof. unfold pending_restore. by intros ->. Qed.

(** A write to [d] alone settles it, if it leaves the state of [d] out of service. *)
Lemma pending_update d l p m : NoDup (dep_id <$> d :: l) -> pending_restore (d :: l) m ->
  dep_state (patched (now m) p d) <> ready ->
  (forall x, dep_state x <> ready -> dep_state (patched (now m) p x) <> ready) ->
  pending_restore l (set_reg (updateDeployment (now m) (dep_id d) p (reg m)) m).
Proof.
  intros Hnd Hp Hd Hx x Hin. cbn in Hin. apply NoDup_cons in Hnd as [Hni _].
  unfold updateDeployment, update_dep, update in Hin. cbn in Hin. apply list_elem_of_fmap in Hin as (x0 & -> & Hin).
  destruct (Hp x0 Hin) as [Hl|Hst]; destruct (String.eqb (dep_id x0) (dep_id d)) eqn:E; try (by right; auto).
  - right. apply elem_of_cons in Hl as [->|Hl]; [done|]. apply String.eqb_eq in E. destruct Hni. rewrite <-E.
    by apply list_elem_of_fmap_2.
  - apply elem_of_cons in Hl as [->|Hl]; [by rewrite String.eqb_refl in E|by left].
Qed.

Lemma pending_drop d l m : dep_state d <> ready -> pending_restore (d :: l) m -> pending_restore l m.
Proof. intros Hd Hp x Hx. destruct (Hp x Hx) as [Hl|?]; [|by right]. apply elem_of_cons in Hl as [->|?]; auto. Qed.

Definition settles l {A} (x : Sync A) (l' : list Deployment) : Prop :=
  spec (pending_restore l) x (fun _ => pending_restore l') (fun _ _ => True).

Lemma settles_ret l {A} (a : A) : settles l (mret a) l.
Proof. by apply spec_ret. Qed.
Lemma settles_bind l l1 l2 {A C} (x : Sync A) (f : A -> Sync C) :
  settles l x l1 -> (forall a, settles l1 (f a) l2) -> settles l (x ≫= f) l2.
Proof. intros. by eapply spec_bind. Qed.
(** At a given state, after the reads that choose the branch. *)
Lemma settles_at l l' {A} (x : Sync A) m : pending_restore l m -> settles l x l' ->
  match x m with (Ok _, m') => pending_restore l' m' | (Err _, _) => True end.
Proof. intros Hm Hx. exact (Hx m Hm). Qed.
Lemma settles_frame l f : (forall m, rg_deployments (reg (f m)) = rg_deployments (reg m)) -> settles l (mmodify f) l.
Proof. intros Hf. apply spec_modify. intros m. by apply pending_frame. Qed.
Lemma settles_schedule l id : settles l (scheduleRecovery deps id) l.
Proof.
  unfold scheduleRecovery. intros m Hm. unfold mbind at 1, M_bind at 1, mget. cbv beta iota.
  destruct (negb _); [done|]. apply (settles_at l l); [done|].
  eapply settles_bind; [|intros ?]; by apply settles_frame.
Qed.
Lemma settles_down d l s e err : NoDup (dep_id <$> d :: l) -> s <> ready ->
  settles (d :: l) (updateDep (dep_id d) (pt (Some s) None e err)) l.
Proof. intros Hnd Hs. apply spec_modify. intros m Hm. by apply pending_update. Qed.
Lemma settles_origin l u : settles l (externalOrigin u) l.
Proof. intros m Hm. unfold externalOrigin. by destruct (new_URL u). Qed.
Lemma settles_external l s : settles l (the_external s) l.
Proof. intros m Hm. unfold the_external. by destruct (ds_external s). Qed.

Lemma settles_restore_one seen d l : NoDup (dep_id <$> d :: l) -> settles (d :: l) (restore_one deps seen d) l.
Proof.
  intros Hnd m Hm. unfold restore_one. unfold mbind at 1, M_bind at 1, mget. cbv beta iota zeta.
  destruct (negb (di_running (intent m (dep_id d)))).
  - apply (settles_at (d :: l) l); [done|]. eapply settles_bind; [|intros; apply settles_ret].
    case_bool_decide as Hst; [by apply settles_down|].
    assert (dep_state d <> ready) as Hd by (intros E; apply Hst; rewrite E; left).
    destruct (present (dep_endpoint d)).
    + apply spec_modify. intros m' Hm'. by apply pending_update.
    + intros m' Hm'. by apply (pending_drop d).
  - destruct (bool_decide (ds_kind (dep_spec d) = external)).
    + apply (settles_at (d :: l) l); [done|]. eapply settles_bind; [apply settles_external|]. intros x.
      eapply settles_bind; [apply settles_origin|]. intros o. cbv zeta. case_bool_decide.
      * eapply settles_bind; [by apply settles_frame|]. intros ?. eapply settles_bind; [by apply settles_down|]. intros ?.
        eapply settles_bind; [by apply settles_frame|]. intros ?. apply settles_ret.
      * eapply settles_bind; [apply settles_down; [done|by destruct (existsb _ _)]|]. intros ?.
        eapply settles_bind; [|intros ?; apply settles_ret].
        unfold mwhen. destruct (negb _); [apply settles_schedule|apply settles_ret].
    + apply (settles_at (d :: l) l); [done|]. eapply settles_bind; [|intros; apply settles_ret].
      unfold mwhen. case_bool_decide as Hst; cbn [negb].
      * intros m' Hm'. apply (pending_drop d); [by rewrite Hst|done].
      * eapply settles_bind; [by apply settles_down|]. intros ?. apply settles_schedule.
Qed.

Lemma settles_restore_all l : forall seen, NoDup (dep_id <$> l) -> settles l (restore_all deps seen l) [].
Proof.
  induction l as [|d l IH]; intros seen Hnd; cbn [restore_all]; [apply settles_ret|].
  eapply settles_bind; [by apply settles_restore_one|]. intros seen'. apply IH. by apply NoDup_cons in Hnd as [_ ?].
Qed.

Lemma budget_open r : budget r -> budget (open_registry r).
Proof.
  assert (forall ds l, (forall id, 0 <= di_attempts (default no_intent (ir_intent <$> row ir_deploymentId id l)) <= MAX_RECOVERY_ATTEMPTS) ->
    forall id, 0 <= di_attempts (default no_intent (ir_intent <$> row ir_deploymentId id (foldl backfill_intent l ds))) <= MAX_RECOVERY_ATTEMPTS) as Hf.
  { induction ds as [|d ds IH]; intros l Hl; [done|]. cbn [foldl]. apply IH. intros id. unfold backfill_intent.
    destruct (row ir_deploymentId (dep_id d) l); [done|]. rewrite row_snoc. specialize (Hl id).
    destruct (row ir_deploymentId id l); [done|]. cbn. destruct (String.eqb (dep_id d) id); [|done].
    cbn. unfold MAX_RECOVERY_ATTEMPTS. lia. }
  intros Hb id. unfold deploymentIntent. cbn. by apply Hf.
Qed.

Lemma restore_dedup l : NoDup (dep_id <$> l) -> NoDup (dep_id <$> js_sort (restore_le) (desc dep_createdAt l)).
Proof. intros Hnd. unfold desc. by rewrite !js_sort_perm. Qed.

(** A restart withdraws every route before anything else happens. *)
Lemma restore_runs l : forall m, exists m', mfor l restore_run m = (Ok tt, m') /\
  rg_deployments (reg m') = rg_deployments (reg m) /\ rg_intents (reg m') = rg_intents (reg m).
Proof.
  induction l as [|x l IH]; intros m; [by exists m|]. cbn [mfor]. unfold mbind, M_bind. change (restore_run x m) with ((if bool_decide (fr_status x = s_applying) then regw (fun t => saveFleetRun (interrupted t x)) else mret tt) m).
  destruct (bool_decide (fr_status x = s_applying)); [|apply IH]. unfold regw, mmodify.
  destruct (IH (set_reg (saveFleetRun (interrupted (now m) x) (reg m)) m)) as (m' & Hm & H1 & H2).
  exists m'. split; [exact Hm|done].
Qed.

Lemma restore_J r t : wf r -> budget r -> (restore deps (fresh_manager r t)).1 = Ok tt ->
  J (restore deps (fresh_manager r t)).2.
Proof.
  intros Hwf Hb Hok. unfold restore in *. unfold mbind, M_bind, mget in *. cbn [fst snd] in *.
  destruct (restore_runs (fleetRuns (reg (fresh_manager r t))) (fresh_manager r t)) as (m & Hm & Hds & Hdi). rewrite Hm in *.
  set (l := js_sort restore_le (listDeployments (reg m))) in *.
  assert (NoDup (dep_id <$> l)) as Hnd by (apply restore_dedup; rewrite Hds; apply Hwf).
  assert (pending_restore l m) as Hp.
  { intros x Hx. left. unfold l, listDeployments, desc. by rewrite !js_sort_elem. }
  split.
  - pose proof (settles_restore_all l [] Hnd m Hp) as Hs. destruct (restore_all deps [] l m) as [[[]|e] m']; [|done].
    intros d Hd Hr. by destruct (Hs d Hd) as [?%elem_of_nil|?].
  - apply (pres_B_restore_all l [] m). unfold B, budget, deploymentIntent. rewrite Hdi. by apply budget_open.
Qed.

Lemma boot_Inv r t : wf r -> budget r -> (restore deps (fresh_manager r t)).1 = Ok tt -> Inv (boot deps r t).
Proof.
  intros Hwf Hb Hok. split.
  - eapply J_frame; [| |by apply restore_J]; done.
  - intros id x. cbn. by rewrite lookup_fmap, lookup_empty.
Qed.

Lemma push_group_in {A} (k k0 : string) (x x0 : A) g xs : (k, xs) ∈ push_group k0 x0 g -> x ∈ xs ->
  (exists ys, (k, ys) ∈ g /\ x ∈ ys) \/ (k, x) = (k0, x0).
Proof.
  induction g as [|[k' ys] g IH]; cbn.
  - intros [= -> ->]%list_elem_of_singleton ->%list_elem_of_singleton. by right.
  - destruct (String.eqb k' k0) eqn:E; intros [Heq|Hin]%elem_of_cons Hx.
    + injection Heq as -> ->. apply elem_of_app in Hx as [Hx|Hx].
      * left. exists ys. split; [left|done].
      * apply list_elem_of_singleton in Hx as ->. apply String.eqb_eq in E as ->. by right.
    + left. exists xs. split; [by right|done].
    + injection Heq as -> ->. left. exists ys. split; [left|done].
    + destruct (IH Hin Hx) as [(zs & Hz & Hx')|?]; [|by right]. left. exists zs. split; [by right|done].
Qed.

Lemma grouped_routes {A} (l : list (string * A)) : forall g k xs x,
  (k, xs) ∈ foldl (fun g x => push_group x.1 x.2 g) g l -> x ∈ xs ->
  (exists ys, (k, ys) ∈ g /\ x ∈ ys) \/ (k, x) ∈ l.
Proof.
  induction l as [|y l IH]; intros g k xs x Hin Hx; cbn in *; [eauto|].
  destruct (IH _ _ _ _ Hin Hx) as [(ys & Hy & Hx')|?]; [|by right; right].
  destruct (push_group_in _ _ _ _ _ _ Hy Hx') as [?|Heq]; [by left|]. right. rewrite Heq. destruct y. left.
Qed.

(** C1: The router only ever sees deployments that are wanted.  From a restart over any registry, after
    any sequence of messages, disconnects, API calls, sweeps, timeouts and job continuations: every
    route the router is offered belongs to a deployment that is ready, whose owner's intent is that it
    runs, and whose nodes do not include the node holding the update lease. *)
Theorem routes_follow_intent r t l : wf r -> budget r -> (restore deps (fresh_manager r t)).1 = Ok tt ->
  let m := mgr (run deps (boot deps r t) l) in
  forall g m', routing m = (Ok g, m') ->
  forall model routes x, (model, routes) ∈ g -> x ∈ routes ->
    exists d, d ∈ rg_deployments (reg m) /\ ro_id x = dep_id d /\ dep_state d = ready /\
      (exists port, dep_endpoint d = Some (ro_nodeId x, port, model)) /\ di_running (intent m (dep_id d)) = true /\
      forall le, updateLease m' = Some le -> le_nodeId le ∉ ro_nodes x.
Proof.
  intros Hwf Hb Hok m g m' Hg model routes x Hin Hx.
  assert (J m) as [Hs _] by (apply Inv_run, boot_Inv; done).
  unfold routing in Hg. unfold mbind, M_bind, mget, mret, M_ret in Hg.
  destruct (updatingNode m) as [[u|e] m1] eqn:Hu; [|done]. injection Hg as <- <-.
  assert (reg m1 = reg m /\ u = le_nodeId <$> updateLease m1) as [Hreg Hu1].
  { unfold updatingNode in Hu. destruct (updateLease m) as [le|] eqn:El; [destruct (_ <=? _)|]; injection Hu as <- <-; done. }
  destruct (grouped_routes _ _ _ _ _ Hin Hx) as [(ys & Hy%elem_of_nil & _)|Hr]; [done|].
  apply list_elem_of_omap in Hr as (d & Hd & Hr). exists d. unfold listDeployments, desc in Hd.
  rewrite js_sort_elem, Hreg in Hd. unfold route_of in Hr.
  destruct (dep_state d) eqn:Hst; try done. destruct (dep_endpoint d) as [[[n p] name]|] eqn:He; [|done].
  case_bool_decide as Hup; [done|]. injection Hr as <- <-. cbn.
  split_and!; [done..|by eexists|by apply Hs|]. intros le Hle. rewrite Hu1, Hle in Hup. exact Hup.
Qed.

(** Automatic recovery is bounded: after any sequence of turns the attempts recorded for a deployment
    are between 0 and 5. *)
Theorem recovery_budget_kept r t l : wf r -> budget r -> (restore deps (fresh_manager r t)).1 = Ok tt ->
  forall id, 0 <= di_attempts (intent (mgr (run deps (boot deps r t) l)) id) <= MAX_RECOVERY_ATTEMPTS.
Proof. intros Hwf Hb Hok. by apply Inv_run, boot_Inv. Qed.
End facts.

(** ** On the small fleet *)

Lemma sc_registry_wf : wf sc_registry.
Proof. split; cbn; try constructor; try apply not_elem_of_nil; try constructor. by intros d ?%elem_of_nil. Qed.
Lemma sc_registry_budget : budget sc_registry.
Proof. intros id. change (0 <= 0 <= MAX_RECOVERY_ATTEMPTS). unfold MAX_RECOVERY_ATTEMPTS. lia. Qed.

Lemma sc_restored : (restore sc_deps (fresh_manager sc_registry 1000)).1 = Ok tt.
Proof. vm_compute. reflexivity. Qed.

Lemma sc_routing : exists x routes rest m', routing (mgr sc_ready) = (Ok (("m", x :: routes) :: rest), m').
Proof.
  pose proof sc_ready_routes as Hr. unfold route_ids in Hr.
  destruct (routing (mgr sc_ready)) as [[[|[model [|x routes]] rest]|e] m']; cbn in Hr; try discriminate Hr.
  injection Hr as -> _ _ _. by eexists _, _, _, _.
Qed.

Lemma routes_follow_intent_witness :
  exists d, d ∈ rg_deployments (reg (mgr sc_ready)) /\ dep_state d = ready /\
    di_running (intent (mgr sc_ready) (dep_id d)) = true.
Proof.
  destruct sc_routing as (x & routes & rest & m' & Hg).
  destruct (routes_follow_intent sc_deps sc_registry 1000 sc_turns sc_registry_wf sc_registry_budget sc_restored
    _ _ Hg _ (x :: routes) x (list_elem_of_here _ _) (list_elem_of_here _ _)) as (d & H1 & _ & H2 & _ & H3 & _).
  exact (ex_intro _ d (conj H1 (conj H2 H3))).
Defined.

Lemma recovery_budget_kept_witness :
  let m := mgr (run sc_deps (boot sc_deps sc_registry 1000) sc_failing) in
  di_attempts (intent m "dep-0") = 1 /\ di_attempts (intent m "dep-0") <= MAX_RECOVERY_ATTEMPTS.
Proof.
  split; [exact sc_failing_attempt|].
  exact (proj2 (recovery_budget_kept sc_deps sc_registry 1000 sc_failing sc_registry_wf sc_registry_budget sc_restored "dep-0")).
Defined.
