(* ===== verification/JobFacts.v ===== *)
(** * Deployment jobs: what starts wait for and what stops prove

    Jobs run in segments between awaits; whatever other turns do in between, the next segment starts
    from an arbitrary state.  [rpres R x]: the synchronous method [x] keeps the relation [R] to any
    earlier state; [leads R Q x]: every segment of [x] keeps it, and [Q] holds when [x] gets through.
    [runs] and [dispatches_from] are the executions of one job. *)

From S2P Require Import Prelude Async Rules JsNum Json Types Validate PhasePlan Planner Resources Fleet Topology Registry Manager Deployments Allocation ControlLoop Scenario.

Local Open Scope Z_scope.

(** ** Executions of one job *)

(** [x] runs to its end: each segment resumes with some outcome in some state. *)
Inductive runs {A} : Step A * Mgr -> result string A * Mgr -> Prop :=
  | runs_fin r m : runs (Fin r, m) (r, m)
  | runs_resume ws k m r m' res : runs (k r m') res -> runs (Susp ws k, m) res.

Lemma runs_arrives {A} R (Q : A -> Mgr -> Prop) x res : runs x res ->
  forall m, arrives R Q m x.1 x.2 -> match res with (Ok a, m') => Q a m' | _ => True end.
Proof.
  induction 1 as [[a|e] m|ws k m r m' res Hr IH]; intros m0 [H1 H2]; try done. by apply (IH m').
Qed.

Lemma leads_await R `{!PreOrder R} ws : leads R any (await_all ws).
Proof.
  intros m. unfold await_all. destruct (head _); cbn; [split; [reflexivity|done]|].
  destruct (List.filter _ _); cbn; split; try done; try reflexivity.
  intros [[]|e] m'; cbn; split; try done; reflexivity.
Qed.

(** What was written to agents other than stops *)
Definition engine (a : Assignment) : bool := match a with AStop _ => false | _ => true end.
Definition engines (m : Mgr) : list (string * Assignment) := List.filter (fun x => engine x.2) (sent m).

(** [p] is the state in which the first segment of [x] that writes an engine to an agent begins. *)
Inductive dispatches_from {A} : Mgr -> Step A * Mgr -> Mgr -> Prop :=
  | dispatches_now m s m' : engines m' <> engines m -> dispatches_from m (s, m') m
  | dispatches_later m ws k m' r m2 p :
      engines m' = engines m -> dispatches_from m2 (k r m2) p -> dispatches_from m (Susp ws k, m') p.

(** ** Segments that write no engine *)

Definition silent (m m' : Mgr) : Prop := engines m' = engines m.
#[local] Instance silent_pre : PreOrder silent.
Proof. split; [done|]. intros x y z. unfold silent. congruence. Qed.

Definition placed (r : AssignmentRow) : string * string * string * option AssignmentState :=
  (ar_id r, ar_deploymentId r, ar_nodeId r, ar_state r).

(** Nor changes what [teardown] waits for. *)
Definition idle (m m' : Mgr) : Prop :=
  engines m' = engines m /\ conns m' = conns m /\ quiet m' = quiet m /\
  placed <$> rg_assignments (reg m') = placed <$> rg_assignments (reg m).
#[local] Instance idle_pre : PreOrder idle.
Proof. split; [done|]. intros x y z (?&?&?&?) (?&?&?&?). unfold idle. split_and!; congruence. Qed.

Definition total (_ _ : Mgr) : Prop := True.
#[local] Instance total_pre : PreOrder total.
Proof. by split. Qed.

Lemma idle_silent m m' : idle m m' -> silent m m'.
Proof. by intros []. Qed.

Lemma elem_rows m id r : r ∈ rows m id <->
  r ∈ rg_assignments (reg m) /\ (ar_deploymentId r = id \/ id = ""%string).
Proof.
  unfold rows, listAssignments, asc. rewrite js_sort_elem. destruct (String.eqb id "") eqn:E.
  - apply String.eqb_eq in E. naive_solver.
  - rewrite list_elem_of_In, filter_In, <-list_elem_of_In. rewrite String.eqb_eq. apply String.eqb_neq in E. naive_solver.
Qed.

Lemma pending_none m abandon id : pending_rows m abandon id = [] <->
  forall r, r ∈ rows m id -> is_stopped r = true \/ (abandon = true /\ online m (ar_nodeId r) = false).
Proof.
  unfold pending_rows. split.
  - intros Hn r Hr. destruct (negb (is_stopped r) && negb (abandon && negb (online m (ar_nodeId r)))) eqn:E.
    + assert (r ∈ (@nil AssignmentRow)) as ?%elem_of_nil; [|done]. rewrite <-Hn.
      apply list_elem_of_In, filter_In. by rewrite <-list_elem_of_In.
    + destruct (is_stopped r), abandon, (online m (ar_nodeId r)); auto; discriminate.
  - intros Ha. destruct (List.filter _ _) as [|r l] eqn:E; [done|]. exfalso.
    assert (r ∈ r :: l) as Hr by left. rewrite <-E, list_elem_of_In, filter_In, <-list_elem_of_In in Hr.
    destruct Hr as [Hr Hb]. destruct (Ha r Hr) as [E1|[E1 E2]]; rewrite ?E1, ?E2, ?andb_false_r in Hb; done.
Qed.

Lemma pending_idle m m' abandon id : idle m m' -> pending_rows m' abandon id = [] -> pending_rows m abandon id = [].
Proof.
  intros (_ & Hc & Hq & Hp). rewrite !pending_none. intros Ha r [Hr Hid]%elem_rows.
  apply (list_elem_of_fmap_2 placed) in Hr. rewrite <-Hp in Hr. apply list_elem_of_fmap in Hr as (r' & Heq & Hr).
  injection Heq as _ Hd Hn Hs.
  destruct (Ha r') as [Hst|[-> Hon]].
  - apply elem_rows. by rewrite <-Hd.
  - left. unfold is_stopped. by rewrite Hs.
  - right. split; [done|]. rewrite Hn. revert Hon. unfold online. by rewrite Hc, Hq.
Qed.

Section jobs.
Context `{Host} (deps : Deps).

Lemma idle_modify f : (forall m, idle m (f m)) -> rpres idle (mmodify f).
Proof. intros Hf m0. apply pres_modify. intros m Hm. by etrans. Qed.
Lemma idle_ev id t : rpres idle (ev id t).
Proof. by apply idle_modify. Qed.
Lemma idle_updateDep id p : rpres idle (updateDep id p).
Proof. by apply idle_modify. Qed.
Lemma idle_send_stop n i d : rpres idle (send_stop n i d).
Proof.
  intros m0. unfold send_stop. apply pres_bind; [|intros; apply pres_ret]. intros m Hm. unfold send.
  destruct (_ && _); [|done]. cbn. etrans; [exact Hm|]. split_and!; try done.
  unfold engines. cbn. rewrite List.filter_app. cbn. by rewrite app_nil_r.
Qed.
Lemma idle_retire i : rpres idle (regw (fun _ => retireAssignment i)).
Proof.
  apply idle_modify. intros m. split_and!; try done. cbn. unfold update. rewrite <-list_fmap_compose.
  apply list_fmap_ext. intros j x _. cbn. by destruct (String.eqb _ _).
Qed.

Lemma idle_stop_row id abandon r : leads idle any (stop_row id abandon r).
Proof.
  unfold stop_row. apply (leads_bind_any idle).
  - apply (leads_lift_any idle). intros m0. apply pres_bind; [apply idle_retire|]. intros _. apply idle_send_stop.
  - intros _. apply (leads_bind_any idle); [apply (leads_lift_any idle); by intros m0 m|]. intros m.
    destruct (abandon && _).
    + apply (leads_lift_any idle). apply idle_ev.
    + apply (leads_bind_any idle).
      * apply (leads_catch idle); [apply (leads_await idle)|]. intros e. apply (leads_ret idle).
      * intros _. apply (leads_bind_any idle); [apply (leads_lift_any idle); by intros m0 m'|]. intros m'.
        destruct (closed m'); [apply (leads_throw idle)|apply (leads_ret idle)].
Qed.
Lemma idle_stop_rows id abandon l : leads idle any (stop_rows id abandon l).
Proof.
  induction l as [|r l IH]; cbn [stop_rows]; [apply (leads_ret idle)|].
  apply (leads_bind_any idle); [apply idle_stop_row|]. by intros _.
Qed.

(** [teardown] finishes only when nothing it answers for may still run. *)
Lemma teardown_leads id abandon : leads idle (fun _ m => pending_rows m abandon id = []) (teardown id abandon).
Proof.
  unfold teardown. apply (leads_bind_any idle); [apply (leads_lift_any idle); by intros m0 m|]. intros m.
  destruct (closed m); [apply (leads_throw idle)|]. cbv zeta.
  apply (leads_bind_any idle); [apply idle_stop_rows|]. intros _. intros m1. rewrite async_get.
  destruct (pending_rows m1 abandon id) eqn:E; by split.
Qed.

(** C10: A stopped deployment really is: whatever happens between the segments of a stop job (reports,
    disconnects, timeouts, other API calls), when the job succeeds every assignment of the deployment
    has been acknowledged as stopped, and the deployment is recorded as stopped. *)
Theorem stop_acknowledged id m m' : runs (run_work deps id WStop m) (Ok tt, m') ->
  (forall r, r ∈ rows m' id -> ar_state r = Some a_stopped) /\
  (forall d, getDeployment (reg m') id = Some d -> dep_state d = stopped).
Proof.
  intros Hr. assert (leads total (fun (_ : unit) m' => pending_rows m' false id = [] /\
    forall d, getDeployment (reg m') id = Some d -> dep_state d = stopped) (run_work deps id WStop)) as Hl.
  { cbn [run_work]. eapply (leads_bind total).
    - intros m0. eapply arrives_mono; [| |apply teardown_leads]; [done|]. intros a m1 Hp. exact Hp.
    - intros [] m1 Hp. split; [done|]. cbn. split; [exact Hp|]. intros d.
      change (row dep_id id (update dep_id id (patched (now m1) (pt (Some stopped) None None None)) (rg_deployments (reg m1))) =
        Some d -> dep_state d = stopped).
      rewrite row_update by (by intros). rewrite String.eqb_refl. intros (d0 & _ & ->)%fmap_Some. done. }
  destruct (runs_arrives _ _ _ _ Hr m (Hl m)) as [Hp Hd]. split; [|done].
  intros r Hin. rewrite pending_none in Hp. destruct (Hp r Hin) as [Hs|[? _]]; [|done].
  unfold is_stopped in Hs. by apply bool_decide_eq_true in Hs.
Qed.

(** ** Segments that write an engine *)

(** A first segment never takes a message back. *)
Definition grows {A} (x : Async A) : Prop := forall m, (length (engines m) <= length (engines (x m).2))%nat.
(** It writes an engine, or finishes without one. *)
Definition prompt {A} (x : Async A) : Prop := forall m,
  (length (engines m) < length (engines (x m).2))%nat \/ (silent m (x m).2 /\ exists r, (x m).1 = Fin r).
(** It writes an engine, or fails without one. *)
Definition writes {A} (x : Async A) : Prop := forall m,
  (length (engines m) < length (engines (x m).2))%nat \/ (silent m (x m).2 /\ exists e, (x m).1 = Fin (Err e)).

Lemma prompt_grows {A} (x : Async A) : prompt x -> grows x.
Proof. intros Hx m. destruct (Hx m) as [?|[Hs _]]; [lia|]. by rewrite Hs. Qed.
Lemma writes_prompt {A} (x : Async A) : writes x -> prompt x.
Proof. intros Hx m. destruct (Hx m) as [?|[? [e ?]]]; eauto. Qed.

Lemma grows_bind {A B} (x : Async A) (f : A -> Async B) : grows x -> (forall a, grows (f a)) -> grows (x ≫= f).
Proof.
  intros Hx Hf m. specialize (Hx m). rewrite bind_first. destruct (x m) as [[[a|e]|ws k] m']; cbn in *; try lia.
  specialize (Hf a m'). lia.
Qed.
Lemma prompt_bind {A B} (x : Async A) (f : A -> Async B) : prompt x -> (forall a, prompt (f a)) -> prompt (x ≫= f).
Proof.
  intros Hx Hf m. specialize (Hx m). rewrite bind_first. destruct (x m) as [[[a|e]|ws k] m']; cbn in *.
  - destruct Hx as [Hx|[Hx _]].
    + left. pose proof (prompt_grows _ (Hf a) m'). lia.
    + unfold silent in *. destruct (Hf a m') as [Hf'|[Hf' Hr]]; rewrite <-Hx; [by left|]. right. by rewrite Hf'.
  - destruct Hx as [?|[? _]]; eauto.
  - destruct Hx as [?|[? [r ?]]]; [by left|done].
Qed.
Lemma writes_bind {A B} (x : Async A) (f : A -> Async B) : writes x -> (forall a, grows (f a)) -> writes (x ≫= f).
Proof.
  intros Hx Hf m. specialize (Hx m). rewrite bind_first. destruct (x m) as [[[a|e]|ws k] m']; cbn in *.
  - destruct Hx as [Hx|[Hx [e He]]]; [|done]. left. specialize (Hf a m'). lia.
  - destruct Hx as [?|[? _]]; eauto.
  - destruct Hx as [?|[? [r ?]]]; [by left|done].
Qed.
Lemma prompt_lift {A} (x : Sync A) : rpres silent x -> prompt (lift x).
Proof.
  intros Hx m. right. pose proof (rpres_at silent x m Hx) as Hs. unfold lift. destruct (x m) as [r m']. eauto.
Qed.
Lemma grows_await ws : grows (await_all ws).
Proof. intros m. unfold await_all. destruct (head _); [done|]. by destruct (List.filter _ _). Qed.

Lemma assign_cases n a m :
  assign n a m =
    let m' := set_reg (putAssignment (now m) a n (reg m)) m in
    if bool_decide (n ∈ conns m) && write_ok n (length (sent m)) then (Ok true, set_sent (sent m ++ [(n, a)]) m')
    else (Ok false, m').
Proof. done. Qed.

Lemma writes_assign n a why : engine a = true -> writes (assign_or_throw n a why).
Proof.
  intros Ha m. unfold assign_or_throw. rewrite async_lift, assign_cases. cbv zeta. destruct (_ && _).
  - left. unfold engines. cbn. rewrite List.filter_app, length_app. cbn. rewrite Ha. cbn. lia.
  - right. split; [exact eq_refl|]. by eexists.
Qed.
Lemma assign_all_first check l : rpres silent check -> Forall (fun x => engine x.2 = true) l -> l <> [] ->
  writes (assign_all check l).
Proof.
  intros Hc Hl Hn. destruct l as [|[n a] l]; [done|]. cbn [assign_all]. intros m. rewrite async_lift.
  pose proof (rpres_at silent check m Hc) as Hs. destruct (check m) as [[[]|e] m']; cbn in Hs.
  - apply Forall_cons in Hl as [Ha Hl]. unfold silent in *. rewrite <-Hs.
    refine (writes_bind (assign_or_throw n a (offline_text n)) (fun _ => assign_all check l) _ _ m'); [by apply writes_assign|].
    intros _. clear Hn Hs m m'. induction l as [|[n' a'] l IH]; cbn [assign_all]; [by intros m|].
    apply Forall_cons in Hl as [Ha' Hl]. apply grows_bind; [by apply prompt_grows, prompt_lift|]. intros _.
    apply grows_bind; [by apply prompt_grows, writes_prompt, writes_assign|]. intros _. by apply IH.
  - right. split; [done|]. by eexists.
Qed.

(** The starters: what they do before their first assignment is silent. *)
Lemma silent_modify f : (forall m, sent (f m) = sent m) -> rpres silent (mmodify f).
Proof. intros Hf m0. apply pres_modify. intros m Hm. unfold silent, engines in *. by rewrite Hf. Qed.
Lemma silent_regw f : rpres silent (regw f).
Proof. by apply silent_modify. Qed.
Lemma silent_new_id p : rpres silent (new_id p).
Proof. intros m0 m Hm. exact Hm. Qed.
Lemma silent_updatingNode : rpres silent updatingNode.
Proof. intros m0 m Hm. unfold updatingNode. cbn. destruct (updateLease m) as [l|]; [|done]. by destruct (_ <=? _). Qed.
#[local] Hint Extern 3 (pres (silent _) (mmodify _)) => (apply silent_modify; reflexivity) : pres.
#[local] Hint Extern 3 (pres (silent _) (regw _)) => (apply silent_regw) : pres.
#[local] Hint Extern 3 (pres (silent _) (new_id _)) => (apply silent_new_id) : pres.
#[local] Hint Extern 3 (pres (silent _) (updateDep _ _)) => (apply silent_regw) : pres.
#[local] Hint Extern 3 (pres (silent _) (setIntent _ _ _ _)) => (apply silent_regw) : pres.
#[local] Hint Extern 3 (pres (silent _) (ev _ _)) => (apply silent_regw) : pres.
#[local] Hint Extern 3 (pres (silent _) updatingNode) => (apply silent_updatingNode) : pres.

Lemma silent_node i : rpres silent (node i).
Proof. intros m0. unfold node. pres. Qed.
Lemma silent_profile i : rpres silent (the_profile deps i).
Proof. intros m0. unfold the_profile. pres. Qed.
Lemma silent_plan s u r e : rpres silent (plan deps s u r e).
Proof. intros m0. unfold plan. pres. Qed.
Lemma silent_blocked i p : rpres silent (blockedUntil i p).
Proof. intros m0. unfold blockedUntil. pres. Qed.
Lemma silent_assertRunning i g : rpres silent (assertRunning i g).
Proof. intros m0. unfold assertRunning. pres. Qed.
#[local] Hint Extern 3 (pres (silent _) (node _)) => (apply silent_node) : pres.
#[local] Hint Extern 3 (pres (silent _) (the_profile _ _)) => (apply silent_profile) : pres.
#[local] Hint Extern 3 (pres (silent _) (plan _ _ _ _ _)) => (apply silent_plan) : pres.
#[local] Hint Extern 3 (pres (silent _) (blockedUntil _ _)) => (apply silent_blocked) : pres.
#[local] Hint Extern 3 (pres (silent _) (assertRunning _ _)) => (apply silent_assertRunning) : pres.
Lemma silent_planFor d : rpres silent (planFor deps d).
Proof. intros m0. unfold planFor. pres. Qed.
#[local] Hint Extern 3 (pres (silent _) (planFor _ _)) => (apply silent_planFor) : pres.

Lemma grows_lift {A} (x : Sync A) : rpres silent x -> grows (lift x).
Proof. intros Hx. by apply prompt_grows, prompt_lift. Qed.
Lemma writes_dispatch n a s : engine a = true -> writes (dispatch n a s).
Proof. intros Ha. apply writes_bind; [by apply writes_assign|]. intros _. apply grows_await. Qed.

Lemma prompt_external dep gen : prompt (startExternal dep gen).
Proof.
  unfold startExternal. apply prompt_bind.
  - apply prompt_lift. intros m0. unfold the_external, url_of. pres.
  - intros [[[ext n] u] a]. apply writes_prompt, writes_bind; [by apply writes_dispatch|]. intros _.
    apply grows_lift. intros m0. unfold go_ready. pres.
Qed.
Lemma prompt_replica dep gen : prompt (startReplica deps dep gen).
Proof.
  unfold startReplica. apply prompt_bind; [apply prompt_lift; intros m0; pres|].
  intros [[n a] p]. apply writes_prompt, writes_bind; [by apply writes_dispatch|]. intros _.
  apply grows_lift. intros m0. unfold go_ready. pres.
Qed.

(** What a synchronous head returns *)
Definition yields {A} (x : Sync A) (P : A -> Prop) : Prop := forall m a m', x m = (Ok a, m') -> P a.
Lemma yields_bind {A B} (x : Sync A) (f : A -> Sync B) P P' : yields x P -> (forall a, P a -> yields (f a) P') ->
  yields (x ≫= f) P'.
Proof.
  intros Hx Hf m b m'. unfold mbind, M_bind. destruct (x m) as [[a|e] m1] eqn:E; [|done].
  apply Hf. by eapply Hx.
Qed.
Lemma yields_any {A} (x : Sync A) : yields x (fun _ => True).
Proof. done. Qed.
Lemma yields_ret {A} (a : A) (P : A -> Prop) : P a -> yields (mret a) P.
Proof. intros Ha m b m' [= <- _]. exact Ha. Qed.
Lemma yields_map {A B} (P : B -> Prop) (l : list A) (body : nat -> A -> Sync B) : (forall i x, yields (body i x) P) ->
  forall i, yields (mmap_i i l body) (Forall P).
Proof.
  intros Hb. induction l as [|x l IH]; intros i; cbn; [by apply yields_ret|].
  eapply yields_bind; [apply Hb|]. intros y Hy. eapply yields_bind; [apply IH|]. intros ys Hys.
  apply yields_ret. by constructor.
Qed.

Lemma prompt_lift_bind {A B} (x : Sync A) (f : A -> Async B) P : rpres silent x -> yields x P ->
  (forall a, P a -> prompt (f a)) -> prompt (lift x ≫= f).
Proof.
  intros Hx HP Hf m. rewrite async_lift. pose proof (rpres_at silent x m Hx) as Hs. specialize (HP m).
  destruct (x m) as [[a|e] m'].
  - specialize (HP a m' eq_refl). unfold silent in *. cbn in Hs. rewrite <-Hs. by apply Hf.
  - right. split; [done|]. by eexists.
Qed.

(** Assigning a list and waiting for it, with a rest that is itself prompt when the list is empty *)
Lemma prompt_assign_all {B} check l ws (f : unit -> Async B) : rpres silent check ->
  Forall (fun x => engine x.2 = true) l -> (l = [] -> ws = []) -> (forall u, prompt (f u)) ->
  prompt (assign_all check l ;; await_all ws ;; f tt).
Proof.
  intros Hc Hl Hw Hf. destruct l as [|x l].
  - rewrite Hw by done. cbn [assign_all]. intros m. apply (Hf tt m).
  - apply writes_prompt, writes_bind; [by apply assign_all_first|]. intros _.
    apply grows_bind; [apply grows_await|]. intros _. by apply prompt_grows.
Qed.

Definition all_engines (l : list (string * Assignment)) : Prop := Forall (fun x => engine x.2 = true) l.

Lemma prompt_native dep gen : prompt (startNative deps dep gen).
Proof.
  unfold startNative. apply (prompt_lift_bind _ _ (fun x => all_engines x.2)).
  - intros m0. pres.
  - eapply yields_bind; [apply yields_any|]. intros m _. eapply yields_bind; [apply yields_any|]. intros p _.
    destruct (pl_nativeExecution p) as [np|]; [|done]. eapply yields_bind; [apply yields_any|]. intros _ _.
    eapply yields_bind; [|intros l Hl; by apply yields_ret]. apply yields_map. intros i w.
    eapply yields_bind; [apply yields_any|]. intros aid _. by apply yields_ret.
  - intros [[p np] l] Hl. cbn [snd] in Hl.
    refine (prompt_assign_all _ _ _ (fun _ => lift _) _ Hl _ _).
    + intros m0. pres.
    + by intros ->.
    + intros _. apply prompt_lift. intros m0. unfold go_ready. pres.
Qed.
Lemma prompt_split dep gen : prompt (startSplit deps dep gen).
Proof.
  unfold startSplit. apply (prompt_lift_bind _ _ (fun x => all_engines x.2)).
  - intros m0. pres.
  - eapply yields_bind; [apply yields_any|]. intros p _. eapply yields_bind; [apply yields_any|]. intros _ _.
    eapply yields_bind; [apply yields_any|]. intros coord _. eapply yields_bind; [apply yields_any|]. intros ws _.
    eapply yields_bind; [apply yields_any|]. intros pr _.
    eapply yields_bind; [|intros l Hl; by apply yields_ret]. apply yields_map. intros i w.
    eapply yields_bind; [apply yields_any|]. intros aid _. by apply yields_ret.
  - intros [[[[p pr] coord] ws] l] Hl. cbn [snd] in Hl.
    refine (prompt_assign_all _ _ _ (fun _ => lift _ ≫= _) _ Hl _ _).
    + intros m0. pres.
    + by intros ->.
    + intros _. apply prompt_bind; [apply prompt_lift; intros m0; pres|]. intros c.
      apply writes_prompt, writes_bind; [by apply writes_assign|]. intros _.
      apply grows_bind; [apply grows_await|]. intros _. apply grows_lift. intros m0. unfold go_ready. pres.
Qed.
Lemma prompt_start_kind dep gen : prompt (start_kind deps dep gen).
Proof.
  unfold start_kind.
  destruct (ds_kind (dep_spec dep)); auto using prompt_external, prompt_replica, prompt_native, prompt_split.
Qed.

(** ** Starting waits for cleanup *)

(** Until a segment begins with nothing pending, no segment writes an engine. *)
Fixpoint guarded (abandon : bool) (id : string) {A} (m : Mgr) (s : Step A) (m' : Mgr) : Prop :=
  (pending_rows m abandon id = [] /\ (length (engines m) < length (engines m'))%nat) \/
  (silent m m' /\
   match s with
   | Fin _ => True
   | Susp _ k => forall r m, guarded abandon id m (k r m).1 (k r m).2
   end).

Lemma guarded_silent abandon id {A} (s : Step A) Q : forall m m', arrives silent Q m s m' -> guarded abandon id m s m'.
Proof.
  induction s as [[a|e]|ws k IH] using step_ind; intros m m' [H1 H2]; right; split; try done.
  intros r m2. by apply IH.
Qed.

(** A quiet part that arrives with nothing pending, and a prompt rest *)
Lemma guarded_bind abandon id {A B} (f : A -> Async B) : (forall a, prompt (f a)) ->
  forall (s : Step A) m0 m, arrives idle (fun _ m => pending_rows m abandon id = []) m0 s m ->
  guarded abandon id m0 (step_bind s f m).1 (step_bind s f m).2.
Proof.
  intros Hf s. induction s as [[a|e]|ws k IH] using step_ind; intros m0 m [H0 H1]; cbn [step_bind].
  - pose proof (idle_silent _ _ H0) as Hs. unfold silent in Hs. destruct (Hf a m) as [Hw|[Hq [r Hr]]].
    + destruct (f a m) as [s' m']. assert (guarded abandon id m0 s' m') as ?; [|done].
      destruct s'; left; (split; [by eapply pending_idle|by rewrite <-Hs]).
    + rewrite Hr. right. split; [|done]. unfold silent in *. congruence.
  - right. split; [by apply idle_silent|done].
  - right. split; [by apply idle_silent|]. intros r m'. specialize (IH r m' m' (k r m').2 (H1 r m')).
    by destruct (k r m') as [s' m''].
Qed.

Lemma guarded_catch abandon id {A} (h : string -> Async A) : (forall e, leads silent any (h e)) ->
  forall (s : Step A) m0 m, guarded abandon id m0 s m -> guarded abandon id m0 (step_catch s h m).1 (step_catch s h m).2.
Proof.
  intros Hh s. induction s as [[a|e]|ws k IH] using step_ind; intros m0 m Hg; cbn [step_catch].
  - exact Hg.
  - pose proof (Hh e m) as Ha. destruct (h e m) as [s' m']. cbn [fst snd] in *.
    destruct Hg as [[Hp Hl]|[Hs _]].
    + assert (silent m m') as Hs by (by eapply arrives_rel). destruct s'; left; (split; [done|by rewrite Hs]).
    + apply (guarded_silent _ _ _ any). by eapply arrives_trans; [apply _| |].
  - destruct Hg as [Hg|[Hs Hk]]; [by left|]. right. split; [done|]. intros r m'.
    specialize (IH r m' m' (k r m').2 (Hk r m')). by destruct (k r m') as [s' m''].
Qed.

Lemma silent_recordFailure id e : rpres silent (recordFailure deps id e).
Proof. intros m0. unfold recordFailure, scheduleRecovery. pres. Qed.

Lemma silent_teardown id abandon : leads silent any (teardown id abandon).
Proof. intros m. eapply arrives_mono; [apply idle_silent| |apply teardown_leads]. done. Qed.

Lemma start_guarded id dep gen abandon m :
  guarded abandon id m (run_work deps id (WStart dep gen abandon) m).1 (run_work deps id (WStart dep gen abandon) m).2.
Proof.
  cbn [run_work]. unfold acatch.
  assert (guarded abandon id m ((teardown id abandon ;; lift (assertRunning id gen) ;; start_kind deps dep gen) m).1
    ((teardown id abandon ;; lift (assertRunning id gen) ;; start_kind deps dep gen) m).2) as Hg.
  { unfold mbind at 1, Async_bind at 1. unfold mbind at 2, Async_bind at 2.
    pose proof (teardown_leads id abandon m) as Ht. destruct (teardown id abandon m) as [s m'].
    apply guarded_bind; [|done]. intros _. apply prompt_bind; [|intros _; apply prompt_start_kind].
    apply prompt_lift, silent_assertRunning. }
  destruct ((teardown id abandon ;; _) m) as [s m']. apply guarded_catch; [|done]. intros e.
  apply (leads_bind_any silent); [by apply (leads_lift_any silent); intros m0 m1|]. intros m1.
  apply (leads_bind_any silent); [|intros _; apply (leads_throw silent)].
  destruct (_ && _); [|apply (leads_ret silent)].
  apply (leads_bind_any silent); [apply (leads_lift_any silent), silent_recordFailure|]. intros _.
  apply (leads_catch silent); [apply silent_teardown|]. intros e'. apply (leads_ret silent).
Qed.

Lemma guarded_dispatches abandon id {A} m x p : @dispatches_from A m x p -> guarded abandon id m x.1 x.2 ->
  pending_rows p abandon id = [].
Proof.
  induction 1 as [m s m' Hd|m ws k m' r m2 p Hs Hd IH]; intros Hg.
  - destruct s; destruct Hg as [[? _]|[? _]]; done.
  - destruct Hg as [[_ Hl]|[_ Hk]]; [cbn in Hl; rewrite Hs in Hl; lia|]. by apply IH.
Qed.

(** C3: A start never puts two generations of engines on the same nodes.  Whatever happens between its
    segments, when a start job first writes an engine to an agent, every earlier assignment of the
    deployment has been acknowledged as stopped, or its node is offline and the start was told to
    abandon such nodes. *)
Theorem start_waits_for_cleanup id dep gen abandon m p :
  dispatches_from m (run_work deps id (WStart dep gen abandon) m) p ->
  forall r, r ∈ rows p id -> ar_state r = Some a_stopped \/ (abandon = true /\ online p (ar_nodeId r) = false).
Proof.
  intros Hd r Hr. pose proof (guarded_dispatches abandon id _ _ _ Hd (start_guarded _ _ _ _ _)) as Hp.
  rewrite pending_none in Hp. destruct (Hp r Hr) as [Hs|?]; [|by right]. left.
  unfold is_stopped in Hs. by apply bool_decide_eq_true in Hs.
Qed.
End jobs.

(** ** On the small fleet *)

(** Resume each await as [l] says. *)
Fixpoint execute {A} (l : list (result string unit * Mgr)) (x : Step A * Mgr) : option (result string A * Mgr) :=
  match x, l with
  | (Fin r, m), _ => Some (r, m)
  | (Susp _ k, _), (r, m) :: l => execute l (k r m)
  | (Susp _ _, _), [] => None
  end.
Lemma execute_runs {A} l : forall (x : Step A * Mgr) res, execute l x = Some res -> runs x res.
Proof.
  induction l as [|[r m'] l IH]; intros [[r0|ws k] m] res; cbn; intros He; try done.
  - injection He as <-. constructor.
  - injection He as <-. constructor.
  - econstructor. by apply IH.
Qed.

Fixpoint finds_dispatch {A} (l : list (result string unit * Mgr)) (m : Mgr) (x : Step A * Mgr) : Prop :=
  match l, x with
  | [], _ => length (engines x.2) <> length (engines m)
  | (r, m2) :: l, (Susp _ k, m') => engines m' = engines m /\ finds_dispatch l m2 (k r m2)
  | _, _ => False
  end.
Fixpoint last_state (l : list (result string unit * Mgr)) (m : Mgr) : Mgr :=
  match l with [] => m | (_, m2) :: l => last_state l m2 end.
Lemma find_dispatch_from {A} l : forall m (x : Step A * Mgr), finds_dispatch l m x ->
  dispatches_from m x (last_state l m).
Proof.
  induction l as [|[r m2] l IH]; intros m [s m']; cbn.
  - intros Hl. constructor. congruence.
  - destruct s as [|ws k]; [done|]. intros [H1 H2]. apply (dispatches_later _ _ _ _ r m2); [done|]. by apply IH.
Qed.

(** The watch of the deployment in service, acknowledged as stopped *)
Definition sc_stopped : Mgr :=
  set_reg (setAssignmentState 2000 "as-1" a_stopped None (reg (mgr sc_ready))) (mgr sc_ready).
Definition sc_dep : Deployment := default (new_deployment 0 "" (sc_spec external None)) (getDeployment (reg (mgr sc_ready)) "dep-0").

Definition sc_stop_end : option (result string unit * Mgr) :=
  execute [(Ok tt, sc_stopped)] (run_work sc_deps "dep-0" WStop (mgr sc_ready)).
Lemma sc_stop_ends : exists m', sc_stop_end = Some (Ok tt, m').
Proof.
  assert (match sc_stop_end with Some (Ok tt, _) => true | _ => false end = true) as Hb by (vm_compute; reflexivity).
  destruct sc_stop_end as [[[[]|e] m']|]; try discriminate Hb. by exists m'.
Qed.

Lemma stop_acknowledged_witness : exists m', runs (run_work sc_deps "dep-0" WStop (mgr sc_ready)) (Ok tt, m') /\
  forall r, r ∈ rows m' "dep-0" -> ar_state r = Some a_stopped.
Proof.
  destruct sc_stop_ends as [m' Hm]. exists m'. apply execute_runs in Hm.
  exact (conj Hm (proj1 (stop_acknowledged sc_deps "dep-0" (mgr sc_ready) m' Hm))).
Defined.

Lemma sc_restart_dispatches (x : Step unit * Mgr) : x = run_work sc_deps "dep-0" (WStart sc_dep 0 false) (mgr sc_ready) ->
  dispatches_from (mgr sc_ready) x sc_stopped.
Proof.
  intros Hx. apply (find_dispatch_from [(Ok tt, sc_stopped)]). rewrite Hx. clear x Hx.
  vm_compute. split; [reflexivity|discriminate].
Qed.

Lemma start_waits_for_cleanup_witness :
  dispatches_from (mgr sc_ready) (run_work sc_deps "dep-0" (WStart sc_dep 0 false) (mgr sc_ready)) sc_stopped /\
  forall r, r ∈ rows sc_stopped "dep-0" ->
    ar_state r = Some a_stopped \/ (false = true /\ online sc_stopped (ar_nodeId r) = false).
Proof.
  pose proof (sc_restart_dispatches _ eq_refl) as Hd.
  exact (conj Hd (start_waits_for_cleanup sc_deps "dep-0" sc_dep 0 false (mgr sc_ready) sc_stopped Hd)).
Defined.
