(* ===== verification/QueueFacts.v ===== *)
(** * Invariants of the job queues and of the allocation that waits for them

    A property of the manager that only looks at the queues, the allocation and its token is kept by every method of
    [Deployments], if it is kept by enqueuing a job that no allocation waits for.  The property is the parameter [I] of the first
    section.  In the second, [I] only looks at the queues. *)

From S2P Require Import Prelude Async Rules JsNum Json Types Validate PhasePlan Planner Resources Fleet Topology Registry Manager Deployments DeploymentsFacts Allocation ControlLoop JobFacts.

Local Open Scope Z_scope.

(** What an allocation waits for: the stop or the start of its entry. *)
Inductive Wait := W_stop (i : nat) | W_start (i : nat).
#[export] Instance Wait_eq : EqDecision Wait.
Proof. solve_decision. Defined.
Definition waits_for (a : After) : option Wait :=
  match a with Then_stopped i => Some (W_stop i) | Then_started i => Some (W_start i) | _ => None end.
Definition wait_of (j : Job) : option Wait := waits_for (jb_after j).

(** A job of an allocation, or the cleanup after a failure *)
Definition owned (j : Job) : Prop := is_Some (wait_of j) \/ jb_work j = WTeardown.

(** Calls other than those of an allocation keep [I]. *)
Record mild `{Host} (I : Mgr -> Prop) : Prop := {
  ml_teardown : forall id, pres I (enqueue id {| jb_work := WTeardown; jb_after := Nothing |});
  ml_start : forall id b1 b3 b4 a, waits_for a = None -> pres I (start id b1 false b3 b4 a);
  ml_stop : forall id a, waits_for a = None -> pres I (stop id false a) }.

Section queues.
Context `{Host} (deps : Deps) (I : Mgr -> Prop).
Hypothesis Hframe : forall m m', operations m' = operations m -> allocation m' = allocation m ->
  fleetToken m' = fleetToken m -> I m -> I m'.
Hypothesis Hqueue : mild I.

Lemma q_modify f : (forall m, operations (f m) = operations m) -> (forall m, allocation (f m) = allocation m) ->
  (forall m, fleetToken (f m) = fleetToken m) -> pres I (mmodify f).
Proof using Hframe. intros H1 H2 H3. apply pres_modify. intros m. by apply Hframe. Qed.
Lemma q_same {A} (x : Sync A) : (forall m, operations (x m).2 = operations m) -> (forall m, allocation (x m).2 = allocation m) ->
  (forall m, fleetToken (x m).2 = fleetToken m) -> pres I x.
Proof using Hframe. intros H1 H2 H3 m. by apply Hframe. Qed.

#[local] Hint Extern 3 (pres I (mmodify _)) => (apply q_modify; reflexivity) : pres.
#[local] Hint Extern 3 (pres I (regw _)) => (apply q_modify; reflexivity) : pres.
#[local] Hint Extern 3 (pres I (ev _ _)) => (apply q_modify; reflexivity) : pres.
#[local] Hint Extern 3 (pres I (updateDep _ _)) => (apply q_modify; reflexivity) : pres.
#[local] Hint Extern 3 (pres I (setIntent _ _ _ _)) => (apply q_modify; reflexivity) : pres.
#[local] Hint Extern 3 (pres I (notify _ _ _)) => (apply q_modify; reflexivity) : pres.
#[local] Hint Extern 3 (pres I (new_id _)) => (apply q_same; reflexivity) : pres.
#[local] Hint Extern 3 (pres I (enqueue _ {| jb_work := WTeardown; jb_after := Nothing |})) => exact (ml_teardown I Hqueue _) : pres.
#[local] Hint Extern 3 (pres I (start _ _ false _ _ _)) => (apply (ml_start I Hqueue); reflexivity) : pres.
#[local] Hint Extern 3 (pres I (stop _ false _)) => (apply (ml_stop I Hqueue); reflexivity) : pres.

Lemma q_send n a : pres I (send n a).
Proof using Hframe. apply q_same; intros m; unfold send; by destruct (_ && _). Qed.
Lemma q_updatingNode : pres I updatingNode.
Proof using Hframe. apply q_same; intros m; unfold updatingNode; destruct (updateLease m) as [l|]; try done; by destruct (_ <=? _). Qed.
Lemma q_must id : pres I (must id).
Proof using Hframe. unfold must. pres. Qed.
#[local] Hint Resolve q_send q_updatingNode q_must : pres.
Lemma q_send_stop n i d : pres I (send_stop n i d).
Proof using Hframe. unfold send_stop. pres. Qed.
Lemma q_assign n a : pres I (assign n a).
Proof using Hframe. unfold assign. pres. Qed.
#[local] Hint Resolve q_send_stop q_assign : pres.
Lemma q_acquireUpdate n : pres I (acquireUpdate n).
Proof using Hframe. unfold acquireUpdate. pres. Qed.
Lemma q_releaseUpdate n t : pres I (releaseUpdate n t).
Proof using Hframe. unfold releaseUpdate. pres. Qed.
Lemma q_scheduleRecovery id : pres I (scheduleRecovery deps id).
Proof using Hframe. unfold scheduleRecovery. pres. Qed.
#[local] Hint Resolve q_scheduleRecovery : pres.
Lemma q_recordFailure id w : pres I (recordFailure deps id w).
Proof using Hframe. unfold recordFailure. pres. Qed.
Lemma q_finishDraining id : pres I (finishDraining id).
Proof using Hframe. unfold finishDraining. pres. Qed.
Lemma q_cancel id : pres I (cancel id).
Proof using Hframe. unfold cancel. pres. Qed.
Lemma q_assertRunning id g : pres I (assertRunning id g).
Proof using Hframe. unfold assertRunning. pres. Qed.
Lemma q_assertFleetAccess b : pres I (assertFleetAccess b).
Proof using Hframe. unfold assertFleetAccess. pres. Qed.
Lemma q_node id : pres I (node id).
Proof using Hframe. unfold node. pres. Qed.
Lemma q_externalOrigin u : pres I (externalOrigin u).
Proof using Hframe. unfold externalOrigin. pres. Qed.
Lemma q_the_external s : pres I (the_external s).
Proof using Hframe. unfold the_external. pres. Qed.
Lemma q_assertExternalOptions s : pres I (assertExternalOptions s).
Proof using Hframe. unfold assertExternalOptions. pres. Qed.
#[local] Hint Resolve q_recordFailure q_finishDraining q_cancel q_assertRunning q_assertFleetAccess q_node q_externalOrigin
  q_the_external q_assertExternalOptions : pres.
Lemma q_duplicate_external m0 x k e d : pres I (duplicate_external m0 x k e d).
Proof using Hframe. unfold duplicate_external. pres. Qed.
#[local] Hint Resolve q_duplicate_external : pres.
Lemma q_first_duplicate m0 x k e l : pres I (first_duplicate m0 x k e l).
Proof using Hframe. induction l; cbn [first_duplicate]; pres. Qed.
#[local] Hint Resolve q_first_duplicate : pres.
Lemma q_assertUniqueExternal s e : pres I (assertUniqueExternal s e).
Proof using Hframe. unfold assertUniqueExternal. pres. Qed.
#[local] Hint Resolve q_assertUniqueExternal : pres.
Lemma q_plan s u r e : pres I (plan deps s u r e).
Proof using Hframe. unfold plan. pres. Qed.
#[local] Hint Resolve q_plan : pres.
Lemma q_blockPlacement id p w : pres I (blockPlacement deps id p w).
Proof using Hframe. unfold blockPlacement. pres. Qed.
Lemma q_blockedUntil id p : pres I (blockedUntil id p).
Proof using Hframe. unfold blockedUntil. pres. Qed.
#[local] Hint Resolve q_blockPlacement q_blockedUntil : pres.
Lemma q_planFor d : pres I (planFor deps d).
Proof using Hframe. unfold planFor. pres. Qed.
Lemma q_url_of u : pres I (url_of u).
Proof using Hframe. unfold url_of. pres. Qed.
Lemma q_the_profile u : pres I (the_profile deps u).
Proof using Hframe. unfold the_profile. pres. Qed.
Lemma q_go_ready id n p name : pres I (go_ready id n p name).
Proof using Hframe. unfold go_ready. pres. Qed.
#[local] Hint Resolve q_planFor q_url_of q_the_profile q_go_ready : pres.

(** Handlers *)
Lemma q_fail id w : pres I (fail deps id w).
Proof using Hframe Hqueue. unfold fail. pres. Qed.
Lemma q_observeReconnect id : pres I (observeReconnect deps id).
Proof using Hframe. unfold observeReconnect. pres. Qed.
#[local] Hint Resolve q_fail q_observeReconnect : pres.
Lemma q_onOffline_one n d : pres I (onOffline_one deps n d).
Proof using Hframe Hqueue. unfold onOffline_one. pres. Qed.
#[local] Hint Resolve q_onOffline_one : pres.
Lemma q_onOffline n : pres I (onOffline deps n).
Proof using Hframe Hqueue. unfold onOffline. pres. Qed.
#[local] Hint Resolve q_onOffline : pres.
Lemma q_external_report n d s t : pres I (external_report n d s t).
Proof using Hframe. unfold external_report. pres. Qed.
#[local] Hint Resolve q_external_report : pres.
Lemma q_onAssignmentState n id s t : pres I (onAssignmentState deps n id s t).
Proof using Hframe Hqueue. unfold onAssignmentState. pres. Qed.
#[local] Hint Resolve q_onAssignmentState : pres.
Lemma q_onHello_row n h seen r : pres I (onHello_row deps n h seen r).
Proof using Hframe Hqueue. unfold onHello_row. pres. Qed.
#[local] Hint Resolve q_onHello_row : pres.
Lemma q_onHello_rows n h l : forall seen, pres I (onHello_rows deps n h seen l).
Proof using Hframe Hqueue. induction l; intros seen; cbn [onHello_rows]; pres. Qed.
#[local] Hint Resolve q_onHello_rows : pres.
Lemma q_onHello n l : pres I (onHello deps n l).
Proof using Hframe Hqueue. unfold onHello. pres. Qed.
Lemma q_clearExclusions id : pres I (clearExclusions id).
Proof using Hframe. unfold clearExclusions. pres. Qed.
#[local] Hint Resolve q_clearExclusions : pres.

(** Enqueuing a job that no allocation waits for is enough. *)
Lemma mild_queue : (forall id j, wait_of j = None -> pres I (enqueue id j)) -> mild I.
Proof using Hframe.
  intros Henq. assert (forall id w a, waits_for a = None -> pres I (enqueue id {| jb_work := w; jb_after := a |})) as Hq by auto.
  split; [by auto| |]; intros *; [unfold start|unfold stop]; pres.
Qed.
Lemma q_remove id : pres I (remove id).
Proof using Hframe Hqueue. unfold remove. pres. Qed.
Lemma q_choose_from b r e l : forall tried skipped, pres I (choose_from deps b r e tried skipped l).
Proof using Hframe. induction l; intros tried skipped; cbn [choose_from]; pres. Qed.
#[local] Hint Resolve q_choose_from : pres.
Lemma q_chooseAuto b r e : pres I (chooseAuto deps b r e).
Proof using Hframe. unfold chooseAuto. pres. Qed.
#[local] Hint Resolve q_chooseAuto : pres.
Lemma q_moved_now id : pres I (moved_now id).
Proof using Hframe. unfold moved_now. pres. Qed.
Lemma q_redecide id d r : pres I (redecide deps id d r).
Proof using Hframe. unfold redecide. pres. Qed.
#[local] Hint Resolve q_moved_now q_redecide : pres.
Lemma q_move_failed id r w x : pres I x -> pres I (move_failed id r w x).
Proof using Hframe. intros Hx. unfold move_failed. pres. Qed.
#[local] Hint Resolve q_move_failed : pres.
Lemma q_redistribute fuel : forall id r e, pres I (redistribute deps fuel id r e).
Proof using Hframe Hqueue. induction fuel; intros id r e; cbn [redistribute]; unfold redistribute_once; pres. Qed.
#[local] Hint Resolve q_redistribute : pres.
Lemma q_try_move id r : pres I (try_move deps id r).
Proof using Hframe Hqueue. unfold try_move. pres. Qed.
#[local] Hint Resolve q_try_move : pres.
Lemma q_retry n d : pres I (retry_failed_plan deps n d).
Proof using Hframe Hqueue. unfold retry_failed_plan. pres. Qed.
Lemma q_reconsider n d : pres I (reconsider deps n d).
Proof using Hframe Hqueue. unfold reconsider. pres. Qed.
Lemma q_readmit n e : pres I (readmit n e).
Proof using Hframe. unfold readmit. pres. Qed.
#[local] Hint Resolve q_retry q_reconsider q_readmit : pres.
Lemma q_onNodeOnline n : pres I (onNodeOnline deps n).
Proof using Hframe Hqueue. unfold onNodeOnline. pres. Qed.
Lemma q_required_nodes d : pres I (required_nodes deps d).
Proof using Hframe. unfold required_nodes. pres. Qed.
#[local] Hint Resolve q_required_nodes : pres.
Lemma q_attempt_recovery d i b : pres I (attempt_recovery deps d i b).
Proof using Hframe Hqueue. unfold attempt_recovery. pres. Qed.
#[local] Hint Resolve q_attempt_recovery : pres.
Lemma q_reconcile_tail d i b : pres I (reconcile_tail deps d i b).
Proof using Hframe Hqueue. unfold reconcile_tail. pres. Qed.
#[local] Hint Resolve q_reconcile_tail : pres.
Lemma q_reconcile_one d : pres I (reconcile_one deps d).
Proof using Hframe Hqueue. unfold reconcile_one. pres. Qed.
#[local] Hint Resolve q_reconcile_one : pres.
Lemma q_reconcile : pres I (reconcile deps).
Proof using Hframe Hqueue. unfold reconcile. pres. Qed.
Lemma q_dispose : pres I dispose.
Proof using Hframe. unfold dispose. pres. Qed.
Lemma q_trackInflight id d : pres I (trackInflight id d).
Proof using Hframe. unfold trackInflight. pres. Qed.
Lemma q_recordTokens id n : pres I (recordTokens id n).
Proof using Hframe. unfold recordTokens. pres. Qed.
Lemma q_nativeFailed id r l : pres I (nativeExecutionFailed deps id r l).
Proof using Hframe Hqueue. unfold nativeExecutionFailed. pres. Qed.
Lemma q_create_row id s : pres I (create_row id s).
Proof using Hframe. apply q_same; intros m; unfold create_row; by destruct (createDeployment _ _ _ _). Qed.
#[local] Hint Resolve q_create_row : pres.
Lemma q_fleetInput : pres I (fleetInput deps).
Proof using Hframe. unfold fleetInput. pres. Qed.
#[local] Hint Resolve q_fleetInput : pres.
Lemma q_autodiscover s p : pres I (autodiscover deps s p).
Proof using Hframe. unfold autodiscover. pres. Qed.
#[local] Hint Resolve q_autodiscover : pres.
Lemma q_create s : pres I (create deps s).
Proof using Hframe. unfold create. pres. Qed.

(** Restart *)
Lemma q_restore_run x : pres I (restore_run x).
Proof using Hframe. unfold restore_run. pres. Qed.
Lemma q_restore_one seen d : pres I (restore_one deps seen d).
Proof using Hframe. unfold restore_one. pres. Qed.
#[local] Hint Resolve q_restore_run q_restore_one : pres.
Lemma q_restore_all l : forall seen, pres I (restore_all deps seen l).
Proof using Hframe. induction l; intros seen; cbn [restore_all]; pres. Qed.
#[local] Hint Resolve q_restore_all : pres.
Lemma q_restore : pres I (restore deps).
Proof using Hframe. unfold restore. pres. Qed.

(** Messages *)
Lemma q_own_reports n l : pres I (own_reports n l).
Proof using Hframe. unfold own_reports. pres. Qed.
Lemma q_channel_event k t n : pres I (channel_event k t n).
Proof using Hframe. unfold channel_event. pres. Qed.
#[local] Hint Resolve q_own_reports q_channel_event q_onHello q_onNodeOnline : pres.
Lemma q_hello n v c o ms l : pres I (hello deps n v c o ms l).
Proof using Hframe Hqueue. unfold hello. pres. Qed.
Lemma q_report n i s d : pres I (report deps n i s d).
Proof using Hframe Hqueue. unfold report. pres. Qed.
Lemma q_close n : pres I (close deps n).
Proof using Hframe Hqueue. unfold close. pres. Qed.
Lemma q_unresponsive n : pres I (unresponsive deps n).
Proof using Hframe Hqueue. unfold unresponsive. pres. Qed.
Lemma q_responsive n v : pres I (responsive deps n v).
Proof using Hframe Hqueue. unfold responsive. pres. Qed.
Lemma q_connect n : pres I (connect n).
Proof using Hframe. unfold connect. pres. Qed.

(** Previews and distributions *)
Lemma q_preview_done q r : pres I (preview_done deps q r).
Proof using Hframe. unfold preview_done. pres. Qed.
#[local] Hint Resolve q_preview_done : pres.
Lemma q_previewAllocation v : pres I (previewAllocation deps v).
Proof using Hframe. unfold previewAllocation. pres. Qed.
Lemma q_worker_planned t : pres I (worker_planned deps t).
Proof using Hframe. unfold worker_planned. pres. Qed.
Lemma q_worker_timeout : pres I worker_timeout.
Proof using Hframe. unfold worker_timeout. pres. Qed.
Lemma q_validateFleetPlans x : pres I (validateFleetPlans deps x).
Proof using Hframe. unfold validateFleetPlans. pres. Qed.
Lemma q_distributionSpec id d : pres I (distributionSpec id d).
Proof using Hframe. unfold distributionSpec. pres. Qed.
#[local] Hint Resolve q_distributionSpec : pres.
Lemma q_saveDistribution id v : pres I (saveDistribution deps id v).
Proof using Hframe. unfold saveDistribution. pres. Qed.
Lemma q_distribution_failed id w : pres I (distribution_failed id w).
Proof using Hframe. unfold distribution_failed. pres. Qed.
Lemma q_distribution_end id : pres I (distribution_end id).
Proof using Hframe. unfold distribution_end. pres. Qed.
#[local] Hint Resolve q_distribution_failed q_distribution_end : pres.
Lemma q_distributing id x : pres I x -> pres I (distributing id x).
Proof using Hframe. intros Hx. unfold distributing. pres. Qed.
#[local] Hint Resolve q_distributing : pres.
Lemma q_applyDistribution id : pres I (applyDistribution deps id).
Proof using Hframe Hqueue. unfold applyDistribution. pres. Qed.
Lemma q_then_distribute id s g r : pres I (then_distribute deps id s g r).
Proof using Hframe Hqueue. unfold then_distribute. apply q_distributing. pres. Qed.
Lemma q_then_distributed id r : pres I (then_distributed id r).
Proof using Hframe. unfold then_distributed. pres. Qed.

#[local] Hint Resolve q_hello q_report q_close q_unresponsive q_responsive q_connect q_acquireUpdate q_releaseUpdate q_remove
  q_reconcile q_dispose q_trackInflight q_recordTokens q_nativeFailed q_create q_previewAllocation q_worker_planned q_worker_timeout
  q_saveDistribution q_applyDistribution : pres.
(** Every turn but the application of an allocation *)
Lemma q_sync_turn t : (forall i, t <> Apply i) -> pres I (sync_turn deps t).
Proof using Hframe Hqueue. intros Ht. destruct t; cbn [sync_turn]; try (by destruct (Ht runId)); pres. Qed.

(** What follows a job that no allocation waits for *)
Lemma q_run_after id r j : wait_of j = None -> pres I (run_after deps id r (jb_after j)).
Proof using Hframe Hqueue.
  unfold wait_of, waits_for, run_after. intros Hj. destruct (jb_after j); try done; try (destruct r; pres).
  - by apply q_then_distribute.
  - by apply q_then_distribute.
  - by apply q_then_distributed.
  - by apply q_then_distributed.
Qed.
End queues.

(** ** Jobs *)

(** Every segment of a job leaves the queues, the allocation and the token alone. *)
Definition aside (m0 m : Mgr) : Prop := operations m = operations m0 ∧ allocation m = allocation m0 ∧ fleetToken m = fleetToken m0.
#[export] Instance aside_preorder : PreOrder aside.
Proof.
  split; [by intros m|]. intros m1 m2 m3 (H1 & H2 & H3) (H4 & H5 & H6). split_and!; [by rewrite H4|by rewrite H5|by rewrite H6].
Qed.
Lemma aside_frame m0 m m' : operations m' = operations m -> allocation m' = allocation m -> fleetToken m' = fleetToken m ->
  aside m0 m -> aside m0 m'.
Proof. intros H1 H2 H3 (H4 & H5 & H6). split_and!; [by rewrite H1|by rewrite H2|by rewrite H3]. Qed.

Section jobs.
Context `{Host} (deps : Deps).

#[local] Hint Extern 3 (pres (aside _) (mmodify _)) => (apply (q_modify _ (aside_frame _)); reflexivity) : pres.
#[local] Hint Extern 3 (pres (aside _) (regw _)) => (apply (q_modify _ (aside_frame _)); reflexivity) : pres.
#[local] Hint Extern 3 (pres (aside _) (ev _ _)) => (apply (q_modify _ (aside_frame _)); reflexivity) : pres.
#[local] Hint Extern 3 (pres (aside _) (updateDep _ _)) => (apply (q_modify _ (aside_frame _)); reflexivity) : pres.
#[local] Hint Extern 3 (pres (aside _) (setIntent _ _ _ _)) => (apply (q_modify _ (aside_frame _)); reflexivity) : pres.
#[local] Hint Extern 3 (pres (aside _) mget) => (by intros ?) : pres.
#[local] Hint Extern 3 (pres (aside _) (new_id _)) => (apply (q_same _ (aside_frame _)); reflexivity) : pres.
#[local] Hint Extern 3 (pres (aside _) _) =>
  (simple apply (q_send_stop _ (aside_frame _)) || simple apply (q_assign _ (aside_frame _)) ||
   simple apply (q_node _ (aside_frame _)) || simple apply (q_the_external _ (aside_frame _)) ||
   simple apply (q_assertRunning _ (aside_frame _)) || simple apply (q_recordFailure deps _ (aside_frame _)) ||
   simple apply (q_planFor deps _ (aside_frame _)) || simple apply (q_plan deps _ (aside_frame _)) || simple apply (q_url_of _ (aside_frame _)) ||
   simple apply (q_the_profile deps _ (aside_frame _)) || simple apply (q_go_ready _ (aside_frame _)) ||
   simple apply (q_must _ (aside_frame _)) || simple apply (q_externalOrigin _ (aside_frame _))) : pres.

Lemma aside_any {A} Q (x : Async A) : leads aside Q x -> leads aside any x.
Proof. intros Hx m. eapply arrives_any, Hx. Qed.

Ltac leads := repeat first [ solve [auto with pres] | match goal with
  | |- forall _, _ => intros ?
  | |- leads _ _ (_ ≫= _) => apply (leads_bind_any aside)
  | |- leads _ _ (mret _) => apply (leads_ret aside)
  | |- leads _ _ (athrow _) => apply (leads_throw aside)
  | |- leads _ _ (acatch _ _) => apply (leads_catch aside)
  | |- leads _ _ (await_all _) => apply (leads_await aside)
  | |- leads _ _ (lift _) => apply (leads_lift_any aside); intros ?; solve [pres]
  | |- leads _ _ (let _ := _ in _) => cbv zeta
  | |- leads _ _ (if ?b then _ else _) => destruct b eqn:?
  | |- leads _ _ (match ?x with _ => _ end) => destruct x eqn:?
  end ].

Lemma aside_stop_row id b r : leads aside any (stop_row id b r).
Proof. unfold stop_row. leads. Qed.
#[local] Hint Resolve aside_stop_row : pres.
Lemma aside_stop_rows id b l : leads aside any (stop_rows id b l).
Proof. induction l; cbn [stop_rows]; leads. Qed.
#[local] Hint Resolve aside_stop_rows : pres.
Lemma aside_teardown id b : leads aside any (teardown id b).
Proof. unfold teardown. leads. Qed.
Lemma aside_assign_or_throw n a w : leads aside any (assign_or_throw n a w).
Proof. unfold assign_or_throw. leads. Qed.
#[local] Hint Resolve aside_teardown aside_assign_or_throw : pres.
Lemma aside_dispatch n a s : leads aside any (dispatch n a s).
Proof. unfold dispatch. leads. Qed.
Lemma aside_assign_all c l : (forall m0, pres (aside m0) c) -> leads aside any (assign_all c l).
Proof. intros Hc. induction l as [|[n a] l IH]; cbn [assign_all]; leads. Qed.
#[local] Hint Resolve aside_dispatch aside_assign_all : pres.
Lemma aside_startExternal d g : leads aside any (startExternal d g).
Proof. unfold startExternal. leads. Qed.
Lemma aside_startReplica d g : leads aside any (startReplica deps d g).
Proof. unfold startReplica. leads. Qed.
Lemma aside_startNative d g : leads aside any (startNative deps d g).
Proof. unfold startNative. leads. Qed.
Lemma aside_startSplit d g : leads aside any (startSplit deps d g).
Proof. unfold startSplit. leads. Qed.
#[local] Hint Resolve aside_startExternal aside_startReplica aside_startNative aside_startSplit : pres.
Lemma aside_run_work id w : leads aside any (run_work deps id w).
Proof. unfold run_work, start_kind. leads. Qed.
End jobs.

(** ** Properties of the queues while the token is held *)

Section heads.
Context `{Host} (deps : Deps) (I : Mgr -> Prop).
Hypothesis Hops : forall m m', operations m' = operations m ->
  (fleetToken m' = fleetToken m \/ fleetToken m' = false \/ operations m = ∅) -> I m -> I m'.
Hypothesis Henq : forall id j, owned j -> pres I (enqueue id j).
Hypothesis Hmild : mild I.

Lemma h_modify f : (forall m, operations (f m) = operations m) ->
  (forall m, fleetToken (f m) = fleetToken m) \/ (forall m, fleetToken (f m) = false) -> pres I (mmodify f).
Proof using Hops. intros Hf Ht. apply pres_modify. intros m. apply Hops; [done|]. destruct Ht as [Ht|Ht]; auto. Qed.

#[local] Hint Extern 3 (pres I (mmodify _)) => (apply h_modify; [reflexivity|first [left; reflexivity|right; reflexivity]]) : pres.
#[local] Hint Extern 3 (pres I (regw _)) => (apply h_modify; [reflexivity|first [left; reflexivity|right; reflexivity]]) : pres.
#[local] Hint Extern 3 (pres I (ev _ _)) => (apply h_modify; [reflexivity|first [left; reflexivity|right; reflexivity]]) : pres.
#[local] Hint Extern 3 (pres I (updateDep _ _)) => (apply h_modify; [reflexivity|first [left; reflexivity|right; reflexivity]]) : pres.
#[local] Hint Extern 3 (pres I (setIntent _ _ _ _)) => (apply h_modify; [reflexivity|first [left; reflexivity|right; reflexivity]]) : pres.
#[local] Hint Extern 3 (pres I (alloc_modify _)) => (apply h_modify; [reflexivity|first [left; reflexivity|right; reflexivity]]) : pres.
#[local] Hint Extern 3 (pres I (enqueue _ _)) => (apply Henq; left; by eexists) : pres.

Lemma h_frame : forall m m', operations m' = operations m -> allocation m' = allocation m -> fleetToken m' = fleetToken m -> I m -> I m'.
Proof using Hops. intros m m' Hm _ Ht. apply Hops; auto. Qed.

#[local] Hint Extern 1 (pres I _) =>
  (simple apply (q_clearExclusions I h_frame) || simple apply (q_assertFleetAccess I h_frame) || simple apply (q_must I h_frame) ||
   simple apply (q_updatingNode I h_frame) || simple apply (q_assertExternalOptions I h_frame) ||
   simple apply (q_assertUniqueExternal I h_frame) || simple apply (q_cancel I h_frame) ||
   simple apply (q_fleetInput deps I h_frame) || simple apply (q_validateFleetPlans deps I h_frame)) : pres.

Lemma h_start id b1 b2 b3 b4 i : pres I (start id b1 b2 b3 b4 (Then_started i)).
Proof using Hops Henq. unfold start. pres. Qed.
Lemma h_stop id h i : pres I (stop id h (Then_stopped i)).
Proof using Hops Henq. unfold stop. pres. Qed.
#[local] Hint Resolve h_start h_stop : pres.
Lemma h_save_run : pres I save_run.
Proof using Hops. unfold save_run. pres. Qed.
Lemma h_set_entry i f : pres I (set_entry i f).
Proof using Hops. unfold set_entry. pres. Qed.
#[local] Hint Resolve h_save_run h_set_entry : pres.
Lemma h_alloc_end : pres I alloc_end.
Proof using Hops. unfold alloc_end. pres. Qed.
#[local] Hint Resolve h_alloc_end : pres.
Lemma h_alloc_fail w : pres I (alloc_fail w).
Proof using Hops. unfold alloc_fail. pres. Qed.
Lemma h_alloc_done : pres I alloc_done.
Proof using Hops. unfold alloc_done. pres. Qed.
#[local] Hint Resolve h_alloc_fail h_alloc_done : pres.
Lemma h_take_entries fuel : pres I (take_entries fuel).
Proof using Hops Henq. induction fuel; cbn [take_entries]; pres. Qed.
#[local] Hint Resolve h_take_entries : pres.
Lemma h_worker_turn : pres I worker_turn.
Proof using Hops Henq. unfold worker_turn. pres. Qed.
Lemma h_workers_end : pres I workers_end.
Proof using Hops. unfold workers_end. pres. Qed.
#[local] Hint Resolve h_worker_turn h_workers_end : pres.
Lemma h_start_entries : pres I (start_entries deps).
Proof using Hops Henq. unfold start_entries. pres. Qed.
#[local] Hint Resolve h_start_entries : pres.
Lemma h_stops_settled : pres I (stops_settled deps).
Proof using Hops Henq. unfold stops_settled. pres. Qed.
Lemma h_stop_settled i r : pres I (stop_settled i r).
Proof using Hops. unfold stop_settled. pres. Qed.
#[local] Hint Resolve h_stops_settled h_stop_settled : pres.
Lemma h_performAllocation x : pres I (performAllocation deps x).
Proof using Hops Henq. unfold performAllocation. pres. Qed.
#[local] Hint Resolve h_performAllocation : pres.

(** Called while nothing is queued *)
Definition at_idle {A} (x : Sync A) : Prop := forall m, I m -> operations m = ∅ -> I (x m).2.
Lemma idle_bind {A B} (x : Sync A) (f : A -> Sync B) : pres (fun m => I m ∧ operations m = ∅) x -> (forall a, at_idle (f a)) -> at_idle (x ≫= f).
Proof.
  intros Hx Hf m Hm Ho. specialize (Hx m (conj Hm Ho)) as [H1 H2]. unfold mbind, M_bind.
  destruct (x m) as [[a|e] m']; [by apply Hf|done].
Qed.
Lemma idle_pres {A} (x : Sync A) : pres I x -> at_idle x.
Proof. intros Hx m Hm _. by apply Hx. Qed.
Lemma idle_frame m m' : operations m' = operations m -> allocation m' = allocation m -> fleetToken m' = fleetToken m ->
  I m ∧ operations m = ∅ -> I m' ∧ operations m' = ∅.
Proof using Hops. intros H1 H2 H3 [Hm Ho]. split; [by apply (h_frame m)|by rewrite H1]. Qed.
Lemma idle_get {A} (f : Mgr -> Sync A) : (forall m, at_idle (f m)) -> at_idle (mget ≫= f).
Proof. intros Hf m. apply Hf. Qed.
Lemma idle_if {A} (b : bool) (x y : Sync A) : at_idle x -> at_idle y -> at_idle (if b then x else y).
Proof. by destruct b. Qed.
Lemma idle_guard {A} (b : Mgr -> bool) e (x : Mgr -> Sync A) : (forall m, b m = false -> operations m = ∅) ->
  (forall m, at_idle (x m)) -> pres I (mget ≫= fun m => if b m then mthrow e else x m).
Proof.
  intros Hb Hx m Hm. unfold mbind, M_bind, mget. destruct (b m) eqn:E; [done|]. by apply Hx, Hb.
Qed.
Lemma h_applyAllocation i : pres I (applyAllocation deps i).
Proof using Hops Henq.
  unfold applyAllocation. apply pres_get. intros m0 _. pres_step; [|pres]. pres_step; [pres|]. pres_step; [pres|].
  apply pres_bind; [pres|]. intros u. apply idle_guard.
  { intros m E. apply orb_false_iff in E as [[[_ E]%orb_false_iff _]%orb_false_iff _]. by apply negb_false_iff, bool_decide_eq_true in E. }
  intros m. apply idle_if; [by apply idle_pres; pres|]. apply idle_bind; [apply q_fleetInput, idle_frame|]. intros input.
  apply idle_if; [by apply idle_pres; pres|]. apply idle_if; [by apply idle_pres; pres|].
  apply idle_bind; [apply q_validateFleetPlans, idle_frame|]. intros []. apply idle_get. intros m1.
  apply (idle_bind (mmodify _)); [|intros []; apply idle_pres; pres].
  apply pres_modify. intros m2 [H1 H2]. split; [|done]. apply (Hops m2); auto.
Qed.
Lemma h_then_stopped i r : pres I (then_stopped deps i r).
Proof using Hops Henq. unfold then_stopped. pres. Qed.
Lemma h_then_started i r : pres I (then_started i r).
Proof using Hops Henq. unfold then_started. pres. Qed.
#[local] Hint Resolve h_applyAllocation h_then_stopped h_then_started : pres.
Lemma h_sync_turn t : pres I (sync_turn deps t).
Proof using Hops Henq Hmild.
  destruct t; try (apply q_sync_turn; [exact h_frame|exact Hmild|done]). cbn [sync_turn]. pres.
Qed.
Lemma h_run_after id r j : pres I (run_after deps id r (jb_after j)).
Proof using Hops Henq Hmild.
  destruct (wait_of j) eqn:Hj; [|by apply q_run_after; [exact h_frame|exact Hmild|]].
  unfold wait_of, waits_for in Hj. unfold run_after. destruct (jb_after j); try done; pres.
Qed.
End heads.

(** The job [j] is the one that runs for [id]. *)
Definition head_job (id : string) (j : Job) (m : Mgr) : Prop := exists l, operations m !! id = Some (j :: l).

Lemma head_job_frame id j m m' : operations m' = operations m -> head_job id j m -> head_job id j m'.
Proof. unfold head_job. by intros ->. Qed.
Lemma head_job_enqueue id j id' j' : pres (head_job id j) (enqueue id' j').
Proof.
  apply pres_modify. intros m [l Hl]. unfold head_job. cbn. destruct (decide (id' = id)) as [->|Hne].
  - rewrite Hl, lookup_insert_eq. cbn. eauto.
  - rewrite lookup_insert_ne by done. eauto.
Qed.
Lemma head_job_pop id id' j m : id' <> id -> head_job id' j m -> head_job id' j (pop_job id m).2.
Proof.
  intros Hne [l Hl]. exists l. unfold pop_job, mmodify.
  destruct (operations m !! id) as [[|j1 [|j2 l2]]|]; cbn; by rewrite ?lookup_delete_ne, ?lookup_insert_ne.
Qed.

(** ** Every turn of the process *)

(** A property kept by every turn, and by the end of the job at the head of a queue with its continuation, holds of every
    reachable state: meanwhile each running job stays at the head of its queue. *)
Section turns.
Context `{Host} (deps : Deps) (I : Mgr -> Prop).
Hypothesis Hframe : forall m m', operations m' = operations m -> allocation m' = allocation m ->
  fleetToken m' = fleetToken m -> I m -> I m'.
Hypothesis Hturn : forall t, pres I (sync_turn deps t).
Hypothesis Hend : forall id j r m, I m -> head_job id j m -> I ((pop_job id ;; run_after deps id r (jb_after j)) m).2.

Definition goes_on (r : Running) : Prop := forall x m, arrives aside any m (rn_k r x m).1 (rn_k r x m).2.
Definition SysInv (s : System) : Prop := I (mgr s) ∧
  forall id r, running s !! id = Some r -> head_job id (rn_job r) (mgr s) ∧ goes_on r.

Lemma sys_after s m : I m -> (forall id r, running s !! id = Some r -> head_job id (rn_job r) m ∧ goes_on r) ->
  SysInv (after_sync s m).
Proof using Hframe.
  intros Hm Hr. split; [by apply (Hframe m)|]. intros id r. cbn. rewrite lookup_fmap.
  destruct (running s !! id) as [r0|] eqn:E; [|done]. intros [= <-]. exact (Hr id r0 E).
Qed.
Lemma sys_sync {A} (x : Sync A) s : pres I x -> (forall id j, pres (head_job id j) x) -> SysInv s -> SysInv (run_sync x s).
Proof using Hframe.
  intros Hx Hh [Hm Hr]. apply sys_after; [by apply Hx|]. intros id r Hi. destruct (Hr id r Hi) as [H1 H2].
  split; [by apply Hh|done].
Qed.

(** What [head_job] meets in the sections above *)
Lemma head_ops id j m m' : operations m' = operations m ->
  (fleetToken m' = fleetToken m \/ fleetToken m' = false \/ operations m = ∅) -> head_job id j m -> head_job id j m'.
Proof. intros Ho _. by apply head_job_frame. Qed.
Lemma head_mild id j : mild (head_job id j).
Proof.
  apply mild_queue; [|intros id' j' _; apply head_job_enqueue]. intros m m' Ho _ _. by apply head_job_frame.
Qed.
Lemma head_turn id j t : pres (head_job id j) (sync_turn deps t).
Proof. apply h_sync_turn; [apply head_ops|intros id' j' _; apply head_job_enqueue|apply head_mild]. Qed.
Lemma head_after id j id' r j' : pres (head_job id j) (run_after deps id' r (jb_after j')).
Proof. apply h_run_after; [apply head_ops|intros id0 j0 _; apply head_job_enqueue|apply head_mild]. Qed.

Lemma sys_advance id j x s : arrives aside any (mgr s) x.1 x.2 -> head_job id j (mgr s) ->
  SysInv s -> SysInv (advance deps id j x s).
Proof using Hframe Hend.
  intros Hx Hj [Hm Hr]. pose proof (arrives_rel _ _ _ _ _ Hx) as (Ho & Ha & Ht).
  assert (I x.2) as Hm' by (by apply (Hframe (mgr s))).
  assert (forall id j, head_job id j (mgr s) -> head_job id j x.2) as Hhead by (intros ? ?; by apply head_job_frame).
  unfold advance. destruct x.1 as [r|ws k] eqn:E.
  - apply sys_after; cbn [mgr]; [by apply Hend, Hhead|]. cbn [running]. intros id' r' [Hne Hr']%lookup_delete_Some.
    destruct (Hr id' r' Hr') as [Hh Hg]. split; [|done]. apply head_after, head_job_pop; auto.
  - assert (SysInv (after_sync s x.2)) as [H1 H2].
    { apply sys_after; [done|]. intros id' r' Hr'. destruct (Hr id' r' Hr') as [Hh Hg]. auto. }
    split; [done|]. cbn. intros id' r' [[<- <-]|[_ Hr']]%lookup_insert_Some; [|by apply H2].
    split; [exact (Hhead id j Hj)|]. intros y m'. apply Hx.
Qed.

Lemma sys_handle s t : SysInv s -> SysInv (handle deps s t).
Proof using Hframe Hturn Hend.
  intros Hs. unfold handle. destruct t; try (apply sys_sync; [apply Hturn|intros; apply head_turn|done]).
  - destruct (running s !! id); [done|]. destruct (operations (mgr s) !! id) as [[|j l]|] eqn:E; [done| |done].
    apply sys_advance; [apply aside_run_work|by exists l|done].
  - destruct (running s !! id) as [r|] eqn:E; [|done]. destruct (outcome _); [|done].
    destruct (proj2 Hs _ _ E) as [Hh Hg]. by apply sys_advance; [apply Hg| |].
  - destruct (running s !! id) as [r|] eqn:E; [|done]. destruct (rn_wait r !! i) as [[w [x|]]|]; try done.
    split; [apply Hs|]. cbn. intros id' r' [[<- <-]|[_ Hr]]%lookup_insert_Some; [exact (proj2 Hs _ _ E)|by apply (proj2 Hs)].
Qed.

Lemma sys_run r t l : I (fresh_manager r t) -> I (mgr (run deps (boot deps r t) l)).
Proof using Hframe Hturn Hend.
  intros Hm. assert (SysInv (boot deps r t)) as Hb.
  { apply sys_sync; [by apply q_restore| |by split; [|intros id x]].
    intros id j. apply q_restore. intros m m' Ho _ _. by apply head_job_frame. }
  revert Hb. generalize (boot deps r t). induction l as [|x l IH]; intros s Hs; [apply Hs|]. by apply IH, sys_handle.
Qed.
End turns.
