(* ===== verification/AllocationInv.v ===== *)
(** * An allocation always waits for queued jobs

    Between the turns of the control process, the token is held exactly while an allocation exists, and then the jobs its
    entries wait for are in the queues, each once: the stops that have not settled, or the starts of the entries in phase
    starting, as many as workers are active. *)

From S2P Require Import Prelude Async Rules JsNum Json Types Validate PhasePlan Planner Resources Fleet Topology Registry Manager Deployments DeploymentsFacts Allocation ControlLoop QueueFacts.

Local Open Scope Z_scope.

(** ** Positions of a list *)
Section positions.
Context {A : Type} (P : A -> bool).
Implicit Types l : list A.

Definition positions l : list nat :=
  List.filter (fun i => match l !! i with Some x => P x | None => false end) (seq 0 (length l)).

Lemma positions_elem l i : i ∈ positions l <-> exists x, l !! i = Some x ∧ P x = true.
Proof.
  unfold positions. rewrite List_filter_elem, elem_of_seq. split.
  - intros [_ H]. destruct (l !! i) as [x|]; [by exists x|done].
  - intros (x & Hx & HP). rewrite Hx. split; [|done]. apply lookup_lt_Some in Hx. lia.
Qed.
Lemma positions_NoDup l : NoDup (positions l).
Proof. unfold positions. rewrite <-(list_fmap_id (List.filter _ _)). apply NoDup_fmap_filter. rewrite list_fmap_id. apply NoDup_seq. Qed.
Lemma positions_same l l' : (forall i, i ∈ positions l <-> i ∈ positions l') -> positions l ≡ₚ positions l'.
Proof. intros H. apply NoDup_Permutation; auto using positions_NoDup. Qed.
Lemma positions_less l l' i : i ∈ positions l -> i ∉ positions l' ->
  (forall k, k <> i -> k ∈ positions l <-> k ∈ positions l') -> positions l ≡ₚ i :: positions l'.
Proof.
  intros Hi Hi' Hk. apply NoDup_Permutation; [apply positions_NoDup|constructor; [done|apply positions_NoDup]|].
  intros k. rewrite elem_of_cons. destruct (decide (k = i)) as [->|Hne]; [by split; auto|].
  rewrite (Hk k Hne). split; [by right|by intros [?|?]].
Qed.
Lemma positions_alter f l i k : k ∈ positions (alter f i l) <-> exists x, l !! k = Some x ∧ P (if decide (k = i) then f x else x) = true.
Proof.
  rewrite positions_elem. destruct (decide (k = i)) as [->|Hne].
  - rewrite list_lookup_alter_eq. destruct (l !! i) as [x|]; cbn; [|by split; intros (? & ? & _)].
    split; [intros (y & [= <-] & Hy); by exists x|intros (y & [= <-] & Hy); by exists (f x)].
  - by rewrite list_lookup_alter_ne.
Qed.
Lemma positions_none l : Forall (fun x => P x = false) l -> positions l = [].
Proof.
  intros Hl. destruct (positions l) as [|i k] eqn:E; [done|]. exfalso.
  assert (i ∈ positions l) as (x & Hx & HP)%positions_elem by (rewrite E; left).
  rewrite Forall_lookup in Hl. by rewrite (Hl _ _ Hx) in HP.
Qed.
End positions.

(** ** What the queues hold *)

Definition jobs (m : Mgr) : list Job := map_to_list (operations m) ≫= snd.
Definition waits (m : Mgr) : list Wait := omap wait_of (jobs m).

Lemma jobs_at (ops : gmap string (list Job)) id :
  map_to_list ops ≫= snd ≡ₚ default [] (ops !! id) ++ (map_to_list (base.delete id ops) ≫= snd).
Proof.
  destruct (ops !! id) as [l|] eqn:E; cbn [default].
  - by rewrite <-(map_to_list_delete _ _ _ E).
  - by rewrite delete_id.
Qed.
Lemma jobs_set (ops : gmap string (list Job)) id l :
  map_to_list (<[id := l]> ops) ≫= snd ≡ₚ l ++ (map_to_list (base.delete id ops) ≫= snd).
Proof. by rewrite (jobs_at (<[id := l]> ops) id), lookup_insert_eq, delete_insert_eq. Qed.

Lemma waits_enqueue id j m :
  waits (enqueue id j m).2 ≡ₚ option_list (wait_of j) ++ waits m.
Proof.
  unfold waits, jobs. cbn. rewrite jobs_set, (jobs_at (operations m) id), !omap_app. cbn.
  destruct (wait_of j); cbn; [|by rewrite app_nil_r]. by rewrite <-Permutation_middle, app_nil_r.
Qed.

Lemma pop_head id j m : head_job id j m -> exists m', pop_job id m = (Ok tt, m') ∧ waits m ≡ₚ option_list (wait_of j) ++ waits m' ∧
  allocation m' = allocation m ∧ fleetToken m' = fleetToken m.
Proof.
  intros [l Hl].
  assert (forall m', operations m' = (match l with [] => base.delete id (operations m) | _ => <[id := l]> (operations m) end) ->
    waits m ≡ₚ option_list (wait_of j) ++ waits m') as Hw.
  { intros m' Hm'. unfold waits, jobs. rewrite Hm', (jobs_at (operations m) id), Hl. cbn [default].
    destruct l as [|j' l]; [|rewrite jobs_set]; cbn [app]; cbn; destruct (wait_of j); cbn; rewrite ?omap_app; done. }
  unfold pop_job, mmodify. rewrite Hl. destruct l as [|j' l]; eexists; (split; [done|]); (split; [by apply Hw|done]).
Qed.

(** ** The invariant *)

Definition is_starting (e : RunEntry) : bool := bool_decide (re_phase e = Some q_starting).
Definition started (a : Allocation) : list nat := positions is_starting (fr_entries (al_run a)).
Definition awaiting (a : Allocation) : list nat := positions (fun x => negb (present x)) (al_stops a).

(** [w] workers run in this section. *)
Record at_start (w : nat) (a : Allocation) (m : Mgr) : Prop := {
  as_alloc : allocation m = Some a;
  as_token : fleetToken m = true;
  as_waits : waits m ≡ₚ W_start <$> started a;
  as_active : al_active a = (w + length (started a))%nat;
  as_four : (al_active a <= 4)%nat;
  as_next : forall i, i ∈ started a -> (i < al_next a)%nat }.
Record at_stop (a : Allocation) (m : Mgr) : Prop := {
  ap_alloc : allocation m = Some a;
  ap_token : fleetToken m = true;
  ap_waits : waits m ≡ₚ W_stop <$> awaiting a;
  ap_started : started a = [] }.
Definition at_rest (m : Mgr) : Prop := allocation m = None ∧ fleetToken m = false ∧ waits m = [].

Definition AInv (m : Mgr) : Prop :=
  at_rest m \/ (exists a, at_stop a m ∧ awaiting a <> []) \/ (exists a, at_start 0 a m ∧ al_active a <> 0%nat).

Lemma waits_same m m' : operations m' = operations m -> waits m' = waits m.
Proof. unfold waits, jobs. by intros ->. Qed.

Section closed.
Context (m m' : Mgr).
Hypothesis (Hw : waits m' ≡ₚ waits m) (Ha : allocation m' = allocation m) (Ht : fleetToken m' = fleetToken m).
Lemma at_start_same w a : at_start w a m -> at_start w a m'.
Proof using Type*. intros []. split; try done; by (rewrite Ha || rewrite Ht || rewrite Hw). Qed.
Lemma at_stop_same a : at_stop a m -> at_stop a m'.
Proof using Type*. intros []. split; try done; by (rewrite Ha || rewrite Ht || rewrite Hw). Qed.
Lemma at_rest_same : at_rest m -> at_rest m'.
Proof using Type*. intros (H1 & H2 & H3). split_and!; [by rewrite Ha|by rewrite Ht|]. apply Permutation_nil_r. by rewrite Hw, H3. Qed.
Lemma AInv_same : AInv m -> AInv m'.
Proof using Type*.
  intros [H|[(a & H & Hn)|(a & H & Hn)]]; [left; by apply at_rest_same|right; left; exists a; split; [by apply at_stop_same|done]|].
  right; right. exists a. split; [by apply at_start_same|done].
Qed.
End closed.

(** What holds of the queues up to the order of jobs, of the allocation and of the token *)
Definition settled (I : Mgr -> Prop) : Prop := forall m m', waits m' ≡ₚ waits m -> allocation m' = allocation m ->
  fleetToken m' = fleetToken m -> I m -> I m'.
Lemma settled_frame I : settled I -> forall m m', operations m' = operations m -> allocation m' = allocation m ->
  fleetToken m' = fleetToken m -> I m -> I m'.
Proof. intros HI m m' Ho. apply HI. by rewrite (waits_same _ _ Ho). Qed.
Lemma settled_queue I : settled I -> forall id j, wait_of j = None -> pres I (enqueue id j).
Proof. intros HI id j Hj. apply pres_modify. intros m. apply HI; [|done..]. pose proof (waits_enqueue id j m) as Hw. by rewrite Hj in Hw. Qed.

Lemma AInv_settled : settled AInv.
Proof. intros m m'. apply AInv_same. Qed.
Lemma at_start_settled w a : settled (at_start w a).
Proof. intros m m' H1 H2 H3. by apply at_start_same. Qed.
Lemma at_stop_settled a : settled (at_stop a).
Proof. intros m m' H1 H2 H3. by apply at_stop_same. Qed.

(** ** Calls that end by enqueuing their job *)

Section enqueues.
Context `{Host} (deps : Deps) (I : Mgr -> Prop) (after : After).
Hypothesis HI : settled I.

(** Either nothing is queued, or exactly one job with this continuation. *)
Definition enqueues (x : Sync unit) : Prop :=
  spec I x (fun _ m' => exists m1 id w, I m1 ∧ m' = (enqueue id {| jb_work := w; jb_after := after |} m1).2) (fun _ => I).

Lemma enqueues_last id w : enqueues (enqueue id {| jb_work := w; jb_after := after |}).
Proof. intros m Hm. by exists m, id, w. Qed.
Lemma enqueues_throw e : enqueues (mthrow e).
Proof. by apply spec_throw. Qed.
Lemma enqueues_bind {A} (x : Sync A) f : pres I x -> (forall a, enqueues (f a)) -> enqueues (x ≫= f).
Proof.
  intros Hx Hf. apply (spec_bind _ _ _ (fun _ => I)); [|done]. intros m Hm. specialize (Hx m Hm). by destruct (x m) as [[]].
Qed.
Lemma enqueues_get f : (forall m, I m -> enqueues (f m)) -> enqueues (mget ≫= f).
Proof. intros Hf m Hm. exact (Hf m Hm m Hm). Qed.

Lemma enqueues_start id b1 b2 b3 b4 : enqueues (start id b1 b2 b3 b4 after).
Proof using HI.
  pose proof (settled_frame I HI) as Hframe. unfold start.
  apply enqueues_bind; [apply pres_when; intros _; by apply q_clearExclusions|]. intros _.
  apply enqueues_bind; [by apply q_assertFleetAccess|]. intros _.
  apply enqueues_bind; [by apply q_must|]. intros d. apply enqueues_get. intros m _.
  destruct (closed m); [apply enqueues_throw|]. apply enqueues_bind; [by apply q_updatingNode|]. intros u.
  destruct (present u); [apply enqueues_throw|]. destruct (busy m id); [apply enqueues_throw|]. cbv zeta.
  destruct (negb _); [apply enqueues_throw|].
  apply enqueues_bind.
  { apply pres_when. intros _. apply pres_bind; [by apply q_assertExternalOptions|]. intros _. by apply q_assertUniqueExternal. }
  intros _. apply enqueues_bind; [by apply q_modify|]. intros _. apply enqueues_bind; [by apply q_modify|]. intros _.
  apply enqueues_get. intros m1 _. apply enqueues_bind; [by apply q_modify|]. intros _. apply enqueues_last.
Qed.
Lemma enqueues_stop id h : enqueues (stop id h after).
Proof using HI.
  pose proof (settled_frame I HI) as Hframe. unfold stop.
  apply enqueues_bind; [by apply q_assertFleetAccess|]. intros _. apply enqueues_bind; [by apply q_must|]. intros _.
  do 3 (apply enqueues_bind; [by apply q_modify|]; intros _). apply enqueues_bind; [by apply q_cancel|]. intros _.
  apply enqueues_bind; [by apply q_modify|]. intros _. apply enqueues_last.
Qed.
End enqueues.

(** ** Starting the entries *)

Definition never {E S} : E -> S -> Prop := fun _ _ => False.
Definition total {A} (P : Mgr -> Prop) (x : Sync A) (Q : A -> Mgr -> Prop) : Prop := spec P x Q never.

Lemma spec_at {A} (P : Mgr -> Prop) (x : Sync A) (Q : A -> Mgr -> Prop) (R : string -> Mgr -> Prop) m : spec P x Q R -> P m ->
  match x m with (Ok a, m') => Q a m' | (Err e, m') => R e m' end.
Proof. intros H Hm. by apply H. Qed.

Definition Starting (w : nat) (m : Mgr) : Prop := exists a, at_start w a m.

Lemma Starting_settled w : settled (Starting w).
Proof. intros m m' H1 H2 H3 [a Ha]. exists a. by apply (at_start_same m m'). Qed.

(** Writes to the allocation *)
Lemma at_start_write w a a' m : at_start w a m -> started a' = started a -> al_active a' = al_active a ->
  (al_next a <= al_next a')%nat -> at_start w a' (set_allocation (Some a') m).
Proof.
  intros [Ha Ht Hw Hc H4 Hn] Hs Hac Hne. split; cbn; rewrite ?Hs, ?Hac; try done. intros i Hi. specialize (Hn i Hi). lia.
Qed.

(** A worker has taken the entry [i] and not called [start] yet. *)
Record at_take (w i : nat) (a : Allocation) (m : Mgr) : Prop := {
  ak_alloc : allocation m = Some a;
  ak_token : fleetToken m = true;
  ak_waits : W_start i :: waits m ≡ₚ W_start <$> started a;
  ak_active : al_active a = (w + length (started a))%nat;
  ak_four : (al_active a <= 4)%nat;
  ak_next : forall k, k ∈ started a -> (k < al_next a)%nat;
  ak_in : i ∈ started a }.
Definition Taken (w i : nat) (m : Mgr) : Prop := exists a, at_take w i a m.
Lemma Taken_settled w i : settled (Taken w i).
Proof. intros m m' Hw Ha Ht [a []]. exists a. split; try done; by (rewrite Ha || rewrite Ht || rewrite Hw). Qed.
Lemma at_take_write w i a a' m : at_take w i a m -> started a' = started a -> al_active a' = al_active a ->
  (al_next a <= al_next a')%nat -> at_take w i a' (set_allocation (Some a') m).
Proof.
  intros [Ha Ht Hw Hc H4 Hn Hi] Hs Hac Hne. split; cbn; rewrite ?Hs, ?Hac; try done. intros k Hk. specialize (Hn k Hk). lia.
Qed.

Lemma save_run_keeps (P : Allocation -> Mgr -> Prop) :
  (forall a m, P a m -> allocation m = Some a) ->
  (forall m m' a, operations m' = operations m -> allocation m' = allocation m -> fleetToken m' = fleetToken m -> P a m -> P a m') ->
  (forall a f m, P a m -> fr_entries (f (al_run a)) = fr_entries (al_run a) -> P (with_run f a) (set_allocation (Some (with_run f a)) m)) ->
  total (fun m => exists a, P a m) save_run (fun _ m => exists a, P a m).
Proof.
  intros Hat Hfr Hwr m [a Ha]. unfold save_run. unfold mbind at 1, M_bind at 1, mget. cbv beta iota. rewrite (Hat a m Ha).
  destruct (closed m); [by exists a|].
  set (run := with_status (now m) (fr_status (al_run a)) (fr_error (al_run a)) (al_run a)).
  exists (with_run (fun _ => run) a). eapply (Hfr (set_allocation (Some (with_run (fun _ => run) a)) m)); [reflexivity| |reflexivity|].
  - cbn. by rewrite (Hat a m Ha).
  - by apply (Hwr a (fun _ => run)).
Qed.
Lemma save_run_starting w : total (Starting w) save_run (fun _ => Starting w).
Proof.
  apply (save_run_keeps (at_start w)); [by intros a m []|by intros m m' a H1 H2 H3; apply (settled_frame _ (at_start_settled w a))|].
  intros a f m Ha Hf. apply (at_start_write w a); [done| |done|done]. unfold started. cbn. by rewrite Hf.
Qed.
Lemma save_run_taken w i : total (Taken w i) save_run (fun _ => Taken w i).
Proof.
  apply (save_run_keeps (at_take w i)); [by intros a m []| |].
  - intros m m' a Ho Ha Ht []. split; try done; by (rewrite Ha || rewrite Ht || rewrite (waits_same m m' Ho)).
  - intros a f m Ha Hf. apply (at_take_write w i a); [done| |done|done]. unfold started. cbn. by rewrite Hf.
Qed.

(** The phase of one entry *)
Definition upd_entry (i : nat) (f : RunEntry -> RunEntry) (a : Allocation) : Allocation := with_run (with_entries (alter f i)) a.
Lemma started_elem a i f k : k ∈ started (upd_entry i f a) <->
  exists x, fr_entries (al_run a) !! k = Some x ∧ is_starting (if decide (k = i) then f x else x) = true.
Proof. unfold started. cbn. apply positions_alter. Qed.
Lemma started_other a i f k : k <> i -> k ∈ started (upd_entry i f a) <-> k ∈ started a.
Proof.
  intros Hk. rewrite started_elem. unfold started. rewrite positions_elem.
  split; intros (x & Hx & Hp); exists x; (split; [done|]); by rewrite decide_False in *.
Qed.
Lemma started_on a i e : fr_entries (al_run a) !! i = Some e -> i ∉ started a ->
  started (upd_entry i (in_phase q_starting) a) ≡ₚ i :: started a.
Proof.
  intros He Hi. apply positions_less; [|done|].
  - apply started_elem. exists e. by rewrite decide_True.
  - intros k Hk. by apply started_other.
Qed.
Lemma started_off a i f : i ∈ started a -> (forall x, is_starting (f x) = false) ->
  started a ≡ₚ i :: started (upd_entry i f a).
Proof.
  intros Hi Hf. apply positions_less; [done| |].
  - intros (x & _ & Hx)%started_elem. rewrite decide_True in Hx by done. by rewrite Hf in Hx.
  - intros k Hk. symmetry. by apply started_other.
Qed.

Section workers.
Context `{Host} (deps : Deps).

Lemma set_entry_at i f a m : allocation m = Some a -> set_entry i f m = (Ok tt, set_allocation (Some (upd_entry i f a)) m).
Proof. intros Ha. unfold set_entry, alloc_modify, mmodify. by rewrite Ha. Qed.
Lemma is_failed w e : is_starting (entry_failed w e) = false.
Proof. done. Qed.

(** Taking the entry [next] *)
Lemma take_on w a m e : at_start (S w) a m -> fr_entries (al_run a) !! al_next a = Some e ->
  let a1 := {| al_run := al_run a; al_stops := al_stops a; al_next := S (al_next a); al_active := al_active a |} in
  at_take w (al_next a) (upd_entry (al_next a) (in_phase q_starting) a1)
    (set_allocation (Some (upd_entry (al_next a) (in_phase q_starting) a1)) (set_allocation (Some a1) m)).
Proof.
  intros [Ha Ht Hw Hc H4 Hn] He a1.
  assert (al_next a ∉ started a) as Hni by (intros Hi; specialize (Hn _ Hi); lia).
  pose proof (started_on a1 (al_next a) e He Hni) as Hs. change (started a1) with (started a) in Hs. split; try done.
  - rewrite Hs. cbn [fmap list_fmap]. constructor. exact Hw.
  - rewrite Hs. cbn. lia.
  - intros k. rewrite Hs. cbn. intros [->|Hk]%elem_of_cons; [lia|]. specialize (Hn k Hk). lia.
  - rewrite Hs. left.
Qed.
(** The entry is settled, and nothing is queued for it. *)
Lemma take_off w i f m : Taken w i m -> (forall x, is_starting (f x) = false) ->
  exists m', set_entry i f m = (Ok tt, m') ∧ Starting (S w) m'.
Proof.
  intros [a [Ha Ht Hw Hc H4 Hn Hi]] Hf. rewrite (set_entry_at i _ a m Ha). eexists. split; [done|].
  pose proof (started_off a i f Hi Hf) as Hs. eexists. split; [reflexivity| | | | |]; try done.
  - apply (Permutation_cons_inv (a := W_start i)). rewrite Hs in Hw. exact Hw.
  - rewrite Hs in Hc. cbn [length] in Hc. change (al_active a = S w + length (started (upd_entry i f a)))%nat. lia.
  - intros k Hk. apply Hn. rewrite Hs. by right.
Qed.

Lemma take_entries_total w fuel : total (Starting (S w)) (take_entries fuel) (fun b => Starting (if b : bool then w else S w)).
Proof.
  induction fuel as [|fuel IH]; cbn [take_entries]; [by apply spec_ret|]. intros m [a Ha].
  unfold mbind at 1, M_bind at 1, mget. cbv beta iota. rewrite (as_alloc _ _ _ Ha).
  destruct (fr_entries (al_run a) !! al_next a) as [e|] eqn:He; [|by exists a]. destruct (closed m); [by exists a|]. cbv zeta.
  pose proof (take_on w a m e Ha He) as Ht. cbv zeta in Ht. set (i := al_next a) in *.
  unfold mbind at 1, M_bind at 1, alloc_modify, mmodify. rewrite (as_alloc _ _ _ Ha). cbn [fmap option_fmap option_map].
  unfold mbind at 1, M_bind at 1. erewrite set_entry_at by done.
  cbv beta iota. refine (spec_at (Taken w i) _ _ _ _ _ (ex_intro _ _ Ht)).
  eapply spec_bind; [apply save_run_taken|]. intros [].
  eapply (spec_bind _ _ _ (fun f m => match f with None => Starting w m | Some _ => Taken w i m end)).
  - apply (spec_try _ _ _ _ _ (fun _ => Taken w i)); [|intros why; by apply spec_ret].
    eapply spec_bind; [apply (enqueues_start _ (Then_started i) (Taken_settled w i))|]. intros []. apply spec_ret.
    intros m' (m1 & id & wk & [a1 [H1 H2 H3 H4 H5 H6 H7]] & ->). exists a1. split; try done.
    rewrite waits_enqueue. exact H3.
  - intros [why|]; [|by apply spec_ret]. intros m1 Hm1. destruct (take_off w i (entry_failed ("Error: " +:+ why)) m1 Hm1 (is_failed _)) as (m2 & Hset & Hm2).
    unfold mbind at 1, M_bind at 1. rewrite Hset. cbv beta iota. refine (spec_at (Starting (S w)) _ _ _ _ _ Hm2).
    eapply spec_bind; [apply save_run_starting|]. intros []. exact IH.
Qed.

Lemma worker_turn_total w : total (Starting (S w)) worker_turn (fun _ => Starting w).
Proof.
  intros m [a Ha]. unfold worker_turn. unfold mbind at 1, M_bind at 1, mget. cbv beta iota. rewrite (as_alloc _ _ _ Ha).
  refine (spec_at (Starting (S w)) _ _ _ _ _ (ex_intro _ _ Ha)). eapply spec_bind; [apply take_entries_total|]. intros b.
  destruct b; [by apply spec_ret|]. apply spec_modify. intros m1 [a1 [H1 H2 H3 H4 H5 H6]]. rewrite H1. eexists. split; try done.
  - cbn [al_active]. rewrite H4. done.
  - cbn [al_active]. lia.
Qed.
Lemma workers_total n w : total (Starting (n + w)) (mfor (repeat tt n) (fun _ => worker_turn)) (fun _ => Starting w).
Proof.
  induction n as [|n IH]; cbn; [by apply spec_ret|]. eapply spec_bind; [apply worker_turn_total|]. intros []. exact IH.
Qed.

(** ** The end *)

(** Nothing is waited for any more. *)
Definition Ending (m : Mgr) : Prop := exists a, allocation m = Some a ∧ waits m = [].
Lemma Ending_write a f m : allocation m = Some a -> waits m = [] -> Ending (set_allocation (f <$> allocation m) m).
Proof. intros Ha Hw. exists (f a). split; [cbn; by rewrite Ha|done]. Qed.
Lemma alloc_end_total : total Ending alloc_end (fun _ => at_rest).
Proof.
  unfold alloc_end. apply (spec_bind _ _ _ (fun _ => Ending)).
  - apply (save_run_keeps (fun a m => allocation m = Some a ∧ waits m = [])); [by intros a m []| |].
    + intros m m' a Ho Ha Ht [H1 H2]. by rewrite Ha, (waits_same m m' Ho).
    + by intros a f m [H1 H2].
  - intros []. apply spec_modify. by intros m (a & Ha & Hw).
Qed.
Lemma ending_total b f : total Ending (mwhen b (alloc_modify f) ;; alloc_end) (fun _ => at_rest).
Proof.
  apply (spec_bind _ _ _ (fun _ => Ending)); [|intros _; apply alloc_end_total].
  destruct b; [|by apply spec_ret]. apply spec_modify. intros m (a & Ha & Hw). by apply (Ending_write a).
Qed.
Lemma alloc_fail_total w : total Ending (alloc_fail w) (fun _ => at_rest).
Proof. intros m Hm. exact (ending_total _ _ m Hm). Qed.
Lemma alloc_done_total : total Ending alloc_done (fun _ => at_rest).
Proof. intros m Hm. exact (ending_total _ _ m Hm). Qed.

Lemma workers_end_total : total (Starting 0) workers_end (fun _ => AInv).
Proof.
  intros m [a Ha]. unfold workers_end. unfold mbind at 1, M_bind at 1, mget. cbv beta iota. rewrite (as_alloc _ _ _ Ha).
  destruct (Nat.eqb_spec (al_active a) 0) as [H0|H0]; [|right; right; by exists a].
  apply (spec_weaken _ Ending Ending _ (fun _ => at_rest) _ never); [apply alloc_done_total|done|by left|done|].
  exists a. split; [apply Ha|]. apply Permutation_nil_r. rewrite (as_waits _ _ _ Ha).
  pose proof (as_active _ _ _ Ha) as Hc. destruct (started a); [done|cbn in Hc; lia].
Qed.

(** ** From the last stop to the first starts *)

Definition Stopped (m : Mgr) : Prop := exists a, allocation m = Some a ∧ fleetToken m = true ∧ waits m = [] ∧ started a = [].
Lemma Stopped_ends m : Stopped m -> Ending m.
Proof. intros (a & Ha & _ & Hw & _). by exists a. Qed.
Lemma Stopped_settled : settled Stopped.
Proof.
  intros m m' Hw Ha Ht (a & H1 & H2 & H3 & H4). exists a. rewrite Ha, Ht. split_and!; try done.
  apply Permutation_nil_r. by rewrite Hw, H3.
Qed.
Lemma pres_spec_total {A} I (x : Sync A) : pres I x -> spec I x (fun _ => I) (fun _ => I).
Proof. intros Hx m Hm. specialize (Hx m Hm). by destruct (x m) as [[]]. Qed.
Lemma rest_inv P {A} (x : Sync A) : total P x (fun _ => at_rest) -> total P x (fun _ => AInv).
Proof. intros Hx. eapply spec_weaken; [exact Hx|done|by left|done]. Qed.

Lemma start_entries_total : total Stopped (start_entries deps) (fun _ => AInv).
Proof.
  intros m Hm. pose proof Hm as (a & Ha & _). unfold start_entries. unfold mbind at 1, M_bind at 1, mget. cbv beta iota. rewrite Ha.
  cbv zeta. refine (spec_at Stopped _ _ _ _ _ Hm). set (n := Nat.min 4 _).
  pose proof (settled_frame _ Stopped_settled) as Hframe.
  apply (spec_bind _ _ _ (fun _ => Stopped)).
  - apply (spec_try _ _ _ _ _ (fun _ => Stopped)); [|intros why; by apply spec_ret].
    apply (spec_bind _ _ _ (fun _ => Stopped)); [apply pres_spec_total, q_validateFleetPlans, Hframe|]. intros _.
    apply (spec_bind _ _ _ (fun _ => Stopped)); [apply pres_spec_total, q_modify; done|]. intros _. by apply spec_ret.
  - intros [why|].
    + apply rest_inv. eapply spec_weaken; [apply alloc_fail_total|apply Stopped_ends|done|done].
    + apply (spec_bind _ _ _ (fun _ => Starting (n + 0))).
      * apply spec_modify. intros m1 (a1 & H1 & H2 & H3 & H4). rewrite H1. eexists. split; try done; cbn [al_active].
        -- change (waits m1 ≡ₚ W_start <$> started a1). by rewrite H3, H4.
        -- change (started _) with (started a1). rewrite H4. cbn. lia.
        -- lia.
        -- change (started _) with (started a1). rewrite H4. by intros i ?%elem_of_nil.
      * intros []. apply (spec_bind _ _ _ (fun _ => Starting 0)); [apply workers_total|]. intros []. apply workers_end_total.
Qed.

Lemma awaiting_none a : forallb present (al_stops a) = true -> awaiting a = [].
Proof.
  intros Hp. apply positions_none. apply Forall_forall. intros x Hx. rewrite forallb_forall in Hp.
  by rewrite (Hp x) by by apply list_elem_of_In.
Qed.
Lemma awaiting_some a : forallb present (al_stops a) = false -> awaiting a <> [].
Proof.
  intros Hp Hn. assert (forallb present (al_stops a) = true) as Ht; [|congruence]. apply forallb_forall.
  intros x [i Hi]%list_elem_of_In%list_elem_of_lookup. destruct (present x) eqn:E; [done|]. exfalso.
  assert (i ∈ awaiting a) as Hin by (apply positions_elem; exists x; by rewrite E). rewrite Hn in Hin. by apply elem_of_nil in Hin.
Qed.

Lemma stops_settled_total : total (fun m => exists a, at_stop a m) (stops_settled deps) (fun _ => AInv).
Proof.
  intros m [a Ha]. unfold stops_settled. unfold mbind at 1, M_bind at 1, mget. cbv beta iota. rewrite (ap_alloc _ _ Ha).
  destruct (forallb present (al_stops a)) eqn:Hp; cbn [negb]; [|right; left; exists a; split; [done|by apply awaiting_some]].
  assert (Stopped m) as Hm.
  { exists a. destruct Ha as [H1 H2 H3 H4]. rewrite (awaiting_none a Hp) in H3. split_and!; try done. by apply Permutation_nil_r. }
  destruct (head _) as [e|].
  - refine (spec_at Ending _ _ _ _ _ (Stopped_ends m Hm)). apply rest_inv, alloc_fail_total.
  - destruct (closed m).
    + refine (spec_at Ending _ _ _ _ _ (Stopped_ends m Hm)). apply rest_inv, alloc_end_total.
    + refine (spec_at Stopped _ _ _ _ _ Hm). apply start_entries_total.
Qed.

(** ** The continuations *)

Lemma awaiting_set a i r : i ∈ awaiting a ->
  awaiting a ≡ₚ i :: awaiting {| al_run := al_run a; al_stops := <[i := Some r]> (al_stops a); al_next := al_next a; al_active := al_active a |}.
Proof.
  intros Hi. apply positions_less; [done| |].
  - intros (x & Hx & Hp)%positions_elem. cbn in Hx. apply positions_elem in Hi as (y & Hy & _).
    rewrite list_lookup_insert_eq in Hx by (by eapply lookup_lt_Some). by injection Hx as <-.
  - intros k Hk. rewrite !positions_elem. cbn. by rewrite list_lookup_insert_ne.
Qed.

(** The job of the stop [i] has left the queues. *)
Definition Left (i : nat) (m : Mgr) : Prop := exists a, allocation m = Some a ∧ fleetToken m = true ∧
  W_stop i :: waits m ≡ₚ W_stop <$> awaiting a ∧ started a = [].
Lemma stop_settled_total i r : total (Left i) (stop_settled i r) (fun _ m => exists a, at_stop a m).
Proof.
  apply spec_modify. intros m (a & Ha & Ht & Hw & Hs). rewrite Ha. eexists. split; [reflexivity|done| |exact Hs].
  assert (i ∈ awaiting a) as Hi.
  { assert (W_stop i ∈ W_stop <$> awaiting a) as (k & [= <-] & Hk)%list_elem_of_fmap; [rewrite <-Hw; left|done]. }
  rewrite (awaiting_set a i r Hi) in Hw. apply (Permutation_cons_inv (a := W_stop i)). exact Hw.
Qed.

(** [AInv] once the job that carries [x] has been popped *)
Definition popped (x : Wait) (m : Mgr) : Prop := exists m0, AInv m0 ∧ waits m0 ≡ₚ x :: waits m ∧
  allocation m = allocation m0 ∧ fleetToken m = fleetToken m0.

Lemma then_stopped_total i r : total (popped (W_stop i)) (then_stopped deps i r) (fun _ => AInv).
Proof.
  intros m (m0 & Hi & Hw & Ha & Ht).
  assert (Left i m) as Hm.
  { destruct Hi as [(_ & _ & H3)|[(a & [H1 H2 H3 H4] & _)|(a & [H1 H2 H3 _ _ _] & _)]].
    - rewrite H3 in Hw. by apply Permutation_nil_cons in Hw.
    - exists a. rewrite Ha, Ht, <-Hw. done.
    - rewrite H3 in Hw. assert (W_stop i ∈ W_start <$> started a) as (k & ? & _)%list_elem_of_fmap; [rewrite Hw; left|done]. }
  refine (spec_at (Left i) _ _ _ _ _ Hm). unfold then_stopped. eapply spec_bind; [apply stop_settled_total|]. intros []. apply stops_settled_total.
Qed.

Lemma then_started_total i r : total (popped (W_start i)) (then_started i r) (fun _ => AInv).
Proof.
  intros m (m0 & Hi & Hw & Ha & Ht).
  assert (Taken 0 i m) as (a & Hm).
  { destruct Hi as [(_ & _ & H3)|[(a & [H1 H2 H3 H4] & _)|(a & [H1 H2 H3 H4 H5 H6] & _)]].
    - rewrite H3 in Hw. by apply Permutation_nil_cons in Hw.
    - rewrite H3 in Hw. assert (W_start i ∈ W_stop <$> awaiting a) as (k & ? & _)%list_elem_of_fmap; [rewrite Hw; left|done].
    - exists a. split; [by rewrite Ha|by rewrite Ht|by rewrite <-Hw|done..|].
      assert (W_start i ∈ W_start <$> started a) as (k & [= <-] & Hk)%list_elem_of_fmap; [rewrite <-H3, Hw; left|done]. }
  unfold then_started. set (f := match r with Ok _ => _ | Err _ => _ end).
  assert (forall x, is_starting (f x) = false) as Hf by (by destruct r).
  destruct (take_off 0 i f m (ex_intro _ a Hm) Hf) as (m1 & Hset & Hm1).
  unfold mbind at 1, M_bind at 1. rewrite Hset. cbv beta iota. refine (spec_at (Starting 1) _ _ _ _ _ Hm1).
  eapply spec_bind; [apply save_run_starting|]. intros []. eapply spec_bind; [apply (worker_turn_total 0)|]. intros [].
  apply workers_end_total.
Qed.

(** ** Admission *)

(** The first [k] of [n] stops have been called. *)
Definition Stops (n k : nat) (m : Mgr) : Prop := exists a ks, allocation m = Some a ∧ fleetToken m = true ∧ started a = [] ∧
  length (al_stops a) = n ∧ (forall i, (k <= i < n)%nat -> al_stops a !! i = Some None) ∧
  waits m ≡ₚ W_stop <$> ks ∧ NoDup ks ∧ forall i, i ∈ ks <-> i ∈ awaiting a ∧ (i < k)%nat.
Lemma Stops_settled n k : settled (Stops n k).
Proof. intros m m' Hw Ha Ht (a & ks & Hs). exists a, ks. by rewrite Ha, Ht, Hw. Qed.

Lemma stop_call_total n k id : (k < n)%nat ->
  total (Stops n k) (mtry (stop id true (Then_stopped k)) (fun why => stop_settled k (Err why))) (fun _ => Stops n (S k)).
Proof.
  intros Hk. apply (spec_try _ _ _ _ _ (fun _ => Stops n k)).
  - eapply spec_weaken; [apply (enqueues_stop _ (Then_stopped k) (Stops_settled n k))|done| |done].
    intros _ m' (m1 & id' & w & (a & ks & H1 & H2 & H3 & H4 & H5 & H6 & H7 & H8) & ->). exists a, (k :: ks).
    assert (k ∈ awaiting a) as Hin by (apply positions_elem; exists None; split; [apply H5; lia|done]).
    split_and!; try done.
    + intros i Hi. apply H5. lia.
    + rewrite waits_enqueue. cbn. by rewrite H6.
    + constructor; [|done]. intros [_ ?]%H8. lia.
    + intros i. rewrite elem_of_cons, H8. split; [intros [->|[? ?]]; split; auto; lia|].
      intros [Hi Hlt]. destruct (decide (i = k)); [by left|right; split; [done|lia]].
  - intros why. apply spec_modify. intros m (a & ks & H1 & H2 & H3 & H4 & H5 & H6 & H7 & H8). rewrite H1.
    assert (k ∈ awaiting a) as Hin by (apply positions_elem; exists None; split; [apply H5; lia|done]).
    pose proof (awaiting_set a k (Err why) Hin) as Hs. eexists _, ks. split_and!; [reflexivity|done|exact H3|..].
    + cbn. by rewrite length_insert.
    + intros i Hi. cbn. rewrite list_lookup_insert_ne by lia. apply H5. lia.
    + exact H6.
    + done.
    + intros i. rewrite H8, Hs, elem_of_cons. pose proof (positions_NoDup (fun x => negb (present x)) (al_stops a)) as Hnd.
      fold (awaiting a) in Hnd. rewrite Hs in Hnd. apply NoDup_cons in Hnd as [Hni _]. split.
      * intros [[->|Hi] Hlt]; [lia|]. split; [done|lia].
      * intros [Hi Hlt]. split; [by right|]. destruct (decide (i = k)) as [->|]; [done|lia].
Qed.
Lemma stop_calls_total (l : list RunEntry) : forall n k, n = (k + length l)%nat -> total (Stops n k)
  (mmap_i k l (fun i e => mtry (stop (run_id_of e) true (Then_stopped i)) (fun why => stop_settled i (Err why)))) (fun _ => Stops n n).
Proof.
  induction l as [|e l IH]; intros n k ->; cbn [mmap_i length].
  - rewrite Nat.add_0_r. by apply spec_ret.
  - eapply spec_bind; [apply stop_call_total; lia|]. intros [].
    eapply spec_bind; [apply (IH _ (S k)); lia|]. intros ys. by apply spec_ret.
Qed.

Definition Token (m : Mgr) : Prop := allocation m = None ∧ fleetToken m = true ∧ waits m = [].
Lemma performAllocation_total x : total Token (performAllocation deps x) (fun _ => AInv).
Proof.
  unfold performAllocation. apply (spec_bind _ _ _ (fun _ => Stops (length (fr_entries x)) 0)).
  { apply spec_modify. intros m (Ha & Ht & Hw). eexists _, []. split_and!; [reflexivity|done| | | | | |].
    - apply positions_none. cbn. apply Forall_fmap, Forall_true. done.
    - cbn. apply length_fmap.
    - intros i Hi. cbn. rewrite list_lookup_fmap. destruct (fr_entries x !! i) eqn:E; [done|]. apply lookup_ge_None in E. lia.
    - change (waits m ≡ₚ []). by rewrite Hw.
    - constructor.
    - intros i. rewrite elem_of_nil. split; [done|lia]. }
  intros []. apply (spec_bind _ _ _ (fun _ => Stops (length (fr_entries x)) 0)).
  { apply (spec_weaken _ _ (fun m => exists a, (fun a m => Stops (length (fr_entries x)) 0 m ∧ allocation m = Some a) a m)
      _ (fun _ m => exists a, (fun a m => Stops (length (fr_entries x)) 0 m ∧ allocation m = Some a) a m) _ never).
    - apply save_run_keeps; [by intros a m []| |].
      + intros m m' a Ho Ha Ht [H1 H2]. split; [|by rewrite Ha]. by apply (settled_frame _ (Stops_settled _ _) m m').
      + intros a f m [(a' & ks & H1 & H2 & H3 & H4) Ha] Hf. rewrite Ha in H1. injection H1 as <-. split; [|done].
        exists (with_run f a), ks. split; [done|]. split; [done|]. split; [|done]. unfold started. cbn. by rewrite Hf.
    - intros m Hm. pose proof Hm as (a & ks & Ha & _). by exists a.
    - by intros _ m (a & Hm & _).
    - done. }
  intros []. eapply spec_bind; [apply stop_calls_total; done|]. intros ys.
  eapply spec_weaken; [apply stops_settled_total| |done|done]. intros m (a & ks & H1 & H2 & H3 & H4 & H5 & H6 & H7 & H8).
  exists a. split; try done. rewrite H6. f_equiv. apply NoDup_Permutation; [done|apply positions_NoDup|]. intros i. rewrite H8.
  split; [by intros []|]. intros Hi. split; [done|]. apply positions_elem in Hi as (y & Hy & _). apply lookup_lt_Some in Hy. lia.
Qed.
End workers.

(** ** Methods that keep the invariant *)

Section kept.
Context `{Host} (deps : Deps).

Definition AInv_frame := settled_frame _ AInv_settled.
Definition AInv_queue := mild_queue AInv AInv_frame (settled_queue _ AInv_settled).

Lemma AInv_token m : AInv m -> fleetToken m = false -> at_rest m.
Proof. intros [Hm|[(a & [] & _)|(a & [] & _)]]; congruence. Qed.
Lemma at_rest_settled : settled at_rest.
Proof. intros m m' H1 H2 H3. by apply at_rest_same. Qed.
Lemma Token_settled : settled Token.
Proof. intros m m' Hw Ha Ht (H1 & H2 & H3). split_and!; [by rewrite Ha|by rewrite Ht|]. apply Permutation_nil_r. by rewrite Hw, H3. Qed.

(** Methods called at rest *)
Definition rests {A} (x : Sync A) : Prop := forall m, at_rest m -> AInv (x m).2.
Lemma rests_bind {A C} (x : Sync A) (f : A -> Sync C) : pres at_rest x -> (forall a, rests (f a)) -> rests (x ≫= f).
Proof.
  intros Hx Hf m Hm. specialize (Hx m Hm). unfold mbind, M_bind. destruct (x m) as [[a|e] m']; [by apply Hf|by left].
Qed.
Lemma rests_get {C} (f : Mgr -> Sync C) : (forall m, rests (f m)) -> rests (mget ≫= f).
Proof. intros Hf m Hm. by apply Hf. Qed.
Lemma rests_throw {A} e : rests (@mthrow _ _ A e).
Proof. by left. Qed.
Lemma rests_if {A} (b : bool) (x y : Sync A) : rests x -> rests y -> rests (if b then x else y).
Proof. by destruct b. Qed.

Lemma rests_total {A} (x : Sync A) : total at_rest x (fun _ => AInv) -> rests x.
Proof. intros Hx m Hm. specialize (Hx m Hm). by destruct (x m) as [[]]. Qed.

Lemma rests_take x {A} (a : A) : rests (mmodify (set_fleetToken true) ;;
  regw (fun _ => saveFleetRun x) ;;
  mfor (fr_entries x) (fun e => updateDep (run_id_of e) (pt (Some draining) None (Some None) None)) ;;
  performAllocation deps x ;; mret a).
Proof.
  pose proof (settled_frame _ Token_settled) as Htoken. apply rests_total.
  apply (spec_bind _ _ _ (fun _ => Token)); [by apply spec_modify; intros m (H1 & _ & H3)|]. intros [].
  apply (spec_bind _ _ _ (fun _ => Token)); [by apply spec_modify; intros m'; apply Htoken|]. intros [].
  apply (spec_bind _ _ _ (fun _ => Token)).
  { apply (spec_mfor _ _ Token). intros e _. by apply spec_modify; intros m'; apply Htoken. }
  intros []. eapply spec_bind; [apply performAllocation_total|]. intros []. by apply spec_ret.
Qed.

Lemma a_applyAllocation id : pres AInv (applyAllocation deps id).
Proof.
  pose proof (settled_frame _ at_rest_settled) as Hrest. intros m Hm. unfold applyAllocation.
  unfold mbind at 1, M_bind at 1, mget. cbv beta iota. destruct (fleetRun _ id) as [x|]; [|done].
  destruct (negb _); [done|]. destruct (closed m || fleetToken m || fleetPlanning m) eqn:E; [done|].
  apply orb_false_iff in E as [[_ Ht]%orb_false_iff _]. apply AInv_token in Ht; [|done]. revert m Hm Ht.
  intros m0 _. revert m0.
  apply rests_bind; [by apply q_updatingNode|]. intros u. apply rests_get. intros m.
  apply rests_if; [apply rests_throw|]. apply rests_if; [apply rests_throw|].
  apply rests_bind; [by apply q_fleetInput|]. intros input. apply rests_if; [apply rests_throw|].
  apply rests_if; [apply rests_throw|]. apply rests_bind; [by apply q_validateFleetPlans|]. intros []. apply rests_get. intros m1.
  apply rests_take.
Qed.

Lemma a_sync_turn t : pres AInv (sync_turn deps t).
Proof.
  destruct t; try (apply q_sync_turn; [exact AInv_frame|exact AInv_queue|done]).
  cbn [sync_turn]. apply pres_bind; [apply a_applyAllocation|]. intros a. apply pres_ret.
Qed.
Lemma total_pres {A} P (x : Sync A) m : total P x (fun _ => AInv) -> P m -> AInv (x m).2.
Proof. intros Hx Hm. specialize (Hx m Hm). by destruct (x m) as [[]]. Qed.

(** The end of a job, its continuation included *)
Lemma a_end id j r m : AInv m -> head_job id j m -> AInv ((pop_job id ;; run_after deps id r (jb_after j)) m).2.
Proof.
  intros Hm (m1 & Hp & Hw & Ha & Ht)%pop_head. unfold mbind at 1, M_bind at 1. rewrite Hp.
  destruct (wait_of j) as [w|] eqn:Ej.
  - assert (popped w m1) as Hpop by (by exists m).
    unfold wait_of, waits_for in Ej. unfold run_after. destruct (jb_after j); try done; injection Ej as <-.
    + by apply (total_pres _ _ _ (then_stopped_total deps i r)).
    + by apply (total_pres _ _ _ (then_started_total i r)).
  - apply q_run_after; [exact AInv_frame|exact AInv_queue|done|]. by apply (AInv_same m m1).
Qed.
End kept.

(** ** Every turn of the process *)

Section turns.
Context `{Host} (deps : Deps).

Lemma alloc_run r t l : AInv (mgr (run deps (boot deps r t) l)).
Proof. apply sys_run; [exact AInv_frame|apply a_sync_turn|intros id j x m; apply a_end|by left]. Qed.

Lemma AInv_waits m : AInv m -> fleetToken m = present (allocation m) ∧ (present (allocation m) = true <-> waits m <> []).
Proof.
  intros [(Ha & Ht & Hw)|[(a & [H1 H2 H3 H4] & Hn)|(a & [H1 H2 H3 H4 H5 H6] & Hn)]].
  - by rewrite Ha, Ht, Hw.
  - rewrite H1, H2. split; [done|]. split; [|done]. intros _ E. rewrite E in H3. symmetry in H3.
    apply Permutation_nil_r, fmap_nil_inv in H3. done.
  - rewrite H1, H2. split; [done|]. split; [|done]. intros _ E. rewrite E in H3. symmetry in H3.
    apply Permutation_nil_r, fmap_nil_inv in H3. by rewrite H3 in H4.
Qed.
Lemma started_phase a i : i ∈ started a <-> exists e, fr_entries (al_run a) !! i = Some e ∧ re_phase e = Some q_starting.
Proof. unfold started. rewrite positions_elem. unfold is_starting. by setoid_rewrite bool_decide_eq_true. Qed.
Lemma awaiting_elem a i : i ∈ awaiting a -> al_stops a !! i = Some None.
Proof. intros ([x|] & Hx & Hp)%positions_elem; [done|]. by rewrite Hx. Qed.

(** C7: Whatever happens after the control process starts, an allocation never hangs: the fleet token is held exactly while
    an allocation is performed, and then some queued job resumes it when it settles, so that the token is free once every
    queue is empty.  No job resumes it twice; while it waits for stops no start of it is queued, an entry has a queued start
    exactly when its phase is starting, and there are at most four. *)
Theorem allocation_never_stuck r t l : let m := mgr (run deps (boot deps r t) l) in
  fleetToken m = present (allocation m) ∧ (present (allocation m) = true <-> waits m <> []) ∧
  (operations m = ∅ -> fleetToken m = false) ∧ NoDup (waits m) ∧
  forall a, allocation m = Some a ->
    (length (started a) <= 4)%nat ∧
    (forall i, W_start i ∈ waits m <-> exists e, fr_entries (al_run a) !! i = Some e ∧ re_phase e = Some q_starting) ∧
    (forall i, W_stop i ∈ waits m -> al_stops a !! i = Some None ∧ forall k, W_start k ∉ waits m).
Proof.
  intros m. pose proof (alloc_run r t l) as Hm. fold m in Hm. destruct (AInv_waits m Hm) as [Ht Hw].
  split; [done|]. split; [done|]. split.
  { intros Ho. rewrite Ht. apply not_true_is_false. rewrite Hw. unfold waits, jobs. rewrite Ho, map_to_list_empty. by intros []. }
  destruct Hm as [(H1 & H2 & H3)|[(a & [H1 H2 H3 H4] & Hn)|(a & [H1 H2 H3 H4 H5 H6] & Hn)]]; rewrite ?H1.
  - rewrite H3. split; [constructor|done].
  - split; [rewrite H3; apply NoDup_fmap; [by intros ?? [= ->]|apply positions_NoDup]|]. intros a' [= <-]. rewrite H4.
    split; [cbn; lia|]. split.
    + intros i. rewrite <-started_phase, H4, H3, elem_of_nil. split; [|done]. by intros (? & ? & _)%list_elem_of_fmap.
    + intros i. rewrite H3. intros (k & [= ->] & Hk)%list_elem_of_fmap. split; [by apply awaiting_elem|].
      intros j. rewrite H3. by intros (? & ? & _)%list_elem_of_fmap.
  - split; [rewrite H3; apply NoDup_fmap; [by intros ?? [= ->]|apply positions_NoDup]|]. intros a' [= <-].
    split; [lia|]. split.
    + intros i. rewrite <-started_phase, H3. split; [by intros (? & [= ->] & ?)%list_elem_of_fmap|apply list_elem_of_fmap_2].
    + intros i. rewrite H3. by intros (? & ? & _)%list_elem_of_fmap.
Qed.
End turns.
