(* ===== verification/MoveFacts.v ===== *)
(** * Update leases and moves

    What an update lease waits for and keeps out, and a move that never ends. *)

From S2P Require Import Prelude Async JsNum Json Types Validate PhasePlan Planner PlannerSound Resources Fleet Topology Registry Manager Deployments Allocation ControlLoop Scenario.

Local Open Scope string_scope.
Local Open Scope Z_scope.

Section lease.
Context `{Host}.

(** An unexpired lease blocks starts and further leases. *)
Lemma updating_leased l m : updateLease m = Some l -> now m < le_expiresAt l -> updatingNode m = (Ok (Some (le_nodeId l)), m).
Proof.
  intros Hl Hn. unfold updatingNode. rewrite Hl. destruct (Z.leb_spec (le_expiresAt l) (now m)); [lia|]. by rewrite Hl.
Qed.

Lemma sync_ok {A B} (x : Sync A) (f : A -> Sync B) m b m' : (x ≫= f) m = (Ok b, m') ->
  exists a m1, x m = (Ok a, m1) /\ f a m1 = (Ok b, m').
Proof. unfold mbind, M_bind. destruct (x m) as [[a|e] m1]; [|done]. eauto. Qed.

Lemma sync_run {A B} (x : Sync A) (f : A -> Sync B) m a m1 : x m = (Ok a, m1) -> (x ≫= f) m = f a m1.
Proof. unfold mbind, M_bind. by intros ->. Qed.
Lemma sync_err {A B} (x : Sync A) (f : A -> Sync B) m e m1 : x m = (Err e, m1) -> (x ≫= f) m = (Err e, m1).
Proof. unfold mbind, M_bind. by intros ->. Qed.

(** What [start] does before it looks at the lease changes neither the lease nor the clock. *)
Lemma clear_lease id m : exists m', clearExclusions id m = (Ok tt, m') /\ updateLease m' = updateLease m /\ now m' = now m.
Proof.
  unfold clearExclusions. unfold mbind at 1, M_bind at 1, mget. cbv beta iota.
  destruct (al_get _ _) as [x|]; [case_bool_decide|]; (eexists; split; [reflexivity|done]).
Qed.

Lemma start_leased id recovering holder abandon fromReady after l m :
  updateLease m = Some l -> now m < le_expiresAt l ->
  exists e, (start id recovering holder abandon fromReady after m).1 = Err e.
Proof.
  intros Hl Hn. unfold start.
  destruct ((mwhen (negb recovering) (clearExclusions id)) m) as [r m1] eqn:E1.
  assert (r = Ok tt /\ updateLease m1 = Some l /\ now m1 = now m) as (-> & Hl1 & Hn1).
  { destruct recovering; cbn in E1; [by injection E1 as <- <-|]. destruct (clear_lease id m) as (m' & Hm & H1 & H2).
    rewrite Hm in E1. injection E1 as <- <-. by rewrite H1. }
  rewrite (sync_run _ _ _ _ _ E1). destruct (assertFleetAccess holder m1) as [[[]|e] m2] eqn:E2.
  2: { rewrite (sync_err _ _ _ _ _ E2). by eexists. }
  assert (m2 = m1) as ->.
  { unfold assertFleetAccess in E2. apply sync_ok in E2 as (? & ? & [= <- <-] & E2). by destruct (_ && _); [|injection E2]. }
  rewrite (sync_run _ _ _ _ _ E2). destruct (must id m1) as [[d|e] m2] eqn:E3.
  2: { rewrite (sync_err _ _ _ _ _ E3). by eexists. }
  assert (m2 = m1) as ->.
  { unfold must in E3. apply sync_ok in E3 as (? & ? & [= <- <-] & E3). by destruct (getDeployment _ _); [injection E3|]. }
  rewrite (sync_run _ _ _ _ _ E3), (sync_run mget _ m1 m1 m1) by done. destruct (closed m1); [by eexists|].
  rewrite (sync_run _ _ _ _ _ (updating_leased l m1 Hl1 ltac:(lia))). by eexists.
Qed.

Lemma acquire_leased l n m : updateLease m = Some l -> now m < le_expiresAt l -> (acquireUpdate n m).1 = Ok None.
Proof.
  intros Hl Hn. unfold acquireUpdate, mbind, M_bind, mget. destruct (_ || _); [done|]. by rewrite (updating_leased l m).
Qed.

(** C34: An update lease is only granted over a quiet control plane and is exclusive.  When it is granted for
    a node, no job, reconnect, distribution or allocation is running and no deployment using the node has
    a request in flight; it expires after two minutes; and as long as it is held and has not expired, in
    whatever state the control plane is then, no deployment starts and no second lease is granted. *)
Theorem update_lease_exclusive n m l m' : acquireUpdate n m = (Ok (Some l), m') ->
  operations m = ∅ /\ reconnecting m = ∅ /\ distributionApplications m = ∅ /\ fleetToken m = false /\
  (forall d, d ∈ rg_deployments (reg m) -> n ∈ dep_nodes d -> load m (dep_id d) <= 0) /\
  updateLease m' = Some l /\ le_nodeId l = n /\ le_expiresAt l = now m + 120000 /\
  forall m2, updateLease m2 = Some l -> now m2 < le_expiresAt l ->
    (forall n', (acquireUpdate n' m2).1 = Ok None) /\
    (forall id recovering holder abandon fromReady after,
       exists e, (start id recovering holder abandon fromReady after m2).1 = Err e).
Proof.
  intros Ha. unfold acquireUpdate in Ha. apply sync_ok in Ha as (? & m0 & [= <- <-] & Ha).
  destruct (closed m || _ || _); [done|]. apply sync_ok in Ha as (u & m1 & Hu & Ha).
  assert (reg m1 = reg m /\ inflight m1 = inflight m /\ now m1 = now m) as (Hr & Hi & Ht).
  { unfold updatingNode in Hu. destruct (updateLease m) as [le|]; [destruct (_ <=? _)|]; by injection Hu as _ <-. }
  destruct (present u); [done|]. destruct (negb (bool_decide (operations m = ∅)) || _ || _ || _ || _) eqn:Eq; [done|].
  apply orb_false_iff in Eq as [Eq _]. apply orb_false_iff in Eq as [Eq Hf].
  apply orb_false_iff in Eq as [Eq Hrec]. apply orb_false_iff in Eq as [Ho Hd].
  apply negb_false_iff, bool_decide_eq_true in Ho. apply negb_false_iff, bool_decide_eq_true in Hd.
  apply negb_false_iff, bool_decide_eq_true in Hrec.
  apply sync_ok in Ha as (? & m2 & [= <- <-] & Ha). apply sync_ok in Ha as (? & m3 & [= <- <-] & Ha).
  destruct (negb _) eqn:Erec; [done|]. cbv zeta in Ha. destruct (existsb _ _) eqn:Eu; [done|].
  apply sync_ok in Ha as (token & m4 & [= <- <-] & Ha). apply sync_ok in Ha as (? & m5 & [= <- <-] & Ha).
  injection Ha as <- <-. cbn in Eu. split_and!; try done.
  - intros d Hin Hn. destruct (Z.le_gt_cases (load m (dep_id d)) 0) as [?|Hlt]; [done|]. exfalso.
    rewrite <-not_true_iff_false in Eu. apply Eu, existsb_exists. exists d. split.
    + apply filter_In. rewrite <-list_elem_of_In. split; [|by apply bool_decide_eq_true].
      unfold listDeployments, desc. rewrite js_sort_elem. by rewrite Hr.
    + unfold load in *. cbn. rewrite Hi. by apply Z.ltb_lt.
  - cbn. by rewrite Ht.
  - intros m6 Hl Hn. split; intros; [by eapply acquire_leased|by eapply start_leased].
Qed.

End lease.

(** ** A move without end *)

Definition mv_profile : ModelProfile := demo_profile "demo" 24.
Definition mv_deps : Deps := {|
  dp_profiles := [mv_profile]; dp_recoveryDelayMs := None; dp_stopTimeoutMs := None; dp_reconnectGraceMs := None;
  dp_moveIntervalMs := None; dp_crashCooldownMs := None; dp_moveSettleMs := None; dp_wedgedLoadMs := None;
  dp_nativeQualifications := Some []; dp_serverPortBase := 18080; dp_reverseDial := false |}.

Definition mv_entry (n : NodeRow) : NodeEntry :=
  {| ne_row := n; ne_pubJwk := ""; ne_arch := "x64"; ne_enrolledAt := 0; ne_lastSeen := None; ne_agentVersion := None |}.

(** Served by [z], whose engine exited once before; [b] offers more, and [c] holds the update lease. *)
Definition mv_nodes : list NodeRow :=
  [demo_node "z" 6000 8000 [demo_model] None; demo_node "b" 6000 16000 [demo_model] None;
   demo_node "c" 6000 8000 [demo_model] None].

Definition mv_plan : option Plan :=
  match planDeployment String.eqb String.compare
    {| in_spec := demo_spec replica "demo" None; in_profile := mv_profile; in_nodes := take 1 mv_nodes;
       in_usedPorts := ∅; in_nativeQualifications := [] |} with
  | Ok p => Some p
  | Err _ => None
  end.

Definition mv_dep : Deployment := {|
  dep_id := "d"; dep_spec := demo_spec replica "demo" None; dep_savedDistribution := None; dep_state := ready;
  dep_plan := mv_plan; dep_endpoint := Some ("z", 18080, "m"); dep_error := None; dep_createdAt := 0; dep_updatedAt := 0 |}.
Definition mv_row : AssignmentRow := {|
  ar_id := "as-0"; ar_deploymentId := "d"; ar_nodeId := "z"; ar_body := AStop {| so_id := "as-0"; so_deploymentId := "d" |};
  ar_state := Some a_stopped; ar_detail := Some "engine exited (code 139)"; ar_updatedAt := 0; ar_retired := true |}.

Definition mv_state (events : list EventRow) (intents : list IntentRow) (excluded : list (string * Excluded)) (moves : gmap string Z) : Mgr := {|
  reg := {| rg_nodes := mv_entry <$> mv_nodes; rg_joinCodes := []; rg_deployments := [mv_dep]; rg_intents := intents;
            rg_assignments := [mv_row]; rg_events := events; rg_apiKeys := []; rg_fleetRuns := [] |};
  now := 1000000; fresh := 0; conns := {["z"; "b"; "c"]}; quiet := ∅; sent := []; inflight := ∅;
  updateLease := Some {| le_nodeId := "c"; le_token := "t"; le_expiresAt := 1100000 |}; updateRecovery := [];
  operations := ∅; distributionApplications := ∅; generations := ∅; closed := false; fleetToken := false;
  fleetPlanning := false; allocation := None; fleetWorker := None; nativeLifetimes := ∅; reconnecting := ∅; lastMove := moves; blocked := ∅;
  moveExcluded := excluded; tokenBuckets := ∅; notices := [] |}.

Definition mv_intents : list IntentRow :=
  [{| ir_deploymentId := "d"; ir_intent := {| di_running := true; di_attempts := 0; di_retryAt := 0 |} |}].

(** The two events of a round *)
Definition mv_round (events : list EventRow) : list EventRow :=
  let say text r := event 1000000 "deployment" text None (Some "d") r in
  rg_events
    (say "demo: re-placement did not start (node update in progress; retry after recovery); re-placing without host-z"
      (say "demo: re-placing after b joined" (reg (mv_state events [] [] ∅)))).
Definition mv_excluded : list (string * Excluded) := [("d", {| xc_nodes := ["z"]; xc_at := 1000000 |})].

Lemma mv_first again events :
  redistribute_once mv_deps again "d" "b joined" None (mv_state events mv_intents [] ∅) =
    again (mv_state (mv_round events) mv_intents mv_excluded {["d" := 1000000]}).
Proof. vm_compute. reflexivity. Qed.
Lemma mv_next again events :
  redistribute_once mv_deps again "d" "b joined" None (mv_state events mv_intents mv_excluded {["d" := 1000000]}) =
    again (mv_state (mv_round events) mv_intents mv_excluded {["d" := 1000000]}).
Proof. vm_compute. reflexivity. Qed.

(** A move can spin for ever.  While an update lease is held, [start] throws at once; [redistribute]
    takes that for a failed placement, excludes the nodes whose old assignments mention an engine exit, and
    calls itself again.  Once those nodes are excluded nothing changes any more: for a served deployment
    whose engine exited once, no number of rounds is enough. *)
Theorem redistribute_diverges fuel :
  (redistribute mv_deps fuel "d" "b joined" None (mv_state [] mv_intents [] ∅)).1 = Ok Spinning.
Proof.
  destruct fuel as [|fuel]; [done|]. cbn [redistribute]. rewrite mv_first. generalize (mv_round []).
  induction fuel as [|fuel IH]; intros events; [done|]. cbn [redistribute]. rewrite mv_next. apply IH.
Qed.

(** ** The lease on the small fleet *)

Lemma sc_leased : exists l m', acquireUpdate "n1" (mgr sc_ready) = (Ok (Some l), m').
Proof.
  assert (match (acquireUpdate "n1" (mgr sc_ready)).1 with Ok (Some _) => true | _ => false end = true) as Hb
    by (vm_compute; reflexivity).
  destruct (acquireUpdate "n1" (mgr sc_ready)) as [[[l|]|e] m']; try discriminate Hb. by exists l, m'.
Qed.

Lemma update_lease_exclusive_witness : exists l, le_nodeId l = "n1" /\
  forall m2, updateLease m2 = Some l -> now m2 < le_expiresAt l -> (acquireUpdate "n1" m2).1 = Ok None.
Proof.
  destruct sc_leased as (l & m' & Ha).
  destruct (update_lease_exclusive "n1" (mgr sc_ready) l m' Ha) as (_ & _ & _ & _ & _ & _ & Hn & _ & Hx).
  exact (ex_intro _ l (conj Hn (fun m2 H1 H2 => proj1 (Hx m2 H1 H2) "n1"))).
Defined.
