(* ===== verification/ResourcesSound.v ===== *)
(** * The ledger never lends the same capacity twice

    Resources of a node are indexed by [Res]; [amount] reads one of them off an allocation and
    charging is addition.  Claims: a plan made within a ledger keeps the ledger within the offers,
    and the ledger is exactly the sum of what the deployments and the processes left behind hold. *)

From S2P Require Import Prelude JsNum Json Types Validate PhasePlan Planner PlannerFacts PlannerSound Resources.

Inductive Res := Ram | Cpu | Gpu (id : string).

Definition amount (a : NodeAllocation) (r : Res) : Z :=
  match r with Ram => na_ramMiB a | Cpu => na_cpuCores a | Gpu g => gpu_mem (na_gpu a) g end.

(** GPU entries are distinct: [parseAllocations] checks it for explicit budgets. *)
Definition alloc_ok (a : NodeAllocation) : Prop := NoDup (gm_id <$> na_gpu a).

(** ** Charging is addition *)

Lemma gpu_mem_cons e l g : gpu_mem (e :: l) g = if bool_decide (gm_id e = g) then gm_memMiB e else gpu_mem l g.
Proof. unfold gpu_mem. simpl. by case_bool_decide. Qed.

Lemma gpu_mem_absent l g : g ∉ gm_id <$> l -> gpu_mem l g = 0.
Proof.
  induction l as [|e l IH]; [done|]. rewrite fmap_cons, not_elem_of_cons, gpu_mem_cons. intros [Hne Hl].
  rewrite bool_decide_eq_false_2 by done. auto.
Qed.

Lemma gpu_mem_add l e g :
  gpu_mem (add_gpu l e) g = gpu_mem l g + (if bool_decide (gm_id e = g) then gm_memMiB e else 0).
Proof.
  induction l as [|x l IH]; simpl.
  - rewrite gpu_mem_cons. unfold gpu_mem. simpl. destruct (bool_decide (gm_id e = g)); lia.
  - destruct (bool_decide (gm_id x = gm_id e)) eqn:H; rewrite !gpu_mem_cons; simpl; bool_to_prop.
    + rewrite H. case_bool_decide; lia.
    + rewrite IH. repeat case_bool_decide; (lia || congruence).
Qed.

Lemma gpu_mem_foldl l k g : NoDup (gm_id <$> k) -> gpu_mem (foldl add_gpu l k) g = gpu_mem l g + gpu_mem k g.
Proof.
  revert l. induction k as [|e k IH]; intros l; simpl; [unfold gpu_mem at 3; simpl; lia|].
  intros [He Hk]%NoDup_cons. rewrite IH by done. rewrite gpu_mem_add, gpu_mem_cons.
  case_bool_decide as H; [|lia]. rewrite (gpu_mem_absent k g); [lia|]. by rewrite <-H.
Qed.

Lemma used_add L v id r : alloc_ok v ->
  amount (used_on (add_allocation L v) id) r =
  amount (used_on L id) r + (if bool_decide (na_nodeId v = id) then amount v r else 0).
Proof.
  intros Hv. unfold used_on, add_allocation. cbv zeta. destruct (decide (na_nodeId v = id)) as [H|H];
    [rewrite bool_decide_eq_true_2 by done|rewrite bool_decide_eq_false_2 by done].
  - subst id. rewrite lookup_insert_eq. simpl. destruct r; simpl; [done|done|by apply gpu_mem_foldl].
  - rewrite lookup_insert_ne by done. lia.
Qed.

Definition charged (vs : list NodeAllocation) (id : string) (r : Res) : Z :=
  sumZ ((fun v => if bool_decide (na_nodeId v = id) then amount v r else 0) <$> vs).

Lemma used_addAllocations L vs id r : Forall alloc_ok vs ->
  amount (used_on (addAllocations L vs) id) r = amount (used_on L id) r + charged vs id r.
Proof.
  intros H. unfold addAllocations, charged. revert L. induction H as [|v vs Hv _ IH]; intros L; cbn [foldl].
  - rewrite fmap_nil, sumZ_nil. lia.
  - rewrite IH, used_add, fmap_cons, sumZ_cons by done. lia.
Qed.

Lemma charged_cons v vs id r :
  charged (v :: vs) id r = (if bool_decide (na_nodeId v = id) then amount v r else 0) + charged vs id r.
Proof. unfold charged. by rewrite fmap_cons, sumZ_cons. Qed.

Lemma charged_absent vs id r : id ∉ na_nodeId <$> vs -> charged vs id r = 0.
Proof.
  induction vs as [|v vs IH]; [done|]. rewrite fmap_cons, not_elem_of_cons. intros [Hne Hv].
  rewrite charged_cons, IH, bool_decide_eq_false_2 by done. lia.
Qed.

Lemma charged_unique vs v id r : NoDup (na_nodeId <$> vs) -> v ∈ vs -> na_nodeId v = id ->
  charged vs id r = amount v r.
Proof.
  intros Hnd Hin Hid. induction vs as [|x vs IH]; [by apply elem_of_nil in Hin|].
  rewrite fmap_cons in Hnd. apply NoDup_cons in Hnd as [Hx Hnd]. rewrite charged_cons.
  apply elem_of_cons in Hin as [->|Hin].
  - rewrite bool_decide_eq_true_2 by done. subst id. rewrite (charged_absent vs) by done. lia.
  - rewrite IH by done. rewrite bool_decide_eq_false_2; [lia|].
    intros <-. apply Hx. rewrite <-Hid. apply list_elem_of_fmap. eauto.
Qed.

(** ** Fitting *)

(** What is reserved on each offering node is within its offer. *)
Definition ledger_fits (nodes : list NodeRow) (L : ResourceLedger) : Prop :=
  forall n, n ∈ nodes -> is_Some (nr_offer n) -> forall r, amount (used_on L (nr_id n)) r <= amount (offeredAllocation n) r.

(** A registry whose offers went through [validateOffer] with distinct GPU entries. *)
Record registry_ok (nodes : list NodeRow) : Prop := {
  rg_ids : NoDup (nr_id <$> nodes);
  rg_gpus : forall n o, n ∈ nodes -> nr_offer n = Some o -> NoDup (gm_id <$> of_gpu o) }.

Lemma by_id_Some nodes id n : by_id nodes id = Some n -> n ∈ nodes ∧ nr_id n = id.
Proof.
  unfold by_id. intros [Hin Hid]%find_Some. bool_to_prop. rewrite elem_of_reverse in Hin. done.
Qed.

Lemma unique_row nodes n n' : NoDup (nr_id <$> nodes) -> n ∈ nodes -> n' ∈ nodes -> nr_id n = nr_id n' -> n = n'.
Proof.
  intros Hnd (i & Hi)%list_elem_of_lookup (j & Hj)%list_elem_of_lookup Heq.
  assert (i = j) as ->; [|congruence]. eapply NoDup_lookup; [exact Hnd|..]; rewrite list_lookup_fmap.
  - by rewrite Hi.
  - rewrite Hj. simpl. by rewrite Heq.
Qed.

Definition gpu_left (used : NodeAllocation) (g : GpuMem) : GpuMem :=
  {| gm_id := gm_id g; gm_memMiB := Z.max 0 (gm_memMiB g - gpu_mem (na_gpu used) (gm_id g)) |}.

Lemma gpu_left_ids used (l : list GpuMem) : gm_id <$> (gpu_left used <$> l) = gm_id <$> l.
Proof. rewrite <-list_fmap_compose. by apply list_fmap_ext. Qed.

Lemma gpu_mem_left used (l : list GpuMem) g : NoDup (gm_id <$> l) ->
  gpu_mem (List.filter (fun g => 0 <? gm_memMiB g) (gpu_left used <$> l)) g =
  if bool_decide (g ∈ gm_id <$> l) then Z.max 0 (gpu_mem l g - gpu_mem (na_gpu used) g) else 0.
Proof.
  induction l as [|e l IH]; [done|]. rewrite !fmap_cons. intros [He Hl]%NoDup_cons. cbn [List.filter].
  assert (forall x, x ∈ gm_id <$> List.filter (fun g => 0 <? gm_memMiB g) (gpu_left used <$> l) -> x ∈ gm_id <$> l) as Hsub.
  { intros x (y & -> & Hy)%list_elem_of_fmap. apply elem_of_filter in Hy as [Hy _].
    rewrite <-(gpu_left_ids used l). apply list_elem_of_fmap. eauto. }
  destruct (decide (gm_id e = g)) as [H|H].
  - subst g. rewrite (bool_decide_eq_true_2 (_ ∈ _)) by left. rewrite gpu_mem_cons, bool_decide_eq_true_2 by done.
    destruct (0 <? gm_memMiB (gpu_left used e)) eqn:Ep; bool_to_prop; simpl in *.
    + by rewrite gpu_mem_cons, bool_decide_eq_true_2 by done.
    + rewrite gpu_mem_absent; [lia|naive_solver].
  - rewrite (gpu_mem_cons e), (bool_decide_eq_false_2 (gm_id e = g)) by done.
    erewrite (bool_decide_ext (g ∈ _ :: _)); [rewrite <-IH by done|set_solver].
    destruct (0 <? gm_memMiB (gpu_left used e)); [|done].
    by rewrite gpu_mem_cons, bool_decide_eq_false_2 by done.
Qed.

Lemma available_amount L n o r : nr_offer n = Some o -> NoDup (gm_id <$> of_gpu o) ->
  amount (offeredAllocation (available_node L n)) r =
    Z.max 0 (amount (offeredAllocation n) r - amount (used_on L (nr_id n)) r) ∨
  amount (offeredAllocation (available_node L n)) r = 0 ∧ amount (offeredAllocation n) r = 0.
Proof.
  intros Ho Hnd. unfold offeredAllocation, available_node. rewrite Ho. simpl.
  destruct r as [| |g]; simpl; [by left|by left|].
  change (fun g0 => {| gm_id := gm_id g0; gm_memMiB := _ |}) with (gpu_left (used_on L (nr_id n))).
  rewrite gpu_mem_left by done. case_bool_decide as Hg; [by left|right]. by rewrite gpu_mem_absent.
Qed.

(** ** Explicit budgets *)

Lemma bind_Ok {E A B} (m : result E A) (f : A -> result E B) b :
  (m ≫= f) = Ok b -> exists a, m = Ok a ∧ f a = Ok b.
Proof. destruct m; [eauto|done]. Qed.

Lemma parse_gpus_ids seen l gs : parse_gpus seen l = Ok gs -> NoDup (gm_id <$> gs) ∧
  Forall (fun g => (gm_id g ∉ seen) ∧ 1 <= gm_memMiB g) gs.
Proof.
  revert seen gs. induction l as [|j l IH]; intros seen gs; simpl; [intros [= <-]; split; constructor|].
  destruct j as [| | | | |o]; simpl; try done.
  destruct (only o _); [|done]. destruct (nonempty_str _) as [id|]; [|done].
  destruct (safe_pos _) as [mem|] eqn:Em; [|done]. case_bool_decide as Hs; [done|].
  intros (gs' & H & [= <-])%bind_Ok. apply IH in H as [Hnd Hall]. rewrite Forall_forall in Hall.
  assert (1 <= mem) as Hm.
  { unfold safe_pos in Em. destruct (as_num _) as [x|]; [|done]. simpl in Em. destruct (as_safe_int x); [|done].
    simpl in Em. destruct (1 <=? z) eqn:E; [|done]. bool_to_prop. by simplify_eq. }
  split.
  - constructor; [|done]. intros (g & Hg & Hin)%list_elem_of_fmap. destruct (Hall g Hin) as [Hns _].
    apply Hns. rewrite <-Hg. left.
  - constructor; [done|]. apply Forall_forall. intros g Hin. destruct (Hall g Hin) as [Hns ?].
    split; [|done]. intros ?. apply Hns. by right.
Qed.

Lemma parse_entries_ids seen l al : parse_entries seen l = Ok al ->
  NoDup (na_nodeId <$> al) ∧ Forall (fun a => (na_nodeId a ∉ seen) ∧ alloc_ok a) al.
Proof.
  revert seen al. induction l as [|j l IH]; intros seen al; simpl; [intros [= <-]; split; constructor|].
  destruct j as [| | | | |o]; simpl; try done.
  destruct (only o _); [|done]. destruct (nonempty_str _) as [id|]; [|done].
  destruct (safe_pos (jget o "ramMiB")) as [ram|]; [|done]. destruct (safe_pos (jget o "cpuCores")) as [cpus|]; [|done].
  destruct (as_arr _) as [gl|]; [|done]. destruct (_ || _) eqn:Eb; [done|]. bool_to_prop.
  intros (gpu & Hg & Hr)%bind_Ok. apply bind_Ok in Hr as (rest & Hr & [= <-]).
  apply IH in Hr as [Hnd Hall]. rewrite Forall_forall in Hall. apply parse_gpus_ids in Hg as [Hg _]. split.
  - constructor; [|done]. intros (a & Ha & Hin)%list_elem_of_fmap. destruct (Hall a Hin) as [Hns _].
    apply Hns. rewrite <-Ha. left.
  - constructor; [done|]. apply Forall_forall. intros a Hin. destruct (Hall a Hin) as [Hns ?].
    split; [|done]. intros ?. apply Hns. by right.
Qed.

Lemma parseAllocations_ok v al : parseAllocations v = Ok al -> NoDup (na_nodeId <$> al) ∧ Forall alloc_ok al.
Proof.
  unfold parseAllocations. destruct v; try done. case_match; [done|]. intros [? Hal]%parse_entries_ids.
  split; [done|]. eapply Forall_impl; [exact Hal|]. by intros a [_ ?].
Qed.

Lemma assertFits_amount a n o r : nr_offer n = Some o -> (forall r, 0 <= amount (offeredAllocation n) r) ->
  assertFits a n = Ok tt -> amount a r <= amount (offeredAllocation n) r.
Proof.
  unfold assertFits. intros Ho Hnn. specialize (Hnn r). destruct (nr_online n); [|done].
  unfold offeredAllocation in *. rewrite Ho in *. case_match; [done|]. case_match eqn:Eb; [done|].
  bool_to_prop. case_match eqn:Ef; [done|]. intros _. destruct r as [| |g]; simpl in *; [done|done|].
  unfold gpu_mem at 1. case_match eqn:Eg; [|done]. apply find_Some in Eg as [Hin Hid].
  pose proof (proj1 (find_None _ _) Ef _ Hin) as Hlt. cbv beta in Hlt. bool_to_prop. by rewrite Hid in Hlt.
Qed.

Lemma check_explicit_fits available al : check_explicit available al = Ok tt ->
  Forall (fun a => exists n, by_id available (na_nodeId a) = Some n ∧ assertFits a n = Ok tt) al.
Proof.
  induction al as [|a al IH]; simpl; [constructor|]. destruct (by_id _ _) as [n|] eqn:En; [|done].
  case_bool_decide; [|done]. intros ([] & Hf & Hr)%bind_Ok. constructor; eauto.
Qed.

(** Every allocation of a plan fits what was left of its node. *)
Definition within_available (nodes : list NodeRow) (L : ResourceLedger) (a : NodeAllocation) : Prop :=
  exists n, n ∈ nodes ∧ nr_id n = na_nodeId a ∧
    forall o r, nr_offer n = Some o -> NoDup (gm_id <$> of_gpu o) ->
      amount (used_on L (nr_id n)) r <= amount (offeredAllocation n) r ->
      amount a r <= amount (offeredAllocation (available_node L n)) r.

Lemma available_id L n : nr_id (available_node L n) = nr_id n.
Proof. unfold available_node. by destruct (nr_offer n). Qed.

Lemma by_id_available nodes L id n : by_id (availableNodes nodes L) id = Some n ->
  exists n0, n0 ∈ nodes ∧ nr_id n0 = id ∧ n = available_node L n0.
Proof.
  intros [Hin Hid]%by_id_Some. unfold availableNodes in Hin. apply list_elem_of_fmap in Hin as (n0 & -> & Hin).
  exists n0. by rewrite available_id in Hid.
Qed.

Lemma offered_ok n : (forall o, nr_offer n = Some o -> NoDup (gm_id <$> of_gpu o)) -> alloc_ok (offeredAllocation n).
Proof. unfold alloc_ok, offeredAllocation. destruct (nr_offer n); [eauto|constructor]. Qed.

Lemma filter_ids_NoDup f (l : list GpuMem) : NoDup (gm_id <$> l) -> NoDup (gm_id <$> List.filter f l).
Proof. apply NoDup_fmap_filter. Qed.

Lemma available_ok L n : (forall o, nr_offer n = Some o -> NoDup (gm_id <$> of_gpu o)) ->
  alloc_ok (offeredAllocation (available_node L n)).
Proof.
  intros Hn. apply offered_ok. intros o. unfold available_node. destruct (nr_offer n) as [o'|] eqn:E; [|congruence].
  intros [= <-]. simpl. apply filter_ids_NoDup.
  change (fun g0 => {| gm_id := gm_id g0; gm_memMiB := _ |}) with (gpu_left (used_on L (nr_id n))).
  rewrite gpu_left_ids. by apply Hn.
Qed.

Lemma explicit_within nodes L al :
  check_explicit (availableNodes nodes L) al = Ok tt -> Forall (within_available nodes L) al.
Proof.
  intros H%check_explicit_fits. eapply Forall_impl; [exact H|]. intros a (n & Hn & Hf).
  apply by_id_available in Hn as (n0 & Hin & Hid & ->). exists n0. split_and!; [done..|].
  intros o r Ho Hnd _. eapply assertFits_amount; [| |exact Hf].
  - unfold available_node. by rewrite Ho.
  - intros r'. destruct (available_amount L n0 o r' Ho Hnd) as [->|[-> _]]; lia.
Qed.

Lemma mapM_Ok {E A B : Type} (f : A -> result E B) l ys : mapM_result f l = Ok ys -> Forall2 (fun x y => f x = Ok y) l ys.
Proof.
  revert ys. induction l as [|x l IH]; intros ys; simpl; [intros [= <-]; constructor|].
  intros (y & Hy & H)%bind_Ok. apply bind_Ok in H as (ys' & H & [= <-]). constructor; auto.
Qed.

Lemma offered_within nodes L ids al :
  mapM_result (fun id => n ← node_or_undefined (availableNodes nodes L) id; Ok (offeredAllocation n)) ids = Ok al ->
  na_nodeId <$> al = ids ∧ Forall (within_available nodes L) al ∧
  (registry_ok nodes -> Forall alloc_ok al).
Proof.
  intros H%mapM_Ok. induction H as [|id a ids al Ha _ (IH1 & IH2 & IH3)]; [split_and!; [done|constructor|constructor]|].
  apply bind_Ok in Ha as (n & Hn & [= <-]). unfold node_or_undefined in Hn. case_match eqn:En; [|done].
  injection Hn as ->. apply by_id_available in En as (n0 & Hin & Hid & ->).
  assert (na_nodeId (offeredAllocation (available_node L n0)) = id) as Hid'.
  { unfold offeredAllocation. rewrite available_id. by case_match. }
  split_and!.
  - rewrite fmap_cons, IH1. by f_equal.
  - constructor; [|done]. exists n0. split_and!; [done|congruence|done].
  - intros Hreg. constructor; [|auto]. apply available_ok. intros o Ho. by apply (rg_gpus _ Hreg n0).
Qed.

Lemma no_overcommit nodes L al :
  registry_ok nodes -> ledger_fits nodes L -> NoDup (na_nodeId <$> al) -> Forall alloc_ok al ->
  Forall (within_available nodes L) al -> ledger_fits nodes (addAllocations L al).
Proof.
  intros Hreg Hfit Hnd Hok Hw n Hin [o Ho] r. rewrite used_addAllocations by done.
  specialize (Hfit n Hin (mk_is_Some _ _ Ho) r). pose proof (rg_gpus _ Hreg n o Hin Ho) as Hg.
  destruct (decide (nr_id n ∈ na_nodeId <$> al)) as [Ha|Ha]; [|rewrite charged_absent by done; lia].
  apply list_elem_of_fmap in Ha as (a & Hid & Ha). rewrite (charged_unique al a) by done.
  rewrite Forall_forall in Hw. destruct (Hw a Ha) as (n' & Hin' & Hid' & Hle).
  assert (n' = n) as -> by (eapply unique_row; [apply (rg_ids _ Hreg)|done|done|congruence]).
  specialize (Hle o r Ho Hg). destruct (available_amount L n o r Ho Hg) as [E|[E1 E2]]; rewrite ?E, ?E1, ?E2 in *; lia.
Qed.

(** ** The ledger is the sum of what is held *)

(** A process that may still hold memory: its agent has not acknowledged the end, and it is no watch of an external server. *)
Definition may_run (row : AssignmentRow) : Prop :=
  ar_state row <> Some a_stopped ∧ match ar_body row with AReplica a => ra_external a = None | _ => True end.
#[export] Instance may_run_dec row : Decision (may_run row).
Proof. unfold may_run. destruct (ar_body row); apply _. Defined.

Lemma live_row_may_run row : live_row row = true <-> may_run row.
Proof.
  unfold live_row, may_run, healthWatch. rewrite andb_true_iff, negb_true_iff, bool_decide_eq_false.
  destruct (ar_body row); try tauto. destruct (ra_external _); naive_solver.
Qed.

Section exact.
Context (deployments : list Deployment) (assignments : list AssignmentRow) (nodes : list NodeRow) (exclude : gset string).

(** The deployment may have a process somewhere, and on a node. *)
Definition runs (id : string) : Prop := Exists (fun row => may_run row ∧ ar_deploymentId row = id) assignments.
Definition runs_on (id node : string) : Prop :=
  Exists (fun row => may_run row ∧ ar_deploymentId row = id ∧ ar_nodeId row = node) assignments.
(** What the owner of a node offers, nothing if it is not registered *)
Definition offer_of (node : string) (r : Res) : Z :=
  match by_id nodes node with Some n => amount (offeredAllocation n) r | None => 0 end.
Definition in_service (d : Deployment) : Prop := dep_state d ∈ [placing; loading; ready; draining].

(** What a deployment holds on a node: its allocations there, and the whole offer where a process runs that they do not cover.
    Without allocations it is the offer of every node where a process runs, or that the plan of a deployment in service names. *)
Definition held_by (node : string) (r : Res) (d : Deployment) : Z :=
  if decide (dep_id d ∈ exclude ∨ ds_kind (dep_spec d) = external ∨ ¬ in_service d ∧ ¬ runs (dep_id d)) then 0 else
  match dep_plan d ≫= pl_allocations with
  | Some al => charged al node r + (if decide (node ∉ na_nodeId <$> al ∧ runs_on (dep_id d) node) then offer_of node r else 0)
  | None =>
      if decide (runs_on (dep_id d) node ∨ in_service d ∧ node ∈ default [] (planNodeIds <$> dep_plan d)) then offer_of node r else 0
  end.
(** The deployments that are not in the registry any more but may have a process on the node *)
Definition orphans_on (node : string) : list string :=
  dedup (ar_deploymentId <$> filter (fun row => may_run row ∧ ar_nodeId row = node ∧
    ar_deploymentId row ∉ dep_id <$> deployments ∧ ar_deploymentId row ∉ exclude) assignments).

Hypothesis Hnodes : forall n, n ∈ nodes -> alloc_ok (offeredAllocation n).
Hypothesis Hplans : forall d al, d ∈ deployments -> dep_plan d ≫= pl_allocations = Some al -> Forall alloc_ok al.

Lemma used_charge_offers node r ids : NoDup ids -> forall L,
  amount (used_on (charge_offers nodes L ids) node) r =
  amount (used_on L node) r + (if decide (node ∈ ids) then offer_of node r else 0).
Proof using Hnodes.
  clear Hplans. induction 1 as [|id ids Hid _ IH]; intros L; [cbn; rewrite decide_False by (by apply not_elem_of_nil); lia|].
  change (charge_offers nodes L (id :: ids)) with
    (charge_offers nodes (match by_id nodes id with Some n => addAllocations L [offeredAllocation n] | None => L end) ids).
  rewrite IH. clear IH.
  assert (amount (used_on (match by_id nodes id with Some n => addAllocations L [offeredAllocation n] | None => L end) node) r =
    amount (used_on L node) r + (if decide (node = id) then offer_of node r else 0)) as ->.
  { unfold offer_of. destruct (decide (node = id)) as [->|Hne].
    - destruct (by_id nodes id) as [n|] eqn:E; [|lia]. apply by_id_Some in E as [Hin <-].
      rewrite used_addAllocations by (apply Forall_singleton; auto). rewrite charged_cons, bool_decide_eq_true_2; [unfold charged; rewrite fmap_nil, sumZ_nil; lia|].
      unfold offeredAllocation. by destruct (nr_offer n).
    - destruct (by_id nodes id) as [n|] eqn:E; [|lia]. apply by_id_Some in E as [Hin <-].
      rewrite used_addAllocations by (apply Forall_singleton; auto). rewrite charged_absent; [lia|].
      rewrite list_elem_of_fmap. intros (a & -> & ->%list_elem_of_singleton). apply Hne. unfold offeredAllocation. by destruct (nr_offer n). }
  destruct (decide (node = id)) as [->|Hne].
  - rewrite (decide_False (P := id ∈ ids)), decide_True by (done || left). lia.
  - destruct (decide (node ∈ ids)) as [Hin|Hin]; [rewrite decide_True by (by right)|rewrite decide_False by set_solver]; lia.
Qed.

(** The nodes of the live rows of a deployment *)
Notation rows_of id := (List.filter (fun r => live_row r && bool_decide (ar_deploymentId r = id)) assignments).
Lemma elem_live_rows row id : row ∈ rows_of id <-> row ∈ assignments ∧ may_run row ∧ ar_deploymentId row = id.
Proof using. rewrite list_elem_of_In, filter_In, <-list_elem_of_In, andb_true_iff, live_row_may_run, bool_decide_eq_true. tauto. Qed.
Lemma rows_runs_on id node : node ∈ ar_nodeId <$> rows_of id <-> runs_on id node.
Proof using.
  unfold runs_on. rewrite list_elem_of_fmap, Exists_exists. split.
  - intros (row & -> & (Hin & Hm & Hd)%elem_live_rows). eauto.
  - intros (row & Hin & Hm & Hd & Hn). exists row. rewrite elem_live_rows. done.
Qed.
Lemma rows_runs id : rows_of id = [] <-> ¬ runs id.
Proof using.
  unfold runs. rewrite Exists_exists. split.
  - intros E (row & Hin & Hrow). assert (row ∈ rows_of id) as Hr by (by apply elem_live_rows). rewrite E in Hr. by apply elem_of_nil in Hr.
  - intros Hno. destruct (rows_of id) as [|row l] eqn:E; [done|]. exfalso. apply Hno. exists row. apply elem_live_rows. rewrite E. left.
Qed.
Lemma in_service_active d : active_state (dep_state d) = true <-> in_service d.
Proof using. unfold in_service, active_state. rewrite !elem_of_cons, elem_of_nil. destruct (dep_state d); naive_solver. Qed.

Lemma used_charge_deployment L d node r : d ∈ deployments ->
  amount (used_on (charge_deployment assignments nodes exclude L d) node) r = amount (used_on L node) r + held_by node r d.
Proof using Hnodes Hplans.
  intros Hd. unfold charge_deployment, held_by. destruct (decide (dep_id d ∈ exclude)) as [Hex|Hex];
    [rewrite bool_decide_eq_true_2, decide_True by auto; cbn [orb]; lia|rewrite bool_decide_eq_false_2 by done].
  destruct (decide (ds_kind (dep_spec d) = external)) as [Hk|Hk];
    [rewrite bool_decide_eq_true_2, decide_True by auto; cbn [orb]; lia|rewrite bool_decide_eq_false_2 by done].
  cbn [orb]. cbv zeta. destruct (negb (active_state (dep_state d)) && bool_decide (rows_of (dep_id d) = [])) eqn:Eidle.
  - rewrite andb_true_iff, negb_true_iff, bool_decide_eq_true, rows_runs in Eidle.
    rewrite decide_True; [lia|]. rewrite <-in_service_active. right. right. destruct Eidle as [-> ?]. done.
  - rewrite decide_False.
    2: { intros [?|[?|[Hs Hr]]]; [done..|]. rewrite <-in_service_active, not_true_iff_false in Hs. by rewrite Hs, bool_decide_eq_true_2 in Eidle by by apply rows_runs. }
    clear Eidle. destruct (dep_plan d ≫= pl_allocations) as [al|] eqn:Ep.
    + rewrite used_charge_offers, used_addAllocations by eauto using NoDup_dedup. rewrite <-Z.add_assoc. f_equal. f_equal.
      apply decide_ext. rewrite elem_of_dedup, <-rows_runs_on, !list_elem_of_fmap. split.
      * intros (row & -> & Hrow). rewrite list_elem_of_In, filter_In, <-list_elem_of_In, negb_true_iff, bool_decide_eq_false in Hrow.
        destruct Hrow as [Hrow Hno]. split; [by rewrite <-list_elem_of_fmap|eauto].
      * intros [Hno (row & -> & Hrow)]. exists row. split; [done|].
        rewrite list_elem_of_In, filter_In, <-list_elem_of_In, negb_true_iff, bool_decide_eq_false. split; [done|by rewrite list_elem_of_fmap].
    + rewrite used_charge_offers by apply NoDup_dedup. f_equal. apply decide_ext.
      rewrite elem_of_dedup, elem_of_app, rows_runs_on, <-in_service_active.
      destruct (dep_plan d) as [p|]; cbn [fmap option_fmap option_map default from_option]; [|by rewrite elem_of_nil; tauto].
      destruct (active_state (dep_state d)); rewrite ?elem_of_nil; naive_solver.
Qed.

Lemma used_charge_deployments node r ds : ds ⊆ deployments -> forall L,
  amount (used_on (foldl (charge_deployment assignments nodes exclude) L ds) node) r =
  amount (used_on L node) r + sumZ (held_by node r <$> ds).
Proof using Hnodes Hplans.
  induction ds as [|d ds IH]; intros Hds L; cbn [foldl]; [rewrite fmap_nil, sumZ_nil; lia|].
  rewrite IH, used_charge_deployment, fmap_cons, sumZ_cons by set_solver. lia.
Qed.

(** A deployment that is gone holds the offer of each node where it may have a process. *)
Definition held_gone (node : string) (r : Res) (id : string) : Z :=
  if decide ((id ∉ dep_id <$> deployments ∧ id ∉ exclude) ∧ runs_on id node) then offer_of node r else 0.
Lemma used_charge_orphans node r ids : forall L,
  amount (used_on (foldl (charge_orphan assignments nodes (dep_id <$> deployments) exclude) L ids) node) r =
  amount (used_on L node) r + sumZ (held_gone node r <$> ids).
Proof using Hnodes.
  induction ids as [|id ids IH]; intros L; cbn [foldl]; [rewrite fmap_nil, sumZ_nil; lia|].
  rewrite IH, fmap_cons, sumZ_cons, Z.add_assoc. f_equal. unfold charge_orphan, held_gone.
  destruct (decide (id ∈ dep_id <$> deployments)) as [Hk|Hk];
    [rewrite bool_decide_eq_true_2, decide_False by tauto; cbn [orb]; lia|rewrite bool_decide_eq_false_2 by done].
  destruct (decide (id ∈ exclude)) as [Hex|Hex];
    [rewrite bool_decide_eq_true_2, decide_False by tauto; cbn [orb]; lia|rewrite bool_decide_eq_false_2 by done].
  cbn [orb]. rewrite used_charge_offers by apply NoDup_dedup. f_equal. apply decide_ext.
  rewrite elem_of_dedup, rows_runs_on. tauto.
Qed.

Lemma sum_if {A} (P : A -> Prop) `{forall a, Decision (P a)} x l :
  sumZ ((fun a => if decide (P a) then x else 0) <$> l) = Z.of_nat (length (filter P l)) * x.
Proof using.
  induction l as [|a l IH]; [done|]. rewrite fmap_cons, sumZ_cons, IH, filter_cons. destruct (decide (P a)); cbn [length]; lia.
Qed.
Lemma orphans_sum node r : sumZ (held_gone node r <$> live_ids assignments) = Z.of_nat (length (orphans_on node)) * offer_of node r.
Proof using.
  unfold held_gone. rewrite (sum_if (fun id => (id ∉ dep_id <$> deployments ∧ id ∉ exclude) ∧ runs_on id node)). f_equal. f_equal.
  apply Permutation_length, NoDup_Permutation; [apply NoDup_filter, NoDup_dedup|apply NoDup_dedup|].
  intros id. unfold live_ids, orphans_on, runs_on. rewrite list_elem_of_filter, !elem_of_dedup, !list_elem_of_fmap, Exists_exists. split.
  - intros [[[Hk Hex] (row & Hin & Hm & <- & Hn)] _]. exists row. split; [done|].
    rewrite list_elem_of_filter, <-!list_elem_of_fmap in *. done.
  - intros (row & -> & Hrow). rewrite list_elem_of_filter in Hrow. destruct Hrow as [(Hm & Hn & Hk & Hex) Hin].
    rewrite list_elem_of_fmap in Hk. split; [split; [done|eauto]|].
    exists row. split; [done|]. by rewrite list_elem_of_In, filter_In, <-list_elem_of_In, live_row_may_run.
Qed.
End exact.

Section claims.
Context (re_test : string -> string -> bool).
Context (localeCompare : string -> string -> comparison).

(** A plan under explicit budgets uses exactly the budgeted nodes. *)
Lemma explicit_plan spec profile nodes reserved usedPorts quals v plan :
  ds_allocations spec = Some v ->
  planWithResources re_test localeCompare spec profile nodes reserved usedPorts quals = Ok plan ->
  exists al, parseAllocations v = Ok al ∧ check_explicit (availableNodes nodes reserved) al = Ok tt ∧
    pl_allocations plan = Some al ∧ na_nodeId <$> al ≡ₚ dedup (planNodeIds plan).
Proof.
  intros Hv. unfold planWithResources. rewrite Hv.
  intros (al & Hp & H)%bind_Ok. apply bind_Ok in H as ([] & Hc & H). apply bind_Ok in H as (p & Hplan & H).
  case_match eqn:Eb; [done|]. apply bind_Ok in H as (ms & _ & H). apply bind_Ok in H as ([] & _ & [= <-]).
  exists al. split_and!; [done..|]. destruct (parseAllocations_ok _ _ Hp) as [Hnd _].
  bool_to_prop. match goal with H : (_ =? _)%nat = true |- _ => apply Nat.eqb_eq in H as Hlen end.
  apply submseteq_length_Permutation; [|by rewrite length_fmap, <-Hlen].
  apply NoDup_submseteq; [done|]. intros id (a & -> & Ha)%list_elem_of_fmap.
  destruct (decide (na_nodeId a ∈ dedup (planNodeIds p))) as [|Hn]; [done|].
  match goal with H : existsb _ _ = false |- _ => revert H end. rewrite <-not_true_iff_false, existsb_exists.
  intros []. exists a. rewrite <-list_elem_of_In. by rewrite bool_decide_eq_false_2.
Qed.

(** The allocations of a plan: one for each node it uses, well formed, within what is left. *)
Lemma plan_fits spec profile nodes reserved usedPorts quals plan :
  registry_ok nodes -> ledger_fits nodes reserved ->
  planWithResources re_test localeCompare spec profile nodes reserved usedPorts quals = Ok plan ->
  exists al, pl_allocations plan = Some al ∧ na_nodeId <$> al ≡ₚ dedup (planNodeIds plan) ∧
    Forall alloc_ok al ∧ ledger_fits nodes (addAllocations reserved al).
Proof.
  intros Hreg Hfit H. destruct (ds_allocations spec) as [v|] eqn:Ev.
  - destruct (explicit_plan _ _ _ _ _ _ _ _ Ev H) as (al & Hp & Hc & Hal & Hids).
    apply parseAllocations_ok in Hp as [Hnd Hok]. exists al. split_and!; [done..|].
    apply no_overcommit; [done..|]. by apply explicit_within.
  - unfold planWithResources in H. rewrite Ev in H.
    apply bind_Ok in H as (p & Hplan & H). apply bind_Ok in H as (al & Ha & [= <-]).
    apply offered_within in Ha as (Hids & Hw & Hok). exists al. split; [done|]. split; [by rewrite Hids|].
    split; [by apply Hok|]. apply no_overcommit; [done|done| |by apply Hok|done]. rewrite Hids. apply NoDup_dedup.
Qed.

(** C25: planning within the ledger never lends capacity twice.  If what is reserved on every node
    is within its offer, then after a successful [planWithResources] (explicit budgets or not)
    charging the plan's allocations still leaves every node's RAM, cores and each GPU within
    its offer. *)
Theorem planWithResources_no_overcommit spec profile nodes reserved usedPorts quals plan :
  registry_ok nodes -> ledger_fits nodes reserved ->
  planWithResources re_test localeCompare spec profile nodes reserved usedPorts quals = Ok plan ->
  exists al, pl_allocations plan = Some al ∧ na_nodeId <$> al ≡ₚ dedup (planNodeIds plan) ∧
    ledger_fits nodes (addAllocations reserved al).
Proof.
  intros Hreg Hfit H. destruct (plan_fits _ _ _ _ _ _ _ Hreg Hfit H) as (al & ? & ? & _ & ?). eauto.
Qed.

(** C26: the ledger is exact.  On every node and every resource it reserves the sum of what each registered deployment holds
    there, and the node's whole offer once for every deployment that is gone from the registry but may still have a process
    there.  A deployment holds something unless it is excluded, external, or out of service with no process that may still
    run; it holds its plan's allocations, and the whole offer of a node where a process may run that they do not cover; with
    no allocations, the offer of the nodes where a process may run and, in service, of those its plan names.  A process may
    run until its agent has acknowledged that it stopped. *)
Theorem reservedResources_exact deployments assignments nodes exclude node r :
  (forall n, n ∈ nodes -> alloc_ok (offeredAllocation n)) ->
  (forall d al, d ∈ deployments -> dep_plan d ≫= pl_allocations = Some al -> Forall alloc_ok al) ->
  amount (used_on (reservedResources deployments assignments nodes exclude) node) r =
  sumZ (held_by assignments nodes exclude node r <$> deployments) +
  Z.of_nat (length (orphans_on deployments assignments exclude node)) * offer_of nodes node r.
Proof.
  intros Hn Hp. unfold reservedResources. cbv zeta. rewrite used_charge_orphans, (used_charge_deployments deployments), orphans_sum by done.
  unfold used_on. rewrite lookup_empty. destruct r; cbn; lia.
Qed.
End claims.

(** ** Concrete fleet *)

Lemma demo_registry_ok : registry_ok (in_nodes (demo_input split)).
Proof.
  constructor; [apply (bool_decide_eq_true_1 _); vm_compute; reflexivity|].
  intros n o Hn Ho. simpl in Hn. repeat (apply elem_of_cons in Hn as [->|Hn];
    [injection Ho as <-; apply NoDup_singleton|]). by apply elem_of_nil in Hn.
Qed.

Lemma demo_alloc_ok n : n ∈ in_nodes (demo_input split) -> alloc_ok (offeredAllocation n).
Proof. intros Hn. apply offered_ok. intros o. by apply (rg_gpus _ demo_registry_ok). Qed.

Lemma demo_ledger_fits : ledger_fits (in_nodes (demo_input split)) ∅.
Proof.
  intros n Hn _ r. unfold used_on. rewrite lookup_empty. simpl in Hn.
  repeat (apply elem_of_cons in Hn as [->|Hn];
    [destruct r as [| |g]; [done|done|]; unfold amount, gpu_mem; simpl; case_match; [|done]; case_bool_decide; by simplify_eq|]).
  by apply elem_of_nil in Hn.
Qed.

Lemma planWithResources_no_overcommit_witness :
  match planWithResources String.eqb String.compare (in_spec (demo_input split)) (in_profile (demo_input split))
    (in_nodes (demo_input split)) ∅ ∅ [] with
  | Ok plan => planNodeIds plan = ["a"; "b"; "c"]%string ∧
      exists al, pl_allocations plan = Some al ∧ na_nodeId <$> al ≡ₚ dedup (planNodeIds plan) ∧
        ledger_fits (in_nodes (demo_input split)) (addAllocations ∅ al)
  | Err _ => False
  end.
Proof.
  destruct (planWithResources _ _ _ _ _ _ _ _) as [plan|e] eqn:E.
  - split; [vm_compute in E; injection E as <-; reflexivity|].
    exact (planWithResources_no_overcommit _ _ _ _ _ _ _ _ _ demo_registry_ok demo_ledger_fits E).
  - vm_compute in E. discriminate E.
Defined.

(** A stopped deployment with a plan, of which a process remains on [b], and two that are gone with processes on [b] *)
Definition demo_row (dep node : string) (st : AssignmentState) : AssignmentRow :=
  {| ar_id := (dep +:+ node)%string; ar_deploymentId := dep; ar_nodeId := node; ar_body := AStop {| so_id := "x"; so_deploymentId := dep |};
     ar_state := Some st; ar_detail := None; ar_updatedAt := 0; ar_retired := false |}%string.
Definition demo_plan : option Plan :=
  match planWithResources String.eqb String.compare (in_spec (demo_input split)) (in_profile (demo_input split))
    (in_nodes (demo_input split)) ∅ ∅ [] with Ok p => Some p | Err _ => None end.
Definition demo_deployment : Deployment :=
  {| dep_id := "d"; dep_spec := in_spec (demo_input split); dep_savedDistribution := None; dep_state := stopped; dep_plan := demo_plan;
     dep_endpoint := None; dep_error := None; dep_createdAt := 0; dep_updatedAt := 0 |}%string.
Definition demo_rows : list AssignmentRow :=
  [demo_row "d" "b" a_ready; demo_row "x" "b" a_ready; demo_row "x" "b" a_failed; demo_row "y" "b" a_ready; demo_row "z" "b" a_stopped]%string.

Lemma reservedResources_exact_witness :
  amount (used_on (reservedResources [demo_deployment] demo_rows (in_nodes (demo_input split)) ∅) "b"%string) Ram = 3 * 4000 ∧
  held_by demo_rows (in_nodes (demo_input split)) ∅ "b"%string Ram demo_deployment = 4000 ∧
  orphans_on [demo_deployment] demo_rows ∅ "b"%string = ["x"; "y"]%string.
Proof.
  assert (held_by demo_rows (in_nodes (demo_input split)) ∅ "b"%string Ram demo_deployment = 4000) as H1 by (vm_compute; reflexivity).
  assert (orphans_on [demo_deployment] demo_rows ∅ "b"%string = ["x"; "y"]%string) as H2 by (vm_compute; reflexivity).
  split; [|split; [exact H1|exact H2]].
  rewrite (reservedResources_exact [demo_deployment] demo_rows (in_nodes (demo_input split)) ∅ "b"%string Ram demo_alloc_ok).
  - rewrite H2, fmap_cons, H1. vm_compute. reflexivity.
  - intros d al Hd. apply list_elem_of_singleton in Hd as ->. unfold demo_deployment. cbn [dep_plan].
    vm_compute. intros E. injection E as <-. repeat constructor; set_solver.
Defined.
