(* ===== verification/FleetFacts.v ===== *)
(** * What a fleet preview promises

    Accepted requests are well formed; a preview never promises the same capacity twice, uses only the
    selected hardware, leaves every setting but the placement alone, is the best of its budgets, and its
    search is bounded. *)

From S2P Require Import Prelude JsNum Json Types Validate PhasePlan Planner PlannerFacts PlannerSound Resources ResourcesSound Fleet.

(** ** Requests *)

Record placement_ok (p : FleetPlacement) : Prop := {
  po_replica : fp_kind p = replica -> is_Some (fp_replicaNodeId p) ∧ fp_coordinatorNodeId p = None ∧
    fp_workerNodeIds p = None ∧ fp_workerLayers p = None;
  po_split : fp_kind p <> replica -> fp_kind p = split ∧ fp_replicaNodeId p = None ∧ is_Some (fp_coordinatorNodeId p) ∧
    exists ids, fp_workerNodeIds p = Some ids ∧ NoDup ids ∧ (1 <= length ids <= 1000)%nat ∧
      forall ls, fp_workerLayers p = Some ls -> length ls = length ids ∧
        Forall (fun n => exists z, as_safe_int n = Some z ∧ 1 <= z) ls }.

Record item_ok (i : FleetItem) : Prop := {
  io_id : (1 <= String.length (fi_deploymentId i) <= 128)%nat;
  io_cpu : forall k, fi_cpuCores i = Some k -> 1 <= k <= 65536;
  io_placement : is_Some (fi_placement i) <-> fi_mode i = manual;
  io_manual : forall p, fi_placement i = Some p -> placement_ok p }.

Record request_ok (q : FleetRequest) : Prop := {
  qo_items : (1 <= length (fq_items q) <= 500)%nat;
  qo_distinct : NoDup (fi_deploymentId <$> fq_items q);
  qo_each : Forall item_ok (fq_items q);
  qo_pool : (1 <= length (fq_poolNodeIds q) <= 2000)%nat ∧ NoDup (fq_poolNodeIds q) }.

Lemma fleet_id_ok v s : fleet_id v = Some s -> (1 <= String.length s <= 128)%nat.
Proof.
  unfold fleet_id. destruct (as_str v) as [t|]; [|done]. cbn [mbind option_bind]. case_match eqn:E; [|done]. intros [= ->].
  apply andb_true_iff in E as [E1%Nat.ltb_lt E2%Nat.leb_le]. lia.
Qed.

Lemma distinct_ids_ok limit v ids : distinct_ids limit v = Some ids -> (1 <= length ids <= limit)%nat ∧ NoDup ids.
Proof.
  unfold distinct_ids. destruct (as_arr v) as [l|]; [|done]. cbn [mbind option_bind].
  destruct (mapM _ l) as [x|] eqn:Em; [|done]. cbn [mbind option_bind].
  case_match eqn:E; [done|]. intros [= ->]. apply orb_false_iff in E as [[E1 E2]%orb_false_iff E3]. bool_to_prop.
  apply mapM_Some, Forall2_length in Em. apply Nat.ltb_ge in E2.
  destruct l; [done|]. cbn in *. split; [lia|done].
Qed.

Lemma layer_counts_ok l ls : mapM layer_count l = Some ls ->
  length ls = length l ∧ Forall (fun n => exists z, as_safe_int n = Some z ∧ 1 <= z) ls.
Proof.
  intros H%mapM_Some. split; [by rewrite (Forall2_length _ _ _ H)|]. induction H as [|v n l ls Hv _ IH]; constructor; [|done].
  unfold layer_count in Hv. destruct (as_num (Some v)) as [m|]; [|done]. cbn in Hv.
  destruct (as_safe_int m) as [z|] eqn:Ez; [|done]. cbn in Hv. case_match; [|done]. injection Hv as ->.
  exists z. split; [done|lia].
Qed.

Lemma parse_placement_ok v p : parse_placement v = Ok p -> placement_ok p.
Proof.
  unfold parse_placement. destruct (as_obj v) as [o|]; [|done]. destruct (keys_in o _); [|done].
  destruct (placement_kind _) as [k|]; [|done].
  assert (match fleet_id (jget o "coordinatorNodeId"), jget o "replicaNodeId", distinct_ids 1000 (jget o "workerNodeIds") with
    | Some c, None, Some ids =>
        layers ← parse_split_layers o ids;
        Ok {| fp_kind := split; fp_replicaNodeId := None; fp_coordinatorNodeId := Some c;
              fp_workerNodeIds := Some ids; fp_workerLayers := layers; fp_keys := keys o |}
    | _, _, _ => Err FQ_split end = Ok p -> placement_ok p) as Hsplit.
  { destruct (fleet_id _) as [c|]; [|done]. destruct (jget o "replicaNodeId"); [done|].
    destruct (distinct_ids _ _) as [ids|] eqn:Ed; [|done]. apply distinct_ids_ok in Ed as [Hlen Hnd].
    intros (ls & Hl & [= <-])%bind_Ok. split; [done|]. intros _. split_and!; [done..|].
    exists ids. split_and!; [done|done|lia|lia|]. cbn. intros ks ->. unfold parse_split_layers in Hl.
    destruct (jget o "workerLayers") as [[| | | |l|]|]; try done. destruct (mapM layer_count l) as [x|] eqn:Em; [|done].
    destruct (length l =? length ids)%nat eqn:El; [|done]. injection Hl as ->. apply Nat.eqb_eq in El.
    apply layer_counts_ok in Em as [? ?]. split; [lia|done]. }
  destruct k; try exact Hsplit. clear Hsplit. intros H. destruct (fleet_id _); [|done]. destruct (jget o "coordinatorNodeId"); [done|].
  destruct (jget o "workerNodeIds"); [done|]. destruct (jget o "workerLayers"); [done|].
  injection H as <-. split; [intros _; by split_and!|done].
Qed.

Lemma parse_cpu_ok v k : parse_cpu v = Ok (Some k) -> 1 <= k <= 65536.
Proof.
  unfold parse_cpu. destruct v as [v|]; [|done]. destruct (safe_pos (Some v)) as [z|] eqn:E; [|done].
  case_match eqn:El; [done|]. intros [= ->]. unfold safe_pos in E. destruct (as_num _) as [n|]; [|done]. cbn in E.
  destruct (as_safe_int n); [|done]. cbn in E. case_match; [|done]. injection E as ->. lia.
Qed.

Lemma parse_items_ok seen l its : parse_items seen l = Ok its ->
  length its = length l ∧ NoDup (fi_deploymentId <$> its) ∧ (forall i, i ∈ its -> fi_deploymentId i ∉ seen) ∧ Forall item_ok its.
Proof.
  revert seen its. induction l as [|j l IH]; intros seen its; cbn [parse_items].
  { intros [= <-]. split_and!; [done|constructor| |constructor]. by intros i ?%elem_of_nil. }
  destruct (as_obj (Some j)) as [o|]; [|done]. destruct (keys_in o _); [|done].
  destruct (fleet_id _) as [id|] eqn:Ei; [|done]. destruct (parse_mode _) as [mode|]; [|done].
  case_bool_decide as Hs; [done|]. intros (cpu & Hc & H)%bind_Ok. apply bind_Ok in H as (pl & Hp & H).
  apply bind_Ok in H as (rest & Hr & [= <-]). apply IH in Hr as (Hlen & Hnd & Hseen & Hok). split_and!.
  - cbn. by rewrite Hlen.
  - rewrite fmap_cons. constructor; [|done]. intros (i & Hid & Hi)%list_elem_of_fmap. apply (Hseen i Hi). rewrite <-Hid. left.
  - intros i [->|Hi]%elem_of_cons; [done|]. intros Hin. apply (Hseen i Hi). by right.
  - constructor; [|done]. split; cbn.
    + by eapply fleet_id_ok.
    + intros k ->. by eapply parse_cpu_ok.
    + case_bool_decide as Hm.
      * apply bind_Ok in Hp as (p & _ & [= <-]). split; [done|by eexists].
      * destruct (jget o "placement"); [done|]. injection Hp as <-. split; [by intros [? ?]|done].
    + intros p ->. case_bool_decide.
      * apply bind_Ok in Hp as (p' & Hp & [= ->]). by eapply parse_placement_ok.
      * by destruct (jget o "placement").
Qed.

Lemma request_parsed v q : parseFleetRequest v = Ok q -> request_ok q.
Proof.
  unfold parseFleetRequest. destruct (as_obj (Some v)) as [o|]; [|done]. destruct (keys_in o _); [|done].
  destruct (as_arr _) as [items|]; [|done]. destruct (distinct_ids _ _) as [pool|] eqn:Ed; [|done].
  destruct (bool_decide _ || _) eqn:E; [done|]. intros (its & Hi & [= <-])%bind_Ok.
  apply parse_items_ok in Hi as (Hlen & Hnd & _ & Hok). apply distinct_ids_ok in Ed.
  apply orb_false_iff in E as [E1 E2%Nat.ltb_ge]. bool_to_prop. destruct items; [done|].
  split; cbn in *; [lia|done|done|done].
Qed.

(** C36: an accepted fleet request is well formed: 1 to 500 distinct deployments, 1 to 2000 distinct pool nodes,
    CPU budgets within 1..65536, a placement exactly with manual mode, and a manual placement that is either a
    replica on one node or a split over a coordinator and 1 to 1000 distinct workers, with one positive
    safe-integer layer count for each worker if any. *)
Theorem parseFleetRequest_well_formed v q : parseFleetRequest v = Ok q -> request_ok q.
Proof. apply request_parsed. Qed.

(** ** Budgets *)

Lemma parse_entries_budget seen al ex : parse_entries seen (allocation_json <$> al) = Ok ex -> na_nodeId <$> ex = na_nodeId <$> al.
Proof.
  revert seen ex. induction al as [|a al IH]; intros seen ex; [by intros [= <-]|].
  rewrite fmap_cons. cbn -[only safe_pos parse_gpus]. destruct (only _ _); [|done].
  unfold nonempty_str. cbn -[safe_pos parse_gpus].
  case_bool_decide; [done|]. destruct (safe_pos _); [|done]. destruct (safe_pos _); [|done]. case_match; [done|].
  intros (g & _ & Hx)%bind_Ok. apply bind_Ok in Hx as (rest & Hr & [= <-]). cbn. f_equal. by eapply IH.
Qed.

Lemma parse_budget al ex : parseAllocations (JArr (allocation_json <$> al)) = Ok ex -> na_nodeId <$> ex = na_nodeId <$> al.
Proof. unfold parseAllocations. case_match; [done|]. apply parse_entries_budget. Qed.

Lemma mapM_Ok_elem {E A B : Type} (f : A -> result E B) l ys y : mapM_result f l = Ok ys -> y ∈ ys ->
  exists x, x ∈ l ∧ f x = Ok y.
Proof.
  intros H%mapM_Ok (i & Hi)%list_elem_of_lookup. destruct (Forall2_lookup_r _ _ _ _ _ H Hi) as (x & Hx & ?).
  exists x. split; [by eapply list_elem_of_lookup_2|done].
Qed.

Lemma minima_nodes plan profile nodes ms id : minimumAllocations plan profile nodes = Ok ms -> id ∈ na_nodeId <$> ms ->
  exists n, n ∈ nodes ∧ nr_id n = id.
Proof.
  intros H (m & -> & Hm)%list_elem_of_fmap.
  assert (exists x (n : NodeRow), by_id nodes x = Some n ∧ na_nodeId m = x) as (x & n & [Hn Hid]%by_id_Some & ->); [|by exists n].
  unfold minimumAllocations, node_or_undefined in H. destruct (pl_nativeExecution plan) as [np|];
    destruct (mapM_Ok_elem _ _ _ _ H Hm) as (x & _ & Hx); apply bind_Ok in Hx as (n & Hn & [= <-]);
    case_match eqn:E; try done; injection Hn as ->; by eexists _, _.
Qed.

Lemma omap_full {A B} (g : A -> option B) l : length (omap g l) = length l <-> Forall (fun x => is_Some (g x)) l.
Proof.
  assert (forall k, (length (omap g k) <= length k)%nat) as Hle.
  { induction k as [|x k IH]; cbn; [done|]. destruct (g x); cbn; lia. }
  induction l as [|x l IH]; cbn; [split; [constructor|done]|]. rewrite Forall_cons, <-IH. specialize (Hle l).
  destruct (g x); cbn; split.
  - intros. split; [eauto|lia].
  - intros [_ ?]. lia.
  - lia.
  - by intros [[? ?] _].
Qed.

(** ** The search *)

Section facts.
Context (re_test : string -> string -> bool) (localeCompare : string -> string -> comparison).
Context (Date_parse : string -> num) (Math_pow : num -> num -> num).
Context (show_failure : FleetFailure -> string) (sha256_json : RevisionBody -> string).
Context (quals : list Qwen35NativeQualification).
Notation candidate := (candidate re_test localeCompare Date_parse Math_pow quals).
Notation candidate_plan := (candidate_plan re_test localeCompare quals).
Notation attempt := (attempt re_test localeCompare Date_parse Math_pow show_failure quals).
Notation try_replicas := (try_replicas re_test localeCompare Date_parse Math_pow show_failure quals).
Notation try_counts := (try_counts re_test localeCompare Date_parse Math_pow show_failure quals).
Notation try_coordinators := (try_coordinators re_test localeCompare Date_parse Math_pow show_failure quals).
Notation balanced_search := (balanced_search re_test localeCompare Date_parse Math_pow show_failure quals).
Notation search_item := (search_item re_test localeCompare Date_parse Math_pow show_failure quals).
Notation place_item := (place_item re_test localeCompare Date_parse Math_pow show_failure quals).
Notation run_budget := (run_budget re_test localeCompare Date_parse Math_pow show_failure quals).
Notation make_fleet := (make_fleet re_test localeCompare).
Notation all_runs := (all_runs re_test localeCompare Date_parse Math_pow show_failure quals).
Notation previewFleet := (previewFleet re_test localeCompare Date_parse Math_pow show_failure sha256_json quals).
Notation hostMemoryErrors := (hostMemoryErrors Date_parse).

(** A winner is an evaluated candidate of an allowed placement that passed the memory check. *)
Definition allowed (c : Attempt) (p : FleetPlacement) : Prop :=
  match fi_mode (at_item c) with
  | keep => p = at_before c
  | manual => fi_placement (at_item c) = Some p
  | balanced => True
  end.

Definition won (c : Attempt) (w : FleetWinner) : Prop :=
  exists p, allowed c p ∧ candidate c p = Ok w ∧
    hostMemoryErrors (at_input c) ((fe_plan <$> ru_entries (at_run c)) ++ [Some (fw_plan w)]) (at_selected c) = Ok [].

(** [s'] follows [s] after at most [k] candidates. *)
Definition searched (c : Attempt) (k : nat) (s s' : Search) : Prop :=
  (sr_evaluated s' <= sr_evaluated s + k)%nat ∧
  ((forall w, sr_winner s = Some w -> won c w) -> forall w, sr_winner s' = Some w -> won c w).

Lemma searched_refl c s : searched c 0 s s.
Proof. split; [lia|auto]. Qed.
Lemma searched_trans c k1 k2 k s1 s2 s3 :
  searched c k1 s1 s2 -> searched c k2 s2 s3 -> (k1 + k2 <= k)%nat -> searched c k s1 s3.
Proof. intros [? ?] [? ?] ?. split; [lia|auto]. Qed.
Lemma searched_more c k k' s s' : searched c k s s' -> (k <= k')%nat -> searched c k' s s'.
Proof. intros [? ?] ?. split; [lia|auto]. Qed.

Lemma attempt_searched c p s : allowed c p -> searched c 1 s (attempt c p s).2.
Proof.
  intros Hp. unfold Fleet.attempt. destruct (candidate c p) as [w|e] eqn:Ec; [|by split; cbn; [lia|auto]].
  case_match; [|by split; cbn; [lia|auto]].
  destruct (hostMemoryErrors _ _ _) as [[|]|] eqn:Eh; (split; cbn; [lia|]); [|by auto..].
  intros _ w' [= <-]. by exists p.
Qed.

Lemma replicas_searched c l n s : fi_mode (at_item c) = balanced -> searched c (length l) s (try_replicas c l n s).
Proof.
  intros Hm. revert n s. induction l as [|x l IH]; intros n s; cbn [Fleet.try_replicas]; [apply searched_refl|].
  pose proof (attempt_searched c (replica_placement (Some (nr_id x))) s) as Ha. unfold allowed in Ha. rewrite Hm in Ha.
  destruct (attempt c _ s) as [ok s1]. specialize (Ha I). cbn in Ha. case_match.
  - eapply searched_more; [exact Ha|]. cbn. lia.
  - eapply searched_trans; [exact Ha|apply IH|]. cbn. lia.
Qed.

Lemma counts_searched c coord rows least ws l b s : fi_mode (at_item c) = balanced ->
  searched c (length l) s (try_counts c coord rows least ws l b s).2.
Proof.
  intros Hm. revert b s. induction l as [|x l IH]; intros b s; cbn [Fleet.try_counts]; [apply searched_refl|].
  destruct (group_placement _ _ _ _ _) as [p|].
  - pose proof (attempt_searched c p s) as Ha. unfold allowed in Ha. rewrite Hm in Ha.
    destruct (attempt c p s) as [ok s1]. specialize (Ha I). eapply searched_trans; [exact Ha|apply IH|]. cbn. lia.
  - eapply searched_more; [apply IH|]. cbn. lia.
Qed.

Lemma worker_counts_length most : (length (worker_counts most) <= 9)%nat.
Proof.
  unfold worker_counts. etrans; [apply List.filter_length_le|].
  assert (forall seen (l : list Z), (length (dedup_from seen l) <= length l)%nat) as H.
  { intros seen l. revert seen. induction l as [|x l IH]; intros seen; cbn; [done|]. case_bool_decide; cbn; [|by apply le_n_S].
    etrans; [apply IH|]. lia. }
  apply (H [] [1; 2; 3; 4; 8; 12; 16; 32; most]).
Qed.

Lemma coordinators_searched c rows least l n s : fi_mode (at_item c) = balanced ->
  searched c (9 * length l) s (try_coordinators c rows least l n s).
Proof.
  intros Hm. revert n s. induction l as [|x l IH]; intros n s; cbn [Fleet.try_coordinators]; [apply searched_refl|].
  set (ws := Fleet.workers_for _ _ _ _ _). set (most := Z.min _ _).
  pose proof (counts_searched c x rows least ws (worker_counts most) false s Hm) as Ha. pose proof (worker_counts_length most).
  destruct (try_counts c x rows least ws _ false s) as [ok s1]. cbn [snd] in Ha. cbn [length].
  destruct (ok && _); [eapply searched_more|eapply searched_trans]; [exact Ha| |exact Ha|apply IH|]; lia.
Qed.

Lemma holders_length c (role : Roles -> bool) :
  (length (List.filter (node_offers role) (holders re_test localeCompare Date_parse c)) <= length (at_free c))%nat.
Proof.
  etrans; [apply List.filter_length_le|]. unfold holders. rewrite js_sort_length. apply List.filter_length_le.
Qed.

Lemma search_item_spec c :
  let s := search_item c in
  (sr_evaluated s <= Nat.max 1 (10 * length (at_free c)))%nat ∧ forall w, sr_winner s = Some w -> won c w.
Proof.
  cbv zeta. set (s0 := {| sr_winner := None; sr_failures := []; sr_evaluated := 0 |}).
  assert (forall k s, searched c k s0 s -> (k <= Nat.max 1 (10 * length (at_free c)))%nat ->
    (sr_evaluated s <= Nat.max 1 (10 * length (at_free c)))%nat ∧ forall w, sr_winner s = Some w -> won c w) as Hdone.
  { intros k s [H1 H2] Hk. cbn in H1. split; [lia|]. by apply H2. }
  unfold Fleet.search_item. fold s0. destruct (fi_mode (at_item c)) eqn:Hm.
  - unfold Fleet.balanced_search. pose proof (holders_length c ro_replica). pose proof (holders_length c ro_coordinator).
    set (s1 := if chained (at_spec c) then s0 else _).
    assert (searched c (length (at_free c)) s0 s1) as H1.
    { unfold s1. case_match; [eapply searched_more; [apply searched_refl|lia]|].
      eapply searched_more; [by apply replicas_searched|done]. }
    destruct (last _) as [least|]; [|eapply Hdone; [exact H1|lia]].
    eapply (Hdone (length (at_free c) + 9 * length (at_free c))%nat); [|lia].
    eapply searched_trans; [exact H1|by apply coordinators_searched|]. lia.
  - eapply (Hdone 1%nat); [|lia]. apply attempt_searched. unfold allowed. by rewrite Hm.
  - destruct (fi_placement (at_item c)) as [p|] eqn:Hp.
    + eapply (Hdone 1%nat); [|lia]. apply attempt_searched. unfold allowed. by rewrite Hm.
    + cbn. split; [lia|done].
Qed.

Lemma budget_node c nodes base a b : budget_of c nodes base a = Ok b -> na_nodeId b = na_nodeId a.
Proof.
  unfold budget_of. intros (n & _ & H)%bind_Ok. apply bind_Ok in H as (o & _ & H). apply bind_Ok in H as (k & _ & H).
  by apply bind_Ok in H as (g & _ & [= <-]).
Qed.

(** Where a candidate may run. *)
Definition confined (c : Attempt) (p : FleetPlacement) (plan : Plan) : Prop :=
  forall id, id ∈ planNodeIds plan ->
    Some id ∈ placement_ids p ∧ id ∈ at_pool c ∧ exists n, n ∈ at_free c ∧ nr_id n = id.

Lemma candidate_plan_sound c p spec plan : candidate_plan c p = Ok (spec, plan) ->
  (exists al, spec = placed_spec (at_spec c) p (Some al)) ∧
  planWithResources re_test localeCompare spec (at_profile c) (fin_nodes (at_input c)) (ru_ledger (at_run c))
    (ru_ports (at_run c)) quals = Ok plan ∧ confined c p plan.
Proof.
  unfold Fleet.candidate_plan. case_match eqn:Ep; [done|].
  intros (base & _ & H)%bind_Ok. apply bind_Ok in H as (minima & Hm & H). apply bind_Ok in H as (al & Ha & H).
  set (sp := placed_spec (at_spec c) p _) in H. apply bind_Ok in H as (pl & Hpl & [= <- <-]).
  assert (planWithResources re_test localeCompare sp (at_profile c) (fin_nodes (at_input c)) (ru_ledger (at_run c))
    (ru_ports (at_run c)) quals = Ok pl) as Hp by (destruct (planWithResources _ _ _ _ _ _ _ _); [injection Hpl as ->|]; done).
  clear Hpl. split_and!; [by eexists|done|]. intros id Hid.
  destruct (explicit_plan re_test localeCompare sp _ _ _ _ _ (JArr (allocation_json <$> al)) _ eq_refl Hp)
    as (ex & Hex & _ & _ & Hids). apply parse_budget in Hex.
  assert (id ∈ na_nodeId <$> al) as Hal by (rewrite <-Hex, Hids; by apply elem_of_dedup).
  assert (na_nodeId <$> al = na_nodeId <$> minima) as Hmin.
  { apply mapM_Ok in Ha. clear -Ha. induction Ha as [|x y l k Hxy _ IH]; [done|]. by rewrite !fmap_cons, IH, (budget_node _ _ _ _ _ Hxy). }
  rewrite Hmin in Hal. destruct (minimumAllocations _ _ _) as [ms|] eqn:Em; [|done]. injection Hm as ->.
  destruct (minima_nodes _ _ _ _ _ Em Hal) as (n & [Hn2 Hn1]%List_filter_elem & <-).
  bool_to_prop. split; [done|]. split; [|by exists n].
  apply not_true_iff_false in Ep. destruct (decide (nr_id n ∈ at_pool c)) as [|Hx]; [done|]. destruct Ep.
  apply existsb_exists. exists (Some (nr_id n)). rewrite <-list_elem_of_In. split; [done|]. cbn. by rewrite bool_decide_eq_false_2.
Qed.

Lemma candidate_sound c p w : candidate c p = Ok w -> candidate_plan c p = Ok (fw_spec w, fw_plan w).
Proof.
  unfold Fleet.candidate. intros ([spec plan] & -> & H)%bind_Ok. destruct (pl_allocations plan); [|done].
  apply bind_Ok in H as ([[? ?] ?] & _ & H). by apply bind_Ok in H as (t & _ & [= <-]).
Qed.

(** ** One budget *)

Definition placed_by (i : FleetItem) (d : Deployment) (p : FleetPlacement) : Prop :=
  match fi_mode i with keep => p = currentPlacement d | manual => fi_placement i = Some p | balanced => True end.

(** A node the request may use: selected, online, enabled, with budget support. *)
Definition usable_node (input : FleetInput) (pool : list string) (id : string) : Prop :=
  id ∈ pool ∧ exists n o, n ∈ fin_nodes input ∧ nr_id n = id ∧ nr_online n = true ∧ nr_offer n = Some o ∧
    of_enabled o = true ∧ nr_caps n ≫= cap_allocationVersion = Some 1.

(** A proposal for deployment [d]: a plan of the planner for [d]'s spec with only the placement and the budgets
    replaced, on usable nodes that the placement names. *)
Definition proposal (input : FleetInput) (pool : list string) (i : FleetItem) (d : Deployment) (w : FleetWinner) : Prop :=
  exists p al profile L ports,
    placed_by i d p ∧ fw_spec w = placed_spec (dep_spec d) p (Some al) ∧
    planWithResources re_test localeCompare (fw_spec w) profile (fin_nodes input) L ports quals = Ok (fw_plan w) ∧
    forall id, id ∈ planNodeIds (fw_plan w) -> Some id ∈ placement_ids p ∧ usable_node input pool id.

Definition entry_sound (input : FleetInput) (pool : list string) (id : FleetItem * Deployment) (e : FleetEntry) : Prop :=
  fe_deploymentId e = dep_id id.2 ∧ fe_before e = currentPlacement id.2 ∧
  (fe_winner e = None <-> is_Some (fe_error e)) ∧
  forall w, fe_winner e = Some w -> proposal input pool id.1 id.2 w.

Lemma pool_nodes_usable input pool n : n ∈ pool_nodes input pool -> usable_node input pool (nr_id n).
Proof.
  intros [Hin H]%List_filter_elem. bool_to_prop. split; [done|]. destruct (nr_offer n) as [o|] eqn:Eo; [|done].
  by exists n, o.
Qed.

Lemma enabled_free_elem nodes L n : n ∈ enabled_free nodes L -> exists m, m ∈ nodes ∧ nr_id m = nr_id n.
Proof.
  intros [Hin _]%List_filter_elem. unfold availableNodes in Hin. apply list_elem_of_fmap in Hin as (m & -> & Hm).
  exists m. split; [done|]. by rewrite available_id.
Qed.
Lemma enabled_free_length nodes L : (length (enabled_free nodes L) <= length nodes)%nat.
Proof. etrans; [apply List.filter_length_le|]. unfold availableNodes. by rewrite length_fmap. Qed.

Definition entry_plans (r : Run) : list NodeAllocation := plan_allocations (fe_plan <$> ru_entries r).

Lemma plan_allocations_app l k : plan_allocations (l ++ k) = plan_allocations l ++ plan_allocations k.
Proof. unfold plan_allocations. apply flat_map_app. Qed.

Section run.
Context (f : Fleet) (baseline : ResourceLedger).
Hypothesis Hpool : fl_poolNodes f = pool_nodes (fl_input f) (fl_pool f).

(** What each step of the walk keeps, whatever was reserved before it. *)
Record run_ok (done : list (FleetItem * Deployment)) (r : Run) : Prop := {
  rk_entries : Forall2 (entry_sound (fl_input f) (fl_pool f)) done (ru_entries r);
  rk_ledger : ru_ledger r = addAllocations baseline (entry_plans r);
  rk_bound : (ru_evaluated r <= length done * Nat.max 1 (10 * length (fl_poolNodes f)))%nat }.

(** What it keeps when the reservations of the others fit. *)
Definition run_fits (r : Run) : Prop :=
  Forall alloc_ok (entry_plans r) ∧ ledger_fits (fin_nodes (fl_input f)) (ru_ledger r).

Lemma bare_plans r e n : fe_winner e = None -> entry_plans (push_entry e n r) = entry_plans r.
Proof.
  intros Hw. unfold entry_plans, push_entry. cbn. rewrite fmap_app, plan_allocations_app. cbn. unfold fe_plan at 2.
  rewrite Hw. cbn. by rewrite app_nil_r.
Qed.
Lemma winner_plans r d w k als : pl_allocations (fw_plan w) = Some als -> entry_plans (charge_winner d w k r) = entry_plans r ++ als.
Proof.
  intros Hal. unfold entry_plans, charge_winner. cbn. rewrite fmap_app, plan_allocations_app. cbn. unfold fe_plan at 2.
  cbn. by rewrite Hal, app_nil_r.
Qed.

(** An item adds a bare entry, or charges a winner of its search. *)
Lemma place_item_cases sharing r i d :
  let c profile := attempt_of f sharing r i d profile in
  (exists err n, place_item f sharing r (i, d) = push_entry (bare_entry d (Some err)) n r ∧
     (n <= Nat.max 1 (10 * length (fl_poolNodes f)))%nat) \/
  (exists w n profile, place_item f sharing r (i, d) = charge_winner d w n r ∧ won (c profile) w ∧
     (n <= Nat.max 1 (10 * length (fl_poolNodes f)))%nat).
Proof using.
  unfold Fleet.place_item.
  destruct (get_profile _ _) as [profile|]; [|left; do 2 eexists; split; [done|lia]].
  case_match; [left; do 2 eexists; split; [done|lia]|].
  case_match; [left; do 2 eexists; split; [done|lia]|].
  set (c := attempt_of f sharing r i d profile). destruct (search_item_spec c) as [Hn Hw].
  pose proof (enabled_free_length (fl_poolNodes f) (ru_ledger r)) as Hfree. change (enabled_free _ _) with (at_free c) in Hfree.
  destruct (sr_winner (search_item c)) as [w|].
  - right. exists w, (sr_evaluated (search_item c)), profile. split_and!; [done|by apply Hw|lia].
  - left. do 2 eexists. split; [done|lia].
Qed.

Lemma bare_sound i d err : entry_sound (fl_input f) (fl_pool f) (i, d) (bare_entry d (Some err)).
Proof. split_and!; [done|done| |done]. split; [by eexists|done]. Qed.

Lemma won_proposal sharing r i d profile w : won (attempt_of f sharing r i d profile) w ->
  proposal (fl_input f) (fl_pool f) i d w ∧
  planWithResources re_test localeCompare (fw_spec w) profile (fin_nodes (fl_input f)) (ru_ledger r) (ru_ports r) quals = Ok (fw_plan w).
Proof using Hpool.
  intros (p & Hp & Hc & _). apply candidate_sound, candidate_plan_sound in Hc as ((al & Hsp) & Hplan & Hconf). split; [|done].
  exists p, al, profile, (ru_ledger r), (ru_ports r). split_and!; [done|done|done|].
  intros id Hid. destruct (Hconf id Hid) as (? & ? & n & Hin & <-). split; [done|].
  apply enabled_free_elem in Hin as (m & Hm & <-). rewrite Hpool in Hm. by apply pool_nodes_usable.
Qed.

(** A plan of the planner carries allocations. *)
Lemma plan_has_allocations spec profile nodes L ports plan :
  planWithResources re_test localeCompare spec profile nodes L ports quals = Ok plan -> is_Some (pl_allocations plan).
Proof using.
  unfold planWithResources. intros H. case_match.
  - apply bind_Ok in H as (? & _ & H). apply bind_Ok in H as (? & _ & H). apply bind_Ok in H as (? & _ & H).
    case_match; [done|]. apply bind_Ok in H as (? & _ & H). apply bind_Ok in H as (? & _ & [= <-]). by eexists.
  - apply bind_Ok in H as (? & _ & H). apply bind_Ok in H as (? & _ & [= <-]). by eexists.
Qed.

Lemma place_item_ok sharing done r id : run_ok done r -> run_ok (done ++ [id]) (place_item f sharing r id).
Proof using Hpool.
  intros [H1 H2 H3]. destruct id as [i d].
  destruct (place_item_cases sharing r i d) as [(err & n & -> & Hn)|(w & n & profile & -> & Hw & Hn)].
  - split; [apply Forall2_app; [done|constructor; [apply bare_sound|done]]| |].
    + by rewrite bare_plans.
    + cbn. rewrite length_app. cbn. lia.
  - apply won_proposal in Hw as [Hprop Hplan]. destruct (plan_has_allocations _ _ _ _ _ _ Hplan) as [als Hals]. split.
    + apply Forall2_app; [done|]. constructor; [|constructor]. split_and!; [done|done|by split; [|intros [? ?]]|].
      by intros w' [= <-].
    + rewrite (winner_plans _ _ _ _ als) by done. cbn. rewrite Hals, H2. unfold addAllocations. cbn. by rewrite foldl_app.
    + cbn. rewrite length_app. cbn. lia.
Qed.

Lemma place_item_fits sharing r id : registry_ok (fin_nodes (fl_input f)) -> run_fits r -> run_fits (place_item f sharing r id).
Proof using Hpool.
  intros Hreg [H1 H2]. destruct id as [i d].
  destruct (place_item_cases sharing r i d) as [(err & n & -> & Hn)|(w & n & profile & -> & Hw & Hn)].
  - split; [by rewrite bare_plans|done].
  - apply won_proposal in Hw as [_ Hplan]. destruct (plan_fits _ _ _ _ _ _ _ _ _ Hreg H2 Hplan) as (als & Hal & _ & Hok & Hfit).
    split; [rewrite (winner_plans _ _ _ _ als) by done; by apply Forall_app|]. cbn. by rewrite Hal.
Qed.

Lemma run_budget_ok sharing : run_ok (fl_order f) (run_budget f baseline sharing).
Proof using Hpool.
  unfold Fleet.run_budget.
  assert (forall todo done r, run_ok done r -> run_ok (done ++ todo) (foldl (place_item f sharing) r todo)) as H.
  { induction todo as [|id todo IH]; intros done r Hr; cbn [foldl]; [by rewrite app_nil_r|].
    rewrite cons_middle, app_assoc. by apply IH, place_item_ok. }
  apply (H (fl_order f) []). split; cbn; [constructor|done|lia].
Qed.

Lemma run_budget_fits sharing : registry_ok (fin_nodes (fl_input f)) -> ledger_fits (fin_nodes (fl_input f)) baseline ->
  run_fits (run_budget f baseline sharing).
Proof using Hpool.
  intros Hreg Hbase. unfold Fleet.run_budget.
  assert (forall todo r, run_fits r -> run_fits (foldl (place_item f sharing) r todo)) as H.
  { induction todo as [|id todo IH]; intros r Hr; cbn [foldl]; [done|]. by apply IH, place_item_fits. }
  apply H. by split; [constructor|].
Qed.
End run.

(** ** The best budget *)

Lemma sumZ_perm (l k : list Z) : l ≡ₚ k -> sumZ l = sumZ k.
Proof. induction 1; rewrite ?sumZ_cons; lia. Qed.
Lemma charged_perm l k id r : l ≡ₚ k -> charged l id r = charged k id r.
Proof. intros H. apply sumZ_perm. by rewrite H. Qed.
Lemma plan_allocations_perm l k : l ≡ₚ k -> plan_allocations l ≡ₚ plan_allocations k.
Proof. unfold plan_allocations. apply Permutation_flat_map. Qed.

Lemma better_trans r b0 b : better_run b b0 = true -> better_run r b0 = false -> better_run r b = false.
Proof.
  unfold better_run. intros [H1|H1]%orb_true_iff [H2 H3]%orb_false_iff; apply orb_false_iff.
  - apply Nat.ltb_lt in H1. apply Nat.ltb_ge in H2. split; [apply Nat.ltb_ge; lia|].
    destruct (planned_count r =? planned_count b)%nat eqn:E; [apply Nat.eqb_eq in E; lia|done].
  - apply andb_true_iff in H1 as [H1%Nat.eqb_eq H4]. apply Nat.ltb_ge in H2. split; [apply Nat.ltb_ge; lia|].
    rewrite H1. destruct (planned_count r =? planned_count b0)%nat eqn:E; [|done]. cbn in H3 |- *.
    apply not_true_iff_false. intros H5. by rewrite (num_ltb_trans _ _ _ H5 H4) in H3.
Qed.
Lemma better_irrefl r : better_run r r = false.
Proof. unfold better_run. by rewrite Nat.ltb_irrefl, num_ltb_irrefl, andb_false_r. Qed.

Lemma better_better a b c : better_run a b = true -> better_run b c = true -> better_run a c = true.
Proof.
  unfold better_run. rewrite !orb_true_iff, !andb_true_iff, !Nat.ltb_lt, !Nat.eqb_eq.
  intros [?|[? ?]] [?|[? ?]]; [left; lia..|]. right. split; [congruence|]. by eapply num_ltb_trans.
Qed.

(** The fold keeps one of the runs, and none of them beats it. *)
Lemma keep_best_from runs b0 b : foldl keep_best (Some b0) runs = Some b ->
  (b = b0 \/ b ∈ runs ∧ better_run b b0 = true) ∧ forall r, r = b0 \/ r ∈ runs -> better_run r b = false.
Proof.
  revert b0. induction runs as [|x runs IH]; intros b0 H; cbn [foldl keep_best] in H.
  { injection H as <-. split; [by left|]. intros r [->|?%elem_of_nil]; [apply better_irrefl|done]. }
  destruct (better_run x b0) eqn:E; apply IH in H as [Hin Hbest].
  - assert (better_run b b0 = true) as Hb by (destruct Hin as [->|[_ Hin]]; [done|by eapply better_better]).
    split; [right; split; [destruct Hin as [->|[? _]]; [left|by right]|done]|].
    intros r [->|[->|Hr]%elem_of_cons]; [|auto..]. eapply better_trans; [exact Hb|apply better_irrefl].
  - split; [destruct Hin as [->|[? ?]]; [by left|right; split; [by right|done]]|].
    intros r [->|[->|Hr]%elem_of_cons]; [auto| |auto].
    destruct Hin as [->|[_ Hb]]; [done|by eapply better_trans].
Qed.

Lemma keep_best_spec runs b : foldl keep_best None runs = Some b -> b ∈ runs ∧ forall r, r ∈ runs -> better_run r b = false.
Proof.
  destruct runs as [|x runs]; [done|]. cbn [foldl keep_best]. intros [Hin Hbest]%keep_best_from. split.
  - destruct Hin as [->|[? _]]; [left|by right].
  - intros r [->|Hr]%elem_of_cons; auto.
Qed.

(** ** The preview *)

Definition preview_fleet (request : FleetRequest) (input : FleetInput) (items : list (FleetItem * Deployment)) : Fleet :=
  make_fleet request input items.

Definition selected_of (request : FleetRequest) : gset string := list_to_set (fi_deploymentId <$> fq_items request).
(** What is reserved for the deployments outside the request. *)
Definition outside (request : FleetRequest) (input : FleetInput) : ResourceLedger :=
  reservedResources (fin_deployments input) (fin_assignments input) (fin_nodes input) (selected_of request).

Lemma preview_inv request input v : previewFleet request input = Ok v ->
  exists items best errors, mapM_result (resolve input) (fq_items request) = Ok items ∧
    best ∈ all_runs request (make_fleet request input items) ∧
    (forall r, r ∈ all_runs request (make_fleet request input items) -> better_run r best = false) ∧
    mapM_result (entry_of best) (fq_items request) = Ok (fv_entries v) ∧
    hostMemoryErrors input (fe_plan <$> fv_entries v) (selected_of request) = Ok errors ∧
    fv_canApply v = (planned_count best =? length (fq_items request))%nat && bool_decide (length errors = 0%nat) ∧
    fv_plannedCount v = planned_count best ∧ fv_allocations v = ru_ledger best ∧
    fv_evaluatedCandidates v = sum_list (ru_evaluated <$> all_runs request (make_fleet request input items)).
Proof.
  unfold Fleet.previewFleet. intros (items & Hi & H)%bind_Ok. apply bind_Ok in H as (u & _ & H). cbv zeta in H.
  destruct (foldl keep_best None _) as [best|] eqn:Eb; [|done]. apply bind_Ok in H as (entries & He & H).
  apply bind_Ok in H as (errors & Hm & [= <-]). apply keep_best_spec in Eb as [Hin Hbest].
  exists items, best, errors. by split_and!.
Qed.

Lemma resolved request input items : mapM_result (resolve input) (fq_items request) = Ok items ->
  items.*1 = fq_items request ∧ Forall (fun id => dep_by_id (fin_deployments input) (fi_deploymentId id.1) = Some id.2 ∧
    dep_id id.2 = fi_deploymentId id.1) items.
Proof.
  intros H%mapM_Ok. induction H as [|i [i' d] l k Hr _ [IH1 IH2]]; [by split|].
  unfold resolve in Hr. destruct (dep_by_id _ _) as [d0|] eqn:Ed; [|done]. injection Hr as -> ->.
  split; [by rewrite fmap_cons, IH1|]. constructor; [|done]. split; [done|]. unfold dep_by_id in Ed.
  apply find_Some in Ed as [_ Hd]. by bool_to_prop.
Qed.

(** The entry of a request's item: sound for the deployment of that id. *)
Definition item_entry (request : FleetRequest) (input : FleetInput) (i : FleetItem) (e : FleetEntry) : Prop :=
  exists d, dep_by_id (fin_deployments input) (fi_deploymentId i) = Some d ∧ entry_sound input (fq_poolNodeIds request) (i, d) e.

Lemma unique_key {A B : Type} (key : A -> B) l x y : NoDup (key <$> l) -> x ∈ l -> y ∈ l -> key x = key y -> x = y.
Proof.
  intros Hnd (i & Hi)%list_elem_of_lookup (j & Hj)%list_elem_of_lookup Heq.
  assert (i = j) as ->; [|congruence]. eapply NoDup_lookup; [exact Hnd|..]; rewrite list_lookup_fmap; [by rewrite Hi|].
  rewrite Hj. cbn. by rewrite Heq.
Qed.

Section matched.
Context (request : FleetRequest) (input : FleetInput) (items : list (FleetItem * Deployment)) (best : Run) (k : Z).
Hypothesis Hreq : NoDup (fi_deploymentId <$> fq_items request).
Hypothesis Hitems : mapM_result (resolve input) (fq_items request) = Ok items.
Notation f := (make_fleet request input items).
Hypothesis Hbest : best = run_budget f (outside request input) k.

Lemma best_ok : run_ok f (outside request input) (fl_order f) best.
Proof using Hbest. rewrite Hbest. by apply run_budget_ok. Qed.

Lemma order_perm : fl_order f ≡ₚ items.
Proof using. apply js_sort_perm. Qed.

Lemma best_entry e : e ∈ ru_entries best -> exists i, i ∈ fq_items request ∧ item_entry request input i e ∧ fe_deploymentId e = fi_deploymentId i.
Proof using Hitems Hbest.
  intros (j & Hj)%list_elem_of_lookup. destruct best_ok as [Hall _ _].
  destruct (Forall2_lookup_r _ _ _ _ _ Hall Hj) as ([i d] & Hid & He). apply list_elem_of_lookup_2 in Hid.
  rewrite order_perm in Hid. destruct (resolved _ _ _ Hitems) as [Hfst Hd]. rewrite Forall_forall in Hd.
  destruct (Hd _ Hid) as [Hdep Hid']. exists i. split_and!.
  - rewrite <-Hfst. apply (list_elem_of_fmap_2 fst) in Hid. exact Hid.
  - by exists d.
  - destruct He as (-> & _). exact Hid'.
Qed.

Lemma entries_match entries : mapM_result (entry_of best) (fq_items request) = Ok entries ->
  Forall2 (item_entry request input) (fq_items request) entries ∧ entries ≡ₚ ru_entries best.
Proof using Hreq Hitems Hbest.
  intros H%mapM_Ok.
  assert (Forall2 (fun i e => e ∈ ru_entries best ∧ fe_deploymentId e = fi_deploymentId i) (fq_items request) entries) as Hin.
  { eapply Forall2_impl; [exact H|]. intros i e He. unfold entry_of in He. destruct (find _ _) as [x|] eqn:Ef; [|done].
    injection He as ->. apply find_Some in Ef as [? ?]. by bool_to_prop. }
  split.
  - apply Forall2_same_length_lookup_2; [by eapply Forall2_length|]. intros j i e Hi He.
    destruct (Forall2_lookup_lr _ _ _ _ _ _ Hin Hi He) as [Hx Hid]. destruct (best_entry e Hx) as (i' & Hi' & Hok & Hid').
    rewrite (unique_key fi_deploymentId (fq_items request) i i'); [done|done| |done|congruence].
    by eapply list_elem_of_lookup_2.
  - assert (fe_deploymentId <$> entries = fi_deploymentId <$> fq_items request) as Hids.
    { clear -Hin. induction Hin as [|i e l k' [_ Hid] _ IH]; [done|]. by rewrite !fmap_cons, IH, Hid. }
    apply submseteq_length_Permutation.
    + apply NoDup_submseteq; [apply (NoDup_fmap_1 fe_deploymentId); by rewrite Hids|].
      intros e (j & Hj)%list_elem_of_lookup. by destruct (Forall2_lookup_r _ _ _ _ _ Hin Hj) as (i & _ & [? _]).
    + destruct best_ok as [Hall _ _]. rewrite <-(Forall2_length _ _ _ Hall), order_perm, <-(Forall2_length _ _ _ Hin).
      destruct (resolved _ _ _ Hitems) as [Hfst _]. rewrite <-Hfst. by rewrite length_fmap.
Qed.
End matched.

(** What a preview returns, in terms of the budget it chose. *)
Lemma preview_best request input v : NoDup (fi_deploymentId <$> fq_items request) -> previewFleet request input = Ok v ->
  exists items best k, mapM_result (resolve input) (fq_items request) = Ok items ∧
    best = run_budget (make_fleet request input items) (outside request input) k ∧
    (forall r, r ∈ all_runs request (make_fleet request input items) -> better_run r best = false) ∧
    Forall2 (item_entry request input) (fq_items request) (fv_entries v) ∧ fv_entries v ≡ₚ ru_entries best ∧
    fv_plannedCount v = planned_count best ∧ fv_allocations v = ru_ledger best.
Proof.
  intros Hnd (items & best & errors & Hi & Hin & Hbest & He & Hm & Hc & Hn & Ha & _)%preview_inv.
  unfold Fleet.all_runs in Hin. apply list_elem_of_fmap in Hin as (k & Hk & _).
  destruct (entries_match request input items best k Hnd Hi Hk _ He) as [H1 H2]. exists items, best, k. by split_and!.
Qed.

(** C14: previews never promise capacity twice.  If the registry is well formed and what stays reserved for the
    deployments outside the request is within the offers, then charging every proposed plan on top of it
    is still within every node's offer, on RAM, cores and each GPU; the ledger the preview reports is exactly
    that sum. *)
Theorem previewFleet_no_overcommit body request input v :
  parseFleetRequest body = Ok request -> registry_ok (fin_nodes input) ->
  ledger_fits (fin_nodes input) (outside request input) -> previewFleet request input = Ok v ->
  let charged := addAllocations (outside request input) (plan_allocations (fe_plan <$> fv_entries v)) in
  ledger_fits (fin_nodes input) charged ∧
  forall id r, amount (used_on (fv_allocations v) id) r = amount (used_on charged id) r.
Proof.
  intros Hq Hreg Hout H. apply request_parsed in Hq. destruct (preview_best request input v (qo_distinct _ Hq) H)
    as (items & best & k & _ & -> & _ & _ & Hperm & _ & Ha).
  set (f := make_fleet request input items) in *. set (best := run_budget f _ k) in *.
  destruct (run_budget_fits f (outside request input) eq_refl k Hreg Hout) as [Hok Hfit].
  destruct (run_budget_ok f (outside request input) eq_refl k) as [_ Hl _]. fold best in Hok, Hfit, Hl.
  assert (plan_allocations (fe_plan <$> fv_entries v) ≡ₚ entry_plans best) as Hp.
  { apply plan_allocations_perm. by rewrite Hperm. }
  assert (forall id r, amount (used_on (fv_allocations v) id) r =
    amount (used_on (addAllocations (outside request input) (plan_allocations (fe_plan <$> fv_entries v))) id) r) as Heq.
  { intros id r. rewrite Ha, Hl, !used_addAllocations by (by rewrite ?Hp). by rewrite (charged_perm _ _ id r Hp). }
  split; [|done]. intros n Hn Ho r. rewrite <-Heq, Ha. by apply Hfit.
Qed.

(** C16: what a preview proposes is sound.  There is one entry for each selected deployment, in the request's order, showing
    its current placement and either a proposal or an error.  A proposal is a plan of the planner for that
    deployment's own spec with only the placement and the budgets replaced (the current placement in keep
    mode, the requested one in manual mode); it runs only on selected nodes that are online, enabled, support
    budgets and are named by the placement.  The count is that of the proposals, and the preview can be
    applied exactly when every deployment has one and no host is short of measured memory. *)
Theorem previewFleet_sound body request input v :
  parseFleetRequest body = Ok request -> previewFleet request input = Ok v ->
  Forall2 (item_entry request input) (fq_items request) (fv_entries v) ∧
  fv_plannedCount v = length (omap fe_winner (fv_entries v)) ∧
  (fv_canApply v = true <->
     Forall (fun e => is_Some (fe_winner e)) (fv_entries v) ∧
     hostMemoryErrors input (fe_plan <$> fv_entries v) (selected_of request) = Ok []).
Proof.
  intros Hq H. apply request_parsed in Hq. pose proof (preview_best request input v (qo_distinct _ Hq) H)
    as (items & best & k & _ & _ & _ & Hall & Hperm & Hn & _).
  assert (fv_plannedCount v = length (omap fe_winner (fv_entries v))) as Hcount.
  { rewrite Hn. unfold planned_count. by rewrite Hperm. }
  split_and!; [done|done|].
  apply preview_inv in H as (items' & best' & errors & _ & _ & _ & _ & Hm & Hc & Hn' & _ & _).
  rewrite Hc, Hm, <-Hn', Hcount, (Forall2_length _ _ _ Hall), andb_true_iff, bool_decide_eq_true, Nat.eqb_eq.
  rewrite <-(omap_full fe_winner). split; intros [H1 H2]; (split; [done|]).
  - by destruct errors.
  - by injection H2 as ->.
Qed.

(** The search is bounded.  A preview evaluates at most four budgets, and in each at most ten candidates for every
    eligible pool node (never fewer than one) for each selected deployment. *)
Theorem previewFleet_bounded request input v : previewFleet request input = Ok v ->
  (fv_evaluatedCandidates v <=
     4 * (length (fq_items request) * Nat.max 1 (10 * length (pool_nodes input (fq_poolNodeIds request)))))%nat.
Proof.
  intros (items & best & errors & Hi & _ & _ & _ & _ & _ & _ & _ & ->)%preview_inv.
  set (f := make_fleet request input items). set (bound := (length (fq_items request) * _)%nat).
  assert (length (fl_order f) = length (fq_items request)) as Hlen.
  { unfold f. rewrite order_perm. destruct (resolved _ _ _ Hi) as [<- _]. by rewrite length_fmap. }
  unfold Fleet.all_runs. fold (baseline_of f).
  assert (forall l : list Z, (sum_list (ru_evaluated <$> (run_budget f (baseline_of f) <$> l)) <= length l * bound)%nat) as H.
  { induction l as [|k l IH]; [done|]. destruct (run_budget_ok f (baseline_of f) eq_refl k) as [_ _ Hb].
    rewrite Hlen in Hb. change (ru_evaluated (run_budget f (baseline_of f) k) <= bound)%nat in Hb. rewrite !fmap_cons.
    change (sum_list (?x :: ?y)) with (x + sum_list y)%nat. cbn [length]. lia. }
  etrans; [apply H|]. apply Nat.mul_le_mono_r. unfold sharing_budgets. cbn.
  repeat case_bool_decide; cbn; lia.
Qed.
End facts.

(** ** A fleet of three nodes *)

Section demo.
Local Open Scope string_scope.

Definition demo_dep (id : string) (kind : DeploymentKind) : Deployment :=
  {| dep_id := id; dep_spec := demo_spec kind "demo" None; dep_savedDistribution := None; dep_state := planned;
     dep_plan := None; dep_endpoint := None; dep_error := None; dep_createdAt := 0; dep_updatedAt := 0 |}.
Definition demo_fleet : FleetInput :=
  {| fin_nodes := in_nodes (demo_input split); fin_deployments := [demo_dep "d1" split; demo_dep "d2" replica];
     fin_assignments := []; fin_profiles := [("demo", demo_profile "demo" 24)]; fin_now := num_of_Z 1000 |}.
Definition demo_item (id mode : string) : json := JObj [("deploymentId", JStr id); ("mode", JStr mode)].
Definition demo_body : json :=
  JObj [("items", JArr [demo_item "d1" "balanced"; demo_item "d2" "balanced"]);
        ("poolNodeIds", JArr [JStr "a"; JStr "b"; JStr "c"])].
Definition demo_request : FleetRequest :=
  match parseFleetRequest demo_body with Ok q => q | Err _ => {| fq_items := []; fq_poolNodeIds := [] |} end.
Definition demo_Date (s : string) : num := num_nan.
Definition demo_pow (x y : num) : num := num_mul x x.
Definition demo_show (e : FleetFailure) : string := "e".
Definition demo_hash (b : RevisionBody) : string := "h".
Abbreviation demo_preview :=
  (previewFleet String.eqb String.compare demo_Date demo_pow demo_show demo_hash [] demo_request demo_fleet).

Lemma parseFleetRequest_well_formed_witness : length (fq_items demo_request) = 2%nat ∧ request_ok demo_request.
Proof.
  split; [vm_compute; reflexivity|]. apply (parseFleetRequest_well_formed demo_body). vm_compute. reflexivity.
Defined.

Lemma demo_outside : outside demo_request demo_fleet = ∅.
Proof. vm_compute. reflexivity. Qed.

Lemma previewFleet_no_overcommit_witness :
  match demo_preview with
  | Ok v => fe_plan <$> fv_entries v <> [None; None] ∧ ledger_fits (in_nodes (demo_input split))
      (addAllocations (outside demo_request demo_fleet) (plan_allocations (fe_plan <$> fv_entries v)))
  | Err _ => False
  end.
Proof.
  destruct (previewFleet _ _ _ _ _ _ _ _ _) as [v|e] eqn:E.
  - split; [vm_compute in E; injection E as <-; discriminate|].
    refine (proj1 (previewFleet_no_overcommit String.eqb String.compare demo_Date demo_pow demo_show demo_hash [] demo_body demo_request demo_fleet v _ demo_registry_ok _ E)).
    + vm_compute. reflexivity.
    + rewrite demo_outside. exact demo_ledger_fits.
  - vm_compute in E. discriminate E.
Defined.

Lemma previewFleet_sound_witness :
  match demo_preview with
  | Ok v => fv_plannedCount v = 2%nat ∧ Forall2 (item_entry String.eqb String.compare [] demo_request demo_fleet)
      (fq_items demo_request) (fv_entries v)
  | Err _ => False
  end.
Proof.
  destruct (previewFleet _ _ _ _ _ _ _ _ _) as [v|e] eqn:E.
  - split; [vm_compute in E; injection E as <-; reflexivity|].
    refine (proj1 (previewFleet_sound String.eqb String.compare demo_Date demo_pow demo_show demo_hash [] demo_body demo_request demo_fleet v _ E)). vm_compute. reflexivity.
  - vm_compute in E. discriminate E.
Defined.

Lemma previewFleet_bounded_witness :
  match demo_preview with
  | Ok v => fv_evaluatedCandidates v = 15%nat ∧ (fv_evaluatedCandidates v <= 240)%nat
  | Err _ => False
  end.
Proof.
  destruct (previewFleet _ _ _ _ _ _ _ _ _) as [v|e] eqn:E.
  - split; [vm_compute in E; injection E as <-; reflexivity|].
    exact (previewFleet_bounded String.eqb String.compare demo_Date demo_pow demo_show demo_hash [] demo_request demo_fleet v E).
  - vm_compute in E. discriminate E.
Defined.
End demo.
