(* ===== verification/AllocationSound.v ===== *)
(** * Fleet allocations: exclusive, admitted within the offers

    While the token is held the queues only hold the allocation's own jobs and cleanups, and calls from outside are
    refused.  An allocation is admitted, and its specifications are written, only for plans that fit the offers together. *)

From S2P Require Import Prelude Async Rules JsNum Json Types Validate PhasePlan Planner PlannerFacts PlannerSound Resources Fleet Topology Registry Manager Deployments DeploymentsFacts Allocation ControlLoop Scenario QueueFacts AllocationInv ResourcesSound FleetFacts.

Local Open Scope Z_scope.

(** ** The queues while the token is held *)

Lemma jobs_elem m j : j ∈ jobs m <-> exists id l, operations m !! id = Some l ∧ j ∈ l.
Proof.
  unfold jobs. rewrite list_elem_of_bind. split.
  - intros ([id l] & Hj & Hl). exists id, l. split; [by apply elem_of_map_to_list|done].
  - intros (id & l & Hl & Hj). exists (id, l). split; [done|by apply elem_of_map_to_list].
Qed.

Definition exclusive (m : Mgr) : Prop := fleetToken m = true -> forall j, j ∈ jobs m -> owned j.

Section exclusive.
Context `{Host} (deps : Deps).

Lemma e_ops m m' : operations m' = operations m ->
  (fleetToken m' = fleetToken m \/ fleetToken m' = false \/ operations m = ∅) -> exclusive m -> exclusive m'.
Proof.
  intros Ho Ht Hm Hf j Hj. assert (j ∈ jobs m) as Hj' by (unfold jobs in *; by rewrite Ho in Hj).
  destruct Ht as [Ht|[Ht|Ht]]; [apply Hm; congruence|congruence|].
  apply jobs_elem in Hj' as (id & l & Hl & _). by rewrite Ht, lookup_empty in Hl.
Qed.
Lemma e_frame m m' : operations m' = operations m -> allocation m' = allocation m -> fleetToken m' = fleetToken m -> exclusive m -> exclusive m'.
Proof. intros Ho _ Ht. apply e_ops; auto. Qed.
Lemma e_enqueue id j : owned j -> pres exclusive (enqueue id j).
Proof.
  intros Hj. apply pres_modify. intros m Hm Hf j' (id' & l & Hl & Hj')%jobs_elem. cbn in Hl.
  apply lookup_insert_Some in Hl as [[<- <-]|[_ Hl]]; [|apply Hm; [done|]; apply jobs_elem; eauto].
  apply elem_of_app in Hj' as [Hj'|Hj'%list_elem_of_singleton]; [|by subst]. destruct (operations m !! id) as [l|] eqn:E.
  - apply Hm; [done|]. apply jobs_elem; eauto.
  - by apply elem_of_nil in Hj'.
Qed.
Lemma e_pop id : pres exclusive (pop_job id).
Proof.
  apply pres_modify. intros m Hm Hf j Hj. assert (fleetToken m = true) as Hf' by (by repeat case_match).
  apply Hm; [done|]. apply jobs_elem. apply jobs_elem in Hj as (id' & l & Hl & Hj).
  destruct (operations m !! id) as [[|j1 [|j2 l2]]|] eqn:E; cbn in Hl;
    try (apply lookup_delete_Some in Hl as [_ Hl]; by eauto).
  apply lookup_insert_Some in Hl as [[<- <-]|[_ Hl]]; [|by eauto]. exists id, (j1 :: j2 :: l2). split; [done|by right].
Qed.

(** ** Calls from outside *)

Lemma refused m : fleetToken m = true -> exists e, assertFleetAccess false m = (Err e, m).
Proof. intros Ht. unfold assertFleetAccess, mbind, M_bind, mget. rewrite Ht. by eexists. Qed.
Lemma clear_result id m : exists m1, clearExclusions id m = (Ok tt, m1) ∧ fleetToken m1 = fleetToken m.
Proof.
  unfold clearExclusions. unfold mbind at 1, M_bind at 1, mget. cbv beta iota.
  destruct (al_get _ _) as [x|]; [|by eexists]. case_match; by eexists.
Qed.
Lemma start_refused id b1 b3 b4 a m : fleetToken m = true -> exists e,
  start id b1 false b3 b4 a m = (Err e, (mwhen (negb b1) (clearExclusions id) m).2).
Proof.
  intros Ht. assert (exists m1, mwhen (negb b1) (clearExclusions id) m = (Ok tt, m1) ∧ fleetToken m1 = true) as (m1 & E & Ht1).
  { destruct b1; [by eexists|]. destruct (clear_result id m) as (m1 & E & Ht1). exists m1. by rewrite Ht1. }
  destruct (refused m1 Ht1) as [e He]. exists e. unfold start. unfold mbind at 1, M_bind at 1. rewrite E.
  unfold mbind at 1, M_bind at 1. by rewrite He.
Qed.
Lemma stop_refused id a m : fleetToken m = true -> exists e, stop id false a m = (Err e, m).
Proof. intros [e He]%refused. exists e. unfold stop. unfold mbind at 1, M_bind at 1. by rewrite He. Qed.

Lemma e_mild : mild exclusive.
Proof.
  assert (mild (fun m => fleetToken m = false)) as Hf.
  { apply mild_queue; [by intros m m' _ _ ->|]. intros id j _. by apply pres_modify. }
  split; [intros id; apply e_enqueue; by right| |].
  - intros id b1 b3 b4 a Ha m Hm. destruct (fleetToken m) eqn:Et.
    + destruct (start_refused id b1 b3 b4 a m Et) as [e ->]. cbn. apply (pres_when exclusive); [|done]. intros _.
      apply q_clearExclusions, e_frame.
    + pose proof (ml_start _ Hf id b1 b3 b4 a Ha m Et) as Hr. intros Ht. congruence.
  - intros id a Ha m Hm. destruct (fleetToken m) eqn:Et.
    + destruct (stop_refused id a m Et) as [e ->]. exact Hm.
    + pose proof (ml_stop _ Hf id a Ha m Et) as Hr. intros Ht. congruence.
Qed.

Lemma exclusive_run r t l : exclusive (mgr (run deps (boot deps r t) l)).
Proof.
  apply sys_run; [exact e_frame|intros; apply h_sync_turn; [exact e_ops|exact e_enqueue|exact e_mild]| |done].
  intros id j x m Hm _. revert m Hm. apply pres_bind; [apply e_pop|]. intros []. apply h_run_after; [exact e_ops|exact e_enqueue|exact e_mild].
Qed.

(** Creating a deployment adds to the registry and leaves the rest of the fleet alone. *)
Record only_adds (m m' : Mgr) : Prop := {
  oa_jobs : operations m' = operations m; oa_sent : sent m' = sent m;
  oa_allocation : allocation m' = allocation m; oa_token : fleetToken m' = fleetToken m;
  oa_rows : rg_assignments (reg m') = rg_assignments (reg m); oa_runs : rg_fleetRuns (reg m') = rg_fleetRuns (reg m);
  oa_deployments : exists l, rg_deployments (reg m') = rg_deployments (reg m) ++ l;
  oa_intents : exists l, rg_intents (reg m') = rg_intents (reg m) ++ l }.
#[export] Instance only_adds_preorder : PreOrder only_adds.
Proof.
  split; [intros m; split; try done; exists []; by rewrite app_nil_r|].
  intros m1 m2 m3 [] []. destruct oa_deployments0 as [l1 E1], oa_deployments1 as [l2 E2], oa_intents0 as [k1 E3], oa_intents1 as [k2 E4].
  split; try congruence; [exists (l1 ++ l2)|exists (k1 ++ k2)]; rewrite ?E2, ?E1, ?E4, ?E3; by rewrite app_assoc.
Qed.
Lemma oa_same {A} (x : Sync A) m0 : (forall m, only_adds m (x m).2) -> pres (only_adds m0) x.
Proof. intros Hx m Hm. by etrans. Qed.
Lemma oa_keep m m' : operations m' = operations m -> sent m' = sent m -> allocation m' = allocation m -> fleetToken m' = fleetToken m ->
  rg_assignments (reg m') = rg_assignments (reg m) -> rg_fleetRuns (reg m') = rg_fleetRuns (reg m) ->
  rg_deployments (reg m') = rg_deployments (reg m) -> rg_intents (reg m') = rg_intents (reg m) -> only_adds m m'.
Proof. intros. split; try done; exists []; by rewrite app_nil_r. Qed.

#[local] Hint Extern 3 (pres (only_adds _) (mmodify _)) => (apply oa_same; intros ?; by apply oa_keep) : pres.
#[local] Hint Extern 3 (pres (only_adds _) (regw _)) => (apply oa_same; intros ?; by apply oa_keep) : pres.
#[local] Hint Extern 3 (pres (only_adds _) (ev _ _)) => (apply oa_same; intros ?; by apply oa_keep) : pres.
#[local] Hint Extern 3 (pres (only_adds _) (new_id _)) => (apply oa_same; intros ?; by apply oa_keep) : pres.
Lemma oa_create_row m0 id s : pres (only_adds m0) (create_row id s).
Proof.
  apply oa_same. intros m. unfold create_row, createDeployment, insert_new.
  destruct (row dep_id _ _); [by apply oa_keep|]. destruct (row ir_deploymentId _ _); split; try done; cbn;
    first [by eexists|exists []; by rewrite app_nil_r].
Qed.
Lemma oa_updatingNode m0 : pres (only_adds m0) updatingNode.
Proof. apply oa_same. intros m. unfold updatingNode. destruct (updateLease m) as [l|]; [destruct (_ <=? _)|]; by apply oa_keep. Qed.
#[local] Hint Resolve oa_create_row oa_updatingNode : pres.
Lemma oa_first_duplicate m0 m x k e l : pres (only_adds m0) (first_duplicate m x k e l).
Proof. induction l; cbn [first_duplicate]; unfold duplicate_external, externalOrigin; pres. Qed.
#[local] Hint Resolve oa_first_duplicate : pres.
Lemma oa_plan m0 s u r e : pres (only_adds m0) (plan deps s u r e).
Proof. unfold plan. pres. Qed.
#[local] Hint Resolve oa_plan : pres.
Lemma oa_choose_from m0 b r e l : forall tried skipped, pres (only_adds m0) (choose_from deps b r e tried skipped l).
Proof. induction l; intros tried skipped; cbn [choose_from]; pres. Qed.
#[local] Hint Resolve oa_choose_from : pres.
Lemma create_adds m0 spec : pres (only_adds m0) (create deps spec).
Proof.
  unfold create, chooseAuto, autodiscover, fleetInput, assertUniqueExternal, assertExternalOptions, the_external, externalOrigin. pres.
Qed.

(** Requests of people about deployments that exist *)
Definition human (t : Turn) : bool :=
  match t with Start _ | Stop _ | Remove _ | Preview _ | Apply _ | Distribute _ _ | ApplyDistribution _ => true | _ => false end.
(** The request fails; but to apply a run that is no preview any more just gives the run. *)
Definition denied (t : Turn) (m : Mgr) (r : result string unit) : Prop :=
  (exists e, r = Err e) \/ exists i run, t = Apply i ∧ fleetRun (reg m) i = Some run ∧ fr_status run <> s_preview.
(** What it leaves: everything as it was, except that a start forgets which nodes a failed move of its deployment excluded, and
    says so in the event log. *)
Definition unmoved (t : Turn) (m m' : Mgr) : Prop :=
  m' = m \/ exists id l, t = Start id ∧ m' = set_moveExcluded (al_delete (moveExcluded m) id) (set_reg (set_events l (reg m)) m).
Lemma denied_unmoved t m e : sync_turn deps t m = (Err e, m) -> denied t m (sync_turn deps t m).1 ∧ unmoved t m (sync_turn deps t m).2.
Proof. intros ->. split; left; eauto. Qed.

Lemma human_denied t m : human t = true -> fleetToken m = true ->
  denied t m (sync_turn deps t m).1 ∧ unmoved t m (sync_turn deps t m).2.
Proof.
  intros Hh Ht. destruct (refused m Ht) as [e He].
  destruct t; try done.
  - cbn [sync_turn]. destruct (start_refused id false true false Nothing m Ht) as [e' ->]. cbn. split; [left; by eexists|]. unfold clearExclusions.
    unfold mbind at 1, M_bind at 1, mget. cbv beta iota. destruct (al_get _ _) as [x|]; [|by left]. case_match; [by left|].
    right. by eexists id, _.
  - destruct (stop_refused id Nothing m Ht) as [e' E]. by apply (denied_unmoved (Stop id) m e').
  - assert (exists e', remove id m = (Err e', m)) as [e' E]; [|by apply (denied_unmoved (Remove id) m e')].
    unfold remove. unfold mbind at 1, M_bind at 1. unfold must. unfold mbind at 1, M_bind at 1, mget. cbv beta iota.
    destruct (getDeployment _ _) as [d|]; [|by eexists]. cbn -[stop]. case_match; [by eexists|].
    destruct (stop_refused id Then_delete m Ht) as [e' ->]. by eexists.
  - eapply (denied_unmoved (Preview value)). cbn [sync_turn]. unfold previewAllocation. unfold mbind at 1, M_bind at 1, mget. cbv beta iota.
    by rewrite Ht, orb_true_r.
  - assert (forall r, applyAllocation deps runId m = (r, m) -> sync_turn deps (Apply runId) m = ((fun _ => tt) <$> r, m)) as Hrun.
    { intros r E. cbn [sync_turn]. unfold mbind, M_bind. rewrite E. by destruct r. }
    unfold applyAllocation in Hrun. unfold mbind at 1, M_bind at 1, mget in Hrun. cbv beta iota in Hrun. rewrite Ht, orb_true_r in Hrun.
    destruct (fleetRun _ _) as [run|] eqn:Er; [|rewrite (Hrun _ eq_refl); split; left; by eauto].
    case_bool_decide as Hp; cbn [negb] in Hrun; rewrite (Hrun _ eq_refl); (split; [|by left]); [left; by eexists|right; by eexists _, run].
  - eapply (denied_unmoved (Distribute id value)). cbn [sync_turn]. unfold mbind at 1, M_bind at 1. unfold saveDistribution. unfold mbind at 1, M_bind at 1. by rewrite He.
  - eapply (denied_unmoved (ApplyDistribution id)). cbn [sync_turn]. unfold applyDistribution. unfold mbind at 1, M_bind at 1. by rewrite He.
Qed.

(** C8: An allocation is exclusive.  In every state the control process reaches while the fleet token is held, each queued
    job is a stop or a start of the allocation itself, or the cleanup of a failed deployment.  A person's request to start,
    stop, remove or redistribute a deployment, or to preview or apply another allocation, fails (but for asking to apply a run
    that has been applied, which gives that run) and leaves the whole state as it was, except that a start forgets the nodes
    that a failed move of its deployment excluded and logs that.  The one request
    that is let through, to create a deployment, only adds: the queues, the frames sent, the allocation, its token, the
    assignments, the runs and every deployment with its intent stay as they are. *)
Theorem allocation_exclusive r t l : let m := mgr (run deps (boot deps r t) l) in fleetToken m = true ->
  (forall id q j, operations m !! id = Some q -> j ∈ q ->
     (exists i, jb_after j = Then_stopped i) \/ (exists i, jb_after j = Then_started i) \/ jb_work j = WTeardown) ∧
  (forall x, human x = true -> denied x m (sync_turn deps x m).1 ∧ unmoved x m (sync_turn deps x m).2) ∧
  forall spec, only_adds m (sync_turn deps (Create spec) m).2.
Proof.
  intros m Ht. split; [|split].
  - intros id q j Hq Hj.
    assert (owned j) as [[w Hw]|Hw]; [apply (exclusive_run r t l Ht), jobs_elem; by eauto| |auto].
    unfold wait_of, waits_for in Hw. destruct (jb_after j); try done; eauto.
  - intros x Hx. by apply human_denied.
  - intros spec. assert (pres (only_adds m) (create deps spec ;; mret tt)) as Hc; [|by apply Hc].
    apply pres_bind; [apply create_adds|]. intros ?. apply pres_ret.
Qed.
End exclusive.

(** ** Plans that fit together *)

Section fits.
Context `{Host} (deps : Deps).

(** The entry's specification can be planned for, on top of some ledger. *)
Definition plans_entry (input : FleetInput) (e : RunEntry) (plan : Plan) : Prop :=
  exists w profile L, fe_winner (re_entry e) = Some w ∧ get_profile input (ds_profile (fw_spec w)) = Some profile ∧
    planWithResources re_test localeCompare (fw_spec w) profile (fin_nodes input) L ∅ QWEN35_NATIVE_QUALIFICATIONS = Ok plan.

(** What the deployments that are not selected hold *)
Definition others (input : FleetInput) (run : FleetRun) : ResourceLedger :=
  reservedResources (fin_deployments input) (fin_assignments input) (fin_nodes input) (list_to_set (run_id_of <$> fr_entries run)).

(** All plans of the run fit the offers, on top of what the others hold, if that fits. *)
Definition fits_together (input : FleetInput) (run : FleetRun) : Prop :=
  registry_ok (fin_nodes input) -> ledger_fits (fin_nodes input) (others input run) ->
  exists plans, Forall2 (plans_entry input) (fr_entries run) plans ∧
    ledger_fits (fin_nodes input) (addAllocations (others input run) (plan_allocations (Some <$> plans))).

Lemma validate_entry_fits input L e L' : registry_ok (fin_nodes input) -> ledger_fits (fin_nodes input) L ->
  validate_entry input L e = Ok L' -> exists plan, plans_entry input e plan ∧
    L' = addAllocations L (default [] (pl_allocations plan)) ∧ ledger_fits (fin_nodes input) L'.
Proof.
  intros Hreg Hfit He. unfold validate_entry in He. destruct (fe_winner _) as [w|] eqn:Ew; [|done].
  destruct (fe_error _); [done|]. destruct (re_error _); [done|]. destruct (get_profile _ _) as [profile|] eqn:Ep; [|done].
  destruct (planWithResources _ _ _ _ _ _ _ _) as [plan|] eqn:Epl; [|done].
  destruct (plan_fits _ _ _ _ _ _ _ _ _ Hreg Hfit Epl) as (al & Hal & _ & _ & Hf). rewrite Hal in He. injection He as <-.
  exists plan. split; [by exists w, profile, L|]. by rewrite Hal.
Qed.
Lemma validate_entries_fits input l : forall L L', registry_ok (fin_nodes input) -> ledger_fits (fin_nodes input) L ->
  validate_entries input L l = Ok L' -> exists plans, Forall2 (plans_entry input) l plans ∧
    ledger_fits (fin_nodes input) (addAllocations L (plan_allocations (Some <$> plans))).
Proof.
  induction l as [|e l IH]; intros L L' Hreg Hfit He; cbn [validate_entries] in He.
  - exists []. split; [constructor|exact Hfit].
  - apply bind_Ok in He as (L1 & H1 & H2). destruct (validate_entry_fits _ _ _ _ Hreg Hfit H1) as (plan & Hp & -> & Hf).
    destruct (IH _ _ Hreg Hf H2) as (plans & Hps & Hfits). exists (plan :: plans). split; [by constructor|].
    change (plan_allocations (Some <$> plan :: plans)) with (default [] (pl_allocations plan) ++ plan_allocations (Some <$> plans)).
    unfold addAllocations in *. rewrite foldl_app. exact Hfits.
Qed.

Lemma validated run m m' : validateFleetPlans deps run m = (Ok tt, m') ->
  exists input, (fleetInput deps m).1 = Ok input ∧ fits_together input run.
Proof.
  unfold validateFleetPlans. unfold mbind at 1, M_bind at 1. destruct (fleetInput deps m) as [[input|e] m1]; [|done].
  intros Hv. exists input. split; [done|]. cbv zeta in Hv. fold (others input run) in Hv.
  destruct (validate_entries _ _ _) as [L'|] eqn:E; [|done]. intros Hreg Hfit. by apply (validate_entries_fits input _ _ L').
Qed.

Lemma updating_twice m : updatingNode (updatingNode m).2 = updatingNode m.
Proof. unfold updatingNode. destruct (updateLease m) as [l|] eqn:E; cbn; [destruct (_ <=? _) eqn:El; cbn|]; by rewrite ?E, ?El, ?E. Qed.
Lemma fleetInput_settled m : fleetInput deps (updatingNode m).2 = fleetInput deps m.
Proof. unfold fleetInput. unfold mbind at 1 3, M_bind at 1 3. by rewrite updating_twice. Qed.
Lemma fleetInput_state m : (fleetInput deps m).2 = (updatingNode m).2.
Proof. unfold fleetInput. unfold mbind at 1, M_bind at 1. by destruct (updatingNode m) as [[u|e] m1]. Qed.

(** What admission checks of the process and of the saved preview *)
Record admissible (m : Mgr) (run : FleetRun) : Prop := {
  ad_preview : fr_status run = s_preview;
  ad_can : fv_canApply (fr_preview run) = true;
  ad_fresh : now m - fr_createdAt run <= 600000;
  ad_open : closed m = false;
  ad_token : fleetToken m = false ∧ fleetPlanning m = false;
  ad_lease : (updatingNode m).1 = Ok None;
  ad_jobs : operations m = ∅ ∧ distributionApplications m = ∅ ∧ reconnecting m = ∅;
  ad_requests : forall e, e ∈ fr_entries run -> load m (run_id_of e) <= 0 }.

Lemma updating_same m r m1 : updatingNode m = (r, m1) -> exists l, m1 = set_updateLease l m.
Proof.
  unfold updatingNode. intros [= _ <-]. destruct (updateLease m) as [l|] eqn:E.
  - destruct (_ <=? _); [by eexists|]. exists (Some l). rewrite <-E. by destruct m.
  - exists None. rewrite <-E. by destruct m.
Qed.

(** An allocation is admitted only from a fresh preview that can be applied, while nothing else changes deployments or
    nodes, when nodes, offers and deployments still have the revision the preview was computed from and no selected
    deployment serves a request; and only if its plans, made again on what the others hold, fit every node's offer
    together. *)
Theorem allocation_admitted id m m' : applyAllocation deps id m = (Ok None, m') ->
  exists run input, fleetRun (reg m) id = Some run ∧ admissible m run ∧
    (fleetInput deps m).1 = Ok input ∧ fv_revision (fr_preview run) = revision_of input ∧ fits_together input run.
Proof.
  unfold applyAllocation. unfold mbind at 1, M_bind at 1, mget. cbv beta iota. destruct (fleetRun _ id) as [run|]; [|done].
  destruct (negb _) eqn:Hs; [done|]. apply negb_false_iff, bool_decide_eq_true in Hs.
  destruct (closed m || _ || _) eqn:Hb; [done|]. apply orb_false_iff in Hb as [[Hc Ht]%orb_false_iff Hp].
  unfold mbind at 1, M_bind at 1. destruct (updatingNode m) as [[u|e] m1] eqn:Hu; [|done].
  destruct (updating_same _ _ _ Hu) as [l ->].
  unfold mbind at 1, M_bind at 1, mget. cbv beta iota.
  destruct (present u || _ || _ || _) eqn:Hj; [done|].
  apply orb_false_iff in Hj as [[[Hl Ho]%orb_false_iff Hd]%orb_false_iff Hr].
  apply negb_false_iff, bool_decide_eq_true in Ho, Hd, Hr.
  destruct (negb _ || _) eqn:Hf; [done|]. apply orb_false_iff in Hf as [Hcan%negb_false_iff Hage%Z.ltb_ge].
  pose proof (fleetInput_settled m) as Hin. rewrite Hu in Hin. cbn [snd] in Hin.
  unfold mbind at 1, M_bind at 1. rewrite Hin. destruct (fleetInput deps m) as [[input|e] m2] eqn:Ei; [|done].
  destruct (negb _) eqn:Hrev; [done|]. apply negb_false_iff, String.eqb_eq in Hrev.
  destruct (existsb _ _) eqn:Hreq; [done|].
  unfold mbind at 1, M_bind at 1. destruct (validateFleetPlans deps run m2) as [[[]|e] m3] eqn:Hv; [|done]. intros _.
  pose proof (fleetInput_state m) as Hst. rewrite Ei in Hst. cbn [snd] in Hst. subst m2.
  destruct (validated _ _ _ Hv) as (input' & Hi' & Hfits). rewrite fleetInput_settled, Ei in Hi'. injection Hi' as <-.
  exists run, input. split; [done|]. split; [|done]. split; try done.
  - rewrite Hu. by destruct u.
  - intros e He. destruct (Z.ltb_spec 0 (load m (run_id_of e))) as [Hlt|]; [|done].
    assert (existsb (fun e => 0 <? load (set_updateLease l m) (run_id_of e)) (fr_entries run) = true) as Hx; [|congruence].
    apply existsb_exists. exists e. split; [by apply list_elem_of_In|]. by apply Z.ltb_lt.
Qed.

Lemma validate_leaves run m : let m1 := (validateFleetPlans deps run m).2 in
  allocation m1 = allocation m ∧ rg_deployments (reg m1) = rg_deployments (reg m).
Proof.
  assert (pres (fun x => allocation x = allocation m ∧ rg_deployments (reg x) = rg_deployments (reg m)) (validateFleetPlans deps run)) as Hk;
    [|by apply Hk].
  unfold validateFleetPlans, fleetInput. pres. intros x Hx. destruct (updatingNode x) as [[u|e] m1] eqn:Hu;
    destruct (updating_same _ _ _ Hu) as [l ->]; exact Hx.
Qed.
Lemma alloc_fail_result why m : allocation (alloc_fail why m).2 = None ∧ fleetToken (alloc_fail why m).2 = false ∧
  rg_deployments (reg (alloc_fail why m).2) = rg_deployments (reg m).
Proof.
  unfold alloc_fail, alloc_end, save_run, mwhen, mbind, M_bind, mget, mret, M_ret, alloc_modify, regw, mmodify.
  destruct m as [r]. by destruct closed, allocation.
Qed.

(** The specifications are replaced after every stop is acknowledged, and only if the plans, made once more on what the
    others hold by then, still fit every node's offer together; otherwise every deployment keeps its row and the token is given back. *)
Theorem allocation_replaces_if_fit m a : allocation m = Some a ->
  let m' := (start_entries deps m).2 in
  (allocation m' = None ∧ fleetToken m' = false ∧ rg_deployments (reg m') = rg_deployments (reg m)) ∨
  (exists input, (fleetInput deps m).1 = Ok input ∧ fits_together input (al_run a)).
Proof.
  intros Ha. destruct (validateFleetPlans deps (al_run a) m) as [[[]|e] m1] eqn:Hv; [right; by eapply validated|left].
  pose proof (validate_leaves (al_run a) m) as Hk. rewrite Hv in Hk. destruct Hk as [Ha1 Hd1]. cbn [snd] in Ha1, Hd1.
  assert (start_entries deps m = alloc_fail e m1) as ->.
  { unfold start_entries. unfold mbind at 1, M_bind at 1, mget. cbv beta iota. rewrite Ha. cbv zeta.
    unfold mbind at 1, M_bind at 1, mtry. unfold mbind at 1, M_bind at 1. by rewrite Hv. }
  destruct (alloc_fail_result e m1) as (H1 & H2 & H3). split_and!; [done|done|congruence].
Qed.
End fits.
(** ** A fleet of three nodes *)

Section demo.
Local Open Scope string_scope.

Definition al_deps : Deps := {|
  dp_profiles := [demo_profile "demo" 24]; dp_recoveryDelayMs := None; dp_stopTimeoutMs := None; dp_reconnectGraceMs := None;
  dp_moveIntervalMs := None; dp_crashCooldownMs := None; dp_moveSettleMs := None; dp_wedgedLoadMs := None;
  dp_nativeQualifications := Some []; dp_serverPortBase := 18080; dp_reverseDial := false |}.
Definition al_registry : Registry := {|
  rg_nodes := (fun id => new_node 0 id "" "fp" ("host-" +:+ id) linux "x64" None) <$> ["a"; "b"; "c"]; rg_joinCodes := [];
  rg_deployments := []; rg_intents := []; rg_assignments := []; rg_events := []; rg_apiKeys := []; rg_fleetRuns := [] |}.
Definition al_online (id : string) (gpu ram : Z) (models : list ModelFile) : list Turn :=
  [Connect id; Hello id "1" (demo_caps None) (demo_offer gpu ram) models []].
Definition al_create : list Turn :=
  al_online "a" 6000 8000 [demo_model] ++ al_online "b" 1500 4000 [] ++ al_online "c" 1400 4000 [] ++
  [Create (demo_spec replica "demo" None); Create (demo_spec split "demo" None)].
Definition al_body : json :=
  JObj [("items", JArr [demo_item "dep-0" "balanced"; demo_item "dep-1" "balanced"]);
        ("poolNodeIds", JArr [JStr "a"; JStr "b"; JStr "c"])].
(** Both are stopped, and both starts are queued. *)
Definition al_apply : list Turn := al_create ++ [Preview al_body; Apply "fleet-2"; Begin "dep-0"; Begin "dep-1"].
Definition al_turns : list Turn :=
  al_apply ++ [Begin "dep-0"; Begin "dep-1"; Report "a" "as-3" a_ready None; Report "a" "as-4" a_failed (Some "out of memory");
               Resume "dep-1"; Resume "dep-0"; Begin "dep-1"].

Abbreviation al_mgr l := (mgr (run al_deps (boot al_deps al_registry 1000) l)).
Definition al_show (l : list Turn) :=
  let m := mgr (run al_deps (boot al_deps al_registry 1000) l) in
  (fleetToken m, (fun j => (jb_work j, jb_after j)) <$> jobs m, (fun d => (dep_id d, dep_state d)) <$> listDeployments (reg m),
   (fun x => (fr_status x, (fun e => (re_phase e, re_error e)) <$> fr_entries x)) <$> fleetRuns (reg m)).

Example al_starting : (al_show al_apply).1.1.1 = true ∧ length (al_show al_apply).1.1.2 = 2%nat.
Proof. vm_compute. done. Qed.
(** The second model does not fit its node after all. *)
Example al_partial : al_show al_turns = (false, [(WTeardown, Nothing)], [("dep-0", ready); ("dep-1", failed)],
  [(s_partial, [(Some q_ready, None); (Some q_failed, Some "Error: as-4 failed: out of memory")])]).
Proof. vm_compute. reflexivity. Qed.

Lemma allocation_exclusive_witness :
  fleetToken (al_mgr al_apply) = true ∧
  denied (Stop "dep-0") (al_mgr al_apply) (sync_turn al_deps (Stop "dep-0") (al_mgr al_apply)).1 ∧
  unmoved (Stop "dep-0") (al_mgr al_apply) (sync_turn al_deps (Stop "dep-0") (al_mgr al_apply)).2.
Proof.
  assert (fleetToken (al_mgr al_apply) = true) as Ht by (vm_compute; reflexivity).
  split; [exact Ht|]. exact (proj1 (proj2 (allocation_exclusive al_deps al_registry 1000 al_apply Ht)) (Stop "dep-0") eq_refl).
Defined.

Definition al_previewed : Mgr := al_mgr (al_create ++ [Preview al_body]).
Lemma allocation_admitted_witness :
  match applyAllocation al_deps "fleet-2" al_previewed with
  | (Ok None, _) => exists run input, fleetRun (reg al_previewed) "fleet-2" = Some run ∧ admissible al_previewed run ∧
      (fleetInput al_deps al_previewed).1 = Ok input ∧ fv_revision (fr_preview run) = revision_of input ∧ fits_together input run
  | _ => False
  end.
Proof.
  assert (exists m', applyAllocation al_deps "fleet-2" al_previewed = (Ok None, m')) as [m' Hm].
  { assert ((applyAllocation al_deps "fleet-2" al_previewed).1 = Ok None) as Hr by (vm_compute; reflexivity).
    destruct (applyAllocation _ _ _) as [r m']. exists m'. cbn in Hr. by subst. }
  rewrite Hm. exact (allocation_admitted al_deps "fleet-2" al_previewed m' Hm).
Defined.

Lemma allocation_replaces_if_fit_witness :
  match allocation (al_mgr (al_create ++ [Preview al_body; Apply "fleet-2"])) with
  | Some a => exists input, (fleetInput al_deps (al_mgr (al_create ++ [Preview al_body; Apply "fleet-2"]))).1 = Ok input ∧
      fits_together input (al_run a)
  | None => False
  end.
Proof.
  set (m := al_mgr _). destruct (allocation m) as [a|] eqn:Ha; [|vm_compute in Ha; discriminate].
  destruct (allocation_replaces_if_fit al_deps m a Ha) as [(_ & _ & Hd)|Hf]; [|exact Hf].
  exfalso. clear Ha. apply (f_equal (fmap (fun d => present (ds_allocations (dep_spec d))))) in Hd. vm_compute in Hd. discriminate Hd.
Defined.
End demo.
