(* ===== verification/TopologyFacts.v ===== *)
(** * What the topology choice promises

    The choice is always a plan that the planner admits, on eligible nodes; but the comparator behind it is cyclic, and
    a request that pins its model keeps a field that the planner then refuses. *)

From S2P Require Import Prelude JsNum Json Types Validate PhasePlan Planner PlannerFacts PlannerSound Topology.
From Stdlib Require Import Ascii.

Section facts.
Context (re_test : string -> string -> bool) (localeCompare : string -> string -> comparison).
Context (plan_hash : string -> Reference -> TopologyCandidate -> list TopologyCandidate -> string).
Notation chooseTopology := (chooseTopology re_test localeCompare plan_hash).
Notation consider := (consider re_test localeCompare).
Notation eligible_nodes := (eligible_nodes localeCompare).

Definition plan_input (input : TopologyInput) (spec : DeploymentSpec) : PlanInput :=
  {| in_spec := spec; in_profile := ti_profile input; in_nodes := ti_nodes input; in_usedPorts := ti_usedPorts input;
     in_nativeQualifications := ti_qualifications input |}.

Lemma orderNodes_elem l n : n ∈ orderNodes localeCompare l <-> n ∈ l.
Proof. apply js_sort_elem. Qed.

Lemma lan_groups_elem all seen l g n : (forall x, x ∈ l -> x ∈ all) -> g ∈ lan_groups_from localeCompare all seen l -> n ∈ g -> n ∈ all.
Proof.
  revert seen. induction l as [|x l IH]; intros seen Hl; cbn [lan_groups_from]; [by intros ?%elem_of_nil|].
  case_bool_decide; [apply IH; intros; apply Hl; by right|]. intros [->|Hg]%elem_of_cons Hn.
  - apply orderNodes_elem, elem_of_cons in Hn as [->|Hn]; [apply Hl; left|].
    by apply List_filter_elem in Hn as [Hn _].
  - eapply IH; [|exact Hg|done]. intros; apply Hl; by right.
Qed.

(** Every plan considered is made of eligible nodes. *)
Lemma considered_eligible nodes quals sha k picked n :
  (k, picked) ∈ considered localeCompare nodes quals sha -> n ∈ picked -> n ∈ nodes.
Proof.
  unfold considered. intros [H|[H|H]%elem_of_app]%elem_of_app Hn.
  - apply list_elem_of_fmap in H as (x & [= -> ->] & Hx). by apply list_elem_of_singleton in Hn as ->.
  - apply list_elem_of_In, in_flat_map in H as ([a b] & Hab & H). unfold qualificationPairs in Hab.
    apply in_flat_map in Hab as (q & _ & Hq). destruct (qn_endpoints q) as [|e0 [|e1 l]]; try done.
    case_match; [|done]. apply in_flat_map in Hq as (a' & Ha & Hq). apply list_elem_of_In in Ha, Hq.
    apply list_elem_of_omap in Hq as (b' & Hb & Hq). case_match; [|done]. injection Hq as -> ->.
    cbn in H. destruct H as [[= <- <-]|[[= <- <-]|[]]];
      apply elem_of_cons in Hn as [->|[->|?%elem_of_nil]%elem_of_cons]; done.
  - apply list_elem_of_In, in_flat_map in H as (g & Hg & H). case_match; [done|]. apply list_elem_of_In in Hg, H.
    apply list_elem_of_fmap in H as (c & [= -> ->] & Hc).
    eapply (lan_groups_elem nodes [] nodes g); [done|exact Hg|]. apply elem_of_cons in Hn as [->|Hn]; [done|].
    by apply List_filter_elem in Hn as [Hn _].
Qed.

(** An admitted candidate: considered, priced and planned. *)
Record admissible (input : TopologyInput) (sha : string) (c : TopologyCandidate) : Prop := {
  ad_nodes : exists picked, tc_nodes c = nr_id <$> picked ∧ tc_hosts c = nr_hostname <$> picked ∧
    tc_local c = candidate_local (tc_kind c) picked ∧
    estimate localeCompare input (tc_kind c) picked sha = inl (tc_estimatedMs c) ∧
    forall n, n ∈ picked -> n ∈ eligible_nodes (ti_nodes input);
  ad_plan : exists plan, planDeployment re_test localeCompare
    (plan_input input (candidate_spec (ti_spec input) (mp_id (ti_profile input)) sha (tc_kind c) (tc_nodes c))) = Ok plan }.

Lemma admitted_sound input sha c : c ∈ admitted re_test localeCompare input sha -> admissible input sha c.
Proof.
  unfold admitted, considerations. intros (r & Hr & Hc)%list_elem_of_omap. destruct r as [c'|]; [|done]. injection Hc as ->.
  apply list_elem_of_fmap in Hr as ([k picked] & Hc & Hk). unfold Topology.consider in Hc.
  destruct (estimate _ _ _ _ _) as [total|] eqn:Ee; [|done]. destruct (planDeployment _ _ _) as [plan|] eqn:Ep; [|done].
  injection Hc as ->. split; [|by exists plan]. exists picked. split_and!; try done. intros n. by eapply considered_eligible.
Qed.

Lemma choice_inv input choice : chooseTopology input = Ok choice ->
  exists sha, model_sha re_test input = Some sha ∧ sha <> ""%string ∧
    tp_candidates choice ≡ₚ admitted re_test localeCompare input sha ∧ tp_best choice ∈ tp_candidates choice ∧
    tp_spec choice = candidate_spec (ti_spec input) (mp_id (ti_profile input)) sha (tc_kind (tp_best choice)) (tc_nodes (tp_best choice)).
Proof.
  unfold Topology.chooseTopology. destruct (model_sha _ _) as [sha|]; [|done]. case_bool_decide; [done|].
  case_bool_decide; [done|]. destruct (js_sort _ _) as [|best l] eqn:E; [done|]. intros [= <-]. exists sha. cbn.
  split_and!; [done|done| |left|done]. rewrite <-E. apply js_sort_perm.
Qed.

(** The topology choice never bypasses admission.  A returned choice's candidates are exactly the considered plans that
    could be priced and that the planner admits; the winner is one of them, is made of online nodes with enabled
    offers, and the returned spec is one that the planner places on the same fleet. *)
Theorem chooseTopology_admitted input choice : chooseTopology input = Ok choice ->
  (exists sha, tp_candidates choice ≡ₚ admitted re_test localeCompare input sha ∧
     Forall (admissible input sha) (tp_candidates choice)) ∧
  tp_best choice ∈ tp_candidates choice ∧
  (exists plan, planDeployment re_test localeCompare (plan_input input (tp_spec choice)) = Ok plan) ∧
  forall id, id ∈ tc_nodes (tp_best choice) -> exists n o, n ∈ ti_nodes input ∧ nr_id n = id ∧ nr_online n = true ∧
    nr_offer n = Some o ∧ of_enabled o = true.
Proof.
  intros (sha & _ & _ & Hperm & Hbest & Hspec)%choice_inv.
  assert (Forall (admissible input sha) (tp_candidates choice)) as Hall.
  { rewrite Hperm. apply Forall_forall. intros c. apply admitted_sound. }
  rewrite Forall_forall in Hall. destruct (Hall _ Hbest) as [(picked & Hids & _ & _ & _ & Hel) Hplan].
  split_and!; [|done|by rewrite Hspec|].
  - exists sha. split; [done|]. by apply Forall_forall.
  - intros id Hid. rewrite Hids in Hid. apply list_elem_of_fmap in Hid as (n & -> & Hn). apply Hel in Hn.
    unfold Topology.eligible_nodes in Hn. rewrite orderNodes_elem, List_filter_elem in Hn. destruct Hn as [Hn [? Ho]%andb_true_iff].
    destruct (nr_offer n) as [o|] eqn:Eo; [|done]. by exists n, o.
Qed.

Lemma native_fields_refused spec s : ds_modelSha256 spec = Some s -> is_native (ds_kind spec) = false -> request_errors spec <> [].
Proof.
  intros Hs Hk. unfold request_errors. cbv zeta. rewrite Hk, Hs. intros H. do 7 apply app_eq_nil in H as [_ H].
  apply app_eq_nil in H as [H _]. cbn in H. by rewrite !orb_true_r in H.
Qed.

(** A pinned model spoils an automatic topology.  When the request pins the model digest and the choice is a replica or a
    split, the spec that [create] stores (the request overlaid with the choice) still carries the digest, and the
    planner refuses it on every fleet, although it admits the choice itself. *)
Theorem pinned_choice_refused input choice s :
  chooseTopology input = Ok choice -> ds_modelSha256 (ti_spec input) = Some s -> tc_kind (tp_best choice) <> k_phase ->
  (exists plan, planDeployment re_test localeCompare (plan_input input (tp_spec choice)) = Ok plan) ∧
  forall profile nodes ports quals, exists e, planDeployment re_test localeCompare
    {| in_spec := merge_choice (ti_spec input) (tp_spec choice); in_profile := profile; in_nodes := nodes;
       in_usedPorts := ports; in_nativeQualifications := quals |} = Err e.
Proof.
  intros (sha & _ & _ & Hperm & Hbest & Hspec)%choice_inv Hs Hk.
  assert (admissible input sha (tp_best choice)) as [_ Hplan] by (apply admitted_sound; by rewrite <-Hperm).
  split; [by rewrite Hspec|]. intros. unfold planDeployment. cbn [in_spec].
  destruct (request_errors _) eqn:E; [|by eexists]. destruct (native_fields_refused (merge_choice (ti_spec input) (tp_spec choice)) s); [| |done].
  - rewrite Hspec. cbn. by rewrite bool_decide_eq_false_2.
  - rewrite Hspec. cbn. by destruct (tc_kind (tp_best choice)).
Qed.
End facts.

(** ** Three replicas 0.8 ms apart *)

Section demo.
Local Open Scope string_scope.

Definition bench_model : string := sha "a"%char.
(** A node whose reference request takes about [tenths / 10] ms. *)
Definition bench_node (id : string) (tenths : Z) : NodeRow :=
  let n := demo_node id 6000 8000 [{| mf_name := "m.gguf"; mf_path := "/models/m.gguf"; mf_sizeBytes := 1;
                                      mf_sha256 := Some bench_model; mf_kind := gguf |}] None in
  let bench := {| br_modelSha256 := bench_model; br_engine := "e"; br_engineSha256 := "e"; br_kind := "llama-server";
    br_ctx := num_of_Z 1024; br_parallel := num_of_Z 1; br_promptTokens := num_of_Z 512; br_genTokens := num_of_Z 64;
    br_prefillTokPerSec := num_of_Z 512000; br_decodeTokPerSec := num_div (num_of_Z 640000) (num_of_Z (tenths - 10));
    br_measuredAt := "t" |} in
  let c := demo_caps None in
  {| nr_id := nr_id n; nr_certFp := nr_certFp n; nr_hostname := nr_hostname n; nr_os := nr_os n; nr_online := true;
     nr_caps := Some {| cap_allocationVersion := cap_allocationVersion c; cap_os := cap_os c; cap_arch := cap_arch c;
       cap_hostname := cap_hostname c; cap_ramMiB := cap_ramMiB c; cap_ramReserveMiB := cap_ramReserveMiB c;
       cap_cpuCores := cap_cpuCores c; cap_gpus := cap_gpus c; cap_diskFreeMiB := cap_diskFreeMiB c; cap_privateIps := [];
       cap_publicIp := None; cap_publicEndpoints := None; cap_dataPort := None; cap_cgroup := None; cap_engine := None;
       cap_net := None; cap_bench := Some [bench]; cap_measuredAt := "t" |};
     nr_offer := nr_offer n; nr_models := nr_models n; nr_metrics := None |}.

Definition bench_spec : DeploymentSpec :=
  let s := demo_spec split "demo" None in
  {| ds_name := ds_name s; ds_profile := ds_profile s; ds_autoTopology := Some true; ds_autoModel := None; ds_kind := split;
     ds_coordinatorNodeId := None; ds_workerNodeIds := None; ds_workerLayers := None; ds_replicaNodeId := None;
     ds_allocations := None; ds_stages := None; ds_prefillNodeId := None; ds_decodeNodeId := None;
     ds_modelSha256 := Some bench_model; ds_ctx := None; ds_parallel := None; ds_chain := None; ds_speculation := None;
     ds_wire := None; ds_batchedGets := None; ds_forwarding := None; ds_stopExternal := None; ds_transport := None;
     ds_external := None |}.
Definition bench_input : TopologyInput :=
  {| ti_spec := bench_spec; ti_profile := demo_profile "demo" 24;
     ti_nodes := [bench_node "a" 10016; bench_node "b" 10008; bench_node "c" 10000];
     ti_usedPorts := ∅; ti_qualifications := []; ti_reference := REFERENCE_REQUEST |}.
Definition bench_hash (s : string) (r : Reference) (b : TopologyCandidate) (l : list TopologyCandidate) : string := "h".

Abbreviation bench_choice := (chooseTopology String.eqb String.compare bench_hash bench_input).

Lemma chooseTopology_admitted_witness :
  match bench_choice with
  | Ok choice => tc_nodes <$> tp_candidates choice = [["a"]; ["b"]; ["c"]] ∧ tp_best choice ∈ tp_candidates choice
  | Err _ => False
  end.
Proof.
  destruct (chooseTopology _ _ _ _) as [choice|e] eqn:E.
  - split; [vm_compute in E; injection E as <-; reflexivity|].
    exact (proj1 (proj2 (chooseTopology_admitted String.eqb String.compare bench_hash bench_input choice E))).
  - vm_compute in E. discriminate E.
Defined.

Lemma pinned_choice_refused_witness :
  match bench_choice with
  | Ok choice => exists e, planDeployment String.eqb String.compare
      (plan_input bench_input (merge_choice bench_spec (tp_spec choice))) = Err e
  | Err _ => False
  end.
Proof.
  destruct (chooseTopology _ _ _ _) as [choice|e] eqn:E.
  - refine (proj2 (pinned_choice_refused String.eqb String.compare bench_hash bench_input choice bench_model E eq_refl _) _ _ _ _).
    vm_compute in E. injection E as <-. discriminate.
  - vm_compute in E. discriminate E.
Defined.

Definition strictly_before (a b : TopologyCandidate) : bool :=
  candidate_order String.compare a b && negb (candidate_order String.compare b a).

(** The ranking is not an order.  On three admitted replicas 0.8 ms apart whose names sort against their speeds, the
    comparator puts the first before the second, the second before the third and the third before the first, so
    the result of the sort is the engine's choice; here the winner is more than a millisecond slower than another
    admitted plan. *)
Theorem topology_order_cyclic :
  exists choice a b c, bench_choice = Ok choice ∧ tp_candidates choice = [a; b; c] ∧
    strictly_before a b = true ∧ strictly_before b c = true ∧ strictly_before c a = true ∧
    num_ltb (num_add (scoreCandidate c) EPSILON_MS) (scoreCandidate (tp_best choice)) = true.
Proof.
  destruct (chooseTopology String.eqb String.compare bench_hash bench_input) as [choice|e] eqn:E;
    vm_compute in E; [|discriminate E]. injection E as <-.
  do 4 eexists. split; [reflexivity|]. split; [reflexivity|]. split_and!; vm_compute; reflexivity.
Qed.
End demo.
