(* ===== verification/Recipes.v ===== *)
(** * Command lines and readiness of the engines (swarmlet/node-agent/roles/recipes.ts, roles/stage.ts)

    An assignment and the local ports that were dialled for it become the argument vector and the
    environment of an engine.  A native stage worker is ready only when its health report names the
    assigned model, the assigned executable and an empty context, and its process is the one the agent
    started. *)

From S2P Require Import Prelude JsNum Json Types Validate.

Local Open Scope string_scope.
Local Open Scope list_scope.
Local Open Scope Z_scope.

(** platform.ts *)
Definition exeName (platform : Os) (base : string) : string :=
  match platform with win32 => base +:+ ".exe" | _ => base end.

Record Recipe := { rp_argv : list string; rp_env : list (string * string) }.

Definition truthyZ (z : Z) : bool := negb (z =? 0).
Definition truthy_opt (z : option Z) : option Z := match z with Some z => if truthyZ z then Some z else None | None => None end.
Definition truthy_str (s : option string) : option string :=
  match s with Some s => if String.eqb s "" then None else Some s | None => None end.

(** [if (v) argv.push(..)] *)
Definition push_if {A} (o : option A) (f : A -> list string) : list string := match o with Some a => f a | None => [] end.

Definition speculationArgs (mtp : option MtpRef) (speculation : option NgramSpeculation) : result string (list string) :=
  match mtp, speculation with
  | Some _, Some _ => Err "MTP and ngram speculation cannot be combined"
  | Some m, None =>
      Ok ["--spec-type"; "draft-mtp"; "-md"; mt_path m; "--spec-draft-n-max"; pretty (mt_chain m); "-ngld"; "999"]
  | None, Some s =>
      if negb (String.eqb (sp_type s) "ngram-simple") then Err "unsupported speculation type" else
      Ok ["--spec-type"; "ngram-simple"; "--spec-ngram-simple-size-n"; "3"; "--spec-ngram-simple-size-m"; "4";
          "--spec-ngram-simple-min-hits"; "3"]
  | None, None => Ok []
  end.

Definition loopback (port : Z) : string := "127.0.0.1:" +:+ pretty port.

(** [peers.forEach((p, i) => ..)] *)
Definition peer_args (peers : list (Z * Endpoint)) (peerLocalPorts : list Z) : list string :=
  concat (imap (fun i (p : Z * Endpoint) =>
    push_if (truthy_opt (peerLocalPorts !! i)) (fun lp => ["--peer"; pretty p.1 +:+ "=" +:+ loopback lp])) peers).

Definition workerArgv (os : Os) (engine : string) (a : WorkerAssignment) (peerLocalPorts : list Z) : Recipe :=
  {| rp_argv :=
       [engine +:+ "/" +:+ exeName os "ggml-rpc-server"; "-H"; "127.0.0.1"; "-p"; pretty (wa_port a);
        "-d"; wa_device a; "-t"; pretty (wa_threads a)] ++
       push_if (wa_memCapMiB a ≫= fun c => if truthyZ c && (0 <? c) then Some c else None) (fun c => ["--mem-cap-mib"; pretty c]) ++
       push_if (truthy_opt (wa_peerPort a)) (fun p => ["--peer-port"; pretty p]) ++
       peer_args (default [] (wa_peers a)) peerLocalPorts ++
       (if bool_decide (wa_cache a = Some false) then [] else ["-c"]);
     rp_env := [] |}.

(** [o[k] = v]: a key keeps its place. *)
Fixpoint env_set (k v : string) (env : list (string * string)) : list (string * string) :=
  match env with
  | [] => [(k, v)]
  | (k', v') :: env => if String.eqb k' k then (k, v) :: env else (k', v') :: env_set k v env
  end.
(** [{ ...base, ...over }] *)
Definition spread (base over : list (string * string)) : list (string * string) :=
  foldl (fun env kv => env_set kv.1 kv.2 env) base over.

Definition ring_env : list (string * string) :=
  [("GGML_RPC_FORWARD", "1"); ("GGML_RPC_PIPELINE", "1"); ("GGML_SCHED_PIPELINED_COPY", "1");
   ("GGML_RPC_GET_PIPELINE", "1"); ("GGML_RPC_WIRE", "off")].

Definition coordinatorArgv (os : Os) (engine : string) (a : CoordinatorAssignment) (rpcLocalPorts : list Z) : result string Recipe :=
  spec ← speculationArgs (ca_mtp a) (ca_speculation a);
  Ok {| rp_argv :=
       [engine +:+ "/" +:+ exeName os "llama-server"; "-m"; mr_path (ca_model a); "--host"; "127.0.0.1"; "--port"; pretty (ca_port a);
        "--rpc"; String.concat "," (loopback <$> rpcLocalPorts);
        "--device"; String.concat "," (ca_devices a); "--tensor-split"; String.concat "," (pretty <$> ca_tensorSplit a);
        "-ngl"; "999"; "-c"; pretty (ca_ctx a); "--parallel"; pretty (ca_parallel a); "--metrics"; "--temp"; "0"] ++
       push_if (truthy_str (ca_modelName a)) (fun n => ["--alias"; n]) ++
       spec ++ ca_extraArgs a ++
       push_if (truthy_opt (ca_enforce a ≫= ef_cpuCores)) (fun c => ["-t"; pretty c; "-tb"; pretty c]);
     rp_env := spread ring_env (ca_env a) |}.

Definition replicaArgv (os : Os) (engine : string) (a : ReplicaAssignment) (cpuCores : option Z) : result string Recipe :=
  match ra_model a with
  | None => Err "replica recipe needs a model"
  | Some model =>
      let cpuOnly := bool_decide (ra_device a = Some "CPU") in
      spec ← speculationArgs (ra_mtp a) (ra_speculation a);
      Ok {| rp_argv :=
           [engine +:+ "/" +:+ exeName os "llama-server"; "-m"; mr_path model; "--host"; "127.0.0.1"; "--port"; pretty (ra_port a);
            "-ngl"; (if cpuOnly then "0" else "999"); "--metrics"] ++
           push_if (truthy_opt (ra_ctx a)) (fun c => ["-c"; pretty c]) ++
           push_if (truthy_opt (ra_parallel a)) (fun n => ["--parallel"; pretty n]) ++
           push_if (truthy_str (ra_modelName a)) (fun n => ["--alias"; n]) ++
           push_if (truthy_str (ra_device a)) (fun d => ["--device"; if cpuOnly then "none" else d]) ++
           spec ++ default [] (ra_extraArgs a) ++
           push_if (truthy_opt cpuCores) (fun c => ["-t"; pretty c; "-tb"; pretty c]);
         rp_env := [] |}
  end.

(** ** Native stage workers *)

Definition stageStateDirectory (path_join : list string -> string) (stateDir id : string) : result string string :=
  if valid_id id then Ok (path_join [stateDir; "stages"; id]) else Err "invalid native assignment id".

Definition stageArgv (path_join : list string -> string) (os : Os) (engine : string) (a : StageAssignment) (stateDir : string) :
    result string (list string) :=
  if negb (sa_ctx a =? 1024) || negb (sa_gpuLayers a =? 999) || negb (String.eqb (sa_model_sha256 a) (si_model_sha256 (sa_identity a))) ||
     negb (sa_ctx a =? si_ctx (sa_identity a)) then Err "invalid qualified native assignment" else
  dir ← stageStateDirectory path_join stateDir (sa_id a);
  Ok [path_join [engine; exeName os "mesh-stage-worker"]; sa_model_path a; sa_model_sha256 a; dir;
      pretty (sa_port a); pretty (sa_gpuLayers a); pretty (sa_ctx a)].

(** [Object.entries(identity)] *)
Definition identity_entries (i : NativeStageIdentity) : fields :=
  [("schema", JNum (num_of_Z (si_schema i))); ("engine", JStr (si_engine i)); ("model_sha256", JStr (si_model_sha256 i));
   ("source_sha256", JStr (si_source_sha256 i)); ("ctx", JNum (num_of_Z (si_ctx i))); ("cache_k", JStr (si_cache_k i));
   ("cache_v", JStr (si_cache_v i)); ("ubatch", JNum (num_of_Z (si_ubatch i))); ("flash_attn", JStr (si_flash_attn i));
   ("stage_start", JStr (si_stage_start i)); ("stage_end", JStr (si_stage_end i)); ("stage_total", JStr (si_stage_total i))].

Definition throw_if (b : bool) (e : string) : result string unit := if b then Err e else Ok tt.

(** [typeof v === "object"] of a truthy value: an array is one too, with no property of these names. *)
Definition object_fields (v : json) : option fields :=
  match v with JObj o => Some o | JArr _ => Some [] | _ => None end.

Fixpoint check_identity (actual : fields) (expected : fields) : result string unit :=
  match expected with
  | [] => Ok tt
  | (field, v) :: expected =>
      throw_if (negb (strict_eq (jget actual field) (Some v))) ("native identity mismatch: " +:+ field) ;;
      check_identity actual expected
  end.

Definition assertStageHealth (value : json) (identity : NativeStageIdentity) (binarySha256 : string) : result string unit :=
  match object_fields value with
  | None => Err "invalid native health response"
  | Some status =>
      match jget status "identity" ≫= object_fields with
      | None => Err "native identity missing"
      | Some actual =>
          check_identity actual (identity_entries identity) ;;
          throw_if (negb (is_string binarySha256 (jget status "binary_sha256"))) "native binary identity mismatch" ;;
          throw_if (negb (is_number 2048 (jget status "n_embd")) || negb (is_number 248320 (jget status "n_vocab")))
            "native model dimensions mismatch" ;;
          throw_if (negb (is_string "" (jget status "session")) || negb (is_number 0 (jget status "position")) ||
                    negb (is_number 0 (jget status "evaluated_tokens"))) "native context is not empty at startup"
      end
  end.

(** The parent of a process, where the platform tells. *)
Fixpoint owned_by (os : Os) (parent : Z -> option Z) (depth : nat) (current supervised : Z) : bool :=
  match depth with
  | O => false
  | S depth =>
      (current =? supervised) ||
      match os with
      | linux =>
          if current <=? 1 then false else
          match parent current with
          | Some p => if p =? current then false else owned_by os parent depth p supervised
          | None => false
          end
      | _ => false
      end
  end.

Definition assertStageProcess (os : Os) (parent : Z -> option Z) (pid : option json) (supervisedPid : option Z) : result string unit :=
  match as_num pid ≫= as_safe_int, truthy_opt supervisedPid with
  | Some p, Some s =>
      if p <=? 0 then Err "invalid native worker PID" else
      if owned_by os parent 64 p s then Ok tt else Err "native health belongs to an unowned process"
  | _, _ => Err "invalid native worker PID"
  end.

(** ** What the checks prove *)

Lemma throw_if_ok b e : throw_if b e = Ok tt <-> b = false.
Proof. by destruct b. Qed.
Lemma then_ok {E A} (x : result E unit) (y : result E A) a : (x ;; y) = Ok a <-> x = Ok tt /\ y = Ok a.
Proof. destruct x as [[]|e]; naive_solver. Qed.

Lemma check_identity_ok actual expected :
  check_identity actual expected = Ok tt <->
  Forall (fun kv => strict_eq (jget actual kv.1) (Some kv.2) = true) expected.
Proof.
  induction expected as [|[k v] expected IH]; cbn [check_identity]; [by split; [constructor|]|].
  rewrite then_ok, throw_if_ok, Forall_cons, IH, negb_false_iff. done.
Qed.

(** A health report that proves the assignment. *)
Record stage_health (value : json) (identity : NativeStageIdentity) (binary : string) : Prop := {
  sh_object : exists status actual, object_fields value = Some status /\ jget status "identity" ≫= object_fields = Some actual /\
    Forall (fun kv => strict_eq (jget actual kv.1) (Some kv.2) = true) (identity_entries identity) /\
    jget status "binary_sha256" = Some (JStr binary) /\
    is_number 2048 (jget status "n_embd") = true /\ is_number 248320 (jget status "n_vocab") = true /\
    jget status "session" = Some (JStr "") /\
    is_number 0 (jget status "position") = true /\ is_number 0 (jget status "evaluated_tokens") = true }.

Lemma assertStageHealth_ok value identity binary :
  assertStageHealth value identity binary = Ok tt <-> stage_health value identity binary.
Proof.
  unfold assertStageHealth. split.
  - destruct (object_fields value) as [status|] eqn:Es; [|done].
    destruct (jget status "identity" ≫= object_fields) as [actual|] eqn:Ea; [|done].
    rewrite !then_ok, check_identity_ok, !throw_if_ok. intros (Hi & Hb & Hd & He). bool_to_prop.
    constructor. exists status, actual. by rewrite <-!is_string_spec.
  - intros [(status & actual & -> & -> & Hi & Hb & Hd & Hv & Hs & Hp & He)].
    rewrite !then_ok, check_identity_ok, !throw_if_ok, Hd, Hv, Hp, He.
    rewrite <-is_string_spec in Hb, Hs. by rewrite Hb, Hs.
Qed.

(** A process is owned when walking up its parents reaches the supervised one. *)
Lemma owned_by_ancestor os parent depth p s : owned_by os parent depth p s = true ->
  exists n, (n < depth)%nat /\ Nat.iter n (fun q => q ≫= parent) (Some p) = Some s.
Proof.
  revert p. induction depth as [|depth IH]; intros p; cbn [owned_by]; [done|]. intros [H|H]%orb_true_iff.
  - exists O. split; [lia|]. cbn. f_equal. by apply Z.eqb_eq.
  - destruct os; try done. destruct (p <=? 1); [done|]. destruct (parent p) as [q|] eqn:Hq; [|done].
    destruct (q =? p); [done|]. destruct (IH q H) as (n & Hn & Hi). exists (Datatypes.S n). split; [lia|].
    rewrite <-Hi, <-Hq. clear. change (parent p) with (Nat.iter 1 (fun q => q ≫= parent) (Some p)) at 1.
    rewrite <-Nat.iter_add. by rewrite Nat.add_comm.
Qed.

(** A native stage worker becomes ready only for the assignment it was started for.  If both checks on
    its health reply pass, the reply names every field of the assigned identity and the assigned
    executable with the qualified dimensions and an empty context, and the process that answers
    is the supervised one or, on Linux, a descendant of it fewer than 64 generations down. *)
Theorem stage_readiness_sound os parent value identity binary supervised status :
  object_fields value = Some status ->
  assertStageHealth value identity binary = Ok tt ->
  assertStageProcess os parent (jget status "pid") supervised = Ok tt ->
  stage_health value identity binary /\
  exists p s n, as_num (jget status "pid") ≫= as_safe_int = Some p /\ supervised = Some s /\ 0 < p /\ (n < 64)%nat /\
    Nat.iter n (fun q => q ≫= parent) (Some p) = Some s.
Proof.
  intros Hv Hh Hp. split; [by apply assertStageHealth_ok|]. unfold assertStageProcess in Hp.
  destruct (as_num (jget status "pid") ≫= as_safe_int) as [p|]; [|done].
  destruct supervised as [s|]; [|done]. cbn [truthy_opt] in Hp. destruct (truthyZ s); [|done]. destruct (p <=? 0) eqn:Hp0; [done|].
  destruct (owned_by os parent 64 p s) eqn:Ho; [|done]. apply owned_by_ancestor in Ho as (n & Hn & Hi).
  apply Z.leb_gt in Hp0. exists p, s, n. split_and!; done.
Qed.

Definition demo_identity : NativeStageIdentity :=
  {| si_schema := 1; si_engine := "e"; si_model_sha256 := "m"; si_source_sha256 := "s"; si_ctx := 1024;
     si_cache_k := "f32"; si_cache_v := "f32"; si_ubatch := 1; si_flash_attn := "disabled";
     si_stage_start := "0"; si_stage_end := "12"; si_stage_total := "24" |}.
Definition demo_health : fields :=
  [("identity", JObj (identity_entries demo_identity)); ("binary_sha256", JStr "b"); ("n_embd", jint 2048);
   ("n_vocab", jint 248320); ("session", JStr ""); ("position", jint 0); ("evaluated_tokens", jint 0); ("pid", jint 41)].

Lemma stage_readiness_sound_witness :
  stage_health (JObj demo_health) demo_identity "b" /\
  exists p s n, as_num (jget demo_health "pid") ≫= as_safe_int = Some p /\ Some 40 = Some s /\ 0 < p /\ (n < 64)%nat /\
    Nat.iter n (fun q => q ≫= (fun pid => if pid =? 41 then Some 40 else None)) (Some p) = Some s.
Proof.
  apply (stage_readiness_sound linux (fun pid => if pid =? 41 then Some 40 else None)); vm_compute; reflexivity.
Defined.
