(* ===== verification/Identity.v ===== *)
(** * Retiring a recorded engine process (swarmlet/node-agent/roles/identity.ts)

    A restarted agent finds the pid and the identity of each engine its predecessor left behind.  Pids are
    reused, so the identity is compared before every signal.  The operating system is an oracle: [observe]
    answers the n-th look at the process, [deliver] the n-th signal, and [delay] is how much longer
    than it must the n-th call takes.  [IO] counts the calls and logs the signals. *)

From S2P Require Import Prelude.

Local Open Scope string_scope.
Local Open Scope list_scope.
Local Open Scope Z_scope.

Record ProcessIdentity := { pi_started : string; pi_command : string; pi_birthId : option string }.
#[export] Instance ProcessIdentity_eq : EqDecision ProcessIdentity.
Proof. solve_decision. Defined.

Inductive Signal := SIGTERM | SIGKILL.
Inductive Ownership := Gone | Owned | Ambiguous.
#[export] Instance Ownership_eq : EqDecision Ownership.
Proof. solve_decision. Defined.

Record IO := { io_calls : nat; io_now : Z; io_signals : list (nat * Signal) }.

(** An optional string that is present and not empty. *)
Definition some_text (o : option string) : option string :=
  match o with Some s => if String.eqb s "" then None else Some s | None => None end.

(** The comparison of [state], without the look at the process. *)
Definition ownership (expected : ProcessIdentity) (found : option ProcessIdentity) : Ownership :=
  match found with
  | None => Gone
  | Some f =>
      match some_text (pi_birthId expected), some_text (pi_birthId f) with
      | Some b, Some b' => if String.eqb b b' then Owned else Gone
      | _, _ =>
          if negb (String.eqb (pi_started f) (pi_started expected)) then Gone
          else if String.eqb (pi_command f) (pi_command expected) then Owned else Ambiguous
      end
  end.

Arguments ownership : simpl never.

Section recovery.
Context (observe : nat -> result string (option ProcessIdentity)) (deliver : nat -> option string) (delay : nat -> Z).

Abbreviation Sync := (M IO string).

Definition call (ms : Z) (s : IO) : IO :=
  {| io_calls := S (io_calls s); io_now := io_now s + ms + Z.max 0 (delay (io_calls s)); io_signals := io_signals s |}.
Definition log_signal (sg : Signal) (s : IO) : IO :=
  {| io_calls := io_calls s; io_now := io_now s; io_signals := (io_calls s, sg) :: io_signals s |}.

(** [io.identify], [io.signal], [io.sleep] *)
Definition identify : Sync (option ProcessIdentity) := fun s => (observe (io_calls s), call 0 s).
Definition signal (sg : Signal) : Sync unit := fun s =>
  (match deliver (io_calls s) with None => Ok tt | Some e => Err e end, call 0 (log_signal sg s)).
Definition sleep (ms : Z) : Sync unit := fun s => (Ok tt, call ms s).
Definition time : Sync Z := mgets io_now.

Definition ambiguous {A} (pid : Z) : Sync A :=
  mthrow ("process " +:+ pretty pid +:+ " has the same start time but changed command; ownership is ambiguous").

Definition state (expected : ProcessIdentity) : Sync Ownership := found ← identify; mret (ownership expected found).

Definition matches (pid : Z) (expected : ProcessIdentity) : Sync bool :=
  observed ← state expected;
  match observed with Ambiguous => ambiguous pid | Owned => mret true | Gone => mret false end.

Definition out_of_polls : string := "out of polls".

Fixpoint waitForExit (polls : nat) (pid : Z) (expected : ProcessIdentity) (deadline : Z) (sawAmbiguity : bool) : Sync bool :=
  match polls with
  | O => mthrow out_of_polls
  | S polls =>
      observed ← state expected;
      match observed with
      | Gone => mret true
      | _ =>
          let sawAmbiguity := sawAmbiguity || bool_decide (observed = Ambiguous) in
          now ← time;
          if deadline <=? now then (if sawAmbiguity then ambiguous pid else mret false)
          else sleep 100 ;; waitForExit polls pid expected deadline sawAmbiguity
      end
  end.

(** [waitForExit(timeoutMs)] looks every 100 ms. *)
Definition wait (pid : Z) (expected : ProcessIdentity) (timeoutMs : Z) : Sync bool :=
  now ← time;
  waitForExit (Z.to_nat (timeoutMs / 100) + 2) pid expected (now + timeoutMs) false.

(** [try { io.signal(pid, sg) } catch (e) { if (matches()) throw e }] *)
Definition signal_owned (sg : Signal) (pid : Z) (expected : ProcessIdentity) : Sync unit :=
  mtry (signal sg) (fun e => b ← matches pid expected; if b : bool then mthrow e else mret tt).

(** From the first [matches] on: terminate, then kill. *)
Definition retire (pid : Z) (expected : ProcessIdentity) : Sync unit :=
  mine ← matches pid expected;
  if negb mine then mret tt else
  signal_owned SIGTERM pid expected ;;
  gone ← wait pid expected 10000;
  if gone : bool then mret tt else
  mine ← matches pid expected;
  if negb mine then mret tt else
  signal_owned SIGKILL pid expected ;;
  gone ← wait pid expected 5000;
  if gone : bool then mret tt else
  mthrow ("owned engine " +:+ pretty pid +:+ " did not exit; refusing to advertise cleared assignments").

Definition stopRecordedProcess (pid : Z) (expected : option ProcessIdentity) : Sync unit :=
  current ← identify;
  match current, expected with
  | None, _ => mret tt
  | Some _, None =>
      mthrow ("legacy process " +:+ pretty pid +:+
        " is still alive without recorded identity; stop the old agent cleanly before upgrading")
  | Some _, Some expected => retire pid expected
  end.

(** ** Signals reach the recorded process only *)

(** The look just before the [n]-th call showed the recorded process. *)
Definition looked (expected : ProcessIdentity) (n : nat) : Prop :=
  exists k found, n = S k /\ observe k = Ok (Some found) /\ ownership expected (Some found) = Owned.
Definition owned_signals (expected : ProcessIdentity) (s : IO) : Prop :=
  Forall (fun c => looked expected c.1) (io_signals s).

(** Some look so far found no process, or a process that is not the recorded one. *)
Definition seen_gone (expected : option ProcessIdentity) (s : IO) : Prop :=
  exists k found, (k < io_calls s)%nat /\ observe k = Ok found /\
    match found, expected with None, _ => True | Some _, Some e => ownership e found = Gone | Some _, None => False end.

Abbreviation keeps e x Q := (spec (owned_signals e) x (fun a s => owned_signals e s /\ Q a s) (fun _ => owned_signals e)).

Lemma matches_spec pid e : keeps e (matches pid e) (fun b s => if b : bool then looked e (io_calls s) else seen_gone (Some e) s).
Proof.
  intros s Hs. unfold matches, state, identify, mbind, M_bind.
  destruct (observe (io_calls s)) as [found|err] eqn:Ho; [|exact Hs]. cbn.
  destruct (ownership e found) eqn:Hw; cbn; [split; [exact Hs|]..|exact Hs].
  - exists (io_calls s), found. cbn. split_and!; [lia|done|]. by destruct found.
  - destruct found as [f|]; [|discriminate Hw]. by exists (io_calls s), f.
Qed.

Lemma seen_gone_mono e s s' : (io_calls s <= io_calls s')%nat -> seen_gone e s -> seen_gone e s'.
Proof. intros Hle (k & f & Hk & Hf). exists k, f. split; [lia|done]. Qed.

Lemma wait_spec n pid e deadline saw : keeps e (waitForExit n pid e deadline saw)
  (fun b s => if b : bool then seen_gone (Some e) s else True).
Proof.
  revert saw. induction n as [|n IH]; intros saw; [by intros s Hs|].
  intros s Hs. cbn [waitForExit]. unfold state, identify, time, mgets, mbind, M_bind.
  destruct (observe (io_calls s)) as [found|err] eqn:Ho; [|exact Hs]. cbn.
  destruct (ownership e found) eqn:Hw; cbn.
  - split; [exact Hs|]. exists (io_calls s), found. cbn. split_and!; [lia|done|]. by destruct found.
  - destruct (deadline <=? _); [destruct (saw || _); try split; exact Hs || exact I|]. apply (IH (saw || false)). exact Hs.
  - destruct (deadline <=? _); [destruct (saw || _); try split; exact Hs || exact I|]. apply (IH (saw || true)). exact Hs.
Qed.

Lemma signal_owned_spec sg pid e :
  spec (fun s => owned_signals e s /\ looked e (io_calls s)) (signal_owned sg pid e)
    (fun _ => owned_signals e) (fun _ => owned_signals e).
Proof.
  intros s [Hs Hl]. assert (owned_signals e (call 0 (log_signal sg s))) as H1 by (constructor; [done|exact Hs]).
  unfold signal_owned, mtry, signal. destruct (deliver (io_calls s)) as [err|]; cbn -[call log_signal matches]; [|done].
  pose proof (matches_spec pid e _ H1) as Hm. unfold mbind, M_bind.
  destruct (matches pid e _) as [[[]|err'] s']; cbn; tauto.
Qed.

Lemma retire_spec pid e : keeps e (retire pid e) (fun _ => seen_gone (Some e)).
Proof.
  assert (forall t, keeps e (wait pid e t) (fun b s => if b : bool then seen_gone (Some e) s else True)) as Hw.
  { intros t s Hs. unfold wait, time, mgets, mbind, M_bind. exact (wait_spec _ pid e _ _ s Hs). }
  eapply (spec_bind _ _ _ (fun (b : bool) s => owned_signals e s /\ if b then looked e (io_calls s) else seen_gone (Some e) s)).
  { apply matches_spec. }
  intros []; cbn [negb]; [|by apply spec_ret].
  eapply spec_bind; [apply signal_owned_spec|]. intros ?. eapply spec_bind; [apply Hw|]. intros []; [by apply spec_ret|].
  eapply (spec_bind _ _ _ (fun (b : bool) s => owned_signals e s /\ if b then looked e (io_calls s) else seen_gone (Some e) s)).
  { eapply spec_weaken; [apply matches_spec|by intros ? []|done..]. }
  intros []; cbn [negb]; [|by apply spec_ret].
  eapply spec_bind; [apply signal_owned_spec|]. intros ?. eapply spec_bind; [apply Hw|]. intros []; [by apply spec_ret|].
  apply spec_throw. by intros ? [].
Qed.

(** C35: recovery never signals a process that is not the recorded one, and returns only once the recorded one is
    gone.  Whatever the operating system answers and however long it takes: every signal was sent right
    after a look that showed the recorded process (the same birth id, or the same start time and command
    where birth ids are not known), and if the method returns, some look found no process under that pid
    or a different one. *)
Theorem stopRecordedProcess_sound pid expected s :
  io_signals s = [] ->
  let '(r, s') := stopRecordedProcess pid expected s in
  (forall n sg, (n, sg) ∈ io_signals s' -> exists e, expected = Some e /\ looked e n) /\
  (r = Ok tt -> seen_gone expected s').
Proof.
  intros Hs.
  assert (forall n sg, (n, sg) ∈ io_signals (call 0 s) -> exists e, expected = Some e /\ looked e n) as Hnone.
  { cbn. rewrite Hs. intros n sg H. by apply elem_of_nil in H. }
  unfold stopRecordedProcess. unfold mbind at 1, M_bind at 1, identify.
  destruct (observe (io_calls s)) as [[f|]|err] eqn:Ho.
  2: { split; [exact Hnone|]. intros _. exists (io_calls s), None. cbn. split; [lia|done]. }
  2: by split.
  destruct expected as [e|]; [|by split].
  pose proof (retire_spec pid e (call 0 s)) as Hspec.
  destruct (retire pid e (call 0 s)) as [[[]|err] s'].
  all: assert (owned_signals e (call 0 s)) as H0 by (unfold owned_signals; cbn; rewrite Hs; constructor).
  all: specialize (Hspec H0); cbn in Hspec.
  - destruct Hspec as [H1 H2]. split; [|done]. intros n sg Hin. exists e. split; [done|].
    unfold owned_signals in H1. rewrite Forall_forall in H1. exact (H1 _ Hin).
  - split; [|done]. intros n sg Hin. exists e. split; [done|].
    unfold owned_signals in Hspec. rewrite Forall_forall in Hspec. exact (Hspec _ Hin).
Qed.

(** ** It returns *)

(** Every look takes its 100 ms at least, so the polls counted by [wait] reach the deadline. *)
Lemma waitForExit_ends n pid e deadline saw s : 0 < Z.of_nat n -> deadline - io_now s <= 100 * (Z.of_nat n - 1) ->
  (forall k err, observe k = Err err -> err <> out_of_polls) ->
  (waitForExit n pid e deadline saw s).1 <> Err out_of_polls.
Proof.
  intros Hn Hd He. revert saw s Hn Hd. induction n as [|n IH]; intros saw s Hn Hd; [lia|].
  cbn [waitForExit]. unfold state, identify, time, mgets, mbind, M_bind.
  destruct (observe (io_calls s)) as [found|err] eqn:Ho; [|cbn; intros [= ->]; by eapply He]. cbn.
  destruct (ownership e found); [done| |]; cbn [mbind M_bind bool_decide].
  all: destruct (saw || _); cbn;
    (destruct (Z.leb_spec deadline (io_now s + 0 + Z.max 0 (delay (io_calls s)))); [intros Herr; discriminate Herr|]).
  all: apply IH; cbn; lia.
Qed.

Hypothesis observe_err : forall k err, observe k = Err err -> err <> out_of_polls.
Hypothesis deliver_err : forall k err, deliver k = Some err -> err <> out_of_polls.

Definition returns {A} (x : Sync A) : Prop := forall s, (x s).1 <> Err out_of_polls.

Lemma returns_bind {A B} (x : Sync A) (f : A -> Sync B) : returns x -> (forall a, returns (f a)) -> returns (x ≫= f).
Proof.
  intros Hx Hf s. specialize (Hx s). unfold mbind, M_bind. destruct (x s) as [[a|e] s']; [apply Hf|].
  cbn in *. congruence.
Qed.
Lemma returns_if {A} (b : bool) (x y : Sync A) : returns x -> returns y -> returns (if b then x else y).
Proof. by destruct b. Qed.
Lemma returns_ret {A} (a : A) : returns (mret a).
Proof. by intros s. Qed.
Lemma identify_returns : returns identify.
Proof using observe_err. intros s. unfold identify. cbn [fst]. destruct (observe _) eqn:Ho; intros [=]. subst. by eapply observe_err. Qed.
Lemma matches_returns pid e : returns (matches pid e).
Proof using observe_err.
  apply returns_bind; [apply returns_bind; [apply identify_returns|intros a; apply returns_ret]|].
  intros []; try apply returns_ret. by intros s [=].
Qed.
Lemma wait_returns pid e timeoutMs : 0 <= timeoutMs -> returns (wait pid e timeoutMs).
Proof using observe_err.
  intros Ht s. unfold wait, time, mgets, mbind, M_bind.
  apply waitForExit_ends; [lia| |done].
  rewrite Nat2Z.inj_add, Z2Nat.id by (apply Z.div_pos; lia).
  pose proof (Z.mul_succ_div_gt timeoutMs 100). lia.
Qed.
Lemma signal_owned_returns sg pid e : returns (signal_owned sg pid e).
Proof using observe_err deliver_err.
  intros s. unfold signal_owned, mtry, signal. destruct (deliver (io_calls s)) as [err|] eqn:Hd; [|done].
  assert (returns (b ← matches pid e; if b : bool then mthrow err else mret tt)) as H; [|apply H].
  apply returns_bind; [apply matches_returns|]. intros b. apply returns_if; [|apply returns_ret].
  intros s' [= ->]. by eapply deliver_err.
Qed.

(** The counted polls suffice: the method always comes to an end of its own. *)
Lemma stopRecordedProcess_returns pid expected : returns (stopRecordedProcess pid expected).
Proof using observe_err deliver_err.
  apply returns_bind; [apply identify_returns|]. intros [f|]; [|apply returns_ret].
  destruct expected as [e|]; [|by intros s [=]]. unfold retire.
  repeat first [ apply returns_ret | apply returns_if | apply matches_returns | apply signal_owned_returns
               | apply wait_returns; lia | apply returns_bind; [|intros ?] | by intros s [=] ].
Qed.
End recovery.

(** A process that ignores SIGTERM, under a pid whose owner never changes, and is killed. *)
Definition demo_process : ProcessIdentity := {| pi_started := "boot:7"; pi_command := "llama-server"; pi_birthId := Some "boot:7" |}.
Definition stubborn (n : nat) : result string (option ProcessIdentity) := Ok (if (n <? 230)%nat then Some demo_process else None).

Lemma stopRecordedProcess_sound_witness :
  let '(r, s') := stopRecordedProcess stubborn (fun _ => None) (fun _ => 0) 7 (Some demo_process)
                    {| io_calls := 0; io_now := 0; io_signals := [] |} in
  r = Ok tt /\ (snd <$> io_signals s') = [SIGKILL; SIGTERM] /\ seen_gone stubborn (Some demo_process) s'.
Proof.
  pose proof (stopRecordedProcess_sound stubborn (fun _ => None) (fun _ => 0) 7 (Some demo_process)
    {| io_calls := 0; io_now := 0; io_signals := [] |} eq_refl) as H.
  assert (exists s', stopRecordedProcess stubborn (fun _ => None) (fun _ => 0) 7 (Some demo_process)
    {| io_calls := 0; io_now := 0; io_signals := [] |} = (Ok tt, s') /\ (snd <$> io_signals s') = [SIGKILL; SIGTERM]) as (s' & E & E').
  { vm_compute. eexists. split; reflexivity. }
  rewrite E in *. destruct H as [_ H]. split; [reflexivity|split; [exact E'|exact (H eq_refl)]].
Defined.
