(* ===== verification/ServeDial.v ===== *)
(** * Reverse streams of a worker (swarmlet/node-agent/transport/servedial.ts)

    A worker that cannot be dialled keeps a pool of TLS streams open towards its coordinator.  [fill] has one
    await, the dials of [connectOne]; [fill_begin] is what it does before and [fill_end] after.  A stream is
    a number.  [connectOne] and the bytes of a stream are the host's sockets. *)

From S2P Require Import Prelude Types.

Local Open Scope list_scope.
Local Open Scope Z_scope.

Record ServeDialer := {
  sv_max : option Z; sv_running : bool; sv_open : list nat; sv_filling : bool;
  sv_target : option Endpoint; sv_servePort : Z }.

Definition newServeDialer (max : option Z) : ServeDialer :=
  {| sv_max := max; sv_running := false; sv_open := []; sv_filling := false; sv_target := None; sv_servePort := 0 |}.

Definition with_filling (b : bool) (d : ServeDialer) : ServeDialer :=
  {| sv_max := sv_max d; sv_running := sv_running d; sv_open := sv_open d; sv_filling := b;
     sv_target := sv_target d; sv_servePort := sv_servePort d |}.
Definition with_open (l : list nat) (d : ServeDialer) : ServeDialer :=
  {| sv_max := sv_max d; sv_running := sv_running d; sv_open := l; sv_filling := sv_filling d;
     sv_target := sv_target d; sv_servePort := sv_servePort d |}.

Definition capacity (d : ServeDialer) : Z := default 4 (sv_max d).

(** [fill] up to its await: the number of streams it dials, if it goes on. *)
Definition fill_begin (d : ServeDialer) : ServeDialer * option Z :=
  match sv_target d with
  | None => (d, None)
  | Some _ =>
      if sv_filling d then (d, None) else
      let want := capacity d - Z.of_nat (length (sv_open d)) in
      (with_filling true d, if want <=? 0 then None else Some want)
  end.

(** [fill] after its await: the streams kept; a stream that answers after [stop] is destroyed. *)
Definition fill_end (socks : list (option nat)) (d : ServeDialer) : ServeDialer :=
  with_filling false (with_open (sv_open d ++ (if sv_running d then omap id socks else [])) d).

Definition sd_start (target : Endpoint) (servePort : Z) (d : ServeDialer) : ServeDialer * option Z :=
  if sv_running d then (d, None) else
  fill_begin {| sv_max := sv_max d; sv_running := true; sv_open := sv_open d; sv_filling := sv_filling d;
                sv_target := Some target; sv_servePort := servePort |}.

Definition sd_stop (d : ServeDialer) : ServeDialer :=
  {| sv_max := sv_max d; sv_running := false; sv_open := []; sv_filling := sv_filling d;
     sv_target := sv_target d; sv_servePort := sv_servePort d |}.

(** a stream's [close] or [error] *)
Definition sd_closed (sock : nat) (d : ServeDialer) : ServeDialer := with_open (base.filter (fun s => s <> sock) (sv_open d)) d.

(** ** The pool over time: its fills in flight, and what can happen to it *)

Inductive PoolEvent :=
  | PStart (target : Endpoint) (port : Z)
  | PTimer
  | PDialled (i : nat) (socks : list (option nat))
  | PClosed (sock : nat)
  | PStop.

Record Pool := { po_dialer : ServeDialer; po_fills : list Z }.

Definition begun (r : ServeDialer * option Z) (fills : list Z) : Pool :=
  {| po_dialer := r.1; po_fills := match r.2 with Some n => n :: fills | None => fills end |}.

(** The timer runs while the dialer does; a fill gets an answer for each of its dials. *)
Definition pool_event (p : Pool) (e : PoolEvent) : Pool :=
  let d := po_dialer p in
  match e with
  | PStart target port => begun (sd_start target port d) (po_fills p)
  | PTimer => if sv_running d then begun (fill_begin d) (po_fills p) else p
  | PDialled i socks =>
      match po_fills p !! i with
      | Some want =>
          if Z.of_nat (length socks) =? want
          then {| po_dialer := fill_end socks d; po_fills := delete i (po_fills p) |} else p
      | None => p
      end
  | PClosed s => {| po_dialer := sd_closed s d; po_fills := po_fills p |}
  | PStop => {| po_dialer := sd_stop d; po_fills := po_fills p |}
  end.

Definition pool_run (p : Pool) (l : list PoolEvent) : Pool := foldl pool_event p l.

Definition new_pool (max : option Z) : Pool := {| po_dialer := newServeDialer max; po_fills := [] |}.

(** ** The pool never exceeds its maximum *)

Definition within (p : Pool) : Prop :=
  0 <= capacity (po_dialer p) /\
  match po_fills p with
  | [] => Z.of_nat (length (sv_open (po_dialer p))) <= capacity (po_dialer p)
  | [want] => sv_filling (po_dialer p) = true /\ 0 < want /\ Z.of_nat (length (sv_open (po_dialer p))) + want <= capacity (po_dialer p)
  | _ => False
  end.

Lemma fill_begin_within d fills : within {| po_dialer := d; po_fills := fills |} -> within (begun (fill_begin d) fills).
Proof.
  intros [Hc H]. unfold begun, fill_begin. destruct (sv_target d); [|by split]. destruct (sv_filling d) eqn:Hf; [by split|].
  cbn in *. destruct fills as [|w [|? ?]]; [|destruct H; congruence|done].
  change (capacity (with_filling true d)) with (capacity d). destruct (_ <=? 0) eqn:E; split; cbn; try done.
  apply Z.leb_gt in E. unfold capacity in *. cbn. split_and!; [done|lia..].
Qed.

Lemma omap_length {A} (l : list (option A)) : (length (omap id l) <= length l)%nat.
Proof. induction l as [|[a|] l IH]; cbn; lia. Qed.

(** Events that only take streams away *)
Lemma within_shrink p d : within p -> capacity d = capacity (po_dialer p) -> sv_filling d = sv_filling (po_dialer p) ->
  (length (sv_open d) <= length (sv_open (po_dialer p)))%nat -> within {| po_dialer := d; po_fills := po_fills p |}.
Proof.
  intros [Hc H] Ec Ef Hl. split; cbn; [lia|]. rewrite Ec. destruct (po_fills p) as [|w [|? ?]]; [lia| |done].
  destruct H as (Hf & Hw & H). rewrite Ef. split_and!; [done..|lia].
Qed.

Lemma pool_event_within p e : within p -> within (pool_event p e).
Proof.
  intros H. destruct e as [target port| |i socks|sock|]; cbn.
  - unfold sd_start. destruct (sv_running (po_dialer p)); [by destruct p|]. apply fill_begin_within. exact H.
  - destruct (sv_running (po_dialer p)); [|done]. apply fill_begin_within. by destruct p.
  - destruct (po_fills p !! i) as [want|] eqn:Hi; [|done]. destruct (_ =? want) eqn:Hw; [|done]. apply Z.eqb_eq in Hw.
    destruct H as [Hc H]. destruct (po_fills p) as [|w [|? ?]]; [done| |done].
    destruct i; [|done]. injection Hi as ->. split; [done|]. cbn. rewrite length_app.
    pose proof (omap_length socks). unfold capacity in *. destruct (sv_running _); cbn; lia.
  - apply within_shrink; [done..|]. apply length_filter.
  - apply within_shrink; [done..|]. cbn. lia.
Qed.

Lemma pool_event_capacity p e : capacity (po_dialer (pool_event p e)) = capacity (po_dialer p).
Proof.
  destruct e; cbn; repeat case_match; try done; unfold sd_start, fill_begin; by repeat case_match.
Qed.

(** At no time does a worker hold more streams than its maximum, nor more than one round of dials. *)
Lemma pool_bounded max l : 0 <= default 4 max ->
  let p := pool_run (new_pool max) l in
  Z.of_nat (length (sv_open (po_dialer p))) <= default 4 max /\ (length (po_fills p) <= 1)%nat.
Proof.
  intros Hm p. assert (within p /\ capacity (po_dialer p) = default 4 max) as [[_ H] <-].
  { subst p. unfold pool_run. induction l as [|e l [IH1 IH2]] using rev_ind; [done|]. rewrite foldl_app.
    split; [by apply pool_event_within|]. rewrite <-IH2. apply pool_event_capacity. }
  destruct (po_fills p) as [|w [|? ?]]; cbn; [lia| |done]. destruct H as (_ & Hw & H). lia.
Qed.

(** ** A full pool stops refilling *)

Definition stalled (p : Pool) : Prop := sv_filling (po_dialer p) = true /\ po_fills p = [].

Lemma stalled_event p e : stalled p ->
  stalled (pool_event p e) /\ sv_open (po_dialer (pool_event p e)) ⊆ sv_open (po_dialer p).
Proof.
  intros [Hf Hn]. unfold stalled. destruct e as [target port| |i socks|sock|]; cbn.
  - unfold sd_start, fill_begin. destruct (sv_running (po_dialer p)); cbn; [|rewrite Hf]; done.
  - unfold fill_begin. destruct (sv_running (po_dialer p)); [|done]. rewrite Hf. by destruct (sv_target _).
  - by rewrite Hn.
  - split; [done|]. intros s. rewrite list_elem_of_filter. by intros [].
  - split; [done|]. intros s H. by apply elem_of_nil in H.
Qed.

(** A pool that is full when its timer fires is never topped up again.  [fill] sets [filling] and returns
    without resetting it when there is nothing to dial; from then on every later [fill] gives up at once, so
    whatever happens (streams closing, the timer firing, even a stop and a new start of this dialer), the
    streams of the pool are among those it had at that moment. *)
Theorem serve_pool_never_refilled p l :
  sv_running (po_dialer p) = true -> sv_target (po_dialer p) <> None -> sv_filling (po_dialer p) = false -> po_fills p = [] ->
  capacity (po_dialer p) <= Z.of_nat (length (sv_open (po_dialer p))) ->
  let p' := pool_run p (PTimer :: l) in
  sv_open (po_dialer p') ⊆ sv_open (po_dialer p) /\ po_fills p' = [].
Proof.
  intros Hr Ht Hf Hn Hc. cbn -[pool_event].
  assert (stalled (pool_event p PTimer) /\ sv_open (po_dialer (pool_event p PTimer)) = sv_open (po_dialer p)) as [Hs Ho].
  { cbn. unfold fill_begin. rewrite Hr, Hf. destruct (sv_target (po_dialer p)); [|done].
    destruct (Z.leb_spec (capacity (po_dialer p) - Z.of_nat (length (sv_open (po_dialer p)))) 0); [|lia]. by rewrite Hn. }
  rewrite <-Ho. clear Ho Hr Ht Hf Hn Hc. revert Hs. generalize (pool_event p PTimer) as q. intros q Hq.
  assert (stalled (pool_run q l) /\ sv_open (po_dialer (pool_run q l)) ⊆ sv_open (po_dialer q)) as [[_ H1] H2]; [|done].
  revert q Hq. induction l as [|e l IH]; intros q Hq; [done|]. destruct (stalled_event q e Hq) as [Hs Ho].
  destruct (IH _ Hs) as [H1 H2]. split; [done|]. etrans; [exact H2|done].
Qed.

(** Six streams come up, the timer fires, they close, and the timer fires in vain. *)
Definition demo_endpoint : Endpoint :=
  {| ep_nodeId := "c"; ep_certFp := "f"; ep_port := 50100; ep_direct := [{| hp_host := "10.0.0.1"; hp_port := 7421 |}];
     ep_relay := true; ep_inbound := None |}.
Definition demo_full : Pool :=
  pool_run (new_pool (Some 2)) [PStart demo_endpoint 50052; PDialled 0 [Some 1%nat; Some 2%nat]].

Lemma serve_pool_never_refilled_witness :
  let p' := pool_run demo_full [PTimer; PClosed 1; PClosed 2; PTimer; PTimer] in
  sv_open (po_dialer demo_full) = [1%nat; 2%nat] /\ sv_running (po_dialer p') = true /\
  sv_open (po_dialer p') ⊆ [1%nat; 2%nat] /\ po_fills p' = [] /\ sv_open (po_dialer p') = [].
Proof.
  pose proof (serve_pool_never_refilled demo_full [PClosed 1; PClosed 2; PTimer; PTimer] eq_refl) as H.
  destruct H as [H1 H2]; [vm_compute; discriminate|reflexivity|reflexivity|vm_compute; discriminate|].
  split; [reflexivity|]. split; [reflexivity|]. split; [exact H1|]. split; [exact H2|reflexivity].
Defined.
