(* ===== verification/AgentState.v ===== *)
(** * The node agent's assignments: data and state (swarmlet/node-agent/assignments.ts, roles/process.ts, config.ts)

    [Agent] is what the assignment runner keeps: the records of its assignments (an object [Active] is an index
    of [heap], which the [active] map refers to), the processes it spawned, the promises of its asynchronous
    calls with what each will do, the owner's configuration, the file assignments.json, and the reports it
    sent to control.  A [Wait] is what an await waits for; its answer comes from the host, or from
    the state: a promise that settled, a process that exited, a delay that passed.

    What is not the agent's own (starting a process, reading its identity, path joining and rendering
    numbers and dates as text) is the parameter [AgentHost].  Log lines to control and the log files have
    no counterpart. *)

From S2P Require Import Prelude Async JsNum Json Types Validate Recipes Identity ServeDial.

Local Open Scope string_scope.
Local Open Scope list_scope.
Local Open Scope Z_scope.

(** ** Configuration (config.ts): what the runner reads of it *)

Record ExternalService := {
  xt_id : string; xt_modelName : string; xt_url : string; xt_healthPath : string; xt_maintenance : string }.

Record NodeConfig := { nc_offer : Offer; nc_enginePath : string; nc_externals : list ExternalService }.

Record AgentHost := {
  h_os : Os; h_stateDir : string;
  h_join : list string -> string;
  (** [Bun.spawn] of the n-th process: its pid, or the error it throws; [processIdentity] of it *)
  h_spawn : nat -> list string -> list (string * string) -> result string Z;
  h_identify : nat -> Z -> result string (option ProcessIdentity);
  (** the parent of a process, read at a time *)
  h_parent : Z -> Z -> option Z;
  (** [Math.round(free)] as text, a time as text, a RAM size in GiB as text *)
  h_round : num -> string; h_iso : Z -> string; h_gib : Z -> string;
  (** the lines of a maintenance script's output that a failure quotes *)
  h_why : string -> string;
  (** [Number(new URL(url).port)], when the URL parses *)
  h_urlPort : string -> option Z }.

(** ** Processes (roles/process.ts) *)

Definition MAX_LINES : nat := 400.

Record Proc := {
  pr_name : string; pr_owner : nat; pr_pid : option Z;
  pr_exited : bool; pr_exit : option (option Z * option string);
  pr_stopping : bool; pr_signals : list Signal;
  pr_identity : option ProcessIdentity; pr_lines : list string;
  (** the RAM (MiB) and the cores it was wrapped with *)
  pr_limits : Z * Z }.
Definition set_pr_name v (p : Proc) : Proc :=
  {| pr_name := v; pr_owner := pr_owner p; pr_pid := pr_pid p; pr_exited := pr_exited p; pr_exit := pr_exit p;
     pr_stopping := pr_stopping p; pr_signals := pr_signals p; pr_identity := pr_identity p; pr_lines :=
     pr_lines p; pr_limits := pr_limits p |}.
Definition set_pr_owner v (p : Proc) : Proc :=
  {| pr_name := pr_name p; pr_owner := v; pr_pid := pr_pid p; pr_exited := pr_exited p; pr_exit := pr_exit p;
     pr_stopping := pr_stopping p; pr_signals := pr_signals p; pr_identity := pr_identity p; pr_lines :=
     pr_lines p; pr_limits := pr_limits p |}.
Definition set_pr_pid v (p : Proc) : Proc :=
  {| pr_name := pr_name p; pr_owner := pr_owner p; pr_pid := v; pr_exited := pr_exited p; pr_exit := pr_exit p;
     pr_stopping := pr_stopping p; pr_signals := pr_signals p; pr_identity := pr_identity p; pr_lines :=
     pr_lines p; pr_limits := pr_limits p |}.
Definition set_pr_exited v (p : Proc) : Proc :=
  {| pr_name := pr_name p; pr_owner := pr_owner p; pr_pid := pr_pid p; pr_exited := v; pr_exit := pr_exit p;
     pr_stopping := pr_stopping p; pr_signals := pr_signals p; pr_identity := pr_identity p; pr_lines :=
     pr_lines p; pr_limits := pr_limits p |}.
Definition set_pr_exit v (p : Proc) : Proc :=
  {| pr_name := pr_name p; pr_owner := pr_owner p; pr_pid := pr_pid p; pr_exited := pr_exited p; pr_exit := v;
     pr_stopping := pr_stopping p; pr_signals := pr_signals p; pr_identity := pr_identity p; pr_lines :=
     pr_lines p; pr_limits := pr_limits p |}.
Definition set_pr_stopping v (p : Proc) : Proc :=
  {| pr_name := pr_name p; pr_owner := pr_owner p; pr_pid := pr_pid p; pr_exited := pr_exited p; pr_exit :=
     pr_exit p; pr_stopping := v; pr_signals := pr_signals p; pr_identity := pr_identity p; pr_lines := pr_lines
     p; pr_limits := pr_limits p |}.
Definition set_pr_signals v (p : Proc) : Proc :=
  {| pr_name := pr_name p; pr_owner := pr_owner p; pr_pid := pr_pid p; pr_exited := pr_exited p; pr_exit :=
     pr_exit p; pr_stopping := pr_stopping p; pr_signals := v; pr_identity := pr_identity p; pr_lines :=
     pr_lines p; pr_limits := pr_limits p |}.
Definition set_pr_identity v (p : Proc) : Proc :=
  {| pr_name := pr_name p; pr_owner := pr_owner p; pr_pid := pr_pid p; pr_exited := pr_exited p; pr_exit :=
     pr_exit p; pr_stopping := pr_stopping p; pr_signals := pr_signals p; pr_identity := v; pr_lines := pr_lines
     p; pr_limits := pr_limits p |}.
Definition set_pr_lines v (p : Proc) : Proc :=
  {| pr_name := pr_name p; pr_owner := pr_owner p; pr_pid := pr_pid p; pr_exited := pr_exited p; pr_exit :=
     pr_exit p; pr_stopping := pr_stopping p; pr_signals := pr_signals p; pr_identity := pr_identity p; pr_lines
     := v; pr_limits := pr_limits p |}.
Definition set_pr_limits v (p : Proc) : Proc :=
  {| pr_name := pr_name p; pr_owner := pr_owner p; pr_pid := pr_pid p; pr_exited := pr_exited p; pr_exit :=
     pr_exit p; pr_stopping := pr_stopping p; pr_signals := pr_signals p; pr_identity := pr_identity p; pr_lines
     := pr_lines p; pr_limits := v |}.

Definition pr_running (p : Proc) : bool := present (pr_pid p) && negb (pr_exited p).

Definition lastn {A} (n : nat) (l : list A) : list A := drop (length l - n) l.

(** [push] of an output line *)
Definition push_line (line : string) (p : Proc) : Proc := set_pr_lines (lastn MAX_LINES (pr_lines p ++ [line])) p.

(** ** Assignments in progress *)

Inductive Path := direct | relay | inbound.

(** The dialer (transport/dial.ts) as the runner uses it: its listening servers, and the path that worked
    last for each endpoint. *)
Record Dialer := { dl_servers : list Z; dl_memo : list (string * Path) }.
Definition newDialer : Dialer := {| dl_servers := []; dl_memo := [] |}.
Definition closeAll (d : Dialer) : Dialer := {| dl_servers := []; dl_memo := dl_memo d |}.
Definition currentPath (d : Dialer) (e : Endpoint) : string :=
  match find (fun kv => String.eqb kv.1 (ep_nodeId e +:+ ":" +:+ pretty (ep_port e))) (dl_memo d) with
  | Some (_, relay) => "relay" | Some (_, inbound) => "inbound" | Some (_, direct) => "direct" | None => "unknown"
  end.

Record Active := {
  x_a : Assignment; x_registeredAt : Z; x_state : AssignmentState; x_detail : option string;
  x_proc : option nat; x_dialer : option Dialer; x_serve : option ServeDialer;
  x_ports : list (string * Z);
  (** whether the watchdog's and the health timer's intervals run *)
  x_watching : bool;
  x_stoppedExternal : option ExternalService; x_healthTimer : bool; x_stopping : bool;
  x_startTask : option nat; x_cleanupTask : option nat; x_stopTask : option nat }.
Definition set_x_a v (r : Active) : Active :=
  {| x_a := v; x_registeredAt := x_registeredAt r; x_state := x_state r; x_detail := x_detail r; x_proc :=
     x_proc r; x_dialer := x_dialer r; x_serve := x_serve r; x_ports := x_ports r; x_watching := x_watching r;
     x_stoppedExternal := x_stoppedExternal r; x_healthTimer := x_healthTimer r; x_stopping := x_stopping r;
     x_startTask := x_startTask r; x_cleanupTask := x_cleanupTask r; x_stopTask := x_stopTask r |}.
Definition set_x_registeredAt v (r : Active) : Active :=
  {| x_a := x_a r; x_registeredAt := v; x_state := x_state r; x_detail := x_detail r; x_proc := x_proc r;
     x_dialer := x_dialer r; x_serve := x_serve r; x_ports := x_ports r; x_watching := x_watching r;
     x_stoppedExternal := x_stoppedExternal r; x_healthTimer := x_healthTimer r; x_stopping := x_stopping r;
     x_startTask := x_startTask r; x_cleanupTask := x_cleanupTask r; x_stopTask := x_stopTask r |}.
Definition set_x_state v (r : Active) : Active :=
  {| x_a := x_a r; x_registeredAt := x_registeredAt r; x_state := v; x_detail := x_detail r; x_proc := x_proc r;
     x_dialer := x_dialer r; x_serve := x_serve r; x_ports := x_ports r; x_watching := x_watching r;
     x_stoppedExternal := x_stoppedExternal r; x_healthTimer := x_healthTimer r; x_stopping := x_stopping r;
     x_startTask := x_startTask r; x_cleanupTask := x_cleanupTask r; x_stopTask := x_stopTask r |}.
Definition set_x_detail v (r : Active) : Active :=
  {| x_a := x_a r; x_registeredAt := x_registeredAt r; x_state := x_state r; x_detail := v; x_proc := x_proc r;
     x_dialer := x_dialer r; x_serve := x_serve r; x_ports := x_ports r; x_watching := x_watching r;
     x_stoppedExternal := x_stoppedExternal r; x_healthTimer := x_healthTimer r; x_stopping := x_stopping r;
     x_startTask := x_startTask r; x_cleanupTask := x_cleanupTask r; x_stopTask := x_stopTask r |}.
Definition set_x_proc v (r : Active) : Active :=
  {| x_a := x_a r; x_registeredAt := x_registeredAt r; x_state := x_state r; x_detail := x_detail r; x_proc :=
     v; x_dialer := x_dialer r; x_serve := x_serve r; x_ports := x_ports r; x_watching := x_watching r;
     x_stoppedExternal := x_stoppedExternal r; x_healthTimer := x_healthTimer r; x_stopping := x_stopping r;
     x_startTask := x_startTask r; x_cleanupTask := x_cleanupTask r; x_stopTask := x_stopTask r |}.
Definition set_x_dialer v (r : Active) : Active :=
  {| x_a := x_a r; x_registeredAt := x_registeredAt r; x_state := x_state r; x_detail := x_detail r; x_proc :=
     x_proc r; x_dialer := v; x_serve := x_serve r; x_ports := x_ports r; x_watching := x_watching r;
     x_stoppedExternal := x_stoppedExternal r; x_healthTimer := x_healthTimer r; x_stopping := x_stopping r;
     x_startTask := x_startTask r; x_cleanupTask := x_cleanupTask r; x_stopTask := x_stopTask r |}.
Definition set_x_serve v (r : Active) : Active :=
  {| x_a := x_a r; x_registeredAt := x_registeredAt r; x_state := x_state r; x_detail := x_detail r; x_proc :=
     x_proc r; x_dialer := x_dialer r; x_serve := v; x_ports := x_ports r; x_watching := x_watching r;
     x_stoppedExternal := x_stoppedExternal r; x_healthTimer := x_healthTimer r; x_stopping := x_stopping r;
     x_startTask := x_startTask r; x_cleanupTask := x_cleanupTask r; x_stopTask := x_stopTask r |}.
Definition set_x_ports v (r : Active) : Active :=
  {| x_a := x_a r; x_registeredAt := x_registeredAt r; x_state := x_state r; x_detail := x_detail r; x_proc :=
     x_proc r; x_dialer := x_dialer r; x_serve := x_serve r; x_ports := v; x_watching := x_watching r;
     x_stoppedExternal := x_stoppedExternal r; x_healthTimer := x_healthTimer r; x_stopping := x_stopping r;
     x_startTask := x_startTask r; x_cleanupTask := x_cleanupTask r; x_stopTask := x_stopTask r |}.
Definition set_x_watching v (r : Active) : Active :=
  {| x_a := x_a r; x_registeredAt := x_registeredAt r; x_state := x_state r; x_detail := x_detail r; x_proc :=
     x_proc r; x_dialer := x_dialer r; x_serve := x_serve r; x_ports := x_ports r; x_watching := v;
     x_stoppedExternal := x_stoppedExternal r; x_healthTimer := x_healthTimer r; x_stopping := x_stopping r;
     x_startTask := x_startTask r; x_cleanupTask := x_cleanupTask r; x_stopTask := x_stopTask r |}.
Definition set_x_stoppedExternal v (r : Active) : Active :=
  {| x_a := x_a r; x_registeredAt := x_registeredAt r; x_state := x_state r; x_detail := x_detail r; x_proc :=
     x_proc r; x_dialer := x_dialer r; x_serve := x_serve r; x_ports := x_ports r; x_watching := x_watching r;
     x_stoppedExternal := v; x_healthTimer := x_healthTimer r; x_stopping := x_stopping r; x_startTask :=
     x_startTask r; x_cleanupTask := x_cleanupTask r; x_stopTask := x_stopTask r |}.
Definition set_x_healthTimer v (r : Active) : Active :=
  {| x_a := x_a r; x_registeredAt := x_registeredAt r; x_state := x_state r; x_detail := x_detail r; x_proc :=
     x_proc r; x_dialer := x_dialer r; x_serve := x_serve r; x_ports := x_ports r; x_watching := x_watching r;
     x_stoppedExternal := x_stoppedExternal r; x_healthTimer := v; x_stopping := x_stopping r; x_startTask :=
     x_startTask r; x_cleanupTask := x_cleanupTask r; x_stopTask := x_stopTask r |}.
Definition set_x_stopping v (r : Active) : Active :=
  {| x_a := x_a r; x_registeredAt := x_registeredAt r; x_state := x_state r; x_detail := x_detail r; x_proc :=
     x_proc r; x_dialer := x_dialer r; x_serve := x_serve r; x_ports := x_ports r; x_watching := x_watching r;
     x_stoppedExternal := x_stoppedExternal r; x_healthTimer := x_healthTimer r; x_stopping := v; x_startTask :=
     x_startTask r; x_cleanupTask := x_cleanupTask r; x_stopTask := x_stopTask r |}.
Definition set_x_startTask v (r : Active) : Active :=
  {| x_a := x_a r; x_registeredAt := x_registeredAt r; x_state := x_state r; x_detail := x_detail r; x_proc :=
     x_proc r; x_dialer := x_dialer r; x_serve := x_serve r; x_ports := x_ports r; x_watching := x_watching r;
     x_stoppedExternal := x_stoppedExternal r; x_healthTimer := x_healthTimer r; x_stopping := x_stopping r;
     x_startTask := v; x_cleanupTask := x_cleanupTask r; x_stopTask := x_stopTask r |}.
Definition set_x_cleanupTask v (r : Active) : Active :=
  {| x_a := x_a r; x_registeredAt := x_registeredAt r; x_state := x_state r; x_detail := x_detail r; x_proc :=
     x_proc r; x_dialer := x_dialer r; x_serve := x_serve r; x_ports := x_ports r; x_watching := x_watching r;
     x_stoppedExternal := x_stoppedExternal r; x_healthTimer := x_healthTimer r; x_stopping := x_stopping r;
     x_startTask := x_startTask r; x_cleanupTask := v; x_stopTask := x_stopTask r |}.
Definition set_x_stopTask v (r : Active) : Active :=
  {| x_a := x_a r; x_registeredAt := x_registeredAt r; x_state := x_state r; x_detail := x_detail r; x_proc :=
     x_proc r; x_dialer := x_dialer r; x_serve := x_serve r; x_ports := x_ports r; x_watching := x_watching r;
     x_stoppedExternal := x_stoppedExternal r; x_healthTimer := x_healthTimer r; x_stopping := x_stopping r;
     x_startTask := x_startTask r; x_cleanupTask := x_cleanupTask r; x_stopTask := v |}.

#[export] Instance Active_inhabited : Inhabited Active := populate
  {| x_a := AStop {| so_id := ""; so_deploymentId := "" |}; x_registeredAt := 0; x_state := starting; x_detail := None;
     x_proc := None; x_dialer := None; x_serve := None; x_ports := []; x_watching := false; x_stoppedExternal := None;
     x_healthTimer := false; x_stopping := false; x_startTask := None; x_cleanupTask := None; x_stopTask := None |}.

Inductive Kind := k_worker | k_coordinator | k_replica | k_stage | k_stop.
#[export] Instance Kind_eq : EqDecision Kind.
Proof. solve_decision. Defined.

Definition kind_of (a : Assignment) : Kind :=
  match a with AWorker _ => k_worker | ACoordinator _ => k_coordinator | AReplica _ => k_replica | AStage _ => k_stage | AStop _ => k_stop end.
Definition id_of (a : Assignment) : string :=
  match a with AWorker a => wa_id a | ACoordinator a => ca_id a | AReplica a => ra_id a | AStage a => sa_id a | AStop a => so_id a end.
Definition deployment_of (a : Assignment) : string :=
  match a with AWorker a => wa_deploymentId a | ACoordinator a => ca_deploymentId a | AReplica a => ra_deploymentId a
  | AStage a => sa_deploymentId a | AStop a => so_deploymentId a end.

(** An entry of assignments.json. *)
Record AssignmentSnapshot := {
  ss_id : string; ss_kind : Kind; ss_deploymentId : string; ss_state : AssignmentState; ss_detail : option string;
  ss_ports : list (string * Z); ss_pid : option Z; ss_processIdentity : option ProcessIdentity;
  ss_stoppedExternalId : option string }.

Inductive StateFile := NoFile | Unreadable | Saved (l : list AssignmentSnapshot).

Record AssignmentReport := {
  rt_id : string; rt_state : AssignmentState; rt_detail : option string; rt_ports : option (list (string * Z)) }.

(** ** Asynchronous calls

    Each job is a call whose promise something may await: the chain of [handle] that starts an assignment; the rest of
    an async function after its synchronous beginning; or a callback attached to a promise. *)
Inductive Job :=
  | KStart (x : nat)
  | KCleanup (x : nat) (stopping : option (nat * Z))
  | KForget (x q : nat)
  | KAfterFail (x q : nat)
  | KStop (id : string)
  | KStopBody (x : nat) (id why : string) (q caller : nat)
  | KCheck (x : nat)
  | KKill (p : nat)
  | KFill (x : nat) (want : Z)
  | KStopAll
  | KRecover.

Inductive Verb := v_stop | v_start.

Inductive Wait :=
  | W_promise (q : nat)
  | W_exit (p : nat)
  | W_sleep (until : Z)
  | W_sha256 (path : string)
  | W_freeRam
  | W_portFree (port : Z)
  | W_systemd
  | W_connect (port : Z)
  | W_http (url : string)
  | W_json (url : string)
  | W_listen (e : Endpoint)
  | W_maintenance (ext : ExternalService) (verb : Verb)
  | W_streams (want : Z)
  | W_retire (pid : Z) (expected : option ProcessIdentity).

Definition ans (w : Wait) : Type :=
  match w with
  | W_promise _ | W_portFree _ | W_retire _ _ => result string unit
  | W_exit _ | W_sleep _ => unit
  | W_sha256 _ => result string string
  | W_freeRam => result string (option num)
  | W_systemd | W_connect _ | W_http _ => bool
  | W_json _ => result string json
  | W_listen _ => result string Z
  | W_maintenance _ _ => result string (Z * string)
  | W_streams _ => list (option nat)
  end.

(** ** The state *)

Record Agent := {
  heap : list Active; active : list (string * nat); procs : list Proc;
  promises : list (Job * option (result string unit));
  cfg : NodeConfig; now : Z;
  disk : StateFile; diskOk : bool; dirs : list string;
  reports : list AssignmentReport }.
Definition set_heap v (m : Agent) : Agent :=
  {| heap := v; active := active m; procs := procs m; promises := promises m; cfg := cfg m; now := now m; disk
     := disk m; diskOk := diskOk m; dirs := dirs m; reports := reports m |}.
Definition set_active v (m : Agent) : Agent :=
  {| heap := heap m; active := v; procs := procs m; promises := promises m; cfg := cfg m; now := now m; disk :=
     disk m; diskOk := diskOk m; dirs := dirs m; reports := reports m |}.
Definition set_procs v (m : Agent) : Agent :=
  {| heap := heap m; active := active m; procs := v; promises := promises m; cfg := cfg m; now := now m; disk :=
     disk m; diskOk := diskOk m; dirs := dirs m; reports := reports m |}.
Definition set_promises v (m : Agent) : Agent :=
  {| heap := heap m; active := active m; procs := procs m; promises := v; cfg := cfg m; now := now m; disk :=
     disk m; diskOk := diskOk m; dirs := dirs m; reports := reports m |}.
Definition set_cfg v (m : Agent) : Agent :=
  {| heap := heap m; active := active m; procs := procs m; promises := promises m; cfg := v; now := now m; disk
     := disk m; diskOk := diskOk m; dirs := dirs m; reports := reports m |}.
Definition set_now v (m : Agent) : Agent :=
  {| heap := heap m; active := active m; procs := procs m; promises := promises m; cfg := cfg m; now := v; disk
     := disk m; diskOk := diskOk m; dirs := dirs m; reports := reports m |}.
Definition set_disk v (m : Agent) : Agent :=
  {| heap := heap m; active := active m; procs := procs m; promises := promises m; cfg := cfg m; now := now m;
     disk := v; diskOk := diskOk m; dirs := dirs m; reports := reports m |}.
Definition set_diskOk v (m : Agent) : Agent :=
  {| heap := heap m; active := active m; procs := procs m; promises := promises m; cfg := cfg m; now := now m;
     disk := disk m; diskOk := v; dirs := dirs m; reports := reports m |}.
Definition set_dirs v (m : Agent) : Agent :=
  {| heap := heap m; active := active m; procs := procs m; promises := promises m; cfg := cfg m; now := now m;
     disk := disk m; diskOk := diskOk m; dirs := v; reports := reports m |}.
Definition set_reports v (m : Agent) : Agent :=
  {| heap := heap m; active := active m; procs := procs m; promises := promises m; cfg := cfg m; now := now m;
     disk := disk m; diskOk := diskOk m; dirs := dirs m; reports := v |}.

Abbreviation Sync := (M Agent string).
Abbreviation Step := (Async.Step (S := Agent) ans).
Abbreviation Async := (Async.Async (S := Agent) ans).

(** [active.get(id)] *)
Definition active_get (m : Agent) (id : string) : option nat := snd <$> find (fun kv => String.eqb kv.1 id) (active m).
Definition active_delete (id : string) (l : list (string * nat)) : list (string * nat) := base.filter (fun kv => kv.1 <> id) l.

Definition rec (m : Agent) (x : nat) : Active := heap m !!! x.
Definition upd (x : nat) (f : Active -> Active) : Sync unit := mmodify (fun m => set_heap (alter f x (heap m)) m).
Definition upd_proc (p : nat) (f : Proc -> Proc) : Sync unit := mmodify (fun m => set_procs (alter f p (procs m)) m).

(** The actives, in the order of the map. *)
Definition actives (m : Agent) : list Active := (fun kv : string * nat => rec m kv.2) <$> active m.

Definition proc_of (m : Agent) (x : Active) : option Proc := x_proc x ≫= fun p => procs m !! p.

Definition snapshot (m : Agent) : list AssignmentSnapshot :=
  (fun x => {| ss_id := id_of (x_a x); ss_kind := kind_of (x_a x); ss_deploymentId := deployment_of (x_a x); ss_state := x_state x;
               ss_detail := x_detail x; ss_ports := x_ports x; ss_pid := proc_of m x ≫= pr_pid;
               ss_processIdentity := proc_of m x ≫= pr_identity; ss_stoppedExternalId := xt_id <$> x_stoppedExternal x |}) <$> actives m.

Definition persist : Sync unit :=
  m ← mget;
  if diskOk m then mmodify (set_disk (Saved (snapshot m))) else mthrow "persist failed".

Definition report (id : string) (state : AssignmentState) (detail : option string) (ports : option (list (string * Z))) : Sync unit :=
  mmodify (fun m => set_reports ({| rt_id := id; rt_state := state; rt_detail := detail; rt_ports := ports |} :: reports m) m).

(** [Object.keys(ports).length ? ports : undefined] *)
Definition some_ports (l : list (string * Z)) : option (list (string * Z)) := match l with [] => None | _ => Some l end.

(** A new promise for [j]; the caller goes on before it runs. *)
Definition spawn (j : Job) : Sync nat :=
  m ← mget;
  mmodify (fun m => set_promises (promises m ++ [(j, None)]) m) ;;
  mret (length (promises m)).

Definition settled (m : Agent) (q : nat) : option (result string unit) := promises m !! q ≫= snd.
