(* ===== verification/Agent.v ===== *)
(** * The node agent's assignment runner (swarmlet/node-agent/assignments.ts, roles/process.ts, enforce/index.ts)

    The methods of [AssignmentRunner], and the process of the agent as a machine: a turn is a message of control,
    an event of a process or a timer, a call of the owner, or one segment of a pending call, begun or resumed with
    the answer to its await.  An async function that its caller does not await at once runs up to its first await in
    place; the rest is a [Job].  Loops that wait end at their deadline; the rounds they are given suffice
    ([AgentEnds.waits_end]), since each sleeps. *)

From S2P Require Import Prelude Async JsNum Json Types Validate Recipes Identity ServeDial AgentState.

Local Open Scope string_scope.
Local Open Scope list_scope.
Local Open Scope Z_scope.

Section agent.
Context (host : AgentHost).

(** ** Awaits *)

Definition await (w : Wait) : Async (ans w) := fun m => (Susp w (fun r m => (Fin (Ok r), m)), m).
Definition settle_result {A} (r : result string A) : Async A := fun m => (Fin r, m).
(** [await] of what may reject *)
Definition await_promise (q : nat) : Async unit := r ← await (W_promise q); settle_result r.
Definition asleep (ms : Z) : Async unit := m ← lift mget; await (W_sleep (now m + ms)).

Definition out_of_rounds : string := "out of rounds".
(** [for (;;) body] with what the rounds carry: [inl] is another round. *)
Fixpoint rounds {A B} (n : nat) (b : B) (body : B -> Async (B + A)) : Async A :=
  match n with
  | O => athrow out_of_rounds
  | S n => r ← body b; match r with inr a => mret a | inl b => rounds n b body end
  end.
Definition rounds_of (timeoutMs stepMs : Z) : nat := Z.to_nat (timeoutMs / stepMs) + 2.
(** [while (Date.now() < deadline) { body; await sleep(step) } return late] *)
Definition poll {A B} (timeoutMs stepMs : Z) (b : B) (late : B -> A) (body : B -> Async (B + A)) : Async A :=
  m ← lift mget;
  let deadline := now m + timeoutMs in
  rounds (rounds_of timeoutMs stepMs) b (fun b =>
    m ← lift mget;
    if deadline <=? now m then mret (inr (late b)) else
    r ← body b;
    match r with inr a => mret (inr a) | inl b => asleep stepMs ;; mret (inl b) end).

Fixpoint afor {A} (l : list A) (body : A -> Async unit) : Async unit :=
  match l with [] => mret tt | x :: l => body x ;; afor l body end.

Definition get_rec (x : nat) : Sync Active := m ← mget; mret (rec m x).

(** ** Processes (roles/process.ts) *)

(** [proc.stop(graceMs)] up to its await: the process to wait for, and its deadline *)
Definition proc_stop_begin (p : nat) (graceMs : Z) : Sync (option (nat * Z)) :=
  m ← mget;
  match procs m !! p with
  | Some pr =>
      if present (pr_pid pr) && negb (pr_exited pr) then
        upd_proc p (fun pr => set_pr_signals (SIGTERM :: pr_signals pr) (set_pr_stopping true pr)) ;;
        mret (Some (p, now m + graceMs))
      else mret None
  | None => mret None
  end.

Definition exited (m : Agent) (p : nat) : bool := match procs m !! p with Some pr => pr_exited pr | None => true end.

(** the rest: [while (!exited && Date.now() < deadline) await sleep(250)], then SIGKILL *)
Definition proc_stop_wait (p : nat) (deadline : Z) : Async unit :=
  rounds (rounds_of 90000 250) tt (fun _ =>
    m ← lift mget;
    if exited m p || (deadline <=? now m) then mret (inr tt) else asleep 250 ;; mret (inl tt)) ;;
  m ← lift mget;
  if exited m p then mret tt else
  lift (upd_proc p (fun pr => set_pr_signals (SIGKILL :: pr_signals pr) pr)) ;;
  await (W_exit p).

Definition wait_stopped (s : option (nat * Z)) : Async unit :=
  match s with Some (p, deadline) => proc_stop_wait p deadline | None => mret tt end.

Definition is_running (m : Agent) (p : nat) : bool := match procs m !! p with Some pr => pr_running pr | None => false end.

Definition waitForPort (port : Z) (p : nat) (timeoutMs : Z) : Async bool :=
  poll timeoutMs 500 tt (fun _ => false) (fun _ =>
    m ← lift mget;
    if negb (is_running m p) then mret (inr false) else
    ok ← await (W_connect port);
    mret (if ok : bool then inr true else inl tt)).

Definition waitForHealth (url : string) (p : option nat) (timeoutMs : Z) : Async bool :=
  poll timeoutMs 1000 tt (fun _ => false) (fun _ =>
    m ← lift mget;
    if match p with Some p => negb (is_running m p) | None => false end then mret (inr false) else
    ok ← await (W_http url);
    mret (if ok : bool then inr true else inl tt)).

(** [proc.start(spec)] *)
Definition proc_start (p : nat) (argv : list string) (env : list (string * string)) : Sync unit :=
  m ← mget;
  match h_spawn host p argv env with
  | Err e => mthrow e
  | Ok pid =>
      upd_proc p (set_pr_pid (Some pid)) ;;
      match h_identify host p pid with
      | Ok identity => upd_proc p (set_pr_identity identity)
      | Err e => upd_proc p (fun pr => set_pr_signals (SIGTERM :: pr_signals pr) pr) ;; mthrow e
      end
  end.

(** ** Enforcement (enforce/index.ts) *)

Record Enforcement := { en_argv : list string; en_summary : string; en_watch : bool }.

Definition enforce (unit_ : string) (argv : list string) (limits : Z * Z) : Async Enforcement :=
  match h_os host with
  | linux =>
      have ← await W_systemd;
      if negb (have : bool) then
        athrow "systemd-run is required for Linux resource enforcement; install systemd before starting managed assignments" else
      let props :=
        (if 0 <? limits.1 then ["MemoryMax=" +:+ pretty limits.1 +:+ "M"; "MemorySwapMax=0"] else []) ++
        (if 0 <? limits.2 then ["CPUQuota=" +:+ pretty (limits.2 * 100) +:+ "%"] else []) in
      mret {| en_argv := ["systemd-run"; "--user"; "--scope"; "--quiet"; "--collect"; "--unit=" +:+ unit_] ++
                concat ((fun p => ["-p"; p]) <$> props) ++ ["--"] ++ argv;
              en_summary := match props with [] => "cgroup scope (no limits requested)" | _ => "cgroup " +:+ String.concat " " props end;
              en_watch := false |}
  | _ =>
      let cap := if 0 <? limits.1 then limits.1 else 0 in
      mret {| en_argv := argv;
              en_summary := if truthyZ cap then "soft rss cap " +:+ h_gib host cap +:+ " GiB (watchdog)" else "no ram cap";
              en_watch := truthyZ cap |}
  end.

(** ** Reports and cleanup *)

Definition set_state (x : nat) (state : AssignmentState) (detail : option string) : Sync unit :=
  m ← mget;
  let r := rec m x in
  if x_stopping r || negb (bool_decide (active_get m (id_of (x_a r)) = Some x)) then mret tt else
  upd x (set_x_state state) ;;
  (match detail with Some _ => upd x (set_x_detail detail) | None => mret tt end) ;;
  r ← get_rec x;
  report (id_of (x_a r)) state (x_detail r) (some_ports (x_ports r)) ;;
  persist.

(** [dialer?.closeAll(); serveDialer?.stop()] *)
Definition close_transports (x : nat) : Sync unit :=
  upd x (fun r => set_x_dialer (closeAll <$> x_dialer r) (set_x_serve (sd_stop <$> x_serve r) r)).

Definition cleanup (x : nat) : Sync nat :=
  r ← get_rec x;
  match x_cleanupTask r with
  | Some q => mret q
  | None =>
      upd x (set_x_stopping true) ;;
      upd x (set_x_healthTimer false) ;;
      upd x (set_x_watching false) ;;
      close_transports x ;;
      s ← (match x_proc r with Some p => proc_stop_begin p 90000 | None => mret None end);
      q ← spawn (KCleanup x s);
      upd x (set_x_cleanupTask (Some q)) ;;
      spawn (KForget x q) ;;
      mret q
  end.

Definition fail (x : nat) (why : string) : Sync unit :=
  r ← get_rec x;
  if x_stopping r then mret tt else
  upd x (fun r => set_x_detail (Some why) (set_x_state a_failed r)) ;;
  report (id_of (x_a r)) a_failed (Some why) (some_ports (x_ports r)) ;;
  q ← cleanup x;
  spawn (KAfterFail x q) ;;
  mret tt.

(** [s.slice(-n)] *)
Definition last_chars (n : nat) (s : string) : string := String.substring (String.length s - n) n s.

Definition maintenance (ext : ExternalService) (verb : Verb) : Async (Z * string) :=
  r ← await (W_maintenance ext verb); settle_result r.

Definition restoreExternal (x : nat) : Async unit :=
  r ← lift (get_rec x);
  match x_stoppedExternal r with
  | None => mret tt
  | Some ext =>
      out ← maintenance ext v_start;
      if negb (out.1 =? 0) then athrow ("external restore FAILED (" +:+ xt_id ext +:+ "): " +:+ last_chars 400 out.2) else
      lift (upd x (set_x_stoppedExternal None)) ;;
      lift persist
  end.

Definition stage_directory (id : string) : result string string := stageStateDirectory (h_join host) (h_stateDir host) id.
Definition remove_directory (id : string) : Async unit :=
  dir ← settle_result (stage_directory id);
  lift (mmodify (fun m => set_dirs (base.filter (fun d => d <> dir) (dirs m)) m)).

(** The body of [cleanupTask] from its first await on *)
Definition cleanup_rest (x : nat) (s : option (nat * Z)) : Async unit :=
  wait_stopped s ;;
  r ← lift (get_rec x);
  (match x_startTask r with Some q => await_promise q | None => mret tt end) ;;
  (if bool_decide (kind_of (x_a r) = k_stage) then remove_directory (id_of (x_a r)) else mret tt) ;;
  lift (close_transports x) ;;
  lift (upd x (set_x_healthTimer false)) ;;
  restoreExternal x.

(** ** Stopping *)

(** [stop]; [self] is the promise of this call. *)
Definition stop (self : nat) (id why : string) : Async unit :=
  m ← lift mget;
  match active_get m id with
  | None => lift (report id a_stopped (Some "not running") None)
  | Some x =>
      match x_stopTask (rec m x) with
      | Some p => await_promise p
      | None =>
          q ← lift (cleanup x);
          p ← lift (spawn (KStopBody x id why q self));
          lift (upd x (set_x_stopTask (Some p))) ;;
          acatch (await_promise p) (fun e => lift (upd x (set_x_stopTask None)) ;; athrow e)
      end
  end.

(** The body of [stopTask] from [await this.cleanup(x)] on *)
Definition stop_rest (x : nat) (id why : string) (q : nat) : Async unit :=
  await_promise q ;;
  m ← lift mget;
  (if bool_decide (active_get m id = Some x) then lift (mmodify (fun m => set_active (active_delete id (active m)) m)) else mret tt) ;;
  lift (report id a_stopped (Some why) None) ;;
  lift persist.

Definition stopAll (self : nat) : Async unit :=
  m ← lift mget;
  afor (active m).*1 (fun id => stop self id "agent shutting down").

(** ** Starting *)

Definition assertOwnerAllows (a : Assignment) (offer : Offer) : result string unit :=
  match a with
  | AStop _ => Ok tt
  | AReplica r =>
      match ra_external r with
      | Some _ => Ok tt
      | None => throw_if (negb (of_enabled offer) || negb (ro_replica (of_roles offer)))
                  "owner offer does not allow replica; stop assignments before changing resources"
      end
  | ACoordinator _ => throw_if (negb (of_enabled offer) || negb (ro_coordinator (of_roles offer)))
                        "owner offer does not allow coordinator; stop assignments before changing resources"
  | AWorker _ | AStage _ => throw_if (negb (of_enabled offer) || negb (ro_worker (of_roles offer)))
                              "owner offer does not allow worker; stop assignments before changing resources"
  end.

Definition of_result {A} (r : result string A) : Sync A := fun m => (r, m).

Definition assertStarting (x : nat) : Sync unit :=
  m ← mget;
  let r := rec m x in
  if x_stopping r || negb (bool_decide (active_get m (id_of (x_a r)) = Some x)) then mthrow "assignment cancelled" else
  of_result (assertOwnerAllows (x_a r) (nc_offer (cfg m))).

(** [managed] of [assertOfferChange] *)
Definition managed (a : Assignment) : bool :=
  match a with AStop _ => false | AReplica r => negb (present (ra_external r)) | _ => true end.

Fixpoint all_allowed (l : list Active) (offer : Offer) : result string unit :=
  match l with [] => Ok tt | x :: l => assertOwnerAllows (x_a x) offer ;; all_allowed l offer end.

Definition gpu_offered (o : Offer) (id : string) : Z :=
  match find (fun g => String.eqb (gm_id g) id) (of_gpu o) with Some g => gm_memMiB g | None => 0 end.

Definition assertOfferChange (m : Agent) (next : Offer) : result string unit :=
  let l := base.filter (fun x => managed (x_a x) = true) (actives m) in
  match l with
  | [] => Ok tt
  | _ =>
      all_allowed l next ;;
      let previous := nc_offer (cfg m) in
      throw_if ((of_ramMiB next <? of_ramMiB previous) || (of_cpuCores next <? of_cpuCores previous) ||
                (of_diskMiB next <? of_diskMiB previous) ||
                existsb (fun g => gpu_offered next (gm_id g) <? gm_memMiB g) (of_gpu previous) ||
                negb (String.eqb (of_modelsDir next) (of_modelsDir previous)))
        "stop managed assignments before reducing resources or changing the models directory"
  end.

Definition fits (free : option num) (need : Z) : bool := match free with Some f => num_leb (num_of_Z need) f | None => false end.
Definition free_text (free : option num) : string := match free with Some f => h_round host f | None => "0" end.

(** The loop of [fitGate] that stops the external service *)
Definition stop_external (x : nat) (ext : ExternalService) (stopDeadline : Z) : Async unit :=
  rounds (rounds_of 1200000 20000) tt (fun _ =>
    lift (assertStarting x) ;;
    lift (set_state x starting (Some ("stopping external " +:+ xt_id ext +:+ " via maintenance script"))) ;;
    lift (upd x (set_x_stoppedExternal (Some ext))) ;;
    lift persist ;;
    out ← maintenance ext v_stop;
    if out.1 =? 0 then lift (assertStarting x) ;; mret (inr tt) else
    (if out.1 =? 65 then lift (upd x (set_x_stoppedExternal None)) ;; lift persist else mret tt) ;;
    m ← lift mget;
    let why := h_why host out.2 in
    if negb (out.1 =? 65) || (stopDeadline <? now m) then athrow ("maintenance stop refused (" +:+ pretty out.1 +:+ "): " +:+ why) else
    lift (set_state x starting (Some ("waiting for " +:+ xt_id ext +:+ " clients to disconnect (" +:+ why +:+ "); retry in 20 s until " +:+
      h_iso host stopDeadline +:+ "Z"))) ;;
    asleep 20000 ;;
    r ← lift (get_rec x);
    if x_stopping r then athrow "stopped while waiting for the external service" else mret (inl tt)).

(** The loop that waits for memory: the last reading when it is late *)
Definition await_memory (x : nat) (ext : ExternalService) (need : Z) (free : option num) : Async (option (option num)) :=
  poll 180000 5000 free Some (fun _ =>
    lift (assertStarting x) ;;
    r ← await W_freeRam; free ← settle_result r;
    lift (assertStarting x) ;;
    if fits free need
    then lift (upd x (set_x_detail (Some ("fit ok after stopping " +:+ xt_id ext +:+ ": " +:+ free_text free +:+ " MiB free")))) ;;
         mret (inr None)
    else mret (inl free)).

Definition fitGate (x : nat) (fitMiB : option Z) (stopExternal : option string) (requireKnown : bool) : Async unit :=
  match truthy_opt fitMiB with
  | None => mret tt
  | Some need =>
      r ← await W_freeRam; free ← settle_result r;
      lift (assertStarting x) ;;
      match free with
      | None => if requireKnown then athrow "native fit gate: free RAM unknown" else mret tt
      | Some _ =>
          if fits free need
          then lift (upd x (set_x_detail (Some ("fit ok: " +:+ free_text free +:+ " MiB free >= " +:+ pretty need)))) else
          match truthy_str stopExternal with
          | None => athrow ("does not fit: " +:+ free_text free +:+ " MiB free, need " +:+ pretty need +:+ "; no external service to stop")
          | Some name =>
              m ← lift mget;
              match find (fun e => String.eqb (xt_id e) name) (nc_externals (cfg m)) with
              | None => athrow ("does not fit and external service '" +:+ name +:+ "' is not registered on this node")
              | Some ext =>
                  stop_external x ext (now m + 1200000) ;;
                  lift (upd x (set_x_stoppedExternal (Some ext))) ;;
                  late ← await_memory x ext need free;
                  match late with
                  | None => mret tt
                  | Some free => athrow ("does not fit even after stopping " +:+ xt_id ext +:+ ": " +:+ free_text free +:+
                                         " MiB free, need " +:+ pretty need)
                  end
              end
          end
      end
  end.

Definition safe_int (z : Z) : bool := Z.abs z <=? MAX_SAFE_INTEGER.
(** outside [1, offered] *)
Definition over (z offered : Z) : bool := negb (safe_int z) || (z <? 1) || (offered <? z).

(** [spawn] *)
Definition start_engine (x : nat) (unit_ : string) (argv : list string) (env : list (string * string)) (limits : option Enforce) : Async unit :=
  m ← lift mget;
  let offer := nc_offer (cfg m) in
  let ram := default (of_ramMiB offer) (limits ≫= ef_ramMiB) in
  let cpu := default (of_cpuCores offer) (limits ≫= ef_cpuCores) in
  if over ram (of_ramMiB offer) || over cpu (of_cpuCores offer)
  then athrow "assignment allocation exceeds this node's current offer" else
  enf ← enforce ("swarmlet-" +:+ unit_) argv (ram, cpu);
  lift (assertStarting x) ;;
  lift (upd x (set_x_detail (Some (en_summary enf)))) ;;
  m ← lift mget;
  let p := length (procs m) in
  lift (mmodify (fun m => set_procs (procs m ++
    [{| pr_name := unit_; pr_owner := x; pr_pid := None; pr_exited := false; pr_exit := None; pr_stopping := false;
        pr_signals := []; pr_identity := None; pr_lines := []; pr_limits := (ram, cpu) |}]) m)) ;;
  lift (upd x (set_x_proc (Some p))) ;;
  lift (proc_start p (en_argv enf) env) ;;
  lift (if en_watch enf then upd x (set_x_watching true) else mret tt) ;;
  lift persist.

(** The process of an assignment that was spawned *)
Definition own_proc (m : Agent) (x : nat) : nat := default 0%nat (x_proc (rec m x)).
Definition tail (m : Agent) (x : nat) : string :=
  last_chars 600 (String.concat " | " (match proc_of m (rec m x) with Some p => lastn 6 (pr_lines p) | None => [] end)).

Definition health_url (port : Z) : string := "http://127.0.0.1:" +:+ pretty port +:+ "/health".
Definition LOAD_TIMEOUT_MS : Z := 60 * 60 * 1000.
Definition PORT_TIMEOUT_MS : Z := 3 * 60 * 1000.

Definition make_directory (dir : string) : Sync unit :=
  mmodify (fun m => if bool_decide (dir ∈ dirs m) then m else set_dirs (dir :: dirs m) m).

Definition startStage (x : nat) (a : StageAssignment) : Async unit :=
  m ← lift mget;
  argv ← settle_result (stageArgv (h_join host) (h_os host) (nc_enginePath (cfg m)) a (h_stateDir host));
  r ← await (W_sha256 (default "" (head argv)));
  sha ← settle_result r;
  if negb (String.eqb sha (sa_binarySha256 a)) then athrow "native binary differs from qualified assignment" else
  lift (assertStarting x) ;;
  fitGate x (sa_fitMiB a) None true ;;
  lift (assertStarting x) ;;
  r ← await (W_portFree (sa_port a)); settle_result r ;;
  lift (assertStarting x) ;;
  dir ← settle_result (stage_directory (sa_id a));
  lift (make_directory dir) ;;
  start_engine x ("stage-" +:+ sa_id a) argv []
    (Some {| ef_ramMiB := Some (sa_enforce_ramMiB a); ef_cpuCores := Some (sa_enforce_cpuCores a) |}) ;;
  m ← lift mget;
  lift (set_state x a_loading (x_detail (rec m x))) ;;
  ok ← waitForHealth (health_url (sa_port a)) (Some (own_proc m x)) LOAD_TIMEOUT_MS;
  m ← lift mget;
  if negb (ok : bool) then athrow ("native worker not healthy: " +:+ tail m x) else
  lift (assertStarting x) ;;
  r ← await (W_json (health_url (sa_port a))); status ← settle_result r;
  settle_result (assertStageHealth status (sa_identity a) (sa_binarySha256 a)) ;;
  m ← lift mget;
  settle_result (assertStageProcess (h_os host) (h_parent host (now m))
    (object_fields status ≫= fun o => jget o "pid") (proc_of m (rec m x) ≫= pr_pid)) ;;
  lift (assertStarting x) ;;
  lift (set_state x a_ready (x_detail (rec m x))).

(** [x.dialer.open(e)] *)
Definition dialer_open (x : nat) (e : Endpoint) : Async Z :=
  r ← await (W_listen e); port ← settle_result r;
  lift (upd x (fun r => set_x_dialer ((fun d => {| dl_servers := dl_servers d ++ [port]; dl_memo := dl_memo d |}) <$> x_dialer r) r)) ;;
  mret port.

Fixpoint set_port (k : string) (v : Z) (l : list (string * Z)) : list (string * Z) :=
  match l with
  | [] => [(k, v)]
  | (k', v') :: l => if String.eqb k' k then (k, v) :: l else (k', v') :: set_port k v l
  end.

(** [for (..) { assertStarting(x); const lp = await x.dialer.open(e); assertStarting(x); ports.push(lp.port); x.ports[name] = lp.port }] *)
Fixpoint open_all (x : nat) (l : list (string * Endpoint)) : Async (list Z) :=
  match l with
  | [] => mret []
  | (name, e) :: l =>
      lift (assertStarting x) ;;
      port ← dialer_open x e;
      lift (assertStarting x) ;;
      lift (upd x (fun r => set_x_ports (set_port name port (x_ports r)) r)) ;;
      ports ← open_all x l;
      mret (port :: ports)
  end.

(** [x.serveDialer.start(target, port)]: its first fill goes on as a job. *)
Definition start_serving (x : nat) (target : Endpoint) (port : Z) : Sync unit :=
  let '(d, want) := sd_start target port (newServeDialer (Some 6)) in
  upd x (set_x_serve (Some d)) ;;
  match want with Some n => spawn (KFill x n) ;; mret tt | None => mret tt end.

Definition is_space (a : Ascii.ascii) : bool := let n := Ascii.nat_of_ascii a in ((n =? 32) || ((9 <=? n) && (n <=? 13)))%nat.
Fixpoint trim_start (s : string) : string :=
  match s with String a s' => if is_space a then trim_start s' else s | EmptyString => s end.
(** [s.trim() || undefined] *)
Definition trimmed (s : string) : option string :=
  truthy_str (Some (String.rev (trim_start (String.rev (trim_start s))))).

Definition startWorker (x : nat) (a : WorkerAssignment) : Async unit :=
  m ← lift mget;
  let engine := nc_enginePath (cfg m) in
  peerPorts ← (match default [] (wa_peers a) with
    | [] => mret []
    | peers =>
        lift (upd x (set_x_dialer (Some newDialer))) ;;
        open_all x ((fun p : Z * Endpoint => ("peer" +:+ pretty p.1, p.2)) <$> peers)
    end);
  let recipe := workerArgv (h_os host) engine a peerPorts in
  start_engine x ("worker-" +:+ wa_id a) (rp_argv recipe) (rp_env recipe) (wa_enforce a) ;;
  m ← lift mget;
  up ← waitForPort (wa_port a) (own_proc m x) PORT_TIMEOUT_MS;
  m ← lift mget;
  if negb (up : bool) then athrow ("rpc-server did not listen on " +:+ pretty (wa_port a) +:+ ": " +:+ tail m x) else
  (match wa_serve a with Some target => lift (start_serving x target (wa_port a)) | None => mret tt end) ;;
  lift (set_state x listening (trimmed (default "" (x_detail (rec m x))))).

(** [[x.detail, paths].filter(Boolean).join("; ")] *)
Definition ready_detail (detail : option string) (paths : string) : string :=
  String.concat "; " (omap truthy_str [detail; Some paths]).

Definition startCoordinator (x : nat) (a : CoordinatorAssignment) : Async unit :=
  m ← lift mget;
  let engine := nc_enginePath (cfg m) in
  fitGate x (ca_fitMiB a) (ca_stopExternal a) false ;;
  lift (assertStarting x) ;;
  lift (upd x (set_x_dialer (Some newDialer))) ;;
  rpcPorts ← open_all x (imap (fun i e => ("rpc" +:+ pretty (Z.of_nat i), e)) (ca_rpc a));
  recipe ← settle_result (coordinatorArgv (h_os host) engine a rpcPorts);
  start_engine x ("coordinator-" +:+ ca_id a) (rp_argv recipe) (rp_env recipe) (ca_enforce a) ;;
  m ← lift mget;
  lift (set_state x a_loading (x_detail (rec m x))) ;;
  ok ← waitForHealth (health_url (ca_port a)) (Some (own_proc m x)) LOAD_TIMEOUT_MS;
  m ← lift mget;
  if negb (ok : bool) then athrow ("llama-server not healthy: " +:+ tail m x) else
  let paths := String.concat " " (imap (fun i e => "rpc" +:+ pretty (Z.of_nat i) +:+ "=" +:+
                 match x_dialer (rec m x) with Some d => currentPath d e | None => "unknown" end) (ca_rpc a)) in
  lift (set_state x a_ready (Some (ready_detail (x_detail (rec m x)) paths))).

(** [url.replace(/\/$/, "")] *)
Definition drop_slash (s : string) : string :=
  let n := String.length s in
  if String.eqb (String.substring (n - 1) 1 s) "/" then String.substring 0 (n - 1) s else s.

(** The health check of an external server *)
Definition check (x : nat) (ext : ExternalServer) : Async unit :=
  ok ← waitForHealth (drop_slash (ex_url ext) +:+ ex_healthPath ext) None 2500;
  r ← lift (get_rec x);
  let next := if ok : bool then a_ready else a_failed in
  if bool_decide (x_state r = next) then mret tt else
  lift (set_state x next (Some ("external " +:+ ex_url ext +:+ if ok : bool then "" else " unhealthy"))).

Definition startReplica (x : nat) (a : ReplicaAssignment) : Async unit :=
  match ra_external a with
  | Some ext =>
      check x ext ;;
      lift (assertStarting x) ;;
      lift (upd x (set_x_healthTimer true))
  | None =>
      m ← lift mget;
      let offer := nc_offer (cfg m) in
      let ram := default (of_ramMiB offer) (ra_enforce a ≫= ef_ramMiB) in
      let cpu := default (of_cpuCores offer) (ra_enforce a ≫= ef_cpuCores) in
      if (ram <=? 0) || (cpu <? 1) then athrow "replica needs a positive RAM budget and at least one CPU core" else
      if negb (safe_int ram) || negb (safe_int cpu) || (of_ramMiB offer <? ram) || (of_cpuCores offer <? cpu)
      then athrow "replica allocation exceeds this node's current offer" else
      let engine := nc_enginePath (cfg m) in
      fitGate x (ra_fitMiB a) (ra_stopExternal a) false ;;
      recipe ← settle_result (replicaArgv (h_os host) engine a (Some cpu));
      start_engine x ("replica-" +:+ ra_id a) (rp_argv recipe) (rp_env recipe)
        (Some {| ef_ramMiB := Some ram; ef_cpuCores := Some cpu |}) ;;
      m ← lift mget;
      lift (set_state x a_loading None) ;;
      ok ← waitForHealth (health_url (ra_port a)) (Some (own_proc m x)) LOAD_TIMEOUT_MS;
      m ← lift mget;
      if negb (ok : bool) then athrow ("llama-server not healthy: " +:+ tail m x) else
      lift (set_state x a_ready (x_detail (rec m x)))
  end.

Definition start_role (x : nat) : Async unit :=
  r ← lift (get_rec x);
  match x_a r with
  | AWorker a => startWorker x a
  | ACoordinator a => startCoordinator x a
  | AStage a => startStage x a
  | AReplica a => startReplica x a
  | AStop _ => mret tt
  end.

(** [startTask] *)
Definition start_task (x : nat) : Async unit :=
  acatch (lift (assertStarting x) ;; start_role x)
    (fun e => r ← lift (get_rec x); if x_stopping r then mret tt else lift (fail x e)).

(** [handle] of an assignment other than a stop *)
Definition assign (a : Assignment) : Sync unit :=
  m ← mget;
  match active_get m (id_of a) with
  | Some x => report (id_of a) (x_state (rec m x)) (Some "already running") None
  | None =>
      let x := length (heap m) in
      mmodify (fun m => set_heap (heap m ++
        [{| x_a := a; x_registeredAt := now m / 1000; x_state := starting; x_detail := None; x_proc := None; x_dialer := None;
            x_serve := None; x_ports := []; x_watching := false; x_stoppedExternal := None; x_healthTimer := false;
            x_stopping := false; x_startTask := None; x_cleanupTask := None; x_stopTask := None |}]) m) ;;
      mmodify (fun m => set_active (active m ++ [(id_of a, x)]) m) ;;
      set_state x starting None ;;
      q ← spawn (KStart x);
      upd x (set_x_startTask (Some q))
  end.

(** ** Recovery *)

Definition snapshot_bad (s : AssignmentSnapshot) : bool := match ss_pid s with Some pid => pid <=? 0 | None => false end.

Definition recover_one (p : AssignmentSnapshot) : Async unit :=
  (match ss_pid p with
   | Some pid => if bool_decide (ss_kind p = k_stop) then mret tt else r ← await (W_retire pid (ss_processIdentity p)); settle_result r
   | None => mret tt
   end) ;;
  (if bool_decide (ss_kind p = k_stage) then remove_directory (ss_id p) else mret tt) ;;
  match truthy_str (ss_stoppedExternalId p) with
  | None => mret tt
  | Some id =>
      m ← lift mget;
      match find (fun e => String.eqb (xt_id e) id) (nc_externals (cfg m)) with
      | None => athrow ("cannot restore unregistered external " +:+ id)
      | Some ext =>
          out ← maintenance ext v_start;
          if out.1 =? 0 then mret tt else athrow ("external crash recovery failed: " +:+ xt_id ext)
      end
  end.

Definition recover : Async unit :=
  m ← lift mget;
  match disk m with
  | NoFile => mret tt
  | Unreadable => athrow "invalid assignment ownership snapshot; refusing to discard recovery state"
  | Saved prev =>
      if existsb snapshot_bad prev then athrow "invalid assignment ownership snapshot; refusing to discard recovery state" else
      afor prev recover_one ;; lift persist
  end.

(** ** Jobs *)

Definition fill_rest (x : nat) (want : Z) : Async unit :=
  socks ← await (W_streams want);
  lift (upd x (fun r => set_x_serve (fill_end socks <$> x_serve r) r)).

Definition job_body (self : nat) (j : Job) : Async unit :=
  match j with
  | KStart x => start_task x
  | KCleanup x s => cleanup_rest x s
  | KForget x q => acatch (await_promise q) (fun _ => lift (upd x (set_x_cleanupTask None)))
  | KAfterFail x q => acatch (await_promise q ;; lift persist) (fun _ => mret tt)
  | KStop id => acatch (stop self id "stopped by control")
                  (fun e => lift (report id a_failed (Some ("cleanup incomplete: " +:+ e)) None))
  | KStopBody x id why q _ => stop_rest x id why q
  | KCheck x => r ← lift (get_rec x);
      match x_a r with AReplica a => match ra_external a with Some ext => check x ext | None => mret tt end | _ => mret tt end
  | KKill p => s ← lift (proc_stop_begin p 5000); wait_stopped s
  | KFill x want => fill_rest x want
  | KStopAll => stopAll self
  | KRecover => recover
  end.

(** ** The machine *)

Record Machine := { agent : Agent; pool : gmap nat (Step unit) }.

(** A segment of call [q] has run. *)
Definition advance (q : nat) (r : Step unit * Agent) (s : Machine) : Machine :=
  match r with
  | (Fin r, m) =>
      {| agent := set_promises (alter (fun jr => (jr.1, Some r)) q (promises m)) m; pool := delete q (pool s) |}
  | (st, m) => {| agent := m; pool := <[q := st]> (pool s) |}
  end.

Definition launch (j : Job) (s : Machine) : Machine :=
  let q := length (promises (agent s)) in
  advance q (job_body q j (set_promises (promises (agent s) ++ [(j, None)]) (agent s))) s.

Inductive Answer :=
  | N_none
  | N_unit (r : result string unit)
  | N_text (r : result string string)
  | N_ram (r : result string (option num))
  | N_bool (b : bool)
  | N_json (r : result string json)
  | N_port (r : result string Z)
  | N_output (r : result string (Z * string))
  | N_streams (l : list (option nat)).

(** The answer an await gets, when it can get one now. *)
Definition answer (m : Agent) (w : Wait) (a : Answer) : option (ans w) :=
  match w, a return option (ans w) with
  | W_promise q, _ => settled m q
  | W_exit p, _ => if exited m p then Some tt else None
  | W_sleep until, _ => if until <=? now m then Some tt else None
  | W_sha256 _, N_text r => Some r
  | W_freeRam, N_ram r => Some r
  | W_portFree _, N_unit r => Some r
  | W_retire _ _, N_unit r => Some r
  | W_systemd, N_bool b => Some b
  | W_connect _, N_bool b => Some b
  | W_http _, N_bool b => Some b
  | W_json _, N_json r => Some r
  | W_listen _, N_port r => Some r
  | W_maintenance _ _, N_output r => Some r
  | W_streams _, N_streams l => Some l
  | _, _ => None
  end.

Inductive Turn :=
  | Assign (a : Assignment)
  | Exited (p : nat) (code : option Z) (signal : option string)
  | Output (p : nat) (line : string)
  | HealthTimer (x : nat)
  | Watchdog (x : nat) (reason : string)
  | ServeTimer (x : nat)
  | StreamClosed (x sock : nat)
  | PathKnown (x : nat) (key : string) (path : Path)
  | SetOffer (offer : Offer)
  | Disk (ok : bool)
  | Elapse (ms : Z)
  | Shutdown
  | Recover
  | Begin (q : nat)
  | Resume (q : nat) (a : Answer).

(** The callback of a process's [exited] *)
Definition on_exit (p : nat) (code : option Z) (signal : option string) : Sync unit :=
  m ← mget;
  match procs m !! p with
  | Some pr =>
      if negb (pr_running pr) then mret tt else
      upd_proc p (fun pr => set_pr_exited true (set_pr_exit (Some (code, signal)) pr)) ;;
      let x := pr_owner pr in
      upd x (set_x_watching false) ;;
      m ← mget;
      if negb (x_stopping (rec m x)) && negb (bool_decide (x_state (rec m x) = a_failed)) then
        fail x ("engine exited (code " +:+ match code with Some c => pretty c | None => "null" end +:+
                match signal with Some s => ", " +:+ s | None => "" end +:+ "): " +:+ tail m x)
      else mret tt
  | None => mret tt
  end.

(** The interval of a serving worker fires. *)
Definition serve_timer (x : nat) : Sync unit :=
  m ← mget;
  match x_serve (rec m x) with
  | Some d =>
      if negb (sv_running d) then mret tt else
      let '(d, want) := fill_begin d in
      upd x (set_x_serve (Some d)) ;;
      match want with Some n => spawn (KFill x n) ;; mret tt | None => mret tt end
  | None => mret tt
  end.

Fixpoint set_path (k : string) (v : Path) (l : list (string * Path)) : list (string * Path) :=
  match l with
  | [] => [(k, v)]
  | (k', v') :: l => if String.eqb k' k then (k, v) :: l else (k', v') :: set_path k v l
  end.

Definition sync_turn (t : Turn) : Sync unit :=
  match t with
  | Assign a => assign a
  | Exited p code signal => on_exit p code signal
  | Output p line => upd_proc p (push_line line)
  | HealthTimer x => m ← mget; if x_healthTimer (rec m x) then spawn (KCheck x) ;; mret tt else mret tt
  | Watchdog x reason =>
      m ← mget;
      match x_proc (rec m x) with
      | Some p => if x_watching (rec m x) then upd x (set_x_detail (Some reason)) ;; spawn (KKill p) ;; mret tt else mret tt
      | None => mret tt
      end
  | ServeTimer x => serve_timer x
  | StreamClosed x sock => upd x (fun r => set_x_serve (sd_closed sock <$> x_serve r) r)
  | PathKnown x key path =>
      upd x (fun r => set_x_dialer ((fun d => {| dl_servers := dl_servers d; dl_memo := set_path key path (dl_memo d) |}) <$> x_dialer r) r)
  | SetOffer next =>
      m ← mget;
      of_result (assertOfferChange m next) ;;
      mmodify (fun m => set_cfg {| nc_offer := next; nc_enginePath := nc_enginePath (cfg m); nc_externals := nc_externals (cfg m) |} m)
  | Disk ok => mmodify (set_diskOk ok)
  | Elapse ms => mmodify (fun m => set_now (now m + Z.max 0 ms) m)
  | Shutdown | Recover | Begin _ | Resume _ _ => mret tt
  end.

Definition handle (s : Machine) (t : Turn) : Machine :=
  match t with
  | Assign (AStop a) => launch (KStop (so_id a)) s
  | Shutdown => launch KStopAll s
  | Recover => launch KRecover s
  | Begin q =>
      match promises (agent s) !! q, pool s !! q with
      | Some (j, None), None => advance q (job_body q j (agent s)) s
      | _, _ => s
      end
  | Resume q a =>
      match pool s !! q with
      | Some (Susp w k) => match answer (agent s) w a with Some r => advance q (k r (agent s)) s | None => s end
      | _ => s
      end
  | _ => {| agent := (sync_turn t (agent s)).2; pool := pool s |}
  end.

Definition run (s : Machine) (l : list Turn) : Machine := foldl handle s l.

(** A new agent over the state directory *)
Definition boot (c : NodeConfig) (file : StateFile) (t : Z) : Machine :=
  {| agent := {| heap := []; active := []; procs := []; promises := []; cfg := c; now := t; disk := file; diskOk := true;
                 dirs := []; reports := [] |};
     pool := ∅ |}.
End agent.
