(* ===== verification/AgentInv.v ===== *)
(** * The node agent: its invariant, and what every write keeps of it

    [Inv] is the invariant of the agent between turns; [Inv (Some q)] leaves out what it says of call [q], whose last
    segment is running.  [later] is how any turn may change the state; [extra t] is what only call [t] itself may
    change, so a call relies on [later] and [extra] of its own and guarantees [later] and [extra] of the
    others.  The lemmas of this file are the writes of the runner: each keeps the invariant and is a
    guarantee. *)

From S2P Require Import Prelude Async Rules JsNum Json Types Recipes Identity ServeDial AgentState Agent.

Local Open Scope list_scope.
Local Open Scope Z_scope.

Definition job (m : Agent) (q : nat) : option Job := fst <$> promises m !! q.
Definition is_active (m : Agent) (x : nat) : Prop := x ∈ (active m).*2.

Definition proc_quiet (m : Agent) (o : option nat) : Prop := match o with Some p => is_running m p = false | None => True end.
Definition finished (m : Agent) (o : option nat) : Prop := match o with Some q => settled m q <> None | None => True end.

Definition dialer_closed (r : Active) : Prop := match x_dialer r with Some d => dl_servers d = [] | None => True end.
Definition serving_over (r : Active) : Prop := match x_serve r with Some d => sv_running d = false /\ sv_open d = [] | None => True end.

(** An assignment of which nothing is left: its start is over, its engine is gone, its transports are closed, its
    intervals are cleared, and the external service it stopped runs again. *)
Record at_rest (m : Agent) (r : Active) : Prop := {
  ar_stopping : x_stopping r = true;
  ar_start : finished m (x_startTask r);
  ar_proc : proc_quiet m (x_proc r);
  ar_watching : x_watching r = false;
  ar_timer : x_healthTimer r = false;
  ar_dialer : dialer_closed r;
  ar_serve : serving_over r;
  ar_external : x_stoppedExternal r = None }.

Lemma at_rest_moves m m' r : (forall q, settled m q <> None -> settled m' q <> None) ->
  (proc_quiet m (x_proc r) -> proc_quiet m' (x_proc r)) -> at_rest m r -> at_rest m' r.
Proof. intros Hs Hp []. constructor; auto. by destruct (x_startTask r); cbn in *; auto. Qed.

(** ** How the state moves *)

(** What is shut stays so. *)
Record shut (r r' : Active) : Prop := {
  sh_dialer : dialer_closed r -> dialer_closed r';
  sh_serve : serving_over r -> serving_over r';
  sh_timer : x_healthTimer r = false -> x_healthTimer r' = false;
  sh_external : x_stoppedExternal r = None -> x_stoppedExternal r' = None }.

Record rec_later (m m' : Agent) (r r' : Active) : Prop := {
  rl_a : x_a r' = x_a r;
  rl_start : forall q, x_startTask r = Some q -> x_startTask r' = Some q;
  rl_stopping : x_stopping r = true ->
    x_stopping r' = true /\ x_proc r' = x_proc r /\ x_startTask r' = x_startTask r /\
    (x_watching r = false -> x_watching r' = false) /\ (proc_quiet m (x_proc r) -> proc_quiet m' (x_proc r'));
  rl_finished : finished m (x_startTask r) -> finished m' (x_startTask r);
  rl_shut : x_stopping r = true -> finished m (x_startTask r) -> shut r r' }.

Definition offer_of (m : Agent) : Offer := nc_offer (cfg m).

Record proc_later (p p' : Proc) : Prop := {
  pl_owner : pr_owner p' = pr_owner p; pl_limits : pr_limits p' = pr_limits p;
  pl_exited : pr_exited p = true -> pr_exited p' = true }.

Record later (m m' : Agent) : Prop := {
  lt_heap : forall x r, heap m !! x = Some r -> exists r', heap m' !! x = Some r' /\ rec_later m m' r r';
  lt_job : forall q j, job m q = Some j -> job m' q = Some j;
  lt_settled : forall q v, settled m q = Some v -> settled m' q = Some v;
  lt_procs : forall p pr, procs m !! p = Some pr -> exists pr', procs m' !! p = Some pr' /\ proc_later pr pr';
  lt_active : forall x r, heap m !! x = Some r -> is_active m' x -> is_active m x;
  lt_offer : forall x r, heap m !! x = Some r -> managed (x_a r) = true -> is_active m' x ->
    of_ramMiB (offer_of m) <= of_ramMiB (offer_of m') /\ of_cpuCores (offer_of m) <= of_cpuCores (offer_of m');
  lt_now : now m <= now m' }.

(** [x], started by [t], has no engine. *)
Definition unstarted (t x : nat) (m : Agent) : Prop := exists r, heap m !! x = Some r /\ x_startTask r = Some t /\ x_proc r = None.

(** What only call [t] changes: the process of the assignment it starts, the [stopTask] it waits for, and its own
    promise; and a call that starts an assignment is made before its engine. *)
Record extra (t : nat) (m m' : Agent) : Prop := {
  ex_rec : forall x r r', heap m !! x = Some r -> heap m' !! x = Some r' ->
    (x_startTask r = Some t -> x_proc r' = x_proc r) /\
    (forall p id why q, x_stopTask r = Some p -> job m p = Some (KStopBody x id why q t) -> x_stopTask r' = Some p);
  ex_pending : settled m t = None -> settled m' t = None;
  ex_fresh : forall x, job m t = None -> job m' t = Some (KStart x) -> unstarted t x m' }.

Definition rely_rel (t : nat) (m m' : Agent) : Prop := later m m' /\ extra t m m'.
Definition guar_rel (o : option nat) (m m' : Agent) : Prop := later m m' /\ forall t, o <> Some t -> extra t m m'.

Lemma shut_refl r : shut r r.
Proof. by constructor. Qed.
Lemma shut_trans r1 r2 r3 : shut r1 r2 -> shut r2 r3 -> shut r1 r3.
Proof. intros [] []. constructor; auto. Qed.

Lemma rl_rest m m' r r' : rec_later m m' r r' -> at_rest m r -> at_rest m' r'.
Proof.
  intros [Ha Hs Ht Hf Hsh] []. destruct (Ht ar_stopping0) as (H1 & H2 & H3 & H4 & H5), (Hsh ar_stopping0 ar_start0).
  constructor; [done|rewrite H3; auto|auto..].
Qed.
Lemma rec_later_same m m' r : (forall q, settled m q <> None -> settled m' q <> None) ->
  (proc_quiet m (x_proc r) -> proc_quiet m' (x_proc r)) -> rec_later m m' r r.
Proof.
  intros H1 H2. constructor; [done..| | |intros _ _; apply shut_refl]; [intros Hst; by split_and!|].
  destruct (x_startTask r); [apply H1|done].
Qed.
Lemma rec_later_refl m r : rec_later m m r r.
Proof. by apply rec_later_same. Qed.
Lemma rec_later_trans m1 m2 m3 r1 r2 r3 : rec_later m1 m2 r1 r2 -> rec_later m2 m3 r2 r3 -> rec_later m1 m3 r1 r3.
Proof.
  intros [A1 S1 T1 F1 R1] [A2 S2 T2 F2 R2].
  assert (finished m1 (x_startTask r1) -> finished m3 (x_startTask r1)) as HF.
  { intros H. destruct (x_startTask r1) as [q|] eqn:Hq; [|done]. rewrite (S1 q eq_refl) in F2. auto. }
  constructor; [congruence|auto| |done|].
  - intros H. destruct (T1 H) as (H1 & H2 & H3 & H4 & H5), (T2 H1) as (G1 & G2 & G3 & G4 & G5).
    split_and!; [done|congruence|congruence|auto|auto].
  - intros H Hf. destruct (T1 H) as (H1 & _ & H3 & _). eapply shut_trans; [by apply R1|]. apply R2; [done|]. rewrite H3. auto.
Qed.

#[export] Instance later_preorder : PreOrder later.
Proof.
  split.
  - intros m. constructor; try done.
    + intros x r Hr. exists r. split; [done|apply rec_later_refl].
    + intros p pr Hp. exists pr. by split.
  - intros m1 m2 m3 H1 H2. constructor.
    + intros x r Hr. destruct (lt_heap _ _ H1 x r Hr) as (r2 & Hr2 & L1). destruct (lt_heap _ _ H2 x r2 Hr2) as (r3 & Hr3 & L2).
      exists r3. split; [done|]. by eapply rec_later_trans.
    + intros q j Hq. by apply (lt_job _ _ H2), (lt_job _ _ H1).
    + intros q v Hq. by apply (lt_settled _ _ H2), (lt_settled _ _ H1).
    + intros p pr Hp. destruct (lt_procs _ _ H1 p pr Hp) as (p2 & Hp2 & [? ? ?]). destruct (lt_procs _ _ H2 p p2 Hp2) as (p3 & Hp3 & [? ? ?]).
      exists p3. split; [done|]. constructor; [congruence..|auto].
    + intros x r Hr Ha. apply (lt_active _ _ H1 x r Hr). destruct (lt_heap _ _ H1 x r Hr) as (r2 & Hr2 & _).
      by apply (lt_active _ _ H2 x r2 Hr2).
    + intros x r Hr Hm Ha. destruct (lt_heap _ _ H1 x r Hr) as (r2 & Hr2 & L1).
      pose proof (lt_active _ _ H2 x r2 Hr2 Ha) as Ha2. destruct (lt_offer _ _ H1 x r Hr Hm Ha2).
      rewrite <-(rl_a _ _ _ _ L1) in Hm. destruct (lt_offer _ _ H2 x r2 Hr2 Hm Ha). lia.
    + pose proof (lt_now _ _ H1). pose proof (lt_now _ _ H2). lia.
Qed.

Lemma extra_refl t m : extra t m m.
Proof. constructor; [|done|congruence]. intros x r r' H1 H2. rewrite H1 in H2. injection H2 as <-. done. Qed.
Lemma unstarted_moves t x m m' : later m m' -> extra t m m' -> unstarted t x m -> unstarted t x m'.
Proof.
  intros L E (r & Hr & Hs & Hp). destruct (lt_heap _ _ L x r Hr) as (r' & Hr' & L'). exists r'.
  split_and!; [done|by apply (rl_start _ _ _ _ L')|]. destruct (ex_rec _ _ _ E x r r' Hr Hr') as [H _]. by rewrite H.
Qed.
Lemma extra_trans t m1 m2 m3 : later m1 m2 -> later m2 m3 -> extra t m1 m2 -> extra t m2 m3 -> extra t m1 m3.
Proof.
  intros L L2 E1 E2. constructor.
  - intros x r r3 H1 H3. destruct (lt_heap _ _ L x r H1) as (r2 & H2 & L').
    destruct (ex_rec _ _ _ E1 x r r2 H1 H2) as [P1 S1], (ex_rec _ _ _ E2 x r2 r3 H2 H3) as [P2 S2]. split.
    + intros Ht. rewrite P2; [auto|]. by apply (rl_start _ _ _ _ L').
    + intros p id why q Hp Hj. eapply S2; [by eapply S1|]. by apply (lt_job _ _ L).
  - intros H. by apply (ex_pending _ _ _ E2), (ex_pending _ _ _ E1).
  - intros x H1 H3. destruct (job m2 t) as [j|] eqn:H2.
    + rewrite (lt_job _ _ L2 t j H2) in H3. injection H3 as ->. eapply unstarted_moves; [done..|]. by apply (ex_fresh _ _ _ E1).
    + by apply (ex_fresh _ _ _ E2).
Qed.

#[export] Instance rely_preorder t : PreOrder (rely_rel t).
Proof.
  split.
  - intros m. split; [done|apply extra_refl].
  - intros m1 m2 m3 [L1 E1] [L2 E2]. split; [by etrans|]. by apply (extra_trans t m1 m2 m3).
Qed.
#[export] Instance guar_preorder o : PreOrder (guar_rel o).
Proof.
  split.
  - intros m. split; [done|]. intros t _. apply extra_refl.
  - intros m1 m2 m3 [L1 E1] [L2 E2]. split; [by etrans|]. intros t Ht. apply (extra_trans t m1 m2 m3); auto.
Qed.
Definition rely (t : nat) : Moves Agent := {| moves_rel := rely_rel t |}.
Definition guar (o : option nat) : Moves Agent := {| moves_rel := guar_rel o |}.

Lemma guar_rely o t m m' : o <> Some t -> guar o m m' -> rely t m m'.
Proof. intros Hne [L E]. split; [done|]. by apply E. Qed.
Lemma guar_weaken o m m' : guar None m m' -> guar o m m'.
Proof. intros [L E]. split; [done|]. intros t _. by apply E. Qed.

(** ** The invariant *)

Definition last_report (m : Agent) (id : string) : option AssignmentReport := find (fun rt => String.eqb (rt_id rt) id) (reports m).

(** A process may use no more than the owner offers. *)
Definition limits_ok (o : Offer) (l : Z * Z) : Prop := 1 <= l.1 <= of_ramMiB o /\ 1 <= l.2 <= of_cpuCores o.

Record Inv (e : option nat) (m : Agent) : Prop := {
  iv_active : forall id x, (id, x) ∈ active m -> exists r, heap m !! x = Some r /\ id_of (x_a r) = id;
  iv_keys : NoDup (active m).*1;
  iv_retired : forall x r, heap m !! x = Some r -> is_active m x \/ at_rest m r;
  iv_state : forall x r, heap m !! x = Some r -> x_state r <> a_stopped;
  iv_start : forall x r q, heap m !! x = Some r -> x_startTask r = Some q -> job m q = Some (KStart x);
  iv_started : forall q x, e <> Some q -> job m q = Some (KStart x) -> exists r, heap m !! x = Some r /\ x_startTask r = Some q;
  iv_cleaning : forall x r q, heap m !! x = Some r -> x_cleanupTask r = Some q -> exists s, job m q = Some (KCleanup x s);
  iv_cleanup : forall q x s, job m q = Some (KCleanup x s) -> exists r, heap m !! x = Some r /\
    x_stopping r = true /\ x_watching r = false /\
    match s with Some (p, _) => x_proc r = Some p | None => proc_quiet m (x_proc r) end /\
    (settled m q = Some (Ok tt) -> at_rest m r);
  iv_stopTask : forall x r p, heap m !! x = Some r -> x_stopTask r = Some p ->
    exists id why q t, job m p = Some (KStopBody x id why q t);
  iv_stop : forall p x id why q t, job m p = Some (KStopBody x id why q t) -> exists r s, heap m !! x = Some r /\
    id_of (x_a r) = id /\ job m q = Some (KCleanup x s) /\
    (e <> Some p -> settled m p = None -> x_stopTask r = Some p /\ is_active m x);
  iv_reports : forall id rt, last_report m id = Some rt -> rt_state rt = a_stopped -> id ∉ (active m).*1;
  iv_owner : forall p pr, procs m !! p = Some pr ->
    exists r, heap m !! pr_owner pr = Some r /\ x_proc r = Some p /\ managed (x_a r) = true;
  iv_limits : forall p pr, procs m !! p = Some pr -> is_active m (pr_owner pr) -> limits_ok (offer_of m) (pr_limits pr);
  iv_proc : forall x r p, heap m !! x = Some r -> x_proc r = Some p -> exists pr, procs m !! p = Some pr /\ pr_owner pr = x }.

Lemma inv_exclude e m : Inv None m -> Inv e m.
Proof.
  intros H. pose proof H as []. constructor; try done; [intros q x _; by apply (iv_started _ _ H)|]. intros p x id why q t Hp.
  destruct (iv_stop _ _ H p x id why q t Hp) as (r & s & H1 & H2 & H3 & H4). exists r, s. split_and!; [done..|].
  intros _. by apply H4.
Qed.

(** ** Active assignments *)

Lemma active_find (l : list (string * nat)) id x : NoDup l.*1 ->
  (snd <$> find (fun kv => String.eqb kv.1 id) l) = Some x <-> (id, x) ∈ l.
Proof.
  intros Hnd. split.
  - destruct (find _ l) as [[k y]|] eqn:Hf; [|done]. intros [= ->]. apply find_Some in Hf as [Hin Heq].
    apply String.eqb_eq in Heq. cbn in Heq. by subst.
  - induction l as [|[k y] l IH]; [by intros ?%elem_of_nil|]. cbn. apply NoDup_cons in Hnd as [Hni Hnd].
    intros [[= -> ->]|Hin]%elem_of_cons; [by rewrite String.eqb_refl|]. destruct (String.eqb_spec k id) as [->|_]; [|by apply IH].
    destruct Hni. by apply (list_elem_of_fmap_2 fst _ (id, x)).
Qed.
Lemma active_get_spec e m id x : Inv e m -> active_get m id = Some x <-> (id, x) ∈ active m.
Proof. intros H. apply active_find, H. Qed.
Lemma active_get_None m id : active_get m id = None <-> id ∉ (active m).*1.
Proof.
  unfold active_get. split.
  - destruct (find _ _) as [?|] eqn:Hf; [done|]. intros _. rewrite find_None in Hf. intros [[k y] [-> Hin]]%list_elem_of_fmap.
    specialize (Hf _ Hin). cbn in Hf. by rewrite String.eqb_refl in Hf.
  - intros Hni. destruct (find _ _) as [[k y]|] eqn:Hf; [|done]. apply find_Some in Hf as [Hin Heq%String.eqb_eq]. cbn in Heq.
    subst k. destruct Hni. by apply (list_elem_of_fmap_2 fst _ (id, y)).
Qed.
Lemma is_active_get e m x r : Inv e m -> heap m !! x = Some r -> is_active m x <-> active_get m (id_of (x_a r)) = Some x.
Proof.
  intros HI Hr. rewrite (active_get_spec e) by done. unfold is_active. split.
  - intros [[id y] [-> Hin]]%list_elem_of_fmap. destruct (iv_active _ _ HI _ _ Hin) as (r' & Hr' & Hid).
    cbn in *. rewrite Hr in Hr'. injection Hr' as ->. by rewrite Hid.
  - intros Hin. by apply (list_elem_of_fmap_2 snd _ (id_of (x_a r), x)).
Qed.
Lemma rec_eq m x r : heap m !! x = Some r -> rec m x = r.
Proof. apply list_lookup_total_correct. Qed.

(** ** Writes to a record *)

(** What a write to the record [r] of [x] may do, when made by call [o]; [new] is a process it is given. *)
Record rec_write (o : option nat) (new : option Proc) (m : Agent) (x : nat) (r r' : Active) : Prop := {
  rw_a : x_a r' = x_a r;
  rw_start : x_startTask r' = x_startTask r \/
    (x_startTask r = None /\ x_stopping r = false /\ exists q, x_startTask r' = Some q /\ job m q = Some (KStart x));
  rw_proc : match new with
    | None => x_proc r' = x_proc r
    | Some pr => x_proc r = None /\ x_proc r' = Some (length (procs m)) /\ x_stopping r = false /\
        (exists t, o = Some t /\ x_startTask r = Some t) /\
        pr_owner pr = x /\ pr_pid pr = None /\ managed (x_a r) = true /\ limits_ok (offer_of m) (pr_limits pr)
    end;
  rw_state : x_state r' <> a_stopped;
  rw_stopping : x_stopping r = true -> x_stopping r' = true /\ (x_watching r = false -> x_watching r' = false);
  rw_cleanup : forall q, x_cleanupTask r' = Some q -> x_cleanupTask r = Some q \/ exists s, job m q = Some (KCleanup x s);
  rw_stop : x_stopTask r' = x_stopTask r \/
    (x_stopTask r' = None /\ forall p id why q t, x_stopTask r = Some p ->
      job m p = Some (KStopBody x id why q t) -> settled m p <> None /\ o = Some t) \/
    (x_stopTask r = None /\ exists p id why q t, x_stopTask r' = Some p /\ job m p = Some (KStopBody x id why q t));
  rw_shut : x_stopping r = true -> finished m (x_startTask r) -> shut r r' }.

Lemma rw_same_proc o new m x r r' : rec_write o new m x r r' -> x_stopping r = true \/ x_proc r <> None -> x_proc r' = x_proc r.
Proof. intros H Hc. pose proof (rw_proc _ _ _ _ _ _ H) as Hw. destruct new; [|done]. destruct Hw as (H1 & _ & H2 & _). destruct Hc; congruence. Qed.

Lemma rw_rest o new m x r r' : rec_write o new m x r r' -> at_rest m r -> at_rest m r'.
Proof.
  intros H []. destruct (rw_shut _ _ _ _ _ _ H ar_stopping0 ar_start0), (rw_stopping _ _ _ _ _ _ H ar_stopping0).
  destruct (rw_start _ _ _ _ _ _ H) as [Hs|(_ & Hs & _)]; [|congruence].
  constructor; [tauto|by rewrite Hs|by rewrite (rw_same_proc _ _ _ _ _ _ H) by (by left)|tauto|auto..].
Qed.

Lemma lookup_alter_list {A} (f : A -> A) x (l : list A) y :
  alter f x l !! y = if decide (x = y) then f <$> l !! y else l !! y.
Proof. destruct (decide (x = y)) as [->|Hne]; [by rewrite list_lookup_alter_eq|by rewrite list_lookup_alter_ne]. Qed.

Lemma lookup_snoc {A} (l : list A) z i y : (l ++ [z]) !! i = Some y <-> l !! i = Some y \/ i = length l /\ y = z.
Proof.
  rewrite lookup_app_Some, list_lookup_singleton_Some. split.
  - intros [H|(H1 & H2 & H3)]; [by left|right]. split; [lia|done].
  - intros [H|[-> ->]]; [by left|right]. split_and!; [done|lia|done].
Qed.

Section upd.
Context (o e : option nat) (new : option Proc) (m : Agent) (x : nat) (f : Active -> Active).
Hypothesis HI : Inv e m.
Hypothesis Hx : is_Some (heap m !! x).
Hypothesis HW : forall r, heap m !! x = Some r -> rec_write o new m x r (f r).
Let m' := set_procs (procs m ++ option_list new) (set_heap (alter f x (heap m)) m).

Lemma upd_old y r' : heap m' !! y = Some r' ->
  exists r, heap m !! y = Some r /\ (r' = r /\ y <> x \/ y = x /\ rec_write o new m x r r').
Proof using Type*.
  cbn. rewrite lookup_alter_list. destruct (decide (x = y)) as [<-|Hne]; [|by eauto 10].
  destruct (heap m !! x) as [r|] eqn:Hr; [|done]. cbn. intros [= <-]. exists r. split; [done|]. right. eauto.
Qed.
Lemma upd_new y r : heap m !! y = Some r ->
  exists r', heap m' !! y = Some r' /\ (r' = r /\ y <> x \/ y = x /\ rec_write o new m x r r').
Proof using Type*.
  intros Hr. cbn. rewrite lookup_alter_list. destruct (decide (x = y)) as [<-|Hne]; [|by eauto 10].
  rewrite Hr. cbn. exists (f r). split; [done|]. right. eauto.
Qed.

Lemma upd_procs p pr : procs m' !! p = Some pr <-> procs m !! p = Some pr \/ new = Some pr /\ p = length (procs m).
Proof.
  cbn. destruct new as [z|]; cbn; [|rewrite app_nil_r; naive_solver]. rewrite lookup_snoc. naive_solver.
Qed.
Lemma upd_running p : is_running m' p = is_running m p.
Proof using Type*.
  unfold is_running. destruct (procs m !! p) as [pr|] eqn:Hp.
  - assert (procs m' !! p = Some pr) as -> by (apply upd_procs; by left). done.
  - destruct (procs m' !! p) as [pr|] eqn:Hp'; [|done]. apply upd_procs in Hp' as [?|[Hn ->]]; [congruence|].
    destruct Hx as [r Hr]. pose proof (rw_proc _ _ _ _ _ _ (HW r Hr)) as H. rewrite Hn in H. unfold pr_running.
    by destruct H as (_ & _ & _ & _ & _ & -> & _).
Qed.
Lemma upd_quiet k : proc_quiet m k <-> proc_quiet m' k.
Proof using Type*. destruct k as [p|]; [|done]. cbn -[is_running]. by rewrite upd_running. Qed.
Lemma upd_rest r : at_rest m r -> at_rest m' r.
Proof using Type*. apply at_rest_moves; [done|]. apply upd_quiet. Qed.

Lemma upd_later : later m m'.
Proof using Type*.
  constructor; try done.
  - intros y r Hr. destruct (upd_new y r Hr) as (r' & Hr' & H). exists r'. split; [done|].
    destruct H as [[-> _]|(-> & H)]; [apply rec_later_same; [done|apply upd_quiet]|].
    pose proof H as Hw. destruct H as [Ha Hs Hp _ Ht _ _ Hsh]. constructor; [done| | |by destruct (x_startTask r)|exact Hsh].
    + destruct Hs as [->|(Hn & _)]; [done|]. congruence.
    + intros Hst. destruct (Ht Hst) as [Ht1 Ht2].
      assert (x_proc r' = x_proc r) as Hpr by (eapply rw_same_proc; [exact Hw|by left]).
      split_and!; [done|done| |done|rewrite Hpr; apply upd_quiet].
      destruct Hs as [->|(_ & Hn & _)]; [done|congruence].
  - intros p pr Hp. exists pr. split; [apply upd_procs; by left|done].
Qed.

Lemma upd_extra t : o <> Some t -> extra t m m'.
Proof using Type*.
  intros Hne. constructor; [|done|intros y H1 H2; change (job m t = Some (KStart y)) in H2; congruence].
  intros y r r' Hr Hr'. destruct (upd_old y r' Hr') as (r0 & Hr0 & H). rewrite Hr in Hr0. injection Hr0 as <-.
  destruct H as [[-> _]|(-> & H)]; [done|]. split.
  - intros Ht. pose proof (rw_proc _ _ _ _ _ _ H) as Hp. destruct new; [|done].
    destruct Hp as (_ & _ & _ & (t' & -> & Ht') & _). congruence.
  - intros p id why q Hp Hj. destruct (rw_stop _ _ _ _ _ _ H) as [->|[[_ Hn]|[Hn _]]]; [done| |congruence].
    destruct (Hn p id why q t Hp Hj) as [_ Ho]. congruence.
Qed.

Lemma upd_inv : Inv e m'.
Proof using Type*.
  constructor.
  - intros id y Hin. destruct (iv_active _ _ HI id y Hin) as (r & Hr & Hid). destruct (upd_new y r Hr) as (r' & Hr' & H).
    exists r'. split; [done|]. destruct H as [[-> _]|(_ & H)]; [done|]. by rewrite (rw_a _ _ _ _ _ _ H).
  - apply HI.
  - intros y r' Hr'. destruct (upd_old y r' Hr') as (r & Hr & H). destruct (iv_retired _ _ HI y r Hr) as [Ha|Ha]; [by left|].
    right. apply upd_rest. destruct H as [[-> _]|(-> & H)]; [exact Ha|]. by apply (rw_rest _ _ _ _ _ _ H).
  - intros y r' Hr'. destruct (upd_old y r' Hr') as (r & Hr & H).
    destruct H as [[-> _]|(-> & H)]; [by apply (iv_state _ _ HI y)|apply H].
  - intros y r' q Hr' Hq. destruct (upd_old y r' Hr') as (r & Hr & H).
    destruct H as [[-> _]|(-> & H)]; [by apply (iv_start _ _ HI y r q Hr)|].
    destruct (rw_start _ _ _ _ _ _ H) as [Hs|(_ & _ & q' & Hs & Hj)]; [|rewrite Hs in Hq; injection Hq as <-; exact Hj].
    apply (iv_start _ _ HI x r q Hr). by rewrite <-Hs.
  - intros q y He Hq. destruct (iv_started _ _ HI q y He Hq) as (r & Hr & Hs). destruct (upd_new y r Hr) as (r' & Hr' & H).
    exists r'. split; [done|]. destruct H as [[-> _]|(_ & H)]; [done|].
    destruct (rw_start _ _ _ _ _ _ H) as [->|(Hn & _)]; [done|congruence].
  - intros y r' q Hr' Hq. destruct (upd_old y r' Hr') as (r & Hr & H).
    destruct H as [[-> _]|(-> & H)]; [by apply (iv_cleaning _ _ HI y r)|].
    destruct (rw_cleanup _ _ _ _ _ _ H q Hq) as [Hc|Hc]; [by apply (iv_cleaning _ _ HI x r)|done].
  - intros q y s Hq. destruct (iv_cleanup _ _ HI q y s Hq) as (r & Hr & H1 & H2 & H3 & H4).
    destruct (upd_new y r Hr) as (r' & Hr' & H). exists r'. split; [done|].
    destruct H as [[-> _]|(-> & H)].
    { split_and!; [done|done| |intros Hs; by apply upd_rest, H4]. destruct s as [[]|]; [done|by apply upd_quiet]. }
    destruct (rw_stopping _ _ _ _ _ _ H H1). split_and!; [done|auto| |intros Hs; by apply upd_rest, (rw_rest _ _ _ _ _ _ H), H4].
    rewrite (rw_same_proc _ _ _ _ _ _ H) by (by left).
    destruct s as [[]|]; [done|by apply upd_quiet].
  - intros y r' p Hr' Hp. destruct (upd_old y r' Hr') as (r & Hr & H).
    destruct H as [[-> _]|(-> & H)]; [by apply (iv_stopTask _ _ HI y r)|].
    destruct (rw_stop _ _ _ _ _ _ H) as [Hs|[[Hn _]|(_ & p' & id & why & q & t & Hs & Hj)]]; [|congruence|].
    + apply (iv_stopTask _ _ HI x r); congruence.
    + rewrite Hs in Hp. injection Hp as <-. eauto.
  - intros p y id why q t Hp. destruct (iv_stop _ _ HI p y id why q t Hp) as (r & s & Hr & Hid & Hj & H1).
    destruct (upd_new y r Hr) as (r' & Hr' & H). exists r', s. destruct H as [[-> _]|(-> & H)]; [done|].
    split_and!; [done|by rewrite (rw_a _ _ _ _ _ _ H)|done|]. intros He Hs. destruct (H1 He Hs) as [H2 H3]. split; [|done].
    destruct (rw_stop _ _ _ _ _ _ H) as [->|[[_ Hn]|[Hn _]]]; [done| |congruence]. by destruct (Hn p id why q t H2 Hp).
  - apply HI.
  - intros p pr [Hp|[Hn ->]]%upd_procs.
    + destruct (iv_owner _ _ HI p pr Hp) as (r & Hr & H1 & H2). destruct (upd_new _ r Hr) as (r' & Hr' & H).
      exists r'. split; [done|]. destruct H as [[-> _]|(_ & H)]; [done|]. rewrite (rw_a _ _ _ _ _ _ H).
      rewrite (rw_same_proc _ _ _ _ _ _ H); [done|]. right. congruence.
    + destruct Hx as [r Hr]. pose proof (HW r Hr) as H. pose proof (rw_proc _ _ _ _ _ _ H) as Hw. rewrite Hn in Hw.
      destruct Hw as (_ & Hw & _ & _ & -> & _ & Hm & _). exists (f r). split_and!; [|done|by rewrite (rw_a _ _ _ _ _ _ H)].
      cbn. rewrite lookup_alter_list, decide_True by done. by rewrite Hr.
  - intros p pr [Hp|[Hn ->]]%upd_procs Ha; [by apply (iv_limits _ _ HI p)|].
    destruct Hx as [r Hr]. pose proof (rw_proc _ _ _ _ _ _ (HW r Hr)) as Hw. rewrite Hn in Hw. apply Hw.
  - intros y r' p Hr' Hp. destruct (upd_old y r' Hr') as (r & Hr & H).
    assert (forall p, x_proc r = Some p -> exists pr, procs m' !! p = Some pr /\ pr_owner pr = y) as Hold.
    { intros p' Hp'. destruct (iv_proc _ _ HI y r p' Hr Hp') as (pr & Hpr & Ho). exists pr. split; [apply upd_procs; by left|done]. }
    destruct H as [[-> _]|(-> & H)]; [auto|]. pose proof (rw_proc _ _ _ _ _ _ H) as Hw.
    assert (new = None \/ exists pr, new = Some pr) as [Hn|[pr Hn]] by (destruct new; eauto); rewrite Hn in Hw.
    + apply Hold. congruence.
    + destruct Hw as (_ & Hw & _ & _ & Ho & _). exists pr. rewrite Hw in Hp. injection Hp as <-. split; [|done].
      apply upd_procs. by right.
Qed.

Lemma write_keeps : Inv e m' /\ guar o m m'.
Proof using Type*. split; [exact upd_inv|]. split; [exact upd_later|exact upd_extra]. Qed.
End upd.

Lemma upd_keeps o e m x f : Inv e m -> is_Some (heap m !! x) -> (forall r, heap m !! x = Some r -> rec_write o None m x r (f r)) ->
  Inv e (set_heap (alter f x (heap m)) m) /\ guar o m (set_heap (alter f x (heap m)) m).
Proof.
  intros HI Hx HW. pose proof (write_keeps o e None m x f HI Hx HW) as H. cbn in H. rewrite app_nil_r in H. by destruct m.
Qed.

(** ** Writes elsewhere *)

Lemma extra_frame t m m' : (forall x r, heap m !! x = Some r -> heap m' !! x = Some r) -> (settled m t = None -> settled m' t = None) ->
  (forall x, job m t = None -> job m' t = Some (KStart x) -> unstarted t x m') -> extra t m m'.
Proof. intros Hh Hs Hj. constructor; [|done|exact Hj]. intros x r r' H1 H2. rewrite (Hh x r H1) in H2. by injection H2 as <-. Qed.
Lemma extra_same t m m' : heap m' = heap m -> promises m' = promises m -> extra t m m'.
Proof.
  intros Hh Hp. apply extra_frame; unfold settled, job; rewrite ?Hh, ?Hp; [done..|]. congruence.
Qed.

(** The parts the invariant does not read, a later clock, and reports that do not say "stopped" of an active assignment. *)
Lemma frame_keeps o e m m' : Inv e m -> heap m' = heap m -> active m' = active m -> procs m' = procs m ->
  promises m' = promises m -> offer_of m' = offer_of m -> now m <= now m' ->
  (forall id rt, last_report m' id = Some rt -> rt_state rt = a_stopped -> id ∉ (active m).*1) ->
  Inv e m' /\ guar o m m'.
Proof.
  intros HI Hh Ha Hp Hq Ho Hn Hr.
  assert (forall q, settled m' q = settled m q) as Hs by (intros q; unfold settled; by rewrite Hq).
  assert (forall p, is_running m' p = is_running m p) as Hrun by (intros p; unfold is_running; by rewrite Hp).
  assert (forall k, proc_quiet m k -> proc_quiet m' k) as Hqt by (intros [p|]; cbn -[is_running]; [by rewrite Hrun|done]).
  assert (forall r, at_rest m r -> at_rest m' r) as Hrest.
  { intros r. apply at_rest_moves; [intros q; by rewrite Hs|apply Hqt]. }
  assert (forall q, settled m q <> None -> settled m' q <> None) as Hmono by (intros q; by rewrite Hs).
  split; [|split; [|intros t _; by apply extra_same]].
  - destruct HI. constructor; unfold job, is_active in *; rewrite ?Hh, ?Ha, ?Hp, ?Hq, ?Ho; try done.
    + intros x r Hx. destruct (iv_retired0 x r Hx); [by left|right; auto].
    + intros q x s Hj. destruct (iv_cleanup0 q x s Hj) as (r & H1 & H2 & H3 & H4 & H5). exists r. split_and!; [done..| |].
      * destruct s as [[]|]; [done|auto].
      * rewrite Hs. auto.
    + intros p x id why q t Hj. destruct (iv_stop0 p x id why q t Hj) as (r & s & H1 & H2 & H3 & H4). exists r, s.
      split_and!; [done..|]. by rewrite Hs.
  - constructor; unfold job, is_active; rewrite ?Hh, ?Ha, ?Hp, ?Hq, ?Ho; try done.
    + intros x r Hx. exists r. split; [done|]. apply rec_later_same; auto.
    + intros q v. by rewrite Hs.
    + intros p pr Hpr. exists pr. by split.
Qed.

(** What may be said of a new call. *)
Definition new_job (m : Agent) (j : Job) : Prop :=
  match j with
  | KStart _ => True
  | KStopBody x id _ q _ => exists r s, heap m !! x = Some r /\ id_of (x_a r) = id /\ job m q = Some (KCleanup x s)
  | KCleanup x s => exists r, heap m !! x = Some r /\ x_stopping r = true /\ x_watching r = false /\
      match s with Some (p, _) => x_proc r = Some p | None => proc_quiet m (x_proc r) end
  | _ => True
  end.
Definition tracked (j : Job) : bool := match j with KStart _ | KStopBody _ _ _ _ _ => true | _ => false end.

Section promises.
Context (e : option nat) (m : Agent).
Hypothesis HI : Inv e m.

Lemma spawn_job j q k : job (set_promises (promises m ++ [(j, None)]) m) q = Some k <->
  job m q = Some k \/ q = length (promises m) /\ k = j.
Proof.
  unfold job. cbn. rewrite !fmap_Some. setoid_rewrite lookup_snoc. split.
  - intros (v & [Hv|[-> ->]] & ->); [left; eauto|by right].
  - intros [(v & Hv & ->)|[-> ->]]; [eauto|]. eexists. split; [by right|done].
Qed.
Lemma spawn_settled j q : settled (set_promises (promises m ++ [(j, None)]) m) q = settled m q.
Proof.
  unfold settled. cbn. destruct (decide (q < length (promises m))%nat) as [Hlt|Hge].
  - by rewrite lookup_app_l.
  - rewrite lookup_app_r, (lookup_ge_None_2 (promises m)) by lia. by destruct (q - length (promises m))%nat as [|[]].
Qed.
Lemma job_lt q k : job m q = Some k -> (q < length (promises m))%nat.
Proof. unfold job. rewrite fmap_Some. intros (v & Hv & _). by apply lookup_lt_Some in Hv. Qed.

Lemma spawn_keeps j : new_job m j -> (tracked j = true -> e = Some (length (promises m))) ->
  let m' := set_promises (promises m ++ [(j, None)]) m in
  Inv e m' /\ later m m' /\ forall t, (forall x, t = length (promises m) -> j = KStart x -> unstarted t x m') -> extra t m m'.
Proof using Type*.
  intros Hj He m'.
  assert (forall r, at_rest m r -> at_rest m' r) as Hrest.
  { intros r. apply at_rest_moves; [|done]. intros q. unfold m'. by rewrite spawn_settled. }
  assert (forall q, settled m q <> None -> settled m' q <> None) as Hmono by (intros q; unfold m'; by rewrite spawn_settled).
  assert (forall q k, job m q = Some k -> job m' q = Some k) as Hjob by (intros q k H; apply spawn_job; by left).
  split; [|split; [|intros t Ht; apply extra_frame; [done| |]]].
  - pose proof HI as []. constructor; try done.
    + intros x r Hx. destruct (iv_retired0 x r Hx); [by left|right; auto].
    + intros x r q Hx Hq. eauto.
    + intros q x Hne [Hq|[-> <-]]%spawn_job; [by eauto|]. destruct Hne. by apply He.
    + intros x r q Hx Hq. destruct (iv_cleaning0 x r q Hx Hq) as [s Hs]. eauto.
    + intros q x s [Hq|[-> <-]]%spawn_job.
      * destruct (iv_cleanup0 q x s Hq) as (r & H1 & H2 & H3 & H4 & H5). exists r. split_and!; [done..|].
        unfold m'. rewrite spawn_settled. auto.
      * destruct Hj as (r & H1 & H2 & H3 & H4). exists r. split_and!; [done..|]. unfold m'. rewrite spawn_settled.
        unfold settled. by rewrite lookup_ge_None_2.
    + intros x r p Hx Hp. destruct (iv_stopTask0 x r p Hx Hp) as (id & why & q & t & H). eauto 10.
    + intros p x id why q t [Hp|[-> <-]]%spawn_job.
      * destruct (iv_stop0 p x id why q t Hp) as (r & s & H1 & H2 & H3 & H4). exists r, s. split_and!; [done..|auto|].
        unfold m'. by rewrite spawn_settled.
      * destruct Hj as (r & s & H1 & H2 & H3). exists r, s. split_and!; [done..|auto|]. intros Hne. destruct Hne. by apply He.
  - constructor; try done.
    + intros x r Hx. exists r. split; [done|]. apply rec_later_same; auto.
    + intros q v. unfold m'. by rewrite spawn_settled.
    + intros p pr Hp. exists pr. by split.
  - unfold m'. by rewrite spawn_settled.
  - intros x Hn [Hq|[-> <-]]%spawn_job; [congruence|]. by apply Ht.
Qed.
End promises.

(** Call [q], excluded so far, is as the invariant says. *)
Lemma inv_close q m : Inv (Some q) m ->
  (forall x, job m q = Some (KStart x) -> exists r, heap m !! x = Some r /\ x_startTask r = Some q) ->
  (forall x id why c t, job m q = Some (KStopBody x id why c t) -> settled m q = None ->
     forall r, heap m !! x = Some r -> x_stopTask r = Some q /\ is_active m x) -> Inv None m.
Proof.
  intros HI Hstart Hstop. pose proof HI as []. constructor; try done.
  - intros p x _ Hp. destruct (decide (p = q)) as [->|Hne]; [by apply Hstart|]. apply iv_started0; [congruence|done].
  - intros p x id why c t Hp. destruct (iv_stop0 p x id why c t Hp) as (r & s & H1 & H2 & H3 & H4). exists r, s.
    split_and!; [done..|]. intros _ Hs. destruct (decide (p = q)) as [->|Hne]; [by eapply Hstop|]. apply H4; [congruence|done].
Qed.

(** A call ends. *)
Definition settle (q : nat) (v : result string unit) (m : Agent) : Agent :=
  set_promises (alter (fun jr => (jr.1, Some v)) q (promises m)) m.

Definition post (j : Job) (v : result string unit) (m : Agent) : Prop :=
  match j, v with KCleanup x _, Ok tt => forall r, heap m !! x = Some r -> at_rest m r | _, _ => True end.

Section settle.
Context (q : nat) (v : result string unit) (m : Agent).

Lemma settle_job p : job (settle q v m) p = job m p.
Proof.
  unfold job, settle. cbn. rewrite lookup_alter_list. destruct (decide (q = p)) as [->|]; [|done].
  by destruct (promises m !! p) as [[j o]|].
Qed.
Lemma settle_settled p : settled (settle q v m) p = if decide (q = p) then (if job m p then Some v else None) else settled m p.
Proof.
  unfold settled, job, settle. cbn. rewrite lookup_alter_list. destruct (decide (q = p)) as [->|]; [|done].
  by destruct (promises m !! p) as [[j o]|].
Qed.

Lemma settle_keeps j : Inv (Some q) m -> job m q = Some j -> settled m q = None -> post j v m ->
  (forall x, j = KStart x -> exists r, heap m !! x = Some r /\ x_startTask r = Some q) ->
  Inv None (settle q v m) /\ guar (Some q) m (settle q v m).
Proof.
  intros HI Hj Hs Hpost Hstart.
  assert (forall p w, settled m p = Some w -> settled (settle q v m) p = Some w) as Hset.
  { intros p w Hp. rewrite settle_settled. destruct (decide (q = p)) as [->|]; [congruence|done]. }
  assert (forall r, at_rest m r -> at_rest (settle q v m) r) as Hrest.
  { intros r. apply at_rest_moves; [|done]. intros p Hp. destruct (settled m p) eqn:E; [|done]. by rewrite (Hset _ _ E). }
  assert (forall p, settled m p <> None -> settled (settle q v m) p <> None) as Hmono.
  { intros p Hp. destruct (settled m p) eqn:E; [|done]. by rewrite (Hset _ _ E). }
  split; [apply (inv_close q)|].
  - pose proof HI as []. constructor; repeat setoid_rewrite settle_job; try done.
    + intros x r Hx. destruct (iv_retired0 x r Hx); [by left|right; auto].
    + intros p x s Hp. destruct (iv_cleanup0 p x s Hp) as (r & H1 & H2 & H3 & H4 & H5). exists r. split_and!; [done..|].
      rewrite settle_settled. destruct (decide (q = p)) as [->|]; [|auto]. rewrite Hp. intros [= ->].
      rewrite Hj in Hp. injection Hp as ->. apply Hrest. by apply Hpost.
    + intros p x id why c t Hp. destruct (iv_stop0 p x id why c t Hp) as (r & s & H1 & H2 & H3 & H4). exists r, s.
      split_and!; [done..|]. intros Hne. rewrite settle_settled. destruct (decide (q = p)) as [->|]; [congruence|]. by apply H4.
  - intros x. rewrite settle_job, Hj. intros [= ->]. by apply Hstart.
  - intros x id why c t _. rewrite settle_settled, decide_True by done. by rewrite Hj.
  - split; [|intros t Ht; apply extra_frame; [done| |]].
    2: { rewrite settle_settled. by rewrite decide_False by congruence. }
    2: { intros x. rewrite settle_job. congruence. }
    constructor; try done.
    + intros x r Hx. exists r. split; [done|]. apply rec_later_same; auto.
    + intros p k. by rewrite settle_job.
    + intros p pr Hp. exists pr. by split.
Qed.
End settle.

(** A process changes: it may start only while its assignment is not stopping, and does not come back. *)
Lemma proc_keeps o e m p g : Inv e m ->
  (forall pr, procs m !! p = Some pr -> proc_later pr (g pr) /\
    (pr_running pr = false -> pr_running (g pr) = false \/ forall r, heap m !! pr_owner pr = Some r -> x_stopping r = false)) ->
  let m' := set_procs (alter g p (procs m)) m in Inv e m' /\ guar o m m'.
Proof.
  intros HI Hg m'.
  assert (forall q pr, procs m !! q = Some pr -> exists pr', procs m' !! q = Some pr' /\ proc_later pr pr') as Hnew.
  { intros q pr Hq. cbn. rewrite lookup_alter_list. destruct (decide (p = q)) as [<-|]; rewrite Hq; cbn; [|by exists pr].
    exists (g pr). split; [done|]. by apply Hg. }
  assert (forall q pr', procs m' !! q = Some pr' -> exists pr, procs m !! q = Some pr /\ proc_later pr pr') as Hold.
  { intros q pr'. cbn. rewrite lookup_alter_list. destruct (decide (p = q)) as [<-|]; [|by eexists].
    destruct (procs m !! p) as [pr|] eqn:Hp; [|done]. intros [= <-]. exists pr. split; [done|]. by apply Hg. }
  assert (forall x r, heap m !! x = Some r -> x_stopping r = true -> proc_quiet m (x_proc r) -> proc_quiet m' (x_proc r)) as Hquiet.
  { intros x r Hx Hst. destruct (x_proc r) as [q|] eqn:Hq; [|done]. unfold proc_quiet, is_running. cbn. rewrite lookup_alter_list.
    destruct (decide (p = q)) as [<-|]; [|done]. destruct (iv_proc _ _ HI x r p Hx Hq) as (pr & Hpr & Ho). rewrite Hpr. cbn.
    intros Hr. destruct (Hg pr Hpr) as [_ Hg']. destruct (Hg' Hr) as [H|H]; [done|].
    rewrite Ho in H. specialize (H r Hx). congruence. }
  assert (forall x r, heap m !! x = Some r -> at_rest m r -> at_rest m' r) as Hrest.
  { intros x r Hx Hr. eapply at_rest_moves; [..|exact Hr]; [done|]. apply (Hquiet x r Hx), Hr. }
  split; [|split; [|intros t _; by apply extra_same]].
  - pose proof HI as []. constructor; try done.
    + intros x r Hx. destruct (iv_retired0 x r Hx); [by left|right; eauto].
    + intros q x s Hq. destruct (iv_cleanup0 q x s Hq) as (r & H1 & H2 & H3 & H4 & H5). exists r. split_and!; [done..| |].
      * destruct s as [[]|]; [done|]. by apply (Hquiet x).
      * intros Hs. eapply Hrest; [done|]. by apply H5.
    + intros q pr' Hp. destruct (Hold q pr' Hp) as (pr & Hpr & [Ho _ _]). rewrite Ho. by apply iv_owner0.
    + intros q pr' Hp Ha. destruct (Hold q pr' Hp) as (pr & Hpr & [Ho Hl _]). rewrite Hl. eapply iv_limits0; [done|].
      rewrite <-Ho. exact Ha.
    + intros x r q Hx Hq. destruct (iv_proc0 x r q Hx Hq) as (pr & Hpr & Ho). destruct (Hnew q pr Hpr) as (pr' & Hpr' & [Ho' _ _]).
      exists pr'. split; [done|congruence].
  - constructor; try done. intros x r Hx. exists r. split; [done|].
    constructor; [done..| |by destruct (x_startTask r)|intros _ _; apply shut_refl]. intros Hst. split_and!; [done..|]. by apply (Hquiet x).
Qed.

(** An assignment at rest leaves the map. *)
Lemma delete_keeps e m x r : Inv e m -> heap m !! x = Some r -> at_rest m r -> active_get m (id_of (x_a r)) = Some x ->
  (forall p id why q t, job m p = Some (KStopBody x id why q t) -> settled m p = None -> e = Some p) ->
  let m' := set_active (active_delete (id_of (x_a r)) (active m)) m in
  Inv e m' /\ guar None m m' /\ id_of (x_a r) ∉ (active m').*1.
Proof.
  intros HI Hx Hr Hget Hp m'. set (id := id_of (x_a r)) in *.
  assert (forall kv, kv ∈ active m' <-> kv ∈ active m /\ kv.1 <> id) as Hin.
  { intros kv. cbn. unfold active_delete. rewrite list_elem_of_filter. tauto. }
  assert (forall y, is_active m' y -> is_active m y) as Hact'.
  { intros y [[k z] [-> Hy]]%list_elem_of_fmap. apply Hin in Hy as [Hy _]. by apply (list_elem_of_fmap_2 snd _ (k, z)). }
  assert (forall y, is_active m y -> is_active m' y \/ y = x) as Hact.
  { intros y [[k z] [-> Hy]]%list_elem_of_fmap. cbn. destruct (decide (k = id)) as [->|Hne].
    - right. apply (active_get_spec e) in Hy; [congruence|done].
    - left. apply (list_elem_of_fmap_2 snd _ (k, z)). by apply Hin. }
  assert (forall k, k ∈ (active m').*1 -> k ∈ (active m).*1 /\ k <> id) as Hkeys.
  { intros k [[k' z] [-> Hy]]%list_elem_of_fmap. apply Hin in Hy as [Hy ?]. split; [|done]. by apply (list_elem_of_fmap_2 fst _ (k', z)). }
  assert (forall r, at_rest m r -> at_rest m' r) as Hrest by (intros ?; by apply at_rest_moves).
  split; [|split; [split; [|intros t _; by apply extra_same]|]].
  - pose proof HI as []. constructor; try done.
    + intros k y Hy. apply Hin in Hy as [Hy _]. by apply iv_active0.
    + cbn. unfold active_delete. eapply sublist_NoDup; [exact iv_keys0|]. apply fmap_sublist, sublist_filter.
    + intros y r' Hy. destruct (iv_retired0 y r' Hy) as [Ha|Ha]; [|by right; apply Hrest].
      destruct (Hact y Ha) as [?| ->]; [by left|]. right. apply Hrest. change (heap m !! x = Some r') in Hy. rewrite Hx in Hy. by injection Hy as <-.
    + intros q y s Hq. destruct (iv_cleanup0 q y s Hq) as (r' & H1 & H2 & H3 & H4 & H5). exists r'. split_and!; [done..|auto].
    + intros p y k why q t Hj. destruct (iv_stop0 p y k why q t Hj) as (r' & s & H1 & H2 & H3 & H4). exists r', s.
      split_and!; [done..|]. intros Hne Hs. destruct (H4 Hne Hs) as [H5 H6]. split; [done|].
      destruct (Hact y H6) as [?| ->]; [done|]. destruct Hne. by eapply Hp.
    + intros k rt Hk Hst Hk'. apply Hkeys in Hk' as [Hk' _]. by eapply iv_reports0.
    + intros p pr Hpr Ha. by eapply iv_limits0, Hact'.
  - constructor; try done.
    + intros y r' Hy. exists r'. split; [done|]. apply rec_later_same; auto.
    + intros p pr Hpr. exists pr. by split.
    + intros y r' _. apply Hact'.
  - intros H. by apply Hkeys in H as [_ ?].
Qed.

(** A new assignment enters the map under a free id that was not reported as stopped. *)
Lemma enlist_keeps m r : Inv None m -> active_get m (id_of (x_a r)) = None ->
  x_state r <> a_stopped -> x_proc r = None -> x_startTask r = None -> x_cleanupTask r = None -> x_stopTask r = None ->
  (forall rt, last_report m (id_of (x_a r)) = Some rt -> rt_state rt <> a_stopped) ->
  let m' := set_active (active m ++ [(id_of (x_a r), length (heap m))]) (set_heap (heap m ++ [r]) m) in
  Inv None m' /\ guar None m m'.
Proof.
  intros HI Hget Hst Hproc Hstart Hclean Hstop Hrep m'. apply active_get_None in Hget.
  assert (forall y r', heap m' !! y = Some r' <-> heap m !! y = Some r' \/ y = length (heap m) /\ r' = r) as Hheap.
  { intros y r'. apply lookup_snoc. }
  assert (forall y, is_active m' y <-> is_active m y \/ y = length (heap m)) as Hact.
  { intros y. unfold is_active. cbn. rewrite fmap_app, elem_of_app. cbn. by rewrite list_elem_of_singleton. }
  assert (forall y r', heap m !! y = Some r' -> y <> length (heap m)) as Hlt.
  { intros y r' Hy ->. apply lookup_lt_Some in Hy. lia. }
  assert (forall r, at_rest m r -> at_rest m' r) as Hrest by (intros ?; by apply at_rest_moves).
  assert (forall y r', heap m !! y = Some r' -> heap m' !! y = Some r') as Hh by (intros; apply Hheap; by left).
  split; [|split].
  - pose proof HI as []. constructor; try done.
    + intros k y [Hy|[= -> ->]%list_elem_of_singleton]%elem_of_app.
      * destruct (iv_active0 k y Hy) as (r' & Hr' & Hid). eauto.
      * exists r. split; [|done]. apply Hheap. by right.
    + cbn. rewrite fmap_app. apply NoDup_app. split_and!; [done| |apply NoDup_singleton].
      intros k Hk ->%list_elem_of_singleton. done.
    + intros y r' [Hy|[-> ->]]%Hheap; [|left; apply Hact; by right].
      destruct (iv_retired0 y r' Hy); [left; apply Hact; by left|right; auto].
    + intros y r' [Hy|[-> ->]]%Hheap; [by eapply iv_state0|done].
    + intros y r' q [Hy|[-> ->]]%Hheap Hq; [by eapply iv_start0|congruence].
    + intros q y Hne Hq. destruct (iv_started0 q y Hne Hq) as (r' & Hr' & Hs). eauto.
    + intros y r' q [Hy|[-> ->]]%Hheap Hq; [by eapply iv_cleaning0|congruence].
    + intros q y s Hq. destruct (iv_cleanup0 q y s Hq) as (r' & H1 & H2 & H3 & H4 & H5). exists r'. split_and!; auto.
    + intros y r' q [Hy|[-> ->]]%Hheap Hq; [by eapply iv_stopTask0|congruence].
    + intros p y k why q t Hj. destruct (iv_stop0 p y k why q t Hj) as (r' & s & H1 & H2 & H3 & H4). exists r', s.
      split_and!; [auto|done..|]. intros Hne Hs. destruct (H4 Hne Hs). split; [done|]. apply Hact. by left.
    + intros k rt Hk Hs. cbn. rewrite fmap_app, elem_of_app. cbn. rewrite list_elem_of_singleton. intros [Hin| ->].
      * by eapply iv_reports0.
      * by eapply Hrep.
    + intros p pr Hp. destruct (iv_owner0 p pr Hp) as (r' & Hr' & H). eauto.
    + intros p pr Hp [Ha|Ha]%Hact; [by eapply iv_limits0|]. destruct (iv_owner0 p pr Hp) as (r' & Hr' & _). by apply Hlt in Hr'.
    + intros y r' p [Hy|[-> ->]]%Hheap Hp; [by eapply iv_proc0|congruence].
  - constructor; try done.
    + intros y r' Hy. exists r'. split; [auto|]. apply rec_later_same; auto.
    + intros p pr Hp. exists pr. by split.
    + intros y r' Hy [Ha|Ha]%Hact; [done|]. by apply Hlt in Hy.
  - intros t _. apply extra_frame; [done..|]. intros y H1 H2. change (job m t = Some (KStart y)) in H2. congruence.
Qed.

(** The owner changes the offer. *)
Lemma actives_elem e m x : Inv e m -> is_active m x -> exists r, heap m !! x = Some r /\ r ∈ actives m.
Proof.
  intros HI [[id y] [-> Hy]]%list_elem_of_fmap. destruct (iv_active _ _ HI id y Hy) as (r & Hr & _). exists r. split; [done|].
  apply list_elem_of_fmap. exists (id, y). split; [|done]. symmetry. by apply rec_eq.
Qed.

Lemma assertOfferChange_ok e m next x r : Inv e m -> assertOfferChange m next = Ok tt ->
  is_active m x -> heap m !! x = Some r -> managed (x_a r) = true ->
  of_ramMiB (offer_of m) <= of_ramMiB next /\ of_cpuCores (offer_of m) <= of_cpuCores next.
Proof.
  intros HI Hok Ha Hx Hm. destruct (actives_elem e m x HI Ha) as (r' & Hr' & Hin). rewrite Hx in Hr'. injection Hr' as <-.
  unfold assertOfferChange in Hok. destruct (base.filter _ (actives m)) as [|y l] eqn:Hf.
  { assert (r ∈ base.filter (fun x => managed (x_a x) = true) (actives m)) as H by (by apply list_elem_of_filter).
    rewrite Hf in H. by apply elem_of_nil in H. }
  apply then_ok in Hok as [_ Hok]. cbn [negb] in Hok. apply throw_if_ok in Hok. bool_to_prop. unfold offer_of. lia.
Qed.

Lemma offer_keeps m next : Inv None m -> assertOfferChange m next = Ok tt ->
  let m' := set_cfg {| nc_offer := next; nc_enginePath := nc_enginePath (cfg m); nc_externals := nc_externals (cfg m) |} m in
  Inv None m' /\ guar None m m'.
Proof.
  intros HI Hok m'. assert (forall r, at_rest m r -> at_rest m' r) as Hrest by (intros ?; by apply at_rest_moves).
  split; [|split; [|intros t _; by apply extra_same]].
  - pose proof HI as []. constructor; try done.
    + intros x r Hx. destruct (iv_retired0 x r Hx); [by left|right; auto].
    + intros q x s Hq. destruct (iv_cleanup0 q x s Hq) as (r & H1 & H2 & H3 & H4 & H5). exists r. split_and!; auto.
    + intros p pr Hp Ha. destruct (iv_limits0 p pr Hp Ha) as [H1 H2]. destruct (iv_owner0 p pr Hp) as (r & Hr & _ & Hm).
      destruct (assertOfferChange_ok None m next _ r HI Hok Ha Hr Hm) as [H3 H4]. unfold limits_ok, offer_of in *. cbn. lia.
  - constructor; try done.
    + intros x r Hx. exists r. split; [done|]. apply rec_later_same; auto.
    + intros p pr Hp. exists pr. by split.
    + intros x r Hx Hm Ha. by apply (assertOfferChange_ok None m next x r).
Qed.
