(* ===== verification/AgentRules.v ===== *)
(** * The node agent: its synchronous methods keep the invariant

    [still] is how a synchronous method of one call moves the state: no assignment enters or leaves the map, no
    [stopTask] changes, and nothing else that only one call may change.  [calm P x Q E] is the triple of such a
    method; [o] is the call that runs, if any, which stays pending. *)

From S2P Require Import Prelude Async Rules JsNum Json Types Recipes Identity ServeDial AgentState Agent AgentInv.

Local Open Scope list_scope.
Local Open Scope Z_scope.

Definition pending (m : Agent) (t : nat) : Prop := job m t <> None /\ settled m t = None.
Definition running_inv (o : option nat) (m : Agent) : Prop := Inv None m /\ forall t, o = Some t -> pending m t.

Definition known (x : nat) (m : Agent) : Prop := is_Some (heap m !! x).

(** Facts that no turn takes away *)
Definition stable (P : Agent -> Prop) : Prop := forall m m', later m m' -> P m -> P m'.
(** Facts that the writes of [calm] methods and the other calls leave to call [t] *)
Definition lasting (t : nat) (P : Agent -> Prop) : Prop := forall m m', rely t m m' -> P m -> P m'.

Lemma known_stable x : stable (known x).
Proof. intros m m' L [r Hr]. destruct (lt_heap _ _ L x r Hr) as (r' & Hr' & _). by exists r'. Qed.

Definition still_rel (m m' : Agent) : Prop :=
  guar None m m' /\ active m' = active m /\
  forall x r r', heap m !! x = Some r -> heap m' !! x = Some r' -> x_stopTask r' = x_stopTask r.
#[export] Instance still_preorder : PreOrder still_rel.
Proof.
  split.
  - intros m. split_and!; [reflexivity|done|]. intros x r r' H1 H2. rewrite H1 in H2. by injection H2 as <-.
  - intros m1 m2 m3 (G1 & A1 & S1) (G2 & A2 & S2). split_and!; [by etrans|congruence|].
    intros x r1 r3 H1 H3. destruct (lt_heap _ _ (proj1 G1) x r1 H1) as (r2 & H2 & _).
    rewrite (S2 x r2 r3 H2 H3). by apply (S1 x).
Qed.
Definition still : Moves Agent := {| moves_rel := still_rel |}.

Section sync.
Context (o : option nat).
Abbreviation calm P x Q E := (sspec (running_inv o) still P x Q E).
Abbreviation calmly x := (sspec (running_inv o) still (fun _ => True) x (fun _ _ => True) (fun _ _ => True)).

Lemma calm_weaken {A} P (x : Sync A) (Q : A -> Agent -> Prop) (E : string -> Agent -> Prop) :
  calm (fun _ => True) x Q E -> calm P x Q E.
Proof. intros H. eapply sspec_conseq; [exact H|done..]. Qed.

(** A method that keeps the calls pending: the frame of the primitive writes *)
Lemma calm_write P f (Q : unit -> Agent -> Prop) E :
  (forall m, Inv None m -> P m -> Inv None (f m) /\ still m (f m) /\ Q tt (f m)) ->
  (forall m t, pending m t -> pending (f m) t) -> calm P (mmodify f) Q E.
Proof.
  intros H Hp. apply sspec_modify. intros m [HI Ho] HP. destruct (H m HI HP) as (H1 & H2 & H3). split_and!; [|done..].
  split; [done|]. intros t Ht. by apply Hp, Ho.
Qed.

Lemma frame_calm f P : (forall m, heap (f m) = heap m) -> (forall m, active (f m) = active m) -> (forall m, procs (f m) = procs m) ->
  (forall m, promises (f m) = promises m) -> (forall m, offer_of (f m) = offer_of m) -> (forall m, now m <= now (f m)) ->
  (forall m id rt, Inv None m -> P m -> last_report (f m) id = Some rt -> rt_state rt = a_stopped -> id ∉ (active m).*1) ->
  calm P (mmodify f) (fun _ _ => True) (fun _ _ => True).
Proof.
  intros H1 H2 H3 H4 H5 H6 H7. apply calm_write.
  - intros m HI HP. destruct (frame_keeps None None m (f m) HI) as [? ?]; [by eauto..|].
    split_and!; [done| |done]. split_and!; [done|done|]. intros x r r'. rewrite H1. congruence.
  - intros m t. unfold pending, job, settled. by rewrite H4.
Qed.

Lemma rec_missing m x : heap m !! x = None -> forall f, set_heap (alter f x (heap m)) m = m.
Proof.
  intros Hx f. replace (alter f x (heap m)) with (heap m); [by destruct m|].
  apply list_eq. intros i. rewrite lookup_alter_list. destruct (decide (x = i)) as [<-|]; [by rewrite Hx|done].
Qed.

Lemma alter_heap f x m : (forall r, heap m !! x = Some r -> x_stopTask (f r) = x_stopTask r) ->
  forall y r r', heap m !! y = Some r -> heap (set_heap (alter f x (heap m)) m) !! y = Some r' -> x_stopTask r' = x_stopTask r.
Proof.
  intros Hf y r r' Hy. cbn. rewrite lookup_alter_list. destruct (decide (x = y)) as [<-|]; rewrite Hy; cbn; intros [= <-]; auto.
Qed.
Lemma upd_calm x f P : (forall m r, Inv None m -> P m -> heap m !! x = Some r ->
    rec_write None None m x r (f r) /\ x_stopTask (f r) = x_stopTask r) ->
  calm P (upd x f) (fun _ _ => True) (fun _ _ => True).
Proof.
  intros H. apply calm_write.
  - intros m HI HP. destruct (heap m !! x) as [r|] eqn:Hx; [|rewrite rec_missing by done; by split_and!].
    destruct (upd_keeps None None m x f HI) as [? ?]; [by rewrite Hx|by intros r' Hr'; eapply H|].
    split_and!; [done| |done]. split_and!; [done|done|]. apply alter_heap. intros r' Hr'. by destruct (H m r' HI HP Hr').
  - done.
Qed.

(** Updates of fields that mean nothing to the invariant *)
Record cosmetic (f : Active -> Active) : Prop := {
  co_state : forall r, x_state r <> a_stopped -> x_state (f r) <> a_stopped;
  co_same : forall r, x_a (f r) = x_a r /\ x_startTask (f r) = x_startTask r /\ x_proc (f r) = x_proc r /\
    x_stopping (f r) = x_stopping r /\ x_cleanupTask (f r) = x_cleanupTask r /\ x_stopTask (f r) = x_stopTask r;
  co_watching : forall r, x_watching r = false -> x_watching (f r) = false;
  co_shut : forall r, shut r (f r) }.

Lemma cosmetic_write g m x r f : Inv None m -> heap m !! x = Some r -> cosmetic f ->
  rec_write g None m x r (f r) /\ x_stopTask (f r) = x_stopTask r.
Proof.
  intros HI Hx []. destruct (co_same0 r) as (H1 & H2 & H3 & H4 & H5 & H6). split; [|done].
  constructor; rewrite ?H4, ?H5; auto. apply co_state0. by apply (iv_state _ _ HI x).
Qed.
Lemma cosmetic_calm x f P : cosmetic f -> calm P (upd x f) (fun _ _ => True) (fun _ _ => True).
Proof. intros Hf. apply upd_calm. intros m r HI _ Hx. by apply cosmetic_write. Qed.

Lemma cosmetic_detail d : cosmetic (set_x_detail d).
Proof. done. Qed.
Lemma cosmetic_state s : s <> a_stopped -> cosmetic (set_x_state s).
Proof. intros Hs. by constructor. Qed.
Lemma cosmetic_comp f g : cosmetic f -> cosmetic g -> cosmetic (fun r => f (g r)).
Proof.
  intros [] []. constructor; [auto| |auto|intros r; eapply shut_trans; [apply co_shut1|apply co_shut0]].
  intros r. destruct (co_same1 r) as (H1 & H2 & H3 & H4 & H5 & H6), (co_same0 (g r)) as (G1 & G2 & G3 & G4 & G5 & G6).
  rewrite G1, G2, G3, G4, G5, G6. done.
Qed.
Lemma cosmetic_ports f : cosmetic (fun r => set_x_ports (f r) r).
Proof. done. Qed.
Lemma cosmetic_watching : cosmetic (set_x_watching false).
Proof. done. Qed.
Lemma cosmetic_timer : cosmetic (set_x_healthTimer false).
Proof. done. Qed.
Lemma cosmetic_serve f : (forall d, sv_running d = false -> sv_open d = [] -> sv_running (f d) = false /\ sv_open (f d) = []) ->
  cosmetic (fun r => set_x_serve (f <$> x_serve r) r).
Proof.
  intros Hf. constructor; [done..|]. intros r. constructor; try done. unfold serving_over. cbn.
  destruct (x_serve r) as [d|]; [|done]. intros []. by apply Hf.
Qed.
Lemma cosmetic_dialer f : (forall d, dl_servers d = [] -> dl_servers (f d) = []) ->
  cosmetic (fun r => set_x_dialer (f <$> x_dialer r) r).
Proof.
  intros Hf. constructor; [done..|]. intros r. constructor; try done. unfold dialer_closed. cbn.
  destruct (x_dialer r) as [d|]; [|done]. apply Hf.
Qed.
Lemma cosmetic_transports : cosmetic (fun r => set_x_dialer (closeAll <$> x_dialer r) (set_x_serve (sd_stop <$> x_serve r) r)).
Proof.
  constructor; [done..|]. intros r. constructor; try done; [unfold dialer_closed|unfold serving_over]; cbn;
    [by destruct (x_dialer r)|by destruct (x_serve r)].
Qed.

Lemma persist_calm P : calm P persist (fun _ _ => True) (fun _ _ => True).
Proof.
  unfold persist. apply sspec_get. intros m HI HP. destruct (diskOk m); [|by apply sspec_throw].
  apply frame_calm; try done. intros m' id rt HI' _ Hr Hs. by eapply (iv_reports _ _ HI').
Qed.

Lemma report_calm P id s d ports : s <> a_stopped -> calm P (report id s d ports) (fun _ _ => True) (fun _ _ => True).
Proof.
  intros Hs. apply frame_calm; try done. intros m id' rt HI _. unfold last_report. cbn.
  destruct (String.eqb id id'); [by intros [= <-]|]. by apply (iv_reports _ _ HI).
Qed.

(** Sequences of calm methods *)
Lemma calmly_bind {A B} (x : Sync A) (f : A -> Sync B) : calmly x -> (forall a, calmly (f a)) -> calmly (x ≫= f).
Proof. intros Hx Hf. eapply sspec_bind; [exact Hx|]. intros a. apply Hf. Qed.
Lemma calmly_get {A} (f : Agent -> Sync A) : (forall m, calmly (f m)) -> calmly (mget ≫= f).
Proof. intros Hf. apply sspec_get. intros m _ _. eapply sspec_conseq; [apply Hf|done..]. Qed.
Lemma calmly_ret {A} (a : A) : calmly (mret a).
Proof. by apply sspec_ret. Qed.
Lemma calmly_throw {A} e : calmly (@mthrow Agent string A e).
Proof. by apply sspec_throw. Qed.
Lemma calmly_result {A} (r : result string A) : calmly (of_result r).
Proof. intros m HI _. unfold of_result. split_and!; [done|reflexivity|]. by destruct r. Qed.

Lemma set_state_calm x s d : s <> a_stopped -> calmly (set_state x s d).
Proof.
  intros Hs. unfold set_state. apply calmly_get. intros m. destruct (_ || _); [apply calmly_ret|].
  apply calmly_bind; [by apply cosmetic_calm, cosmetic_state|]. intros _.
  apply calmly_bind; [destruct d; [apply cosmetic_calm, cosmetic_detail|apply calmly_ret]|]. intros _.
  apply calmly_bind; [apply calmly_get; intros m'; apply calmly_ret|]. intros r.
  apply calmly_bind; [by apply report_calm|]. intros _. apply persist_calm.
Qed.

(** The facts about a record after [assertStarting] *)
Definition allowed_to_start (x : nat) (m : Agent) : Prop :=
  x_stopping (rec m x) = false /\ active_get m (id_of (x_a (rec m x))) = Some x.
Lemma assertStarting_spec x P : calm P (assertStarting x) (fun _ m => P m /\ allowed_to_start x m) (fun _ _ => True).
Proof.
  intros m HI HP. unfold assertStarting, mbind, M_bind, mget. destruct (x_stopping (rec m x)) eqn:Hst; cbn.
  { split_and!; [done|reflexivity|done]. }
  destruct (bool_decide _) eqn:Ha; cbn; [|split_and!; [done|reflexivity|done]].
  apply bool_decide_eq_true in Ha. unfold of_result.
  destruct (assertOwnerAllows _ _) as [[]|]; (split; [exact HI|split; [reflexivity|]]); cbn; [by split_and!|done].
Qed.
Lemma assertStarting_calm x : calmly (assertStarting x).
Proof. eapply sspec_conseq; [apply (assertStarting_spec x (fun _ => True))|done..]. Qed.

(** ** New calls *)

Lemma pending_spawn m j t : pending m t -> pending (set_promises (promises m ++ [(j, None)]) m) t.
Proof.
  intros [H1 H2]. split; [|by rewrite spawn_settled]. destruct (job m t) as [k|] eqn:Hk; [|done].
  assert (job (set_promises (promises m ++ [(j, None)]) m) t = Some k) as ->; [|done]. apply spawn_job. by left.
Qed.
Lemma spawn_spec j P : tracked j = false -> (forall m, Inv None m -> P m -> new_job m j) ->
  calm P (spawn j) (fun q m => job m q = Some j) (fun _ _ => True).
Proof.
  intros Ht Hj m [HI Ho] HP. unfold spawn. cbn. destruct (spawn_keeps None m HI j) as (H1 & HL & HE); [by eauto|by rewrite Ht|].
  assert (guar None m (set_promises (promises m ++ [(j, None)]) m)) as H2.
  { split; [done|]. intros t _. apply HE. intros x' _ ->. done. }
  split_and!.
  - split; [done|]. intros t E. by apply pending_spawn, Ho.
  - split_and!; [done|done|]. intros x' r r' E1 E2. change (heap m !! x' = Some r') in E2. rewrite E1 in E2. by injection E2 as <-.
  - apply spawn_job. by right.
Qed.
Lemma spawn_calm j : tracked j = false -> (forall m, new_job m j) -> calmly (spawn j).
Proof. intros Ht Hj. eapply sspec_conseq; [apply (spawn_spec j (fun _ => True)); auto|done..]. Qed.

(** ** Processes *)

Lemma upd_proc_calm p g P : (forall m pr, Inv None m -> P m -> procs m !! p = Some pr -> proc_later pr (g pr) /\
    (pr_running pr = false -> pr_running (g pr) = false \/ forall r, heap m !! pr_owner pr = Some r -> x_stopping r = false)) ->
  calm P (upd_proc p g) (fun _ _ => True) (fun _ _ => True).
Proof.
  intros Hg. apply calm_write; [|done]. intros m HI HP. destruct (proc_keeps None None m p g HI) as [? ?]; [by intros; eauto|].
  split_and!; [done| |done]. split_and!; [done|done|]. intros x' r r' E1 E2. change (heap m !! x' = Some r') in E2. rewrite E1 in E2. by injection E2 as <-.
Qed.
Lemma signal_calm p g P : (forall pr, pr_owner (g pr) = pr_owner pr /\ pr_limits (g pr) = pr_limits pr /\
    pr_pid (g pr) = pr_pid pr /\ (pr_exited pr = true -> pr_exited (g pr) = true)) ->
  calm P (upd_proc p g) (fun _ _ => True) (fun _ _ => True).
Proof.
  intros Hg. apply upd_proc_calm. intros m pr _ _ _. destruct (Hg pr) as (H1 & H2 & H3 & H4). split; [by constructor|].
  unfold pr_running. rewrite H3. intros Hr. left. destruct (present (pr_pid pr)); [|done]. cbn in *.
  destruct (pr_exited pr); [by rewrite H4|done].
Qed.

Lemma kill_calm p sg : calmly (upd_proc p (fun pr => set_pr_signals (sg :: pr_signals pr) pr)).
Proof. apply signal_calm. by intros. Qed.
Lemma dirs_calm f : calmly (mmodify (fun m => set_dirs (f m) m)).
Proof. apply frame_calm; try done. intros m id rt HI _ Hr Hs. by eapply (iv_reports _ _ HI). Qed.
Lemma make_directory_calm dir : calmly (make_directory dir).
Proof.
  apply frame_calm; try (intros m; by case_bool_decide). intros m id rt HI _ Hr Hs. eapply (iv_reports _ _ HI); [|done].
  revert Hr. by case_bool_decide.
Qed.

Definition stop_token (p : nat) (s : option (nat * Z)) (m : Agent) : Prop :=
  match s with Some (q, _) => q = p | None => is_running m p = false end.

Lemma proc_stop_begin_spec p g : calm (fun _ => True) (proc_stop_begin p g) (fun s m => stop_token p s m) (fun _ _ => True).
Proof.
  unfold proc_stop_begin. apply sspec_get. intros m HI _. destruct (procs m !! p) as [pr|] eqn:Hp.
  - destruct (present (pr_pid pr) && negb (pr_exited pr)) eqn:Hr.
    + eapply sspec_bind; [apply signal_calm; by intros|]. intros ?. by apply sspec_ret.
    + apply sspec_ret. intros m' _ ->. cbn. unfold is_running. by rewrite Hp.
  - apply sspec_ret. intros m' _ ->. cbn. unfold is_running. by rewrite Hp.
Qed.
Lemma proc_stop_begin_calm p g : calmly (proc_stop_begin p g).
Proof. eapply sspec_conseq; [apply proc_stop_begin_spec|done..]. Qed.

(** ** Cleanup *)

(** A fact that no turn takes away survives a calm method. *)
Lemma calm_frame {A} P F (x : Sync A) (Q : A -> Agent -> Prop) E : stable F -> calm P x Q E ->
  calm (fun m => P m /\ F m) x (fun a m => Q a m /\ F m) (fun e m => E e m /\ F m).
Proof.
  intros HF H m HI [HP Hm]. destruct (H m HI HP) as (H1 & H2 & H3). split_and!; [done..|].
  assert (F (x m).2) by (eapply HF; [apply (proj1 H2)|done]). destruct (x m).1; by split.
Qed.

(** [x] is stopping, with process [p] from now on. *)
Definition being_stopped (x : nat) (p : option nat) (m : Agent) : Prop :=
  exists r, heap m !! x = Some r /\ x_stopping r = true /\ x_watching r = false /\ x_proc r = p.
Lemma being_stopped_stable x p : stable (being_stopped x p).
Proof.
  intros m m' L (r & Hr & H1 & H2 & H3). destruct (lt_heap _ _ L x r Hr) as (r' & Hr' & L').
  destruct (rl_stopping _ _ _ _ L' H1) as (G1 & G2 & _ & G3 & _). exists r'. split_and!; [done..|auto|congruence].
Qed.

Definition cleanup_of (x q : nat) (m : Agent) : Prop := exists s, job m q = Some (KCleanup x s).
Lemma cleanup_of_stable x q : stable (cleanup_of x q).
Proof. intros m m' L [s Hs]. exists s. by apply (lt_job _ _ L). Qed.

Lemma upd_then x f P (Q : Agent -> Prop) :
  (forall m r, Inv None m -> P m -> heap m !! x = Some r -> rec_write None None m x r (f r) /\ x_stopTask (f r) = x_stopTask r) ->
  (forall m, Inv None m -> P m -> Q (set_heap (alter f x (heap m)) m)) -> calm P (upd x f) (fun _ => Q) (fun _ _ => True).
Proof.
  intros H HQ m HI HP. destruct (upd_calm x f P H m HI HP) as (H1 & H2 & _). split_and!; [done..|]. cbn. by apply HQ; [apply HI|].
Qed.

Lemma alter_rec f x m r : heap m !! x = Some r -> heap (set_heap (alter f x (heap m)) m) !! x = Some (f r).
Proof. intros H. cbn. rewrite lookup_alter_list, decide_True by done. by rewrite H. Qed.

Lemma cleanup_spec x : calm (known x) (cleanup x) (fun q m => cleanup_of x q m) (fun _ _ => True).
Proof.
  unfold cleanup, get_rec. eapply (sspec_bind _ _ _ (fun r m => heap m !! x = Some r)).
  { apply sspec_get. intros m _ [r Hr]. apply sspec_ret. intros m' _ ->. by rewrite (rec_eq _ _ _ Hr). }
  intros r. destruct (x_cleanupTask r) as [q|] eqn:Hc.
  { apply sspec_ret. intros m [HI _] Hr. by apply (iv_cleaning _ _ HI x r). }
  eapply (sspec_bind _ _ _ (fun _ m => exists r', heap m !! x = Some r' /\ x_stopping r' = true /\ x_proc r' = x_proc r)).
  { apply upd_then.
    - intros m r' HI Hr Hr'. rewrite Hr in Hr'. injection Hr' as <-.
      split; [|done]. by constructor; [done|left|done|apply (iv_state _ _ HI x r)|done|left|left|].
    - intros m _ Hr. exists (set_x_stopping true r). split; [by apply alter_rec|done]. }
  intros _. eapply (sspec_bind _ _ _ (fun _ m => exists r', heap m !! x = Some r' /\ x_stopping r' = true /\ x_proc r' = x_proc r)).
  { apply upd_then; [intros m r' HI _ Hr'; apply cosmetic_write; [done..|apply cosmetic_timer]|].
    intros m _ (r' & Hr' & H). eexists. split; [by apply alter_rec|done]. }
  intros _. eapply (sspec_bind _ _ _ (fun _ => being_stopped x (x_proc r))).
  { apply upd_then; [intros m r' HI _ Hr'; apply cosmetic_write; [done..|apply cosmetic_watching]|].
    intros m _ (r' & Hr' & H1 & H2). eexists. split_and!; [by apply alter_rec|done..]. }
  intros _. eapply (sspec_bind _ _ _ (fun _ => being_stopped x (x_proc r))).
  { eapply sspec_conseq; [apply (calm_frame (fun _ => True)); [apply (being_stopped_stable x (x_proc r))|]|..].
    - apply cosmetic_calm, cosmetic_transports.
    - done.
    - by intros _ m _ [].
    - done. }
  intros _. eapply (sspec_bind _ _ _ (fun s m => match x_proc r with Some p => stop_token p s m | None => s = None end /\ being_stopped x (x_proc r) m)).
  { destruct (x_proc r) as [p|]; [|by apply sspec_ret].
    eapply sspec_conseq; [apply (calm_frame (fun _ => True)); [apply (being_stopped_stable x (Some p))|apply proc_stop_begin_spec]|done..]. }
  intros s. eapply (sspec_bind _ _ _ (fun q => cleanup_of x q)).
  { eapply sspec_conseq; [apply spawn_spec; [done|]|..].
    - intros m _ H. exact H.
    - intros m _ H. destruct H as [Hs (r' & Hr' & H1 & H2 & H3)].
      exists r'. split_and!; [done..|]. destruct (x_proc r) as [p|]; [|by subst; rewrite H3].
      destruct s as [[p' d]|]; cbn in Hs; [by subst|]. by rewrite H3.
    - intros q m _ H. by exists s.
    - done. }
  intros q. eapply (sspec_bind _ _ _ (fun _ => cleanup_of x q)).
  { apply upd_then.
    - intros m r' HI [s' Hs'] Hr'.
      split; [|done]. constructor; [done|by left|done|by apply (iv_state _ _ HI x r')|done| |by left|done].
      intros q' [= <-]. right. by exists s'.
    - by intros m _ H. }
  intros _. eapply (sspec_bind _ _ _ (fun _ => cleanup_of x q)).
  { eapply sspec_conseq; [apply (calm_frame (fun _ => True)); [apply (cleanup_of_stable x q)|by apply spawn_calm]|done|by intros ? ? _ []|done]. }
  intros _. by apply sspec_ret.
Qed.

Lemma fail_calm x why : calm (known x) (fail x why) (fun _ _ => True) (fun _ _ => True).
Proof.
  unfold fail, get_rec. eapply (sspec_bind _ _ _ (fun _ => known x)).
  { apply sspec_get. intros m _ Hk. apply sspec_ret. by intros m' _ ->. }
  intros r. destruct (x_stopping r); [by apply sspec_ret|].
  assert (forall B (y : Sync B), calmly y -> calm (known x) y (fun _ => known x) (fun _ _ => True)) as Hk.
  { intros B y Hy. eapply sspec_conseq; [apply (calm_frame (fun _ => True)); [apply (known_stable x)|exact Hy]|done|by intros ? ? _ []|done]. }
  eapply sspec_bind; [apply Hk, cosmetic_calm|].
  { apply (cosmetic_comp (set_x_detail (Some why))); [apply cosmetic_detail|by apply cosmetic_state]. }
  intros ?. eapply sspec_bind; [by apply Hk, report_calm|].
  intros ?. eapply sspec_bind; [apply cleanup_spec|]. intros q. cbn beta.
  apply calm_weaken. apply calmly_bind; [by apply spawn_calm|]. intros ?. apply calmly_ret.
Qed.
End sync.

Create HintDb calm discriminated.
#[export] Hint Resolve persist_calm report_calm set_state_calm assertStarting_calm spawn_calm proc_stop_begin_calm
  kill_calm dirs_calm make_directory_calm calmly_ret calmly_throw calmly_result : calm.
#[export] Hint Resolve cosmetic_detail cosmetic_ports cosmetic_watching cosmetic_timer cosmetic_transports : calm.
#[export] Hint Extern 1 (_ <> a_stopped) => discriminate : calm.
