(* ===== verification/AgentTasks.v ===== *)
(** * The node agent: its asynchronous calls keep the invariant

    Call [t] runs under the rely-guarantee triple of [Rules]: whatever the other calls, the engines, the timers, the
    owner and control do at its awaits, each of its segments keeps [Inv] and changes only what it may.
    [plain F x]: so does [x], keeping also the facts [F] that last for [t]. *)

From S2P Require Import Prelude Async Rules JsNum Json Types Recipes Identity ServeDial AgentState Agent AgentInv AgentRules.

Local Open Scope list_scope.
Local Open Scope Z_scope.

(** An answer that an await can get. *)
Definition valid (w : Wait) (a : ans w) (m : Agent) : Prop := exists n, answer m w n = Some a.

Lemma rely_later t m m' : rely t m m' -> later m m'.
Proof. by intros [? _]. Qed.
Lemma still_rely t m m' : still m m' -> rely t m m'.
Proof. intros ([L E] & _). split; [done|]. by apply E. Qed.
Lemma still_guar o m m' : still m m' -> guar o m m'.
Proof. intros (H & _). by apply guar_weaken. Qed.

Lemma stable_lasting t P : stable P -> lasting t P.
Proof. intros H m m' HR. by apply H, (rely_later t). Qed.
Lemma lasting_and t P Q : lasting t P -> lasting t Q -> lasting t (fun m => P m /\ Q m).
Proof. intros HP HQ m m' HR []. split; eauto. Qed.
Lemma lasting_true t : lasting t (fun _ => True).
Proof. done. Qed.

Lemma async_get_rec {A} x (f : Active -> Async A) m : (lift (get_rec x) ≫= f) m = f (rec m x) m.
Proof. done. Qed.

Section task.
Context (host : AgentHost) (t : nat).

Abbreviation task P x Q E := (rg valid (running_inv (Some t)) (rely t) (guar (Some t)) P x Q E).
Abbreviation calm P x Q E := (sspec (running_inv (Some t)) still P x Q E).
Abbreviation calmly x := (sspec (running_inv (Some t)) still (fun _ => True) x (fun _ _ => True) (fun _ _ => True)).

(** A calm method as a step of the call; facts that last stay. *)
Lemma task_calm {A} P F (x : Sync A) (Q : A -> Agent -> Prop) E : lasting t F -> calm P x Q E ->
  task (fun m => P m /\ F m) (lift x) (fun a m => Q a m /\ F m) (fun e m => E e m /\ F m).
Proof.
  intros HF H. apply rg_lift. intros m HI [HP Hm]. destruct (H m HI HP) as (H1 & H2 & H3).
  split_and!; [done|by apply still_guar|].
  assert (F (x m).2) by (eapply HF; [by apply still_rely|done]). destruct (x m).1; by split.
Qed.

Lemma task_await w P (Q : ans w -> Agent -> Prop) E : lasting t P ->
  (forall a m, running_inv (Some t) m -> P m -> valid w a m -> Q a m) -> task P (await w) Q E.
Proof. intros HP HQ. apply rg_await; [|done]. intros m m' _ _. apply HP. Qed.

Section plain.
Context (F : Agent -> Prop) (HF : lasting t F).
Abbreviation plain x := (task F x (fun _ => F) (fun _ => F)).

Lemma plain_calm {A} (x : Sync A) : calmly x -> plain (lift x).
Proof using HF.
  intros H. eapply rg_conseq; [by apply (task_calm (fun _ => True) F)|done|..].
  - by intros a m _ [].
  - by intros e m _ [].
Qed.
Lemma plain_ret {A} (a : A) : plain (mret a).
Proof. by apply rg_ret. Qed.
Lemma plain_throw {A} e : plain (athrow (A := A) e).
Proof. by apply rg_throw. Qed.
Lemma plain_result {A} (r : result string A) : plain (settle_result r).
Proof. apply rg_result. intros m _ Hm. by destruct r. Qed.
Lemma plain_bind {A B} (x : Async A) (f : A -> Async B) : plain x -> (forall a, plain (f a)) -> plain (x ≫= f).
Proof. intros Hx Hf. eapply rg_bind; [exact Hx|exact Hf]. Qed.
Lemma plain_get {A} (f : Agent -> Async A) : (forall m, plain (f m)) -> plain (lift mget ≫= f).
Proof. intros Hf m0 m HI HG HP. rewrite async_get. by apply Hf. Qed.
Lemma plain_rec {A} x (f : Active -> Async A) : (forall r, plain (f r)) -> plain (lift (get_rec x) ≫= f).
Proof using HF. intros Hf. apply plain_bind; [|done]. apply plain_calm. apply calmly_get. intros m. apply calmly_ret. Qed.
Lemma plain_await w : plain (await w).
Proof using HF. by apply task_await. Qed.
Lemma plain_catch {A} (x : Async A) h : plain x -> (forall e, plain (h e)) -> plain (acatch x h).
Proof. intros Hx Hh. eapply rg_catch; [exact Hx|exact Hh]. Qed.
Lemma plain_rounds {A B} n (body : B -> Async (B + A)) : (forall b, plain (body b)) -> forall b, plain (rounds n b body).
Proof.
  intros Hb. induction n as [|n IH]; intros b; [apply plain_throw|]. apply plain_bind; [apply Hb|].
  intros [b'|a]; [apply IH|apply plain_ret].
Qed.
Lemma plain_sleep ms : plain (asleep ms).
Proof using HF. apply plain_get. intros m. apply plain_await. Qed.
Lemma plain_poll {A B} timeoutMs stepMs (b : B) late (body : B -> Async (B + A)) :
  (forall b, plain (body b)) -> plain (poll timeoutMs stepMs b late body).
Proof using HF.
  intros Hb. apply plain_get. intros m. apply plain_rounds. intros b'. apply plain_get. intros m'.
  destruct (_ <=? _); [apply plain_ret|]. apply plain_bind; [apply Hb|]. intros [c|a]; [|apply plain_ret].
  apply plain_bind; [apply plain_sleep|]. intros _. apply plain_ret.
Qed.
Lemma plain_for {A} (l : list A) body : (forall a, plain (body a)) -> plain (afor l body).
Proof. intros Hb. induction l as [|a l IH]; [apply plain_ret|]. apply plain_bind; [apply Hb|]. by intros _. Qed.
End plain.
End task.

Create HintDb plain discriminated.
#[export] Hint Resolve plain_ret plain_throw plain_result plain_await plain_sleep : plain.

(** One construct of a method; what is left is a method with a lemma in [plain], or a write. *)
Ltac plain_step :=
  match goal with
  | |- forall _, _ => intros ?
  | |- rg _ _ _ _ _ (lift mget ≫= _) _ _ => apply plain_get; intros ?
  | |- rg _ _ _ _ _ (lift (get_rec _) ≫= _) _ _ => apply plain_rec; [assumption|]; intros ?
  | |- rg _ _ _ _ _ (_ ≫= _) _ _ => apply plain_bind; [|intros ?]
  | |- rg _ _ _ _ _ (mret _) _ _ => apply plain_ret
  | |- rg _ _ _ _ _ (athrow _) _ _ => apply plain_throw
  | |- rg _ _ _ _ _ (settle_result _) _ _ => apply plain_result
  | |- rg _ _ _ _ _ (await _) _ _ => apply plain_await; assumption
  | |- rg _ _ _ _ _ (asleep _) _ _ => apply plain_sleep; assumption
  | |- rg _ _ _ _ _ (acatch _ _) _ _ => apply plain_catch; [|intros ?]
  | |- rg _ _ _ _ _ (rounds _ _ _) _ _ => apply plain_rounds; intros ?
  | |- rg _ _ _ _ _ (poll _ _ _ _ _) _ _ => apply plain_poll; [assumption|]; intros ?
  | |- rg _ _ _ _ _ (afor _ _) _ _ => apply plain_for; intros ?
  | |- rg _ _ _ _ _ (lift _) _ _ => apply plain_calm; [assumption|]; solve [eauto with calm nocore | apply cosmetic_calm; eauto with calm nocore]
  | |- rg _ _ _ _ _ (let _ := _ in _) _ _ => cbv zeta
  | |- rg _ _ _ _ _ (if ?b then _ else _) _ _ => destruct b
  | |- rg _ _ _ _ _ (match ?x with _ => _ end) _ _ => destruct x
  end.
Ltac plain := repeat first [solve [eauto with plain nocore] | plain_step].

Section methods.
Context (host : AgentHost) (t : nat) (F : Agent -> Prop) (HF : lasting t F).
Abbreviation plain x := (rg valid (running_inv (Some t)) (rely t) (guar (Some t)) F x (fun _ => F) (fun _ => F)).

Lemma await_promise_plain q : plain (await_promise q).
Proof using HF. unfold await_promise. plain. Qed.
Lemma waitForPort_plain port p ms : plain (waitForPort port p ms).
Proof using HF. unfold waitForPort. plain. Qed.
Lemma waitForHealth_plain url p ms : plain (waitForHealth url p ms).
Proof using HF. unfold waitForHealth. plain. Qed.
Lemma maintenance_plain ext v : plain (maintenance ext v).
Proof using HF. unfold maintenance. plain. Qed.
Lemma enforce_plain u argv l : plain (enforce host u argv l).
Proof using HF. unfold enforce. plain. Qed.
Lemma proc_stop_wait_plain p d : plain (proc_stop_wait p d).
Proof using HF. unfold proc_stop_wait. plain. Qed.
Lemma wait_stopped_plain s : plain (wait_stopped s).
Proof using HF. destruct s as [[p d]|]; [apply proc_stop_wait_plain|plain]. Qed.
Lemma remove_directory_plain id : plain (remove_directory host id).
Proof using HF. unfold remove_directory. plain. Qed.
Lemma check_plain x ext : plain (check x ext).
Proof using HF.
  unfold check. apply plain_bind; [apply waitForHealth_plain|]. intros ok. plain. apply plain_calm; [done|].
  apply set_state_calm. by destruct ok.
Qed.
Lemma recover_plain : plain (recover host).
Proof using HF.
  unfold recover. plain. unfold recover_one. plain; [apply remove_directory_plain|apply maintenance_plain].
Qed.
Lemma forget_plain x q : plain (acatch (await_promise q) (fun _ => lift (upd x (set_x_cleanupTask None)))).
Proof using HF.
  apply plain_catch; [apply await_promise_plain|]. intros _. apply plain_calm; [done|]. apply upd_calm.
  intros m r HI _ Hr. split; [|done]. constructor; [done|by left|done|by apply (iv_state _ _ HI x r)|done|done|by left|done].
Qed.
Lemma after_fail_plain q : plain (acatch (await_promise q ;; lift persist) (fun _ => mret tt)).
Proof using HF. plain. apply await_promise_plain. Qed.
Lemma kill_plain p : plain (s ← lift (proc_stop_begin p 5000); wait_stopped s).
Proof using HF. plain. apply wait_stopped_plain. Qed.
Lemma fill_plain x want : plain (fill_rest x want).
Proof using HF.
  unfold fill_rest. plain. apply plain_calm; [done|]. apply cosmetic_calm, cosmetic_serve. intros d Hr Ho.
  unfold fill_end. rewrite Hr, Ho. done.
Qed.
End methods.

#[export] Hint Resolve await_promise_plain waitForPort_plain waitForHealth_plain maintenance_plain enforce_plain
  wait_stopped_plain remove_directory_plain check_plain : plain.

(** ** Starting *)

Section start.
Context (host : AgentHost) (t x : nat).

(** Call [t] starts [x]; and it has not started an engine yet. *)
Definition starter (m : Agent) : Prop := exists r, heap m !! x = Some r /\ x_startTask r = Some t.
Definition fresh_starter (m : Agent) : Prop :=
  exists r, heap m !! x = Some r /\ x_startTask r = Some t /\ x_proc r = None /\ managed (x_a r) = true.

Lemma starter_stable : stable starter.
Proof.
  intros m m' L (r & Hr & Hs). destruct (lt_heap _ _ L x r Hr) as (r' & Hr' & L'). exists r'. split; [done|]. by apply (rl_start _ _ _ _ L').
Qed.
Lemma fresh_lasting : lasting t fresh_starter.
Proof.
  intros m m' [L E] (r & Hr & Hs & Hp & Hm). destruct (lt_heap _ _ L x r Hr) as (r' & Hr' & L'). exists r'.
  split_and!; [done|by apply (rl_start _ _ _ _ L')| |by rewrite (rl_a _ _ _ _ L')].
  destruct (ex_rec _ _ _ E x r r' Hr Hr') as [H _]. by rewrite H.
Qed.
Lemma starter_known m : starter m -> known x m.
Proof. intros (r & Hr & _). by exists r. Qed.
Lemma fresh_starts m : fresh_starter m -> starter m.
Proof. intros (r & Hr & Hs & _). by exists r. Qed.

(** Fields of [x] that only its start may set while it runs. *)
Definition own_write (f : Active -> Active) : Prop := forall r,
  x_a (f r) = x_a r /\ x_startTask (f r) = x_startTask r /\ x_proc (f r) = x_proc r /\ x_state (f r) = x_state r /\
  x_stopping (f r) = x_stopping r /\ x_watching (f r) = x_watching r /\
  x_cleanupTask (f r) = x_cleanupTask r /\ x_stopTask (f r) = x_stopTask r.

Lemma own_write_calm f P : own_write f -> (forall m, P m -> starter m) ->
  sspec (running_inv (Some t)) still P (upd x f) (fun _ _ => True) (fun _ _ => True).
Proof.
  intros Hf HP m HI Hm. eapply (upd_calm (Some t) x f (fun m => P m /\ pending m t)); [|done|split; [done|by apply HI]].
  intros m' r HI' [Hm' Hpend] Hr. destruct (Hf r) as (H1 & H2 & H3 & H4 & H5 & H6 & H7 & H8). split; [|done].
  constructor; rewrite ?H1, ?H2, ?H3, ?H4, ?H5, ?H6, ?H7, ?H8; auto; [by apply (iv_state _ _ HI' x)|].
  intros _ Hfin. destruct (HP m' Hm') as (r' & Hr' & Hs). rewrite Hr in Hr'. injection Hr' as <-.
  rewrite Hs in Hfin. by destruct Hpend.
Qed.

Section own.
Context (F : Agent -> Prop) (HF : lasting t F) (HS : forall m, F m -> starter m).
Abbreviation plain x := (rg valid (running_inv (Some t)) (rely t) (guar (Some t)) F x (fun _ => F) (fun _ => F)).

Lemma own_plain f : own_write f -> plain (lift (upd x f)).
Proof using HF HS.
  intros Hf. eapply rg_conseq; [apply (task_calm t F F _ (fun _ _ => True) (fun _ _ => True)); [done|by apply own_write_calm]|done|..].
  - by intros a m _ [].
  - by intros e m _ [].
Qed.

(** The writes to [x] that are left *)
Ltac own := plain; try (apply own_plain; done).

Lemma dialer_open_plain e : plain (dialer_open x e).
Proof using HF HS. unfold dialer_open. own. Qed.
Lemma open_all_plain l : plain (open_all x l).
Proof using HF HS. induction l as [|[name e] l IH]; cbn [open_all]; own. apply dialer_open_plain. Qed.
Lemma stop_external_plain ext d : plain (stop_external host x ext d).
Proof using HF HS. unfold stop_external. own. Qed.
Lemma await_memory_plain ext need free : plain (await_memory host x ext need free).
Proof using HF HS. unfold await_memory. own. Qed.
Lemma fitGate_plain fit ext req : plain (fitGate host x fit ext req).
Proof using HF HS. unfold fitGate. own; [apply stop_external_plain|apply await_memory_plain]. Qed.
Lemma start_serving_plain target port : plain (lift (start_serving x target port)).
Proof using HF HS.
  unfold start_serving. destruct (sd_start target port _) as [d want] eqn:Hd.
  eapply rg_conseq; [apply (task_calm t F F _ (fun _ _ => True) (fun _ _ => True)); [done|]|done|by intros a m _ []|by intros e m _ []].
  eapply sspec_bind; [apply own_write_calm; done|]. intros ?. apply calm_weaken. destruct want; [|apply calmly_ret].
  apply calmly_bind; [by apply spawn_calm|]. intros _. apply calmly_ret.
Qed.
End own.
End start.
