(* ===== verification/AgentStart.v ===== *)
(** * The node agent: starting an assignment

    [start_task] in two phases: until [start_engine], whose process the record takes under the owner's current
    limits while it is neither stopping nor retired, and after it. *)

From S2P Require Import Prelude Async Rules JsNum Json Types Recipes Identity ServeDial AgentState Agent AgentInv AgentRules AgentTasks.

Local Open Scope list_scope.
Local Open Scope Z_scope.

Section start.
Context (host : AgentHost) (t x : nat).
Abbreviation starter := (starter t x).
Abbreviation fresh_starter := (fresh_starter t x).
Abbreviation task P x Q E := (rg valid (running_inv (Some t)) (rely t) (guar (Some t)) P x Q E).
Abbreviation calm P x Q E := (sspec (running_inv (Some t)) still P x Q E).

(** ** The engine *)

(** The limits [l] are within the offer, for as long as [x] is in the map. *)
Definition offered (l : Z * Z) (m : Agent) : Prop := fresh_starter m /\ (is_active m x -> limits_ok (offer_of m) l).

Lemma offered_lasting l : lasting t (offered l).
Proof.
  intros m m' HR [Hf Ho]. split; [by eapply fresh_lasting|]. intros Ha. destruct HR as [L _].
  destruct Hf as (r & Hr & _ & _ & Hm). destruct (Ho (lt_active _ _ L x r Hr Ha)) as [H1 H2].
  destruct (lt_offer _ _ L x r Hr Hm Ha). unfold limits_ok in *. lia.
Qed.

(** Between [assertStarting] and the end of the segment *)
Definition cleared (l : Z * Z) (m : Agent) : Prop := offered l m /\ allowed_to_start x m.

Lemma cleared_detail l d : calm (cleared l) (upd x (set_x_detail d)) (fun _ => cleared l) (fun _ _ => True).
Proof.
  intros m HI [Ho Ha]. destruct (cosmetic_calm (Some t) x (set_x_detail d) (fun _ => True) (cosmetic_detail d) m HI I) as (H1 & H2 & _).
  split_and!; [done..|]. split; [eapply offered_lasting; [by apply still_rely|done]|].
  destruct Ho as [(r & Hr & _) _]. unfold allowed_to_start in *. pose proof (alter_rec (set_x_detail d) x m r Hr) as Hr'.
  cbn [upd mmodify snd] in *. rewrite (rec_eq _ _ _ Hr'). rewrite (rec_eq _ _ _ Hr) in Ha. exact Ha.
Qed.

Definition new_engine (name : string) (l : Z * Z) : Proc :=
  {| pr_name := name; pr_owner := x; pr_pid := None; pr_exited := false; pr_exit := None; pr_stopping := false;
     pr_signals := []; pr_identity := None; pr_lines := []; pr_limits := l |}.

Definition launched (p : nat) (m : Agent) : Prop := exists r pr, heap m !! x = Some r /\ x_startTask r = Some t /\
  x_stopping r = false /\ procs m !! p = Some pr /\ pr_owner pr = x.
Lemma launched_starter p m : launched p m -> starter m.
Proof. intros (r & _ & Hr & Hs & _). by exists r. Qed.

Lemma engine_spec name l m : cleared l m ->
  sspec (running_inv (Some t)) (guar (Some t)) (fun m' => m' = m)
    (mmodify (fun m => set_procs (procs m ++ [new_engine name l]) m) ;; upd x (set_x_proc (Some (length (procs m)))) ;; mret tt)
    (fun _ => launched (length (procs m))) (fun _ _ => True).
Proof.
  intros [[(r & Hr & Hs & Hp & Hm) Hl] [Hst Ha]] m' [HI Hpend] ->. rewrite (rec_eq _ _ _ Hr) in Hst, Ha.
  destruct (write_keeps (Some t) None (Some (new_engine name l)) m x (set_x_proc (Some (length (procs m)))) HI) as [H1 H2].
  { by exists r. }
  { intros r' Hr'. rewrite Hr in Hr'. injection Hr' as <-.
    constructor; [done|by left| |by apply (iv_state _ _ HI x r)|done|by left|by left|done].
    split_and!; try done; [by exists t|]. apply Hl. by apply (proj2 (is_active_get None m x r HI Hr)). }
  match type of H1 with Inv _ ?m1 =>
    change (keeps (running_inv (Some t)) (guar (Some t)) (fun _ => launched (length (procs m))) (fun _ _ => True) m (Ok tt) m1) end.
  split; [by split|split; [done|]].
  exists (set_x_proc (Some (length (procs m))) r), (new_engine name l). split_and!; [|done..| |done]; cbn.
  - rewrite lookup_alter_list, decide_True by done. by rewrite Hr.
  - apply lookup_snoc. by right.
Qed.

Lemma launched_write p f : (forall r, x_a (f r) = x_a r /\ x_startTask (f r) = x_startTask r /\ x_proc (f r) = x_proc r /\
    x_state (f r) = x_state r /\ x_stopping (f r) = x_stopping r /\ x_cleanupTask (f r) = x_cleanupTask r /\
    x_stopTask (f r) = x_stopTask r) ->
  calm (launched p) (upd x f) (fun _ => launched p) (fun _ _ => True).
Proof.
  intros Hf. apply upd_then.
  - intros m r HI (r' & pr & Hr & Hs & Hst & _) Hr'. rewrite Hr in Hr'. injection Hr' as ->.
    destruct (Hf r) as (H1 & H2 & H3 & H4 & H5 & H6 & H7). split; [|done].
    constructor; rewrite ?H1, ?H2, ?H3, ?H4, ?H5, ?H6, ?H7; auto; [by apply (iv_state _ _ HI x)|congruence..].
  - intros m _ (r & pr & Hr & Hs & Hst & Hp & Ho). destruct (Hf r) as (_ & H2 & _ & _ & H5 & _).
    exists (f r), pr. split_and!; [by apply alter_rec|congruence..|done|done].
Qed.

Lemma launched_proc p g : (forall pr, proc_later pr (g pr)) ->
  calm (launched p) (upd_proc p g) (fun _ => launched p) (fun _ _ => True).
Proof.
  intros Hg m HI Hm. destruct (upd_proc_calm (Some t) p g (launched p)) with m as (H1 & H2 & _); [|done..|].
  - intros m' pr _ (r & pr' & Hr & _ & Hst & Hp & Ho) Hpr. split; [apply Hg|]. intros _. right.
    rewrite Hp in Hpr. injection Hpr as <-. rewrite Ho. intros r' Hr'. rewrite Hr in Hr'. by injection Hr' as <-.
  - split_and!; [done..|]. destruct Hm as (r & pr & Hr & Hs & Hst & Hp & Ho). exists r, (g pr). cbn.
    split_and!; [done..| |by rewrite (pl_owner _ _ (Hg pr))]. rewrite lookup_alter_list, decide_True by done. by rewrite Hp.
Qed.

Lemma proc_start_spec p argv env : calm (launched p) (proc_start host p argv env) (fun _ => launched p) (fun _ => starter).
Proof.
  assert (forall P (y : Sync unit), calm P y (fun _ => launched p) (fun _ _ => True) -> (forall m e, (y m).1 <> Err e) ->
    calm P y (fun _ => launched p) (fun _ => starter)) as Hok.
  { intros P y Hy Hn m HI HP. destruct (Hy m HI HP) as (H1 & H2 & H3). split_and!; [done..|].
    destruct (y m).1 eqn:E; [done|]. by destruct (Hn m e). }
  unfold proc_start. apply sspec_get. intros m _ Hm.
  destruct (h_spawn host p argv env) as [pid|e]; [|apply sspec_throw; intros m' _ ->; by eapply launched_starter].
  eapply (sspec_bind _ _ _ (fun _ => launched p)).
  { apply Hok; [|done]. eapply sspec_conseq; [apply launched_proc; done|by intros m' _ ->|done|done]. }
  intros _. destruct (h_identify host p pid) as [i|e]; [apply Hok; [by apply launched_proc|done]|].
  eapply (sspec_bind _ _ _ (fun _ => launched p)); [apply Hok; [by apply launched_proc|done]|].
  intros _. apply sspec_throw. intros m' _. apply launched_starter.
Qed.

Lemma start_engine_task name argv env limits :
  task fresh_starter (start_engine host x name argv env limits) (fun _ => starter) (fun _ => starter).
Proof.
  unfold start_engine. apply rg_get. intros m _ Hf. cbv zeta.
  set (l := (default _ _, default _ _)).
  change (default (of_ramMiB (nc_offer (cfg m))) (limits ≫= ef_ramMiB)) with l.1.
  change (default (of_cpuCores (nc_offer (cfg m))) (limits ≫= ef_cpuCores)) with l.2.
  destruct (over l.1 _ || over l.2 _) eqn:Hover; [apply rg_throw; intros m' _ ->; by apply fresh_starts|].
  eapply (rg_bind _ _ _ _ _ (fun _ => offered l)).
  { eapply rg_conseq; [apply (enforce_plain host t (offered l)), offered_lasting|..].
    - intros m' _ ->. split; [done|]. intros _. unfold over in Hover. bool_to_prop. unfold limits_ok, offer_of. lia.
    - done.
    - intros e m' _ [H _]. by apply fresh_starts. }
  intros enf. eapply (rg_bind _ _ _ _ _ (fun _ => cleared l)).
  { eapply rg_conseq; [apply (task_calm t (offered l) (offered l)); [apply offered_lasting|apply (assertStarting_spec _ x (offered l))]|by intros m' _ H|..].
    - intros [] m' _ [[H1 H2] _]. by split.
    - intros e m' _ [_ [H _]]. by apply fresh_starts. }
  intros _. eapply (rg_bind _ _ _ _ _ (fun _ => cleared l)).
  { apply rg_lift. intros m' HI Hc. destruct (cleared_detail l (Some (en_summary enf)) m' HI Hc) as (H1 & H2 & H3).
    split_and!; [done|by apply still_guar|exact H3]. }
  intros _. apply rg_get. intros m' _ Hc.
  eapply rg_eq; [intros m''; apply lift_lift|].
  eapply (rg_bind _ _ _ _ _ (fun _ => launched (length (procs m')))).
  { apply rg_lift. intros m'' HI ->. destruct (engine_spec name l m' Hc m' HI eq_refl) as (H1 & H2 & H3). split_and!; [done..|exact H3]. }
  intros _. eapply (rg_bind _ _ _ _ _ (fun _ => launched (length (procs m')))).
  { apply rg_lift. intros m2 HI Hm2. destruct (proc_start_spec (length (procs m')) (en_argv enf) env m2 HI Hm2) as (H1 & H2 & H3).
    split_and!; [done|by apply still_guar|done]. }
  intros _. eapply (rg_bind _ _ _ _ _ (fun _ => starter)).
  { apply rg_lift. intros m2 HI Hm2. destruct (en_watch enf).
    - destruct (launched_write (length (procs m')) (set_x_watching true)) with m2 as (H1 & H2 & H3); [done..|].
      split_and!; [done|by apply still_guar|]. cbn in *. by eapply launched_starter.
    - split_and!; [done|reflexivity|]. by eapply launched_starter. }
  intros _. apply plain_calm; [apply stable_lasting, starter_stable|]. apply persist_calm.
Qed.

(** ** The roles *)

Abbreviation starts y := (task fresh_starter y (fun _ => starter) (fun _ => starter)).
Abbreviation started y := (task starter y (fun _ => starter) (fun _ => starter)).

Lemma starter_lasting : lasting t starter.
Proof. apply stable_lasting, starter_stable. Qed.
Lemma fresh_starter_lasting : lasting t fresh_starter.
Proof. exact (fresh_lasting t x). Qed.
Lemma starter_starter m : starter m -> starter m.
Proof. done. Qed.

Lemma starts_bind {A B} (y : Async A) (f : A -> Async B) :
  task fresh_starter y (fun _ => fresh_starter) (fun _ => fresh_starter) -> (forall a, starts (f a)) -> starts (y ≫= f).
Proof.
  intros Hy Hf. eapply rg_bind; [|exact Hf]. eapply rg_conseq; [exact Hy|done..|]. intros e m _. apply fresh_starts.
Qed.
Lemma starts_get {A} (f : Agent -> Async A) : (forall m, starts (f m)) -> starts (lift mget ≫= f).
Proof. intros Hf m0 m HI HG HP. rewrite async_get. by apply Hf. Qed.
Lemma starts_throw {A} e : starts (athrow (A := A) e).
Proof. apply rg_throw. intros m _. apply fresh_starts. Qed.
Lemma starts_engine {B} name argv env limits (f : unit -> Async B) :
  (forall a, started (f a)) -> starts (start_engine host x name argv env limits ≫= f).
Proof. intros Hf. eapply rg_bind; [apply start_engine_task|exact Hf]. Qed.

Ltac lasts := first [exact starter_lasting | exact fresh_starter_lasting].
Ltac implies := first [exact starter_starter | exact (fresh_starts t x)].
(** A method before the engine, one after it, and the walk through a role *)
Ltac leaf := first
  [ apply own_plain; [lasts|implies|done]
  | apply fitGate_plain; [lasts|implies]
  | apply open_all_plain; [lasts|implies]
  | apply start_serving_plain; [lasts|implies]
  | apply waitForHealth_plain; lasts
  | apply waitForPort_plain; lasts
  | apply enforce_plain; lasts
  | apply check_plain; lasts
  | apply plain_await; lasts
  | apply plain_calm; [lasts|]; solve [eauto with calm nocore]
  | apply plain_result | apply plain_ret | apply plain_throw ].
Ltac role := repeat first
  [ progress intros
  | progress cbv zeta
  | match goal with
    | |- rg _ _ _ _ _ (start_engine _ _ _ _ _ _ ≫= _) _ _ => apply starts_engine
    | |- rg _ _ _ _ _ (lift mget ≫= _) _ _ => first [apply starts_get | apply plain_get]
    | |- rg _ _ _ _ _ (_ ≫= _) _ _ => first [apply starts_bind | apply plain_bind]
    | |- rg _ _ _ _ _ (athrow _) _ _ => first [apply starts_throw | apply plain_throw]
    | |- rg _ _ _ _ _ (if ?b then _ else _) _ _ => destruct b
    | |- rg _ _ _ _ _ (match ?y with _ => _ end) _ _ => destruct y
    end
  | leaf ].

Lemma startStage_starts a : starts (startStage host x a).
Proof. unfold startStage. role. Qed.
Lemma startWorker_starts a : starts (startWorker host x a).
Proof. unfold startWorker. role. Qed.
Lemma startCoordinator_starts a : starts (startCoordinator host x a).
Proof. unfold startCoordinator. role. Qed.
Lemma startReplica_starts a : ra_external a = None -> starts (startReplica host x a).
Proof. intros Ha. unfold startReplica. rewrite Ha. role. Qed.
Lemma startReplica_started a : ra_external a <> None -> started (startReplica host x a).
Proof. intros Ha. unfold startReplica. destruct (ra_external a); [|done]. role. Qed.

Abbreviation unstarted := (unstarted t x).
Lemma unstarted_lasting : lasting t unstarted.
Proof. intros m m' [L E]. by apply unstarted_moves. Qed.
Lemma unstarted_starter m : unstarted m -> starter m.
Proof. intros (r & Hr & Hs & _). by exists r. Qed.

Lemma start_role_task : task unstarted (start_role host x) (fun _ => starter) (fun _ => starter).
Proof.
  intros m0 m HI HG Hm. unfold start_role. rewrite async_get_rec. pose proof (unstarted_starter m Hm) as Hst.
  destruct Hm as (r & Hr & Hs & Hp). rewrite (rec_eq _ _ _ Hr).
  assert (managed (x_a r) = true -> fresh_starter m) as Hfresh by (intros Hma; by exists r).
  destruct (x_a r) as [a|a|a|a|a].
  - apply startWorker_starts; auto.
  - apply startCoordinator_starts; auto.
  - destruct (ra_external a) eqn:Ha; [apply startReplica_started; congruence|].
    apply startReplica_starts; [done..|]. apply Hfresh. cbn. by rewrite Ha.
  - apply startStage_starts; auto.
  - split_and!; [done..|exact Hst].
Qed.

Lemma start_task_safe : task unstarted (start_task host x) (fun _ => starter) (fun _ _ => True).
Proof.
  unfold start_task. eapply (rg_catch _ _ _ _ _ _ _ (fun _ => starter)).
  - eapply (rg_bind _ _ _ _ _ (fun _ => unstarted)); [|intros _; exact start_role_task].
    eapply rg_conseq; [apply plain_calm; [exact unstarted_lasting|apply assertStarting_calm]|done|done|].
    intros e m _. apply unstarted_starter.
  - intros e m0 m HI HG Hm. rewrite async_get_rec. destruct (x_stopping (rec m x)); [by split_and!|].
    eapply rg_conseq; [apply (task_calm t (known x) starter); [exact starter_lasting|apply fail_calm]| | | |exact HI|exact HG|exact Hm].
    + intros m' _ Hm'. split; [by eapply starter_known|done].
    + by intros a m' _ [].
    + done.
Qed.
End start.
