(* ===== verification/AgentStop.v ===== *)
(** * The node agent: stopping an assignment

    What [cleanup] promises when it succeeds, that [stop] waits for it, and that a [stopTask] belongs to the call that
    waits for it. *)

From S2P Require Import Prelude Async Rules JsNum Json Types Recipes Identity ServeDial AgentState Agent AgentInv AgentRules AgentTasks.

Local Open Scope list_scope.
Local Open Scope Z_scope.

Lemma task_frame t {A} F P (Q : A -> Agent -> Prop) E x : stable F ->
  rg valid (running_inv (Some t)) (rely t) (guar (Some t)) P x Q E ->
  rg valid (running_inv (Some t)) (rely t) (guar (Some t)) (fun m => P m /\ F m) x (fun a m => Q a m /\ F m) E.
Proof. intros HF. apply rg_frame; intros m m' [L _]; by apply HF. Qed.

Section cleanup.
Context (host : AgentHost) (t x : nat).
Abbreviation task P x Q E := (rg valid (running_inv (Some t)) (rely t) (guar (Some t)) P x Q E).
Abbreviation anything := (fun (_ : string) (_ : Agent) => True).

(** The stages of [cleanup_rest]: no engine runs; the start is over; nothing is left open *)
Definition no_engine (m : Agent) : Prop := exists r, heap m !! x = Some r /\ x_stopping r = true /\ x_watching r = false /\
  proc_quiet m (x_proc r).
Definition start_over (m : Agent) : Prop := exists r, heap m !! x = Some r /\ x_stopping r = true /\ x_watching r = false /\
  proc_quiet m (x_proc r) /\ finished m (x_startTask r).
Definition all_shut (m : Agent) : Prop := exists r, heap m !! x = Some r /\ x_stopping r = true /\ x_watching r = false /\
  proc_quiet m (x_proc r) /\ finished m (x_startTask r) /\ dialer_closed r /\ serving_over r.
Definition timer_off (m : Agent) : Prop := exists r, heap m !! x = Some r /\ x_stopping r = true /\ x_watching r = false /\
  proc_quiet m (x_proc r) /\ finished m (x_startTask r) /\ dialer_closed r /\ serving_over r /\ x_healthTimer r = false.
Definition resting (m : Agent) : Prop := exists r, heap m !! x = Some r /\ at_rest m r.

Lemma no_engine_stable : stable no_engine.
Proof.
  intros m m' L (r & Hr & H1 & H2 & H3). destruct (lt_heap _ _ L x r Hr) as (r' & Hr' & L').
  destruct (rl_stopping _ _ _ _ L' H1) as (G1 & G2 & G3 & G4 & G5). exists r'. split_and!; auto.
Qed.
Lemma start_over_stable : stable start_over.
Proof.
  intros m m' L (r & Hr & H1 & H2 & H3 & H4). destruct (lt_heap _ _ L x r Hr) as (r' & Hr' & L').
  destruct (rl_stopping _ _ _ _ L' H1) as (G1 & G2 & G3 & G4 & G5). exists r'. split_and!; auto.
  rewrite G3. by apply (rl_finished _ _ _ _ L').
Qed.
Lemma timer_off_stable : stable timer_off.
Proof.
  intros m m' L (r & Hr & H1 & H2 & H3 & H4 & H5 & H6 & H7). destruct (lt_heap _ _ L x r Hr) as (r' & Hr' & L').
  destruct (rl_stopping _ _ _ _ L' H1) as (G1 & G2 & G3 & G4 & G5), (rl_shut _ _ _ _ L' H1 H4). exists r'. split_and!; auto.
  rewrite G3. by apply (rl_finished _ _ _ _ L').
Qed.
Lemma resting_stable : stable resting.
Proof. intros m m' L (r & Hr & H). destruct (lt_heap _ _ L x r Hr) as (r' & Hr' & L'). exists r'. split; [done|]. by eapply rl_rest. Qed.

(** A process that is waited for: there, and then gone *)
Definition there (p : nat) (m : Agent) : Prop := is_Some (procs m !! p).
Definition gone (p : nat) (m : Agent) : Prop := exists pr, procs m !! p = Some pr /\ pr_exited pr = true.
Lemma there_stable p : stable (there p).
Proof. intros m m' L [pr Hp]. destruct (lt_procs _ _ L p pr Hp) as (pr' & Hp' & _). by exists pr'. Qed.
Lemma gone_stable p : stable (gone p).
Proof. intros m m' L (pr & Hp & He). destruct (lt_procs _ _ L p pr Hp) as (pr' & Hp' & [_ _ H]). exists pr'. auto. Qed.
Lemma exited_gone p m : there p m -> exited m p = true -> gone p m.
Proof. intros [pr Hp] He. exists pr. unfold exited in He. by rewrite Hp in He. Qed.
Lemma gone_quiet p m : gone p m -> is_running m p = false.
Proof. intros (pr & Hp & He). unfold is_running. rewrite Hp. unfold pr_running. rewrite He. by destruct (present _). Qed.

Lemma proc_stop_wait_task p d : task (there p) (proc_stop_wait p d) (fun _ => gone p) anything.
Proof.
  pose proof (stable_lasting t _ (there_stable p)) as Hl. unfold proc_stop_wait.
  eapply (rg_bind _ _ _ _ _ (fun _ => there p)).
  { eapply rg_conseq; [|intros m _ H; exact H|intros a m _ H; exact H|done]. plain. }
  intros _. apply rg_get. intros m _ Hm. destruct (exited m p) eqn:He.
  { apply rg_ret. intros m' _ ->. by apply exited_gone. }
  eapply (rg_bind _ _ _ _ _ (fun _ => there p)).
  { eapply rg_conseq; [apply (plain_calm t (there p) Hl), kill_calm|by intros m' _ ->|done|done]. }
  intros _. apply task_await; [done|]. intros [] m' _ Hm' [n Hn]. cbn in Hn. apply exited_gone; [done|]. by destruct (exited m' p).
Qed.

Definition cleanup_facts (s : option (nat * Z)) (m : Agent) : Prop := exists r, heap m !! x = Some r /\
  x_stopping r = true /\ x_watching r = false /\
  match s with Some (p, _) => x_proc r = Some p /\ there p m | None => proc_quiet m (x_proc r) end.

Lemma wait_stopped_task s : task (cleanup_facts s) (wait_stopped s) (fun _ => no_engine) anything.
Proof.
  destruct s as [[p d]|]; cbn [wait_stopped]; [|by apply rg_ret].
  eapply (rg_conseq _ _ _ _ _ (fun m => there p m /\ being_stopped x (Some p) m) _ (fun _ m => gone p m /\ being_stopped x (Some p) m) _ anything); [| | |done].
  - apply (task_frame t); [apply being_stopped_stable|]. apply proc_stop_wait_task.
  - intros m _ (r & Hr & H1 & H2 & H3 & H4). split; [done|]. by exists r.
  - intros _ m _ [Hg (r & Hr & H1 & H2 & H3)]. exists r. split_and!; [done..|]. rewrite H3. by apply gone_quiet.
Qed.

Lemma promise_task P q : lasting t P -> task P (await_promise q) (fun _ m => P m /\ settled m q = Some (Ok tt)) (fun _ => P).
Proof.
  intros HP. unfold await_promise. eapply (rg_bind _ _ _ _ _ (fun r m => P m /\ settled m q = Some r)).
  - apply task_await; [done|]. intros r m _ Hm [n Hn]. by split.
  - intros r. apply rg_result. intros m _ [Hm Hs]. destruct r as [[]|e]; [by split|done].
Qed.

(** As [no_engine], knowing the [startTask]. *)
Definition no_engine_from (k : option nat) (m : Agent) : Prop := exists r, heap m !! x = Some r /\ x_stopping r = true /\
  x_watching r = false /\ proc_quiet m (x_proc r) /\ x_startTask r = k.
Lemma no_engine_from_stable k : stable (no_engine_from k).
Proof.
  intros m m' L (r & Hr & H1 & H2 & H3 & H4). destruct (lt_heap _ _ L x r Hr) as (r' & Hr' & L').
  destruct (rl_stopping _ _ _ _ L' H1) as (G1 & G2 & G3 & G4 & G5). exists r'. split_and!; auto. congruence.
Qed.

Lemma start_awaited k : task (no_engine_from k) (match k with Some q => await_promise q | None => mret tt end)
  (fun _ => start_over) anything.
Proof.
  destruct k as [q|].
  - eapply rg_conseq; [apply (promise_task (no_engine_from (Some q)) q), stable_lasting, no_engine_from_stable|done| |done].
    intros a m _ [(r & Hr & H1 & H2 & H3 & H4) Hs]. exists r. split_and!; [done..|]. rewrite H4. cbn. by rewrite Hs.
  - apply rg_ret. intros m _ (r & Hr & H1 & H2 & H3 & H4). exists r. split_and!; [done..|]. by rewrite H4.
Qed.

Lemma close_task : task start_over (lift (close_transports x)) (fun _ => all_shut) anything.
Proof.
  apply rg_lift. intros m HI Hm.
  destruct (upd_then (Some t) x (fun r => set_x_dialer (closeAll <$> x_dialer r) (set_x_serve (sd_stop <$> x_serve r) r)) start_over all_shut)
    with m as (H1 & H2 & H3); [| |done|done|].
  - intros m' r HI' _ Hr. exact (cosmetic_write None m' x r _ HI' Hr cosmetic_transports).
  - intros m' _ (r & Hr & G1 & G2 & G3 & G4). eexists. split; [by apply alter_rec|]. split_and!; try done.
    + unfold dialer_closed. cbn. by destruct (x_dialer r).
    + unfold serving_over. cbn. by destruct (x_serve r).
  - split_and!; [done|by apply still_guar|exact H3].
Qed.
Lemma timer_task : task all_shut (lift (upd x (set_x_healthTimer false))) (fun _ => timer_off) anything.
Proof.
  apply rg_lift. intros m HI Hm.
  destruct (upd_then (Some t) x (set_x_healthTimer false) all_shut timer_off) with m as (H1 & H2 & H3); [| |done|done|].
  - intros m' r HI' _ Hr. apply cosmetic_write; [done..|apply cosmetic_timer].
  - intros m' _ (r & Hr & G1 & G2 & G3 & G4 & G5 & G6). eexists. split; [by apply alter_rec|]. by split_and!.
  - split_and!; [done|by apply still_guar|exact H3].
Qed.

Lemma restore_task : task timer_off (restoreExternal x) (fun _ => resting) anything.
Proof.
  intros m0 m HI HG Hm. unfold restoreExternal. rewrite async_get_rec.
  pose proof (stable_lasting t _ timer_off_stable) as Hl.
  destruct (x_stoppedExternal (rec m x)) as [ext|] eqn:He.
  - assert (task timer_off (out ← maintenance ext v_start;
        if negb (out.1 =? 0) then athrow ("external restore FAILED (" +:+ xt_id ext +:+ "): " +:+ last_chars 400 out.2) else
        lift (upd x (set_x_stoppedExternal None)) ;; lift persist) (fun _ => resting) anything) as H; [|by apply H].
    eapply (rg_bind _ _ _ _ _ (fun _ => timer_off)).
    { eapply rg_conseq; [apply (maintenance_plain t timer_off Hl)|done..]. }
    intros out. destruct (negb (out.1 =? 0)); [by apply rg_throw|].
    eapply (rg_bind _ _ _ _ _ (fun _ => resting)).
    + apply rg_lift. intros m' HI' Hm'.
      destruct (upd_then (Some t) x (set_x_stoppedExternal None) timer_off resting) with m' as (H1 & H2 & H3); [| |done|done|].
      * intros m2 r HI2 _ Hr. split; [|done]. constructor; [done|by left|done|by apply (iv_state _ _ HI2 x r)|done|by left|by left|].
        intros _ _. by constructor.
      * intros m2 _ (r & Hr & G1 & G2 & G3 & G4 & G5 & G6 & G7). eexists. split; [by apply alter_rec|]. by constructor.
      * split_and!; [done|by apply still_guar|exact H3].
    + intros _. eapply rg_conseq; [apply (plain_calm t resting (stable_lasting t _ resting_stable)), persist_calm|done..].
  - split_and!; [done..|]. destruct Hm as (r & Hr & G1 & G2 & G3 & G4 & G5 & G6 & G7). rewrite (rec_eq _ _ _ Hr) in He.
    exists r. split; [done|by constructor].
Qed.

Lemma cleanup_rest_task s : task (cleanup_facts s) (cleanup_rest host x s) (fun _ => resting) anything.
Proof.
  unfold cleanup_rest. eapply (rg_bind _ _ _ _ _ (fun _ => no_engine)); [apply wait_stopped_task|].
  intros _ m0 m HI HG Hm. rewrite async_get_rec. destruct Hm as (r & Hr & H1 & H2 & H3). rewrite (rec_eq _ _ _ Hr).
  match goal with |- safe _ _ _ _ _ _ (?y m).1 _ => assert (task (no_engine_from (x_startTask r)) y (fun _ => resting) anything) as H end.
  2: { apply H; [done..|]. by exists r. }
  eapply (rg_bind _ _ _ _ _ (fun _ => start_over)); [apply start_awaited|]. intros _.
  eapply (rg_bind _ _ _ _ _ (fun _ => start_over)).
  { eapply (rg_conseq _ _ _ _ _ start_over _ (fun _ => start_over) _ (fun _ => start_over)); [|done..].
    destruct (bool_decide _); [|apply plain_ret].
    apply remove_directory_plain, stable_lasting, start_over_stable. }
  intros _. eapply (rg_bind _ _ _ _ _ (fun _ => all_shut)); [apply close_task|].
  intros _. eapply (rg_bind _ _ _ _ _ (fun _ => timer_off)); [apply timer_task|].
  intros _. apply restore_task.
Qed.
End cleanup.

(** ** The end of a call *)

Definition fin (t : nat) (j : Job) (m0 : Agent) (v : result string unit) (m : Agent) : Prop :=
  job m0 t = Some j -> Inv None (settle t v m) /\ guar (Some t) m0 (settle t v m).

Lemma ends t j m0 v m : Inv None m -> pending m t -> guar (Some t) m0 m -> post j v m -> fin t j m0 v m.
Proof.
  intros HI [_ Hs] HG Hpost Hj. assert (job m t = Some j) as Hj' by (apply (lt_job _ _ (proj1 HG)); exact Hj).
  destruct (settle_keeps t v m j (inv_exclude _ _ HI) Hj' Hs Hpost) as [H1 H2].
  { intros x ->. by apply (iv_started _ _ HI). }
  split; [done|]. by etrans; [exact HG|].
Qed.

(** ** [stop] *)

Section stop.
Context (host : AgentHost) (t : nat).
Abbreviation task P x Q E := (rg valid (running_inv (Some t)) (rely t) (guar (Some t)) P x Q E).
Abbreviation anything := (fun (_ : string) (_ : Agent) => True).
Abbreviation plainly x := (task (fun _ => True) x (fun _ _ => True) anything).

(** Call [t] waits for the [stopTask] [p] of [x], which it made. *)
Definition owns (x p : nat) (id why : string) (q : nat) (m : Agent) : Prop :=
  job m p = Some (KStopBody x id why q t) /\ exists r, heap m !! x = Some r /\ x_stopTask r = Some p.
Lemma owns_lasting x p id why q : lasting t (owns x p id why q).
Proof.
  intros m m' [L E] (Hj & r & Hr & Hs). split; [by apply (lt_job _ _ L)|].
  destruct (lt_heap _ _ L x r Hr) as (r' & Hr' & _). exists r'. split; [done|].
  destruct (ex_rec _ _ _ E x r r' Hr Hr') as [_ H]. by apply (H p id why q).
Qed.

(** The record may get a [stopTask]. *)
Definition stoppable (x q : nat) (id : string) (m : Agent) : Prop :=
  cleanup_of x q m /\ is_active m x /\ exists r, heap m !! x = Some r /\ x_stopTask r = None /\ id_of (x_a r) = id.

Lemma cleanup_stoppable x id m : running_inv (Some t) m -> active_get m id = Some x -> x_stopTask (rec m x) = None ->
  keeps (running_inv (Some t)) (guar (Some t)) (fun q => stoppable x q id) anything m (cleanup x m).1 (cleanup x m).2.
Proof.
  intros HI Ha Hs. pose proof (proj1 (active_get_spec None m id x (proj1 HI)) Ha) as Hin.
  destruct (iv_active _ _ (proj1 HI) id x Hin) as (r & Hr & Hid). rewrite (rec_eq _ _ _ Hr) in Hs.
  destruct (cleanup_spec (Some t) x m HI) as (H1 & H2 & H3); [by exists r|]. split_and!; [done|by apply still_guar|].
  destruct (cleanup x m) as [[q|e] m']; cbn in *; [|done]. destruct H2 as (HG & Hact & Hst).
  split_and!; [done| |].
  - unfold is_active. rewrite Hact. by apply (list_elem_of_fmap_2 snd _ (id, x)).
  - destruct (lt_heap _ _ (proj1 HG) x r Hr) as (r' & Hr' & L). exists r'. rewrite (Hst x r r' Hr Hr'), (rl_a _ _ _ _ L). done.
Qed.

Lemma stop_body_made x q id why : sspec (running_inv (Some t)) (guar (Some t)) (stoppable x q id)
  (p ← spawn (KStopBody x id why q t); upd x (set_x_stopTask (Some p)) ;; mret p)
  (fun p => owns x p id why q) (fun _ _ => True).
Proof.
  intros m [HI Hpend] (Hclean & Hact & r & Hr & Hs & Hid).
  set (p := length (promises m)). set (m1 := set_promises (promises m ++ [(KStopBody x id why q t, None)]) m).
  set (m2 := set_heap (alter (set_x_stopTask (Some p)) x (heap m1)) m1).
  assert (Inv (Some p) m1 /\ guar None m m1) as [HI1 HG1].
  { destruct (spawn_keeps (Some p) m (inv_exclude _ _ HI) (KStopBody x id why q t)) as (H1 & H2 & H3); [|done|].
    - destruct Hclean as [s Hcs]. exists r, s. split_and!; done.
    - split; [done|split; [done|]]. intros t' _. by apply H3. }
  assert (job m1 p = Some (KStopBody x id why q t)) as Hp by (apply spawn_job; by right).
  destruct (upd_keeps None (Some p) m1 x (set_x_stopTask (Some p)) HI1) as [HI2 HG2].
  { by exists r. }
  { intros r' Hr'. change (heap m !! x = Some r') in Hr'. rewrite Hr in Hr'. injection Hr' as <-.
    constructor; [done|by left|done|by apply (iv_state _ _ HI x r)|done|by left|right; right|done]. split; [done|]. by exists p, id, why, q, t. }
  change (keeps (running_inv (Some t)) (guar (Some t)) (fun p => owns x p id why q) (fun _ _ => True) m (Ok p) m2).
  assert (heap m2 !! x = Some (set_x_stopTask (Some p) r)) as Hr2 by (by apply alter_rec).
  assert (guar None m m2) as HG by (by etrans).
  split_and!; [split|by apply guar_weaken|split; [exact Hp|by eexists]].
  - apply (inv_close p); [done|..].
    + intros y Hy. unfold m2, job in Hy, Hp. cbn in Hy, Hp. congruence.
    + intros y id' why' c t' Hy _ r' Hr'. assert (y = x) as -> by (unfold m2, job in Hy, Hp; cbn in Hy, Hp; congruence).
      rewrite Hr2 in Hr'. injection Hr' as <-. split; [done|exact Hact].
  - intros t' Ht'. destruct (Hpend t' Ht') as [Hj Hst]. destruct (job m t') as [k|] eqn:Hk; [|done]. split.
    + by rewrite (lt_job _ _ (proj1 HG) t' k Hk).
    + change (settled m1 t' = None). unfold m1. by rewrite spawn_settled.
Qed.

Lemma await_stop x p id why q : task (owns x p id why q)
  (acatch (await_promise p) (fun e => lift (upd x (set_x_stopTask None)) ;; athrow e)) (fun _ _ => True) anything.
Proof.
  pose proof (owns_lasting x p id why q) as Hl.
  eapply (rg_catch _ _ _ _ _ _ _ (fun e m => owns x p id why q m /\ settled m p <> None)).
  - unfold await_promise. eapply (rg_bind _ _ _ _ _ (fun r m => owns x p id why q m /\ settled m p = Some r)).
    + apply task_await; [done|]. intros r m _ Hm [n Hn]. by split.
    + intros r. apply rg_result. intros m _ [Hm Hs]. destruct r as [[]|e]; [done|]. split; [done|]. by rewrite Hs.
  - intros e. eapply (rg_bind _ _ _ _ _ (fun _ _ => True)); [|intros _; by apply rg_throw].
    apply rg_lift. intros m [HI Hpend] [(Hj & r & Hr & Hs) Hset].
    destruct (upd_keeps (Some t) None m x (set_x_stopTask None) HI) as [H1 H2]; [by exists r| |].
    + intros r' Hr'. rewrite Hr in Hr'. injection Hr' as <-.
      constructor; [done|by left|done|by apply (iv_state _ _ HI x r)|done|by left|right; left|done]. split; [done|].
      intros p' id' why' q' t' Hp' Hj'. rewrite Hs in Hp'. injection Hp' as <-. rewrite Hj in Hj'. by injection Hj' as <- <- <- <-.
    + change (keeps (running_inv (Some t)) (guar (Some t)) (fun _ _ => True) (fun _ _ => True) m (Ok tt)
        (set_heap (alter (set_x_stopTask None) x (heap m)) m)). by split_and!.
Qed.

Lemma stopped_report P id why : (forall m, running_inv (Some t) m -> P m -> id ∉ (active m).*1) ->
  sspec (running_inv (Some t)) still P (report id a_stopped why None) (fun _ _ => True) (fun _ _ => True).
Proof.
  intros HP. intros m HI Hm. apply (frame_calm (Some t) _ (fun m => id ∉ (active m).*1)); try done; [|by apply HP].
  intros m' id' rt HI' Hni. unfold last_report. cbn. destruct (String.eqb_spec id id') as [<-|_]; [by intros _ _|].
  by apply (iv_reports _ _ HI').
Qed.

Lemma stop_task id why : plainly (stop t id why).
Proof.
  unfold stop. apply rg_get. intros m HI _. destruct (active_get m id) as [x|] eqn:Ha.
  2: { eapply rg_conseq; [apply (task_calm t (fun m' => m' = m) (fun _ => True)); [done|]|done|done|done].
       apply stopped_report. intros m' _ ->. by apply active_get_None. }
  destruct (x_stopTask (rec m x)) as [p|] eqn:Hs.
  { eapply rg_conseq; [apply (await_promise_plain t (fun _ => True)); apply lasting_true|done..]. }
  eapply (rg_bind _ _ _ _ _ (fun q => stoppable x q id)).
  { apply rg_lift. intros m' _ ->. by apply cleanup_stoppable. }
  intros q. eapply rg_eq; [intros m'; apply lift_lift|].
  eapply (rg_bind _ _ _ _ _ (fun p => owns x p id why q)); [apply rg_lift, stop_body_made|]. intros p. apply await_stop.
Qed.

Lemma stopAll_task : plainly (stopAll t).
Proof.
  unfold stopAll. apply plain_get. intros m. apply (plain_for t (fun _ => True)). intros id. apply stop_task.
Qed.
Lemma handle_stop_task id : plainly (acatch (stop t id "stopped by control")
  (fun e => lift (report id a_failed (Some ("cleanup incomplete: " +:+ e)) None))).
Proof.
  apply (plain_catch t (fun _ => True)); [apply stop_task|]. intros e. apply plain_calm; [apply lasting_true|]. by apply report_calm.
Qed.

(** The body of a [stopTask] ends with the assignment out of the map, if its cleanup succeeded. *)
Lemma retire x id why q c m : running_inv (Some t) m -> job m t = Some (KStopBody x id why q c) ->
  settled m q = Some (Ok tt) ->
  active_get m id = Some x /\
  exists e, Inv e (set_active (active_delete id (active m)) m) /\ e = Some t /\ guar None m (set_active (active_delete id (active m)) m) /\
    id ∉ (active (set_active (active_delete id (active m)) m)).*1.
Proof.
  intros [HI Hpend] Hj Hq. destruct (Hpend t eq_refl) as [_ Ht].
  destruct (iv_stop _ _ HI t x id why q c Hj) as (r & s & Hr & Hid & Hcl & H). destruct (H ltac:(done) Ht) as [Hs Ha].
  destruct (iv_cleanup _ _ HI q x s Hcl) as (r' & Hr' & _ & _ & _ & Hrest). rewrite Hr in Hr'. injection Hr' as <-.
  apply (is_active_get None m x r HI Hr) in Ha. rewrite Hid in Ha. split; [done|]. exists (Some t).
  destruct (delete_keeps (Some t) m x r (inv_exclude _ _ HI) Hr (Hrest Hq)) as (H1 & H2 & H3); rewrite ?Hid in *; [done| |by split_and!].
  intros p id' why' q' t' Hp Hsp. destruct (iv_stop _ _ HI p x id' why' q' t' Hp) as (r2 & _ & Hr2 & _ & _ & H2).
  rewrite Hr in Hr2. injection Hr2 as <-. destruct (H2 ltac:(done) Hsp). congruence.
Qed.

Lemma persist_eq m : persist m = if diskOk m then (Ok tt, set_disk (Saved (snapshot m)) m) else (Err "persist failed"%string, m).
Proof. unfold persist, mbind, M_bind, mget. by destruct (diskOk m). Qed.

Lemma stop_rest_safe x id why q c m : running_inv (Some t) m -> job m t = Some (KStopBody x id why q c) ->
  safe valid (running_inv (Some t)) (rely t) (guar (Some t)) (fin t (KStopBody x id why q c)) m
    (stop_rest x id why q m).1 (stop_rest x id why q m).2.
Proof.
  intros HI0 Hj0. set (j := KStopBody x id why q c) in *. unfold stop_rest.
  assert (stable (fun m => job m t = Some j)) as Hst by (intros m' m'' L; apply (lt_job _ _ L)).
  eapply rg_bind_then; [apply (promise_task t (fun m => job m t = Some j) q), stable_lasting, Hst|done|reflexivity|done|..].
  { intros m0 m1 e ([HI Hp] & HG & _). apply ends; [done|by apply Hp|done|done]. }
  intros m0 m1 _ HI HG [Hj Hq]. rewrite async_get.
  destruct (retire x id why q c m1 HI Hj Hq) as (Ha & e & HI2 & -> & HG2 & Hni).
  rewrite bool_decide_eq_true_2 by done. rewrite async_lift. cbn [mmodify].
  set (m2 := set_active (active_delete id (active m1)) m1) in *. rewrite async_lift. cbn [report mmodify].
  match goal with |- safe _ _ _ _ _ _ (_ ?m3).1 _ => set (m3' := m3) end.
  destruct (frame_keeps None (Some t) m2 m3' HI2) as [HI3 HG3]; try done.
  { intros id' rt. unfold last_report, m3'. cbn [reports set_reports find rt_id]. destruct (String.eqb_spec id id') as [<-|_]; [by intros _ _|].
    by apply (iv_reports _ _ HI2). }
  assert (exists v m4, lift persist m3' = (Fin v, m4) /\ Inv (Some t) m4 /\ guar None m3' m4 /\
      job m4 t = Some j /\ settled m4 t = None) as (v & m4 & -> & HI4 & HG4 & Hj4 & Hs4).
  { unfold lift. rewrite persist_eq. destruct (diskOk m3').
    - exists (Ok tt). eexists. split; [reflexivity|].
      assert (forall id' rt, last_report (set_disk (Saved (snapshot m3')) m3') id' = Some rt -> rt_state rt = a_stopped -> id' ∉ (active m3').*1) as Hrep by apply HI3.
      destruct (frame_keeps None (Some t) m3' (set_disk (Saved (snapshot m3')) m3') HI3) as [? ?]; [done..|].
      split_and!; [done|done|exact Hj|]. by destruct HI as [_ Hp]; destruct (Hp t eq_refl).
    - eexists _, _. split; [reflexivity|]. split_and!; [exact HI3|reflexivity|exact Hj|]. by destruct HI as [_ Hp]; destruct (Hp t eq_refl). }
  intros Hjm0. destruct (settle_keeps t v m4 j HI4 Hj4 Hs4) as [H1 H2]; [done|done|].
  split; [done|]. etrans; [exact HG|]. etrans; [apply guar_weaken; exact HG2|]. etrans; [apply guar_weaken; exact HG3|].
  etrans; [apply guar_weaken; exact HG4|done].
Qed.
End stop.
