(* ===== verification/AgentFacts.v ===== *)
(** * The node agent: what is left of a stopped assignment

    The invariant of the whole machine: every pending call is safe to go on, and every turn keeps that.  So a
    report "stopped" is true, whatever control, the owner, the engines and the timers did in any order: nothing of the
    assignment runs or listens.  Engines run within the offer, one for an assignment. *)

From S2P Require Import Prelude Async Rules JsNum Json Types Recipes Identity ServeDial AgentState Agent AgentInv AgentRules AgentTasks AgentStart AgentStop.

Local Open Scope string_scope.
Local Open Scope list_scope.
Local Open Scope Z_scope.

(** ** Turns that are not segments of a call *)

Section turns.
Context (host : AgentHost).
Abbreviation turns m0 m := (Inv None m /\ guar None m0 m).

Lemma calm_turn {A} P (x : Sync A) (Q : A -> Agent -> Prop) E m : sspec (running_inv None) still P x Q E -> Inv None m -> P m ->
  turns m (x m).2.
Proof. intros H HI HP. destruct (H m) as ([H1 _] & H2 & _); [by split|done|]. split; [done|]. by apply still_guar. Qed.

(** An assignment that has entered the map, and not been started, gets the call that starts it. *)
Lemma start_call m x r : Inv None m -> heap m !! x = Some r ->
  x_startTask r = None -> x_proc r = None -> x_stopping r = false ->
  turns m ((q ← spawn (KStart x); upd x (set_x_startTask (Some q))) m).2.
Proof.
  intros HI Hx Hst Hpr Hstop. set (q := length (promises m)). set (m2 := set_promises (promises m ++ [(KStart x, None)]) m).
  destruct (spawn_keeps (Some q) m (inv_exclude _ _ HI) (KStart x)) as (HI2 & HL2 & HE2); [done..|]. fold m2 in HI2, HL2, HE2.
  assert (job m2 q = Some (KStart x)) as Hj by (apply spawn_job; by right).
  destruct (upd_keeps None (Some q) m2 x (set_x_startTask (Some q)) HI2) as [HI3 HG3]; [by exists r| |].
  { intros r' Hr'. change (heap m !! x = Some r') in Hr'. rewrite Hx in Hr'. injection Hr' as <-.
    constructor; [done|right|done|exact (iv_state _ _ HI x r Hx)|done|by left|by left|congruence]. split_and!; [done|done|]. by exists q. }
  set (m3 := set_heap (alter (set_x_startTask (Some q)) x (heap m2)) m2) in *.
  assert (heap m3 !! x = Some (set_x_startTask (Some q) r)) as Hx3 by (by apply alter_rec).
  assert (forall y, job m3 q = Some (KStart y) -> y = x) as Hy.
  { intros y Hy. change (job m2 q = Some (KStart y)) in Hy. congruence. }
  change (Inv None m3 /\ guar None m m3). split.
  - apply (inv_close q); [done|..].
    + intros y ->%Hy. by eexists.
    + intros y id why c t H. change (job m2 q = Some (KStopBody y id why c t)) in H. congruence.
  - split; [by etrans; [|apply HG3]|]. intros t _. destruct HG3 as [HL3 HE3]. destruct (decide (t = q)) as [->|Hne].
    + constructor.
      * intros y r1 r2 H1 H2. destruct (ex_rec _ _ _ (HE3 q ltac:(done)) y r1 r2 H1 H2) as [E1 E2]. split; [done|].
        intros p id why c Hp Hjp. apply (E2 p id why c); [done|]. apply spawn_job. by left.
      * intros H. change (settled m2 q = None). unfold m2. by rewrite spawn_settled.
      * intros y _ ->%Hy. by eexists.
    + apply (extra_trans t m m2 m3); [done..| |by apply HE3]. apply HE2. by intros y ->.
Qed.

Definition new_assignment (a : Assignment) (t : Z) : Active :=
  {| x_a := a; x_registeredAt := t / 1000; x_state := starting; x_detail := None; x_proc := None; x_dialer := None;
     x_serve := None; x_ports := []; x_watching := false; x_stoppedExternal := None; x_healthTimer := false;
     x_stopping := false; x_startTask := None; x_cleanupTask := None; x_stopTask := None |}.

(** The map with [a] in it, reported as starting *)
Definition enlisted (a : Assignment) (m : Agent) : Agent :=
  let m := set_reports ({| rt_id := id_of a; rt_state := starting; rt_detail := None; rt_ports := None |} :: reports m) m in
  set_active (active m ++ [(id_of a, length (heap m))]) (set_heap (heap m ++ [new_assignment a (now m)]) m).

Lemma enlisted_turn a m : Inv None m -> active_get m (id_of a) = None -> turns m (enlisted a m).
Proof.
  intros HI Ha. set (m1 := set_reports ({| rt_id := id_of a; rt_state := starting; rt_detail := None; rt_ports := None |} :: reports m) m).
  assert (starting <> a_stopped) as Hne by done.
  destruct (calm_turn (fun _ => True) (report (id_of a) starting None None) _ _ m (report_calm None _ _ _ _ _ Hne) HI I) as [HI1 HG1].
  change (Inv None m1) in HI1. change (guar None m m1) in HG1.
  destruct (enlist_keeps m1 (new_assignment a (now m)) HI1) as [HI2 HG2]; [done..| |].
  { intros rt. unfold last_report. cbn. rewrite String.eqb_refl. by intros [= <-]. }
  split; [exact HI2|]. by etrans; [exact HG1|].
Qed.

Lemma assign_enlists a m : Inv None m -> active_get m (id_of a) = None ->
  assign a m = (persist ;; q ← spawn (KStart (length (heap m))); upd (length (heap m)) (set_x_startTask (Some q))) (enlisted a m).
Proof.
  intros HI Ha. destruct (enlisted_turn a m HI Ha) as [HI2 _].
  assert (heap (enlisted a m) !! length (heap m) = Some (new_assignment a (now m))) as Hx by (apply lookup_snoc; by right).
  assert (active_get (enlisted a m) (id_of a) = Some (length (heap m))) as Hget.
  { apply (active_get_spec None); [done|]. apply elem_of_app. right. by apply list_elem_of_singleton. }
  unfold assign, mbind at 1, M_bind at 1, mget at 1. rewrite Ha.
  set (m1 := set_active (active m ++ [(id_of a, length (heap m))]) (set_heap (heap m ++ [new_assignment a (now m)]) m)).
  change (let rest := (fun _ : unit => q ← spawn (KStart (length (heap m))); upd (length (heap m)) (set_x_startTask (Some q))) in
    (set_state (length (heap m)) starting None ≫= rest) m1 = (persist ≫= rest) (enlisted a m)). cbv zeta.
  assert (set_state (length (heap m)) starting None m1 = persist (enlisted a m)) as Heq; [|unfold mbind, M_bind; by rewrite Heq].
  unfold set_state, mbind at 1, M_bind at 1, mget at 1.
  rewrite (rec_eq m1 _ _ Hx). cbn [x_stopping new_assignment orb x_a]. rewrite bool_decide_eq_true_2 by exact Hget. cbn [negb].
  assert (upd (length (heap m)) (set_x_state starting) m1 = (Ok tt, m1)) as Hupd.
  { unfold upd, mmodify. f_equal. unfold m1, set_heap, set_active. cbn. f_equal. apply list_eq. intros i. rewrite lookup_alter_list.
    destruct (decide (length (heap m) = i)) as [<-|]; [|done]. by rewrite (proj2 (lookup_snoc _ _ _ _) (or_intror (conj eq_refl eq_refl))). }
  unfold mbind at 1, M_bind at 1. rewrite Hupd. change (let r := rec m1 (length (heap m)) in
    (report (id_of (x_a r)) starting (x_detail r) (some_ports (x_ports r)) ;; persist) m1 = persist (enlisted a m)).
  by rewrite (rec_eq m1 _ _ Hx).
Qed.

Lemma assign_turn a m : Inv None m -> turns m (assign a m).2.
Proof.
  intros HI. destruct (active_get m (id_of a)) as [x|] eqn:Ha.
  - unfold assign, mbind, M_bind, mget. rewrite Ha. apply (calm_turn (fun _ => True) _ (fun _ _ => True) (fun _ _ => True)); [|done|done].
    apply report_calm. apply (active_get_spec None) in Ha; [|done]. destruct (iv_active _ _ HI _ _ Ha) as (r & Hr & _).
    rewrite (rec_eq _ _ _ Hr). by apply (iv_state _ _ HI x).
  - rewrite assign_enlists by done. destruct (enlisted_turn a m HI Ha) as [HI1 HG1].
    assert (heap (enlisted a m) !! length (heap m) = Some (new_assignment a (now m))) as Hx by (apply lookup_snoc; by right).
    destruct (calm_turn (fun _ => True) persist _ _ (enlisted a m) (persist_calm None _) HI1 I) as [HI2 HG2].
    match goal with |- context [(persist ≫= ?f) ?m0] =>
      change ((persist ≫= f) m0) with (match persist m0 with (Ok a, m') => f a m' | (Err e, m') => (Err e, m') end) end.
    rewrite persist_eq in *. destruct (diskOk (enlisted a m)); [|exact (conj HI1 HG1)].
    destruct (start_call (set_disk (Saved (snapshot (enlisted a m))) (enlisted a m)) (length (heap m)) (new_assignment a (now m)) HI2 Hx) as [HI3 HG3]; [done..|].
    split; [exact HI3|]. etrans; [exact HG1|]. etrans; [exact HG2|exact HG3].
Qed.

Lemma calm_sequel {A B} P (x : Sync A) (f : A -> Sync B) : sspec (running_inv None) still P x (fun _ _ => True) (fun _ _ => True) ->
  (forall a, sspec (running_inv None) still (fun _ => True) (f a) (fun _ _ => True) (fun _ _ => True)) ->
  sspec (running_inv None) still P (x ≫= f) (fun _ _ => True) (fun _ _ => True).
Proof. intros Hx Hf. eapply sspec_bind; [exact Hx|]. intros a. apply Hf. Qed.

Lemma exit_turn p code signal m : Inv None m -> turns m (on_exit p code signal m).2.
Proof.
  intros HI. apply (calm_turn (fun _ => True) _ (fun _ _ => True) (fun _ _ => True)); [|done|done].
  unfold on_exit. apply sspec_get. intros m' [HI' _] _. destruct (procs m' !! p) as [pr|] eqn:Hp; [|by apply sspec_ret].
  destruct (negb (pr_running pr)); [by apply sspec_ret|].
  destruct (iv_owner _ _ HI' p pr Hp) as (r & Hr & _).
  assert (forall B (y : Sync B), sspec (running_inv None) still (fun _ => True) y (fun _ _ => True) (fun _ _ => True) ->
    sspec (running_inv None) still (known (pr_owner pr)) y (fun _ => known (pr_owner pr)) (fun _ _ => True)) as Hk.
  { intros B y Hy. eapply sspec_conseq; [apply (calm_frame None (fun _ => True)); [apply (known_stable (pr_owner pr))|exact Hy]|done|by intros ? ? _ []|done]. }
  eapply (sspec_bind _ _ _ (fun _ => known (pr_owner pr))).
  { eapply sspec_conseq; [apply Hk, signal_calm; by intros|intros m2 _ ->; by exists r|done|done]. }
  intros _. eapply (sspec_bind _ _ _ (fun _ => known (pr_owner pr))); [apply Hk, cosmetic_calm, cosmetic_watching|].
  intros _. apply sspec_get. intros m2 _ Hm2. destruct (_ && _); [|by apply sspec_ret].
  eapply sspec_conseq; [apply fail_calm|by intros m3 _ ->|done|done].
Qed.

Lemma serve_turn x m : Inv None m -> turns m (serve_timer x m).2.
Proof.
  intros HI. apply (calm_turn (fun _ => True) _ (fun _ _ => True) (fun _ _ => True)); [|done|done].
  unfold serve_timer. apply sspec_get. intros m' _ _. destruct (x_serve (rec m' x)) as [d|] eqn:Hd; [|by apply sspec_ret].
  destruct (sv_running d) eqn:Hr; cbn [negb]; [|by apply sspec_ret]. destruct (fill_begin d) as [d' want].
  apply calm_sequel; [|intros _; destruct want; [apply calmly_bind; [by apply spawn_calm|intros _]|]; apply calmly_ret].
  apply upd_calm. intros m2 r HI2 -> Hx. split; [|done]. rewrite (rec_eq _ _ _ Hx) in Hd.
  constructor; [done|by left|done|exact (iv_state _ _ HI2 x r Hx)|done|by left|by left|]. intros _ _.
  constructor; [done| |done..]. unfold serving_over. rewrite Hd, Hr. by intros [].
Qed.

(** Any such turn, with what its event says as it may *)
Lemma agent_turn_keeps tn m : Inv None m -> turns m (sync_turn tn m).2.
Proof.
  intros HI.
  assert (forall f, (forall m, heap (f m) = heap m /\ active (f m) = active m /\ procs (f m) = procs m /\ promises (f m) = promises m /\
    offer_of (f m) = offer_of m /\ reports (f m) = reports m /\ now m <= now (f m)) -> turns m (f m)) as Hframe.
  { intros f Hf. destruct (Hf m) as (H1 & H2 & H3 & H4 & H5 & H6 & H7). apply frame_keeps; try done.
    intros id rt. unfold last_report. rewrite H6. by apply (iv_reports _ _ HI). }
  assert (forall (y : Sync unit), sspec (running_inv None) still (fun _ => True) y (fun _ _ => True) (fun _ _ => True) -> turns m (y m).2) as Hc.
  { intros y Hy. by apply (calm_turn (fun _ => True) y _ _ m Hy HI). }
  destruct tn as [a|p code signal|p line|x|x reason|x|x sock|x key path|next|ok|ms| | |q|q a]; cbn [sync_turn];
    try (by split; [exact HI|reflexivity]).
  - by apply assign_turn.
  - by apply exit_turn.
  - apply Hc, signal_calm. by intros.
  - apply Hc, calmly_get. intros m'. destruct (x_healthTimer _); [apply calmly_bind; [by apply spawn_calm|intros _]|]; apply calmly_ret.
  - apply Hc, calmly_get. intros m'. destruct (x_proc _); [|apply calmly_ret]. destruct (x_watching _); [|apply calmly_ret].
    apply calmly_bind; [apply cosmetic_calm, cosmetic_detail|]. intros _. apply calmly_bind; [by apply spawn_calm|intros _]. apply calmly_ret.
  - by apply serve_turn.
  - apply Hc, cosmetic_calm, cosmetic_serve. intros d H1 H2. unfold sd_closed. cbn. by rewrite H1, H2.
  - apply Hc, cosmetic_calm, cosmetic_dialer. done.
  - unfold of_result, mbind, M_bind, mget. destruct (assertOfferChange m next) as [[]|] eqn:Ho; [|by split].
    by apply offer_keeps.
  - by apply Hframe.
  - apply (Hframe (fun m => set_now (now m + Z.max 0 ms) m)). intros m'. split_and!; [done..|]. cbn. lia.
Qed.
End turns.

(** ** Every call, from its first segment *)

Section calls.
Context (host : AgentHost) (q : nat).
Abbreviation task P x Q E := (rg valid (running_inv (Some q)) (rely q) (guar (Some q)) P x Q E).

Lemma task_fin P (x : Async unit) Q E j m : task P x Q E -> running_inv (Some q) m -> P m ->
  (forall v m, match v with Ok a => Q a m | Err e => E e m end -> post j v m) ->
  safe valid (running_inv (Some q)) (rely q) (guar (Some q)) (fin q j) m (x m).1 (x m).2.
Proof.
  intros Hx HI HP Hpost. eapply safe_mono; [|apply Hx; [done|reflexivity|done]].
  intros m0 v m' ([HI' Hp] & HG & HQ). apply ends; [done|by apply Hp|done|by apply Hpost].
Qed.

Lemma plain_fin (x : Async unit) j m : task (fun _ => True) x (fun _ _ => True) (fun _ _ => True) -> (forall y s, j <> KCleanup y s) ->
  running_inv (Some q) m -> safe valid (running_inv (Some q)) (rely q) (guar (Some q)) (fin q j) m (x m).1 (x m).2.
Proof. intros Hx Hj HI. eapply task_fin; [exact Hx|done|done|]. intros v m' _. destruct j; try done. by destruct (Hj x0 stopping). Qed.

Lemma cleanup_ready x s m : Inv None m -> job m q = Some (KCleanup x s) -> cleanup_facts x s m.
Proof.
  intros HI Hj. destruct (iv_cleanup _ _ HI q x s Hj) as (r & Hr & H1 & H2 & H3 & _). exists r. split_and!; [done..|].
  destruct s as [[p d]|]; [|done]. split; [done|]. destruct (iv_proc _ _ HI x r p Hr H3) as (pr & Hp & _). by exists pr.
Qed.

Lemma job_safe j m : running_inv (Some q) m -> job m q = Some j -> (forall x, j = KStart x -> unstarted q x m) ->
  safe valid (running_inv (Some q)) (rely q) (guar (Some q)) (fin q j) m (job_body host q j m).1 (job_body host q j m).2.
Proof.
  intros HI Hj Hst. pose proof (lasting_true q) as HT. destruct j as [x|x s|x c|x c|id|x id why c t|x|p|x want| |]; cbn [job_body].
  - eapply task_fin; [apply start_task_safe|done|by apply Hst|by intros [] ?].
  - eapply task_fin; [apply cleanup_rest_task|done|by apply (cleanup_ready x s m (proj1 HI))|].
    intros [[]|e] m'; [|done]. intros (r & Hr & Hrest) r' Hr'. rewrite Hr in Hr'. by injection Hr' as <-.
  - apply plain_fin; [by apply forget_plain|done|done].
  - apply plain_fin; [by apply after_fail_plain|done|done].
  - apply plain_fin; [apply handle_stop_task|done|done].
  - eapply stop_rest_safe; [done|exact Hj].
  - apply plain_fin; [|done|done]. apply plain_rec; [done|]. intros r.
    destruct (x_a r) as [a|a|a|a|a]; try apply plain_ret. destruct (ra_external a); [by apply check_plain|apply plain_ret].
  - apply plain_fin; [by apply kill_plain|done|done].
  - apply plain_fin; [by apply fill_plain|done|done].
  - apply plain_fin; [apply stopAll_task|done|done].
  - apply plain_fin; [by apply recover_plain|done|done].
Qed.
End calls.

(** ** The machine *)

Section machine.
Context (host : AgentHost).

(** [st], what is left of call [q], may go on. *)
Definition resumable (q : nat) (st : Step unit) (m : Agent) : Prop :=
  exists j, job m q = Some j /\ settled m q = None /\
    waiting valid (running_inv (Some q)) (rely q) (guar (Some q)) (fin q j) st m.

Record sound (s : Machine) : Prop := {
  so_inv : Inv None (agent s);
  so_pool : forall q st, pool s !! q = Some st -> resumable q st (agent s);
  so_start : forall q x, job (agent s) q = Some (KStart x) -> settled (agent s) q = None -> pool s !! q = None ->
    unstarted q x (agent s) }.

Lemma resumable_moves q st m m' : rely q m m' -> resumable q st m -> resumable q st m'.
Proof.
  intros [L E] (j & Hj & Hs & Hw). exists j. split_and!; [by apply (lt_job _ _ L)|by apply (ex_pending _ _ _ E)|].
  eapply waiting_stable; [exact (conj L E)|exact Hw].
Qed.

(** A turn of call [o], or of none *)
Lemma sound_moves o s m' p' : sound s -> Inv None m' -> guar o (agent s) m' ->
  (forall q, o <> Some q -> p' !! q = pool s !! q) ->
  (forall q, o = Some q -> (forall st, p' !! q = Some st -> resumable q st m') /\ (p' !! q = None -> settled m' q <> None)) ->
  sound {| agent := m'; pool := p' |}.
Proof.
  intros [HI Hpool Hstart] HI' HG Hother Hown. constructor; cbn; [done|..].
  - intros q st Hq. destruct (decide (o = Some q)) as [->|Hne]; [by apply Hown|].
    rewrite Hother in Hq by done. eapply resumable_moves; [by eapply guar_rely|]. by apply Hpool.
  - intros q x Hj Hs Hq. destruct (decide (o = Some q)) as [->|Hne]; [by destruct (proj2 (Hown q eq_refl) Hq)|].
    rewrite Hother in Hq by done. destruct (guar_rely _ _ _ _ Hne HG) as [L E]. destruct (job (agent s) q) as [j|] eqn:Hj0.
    + rewrite (lt_job _ _ L q j Hj0) in Hj. injection Hj as ->. eapply unstarted_moves; [done..|]. apply Hstart; [done| |done].
      destruct (settled (agent s) q) as [v|] eqn:Hv; [|done]. by rewrite (lt_settled _ _ L q v Hv) in Hs.
    + by apply (ex_fresh _ _ _ E).
Qed.

Lemma advance_sound s q j r : sound s -> job (agent s) q = Some j ->
  safe valid (running_inv (Some q)) (rely q) (guar (Some q)) (fin q j) (agent s) r.1 r.2 -> sound (advance q r s).
Proof.
  intros Hs Hj Hsafe. destruct r as [[v|w k] m]; cbn in Hsafe; cbn [advance].
  - destruct (Hsafe Hj) as [HI HG]. apply (sound_moves (Some q) s (settle q v m)); [done..| |].
    + intros t Ht. by rewrite lookup_delete_ne by congruence.
    + intros t [= <-]. rewrite lookup_delete_eq. split; [done|]. intros _. rewrite settle_settled, decide_True by done.
      assert (job (settle q v m) q = Some j) as Hjm by (by apply (lt_job _ _ (proj1 HG))).
      rewrite settle_job in Hjm. by rewrite Hjm.
  - destruct Hsafe as ([HI Hp] & HG & Hk). apply (sound_moves (Some q) s m); [done..| |].
    + intros t Ht. by rewrite lookup_insert_ne by congruence.
    + intros t [= <-]. rewrite lookup_insert_eq. split; [|done]. intros st [= <-]. exists j.
      split_and!; [by apply (lt_job _ _ (proj1 HG))|by apply Hp|exact Hk].
Qed.

Lemma pool_unknown s q : sound s -> job (agent s) q = None -> pool s !! q = None.
Proof. intros Hs Hj. destruct (pool s !! q) as [st|] eqn:Hq; [|done]. destruct (so_pool _ Hs q st Hq) as (j & Hj' & _). congruence. Qed.

(** Calls that may be made at any time *)
Definition standalone (j : Job) : bool := negb (tracked j) && match j with KCleanup _ _ => false | _ => true end.

Lemma launch_sound s j : sound s -> standalone j = true -> sound (launch host j s).
Proof.
  intros Hs [Ht Hc]%andb_prop. unfold launch. set (q := length (promises (agent s))).
  set (m := set_promises (promises (agent s) ++ [(j, None)]) (agent s)).
  destruct (spawn_keeps None (agent s) (so_inv _ Hs) j) as (HI & HL & HE).
  { by destruct j. }
  { by destruct (tracked j). }
  fold m in HI, HL, HE. assert (job m q = Some j) as Hj by (apply spawn_job; by right).
  assert (sound {| agent := m; pool := pool s |}) as Hs1.
  { apply (sound_moves None s m); [done|done| |done..]. split; [done|]. intros t _. apply HE. intros x _ Hx. by rewrite Hx in Ht. }
  apply (advance_sound {| agent := m; pool := pool s |} q j); [done|done|]. apply job_safe; [|done|intros x Hx; by rewrite Hx in Ht].
  split; [done|]. intros t [= <-]. split; [congruence|]. unfold m. rewrite spawn_settled. unfold settled. by rewrite lookup_ge_None_2.
Qed.

Lemma handle_sound s tn : sound s -> sound (handle host s tn).
Proof.
  intros Hs. pose proof (so_inv _ Hs) as HI.
  assert (forall tn, sound {| agent := (sync_turn tn (agent s)).2; pool := pool s |}) as Hsync.
  { intros tn'. destruct (agent_turn_keeps tn' (agent s) HI) as [HI' HG]. by apply (sound_moves None s). }
  destruct tn as [[a|a|a|a|a]| | | | | | | | | | | | |q|q a]; cbn [handle]; try apply Hsync; try (by apply launch_sound).
  - destruct (promises (agent s) !! q) as [[j [v|]]|] eqn:Hq; [done| |done]. destruct (pool s !! q) eqn:Hp; [done|].
    assert (job (agent s) q = Some j) as Hj by (unfold job; by rewrite Hq).
    assert (settled (agent s) q = None) as Hn by (unfold settled; by rewrite Hq).
    apply (advance_sound s q j); [done|done|]. apply job_safe; [|done|].
    + split; [done|]. intros t [= <-]. split; [congruence|done].
    + intros x ->. by apply (so_start _ Hs).
  - destruct (pool s !! q) as [[v|w k]|] eqn:Hp; [done| |done]. destruct (answer (agent s) w a) as [r|] eqn:Ha; [|done].
    destruct (so_pool _ Hs q _ Hp) as (j & Hj & Hn & Hw). apply (advance_sound s q j); [done|done|].
    apply Hw; [|reflexivity|by exists a]. split; [done|]. intros t [= <-]. split; [congruence|done].
Qed.

Lemma run_sound l s : sound s -> sound (run host s l).
Proof. revert s. induction l as [|tn l IH]; intros s Hs; [done|]. by apply IH, handle_sound. Qed.

Lemma boot_sound c file t : sound (boot c file t).
Proof.
  constructor; cbn; [|done|done]. constructor; cbn; try done; [|apply NoDup_nil_2].
  intros id x Hin. by apply elem_of_nil in Hin.
Qed.

Lemma reachable_sound c file t l : sound (run host (boot c file t) l).
Proof. apply run_sound, boot_sound. Qed.

(** A running engine is that of an assignment in the map. *)
Lemma running_active m p pr : Inv None m -> procs m !! p = Some pr -> pr_running pr = true ->
  exists r, heap m !! pr_owner pr = Some r /\ x_proc r = Some p /\ active_get m (id_of (x_a r)) = Some (pr_owner pr).
Proof.
  intros HI Hp Hr. destruct (iv_owner _ _ HI p pr Hp) as (r & Hx & Hxp & _). exists r. split_and!; [done..|].
  apply (is_active_get None); [done..|]. destruct (iv_retired _ _ HI _ r Hx) as [Ha|Hrest]; [done|].
  pose proof (ar_proc _ _ Hrest) as Hq. rewrite Hxp in Hq. unfold proc_quiet, is_running in Hq. rewrite Hp in Hq. congruence.
Qed.

(** C2: a report "stopped" is true. *)
Theorem stopped_means_quiet c file t l id rt : let m := agent (run host (boot c file t) l) in
  last_report m id = Some rt -> rt_state rt = a_stopped ->
  active_get m id = None /\
  (forall x r, heap m !! x = Some r -> id_of (x_a r) = id -> at_rest m r) /\
  (forall p pr r, procs m !! p = Some pr -> heap m !! pr_owner pr = Some r -> id_of (x_a r) = id -> pr_running pr = false).
Proof.
  intros m Hrt Hst. pose proof (so_inv _ (reachable_sound c file t l)) as HI. fold m in HI.
  pose proof (iv_reports _ _ HI id rt Hrt Hst) as Hni. apply active_get_None in Hni. split; [done|split].
  - intros x r Hx Hid. destruct (iv_retired _ _ HI x r Hx) as [Ha|Hr]; [|done].
    apply (is_active_get None m x r HI Hx) in Ha. congruence.
  - intros p pr r Hp Hx Hid. destruct (pr_running pr) eqn:Hr; [|done].
    destruct (running_active m p pr HI Hp Hr) as (r' & Hx' & _ & Ha). congruence.
Qed.

(** C11: engines are within the offer, one for an assignment. *)
Theorem engines_within_offer c file t l p pr : let m := agent (run host (boot c file t) l) in
  procs m !! p = Some pr -> pr_running pr = true ->
  limits_ok (nc_offer (cfg m)) (pr_limits pr) /\
  (exists r, heap m !! pr_owner pr = Some r /\ active_get m (id_of (x_a r)) = Some (pr_owner pr) /\ managed (x_a r) = true) /\
  (forall p' pr', procs m !! p' = Some pr' -> pr_owner pr' = pr_owner pr -> p' = p).
Proof.
  intros m Hp Hr. pose proof (so_inv _ (reachable_sound c file t l)) as HI. fold m in HI.
  destruct (running_active m p pr HI Hp Hr) as (r & Hx & Hxp & Ha). split_and!.
  - apply (iv_limits _ _ HI p pr Hp). by apply (is_active_get None m _ r HI Hx).
  - destruct (iv_owner _ _ HI p pr Hp) as (r' & Hx' & _ & Hm). exists r. split_and!; [done..|congruence].
  - intros p' pr' Hp' Ho. destruct (iv_owner _ _ HI p' pr' Hp') as (r' & Hx' & Hxp' & _). congruence.
Qed.
End machine.

(** ** A worker's life: assigned, started, stopped *)

Definition demo_roles : Roles := {| ro_worker := true; ro_coordinator := false; ro_replica := false |}.
Definition demo_agent_offer : Offer :=
  {| of_enabled := true; of_roles := demo_roles; of_gpu := []; of_ramMiB := 4096; of_cpuCores := 4; of_diskMiB := 0; of_modelsDir := "/models" |}.
Definition demo_config : NodeConfig := {| nc_offer := demo_agent_offer; nc_enginePath := "/engine"; nc_externals := [] |}.
Definition demo_host : AgentHost :=
  {| h_os := linux; h_stateDir := "/state"; h_join := String.concat "/"; h_spawn := fun p _ _ => Ok (100 + Z.of_nat p);
     h_identify := fun _ _ => Ok (Some demo_process); h_parent := fun _ _ => None; h_round := fun _ => ""; h_iso := fun _ => "";
     h_gib := fun _ => ""; h_why := id; h_urlPort := fun _ => None |}.
Definition demo_worker : WorkerAssignment :=
  {| wa_id := "w1"; wa_deploymentId := "d1"; wa_port := 50100; wa_device := "cpu"; wa_threads := 4; wa_memCapMiB := None; wa_layers := None;
     wa_modelLayers := None; wa_peerPort := None; wa_peers := None; wa_serve := None; wa_allow := [];
     wa_enforce := Some {| ef_ramMiB := Some 2048; ef_cpuCores := Some 2 |}; wa_cache := None |}.
(** The engine comes up; then control stops it, and it exits at SIGTERM. *)
Definition demo_up : list Turn := [Assign (AWorker demo_worker); Begin 0; Resume 0 (N_bool true); Resume 0 (N_bool true)].
Definition demo_down : list Turn :=
  [Assign (AStop {| so_id := "w1"; so_deploymentId := "d1" |}); Begin 2; Exited 0 (Some 0) None; Elapse 250; Resume 2 N_none;
   Resume 2 N_none; Begin 4; Resume 4 N_none; Resume 1 N_none].
Definition demo_stopped : Agent := agent (run demo_host (boot demo_config NoFile 0) (demo_up ++ demo_down)).

Lemma stopped_means_quiet_witness :
  active_get demo_stopped "w1" = None /\ (exists r, heap demo_stopped !! 0%nat = Some r /\ id_of (x_a r) = "w1" /\ at_rest demo_stopped r).
Proof.
  destruct (stopped_means_quiet demo_host demo_config NoFile 0 (demo_up ++ demo_down) "w1"
    {| rt_id := "w1"; rt_state := a_stopped; rt_detail := Some "stopped by control"; rt_ports := None |}) as (H1 & H2 & _);
    [vm_compute; reflexivity|reflexivity|].
  split; [exact H1|]. exists (heap demo_stopped !!! 0%nat). split; [vm_compute; reflexivity|split; [vm_compute; reflexivity|]].
  apply (H2 0%nat); vm_compute; reflexivity.
Defined.

Lemma engines_within_offer_witness : let m := agent (run demo_host (boot demo_config NoFile 0) demo_up) in
  exists pr, procs m !! 0%nat = Some pr /\ pr_limits pr = (2048, 2) /\ pr_running pr = true /\ limits_ok (nc_offer (cfg m)) (pr_limits pr).
Proof.
  intros m. exists {| pr_name := "worker-w1"; pr_owner := 0; pr_pid := Some 100; pr_exited := false; pr_exit := None; pr_stopping := false;
    pr_signals := []; pr_identity := Some demo_process; pr_lines := []; pr_limits := (2048, 2) |}.
  split; [vm_compute; reflexivity|]. split; [reflexivity|]. split; [reflexivity|].
  apply (engines_within_offer demo_host demo_config NoFile 0 demo_up 0); [vm_compute; reflexivity|reflexivity].
Defined.
