(* ===== verification/AgentEnds.v ===== *)
(** * The node agent: its waiting loops end

    The loops of the runner that wait are given a number of rounds.  [ends x]: method [x] never comes to the end of
    them, for each round ends at the loop's deadline or sleeps.  So no call of the agent ever fails with
    [out_of_rounds], unless the host itself reports that text as an error. *)

From S2P Require Import Prelude Async Rules JsNum Json Types Recipes Identity ServeDial AgentState Agent AgentInv AgentRules AgentFacts.

Local Open Scope string_scope.
Local Open Scope list_scope.
Local Open Scope Z_scope.

(** An error that is not the end of the rounds *)
Definition own_error (e : string) : Prop := e <> out_of_rounds.
Definition clean {A} (r : result string A) : Prop := match r with Err e => own_error e | Ok _ => True end.

Definition answer_clean (a : Answer) : Prop :=
  match a with
  | N_unit r => clean r | N_text r => clean r | N_ram r => clean r | N_json r => clean r | N_port r => clean r | N_output r => clean r
  | N_none | N_bool _ | N_streams _ => True
  end.
Definition clean_ans (w : Wait) : ans w -> Prop :=
  match w with
  | W_promise _ | W_portFree _ | W_retire _ _ | W_sha256 _ | W_freeRam | W_json _ | W_listen _ | W_maintenance _ _ => clean
  | _ => fun _ => True
  end.

(** No call has come to the end of its rounds, and no cleanup's grace period is longer than its rounds. *)
Record paced (m : Agent) : Prop := {
  pa_settled : forall q v, settled m q = Some v -> clean v;
  pa_grace : forall q x p d, job m q = Some (KCleanup x (Some (p, d))) -> d <= now m + 90000 }.

Definition clock_rel (m m' : Agent) : Prop := now m <= now m'.
#[export] Instance clock_preorder : PreOrder clock_rel.
Proof. split; [intros m; unfold clock_rel; lia|intros m1 m2 m3; unfold clock_rel; lia]. Qed.
Definition clock : Moves Agent := {| moves_rel := clock_rel |}.

(** An answer the await can get, with no text of the model in it *)
Definition sincere (w : Wait) (a : ans w) (m : Agent) : Prop := exists n, answer_clean n /\ answer m w n = Some a.

Lemma sincere_clean w a m : paced m -> sincere w a m -> clean_ans w a.
Proof.
  intros HI (n & Hn & Ha). destruct w; cbn in *; try done; try (destruct n; cbn in *; congruence).
  by eapply pa_settled.
Qed.
Lemma sincere_sleep t a m : sincere (W_sleep t) a m -> t <= now m.
Proof. intros (n & _ & Ha). cbn in Ha. destruct (t <=? now m) eqn:H; [lia|done]. Qed.

Section ends.
Context (k : Z).
Abbreviation task P x Q := (rg sincere paced clock clock P x Q (fun e m => own_error e /\ k <= now m)).
Abbreviation ends x := (task (fun m => k <= now m) x (fun _ m => k <= now m)).
Abbreviation sync x := (sspec paced clock (fun m => k <= now m) x (fun _ m => k <= now m) (fun e m => own_error e /\ k <= now m)).

(** ** Synchronous methods *)

Lemma sync_bind {A B} (x : Sync A) (f : A -> Sync B) : sync x -> (forall a, sync (f a)) -> sync (x ≫= f).
Proof. intros Hx Hf. eapply sspec_bind; [exact Hx|exact Hf]. Qed.
Lemma sync_get {A} (f : Agent -> Sync A) : (forall m, sync (f m)) -> sync (mget ≫= f).
Proof. intros Hf. apply sspec_get. intros m _ Hm. eapply sspec_conseq; [apply Hf|by intros m' _ ->|done..]. Qed.
Lemma sync_ret {A} (a : A) : sync (mret a).
Proof. by apply sspec_ret. Qed.
Lemma sync_throw {A} e : own_error e -> sync (@mthrow Agent string A e).
Proof. intros He. by apply sspec_throw. Qed.
Lemma sync_result {A} (r : result string A) : clean r -> sync (of_result r).
Proof. intros Hr m HI Hm. unfold of_result. split_and!; [done|reflexivity|]. by destruct r. Qed.
Lemma sync_modify f : (forall m, promises (f m) = promises m /\ now (f m) = now m) -> sync (mmodify f).
Proof.
  intros Hf. apply sspec_modify. intros m [HS HG] Hm. destruct (Hf m) as [Hp Hn]. split_and!.
  - constructor; unfold settled, job; rewrite Hp, ?Hn; done.
  - change (now m <= now (f m)). lia.
  - lia.
Qed.
Lemma sync_upd x f : sync (upd x f).
Proof. by apply sync_modify. Qed.
Lemma sync_upd_proc p f : sync (upd_proc p f).
Proof. by apply sync_modify. Qed.
Lemma sync_report id s d p : sync (report id s d p).
Proof. by apply sync_modify. Qed.
Lemma sync_spawn j : (forall x p d, j <> KCleanup x (Some (p, d))) -> sync (spawn j).
Proof.
  intros Hj m [HS HG] Hm. unfold spawn. split_and!; [|exact (Z.le_refl (now m))|exact Hm].
  constructor.
  - intros q v Hq. apply (HS q). rewrite <-Hq. symmetry. apply spawn_settled.
  - intros q x p d [Hq|[_ Hq]]%spawn_job; [by apply (HG q x p)|by destruct (Hj x p d)].
Qed.
Lemma sync_rec x : sync (get_rec x).
Proof. apply sync_get. intros m. apply sync_ret. Qed.
End ends.

Create HintDb sync discriminated.
#[export] Hint Resolve sync_ret sync_upd sync_upd_proc sync_report sync_rec : sync.
Ltac own_error := solve [done | assumption | intros [=] | cbn; intros [=]].
Ltac sync_step :=
  match goal with
  | |- forall _, _ => intros ?
  | |- sspec _ _ _ (mget ≫= _) _ _ => apply sync_get; intros ?
  | |- sspec _ _ _ (_ ≫= _) _ _ => apply sync_bind; [|intros ?]
  | |- sspec _ _ _ (mthrow _) _ _ => apply sync_throw; own_error
  | |- sspec _ _ _ (of_result _) _ _ => apply sync_result
  | |- sspec _ _ _ (mmodify _) _ _ => apply sync_modify; by intros
  | |- sspec _ _ _ (spawn _) _ _ => apply sync_spawn; done
  | |- sspec _ _ _ (let _ := _ in _) _ _ => cbv zeta
  | |- sspec _ _ _ (if ?b then _ else _) _ _ => destruct b
  | |- sspec _ _ _ (match ?x with _ => _ end) _ _ => destruct x
  end.
Ltac sync := repeat first [solve [eauto with sync nocore] | sync_step].

Section methods.
Context (host : AgentHost) (k : Z).
Hypothesis spawn_own : forall n argv env, clean (h_spawn host n argv env).
Hypothesis identify_own : forall n pid, clean (h_identify host n pid).
Abbreviation sync x := (sspec paced clock (fun m => k <= now m) x (fun _ m => k <= now m) (fun e m => own_error e /\ k <= now m)).

Lemma sync_persist : sync persist.
Proof. unfold persist. sync. Qed.
Lemma sync_set_state x s d : sync (set_state x s d).
Proof. unfold set_state. sync. apply sync_persist. Qed.
Lemma sync_allows a o : clean (assertOwnerAllows a o).
Proof. destruct a as [a|a|a|a|a]; cbn; try (destruct (ra_external a)); unfold throw_if; try (destruct (_ || _)); cbn; own_error. Qed.
Lemma sync_starting x : sync (assertStarting x).
Proof. unfold assertStarting. sync. apply sync_allows. Qed.
Lemma sync_transports x : sync (close_transports x).
Proof. unfold close_transports. sync. Qed.

Lemma grace_spec p g : sspec paced clock (fun m => k <= now m) (proc_stop_begin p g)
  (fun s m => k <= now m /\ match s with Some (_, d) => d <= now m + g | None => True end) (fun e m => own_error e /\ k <= now m).
Proof.
  unfold proc_stop_begin. apply sspec_get. intros m HI Hm.
  assert (forall s : option (nat * Z), match s with Some (_, d) => d <= now m + g | None => True end ->
    sspec paced clock (fun m' => m' = m) (mret s)
      (fun s m => k <= now m /\ match s with Some (_, d) => d <= now m + g | None => True end) (fun e m => own_error e /\ k <= now m)) as Hret.
  { intros s Hs. apply sspec_ret. by intros m' _ ->. }
  destruct (procs m !! p) as [pr|]; [|by apply Hret]. destruct (_ && _); [|by apply Hret].
  eapply (sspec_bind _ _ _ (fun _ m' => now m <= now m')).
  - eapply sspec_conseq; [apply (sync_upd_proc (now m))|by intros m' _ ->|done|intros e m' _ []; split; [done|lia]].
  - intros ?. apply sspec_ret. intros m' _ Hm'. split; [lia|]. lia.
Qed.
Lemma sync_grace p g : sync (proc_stop_begin p g).
Proof. eapply sspec_conseq; [apply grace_spec|done|by intros s m _ []|done]. Qed.

Lemma sync_cleanup x : sync (cleanup x).
Proof.
  unfold cleanup. apply sync_bind; [apply sync_rec|]. intros r. destruct (x_cleanupTask r) as [q|]; [apply sync_ret|].
  do 3 (apply sync_bind; [apply sync_upd|intros ?]). apply sync_bind; [apply sync_transports|intros ?].
  eapply sspec_bind.
  { instantiate (1 := fun s m => k <= now m /\ match s with Some (_, d) => d <= now m + 90000 | None => True end).
    destruct (x_proc r); [apply grace_spec|]. by apply sspec_ret. }
  intros s. eapply (sspec_bind _ _ _ (fun _ m => k <= now m)); [|intros q; sync].
  intros m [HS HG] [Hm Hs]. unfold spawn. split_and!; [|exact (Z.le_refl (now m))|exact Hm].
  constructor.
  - intros q v Hq. apply (HS q). rewrite <-Hq. symmetry. apply spawn_settled.
  - intros q y p d [Hq|[_ Hq]]%spawn_job; [by apply (HG q y p)|]. injection Hq as -> <-. exact Hs.
Qed.
Lemma sync_fail x why : sync (fail x why).
Proof. unfold fail. sync. apply sync_cleanup. Qed.
Lemma sync_proc_start p argv env : sync (proc_start host p argv env).
Proof using spawn_own identify_own.
  unfold proc_start. apply sync_get. intros m. pose proof (spawn_own p argv env) as Hs.
  destruct (h_spawn host p argv env) as [pid|e]; [|by apply sync_throw].
  apply sync_bind; [apply sync_upd_proc|intros ?]. pose proof (identify_own p pid) as Hi.
  destruct (h_identify host p pid) as [i|e]; [apply sync_upd_proc|]. apply sync_bind; [apply sync_upd_proc|intros ?]. by apply sync_throw.
Qed.
Lemma sync_directory dir : sync (make_directory dir).
Proof. unfold make_directory. apply sync_modify. intros m. by case_bool_decide. Qed.
Lemma sync_serving x target port : sync (start_serving x target port).
Proof. unfold start_serving. sync. Qed.
End methods.
#[export] Hint Resolve sync_persist sync_set_state sync_starting sync_transports sync_grace sync_cleanup sync_fail sync_proc_start
  sync_directory sync_serving : sync.

(** ** Asynchronous methods *)

Section async.
Context (k : Z).
Abbreviation task P x Q := (rg sincere paced clock clock P x Q (fun e m => own_error e /\ k <= now m)).
Abbreviation ends x := (task (fun m => k <= now m) x (fun _ m => k <= now m)).
Abbreviation sync x := (sspec paced clock (fun m => k <= now m) x (fun _ m => k <= now m) (fun e m => own_error e /\ k <= now m)).

Lemma ends_lift {A} (x : Sync A) : sync x -> ends (lift x).
Proof. intros H. by apply rg_lift. Qed.
Lemma ends_bind {A B} (x : Async A) (f : A -> Async B) : ends x -> (forall a, ends (f a)) -> ends (x ≫= f).
Proof. intros Hx Hf. eapply rg_bind; [exact Hx|exact Hf]. Qed.
Lemma ends_get {A} (f : Agent -> Async A) : (forall m, ends (f m)) -> ends (lift mget ≫= f).
Proof. intros Hf m0 m HI HG HP. rewrite async_get. by apply Hf. Qed.
Lemma ends_ret {A} (a : A) : ends (mret a).
Proof. by apply rg_ret. Qed.
Lemma ends_throw {A} e : own_error e -> ends (athrow (A := A) e).
Proof. intros He. by apply rg_throw. Qed.
Lemma ends_result {A} (r : result string A) : clean r -> ends (settle_result r).
Proof. intros Hr. apply rg_result. intros m _ Hm. by destruct r. Qed.
Lemma ends_await w : ends (await w).
Proof. apply rg_await; [intros m m' _ _ HR Hm; change (now m <= now m') in HR; lia|done]. Qed.
(** The answer of an await says nothing of rounds. *)
Lemma ends_answer {A} w (f : ans w -> Async A) : (forall r, clean_ans w r -> ends (f r)) -> ends (await w ≫= f).
Proof.
  intros Hf. eapply (rg_bind _ _ _ _ _ (fun r m => k <= now m /\ clean_ans w r)).
  - apply rg_await; [intros m m' _ _ HR Hm; change (now m <= now m') in HR; lia|].
    intros r m HI Hm Hr. split; [done|]. by eapply sincere_clean.
  - intros r m0 m HI HG [Hm Hr]. by apply Hf.
Qed.
Lemma ends_catch {A} (x : Async A) h : ends x -> (forall e, own_error e -> ends (h e)) -> ends (acatch x h).
Proof.
  intros Hx Hh. eapply rg_catch; [exact Hx|]. intros e m0 m HI HG [He Hm]. by apply Hh.
Qed.
Lemma ends_for {A} (l : list A) body : (forall a, ends (body a)) -> ends (afor l body).
Proof. intros Hb. induction l as [|a l IH]; [apply ends_ret|]. apply ends_bind; [apply Hb|]. by intros _. Qed.
End async.

Section loops.
Abbreviation task k P x Q := (rg sincere paced clock clock P x Q (fun e m => own_error e /\ k <= now m)).
Abbreviation ends k x := (task k (fun m => k <= now m) x (fun _ m => k <= now m)).

Lemma asleep_spec k0 k ms : k0 <= k -> 0 <= ms -> task k0 (fun m => k <= now m) (asleep ms) (fun _ m => k + ms <= now m).
Proof.
  intros Hk Hms. unfold asleep. apply rg_get. intros m _ Hm.
  eapply (rg_conseq _ _ _ _ _ (fun m' => now m <= now m')).
  - apply (rg_await sincere paced clock clock (W_sleep (now m + ms)) _ (fun _ m' => now m + ms <= now m')).
    + intros m1 m2 _ _ HR Hm1. change (now m1 <= now m2) in HR. lia.
    + intros a m' _ _ Ha. by apply sincere_sleep in Ha.
  - by intros m' _ ->.
  - cbn. intros _ m' _ H. lia.
  - intros e m' _ H. exact H.
Qed.

(** A loop whose rounds each end, or begin before [D] and sleep [step], comes to an end. *)
Lemma rounds_end {A B} k0 D step (body : B -> Async (B + A)) : 0 < step ->
  (forall b k, k0 <= k -> task k0 (fun m => k <= now m) (body b)
     (fun r m => k <= now m /\ match r with inl _ => k < D /\ k + step <= now m | inr _ => True end)) ->
  forall n b k, k0 <= k -> (0 < n)%nat -> D <= k + (Z.of_nat n - 1) * step ->
    task k0 (fun m => k <= now m) (rounds n b body) (fun _ m => k0 <= now m).
Proof.
  intros Hstep Hb n. induction n as [|n IH]; intros b k Hk Hn HD; [lia|]. cbn [rounds].
  eapply rg_bind; [by apply Hb|]. intros [b'|a] m0 m HI HG (H1 & H2).
  - destruct H2 as [H2 H3]. apply (IH b' (k + step)); [lia| |lia|done..].
    destruct n; [cbn in HD|]; lia.
  - split_and!; [done..|]. change (k0 <= now m). lia.
Qed.

(** [poll] ends at its deadline. *)
Lemma poll_ends {A B} k timeoutMs stepMs (b : B) (late : B -> A) (body : B -> Async (B + A)) : 0 <= timeoutMs -> 0 < stepMs ->
  (forall b k', k <= k' -> ends k' (body b)) -> ends k (poll timeoutMs stepMs b late body).
Proof.
  intros Ht Hstep Hb. unfold poll. apply rg_get. intros m _ Hm. cbv zeta.
  eapply rg_conseq; [apply (rounds_end k (now m + timeoutMs) stepMs) with (k := now m); [done| |lia| |]|by intros m' _ ->|by intros ? ? _ ?|done].
  - intros b' k' Hk'. apply rg_get. intros m1 _ Hm1. destruct (_ <=? now m1) eqn:Hlate; [apply rg_ret; intros m' _ ->; by split|].
    eapply (rg_bind _ _ _ _ _ (fun _ m => now m1 <= now m)).
    + eapply rg_conseq; [apply (Hb b' (now m1)); lia|by intros m' _ ->|done|]. intros e m' _ []. split; [done|lia].
    + intros [c|a]; [|apply rg_ret; intros m' _ H; split; [lia|done]].
      eapply (rg_bind _ _ _ _ _ (fun _ m => now m1 + stepMs <= now m)); [apply asleep_spec; lia|].
      intros _. apply rg_ret. intros m' _ H. split_and!; lia.
  - unfold rounds_of. lia.
  - unfold rounds_of. rewrite Nat2Z.inj_add, Z2Nat.id by (apply Z.div_pos; lia). pose proof (Z.mul_succ_div_gt timeoutMs stepMs). lia.
Qed.
End loops.

Create HintDb ends discriminated.
#[export] Hint Resolve ends_ret ends_await : ends.
Ltac ends_step :=
  match goal with
  | |- forall _, _ => intros ?
  | |- rg _ _ _ _ _ (lift mget ≫= _) _ _ => apply ends_get; intros ?
  | |- rg _ _ _ _ _ (await ?w) _ _ => exact (ends_await _ w)
  | |- rg _ _ _ _ _ (await _ ≫= _) _ _ => apply ends_answer; cbn [clean_ans]; intros ? ?
  | |- rg _ _ _ _ _ (_ ≫= _) _ _ => apply ends_bind; [|intros ?]
  | |- rg _ _ _ _ _ (mret _) _ _ => apply ends_ret
  | |- rg _ _ _ _ _ (athrow _) _ _ => apply ends_throw; own_error
  | |- rg _ _ _ _ _ (settle_result _) _ _ => apply ends_result; try assumption
  | |- rg _ _ _ _ _ (acatch _ _) _ _ => apply ends_catch; [|intros ? ?]
  | |- rg _ _ _ _ _ (poll _ _ _ _ _) _ _ => apply poll_ends; [done|done|intros ? ? ?]
  | |- rg _ _ _ _ _ (afor _ _) _ _ => apply ends_for; intros ?
  | |- rg _ _ _ _ _ (lift _) _ _ => apply ends_lift; solve [sync]
  | |- rg _ _ _ _ _ (let _ := _ in _) _ _ => cbv zeta
  | |- rg _ _ _ _ _ (if ?b then _ else _) _ _ => destruct b
  | |- rg _ _ _ _ _ (match ?x with _ => _ end) _ _ => destruct x
  end.
Ltac ends := repeat first [solve [eauto with ends nocore] | ends_step].

Section waits.
Context (host : AgentHost) (k : Z).
Abbreviation task P x Q := (rg sincere paced clock clock P x Q (fun e m => own_error e /\ k <= now m)).
Abbreviation ends x := (task (fun m => k <= now m) x (fun _ m => k <= now m)).

Lemma ends_promise q : ends (await_promise q).
Proof. unfold await_promise. ends. Qed.
Lemma ends_port port p ms : 0 <= ms -> ends (waitForPort port p ms).
Proof. intros Hms. unfold waitForPort. apply poll_ends; [done..|]. intros b k' _. ends. Qed.
Lemma ends_health url p ms : 0 <= ms -> ends (waitForHealth url p ms).
Proof. intros Hms. unfold waitForHealth. apply poll_ends; [done..|]. intros b k' _. ends. Qed.
Lemma ends_maintenance ext v : ends (maintenance ext v).
Proof. unfold maintenance. ends. Qed.
Lemma ends_enforce u argv l : ends (enforce host u argv l).
Proof. unfold enforce. ends. Qed.

Definition deadline_near (s : option (nat * Z)) (m : Agent) : Prop :=
  k <= now m /\ match s with Some (_, d) => d <= now m + 90000 | None => True end.

Lemma ends_stop_wait p d : task (deadline_near (Some (p, d))) (proc_stop_wait p d) (fun _ m => k <= now m).
Proof.
  unfold proc_stop_wait. eapply (rg_bind _ _ _ _ _ (fun _ m => k <= now m)); [|intros _; ends].
  change (rounds_of 90000 250) with 362%nat.
  intros m0 m HI HG [Hk Hd]. apply (rounds_end k d 250) with (k := now m); try done; [|lia..].
  intros b k' Hk'. apply rg_get. intros m1 _ Hm1. destruct (exited m1 p || (d <=? now m1)) eqn:He.
  { apply rg_ret. by intros m' _ ->. }
  eapply (rg_bind _ _ _ _ _ (fun _ m => now m1 + 250 <= now m)).
  - eapply rg_conseq; [apply (asleep_spec k (now m1)); lia|by intros m' _ ->|done|done].
  - intros _. apply rg_ret. intros m' _ H. bool_to_prop. lia.
Qed.
Lemma ends_stopped s : task (deadline_near s) (wait_stopped s) (fun _ m => k <= now m).
Proof. destruct s as [[p d]|]; [apply ends_stop_wait|]. apply rg_ret. by intros m _ []. Qed.

Lemma stage_directory_clean id : clean (stage_directory host id).
Proof. unfold stage_directory, stageStateDirectory. case_match; [done|cbn; own_error]. Qed.
Lemma ends_remove id : ends (remove_directory host id).
Proof. unfold remove_directory. ends. apply stage_directory_clean. Qed.
Lemma ends_check x ext : ends (check x ext).
Proof. unfold check. apply ends_bind; [by apply ends_health|]. intros ok. ends. Qed.
End waits.
#[export] Hint Resolve ends_promise ends_maintenance ends_enforce ends_remove ends_check stage_directory_clean : ends.

(** ** The calls *)

Section calls.
Context (host : AgentHost).
Hypothesis spawn_own : forall n argv env, clean (h_spawn host n argv env).
Hypothesis identify_own : forall n pid, clean (h_identify host n pid).
Context (k : Z).
Abbreviation task P x Q := (rg sincere paced clock clock P x Q (fun e m => own_error e /\ k <= now m)).
Abbreviation ends x := (task (fun m => k <= now m) x (fun _ m => k <= now m)).

Lemma own_bind {A B} (x : result string A) (f : A -> result string B) : clean x -> (forall a, clean (f a)) -> clean (x ≫= f).
Proof. intros Hx Hf. by destruct x; [apply Hf|]. Qed.
Lemma clean_throw_if b e : own_error e -> clean (throw_if b e).
Proof. by destruct b. Qed.
Lemma speculation_clean m s : clean (speculationArgs m s).
Proof. unfold speculationArgs. repeat case_match; cbn; own_error. Qed.
Lemma coordinator_clean os e a l : clean (coordinatorArgv os e a l).
Proof. apply own_bind; [apply speculation_clean|done]. Qed.
Lemma replica_clean os e a c : clean (replicaArgv os e a c).
Proof. unfold replicaArgv. destruct (ra_model a); [|cbn; own_error]. apply own_bind; [apply speculation_clean|done]. Qed.
Lemma stage_clean j os e a d : clean (stageArgv j os e a d).
Proof.
  unfold stageArgv. destruct (_ || _); [cbn; own_error|]. apply own_bind; [|done].
  unfold stageStateDirectory. case_match; [done|cbn; own_error].
Qed.
Lemma identity_clean actual expected : clean (check_identity actual expected).
Proof.
  induction expected as [|[f v] l IH]; [done|]. cbn [check_identity]. apply own_bind; [|done]. apply clean_throw_if. own_error.
Qed.
Lemma health_clean v i b : clean (assertStageHealth v i b).
Proof.
  unfold assertStageHealth. destruct (object_fields v) as [st|]; [|cbn; own_error].
  destruct (jget st "identity" ≫= object_fields); [|cbn; own_error]. apply own_bind; [apply identity_clean|intros _].
  apply own_bind; [apply clean_throw_if; own_error|intros _]. apply own_bind; [apply clean_throw_if; own_error|intros _].
  apply clean_throw_if; own_error.
Qed.
Lemma process_clean os p pid s : clean (assertStageProcess os p pid s).
Proof. unfold assertStageProcess. repeat case_match; cbn; own_error. Qed.

Lemma ends_restore x : ends (restoreExternal x).
Proof. unfold restoreExternal. ends. Qed.
Lemma ends_cleanup x s : task (deadline_near k s) (cleanup_rest host x s) (fun _ m => k <= now m).
Proof.
  unfold cleanup_rest. eapply rg_bind; [apply ends_stopped|]. intros ?. cbn beta. ends. apply ends_restore.
Qed.
Lemma ends_stop self id why : ends (stop self id why).
Proof. unfold stop. ends. Qed.
Lemma ends_stop_rest x id why q : ends (stop_rest x id why q).
Proof. unfold stop_rest. ends. Qed.

Lemma ends_open_all x l : ends (open_all x l).
Proof. induction l as [|[n e] l IH]; cbn [open_all]; [apply ends_ret|]. unfold dialer_open. ends. Qed.

Lemma ends_then {A B} k' (Q' : B -> Agent -> Prop) (x : Async A) (f : A -> Async B) :
  rg sincere paced clock clock (fun m => k' <= now m) x (fun _ m => k' <= now m) (fun e m => own_error e /\ k' <= now m) -> k <= k' ->
  (forall a, task (fun m => k' <= now m) (f a) Q') -> task (fun m => k' <= now m) (x ≫= f) Q'.
Proof.
  intros Hx Hk Hf. eapply (rg_bind _ _ _ _ _ (fun _ m => k' <= now m)); [|exact Hf].
  eapply rg_conseq; [exact Hx|done|done|]. intros e m _ []. split; [done|lia].
Qed.

Lemma ends_stop_external x ext m : k <= now m ->
  task (fun m' => now m <= now m') (stop_external host x ext (now m + 1200000)) (fun _ m => k <= now m).
Proof.
  intros Hm. unfold stop_external. change (rounds_of 1200000 20000) with 62%nat.
  apply (rounds_end k (now m + 1200000 + 1) 20000); [done| |done|lia..].
  intros b k' Hk'.
  do 4 (apply ends_then; [apply ends_lift; solve [sync]|done|intros ?]).
  apply ends_then; [apply ends_maintenance|done|]. intros out. destruct (out.1 =? 0).
  { apply ends_then; [apply ends_lift; solve [sync]|done|intros ?]. by apply rg_ret. }
  apply ends_then; [destruct (_ =? 65); ends|done|intros ?]. apply rg_get. intros m1 _ Hm1. cbv zeta. destruct (_ || _) eqn:Hlate.
  { apply rg_throw. intros m' _ ->. split; [own_error|lia]. }
  apply (rg_conseq _ _ _ _ _ (fun m' => k' <= now m') _
    (fun r m' => k' <= now m' /\ match r with inl _ => k' + 20000 <= now m' | inr _ => True end) _ (fun e m => own_error e /\ k <= now m)).
  - apply ends_then; [apply ends_lift; solve [sync]|done|intros ?].
    eapply (rg_bind _ _ _ _ _ (fun _ m' => k' + 20000 <= now m')); [apply asleep_spec; lia|intros ?].
    apply ends_then; [apply ends_lift; solve [sync]|lia|]. intros r. destruct (x_stopping r).
    + apply rg_throw. intros m' _ H. split; [own_error|lia].
    + apply rg_ret. intros m' _ H. split; [lia|done].
  - by intros m' _ ->.
  - intros [c|v] m' _ [H1 H2]; split_and!; [done| |done|done|done]. bool_to_prop. lia.
  - done.
Qed.

Lemma ends_await_memory x ext need free : ends (await_memory host x ext need free).
Proof. unfold await_memory. ends. Qed.
Lemma ends_fitGate x fit ext req : ends (fitGate host x fit ext req).
Proof.
  unfold fitGate. destruct (truthy_opt fit); [|apply ends_ret]. apply ends_answer. cbn [clean_ans]. intros r Hr.
  apply ends_bind; [by apply ends_result|]. intros free. apply ends_bind; [apply ends_lift; sync|intros ?].
  destruct free as [f|]; [|ends]. destruct (fits _ _); [ends|]. destruct (truthy_str ext); [|ends].
  apply rg_get. intros m _ Hm. destruct (find _ _) as [e|]; [|apply rg_throw; intros m' _ ->; split; [own_error|done]].
  eapply (rg_bind _ _ _ _ _ (fun _ m => k <= now m)).
  - eapply rg_conseq; [apply (ends_stop_external x e m Hm)|by intros m' _ ->|done|done].
  - intros ?. ends. apply ends_await_memory.
Qed.
Lemma ends_engine x u argv env l : ends (start_engine host x u argv env l).
Proof using spawn_own identify_own. unfold start_engine. ends. Qed.

Lemma ends_stage x a : ends (startStage host x a).
Proof using spawn_own identify_own.
  unfold startStage. ends; first [apply stage_clean | apply ends_fitGate | apply stage_directory_clean | apply ends_engine | by apply ends_health
    | apply health_clean | apply process_clean].
Qed.
Lemma ends_worker x a : ends (startWorker host x a).
Proof using spawn_own identify_own. unfold startWorker. ends; first [apply ends_open_all | apply ends_engine | by apply ends_port]. Qed.
Lemma ends_coordinator x a : ends (startCoordinator host x a).
Proof using spawn_own identify_own.
  unfold startCoordinator. ends; first [apply ends_fitGate | apply ends_open_all | apply coordinator_clean | apply ends_engine | by apply ends_health].
Qed.
Lemma ends_replica x a : ends (startReplica host x a).
Proof using spawn_own identify_own.
  unfold startReplica. ends; first [apply ends_fitGate | apply replica_clean | apply ends_engine | by apply ends_health].
Qed.
Lemma ends_start x : ends (start_task host x).
Proof using spawn_own identify_own.
  unfold start_task, start_role. ends; first [apply ends_worker | apply ends_coordinator | apply ends_stage | apply ends_replica].
Qed.
Lemma ends_recover : ends (recover host).
Proof. unfold recover, recover_one. ends. Qed.

Lemma ends_job q j m : paced m -> k <= now m -> job m q = Some j ->
  safe sincere paced clock clock (keeps paced clock (fun _ _ => True) (fun e _ => own_error e)) m (job_body host q j m).1 (job_body host q j m).2.
Proof using spawn_own identify_own.
  intros HI Hk Hj. assert (forall P (x : Async unit) Q, task P x Q -> P m ->
    safe sincere paced clock clock (keeps paced clock (fun _ _ => True) (fun e _ => own_error e)) m (x m).1 (x m).2) as Hx.
  { intros P x Q H HP. eapply safe_mono; [|apply (H m m HI (reflexivity m) HP)]. intros m0 [v|e] m' (H1 & H2 & H3); by split_and!; try apply H3. }
  destruct j as [x|x s|x c|x c|id|x id why c t|x|p|x want| |]; cbn [job_body].
  - eapply Hx; [apply ends_start|done].
  - eapply Hx; [apply ends_cleanup|]. split; [done|]. destruct s as [[p d]|]; [|done]. by apply (pa_grace m HI q x p).
  - apply (Hx (fun m => k <= now m) _ (fun _ m => k <= now m)); [|exact Hk]. ends.
  - apply (Hx (fun m => k <= now m) _ (fun _ m => k <= now m)); [|exact Hk]. ends.
  - apply (Hx (fun m => k <= now m) _ (fun _ m => k <= now m)); [|exact Hk]. ends. apply ends_stop.
  - eapply Hx; [apply ends_stop_rest|done].
  - apply (Hx (fun m => k <= now m) _ (fun _ m => k <= now m)); [|exact Hk]. ends.
  - apply (Hx (fun m => k <= now m) _ (fun _ m => k <= now m)); [|exact Hk]. eapply rg_bind; [apply rg_lift, grace_spec|]. intros s. apply (rg_conseq _ _ _ _ _ (deadline_near k s) _ (fun _ m => k <= now m) _ (fun e m => own_error e /\ k <= now m)); [apply ends_stopped| |by intros ? ? ?|by intros ? ? ?].
    intros m' _ [H1 H2]. split; [done|]. destruct s as [[]|]; [lia|done].
  - apply (Hx (fun m => k <= now m) _ (fun _ m => k <= now m)); [|exact Hk]. unfold fill_rest. ends.
  - apply (Hx (fun m => k <= now m) _ (fun _ m => k <= now m)); [|exact Hk]. unfold stopAll. ends. apply ends_stop.
  - eapply Hx; [apply ends_recover|done].
Qed.
End calls.

(** ** The machine *)

Section machine.
Context (host : AgentHost).
Hypothesis spawn_own : forall n argv env, clean (h_spawn host n argv env).
Hypothesis identify_own : forall n pid, clean (h_identify host n pid).

Definition done_clean : Agent -> result string unit -> Agent -> Prop := keeps paced clock (fun _ _ => True) (fun e _ => own_error e).

Record pacing (s : Machine) : Prop := {
  pc_agent : paced (agent s);
  pc_pool : forall q st, pool s !! q = Some st -> waiting sincere paced clock clock done_clean st (agent s) }.

Definition turn_clean (t : Turn) : Prop := match t with Resume _ a => answer_clean a | _ => True end.

Lemma pacing_moves s m p' : pacing s -> paced m -> now (agent s) <= now m ->
  (forall q st, p' !! q = Some st -> pool s !! q = Some st \/ waiting sincere paced clock clock done_clean st m) ->
  pacing {| agent := m; pool := p' |}.
Proof.
  intros [HI HP] HI' Hn Hp. constructor; cbn; [done|]. intros q st Hq. destruct (Hp q st Hq) as [H|H]; [|done].
  eapply waiting_stable; [exact Hn|by eapply HP].
Qed.

Lemma settle_paced q v m : paced m -> clean v -> paced (settle q v m).
Proof.
  intros [HS HG] Hv. constructor.
  - intros p w. rewrite settle_settled. destruct (decide (q = p)); [|apply HS]. destruct (job m p); [|done]. by intros [= <-].
  - intros p x c d. rewrite settle_job. apply HG.
Qed.

Lemma advance_pacing s q r : pacing s ->
  safe sincere paced clock clock done_clean (agent s) r.1 r.2 -> pacing (advance q r s).
Proof.
  intros Hs Hsafe. destruct r as [[v|w c] m]; cbn in Hsafe; cbn [advance].
  - destruct Hsafe as (HI & HG & Hv). apply (pacing_moves s (settle q v m)); [done| |exact HG|].
    + apply settle_paced; [done|]. by destruct v.
    + intros t st. rewrite lookup_delete_Some. intros []. by left.
  - destruct Hsafe as (HI & HG & Hc). apply (pacing_moves s m); [done..|]. intros t st. rewrite lookup_insert_Some.
    intros [[<- <-]|[_ Ht]]; [by right|by left].
Qed.

Lemma sync_paced (x : Sync unit) m : paced m ->
  sspec paced clock (fun m' => now m <= now m') x (fun _ m' => now m <= now m') (fun e m' => own_error e /\ now m <= now m') ->
  paced (x m).2 /\ now m <= now (x m).2.
Proof. intros HI H. by destruct (H m HI (Z.le_refl _)) as (H1 & H2 & _). Qed.

Lemma turn_paced t m : paced m -> paced (sync_turn t m).2 /\ now m <= now (sync_turn t m).2.
Proof.
  intros HI. destruct t as [a|p code signal|p line|x|x reason|x|x sock|x key path|next|ok|ms| | |q|q a]; cbn [sync_turn].
  all: try (apply sync_paced; [done|]; sync; fail).
  - apply sync_paced; [done|]. unfold assign. sync.
  - apply sync_paced; [done|]. unfold on_exit. sync.
  - apply sync_paced; [done|]. unfold serve_timer. sync.
  - unfold of_result, mbind, M_bind, mget. destruct (assertOfferChange m next); cbn; [|by split]. split; [|lia]. destruct HI as [HS HG]. by constructor.
  - cbn. split; [|lia]. destruct HI as [HS HG]. constructor; [exact HS|]. intros q x p d H. specialize (HG q x p d H). cbn. lia.
Qed.

Lemma spawned_paced j m : paced m -> (forall x s, j <> KCleanup x s) -> paced (set_promises (promises m ++ [(j, None)]) m).
Proof.
  intros HI Hj. pose proof (sync_spawn (now m) j ltac:(by intros; apply Hj)) as H. by destruct (H m HI (Z.le_refl _)) as (H1 & _).
Qed.

Lemma launch_pacing s j : pacing s -> (forall x c, j <> KCleanup x c) -> pacing (launch host j s).
Proof using spawn_own identify_own.
  intros Hs Hj. unfold launch. set (m := set_promises (promises (agent s) ++ [(j, None)]) (agent s)).
  assert (paced m) as HI by (by apply spawned_paced; [apply Hs|]).
  apply (advance_pacing {| agent := m; pool := pool s |}).
  - apply (pacing_moves s m); [done..| |by left]. cbn. lia.
  - apply (ends_job host spawn_own identify_own (now m)); [done|lia|]. apply spawn_job. by right.
Qed.

Lemma handle_pacing s t : pacing s -> turn_clean t -> pacing (handle host s t).
Proof using spawn_own identify_own.
  intros Hs Ht. pose proof (pc_agent _ Hs) as HI.
  assert (forall t, pacing {| agent := (sync_turn t (agent s)).2; pool := pool s |}) as Hsync.
  { intros t'. destruct (turn_paced t' (agent s) HI) as [HI' HG]. apply (pacing_moves s); [done..|by left]. }
  destruct t as [[a|a|a|a|a]| | | | | | | | | | | | |q|q a]; cbn [handle]; try apply Hsync; try (by apply launch_pacing).
  - destruct (promises (agent s) !! q) as [[j [v|]]|] eqn:Hq; [done| |done]. destruct (pool s !! q) eqn:Hp; [done|].
    apply advance_pacing; [done|]. apply (ends_job host spawn_own identify_own (now (agent s))); [done|lia|]. unfold job. by rewrite Hq.
  - destruct (pool s !! q) as [[v|w c]|] eqn:Hp; [done| |done]. destruct (answer (agent s) w a) as [r|] eqn:Ha; [|done].
    pose proof (pc_pool _ Hs q _ Hp) as Hw. apply advance_pacing; [done|]. apply Hw; [done|reflexivity|]. by exists a.
Qed.

(** The rounds are enough: in any run over a host whose own errors do not bear that text, no call fails because its rounds
    were used up. The number of polls the model counts is never less than what the deadline and the delay between polls allow;
    [ends_start] says it of the loops in a start, whose catch reports every error. *)
Theorem waits_end c file t l q v : Forall turn_clean l ->
  settled (agent (run host (boot c file t) l)) q = Some v -> v <> Err out_of_rounds.
Proof using spawn_own identify_own.
  intros Hl Hv. assert (pacing (run host (boot c file t) l)) as [HI _].
  { assert (pacing (boot c file t)) as Hb by (by constructor; [constructor|]). revert Hb. generalize (boot c file t) as s.
    clear Hv. induction Hl as [|tn l Ht _ IH]; intros s Hs; [done|]. by apply IH, handle_pacing. }
  pose proof (pa_settled _ HI q v Hv) as Hc. by intros ->.
Qed.
End machine.

(** The demonstration's worker never gets its port open: 362 polls of half a second, and the assignment fails. *)
Definition demo_late : list Turn :=
  [Assign (AWorker demo_worker); Begin 0; Resume 0 (N_bool true)] ++ concat (repeat [Resume 0 (N_bool false); Elapse 500; Resume 0 N_none] 360).
Lemma waits_end_witness :
  let m := agent (run demo_host (boot demo_config NoFile 0) demo_late) in
  settled m 0 = Some (Ok tt) /\ rt_state <$> last_report m "w1" = Some a_failed /\ Ok tt <> Err out_of_rounds.
Proof.
  split; [vm_compute; reflexivity|]. split; [vm_compute; reflexivity|].
  apply (waits_end demo_host (fun _ _ _ => I) (fun _ _ => I) demo_config NoFile 0 demo_late 0); [|vm_compute; reflexivity].
  repeat constructor.
Defined.
