(* ===== verification/HarnessTypes.v ===== *)
(** * Harness data (sin-harness/core/types.ts)

    The records the research harness passes between capture, curation, evaluation, gating and the
    mesh.  String unions are inductive types; [meta] values and scores keep their JavaScript
    representation. *)

From S2P Require Import Prelude JsNum Json.

Inductive ChatRole := system | user | assistant.
Record ChatMsg := { cm_role : ChatRole; cm_content : string }.
Record ChatOptions := {
  co_seed : option Z; co_temperature : option num; co_maxTokens : option Z; co_cachePrompt : option bool }.

Record ModelManifest := {
  mm_name : string; mm_contextLength : Z; mm_quantization : string; mm_moe : bool;
  mm_activeParams : option Z; mm_endpoint : string }.

(** ** Capture *)

(** [unchecked] holds a kind imported from another node: rows are cast, not validated. *)
Inductive EventKind := correction | retry | tool_failure | outcome | observation | unchecked (s : string).
#[export] Instance EventKind_eq : EqDecision EventKind.
Proof. solve_decision. Defined.

Record EventRecord := {
  ev_id : string; ev_ts : string; ev_nodeId : option string; ev_session : string;
  ev_kind : EventKind; ev_payload : string; ev_piiFlagged : bool; ev_processed : bool }.

Inductive CandidateKind := skill | memory.
#[export] Instance CandidateKind_eq : EqDecision CandidateKind.
Proof. solve_decision. Defined.

Record SkillCandidate := {
  sc_id : string; sc_eventIds : list string; sc_summary : string; sc_kind : CandidateKind }.

(** ** Graduation *)

Inductive NotSaturated := below_threshold | burst_not_recurring | text_path_not_exhausted.

Record SaturationVerdict := {
  sv_patternKey : string; sv_occurrences : Z; sv_firstSeen : string; sv_lastSeen : string;
  sv_spanDays : num; sv_textSkillTried : bool; sv_saturated : bool; sv_reason : option NotSaturated }.

(** ** Evaluation *)

Inductive ExpectedAnswer :=
  | exact (value : string)
  | contains (value : string)
  | numeric (value : num) (tolerance : option num).

Record EvalInstance := {
  ei_id : string; ei_templateId : string; ei_transformId : string; ei_seed : Z;
  ei_prompt : string; ei_expected : ExpectedAnswer; ei_meta : option fields }.

Record EvalResult := {
  er_instanceId : string; er_output : string; er_passed : bool; er_score : num;
  er_durationMs : Z; er_nodeId : option string }.

(** ** Gate *)

Inductive GateDecision := accept | keep | revert.
#[export] Instance GateDecision_eq : EqDecision GateDecision.
Proof. solve_decision. Defined.

Record GateCertificate := {
  gc_id : string; gc_date : string; gc_knowledgeSha : string; gc_baseModel : string;
  gc_suiteSeed : Z; gc_instanceCount : Z; gc_oldScore : num; gc_newScore : num;
  gc_decision : GateDecision; gc_signature : option string }.

Record ArtifactRef := { af_path : string; af_sha : string }.
