(* ===== verification/Canon.v ===== *)
(** * Canonical JSON (sin-harness/core/sign.ts, evals/templates.ts, mesh/protocol.ts)

    [canonicalize] sorts object keys recursively, which makes the signed bytes and the tally keys of
    the mesh independent of key order.  The text forms of numbers and [JSON.parse] are the
    engine's: [JsonText] names the two functions. *)

From Stdlib Require Import Ascii.
From S2P Require Import Prelude JsNum Json HarnessTypes.

Local Open Scope char_scope.
Local Open Scope string_scope.
Local Open Scope list_scope.
Local Open Scope Z_scope.

Class JsonText := {
  (** [JSON.stringify] of a number *)
  num_string : num -> string;
  (** [JSON.parse]; [None] when it throws *)
  JSON_parse : string -> option json }.

(** ** [JSON.stringify] of a string *)

Definition hex_digit (n : nat) : Ascii.ascii :=
  Ascii.ascii_of_nat (if (n <? 10)%nat then 48 + n else 87 + n).

Definition bs (c : Ascii.ascii) : string := String (Ascii.ascii_of_nat 92) (String c EmptyString).

Definition escape_char (a : Ascii.ascii) : string :=
  let n := Ascii.nat_of_ascii a in
  if (n =? 34)%nat then bs a else if (n =? 92)%nat then bs a
  else if (n =? 8)%nat then bs "b" else if (n =? 12)%nat then bs "f" else if (n =? 10)%nat then bs "n"
  else if (n =? 13)%nat then bs "r" else if (n =? 9)%nat then bs "t"
  else if (n <? 32)%nat then
    bs "u" +:+ "00" +:+ String (hex_digit (n / 16)) (String (hex_digit (n mod 16)) EmptyString)
  else String a EmptyString.

Fixpoint escape (s : string) : string :=
  match s with EmptyString => EmptyString | String a s => escape_char a +:+ escape s end.
Definition dquote : string := String (Ascii.ascii_of_nat 34) EmptyString.
Definition quote (s : string) : string := dquote +:+ escape s +:+ dquote.

(** [l.join(",")] *)
Fixpoint join (sep : string) (l : list string) : string :=
  match l with [] => "" | [x] => x | x :: l => x +:+ sep +:+ join sep l end.

Section canon.
Context `{JsonText}.

Definition field_text (kv : string * string) : string := quote kv.1 +:+ ":" +:+ kv.2.

(** [JSON.stringify] of a JSON value *)
Fixpoint stringify (v : json) : string :=
  match v with
  | JNull => "null"
  | JBool b => if b then "true" else "false"
  | JNum n => num_string n
  | JStr s => quote s
  | JArr l => "[" +:+ join "," (List.map stringify l) +:+ "]"
  | JObj o =>
      "{" +:+ join "," (List.map field_text
        (List.map (fun kv => match kv with (k, x) => (k, stringify x) end) o)) +:+ "}"
  end.

(** Entries sorted by [a < b ? -1 : a > b ? 1 : 0] on their keys. *)
Definition sort_fields (l : list (string * string)) : list (string * string) :=
  js_sort (by_key String.compare fst) l.

Fixpoint canonicalize (v : json) : string :=
  match v with
  | JNull => "null"
  | JBool b => if b then "true" else "false"
  | JNum n => num_string n
  | JStr s => quote s
  | JArr l => "[" +:+ join "," (List.map canonicalize l) +:+ "]"
  | JObj o =>
      "{" +:+ join "," (List.map field_text
        (sort_fields (List.map (fun kv => match kv with (k, x) => (k, canonicalize x) end) o))) +:+ "}"
  end.

(** ** Canonical answers *)

Definition is_space (a : Ascii.ascii) : bool :=
  let n := Ascii.nat_of_ascii a in ((9 <=? n) && (n <=? 13) || (n =? 32) || (n =? 160))%nat.
Fixpoint trim_left (s : string) : string :=
  match s with String a t => if is_space a then trim_left t else s | EmptyString => s end.
Fixpoint rev_string (s acc : string) : string :=
  match s with EmptyString => acc | String a s => rev_string s (String a acc) end.
(** [s.trim()] on the white space among code units below 256 *)
Definition trim (s : string) : string := rev_string (trim_left (rev_string (trim_left s) "")) "".

(** [s.indexOf(c)] / [s.lastIndexOf(c)] of one character *)
Fixpoint index_of (c : Ascii.ascii) (i : nat) (s : string) : option nat :=
  match s with
  | EmptyString => None
  | String a s => if Ascii.eqb a c then Some i else index_of c (S i) s
  end.
Fixpoint last_index_of (c : Ascii.ascii) (i : nat) (s : string) : option nat :=
  match s with
  | EmptyString => None
  | String a s =>
      match last_index_of c (S i) s with
      | Some j => Some j
      | None => if Ascii.eqb a c then Some i else None
      end
  end.

Definition tryParse (s : string) : option fields := JSON_parse s ≫= fun v => as_obj (Some v).

(** A JSON object in model output: direct parse, then the outermost braces. *)
Definition extractJson (output : string) : option fields :=
  match tryParse (trim output) with
  | Some o => Some o
  | None =>
      match index_of "{" 0 output, last_index_of "}" 0 output with
      | Some first, Some last_ =>
          if (last_ <=? first)%nat then None
          else tryParse (String.substring first (last_ + 1 - first) output)
      | _, _ => None
      end
  end.

Definition canonicalAnswer (output : string) : json :=
  match extractJson output with Some o => JObj o | None => JStr (trim output) end.

Record ComparableResult := { cr_instanceId : string; cr_answer : json; cr_passed : bool; cr_score : num }.

Definition comparableOf (r : EvalResult) : ComparableResult :=
  {| cr_instanceId := er_instanceId r; cr_answer := canonicalAnswer (er_output r);
     cr_passed := er_passed r; cr_score := er_score r |}.

Definition comparable_json (r : ComparableResult) : json :=
  JObj [("instanceId", JStr (cr_instanceId r)); ("answer", cr_answer r);
        ("passed", JBool (cr_passed r)); ("score", JNum (cr_score r))].

(** [Object.is] on numbers: distinguishes the zeros, identifies NaN with itself. *)
Definition object_is (x y : num) : bool :=
  match x, y with
  | SpecFloat.S754_nan, SpecFloat.S754_nan => true
  | SpecFloat.S754_zero a, SpecFloat.S754_zero b => Bool.eqb a b
  | _, _ => num_eqb x y
  end.

Definition sameResult (a b : ComparableResult) : bool :=
  String.eqb (cr_instanceId a) (cr_instanceId b) &&
  String.eqb (canonicalize (cr_answer a)) (canonicalize (cr_answer b)) &&
  Bool.eqb (cr_passed a) (cr_passed b) && object_is (cr_score a) (cr_score b).

(** ** Key order does not matter *)

(** The same JSON value up to the order of object keys, at every depth. *)
Inductive same_json : json -> json -> Prop :=
  | same_refl v : same_json v v
  | same_arr l k : Forall2 same_json l k -> same_json (JArr l) (JArr k)
  | same_obj o p q : NoDup (keys o) -> o ≡ₚ p ->
      Forall2 (fun kv kw => kv.1 = kw.1 ∧ same_json kv.2 kw.2) p q -> same_json (JObj o) (JObj q).

Definition canon_field (kv : string * json) : string * string := (kv.1, canonicalize kv.2).

Lemma canonicalize_obj o :
  canonicalize (JObj o) = "{" +:+ join "," (field_text <$> sort_fields (canon_field <$> o)) +:+ "}".
Proof.
  cbn [canonicalize]. do 2 f_equal. f_equal. f_equal. f_equal. apply map_ext. by intros [].
Qed.

Lemma sort_fields_perm (o p : fields) : NoDup (keys o) -> o ≡ₚ p ->
  sort_fields (canon_field <$> o) = sort_fields (canon_field <$> p).
Proof.
  intros Hnd Hp. apply (js_sort_by_key String.compare); [by apply fmap_Permutation|].
  rewrite <-list_fmap_compose. exact Hnd.
Qed.

Lemma canonicalize_same v w (Hs : same_json v w) : canonicalize v = canonicalize w.
Proof.
  revert v w Hs. fix IH 3. intros v w Hs. destruct Hs as [v|l k Hl|o p q Hnd Hp Hq].
  - done.
  - assert (List.map canonicalize l = List.map canonicalize k) as E; [|cbn [canonicalize]; by rewrite E].
    induction Hl as [|x y l k Hxy _ IHl]; [done|]. cbn [List.map]. by rewrite (IH x y Hxy), IHl.
  - assert (canon_field <$> p = canon_field <$> q) as E.
    2: by rewrite !canonicalize_obj, (sort_fields_perm o p), E.
    clear Hnd Hp. induction Hq as [|[kx x] [ky y] p q [Hk Hxy] _ IHq]; [done|]. rewrite !fmap_cons, IHq.
    unfold canon_field. simpl in *. by rewrite Hk, (IH x y Hxy).
Qed.
End canon.

(** [canonicalize] gives the same text to JSON values that differ only in the order of object
    keys, at any depth: the signed bytes and the tally keys of the mesh do not depend on how a peer
    ordered its fields. *)
Theorem canonicalize_key_order `{JsonText} v w : same_json v w -> canonicalize v = canonicalize w.
Proof. apply canonicalize_same. Qed.

(** A concrete [JsonText]: every number prints as its integer value, and nothing parses. *)
Definition demo_text : JsonText :=
  {| num_string := fun n => pretty (default 0 (as_int n)); JSON_parse := fun _ => None |}.

Lemma canonicalize_key_order_witness :
  @canonicalize demo_text (JObj [("b", JNull); ("a", JArr [JBool true])]) =
  @canonicalize demo_text (JObj [("a", JArr [JBool true]); ("b", JNull)]).
Proof.
  apply (@canonicalize_key_order demo_text).
  apply (same_obj [("b", JNull); ("a", JArr [JBool true])] [("a", JArr [JBool true]); ("b", JNull)]).
  - apply (bool_decide_eq_true_1 _). vm_compute. reflexivity.
  - apply Permutation_swap.
  - repeat constructor.
Defined.
