(* ===== verification/DataListener.v ===== *)
(** * The data listener (swarmlet/node-agent/transport/dataListener.ts, streams.ts)

    The only exposed socket of a node.  A TLS peer with a certificate sends one JSON line and is then forwarded to
    a local engine port, or hands over a stream that the dialer waits for.  [Conn] is one accepted socket,
    [conn_event] what its handlers do; a chunk of bytes is a byte string (the head is decoded as latin1, one
    character for each byte).  The policy is asked at each chunk, so every event carries the policy of its moment.
    Also the views of [AssignmentRunner] that make up this policy (assignments.ts).

    [to_number] is [Number(v)] for a string, an array or an object.  Backpressure (pause and resume) only delays
    events and has no counterpart. *)

From S2P Require Import Prelude JsNum Json Types Validate Canon Async Recipes Identity ServeDial AgentState.

Local Open Scope string_scope.
Local Open Scope list_scope.
Local Open Scope Z_scope.

(** ** [EarlyBuffer]: chunks are kept until a sink is attached, then passed on *)

Record EarlyBuffer := { eb_chunks : list string; eb_sink : bool; eb_out : list string }.
Definition newEarlyBuffer : EarlyBuffer := {| eb_chunks := []; eb_sink := false; eb_out := [] |}.
(** [eb_out] is what the sink was given. *)
Definition eb_push (c : string) (b : EarlyBuffer) : EarlyBuffer :=
  if eb_sink b then {| eb_chunks := eb_chunks b; eb_sink := true; eb_out := eb_out b ++ [c] |}
  else {| eb_chunks := eb_chunks b ++ [c]; eb_sink := false; eb_out := eb_out b |}.
Definition eb_attach (b : EarlyBuffer) : EarlyBuffer :=
  {| eb_chunks := []; eb_sink := true; eb_out := eb_out b ++ eb_chunks b |}.

(** The bytes a buffer has been given, in order. *)
Definition eb_bytes (b : EarlyBuffer) : string := String.concat "" (eb_out b ++ eb_chunks b).

(** ** The policy: what the runner's assignments allow (assignments.ts) *)

Section views.
(** [Number(new URL(url).port)], when the URL parses *)
Context (urlPort : string -> option Z).

Definition ports_allowed (x : Active) : list Z :=
  match x_a x with
  | AWorker a => wa_port a :: match wa_peerPort a with Some p => if p =? 0 then [] else [p] | None => [] end
  | ACoordinator a => [ca_port a]
  | AStage a => [sa_port a]
  | AReplica a =>
      match ra_external a with
      | Some e => match urlPort (ex_url e) with Some p => [p] | None => [] end
      | None => [ra_port a]
      end
  | AStop _ => []
  end.
Definition allowedPorts (m : Agent) : list Z := flat_map ports_allowed (actives m).

Definition allowedServePorts (m : Agent) : list Z :=
  flat_map (fun x => match x_a x with ACoordinator a => ep_port <$> ca_rpc a | _ => [] end) (actives m).

Definition peers_allowed (x : Active) : list string :=
  match x_a x with
  | AWorker a => wa_allow a | ACoordinator a => ca_allow a | AStage a => sa_allow a | AReplica a => ra_allow a
  | AStop _ => []
  end.
Definition allowedFingerprints (m : Agent) : list string := flat_map peers_allowed (actives m).

Definition states (m : Agent) : list AssignmentReport :=
  (fun x => {| rt_id := id_of (x_a x); rt_state := x_state x; rt_detail := x_detail x; rt_ports := some_ports (x_ports x) |}) <$> actives m.

Record InferenceTarget := { it_model : string; it_deploymentId : string; it_url : string; it_created : Z; it_upstreamModel : option string }.

(** [a && a] of an optional string: the empty string is falsy. *)
Definition some_text (s : option string) : option string := s ≫= fun s => if String.eqb s "" then None else Some s.
Definition local_url (port : Z) : string := "http://127.0.0.1:" +:+ pretty port.

Definition inference_target (x : Active) : list InferenceTarget :=
  if negb (bool_decide (x_state x = a_ready)) then [] else
  match x_a x with
  | ACoordinator a =>
      match some_text (ca_modelName a) with
      | Some m => [{| it_model := m; it_deploymentId := ca_deploymentId a; it_url := local_url (ca_port a);
                      it_created := x_registeredAt x; it_upstreamModel := None |}]
      | None => []
      end
  | AReplica a =>
      match some_text (ra_modelName a) with
      | Some m => [{| it_model := m; it_deploymentId := ra_deploymentId a;
                      it_url := match ra_external a with Some e => ex_url e | None => local_url (ra_port a) end;
                      it_created := x_registeredAt x; it_upstreamModel := ra_external a ≫= fun e => some_text (ex_upstreamModel e) |}]
      | None => []
      end
  | _ => []
  end.
Definition inferenceTargets (m : Agent) : list InferenceTarget := flat_map inference_target (actives m).

(** [planView]: informational; a worker's layers, a coordinator's split, the peers of both. *)
Record AssignmentPlanView := {
  av_role : Kind; av_modelName : option string; av_modelPath : option string; av_layers : option Z; av_modelLayers : option Z;
  av_tensorSplit : option (list Z); av_ctx : option Z; av_parallel : option Z; av_chain : option Z; av_device : option string;
  av_peers : option (list string); av_env : option (list (string * string)); av_fitMiB : option Z }.

Definition planView (a : Assignment) : AssignmentPlanView :=
  match a with
  | AWorker a =>
      {| av_role := k_worker; av_modelName := None; av_modelPath := None; av_layers := wa_layers a; av_modelLayers := wa_modelLayers a;
         av_tensorSplit := None; av_ctx := None; av_parallel := None; av_chain := None; av_device := Some (wa_device a);
         av_peers := Some ((fun p => ep_nodeId p.2) <$> default [] (wa_peers a)); av_env := None; av_fitMiB := None |}
  | ACoordinator a =>
      {| av_role := k_coordinator; av_modelName := ca_modelName a; av_modelPath := Some (mr_path (ca_model a)); av_layers := None;
         av_modelLayers := None; av_tensorSplit := Some (ca_tensorSplit a); av_ctx := Some (ca_ctx a); av_parallel := Some (ca_parallel a);
         av_chain := Some (match ca_mtp a with Some t => mt_chain t | None => 0 end);
         av_device := Some (String.concat "," (ca_devices a)); av_peers := Some (ep_nodeId <$> ca_rpc a);
         av_env := Some (ca_env a); av_fitMiB := ca_fitMiB a |}
  | AReplica a =>
      {| av_role := k_replica; av_modelName := ra_modelName a; av_modelPath := mr_path <$> ra_model a; av_layers := None;
         av_modelLayers := None; av_tensorSplit := None; av_ctx := ra_ctx a; av_parallel := ra_parallel a;
         av_chain := Some (match ra_mtp a with Some t => mt_chain t | None => 0 end); av_device := ra_device a; av_peers := None;
         av_env := None; av_fitMiB := ra_fitMiB a |}
  | a =>
      {| av_role := kind_of a; av_modelName := None; av_modelPath := None; av_layers := None; av_modelLayers := None;
         av_tensorSplit := None; av_ctx := None; av_parallel := None; av_chain := None; av_device := None; av_peers := None;
         av_env := None; av_fitMiB := None |}
  end.
End views.

(** ** One connection *)

(** [lp_onServe fp port]: whether somebody takes the stream. *)
Record ListenerPolicy := {
  lp_allowedFingerprints : list string; lp_allowedPorts : list Z; lp_allowedServePorts : list Z;
  lp_onServe : string -> Z -> bool }.

Inductive Drop := D_no_certificate | D_timeout | D_long_header | D_serve_refused | D_serve_unwanted
                | D_peer_refused | D_port_refused | D_closed.

Inductive ConnPhase :=
  | Reading (head : string)
  | Forwarding (port : Z) (connected : bool) (toLocal : EarlyBuffer)
  | Serving (port : Z) (early : EarlyBuffer)
  | Dropped (why : Drop)
  (** an exception left the handler: nothing in the agent catches it *)
  | Crashed.

Record Conn := { cn_fp : option string; cn_phase : ConnPhase }.

Definition newline : Ascii.ascii := Ascii.ascii_of_nat 10.
(** The text before the first newline and the text after it. *)
Fixpoint split_line (s : string) : option (string * string) :=
  match s with
  | EmptyString => None
  | String a s => if Ascii.eqb a newline then Some (EmptyString, s)
                  else match split_line s with Some (l, r) => Some (String a l, r) | None => None end
  end.

Definition MAX_HEAD : nat := 512.

Section listener.
Context `{JsonText}.
Context (to_number : json -> num).

(** [Number(v)] *)
Definition js_Number (v : option json) : num :=
  match v with
  | None => num_nan
  | Some JNull => num_zero
  | Some (JBool b) => if b then num_of_Z 1 else num_zero
  | Some (JNum n) => n
  | Some v => to_number v
  end.

(** The port a value names, when it is an integer of the list. *)
Definition port_in (v : option json) (l : list Z) : option Z :=
  z ← as_int (js_Number v); if bool_decide (z ∈ l) then Some z else None.

(** [header[k]]: on a primitive or an array the property is [undefined]. *)
Definition header_field (header : json) (k : string) : option json :=
  match header with JObj o => jget o k | _ => None end.

(** [if (rest.length) early.push(rest)] *)
Definition push_rest (rest : string) : EarlyBuffer :=
  if String.eqb rest "" then newEarlyBuffer else eb_push rest newEarlyBuffer.

(** The checks of a header. *)
Definition on_fields (p : ListenerPolicy) (fp : string) (header : json) (rest : string) : ConnPhase :=
  match header_field header "serve" with
  | Some v =>
      match port_in (Some v) (lp_allowedServePorts p) with
      | None => Dropped D_serve_refused
      | Some port => if lp_onServe p fp port then Serving port (push_rest rest) else Dropped D_serve_unwanted
      end
  | None =>
      if negb (bool_decide (fp ∈ lp_allowedFingerprints p)) then Dropped D_peer_refused
      else
        match port_in (header_field header "port") (lp_allowedPorts p) with
        | None => Dropped D_port_refused
        | Some port => Forwarding port false (push_rest rest)
        end
  end.

(** The header line has arrived; text that is not JSON counts as [{}], and reading a property of [null] throws. *)
Definition on_header (p : ListenerPolicy) (fp line rest : string) : ConnPhase :=
  match default (JObj []) (JSON_parse line) with JNull => Crashed | header => on_fields p fp header rest end.

(** [onData]; a destroyed socket and one whose handler is off deliver nothing to it. *)
Definition onData (p : ListenerPolicy) (fp chunk : string) (ph : ConnPhase) : ConnPhase :=
  match ph with
  | Reading head =>
      let head := head +:+ chunk in
      match split_line head with
      | None => if (MAX_HEAD <? String.length head)%nat then Dropped D_long_header else Reading head
      | Some (line, rest) => on_header p fp line rest
      end
  | Forwarding port connected b => Forwarding port connected (eb_push chunk b)
  | ph => ph
  end.

Inductive ConnEvent :=
  | CData (p : ListenerPolicy) (chunk : string)
  | CTimer            (** the header timer *)
  | CConnect          (** the local connection is up: the sink is attached *)
  | CClose.           (** either side closes or fails *)

Definition conn_event (c : Conn) (e : ConnEvent) : Conn :=
  match cn_fp c with
  | None => c
  | Some fp =>
      {| cn_fp := Some fp;
         cn_phase :=
           match e, cn_phase c with
           | CData p chunk, ph => onData p fp chunk ph
           | CTimer, Reading _ => Dropped D_timeout
           | CConnect, Forwarding port false b => Forwarding port true (eb_attach b)
           | CClose, Reading _ | CClose, Forwarding _ _ _ | CClose, Serving _ _ => Dropped D_closed
           | _, ph => ph
           end |}
  end.

(** [peerFingerprint] gave [fp]: a peer without a usable certificate is dropped at once. *)
Definition accept (fp : option string) : Conn :=
  {| cn_fp := fp; cn_phase := match fp with Some _ => Reading "" | None => Dropped D_no_certificate end |}.

Definition conn_run (fp : option string) (es : list ConnEvent) : Conn := foldl conn_event (accept fp) es.

(** The policy of the runner [m], with [takes] the dialers' [acceptServed]. *)
Definition policy_of (urlPort : string -> option Z) (takes : string -> Z -> bool) (m : Agent) : ListenerPolicy :=
  {| lp_allowedFingerprints := allowedFingerprints m; lp_allowedPorts := allowedPorts urlPort m;
     lp_allowedServePorts := allowedServePorts m; lp_onServe := takes |}.
End listener.

(** [normalizeFingerprint] (protocol/sign.ts): the hex digits of a fingerprint in lower case; it must have 64. *)
Definition hex_char (a : Ascii.ascii) : bool :=
  let n := Ascii.nat_of_ascii a in
  ((48 <=? n) && (n <=? 57) || (65 <=? n) && (n <=? 70) || (97 <=? n) && (n <=? 102))%nat.
Definition lower_hex (a : Ascii.ascii) : Ascii.ascii :=
  let n := Ascii.nat_of_ascii a in if ((65 <=? n) && (n <=? 70))%nat then Ascii.ascii_of_nat (n + 32) else a.
Fixpoint hex_only (s : string) : string :=
  match s with EmptyString => EmptyString | String a s => if hex_char a then String (lower_hex a) (hex_only s) else hex_only s end.
Definition normalizeFingerprint (fp : string) : result nat string :=
  let hex := hex_only fp in if (String.length hex =? 64)%nat then Ok hex else Err (String.length hex).
(** [peerFingerprint]: the normalized fingerprint of a certificate, if it has one. *)
Definition peerFingerprint (fingerprint256 : option string) : option string :=
  fp ← fingerprint256;
  if String.eqb fp "" then None else match normalizeFingerprint fp with Ok h => Some h | Err _ => None end.
