(* ===== verification/DataListenerFacts.v ===== *)
(** * What the data listener promises

    A forwarded or handed-over connection was authorized by the assignments of its moment; a forwarded connection
    delivers exactly the bytes after its header line, in order, however they were cut into chunks; a peer that has
    not sent its header holds at most 512 bytes; and one header line takes the agent down before any check. *)

From S2P Require Import Prelude JsNum Json Types Validate Canon Async Recipes Identity ServeDial AgentState DataListener.

Local Open Scope string_scope.
Local Open Scope list_scope.
Local Open Scope Z_scope.

(** ** Strings *)

Lemma app_nil_s (s : string) : s +:+ "" = s.
Proof. induction s as [|a s IH]; [done|]. change (String a (s +:+ "") = String a s). by rewrite IH. Qed.
Lemma app_assoc_s (r s t : string) : (r +:+ s) +:+ t = r +:+ (s +:+ t).
Proof. induction r as [|a r IH]; [done|]. change (String a ((r +:+ s) +:+ t) = String a (r +:+ (s +:+ t))). by rewrite IH. Qed.

Lemma concat_cons (x : string) l : String.concat "" (x :: l) = x +:+ String.concat "" l.
Proof. destruct l as [|y l]; [symmetry; apply app_nil_s|done]. Qed.
Lemma concat_app l k : String.concat "" (l ++ k) = String.concat "" l +:+ String.concat "" k.
Proof.
  induction l as [|x l IH]; [done|]. rewrite <-app_comm_cons, !concat_cons, IH. symmetry. apply app_assoc_s.
Qed.

(** [s] has no newline. *)
Definition one_line (s : string) : Prop := split_line s = None.

Lemma split_line_spec s l r : split_line s = Some (l, r) -> s = l +:+ String newline r ∧ one_line l.
Proof.
  unfold one_line. revert l. induction s as [|a s IH]; intros l; [done|]. cbn. destruct (Ascii.eqb a newline) eqn:E.
  - intros [= <- <-]. apply Ascii.eqb_eq in E as ->. by split.
  - destruct (split_line s) as [[l' r']|]; [|done]. intros [= <- <-]. destruct (IH l' eq_refl) as [-> Hl].
    split; [done|]. cbn. by rewrite E, Hl.
Qed.

(** ** Early buffers pass on every byte in order *)

Lemma push_bytes c b : (eb_sink b = true -> eb_chunks b = []) -> eb_bytes (eb_push c b) = eb_bytes b +:+ c.
Proof.
  unfold eb_bytes, eb_push. intros Hb. destruct (eb_sink b); cbn.
  - rewrite (Hb eq_refl), !app_nil_r, concat_app. cbn. done.
  - rewrite app_assoc, concat_app. done.
Qed.
Lemma attach_bytes b : eb_bytes (eb_attach b) = eb_bytes b.
Proof. unfold eb_bytes, eb_attach. cbn. by rewrite app_nil_r. Qed.
Lemma push_rest_bytes r : eb_bytes (push_rest r) = r.
Proof.
  unfold push_rest. destruct (String.eqb r "") eqn:E; [by apply String.eqb_eq in E as ->|]. done.
Qed.

Section facts.
Context `{JsonText} (to_number : json -> num).
Notation on_header := (on_header to_number).
Notation onData := (onData to_number).
Notation conn_event := (conn_event to_number).
Notation conn_run := (conn_run to_number).

(** ** Headers *)

Definition header_result (p : ListenerPolicy) (fp line rest : string) (ph : ConnPhase) : Prop :=
  match ph with
  | Reading _ => False
  | Forwarding port connected b => connected = false ∧ b = push_rest rest ∧ fp ∈ lp_allowedFingerprints p ∧ port ∈ lp_allowedPorts p
  | Serving port b => b = push_rest rest ∧ port ∈ lp_allowedServePorts p ∧ lp_onServe p fp port = true
  | Dropped _ => True
  | Crashed => JSON_parse line = Some JNull
  end.

Lemma port_in_elem v l z : port_in to_number v l = Some z -> z ∈ l.
Proof. unfold port_in. destruct (as_int _); [|done]. cbn. case_bool_decide; [|done]. by intros [= ->]. Qed.

Lemma on_fields_cases p fp line header rest : header_result p fp line rest (on_fields to_number p fp header rest).
Proof.
  unfold on_fields. destruct (header_field header "serve") as [v|].
  - destruct (port_in _ _ _) as [port|] eqn:Ep; [|done]. apply port_in_elem in Ep. destruct (lp_onServe p fp port) eqn:Eo; done.
  - case_bool_decide; [|done]. cbn. destruct (port_in _ _ _) as [port|] eqn:Ep; [|done]. apply port_in_elem in Ep. done.
Qed.

(** What a header line can lead to. *)
Lemma on_header_cases p fp line rest : header_result p fp line rest (on_header p fp line rest).
Proof.
  unfold DataListener.on_header. destruct (JSON_parse line) as [j|] eqn:Ej; cbn [default]; [|apply on_fields_cases].
  destruct j; [exact Ej|apply on_fields_cases..].
Qed.

(** What a chunk can do to a connection. *)
Lemma onData_cases p fp c ph :
  match ph with
  | Reading head =>
      (exists line rest, head +:+ c = line +:+ String newline rest ∧ one_line line ∧ onData p fp c ph = on_header p fp line rest) \/
      one_line (head +:+ c) ∧ (onData p fp c ph = Dropped D_long_header \/
        (String.length (head +:+ c) <= MAX_HEAD)%nat ∧ onData p fp c ph = Reading (head +:+ c))
  | Forwarding port connected b => onData p fp c ph = Forwarding port connected (eb_push c b)
  | ph => onData p fp c ph = ph
  end.
Proof.
  destruct ph as [head| | | |]; try done. unfold DataListener.onData. cbv zeta.
  destruct (split_line (head +:+ c)) as [[line rest]|] eqn:Es.
  - left. apply split_line_spec in Es as [? ?]. eauto.
  - right. split; [exact Es|]. destruct (_ <? _)%nat eqn:El; [by left|right]. apply Nat.ltb_ge in El. done.
Qed.

Lemma conn_run_snoc fp es e : conn_run fp (es ++ [e]) = conn_event (conn_run fp es) e.
Proof. unfold DataListener.conn_run. by rewrite foldl_app. Qed.

Lemma conn_fp fp es : cn_fp (conn_run fp es) = fp.
Proof.
  induction es as [|e es IH] using rev_ind; [done|]. rewrite conn_run_snoc. unfold DataListener.conn_event.
  rewrite IH. by destruct fp.
Qed.

Lemma no_certificate es : cn_phase (conn_run None es) = Dropped D_no_certificate.
Proof.
  induction es as [|e es IH] using rev_ind; [done|]. rewrite conn_run_snoc. unfold DataListener.conn_event. by rewrite conn_fp.
Qed.

(** What a connection's state says of its past: who was authorized, by which policy, and what it received. *)
Definition received (es : list ConnEvent) : string :=
  String.concat "" (omap (fun e => match e with CData _ c => Some c | _ => None end) es).

Lemma received_snoc es e : received (es ++ [e]) = received es +:+ match e with CData _ c => c | _ => "" end.
Proof.
  unfold received. rewrite omap_app, concat_app. destruct e; cbn; try done; by rewrite app_nil_s.
Qed.

Definition history (fp : option string) (es : list ConnEvent) (ph : ConnPhase) : Prop :=
  match ph with
  | Reading head => head = received es ∧ one_line head ∧ (String.length head <= MAX_HEAD)%nat
  | Forwarding port connected b =>
      (exists p c f, CData p c ∈ es ∧ fp = Some f ∧ f ∈ lp_allowedFingerprints p ∧ port ∈ lp_allowedPorts p) ∧
      (exists line, received es = line +:+ String newline (eb_bytes b) ∧ one_line line) ∧
      eb_sink b = connected ∧ (connected = true -> eb_chunks b = [])
  | Serving port b =>
      exists p c f, CData p c ∈ es ∧ fp = Some f ∧ port ∈ lp_allowedServePorts p ∧ lp_onServe p f port = true
  | Crashed => exists line rest, JSON_parse line = Some JNull ∧ received es = line +:+ String newline rest
  | Dropped _ => True
  end.

Lemma push_rest_sink r : eb_sink (push_rest r) = false.
Proof. unfold push_rest. by case_match. Qed.

Lemma header_history fp f es p c line rest :
  fp = Some f -> received (es ++ [CData p c]) = line +:+ String newline rest -> one_line line ->
  history fp (es ++ [CData p c]) (on_header p f line rest).
Proof.
  intros Hf Hr Hl. pose proof (on_header_cases p f line rest) as H'. assert (CData p c ∈ es ++ [CData p c]) as Hin by set_solver.
  destruct (on_header p f line rest) as [|port connected b|port b|why|]; cbn in *; [done| | |done|by eauto].
  - destruct H' as (-> & -> & ? & ?). rewrite push_rest_bytes, push_rest_sink. split_and!; [by exists p, c, f|by exists line|done|done].
  - destruct H' as (-> & ? & ?). by exists p, c, f.
Qed.

(** Phases that no event of this kind changes. *)
Lemma history_keeps fp es e ph :
  (match e, ph with CData _ _, (Reading _ | Forwarding _ _ _) => False | _, _ => True end) ->
  history fp es ph -> history fp (es ++ [e]) ph.
Proof.
  intros He Hh. assert (forall p c, CData p c ∈ es -> CData p c ∈ es ++ [e]) as Hin by set_solver.
  destruct ph as [head|port connected b|port b|why|]; cbn in *; try done.
  - destruct e; [done|rewrite received_snoc, app_nil_s; done..].
  - destruct Hh as ((p & c & f & ? & ?) & Hr & ?). destruct e; [done| | |];
      (split_and!; [exists p, c, f; auto|by rewrite received_snoc, app_nil_s|tauto|tauto]).
  - destruct Hh as (p & c & f & ? & ?). exists p, c, f. auto.
  - destruct Hh as (line & rest & ? & Hr). exists line, (rest +:+ match e with CData _ c => c | _ => "" end).
    split; [done|]. rewrite received_snoc, Hr, app_assoc_s. done.
Qed.

Lemma history_run fp es : history fp es (cn_phase (conn_run fp es)).
Proof.
  induction es as [|e es IH] using rev_ind.
  { unfold DataListener.conn_run. cbn. destruct fp; cbn; [|done]. split_and!; [done|done|lia]. }
  rewrite conn_run_snoc. unfold DataListener.conn_event. rewrite conn_fp.
  destruct fp as [f|]; [|by rewrite no_certificate].
  cbn [cn_phase]. destruct e as [p c| | |].
  - pose proof (onData_cases p f c (cn_phase (conn_run (Some f) es))) as Hd. destruct (cn_phase (conn_run (Some f) es)) as [head|port k b|port b|why|].
    + destruct IH as (-> & Hl & Hm). destruct Hd as [(line & rest & Hr & Hl' & ->)|[Ho [->|[Hlen ->]]]].
      * apply header_history; [done| |done]. by rewrite received_snoc.
      * done.
      * cbn. by rewrite received_snoc.
    + rewrite Hd. destruct IH as ((p' & c' & f' & Hin & ?) & (line & Hr & Hl) & Hs & Hc). cbn. split_and!.
      * exists p', c', f'. split; [set_solver|done].
      * exists line. split; [|done]. rewrite received_snoc, Hr, push_bytes by (by rewrite Hs). by rewrite app_assoc_s.
      * unfold eb_push. destruct (eb_sink b) eqn:E; cbn; congruence.
      * intros ->. unfold eb_push. rewrite Hs. cbn. by apply Hc.
    + rewrite Hd. by apply history_keeps.
    + rewrite Hd. by apply history_keeps.
    + rewrite Hd. by apply history_keeps.
  - destruct (cn_phase (conn_run (Some f) es)); try done; by apply history_keeps.
  - destruct (cn_phase (conn_run (Some f) es)) as [|port [] b| | |]; try by apply history_keeps.
    destruct IH as ((p' & c' & f' & Hin & ?) & (line & Hr & Hl) & Hs & Hc). cbn -[eb_bytes eb_attach]. split_and!; [|..|done|done].
    + exists p', c', f'. split; [set_solver|done].
    + exists line. split; [|done]. by rewrite received_snoc, app_nil_s, attach_bytes.
  - destruct (cn_phase (conn_run (Some f) es)); try done; by apply history_keeps.
Qed.

(** ** Theorems *)

(** C15: connections are authorized by live assignments.  When every policy asked is that of the runner at some moment, a
    connection forwarded to a port was, at one of those moments, from a peer that a live assignment allows, to
    a port of a live assignment; and a stream handed over names a port that a live coordinator expects from a peer, and the
    dialers took it. *)
Theorem listener_authorizes urlPort takes fp es :
  (forall p c, CData p c ∈ es -> exists m, p = policy_of urlPort takes m) ->
  match cn_phase (conn_run fp es) with
  | Forwarding port _ _ => exists m f x y, fp = Some f ∧ x ∈ actives m ∧ port ∈ ports_allowed urlPort x ∧
      y ∈ actives m ∧ f ∈ peers_allowed y
  | Serving port _ => exists m f x a e, fp = Some f ∧ takes f port = true ∧ x ∈ actives m ∧ x_a x = ACoordinator a ∧
      e ∈ ca_rpc a ∧ ep_port e = port
  | _ => True
  end.
Proof.
  intros Hp. pose proof (history_run fp es) as Hh. destruct (cn_phase _) as [|port k b|port b| |]; try done; cbn in Hh.
  - destruct Hh as ((p & c & f & Hin & -> & Hf & Hport) & _). destruct (Hp _ _ Hin) as [m ->]. cbn in *.
    apply list_elem_of_In, in_flat_map in Hport as (x & Hx & Hport). apply list_elem_of_In, in_flat_map in Hf as (y & Hy & Hf).
    exists m, f, x, y. by rewrite !list_elem_of_In.
  - destruct Hh as (p & c & f & Hin & -> & Hport & Ht). destruct (Hp _ _ Hin) as [m ->]. cbn in *.
    apply list_elem_of_In, in_flat_map in Hport as (x & Hx & Hport). destruct (x_a x) as [|a| | |] eqn:Ea; try done.
    apply list_elem_of_In, list_elem_of_fmap in Hport as (e & -> & He). exists m, f, x, a, e. by rewrite list_elem_of_In.
Qed.

(** A forwarded connection is transparent.  Whatever the chunks, what the peer sent is one header line, a newline, and
    exactly the bytes given to the local port so far followed by those still buffered, of which there are none once
    the local connection is up.  Before its header a peer holds at most 512 bytes, all without a newline. *)
Theorem listener_transparent fp es :
  match cn_phase (conn_run fp es) with
  | Forwarding port connected b =>
      exists line, one_line line ∧
        received es = line +:+ String newline (String.concat "" (eb_out b) +:+ String.concat "" (eb_chunks b)) ∧
        (connected = true -> eb_chunks b = [])
  | Reading head => head = received es ∧ one_line head ∧ (String.length head <= MAX_HEAD)%nat
  | _ => True
  end.
Proof.
  pose proof (history_run fp es) as Hh. destruct (cn_phase _) as [|port k b| | |]; try done; cbn in Hh.
  destruct Hh as (_ & (line & Hr & Hl) & _ & Hc). exists line. unfold eb_bytes in Hr. by rewrite concat_app in Hr.
Qed.

(** A peer with any certificate can take the agent down.  Under every policy, also one that allows nobody, the header line
    [null] makes the handler throw before it checks the peer, and only a header that parses to [null] does. *)
Theorem null_header_throws fp :
  JSON_parse "null" = Some JNull ->
  (forall p, cn_phase (conn_run (Some fp) [CData p ("null" +:+ String newline "")]) = Crashed) ∧
  (forall es, cn_phase (conn_run (Some fp) es) = Crashed ->
     exists line rest, received es = line +:+ String newline rest ∧ JSON_parse line = Some JNull).
Proof.
  intros Hn. split.
  - intros p. change (on_header p fp "null" "" = Crashed). unfold DataListener.on_header. by rewrite Hn.
  - intros es Hc. pose proof (history_run (Some fp) es) as Hh. rewrite Hc in Hh. cbn in Hh. naive_solver.
Qed.
End facts.

(** ** A concrete connection *)

Section demo.
Definition line_text (s : string) : option json :=
  if String.eqb s "null" then Some JNull
  else if String.eqb s "P" then Some (JObj [("port", JNum (num_of_Z 50200))])
  else if String.eqb s "S" then Some (JObj [("serve", JNum (num_of_Z 50300))]) else None.
#[local] Instance line_json : JsonText := {| num_string := fun n => pretty (default 0 (as_int n)); JSON_parse := line_text |}.

Definition demo_rpc : Endpoint :=
  {| ep_nodeId := "w"; ep_certFp := "f"; ep_port := 50300; ep_direct := []; ep_relay := true; ep_inbound := Some true |}.
Definition demo_active (a : Assignment) : Active :=
  {| x_a := a; x_registeredAt := 0; x_state := a_ready; x_detail := None; x_proc := None; x_dialer := None; x_serve := None;
     x_ports := []; x_watching := false; x_stoppedExternal := None; x_healthTimer := false; x_stopping := false;
     x_startTask := None; x_cleanupTask := None; x_stopTask := None |}.
Definition demo_worker : Assignment :=
  AWorker {| wa_id := "w"; wa_deploymentId := "d"; wa_port := 50200; wa_device := "CUDA0"; wa_threads := 4; wa_memCapMiB := None;
    wa_layers := None; wa_modelLayers := None; wa_peerPort := None; wa_peers := None; wa_serve := None; wa_allow := ["f"];
    wa_enforce := None; wa_cache := None |}.
Definition demo_coordinator : Assignment :=
  ACoordinator {| ca_id := "c"; ca_deploymentId := "d"; ca_model := {| mr_path := "/m"; mr_sha256 := None |}; ca_rpc := [demo_rpc];
    ca_devices := ["RPC0"; "CPU"]; ca_tensorSplit := [1; 1]; ca_ctx := 1024; ca_parallel := 1; ca_mtp := None; ca_speculation := None;
    ca_env := []; ca_extraArgs := []; ca_port := 8080; ca_modelName := None; ca_fitMiB := None; ca_stopExternal := None;
    ca_allow := []; ca_enforce := None |}.
Definition demo_agent : Agent :=
  {| heap := [demo_active demo_worker; demo_active demo_coordinator]; active := [("w", 0%nat); ("c", 1%nat)]; procs := []; promises := [];
     cfg := {| nc_offer := {| of_enabled := true; of_roles := {| ro_worker := true; ro_coordinator := true; ro_replica := true |};
                              of_gpu := []; of_ramMiB := 0; of_cpuCores := 0; of_diskMiB := 0; of_modelsDir := "" |};
               nc_enginePath := ""; nc_externals := [] |};
     now := 0; disk := NoFile; diskOk := true; dirs := []; reports := [] |}.
Definition no_url (s : string) : option Z := None.
Definition take_all (fp : string) (port : Z) : bool := true.
Definition number_nan (j : json) : num := num_nan.
Definition demo_events : list ConnEvent :=
  let p := policy_of no_url take_all demo_agent in
  [CData p "P"; CData p (String newline "ab"); CData p "c"; CConnect; CData p "d"].

Lemma listener_authorizes_witness :
  match cn_phase (conn_run number_nan (Some "f") demo_events) with
  | Forwarding port _ b => String.concat "" (eb_out b) = "abcd" ∧ exists m f x y, Some "f" = Some f ∧ x ∈ actives m ∧
      port ∈ ports_allowed no_url x ∧ y ∈ actives m ∧ f ∈ peers_allowed y
  | _ => False
  end.
Proof.
  assert (forall p c, CData p c ∈ demo_events -> exists m, p = policy_of no_url take_all m) as Hp.
  { intros p c Hc. exists demo_agent. cbn in Hc.
    repeat (apply elem_of_cons in Hc as [Hc|Hc]; [first [discriminate Hc|injection Hc as -> ->; reflexivity]|]).
    by apply elem_of_nil in Hc. }
  pose proof (listener_authorizes number_nan no_url take_all (Some "f") demo_events Hp) as Hl.
  destruct (cn_phase (conn_run number_nan (Some "f") demo_events)) as [|port k b| | |] eqn:E;
    [vm_compute in E; discriminate E| |vm_compute in E; discriminate E..].
  split; [|exact Hl]. vm_compute in E. injection E as <- <- <-. reflexivity.
Defined.

Lemma null_header_throws_witness :
  cn_phase (conn_run number_nan (Some "f") [CData (policy_of no_url take_all demo_agent) ("null" +:+ String newline "")]) = Crashed.
Proof. exact (proj1 (null_header_throws number_nan "f" eq_refl) (policy_of no_url take_all demo_agent)). Defined.
End demo.
