(* ===== verification/Dial.v ===== *)
(** * The dialer (swarmlet/node-agent/transport/dial.ts)

    An engine connection to a remote endpoint is carried over a reverse stream that the peer offered, over a direct
    TLS connection whose certificate is pinned, or through a relay stream.  Reverse streams and engine connections meet in
    two queues for each peer and port: [acceptServed] and [takeServed].  A stream and a waiting connection are numbers.

    [forward] is the choice of the path as a resumption: an [Ask] is an await (or the opening of a relay stream),
    answered with a stream or nothing, and with whether the engine connection has closed meanwhile; the
    remembered paths are shared by all connections of the dialer and are updated when a path is chosen. *)

From S2P Require Import Prelude Types DataListener.

Local Open Scope string_scope.
Local Open Scope list_scope.
Local Open Scope Z_scope.

Definition SERVED_QUEUE_MAX : nat := 12.

(** ** Pairing *)

(** [pg_timers] are the timers that run; [pg_answers] records what each waiting connection was given: a stream, or nothing
    at its timeout. *)
Record Pairing := {
  pg_served : gmap string (list nat); pg_waiting : gmap string (list nat); pg_timers : list (string * nat);
  pg_destroyed : list nat; pg_answers : list (nat * option nat) }.
Definition newPairing : Pairing :=
  {| pg_served := ∅; pg_waiting := ∅; pg_timers := []; pg_destroyed := []; pg_answers := [] |}.

Definition servedKey (fp : string) (port : Z) : string := fp +:+ ":" +:+ pretty port.

Definition queue (q : gmap string (list nat)) (k : string) : list nat := default [] (q !! k).
Definition clearTimeout (w : nat) (l : list (string * nat)) : list (string * nat) := List.filter (fun t => negb (t.2 =? w)%nat) l.

Definition acceptServed (k : string) (sock : nat) (p : Pairing) : Pairing :=
  match queue (pg_waiting p) k with
  | w :: ws =>
      {| pg_served := pg_served p; pg_waiting := <[k := ws]> (pg_waiting p); pg_timers := clearTimeout w (pg_timers p);
         pg_destroyed := pg_destroyed p; pg_answers := pg_answers p ++ [(w, Some sock)] |}
  | [] =>
      let q := queue (pg_served p) k in
      if (SERVED_QUEUE_MAX <=? length q)%nat
      then {| pg_served := pg_served p; pg_waiting := pg_waiting p; pg_timers := pg_timers p;
              pg_destroyed := pg_destroyed p ++ [sock]; pg_answers := pg_answers p |}
      else {| pg_served := <[k := q ++ [sock]]> (pg_served p); pg_waiting := pg_waiting p; pg_timers := pg_timers p;
              pg_destroyed := pg_destroyed p; pg_answers := pg_answers p |}
  end.

Definition takeServed (k : string) (w : nat) (p : Pairing) : Pairing :=
  match queue (pg_served p) k with
  | s :: ss =>
      {| pg_served := <[k := ss]> (pg_served p); pg_waiting := pg_waiting p; pg_timers := pg_timers p;
         pg_destroyed := pg_destroyed p; pg_answers := pg_answers p ++ [(w, Some s)] |}
  | [] =>
      {| pg_served := pg_served p; pg_waiting := <[k := queue (pg_waiting p) k ++ [w]]> (pg_waiting p);
         pg_timers := pg_timers p ++ [(k, w)]; pg_destroyed := pg_destroyed p; pg_answers := pg_answers p |}
  end.

(** The timer of a connection that waits. *)
Definition served_timeout (k : string) (w : nat) (p : Pairing) : Pairing :=
  if bool_decide ((k, w) ∈ pg_timers p) then
    {| pg_served := pg_served p;
       pg_waiting := match pg_waiting p !! k with
                     | Some q => <[k := List.filter (fun x => negb (x =? w)%nat) q]> (pg_waiting p) | None => pg_waiting p end;
       pg_timers := clearTimeout w (pg_timers p); pg_destroyed := pg_destroyed p; pg_answers := pg_answers p ++ [(w, None)] |}
  else p.

(** [closeAll] forgets who waits; their timers go on. *)
Definition closeAll_streams (p : Pairing) : Pairing :=
  {| pg_served := ∅; pg_waiting := ∅; pg_timers := pg_timers p;
     pg_destroyed := pg_destroyed p ++ List.concat (map_to_list (pg_served p)).*2; pg_answers := pg_answers p |}.

Inductive PairEvent :=
  | EOffer (k : string) (sock : nat)
  | ETake (k : string) (w : nat)
  | ETimeout (k : string) (w : nat)
  | EPeerClosed (sock : nat)   (** no handler is attached to a parked stream *)
  | ECloseAll.

Definition pair_event (p : Pairing) (e : PairEvent) : Pairing :=
  match e with
  | EOffer k s => acceptServed k s p
  | ETake k w => takeServed k w p
  | ETimeout k w => served_timeout k w p
  | EPeerClosed _ => p
  | ECloseAll => closeAll_streams p
  end.
Definition pair_run (es : list PairEvent) : Pairing := foldl pair_event newPairing es.

(** ** The choice of a path *)

Inductive Memo := M_direct (addr : HostPort) | M_relay | M_inbound.

Inductive Ask := A_served | A_direct (addr : HostPort) | A_relay.

Inductive Outcome :=
  (** carried over a stream; [closed]: the stream is closed at once because the engine has gone *)
  | Carried (path : Memo) (sock : nat) (closed : bool)
  | Gone
  | NoPath
  | NoRelay.

Inductive Forward :=
  | FDone (o : Outcome)
  | FAsk (a : Ask) (k : option nat -> bool -> Forward).

Definition same_addr (a b : HostPort) : bool := bool_decide (hp_host a = hp_host b) && bool_decide (hp_port a = hp_port b).

(** The addresses tried, the one that worked last first. *)
Definition candidates (e : Endpoint) (last : option HostPort) : list HostPort :=
  match last with
  | Some l => l :: List.filter (fun d => negb (same_addr d l)) (ep_direct e)
  | None => ep_direct e
  end.

Definition pipe_served (k : option nat -> bool -> Forward) : Forward :=
  FAsk A_served (fun s closed => match s with Some s => FDone (Carried M_inbound s false) | None => k None closed end).

(** The last resorts: a reverse stream unless one was waited for at the start, then the relay. *)
Definition try_relay (e : Endpoint) : Forward :=
  if negb (ep_relay e) then FDone NoPath
  else FAsk A_relay (fun s closed => match s with Some s => FDone (Carried M_relay s closed) | None => FDone NoRelay end).
Definition last_resort (e : Endpoint) (remembered : option Memo) (waited : bool) : Forward :=
  match remembered with
  | Some M_relay => try_relay e
  | _ => if waited then try_relay e else pipe_served (fun _ _ => try_relay e)
  end.

Fixpoint try_directs (l : list HostPort) (next : Forward) (closed : bool) : Forward :=
  match l with
  | [] => next
  | addr :: l =>
      if closed then FDone Gone
      else FAsk (A_direct addr) (fun s closed =>
        match s with Some s => FDone (Carried (M_direct addr) s closed) | None => try_directs l next closed end)
  end.

Definition outbound (e : Endpoint) (remembered : option Memo) (waited closed : bool) : Forward :=
  match remembered with
  | None => try_directs (candidates e None) (last_resort e remembered waited) closed
  | Some (M_direct last) => try_directs (candidates e (Some last)) (last_resort e remembered waited) closed
  | Some _ => last_resort e remembered waited
  end.

Definition forward (e : Endpoint) (remembered : option Memo) : Forward :=
  match remembered with
  | None =>
      if default false (ep_inbound e) then pipe_served (fun _ closed => outbound e remembered true closed)
      else outbound e remembered false false
  | Some M_inbound => pipe_served (fun _ closed => outbound e remembered false closed)
  | _ => outbound e remembered false false
  end.

(** [tryDirect] resolves with the socket only when the peer's certificate is the endpoint's. *)
Definition tryDirect (e : Endpoint) (sock : nat) (fingerprint256 : option string) : option nat :=
  if bool_decide (peerFingerprint fingerprint256 = Some (ep_certFp e)) then Some sock else None.

(** Run a choice on the answers of its asks; [None] while an answer is missing. *)
Fixpoint answer (f : Forward) (l : list (option nat * bool)) : option Outcome :=
  match f, l with
  | FDone o, _ => Some o
  | FAsk _ _, [] => None
  | FAsk _ k, (s, closed) :: l => answer (k s closed) l
  end.

(** The asks a choice makes on some answers. *)
Fixpoint asks (f : Forward) (l : list (option nat * bool)) : list Ask :=
  match f, l with
  | FAsk a k, (s, closed) :: l => a :: asks (k s closed) l
  | FAsk a _, [] => [a]
  | FDone _, _ => []
  end.

(** [memo.set(key, ..)] of an outcome; the other outcomes leave the memory alone. *)
Definition remember (o : Outcome) (m : option Memo) : option Memo :=
  match o with Carried path _ _ => Some path | _ => m end.

(** Connections of one endpoint, one after the other. *)
Fixpoint forwards (e : Endpoint) (m : option Memo) (runs : list (list (option nat * bool))) : list (option Outcome) * option Memo :=
  match runs with
  | [] => ([], m)
  | l :: runs =>
      let o := answer (forward e m) l in
      let m := match o with Some o => remember o m | None => m end in
      let '(os, m') := forwards e m runs in (o :: os, m')
  end.
