(* ===== verification/DialFacts.v ===== *)
(** * What the dialer promises

    A reverse stream goes to at most one engine connection, of the peer and port it was offered for, and every engine
    connection is answered or its timer runs; a choice of path ends, uses the relay only when allowed, and releases
    its stream when the engine has gone, except a reverse stream; a relay, once chosen, is never left. *)

From S2P Require Import Prelude Types DataListener DataListenerFacts Dial.

Local Open Scope string_scope.
Local Open Scope list_scope.
Local Open Scope Z_scope.

(** ** Pairing *)

Definition offers (es : list PairEvent) : list nat := omap (fun e => match e with EOffer _ s => Some s | _ => None end) es.
Definition takes (es : list PairEvent) : list nat := omap (fun e => match e with ETake _ w => Some w | _ => None end) es.
Definition given (p : Pairing) : list nat := omap snd (pg_answers p).

Definition answered (p : Pairing) : list nat := (pg_answers p).*1.

(** The state of the two queues after events in which each stream is offered once and each connection takes once. *)
Record paired (es : list PairEvent) (p : Pairing) : Prop := {
  pd_one : forall k, queue (pg_served p) k = [] \/ queue (pg_waiting p) k = [];
  pd_cap : forall k, (length (queue (pg_served p) k) <= SERVED_QUEUE_MAX)%nat;
  pd_parked : forall k s, s ∈ queue (pg_served p) k -> EOffer k s ∈ es;
  pd_waiting : forall k w, w ∈ queue (pg_waiting p) k -> (k, w) ∈ pg_timers p;
  pd_timers : forall k w, (k, w) ∈ pg_timers p -> ETake k w ∈ es;
  pd_given : forall w s, (w, Some s) ∈ pg_answers p -> exists k, EOffer k s ∈ es ∧ ETake k w ∈ es;
  pd_answered : forall w, w ∈ answered p -> w ∈ takes es;
  pd_all : forall k w, ETake k w ∈ es -> w ∈ answered p \/ (k, w) ∈ pg_timers p;
  pd_queue : forall k, NoDup (queue (pg_served p) k);
  pd_free : forall k s, s ∈ queue (pg_served p) k -> s ∉ given p;
  pd_given_once : NoDup (given p);
  pd_wait_once : forall k, NoDup (queue (pg_waiting p) k);
  pd_timer_once : NoDup (pg_timers p).*2;
  pd_pending : forall k w, (k, w) ∈ pg_timers p -> w ∉ answered p;
  pd_once : NoDup (answered p) }.

Lemma queue_insert q k l k' : queue (<[k := l]> q) k' = if bool_decide (k = k') then l else queue q k'.
Proof. unfold queue. case_bool_decide as H; [by rewrite H, lookup_insert_eq|by rewrite lookup_insert_ne]. Qed.

Lemma queue_empty k : queue ∅ k = [].
Proof. unfold queue. by rewrite lookup_empty. Qed.

Lemma clear_elem w l k v : (k, v) ∈ clearTimeout w l <-> (k, v) ∈ l ∧ v <> w.
Proof. unfold clearTimeout. rewrite List_filter_elem. cbn. by rewrite negb_true_iff, Nat.eqb_neq. Qed.

Lemma timeout_queue p k w k' : queue (match pg_waiting p !! k with
    | Some q => <[k := List.filter (fun x => negb (x =? w)%nat) q]> (pg_waiting p) | None => pg_waiting p end) k' =
  if bool_decide (k = k') then List.filter (fun x => negb (x =? w)%nat) (queue (pg_waiting p) k') else queue (pg_waiting p) k'.
Proof.
  destruct (pg_waiting p !! k) as [q|] eqn:E; [rewrite queue_insert|]; case_bool_decide as H; subst; try done;
    unfold queue; by rewrite E.
Qed.

Lemma offers_elem es k s : EOffer k s ∈ es -> s ∈ offers es.
Proof. intros H. apply list_elem_of_omap. by exists (EOffer k s). Qed.
Lemma takes_elem es k w : ETake k w ∈ es -> w ∈ takes es.
Proof. intros H. apply list_elem_of_omap. by exists (ETake k w). Qed.

Lemma given_snoc (l : list (nat * option nat)) w o : omap snd (l ++ [(w, o)]) = omap snd l ++ match o with Some s => [s] | None => [] end.
Proof. rewrite omap_app. by destruct o. Qed.
Lemma answered_snoc (l : list (nat * option nat)) w o : (l ++ [(w, o)]).*1 = l.*1 ++ [w].
Proof. by rewrite fmap_app. Qed.

Lemma NoDup_snoc {A} (l : list A) x : NoDup l -> x ∉ l -> NoDup (l ++ [x]).
Proof. intros Hl Hx. apply NoDup_app. split_and!; [done| |apply NoDup_singleton]. intros y Hy ->%list_elem_of_singleton. done. Qed.

Lemma clear_once w l : NoDup l.*2 -> NoDup (clearTimeout w l).*2.
Proof. unfold clearTimeout. apply NoDup_fmap_filter. Qed.

Lemma offer_key es k k' s : NoDup (offers es) -> EOffer k s ∈ es -> EOffer k' s ∈ es -> k = k'.
Proof.
  intros Hnd H1 H2. induction es as [|e es IH]; [by apply elem_of_nil in H1|].
  assert (NoDup (offers es)) as Hnd'.
  { destruct e; cbn in Hnd; try exact Hnd. by apply NoDup_cons in Hnd as [_ ?]. }
  apply elem_of_cons in H1 as [<-|H1], H2 as [H2|H2].
  - congruence.
  - cbn in Hnd. apply NoDup_cons in Hnd as [[] _]. by eapply offers_elem.
  - subst e. cbn in Hnd. apply NoDup_cons in Hnd as [[] _]. by eapply offers_elem.
  - auto.
Qed.

Section step.
Context (es : list PairEvent) (p : Pairing).
Hypothesis HI : paired es p.
Hypothesis Honce : NoDup (offers es).

Lemma given_offered s : s ∈ given p -> s ∈ offers es.
Proof using HI.
  intros ([w o] & Hin & Ho)%list_elem_of_omap. cbn in Ho. subst o. destruct (pd_given _ _ HI w s Hin) as (k & H & _).
  by eapply offers_elem.
Qed.

Lemma timer_key k k' w : (k, w) ∈ pg_timers p -> (k', w) ∈ pg_timers p -> k = k'.
Proof using HI.
  intros H1 H2. assert ((k, w) = (k', w)) as [= ->]; [|done]. pose proof (pd_timer_once _ _ HI) as Hnd.
  apply list_elem_of_lookup in H1 as [i Hi], H2 as [j Hj]. assert (i = j) as <-; [|congruence].
  eapply NoDup_lookup; [exact Hnd|..]; rewrite list_lookup_fmap; [by rewrite Hi|by rewrite Hj].
Qed.

(** Nothing but the list of events changes. *)
Lemma paired_more e p' : (forall k w, e <> ETake k w) ->
  pg_served p' = pg_served p -> pg_waiting p' = pg_waiting p -> pg_timers p' = pg_timers p -> pg_answers p' = pg_answers p ->
  paired (es ++ [e]) p'.
Proof using HI.
  intros He E1 E2 E3 E4. destruct HI. unfold given, answered in *. split; unfold given, answered; rewrite ?E1, ?E2, ?E3, ?E4; eauto; intros.
  - apply elem_of_app. eauto.
  - apply elem_of_app. eauto.
  - destruct (pd_given0 _ _ H) as (k & ? & ?). exists k. rewrite !elem_of_app. eauto.
  - unfold takes. rewrite omap_app, elem_of_app. left. by apply pd_answered0.
  - apply elem_of_app in H as [H|H%list_elem_of_singleton]; [eauto|by edestruct He].
Qed.

Lemma offer_paired k s : s ∉ offers es -> paired (es ++ [EOffer k s]) (acceptServed k s p).
Proof using HI.
  intros Hs. unfold acceptServed. destruct (queue (pg_waiting p) k) as [|w ws] eqn:Ew.
  - destruct (_ <=? _)%nat eqn:El; [by apply paired_more|]. apply Nat.leb_gt in El.
    assert (s ∉ given p) as Hg by (intros ?; by apply Hs, given_offered).
    assert (s ∉ queue (pg_served p) k) as Hq by (intros ?%(pd_parked _ _ HI); by eapply Hs, offers_elem).
    split; cbn; intros; rewrite ?queue_insert in *.
    + case_bool_decide; subst; [by right|apply HI].
    + case_bool_decide; subst; [rewrite length_app; cbn; lia|apply HI].
    + apply elem_of_app. case_bool_decide; subst; [apply elem_of_app in H as [H| ->%list_elem_of_singleton]; [left; by apply HI|right; left]|].
      left. by apply HI.
    + by apply HI.
    + apply elem_of_app. left. by apply HI.
    + destruct (pd_given _ _ HI _ _ H) as (k0 & ? & ?). exists k0. rewrite !elem_of_app. auto.
    + unfold takes. rewrite omap_app, elem_of_app. left. by apply (pd_answered _ _ HI).
    + apply elem_of_app in H as [H|H%list_elem_of_singleton]; [by apply HI|done].
    + case_bool_decide; subst; [apply NoDup_snoc; [apply HI|done]|apply HI].
    + change (given _) with (given p). case_bool_decide; subst; [|by eapply HI].
      apply elem_of_app in H as [H| ->%list_elem_of_singleton]; [by eapply HI|done].
    + apply HI.
    + apply HI.
    + apply HI.
    + by eapply (pd_pending _ _ HI).
    + apply HI.
  - assert (w ∈ queue (pg_waiting p) k) as Hw by (rewrite Ew; left). apply (pd_waiting _ _ HI) in Hw as Ht.
    assert (queue (pg_served p) k = []) as Hno by (destruct (pd_one _ _ HI k) as [|H]; [done|congruence]).
    pose proof (pd_wait_once _ _ HI k) as Hnd. rewrite Ew in Hnd. apply NoDup_cons in Hnd as [Hnw Hnd].
    split; cbn; intros; rewrite ?queue_insert, ?clear_elem in *; unfold answered, given in *; cbn in *; rewrite ?given_snoc, ?answered_snoc in *.
    + case_bool_decide; subst; [by left|apply HI].
    + apply HI.
    + apply elem_of_app. left. by apply HI.
    + case_bool_decide; subst.
      * split; [apply HI; rewrite Ew; by right|congruence].
      * split; [by apply HI|]. intros ->. apply (pd_waiting _ _ HI) in H. eauto using timer_key.
    + apply elem_of_app. left. apply HI. tauto.
    + apply elem_of_app in H as [H|[= -> ->]%list_elem_of_singleton].
      * destruct (pd_given _ _ HI _ _ H) as (k0 & ? & ?). exists k0. rewrite !elem_of_app. auto.
      * exists k. rewrite !elem_of_app. split; [right; left|left; by apply HI].
    + unfold takes. rewrite omap_app, elem_of_app. left. apply elem_of_app in H as [H| ->%list_elem_of_singleton];
        [by apply (pd_answered _ _ HI)|eapply takes_elem; by apply HI].
    + apply elem_of_app in H as [H|H%list_elem_of_singleton]; [|done]. rewrite elem_of_app.
      destruct (decide (w0 = w)) as [->|]; [left; right; left|]. destruct (pd_all _ _ HI _ _ H); [left; by left|right; done].
    + apply HI.
    + rewrite not_elem_of_app. split; [by eapply (pd_free _ _ HI)|]. intros ->%list_elem_of_singleton.
      apply (pd_parked _ _ HI) in H. by eapply Hs, offers_elem.
    + apply NoDup_snoc; [apply HI|]. intros ?. by apply Hs, given_offered.
    + case_bool_decide; subst; [done|apply HI].
    + apply clear_once, HI.
    + rewrite not_elem_of_app. destruct H. split; [by eapply (pd_pending _ _ HI)|]. by intros ->%list_elem_of_singleton.
    + apply NoDup_snoc; [apply HI|]. by eapply (pd_pending _ _ HI).
Qed.

Lemma take_paired k w : w ∉ takes es -> paired (es ++ [ETake k w]) (takeServed k w p).
Proof using HI Honce.
  intros Hw. unfold takeServed.
  assert (forall k, (k, w) ∉ pg_timers p) as Hnt by (intros k' ?%(pd_timers _ _ HI); by eapply Hw, takes_elem).
  assert (w ∉ answered p) as Hna by (intros ?; by apply Hw, (pd_answered _ _ HI)).
  destruct (queue (pg_served p) k) as [|s ss] eqn:Eq.
  - split; cbn; intros; rewrite ?queue_insert in *; unfold answered, given in *; cbn in *.
    + case_bool_decide; subst; [by left|apply HI].
    + apply HI.
    + apply elem_of_app. left. by apply HI.
    + apply elem_of_app. case_bool_decide; subst; [|left; by apply HI].
      apply elem_of_app in H as [H| ->%list_elem_of_singleton]; [left; by apply HI|right; left].
    + apply elem_of_app. apply elem_of_app in H as [H|[= -> ->]%list_elem_of_singleton]; [left; by apply HI|right; left].
    + destruct (pd_given _ _ HI _ _ H) as (k0 & ? & ?). exists k0. rewrite !elem_of_app. auto.
    + unfold takes. rewrite omap_app, elem_of_app. left. by apply (pd_answered _ _ HI).
    + rewrite elem_of_app. apply elem_of_app in H as [H|[= -> ->]%list_elem_of_singleton]; [|right; right; left].
      destruct (pd_all _ _ HI _ _ H); [by left|right; by left].
    + apply HI.
    + by eapply (pd_free _ _ HI).
    + apply HI.
    + case_bool_decide; subst; [|apply HI]. apply NoDup_snoc; [apply HI|]. intros ?%(pd_waiting _ _ HI). by eapply Hnt.
    + rewrite fmap_app. apply NoDup_snoc; [apply HI|]. intros ([k' w'] & Heq & Hk)%list_elem_of_fmap. cbn in Heq. subst w'. by eapply Hnt.
    + apply elem_of_app in H as [H|[= -> ->]%list_elem_of_singleton]; [by eapply (pd_pending _ _ HI)|done].
    + apply HI.
  - assert (s ∈ queue (pg_served p) k) as Hs by (rewrite Eq; left).
    assert (queue (pg_waiting p) k = []) as Hno by (destruct (pd_one _ _ HI k) as [H|]; [congruence|done]).
    pose proof (pd_queue _ _ HI k) as Hnd. rewrite Eq in Hnd. apply NoDup_cons in Hnd as [Hns Hnd].
    pose proof (pd_cap _ _ HI k) as Hcap. rewrite Eq in Hcap. cbn in Hcap.
    split; cbn; intros; rewrite ?queue_insert in *; unfold answered, given in *; cbn in *; rewrite ?given_snoc, ?answered_snoc in *.
    + case_bool_decide; subst; [by right|apply HI].
    + case_bool_decide; subst; [lia|apply HI].
    + apply elem_of_app. left. case_bool_decide; subst; [|by apply HI]. apply HI. rewrite Eq. by right.
    + by apply HI.
    + apply elem_of_app. left. by apply HI.
    + apply elem_of_app in H as [H|[= -> ->]%list_elem_of_singleton].
      * destruct (pd_given _ _ HI _ _ H) as (k0 & ? & ?). exists k0. rewrite !elem_of_app. auto.
      * exists k. rewrite !elem_of_app. split; [left; by apply HI|right; left].
    + unfold takes. rewrite omap_app, elem_of_app. apply elem_of_app in H as [H| ->%list_elem_of_singleton];
        [left; by apply (pd_answered _ _ HI)|right; left].
    + rewrite elem_of_app. apply elem_of_app in H as [H|[= -> ->]%list_elem_of_singleton]; [|left; right; left].
      destruct (pd_all _ _ HI _ _ H); [left; by left|by right].
    + case_bool_decide; subst; [done|apply HI].
    + rewrite not_elem_of_app. case_bool_decide; subst.
      * split; [eapply (pd_free _ _ HI); rewrite Eq; by right|]. by intros ->%list_elem_of_singleton.
      * split; [by eapply (pd_free _ _ HI)|]. intros ->%list_elem_of_singleton.
        apply (pd_parked _ _ HI) in H, Hs. by eapply H0, offer_key.
    + apply NoDup_snoc; [apply HI|]. by eapply (pd_free _ _ HI).
    + apply HI.
    + apply HI.
    + rewrite not_elem_of_app. split; [by eapply (pd_pending _ _ HI)|]. intros ->%list_elem_of_singleton. by eapply Hnt.
    + apply NoDup_snoc; [apply HI|done].
Qed.

Lemma timeout_paired k w : paired (es ++ [ETimeout k w]) (served_timeout k w p).
Proof using HI.
  unfold served_timeout. case_bool_decide as Ht; [|by apply paired_more].
  split; cbn; intros; rewrite ?timeout_queue, ?clear_elem in *; unfold answered, given in *; cbn in *;
    rewrite ?given_snoc, ?answered_snoc, ?app_nil_r in *.
  - destruct (pd_one _ _ HI k0) as [?|Hq]; [by left|]. right. case_bool_decide; [|done]. by rewrite Hq.
  - apply HI.
  - apply elem_of_app. left. by apply HI.
  - case_bool_decide; subst.
    + apply List_filter_elem in H as [H Hne%negb_true_iff%Nat.eqb_neq]. split; [by apply HI|done].
    + apply (pd_waiting _ _ HI) in H. split; [done|]. intros ->. by eapply H0, timer_key.
  - apply elem_of_app. left. apply HI. tauto.
  - apply elem_of_app in H as [H|H%list_elem_of_singleton]; [|done].
    destruct (pd_given _ _ HI _ _ H) as (k0 & ? & ?). exists k0. rewrite !elem_of_app. auto.
  - unfold takes. rewrite omap_app, elem_of_app. left. apply elem_of_app in H as [H| ->%list_elem_of_singleton];
      [by apply (pd_answered _ _ HI)|]. eapply takes_elem. by apply HI.
  - apply elem_of_app in H as [H|H%list_elem_of_singleton]; [|done]. rewrite elem_of_app.
    destruct (decide (w0 = w)) as [->|]; [left; right; left|]. destruct (pd_all _ _ HI _ _ H); [left; by left|by right].
  - apply HI.
  - by eapply (pd_free _ _ HI).
  - apply HI.
  - case_bool_decide; [|apply HI]. rewrite <-(list_fmap_id (List.filter _ _)). apply NoDup_fmap_filter. rewrite list_fmap_id. apply HI.
  - apply clear_once, HI.
  - rewrite not_elem_of_app. destruct H. split; [by eapply (pd_pending _ _ HI)|]. by intros ->%list_elem_of_singleton.
  - apply NoDup_snoc; [apply HI|]. by eapply (pd_pending _ _ HI).
Qed.

Lemma close_paired : paired (es ++ [ECloseAll]) (closeAll_streams p).
Proof using HI.
  split; cbn; intros; rewrite ?queue_empty in *; unfold answered, given in *; cbn in *.
  - by left.
  - lia.
  - by apply elem_of_nil in H.
  - by apply elem_of_nil in H.
  - apply elem_of_app. left. by apply HI.
  - destruct (pd_given _ _ HI _ _ H) as (k0 & ? & ?). exists k0. rewrite !elem_of_app. auto.
  - unfold takes. rewrite omap_app, elem_of_app. left. by apply (pd_answered _ _ HI).
  - apply elem_of_app in H as [H|H%list_elem_of_singleton]; [by apply HI|done].
  - constructor.
  - by apply elem_of_nil in H.
  - apply HI.
  - constructor.
  - apply HI.
  - by eapply (pd_pending _ _ HI).
  - apply HI.
Qed.
End step.

Lemma offers_app es e : offers (es ++ [e]) = offers es ++ match e with EOffer _ s => [s] | _ => [] end.
Proof. unfold offers. rewrite omap_app. by destruct e. Qed.
Lemma takes_app es e : takes (es ++ [e]) = takes es ++ match e with ETake _ w => [w] | _ => [] end.
Proof. unfold takes. rewrite omap_app. by destruct e. Qed.

Lemma new_paired : paired [] newPairing.
Proof.
  split; cbn; intros; rewrite ?queue_empty in *;
    first [by left|unfold SERVED_QUEUE_MAX; cbn; lia|match goal with H : _ ∈ [] |- _ => by apply elem_of_nil in H end|constructor].
Qed.

Lemma run_paired es : NoDup (offers es) -> NoDup (takes es) -> paired es (pair_run es).
Proof.
  induction es as [|e es IH] using rev_ind; [intros _ _; apply new_paired|].
  rewrite offers_app, takes_app. intros [Ho [Hso _]]%NoDup_app [Ht [Hst _]]%NoDup_app. specialize (IH Ho Ht).
  unfold pair_run. rewrite foldl_app. fold (pair_run es). cbn [foldl]. destruct e as [k s|k w|k w|s|]; cbn [pair_event].
  - apply offer_paired; [done|]. intros H. apply (Hso _ H). left.
  - apply take_paired; [done|done|]. intros H. apply (Hst _ H). left.
  - by apply timeout_paired.
  - by eapply paired_more.
  - by apply close_paired.
Qed.

(** C17: reverse streams are paired exactly once.  After any sequence of offers, takes, timeouts, peers closing and [closeAll], in which
    each stream is offered once and each engine connection takes once: no key has both parked streams and
    waiting connections, at most 12 streams are parked for a key, a connection is answered at most once and a
    stream is given to at most one connection, of the peer and port it was offered for, and then it is no longer parked; and every
    connection that took has its answer or a running timer. *)
Theorem served_streams_paired_once es : NoDup (offers es) -> NoDup (takes es) ->
  let p := pair_run es in
  (forall k, (queue (pg_served p) k = [] \/ queue (pg_waiting p) k = []) ∧ (length (queue (pg_served p) k) <= 12)%nat) ∧
  NoDup (answered p) ∧ NoDup (given p) ∧
  (forall w s, (w, Some s) ∈ pg_answers p -> (exists k, EOffer k s ∈ es ∧ ETake k w ∈ es) ∧ forall k, s ∉ queue (pg_served p) k) ∧
  (forall k w, ETake k w ∈ es -> w ∈ answered p \/ (k, w) ∈ pg_timers p).
Proof.
  intros Ho Ht p. pose proof (run_paired es Ho Ht) as HI. fold p in HI. split_and!; [|apply HI|apply HI| |apply HI].
  - intros k. split; [apply HI|]. apply (pd_cap _ _ HI).
  - intros w s Hw. split; [by apply HI|]. intros k Hs. apply (pd_free _ _ HI) in Hs. apply Hs.
    apply list_elem_of_omap. by exists (w, Some s).
Qed.

(** Parked streams are never checked again.  Twelve streams are parked and their peer closes them all; a live stream offered then is
    destroyed because the queue is full, and the engine connection that comes next is paired with a closed one. *)
Theorem parked_streams_go_stale :
  let k := servedKey "f" 50200 in
  let es := (EOffer k <$> seq 0 12) ++ (EPeerClosed <$> seq 0 12) ++ [EOffer k 12%nat; ETake k 100%nat] in
  pg_answers (pair_run es) = [(100%nat, Some 0%nat)] ∧ pg_destroyed (pair_run es) = [12%nat].
Proof. vm_compute. by split. Qed.

Lemma served_streams_paired_once_witness :
  let es := [EOffer "k" 1%nat; ETake "k" 2%nat; ETake "k" 3%nat; ETimeout "k" 3%nat] in
  pg_answers (pair_run es) = [(2%nat, Some 1%nat); (3%nat, None)] ∧ NoDup (answered (pair_run es)).
Proof.
  split; [vm_compute; reflexivity|].
  refine (proj1 (proj2 (served_streams_paired_once [EOffer "k" 1%nat; ETake "k" 2%nat; ETake "k" 3%nat; ETimeout "k" 3%nat] _ _)));
    apply (bool_decide_eq_true_1 _); vm_compute; reflexivity.
Defined.

(** ** Paths *)

(** A property of every outcome a choice can reach. *)
Inductive leads (P : bool -> Outcome -> Prop) : bool -> Forward -> Prop :=
  | L_done c o : P c o -> leads P c (FDone o)
  | L_ask c a k : (forall s c', leads P c' (k s c')) -> leads P c (FAsk a k).

Lemma leads_answer P c f l o : leads P c f -> answer f l = Some o -> exists c', P c' o.
Proof.
  intros Hf. revert l. induction Hf as [c o' Ho|c a k _ IH]; intros [|[s c'] l]; cbn; try done; try (intros [= <-]; by eexists).
  apply IH.
Qed.

Section paths.
Context (e : Endpoint).

(** How many answers a choice needs at most. *)
Inductive ends : nat -> Forward -> Prop :=
  | E_done n o : ends n (FDone o)
  | E_ask n a k : (forall s c, ends n (k s c)) -> ends (S n) (FAsk a k).

Lemma path_answer n f l : ends n f -> (n <= length l)%nat -> is_Some (answer f l).
Proof.
  intros Hf. revert l. induction Hf as [n o|n a k _ IH]; intros l Hl; cbn; [by destruct l; eexists|].
  destruct l as [|[s c] l]; cbn in *; [lia|]. apply IH. lia.
Qed.
Lemma ends_more n m f : ends n f -> (n <= m)%nat -> ends m f.
Proof.
  intros Hf. revert m. induction Hf as [n o|n a k _ IH]; intros m Hm; [constructor|].
  destruct m; [lia|]. constructor. intros. apply IH. lia.
Qed.

Lemma relay_ends : ends 1 (try_relay e).
Proof. unfold try_relay. destruct (negb _); constructor. intros [s|] c; constructor. Qed.
Lemma served_ends n k : (forall s c, ends n (k s c)) -> ends (S n) (pipe_served k).
Proof. intros Hk. constructor. intros [s|] c; [constructor|apply Hk]. Qed.
Lemma last_ends m w : ends 2 (last_resort e m w).
Proof.
  assert (ends 2 (try_relay e)) as H by (eapply ends_more; [apply relay_ends|lia]).
  assert (ends 2 (if w then try_relay e else pipe_served (fun _ _ => try_relay e))) as H'.
  { destruct w; [done|]. apply served_ends. intros. apply relay_ends. }
  by destruct m as [[]|].
Qed.
Lemma directs_ends n l next c : ends n next -> ends (length l + n) (try_directs l next c).
Proof.
  intros Hn. revert c. induction l as [|x l IH]; intros c; cbn; [done|]. destruct c; [constructor|]. constructor.
  intros [s|] c'; [constructor|apply IH].
Qed.
Lemma candidates_length last : (length (candidates e last) <= S (length (ep_direct e)))%nat.
Proof. destruct last; cbn; [|lia]. apply le_n_S, List.filter_length_le. Qed.
Lemma outbound_ends m w c : ends (length (ep_direct e) + 3) (outbound e m w c).
Proof.
  unfold outbound. destruct m as [[last| |]|]; [| | |].
  - eapply ends_more; [apply directs_ends, last_ends|]. pose proof (candidates_length (Some last)). lia.
  - eapply ends_more; [apply last_ends|lia].
  - eapply ends_more; [apply last_ends|lia].
  - eapply ends_more; [apply directs_ends, last_ends|]. cbn. lia.
Qed.
Lemma forward_ends m : ends (length (ep_direct e) + 4) (forward e m).
Proof.
  assert (forall w c, ends (length (ep_direct e) + 4) (outbound e m w c)) as H by (intros; eapply ends_more; [apply outbound_ends|lia]).
  assert (forall k, (forall s c, ends (length (ep_direct e) + 3) (k s c)) -> ends (length (ep_direct e) + 4) (pipe_served k)) as Hs.
  { intros k Hk. rewrite Nat.add_succ_r. by apply served_ends. }
  unfold forward. destruct m as [[last| |]|]; [apply H|apply H| |].
  - apply Hs. intros. apply outbound_ends.
  - destruct (default false _); [apply Hs; intros; apply outbound_ends|apply H].
Qed.

(** A carried connection: a relay only when allowed, a direct address among the endpoint's or the remembered one;
    on a direct or relay path the stream is closed when the engine had gone, on a reverse stream never. *)
Definition sound (m : option Memo) (c : bool) (o : Outcome) : Prop :=
  match o with
  | Carried M_relay _ closed => ep_relay e = true ∧ closed = c
  | Carried (M_direct addr) _ closed => (addr ∈ ep_direct e \/ m = Some (M_direct addr)) ∧ closed = c
  | Carried M_inbound _ closed => closed = false
  | Gone => c = true
  | NoPath => ep_relay e = false
  | NoRelay => True
  end.

Lemma relay_sound m c : leads (sound m) c (try_relay e).
Proof.
  unfold try_relay. destruct (ep_relay e) eqn:E; cbn; [|by constructor; cbn]. constructor.
  intros [s|] c'; constructor; cbn; by rewrite ?E.
Qed.
Lemma served_sound m k c : (forall s c, leads (sound m) c (k s c)) -> leads (sound m) c (pipe_served k).
Proof. intros Hk. constructor. intros [s|] c'; [by constructor|apply Hk]. Qed.
Lemma last_sound m r w c : leads (sound m) c (last_resort e r w).
Proof.
  assert (leads (sound m) c (if w then try_relay e else pipe_served (fun _ _ => try_relay e))) as H.
  { destruct w; [apply relay_sound|]. apply served_sound. intros. apply relay_sound. }
  destruct r as [[]|]; try done. apply relay_sound.
Qed.
Lemma directs_sound m l next c : (forall addr, addr ∈ l -> addr ∈ ep_direct e \/ m = Some (M_direct addr)) ->
  (forall c, leads (sound m) c next) -> leads (sound m) c (try_directs l next c).
Proof.
  intros Hl Hn. revert c. induction l as [|x l IH]; intros c; cbn; [apply Hn|]. destruct c; [by constructor|]. constructor.
  intros [s|] c'; [constructor; cbn; split; [apply Hl; left|done]|]. apply IH. intros. apply Hl. by right.
Qed.
Lemma outbound_sound m w c : leads (sound m) c (outbound e m w c).
Proof.
  unfold outbound. destruct m as [[last| |]|]; try apply last_sound; apply directs_sound; try (intros; apply last_sound).
  - intros addr [->|[H _]%List_filter_elem]%elem_of_cons; auto.
  - auto.
Qed.
Lemma forward_sound m : leads (sound m) false (forward e m).
Proof.
  unfold forward. destruct m as [[last| |]|]; [apply outbound_sound|apply outbound_sound| |].
  - apply served_sound. intros. apply outbound_sound.
  - destruct (default false _); [apply served_sound; intros; apply outbound_sound|apply outbound_sound].
Qed.
End paths.

(** Every engine connection gets a verdict.  After at most four answers more than the endpoint has addresses, the choice of a
    path is over: the connection is carried, or is dropped because it closed itself, because the relay is not allowed, or
    because there is no relay stream.  A relay carries it only when the endpoint allows one, and a direct path uses an address
    of the endpoint or the remembered one.  When the engine has gone meanwhile a direct or relay stream is closed at
    once; a reverse stream is not. *)
Theorem forward_decides e m l : (length (ep_direct e) + 4 <= length l)%nat ->
  exists o c, answer (forward e m) l = Some o ∧ sound e m c o.
Proof.
  intros Hl. destruct (path_answer _ _ l (forward_ends e m) Hl) as [o Ho]. exists o.
  destruct (leads_answer _ _ _ _ _ (forward_sound e m) Ho) as [c Hc]. by exists c.
Qed.

(** A relayed endpoint is never tried otherwise again.  Once an endpoint's path is the relay, every later connection asks for a
    relay stream at most, whatever the answers, and the path stays the relay, also when relay streams fail. *)
Theorem relay_is_sticky e runs :
  (forwards e (Some M_relay) runs).2 = Some M_relay ∧
  forall l a, a ∈ asks (forward e (Some M_relay)) l -> a = A_relay.
Proof.
  assert (forward e (Some M_relay) = try_relay e) as Hf by done. split.
  - induction runs as [|l runs IH]; [done|]. cbn [forwards]. rewrite Hf.
    assert (match answer (try_relay e) l with Some o => remember o (Some M_relay) | None => Some M_relay end = Some M_relay) as ->.
    { unfold try_relay. destruct (negb _); cbn; [by destruct l|]. destruct l as [|[[s|] c] l]; cbn; [done|by destruct l..]. }
    by destruct (forwards e (Some M_relay) runs).
  - intros l a. rewrite Hf. unfold try_relay. destruct (negb _); cbn; [destruct l; by intros ?%elem_of_nil|].
    destruct l as [|[[s|] c] l]; cbn; [by intros ->%list_elem_of_singleton| |]; destruct l; by intros ->%list_elem_of_singleton.
Qed.

Lemma forward_decides_witness :
  exists o c, answer (forward demo_rpc None) [(None, true); (Some 7%nat, true); (None, false); (None, false)] = Some o ∧ sound demo_rpc None c o.
Proof. apply (forward_decides demo_rpc None). cbn. lia. Defined.
