(* ===== verification/Mock.v ===== *)
(** * Deterministic hashing and pseudo-randomness (sin-harness/core/mock.ts)

    FNV-1a and mulberry32 on 32-bit integers, and the content of the mock endpoint.  A draw is kept as
    its 32-bit numerator [n]: [rand()] is [n / 2^32], and the products the code floors are exact in
    binary64, so [Math.floor(rand() * k)] is [n * k / 2^32]. *)

From S2P Require Import Prelude JsNum Json HarnessTypes Canon.

Local Open Scope string_scope.
Local Open Scope list_scope.
Local Open Scope Z_scope.

(** [ToInt32] and [x >>> 0] *)
Definition toInt32 (x : Z) : Z := (x + 2 ^ 31) mod 2 ^ 32 - 2 ^ 31.
Definition toUint32 (x : Z) : Z := x mod 2 ^ 32.
Definition imul (a b : Z) : Z := toInt32 (a * b).
(** [a ^ b], [a | b], [a >>> n] *)
Definition xor32 (a b : Z) : Z := Z.lxor (toInt32 a) (toInt32 b).
Definition or32 (a b : Z) : Z := Z.lor (toInt32 a) (toInt32 b).
Definition shr32 (a n : Z) : Z := Z.shiftr (toUint32 a) n.

Definition charCode (a : Ascii.ascii) : Z := Z.of_nat (Ascii.nat_of_ascii a).

Fixpoint fnv1a_from (h : Z) (s : string) : Z :=
  match s with
  | EmptyString => h
  | String a s => fnv1a_from (toUint32 (imul (xor32 h (charCode a)) 0x01000193)) s
  end.
Definition fnv1a (s : string) : Z := toUint32 (fnv1a_from 0x811c9dc5 s).

(** One call of the generator: the numerator of the draw and the next state. *)
Definition mulberry32 (seed : Z) : Z := toUint32 seed.
Definition rand (a : Z) : Z * Z :=
  let a := toUint32 (a + 0x6d2b79f5) in
  let t := imul (xor32 a (shr32 a 15)) (or32 a 1) in
  let t := xor32 t (t + imul (xor32 t (shr32 t 7)) (or32 t 61)) in
  (toUint32 (xor32 t (shr32 t 14)), a).

(** [Math.floor(rand() * k)] *)
Definition rand_below (k a : Z) : Z * Z := let '(n, a) := rand a in (n * k / 2 ^ 32, a).

Definition MOCK_WORDS : list string :=
  ["alpha"; "bravo"; "charlie"; "delta"; "echo"; "foxtrot"; "golf"; "hotel"; "india"; "juliet"; "kilo"; "lima"].

Fixpoint mock_tags (n : nat) (a : Z) : list string :=
  match n with
  | O => []
  | S n =>
      let '(i, a) := rand_below (Z.of_nat (length MOCK_WORDS)) a in
      default "x" (MOCK_WORDS !! Z.to_nat i) :: mock_tags n a
  end.

Definition is_user (m : ChatMsg) : bool := match cm_role m with user => true | _ => false end.

(** [`${seed}`] of an integral seed *)
Definition mockContent `{JsonText} (seed : Z) (messages : list ChatMsg) : string :=
  let lastUser := find is_user (rev messages) in
  let h := fnv1a (pretty seed +:+ ":" +:+ match lastUser with Some m => cm_content m | None => "" end) in
  let value := h mod 1000 in
  let wordCount := 2 + h mod 4 in
  let tags := mock_tags (Z.to_nat wordCount) (mulberry32 h) in
  let answer := join "-" tags in
  stringify (JObj [("answer", JStr answer); ("value", JNum (num_of_Z value)); ("tags", JArr (JStr <$> tags))]).

(** [n.toString(36)] of a 32-bit unsigned integer: at most seven digits. *)
Definition digit36 (d : Z) : Ascii.ascii :=
  Ascii.ascii_of_nat (Z.to_nat (if d <? 10 then 48 + d else 87 + d)).
Fixpoint base36 (fuel : nat) (n : Z) (acc : string) : string :=
  match fuel with
  | O => acc
  | S fuel =>
      let acc := String (digit36 (n mod 36)) acc in
      if n / 36 =? 0 then acc else base36 fuel (n / 36) acc
  end.
Definition toString36 (n : Z) : string := base36 7 n "".

(** ** Ranges *)

Lemma toUint32_range x : 0 <= toUint32 x < 2 ^ 32.
Proof. apply Z.mod_pos_bound. lia. Qed.

Lemma toInt32_range x : - 2 ^ 31 <= toInt32 x < 2 ^ 31.
Proof. unfold toInt32. pose proof (Z.mod_pos_bound (x + 2 ^ 31) (2 ^ 32)). lia. Qed.

Lemma fnv1a_range s : 0 <= fnv1a s < 2 ^ 32.
Proof. apply toUint32_range. Qed.

Lemma rand_below_range k a : 0 < k -> 0 <= (rand_below k a).1 < k.
Proof.
  intros Hk. unfold rand_below, rand. cbn [fst].
  match goal with |- context [toUint32 ?x * k] => pose proof (toUint32_range x); set (n := toUint32 x) in * end.
  split; [apply Z.div_pos; nia|]. apply Z.div_lt_upper_bound; nia.
Qed.
