(* ===== verification/Regex.v ===== *)
(** * Regular expressions

    The fragment of ECMAScript regular expressions the harness uses, as a backtracking matcher that
    lists the ends of the matches at a position in the engine's order of preference; [test] of a
    [/g] expression with its [lastIndex], and [replace] of all matches.  Word boundaries look at the
    character before the position, which the matcher carries. *)

From S2P Require Import Prelude Canon.

Local Open Scope string_scope.
Local Open Scope list_scope.
Local Open Scope nat_scope.

Inductive re :=
  | Chr (f : Ascii.ascii -> bool)
  | Seq (r1 r2 : re)
  | Opt (r : re)
  | Rep (r : re) (min : nat) (max : option nat)
  | WordB.

(** A position: the character before it and the text after it. *)
Definition position : Type := option Ascii.ascii * string.

Definition code (a : Ascii.ascii) : nat := Ascii.nat_of_ascii a.
Definition between (lo hi : nat) (a : Ascii.ascii) : bool := (lo <=? code a) && (code a <=? hi).
Definition is_digit : Ascii.ascii -> bool := between 48 57.
Definition is_upper : Ascii.ascii -> bool := between 65 90.
Definition is_lower : Ascii.ascii -> bool := between 97 122.
Definition is_letter (a : Ascii.ascii) : bool := is_upper a || is_lower a.
Definition is_char (c : nat) (a : Ascii.ascii) : bool := code a =? c.
Definition in_string (s : string) (a : Ascii.ascii) : bool := existsb (Ascii.eqb a) (String.list_ascii_of_string s).
(** [\w] *)
Definition is_word (a : Ascii.ascii) : bool := is_letter a || is_digit a || is_char 95 a.
Definition opt_word (a : option Ascii.ascii) : bool := match a with Some a => is_word a | None => false end.
Definition first_char (s : string) : option Ascii.ascii := match s with EmptyString => None | String a _ => Some a end.

Definition shorter (p q : position) : bool := String.length p.2 <? String.length q.2.

(** Greedy repetition of [step]: [min] times, then up to [extra] more times, each of which must
    consume something; longer repetitions first. *)
Fixpoint repeat_ (step : position -> list position) (min extra : nat) (p : position) {struct min} : list position :=
  match min with
  | S min => step p ≫= repeat_ step min extra
  | O =>
      (fix more (extra : nat) (p : position) : list position :=
         match extra with
         | O => [p]
         | S extra => (base.filter (fun q => Is_true (shorter q p)) (step p) ≫= more extra) ++ [p]
         end) extra p
  end.

Fixpoint matches (r : re) (p : position) : list position :=
  match r with
  | Chr f => match p.2 with String a s => if f a then [(Some a, s)] else [] | EmptyString => [] end
  | Seq r1 r2 => matches r1 p ≫= matches r2
  | Opt r => matches r p ++ [p]
  | Rep r min max =>
      repeat_ (matches r) min (match max with Some m => m - min | None => String.length p.2 end) p
  | WordB => if xorb (opt_word p.1) (opt_word (first_char p.2)) then [p] else []
  end.

Definition match_here (r : re) (p : position) : option position :=
  match matches r p with q :: _ => Some q | [] => None end.

(** The end of the first match at or after a position. *)
Fixpoint search (r : re) (prev : option Ascii.ascii) (s : string) : option position :=
  match match_here r (prev, s) with
  | Some q => Some q
  | None => match s with EmptyString => None | String a s => search r (Some a) s end
  end.

(** The position at index [i], when there is one. *)
Fixpoint position_at (i : nat) (prev : option Ascii.ascii) (s : string) : option position :=
  match i, s with
  | O, _ => Some (prev, s)
  | S i, String a s => position_at i (Some a) s
  | S _, EmptyString => None
  end.

(** [re.test(s)] of a global expression: the answer and the new [lastIndex]. *)
Definition test (r : re) (lastIndex : nat) (s : string) : bool * nat :=
  match position_at lastIndex None s ≫= fun p => search r p.1 p.2 with
  | Some q => (true, String.length s - String.length q.2)
  | None => (false, 0)
  end.

(** [s.replace(re, by)] of a global expression. *)
Fixpoint replace_from (fuel : nat) (r : re) (by_ : string) (p : position) : string :=
  match fuel with
  | O => ""
  | S fuel =>
      match match_here r p, p.2 with
      | Some q, String a s =>
          if shorter q p then by_ +:+ replace_from fuel r by_ q
          else by_ +:+ String a (replace_from fuel r by_ (Some a, s))
      | Some _, EmptyString => by_
      | None, String a s => String a (replace_from fuel r by_ (Some a, s))
      | None, EmptyString => ""
      end
  end.
Definition replace (r : re) (by_ s : string) : string := replace_from (S (String.length s)) r by_ (None, s).

(** [s.toLowerCase()] on code units below 256 *)
Definition lower_char (a : Ascii.ascii) : Ascii.ascii :=
  if is_upper a || (between 192 222 a && negb (is_char 215 a)) then Ascii.ascii_of_nat (code a + 32) else a.
Fixpoint toLowerCase (s : string) : string :=
  match s with EmptyString => "" | String a s => String (lower_char a) (toLowerCase s) end.

(** [s.slice(0, n)] *)
Definition take_chars (n : nat) (s : string) : string := String.substring 0 n s.

(** ** What a replacement leaves *)

Lemma all_chars_app f s t : all_chars f (s +:+ t) = all_chars f s && all_chars f t.
Proof.
  induction s as [|a s IH]; [done|].
  change (String a s +:+ t) with (String a (s +:+ t)). cbn [all_chars]. by rewrite IH, andb_assoc.
Qed.

(** A match ends in the text it started from. *)
Definition after (p q : position) : Prop := exists pre, p.2 = pre +:+ q.2.

Lemma after_refl p : after p p.
Proof. by exists "". Qed.

Lemma after_trans p q r : after p q -> after q r -> after p r.
Proof.
  intros [a Ha] [b Hb]. exists (a +:+ b). rewrite Ha, Hb. clear. induction a as [|c a IH]; [done|].
  change (String c (a +:+ (b +:+ r.2)) = String c ((a +:+ b) +:+ r.2)). by rewrite IH.
Qed.

Lemma repeat_after step min extra : (forall p q, q ∈ step p -> after p q) ->
  forall p q, q ∈ repeat_ step min extra p -> after p q.
Proof.
  intros Hstep. induction min as [|min IH]; intros p q; cbn [repeat_].
  - revert p q. induction extra as [|extra IH]; intros p q.
    + intros ->%list_elem_of_singleton. apply after_refl.
    + intros [Hq|Hq%list_elem_of_singleton]%elem_of_app; [|subst; apply after_refl].
      apply list_elem_of_bind in Hq as (r & Hq & Hr). apply list_elem_of_filter in Hr as [_ Hr].
      eapply after_trans; [by apply Hstep|by apply IH].
  - intros Hq. apply list_elem_of_bind in Hq as (r & Hq & Hr).
    eapply after_trans; [by apply Hstep|by apply IH].
Qed.

Lemma matches_after r : forall p q, q ∈ matches r p -> after p q.
Proof.
  induction r as [f|r1 IH1 r2 IH2|r IH|r IH min max|]; intros p q; cbn [matches].
  - destruct p as [prev [|a s]]; cbn; [by intros ?%elem_of_nil|].
    destruct (f a); [|by intros ?%elem_of_nil]. intros ->%list_elem_of_singleton. by exists (String a "").
  - intros Hq. apply list_elem_of_bind in Hq as (x & Hq & Hx). eapply after_trans; eauto.
  - intros [Hq|Hq%list_elem_of_singleton]%elem_of_app; [by apply IH|subst; apply after_refl].
  - by apply repeat_after.
  - case_match; [|by intros ?%elem_of_nil]. intros ->%list_elem_of_singleton. apply after_refl.
Qed.

Lemma match_here_after r p q : match_here r p = Some q -> after p q.
Proof.
  unfold match_here. destruct (matches r p) as [|x l] eqn:E; [done|]. intros [= <-].
  apply (matches_after r). rewrite E. left.
Qed.

Lemma after_chars P p q : after p q -> all_chars P p.2 = true -> all_chars P q.2 = true.
Proof. intros [pre ->]. rewrite all_chars_app. by intros [_ ?]%andb_true_iff. Qed.

(** Characters that start no match are kept; everything else comes from the replacement text. *)
Lemma replace_from_chars (Q P : Ascii.ascii -> bool) r by_ fuel : forall p,
  all_chars Q p.2 = true -> all_chars P by_ = true ->
  (forall prev a s, match_here r (prev, String a s) = None -> Q a = true -> P a = true) ->
  (forall prev s q, match_here r (prev, s) = Some q -> shorter q (prev, s) = true) ->
  all_chars P (replace_from fuel r by_ p) = true.
Proof.
  induction fuel as [|fuel IH]; intros [prev s] Hs Hby Hkeep Hlen; [done|]. cbn [replace_from].
  destruct (match_here r (prev, s)) as [q|] eqn:E; cbn [snd]; destruct s as [|a s]; try done.
  - rewrite (Hlen _ _ _ E), all_chars_app, Hby. apply IH; try done.
    eapply after_chars; [by eapply match_here_after|done].
  - cbn in Hs. apply andb_true_iff in Hs as [Ha Hs]. cbn [all_chars]. rewrite (Hkeep _ _ _ E Ha).
    by apply IH.
Qed.

Lemma match_chr f prev s :
  match_here (Chr f) (prev, s) =
  match s with String a t => if f a then Some (Some a, t) else None | EmptyString => None end.
Proof. unfold match_here. cbn. destruct s; [done|]. by destruct (f a). Qed.

Lemma repeat_more_ne step extra p : repeat_ step 0 extra p <> [].
Proof. cbn. destruct extra; [done|]. intros Hn. by apply app_eq_nil in Hn as [_ ?]. Qed.

Lemma matches_plus f prev a s : matches (Rep (Chr f) 1 None) (prev, String a s) =
  if f a then repeat_ (matches (Chr f)) 0 (String.length (String a s)) (Some a, s) else [].
Proof.
  change (matches (Rep (Chr f) 1 None) (prev, String a s)) with
    (matches (Chr f) (prev, String a s) ≫= repeat_ (matches (Chr f)) 0 (String.length (String a s))).
  generalize (repeat_ (matches (Chr f)) 0 (String.length (String a s))). intros k. cbn.
  destruct (f a); [|done]. cbn. by rewrite app_nil_r.
Qed.

(** [f+] matches exactly where a character satisfies [f], and consumes it. *)
Lemma match_plus_none f prev a s : match_here (Rep (Chr f) 1 None) (prev, String a s) = None -> f a = false.
Proof.
  unfold match_here. rewrite matches_plus. destruct (f a); [|done].
  pose proof (repeat_more_ne (matches (Chr f)) (String.length (String a s)) (Some a, s)) as Hne.
  by destruct (repeat_ _ _ _ _).
Qed.

Lemma match_plus_some f prev s q : match_here (Rep (Chr f) 1 None) (prev, s) = Some q -> shorter q (prev, s) = true.
Proof.
  unfold match_here. destruct s as [|a s]; [done|]. rewrite matches_plus. destruct (f a); [|done].
  destruct (repeat_ _ _ _ _) as [|x l] eqn:E; [done|]. intros [= <-].
  assert (after (Some a, s) x) as [pre Hpre].
  { eapply (repeat_after (matches (Chr f)) 0); [apply matches_after|]. rewrite E. left. }
  unfold shorter. apply Nat.ltb_lt. cbn [snd String.length] in *. rewrite Hpre, length_app_string. lia.
Qed.
