(* ===== verification/Events.v ===== *)
(** * Event store (sin-harness/loop/events.ts)

    PII detection with its [/g] expressions, whose [lastIndex] lives as long as the process, redaction,
    and the store: the [events] table as a list of rows in insertion order with [id] as primary key.
    SQLite orders text by its bytes. *)

From S2P Require Import Prelude HarnessTypes Canon Mock Regex.

Local Open Scope string_scope.
Local Open Scope list_scope.
Local Open Scope Z_scope.

Record CaptureInput := {
  ci_session : string; ci_kind : EventKind; ci_payload : string; ci_nodeId : option string; ci_ts : option string }.

(** ** PII *)

Definition sep : re := Opt (Chr (fun a => is_space a || is_char 45 a)).
Definition digit : re := Chr is_digit.

(** [[A-Za-z0-9._%+-]+@[A-Za-z0-9.-]+\.[A-Za-z]{2,}] *)
Definition email_re : re :=
  Seq (Rep (Chr (fun a => is_letter a || is_digit a || in_string "._%+-" a)) 1 None)
  (Seq (Chr (is_char 64))
  (Seq (Rep (Chr (fun a => is_letter a || is_digit a || in_string ".-" a)) 1 None)
  (Seq (Chr (is_char 46)) (Rep (Chr is_letter) 2 None)))).
(** [(?:\+\d{1,3}[\s-]?)?(?:\d[\s-]?){7,11}\d] *)
Definition phone_re : re :=
  Seq (Opt (Seq (Chr (is_char 43)) (Seq (Rep digit 1 (Some 3%nat)) sep)))
  (Seq (Rep (Seq digit sep) 7 (Some 11%nat)) digit).
(** [\b\d{11}\b] *)
Definition national_re : re := Seq WordB (Seq (Rep digit 11 (Some 11%nat)) WordB).
(** [\b[A-Z]{2}\d{2}[A-Z0-9]{10,30}\b] *)
Definition iban_re : re :=
  Seq WordB (Seq (Rep (Chr is_upper) 2 (Some 2%nat)) (Seq (Rep digit 2 (Some 2%nat))
  (Seq (Rep (Chr (fun a => is_upper a || is_digit a)) 10 (Some 30%nat)) WordB))).
(** [\b(?:\d[ -]?){13,19}\b] *)
Definition card_re : re :=
  Seq WordB (Seq (Rep (Seq digit (Opt (Chr (in_string " -")))) 13 (Some 19%nat)) WordB).

Definition PII_PATTERNS : list (string * re) :=
  [("email", email_re); ("phone", phone_re); ("national-id", national_re); ("iban", iban_re); ("card", card_re)].

(** The [lastIndex] of each expression. *)
Definition pii_state : Type := list nat.
Definition fresh_pii : pii_state := [0; 0; 0; 0; 0]%nat.

(** [PII_PATTERNS.some(([, re]) => re.test(payload))] *)
Fixpoint some_test (l : list (string * re)) (st : pii_state) (payload : string) : bool * pii_state :=
  match l, st with
  | (_, r) :: l, i :: st =>
      match test r i payload with
      | (true, i) => (true, i :: st)
      | (false, i) => let '(b, st) := some_test l st payload in (b, i :: st)
      end
  | _, _ => (false, st)
  end.
Definition detectPii (st : pii_state) (payload : string) : bool * pii_state := some_test PII_PATTERNS st payload.

Definition redactPii (payload : string) : string :=
  foldl (fun out lr => replace lr.2 ("[redacted:" +:+ lr.1 +:+ "]") out) payload PII_PATTERNS.

(** ** Store *)

Record Row := {
  row_id : string; row_ts : string; row_node_id : option string; row_session : string; row_kind : string;
  row_payload : string; row_pii_flagged : bool; row_processed : bool }.

Definition kind_string (k : EventKind) : string :=
  match k with
  | correction => "correction" | retry => "retry" | tool_failure => "tool_failure"
  | outcome => "outcome" | observation => "observation" | unchecked s => s
  end.
(** [r.kind as EventKind] *)
Definition kind_cast (s : string) : EventKind :=
  if String.eqb s "correction" then correction else if String.eqb s "retry" then retry
  else if String.eqb s "tool_failure" then tool_failure else if String.eqb s "outcome" then outcome
  else if String.eqb s "observation" then observation else unchecked s.

Definition fromRow (r : Row) : EventRecord :=
  {| ev_id := row_id r; ev_ts := row_ts r; ev_nodeId := row_node_id r; ev_session := row_session r;
     ev_kind := kind_cast (row_kind r); ev_payload := row_payload r; ev_piiFlagged := row_pii_flagged r;
     ev_processed := row_processed r |}.

(** The table, and the state of the module's expressions. *)
Record EventStore := { rows : list Row; pii : pii_state }.

Definition eventId (i : CaptureInput) : string :=
  "evt-" +:+ toString36 (fnv1a (ci_session i +:+ "|" +:+ kind_string (ci_kind i) +:+ "|" +:+ ci_payload i +:+
    "|" +:+ default "" (ci_ts i))).

(** [INSERT OR IGNORE]: the table, and whether a row was added. *)
Definition insert_or_ignore (l : list Row) (r : Row) : list Row * bool :=
  if bool_decide (row_id r ∈ row_id <$> l) then (l, false) else (l ++ [r], true).

Definition get (l : list Row) (id : string) : option EventRecord :=
  fromRow <$> find (fun r => String.eqb (row_id r) id) l.

(** [now] is [new Date().toISOString()]. *)
Definition capture (now : string) (s : EventStore) (i : CaptureInput) : EventRecord * EventStore :=
  let '(flagged, st) := detectPii (pii s) (ci_payload i) in
  let rec_ := {| ev_id := eventId i; ev_ts := default now (ci_ts i); ev_nodeId := ci_nodeId i;
                 ev_session := ci_session i; ev_kind := ci_kind i; ev_payload := ci_payload i;
                 ev_piiFlagged := flagged; ev_processed := false |} in
  let row := {| row_id := ev_id rec_; row_ts := ev_ts rec_; row_node_id := ev_nodeId rec_;
                row_session := ev_session rec_; row_kind := kind_string (ev_kind rec_);
                row_payload := ev_payload rec_; row_pii_flagged := flagged; row_processed := false |} in
  let l := (insert_or_ignore (rows s) row).1 in
  (default rec_ (get l (ev_id rec_)), {| rows := l; pii := st |}).

(** One input with its capture time after the other. *)
Fixpoint captureMany (s : EventStore) (inputs : list (string * CaptureInput)) : list EventRecord * EventStore :=
  match inputs with
  | [] => ([], s)
  | (now, i) :: inputs =>
      let '(r, s) := capture now s i in
      let '(rs, s) := captureMany s inputs in (r :: rs, s)
  end.

(** [ORDER BY ts, id] *)
Definition row_le (a b : Row) : bool :=
  match String.compare (row_ts a) (row_ts b) with
  | Lt => true | Gt => false
  | Eq => match String.compare (row_id a) (row_id b) with Gt => false | _ => true end
  end.
(** [LIMIT n]; a negative limit is none. *)
Definition sql_limit {A} (n : Z) (l : list A) : list A := if n <? 0 then l else take (Z.to_nat n) l.

Definition unprocessed (l : list Row) (limit : Z) : list EventRecord :=
  fromRow <$> sql_limit limit (js_sort row_le (base.filter (fun r => row_processed r = false) l)).
Definition all (l : list Row) : list EventRecord := fromRow <$> js_sort row_le l.

(** Rows without an id, kind or session are skipped. *)
Definition importable (r : Row) : bool :=
  negb (String.eqb (row_id r) "") && negb (String.eqb (row_kind r) "") && negb (String.eqb (row_session r) "").
Fixpoint importRaw (l : list Row) (new : list Row) (added : Z) : Z * list Row :=
  match new with
  | [] => (added, l)
  | r :: new =>
      if importable r then
        let '(l, b) := insert_or_ignore l r in importRaw l new (if b then added + 1 else added)
      else importRaw l new added
  end.

Definition set_processed (r : Row) : Row :=
  {| row_id := row_id r; row_ts := row_ts r; row_node_id := row_node_id r; row_session := row_session r;
     row_kind := row_kind r; row_payload := row_payload r; row_pii_flagged := row_pii_flagged r;
     row_processed := true |}.
Definition markProcessed (l : list Row) (ids : list string) : list Row :=
  foldl (fun l i => (fun r => if String.eqb (row_id r) i then set_processed r else r) <$> l) l ids.

Definition counts (l : list Row) : Z * Z :=
  (Z.of_nat (length l), Z.of_nat (length (base.filter (fun r => row_processed r = false) l))).

(** ** Facts *)

Definition ids (l : list Row) : list string := row_id <$> l.

Lemma insert_or_ignore_ids l r : NoDup (ids l) -> NoDup (ids (insert_or_ignore l r).1).
Proof.
  unfold insert_or_ignore, ids. case_bool_decide as Hin; [done|]. cbn. rewrite fmap_app.
  intros Hnd. apply NoDup_app. split; [done|]. split; [|apply NoDup_singleton].
  intros x Hx ->%list_elem_of_singleton. done.
Qed.

(** A row keeps everything but its processed flag, which is only ever raised. *)
Definition kept (r r' : Row) : Prop := r' = r \/ r' = set_processed r.
(** The table grows at the end and keeps its rows. *)
Definition grows (l l' : list Row) : Prop := exists k new, l' = k ++ new /\ Forall2 kept l k.

Lemma kept_refl l : Forall2 kept l l.
Proof. apply Forall_Forall2_diag, Forall_forall. by left. Qed.

Lemma kept_trans r1 r2 r3 : kept r1 r2 -> kept r2 r3 -> kept r1 r3.
Proof. unfold kept. intros [->| ->] [->| ->]; auto. Qed.

Lemma grows_refl l : grows l l.
Proof. exists l, []. rewrite app_nil_r. split; [done|apply kept_refl]. Qed.

Lemma Forall2_kept_trans l1 l2 l3 : Forall2 kept l1 l2 -> Forall2 kept l2 l3 -> Forall2 kept l1 l3.
Proof.
  intros H1. revert l3. induction H1 as [|r1 r2 l1 l2 Hr _ IH]; intros l3 H2; inversion H2; subst; constructor.
  - by eapply kept_trans.
  - by apply IH.
Qed.

Lemma grows_trans l1 l2 l3 : grows l1 l2 -> grows l2 l3 -> grows l1 l3.
Proof.
  intros (k1 & n1 & -> & H1) (k2 & n2 & -> & H2).
  apply Forall2_app_inv_l in H2 as (a & b & Ha & Hb & ->).
  exists a, (b ++ n2). split; [by rewrite app_assoc|]. by eapply Forall2_kept_trans.
Qed.

Lemma insert_or_ignore_grows l r : grows l (insert_or_ignore l r).1.
Proof.
  unfold insert_or_ignore. case_bool_decide; [apply grows_refl|]. exists l, [r].
  split; [done|apply kept_refl].
Qed.

Lemma importRaw_ok new : forall l added, NoDup (ids l) ->
  NoDup (ids (importRaw l new added).2) /\ grows l (importRaw l new added).2.
Proof.
  induction new as [|r new IH]; intros l added Hnd; cbn; [split; [done|apply grows_refl]|].
  destruct (importable r); [|by apply IH].
  pose proof (insert_or_ignore_ids l r Hnd) as Hnd'. pose proof (insert_or_ignore_grows l r) as Hg.
  destruct (insert_or_ignore l r) as [l' b]. cbn in *. destruct (IH l' (if b then added + 1 else added) Hnd').
  split; [done|]. by eapply grows_trans.
Qed.

Lemma markProcessed_kept is_ : forall l, Forall2 kept l (markProcessed l is_).
Proof.
  unfold markProcessed. induction is_ as [|i is_ IH]; intros l; cbn [foldl]; [apply kept_refl|].
  eapply Forall2_kept_trans; [|apply IH]. apply Forall2_fmap_r, Forall_Forall2_diag, Forall_forall.
  intros r _. cbn. destruct (String.eqb (row_id r) i); [by right|by left].
Qed.

Lemma kept_ids l l' : Forall2 kept l l' -> ids l' = ids l.
Proof. unfold ids. induction 1 as [|r r' l l' [->| ->] _ IH]; cbn; [done|..]; by rewrite IH. Qed.

(** What the capture API, a cross-node import and the curator do to the table. *)
Inductive store_op :=
  | Capture (now : string) (i : CaptureInput)
  | Import (new : list Row)
  | Mark (is_ : list string).
Definition run_op (s : EventStore) (o : store_op) : EventStore :=
  match o with
  | Capture now i => (capture now s i).2
  | Import new => {| rows := (importRaw (rows s) new 0).2; pii := pii s |}
  | Mark is_ => {| rows := markProcessed (rows s) is_; pii := pii s |}
  end.

Lemma capture_rows now s i : rows (capture now s i).2 =
  (insert_or_ignore (rows s)
     {| row_id := eventId i; row_ts := default now (ci_ts i); row_node_id := ci_nodeId i;
        row_session := ci_session i; row_kind := kind_string (ci_kind i); row_payload := ci_payload i;
        row_pii_flagged := (detectPii (pii s) (ci_payload i)).1; row_processed := false |}).1.
Proof. unfold capture. by destruct (detectPii (pii s) (ci_payload i)). Qed.

Lemma run_op_ok s o : NoDup (ids (rows s)) ->
  NoDup (ids (rows (run_op s o))) /\ grows (rows s) (rows (run_op s o)).
Proof.
  intros Hnd. destruct o; cbn [run_op rows].
  - rewrite capture_rows. split; [by apply insert_or_ignore_ids|apply insert_or_ignore_grows].
  - by apply importRaw_ok.
  - pose proof (markProcessed_kept is_ (rows s)) as Hk. split.
    + by rewrite (kept_ids _ _ Hk).
    + exists (markProcessed (rows s) is_), []. by rewrite app_nil_r.
Qed.

(** The capture stream is append-only.  Starting from a store with distinct event ids, any sequence
    of captures, imports and processed marks keeps the ids distinct, keeps every stored event at its
    place with all its content, and only ever raises the processed flag. *)
Theorem store_append_only s ops : NoDup (ids (rows s)) ->
  let s' := foldl run_op s ops in NoDup (ids (rows s')) /\ grows (rows s) (rows s').
Proof.
  revert s. induction ops as [|o ops IH]; intros s Hnd; cbn [foldl]; [split; [done|apply grows_refl]|].
  destruct (run_op_ok s o Hnd) as [Hnd' Hg]. destruct (IH _ Hnd') as [Hnd2 Hg2].
  split; [done|]. by eapply grows_trans.
Qed.

Lemma get_in l r : NoDup (ids l) -> r ∈ l -> get l (row_id r) = Some (fromRow r).
Proof.
  intros Hnd Hin. unfold get. apply list_elem_of_lookup in Hin as [k Hk].
  revert k Hk Hnd. induction l as [|r0 l IH]; intros [|k] Hk Hnd; cbn in *; try done.
  - injection Hk as ->. by rewrite String.eqb_refl.
  - apply NoDup_cons in Hnd as [Hni Hnd]. destruct (String.eqb (row_id r0) (row_id r)) eqn:E; [|by eapply IH].
    apply String.eqb_eq in E. exfalso. apply Hni. rewrite E.
    apply list_elem_of_fmap_2. by eapply list_elem_of_lookup_2.
Qed.

Lemma get_present l i : i ∈ ids l -> is_Some (get l i).
Proof.
  intros Hin. unfold get. apply list_elem_of_fmap_1 in Hin as (r & -> & Hr). apply fmap_is_Some.
  destruct (find _ l) eqn:E; [done|]. rewrite find_None in E. specialize (E r Hr). cbn in E.
  by rewrite String.eqb_refl in E.
Qed.

(** Capture is idempotent in the event's content, not in its time.  Capturing an input a second
    time, at any later time, changes no row and returns the record of the first capture.  For inputs
    without an explicit timestamp this means that a recurrence of the same event is not recorded,
    although it happened at a different time. *)
Theorem capture_idempotent now now' s i :
  let '(r1, s1) := capture now s i in
  let '(r2, s2) := capture now' s1 i in
  rows s2 = rows s1 /\ r2 = r1 /\ eventId i ∈ ids (rows s1).
Proof.
  destruct (capture now s i) as [r1 s1] eqn:E1. destruct (capture now' s1 i) as [r2 s2] eqn:E2.
  pose proof (capture_rows now s i) as R1. pose proof (capture_rows now' s1 i) as R2. rewrite E1 in R1. rewrite E2 in R2.
  cbn [snd] in R1, R2.
  assert (eventId i ∈ ids (rows s1)) as Hin.
  { rewrite R1. unfold insert_or_ignore. case_bool_decide as Hb; [done|]. cbn. unfold ids.
    rewrite fmap_app, elem_of_app. right. by left. }
  assert (rows s2 = rows s1) as Hrows.
  { rewrite R2. unfold insert_or_ignore. by rewrite bool_decide_eq_true_2. }
  split; [done|]. split; [|done].
  assert (forall now s r s', capture now s i = (r, s') -> is_Some (get (rows s') (eventId i)) ->
            Some r = get (rows s') (eventId i)) as Hrec.
  { intros n0 s0 r s' Hc [e He]. unfold capture in Hc. destruct (detectPii (pii s0) (ci_payload i)).
    injection Hc as <- <-. cbn [rows ev_id] in *. by rewrite He. }
  pose proof (get_present _ _ Hin) as Hs. pose proof (Hrec _ _ _ _ E1 Hs) as H1.
  rewrite <-Hrows in Hs. pose proof (Hrec _ _ _ _ E2 Hs) as H2. rewrite Hrows in H2. congruence.
Qed.

Lemma markProcessed_eq is_ : forall l,
  markProcessed l is_ = (fun r => if bool_decide (row_id r ∈ is_) then set_processed r else r) <$> l.
Proof.
  unfold markProcessed. induction is_ as [|i is_ IH]; intros l; cbn [foldl].
  - rewrite <-(list_fmap_id l) at 1. apply list_fmap_ext. intros k r _. cbn.
    by rewrite bool_decide_eq_false_2 by apply not_elem_of_nil.
  - rewrite IH, <-list_fmap_compose. apply list_fmap_ext. intros k r _. cbn.
    destruct (String.eqb (row_id r) i) eqn:E; cbn.
    + apply String.eqb_eq in E as ->. rewrite (bool_decide_eq_true_2 (_ ∈ i :: _)) by left.
      by case_bool_decide.
    + apply String.eqb_neq in E. case_bool_decide as H1; case_bool_decide as H2; try done.
      * destruct H2. by right.
      * apply elem_of_cons in H2 as [?|?]; done.
Qed.

Lemma elem_of_unprocessed l e :
  e ∈ unprocessed l (-1) <-> exists r, e = fromRow r /\ r ∈ l /\ row_processed r = false.
Proof.
  unfold unprocessed. cbn. rewrite list_elem_of_fmap. setoid_rewrite js_sort_elem.
  setoid_rewrite list_elem_of_filter. naive_solver.
Qed.

Lemma row_le_total x y : row_le x y = false -> row_le y x = true.
Proof.
  unfold row_le. rewrite (String.compare_antisym (row_ts y)), (String.compare_antisym (row_id y)).
  destruct (String.compare (row_ts x) (row_ts y)); cbn; try done.
  by destruct (String.compare (row_id x) (row_id y)).
Qed.

Lemma row_le_trans x y z : row_le x y = true -> row_le y z = true -> row_le x z = true.
Proof.
  unfold row_le. destruct (String.compare (row_ts x) (row_ts y)) eqn:E1; try done;
    destruct (String.compare (row_ts y) (row_ts z)) eqn:E2; try done.
  - apply String.compare_eq_iff in E1 as ->. rewrite E2.
    pose proof (coll_trans (cmp:=String.compare) (row_id x) (row_id y) (row_id z)) as Ht.
    destruct (String.compare (row_id x) (row_id y)), (String.compare (row_id y) (row_id z)),
      (String.compare (row_id x) (row_id z)); try done; by destruct Ht.
  - apply String.compare_eq_iff in E1 as ->. by rewrite E2.
  - apply String.compare_eq_iff in E2 as <-. by rewrite E1.
  - assert (str_ltb (row_ts x) (row_ts z) = true) as Hlt.
    { apply (str_ltb_trans _ (row_ts y)); unfold str_ltb; by rewrite ?E1, ?E2. }
    unfold str_ltb in Hlt. by destruct (String.compare (row_ts x) (row_ts z)).
Qed.

(** Timestamps of a listing never decrease. *)
Definition ts_sorted (l : list EventRecord) : Prop :=
  StronglySorted (fun a b => String.compare (ev_ts a) (ev_ts b) <> Gt) l.

Lemma StronglySorted_take {A} (R : A -> A -> Prop) n l : StronglySorted R l -> StronglySorted R (take n l).
Proof.
  revert n. induction l as [|x l IH]; intros [|n] Hs; cbn; try constructor; inversion Hs; subst; auto.
  rewrite Forall_forall in *. intros y (i & Hi & _)%elem_of_take. apply H2. by eapply list_elem_of_lookup_2.
Qed.

(** Curation batches.  A batch of unprocessed events has at most the requested size and is in time
    order; once it is marked processed, the unprocessed events are exactly those that were unprocessed
    before and not in the batch, so no event is curated twice and none is skipped. *)
Theorem batch_processed_once l limit : 0 <= limit ->
  let batch := unprocessed l limit in
  let l' := markProcessed l (ev_id <$> batch) in
  (Z.of_nat (length batch) <= limit) /\ ts_sorted batch /\
  forall e, e ∈ unprocessed l' (-1) <-> e ∈ unprocessed l (-1) /\ ev_id e ∉ ev_id <$> batch.
Proof.
  intros Hlim batch l'. split_and!.
  - unfold batch, unprocessed, sql_limit. rewrite length_fmap.
    rewrite (proj2 (Z.ltb_ge limit 0)) by lia. rewrite length_take. lia.
  - unfold ts_sorted, batch, unprocessed, sql_limit. rewrite (proj2 (Z.ltb_ge limit 0)) by lia.
    apply (StronglySorted_fmap _ (fun r r' => row_le r r' = true)).
    { intros r r'. unfold row_le. cbn. by destruct (String.compare (row_ts r) (row_ts r')). }
    apply StronglySorted_take, js_sort_StronglySorted; [apply row_le_total|apply row_le_trans].
  - intros e. rewrite !elem_of_unprocessed. unfold l'. rewrite markProcessed_eq. split.
    + intros (r' & -> & Hr' & Hp). apply list_elem_of_fmap_1 in Hr' as (r & -> & Hr). revert Hp.
      case_bool_decide as Hb; [done|]. intros Hp. split; [by exists r|done].
    + intros [(r & -> & Hr & Hp) Hn]. exists r. split_and!; [done| |done].
      apply list_elem_of_fmap. exists r. split; [|done]. by rewrite bool_decide_eq_false_2.
Qed.

(** ** Concrete events *)

Definition demo_event (session : string) (payload : string) : CaptureInput :=
  {| ci_session := session; ci_kind := correction; ci_payload := payload; ci_nodeId := None;
     ci_ts := Some "2026-01-05T10:00:00.000Z" |}.
Definition empty_store : EventStore := {| rows := []; pii := fresh_pii |}.
Definition demo_mail : string := "write to ana@klijent.hr, wrong address".

Lemma store_append_only_witness :
  let s := foldl run_op empty_store [Capture "" (demo_event "a" "first"); Capture "" (demo_event "b" "second")] in
  length (rows s) = 2%nat /\ NoDup (ids (rows s)).
Proof.
  split; [vm_compute; reflexivity|].
  apply (store_append_only empty_store [Capture "" (demo_event "a" "first"); Capture "" (demo_event "b" "second")]).
  constructor.
Defined.

Lemma batch_processed_once_witness :
  let s := foldl run_op empty_store [Capture "" (demo_event "a" "first"); Capture "" (demo_event "b" "second")] in
  length (unprocessed (rows s) 1) = 1%nat /\
  forall e, e ∈ unprocessed (markProcessed (rows s) (ev_id <$> unprocessed (rows s) 1)) (-1) <->
    e ∈ unprocessed (rows s) (-1) /\ ev_id e ∉ ev_id <$> unprocessed (rows s) 1.
Proof. split; [vm_compute; reflexivity|]. apply (batch_processed_once _ 1). lia. Defined.

(** PII detection is not a function of the payload.  The expressions are global, so [test] resumes
    after the previous match: of two captures of the same payload the first is flagged and the second,
    which contains the same address, is not. *)
Theorem pii_flag_depends_on_history :
  let '(r1, s1) := capture "" empty_store (demo_event "a" demo_mail) in
  let '(r2, _) := capture "" s1 (demo_event "b" demo_mail) in
  ev_payload r1 = demo_mail /\ ev_payload r2 = demo_mail /\
  ev_piiFlagged r1 = true /\ ev_piiFlagged r2 = false.
Proof. vm_compute. done. Qed.
