(* ===== verification/Graduate.v ===== *)
(** * Saturation detector (sin-harness/loop/graduate.ts)

    The normalised pattern signature of a payload, the event ids named by [trigger:] lines of the
    knowledge repository's log, and the verdicts over the recorded events.  [Date.parse] and
    [localeCompare] are the host's; running [git log] is left to its caller. *)

From S2P Require Import Prelude JsNum HarnessTypes Canon Regex Events.

Local Open Scope string_scope.
Local Open Scope list_scope.
Local Open Scope Z_scope.

Definition SIGNAL_KINDS : list EventKind := [correction; retry; tool_failure].

(** ** Pattern signatures *)

Definition is_hexdigit (a : Ascii.ascii) : bool := is_digit a || between 97 102 a.
Definition hex (n : nat) : re := Rep (Chr is_hexdigit) n (Some n).
Definition dash : re := Chr (is_char 45).
Definition uuid_re : re :=
  Seq (hex 8) (Seq dash (Seq (hex 4) (Seq dash (Seq (hex 4) (Seq dash (Seq (hex 4) (Seq dash (hex 12)))))))).
(** [\b[0-9a-f]{16,}\b], [\d+(\.\d+)?], [[^a-z\s]] and [\s+] *)
Definition hextoken_re : re := Seq WordB (Seq (Rep (Chr is_hexdigit) 16 None) WordB).
Definition number_re : re :=
  Seq (Rep digit 1 None) (Opt (Seq (Chr (is_char 46)) (Rep digit 1 None))).
Definition other_re : re := Chr (fun a => negb (is_lower a || is_space a)).
Definition spaces_re : re := Rep (Chr is_space) 1 None.

Definition patternKeyOf (payload : string) : string :=
  let s := toLowerCase (redactPii payload) in
  let s := replace uuid_re " " s in
  let s := replace hextoken_re " " s in
  let s := replace number_re " " s in
  let s := replace other_re " " s in
  let s := replace spaces_re " " s in
  take_chars 120 (trim s).

(** ** Provenance *)

(** [tok] of [s.split(/[\s,]+/)], empty tokens left out *)
Fixpoint tokens (s : string) (cur : string) : list string :=
  match s with
  | EmptyString => if String.eqb cur "" then [] else [rev_string cur ""]
  | String a s =>
      if is_space a || is_char 44 a then
        if String.eqb cur "" then tokens s "" else rev_string cur "" :: tokens s ""
      else tokens s (String a cur)
  end.

Definition is_newline (a : Ascii.ascii) : bool := is_char 10 a || is_char 13 a.
(** [(.+)$]: up to the end of the line *)
Fixpoint line_of (s : string) : string :=
  match s with String a t => if is_newline a then "" else String a (line_of t) | EmptyString => "" end.
Fixpoint skip (n : nat) (s : string) : string :=
  match n, s with S n, String _ s => skip n s | _, _ => s end.

(** [/^trigger:\s*(.+)$/gm]: at a line start, the white space after the colon (line breaks included)
    is skipped, and the rest of the line reached is captured. *)
Fixpoint trigger_ids (fuel : nat) (at_start : bool) (s : string) : list string :=
  match fuel, s with
  | S fuel, String a t =>
      if at_start && String.prefix "trigger:" s then
        let rest := trim_left (skip 8 s) in
        let line := line_of rest in
        tokens line "" ++ trigger_ids fuel false (skip (String.length line) rest)
      else trigger_ids fuel (is_newline a) t
  | _, _ => []
  end.

(** [log] is the output of [git log --format=%B]; [None] when there is no repository or git fails. *)
Definition provenanceTriggeredEventIds (log : option string) : list string :=
  match log with Some out => trigger_ids (S (String.length out)) true out | None => [] end.

(** ** Verdicts *)

Record GraduateOptions := {
  minOccurrences : option Z; minSpanDays : option num; knowledgeLog : option (option string) }.

Section graduate.
Context (Date_parse : string -> num) (localeCompare : string -> string -> comparison).

Definition daysBetween (isoA isoB : string) : num :=
  num_abs (num_div (num_sub (Date_parse isoB) (Date_parse isoA)) (num_of_Z (24 * 60 * 60 * 1000))).

Definition is_signal (ev : EventRecord) : bool := bool_decide (ev_kind ev ∈ SIGNAL_KINDS).

(** The group an event goes to, when neither [continue] applies. *)
Definition pattern_of (ev : EventRecord) : option string :=
  if negb (is_signal ev) then None
  else let key := patternKeyOf (ev_payload ev) in if String.eqb key "" then None else Some key.

Definition group_events (events : list EventRecord) : list (string * list EventRecord) := group_by pattern_of events.

Definition skill_tried (triggered : option (list string)) (sorted : list EventRecord) : bool :=
  match triggered with
  | Some t => existsb (fun ev => bool_decide (ev_id ev ∈ t)) sorted
  | None => false
  end.

Definition verdict_of (minOcc : Z) (minSpan : num) (triggered : option (list string))
    (kg : string * list EventRecord) : SaturationVerdict :=
  let sorted := js_sort (by_key localeCompare ev_ts) kg.2 in
  let firstSeen := default "" (ev_ts <$> head sorted) in
  let lastSeen := default "" (ev_ts <$> last sorted) in
  let occurrences := Z.of_nat (length sorted) in
  let spanDays := daysBetween firstSeen lastSeen in
  let textSkillTried := skill_tried triggered sorted in
  let reason :=
    if occurrences <? minOcc then Some below_threshold
    else if num_ltb spanDays minSpan then Some burst_not_recurring
    else if negb textSkillTried then Some text_path_not_exhausted
    else None in
  {| sv_patternKey := kg.1; sv_occurrences := occurrences; sv_firstSeen := firstSeen;
     sv_lastSeen := lastSeen; sv_spanDays := spanDays; sv_textSkillTried := textSkillTried;
     sv_saturated := match reason with None => true | Some _ => false end; sv_reason := reason |}.

(** [verdicts.sort((a, b) => b.occurrences - a.occurrences)] *)
Definition more_frequent (a b : SaturationVerdict) : bool := sv_occurrences b <=? sv_occurrences a.

Definition detectSaturatedPatterns (events : list EventRecord) (opts : GraduateOptions) : list SaturationVerdict :=
  let minOcc := default 20 (minOccurrences opts) in
  let minSpan := default (num_of_Z 7) (minSpanDays opts) in
  let triggered := provenanceTriggeredEventIds <$> knowledgeLog opts in
  js_sort more_frequent (verdict_of minOcc minSpan triggered <$> group_events events).

(** Reference: the events of a pattern. *)
Definition occurrences_of (key : string) (events : list EventRecord) : list EventRecord := members pattern_of key events.

(** ** Properties *)

Lemma StronglySorted_weaken {A} (R R' : A -> A -> Prop) l :
  (forall a b, R a b -> R' a b) -> StronglySorted R l -> StronglySorted R' l.
Proof. intros HR. induction 1; constructor; eauto using Forall_impl. Qed.

Lemma sorted_head {A} (R : A -> A -> Prop) l x : StronglySorted R l -> head l = Some x ->
  forall y, y ∈ l -> y = x \/ R x y.
Proof.
  destruct 1 as [|z l _ Hz]; [done|]. cbn. intros [= ->] y [->|Hy]%elem_of_cons; [by left|].
  right. rewrite Forall_forall in Hz. auto.
Qed.

Lemma sorted_last {A} (R : A -> A -> Prop) l x : StronglySorted R l -> last l = Some x ->
  forall y, y ∈ l -> y = x \/ R y x.
Proof.
  intros Hs. revert x. induction Hs as [|z l Hs IH Hz]; intros x Hl y; [done|].
  rewrite Forall_forall in Hz. rewrite last_cons in Hl. intros Hy%elem_of_cons.
  destruct (last l) as [w|] eqn:E.
  - injection Hl as ->. destruct Hy as [->|Hy]; [|by apply IH]. right. apply Hz.
    apply last_Some in E as [l' ->]. apply elem_of_app. right. by left.
  - injection Hl as ->. apply last_None in E as ->. destruct Hy as [->|Hy%elem_of_nil]; [by left|done].
Qed.

(** The first and the last of the events of a pattern by timestamp. *)
Definition earliest (ts : string) (evs : list EventRecord) : Prop :=
  ts ∈ ev_ts <$> evs /\ forall ev, ev ∈ evs -> localeCompare ts (ev_ts ev) <> Gt.
Definition latest (ts : string) (evs : list EventRecord) : Prop :=
  ts ∈ ev_ts <$> evs /\ forall ev, ev ∈ evs -> localeCompare (ev_ts ev) ts <> Gt.

Context `{!Collation localeCompare}.

Lemma coll_refl a : localeCompare a a <> Gt.
Proof. pose proof (coll_antisym (cmp:=localeCompare) a a). by destruct (localeCompare a a). Qed.

Lemma seen_bounds evs (sorted := js_sort (by_key localeCompare ev_ts) evs) : evs <> [] ->
  earliest (default "" (ev_ts <$> head sorted)) evs /\ latest (default "" (ev_ts <$> last sorted)) evs.
Proof using Type*.
  intros Hne. pose proof (by_key_sorted localeCompare ev_ts evs) as Hs. fold sorted in Hs.
  assert (forall ev, ev ∈ sorted <-> ev ∈ evs) as Hin by (intros; apply js_sort_elem).
  assert (sorted <> []) as Hsne.
  { intros E. apply Hne. apply length_zero_iff_nil. rewrite <-(js_sort_length (by_key localeCompare ev_ts)).
    fold sorted. by rewrite E. }
  destruct (head sorted) as [x|] eqn:Eh; [|by destruct sorted].
  destruct (last sorted) as [y|] eqn:El; [|by apply last_None in El].
  cbn. split; split.
  - apply list_elem_of_fmap_2, Hin. destruct sorted; [done|]. injection Eh as ->. left.
  - intros ev Hev%Hin. destruct (sorted_head _ _ _ Hs Eh ev Hev) as [->|Hr]; [apply coll_refl|].
    by apply by_key_true in Hr.
  - apply list_elem_of_fmap_2, Hin. apply last_Some in El as [l ->]. apply elem_of_app. right. by left.
  - intros ev Hev%Hin. destruct (sorted_last _ _ _ Hs El ev Hev) as [->|Hr]; [apply coll_refl|].
    by apply by_key_true in Hr.
Qed.

Lemma detect_elem events opts v : v ∈ detectSaturatedPatterns events opts ->
  exists kg, kg ∈ group_events events /\
    v = verdict_of (default 20 (minOccurrences opts)) (default (num_of_Z 7) (minSpanDays opts))
          (provenanceTriggeredEventIds <$> knowledgeLog opts) kg.
Proof.
  unfold detectSaturatedPatterns. rewrite js_sort_elem.
  intros (kg & -> & Hin)%list_elem_of_fmap_1. by exists kg.
Qed.

Lemma tried_spec (triggered : option (list string)) (evs : list EventRecord) :
  skill_tried triggered (js_sort (by_key localeCompare ev_ts) evs) = true <->
  exists t ev, triggered = Some t /\ ev ∈ evs /\ ev_id ev ∈ t.
Proof.
  unfold skill_tried. destruct triggered as [t|]; [|naive_solver]. rewrite existsb_exists. split.
  - intros (ev & Hin & Hb). bool_to_prop. apply list_elem_of_In, js_sort_elem in Hin. eauto.
  - intros (t' & ev & [= <-] & Hin & Hb). exists ev. split; [|by apply bool_decide_eq_true].
    by apply list_elem_of_In, js_sort_elem.
Qed.

(** The verdicts are exactly what the graduation policy says.  Every pattern that some
    failure-signal event has gets one verdict, most frequent first; a verdict counts exactly the events
    of its pattern and gives their first and last timestamps; it is saturated if and only if the count
    reaches the minimum, the span is not below the minimum and one of the events was already named as
    the trigger of a text skill; otherwise it carries a reason. *)
Theorem saturation_verdicts events opts :
  let vs := detectSaturatedPatterns events opts in
  NoDup (sv_patternKey <$> vs) /\
  (forall key, key ∈ sv_patternKey <$> vs <-> occurrences_of key events <> []) /\
  StronglySorted (fun a b => sv_occurrences b <= sv_occurrences a) vs /\
  forall v, v ∈ vs ->
    let evs := occurrences_of (sv_patternKey v) events in
    sv_occurrences v = Z.of_nat (length evs) /\
    earliest (sv_firstSeen v) evs /\ latest (sv_lastSeen v) evs /\
    (sv_saturated v = true <->
       default 20 (minOccurrences opts) <= sv_occurrences v /\
       num_ltb (daysBetween (sv_firstSeen v) (sv_lastSeen v)) (default (num_of_Z 7) (minSpanDays opts)) = false /\
       exists log ev, knowledgeLog opts = Some log /\ ev ∈ evs /\ ev_id ev ∈ provenanceTriggeredEventIds log) /\
    (sv_saturated v = false <-> is_Some (sv_reason v)).
Proof using Type*.
  intros vs.
  destruct (group_by_grouped pattern_of events) as (Hnd & Hk & Hall). fold (group_events events) in Hnd, Hk, Hall.
  assert (sv_patternKey <$> vs ≡ₚ (group_events events).*1) as Hperm.
  { unfold vs, detectSaturatedPatterns. rewrite js_sort_perm, <-list_fmap_compose. done. }
  split; [by rewrite Hperm|]. split; [intros key; by rewrite Hperm, Hk|]. split.
  { unfold vs, detectSaturatedPatterns.
    eapply (StronglySorted_weaken (fun a b => more_frequent a b = true)); [intros a b; apply Z.leb_le|].
    apply js_sort_StronglySorted.
    - intros a b. unfold more_frequent. rewrite Z.leb_gt, Z.leb_le. lia.
    - intros a b c. unfold more_frequent. rewrite !Z.leb_le. lia. }
  intros v (kg & Hin & ->)%detect_elem evs. rewrite Forall_forall in Hall. pose proof (Hall _ Hin) as Hkg.
  assert (evs = kg.2) as He by (unfold evs; by rewrite Hkg).
  assert (kg.2 <> []) as Hne by (rewrite Hkg; apply Hk; by apply list_elem_of_fmap_2).
  destruct (seen_bounds kg.2 Hne) as [Hfirst Hlast]. rewrite He.
  pose proof (tried_spec (provenanceTriggeredEventIds <$> knowledgeLog opts) kg.2) as Ht.
  unfold verdict_of. cbn [sv_occurrences sv_firstSeen sv_lastSeen sv_saturated sv_reason].
  rewrite js_sort_length. split_and!; [done|done|done| |].
  - set (tried := skill_tried _ _) in *.
    destruct (_ <? _) eqn:E1; [bool_to_prop; split; [done|]; intros (? & _); lia|].
    destruct (num_ltb _ _) eqn:E2; [split; [done|]; intros (_ & ? & _); done|]. bool_to_prop.
    destruct tried; cbn [negb]; (split; [|]).
    + intros _. split_and!; [lia|done|]. destruct (proj1 Ht eq_refl) as (t & ev & Hlog & Hev & Hid).
      apply fmap_Some in Hlog as (log & Hlog & ->). eauto.
    + done.
    + done.
    + intros (_ & _ & log & ev & Hlog & Hev & Hid). apply Ht. rewrite Hlog. eexists _, ev. by split_and!.
  - repeat (case_match; try (by split; eauto)).
Qed.

(** The span test lets unparseable times through.  A pattern whose timestamps [Date.parse] rejects
    (imported rows are not validated) has a span that is not a number, and no such span is below any
    minimum: with enough events and a triggered id it is reported saturated although nothing shows that
    it recurred over days. *)
Theorem unparseable_time_passes_span_check minSpan a b :
  Date_parse a = num_nan -> num_ltb (daysBetween a b) minSpan = false.
Proof. intros Ha. unfold daysBetween. rewrite Ha. by destruct (Date_parse b). Qed.
End graduate.

(** ** The signature reveals no digits or punctuation *)

Definition key_char (a : Ascii.ascii) : bool := is_lower a || is_char 32 a.

Lemma all_chars_rev P s acc : all_chars P s = true -> all_chars P acc = true -> all_chars P (rev_string s acc) = true.
Proof.
  revert acc. induction s as [|a s IH]; intros acc; cbn; [done|].
  intros [Ha Hs]%andb_true_iff Hacc. apply IH; [done|]. cbn. by rewrite Ha.
Qed.

Lemma all_chars_trim_left P s : all_chars P s = true -> all_chars P (trim_left s) = true.
Proof.
  induction s as [|a s IH]; cbn; [done|]. intros [Ha Hs]%andb_true_iff.
  destruct (is_space a); [by apply IH|]. cbn. by rewrite Ha.
Qed.

Lemma all_chars_trim P s : all_chars P s = true -> all_chars P (trim s) = true.
Proof. intros Hs. unfold trim. auto using all_chars_rev, all_chars_trim_left. Qed.

Lemma all_chars_take P n : forall s, all_chars P s = true -> all_chars P (take_chars n s) = true.
Proof.
  unfold take_chars. induction n as [|n IH]; intros [|a s]; cbn; try done.
  intros [Ha Hs]%andb_true_iff. rewrite Ha. by apply IH.
Qed.

Lemma length_take_chars n : forall s, (String.length (take_chars n s) <= n)%nat.
Proof.
  unfold take_chars. induction n as [|n IH]; intros [|a s]; cbn; try lia. specialize (IH s). lia.
Qed.

Lemma all_chars_true s : all_chars (fun _ => true) s = true.
Proof. by induction s. Qed.

(** A pattern signature is anonymous.  Whatever the payload, its key consists of lower-case ASCII
    letters and blanks only and is at most 120 characters long: no digit, address sign or other
    punctuation of the payload reaches the verdicts. *)
Theorem patternKey_alphabet payload :
  all_chars key_char (patternKeyOf payload) = true /\ (String.length (patternKeyOf payload) <= 120)%nat.
Proof.
  unfold patternKeyOf. split; [|apply length_take_chars]. apply all_chars_take, all_chars_trim.
  generalize (replace number_re " " (replace hextoken_re " " (replace uuid_re " " (toLowerCase (redactPii payload))))).
  intros s. apply (replace_from_chars (fun a => is_lower a || is_space a)).
  - apply (replace_from_chars (fun _ => true)); [apply all_chars_true|done| |].
    + intros prev a t Hm _. unfold other_re in Hm. rewrite match_chr in Hm.
      by destruct (is_lower a || is_space a).
    + intros prev t q. unfold other_re. rewrite match_chr. destruct t as [|a t]; [done|].
      case_match; [|done]. intros [= <-]. apply Nat.ltb_lt. cbn. lia.
  - done.
  - intros prev a t Hm%match_plus_none Hq. rewrite Hm in Hq. unfold key_char.
    by apply orb_true_iff in Hq as [->|?].
  - apply match_plus_some.
Qed.

(** ** Concrete verdicts *)

Definition demo_record (i ts payload : string) : EventRecord :=
  {| ev_id := i; ev_ts := ts; ev_nodeId := None; ev_session := "s"; ev_kind := tool_failure; ev_payload := payload;
     ev_piiFlagged := false; ev_processed := false |}.
Definition demo_events : list EventRecord :=
  [demo_record "e1" "2026-01-01" "Timeout after 3000ms"; demo_record "e2" "2026-01-20" "timeout after 42ms";
   demo_record "e3" "2026-01-02" "disk full"].
Definition demo_opts : GraduateOptions :=
  {| minOccurrences := Some 2; minSpanDays := None; knowledgeLog := Some (Some "add skill

trigger: e1, e9") |}.
(** Days of January 2026 as milliseconds. *)
Definition demo_parse (s : string) : num :=
  if String.eqb s "2026-01-01" then num_of_Z 0 else if String.eqb s "2026-01-20" then num_of_Z 1641600000 else num_nan.

Lemma saturation_verdicts_witness :
  let vs := detectSaturatedPatterns demo_parse String.compare demo_events demo_opts in
  (sv_patternKey <$> vs) = ["timeout after ms"; "disk full"] /\ (sv_saturated <$> vs) = [true; false] /\
  NoDup (sv_patternKey <$> vs).
Proof.
  split; [vm_compute; reflexivity|]. split; [vm_compute; reflexivity|].
  apply (saturation_verdicts demo_parse String.compare demo_events demo_opts).
Defined.

Lemma unparseable_time_passes_span_check_witness :
  num_ltb (daysBetween demo_parse "not a time" "2026-01-20") (num_of_Z 7) = false.
Proof. apply (unparseable_time_passes_span_check demo_parse). vm_compute. reflexivity. Defined.
