(* ===== verification/Curate.v ===== *)
(** * Curation (sin-harness/loop/curate.ts)

    The judge pass over unprocessed events.  The model endpoint is a parameter: [chat] answers a
    request with a text or throws, and may answer anything.  The store is that of [Events]. *)

From S2P Require Import Prelude JsNum Json HarnessTypes Canon Mock Regex Events.

Local Open Scope string_scope.
Local Open Scope list_scope.
Local Open Scope Z_scope.

Record JudgeVerdict := { jv_signal : bool; jv_skillCandidate : bool; jv_reason : string; jv_judged : bool }.

Definition dq : string := dquote.
Definition JUDGE_SYSTEM : string :=
  "You are a strict data curator for an AI agent's event log. Classify each " +:+
  "event. Respond with ONLY minified JSON: " +:+
  "{" +:+ dq +:+ "signal" +:+ dq +:+ ": <boolean>, " +:+ dq +:+ "skill_candidate" +:+ dq +:+ ": <boolean>, " +:+
  dq +:+ "reason" +:+ dq +:+ ": " +:+ dq +:+ "<short reason>" +:+ dq +:+ "} " +:+
  dq +:+ "signal" +:+ dq +:+ "=true means the event carries reusable operational lesson, not chatter.".

(** [s.includes(t)] *)
Fixpoint includes (s t : string) : bool :=
  String.prefix t s || match s with EmptyString => false | String _ s => includes s t end.

(** [/error|fail|wrong|incorrect|broken|crash|timeout|fix|should have/] *)
Definition failure_words : list string :=
  ["error"; "fail"; "wrong"; "incorrect"; "broken"; "crash"; "timeout"; "fix"; "should have"].

Definition fallbackVerdict (ev : EventRecord) : JudgeVerdict :=
  let p := toLowerCase (ev_payload ev) in
  let failureShaped := existsb (includes p) failure_words in
  let signalByKind := match ev_kind ev with correction | retry | tool_failure => true | _ => false end in
  let is_observation := match ev_kind ev with observation => true | _ => false end in
  let signal := signalByKind || (is_observation && failureShaped) in
  {| jv_signal := signal; jv_skillCandidate := signal && negb is_observation;
     jv_reason := "fallback(" +:+ kind_string (ev_kind ev) +:+ (if failureShaped then "+failure-shaped" else "") +:+ ")";
     jv_judged := false |}.

(** [s.replace(/\s+/g, " ").trim()] cut to [max] characters; the ellipsis is its UTF-8 text. *)
Definition excerpt (s : string) : string :=
  let oneLine := trim (replace (Rep (Chr is_space) 1 None) " " s) in
  if (String.length oneLine <=? 140)%nat then oneLine else take_chars 139 oneLine +:+ "…".

Section curate.
Context `{JsonText} (chat : list ChatMsg -> ChatOptions -> result string string).

Definition judge_messages (ev : EventRecord) : list ChatMsg :=
  [{| cm_role := system; cm_content := JUDGE_SYSTEM |};
   {| cm_role := user;
      cm_content := stringify (JObj [("kind", JStr (kind_string (ev_kind ev))); ("session", JStr (ev_session ev));
        ("payload", JStr (take_chars 600 (redactPii (ev_payload ev))))]) |}].

Definition judge_options : ChatOptions :=
  {| co_seed := Some 7; co_temperature := None; co_maxTokens := None; co_cachePrompt := None |}.

(** The model's verdict, when its answer is a JSON object with the two booleans. *)
Definition model_verdict (raw : string) : option JudgeVerdict :=
  match extractJson raw with
  | Some parsed =>
      match as_bool (jget parsed "signal"), as_bool (jget parsed "skill_candidate") with
      | Some signal, Some cand =>
          Some {| jv_signal := signal; jv_skillCandidate := cand;
                  jv_reason := match as_str (jget parsed "reason") with Some r => take_chars 200 r | None => "judged" end;
                  jv_judged := true |}
      | _, _ => None
      end
  | None => None
  end.

Definition judgeEvent (ev : EventRecord) : JudgeVerdict :=
  match chat (judge_messages ev) judge_options with
  | Ok raw =>
      match model_verdict raw with
      | Some verdict =>
          let fb := fallbackVerdict ev in
          if jv_signal fb && negb (jv_signal verdict) then
            {| jv_signal := jv_signal fb; jv_skillCandidate := jv_skillCandidate fb;
               jv_reason := "override:" +:+ jv_reason verdict; jv_judged := jv_judged fb |}
          else verdict
      | None => fallbackVerdict ev
      end
  | Err _ => fallbackVerdict ev
  end.

(** [bySession]: the session of an event the judge lets through *)
Definition session_of (ev : EventRecord) : option string :=
  if jv_signal (judgeEvent ev) then Some (ev_session ev) else None.
Definition group_batch (batch : list EventRecord) : list (string * list EventRecord) := group_by session_of batch.

(** One line of a summary; [detectPii] is only called on unflagged events. *)
Definition summary_line (st : pii_state) (e : EventRecord) : string * pii_state :=
  let '(isPii, st) := if ev_piiFlagged e then (true, st) else detectPii st (ev_payload e) in
  let src := if (isPii : bool) then redactPii (ev_payload e) else ev_payload e in
  ("- [" +:+ kind_string (ev_kind e) +:+ "] " +:+ excerpt src, st).
Fixpoint summary_lines (st : pii_state) (l : list EventRecord) : list string * pii_state :=
  match l with
  | [] => ([], st)
  | e :: l => let '(x, st) := summary_line st e in let '(xs, st) := summary_lines st l in (x :: xs, st)
  end.

Definition newline : string := String (Ascii.ascii_of_nat 10) EmptyString.

Definition summarize (st : pii_state) (events : list EventRecord) : string * pii_state :=
  let kinds := join "+" (dedup (kind_string ∘ ev_kind <$> events)) in
  let '(lines, st) := summary_lines st (take 5 events) in
  ("Recurring " +:+ kinds +:+ " pattern in session(s); lessons:" +:+ newline +:+ join newline lines, st).

Definition candidate (st : pii_state) (se : string * list EventRecord) : SkillCandidate * pii_state :=
  let '(session, events) := se in
  let eventIds := ev_id <$> events in
  let '(summary, st) := summarize st events in
  ({| sc_id := "cand-" +:+ toString36 (fnv1a (session +:+ "|" +:+ join "," eventIds));
      sc_eventIds := eventIds; sc_summary := "[session:" +:+ session +:+ "] " +:+ summary;
      sc_kind := if (2 <=? length events)%nat then skill else memory |}, st).
Fixpoint candidates (st : pii_state) (l : list (string * list EventRecord)) : list SkillCandidate * pii_state :=
  match l with
  | [] => ([], st)
  | se :: l => let '(c, st) := candidate st se in let '(cs, st) := candidates st l in (c :: cs, st)
  end.

Definition curateUnprocessed (s : EventStore) (batchSize : option Z) : list SkillCandidate * EventStore :=
  let batch := unprocessed (rows s) (default 500 batchSize) in
  match batch with
  | [] => ([], s)
  | _ =>
      let '(cs, st) := candidates (pii s) (js_sort (by_key String.compare fst) (group_batch batch)) in
      (cs, {| rows := markProcessed (rows s) (ev_id <$> batch); pii := st |})
  end.

(** ** Properties *)

Lemma judge_never_silences ev : jv_signal (fallbackVerdict ev) = true -> jv_signal (judgeEvent ev) = true.
Proof.
  intros Hf. unfold judgeEvent. destruct (chat _ _) as [raw|]; [|done].
  destruct (model_verdict raw) as [v|]; [|done]. rewrite Hf. by destruct (jv_signal v) eqn:E.
Qed.

Lemma candidates_spec l : forall st,
  Forall2 (fun se c => sc_eventIds c = ev_id <$> se.2 /\
                       sc_kind c = (if (2 <=? length se.2)%nat then skill else memory)) l (candidates st l).1.
Proof.
  induction l as [|[k evs] l IH]; intros st; cbn [candidates]; [constructor|]. unfold candidate.
  destruct (summarize st evs) as [sm st1]. specialize (IH st1). destruct (candidates st1 l) as [cs st2].
  cbn in *. by constructor.
Qed.

Lemma curate_eq s size : let batch := unprocessed (rows s) (default 500 size) in batch <> [] ->
  curateUnprocessed s size =
  ((candidates (pii s) (js_sort (by_key String.compare fst) (group_batch batch))).1,
   {| rows := markProcessed (rows s) (ev_id <$> batch);
      pii := (candidates (pii s) (js_sort (by_key String.compare fst) (group_batch batch))).2 |}).
Proof.
  intros batch Hne. unfold curateUnprocessed. fold batch. destruct batch; [done|].
  by destruct (candidates _ _).
Qed.

(** C31: curation loses no failure signal to the model.  Whatever the endpoint answers, or if it throws:
    every event of the batch that the deterministic rules classify as a signal is in some candidate, an
    event is in a candidate only if it is in the batch and the judge let it through, each candidate holds
    the events of one session in order and is a skill exactly if it has at least two; the whole batch,
    and nothing else, is marked processed. *)
Theorem curation_never_silenced s size :
  let batch := unprocessed (rows s) (default 500 size) in
  let '(cs, s') := curateUnprocessed s size in
  (forall ev, ev ∈ batch -> jv_signal (fallbackVerdict ev) = true ->
     exists c, c ∈ cs /\ ev_id ev ∈ sc_eventIds c) /\
  (forall c, c ∈ cs -> exists session evs, evs = members session_of session batch /\ evs <> [] /\
     sc_eventIds c = ev_id <$> evs /\ (sc_kind c = skill <-> (2 <= length evs)%nat)) /\
  rows s' = markProcessed (rows s) (ev_id <$> batch).
Proof.
  intros batch. destruct (decide (batch = [])) as [He|Hne].
  { unfold curateUnprocessed. fold batch. rewrite He. split_and!; [|by intros c ?%elem_of_nil|done].
    by intros ev ?%elem_of_nil. }
  rewrite (curate_eq s size Hne). fold batch. set (sorted := js_sort _ _). split_and!; [| |done].
  - intros ev Hev Hf. destruct (group_by_grouped session_of batch) as (Hnd & Hk & Hall).
    assert (ev ∈ members session_of (ev_session ev) batch) as Hm.
    { unfold members. apply list_elem_of_filter. split; [|done]. unfold session_of.
      by rewrite (judge_never_silences ev Hf). }
    assert (ev_session ev ∈ (group_batch batch).*1) as Hin.
    { apply Hk. intros E. rewrite E in Hm. by apply elem_of_nil in Hm. }
    apply list_elem_of_fmap_1 in Hin as ([k evs] & Hkeq & Hkg). cbn in Hkeq. subst k.
    rewrite Forall_forall in Hall. pose proof (Hall _ Hkg) as Hevs. cbn in Hevs.
    assert ((ev_session ev, evs) ∈ sorted) as Hs by by apply js_sort_elem.
    apply list_elem_of_lookup in Hs as [i Hi].
    destruct (Forall2_lookup_l _ _ _ _ _ (candidates_spec sorted (pii s)) Hi) as (c & Hc & Hids & _).
    exists c. split; [by eapply list_elem_of_lookup_2|]. rewrite Hids. cbn. rewrite Hevs.
    by apply list_elem_of_fmap_2.
  - intros c Hc. apply list_elem_of_lookup in Hc as [i Hi].
    destruct (Forall2_lookup_r _ _ _ _ _ (candidates_spec sorted (pii s)) Hi) as ([k evs] & Hk & Hids & Hkind).
    apply list_elem_of_lookup_2, js_sort_elem in Hk.
    destruct (group_by_grouped session_of batch) as (_ & Hkeys & Hall). rewrite Forall_forall in Hall.
    pose proof (Hall _ Hk) as Hevs. cbn [fst snd] in *. exists k, evs. split_and!; [done| |done|].
    + rewrite Hevs. apply Hkeys. apply (list_elem_of_fmap_2' _ _ (k, evs)); done.
    + rewrite Hkind. rewrite <-Nat.leb_le. destruct (2 <=? length evs)%nat; split; done.
Qed.
End curate.

(** ** A concrete curation *)

(** An endpoint that always fails: classification falls back to the rules. *)
Definition dead_endpoint (_ : list ChatMsg) (_ : ChatOptions) : result string string := Err "unreachable".

Definition mail_store : EventStore :=
  (captureMany empty_store [("", demo_event "s" "wrong: ana@klijent.hr A"); ("", demo_event "s" "wrong: ana@klijent.hr B");
                            ("", demo_event "s" "wrong: ana@klijent.hr C")]).2.

(** An address can reach a candidate verbatim.  Three captured events contain the same address; the
    stateful detection flags the first and the third, and misses the second again when the summary is
    built, so the candidate's text contains the address although every text is meant to be redacted. *)
Theorem curation_leaks_address :
  (ev_piiFlagged <$> all (rows mail_store)) = [true; false; true] /\
  exists c, (@curateUnprocessed demo_text dead_endpoint mail_store None).1 = [c] /\
    includes (sc_summary c) "ana@klijent.hr" = true.
Proof. split; [vm_compute; reflexivity|]. eexists. split; [vm_compute; reflexivity|]. vm_compute. reflexivity. Qed.
