(* ===== verification/Templates.v ===== *)
(** * Task templates (sin-harness/evals/templates.ts)

    The six registered templates: the seeded instance, the checker and the reference answer of each.
    Croatian phrases, the dash and the ellipsis stand as their UTF-8 bytes. *)

From S2P Require Import Prelude JsNum Json HarnessTypes Canon Mock Regex Curate.

Local Open Scope string_scope.
Local Open Scope list_scope.
Local Open Scope Z_scope.

Record CheckOutcome := { co_passed : bool; co_score : num }.

Record TemplateDef := {
  td_id : string;
  td_description : string;
  makeInstance : Z -> EvalInstance;
  check : string -> EvalInstance -> CheckOutcome;
  renderAnswer : EvalInstance -> result string string }.

(** ** Helpers *)

(** A literal in which a grave accent stands for a double quote. *)
Fixpoint Q (s : string) : string :=
  match s with
  | EmptyString => EmptyString
  | String a s => String (if is_char 96 a then Ascii.ascii_of_nat 34 else a) (Q s)
  end.

Definition lines (l : list string) : string := join newline l.

Definition pick (arr : list string) (a : Z) : string * Z :=
  let '(i, a) := rand_below (Z.of_nat (length arr)) a in (default "" (arr !! Z.to_nat i), a).

Definition punctuation : Ascii.ascii -> bool := in_string (Q ".,!?;:'`()[]").
Definition spaces1 : re := Rep (Chr is_space) 1 None.
Definition normText (s : string) : string :=
  trim (replace spaces1 " " (replace (Chr punctuation) "" (toLowerCase s))).

(** [s.replace(/;$/, "")] *)
Fixpoint drop_semicolon (s : string) : string :=
  match s with
  | EmptyString => EmptyString
  | String a EmptyString => if is_char 59 a then EmptyString else s
  | String a t => String a (drop_semicolon t)
  end.
Definition normSql (s : string) : string := drop_semicolon (trim (replace spaces1 " " (toLowerCase s))).

Definition fail : CheckOutcome := {| co_passed := false; co_score := num_zero |}.
Definition one_if (b : bool) : num := if b then num_of_Z 1 else num_zero.
Definition all_or_nothing (ok : bool) : CheckOutcome := {| co_passed := ok; co_score := one_if ok |}.
Definition half : num := num_div (num_of_Z 1) (num_of_Z 2).

(** Words of [s.split(/\s+/).filter(Boolean)] *)
Fixpoint word_count (in_word : bool) (s : string) : Z :=
  match s with
  | EmptyString => 0
  | String a s =>
      if is_space a then word_count false s
      else (if in_word then 0 else 1) + word_count true s
  end.
(** [s.split(",")] *)
Fixpoint split_comma (s cur : string) : list string :=
  match s with
  | EmptyString => [rev_string cur ""]
  | String a s => if is_char 44 a then rev_string cur "" :: split_comma s "" else split_comma s (String a cur)
  end.

(** [s.replace(old, new)] of the first occurrence *)
Fixpoint replace_first (old new s : string) : string :=
  if String.prefix old s then new +:+ String.substring (String.length old) (String.length s) s
  else match s with EmptyString => EmptyString | String a s => String a (replace_first old new s) end.

Section templates.
Context `{JsonText}.

(** [JSON.parse(inst.expected.value)] of an exact answer, when it is an object *)
Definition expected_obj (inst : EvalInstance) : option fields :=
  match ei_expected inst with exact v => JSON_parse v ≫= fun j => as_obj (Some j) | _ => None end.
(** The two conditions every checker but the summary's starts with. *)
Definition with_answer (output : string) (inst : EvalInstance) (k : fields -> fields -> CheckOutcome) : CheckOutcome :=
  match ei_expected inst with
  | exact _ =>
      match extractJson output, expected_obj inst with
      | Some parsed, Some exp => k parsed exp
      | _, _ => fail
      end
  | _ => fail
  end.
(** Re-render the fields of the stored answer. *)
Definition render (inst : EvalInstance) (k : fields -> option fields) : result string string :=
  match ei_expected inst with
  | exact v =>
      match JSON_parse v with
      | None => Err "invalid JSON"
      | Some j =>
          match as_obj (Some j) ≫= k with
          | Some o => Ok (canonicalize (JObj o))
          | None => Err "corrupt expected"
          end
      end
  | _ => Err "unexpected expected kind"
  end.
(** [{ f: v.f }] when the field is a string *)
Definition string_field (f : string) (v : fields) : option fields :=
  match as_str (jget v f) with Some s => Some [(f, JStr s)] | None => None end.

Definition instance (tpl : string) (seed : Z) (prompt : string) (e : ExpectedAnswer) (meta : fields) : EvalInstance :=
  {| ei_id := tpl +:+ "-" +:+ pretty seed; ei_templateId := tpl; ei_transformId := "identity"; ei_seed := seed;
     ei_prompt := prompt; ei_expected := e; ei_meta := Some meta |}.

(** ** 1. extract-invoice-fields *)

Record InvoiceLine := { il_desc : string; il_qty : Z; il_unit : Z; il_amt : Z }.

Fixpoint invoice_lines (n : nat) (a : Z) : list InvoiceLine :=
  match n with
  | O => []
  | S n =>
      let '(desc, a) := pick ["MCP integration sprint"; "Retainer hours"; "Model evaluation batch";
                              "Prompt engineering"; "Data migration"] a in
      let '(q, a) := rand_below 9 a in
      let '(u, a) := rand_below 451 a in
      {| il_desc := desc; il_qty := 1 + q; il_unit := 50 + u; il_amt := (1 + q) * (50 + u) |} :: invoice_lines n a
  end.

Definition invoice_line_text (l : InvoiceLine) : string :=
  "- " +:+ il_desc l +:+ ": " +:+ pretty (il_qty l) +:+ " x " +:+ pretty (il_unit l) +:+ " EUR = " +:+
  pretty (il_amt l) +:+ " EUR".

Definition invoice_make (seed : Z) : EvalInstance :=
  let a := mulberry32 (fnv1a ("invoice:" +:+ pretty seed)) in
  let '(vendor, a) := pick ["Zagreb Tech d.o.o."; "Adria Logistics j.d.o.o."; "Kuna Software d.o.o."; "Sava Consulting"] a in
  let '(num, a) := rand_below 89999 a in
  let invoiceId := "INV-2026-" +:+ pretty (10000 + num) in
  let '(k, a) := rand_below 4 a in
  let ls := invoice_lines (Z.to_nat (1 + k)) a in
  let total := sumZ (il_amt <$> ls) in
  instance "extract-invoice-fields" seed
    (lines (["Extract the invoice fields from the text below.";
             Q "Respond with ONLY minified JSON: {`invoice_id`: `<string>`, `total`: <number>}"; "";
             "<invoice>"; "Vendor: " +:+ vendor; "Invoice number: " +:+ invoiceId; "Items:"] ++
            (invoice_line_text <$> ls) ++
            ["Total due: " +:+ pretty total +:+ " EUR"; "Currency: EUR"; "</invoice>"]))
    (exact (canonicalize (JObj [("invoice_id", JStr invoiceId); ("total", JNum (num_of_Z total))])))
    [("scaleTarget", JStr "total")].

(** 0.01 *)
Definition cent : num := num_lit 5764607523034235 (-59).

Definition invoice_check (output : string) (inst : EvalInstance) : CheckOutcome :=
  with_answer output inst (fun parsed exp =>
    match as_str (jget exp "invoice_id"), as_num (jget exp "total") with
    | Some id, Some total =>
        let idOk := holds (fun s => String.eqb (trim s) id) (as_str (jget parsed "invoice_id")) in
        let totalOk := holds (fun t => num_leb (num_abs (num_sub t total)) cent) (as_num (jget parsed "total")) in
        let score := num_add (if idOk then half else num_zero) (if totalOk then half else num_zero) in
        {| co_passed := num_eqb score (num_of_Z 1); co_score := score |}
    | _, _ => fail
    end).

(** An absent property is left out of the rendered text. *)
Definition keep_fields (l : list string) (v : fields) : fields :=
  omap (fun f => pair f <$> jget v f) l.
Definition invoice_render (inst : EvalInstance) : result string string :=
  render inst (fun v => Some (keep_fields ["invoice_id"; "total"] v)).

(** ** 2. summarize-with-constraints *)

Definition summary_make (seed : Z) : EvalInstance :=
  let a := mulberry32 (fnv1a ("summary:" +:+ pretty seed)) in
  let '(kw1, a) := pick ["migration"; "onboarding"; "renewal"; "audit"; "handover"] a in
  let '(kw2, a) := pick ["compliance"; "budget"; "rollout"; "training"; "review"] a in
  let '(client, a) := pick ["Adria Media"; "Kuna Retail"; "Sava Bank"; "Lika Logistics"] a in
  let '(owner, a) := pick ["Ana"; "Ivan"; "Petra"; "Marko"] a in
  let '(filler, a) := pick ["vendor review"; "security training"; "backup policy drill"] a in
  let '(q, a) := rand_below 4 a in
  let '(b, a) := rand_below 18 a in
  let budget := (2 + b) * 500 in
  instance "summarize-with-constraints" seed
    (lines ["Summarize the meeting notes below.";
            "Constraints: the summary must be at most 35 words and MUST mention " +:+ dq +:+ kw1 +:+ dq +:+ " and " +:+
              dq +:+ kw2 +:+ dq +:+ ".";
            Q "Respond with ONLY minified JSON: {`summary`: `<string>`}"; ""; "<notes>";
            "Meeting notes — " +:+ client;
            "1. Approved the " +:+ kw1 +:+ " plan starting next month.";
            "2. Postponed the " +:+ filler +:+ " until Q" +:+ pretty (1 + q) +:+ ".";
            "3. Budget of " +:+ pretty budget +:+ " EUR reserved for the " +:+ kw2 +:+ ".";
            "Owner: " +:+ owner; "</notes>"])
    (contains kw1)
    [("keywords", JStr (kw1 +:+ "," +:+ kw2)); ("maxWords", JNum (num_of_Z 35))].

Definition meta_get (inst : EvalInstance) (k : string) : option json := ei_meta inst ≫= fun m => jget m k.

Definition summary_check (output : string) (inst : EvalInstance) : CheckOutcome :=
  match extractJson output ≫= fun parsed => as_str (jget parsed "summary") with
  | None => fail
  | Some summary =>
      let words := word_count false summary in
      let maxWords := match as_num (meta_get inst "maxWords") with Some n => n | None => num_of_Z 35 end in
      let wcOk := (0 <? words) && num_leb (num_of_Z words) maxWords in
      let kws := match as_str (meta_get inst "keywords") with Some s => split_comma s "" | None => [] end in
      let kwLower := toLowerCase summary in
      let kwsOk := (0 <? length kws)%nat && forallb (fun k => includes kwLower (toLowerCase k)) kws in
      {| co_passed := wcOk && kwsOk; co_score := num_div (num_add (one_if wcOk) (one_if kwsOk)) (num_of_Z 2) |}
  end.

Definition summary_render (inst : EvalInstance) : result string string :=
  let kws := match as_str (meta_get inst "keywords") with Some s => split_comma s "" | None => ["x"; "y"] end in
  Ok (canonicalize (JObj [("summary", JStr ("Approved the " +:+ default "undefined" (kws !! 0%nat) +:+
    " and budgeted the " +:+ default "undefined" (kws !! 1%nat) +:+ "."))])).

(** ** 3. hr-en-translate *)

Definition PHRASEBOOK : list (string * string) :=
  [("Hvala vam na brzom odgovoru.", "Thank you for the quick reply.");
   ("Možemo li zakazati sastanak za sljedeći tjedan?", "Can we schedule a meeting for next week?");
   ("Potvrđujem primanje fakture.", "I confirm receipt of the invoice.");
   ("Šaljemo vam revidiranu ponudu danas.", "We are sending you the revised proposal today.");
   ("Tim je završio integraciju prije roka.", "The team finished the integration ahead of the deadline.");
   ("Molimo potvrdite novi rok za isporuku.", "Please confirm the new delivery date.");
   ("Razgovarat ćemo o ugovoru nakon praznika.", "We will discuss the contract after the holiday.");
   ("Naš odjel za podršku odgovara u roku od 24 sata.", "Our support department responds within 24 hours.")].

Definition translate_prompt (toEnglish : bool) (src : string) : string :=
  lines ["Translate the sentence to " +:+ (if toEnglish then "English" else "Croatian") +:+ ".";
         Q "Respond with ONLY minified JSON: {`translation`: `<string>`}"; "";
         "Sentence: " +:+ dq +:+ src +:+ dq].

Definition translate_make (seed : Z) : EvalInstance :=
  let a := mulberry32 (fnv1a ("translate:" +:+ pretty seed)) in
  let '(idx, a) := rand_below (Z.of_nat (length PHRASEBOOK)) a in
  let pair := default ("", "") (PHRASEBOOK !! Z.to_nat idx) in
  let '(n, a) := rand a in
  let toEnglish := n <? 2 ^ 31 in
  let src := if toEnglish then pair.1 else pair.2 in
  let tgt := if toEnglish then pair.2 else pair.1 in
  let dir := if toEnglish then "hr->en" else "en->hr" in
  instance "hr-en-translate" seed (translate_prompt toEnglish src)
    (exact (canonicalize (JObj [("translation", JStr tgt)])))
    [("hrText", JStr pair.1); ("enText", JStr pair.2); ("direction", JStr dir)].

Definition translate_check (output : string) (inst : EvalInstance) : CheckOutcome :=
  with_answer output inst (fun parsed exp =>
    match as_str (jget parsed "translation"), as_str (jget exp "translation") with
    | Some got, Some want =>
        all_or_nothing (String.eqb (normText got) (normText want) || includes (normText want) (normText got))
    | _, _ => fail
    end).

Definition translate_render (inst : EvalInstance) : result string string := render inst (string_field "translation").

(** ** 4. tool-call-json-emission *)

(** The call's name and arguments, the task's text and the meta of the drawn tool. *)
Definition tool_call (a : Z) : (string * fields) * string * fields :=
  let '(tool, a) := rand_below 3 a in
  if tool =? 0 then
    let '(title, a) := pick ["Kickoff"; "Quarterly review"; "Retrospective"] a in
    let '(d, a) := rand_below 18 a in
    let '(h, a) := rand_below 9 a in
    let day := "2026-09-" +:+ pretty (10 + d) in
    (("create_calendar_event", [("title", JStr title); ("day", JStr day); ("hour", JNum (num_of_Z (9 + h)))]),
     "Schedule a " +:+ dq +:+ title +:+ dq +:+ " meeting on " +:+ day +:+ " at " +:+ pretty (9 + h) +:+ ":00.", [])
  else if tool =? 1 then
    let '(to, a) := pick ["ana@klijent.hr"; "ivan@firma.hr"; "podrska@adria.hr"] a in
    let '(subject, a) := pick ["Proposal v2"; "Invoice reminder"; "Follow-up"] a in
    let '(priority, a) := pick ["low"; "normal"; "high"] a in
    (("send_email", [("to", JStr to); ("subject", JStr subject); ("priority", JStr priority)]),
     "Email " +:+ to +:+ " about " +:+ dq +:+ subject +:+ dq +:+ " with " +:+ priority +:+ " priority.", [])
  else
    let '(client, a) := pick ["Adria Media"; "Kuna Retail"] a in
    let '(k, a) := rand_below 451 a in
    let amount := (500 + k) * 10 in
    (("create_invoice", [("client", JStr client); ("amount_eur", JNum (num_of_Z amount))]),
     "Create an invoice for " +:+ client +:+ " totaling " +:+ pretty amount +:+ " EUR.",
     [("scaleTarget", JStr "amount_eur")]).

Definition tool_make (seed : Z) : EvalInstance :=
  let '((name, args), task, meta) := tool_call (mulberry32 (fnv1a ("toolcall:" +:+ pretty seed))) in
  instance "tool-call-json-emission" seed
    (lines ["You may call exactly one tool."; "Tools:";
            "- create_calendar_event(title: string, day: string, hour: number)";
            Q "- send_email(to: string, subject: string, priority: `low`|`normal`|`high`)";
            "- create_invoice(client: string, amount_eur: number)";
            Q "Emit the tool call as ONLY minified JSON: {`name`: `<tool>`, `arguments`: {...}}"; "";
            "Task: " +:+ task])
    (exact (canonicalize (JObj [("name", JStr name); ("arguments", JObj args)]))) meta.

Definition tool_check (output : string) (inst : EvalInstance) : CheckOutcome :=
  with_answer output inst (fun parsed exp =>
    match as_str (jget exp "name"), as_obj (jget exp "arguments") with
    | Some name, Some args =>
        let nameOk := is_string name (jget parsed "name") in
        let argsOk := holds (fun got => String.eqb (canonicalize (JObj got)) (canonicalize (JObj args)))
                        (as_obj (jget parsed "arguments")) in
        let score := num_div (num_add (one_if nameOk) (one_if argsOk)) (num_of_Z 2) in
        {| co_passed := num_eqb score (num_of_Z 1); co_score := score |}
    | _, _ => fail
    end).

Definition tool_render (inst : EvalInstance) : result string string :=
  render inst (fun v =>
    match as_str (jget v "name"), as_obj (jget v "arguments") with
    | Some name, Some args => Some [("name", JStr name); ("arguments", JObj args)]
    | _, _ => None
    end).

(** ** 5. fix-broken-sql *)

(** [sql.replace(/WHERE.*$/, "")] of a one-line query *)
Fixpoint before_where (s : string) : string :=
  if String.prefix "WHERE" s then "" else match s with EmptyString => "" | String a s => String a (before_where s) end.

Definition SQL_VARIANTS : list (string * (string -> string)) :=
  [("SELECT name FROM customers WHERE country = 'HR' AND credit_limit > 5000 ORDER BY name;",
    replace_first "credit_limit" "credit_limt");
   ("SELECT SUM(total_eur) AS revenue FROM orders WHERE status = 'paid';", replace_first "SELECT" "SELCT");
   ("SELECT customers.name FROM customers JOIN orders ON orders.customer_id = customers.id WHERE orders.status = 'open';",
    before_where)].

Definition sql_make (seed : Z) : EvalInstance :=
  let '(idx, _) := rand_below (Z.of_nat (length SQL_VARIANTS)) (mulberry32 (fnv1a ("sqlfix:" +:+ pretty seed))) in
  let '(correct, inject) := default ("", fun s => s) (SQL_VARIANTS !! Z.to_nat idx) in
  let broken := inject correct in
  let bugKind :=
    if includes broken "SELCT" then "keyword typo"
    else if negb (includes broken "WHERE") && includes correct "WHERE" then "missing WHERE clause"
    else "identifier typo" in
  instance "fix-broken-sql" seed
    (lines ["Fix the broken SQL query against the schema below."; "Schema:";
            "- customers(id, name, country, credit_limit)"; "- orders(id, customer_id, total_eur, status)";
            Q "Respond with ONLY minified JSON: {`sql`: `<corrected query>`}"; ""; "<sql>"; broken; "</sql>";
            "Known defect: " +:+ bugKind +:+ "."])
    (exact (canonicalize (JObj [("sql", JStr correct)]))) [].

Definition sql_check (output : string) (inst : EvalInstance) : CheckOutcome :=
  with_answer output inst (fun parsed exp =>
    match as_str (jget parsed "sql"), as_str (jget exp "sql") with
    | Some got, Some want => all_or_nothing (String.eqb (normSql got) (normSql want))
    | _, _ => fail
    end).

Definition sql_render (inst : EvalInstance) : result string string := render inst (string_field "sql").

(** ** 6. classify-support-ticket *)

Definition TICKET_CATEGORIES : list string := ["billing"; "technical"; "account"; "feature_request"].

Definition TICKET_BODIES (cat c p : string) : string :=
  if String.eqb cat "billing" then
    c +:+ " here. I was charged twice for my " +:+ p +:+
    " subscription this month — please refund the duplicate charge and fix our billing."
  else if String.eqb cat "technical" then
    c +:+ " reporting: the " +:+ p +:+
    " dashboard returns a 500 error whenever I export the monthly report. This blocks our accounting."
  else if String.eqb cat "account" then
    c +:+ " cannot sign in to " +:+ p +:+
    "; the password-reset email never arrives. Please check whether our account is locked."
  else
    c +:+ " suggestion for " +:+ p +:+
    ": please add SSO login for teams. Most of our staff cannot manage separate passwords.".

Definition ticket_make (seed : Z) : EvalInstance :=
  let a := mulberry32 (fnv1a ("ticket:" +:+ pretty seed)) in
  let '(cat, a) := pick TICKET_CATEGORIES a in
  let '(customer, a) := pick ["Ana Horvat"; "Ivan Kovač"; "Petra Novak"; "Marko Babić"] a in
  let '(product, a) := pick ["MeshDesk"; "LedgerApp"; "PortalCRM"] a in
  instance "classify-support-ticket" seed
    (lines ["Classify the support ticket into exactly one category:";
            "billing | technical | account | feature_request.";
            Q "Respond with ONLY minified JSON: {`category`: `<category>`}"; ""; "<ticket>";
            TICKET_BODIES cat customer product; "</ticket>"])
    (exact (canonicalize (JObj [("category", JStr cat)]))) [].

Definition ticket_check (output : string) (inst : EvalInstance) : CheckOutcome :=
  with_answer output inst (fun parsed exp =>
    match as_str (jget parsed "category"), as_str (jget exp "category") with
    | Some got, Some want => all_or_nothing (String.eqb (toLowerCase (trim got)) (toLowerCase want))
    | _, _ => fail
    end).

Definition ticket_render (inst : EvalInstance) : result string string := render inst (string_field "category").

(** ** Registry *)

Definition invoice_template : TemplateDef :=
  {| td_id := "extract-invoice-fields";
     td_description := "Extract invoice_id and total from a synthetic B2B invoice (Croatian SME flavor).";
     makeInstance := invoice_make; check := invoice_check; renderAnswer := invoice_render |}.
Definition summary_template : TemplateDef :=
  {| td_id := "summarize-with-constraints";
     td_description := "Summarize meeting notes under hard constraints: word cap + mandatory keywords.";
     makeInstance := summary_make; check := summary_check; renderAnswer := summary_render |}.
Definition translate_template : TemplateDef :=
  {| td_id := "hr-en-translate";
     td_description := "Bidirectional HR↔EN business phrasebook translation with canonical targets.";
     makeInstance := translate_make; check := translate_check; renderAnswer := translate_render |}.
Definition tool_template : TemplateDef :=
  {| td_id := "tool-call-json-emission";
     td_description := "Given a tool schema and a task, emit exactly the right tool-call JSON.";
     makeInstance := tool_make; check := tool_check; renderAnswer := tool_render |}.
Definition sql_template : TemplateDef :=
  {| td_id := "fix-broken-sql";
     td_description := "Fix a seeded SQL bug (typo'd identifier, keyword typo, or dropped WHERE).";
     makeInstance := sql_make; check := sql_check; renderAnswer := sql_render |}.
Definition ticket_template : TemplateDef :=
  {| td_id := "classify-support-ticket";
     td_description := "Classify a support ticket into one of four fixed categories.";
     makeInstance := ticket_make; check := ticket_check; renderAnswer := ticket_render |}.

(** [REGISTRY.set(id, ..)], refusing a registered id *)
Definition makeTemplate (reg : list TemplateDef) (t : TemplateDef) : result string (list TemplateDef) :=
  if bool_decide (td_id t ∈ td_id <$> reg) then Err ("template already registered: " +:+ td_id t)
  else Ok (reg ++ [t]).

Definition REGISTRY : list TemplateDef :=
  [invoice_template; summary_template; translate_template; tool_template; sql_template; ticket_template].

Definition getTemplate (id : string) : result string TemplateDef :=
  match find (fun t => String.eqb (td_id t) id) REGISTRY with
  | Some t => Ok t
  | None => Err ("unknown template: " +:+ id)
  end.

Definition listTemplates : list TemplateDef := js_sort (by_key String.compare td_id) REGISTRY.

Lemma registry_ids : td_id <$> REGISTRY =
  ["extract-invoice-fields"; "summarize-with-constraints"; "hr-en-translate"; "tool-call-json-emission";
   "fix-broken-sql"; "classify-support-ticket"].
Proof. reflexivity. Qed.

Lemma registry_NoDup : NoDup (td_id <$> REGISTRY).
Proof. rewrite registry_ids. apply (bool_decide_eq_true_1 _). vm_compute. reflexivity. Qed.

Lemma register_all l : forall reg, NoDup (td_id <$> reg ++ l) ->
  foldl (fun r t => r ≫= fun reg => makeTemplate reg t) (Ok reg) l = Ok (reg ++ l).
Proof.
  induction l as [|t l IH]; intros reg Hnd; cbn [foldl]; [by rewrite app_nil_r|].
  assert (makeTemplate reg t = Ok (reg ++ [t])) as Hm.
  { unfold makeTemplate. rewrite bool_decide_eq_false_2; [done|]. intros Hin.
    rewrite fmap_app, NoDup_app in Hnd. destruct Hnd as (_ & Hd & _). apply (Hd _ Hin). cbn. left. }
  change (Ok reg ≫= fun reg => makeTemplate reg t) with (makeTemplate reg t). rewrite Hm, IH; rewrite <-app_assoc; done.
Qed.

(** Registering the six templates in the order of the module succeeds and builds the registry. *)
Lemma registry_built : foldl (fun r t => r ≫= fun reg => makeTemplate reg t) (Ok []) REGISTRY = Ok REGISTRY.
Proof. apply (register_all REGISTRY []), registry_NoDup. Qed.

(** ** Properties *)

(** A legal outcome: a score in [0,1], full marks exactly when passed. *)
Definition graded (c : CheckOutcome) : Prop :=
  num_leb num_zero (co_score c) = true /\ num_leb (co_score c) (num_of_Z 1) = true /\
  (co_passed c = true <-> co_score c = num_of_Z 1).

Lemma graded_fail : graded fail.
Proof. by vm_compute. Qed.

Lemma graded_all_or_nothing b : graded (all_or_nothing b).
Proof. by destruct b; vm_compute. Qed.

Lemma graded_with_answer output inst k : (forall parsed exp, graded (k parsed exp)) -> graded (with_answer output inst k).
Proof.
  intros Hk. unfold with_answer. destruct (ei_expected inst); try apply graded_fail.
  destruct (extractJson output); [|apply graded_fail]. destruct (expected_obj inst); [apply Hk|apply graded_fail].
Qed.

(** The two half-point scores. *)
Lemma graded_halves_sum a b :
  let score := num_add (if a : bool then half else num_zero) (if b : bool then half else num_zero) in
  graded {| co_passed := num_eqb score (num_of_Z 1); co_score := score |}.
Proof. by destruct a, b; vm_compute. Qed.

Lemma graded_halves_mean a b :
  let score := num_div (num_add (one_if a) (one_if b)) (num_of_Z 2) in
  graded {| co_passed := a && b; co_score := score |} /\
  graded {| co_passed := num_eqb score (num_of_Z 1); co_score := score |}.
Proof. by destruct a, b; vm_compute. Qed.

(** Every checker grades fairly.  For each registered template, whatever the model wrote and whatever
    the instance: the score lies in [0,1], and the verdict is "passed" exactly for full marks. *)
Theorem checkers_graded t output inst : t ∈ REGISTRY -> graded (check t output inst).
Proof.
  unfold REGISTRY. rewrite !elem_of_cons, elem_of_nil.
  intros [->|[->|[->|[->|[->|[->|[]]]]]]]; cbn [check invoice_template summary_template translate_template
    tool_template sql_template ticket_template].
  - apply graded_with_answer. intros parsed exp. destruct (as_str (jget exp "invoice_id")); [|apply graded_fail].
    destruct (as_num (jget exp "total")); [|apply graded_fail]. apply graded_halves_sum.
  - unfold summary_check. destruct (_ ≫= _); [|apply graded_fail]. apply graded_halves_mean.
  - apply graded_with_answer. intros parsed exp. destruct (as_str (jget parsed "translation")); [|apply graded_fail].
    destruct (as_str (jget exp "translation")); [|apply graded_fail]. apply graded_all_or_nothing.
  - apply graded_with_answer. intros parsed exp. destruct (as_str (jget exp "name")); [|apply graded_fail].
    destruct (as_obj (jget exp "arguments")); [|apply graded_fail]. apply graded_halves_mean.
  - apply graded_with_answer. intros parsed exp. destruct (as_str (jget parsed "sql")); [|apply graded_fail].
    destruct (as_str (jget exp "sql")); [|apply graded_fail]. apply graded_all_or_nothing.
  - apply graded_with_answer. intros parsed exp. destruct (as_str (jget parsed "category")); [|apply graded_fail].
    destruct (as_str (jget exp "category")); [|apply graded_fail]. apply graded_all_or_nothing.
Qed.

Lemma includes_empty s : includes s "" = true.
Proof. by destruct s. Qed.

(** The translation checker accepts an answer with no translation.  It also passes any text that
    is contained in the expected sentence, and the empty text is contained in every sentence: a reply
    whose translation is empty gets full marks on every translation instance. *)
Theorem empty_translation_passes output inst parsed exp value want :
  ei_expected inst = exact value -> extractJson output = Some parsed -> jget parsed "translation" = Some (JStr "") ->
  expected_obj inst = Some exp -> jget exp "translation" = Some (JStr want) ->
  translate_check output inst = {| co_passed := true; co_score := num_of_Z 1 |}.
Proof.
  intros He Hp Hg Hx Hw. unfold translate_check, with_answer. rewrite He, Hp, Hx, Hg, Hw. cbn [as_str].
  assert (normText "" = "") as -> by reflexivity. by rewrite includes_empty, orb_true_r.
Qed.
End templates.

(** ** Concrete answers *)

(** A host that reads the two texts of the example below. *)
Definition demo_reply : string := Q "{`translation`: ``}".
Definition demo_json : JsonText :=
  {| num_string := fun n => pretty (default 0 (as_int n));
     JSON_parse := fun s => Some (JObj [("translation", JStr (if String.eqb s demo_reply then "" else "Hvala"))]) |}.

Lemma checkers_graded_witness :
  @ticket_template demo_json ∈ @REGISTRY demo_json /\
  graded (check (@ticket_template demo_json) "no json" (@ticket_make demo_json 7)).
Proof.
  assert (@ticket_template demo_json ∈ @REGISTRY demo_json) as Hin by (unfold REGISTRY; set_solver).
  split; [exact Hin|]. apply (@checkers_graded demo_json). exact Hin.
Defined.

Lemma empty_translation_passes_witness :
  @translate_check demo_json demo_reply (@translate_make demo_json 3) = {| co_passed := true; co_score := num_of_Z 1 |}.
Proof.
  eapply (@empty_translation_passes demo_json); vm_compute; reflexivity.
Defined.
