(* ===== verification/Transforms.v ===== *)
(** * Metamorphic transforms and fresh suites (sin-harness/evals/transforms.ts, evals/generate.ts)

    The pure transforms and the model-mediated paraphrase on instances, and [generateSuite].  Integer
    seeds are unbounded integers that the code reduces to 32 bits; [String(x)] of a number is the host's
    number text. *)

From S2P Require Import Prelude JsNum Json HarnessTypes Canon Mock Regex Curate Templates.

Local Open Scope string_scope.
Local Open Scope list_scope.
Local Open Scope Z_scope.

Definition PURE_TRANSFORM_IDS : list string := ["permuteFields"; "scaleValue"; "formatShift"; "hrEnPair"].

(** The fields a transform replaces. *)
Record Patch := { p_prompt : option string; p_expected : option ExpectedAnswer; p_meta : option fields }.
Definition no_patch : Patch := {| p_prompt := None; p_expected := None; p_meta := None |}.
Definition prompt_patch (p : string) : Patch := {| p_prompt := Some p; p_expected := None; p_meta := None |}.

(** [seed % 9973] keeps the sign of the dividend. *)
Definition rebase (inst : EvalInstance) (transformId : string) (seed : Z) (p : Patch) : EvalInstance :=
  {| ei_id := ei_id inst +:+ "@" +:+ transformId +:+ pretty (Z.rem seed 9973);
     ei_templateId := ei_templateId inst; ei_transformId := transformId; ei_seed := ei_seed inst;
     ei_prompt := default (ei_prompt inst) (p_prompt p);
     ei_expected := default (ei_expected inst) (p_expected p);
     ei_meta := match p_meta p with Some m => Some m | None => ei_meta inst end |}.

(** [{ ...meta, k: v }] *)
Fixpoint set_field (k : string) (v : json) (o : fields) : fields :=
  match o with
  | [] => [(k, v)]
  | (k', v') :: o => if String.eqb k' k then (k, v) :: o else (k', v') :: set_field k v o
  end.

(** ** permuteFields *)

(** [s.split(/\n\n+/)] *)
Fixpoint count_newlines (s : string) : nat :=
  match s with String a s => if is_char 10 a then S (count_newlines s) else 0 | EmptyString => 0 end.
Fixpoint drop_chars (n : nat) (s : string) : string :=
  match n, s with S n, String _ s => drop_chars n s | _, _ => s end.
Fixpoint split_blocks (fuel : nat) (s cur : string) : list string :=
  match fuel, s with
  | S fuel, String a t =>
      let n := count_newlines s in
      if (2 <=? n)%nat then rev_string cur "" :: split_blocks fuel (drop_chars n s) ""
      else split_blocks fuel t (String a cur)
  | _, _ => [rev_string cur ""]
  end.

(** The Fisher-Yates loop, from the last index down. *)
Definition swap {A} (i j : nat) (l : list A) : list A :=
  match l !! i, l !! j with Some x, Some y => <[j:=x]> (<[i:=y]> l) | _, _ => l end.
Fixpoint shuffle {A} (i : nat) (a : Z) (l : list A) : list A :=
  match i with
  | O => l
  | S i' =>
      let '(j, a) := rand_below (Z.of_nat i + 1) a in
      shuffle i' a (swap i (Z.to_nat j) l)
  end.

Definition permuteFields (inst : EvalInstance) (seed : Z) : EvalInstance :=
  let blocks := split_blocks (S (String.length (ei_prompt inst))) (ei_prompt inst) "" in
  if (length blocks <? 2)%nat then rebase inst "permuteFields" seed no_patch
  else
    let a := mulberry32 (xor32 (fnv1a (ei_id inst +:+ ":permute")) (toUint32 seed)) in
    rebase inst "permuteFields" seed
      (prompt_patch (join (newline +:+ newline) (shuffle (length blocks - 1) a blocks))).

(** ** hrEnPair *)

Section transforms.
Context `{JsonText}.

Definition hrEnPair (inst : EvalInstance) (seed : Z) : EvalInstance :=
  match as_str (meta_get inst "hrText"), as_str (meta_get inst "enText"), as_str (meta_get inst "direction"),
        ei_expected inst with
  | Some hr, Some en, Some dir, exact _ =>
      let toEnglish := String.eqb dir "en->hr" in
      let src := if toEnglish then hr else en in
      let tgt := if toEnglish then en else hr in
      let newDir := if toEnglish then "hr->en" else "en->hr" in
      rebase inst "hrEnPair" seed
        {| p_prompt := Some (translate_prompt toEnglish src);
           p_expected := Some (exact (canonicalize (JObj [("translation", JStr tgt)])));
           p_meta := Some (set_field "direction" (JStr newDir) (default [] (ei_meta inst))) |}
  | _, _, _, _ => rebase inst "hrEnPair" seed no_patch
  end.

(** ** scaleValue *)

Definition SCALE_FACTORS : list num := [num_of_Z 2; num_of_Z 3; num_div (num_of_Z 1) (num_of_Z 2)].

(** [s.replaceAll(old, new)] of a non-empty text *)
Fixpoint replaceAll (fuel : nat) (old new s : string) : string :=
  match fuel, s with
  | S fuel, String a t =>
      if String.prefix old s then new +:+ replaceAll fuel old new (drop_chars (String.length old) s)
      else String a (replaceAll fuel old new t)
  | _, _ => ""
  end.

Definition scaleValue (inst : EvalInstance) (seed : Z) : EvalInstance :=
  let identity := rebase inst "scaleValue" seed no_patch in
  match as_str (meta_get inst "scaleTarget"), expected_obj inst with
  | Some target, Some obj =>
      match as_num (jget obj target) with
      | None => identity
      | Some oldVal =>
          let '(i, _) := rand_below (Z.of_nat (length SCALE_FACTORS))
            (mulberry32 (xor32 (fnv1a (ei_id inst +:+ ":scale")) (toUint32 seed))) in
          let factor := default num_nan (SCALE_FACTORS !! Z.to_nat i) in
          let newVal := js_round (num_mul oldVal factor) in
          let oldStr := num_string oldVal in
          if negb (includes (ei_prompt inst) oldStr) then identity
          else rebase inst "scaleValue" seed
            {| p_prompt := Some (replaceAll (String.length (ei_prompt inst)) oldStr (num_string newVal) (ei_prompt inst));
               p_expected := Some (exact (canonicalize (JObj (set_field target (JNum newVal) obj))));
               p_meta := None |}
      end
  | _, _ => identity
  end.

(** ** formatShift *)

Definition FORMAT_REMINDERS : list string :=
  ["Output reminder: reply with a single line of minified JSON and no prose.";
   Q "Format requirement: your entire reply must parse as one JSON object, e.g. {`field`: `value`}."].

(** [variant % 2] has the sign of the 32-bit [variant]; an index out of range reads [undefined]. *)
Definition formatShift (inst : EvalInstance) (seed : Z) : EvalInstance :=
  let variant := xor32 (fnv1a (ei_id inst +:+ ":fmt")) (toUint32 seed) in
  let i := Z.rem variant (Z.of_nat (length FORMAT_REMINDERS)) in
  let reminder := if i <? 0 then "undefined" else default "undefined" (FORMAT_REMINDERS !! Z.to_nat i) in
  rebase inst "formatShift" seed (prompt_patch (ei_prompt inst +:+ newline +:+ newline +:+ reminder)).

(** ** paraphrase *)

Definition paraphrase_system : string :=
  "You rewrite evaluation task prompts. Preserve every fact, number, name, " +:+
  "and the final output-format instruction verbatim. Change wording only. " +:+
  "Reply with the rewritten prompt text and nothing else.".

Definition paraphrase (chat : list ChatMsg -> ChatOptions -> result string string)
    (inst : EvalInstance) (seed : Z) : EvalInstance :=
  let text := match chat [{| cm_role := system; cm_content := paraphrase_system |};
                          {| cm_role := user; cm_content := ei_prompt inst |}]
                         {| co_seed := Some seed; co_temperature := Some num_zero; co_maxTokens := None;
                            co_cachePrompt := None |} with Ok t => t | Err _ => "" end in
  let p := trim text in
  rebase inst "paraphrase" seed
    {| p_prompt := Some (if (20 <=? String.length p)%nat then p else ei_prompt inst); p_expected := None;
       p_meta := Some (set_field "paraphrased" (JBool true) (default [] (ei_meta inst))) |}.

Definition applyPureTransform (id : string) (inst : EvalInstance) (seed : Z) : result string EvalInstance :=
  if String.eqb id "permuteFields" then Ok (permuteFields inst seed)
  else if String.eqb id "scaleValue" then Ok (scaleValue inst seed)
  else if String.eqb id "formatShift" then Ok (formatShift inst seed)
  else if String.eqb id "hrEnPair" then Ok (hrEnPair inst seed)
  else Err ("unknown pure transform: " +:+ id).

(** ** generateSuite *)

Definition CHOICES : list string := PURE_TRANSFORM_IDS ++ ["identity"; "identity"].

Definition with_id (inst : EvalInstance) (id : string) : EvalInstance :=
  {| ei_id := id; ei_templateId := ei_templateId inst; ei_transformId := ei_transformId inst; ei_seed := ei_seed inst;
     ei_prompt := ei_prompt inst; ei_expected := ei_expected inst; ei_meta := ei_meta inst |}.

(** [while (seen.has(inst.id)) inst = { ...inst, id: `${inst.id}#${i}` }]; an id longer than all those seen
    is fresh, so one round per seen id is enough. *)
Fixpoint fresh_id (fuel : nat) (i : Z) (seen : list string) (id : string) : option string :=
  if bool_decide (id ∈ seen) then
    match fuel with S fuel => fresh_id fuel i seen (id +:+ "#" +:+ pretty i) | O => None end
  else Some id.

(** One slot: template, seed and transform are drawn in this order. *)
Definition draw_instance (i : Z) (a : Z) : result string EvalInstance * Z :=
  let templateIds := td_id <$> listTemplates in
  let '(tplId, a) := pick templateIds a in
  let '(seed, a) := rand_below (2 ^ 31) a in
  let '(choice, a) := pick CHOICES a in
  (t ← getTemplate tplId;
   let inst := makeInstance t seed in
   if String.eqb choice "identity" then Ok inst
   else applyPureTransform choice inst (xor32 seed (i + 1)), a).

Fixpoint suite_loop (n : nat) (i : Z) (a : Z) (seen : list string) (out : list EvalInstance) :
    result string (list EvalInstance) :=
  match n with
  | O => Ok out
  | S n =>
      let '(r, a) := draw_instance i a in
      inst ← r;
      match fresh_id (length seen) i seen (ei_id inst) with
      | Some id => suite_loop n (i + 1) a (seen ++ [id]) (out ++ [with_id inst id])
      | None => Err "diverged"
      end
  end.

(** [count] integral; the seed is printed into the hashed key. *)
Definition generateSuite (suiteSeed : Z) (version : string) (count : Z) : result string (list EvalInstance) :=
  if count <=? 0 then Err "count must be a positive integer"
  else suite_loop (Z.to_nat count) 0 (mulberry32 (fnv1a (pretty suiteSeed +:+ ":" +:+ version))) [] [].
End transforms.

(** ** Properties of the transforms *)

Lemma swap_perm {A} i j (l : list A) : swap i j l ≡ₚ l.
Proof.
  unfold swap. destruct (l !! i) as [x|] eqn:Hi; [|done]. destruct (l !! j) as [y|] eqn:Hj; [|done].
  destruct (decide (i = j)) as [->|Hne].
  - rewrite Hi in Hj. injection Hj as ->. by rewrite list_insert_insert_eq, list_insert_id.
  - apply Permutation_inj. split; [by rewrite !length_insert|].
    exists (fun k => if decide (k = i) then j else if decide (k = j) then i else k). split.
    + intros a b. repeat case_decide; congruence.
    + intros k. repeat case_decide; subst.
      * rewrite list_lookup_insert_ne by done. rewrite list_lookup_insert_eq by (by eapply lookup_lt_Some).
        done.
      * rewrite list_lookup_insert_eq by (rewrite length_insert; by eapply lookup_lt_Some). done.
      * by rewrite !list_lookup_insert_ne by done.
Qed.

Lemma shuffle_perm {A} i : forall a (l : list A), shuffle i a l ≡ₚ l.
Proof.
  induction i as [|i IH]; intros a l; cbn [shuffle]; [done|].
  destruct (rand_below _ a) as [j a']. by rewrite IH, swap_perm.
Qed.

(** [permuteFields] loses nothing.  The new prompt is the same blocks in some order, separated by
    blank lines, and the expected answer, the template and the seed of the instance are untouched. *)
Theorem permuteFields_rearranges inst seed :
  let blocks := split_blocks (S (String.length (ei_prompt inst))) (ei_prompt inst) "" in
  let inst' := permuteFields inst seed in
  ei_expected inst' = ei_expected inst /\ ei_templateId inst' = ei_templateId inst /\
  ei_seed inst' = ei_seed inst /\ ei_meta inst' = ei_meta inst /\
  exists blocks', blocks' ≡ₚ blocks /\
    ei_prompt inst' = if (length blocks <? 2)%nat then ei_prompt inst else join (newline +:+ newline) blocks'.
Proof.
  intros blocks inst'. unfold inst', permuteFields. fold blocks.
  destruct (length blocks <? 2)%nat eqn:E; cbn [rebase ei_expected ei_templateId ei_seed ei_meta ei_prompt
    no_patch prompt_patch p_expected p_meta p_prompt default]; split_and!; try done.
  - exists blocks. done.
  - eexists. split; [apply shuffle_perm|]. done.
Qed.

Section mirror.
Context `{JsonText}.

(** Mirroring a translation twice restores it.  For every translation instance, [hrEnPair] asks for
    the opposite direction of the same phrase pair, and applied again gives back the original prompt,
    expected answer and direction. *)
Theorem hrEnPair_involutive seed s1 s2 :
  let inst := translate_make seed in
  let once := hrEnPair inst s1 in
  let twice := hrEnPair once s2 in
  ei_prompt twice = ei_prompt inst /\ ei_expected twice = ei_expected inst /\
  meta_get twice "direction" = meta_get inst "direction" /\
  meta_get once "direction" <> meta_get inst "direction".
Proof.
  unfold translate_make. destruct (rand_below _ _) as [idx a]. destruct (rand a) as [n a'].
  destruct (n <? 2 ^ 31); cbn; done.
Qed.
End mirror.

(** A format reminder can be the text "undefined".  [variant] is a signed 32-bit value, so its
    remainder modulo 2 can be -1, which is no index of the reminders: the suite of 12 instances that a
    gate samples for seed 1 and version "v1" contains a prompt that ends with the word "undefined". *)
Theorem formatShift_can_append_undefined :
  exists suite inst, @generateSuite demo_text 1 "v1" 12 = Ok suite /\ inst ∈ suite /\
    ei_transformId inst = "formatShift" /\
    includes (ei_prompt inst) (newline +:+ newline +:+ "undefined") = true.
Proof.
  destruct (@generateSuite demo_text 1 "v1" 12) as [suite|] eqn:E; [|by vm_compute in E].
  exists suite.
  assert (match @generateSuite demo_text 1 "v1" 12 with
          | Ok l => existsb (fun i => String.eqb (ei_transformId i) "formatShift" &&
                       includes (ei_prompt i) (newline +:+ newline +:+ "undefined")) l
          | Err _ => false end = true) as Hex by (vm_compute; reflexivity).
  rewrite E in Hex. apply existsb_exists in Hex as (inst & Hin & Hb). bool_to_prop.
  apply String.eqb_eq in H. exists inst. split_and!; [done|by apply list_elem_of_In|done|done].
Qed.

(** ** Properties of the suites *)

Section suites.
Context `{JsonText}.

(** The ids tried by the collision loop are pairwise distinct. *)
Lemma fresh_id_None fuel : forall i seen id, fresh_id fuel i seen id = None ->
  exists l, length l = S fuel /\ NoDup l /\ l ⊆ seen /\
    Forall (fun x => (String.length id <= String.length x)%nat) l.
Proof.
  induction fuel as [|fuel IH]; intros i seen id; cbn [fresh_id]; case_bool_decide as Hin; try done.
  - intros _. exists [id]. split_and!; [done|apply NoDup_singleton| |by repeat constructor].
    intros x ->%list_elem_of_singleton. done.
  - intros (l & Hlen & Hnd & Hsub & Hall)%IH. exists (id :: l).
    assert (Forall (fun x => (String.length id < String.length x)%nat) l) as Hlt.
    { eapply Forall_impl; [exact Hall|]. cbn beta. intros x. rewrite !length_app_string. cbn [String.length]. lia. }
    split_and!; [cbn; lia| | |].
    + constructor; [|done]. intros Hc. rewrite Forall_forall in Hlt. specialize (Hlt _ Hc). lia.
    + intros x [->|Hx]%elem_of_cons; [done|by apply Hsub].
    + constructor; [done|]. eapply Forall_impl; [exact Hlt|]. cbn beta. lia.
Qed.

(** The collision loop ends with an id that was not seen. *)
Lemma fresh_id_total i seen id : exists id', fresh_id (length seen) i seen id = Some id' /\ id' ∉ seen.
Proof.
  destruct (fresh_id (length seen) i seen id) as [id'|] eqn:E.
  - exists id'. split; [done|]. revert id E. generalize (length seen) as fuel.
    induction fuel as [|fuel IH]; intros id; cbn [fresh_id]; case_bool_decide; try done; try congruence.
    apply IH.
  - apply fresh_id_None in E as (l & Hlen & Hnd & Hsub & _).
    assert (length l <= length seen)%nat; [|lia].
    apply submseteq_length. by apply NoDup_submseteq.
Qed.

Lemma pick_elem l a : l <> [] -> (pick l a).1 ∈ l.
Proof.
  intros Hne. unfold pick. pose proof (rand_below_range (Z.of_nat (length l)) a) as Hr.
  destruct (rand_below _ a) as [i a']. cbn in *. destruct l as [|x l]; [done|].
  destruct (lookup_lt_is_Some_2 (x :: l) (Z.to_nat i)) as [y Hy]; [cbn in *; lia|].
  rewrite Hy. by eapply list_elem_of_lookup_2.
Qed.

Lemma getTemplate_listed id : id ∈ td_id <$> listTemplates ->
  exists t, getTemplate id = Ok t /\ t ∈ REGISTRY /\ td_id t = id.
Proof.
  intros (t & -> & Ht)%list_elem_of_fmap_1. unfold listTemplates in Ht. rewrite js_sort_elem in Ht.
  unfold getTemplate. destruct (find _ REGISTRY) as [t'|] eqn:E.
  - apply find_Some in E as [Hin Heq%String.eqb_eq]. by exists t'.
  - rewrite find_None in E. specialize (E t Ht). by rewrite String.eqb_refl in E.
Qed.

Lemma make_template_id t seed : t ∈ REGISTRY -> ei_templateId (makeInstance t seed) = td_id t.
Proof.
  unfold REGISTRY. rewrite !elem_of_cons, elem_of_nil.
  intros [->|[->|[->|[->|[->|[->|[]]]]]]]; cbn [makeInstance td_id invoice_template summary_template
    translate_template tool_template sql_template ticket_template].
  - unfold invoice_make. by repeat case_match.
  - unfold summary_make. by repeat case_match.
  - unfold translate_make. by repeat case_match.
  - unfold tool_make. by repeat case_match.
  - unfold sql_make. by repeat case_match.
  - unfold ticket_make. by repeat case_match.
Qed.

Lemma transform_template_id c inst seed inst' :
  applyPureTransform c inst seed = Ok inst' -> ei_templateId inst' = ei_templateId inst.
Proof.
  unfold applyPureTransform, permuteFields, scaleValue, formatShift, hrEnPair. cbn zeta.
  repeat case_match; intros [= <-]; done.
Qed.

Lemma transform_total c inst seed : c ∈ PURE_TRANSFORM_IDS -> is_ok (applyPureTransform c inst seed) = true.
Proof.
  unfold PURE_TRANSFORM_IDS. rewrite !elem_of_cons, elem_of_nil. by intros [->|[->|[->|[->|[]]]]].
Qed.

Lemma listTemplates_ne : td_id <$> listTemplates <> [].
Proof. intros He%(f_equal length). unfold listTemplates in He. by rewrite length_fmap, js_sort_length in He. Qed.

(** Every slot yields an instance of a registered template. *)
Lemma draw_instance_ok i a : exists inst a', draw_instance i a = (Ok inst, a') /\
  exists t, t ∈ REGISTRY /\ ei_templateId inst = td_id t.
Proof.
  unfold draw_instance. pose proof (pick_elem (td_id <$> listTemplates) a listTemplates_ne) as Htpl.
  destruct (pick (td_id <$> listTemplates) a) as [tplId a1]. destruct (rand_below (2 ^ 31) a1) as [seed a2].
  assert (CHOICES <> []) as Hne by done. pose proof (pick_elem CHOICES a2 Hne) as Hc.
  destruct (pick CHOICES a2) as [choice a3]. cbn [fst] in *.
  destruct (getTemplate_listed _ Htpl) as (t & Hget & Ht & _). rewrite Hget.
  pose proof (make_template_id t seed Ht) as Hid. cbn [mbind result_bind].
  destruct (String.eqb choice "identity") eqn:E; [by eexists _, _; eauto|].
  apply String.eqb_neq in E.
  assert (choice ∈ PURE_TRANSFORM_IDS) as Hp.
  { unfold CHOICES in Hc. apply elem_of_app in Hc as [?|Hc]; [done|]. rewrite !elem_of_cons, elem_of_nil in Hc. naive_solver. }
  pose proof (transform_total choice (makeInstance t seed) (xor32 seed (i + 1)) Hp) as Hok.
  destruct (applyPureTransform choice (makeInstance t seed) (xor32 seed (i + 1))) as [inst|] eqn:Ha; [|done].
  eexists _, _. split; [done|]. exists t. split; [done|]. by rewrite (transform_template_id _ _ _ _ Ha).
Qed.

Lemma suite_loop_ok n : forall i a seen out, seen = ei_id <$> out -> NoDup seen ->
  (forall inst, inst ∈ out -> exists t, t ∈ REGISTRY /\ ei_templateId inst = td_id t) ->
  exists suite, suite_loop n i a seen out = Ok suite /\ length suite = (length out + n)%nat /\
    NoDup (ei_id <$> suite) /\
    forall inst, inst ∈ suite -> exists t, t ∈ REGISTRY /\ ei_templateId inst = td_id t.
Proof.
  induction n as [|n IH]; intros i a seen out -> Hnd Hall; cbn [suite_loop].
  { exists out. split_and!; [done|lia|done|done]. }
  destruct (draw_instance_ok i a) as (inst & a' & -> & Ht). cbn [mbind result_bind].
  destruct (fresh_id_total i (ei_id <$> out) (ei_id inst)) as (id' & -> & Hni).
  destruct (IH (i + 1) a' ((ei_id <$> out) ++ [id']) (out ++ [with_id inst id'])) as (suite & Hs & Hlen & Hn & Ha).
  - by rewrite fmap_app.
  - apply NoDup_app. split; [done|]. split; [|apply NoDup_singleton].
    intros x Hx ->%list_elem_of_singleton. done.
  - intros x [Hx|Hx%list_elem_of_singleton]%elem_of_app; [by apply Hall|]. by subst x.
  - exists suite. split_and!; [done| |done|done]. rewrite Hlen, length_app. cbn. lia.
Qed.

Lemma generateSuite_spec suiteSeed version count : 0 < count ->
  exists suite, generateSuite suiteSeed version count = Ok suite /\
    Z.of_nat (length suite) = count /\ NoDup (ei_id <$> suite) /\
    forall inst, inst ∈ suite -> exists t, t ∈ REGISTRY /\ ei_templateId inst = td_id t.
Proof.
  intros Hc. unfold generateSuite. rewrite (proj2 (Z.leb_gt count 0)) by lia.
  destruct (suite_loop_ok (Z.to_nat count) 0 (mulberry32 (fnv1a (pretty suiteSeed +:+ ":" +:+ version))) [] [])
    as (suite & Hs & Hlen & Hn & Ha); [done|constructor|by intros ? ?%elem_of_nil|].
  exists suite. split_and!; [done|rewrite Hlen; cbn; lia|done|done].
Qed.

(** Fresh suites are complete.  For every seed, version and positive count, [generateSuite] returns
    (its collision loop ends) exactly [count] instances, all of registered templates, under pairwise
    distinct ids; it fails exactly for a count that is not positive. *)
Theorem generateSuite_total suiteSeed version count :
  (is_ok (generateSuite suiteSeed version count) = true <-> 0 < count) /\
  forall suite, generateSuite suiteSeed version count = Ok suite ->
    Z.of_nat (length suite) = count /\ NoDup (ei_id <$> suite) /\
    forall inst, inst ∈ suite -> exists t, t ∈ REGISTRY /\ ei_templateId inst = td_id t.
Proof.
  destruct (decide (0 < count)) as [Hc|Hc].
  - destruct (generateSuite_spec suiteSeed version count Hc) as (suite & -> & Hlen & Hn & Ha).
    split; [done|]. by intros s [= <-].
  - unfold generateSuite. rewrite (proj2 (Z.leb_le count 0)) by lia. split; [|done]. split; [done|lia].
Qed.
End suites.
