(* ===== verification/Score.v ===== *)
(** * Scoring and the verification gate (sin-harness/evals/score.ts, loop/gate.ts)

    Evaluation of an instance, the pool of concurrent workers of [runSuite] as a step function driven by
    a schedule, the head-to-head comparison in binary64, and the gate around it.  The model endpoint is
    a function of the request (sampling is pinned); clocks, git and signatures are parameters. *)

From S2P Require Import Prelude JsNum Json HarnessTypes Canon Templates Transforms.

Local Open Scope string_scope.
Local Open Scope list_scope.
Local Open Scope Z_scope.

Section score.
Context `{JsonText} (chat : list ChatMsg -> ChatOptions -> result string string).

(** ** One instance *)

Definition eval_messages (systemPrompt : option string) (inst : EvalInstance) : list ChatMsg :=
  (match systemPrompt with
   | Some p => if String.eqb p "" then [] else [{| cm_role := system; cm_content := p |}]
   | None => []
   end) ++ [{| cm_role := user; cm_content := ei_prompt inst |}].

Definition eval_output (systemPrompt : option string) (inst : EvalInstance) : string :=
  match chat (eval_messages systemPrompt inst)
          {| co_seed := Some (ei_seed inst); co_temperature := None; co_maxTokens := None;
             co_cachePrompt := Some false |} with
  | Ok t => t
  | Err e => "__ERROR__: " +:+ e
  end.

(** [getTemplate] is outside the [try]; [duration] is the measured time. *)
Definition evaluateInstance (duration : Z) (systemPrompt : option string) (inst : EvalInstance) :
    result string EvalResult :=
  let output := eval_output systemPrompt inst in
  tpl ← getTemplate (ei_templateId inst);
  let outcome := check tpl output inst in
  Ok {| er_instanceId := ei_id inst; er_output := output; er_passed := co_passed outcome;
        er_score := num_max num_zero (num_min (num_of_Z 1) (co_score outcome));
        er_durationMs := duration; er_nodeId := None |}.

(** ** The worker pool *)

Inductive worker := Idle | Evaluating (i : nat) | Finished | Rejected (e : string).

Record pool := { next : nat; results : list (option EvalResult); workers : list worker }.

Section pool.
Context (instances : list EvalInstance) (systemPrompt : option string) (duration : nat -> Z).

(** One turn of worker [k], up to its next suspension. *)
Definition turn (p : pool) (k : nat) : pool :=
  match workers p !! k with
  | Some Idle =>
      match instances !! next p with
      | Some _ => {| next := S (next p); results := results p; workers := <[k:=Evaluating (next p)]> (workers p) |}
      | None => {| next := S (next p); results := results p; workers := <[k:=Finished]> (workers p) |}
      end
  | Some (Evaluating i) =>
      match instances !! i with
      | Some inst =>
          match evaluateInstance (duration i) systemPrompt inst with
          | Ok r => {| next := next p; results := <[i:=Some r]> (results p); workers := <[k:=Idle]> (workers p) |}
          | Err e => {| next := next p; results := results p; workers := <[k:=Rejected e]> (workers p) |}
          end
      | None => p
      end
  | _ => p
  end.

Definition pool_size (concurrency : option Z) : nat :=
  Nat.min (Z.to_nat (Z.max 1 (default 4 concurrency))) (length instances).

Definition start (concurrency : option Z) : pool :=
  {| next := 0; results := replicate (length instances) None; workers := replicate (pool_size concurrency) Idle |}.

Definition run (concurrency : option Z) (schedule : list nat) : pool := foldl turn (start concurrency) schedule.

(** [Promise.all(workers)] has settled. *)
Definition is_finished (w : worker) : bool := match w with Finished => true | _ => false end.
Definition done_ (p : pool) : bool := forallb is_finished (workers p).
End pool.

Record SuiteRun := { sr_results : list EvalResult; sr_passRate : num }.

Definition passRate (results : list EvalResult) : num :=
  match results with
  | [] => num_zero
  | _ => num_div (foldl (fun acc r => num_add acc (er_score r)) num_zero results)
                 (num_of_Z (Z.of_nat (length results)))
  end.

(** The value [runSuite] resolves to under a schedule on which every worker has returned. *)
Definition runSuite (instances : list EvalInstance) (systemPrompt : option string) (concurrency : option Z)
    (duration : nat -> Z) (schedule : list nat) : option SuiteRun :=
  let p := run instances systemPrompt duration concurrency schedule in
  if done_ p then
    match mapM (fun x => x) (results p) with
    | Some rs => Some {| sr_results := rs; sr_passRate := passRate rs |}
    | None => None
    end
  else None.

(** ** Head to head *)

Record HeadToHeadResult := {
  h_oldScore : num; h_newScore : num; h_delta : num; h_margin : num; h_decision : GateDecision;
  h_oldResults : list EvalResult; h_newResults : list EvalResult }.

(** 0.02, 0.98 and 1.645 *)
Definition p_low : num := num_lit 5764607523034235 (-58).
Definition p_high : num := num_lit 8827055269646172 (-53).
Definition z95 : num := num_lit 7408421387024466 (-52).

Definition pVar (p : num) : num :=
  let q := num_min (num_max p p_low) p_high in num_mul q (num_sub (num_of_Z 1) q).

(** [oldById.get(id)]: the last result of an id wins. *)
Definition by_id (rs : list EvalResult) (id : string) : option EvalResult :=
  find (fun r => String.eqb (er_instanceId r) id) (rev rs).

Definition pairedDelta (old new : list EvalResult) (n : num) : num :=
  num_div (foldl (fun acc r =>
    num_add acc (match by_id old (er_instanceId r) with
                 | Some o => num_sub (er_score r) (er_score o)
                 | None => num_zero
                 end)) num_zero new) n.

Definition margin_of (tolerance : num) (oldRate newRate n : num) : num :=
  num_max tolerance (num_mul z95 (num_sqrt (num_div (num_add (pVar oldRate) (pVar newRate)) n))).

Definition decide_gate (delta margin : num) : GateDecision :=
  if num_leb margin delta then accept else if num_leb delta (num_opp margin) then revert else keep.

Definition compare_runs (count : Z) (tolerance : option num) (old new : SuiteRun) : HeadToHeadResult :=
  let n := num_of_Z (Z.max 1 count) in
  let delta := pairedDelta (sr_results old) (sr_results new) n in
  let margin := margin_of (default num_zero tolerance) (sr_passRate old) (sr_passRate new) n in
  {| h_oldScore := sr_passRate old; h_newScore := sr_passRate new; h_delta := delta; h_margin := margin;
     h_decision := decide_gate delta margin; h_oldResults := sr_results old; h_newResults := sr_results new |}.

Definition headToHead (instances : list EvalInstance) (oldSystem newSystem : string) (tolerance : option num)
    (concurrency : option Z) (durOld durNew : nat -> Z) (schedOld schedNew : list nat) : option HeadToHeadResult :=
  old ← runSuite instances (Some oldSystem) concurrency durOld schedOld;
  new ← runSuite instances (Some newSystem) concurrency durNew schedNew;
  Some (compare_runs (Z.of_nat (length instances)) tolerance old new).

(** ** The pool computes the list of evaluations, whatever the schedule *)

Section schedules.
Context (instances : list EvalInstance) (systemPrompt : option string) (duration : nat -> Z).
Hypothesis registered : forall inst, inst ∈ instances -> is_ok (getTemplate (ei_templateId inst)) = true.

(** The result of instance [i]. *)
Definition evaluated (i : nat) (r : EvalResult) : Prop :=
  exists inst, instances !! i = Some inst /\ evaluateInstance (duration i) systemPrompt inst = Ok r.

Lemma evaluate_ok i inst : instances !! i = Some inst ->
  exists r, evaluateInstance (duration i) systemPrompt inst = Ok r.
Proof using registered.
  intros Hi. specialize (registered inst (list_elem_of_lookup_2 _ _ _ Hi)). unfold evaluateInstance.
  destruct (getTemplate (ei_templateId inst)); [|done]. by eexists.
Qed.

Record pool_ok (p : pool) : Prop := {
  ok_length : length (results p) = length instances;
  ok_result i r : results p !! i = Some (Some r) -> evaluated i r;
  ok_taken i : (i < next p)%nat -> (i < length instances)%nat ->
    (exists r, results p !! i = Some (Some r)) \/ exists k, workers p !! k = Some (Evaluating i);
  ok_worker k w : workers p !! k = Some w ->
    match w with
    | Idle => True
    | Evaluating i => (i < length instances)%nat
    | Finished => (length instances <= next p)%nat
    | Rejected _ => False
    end }.

Lemma pool_start_ok concurrency : pool_ok (start instances concurrency).
Proof.
  split; cbn.
  - by rewrite length_replicate.
  - intros i r [? _]%lookup_replicate_1. done.
  - intros i Hi. lia.
  - intros k w [-> _]%lookup_replicate_1. done.
Qed.

Lemma turn_idle_ok p k : pool_ok p -> workers p !! k = Some Idle ->
  pool_ok (turn instances systemPrompt duration p k).
Proof.
  intros [Hlen Hres Htak Hwk] Hk. unfold turn. rewrite Hk.
  destruct (instances !! next p) as [inst|] eqn:Hi; split; cbn; try done.
  - intros i Hlt Hn. destruct (decide (i = next p)) as [->|Hne].
    + right. exists k. apply list_lookup_insert_eq. by eapply lookup_lt_Some.
    + destruct (Htak i) as [?|[k' Hk']]; [lia|done|by left|]. right. exists k'.
      rewrite list_lookup_insert_ne; [done|]. congruence.
  - intros k' w [(-> & <- & _)|(Hne & Hw)]%list_lookup_insert_Some; [by eapply lookup_lt_Some|].
    specialize (Hwk k' w Hw). destruct w; try done. lia.
  - apply lookup_ge_None in Hi. intros i Hlt Hn. destruct (Htak i) as [?|[k' Hk']]; [lia|done|by left|].
    right. exists k'. rewrite list_lookup_insert_ne; [done|]. congruence.
  - apply lookup_ge_None in Hi. intros k' w [(-> & <- & _)|(Hne & Hw)]%list_lookup_insert_Some; [lia|].
    specialize (Hwk k' w Hw). destruct w; try done. lia.
Qed.

Lemma turn_eval_ok p k i : pool_ok p -> workers p !! k = Some (Evaluating i) ->
  pool_ok (turn instances systemPrompt duration p k).
Proof using registered.
  intros [Hlen Hres Htak Hwk] Hk. unfold turn. rewrite Hk. pose proof (Hwk _ _ Hk) as Hin. cbn in Hin.
  destruct (lookup_lt_is_Some_2 _ _ Hin) as [inst Hi]. rewrite Hi.
  destruct (evaluate_ok i inst Hi) as [r Hr]. rewrite Hr. split; cbn.
  - by rewrite length_insert.
  - intros j r'. intros [(-> & [= <-] & _)|(Hne & Hj)]%list_lookup_insert_Some; [by exists inst|by apply Hres].
  - intros j Hlt Hn. destruct (decide (j = i)) as [->|Hne].
    + left. exists r. apply list_lookup_insert_eq. lia.
    + rewrite list_lookup_insert_ne by done. destruct (Htak j Hlt Hn) as [?|[k' Hk']]; [by left|].
      right. exists k'. rewrite list_lookup_insert_ne; [done|]. congruence.
  - intros k' w [(-> & <- & _)|(Hne & Hw)]%list_lookup_insert_Some; [done|]. by apply (Hwk k' w).
Qed.

Lemma turn_ok p k : pool_ok p -> pool_ok (turn instances systemPrompt duration p k).
Proof using registered.
  intros Hp. destruct (workers p !! k) as [[|i| |e]|] eqn:Hk.
  - by apply turn_idle_ok.
  - by eapply turn_eval_ok.
  - unfold turn. by rewrite Hk.
  - unfold turn. by rewrite Hk.
  - unfold turn. by rewrite Hk.
Qed.

Lemma pool_run_ok concurrency schedule : pool_ok (run instances systemPrompt duration concurrency schedule).
Proof using registered.
  unfold run. generalize (pool_start_ok concurrency). generalize (start instances concurrency).
  induction schedule as [|k schedule IH]; intros p Hp; cbn [foldl]; [done|]. by apply IH, turn_ok.
Qed.

Lemma turn_workers_length p k : length (workers (turn instances systemPrompt duration p k)) = length (workers p).
Proof. unfold turn. repeat case_match; cbn; by rewrite ?length_insert. Qed.

Lemma run_workers_length concurrency schedule :
  length (workers (run instances systemPrompt duration concurrency schedule)) = pool_size instances concurrency.
Proof.
  unfold run. rewrite <-(length_replicate (pool_size instances concurrency) Idle).
  change (replicate (pool_size instances concurrency) Idle) with (workers (start instances concurrency)).
  generalize (start instances concurrency).
  induction schedule as [|k schedule IH]; intros p; cbn [foldl]; [done|]. by rewrite IH, turn_workers_length.
Qed.

Lemma all_some {A} (l : list (option A)) : (forall i, (i < length l)%nat -> exists r, l !! i = Some (Some r)) ->
  exists rs, l = Some <$> rs /\ mapM (fun x => x) l = Some rs.
Proof.
  induction l as [|x l IH]; intros Hl; [by exists []|].
  destruct (Hl 0%nat) as [r Hr]; [cbn; lia|]. injection Hr as ->.
  destruct IH as (rs & -> & Hm). { intros i Hi. destruct (Hl (S i)) as [r' Hr']; [cbn; lia|]. by exists r'. }
  exists (r :: rs). split; [done|]. cbn. by rewrite Hm.
Qed.

(** When every worker has returned, every slot holds the evaluation of its instance. *)
Lemma done_complete concurrency schedule :
  let p := run instances systemPrompt duration concurrency schedule in
  done_ p = true -> forall i, (i < length instances)%nat -> exists r, results p !! i = Some (Some r).
Proof using registered.
  intros p Hd i Hi. destruct (pool_run_ok concurrency schedule) as [_ _ Htak Hwk]. fold p in Htak, Hwk.
  unfold done_ in Hd. rewrite forallb_forall in Hd.
  assert (forall k w, workers p !! k = Some w -> w = Finished) as Hfin.
  { intros k w Hk. specialize (Hd w ltac:(apply list_elem_of_In; by eapply list_elem_of_lookup_2)). by destruct w. }
  pose proof (run_workers_length concurrency schedule) as Hlen. fold p in Hlen.
  destruct (lookup_lt_is_Some_2 (workers p) 0) as [w Hw].
  { rewrite Hlen. unfold pool_size. lia. }
  pose proof (Hfin _ _ Hw) as ->. specialize (Hwk _ _ Hw). cbn in Hwk.
  destruct (Htak i) as [?|[k Hk]]; [lia|done|done|]. by specialize (Hfin _ _ Hk).
Qed.

(** A turn of a worker that has not returned. *)
Definition effective (p : pool) (k : nat) : bool :=
  match workers p !! k with Some Idle | Some (Evaluating _) => true | _ => false end.
Fixpoint effective_run (p : pool) (schedule : list nat) : bool :=
  match schedule with
  | [] => true
  | k :: schedule => effective p k && effective_run (turn instances systemPrompt duration p k) schedule
  end.

Definition weight (w : worker) : Z := match w with Idle => 1 | Evaluating _ => 2 | _ => 0 end.
Definition work_left (p : pool) : Z :=
  3 * Z.of_nat (length instances - next p) + sumZ (weight <$> workers p).

Lemma turn_work p k : pool_ok p -> effective p k = true ->
  work_left (turn instances systemPrompt duration p k) < work_left p.
Proof using registered.
  intros Hp. unfold effective, turn, work_left. destruct (workers p !! k) as [[|i| |e]|] eqn:Hk; try done; intros _.
  - assert ((weight <$> workers p) !! k = Some 1) as Hw by by rewrite list_lookup_fmap, Hk.
    destruct (instances !! next p) eqn:Hi; cbn [workers next]; rewrite list_fmap_insert, (sumZ_insert _ _ 1) by done; cbn.
    + apply lookup_lt_Some in Hi. lia.
    + apply lookup_ge_None in Hi. lia.
  - assert ((weight <$> workers p) !! k = Some 2) as Hw by by rewrite list_lookup_fmap, Hk.
    pose proof (ok_worker p Hp _ _ Hk) as Hin. cbn in Hin. destruct (lookup_lt_is_Some_2 _ _ Hin) as [inst Hi].
    rewrite Hi. destruct (evaluate_ok i inst Hi) as [r ->].
    cbn [workers next]. rewrite list_fmap_insert, (sumZ_insert _ _ 2) by done. cbn. lia.
Qed.

Lemma work_left_nonneg p : 0 <= work_left p.
Proof.
  unfold work_left. assert (0 <= sumZ (weight <$> workers p)); [|lia].
  apply sumZ_nonneg, Forall_fmap, Forall_forall. intros [] _; cbn; lia.
Qed.

Lemma effective_run_bound schedule : forall p, pool_ok p -> effective_run p schedule = true ->
  Z.of_nat (length schedule) <= work_left p.
Proof using registered.
  induction schedule as [|k schedule IH]; intros p Hp; cbn [effective_run length].
  - intros _. pose proof (work_left_nonneg p). lia.
  - intros [He Hr]%andb_true_iff. specialize (IH _ (turn_ok p k Hp) Hr). pose proof (turn_work p k Hp He). lia.
Qed.

(** C32: concurrency changes neither the results nor their order.  If the instances' templates are
    registered, then for every number of workers and every interleaving of their turns: at most
    [3 * n + workers] turns can be taken, some worker can take one as long as not all have returned, and
    once all have returned, [runSuite] yields exactly one result per instance, at its index, the one
    that evaluating the instance alone gives, with their mean as pass rate. *)
Theorem runSuite_schedule_independent concurrency schedule :
  let p := run instances systemPrompt duration concurrency schedule in
  (effective_run (start instances concurrency) schedule = true ->
     Z.of_nat (length schedule) <= 3 * Z.of_nat (length instances) + Z.of_nat (pool_size instances concurrency)) /\
  (done_ p = false -> exists k, effective p k = true) /\
  (done_ p = true -> exists rs,
     runSuite instances systemPrompt concurrency duration schedule =
       Some {| sr_results := rs; sr_passRate := passRate rs |} /\
     length rs = length instances /\ forall i r, rs !! i = Some r -> evaluated i r).
Proof using registered.
  intros p. split_and!.
  - intros He. pose proof (effective_run_bound _ _ (pool_start_ok concurrency) He) as Hb. unfold work_left in Hb. cbn in Hb.
    rewrite fmap_replicate, sumZ_replicate in Hb. cbn in Hb. lia.
  - intros Hd. unfold done_ in Hd. destruct (pool_run_ok concurrency schedule) as [_ _ _ Hwk]. fold p in Hwk.
    assert (exists w, w ∈ workers p /\ is_finished w = false) as (w & Hin & Hw).
    { revert Hd. generalize (workers p). intros l. induction l as [|w l IH]; cbn; [done|].
      destruct (is_finished w) eqn:E; cbn; [|intros _; exists w; split; [left|done]].
      intros Hd. destruct (IH Hd) as (w' & ? & ?). exists w'. split; [by right|done]. }
    apply list_elem_of_lookup in Hin as [k Hk]. exists k. unfold effective. rewrite Hk.
    specialize (Hwk _ _ Hk). by destruct w.
  - intros Hd. destruct (pool_run_ok concurrency schedule) as [Hlen Hres _ _]. fold p in Hlen, Hres.
    destruct (all_some (results p)) as (rs & Hrs & Hm).
    { rewrite Hlen. by apply done_complete. }
    exists rs. unfold runSuite. fold p. rewrite Hd, Hm. split_and!; [done| |].
    + by rewrite <-Hlen, Hrs, length_fmap.
    + intros i r Hi. apply Hres. rewrite Hrs, list_lookup_fmap, Hi. done.
Qed.
End schedules.

(** ** The decision *)

Lemma by_id_self rs r : NoDup (er_instanceId <$> rs) -> r ∈ rs -> by_id rs (er_instanceId r) = Some r.
Proof.
  intros Hnd Hin. unfold by_id.
  assert (forall x, x ∈ rev rs <-> x ∈ rs) as Hrev by (intros x; by rewrite !list_elem_of_In, <-in_rev).
  destruct (find _ (rev rs)) as [o|] eqn:E.
  - apply find_Some in E as [Ho%Hrev Heq%String.eqb_eq].
    apply list_elem_of_lookup in Ho as [a Ha], Hin as [b Hb]. f_equal.
    assert (a = b) as ->; [|congruence]. eapply NoDup_lookup; [exact Hnd|..]; rewrite list_lookup_fmap.
    + by rewrite Ha.
    + by rewrite Hb, Heq.
  - rewrite find_None in E. specialize (E r (proj2 (Hrev r) Hin)). by rewrite String.eqb_refl in E.
Qed.

Lemma num_sub_self x : isFinite x = true -> num_sub x x = num_zero.
Proof.
  destruct x as [s|s| |s m e]; try done; intros _; [by destruct s|].
  unfold num_sub, SpecFloat.SFsub. by rewrite Z.sub_diag.
Qed.

Lemma pairedDelta_self rs n : NoDup (er_instanceId <$> rs) -> Forall (fun r => isFinite (er_score r) = true) rs ->
  pairedDelta rs rs n = num_div num_zero n.
Proof.
  intros Hnd Hfin. unfold pairedDelta. f_equal.
  assert (forall l, l ⊆ rs -> foldl (fun acc r => num_add acc (match by_id rs (er_instanceId r) with
            | Some o => num_sub (er_score r) (er_score o) | None => num_zero end)) num_zero l = num_zero) as Hl; [|by apply Hl].
  induction l as [|r l IH]; intros Hsub; cbn [foldl]; [done|].
  assert (r ∈ rs) as Hr by (apply Hsub; left). rewrite (by_id_self rs r Hnd Hr).
  rewrite Forall_forall in Hfin. rewrite (num_sub_self _ (Hfin _ Hr)).
  change (num_add num_zero num_zero) with num_zero. apply IH. intros x Hx. apply Hsub. by right.
Qed.

Lemma decide_zero n margin : num_ltb num_zero margin = true -> decide_gate (num_div num_zero n) margin = keep.
Proof.
  intros Hm. destruct margin as [s|[]| |[] m e]; try done; destruct n as [s'|s'| |s' m' e']; done.
Qed.

(** A change without effect is never decided on.  When the candidate knowledge yields the same
    results as the incumbent's (with finite scores under distinct ids), the comparison keeps the
    incumbent: it neither promotes nor reverts, for every tolerance whose margin is positive. *)
Theorem identical_runs_keep count tolerance (run_ : SuiteRun) :
  NoDup (er_instanceId <$> sr_results run_) ->
  Forall (fun r => isFinite (er_score r) = true) (sr_results run_) ->
  num_ltb num_zero (h_margin (compare_runs count tolerance run_ run_)) = true ->
  h_decision (compare_runs count tolerance run_ run_) = keep.
Proof.
  intros Hnd Hfin Hm. unfold compare_runs in *. cbn [h_decision h_margin] in *.
  rewrite pairedDelta_self by done. by apply decide_zero.
Qed.

(** ** The gate *)

Record GateOptions := {
  go_candidateSha : string; go_baselineSha : string; go_suiteSeed : Z; go_instanceCount : option Z;
  go_version : option string; go_tolerance : option num }.

Record GateRun := {
  gr_cert : GateCertificate; gr_reverted : bool; gr_instances : list EvalInstance }.

(** What the gate does to the knowledge repository. *)
Inductive gate_effect := RevertCommit (sha : string).

(** The two knowledge prompts come from git; the interleavings of the two runs are given. *)
Context (knowledgePromptAt : string -> result string string) (revertCommit : string -> option string)
        (now baseModel : string) (sign : GateCertificate -> string) (verify : GateCertificate -> bool).

Definition with_signature (c : GateCertificate) (s : string) : GateCertificate :=
  {| gc_id := gc_id c; gc_date := gc_date c; gc_knowledgeSha := gc_knowledgeSha c; gc_baseModel := gc_baseModel c;
     gc_suiteSeed := gc_suiteSeed c; gc_instanceCount := gc_instanceCount c; gc_oldScore := gc_oldScore c;
     gc_newScore := gc_newScore c; gc_decision := gc_decision c; gc_signature := Some s |}.

Definition gate_certificate (opts : GateOptions) (count : Z) (h : HeadToHeadResult) : GateCertificate :=
  {| gc_id := "gate-" +:+ String.substring 0 10 now +:+ "-" +:+ String.substring 0 10 (go_candidateSha opts);
     gc_date := now; gc_knowledgeSha := go_candidateSha opts; gc_baseModel := baseModel;
     gc_suiteSeed := go_suiteSeed opts; gc_instanceCount := count; gc_oldScore := h_oldScore h;
     gc_newScore := h_newScore h; gc_decision := h_decision h; gc_signature := None |}.

(** The effects performed so far are returned with the result, also when it is an error. *)
Definition runGate (opts : GateOptions) (durOld durNew : nat -> Z) (schedOld schedNew : list nat) :
    result string GateRun * list gate_effect :=
  let count := default 12 (go_instanceCount opts) in
  let version := default ("gate:" +:+ go_baselineSha opts +:+ ".." +:+ go_candidateSha opts) (go_version opts) in
  match generateSuite (go_suiteSeed opts) version count with
  | Err e => (Err e, [])
  | Ok instances =>
      match knowledgePromptAt (go_baselineSha opts), knowledgePromptAt (go_candidateSha opts) with
      | Ok oldSystem, Ok newSystem =>
          match headToHead instances oldSystem newSystem (Some (default num_zero (go_tolerance opts))) None
                  durOld durNew schedOld schedNew with
          | None => (Err "pending", [])
          | Some h =>
              let reverts := bool_decide (h_decision h = revert) in
              match (if reverts then revertCommit (go_candidateSha opts) else None) with
              | Some e => (Err e, [])
              | None =>
                  let effects := if reverts then [RevertCommit (go_candidateSha opts)] else [] in
                  let unsigned := gate_certificate opts count h in
                  let cert := with_signature unsigned (sign unsigned) in
                  if verify cert then
                    (Ok {| gr_cert := cert; gr_reverted := reverts; gr_instances := instances |}, effects)
                  else (Err "gate produced a certificate that fails its own signature", effects)
              end
          end
      | Err e, _ | _, Err e => (Err e, [])
      end
  end.

(** A gate's certificate tells what happened.  If the gate returns, its certificate verifies, names
    the candidate, and its scores and decision are those of comparing the two complete runs over the
    same freshly sampled instances, as many as it states; the candidate commit was reverted if and only
    if the certified decision is "revert", and nothing else was done to the repository. *)
Theorem gate_certificate_faithful opts durOld durNew schedOld schedNew g effects :
  runGate opts durOld durNew schedOld schedNew = (Ok g, effects) ->
  verify (gr_cert g) = true /\ gc_knowledgeSha (gr_cert g) = go_candidateSha opts /\
  Z.of_nat (length (gr_instances g)) = gc_instanceCount (gr_cert g) /\ NoDup (ei_id <$> gr_instances g) /\
  (exists old new oldRun newRun,
     knowledgePromptAt (go_baselineSha opts) = Ok old /\ knowledgePromptAt (go_candidateSha opts) = Ok new /\
     runSuite (gr_instances g) (Some old) None durOld schedOld = Some oldRun /\
     runSuite (gr_instances g) (Some new) None durNew schedNew = Some newRun /\
     gc_oldScore (gr_cert g) = sr_passRate oldRun /\ gc_newScore (gr_cert g) = sr_passRate newRun /\
     gc_decision (gr_cert g) = h_decision (compare_runs (gc_instanceCount (gr_cert g))
       (Some (default num_zero (go_tolerance opts))) oldRun newRun)) /\
  gr_reverted g = bool_decide (gc_decision (gr_cert g) = revert) /\
  effects = (if gr_reverted g then [RevertCommit (go_candidateSha opts)] else []).
Proof.
  unfold runGate. cbn zeta. set (count := default 12 (go_instanceCount opts)).
  destruct (generateSuite _ _ count) as [instances|] eqn:Hgen; [|done].
  assert (0 < count) as Hc.
  { unfold generateSuite in Hgen. destruct (count <=? 0) eqn:E; [done|]. by apply Z.leb_gt in E. }
  destruct (generateSuite_spec (go_suiteSeed opts)
    (default ("gate:" +:+ go_baselineSha opts +:+ ".." +:+ go_candidateSha opts) (go_version opts)) count Hc)
    as (suite & Hs & Hlen & Hnd & _). rewrite Hgen in Hs. injection Hs as <-.
  destruct (knowledgePromptAt (go_baselineSha opts)) as [old|] eqn:Hold; [|done].
  destruct (knowledgePromptAt (go_candidateSha opts)) as [new|] eqn:Hnew; [|done].
  destruct (headToHead _ _ _ _ _ _ _ _ _) as [h|] eqn:Hh; [|done].
  destruct (if bool_decide (h_decision h = revert) then _ else None) as [e|]; [done|].
  destruct (verify _) eqn:Hv; [|done]. intros [= <- <-]. cbn.
  unfold headToHead in Hh. destruct (runSuite instances (Some old) None durOld schedOld) as [oldRun|] eqn:Ho; [|done].
  destruct (runSuite instances (Some new) None durNew schedNew) as [newRun|] eqn:Hn; [|done].
  cbn in Hh. injection Hh as <-. rewrite <-Hlen in Hv |- *.
  split_and!; try done. exists old, new, oldRun, newRun. by split_and!.
Qed.
End score.

(** ** Concrete runs *)

Definition demo_endpoint (_ : list ChatMsg) (_ : ChatOptions) : result string string := Err "unreachable".
Definition demo_instances : list EvalInstance := [@ticket_make demo_text 7; @translate_make demo_text 3].

Lemma demo_registered inst : inst ∈ demo_instances -> is_ok (@getTemplate demo_text (ei_templateId inst)) = true.
Proof.
  unfold demo_instances. rewrite !elem_of_cons, elem_of_nil. intros [->|[->|[]]]; vm_compute; reflexivity.
Defined.

Lemma runSuite_schedule_independent_witness : exists rs,
  @runSuite demo_text demo_endpoint demo_instances None None (fun _ => 0) [0; 1; 0; 1; 1; 0]%nat =
    Some {| sr_results := rs; sr_passRate := passRate rs |} /\ length rs = 2%nat.
Proof.
  destruct (@runSuite_schedule_independent demo_text demo_endpoint demo_instances None (fun _ => 0) demo_registered
    None [0; 1; 0; 1; 1; 0]%nat) as (_ & _ & Hd).
  destruct (Hd ltac:(vm_compute; reflexivity)) as (rs & Hr & Hlen & _). exists rs. split; [exact Hr|exact Hlen].
Defined.

Definition demo_result (i : string) (score : num) : EvalResult :=
  {| er_instanceId := i; er_output := ""; er_passed := false; er_score := score; er_durationMs := 0; er_nodeId := None |}.
Definition demo_run : SuiteRun :=
  let rs := [demo_result "a" half; demo_result "b" (num_of_Z 1)] in {| sr_results := rs; sr_passRate := passRate rs |}.

Lemma identical_runs_keep_witness : h_decision (compare_runs 2 None demo_run demo_run) = keep.
Proof.
  apply (identical_runs_keep 2 None demo_run).
  - apply (bool_decide_eq_true_1 _). vm_compute. reflexivity.
  - repeat constructor.
  - vm_compute. reflexivity.
Defined.

Definition demo_opts : GateOptions :=
  {| go_candidateSha := "cand"; go_baselineSha := "base"; go_suiteSeed := 5; go_instanceCount := Some 2;
     go_version := None; go_tolerance := None |}.
Definition demo_verify (c : GateCertificate) : bool := bool_decide (gc_signature c = Some (gc_id c)).
Notation demo_gate :=
  (@runGate demo_text demo_endpoint (fun sha => Ok sha) (fun _ => None) "2026-01-05T00:00:00.000Z" "mock" gc_id demo_verify
    demo_opts (fun _ => 0) (fun _ => 0) [0; 1; 0; 1; 0; 1]%nat [1; 0; 1; 0; 0; 1]%nat) (only parsing).

Lemma gate_certificate_faithful_witness : exists g effects, demo_gate = (Ok g, effects) /\
  effects = (if gr_reverted g then [RevertCommit "cand"] else []) /\ demo_verify (gr_cert g) = true.
Proof.
  assert (is_ok demo_gate.1 = true) as Hok by (vm_compute; reflexivity).
  destruct demo_gate as [[g|e] effects] eqn:E; [|discriminate Hok].
  exists g, effects. split; [reflexivity|].
  apply gate_certificate_faithful in E as (Hv & _ & _ & _ & _ & _ & He). split; [exact He|exact Hv].
Defined.
