(* ===== verification/Frame.v ===== *)
(** * Stream multiplexing (protocol/frame.ts)

    The frame codec and the two classes of the module.  Streams are shared mutable objects: a heap
    of [MuxStream] records, referred to by index, and the muxes that own them.  Handlers registered
    with [onData] and [onEnd] are values of a type [H] that the client interprets ([Client]); the
    transport is the client's [sendRaw], which may throw ([Transport]).  Bytes are integers. *)

From Stdlib Require Import Ascii.
From S2P Require Import Prelude JsNum Json Canon.

Local Open Scope string_scope.
Local Open Scope list_scope.
Local Open Scope Z_scope.

Definition bytes : Type := list Z.
Definition size (b : bytes) : Z := Z.of_nat (length b).

(** ** Frames *)

Definition OP_OPEN : Z := 1.
Definition OP_DATA : Z := 2.
Definition OP_CLOSE : Z := 3.
Definition MAX_OPEN_STREAMS : Z := 1024.
Definition MAX_PENDING_STREAM_BYTES : Z := 16 * 1024 * 1024.
Definition MAX_PENDING_MUX_BYTES : Z := 64 * 1024 * 1024.
Definition MAX_HEADER_BYTES : Z := 16 * 1024.

Definition name (v : option json) : bool :=
  holds (fun s => (0 <? String.length s)%nat && (String.length s <=? 256)%nat) (as_str v).

(** [typeof v === "object"], not null, not an array; an integral port; a kind with its names. *)
Definition headerShape (v : json) : bool :=
  holds (fun h =>
    holds (fun n => isInteger n && num_ltb num_zero n && num_ltb n (num_of_Z 65536)) (as_num (jget h "port")) &&
    (is_string "http" (jget h "kind") ||
     is_string "data" (jget h "kind") && name (jget h "from") ||
     is_string "relay" (jget h "kind") && name (jget h "from") && name (jget h "target")))
  (as_obj (Some v)).

(** [x >>> 0] *)
Definition u32 (x : Z) : Z := x mod 2 ^ 32.
(** [DataView.setUint32 / getUint32], big-endian *)
Definition be32 (x : Z) : bytes :=
  [Z.land (Z.shiftr x 24) 255; Z.land (Z.shiftr x 16) 255; Z.land (Z.shiftr x 8) 255; Z.land x 255].
Definition of_be32 (a b c d : Z) : Z :=
  Z.lor (Z.shiftl a 24) (Z.lor (Z.shiftl b 16) (Z.lor (Z.shiftl c 8) d)).

Definition encodeFrame (streamId op : Z) (payload : bytes) : bytes :=
  be32 (u32 streamId) ++ Z.land op 255 :: payload.

Record Frame := { streamId : Z; op : Z; payload : bytes }.

Definition decodeFrame (buf : bytes) : result string Frame :=
  match buf with
  | a :: b :: c :: d :: op :: payload =>
      if negb (op =? OP_OPEN) && negb (op =? OP_DATA) && negb (op =? OP_CLOSE) then Err "unknown op"
      else Ok {| streamId := of_be32 a b c d; op := op; payload := payload |}
  | _ => Err "frame too short"
  end.

(** [TextEncoder.encode] (UTF-8) of code units below 256, the ones a model string holds. *)
Fixpoint text_encode (s : string) : bytes :=
  match s with
  | EmptyString => []
  | String a s =>
      let n := Z.of_nat (nat_of_ascii a) in
      (if n <? 128 then [n] else [Z.lor 192 (Z.shiftr n 6); Z.lor 128 (Z.land n 63)]) ++ text_encode s
  end.

(** [TextDecoder.decode], with replacement of ill-formed input, is the host's. *)
Class TextCodec := text_decode : bytes -> string.

(** ** Objects *)

Section mux.
Context {H : Type}.

Record MuxStream := {
  id : Z;
  header : fields;
  mux : nat;
  dataCb : option H;
  endCb : option H;
  pending : list bytes;
  pendingBytes : Z;
  ended : bool;
  endedReason : option json;
  closedLocally : bool }.

(** [streams] is the [Map] in insertion order; [sent] records the frames given to [sendRaw]. *)
Record StreamMux := {
  streams : list (Z * nat);
  nextId : Z;
  bytesIn : Z;
  bytesOut : Z;
  muxPending : Z;
  sent : list bytes }.

Record World := { heap : list MuxStream; muxes : list StreamMux }.

Definition MW : Type -> Type := M World string.

Definition new_MuxStream (i : Z) (h : fields) (m : nat) : MuxStream :=
  {| id := i; header := h; mux := m; dataCb := None; endCb := None; pending := []; pendingBytes := 0;
     ended := false; endedReason := None; closedLocally := false |}.
Definition new_StreamMux (parity : Z) : StreamMux :=
  {| streams := []; nextId := if parity =? 1 then 1 else 2; bytesIn := 0; bytesOut := 0;
     muxPending := 0; sent := [] |}.

(** Object access; a dangling reference does not occur in the code and is an error here. *)
Definition stream_of (r : nat) : MW MuxStream := fun w =>
  match heap w !! r with Some s => (Ok s, w) | None => (Err "no such stream", w) end.
Definition mux_of (m : nat) : MW StreamMux := fun w =>
  match muxes w !! m with Some x => (Ok x, w) | None => (Err "no such mux", w) end.
Definition put_stream (r : nat) (s : MuxStream) : MW unit :=
  mmodify (fun w => {| heap := <[r:=s]> (heap w); muxes := muxes w |}).
Definition put_mux (m : nat) (x : StreamMux) : MW unit :=
  mmodify (fun w => {| heap := heap w; muxes := <[m:=x]> (muxes w) |}).
Definition alloc (s : MuxStream) : MW nat := fun w =>
  (Ok (length (heap w)), {| heap := heap w ++ [s]; muxes := muxes w |}).

Definition set_data (s : MuxStream) (cb : H) : MuxStream :=
  {| id := id s; header := header s; mux := mux s; dataCb := Some cb; endCb := endCb s; pending := pending s;
     pendingBytes := pendingBytes s; ended := ended s; endedReason := endedReason s; closedLocally := closedLocally s |}.
Definition set_end (s : MuxStream) (cb : H) : MuxStream :=
  {| id := id s; header := header s; mux := mux s; dataCb := dataCb s; endCb := Some cb; pending := pending s;
     pendingBytes := pendingBytes s; ended := ended s; endedReason := endedReason s; closedLocally := closedLocally s |}.
Definition set_pending (s : MuxStream) (p : list bytes) (n : Z) : MuxStream :=
  {| id := id s; header := header s; mux := mux s; dataCb := dataCb s; endCb := endCb s; pending := p;
     pendingBytes := n; ended := ended s; endedReason := endedReason s; closedLocally := closedLocally s |}.
Definition set_ended (s : MuxStream) (reason : option json) : MuxStream :=
  {| id := id s; header := header s; mux := mux s; dataCb := dataCb s; endCb := endCb s; pending := pending s;
     pendingBytes := pendingBytes s; ended := true; endedReason := reason; closedLocally := closedLocally s |}.
Definition set_closed (s : MuxStream) : MuxStream :=
  {| id := id s; header := header s; mux := mux s; dataCb := dataCb s; endCb := endCb s; pending := pending s;
     pendingBytes := pendingBytes s; ended := ended s; endedReason := endedReason s; closedLocally := true |}.

Definition set_streams (x : StreamMux) (l : list (Z * nat)) : StreamMux :=
  {| streams := l; nextId := nextId x; bytesIn := bytesIn x; bytesOut := bytesOut x;
     muxPending := muxPending x; sent := sent x |}.
Definition set_muxPending (x : StreamMux) (n : Z) : StreamMux :=
  {| streams := streams x; nextId := nextId x; bytesIn := bytesIn x; bytesOut := bytesOut x;
     muxPending := n; sent := sent x |}.
Definition count_in (x : StreamMux) (n : Z) : StreamMux :=
  {| streams := streams x; nextId := nextId x; bytesIn := bytesIn x + n; bytesOut := bytesOut x;
     muxPending := muxPending x; sent := sent x |}.
Definition count_out (x : StreamMux) (frame : bytes) : StreamMux :=
  {| streams := streams x; nextId := nextId x; bytesIn := bytesIn x; bytesOut := bytesOut x + size frame;
     muxPending := muxPending x; sent := sent x ++ [frame] |}.
Definition bump_id (x : StreamMux) : StreamMux :=
  {| streams := streams x; nextId := nextId x + 2; bytesIn := bytesIn x; bytesOut := bytesOut x;
     muxPending := muxPending x; sent := sent x |}.

(** [Map.get], [Map.set] (a present key keeps its position) and [Map.delete] *)
Definition map_get (i : Z) (l : list (Z * nat)) : option nat := snd <$> find (fun kv => kv.1 =? i) l.
Fixpoint map_set (i : Z) (r : nat) (l : list (Z * nat)) : list (Z * nat) :=
  match l with
  | [] => [(i, r)]
  | (k, x) :: l => if k =? i then (k, r) :: l else (k, x) :: map_set i r l
  end.
Definition map_delete (i : Z) (l : list (Z * nat)) : list (Z * nat) :=
  base.filter (fun kv => kv.1 <> i) l.
End mux.

Arguments MuxStream : clear implicits.
Arguments World : clear implicits.
Arguments MW : clear implicits.

(** The transport: whether the next [sendRaw] throws, given the frames it has been given. *)
Class Transport := send_throws : nat -> list bytes -> bytes -> option string.

(** The client: what its handlers do.  [run_open m s] is the [onOpen] of mux [m]; it answers
    [accepted !== false]. *)
Class Client (H : Type) := {
  run_data : H -> bytes -> MW H unit;
  run_end : H -> option json -> MW H unit;
  run_open : nat -> nat -> MW H bool }.

(** ** Operations that call no handler *)

Section writes.
Context {H : Type} `{Transport} `{JsonText}.

Definition isClosed (s : MuxStream H) : bool := closedLocally s || ended s.

Definition send (m : nat) (frame : bytes) : MW H unit :=
  x ← mux_of m;
  put_mux m (count_out x frame);;
  match send_throws m (sent x) frame with Some e => mthrow e | None => mret tt end.

Definition forget (m : nat) (i : Z) : MW H unit :=
  x ← mux_of m; put_mux m (set_streams x (map_delete i (streams x))).

Definition reservePending (m : nat) (n : Z) : MW H bool :=
  x ← mux_of m;
  if MAX_PENDING_MUX_BYTES <? muxPending x + n then mret false
  else put_mux m (set_muxPending x (muxPending x + n));; mret true.

Definition releasePending (m : nat) (n : Z) : MW H unit :=
  x ← mux_of m; put_mux m (set_muxPending x (muxPending x - n)).

Definition clearPending (r : nat) : MW H unit :=
  s ← stream_of r;
  releasePending (mux s) (pendingBytes s);;
  put_stream r (set_pending s [] 0).

Definition write (r : nat) (chunk : bytes) : MW H unit :=
  s ← stream_of r;
  if isClosed s then mret tt else send (mux s) (encodeFrame (id s) OP_DATA chunk).

Definition reason_payload (reason : option json) : bytes :=
  if truthy_json reason then
    text_encode (stringify (JObj (match reason with Some v => [("reason", v)] | None => [] end)))
  else [].

Definition close (r : nat) (reason : option json) : MW H unit :=
  s ← stream_of r;
  if closedLocally s then mret tt else
  put_stream r (set_closed s);;
  clearPending r;;
  forget (mux s) (id s);;
  send (mux s) (encodeFrame (id s) OP_CLOSE (reason_payload reason)).
End writes.

(** ** Operations that may call handlers *)

Section handlers.
Context {H : Type} `{Transport} `{JsonText} `{TextCodec} `{!Client H}.

(** [for (const c of pending) { if (this.isClosed) break; cb(c); }] *)
Fixpoint flush (r : nat) (cb : H) (l : list bytes) : MW H unit :=
  match l with
  | [] => mret tt
  | c :: l => s ← stream_of r; if isClosed s then mret tt else run_data cb c;; flush r cb l
  end.

Definition onData (r : nat) (cb : H) : MW H unit :=
  s ← stream_of r;
  put_stream r (set_data s cb);;
  clearPending r;;
  flush r cb (pending s).

Definition onEnd (r : nat) (cb : H) : MW H unit :=
  s ← stream_of r;
  put_stream r (set_end s cb);;
  mwhen (ended s) (run_end cb (endedReason s)).

Definition end_ (r : nat) (reason : option json) : MW H unit :=
  s ← stream_of r;
  if ended s then mret tt else
  put_stream r (set_ended s reason);;
  clearPending r;;
  match endCb s with Some cb => run_end cb reason | None => mret tt end.

Definition limit_reason : option json := Some (JStr "pending data limit exceeded").

Definition over_limit (r : nat) : MW H unit := mfinally (close r limit_reason) (end_ r limit_reason).

Definition deliver (r : nat) (chunk : bytes) : MW H unit :=
  s ← stream_of r;
  if isClosed s then mret tt else
  match dataCb s with
  | Some cb => run_data cb chunk
  | None =>
      if size chunk =? 0 then mret tt
      else if MAX_PENDING_STREAM_BYTES <? pendingBytes s + size chunk then over_limit r
      else
        ok ← reservePending (mux s) (size chunk);
        if (ok : bool) then put_stream r (set_pending s (pending s ++ [chunk]) (pendingBytes s + size chunk))
        else over_limit r
  end.

Definition open_failed : option json := Some (JStr "open failed").

Definition open (m : nat) (hd : json) : MW H nat :=
  match (if headerShape hd then as_obj (Some hd) else None) with
  | None => mthrow "invalid stream header"
  | Some h =>
      x ← mux_of m;
      if MAX_OPEN_STREAMS <=? Z.of_nat (length (streams x)) then mthrow "open stream limit exceeded" else
      r ← alloc (new_MuxStream (nextId x) h m);
      put_mux m (set_streams (bump_id x) (map_set (nextId x) r (streams x)));;
      mtry (send m (encodeFrame (nextId x) OP_OPEN (text_encode (stringify hd))))
        (fun e => forget m (nextId x);; end_ r open_failed;; mthrow e);;
      mret r
  end.

Definition handle_open (m : nat) (f : Frame) : MW H unit :=
  x ← mux_of m;
  if bool_decide (is_Some (map_get (streamId f) (streams x))) then mthrow "already open" else
  if MAX_HEADER_BYTES <? size (payload f) then mthrow "stream header too large" else
  match JSON_parse (text_decode (payload f)) with
  | None => mthrow "invalid JSON"
  | Some hd =>
      match (if headerShape hd then as_obj (Some hd) else None) with
      | None => mthrow "invalid stream header"
      | Some h =>
          if MAX_OPEN_STREAMS <=? Z.of_nat (length (streams x)) then
            send m (encodeFrame (streamId f) OP_CLOSE
              (reason_payload (Some (JStr "open stream limit exceeded"))))
          else
            r ← alloc (new_MuxStream (streamId f) h m);
            put_mux m (set_streams x (map_set (streamId f) r (streams x)));;
            mtry (accepted ← run_open m r;
                  mwhen (negb accepted) (close r (Some (JStr "rejected"))))
              (fun e => mfinally (close r open_failed) (end_ r open_failed);; mthrow e)
      end
  end.

(** The reason of a CLOSE frame; anything that is not JSON with a [reason] is ignored. *)
Definition close_reason (p : bytes) : option json :=
  if size p =? 0 then None
  else match JSON_parse (text_decode p) with Some (JObj o) => jget o "reason" | _ => None end.

Definition handleFrame (m : nat) (buf : bytes) : MW H unit :=
  x ← mux_of m;
  put_mux m (count_in x (size buf));;
  match decodeFrame buf with
  | Err e => mthrow e
  | Ok f =>
      if op f =? OP_OPEN then handle_open m f else
      match map_get (streamId f) (streams x) with
      | None => mret tt
      | Some r =>
          if op f =? OP_DATA then deliver r (payload f)
          else forget m (streamId f);; end_ r (close_reason (payload f))
      end
  end.

(** [for (const s of streams) { try { s._end(reason); } catch (e) { firstError ??= e; } }] *)
Fixpoint end_all (l : list nat) (reason : option json) (firstError : option string) : MW H (option string) :=
  match l with
  | [] => mret firstError
  | r :: l =>
      e ← mtry (end_ r reason;; mret firstError)
        (fun e => mret (match firstError with Some f => Some f | None => Some e end));
      end_all l reason e
  end.

Definition closeAll (m : nat) (reason : option json) : MW H unit :=
  x ← mux_of m;
  put_mux m (set_streams x []);;
  e ← end_all (snd <$> streams x) (match reason with None => Some (JStr "transport closed") | r => r end) None;
  match e with Some e => mthrow e | None => mret tt end.
End handlers.

(** ** The relay *)

(** The handlers [bridge] registers: write to a stream, close a stream. *)
Inductive BridgeHandler :=
  | WriteTo (r : nat)
  | CloseOf (r : nat).

Section bridge.
Context `{Transport} `{JsonText} `{TextCodec} (onOpen : nat -> nat -> MW BridgeHandler bool).

(** [r ?? "peer closed"] *)
Definition peer_closed (reason : option json) : option json :=
  match reason with None | Some JNull => Some (JStr "peer closed") | r => r end.

#[local] Instance bridge_client : Client BridgeHandler := {
  run_data h c := match h with WriteTo r => write r c | CloseOf _ => mret tt end;
  run_end h reason := match h with CloseOf r => close r (peer_closed reason) | WriteTo _ => mret tt end;
  run_open := onOpen }.

Definition bridge (a b : nat) : MW BridgeHandler unit :=
  onData a (WriteTo b);;
  onData b (WriteTo a);;
  onEnd a (CloseOf b);;
  onEnd b (CloseOf a).
End bridge.
