(* ===== verification/FrameFacts.v ===== *)
(** * Facts about the stream multiplexer

    The codec round trips, the invariant of the shared heap (buffered bytes are accounted for and
    bounded, a mux lists at most 1024 streams, all of them live) and the relay's ordering. *)

From Stdlib Require Import String Ascii.
From S2P Require Import Prelude JsNum Json Canon Frame.

Local Open Scope list_scope.
Local Open Scope Z_scope.

(** ** Codec *)

Lemma lor_shiftl_add a d n : 0 <= n -> 0 <= d < 2 ^ n -> Z.lor (Z.shiftl a n) d = a * 2 ^ n + d.
Proof.
  intros Hn Hd. rewrite <-(Z.shiftl_mul_pow2 a n) by done.
  assert (Z.land (Z.shiftl a n) d = 0) as Hz.
  { apply Z.bits_inj'. intros i Hi. rewrite Z.land_spec, Z.bits_0.
    destruct (decide (i < n)).
    - by rewrite Z.shiftl_spec_low.
    - assert (Z.testbit d i = false) as ->; [|apply andb_false_r].
      rewrite <-(Z.mod_small d (2 ^ n)) by done. apply Z.mod_pow2_bits_high. lia. }
  pose proof (Z.add_lor_land (Z.shiftl a n) d). lia.
Qed.

Lemma land_255 x : Z.land x 255 = x mod 256.
Proof. apply (Z.land_ones x 8). lia. Qed.

Lemma of_be32_eq a b c d : 0 <= b < 256 -> 0 <= c < 256 -> 0 <= d < 256 ->
  of_be32 a b c d = a * 2 ^ 24 + b * 2 ^ 16 + c * 2 ^ 8 + d.
Proof.
  intros. unfold of_be32.
  rewrite (lor_shiftl_add c d 8) by lia. rewrite (lor_shiftl_add b _ 16) by lia.
  rewrite (lor_shiftl_add a _ 24) by lia. lia.
Qed.

Lemma be32_eq x : 0 <= x < 2 ^ 32 ->
  be32 x = [x / 2 ^ 24; x / 2 ^ 16 mod 256; x / 2 ^ 8 mod 256; x mod 256].
Proof.
  intros Hx. unfold be32. rewrite !Z.shiftr_div_pow2, !land_255 by lia.
  rewrite (Z.mod_small (x / 2 ^ 24)); [done|].
  split; [apply Z.div_pos; lia|]. apply Z.div_lt_upper_bound; lia.
Qed.

Lemma of_be32_be32 x : 0 <= x < 2 ^ 32 ->
  match be32 x with [a; b; c; d] => of_be32 a b c d = x | _ => False end.
Proof.
  intros Hx. rewrite be32_eq by done.
  rewrite of_be32_eq by (apply Z.mod_pos_bound; lia).
  change (2 ^ 32) with 4294967296 in Hx. change (2 ^ 24) with 16777216.
  change (2 ^ 16) with 65536. change (2 ^ 8) with 256.
  Z.to_euclidean_division_equations. lia.
Qed.

Lemma be32_of_be32 a b c d :
  0 <= a < 256 -> 0 <= b < 256 -> 0 <= c < 256 -> 0 <= d < 256 ->
  0 <= of_be32 a b c d < 2 ^ 32 /\ be32 (of_be32 a b c d) = [a; b; c; d].
Proof.
  intros Ha Hb Hc Hd. rewrite of_be32_eq by done.
  assert (0 <= a * 2 ^ 24 + b * 2 ^ 16 + c * 2 ^ 8 + d < 2 ^ 32) as Hx by lia.
  split; [done|]. rewrite be32_eq by done.
  change (2 ^ 24) with 16777216. change (2 ^ 16) with 65536. change (2 ^ 8) with 256.
  repeat f_equal; Z.to_euclidean_division_equations; lia.
Qed.

Definition is_op (o : Z) : Prop := o = OP_OPEN \/ o = OP_DATA \/ o = OP_CLOSE.

Lemma u32_small i : 0 <= i < 2 ^ 32 -> u32 i = i.
Proof. apply Z.mod_small. Qed.

Lemma decode_encode i o p : is_op o ->
  decodeFrame (encodeFrame i o p) = Ok {| streamId := u32 i; op := o; payload := p |}.
Proof.
  intros Ho. unfold encodeFrame, decodeFrame.
  pose proof (of_be32_be32 (u32 i)) as Hi. unfold be32 in *. cbn [app].
  rewrite Hi by (apply Z.mod_pos_bound; lia).
  by destruct Ho as [-> | [-> | ->]].
Qed.

Definition is_byte (z : Z) : Prop := 0 <= z < 256.

(** The frame codec is a bijection: a frame decodes to what was encoded (the stream id modulo
    2^32), and every buffer that decodes is exactly the encoding of the decoded frame. *)
Theorem frame_roundtrip :
  (forall i o p, is_op o ->
     decodeFrame (encodeFrame i o p) = Ok {| streamId := u32 i; op := o; payload := p |}) /\
  (forall buf f, Forall is_byte buf -> decodeFrame buf = Ok f ->
     is_op (op f) /\ 0 <= streamId f < 2 ^ 32 /\ encodeFrame (streamId f) (op f) (payload f) = buf).
Proof.
  split; [apply decode_encode|]. intros buf f Hb Hd.
  destruct buf as [|a [|b [|c [|d [|o p]]]]]; try done. cbn [decodeFrame] in Hd.
  destruct (negb (o =? OP_OPEN) && negb (o =? OP_DATA) && negb (o =? OP_CLOSE)) eqn:E; [done|].
  injection Hd as <-. rewrite !Forall_cons in Hb. destruct Hb as (Ha & Hb & Hc & Hdd & Ho & _).
  assert (is_op o) as Hop.
  { unfold is_op. destruct (o =? OP_OPEN) eqn:E1, (o =? OP_DATA) eqn:E2, (o =? OP_CLOSE) eqn:E3;
      bool_to_prop; try done; auto. }
  destruct (be32_of_be32 a b c d Ha Hb Hc Hdd) as [Hr He].
  cbn [streamId op payload]. split; [done|]. split; [done|]. unfold encodeFrame.
  rewrite u32_small, He, land_255, Z.mod_small by done. done.
Qed.

(** ** The invariant of the shared heap *)

Section invariant.
Context {H : Type}.
Implicit Types (s : MuxStream H) (x : StreamMux) (w : World H) (r m : nat).

Definition total (l : list bytes) : Z := sumZ (size <$> l).

(** A stream's buffer is accounted for and bounded; a closed stream, and one with a data handler,
    holds nothing. *)
Definition stream_ok s : Prop :=
  pendingBytes s = total (pending s) /\ pendingBytes s <= MAX_PENDING_STREAM_BYTES /\
  (isClosed s = true \/ is_Some (dataCb s) -> pending s = []).

Definition held m s : Z := if (mux s =? m)%nat then pendingBytes s else 0.
Definition mux_sum m (h : list (MuxStream H)) : Z := sumZ (held m <$> h).

(** A table entry names a live stream of this mux with that id. *)
Definition entry_ok m (h : list (MuxStream H)) (e : Z * nat) : Prop :=
  exists s, h !! e.2 = Some s /\ id s = e.1 /\ mux s = m /\ isClosed s = false.

Definition table_ok m (h : list (MuxStream H)) (l : list (Z * nat)) : Prop :=
  NoDup l.*1 /\ Z.of_nat (length l) <= MAX_OPEN_STREAMS /\ Forall (entry_ok m h) l.

Definition Inv w : Prop :=
  (forall r s, heap w !! r = Some s -> stream_ok s /\ is_Some (muxes w !! mux s)) /\
  (forall m x, muxes w !! m = Some x ->
     muxPending x = mux_sum m (heap w) /\ muxPending x <= MAX_PENDING_MUX_BYTES /\
     table_ok m (heap w) (streams x)).

Lemma insert_is_some {A} (l : list A) i j a : is_Some (l !! i) -> is_Some (<[j:=a]> l !! i).
Proof. rewrite !lookup_lt_is_Some. by rewrite length_insert. Qed.

(** What no operation undoes: objects stay, keep identity and mux, stay closed once closed, and a
    stream that left its table does not return. *)
Definition tabled r w : Prop := exists m x, muxes w !! m = Some x /\ r ∈ (streams x).*2.
Definition ext w w' : Prop :=
  (forall r s, heap w !! r = Some s -> exists s', heap w' !! r = Some s' /\ id s' = id s /\ mux s' = mux s /\
     (isClosed s = true -> isClosed s' = true)) /\
  (forall r, (r < length (heap w))%nat -> tabled r w' -> tabled r w) /\
  (forall m, is_Some (muxes w !! m) -> is_Some (muxes w' !! m)).

Lemma size_nonneg b : 0 <= size b.
Proof. unfold size. lia. Qed.

Lemma total_nonneg l : 0 <= total l.
Proof. apply sumZ_nonneg. induction l; constructor; auto using size_nonneg. Qed.

Lemma stream_ok_closed s : stream_ok s -> isClosed s = true -> pendingBytes s = 0.
Proof. intros (-> & _ & Hc) Hcl. rewrite Hc by auto. done. Qed.

Lemma mux_sum_insert m h r s s' : h !! r = Some s ->
  mux_sum m (<[r:=s']> h) = mux_sum m h - held m s + held m s'.
Proof.
  intros Hr. unfold mux_sum. rewrite list_fmap_insert. apply sumZ_insert.
  by rewrite list_lookup_fmap, Hr.
Qed.

Lemma mux_sum_snoc m h s : mux_sum m (h ++ [s]) = mux_sum m h + held m s.
Proof. unfold mux_sum. rewrite fmap_app, sumZ_app. cbn. rewrite sumZ_cons, sumZ_nil. lia. Qed.

Lemma ext_refl w : ext w w.
Proof. split; [|done]. naive_solver. Qed.

Lemma ext_heap_len w w' : ext w w' -> (length (heap w) <= length (heap w'))%nat.
Proof.
  intros (Hh & _ & _). apply Nat.nlt_ge. intros Hlt.
  destruct (lookup_lt_is_Some_2 (heap w) (length (heap w')) Hlt) as [s Hs].
  destruct (Hh _ _ Hs) as (s' & Hs' & _). apply lookup_lt_Some in Hs'. lia.
Qed.

Lemma ext_trans w1 w2 w3 : ext w1 w2 -> ext w2 w3 -> ext w1 w3.
Proof.
  intros E1 E2. pose proof (ext_heap_len _ _ E1) as Hlen.
  destruct E1 as (H1 & T1 & M1), E2 as (H2 & T2 & M2). split_and!.
  - intros r s Hs. destruct (H1 _ _ Hs) as (s' & Hs' & Hi & Hm & Hc).
    destruct (H2 _ _ Hs') as (s'' & Hs'' & Hi' & Hm' & Hc'). exists s''.
    split_and!; [done|congruence|congruence|auto].
  - intros r Hr Ht. apply T1; [done|]. apply T2; [lia|done].
  - auto.
Qed.

Definition upd w r s m x : World H := {| heap := <[r:=s]> (heap w); muxes := <[m:=x]> (muxes w) |}.

Lemma entry_ok_upd m h r s s' (l : list (Z * nat)) :
  h !! r = Some s -> id s' = id s -> mux s' = mux s -> (isClosed s' = true -> r ∉ l.*2) ->
  Forall (entry_ok m h) l -> Forall (entry_ok m (<[r:=s']> h)) l.
Proof.
  intros Hr Hi Hm Hc Hl. rewrite Forall_forall in Hl |- *. intros e He.
  destruct (Hl e He) as (t & Ht & Hti & Htm & Htc). unfold entry_ok.
  destruct (decide (e.2 = r)) as [Her|Hne].
  - exists s'. rewrite Her in Ht |- *. rewrite list_lookup_insert_eq by (by eapply lookup_lt_Some).
    rewrite Ht in Hr. injection Hr as ->. split_and!; [done|congruence|congruence|].
    apply not_true_is_false. intros Hcl. apply (Hc Hcl). rewrite <-Her. by apply list_elem_of_fmap_2.
  - exists t. by rewrite list_lookup_insert_ne.
Qed.

Lemma sublist_fmap {A B} (f : A -> B) l k : sublist l k -> sublist (f <$> l) (f <$> k).
Proof. induction 1; cbn; by constructor. Qed.

Lemma sublist_Forall {A} (P : A -> Prop) l k : sublist l k -> Forall P k -> Forall P l.
Proof. intros Hs. rewrite !Forall_forall. eauto using elem_of_sublist. Qed.

(** Every operation on an existing stream is an update of one stream and its mux. *)
Lemma Inv_upd w r s s' x x' :
  Inv w -> heap w !! r = Some s -> muxes w !! mux s = Some x ->
  id s' = id s -> mux s' = mux s -> stream_ok s' -> (isClosed s = true -> isClosed s' = true) ->
  muxPending x' = muxPending x - pendingBytes s + pendingBytes s' ->
  muxPending x' <= MAX_PENDING_MUX_BYTES ->
  sublist (streams x') (streams x) -> (isClosed s' = true -> r ∉ (streams x').*2) ->
  let w' := upd w r s' (mux s) x' in Inv w' /\ ext w w'.
Proof.
  intros [HS HM] Hr Hx Hi Hm Hok Hcl Hp Hle Hsub Hnot w'.
  assert (muxes w' !! mux s = Some x') as Hx'.
  { cbn. rewrite list_lookup_insert_eq; [done|by eapply lookup_lt_Some]. }
  split; [split|split_and!].
  - intros r2 s2. cbn. intros [(-> & <- & _)|(Hne & Hs2)]%list_lookup_insert_Some.
    + split; [done|]. rewrite Hm. by exists x'.
    + destruct (HS _ _ Hs2) as [Hok2 Hmx]. split; [done|]. by apply insert_is_some.
  - intros m y. cbn. intros [(<- & <- & _)|(Hne & Hy)]%list_lookup_insert_Some.
    + destruct (HM _ _ Hx) as (Hsum & _ & Hnd & Hlen & Hall). split_and!; [|done|].
      * rewrite (mux_sum_insert _ _ _ s) by done. unfold held.
        rewrite Hm, Nat.eqb_refl. lia.
      * split_and!.
        -- eapply sublist_NoDup; [exact Hnd|]. by apply sublist_fmap.
        -- apply sublist_length in Hsub. lia.
        -- eapply entry_ok_upd; [done..|]. by eapply sublist_Forall.
    + destruct (HM _ _ Hy) as (Hsum & Hb & Hnd & Hlen & Hall). split_and!; [|done|split_and!; [done..|]].
      * rewrite (mux_sum_insert _ _ _ s) by done. unfold held. rewrite Hm.
        destruct (mux s =? m)%nat eqn:E; [apply Nat.eqb_eq in E; congruence|]. lia.
      * eapply entry_ok_upd; [done..| |done]. intros _ Hin.
        apply list_elem_of_fmap_1 in Hin as (e & He & Hel). rewrite Forall_forall in Hall.
        destruct (Hall e Hel) as (t & Ht & _ & Htm & _). rewrite <-He, Hr in Ht.
        injection Ht as <-. congruence.
  - intros r2 s2 Hs2. cbn. destruct (decide (r2 = r)) as [->|Hne].
    + rewrite Hr in Hs2. injection Hs2 as <-. exists s'.
      rewrite list_lookup_insert_eq by (by eapply lookup_lt_Some). done.
    + exists s2. by rewrite list_lookup_insert_ne.
  - intros r2 _ (m & y & Hy & Hin). cbn in Hy.
    apply list_lookup_insert_Some in Hy as [(<- & <- & _)|(Hne & Hy)]; [|by exists m, y].
    exists (mux s), x. split; [done|]. apply list_elem_of_fmap_1 in Hin as (e & -> & He).
    apply list_elem_of_fmap_2. by eapply elem_of_sublist.
  - intros m Hs. cbn. by apply insert_is_some.
Qed.

(** A change of a mux alone. *)
Definition upd_mux w m x : World H := {| heap := heap w; muxes := <[m:=x]> (muxes w) |}.

Lemma Inv_upd_mux w m x x' :
  Inv w -> muxes w !! m = Some x -> muxPending x' = muxPending x ->
  sublist (streams x') (streams x) -> Inv (upd_mux w m x') /\ ext w (upd_mux w m x').
Proof.
  intros [HS HM] Hx Hp Hsub. split; [split|split_and!].
  - intros r s Hs. destruct (HS _ _ Hs). split; [done|]. by apply insert_is_some.
  - intros m2 y. cbn. intros [(<- & <- & _)|(Hne & Hy)]%list_lookup_insert_Some; [|auto].
    destruct (HM _ _ Hx) as (? & ? & Hnd & Hlen & Hall). split_and!; [lia|lia|split_and!].
    + eapply sublist_NoDup; [exact Hnd|]. by apply sublist_fmap.
    + apply sublist_length in Hsub. lia.
    + by eapply sublist_Forall.
  - intros r s Hs. by exists s.
  - intros r _ (m2 & y & Hy & Hin). cbn in Hy.
    apply list_lookup_insert_Some in Hy as [(<- & <- & _)|(Hne & Hy)]; [|by exists m2, y].
    exists m, x. split; [done|]. apply list_elem_of_fmap_1 in Hin as (e & -> & He).
    apply list_elem_of_fmap_2. by eapply elem_of_sublist.
  - intros m2 Hs. by apply insert_is_some.
Qed.

Lemma map_set_keys i r (l : list (Z * nat)) e :
  e ∈ map_set i r l -> e = (i, r) \/ e ∈ l.
Proof.
  induction l as [|[k y] l IH]; cbn.
  - intros ->%list_elem_of_singleton. auto.
  - destruct (k =? i) eqn:E; rewrite !elem_of_cons.
    + apply Z.eqb_eq in E as ->. intros [->|?]; auto.
    + intros [->|Hin]; [auto|]. destruct (IH Hin); auto.
Qed.

Lemma map_set_fresh i r (l : list (Z * nat)) : i ∉ l.*1 -> map_set i r l = l ++ [(i, r)].
Proof.
  induction l as [|[k y] l IH]; cbn; [done|]. rewrite not_elem_of_cons. intros [Hne Hin].
  apply not_eq_sym, Z.eqb_neq in Hne as ->. by rewrite IH.
Qed.

Lemma map_set_fst i r (l : list (Z * nat)) : i ∈ l.*1 -> (map_set i r l).*1 = l.*1.
Proof.
  induction l as [|[k y] l IH]; cbn; [by intros ?%elem_of_nil|]. rewrite elem_of_cons.
  destruct (k =? i) eqn:E; [done|]. apply Z.eqb_neq in E. intros [->|Hin]; [done|].
  cbn. by rewrite IH.
Qed.

Lemma map_set_NoDup i r (l : list (Z * nat)) : NoDup l.*1 -> NoDup (map_set i r l).*1.
Proof.
  intros Hnd. destruct (decide (i ∈ l.*1)) as [Hin|Hni].
  - by rewrite map_set_fst.
  - rewrite map_set_fresh, fmap_app by done. apply NoDup_app. split; [done|].
    split; [|apply NoDup_singleton]. intros k Hk ->%list_elem_of_singleton. done.
Qed.

Lemma map_set_length i r (l : list (Z * nat)) : (length (map_set i r l) <= S (length l))%nat.
Proof.
  induction l as [|[k y] l IH]; cbn; [lia|]. destruct (k =? i); cbn; lia.
Qed.

Lemma map_get_Some i r (l : list (Z * nat)) : map_get i l = Some r -> (i, r) ∈ l.
Proof.
  unfold map_get. intros ([k y] & [Hin E]%find_Some & ->)%fmap_Some. cbn in *.
  by apply Z.eqb_eq in E as ->.
Qed.

(** Creating a stream and listing it. *)
Definition upd_new w s m x : World H := {| heap := heap w ++ [s]; muxes := <[m:=x]> (muxes w) |}.

Lemma mux_sum_new m h i hd m' : mux_sum m (h ++ [new_MuxStream (H:=H) i hd m']) = mux_sum m h.
Proof. rewrite mux_sum_snoc. unfold held. cbn. destruct (m' =? m)%nat; lia. Qed.

Lemma entry_ok_snoc m h s (l : list (Z * nat)) :
  Forall (entry_ok m h) l -> Forall (entry_ok m (h ++ [s])) l.
Proof.
  intros Hl. eapply Forall_impl; [exact Hl|]. intros e (t & Ht & Hr). exists t.
  split; [by apply lookup_app_l_Some|done].
Qed.

Lemma Inv_new w m x x' i hd :
  Inv w -> muxes w !! m = Some x -> muxPending x' = muxPending x ->
  Z.of_nat (length (streams x)) < MAX_OPEN_STREAMS ->
  streams x' = map_set i (length (heap w)) (streams x) ->
  let w' := upd_new w (new_MuxStream i hd m) m x' in Inv w' /\ ext w w'.
Proof.
  intros [HS HM] Hx Hp Hlt Hst w'. split; [split|split_and!].
  - intros r s. cbn. intros [Hs|[? Hs]]%lookup_app_Some.
    + destruct (HS _ _ Hs). split; [done|]. by apply insert_is_some.
    + apply list_lookup_singleton_Some in Hs as [_ <-]. split; [|by apply insert_is_some].
      split; [done|]. by split; [|intros _].
  - intros m2 y. cbn. rewrite mux_sum_new.
    intros [(<- & <- & _)|(Hne & Hy)]%list_lookup_insert_Some.
    + destruct (HM _ _ Hx) as (? & ? & Hnd & Hlen & Hall). rewrite Hst.
      split_and!; [lia|lia|split_and!].
      * by apply map_set_NoDup.
      * pose proof (map_set_length i (length (heap w)) (streams x)). lia.
      * apply Forall_forall. intros e [->|He]%map_set_keys.
        -- exists (new_MuxStream i hd m). cbn. by rewrite lookup_app_r, Nat.sub_diag by lia.
        -- apply (entry_ok_snoc m _ (new_MuxStream i hd m)) in Hall.
           rewrite Forall_forall in Hall. auto.
    + destruct (HM _ _ Hy) as (? & ? & ? & ? & ?). split_and!; [done..|split_and!; [done..|]].
      by apply entry_ok_snoc.
  - intros r s Hs. exists s. split; [by apply lookup_app_l_Some|done].
  - intros r Hr (m2 & y & Hy & Hin). cbn in Hy.
    apply list_lookup_insert_Some in Hy as [(<- & <- & _)|(Hne & Hy)]; [|by exists m2, y].
    exists m, x. split; [done|]. rewrite Hst in Hin.
    apply list_elem_of_fmap_1 in Hin as (e & -> & [->|He]%map_set_keys).
    + cbn in Hr. lia.
    + by apply list_elem_of_fmap_2.
  - intros m2 Hs. by apply insert_is_some.
Qed.

(** ** Computations that keep the invariant *)

Definition good_at {A} w (k : MW H A) : Prop := Inv (k w).2 /\ ext w (k w).2.
Definition good {A} (k : MW H A) : Prop := forall w, Inv w -> good_at w k.

Lemma good_at_ret {A} w (a : A) : Inv w -> good_at w (mret a).
Proof. intros Hw. split; [done|apply ext_refl]. Qed.

Lemma good_at_throw {A} w e : Inv w -> good_at w (mthrow e : MW H A).
Proof. intros Hw. split; [done|apply ext_refl]. Qed.

Lemma good_at_bind {A B} w (k : MW H A) (f : A -> MW H B) :
  good_at w k -> (forall a w', k w = (Ok a, w') -> Inv w' -> ext w w' -> good_at w' (f a)) ->
  good_at w (k ≫= f).
Proof.
  unfold good_at, mbind, M_bind. intros [Hi He] Hf.
  destruct (k w) as [[a|e] w'] eqn:Ek; [|done]. destruct (Hf a w' eq_refl Hi He).
  split; [done|]. by eapply ext_trans.
Qed.

Lemma good_at_try {A} w (k : MW H A) h :
  good_at w k -> (forall e w', k w = (Err e, w') -> Inv w' -> ext w w' -> good_at w' (h e)) ->
  good_at w (mtry k h).
Proof.
  unfold good_at, mtry. intros [Hi He] Hf.
  destruct (k w) as [[a|e] w'] eqn:Ek; [done|]. destruct (Hf e w' eq_refl Hi He).
  split; [done|]. by eapply ext_trans.
Qed.

Lemma good_at_finally {A} w (k : MW H A) fin :
  good_at w k -> (Inv (k w).2 -> ext w (k w).2 -> good_at (k w).2 fin) -> good_at w (mfinally k fin).
Proof.
  unfold good_at, mfinally. intros [Hi He] Hf. destruct (Hf Hi He) as [Hi' He'].
  destruct (k w) as [v w']. cbn in *. destruct (fin w') as [[u|e2] w2]; cbn in *;
    (split; [done|by eapply ext_trans]).
Qed.

Lemma good_at_mux {A} w m (f : StreamMux -> MW H A) :
  Inv w -> (forall x, muxes w !! m = Some x -> good_at w (f x)) -> good_at w (mux_of m ≫= f).
Proof.
  unfold good_at, mbind, M_bind, mux_of. intros Hw Hf.
  destruct (muxes w !! m) eqn:E; [by apply Hf|]. split; [done|apply ext_refl].
Qed.

Lemma good_at_stream {A} w r (f : MuxStream H -> MW H A) :
  Inv w -> (forall s, heap w !! r = Some s -> good_at w (f s)) -> good_at w (stream_of r ≫= f).
Proof.
  unfold good_at, mbind, M_bind, stream_of. intros Hw Hf.
  destruct (heap w !! r) eqn:E; [by apply Hf|]. split; [done|apply ext_refl].
Qed.

Lemma closed_untabled w r s : Inv w -> heap w !! r = Some s -> isClosed s = true -> ~ tabled r w.
Proof.
  intros [_ HM] Hr Hc (m & x & Hx & Hin). destruct (HM _ _ Hx) as (_ & _ & _ & _ & Hall).
  apply list_elem_of_fmap_1 in Hin as (e & -> & He). rewrite Forall_forall in Hall.
  destruct (Hall e He) as (t & Ht & _ & _ & Htc). congruence.
Qed.

Lemma Inv_mux w r s : Inv w -> heap w !! r = Some s -> is_Some (muxes w !! mux s).
Proof. intros [HS _] Hr. by destruct (HS _ _ Hr). Qed.

Lemma map_delete_sublist i (l : list (Z * nat)) : sublist (map_delete i l) l.
Proof. apply sublist_filter. Qed.

(** A listed stream is found under its own id in its own mux. *)
Lemma map_delete_untabled w r s x : Inv w -> heap w !! r = Some s -> muxes w !! mux s = Some x ->
  r ∉ (map_delete (id s) (streams x)).*2.
Proof.
  intros [_ HM] Hr Hx Hin. apply list_elem_of_fmap_1 in Hin as (e & -> & He).
  unfold map_delete in He. apply list_elem_of_filter in He as [Hne He].
  destruct (HM _ _ Hx) as (_ & _ & _ & _ & Hall). rewrite Forall_forall in Hall.
  destruct (Hall e He) as (t & Ht & Hti & _). congruence.
Qed.

Lemma upd_upd w r s m x s' x' : upd (upd w r s m x) r s' m x' = upd w r s' m x'.
Proof. unfold upd. cbn. by rewrite !list_insert_insert_eq. Qed.

Lemma upd_stream_of w r s s' m x : heap w !! r = Some s -> heap (upd w r s' m x) !! r = Some s'.
Proof. intros Hr. cbn. apply list_lookup_insert_eq. by eapply lookup_lt_Some. Qed.

Lemma upd_mux_of w r s m x x' : muxes w !! m = Some x -> muxes (upd w r s m x') !! m = Some x'.
Proof. intros Hx. cbn. apply list_lookup_insert_eq. by eapply lookup_lt_Some. Qed.

(** What the primitive updates of a stream and its mux do, starting from an updated world. *)
Lemma upd_id w r s m x : heap w !! r = Some s -> muxes w !! m = Some x -> upd w r s m x = w.
Proof. intros Hr Hx. unfold upd. rewrite !list_insert_id by done. by destruct w. Qed.

Lemma put_stream_upd w r s m x s' :
  put_stream r s' (upd w r s m x) = (Ok tt, upd w r s' m x).
Proof. unfold put_stream, mmodify, upd. cbn. by rewrite list_insert_insert_eq. Qed.

Lemma put_mux_upd w r s m x x' :
  put_mux m x' (upd w r s m x) = (Ok tt, upd w r s m x').
Proof. unfold put_mux, mmodify, upd. cbn. by rewrite list_insert_insert_eq. Qed.
End invariant.

(** ** The operations keep the invariant *)

Section operations.
Context {H : Type} `{Transport} `{JsonText} `{TextCodec}.
Implicit Types (s : MuxStream H) (x : StreamMux) (w : World H) (r m : nat).

Lemma bind_run {A B} (k : MW H A) (f : A -> MW H B) w a w' :
  k w = (Ok a, w') -> (k ≫= f) w = f a w'.
Proof. unfold mbind, M_bind. by intros ->. Qed.

Definition valid w r m : Prop := is_Some (heap w !! r) /\ is_Some (muxes w !! m).

Lemma stream_of_upd w r s m x : valid w r m ->
  stream_of r (upd w r s m x) = (Ok s, upd w r s m x).
Proof. intros [[s0 Hr] _]. unfold stream_of. by rewrite (upd_stream_of w r s0). Qed.

Lemma mux_of_upd w r s m x : valid w r m ->
  mux_of m (upd w r s m x) = (Ok x, upd w r s m x).
Proof. intros [_ [x0 Hx]]. unfold mux_of. by rewrite (upd_mux_of w r s m x0). Qed.

Lemma clear_upd w r s x : valid w r (mux s) ->
  clearPending r (upd w r s (mux s) x) =
  (Ok tt, upd w r (set_pending s [] 0) (mux s) (set_muxPending x (muxPending x - pendingBytes s))).
Proof.
  intros Hv. unfold clearPending. erewrite bind_run by by apply stream_of_upd.
  erewrite bind_run.
  2: { unfold releasePending. erewrite bind_run by by apply mux_of_upd. apply put_mux_upd. }
  apply put_stream_upd.
Qed.

Lemma forget_upd w r s m x i : valid w r m ->
  forget m i (upd w r s m x) = (Ok tt, upd w r s m (set_streams x (map_delete i (streams x)))).
Proof.
  intros Hv. unfold forget. erewrite bind_run by by apply mux_of_upd. apply put_mux_upd.
Qed.

Definition thrown (e : option string) : result string unit :=
  match e with Some e => Err e | None => Ok tt end.

Lemma send_upd w r s m x f : valid w r m ->
  send m f (upd w r s m x) = (thrown (send_throws m (sent x) f), upd w r s m (count_out x f)).
Proof.
  intros Hv. unfold send. erewrite bind_run by by apply mux_of_upd.
  erewrite bind_run by apply put_mux_upd. by destruct send_throws.
Qed.

Lemma valid_of w r s x : heap w !! r = Some s -> muxes w !! mux s = Some x -> valid w r (mux s).
Proof. intros Hr Hx. split; eauto. Qed.

(** The whole effect of [close] on an open stream. *)
Lemma close_run w r s x reason : heap w !! r = Some s -> muxes w !! mux s = Some x ->
  closedLocally s = false ->
  close r reason w =
  (thrown (send_throws (mux s) (sent x) (encodeFrame (id s) OP_CLOSE (reason_payload reason))),
   upd w r (set_pending (set_closed s) [] 0) (mux s)
     (count_out (set_streams (set_muxPending x (muxPending x - pendingBytes s))
                   (map_delete (id s) (streams x)))
        (encodeFrame (id s) OP_CLOSE (reason_payload reason)))).
Proof.
  intros Hr Hx Hc. pose proof (valid_of _ _ _ _ Hr Hx) as Hv.
  rewrite <-(upd_id w r s (mux s) x) at 1 by done. unfold close.
  erewrite bind_run by by apply stream_of_upd. rewrite Hc.
  erewrite bind_run by apply put_stream_upd.
  erewrite bind_run by by apply (clear_upd w r (set_closed s) x).
  erewrite bind_run by by apply forget_upd. etrans; [by apply send_upd|]. done.
Qed.

Lemma muxPending_release w r s x :
  Inv w -> heap w !! r = Some s -> muxes w !! mux s = Some x ->
  muxPending x <= MAX_PENDING_MUX_BYTES /\ 0 <= pendingBytes s.
Proof.
  intros [HS HM] Hr Hx. destruct (HS _ _ Hr) as [(-> & _) _]. destruct (HM _ _ Hx) as (_ & Hle & _).
  split; [done|apply total_nonneg].
Qed.

Lemma close_good r reason : good (H:=H) (close r reason).
Proof.
  intros w Hw. destruct (heap w !! r) as [s|] eqn:Hr.
  2: { unfold close. apply good_at_stream; [done|]. intros s Hs. congruence. }
  destruct (Inv_mux _ _ _ Hw Hr) as [x Hx]. destruct (closedLocally s) eqn:Hc.
  { unfold close. apply good_at_stream; [done|]. intros s' Hs.
    rewrite Hr in Hs. injection Hs as <-. rewrite Hc. by apply good_at_ret. }
  unfold good_at. rewrite (close_run w r s x) by done. cbn.
  destruct (muxPending_release _ _ _ _ Hw Hr Hx).
  apply (Inv_upd w r s _ x); try done; cbn; try lia.
  - apply map_delete_sublist.
  - intros _. by eapply map_delete_untabled.
Qed.

Lemma close_closes w r s reason : Inv w -> heap w !! r = Some s ->
  exists s', heap (close r reason w).2 !! r = Some s' /\ isClosed s' = true.
Proof.
  intros Hw Hr. destruct (Inv_mux _ _ _ Hw Hr) as [x Hx]. destruct (closedLocally s) eqn:Hc.
  - exists s. unfold close, isClosed. erewrite bind_run; [|by unfold stream_of; rewrite Hr].
    by rewrite Hc.
  - rewrite (close_run w r s x) by done. cbn.
    exists (set_pending (set_closed s) [] 0). split; [|done].
    apply list_lookup_insert_eq. by eapply lookup_lt_Some.
Qed.

Lemma send_good m f : good (H:=H) (send m f).
Proof.
  intros w Hw. unfold send. apply good_at_mux; [done|]. intros x Hx.
  apply good_at_bind; [by apply (Inv_upd_mux w m x)|].
  intros _ w' _ Hw' _. destruct send_throws; [by apply good_at_throw|by apply good_at_ret].
Qed.

Lemma forget_good m i : good (H:=H) (forget m i).
Proof.
  intros w Hw. unfold forget. apply good_at_mux; [done|]. intros x Hx.
  apply (Inv_upd_mux w m x); try done. apply map_delete_sublist.
Qed.

Lemma write_good r c : good (H:=H) (write r c).
Proof.
  intros w Hw. unfold write. apply good_at_stream; [done|]. intros s Hs.
  destruct (isClosed s); [by apply good_at_ret|by apply send_good].
Qed.
End operations.

(** What a client promises: its handlers, which may call any operation, keep the invariant. *)
Class ClientOK (H : Type) `{!Client H} : Prop := {
  run_data_ok (cb : H) (c : bytes) : good (run_data cb c);
  run_end_ok (cb : H) (reason : option json) : good (run_end cb reason);
  run_open_ok (m r : nat) : good (run_open m r) }.

Section handler_operations.
Context {H : Type} `{Transport} `{JsonText} `{TextCodec} `{ClientOK H}.
Implicit Types (s : MuxStream H) (x : StreamMux) (w : World H) (r m : nat).

Lemma flush_good r cb l : good (flush r cb l).
Proof.
  induction l as [|c l IH]; intros w Hw; cbn; [by apply good_at_ret|].
  apply good_at_stream; [done|]. intros s Hs. destruct (isClosed s); [by apply good_at_ret|].
  apply good_at_bind; [by apply run_data_ok|]. intros _ w' _ Hw' _. by apply IH.
Qed.

Lemma good_at_run {A B} w w1 (k : MW H A) (f : A -> MW H B) a :
  k w = (Ok a, w1) -> ext w w1 -> good_at w1 (f a) -> good_at w (k ≫= f).
Proof.
  intros Hk He Hg. unfold good_at. rewrite (bind_run _ _ _ _ _ Hk). destruct Hg as [Hi He'].
  split; [done|]. by eapply ext_trans.
Qed.

(** The common update: a stream gives its buffer back to its mux. *)
Lemma release_good w r s x s' :
  Inv w -> heap w !! r = Some s -> muxes w !! mux s = Some x ->
  id s' = id s -> mux s' = mux s -> pending s' = [] -> pendingBytes s' = 0 ->
  (isClosed s = true -> isClosed s' = true) -> (isClosed s' = true -> ~ tabled r w) ->
  let w' := upd w r s' (mux s) (set_muxPending x (muxPending x - pendingBytes s)) in
  Inv w' /\ ext w w'.
Proof.
  intros Hw Hr Hx Hi Hm Hp Hb Hc Ht. destruct (muxPending_release _ _ _ _ Hw Hr Hx).
  apply (Inv_upd w r s s' x); try done; cbn; try lia.
  - split_and!; [by rewrite Hp, Hb|by rewrite Hb|done].
  - intros Hcl Hin. apply (Ht Hcl). by exists (mux s), x.
Qed.

Lemma onData_run w r s x cb : heap w !! r = Some s -> muxes w !! mux s = Some x ->
  onData r cb w = flush r cb (pending s)
    (upd w r (set_pending (set_data s cb) [] 0) (mux s) (set_muxPending x (muxPending x - pendingBytes s))).
Proof.
  intros Hr Hx. pose proof (valid_of _ _ _ _ Hr Hx) as Hv.
  rewrite <-(upd_id w r s (mux s) x) at 1 by done. unfold onData.
  erewrite bind_run by by apply stream_of_upd. erewrite bind_run by apply put_stream_upd.
  by erewrite bind_run by by apply (clear_upd w r (set_data s cb) x).
Qed.

Lemma onData_good r cb : good (onData r cb).
Proof.
  intros w Hw. destruct (heap w !! r) as [s|] eqn:Hr.
  2: { unfold onData. apply good_at_stream; [done|]. intros s Hs. congruence. }
  destruct (Inv_mux _ _ _ Hw Hr) as [x Hx].
  destruct (release_good w r s x (set_pending (set_data s cb) [] 0)) as [Hi He]; try done.
  { intros Hc. by eapply closed_untabled. }
  unfold good_at. rewrite (onData_run w r s x) by done. destruct (flush_good r cb (pending s) _ Hi). split; [done|].
  by eapply ext_trans.
Qed.

Lemma onEnd_good r cb : good (onEnd r cb).
Proof.
  intros w Hw. unfold onEnd. apply good_at_stream; [done|]. intros s Hr.
  destruct (Inv_mux _ _ _ Hw Hr) as [x Hx].
  apply good_at_bind.
  - destruct (proj1 Hw r s Hr) as [Hok _]. destruct (proj2 Hw _ _ Hx) as (_ & Hle & _).
    destruct (Inv_upd w r s (set_end s cb) x x) as [Hi He]; try done; try (cbn; lia).
    { intros Hc Hin. eapply closed_untabled; [done..|]. by exists (mux s), x. }
    unfold upd in Hi, He. rewrite (list_insert_id (muxes w)) in Hi, He by done. by split.
  - intros _ w' _ Hw' _. destruct (ended s); [by apply run_end_ok|by apply good_at_ret].
Qed.

Lemma end_run w r s x reason : heap w !! r = Some s -> muxes w !! mux s = Some x -> ended s = false ->
  end_ r reason w = match endCb s with Some cb => run_end cb reason | None => mret tt end
    (upd w r (set_pending (set_ended s reason) [] 0) (mux s) (set_muxPending x (muxPending x - pendingBytes s))).
Proof.
  intros Hr Hx Hend. pose proof (valid_of _ _ _ _ Hr Hx) as Hv.
  rewrite <-(upd_id w r s (mux s) x) at 1 by done. unfold end_.
  erewrite bind_run by by apply stream_of_upd. rewrite Hend. erewrite bind_run by apply put_stream_upd.
  by erewrite bind_run by by apply (clear_upd w r (set_ended s reason) x).
Qed.

Lemma end_good w r reason : Inv w -> ~ tabled r w -> good_at w (end_ r reason).
Proof.
  intros Hw Ht. destruct (heap w !! r) as [s|] eqn:Hr.
  2: { unfold end_. apply good_at_stream; [done|]. intros s Hs. congruence. }
  destruct (Inv_mux _ _ _ Hw Hr) as [x Hx]. pose proof (valid_of _ _ _ _ Hr Hx) as Hv.
  destruct (ended s) eqn:Hend.
  { unfold end_. apply good_at_stream; [done|]. intros s' Hs.
    rewrite Hr in Hs. injection Hs as <-. rewrite Hend. by apply good_at_ret. }
  destruct (release_good w r s x (set_pending (set_ended s reason) [] 0)) as [Hi He]; try done.
  { intros _. unfold isClosed. cbn. apply orb_true_r. }
  unfold good_at. rewrite (end_run w r s x) by done. destruct (endCb s) as [cb|]; [|done].
  destruct (run_end_ok cb reason _ Hi). split; [done|]. by eapply ext_trans.
Qed.

Lemma close_end_good r reason : good (mfinally (close r reason) (end_ r reason)).
Proof.
  intros w Hw. apply good_at_finally; [by apply close_good|]. intros Hi He.
  apply end_good; [done|]. destruct (heap w !! r) as [s|] eqn:Hr.
  - destruct (close_closes w r s reason Hw Hr) as (s' & Hs' & Hc). by eapply closed_untabled.
  - intros (m & x & Hx & Hin). destruct (proj2 Hi _ _ Hx) as (_ & _ & _ & _ & Hall).
    apply list_elem_of_fmap_1 in Hin as (e & -> & Hel). rewrite Forall_forall in Hall.
    destruct (Hall e Hel) as (t & Ht & _). revert Ht.
    assert (close e.2 reason w = (Err "no such stream"%string, w)) as ->; [|cbn; congruence].
    unfold close, mbind, M_bind, stream_of. by rewrite Hr.
Qed.

Lemma deliver_good r c : good (deliver r c).
Proof.
  intros w Hw. unfold deliver. apply good_at_stream; [done|]. intros s Hr.
  destruct (isClosed s) eqn:Hc; [by apply good_at_ret|].
  destruct (dataCb s) as [cb|] eqn:Hcb; [by apply run_data_ok|].
  destruct (size c =? 0); [by apply good_at_ret|].
  destruct (MAX_PENDING_STREAM_BYTES <? _) eqn:Hlim; [by apply close_end_good|].
  destruct (Inv_mux _ _ _ Hw Hr) as [x Hx]. pose proof (valid_of _ _ _ _ Hr Hx) as Hv.
  destruct (proj1 Hw r s Hr) as [(Hpb & _) _]. destruct (proj2 Hw _ _ Hx) as (_ & Hle & _).
  destruct (MAX_PENDING_MUX_BYTES <? muxPending x + size c) eqn:Hmax.
  - eapply (good_at_run w w _ _ false); [|apply ext_refl|by apply close_end_good].
    unfold reservePending, mbind, M_bind, mux_of. by rewrite Hx, Hmax.
  - bool_to_prop.
    destruct (Inv_upd w r s (set_pending s (pending s ++ [c]) (pendingBytes s + size c)) x
      (set_muxPending x (muxPending x + size c))) as [Hi He]; try done; try (cbn; lia).
    { split_and!; cbn; [|lia|].
      - unfold total in *. rewrite fmap_app, sumZ_app. cbn. rewrite sumZ_cons, sumZ_nil. lia.
      - unfold isClosed in *. cbn. rewrite Hc, Hcb. by intros [|[]]. }
    { unfold isClosed in *. cbn. congruence. }
    unfold good_at. rewrite (bind_run _ _ w true (upd w r s (mux s) (set_muxPending x (muxPending x + size c)))).
    + rewrite put_stream_upd. done.
    + apply Z.ltb_ge in Hmax. rewrite <-(upd_id w r s (mux s) x) at 1 by done. unfold reservePending.
      erewrite bind_run by by apply mux_of_upd. rewrite Hmax.
      by erewrite bind_run by apply put_mux_upd.
Qed.

Lemma forget_untabled w r s i w' : Inv w -> heap w !! r = Some s -> i = id s ->
  forget (mux s) i w = (Ok tt, w') -> ~ tabled r w'.
Proof.
  intros Hw Hr -> Hf (m & y & Hy & Hin). destruct (Inv_mux _ _ _ Hw Hr) as [x Hx].
  unfold forget, mbind, M_bind, mux_of in Hf. rewrite Hx in Hf. injection Hf as <-. cbn in Hy.
  apply list_lookup_insert_Some in Hy as [(<- & <- & _)|(Hne & Hy)].
  - by eapply map_delete_untabled.
  - destruct (proj2 Hw _ _ Hy) as (_ & _ & _ & _ & Hall).
    apply list_elem_of_fmap_1 in Hin as (e & -> & He). rewrite Forall_forall in Hall.
    destruct (Hall e He) as (t & Ht & _ & Htm & _). congruence.
Qed.

Lemma forget_end_good {A} w r s m i reason (k : MW H A) :
  Inv w -> heap w !! r = Some s -> m = mux s -> i = id s -> good k ->
  good_at w (forget m i;; end_ r reason;; k).
Proof.
  intros Hw Hr -> -> Hk. apply good_at_bind; [by apply forget_good|].
  intros [] w' Hf Hw' _. apply good_at_bind; [|intros _ w2 _ Hw2 _; by apply Hk].
  apply end_good; [done|]. by eapply (forget_untabled w r s).
Qed.

(** Creation of a stream by either side, then the rest of the operation. *)
Lemma new_good {A} w m x (x' : nat -> StreamMux) i hd (k : nat -> MW H A) :
  let r := length (heap w) in
  Inv w -> muxes w !! m = Some x -> muxPending (x' r) = muxPending x ->
  Z.of_nat (length (streams x)) < MAX_OPEN_STREAMS ->
  streams (x' r) = map_set i r (streams x) ->
  (forall w' s, Inv w' -> heap w' !! r = Some s -> id s = i -> mux s = m -> good_at w' (k r)) ->
  good_at w (alloc (new_MuxStream i hd m) ≫= fun r => put_mux m (x' r) ;; k r).
Proof.
  intros r Hw Hx Hp Hlt Hst Hk.
  destruct (Inv_new w m x (x' r) i hd Hw Hx Hp Hlt Hst) as [Hi He].
  assert (heap (upd_new w (new_MuxStream (H:=H) i hd m) m (x' r)) !! r = Some (new_MuxStream i hd m)) as Hr.
  { cbn. by rewrite lookup_app_r, Nat.sub_diag by lia. }
  destruct (Hk _ _ Hi Hr eq_refl eq_refl) as [Hi' He'].
  split; [exact Hi'|]. by eapply ext_trans.
Qed.

Lemma open_good m hd : good (open m hd).
Proof.
  intros w Hw. unfold open. destruct (if headerShape hd then as_obj (Some hd) else None) as [h|];
    [|by apply good_at_throw].
  apply good_at_mux; [done|]. intros x Hx.
  destruct (MAX_OPEN_STREAMS <=? Z.of_nat (length (streams x))) eqn:Hlim; [by apply good_at_throw|].
  bool_to_prop.
  apply (new_good w m x (fun r => set_streams (bump_id x) (map_set (nextId x) r (streams x)))); try done.
  intros w' s Hw' Hr Hi Hm. apply good_at_bind; [|intros [] w2 _ Hw2 _; by apply good_at_ret].
  apply good_at_try; [by apply send_good|]. intros e w2 _ Hw2 He.
  destruct (proj1 He _ _ Hr) as (s2 & Hr2 & Hi2 & Hm2 & _).
  eapply forget_end_good; [done..|congruence|congruence|]. intros w3 Hw3. by apply good_at_throw.
Qed.

Lemma handle_open_good m f : good (handle_open m f).
Proof.
  intros w Hw. unfold handle_open. apply good_at_mux; [done|]. intros x Hx.
  case_bool_decide; [by apply good_at_throw|].
  destruct (MAX_HEADER_BYTES <? _); [by apply good_at_throw|].
  destruct (JSON_parse _) as [hd|]; [|by apply good_at_throw].
  destruct (if headerShape hd then as_obj (Some hd) else None) as [h|]; [|by apply good_at_throw].
  destruct (MAX_OPEN_STREAMS <=? Z.of_nat (length (streams x))) eqn:Hlim; [by apply send_good|].
  bool_to_prop.
  apply (new_good w m x (fun r => set_streams x (map_set (streamId f) r (streams x)))); try done.
  intros w' s Hw' Hr Hi Hm.
  apply good_at_try.
  - apply good_at_bind; [by apply run_open_ok|]. intros a w2 _ Hw2 _.
    destruct a; [by apply good_at_ret|by apply close_good].
  - intros e w2 _ Hw2 _. apply good_at_bind; [by apply close_end_good|].
    intros [] w3 _ Hw3 _. by apply good_at_throw.
Qed.

Lemma handleFrame_good m buf : good (handleFrame m buf).
Proof.
  intros w Hw. unfold handleFrame. apply good_at_mux; [done|]. intros x Hx.
  apply good_at_bind; [by apply (Inv_upd_mux w m x)|]. intros [] w' Hw1 Hw' _.
  injection Hw1 as <-.
  destruct (decodeFrame buf) as [f|e]; [|by apply good_at_throw].
  destruct (op f =? OP_OPEN); [by apply handle_open_good|].
  destruct (map_get (streamId f) (streams x)) as [r|] eqn:Hget; [|by apply good_at_ret].
  destruct (op f =? OP_DATA); [by apply deliver_good|].
  apply map_get_Some in Hget. destruct (proj2 Hw _ _ Hx) as (_ & _ & _ & _ & Hall).
  rewrite Forall_forall in Hall. destruct (Hall _ Hget) as (s & Hr & Hi & Hm & _).
  apply good_at_bind; [by apply forget_good|]. intros [] w2 Hf Hw2 _. apply end_good; [done|].
  eapply (forget_untabled _ r s); [exact Hw'|done|done|]. by rewrite Hm.
Qed.

Lemma end_all_good l reason e w : Inv w -> (forall r, r ∈ l -> (r < length (heap w))%nat /\ ~ tabled r w) ->
  good_at w (end_all l reason e).
Proof.
  revert w e. induction l as [|r l IH]; intros w e Hw Hl; cbn; [by apply good_at_ret|].
  apply good_at_bind.
  - apply good_at_try; [|intros e' w' _ Hw' _; by apply good_at_ret].
    apply good_at_bind; [|intros [] w' _ Hw' _; by apply good_at_ret].
    apply end_good; [done|]. apply Hl. left.
  - intros e' w' _ Hw' He. apply IH; [done|]. intros r2 Hr2.
    destruct (Hl r2) as [Hlt Hnt]; [by right|]. split.
    + apply ext_heap_len in He. lia.
    + intros Ht. by apply Hnt, (proj1 (proj2 He)).
Qed.

Lemma closeAll_good m reason : good (closeAll m reason).
Proof.
  intros w Hw. unfold closeAll. apply good_at_mux; [done|]. intros x Hx.
  apply good_at_bind; [apply (Inv_upd_mux w m x); try done; apply sublist_nil_l|].
  intros [] w' Hw1 Hw' _. injection Hw1 as <-.
  apply good_at_bind; [|intros [e|] w2 _ Hw2 _; [by apply good_at_throw|by apply good_at_ret]].
  apply end_all_good; [done|]. intros r Hr. destruct (proj2 Hw _ _ Hx) as (_ & _ & _ & _ & Hall).
  apply list_elem_of_fmap_1 in Hr as (e & -> & He). rewrite Forall_forall in Hall.
  destruct (Hall _ He) as (s & Hs & Hi & Hm & _). split; [by eapply lookup_lt_Some|].
  intros (m2 & y & Hy & Hin). cbn in Hy.
  apply list_lookup_insert_Some in Hy as [(<- & <- & _)|(Hne & Hy)]; [by apply elem_of_nil in Hin|].
  destruct (proj2 Hw _ _ Hy) as (_ & _ & _ & _ & Hall2). rewrite Forall_forall in Hall2.
  apply list_elem_of_fmap_1 in Hin as (e2 & He2 & Hel2).
  destruct (Hall2 _ Hel2) as (t & Ht & _ & Htm & _). congruence.
Qed.
End handler_operations.

(** ** Runs *)

(** What the owner of the muxes, its peers and its client do to it, in any order; a throwing
    operation is caught by its caller. *)
Inductive mux_op (H : Type) :=
  | Open (m : nat) (hd : json)
  | Incoming (m : nat) (buf : bytes)
  | OnData (r : nat) (cb : H)
  | OnEnd (r : nat) (cb : H)
  | Write (r : nat) (chunk : bytes)
  | Close (r : nat) (reason : option json)
  | CloseAll (m : nat) (reason : option json).
Arguments Open {H}. Arguments Incoming {H}. Arguments OnData {H}. Arguments OnEnd {H}.
Arguments Write {H}. Arguments Close {H}. Arguments CloseAll {H}.

Section runs.
Context {H : Type} `{Transport} `{JsonText} `{TextCodec} `{!Client H}.

Definition run_op (w : World H) (o : mux_op H) : World H :=
  match o with
  | Open m hd => (open m hd w).2
  | Incoming m buf => (handleFrame m buf w).2
  | OnData r cb => (onData r cb w).2
  | OnEnd r cb => (onEnd r cb w).2
  | Write r c => (write r c w).2
  | Close r reason => (close r reason w).2
  | CloseAll m reason => (closeAll m reason w).2
  end.

Definition initial (parities : list Z) : World H :=
  {| heap := []; muxes := new_StreamMux <$> parities |}.

Definition run_ops (parities : list Z) (ops : list (mux_op H)) : World H :=
  foldl run_op (initial parities) ops.

Lemma initial_Inv parities : Inv (initial parities).
Proof.
  split; [done|]. intros m x. cbn. rewrite list_lookup_fmap.
  intros (p & _ & ->)%fmap_Some. cbn. split_and!; [done|done|]. split_and!; [constructor|done|constructor].
Qed.

Lemma run_ops_Inv `{!ClientOK H} parities ops : Inv (run_ops parities ops).
Proof.
  unfold run_ops. generalize (initial_Inv parities). generalize (initial parities).
  induction ops as [|o ops IH]; intros w Hw; [done|]. cbn [foldl]. apply IH.
  destruct o; cbn; [apply open_good|apply handleFrame_good|apply onData_good|apply onEnd_good|
    apply write_good|apply close_good|apply closeAll_good]; done.
Qed.

(** C29: whatever frames the peers send, whatever the client calls and whenever the transport
    throws, the bytes a mux counts as buffered are exactly those its streams hold and never exceed
    64 MiB, a stream holds at most 16 MiB, a closed stream holds nothing, and a mux lists at most
    1024 streams, under distinct ids, all live. *)
Theorem buffers_bounded `{!ClientOK H} parities ops (w := run_ops parities ops) :
  (forall r s, heap w !! r = Some s ->
     pendingBytes s = total (pending s) /\ 0 <= pendingBytes s <= MAX_PENDING_STREAM_BYTES /\
     (isClosed s = true -> pending s = [])) /\
  (forall m x, muxes w !! m = Some x ->
     muxPending x = mux_sum m (heap w) /\ 0 <= muxPending x <= MAX_PENDING_MUX_BYTES /\
     Z.of_nat (length (streams x)) <= MAX_OPEN_STREAMS /\ NoDup (streams x).*1 /\
     forall i r, (i, r) ∈ streams x ->
       exists s, heap w !! r = Some s /\ id s = i /\ mux s = m /\ isClosed s = false).
Proof.
  destruct (run_ops_Inv parities ops) as [HS HM]. fold w in HS, HM. split.
  - intros r s Hs. destruct (HS _ _ Hs) as [(Hp & Hle & Hc) _].
    pose proof (total_nonneg (pending s)). split_and!; [done|lia|done|auto].
  - intros m x Hx. destruct (HM _ _ Hx) as (Hsum & Hle & Hnd & Hlen & Hall).
    split_and!; [done| |done|done|done|].
    + rewrite Hsum. apply sumZ_nonneg, Forall_fmap, Forall_forall. intros s Hs.
      apply list_elem_of_lookup in Hs as [r Hr]. destruct (HS _ _ Hr) as [(Hp & _) _].
      pose proof (total_nonneg (pending s)). unfold held. cbn. case_match; lia.
    + intros i r Hin. rewrite Forall_forall in Hall. apply (Hall _ Hin).
Qed.
End runs.

(** ** The relay *)

(** Run the first computation of a bind, whose result [tac] establishes. *)
Ltac run_bind tac := etrans; [eapply bind_run; tac; done|].

Section relay.
Context `{Transport} `{JsonText} `{TextCodec} (onOpen : nat -> nat -> MW BridgeHandler bool).

#[local] Instance relay_client : Client BridgeHandler := bridge_client onOpen.

Lemma bridge_client_ok : (forall m r, good (onOpen m r)) -> ClientOK BridgeHandler.
Proof.
  intros Ho. split; [| |exact Ho].
  - intros [r|r] c; [apply write_good|]. intros w Hw. by apply good_at_ret.
  - intros [r|r] reason; [|apply close_good]. intros w Hw. by apply good_at_ret.
Qed.

(** From here on the transport accepts every frame. *)
Hypothesis lossless : forall m l f, send_throws m l f = None.
Notation W := (World BridgeHandler).
Implicit Types (w : W) (s : MuxStream BridgeHandler) (x : StreamMux).

Definition data_frame s (c : bytes) : bytes := encodeFrame (id s) OP_DATA c.

Lemma write_run w r s x c : heap w !! r = Some s -> muxes w !! mux s = Some x -> isClosed s = false ->
  write r c w = (Ok tt, upd_mux w (mux s) (count_out x (data_frame s c))).
Proof using lossless.
  intros Hr Hx Hc. unfold write, send.
  run_bind ltac:(unfold stream_of; rewrite Hr). rewrite Hc. cbv iota.
  run_bind ltac:(unfold mux_of; rewrite Hx). by rewrite lossless.
Qed.

Definition count_outs x (l : list bytes) : StreamMux := foldl count_out x l.

Lemma count_outs_sent x l : sent (count_outs x l) = sent x ++ l.
Proof.
  revert x. induction l as [|f l IH]; intros x; cbn; [by rewrite app_nil_r|].
  unfold count_outs in IH. rewrite IH. cbn. by rewrite <-app_assoc.
Qed.

Lemma count_outs_rest x l :
  streams (count_outs x l) = streams x /\ muxPending (count_outs x l) = muxPending x.
Proof.
  revert x. induction l as [|f l IH]; intros x; cbn; [done|]. apply (IH (count_out x f)).
Qed.

Lemma upd_mux_upd_mux w m x y : upd_mux (upd_mux w m x) m y = upd_mux w m y.
Proof. unfold upd_mux. cbn. by rewrite list_insert_insert_eq. Qed.

Lemma upd_mux_id w m x : muxes w !! m = Some x -> upd_mux w m x = w.
Proof. intros Hx. unfold upd_mux. rewrite list_insert_id by done. by destruct w. Qed.

(** Flushing a buffer into the peer stream sends its chunks in order. *)
Lemma flush_run l : forall w a b sa sb x, heap w !! a = Some sa -> isClosed sa = false ->
  heap w !! b = Some sb -> isClosed sb = false -> muxes w !! mux sb = Some x ->
  flush a (WriteTo b) l w = (Ok tt, upd_mux w (mux sb) (count_outs x (data_frame sb <$> l))).
Proof using lossless.
  induction l as [|c l IH]; intros w a b sa sb x Ha Hca Hb Hcb Hx; cbn.
  { by rewrite upd_mux_id. }
  run_bind ltac:(unfold stream_of; rewrite Ha). rewrite Hca. cbv iota.
  run_bind ltac:(cbn; eapply write_run).
  rewrite (IH _ a b sa sb (count_out x (data_frame sb c))); try done.
  - by rewrite upd_mux_upd_mux.
  - cbn. apply list_lookup_insert_eq. by eapply lookup_lt_Some.
Qed.

(** Two live streams on two muxes. *)
Definition link w (a b : nat) sa sb xa xb : Prop :=
  heap w !! a = Some sa /\ heap w !! b = Some sb /\
  muxes w !! mux sa = Some xa /\ muxes w !! mux sb = Some xb /\
  isClosed sa = false /\ isClosed sb = false /\ mux sa <> mux sb.

Lemma link_sym w a b sa sb xa xb : link w a b sa sb xa xb -> link w b a sb sa xb xa.
Proof. unfold link. naive_solver. Qed.

Lemma link_ne w a b sa sb xa xb : link w a b sa sb xa xb -> a <> b.
Proof. intros (Ha & Hb & _ & _ & _ & _ & Hne) ->. congruence. Qed.

(** A linked pair stays linked when one side's stream and the muxes are updated. *)
Lemma link_upd w a b sa sb xa xb sa' xa' xb' : link w a b sa sb xa xb ->
  mux sa' = mux sa -> isClosed sa' = false ->
  link (upd_mux (upd w a sa' (mux sa) xa') (mux sb) xb') a b sa' sb xa' xb'.
Proof.
  intros Hl Hm Hc. pose proof (link_ne _ _ _ _ _ _ _ Hl) as Hab.
  destruct Hl as (Ha & Hb & Hxa & Hxb & Hca & Hcb & Hne). unfold link. cbn. rewrite Hm. split_and!; try done.
  - apply list_lookup_insert_eq. by eapply lookup_lt_Some.
  - by rewrite list_lookup_insert_ne.
  - rewrite list_lookup_insert_ne by done. apply list_lookup_insert_eq. by eapply lookup_lt_Some.
  - apply list_lookup_insert_eq. rewrite length_insert. by eapply lookup_lt_Some.
Qed.

Lemma onData_link w a b sa sb xa xb : link w a b sa sb xa xb ->
  exists w' xa', onData a (WriteTo b) w = (Ok tt, w') /\
    link w' a b (set_pending (set_data sa (WriteTo b)) [] 0) sb xa'
      (count_outs xb (data_frame sb <$> pending sa)) /\
    sent xa' = sent xa /\ streams xa' = streams xa.
Proof using lossless.
  intros Hl. pose proof Hl as (Ha & Hb & Hxa & Hxb & Hca & Hcb & Hne).
  pose proof (link_ne _ _ _ _ _ _ _ Hl) as Hab.
  rewrite (onData_run w a sa xa) by done.
  erewrite flush_run; [| | |cbn; rewrite list_lookup_insert_ne by done; exact Hb|exact Hcb|].
  - eexists _, (set_muxPending xa (muxPending xa - pendingBytes sa)).
    split; [done|]. split; [|done]. by apply (link_upd w a b sa sb xa xb).
  - cbn. apply list_lookup_insert_eq. by eapply lookup_lt_Some.
  - exact Hca.
  - cbn. by rewrite list_lookup_insert_ne.
Qed.

Lemma onEnd_link w a b sa sb xa xb h : link w a b sa sb xa xb ->
  exists w', onEnd a h w = (Ok tt, w') /\ link w' a b (set_end sa h) sb xa xb.
Proof.
  intros Hl. pose proof Hl as (Ha & Hb & Hxa & Hxb & Hca & Hcb & Hne).
  eexists. split.
  - unfold onEnd. run_bind ltac:(unfold stream_of; rewrite Ha).
    run_bind ltac:(unfold put_stream). apply orb_false_iff in Hca as [_ He]. by rewrite He.
  - pose proof (link_upd w a b sa sb xa xb (set_end sa h) xa xb Hl eq_refl Hca) as Hl'.
    rewrite upd_mux_id in Hl'; [|cbn; by rewrite list_lookup_insert_ne].
    unfold upd in Hl'. by rewrite (list_insert_id (muxes w)) in Hl'.
Qed.

(** After [bridge a b]: each side's handlers point at the other, and what either side had buffered
    has been sent on. *)
Lemma bridge_link w a b sa sb xa xb : link w a b sa sb xa xb ->
  exists w' sa' sb' xa' xb', bridge onOpen a b w = (Ok tt, w') /\ link w' a b sa' sb' xa' xb' /\
    id sa' = id sa /\ mux sa' = mux sa /\ id sb' = id sb /\ mux sb' = mux sb /\
    dataCb sa' = Some (WriteTo b) /\ endCb sa' = Some (CloseOf b) /\
    streams xa' = streams xa /\ streams xb' = streams xb /\
    sent xb' = sent xb ++ (data_frame sb <$> pending sa).
Proof using lossless.
  intros Hl. destruct (onData_link _ _ _ _ _ _ _ Hl) as (w1 & xa1 & E1 & L1 & Hs1 & Ht1).
  destruct (onData_link _ _ _ _ _ _ _ (link_sym _ _ _ _ _ _ _ L1)) as (w2 & xb2 & E2 & L2 & Hs2 & Ht2).
  destruct (onEnd_link _ _ _ _ _ _ _ (CloseOf b) (link_sym _ _ _ _ _ _ _ L2)) as (w3 & E3 & L3).
  destruct (onEnd_link _ _ _ _ _ _ _ (CloseOf a) (link_sym _ _ _ _ _ _ _ L3)) as (w4 & E4 & L4).
  apply link_sym in L4. eexists w4, _, _, _, _. split.
  { unfold bridge. run_bind ltac:(apply E1). run_bind ltac:(apply E2). run_bind ltac:(apply E3). apply E4. }
  split; [exact L4|]. split_and!; try done.
  - rewrite (proj1 (count_outs_rest _ _)). done.
  - rewrite Ht2. by rewrite (proj1 (count_outs_rest _ _)).
  - by rewrite Hs2, count_outs_sent.
Qed.

(** [a] is listed under its id and its handlers point at [b]. *)
Definition relayed (a b : nat) sa xa : Prop :=
  map_get (id sa) (streams xa) = Some a /\ 0 <= id sa < 2 ^ 32 /\
  dataCb sa = Some (WriteTo b) /\ endCb sa = Some (CloseOf b).

Lemma handleFrame_run w m x i o p : muxes w !! m = Some x -> is_op o -> o <> OP_OPEN -> 0 <= i < 2 ^ 32 ->
  handleFrame m (encodeFrame i o p) w =
  match map_get i (streams x) with
  | None => mret tt
  | Some r => if o =? OP_DATA then deliver r p else forget m i;; end_ r (close_reason p)
  end (upd_mux w m (count_in x (size (encodeFrame i o p)))).
Proof.
  intros Hx Ho Hne Hi. unfold handleFrame. run_bind ltac:(unfold mux_of; rewrite Hx).
  run_bind ltac:(unfold put_mux, mmodify). rewrite decode_encode by done. cbn [streamId op payload].
  rewrite u32_small by done. by apply Z.eqb_neq in Hne as ->.
Qed.

Lemma data_link w a b sa sb xa xb p : link w a b sa sb xa xb -> relayed a b sa xa ->
  exists w' xa', handleFrame (mux sa) (encodeFrame (id sa) OP_DATA p) w = (Ok tt, w') /\
    link w' a b sa sb xa' (count_out xb (data_frame sb p)) /\ relayed a b sa xa'.
Proof using lossless.
  intros Hl (Hget & Hid & Hcb & Hend). pose proof Hl as (Ha & Hb & Hxa & Hxb & Hca & Hcbd & Hne).
  rewrite (handleFrame_run w (mux sa) xa) by (try done; unfold is_op; auto). rewrite Hget. cbn [Z.eqb].
  exists (upd_mux (upd w a sa (mux sa) (count_in xa (size (encodeFrame (id sa) OP_DATA p)))) (mux sb)
            (count_out xb (data_frame sb p))), (count_in xa (size (encodeFrame (id sa) OP_DATA p))).
  split_and!; [|by apply (link_upd w a b sa sb xa xb)|done].
  unfold deliver. run_bind ltac:(unfold stream_of; cbn; rewrite Ha). rewrite Hca, Hcb. cbv iota.
  cbn [run_data relay_client bridge_client]. etrans; [apply (write_run _ b sb xb); cbn|].
  - done.
  - by rewrite list_lookup_insert_ne.
  - done.
  - unfold upd. by rewrite (list_insert_id (heap w)).
Qed.

Lemma datas_link ps : forall w a b sa sb xa xb, link w a b sa sb xa xb -> relayed a b sa xa ->
  exists w' xa', mfor ps (fun p => handleFrame (mux sa) (encodeFrame (id sa) OP_DATA p)) w = (Ok tt, w') /\
    link w' a b sa sb xa' (count_outs xb (data_frame sb <$> ps)) /\ relayed a b sa xa'.
Proof using lossless.
  induction ps as [|p ps IH]; intros w a b sa sb xa xb Hl Hr; cbn [mfor]; [by exists w, xa|].
  destruct (data_link _ _ _ _ _ _ _ p Hl Hr) as (w1 & xa1 & E1 & L1 & R1).
  destruct (IH _ _ _ _ _ _ _ L1 R1) as (w2 & xa2 & E2 & L2 & R2).
  exists w2, xa2. split; [|done]. run_bind ltac:(apply E1). apply E2.
Qed.

Lemma close_link w a b sa sb xa xb q : link w a b sa sb xa xb -> relayed a b sa xa ->
  exists w' xb' sb', handleFrame (mux sa) (encodeFrame (id sa) OP_CLOSE q) w = (Ok tt, w') /\
    heap w' !! b = Some sb' /\ isClosed sb' = true /\ muxes w' !! mux sb = Some xb' /\
    sent xb' = sent xb ++ [encodeFrame (id sb) OP_CLOSE (reason_payload (peer_closed (close_reason q)))] /\
    streams xb' = map_delete (id sb) (streams xb).
Proof using lossless.
  intros Hl (Hget & Hid & Hcb & Hend). pose proof Hl as (Ha & Hb & Hxa & Hxb & Hca & Hcbd & Hne).
  pose proof (link_ne _ _ _ _ _ _ _ Hl) as Hab.
  apply orb_false_iff in Hca as [_ Hea], Hcbd as [Hlb _].
  rewrite (handleFrame_run w (mux sa) xa) by (try done; unfold is_op; auto). rewrite Hget. cbn [Z.eqb].
  set (x1 := count_in xa _). eexists _, _, _. split.
  { run_bind ltac:(unfold forget, mbind, M_bind, mux_of; cbn;
      rewrite list_lookup_insert_eq by (by eapply lookup_lt_Some); reflexivity).
    unfold upd_mux. cbn. rewrite list_insert_insert_eq.
    erewrite end_run; [|exact Ha|cbn; apply list_lookup_insert_eq; by eapply lookup_lt_Some|done].
    rewrite Hend. cbn [run_end relay_client bridge_client].
    erewrite close_run; [by rewrite lossless|cbn; rewrite list_lookup_insert_ne by done; exact Hb| |done].
    cbn. rewrite !list_lookup_insert_ne by done. exact Hxb. }
  cbn. split_and!.
  - apply list_lookup_insert_eq. rewrite length_insert. by eapply lookup_lt_Some.
  - done.
  - apply list_lookup_insert_eq. rewrite !length_insert. by eapply lookup_lt_Some.
  - done.
  - done.
Qed.

(** A bridge relays faithfully.  For two live streams on different muxes, what the peer of [a]
    had already sent when the bridge was built, and then everything it sends, leaves on [b]'s mux as
    DATA frames of [b] with the same contents, in order, nothing added or lost; when that peer closes,
    exactly one CLOSE of [b] follows, and [b] is closed and no longer listed. *)
Theorem relay_in_order w a b sa sb xa xb ps q :
  link w a b sa sb xa xb -> map_get (id sa) (streams xa) = Some a -> 0 <= id sa < 2 ^ 32 ->
  exists w' xb' sb',
    (bridge onOpen a b;;
     mfor ps (fun p => handleFrame (mux sa) (encodeFrame (id sa) OP_DATA p));;
     handleFrame (mux sa) (encodeFrame (id sa) OP_CLOSE q)) w = (Ok tt, w') /\
    muxes w' !! mux sb = Some xb' /\ heap w' !! b = Some sb' /\
    sent xb' = sent xb ++ (data_frame sb <$> pending sa ++ ps) ++
      [encodeFrame (id sb) OP_CLOSE (reason_payload (peer_closed (close_reason q)))] /\
    isClosed sb' = true /\ streams xb' = map_delete (id sb) (streams xb).
Proof using lossless.
  intros Hl Hget Hid.
  destruct (bridge_link _ _ _ _ _ _ _ Hl) as (w1 & sa1 & sb1 & xa1 & xb1 & E1 & L1 & Hia & Hma & Hib & Hmb &
    Hd & He & Hsta & Hstb & Hse).
  assert (relayed a b sa1 xa1) as R1 by (unfold relayed; rewrite Hia, Hsta; done).
  destruct (datas_link ps _ _ _ _ _ _ _ L1 R1) as (w2 & xa2 & E2 & L2 & R2).
  destruct (close_link _ _ _ _ _ _ _ q L2 R2) as (w3 & xb3 & sb3 & E3 & Hb3 & Hc3 & Hx3 & Hs3 & Ht3).
  exists w3, xb3, sb3. unfold data_frame in *. rewrite Hib in *. rewrite <-Hia, <-Hma, <-Hmb. split_and!; try done.
  - run_bind ltac:(apply E1). run_bind ltac:(apply E2). apply E3.
  - rewrite Hs3, count_outs_sent, Hse, fmap_app, <-!app_assoc. done.
  - rewrite Ht3, (proj1 (count_outs_rest _ _)), Hstb. done.
Qed.
End relay.

(** ** Ids are not checked against the sides' parities *)

Section parity.
Context {H : Type} `{Transport} `{JsonText} `{TextCodec} `{!Client H}.

Lemma map_get_None i (l : list (Z * nat)) : map_get i l = None -> i ∉ l.*1.
Proof.
  unfold map_get. rewrite fmap_None, find_None. intros Hn Hin.
  apply list_elem_of_fmap_1 in Hin as (e & -> & He). specialize (Hn e He). cbn in Hn.
  by rewrite Z.eqb_refl in Hn.
Qed.

Lemma map_set_again i r r' (l : list (Z * nat)) : i ∉ l.*1 ->
  map_set i r' (map_set i r l) = l ++ [(i, r')] /\ map_get i (l ++ [(i, r')]) = Some r'.
Proof.
  intros Hi. rewrite (map_set_fresh i r l) by done. unfold map_get. induction l as [|[k y] l IH]; cbn.
  - by rewrite Z.eqb_refl.
  - cbn in Hi. apply not_elem_of_cons in Hi as [Hne Hi]. apply not_eq_sym, Z.eqb_neq in Hne.
    destruct (IH Hi) as [-> IH2]. by rewrite Hne.
Qed.

(** [handleFrame] accepts an OPEN frame for an id of this side's own parity.  When a peer opens
    a stream under the id this side allocates next, the following local [open] takes the same id and
    replaces the peer's stream in the table: that stream is still open and was accepted, yet no frame
    reaches it any more. *)
Theorem peer_can_shadow_local_id (w : World H) m x hd h p :
  (forall m l f, send_throws m l f = None) -> (forall m r, run_open m r = mret true) ->
  Inv w -> muxes w !! m = Some x -> 0 <= nextId x < 2 ^ 32 -> map_get (nextId x) (streams x) = None ->
  Z.of_nat (length (streams x)) + 1 < MAX_OPEN_STREAMS ->
  size p <= MAX_HEADER_BYTES -> JSON_parse (text_decode p) = Some hd ->
  headerShape hd = true -> as_obj (Some hd) = Some h ->
  let peer := length (heap w) in
  exists w1 w2 x2,
    handleFrame m (encodeFrame (nextId x) OP_OPEN p) w = (Ok tt, w1) /\
    open m hd w1 = (Ok (S peer), w2) /\
    heap w2 !! peer = Some (new_MuxStream (nextId x) h m) /\
    muxes w2 !! m = Some x2 /\ map_get (nextId x) (streams x2) = Some (S peer) /\
    peer ∉ (streams x2).*2.
Proof.
  intros Hsend Hopen Hw Hx Hid Hget Hlen Hsz Hparse Hshape Hobj peer.
  pose proof (lookup_lt_Some _ _ _ Hx) as Hm.
  set (x1 := set_streams (count_in x (size (encodeFrame (nextId x) OP_OPEN p)))
               (map_set (nextId x) peer (streams x))).
  set (w1 := {| heap := heap w ++ [new_MuxStream (nextId x) h m]; muxes := <[m:=x1]> (muxes w) |} : World H).
  assert (muxes w1 !! m = Some x1) as Hx1 by (cbn; by apply list_lookup_insert_eq).
  destruct (map_set_again (nextId x) peer (S peer) (streams x)) as [Hset Hget2]; [by apply map_get_None|].
  set (x2 := set_streams (bump_id x1) (map_set (nextId x) (S peer) (streams x1))).
  set (f := encodeFrame (nextId x) OP_OPEN (text_encode (stringify hd))).
  exists w1, {| heap := heap w1 ++ [new_MuxStream (nextId x) h m]; muxes := <[m:=count_out x2 f]> (muxes w1) |},
    (count_out x2 f).
  split_and!.
  - unfold handleFrame. run_bind ltac:(unfold mux_of; rewrite Hx).
    run_bind ltac:(unfold put_mux, mmodify). rewrite decode_encode by (unfold is_op; auto).
    cbn [op Z.eqb streamId]. change (OP_OPEN =? OP_OPEN) with true. cbv iota. unfold handle_open.
    cbn [streamId payload]. rewrite u32_small by done.
    run_bind ltac:(unfold mux_of; cbn; rewrite list_lookup_insert_eq by done). cbn [streams count_in].
    rewrite Hget, bool_decide_eq_false_2 by (by intros []).
    rewrite (proj2 (Z.ltb_ge MAX_HEADER_BYTES (size p))) by done. rewrite Hparse, Hshape, Hobj.
    rewrite (proj2 (Z.leb_gt MAX_OPEN_STREAMS _)) by lia.
    run_bind ltac:(unfold alloc). run_bind ltac:(unfold put_mux, mmodify).
    unfold mtry. rewrite Hopen. cbn. by rewrite list_insert_insert_eq.
  - unfold open. rewrite Hshape, Hobj. run_bind ltac:(unfold mux_of; rewrite Hx1).
    rewrite (proj2 (Z.leb_gt MAX_OPEN_STREAMS _)).
    2: { pose proof (map_set_length (nextId x) peer (streams x)). cbn. lia. }
    run_bind ltac:(unfold alloc). run_bind ltac:(unfold put_mux, mmodify).
    run_bind ltac:(unfold mtry, send, mbind, M_bind, mux_of; cbn;
      rewrite list_lookup_insert_eq by (by rewrite length_insert); rewrite Hsend; reflexivity).
    cbn. rewrite length_app, Nat.add_comm. cbn. by rewrite !list_insert_insert_eq.
  - cbn. rewrite <-app_assoc, lookup_app_r, Nat.sub_diag by done. done.
  - cbn. apply list_lookup_insert_eq. by rewrite length_insert.
  - cbn. by rewrite Hset.
  - cbn. rewrite Hset, fmap_app. intros [Hin|Hin%list_elem_of_singleton]%elem_of_app; [|cbn in Hin; lia].
    apply list_elem_of_fmap_1 in Hin as (e & He & Hel).
    destruct (proj2 Hw _ _ Hx) as (_ & _ & _ & _ & Hall). rewrite Forall_forall in Hall.
    destruct (Hall _ Hel) as (s & Hs & _). apply lookup_lt_Some in Hs. unfold peer in He. lia.
Qed.
End parity.

(** ** Concrete runs *)

(** A host whose parser reads every text as one valid header; nothing is lost. *)
Definition demo_header : json := JObj [("kind", JStr "http"); ("port", JNum (num_of_Z 80))]%string.
Definition demo_wire : JsonText :=
  {| num_string := fun n => pretty (default 0 (as_int n)); JSON_parse := fun _ => Some demo_header |}.
Definition demo_codec : TextCodec := fun b => string_of_list_ascii ((fun z => Ascii.ascii_of_nat (Z.to_nat z)) <$> b).
Definition demo_transport : Transport := fun _ _ _ => None.
Definition demo_client : Client BridgeHandler :=
  @bridge_client demo_transport demo_wire (fun _ _ => mret true).
Lemma demo_client_ok : @ClientOK BridgeHandler demo_client.
Proof. apply bridge_client_ok. intros m r w Hw. by apply good_at_ret. Defined.

(** A peer opens stream 1 and sends two chunks before a handler is registered. *)
Definition demo_ops : list (mux_op BridgeHandler) :=
  [Incoming 0 (encodeFrame 1 OP_OPEN [123; 125]); Incoming 0 (encodeFrame 1 OP_DATA [1; 2; 3]);
   Incoming 0 (encodeFrame 1 OP_DATA [4]); Open 1 demo_header].
Definition demo_world : World BridgeHandler :=
  @run_ops BridgeHandler demo_transport demo_wire demo_codec demo_client [0; 0] demo_ops.

Lemma buffers_bounded_witness :
  pendingBytes <$> heap demo_world = [4; 0] /\ muxPending <$> muxes demo_world = [4; 0] /\
  (forall r s, heap demo_world !! r = Some s -> 0 <= pendingBytes s <= MAX_PENDING_STREAM_BYTES).
Proof.
  split; [vm_compute; reflexivity|]. split; [vm_compute; reflexivity|].
  intros r s Hs.
  apply (@buffers_bounded BridgeHandler demo_transport demo_wire demo_codec demo_client demo_client_ok
    [0; 0] demo_ops) in Hs. apply Hs.
Defined.

Definition demo_a : MuxStream BridgeHandler := default (new_MuxStream 0 [] 0) (heap demo_world !! 0%nat).
Definition demo_b : MuxStream BridgeHandler := default (new_MuxStream 0 [] 0) (heap demo_world !! 1%nat).
Definition demo_xa : StreamMux := default (new_StreamMux 0) (muxes demo_world !! 0%nat).
Definition demo_xb : StreamMux := default (new_StreamMux 0) (muxes demo_world !! 1%nat).

Lemma relay_in_order_witness : exists (w' : World BridgeHandler) xb' sb',
  muxes w' !! 1%nat = Some xb' /\ heap w' !! 1%nat = Some sb' /\
  sent xb' = sent demo_xb ++ (data_frame demo_b <$> [[1; 2; 3]; [4]; [5]]) ++
      [encodeFrame 2 OP_CLOSE (@reason_payload demo_wire (Some (JStr "peer closed")))] /\
  isClosed sb' = true.
Proof.
  destruct (@relay_in_order demo_transport demo_wire demo_codec (fun _ _ => mret true)
    (fun _ _ _ => eq_refl) demo_world 0%nat 1%nat demo_a demo_b demo_xa demo_xb [[5]] [])
    as (w' & xb' & sb' & _ & Hx & Hs & Hsent & Hc & _).
  - split_and!; vm_compute; congruence.
  - vm_compute. reflexivity.
  - vm_compute. split; congruence.
  - exists w', xb', sb'. split; [exact Hx|]. split; [exact Hs|]. split; [exact Hsent|exact Hc].
Defined.

Lemma peer_can_shadow_local_id_witness :
  let w := @initial BridgeHandler [1] in
  exists w1 w2 x2,
    @handleFrame BridgeHandler demo_transport demo_wire demo_codec demo_client 0 (encodeFrame 1 OP_OPEN []) w = (Ok tt, w1) /\
    @open BridgeHandler demo_transport demo_wire demo_client 0 demo_header w1 = (Ok 1%nat, w2) /\
    muxes w2 !! 0%nat = Some x2 /\ map_get 1 (streams x2) = Some 1%nat /\ 0%nat ∉ (streams x2).*2.
Proof.
  destruct (@peer_can_shadow_local_id BridgeHandler demo_transport demo_wire demo_codec demo_client
    (initial [1]) 0 (new_StreamMux 1) demo_header
    [("kind", JStr "http"); ("port", JNum (num_of_Z 80))]%string [])
    as (w1 & w2 & x2 & E1 & E2 & _ & Hx & Hg & Hnot);
    [reflexivity|reflexivity|apply initial_Inv|reflexivity|vm_compute; split; congruence|reflexivity|
     reflexivity|vm_compute; congruence|reflexivity|vm_compute; reflexivity|reflexivity|].
  exists w1, w2, x2. split; [exact E1|]. split; [exact E2|]. split; [exact Hx|]. split; [exact Hg|exact Hnot].
Defined.
