(* ===== verification/Outbox.v ===== *)
(** * Outbound WebSocket queue (control/socket-outbox.ts)

    The class [SocketOutbox]: frames go to the socket at once while it accepts them, and are queued
    under backpressure until it drains.  The socket's [send] is a parameter; a log records what was
    offered, submitted and disconnected, and refinement is stated against a plain FIFO. *)

From S2P Require Import Prelude Frame.

Local Open Scope string_scope.
Local Open Scope list_scope.
Local Open Scope Z_scope.

Inductive SocketFrame :=
  | Text (s : string)
  | Binary (b : bytes).

#[export] Instance SocketFrame_eq_dec : EqDecision SocketFrame.
Proof. solve_decision. Defined.

Definition MAX_QUEUED_BYTES : Z := 1024 * 1024 * 1024.

(** [Buffer.byteLength(frame)] / [frame.byteLength] *)
Definition frame_size (f : SocketFrame) : Z :=
  match f with Text s => Frame.size (text_encode s) | Binary b => Frame.size b end.

(** What happened, in order: a frame offered to an open outbox, a frame handed to the socket with its
    result ([None]: it threw), the turn on which the queue resumes, the disconnect callback. *)
Inductive event :=
  | Offered (f : SocketFrame)
  | Submitted (f : SocketFrame) (outcome : option Z)
  | Resumed
  | Disconnected (reason : string).

Record SocketOutbox := {
  queue : list (option SocketFrame);
  head : nat;
  queuedBytes : Z;
  blocked : bool;
  closed : bool;
  resumeTimer : bool;
  log : list event }.

Definition new_outbox : SocketOutbox :=
  {| queue := []; head := 0; queuedBytes := 0; blocked := false; closed := false; resumeTimer := false; log := [] |}.

Section outbox.
Context (sendRaw : list event -> SocketFrame -> option Z) (limit : Z).
Implicit Types (o : SocketOutbox) (f : SocketFrame).

Definition note o (e : event) : SocketOutbox :=
  {| queue := queue o; head := head o; queuedBytes := queuedBytes o; blocked := blocked o; closed := closed o;
     resumeTimer := resumeTimer o; log := log o ++ [e] |}.
Definition set_queue o (q : list (option SocketFrame)) (h : nat) (b : Z) : SocketOutbox :=
  {| queue := q; head := h; queuedBytes := b; blocked := blocked o; closed := closed o;
     resumeTimer := resumeTimer o; log := log o |}.
Definition set_blocked o (b : bool) : SocketOutbox :=
  {| queue := queue o; head := head o; queuedBytes := queuedBytes o; blocked := b; closed := closed o;
     resumeTimer := resumeTimer o; log := log o |}.
Definition set_timer o (b : bool) : SocketOutbox :=
  {| queue := queue o; head := head o; queuedBytes := queuedBytes o; blocked := blocked o; closed := closed o;
     resumeTimer := b; log := log o |}.

Definition close o : SocketOutbox :=
  {| queue := []; head := 0; queuedBytes := 0; blocked := blocked o; closed := true; resumeTimer := false;
     log := log o |}.

Definition fail o (reason : string) : bool * SocketOutbox := (false, note (close o) (Disconnected reason)).

Definition submit o f : bool * SocketOutbox :=
  let r := sendRaw (log o) f in
  let o := note o (Submitted f r) in
  match r with
  | None => fail o "WebSocket send failed"
  | Some z =>
      if z =? 0 then fail o "WebSocket dropped an outbound frame"
      else (true, set_blocked o (z <? 0))
  end.

Definition send o f : bool * SocketOutbox :=
  if closed o then (false, o) else
  let o := note o (Offered f) in
  if limit - queuedBytes o <? frame_size f then fail o "outbound queue limit exceeded"
  else if negb (blocked o) && (head o =? length (queue o))%nat then submit o f
  else (true, set_queue o (queue o ++ [Some f]) (head o) (queuedBytes o + frame_size f)).

Definition drain o : SocketOutbox := if closed o || resumeTimer o then o else set_timer o true.

(** The [while] of [flush]; the fuel is the number of queued frames. *)
Fixpoint flush_loop (fuel : nat) o : bool * SocketOutbox :=
  match fuel with
  | O => (true, o)
  | S fuel =>
      if negb (blocked o) && (head o <? length (queue o))%nat then
        match queue o !! head o with
        | Some (Some f) =>
            let o := set_queue o (<[head o := None]> (queue o)) (S (head o)) (queuedBytes o - frame_size f) in
            let '(ok, o) := submit o f in
            if ok then flush_loop fuel o else (false, o)
        | _ => (true, o)
        end
      else (true, o)
  end.

Definition compact o : SocketOutbox :=
  if (head o =? length (queue o))%nat then set_queue o [] 0 (queuedBytes o)
  else if (4096 <? head o)%nat && (length (queue o) <? head o * 2)%nat
  then set_queue o (drop (head o) (queue o)) 0 (queuedBytes o)
  else o.

Definition flush o : SocketOutbox :=
  if closed o then o else
  let o := set_blocked (note o Resumed) false in
  let '(ok, o) := flush_loop (S (length (queue o) - head o)) o in
  if ok then compact o else o.

(** The timer of [drain] fires. *)
Definition fire o : SocketOutbox := if resumeTimer o then flush (set_timer o false) else o.

Inductive outbox_op :=
  | Send (f : SocketFrame)
  | Drain
  | Fire
  | Close.

Definition run_op o (op : outbox_op) : SocketOutbox :=
  match op with Send f => (send o f).2 | Drain => drain o | Fire => fire o | Close => close o end.

Definition run_ops (ops : list outbox_op) : SocketOutbox := foldl run_op new_outbox ops.

(** ** Specification: a FIFO *)

Definition waiting o : list SocketFrame := omap (fun x => x) (drop (head o) (queue o)).

Definition offered (l : list event) : list SocketFrame :=
  omap (fun e => match e with Offered f => Some f | _ => None end) l.
Definition submitted (l : list event) : list SocketFrame :=
  omap (fun e => match e with Submitted f _ => Some f | _ => None end) l.
Definition disconnects (l : list event) : list string :=
  omap (fun e => match e with Disconnected r => Some r | _ => None end) l.

(** The socket took the frame. *)
Definition taken (r : option Z) : bool := match r with Some z => negb (z =? 0) | None => false end.

Definition negative (r : option Z) : bool := match r with Some z => z <? 0 | None => false end.

(** The protocol of the socket, read from the log: no frame is submitted after one was lost, and after
    a frame met backpressure the next is submitted only on a later resume. *)
Inductive status := Ready | Backpressure | Lost.
Definition status_eqb (a b : status) : bool :=
  match a, b with Ready, Ready | Backpressure, Backpressure | Lost, Lost => true | _, _ => false end.
Fixpoint follow (s : status) (l : list event) : option status :=
  match l with
  | [] => Some s
  | Submitted _ r :: l =>
      if status_eqb s Ready then
        follow (if taken r then if negative r then Backpressure else Ready else Lost) l
      else None
  | Resumed :: l => if status_eqb s Lost then None else follow Ready l
  | _ :: l => follow s l
  end.

Definition sizes (l : list SocketFrame) : Z := sumZ (frame_size <$> l).

(** An open outbox whose queue holds [ws]. *)
Definition holds_queue o (ws : list SocketFrame) : Prop :=
  drop (head o) (queue o) = Some <$> ws /\ (head o <= length (queue o))%nat /\
  queuedBytes o = sizes ws /\ sizes ws <= limit.

Definition live o (ws : list SocketFrame) : Prop :=
  closed o = false /\ holds_queue o ws /\ submitted (log o) ++ ws = offered (log o) /\
  disconnects (log o) = [] /\ follow Ready (log o) = Some (if blocked o then Backpressure else Ready).

Definition dead o : Prop :=
  closed o = true /\ queue o = [] /\ head o = 0%nat /\ queuedBytes o = 0 /\ resumeTimer o = false /\
  submitted (log o) `prefix_of` offered (log o) /\ (length (disconnects (log o)) <= 1)%nat /\
  is_Some (follow Ready (log o)).

Definition Inv o : Prop := dead o \/ exists ws, live o ws /\ (blocked o = false -> ws = []).

Lemma follow_app s l k : follow s (l ++ k) = follow s l ≫= fun s' => follow s' k.
Proof.
  revert s. induction l as [|e l IH]; intros s; [done|]. cbn.
  destruct e as [f|f r| |f]; try apply IH; case_match; try done; apply IH.
Qed.

Lemma log_projections l e :
  submitted (l ++ [e]) = submitted l ++ submitted [e] /\ offered (l ++ [e]) = offered l ++ offered [e] /\
  disconnects (l ++ [e]) = disconnects l ++ disconnects [e].
Proof. unfold submitted, offered, disconnects. by rewrite !omap_app. Qed.

Lemma waiting_holds o ws : holds_queue o ws -> waiting o = ws.
Proof. intros (Hd & _). unfold waiting. rewrite Hd. clear. induction ws as [|f l IH]; [done|]. cbn in *. by rewrite IH. Qed.

Lemma fail_dead o reason st : submitted (log o) `prefix_of` offered (log o) -> disconnects (log o) = [] ->
  follow Ready (log o) = Some st -> exists o', fail o reason = (false, o') /\ dead o'.
Proof.
  intros Hp Hd Hf. eexists. split; [reflexivity|]. unfold dead. cbn [closed queue head queuedBytes resumeTimer log note close].
  destruct (log_projections (log o) (Disconnected reason)) as (-> & -> & ->). rewrite follow_app, Hf, Hd.
  cbn -[prefix]. rewrite !app_nil_r. split_and!; done.
Qed.

(** Handing the oldest frame to the socket. *)
Lemma submit_cases o f ws : closed o = false -> blocked o = false -> holds_queue o ws ->
  submitted (log o) ++ f :: ws = offered (log o) -> disconnects (log o) = [] ->
  follow Ready (log o) = Some Ready ->
  exists o', (submit o f = (true, o') /\ live o' ws /\ blocked o' = negative (sendRaw (log o) f) /\
                log o' = log o ++ [Submitted f (sendRaw (log o) f)]) \/
             (submit o f = (false, o') /\ dead o' /\ taken (sendRaw (log o) f) = false).
Proof.
  intros Hc Hb Hq Hs Hd Hf. unfold submit. set (r := sendRaw (log o) f).
  destruct (log_projections (log o) (Submitted f r)) as (Ls & Lo & Ld).
  change (submitted [_]) with [f] in Ls. change (offered [_]) with (@nil SocketFrame) in Lo.
  change (disconnects [_]) with (@nil string) in Ld. rewrite app_nil_r in Lo, Ld. rewrite Hd in Ld.
  assert (submitted (log (note o (Submitted f r))) ++ ws = offered (log (note o (Submitted f r)))) as Hs'.
  { cbn [log note]. rewrite Ls, Lo, <-Hs, <-app_assoc. done. }
  assert (follow Ready (log (note o (Submitted f r))) =
          Some (if taken r then if negative r then Backpressure else Ready else Lost)) as Hf'.
  { cbn [log note]. rewrite follow_app, Hf. cbn. by destruct (taken r), (negative r). }
  assert (forall reason, exists o', fail (note o (Submitted f r)) reason = (false, o') /\ dead o') as Hfail.
  { intros reason. eapply fail_dead; [|exact Ld|exact Hf']. rewrite <-Hs'. by apply prefix_app_r. }
  destruct r as [z|] eqn:Hr.
  - cbn in Hf'. destruct (z =? 0) eqn:E.
    + destruct (Hfail "WebSocket dropped an outbound frame") as (o' & Eo & Hdead). exists o'. right.
      split_and!; [done..|]. cbn. by rewrite E.
    + eexists. left. split; [reflexivity|]. split; [|done]. split_and!; try done; apply Hq.
  - destruct (Hfail "WebSocket send failed") as (o' & Eo & Hdead). exists o'. by right.
Qed.

Lemma sizes_app l k : sizes (l ++ k) = sizes l + sizes k.
Proof. unfold sizes. by rewrite fmap_app, sumZ_app. Qed.

Lemma frame_size_nonneg f : 0 <= frame_size f.
Proof. destruct f; apply Zle_0_nat. Qed.

Lemma live_Inv o ws : live o ws -> (blocked o = false -> ws = []) -> Inv o.
Proof. right. by exists ws. Qed.

Lemma holds_empty o ws : holds_queue o ws -> (head o =? length (queue o))%nat = true <-> ws = [].
Proof.
  intros (Hd & Hh & _). rewrite Nat.eqb_eq. apply (f_equal length) in Hd.
  rewrite length_drop, length_fmap in Hd. split; intros He; [apply length_zero_iff_nil; lia|].
  subst ws. cbn in Hd. lia.
Qed.

Lemma holds_push o ws f : holds_queue o ws -> frame_size f <= limit - queuedBytes o ->
  holds_queue (set_queue o (queue o ++ [Some f]) (head o) (queuedBytes o + frame_size f)) (ws ++ [f]).
Proof.
  intros (Hd & Hh & Hb & Hl) Hf. unfold holds_queue. cbn [queue head queuedBytes set_queue].
  rewrite drop_app_le, Hd, fmap_app, length_app, sizes_app by done. unfold sizes at 2 4. cbn.
  rewrite sumZ_cons, sumZ_nil. split_and!; [done|lia|lia|lia].
Qed.

Lemma send_Inv o f : Inv o -> Inv (send o f).2.
Proof.
  intros Ho. unfold send. destruct (closed o) eqn:Hc; [done|].
  destruct Ho as [[Hdead _]|(ws & (_ & Hq & Hs & Hd & Hf) & Hw)]; [congruence|].
  destruct (log_projections (log o) (Offered f)) as (Ls & Lo & Ld).
  change (submitted [_]) with (@nil SocketFrame) in Ls. change (offered [_]) with [f] in Lo.
  change (disconnects [_]) with (@nil string) in Ld. rewrite app_nil_r in Ls, Ld. rewrite Hd in Ld.
  assert (follow Ready (log (note o (Offered f))) = Some (if blocked o then Backpressure else Ready)) as Hf'.
  { cbn [log note]. by rewrite follow_app, Hf. }
  assert (submitted (log (note o (Offered f))) ++ ws ++ [f] = offered (log (note o (Offered f)))) as Hs'.
  { cbn [log note]. by rewrite Ls, Lo, app_assoc, Hs. }
  change (queuedBytes (note o (Offered f))) with (queuedBytes o).
  destruct (limit - queuedBytes o <? frame_size f) eqn:El.
  { destruct (fail_dead (note o (Offered f)) "outbound queue limit exceeded" _
      ltac:(rewrite <-Hs'; by apply prefix_app_r) Ld Hf') as (o' & -> & Hdead). by left. }
  change (blocked (note o (Offered f))) with (blocked o).
  change (head (note o (Offered f)) =? length (queue (note o (Offered f))))%nat with (head o =? length (queue o))%nat.
  destruct (blocked o) eqn:Hb; cbn [negb andb].
  - cbn [snd]. apply (live_Inv _ (ws ++ [f])); [|cbn; by rewrite Hb].
    unfold live. cbn [log blocked closed set_queue note]. rewrite Hb. bool_to_prop.
    split_and!; try done. by apply (holds_push (note o (Offered f))).
  - specialize (Hw eq_refl) as ->. rewrite (proj2 (holds_empty o [] Hq)) by done.
    destruct (submit_cases (note o (Offered f)) f []) as (o' & [(-> & Hl & _)|(-> & Hdead & _)]); try done.
    + by apply (live_Inv _ []).
    + by left.
Qed.

Lemma close_Inv o : Inv o -> Inv (close o).
Proof.
  intros [Hdead|(ws & (Hc & Hq & Hs & Hd & Hf) & Hw)]; left; unfold dead in *;
    cbn [close closed queue head queuedBytes resumeTimer log].
  - naive_solver.
  - rewrite Hd, <-Hs, Hf. split_and!; try done; [by apply prefix_app_r|cbn; lia].
Qed.

Lemma drain_Inv o : Inv o -> Inv (drain o).
Proof.
  intros Ho. unfold drain. destruct (closed o) eqn:Hc; [done|]. destruct (resumeTimer o); [done|]. cbn [orb].
  destruct Ho as [[Hdead _]|(ws & Hl & Hw)]; [congruence|]. right. by exists ws.
Qed.

Lemma holds_pop o f ws : holds_queue o (f :: ws) ->
  queue o !! head o = Some (Some f) /\
  holds_queue (set_queue o (<[head o := None]> (queue o)) (S (head o)) (queuedBytes o - frame_size f)) ws.
Proof.
  intros (Hdrop & Hhead & Hbytes & Hlim).
  assert (queue o !! head o = Some (Some f)) as Hlook.
  { rewrite <-(Nat.add_0_r (head o)), <-lookup_drop, Hdrop. done. }
  pose proof (lookup_lt_Some _ _ _ Hlook) as Hlt. split; [done|].
  unfold holds_queue. cbn [queue head queuedBytes set_queue]. rewrite drop_insert_lt by lia.
  rewrite length_insert. unfold sizes in *. cbn in Hlim, Hbytes. rewrite sumZ_cons in Hlim, Hbytes.
  pose proof (frame_size_nonneg f). split_and!; [|lia|lia|lia].
  erewrite drop_S in Hdrop by done. cbn in Hdrop. by injection Hdrop.
Qed.

(** The loop of [flush] ends with the outbox dead, blocked or empty, when its fuel covers the queue. *)
Lemma flush_loop_cases fuel : forall o ws, live o ws -> (length ws < fuel)%nat ->
  exists o', (flush_loop fuel o = (false, o') /\ dead o') \/
    (flush_loop fuel o = (true, o') /\ exists ws', live o' ws' /\ (blocked o' = false -> ws' = [])).
Proof.
  induction fuel as [|fuel IH]; intros o ws Hl Hlen; [lia|]. pose proof Hl as (Hc & Hq & Hs & Hd & Hf).
  cbn [flush_loop]. destruct (blocked o) eqn:Hb; cbn [negb andb].
  { exists o. right. split; [done|]. exists ws. split; [done|congruence]. }
  destruct ws as [|f ws].
  { pose proof (proj2 (holds_empty o [] Hq) eq_refl) as He%Nat.eqb_eq. rewrite He, Nat.ltb_irrefl.
    exists o. right. split; [done|]. by exists []. }
  destruct (holds_pop o f ws Hq) as [Hlook Hq'].
  rewrite (proj2 (Nat.ltb_lt _ _)) by (by eapply lookup_lt_Some). rewrite Hlook.
  edestruct (submit_cases (set_queue o _ _ _) f ws Hc Hb Hq' Hs Hd Hf)
    as (o' & [(-> & Hl' & _)|(-> & Hdead & _)]).
  - apply (IH _ ws); [done|]. cbn in Hlen. lia.
  - exists o'. by left.
Qed.

Lemma compact_live o ws : live o ws -> live (compact o) ws /\ blocked (compact o) = blocked o.
Proof.
  intros (Hc & Hq & Hs & Hd & Hf). pose proof Hq as (Hdrop & Hhead & Hbytes & Hlim). unfold compact.
  destruct (head o =? length (queue o))%nat eqn:E; [|destruct (_ && _)]; (split; [|done]);
    (split; [done|split; [|done]]); [| |done]; unfold holds_queue; cbn [queue head queuedBytes set_queue].
  - apply (holds_empty o ws Hq) in E as ->. done.
  - rewrite drop_0, Hdrop. split_and!; [done|lia|done|done].
Qed.

Lemma resume_live o ws : live o ws -> live (set_blocked (note o Resumed) false) ws.
Proof.
  intros (Hc & Hq & Hs & Hd & Hf).
  destruct (log_projections (log o) Resumed) as (Ls & Lo & Ld). unfold live.
  cbn [log note set_blocked blocked closed]. rewrite Ls, Lo, Ld, follow_app, Hf, Hd. cbn [omap].
  change (submitted [_]) with (@nil SocketFrame). change (offered [_]) with (@nil SocketFrame).
  rewrite !app_nil_r, Hs. split_and!; try done. by destruct (blocked o).
Qed.

Lemma flush_cases o ws : live o ws ->
  dead (flush o) \/ exists ws', live (flush o) ws' /\ (blocked (flush o) = false -> ws' = []).
Proof.
  intros Hlive. pose proof (resume_live o ws Hlive) as Hl. destruct Hlive as (Hc & Hq & _).
  unfold flush. rewrite Hc. set (o1 := set_blocked (note o Resumed) false) in *.
  destruct (flush_loop_cases (S (length (queue o1) - head o1)) o1 ws Hl) as (o' & [(-> & Hdead)|(-> & ws' & Hl' & Hb)]).
  - destruct Hq as (Hdrop & _). apply (f_equal length) in Hdrop. rewrite length_drop, length_fmap in Hdrop.
    cbn. lia.
  - by left.
  - right. exists ws'. destruct (compact_live o' ws' Hl') as [? ->]. done.
Qed.

Lemma fire_Inv o : Inv o -> Inv (fire o).
Proof.
  intros Ho. unfold fire. destruct (resumeTimer o) eqn:Ht; [|done].
  destruct Ho as [(_ & _ & _ & _ & Hno & _)|(ws & Hl & Hw)]; [congruence|]. by apply (flush_cases (set_timer o false) ws).
Qed.

Lemma run_op_Inv o op : Inv o -> Inv (run_op o op).
Proof. destruct op; [apply send_Inv|apply drain_Inv|apply fire_Inv|apply close_Inv]. Qed.

Lemma outbox_run_Inv ops : 0 <= limit -> Inv (run_ops ops).
Proof.
  intros Hl. assert (Inv new_outbox) as H0 by (right; by exists []).
  unfold run_ops. revert H0. generalize new_outbox.
  induction ops as [|op ops IH]; intros o Ho; [done|]. cbn [foldl]. by apply IH, run_op_Inv.
Qed.

(** C30: the outbox refines a bounded FIFO over the socket.  For every sequence of sends, drains,
    timer turns and closes and every socket: what was submitted is a prefix of what was offered, in
    order; while the outbox is open, submitted and waiting frames together are exactly what was
    offered, the queued byte count is that of the waiting frames and within the limit, and frames wait
    only under backpressure; nothing is submitted after a lost frame, nor before a resume after
    backpressure; a closed outbox holds nothing and disconnects at most once. *)
Theorem outbox_refines_fifo ops : 0 <= limit ->
  let o := run_ops ops in
  submitted (log o) `prefix_of` offered (log o) /\
  queuedBytes o = sizes (waiting o) /\ sizes (waiting o) <= limit /\
  is_Some (follow Ready (log o)) /\ (length (disconnects (log o)) <= 1)%nat /\
  (closed o = true -> waiting o = []) /\
  (closed o = false -> submitted (log o) ++ waiting o = offered (log o) /\
     disconnects (log o) = [] /\ (waiting o <> [] -> blocked o = true)).
Proof.
  intros Hl o. destruct (outbox_run_Inv ops Hl) as [Hdead|(ws & (Hc & Hq & Hs & Hd & Hf) & Hw)]; fold o in Hdead || fold o in Hc, Hq, Hs, Hd, Hf, Hw.
  - destruct Hdead as (Hc & Hq & Hh & Hb & _ & Hp & Hn & Hst).
    assert (waiting o = []) as -> by (unfold waiting; by rewrite Hq, Hh).
    split_and!; try done. congruence.
  - rewrite (waiting_holds o ws Hq). pose proof Hq as (_ & _ & Hb & Hle).
    rewrite Hf, Hd, <-Hs. split_and!; [by apply prefix_app_r|done|done|done|cbn; lia|congruence|].
    intros _. split_and!; [done|done|]. destruct (blocked o); [done|]. intros []. auto.
Qed.

(** A socket that takes everything from now on, without backpressure. *)
Definition accepting o : Prop :=
  forall l f, log o `prefix_of` l -> exists z, sendRaw l f = Some z /\ 0 < z.

Lemma flush_loop_all fuel : forall o ws, live o ws -> accepting o -> blocked o = false ->
  (length ws < fuel)%nat -> exists o', flush_loop fuel o = (true, o') /\ live o' [] /\ blocked o' = false.
Proof.
  induction fuel as [|fuel IH]; intros o ws Hl Ha Hb Hlen; [lia|].
  pose proof Hl as (Hc & Hq & Hs & Hd & Hf). rewrite Hb in Hf.
  cbn [flush_loop]. rewrite Hb. cbn [negb andb]. destruct ws as [|f ws].
  { exists o. pose proof (proj2 (holds_empty o [] Hq) eq_refl) as He%Nat.eqb_eq. by rewrite He, Nat.ltb_irrefl. }
  destruct (holds_pop o f ws Hq) as [Hlook Hq'].
  rewrite (proj2 (Nat.ltb_lt _ _)) by (by eapply lookup_lt_Some). rewrite Hlook.
  destruct (Ha (log o) f) as (z & Hz & Hpos); [done|].
  edestruct (submit_cases (set_queue o _ _ _) f ws Hc Hb Hq' Hs Hd Hf)
    as (o' & [(-> & Hl' & Hb' & Hlog)|(-> & _ & Htk)]); cbn [log set_queue] in *; rewrite Hz in *.
  - apply (IH _ ws); [done| | |cbn in Hlen; lia].
    + intros l g Hp. apply Ha. rewrite Hlog in Hp. etrans; [|exact Hp]. by apply prefix_app_r.
    + rewrite Hb'. cbn. apply Z.ltb_ge. lia.
  - cbn in Htk. apply negb_false_iff, Z.eqb_eq in Htk. lia.
Qed.

(** Backpressure ends.  In every reachable open outbox, once the socket accepts frames again, a
    drain notification and the timer turn it schedules submit everything that was waiting: all that was
    ever offered has then been submitted, in order, and no byte is queued. *)
Theorem drain_empties_queue ops : 0 <= limit ->
  let o := run_ops ops in closed o = false -> accepting o ->
  let o' := fire (drain o) in
  closed o' = false /\ waiting o' = [] /\ queuedBytes o' = 0 /\ submitted (log o') = offered (log o').
Proof.
  intros Hl o Hc Ha. destruct (outbox_run_Inv ops Hl) as [(Hcl & _)|(ws & Hlive & _)]; fold o in Hcl || fold o in Hlive;
    [congruence|].
  assert (fire (drain o) = flush (set_timer o false)) as ->.
  { unfold drain, fire. rewrite Hc. destruct (resumeTimer o) eqn:Ht; cbn [orb]; [by rewrite Ht|done]. }
  unfold flush. cbn [closed set_timer]. rewrite Hc.
  assert (live (set_blocked (note (set_timer o false) Resumed) false) ws) as Hl1 by by apply resume_live.
  set (o1 := set_blocked (note (set_timer o false) Resumed) false) in *.
  destruct (flush_loop_all (S (length (queue o1) - head o1)) o1 ws Hl1) as (o' & -> & Hl' & Hb').
  - intros l f Hp. apply Ha. etrans; [|exact Hp]. by apply prefix_app_r.
  - done.
  - destruct Hlive as (_ & (Hdrop & _) & _). apply (f_equal length) in Hdrop.
    rewrite length_drop, length_fmap in Hdrop. cbn. lia.
  - destruct (compact_live o' [] Hl') as [(Hc2 & Hq2 & Hs2 & _) _]. rewrite app_nil_r in Hs2.
    rewrite (waiting_holds _ [] Hq2). destruct Hq2 as (_ & _ & Hb2 & _). done.
Qed.
End outbox.

(** A socket that takes the first frame with backpressure and everything after it. *)
Definition demo_socket (l : list event) (f : SocketFrame) : option Z :=
  Some (match submitted l with [] => -1 | _ => 1 end).
Definition demo_frames : list outbox_op := [Send (Text "a"); Send (Binary [1; 2]); Send (Text "bc")].

Lemma outbox_refines_fifo_witness :
  let o := run_ops demo_socket 100 demo_frames in
  waiting o = [Binary [1; 2]; Text "bc"] /\ queuedBytes o = 4 /\
  submitted (log o) `prefix_of` offered (log o).
Proof.
  split; [vm_compute; reflexivity|]. split; [vm_compute; reflexivity|].
  apply (outbox_refines_fifo demo_socket 100 demo_frames). lia.
Defined.

Lemma drain_empties_queue_witness :
  let o := fire demo_socket (drain (run_ops demo_socket 100 demo_frames)) in
  submitted (log o) = [Text "a"; Binary [1; 2]; Text "bc"] /\ waiting o = [].
Proof.
  split; [vm_compute; reflexivity|].
  apply (drain_empties_queue demo_socket 100 demo_frames); [lia|vm_compute; reflexivity|].
  intros l f [k ->]. exists 1. split; [vm_compute; reflexivity|lia].
Defined.
