(* ===== verification/MeshCoordinator.v ===== *)
(** * The certification coordinator (sin-harness/mesh/coordinator.ts)

    [runCertification] dispatches eval instances to nodes from a pool of four asynchronous workers
    that share a queue, then cross-checks redundant executions by strict majority.

    JavaScript interleaves the workers only at [await]: a run is a sequence of atomic segments.  A
    worker is [Looping] (about to run from the head of its loop to the next await), [Awaiting] the
    reply to its dispatch, [Settled] (the dispatch has returned an outcome, the rest of the loop body
    is still to run) or [Returned].  [worker_step w] runs the next segment of worker [w]; a schedule
    is the list of workers that run.  One turn of the loop that finds no node and goes round again is
    its own segment here.  [env k] is what dispatch number [k] ([attemptsSalt]) gets back from the
    network and [verify] the Ed25519 check of a response against a node's key (an exception when
    the signature is not base64). *)

From S2P Require Import Prelude JsNum Json HarnessTypes Canon.

Definition REDUNDANT_EVERY : nat := 20.
Definition REDUNDANT_COPIES : nat := 3.
Definition CONCURRENCY : nat := 4.

Record ExecuteResponse := {
  xr_nodeId : string; xr_requestId : string; xr_results : list EvalResult; xr_signature : string }.

(** What [meshPost] gives: a parsed response, or an exception with its message. *)
Inductive Reply := Replied (resp : ExecuteResponse) | Failed (message : string).

Record NodeHandle := { nh_id : string; nh_port : Z; nh_proc : bool; nh_alive : bool }.
Record WorkItem := { wi_inst : EvalInstance; wi_extra : bool; wi_attempts : nat }.
Inductive Outcome := ok | dead | bad.
#[export] Instance Outcome_eq : EqDecision Outcome.
Proof. solve_decision. Defined.

Inductive Worker :=
  | Looping
  | Awaiting (salt : nat) (node : nat) (item : WorkItem)
  | Settled (node : nat) (item : WorkItem) (o : Outcome)
  | Returned.

Record CoordArgs := { ca_count : nat; ca_chaos : option nat; ca_chaosAtStart : bool }.

(** One recorded execution of a redundant instance. *)
Record Variant := { vr_nodeId : string; vr_result : ComparableResult }.

Record State := {
  st_nodes : list NodeHandle;
  st_queue : list WorkItem; st_next : nat;
  st_rr : nat; st_salt : nat;
  st_single : gmap string ComparableResult;
  (** insertion order is the order of the cross-check *)
  st_multi : list (string * list Variant);
  st_perNode : gmap string (nat * nat);
  st_requeues : nat; st_failed : nat; st_killed : list string; st_chaosFired : bool;
  st_workers : list Worker }.

(** Field updates. *)
Definition set_sched (s : State) (queue : list WorkItem) (next rr salt : nat) : State :=
  {| st_nodes := st_nodes s; st_queue := queue; st_next := next; st_rr := rr; st_salt := salt;
     st_single := st_single s; st_multi := st_multi s; st_perNode := st_perNode s; st_requeues := st_requeues s;
     st_failed := st_failed s; st_killed := st_killed s; st_chaosFired := st_chaosFired s; st_workers := st_workers s |}.
Definition set_results (s : State) single multi perNode : State :=
  {| st_nodes := st_nodes s; st_queue := st_queue s; st_next := st_next s; st_rr := st_rr s; st_salt := st_salt s;
     st_single := single; st_multi := multi; st_perNode := perNode; st_requeues := st_requeues s;
     st_failed := st_failed s; st_killed := st_killed s; st_chaosFired := st_chaosFired s; st_workers := st_workers s |}.
Definition set_counts (s : State) (requeues failed : nat) : State :=
  {| st_nodes := st_nodes s; st_queue := st_queue s; st_next := st_next s; st_rr := st_rr s; st_salt := st_salt s;
     st_single := st_single s; st_multi := st_multi s; st_perNode := st_perNode s; st_requeues := requeues;
     st_failed := failed; st_killed := st_killed s; st_chaosFired := st_chaosFired s; st_workers := st_workers s |}.
Definition set_nodes (s : State) (nodes : list NodeHandle) (killed : list string) (fired : bool) : State :=
  {| st_nodes := nodes; st_queue := st_queue s; st_next := st_next s; st_rr := st_rr s; st_salt := st_salt s;
     st_single := st_single s; st_multi := st_multi s; st_perNode := st_perNode s; st_requeues := st_requeues s;
     st_failed := st_failed s; st_killed := killed; st_chaosFired := fired; st_workers := st_workers s |}.
Definition set_worker (s : State) (w : nat) (k : Worker) : State :=
  {| st_nodes := st_nodes s; st_queue := st_queue s; st_next := st_next s; st_rr := st_rr s; st_salt := st_salt s;
     st_single := st_single s; st_multi := st_multi s; st_perNode := st_perNode s; st_requeues := st_requeues s;
     st_failed := st_failed s; st_killed := st_killed s; st_chaosFired := st_chaosFired s;
     st_workers := <[w := k]> (st_workers s) |}.

(** ** The suite and its queue *)

Definition redundant_at (i : nat) : bool := (i mod REDUNDANT_EVERY =? 0)%nat.

Definition redundantIds (instances : list EvalInstance) : list string :=
  List.concat (imap (fun i x => if redundant_at i then [ei_id x] else []) instances).

Definition initial_queue (instances : list EvalInstance) : list WorkItem :=
  List.concat (imap (fun i inst =>
    {| wi_inst := inst; wi_extra := false; wi_attempts := 0 |} ::
    (if redundant_at i
     then replicate (REDUNDANT_COPIES - 1) {| wi_inst := inst; wi_extra := true; wi_attempts := 0 |} else []))
    instances).

Definition initial_state (nodes : list NodeHandle) (instances : list EvalInstance) : State :=
  {| st_nodes := nodes; st_queue := initial_queue instances; st_next := 0; st_rr := 0; st_salt := 0;
     st_single := ∅; st_multi := [];
     st_perNode := list_to_map ((fun n => (nh_id n, (0, 0)%nat)) <$> nodes);
     st_requeues := 0; st_failed := 0; st_killed := []; st_chaosFired := false;
     st_workers := replicate CONCURRENCY Looping |}.

(** ** Node choice *)

Definition aliveNodes (s : State) : list (nat * NodeHandle) :=
  List.filter (fun n => nh_alive n.2) (imap pair (st_nodes s)).

(** Round robin over the live nodes, avoiding [exclude] when possible. *)
Definition pickNode (exclude : list string) (s : State) : option nat * State :=
  match aliveNodes s with
  | [] => (None, s)
  | pool =>
      let preferred := match exclude with
        | [] => pool
        | _ => List.filter (fun n => negb (bool_decide (nh_id n.2 ∈ exclude))) pool
        end in
      let l := match preferred with [] => pool | _ => preferred end in
      (fst <$> l !! (st_rr s mod length l)%nat,
       set_sched s (st_queue s) (st_next s) (S (st_rr s)) (st_salt s))
  end.

Definition multi_of (s : State) (id : string) : list Variant :=
  match find (fun kv => bool_decide (kv.1 = id)) (st_multi s) with Some kv => kv.2 | None => [] end.

(** [m.push(v)] on the array of an instance, created on first use. *)
Fixpoint push_variant (id : string) (v : Variant) (l : list (string * list Variant)) : list (string * list Variant) :=
  match l with
  | [] => [(id, [v])]
  | (k, vs) :: l => if bool_decide (k = id) then (k, vs ++ [v]) :: l else (k, vs) :: push_variant id v l
  end.

(** ** Timeouts *)

Definition lower_char (a : Ascii.ascii) : Ascii.ascii :=
  let n := Ascii.nat_of_ascii a in
  if ((65 <=? n) && (n <=? 90))%nat then Ascii.ascii_of_nat (n + 32) else a.
Fixpoint lower (s : string) : string :=
  match s with EmptyString => EmptyString | String a s => String (lower_char a) (lower s) end.
Definition includes (s t : string) : bool :=
  match String.index 0 t s with Some _ => true | None => false end.
(** [/timed out|timeout|abort/i.test(msg)] *)
Definition is_timeout (msg : string) : bool :=
  let m := lower msg in includes m "timed out" || includes m "timeout" || includes m "abort".

Section coordinator.
Context `{JsonText}.
Context (env : nat -> Reply).
Context (verify : string -> ExecuteResponse -> result string bool).
Context (args : CoordArgs) (instances : list EvalInstance).

Definition record (s : State) (node : string) (item : WorkItem) (r : EvalResult) : State :=
  match st_perNode s !! node with
  | None => s
  | Some (executed, passed) =>
      let perNode := <[node := (S executed, if er_passed r then S passed else passed)]> (st_perNode s) in
      let comp := comparableOf r in
      let id := ei_id (wi_inst item) in
      if bool_decide (id ∈ redundantIds instances)
      then set_results s (st_single s) (push_variant id {| vr_nodeId := node; vr_result := comp |} (st_multi s)) perNode
      else set_results s (<[id := comp]> (st_single s)) (st_multi s) perNode
  end.

(** The end of [executeOn]: the reply to dispatch [salt] sent to [node]. *)
Definition settle (s : State) (salt : nat) (node : string) (item : WorkItem) : Outcome * State :=
  match env salt with
  | Failed msg => (if is_timeout msg then bad else dead, s)
  | Replied resp =>
      match xr_results resp with
      | [] => (bad, s)
      | r :: _ =>
          if negb (bool_decide (xr_nodeId resp = node)) then (bad, s)
          else match verify node resp with
               | Err msg => (if is_timeout msg then bad else dead, s)
               | Ok false => (bad, s)
               | Ok true => (ok, record s node item r)
               end
      end
  end.

Definition node_name (s : State) (n : nat) : string :=
  match st_nodes s !! n with Some h => nh_id h | None => ""%string end.

(** [killChaosTarget]: the victim stays [alive] until a fetch fails. *)
Definition killChaosTarget (s : State) : State :=
  if st_chaosFired s then s
  else match ca_chaos args ≫= (fun i => st_nodes s !! i) with
       | Some victim =>
           if nh_alive victim then
             set_nodes s (st_nodes s)
               (if bool_decide (nh_id victim ∈ st_killed s) then st_killed s else st_killed s ++ [nh_id victim]) true
           else s
       | None => s
       end.

Definition MAX_ATTEMPTS (s : State) : nat := 6 * Nat.max 1 (length (st_nodes s)).

(** [item.attempts++; if (item.attempts > MAX_ATTEMPTS) failedInstances++; else queue.push(item)] *)
Definition requeue (s : State) (item : WorkItem) : State :=
  let item := {| wi_inst := wi_inst item; wi_extra := wi_extra item; wi_attempts := S (wi_attempts item) |} in
  if (MAX_ATTEMPTS s <? wi_attempts item)%nat then set_counts s (st_requeues s) (S (st_failed s))
  else set_sched s (st_queue s ++ [item]) (st_next s) (st_rr s) (st_salt s).

(** The state in which the four workers start. *)
Definition start (nodes : list NodeHandle) : State :=
  let s := initial_state nodes instances in
  if ca_chaosAtStart args then killChaosTarget s else s.

(** From the head of the loop to the dispatch. *)
Definition loop_head (w : nat) (s : State) : State :=
  let i := st_next s in
  let s := set_sched s (st_queue s) (S i) (st_rr s) (st_salt s) in
  match st_queue s !! i with
  | None => set_worker s w Returned
  | Some item =>
      let exclude := if wi_extra item then vr_nodeId <$> multi_of s (ei_id (wi_inst item)) else [] in
      match pickNode exclude s with
      | (None, s) => requeue s item
      | (Some n, s) =>
          set_worker (set_sched s (st_queue s) (st_next s) (st_rr s) (S (st_salt s))) w (Awaiting (st_salt s) n item)
      end
  end.

(** [n.alive = false; ..] on the first failed dispatch to a live node. *)
Definition eject (s : State) (n : nat) : State :=
  match st_nodes s !! n with
  | Some h =>
      if nh_alive h then
        set_nodes s (<[n := {| nh_id := nh_id h; nh_port := nh_port h; nh_proc := nh_proc h; nh_alive := false |}]> (st_nodes s))
          (if bool_decide (nh_id h ∈ st_killed s) then st_killed s else st_killed s ++ [nh_id h]) (st_chaosFired s)
      else s
  | None => s
  end.

(** The rest of the loop body, after [await executeOn(..)]. *)
Definition after_outcome (w n : nat) (item : WorkItem) (o : Outcome) (s : State) : State :=
  let s := set_worker s w Looping in
  match o with
  | ok => if ca_chaosAtStart args then s else killChaosTarget s
  | _ =>
      let s := match o with dead => eject s n | _ => s end in
      requeue (set_counts s (S (st_requeues s)) (st_failed s)) item
  end.

Definition worker_step (w : nat) (s : State) : State :=
  match st_workers s !! w with
  | Some Looping => loop_head w s
  | Some (Awaiting salt n item) =>
      let '(o, s) := settle s salt (node_name s n) item in set_worker s w (Settled n item o)
  | Some (Settled n item o) => after_outcome w n item o s
  | Some Returned | None => s
  end.

Definition run (sched : list nat) (s : State) : State := foldl (fun s w => worker_step w s) s sched.
Definition all_returned (s : State) : bool :=
  forallb (fun k => match k with Returned => true | _ => false end) (st_workers s).

(** ** Cross-check *)

Definition vkey (v : Variant) : string := canonicalize (comparable_json (vr_result v)).

Definition tally (l : list Variant) : gmap string nat :=
  foldl (fun m v => <[vkey v := S (default 0%nat (m !! vkey v))]> m) ∅ l.

(** [Math.max(0, ...t.values())] *)
Definition max_votes (l : list Variant) : nat := map_fold (fun _ => Nat.max) 0%nat (tally l).

Definition decided (l : list Variant) : bool := ((max_votes l =? length l) || (length l <? max_votes l * 2))%nat.

(** [arr.slice(-REDUNDANT_COPIES)] *)
Definition last_copies {A} (l : list A) : list A := drop (length l - REDUNDANT_COPIES) l.

(** One extra copy; [None] is the [break] when no node is alive. *)
Definition extra_copy (inst : EvalInstance) (s : State) : option State :=
  match pickNode (vr_nodeId <$> last_copies (multi_of s (ei_id inst))) s with
  | (None, _) => None
  | (Some n, s) =>
      Some (settle (set_sched s (st_queue s) (st_next s) (st_rr s) (S (st_salt s))) (st_salt s) (node_name s n)
              {| wi_inst := inst; wi_extra := true; wi_attempts := 0 |}).2
  end.

Fixpoint extra_copies (k : nat) (inst : EvalInstance) (s : State) : State :=
  match k with
  | O => s
  | S k => match extra_copy inst s with Some s => extra_copies k inst s | None => s end
  end.

(** Up to [rounds] more rounds while there is neither unanimity nor a strict majority. *)
Fixpoint vote_rounds (rounds : nat) (inst : EvalInstance) (s : State) : State :=
  match rounds with
  | O => s
  | S rounds =>
      if decided (multi_of s (ei_id inst)) then s
      else vote_rounds rounds inst (extra_copies REDUNDANT_COPIES inst s)
  end.

Record Verdicts := { vd_reconciled : nat; vd_disagreements : list (string * list Variant) }.

Definition cross_check_one (sv : State * Verdicts) (id : string) : State * Verdicts :=
  let '(s, v) := sv in
  match find (fun i => bool_decide (ei_id i = id)) instances with
  | None => (s, v)
  | Some inst =>
      let s := vote_rounds 2 inst s in
      let arr := multi_of s id in
      let max := max_votes arr in
      if (max * 2 <=? length arr)%nat
      then (s, {| vd_reconciled := vd_reconciled v; vd_disagreements := vd_disagreements v ++ [(id, arr)] |})
      else if (max <? length arr)%nat
      then (s, {| vd_reconciled := S (vd_reconciled v); vd_disagreements := vd_disagreements v |})
      else (s, v)
  end.

Definition cross_check (s : State) : State * Verdicts :=
  foldl cross_check_one (s, {| vd_reconciled := 0; vd_disagreements := [] |}) (fst <$> st_multi s).

(** The first-round coverage snapshot. *)
Definition distinct_nodes (l : list Variant) : nat := length (dedup (vr_nodeId <$> l)).
Definition copiesMin (s : State) : nat :=
  match (fun kv => distinct_nodes kv.2) <$> st_multi s with [] => 0%nat | x :: l => foldl Nat.min x l end.
Definition degradedCrossChecks (s : State) : nat :=
  length (List.filter (fun kv => distinct_nodes kv.2 <? REDUNDANT_COPIES)%nat (st_multi s)).

Record CertificationResult := {
  ce_accepted : bool; ce_crossChecked : nat; ce_copiesMin : nat; ce_degraded : nat; ce_reconciled : nat;
  ce_disagreements : list (string * list Variant); ce_requeues : nat; ce_failed : nat;
  ce_killedNodes : list string; ce_perNode : gmap string (nat * nat) }.

(** The certificate of a run whose workers have all returned. *)
Definition certify (s : State) : CertificationResult * State :=
  let min := copiesMin s in
  let degraded := degradedCrossChecks s in
  let '(s, v) := cross_check s in
  let covered := (size (st_single s) + length (st_multi s))%nat in
  ({| ce_accepted := (st_failed s =? 0)%nat && bool_decide (vd_disagreements v = []) &&
                     (covered =? ca_count args)%nat && negb (bool_decide (aliveNodes s = []));
      ce_crossChecked := length (st_multi s); ce_copiesMin := min; ce_degraded := degraded;
      ce_reconciled := vd_reconciled v; ce_disagreements := vd_disagreements v;
      ce_requeues := st_requeues s; ce_failed := st_failed s; ce_killedNodes := st_killed s;
      ce_perNode := st_perNode s |}, s).
End coordinator.
