(* ===== verification/MeshCoordinatorFacts.v ===== *)
(** * Properties of the certification coordinator

    Every schedule ends; an accepted certificate covers every instance with verified results and a
    strict majority on each redundant one; and a retry can be lost. *)

From S2P Require Import Prelude JsNum Json HarnessTypes Canon MeshCoordinator.

Section facts.
Context `{JsonText}.
Context (env : nat -> Reply).
Context (verify : string -> ExecuteResponse -> result string bool).
Context (args : CoordArgs) (instances : list EvalInstance).

(** ** Termination

    A queued item at or after [next] weighs one more than the attempts it has left.  Every segment of
    a worker that has not returned lowers the potential; items before [next] weigh nothing. *)

Definition weight (max : nat) (item : WorkItem) : nat := (max + 1 - wi_attempts item)%nat.
Definition pending (s : State) : list WorkItem := drop (st_next s) (st_queue s).
Definition worker_potential (max : nat) (k : Worker) : nat :=
  match k with
  | Looping => 1%nat
  | Awaiting _ _ item => (4 * weight max item)%nat
  | Settled _ item _ => (4 * weight max item - 1)%nat
  | Returned => 0%nat
  end.
Definition sum_nat (l : list nat) : nat := foldr Nat.add 0%nat l.
Definition potential (s : State) : nat :=
  (sum_nat ((fun i => 4 * weight (MAX_ATTEMPTS s) i)%nat <$> pending s) +
   sum_nat (worker_potential (MAX_ATTEMPTS s) <$> st_workers s))%nat.

(** Items in the system have an attempt left. *)
Definition attempts_ok (s : State) : Prop :=
  Forall (fun i => wi_attempts i <= MAX_ATTEMPTS s)%nat (st_queue s) ∧
  Forall (fun k => match k with Awaiting _ _ i | Settled _ i _ => wi_attempts i <= MAX_ATTEMPTS s | _ => True end)%nat
    (st_workers s).

Arguments sum_nat : simpl never.
Lemma sum_nat_cons x l : sum_nat (x :: l) = (x + sum_nat l)%nat.
Proof. done. Qed.
Lemma sum_nat_app l k : sum_nat (l ++ k) = (sum_nat l + sum_nat k)%nat.
Proof. induction l as [|x l IH]; [done|]. rewrite <-app_comm_cons, !sum_nat_cons, IH. lia. Qed.

Lemma sum_nat_insert {A} (f : A -> nat) l i x y : l !! i = Some x ->
  (sum_nat (f <$> <[i := y]> l) + f x = sum_nat (f <$> l) + f y)%nat.
Proof.
  revert i. induction l as [|z l IH]; intros [|i]; try done.
  - intros [= ->]. change (<[0%nat:=y]> (x :: l)) with (y :: l). rewrite !fmap_cons, !sum_nat_cons. lia.
  - intros Hi. specialize (IH i Hi). change (<[S i:=y]> (z :: l)) with (z :: <[i:=y]> l).
    rewrite !fmap_cons, !sum_nat_cons. lia.
Qed.

Lemma pending_push_le s item (f : WorkItem -> nat) :
  (sum_nat (f <$> drop (st_next s) (st_queue s ++ [item])) <= sum_nat (f <$> pending s) + f item)%nat.
Proof.
  unfold pending. rewrite drop_app, fmap_app, sum_nat_app.
  assert (sum_nat (f <$> drop (st_next s - length (st_queue s)) [item]) <= f item)%nat; [|lia].
  destruct (st_next s - length (st_queue s))%nat; [cbn [drop]|rewrite drop_ge by (simpl; lia)];
    rewrite ?fmap_cons, ?sum_nat_cons; change (sum_nat (f <$> [])) with 0%nat; lia.
Qed.

Lemma pending_cons s item : st_queue s !! st_next s = Some item ->
  pending s = item :: drop (S (st_next s)) (st_queue s).
Proof. intros Hi. unfold pending. by apply drop_S. Qed.

Lemma potential_sched s q n rr salt :
  potential (set_sched s q n rr salt) =
  (sum_nat ((fun i => 4 * weight (MAX_ATTEMPTS s) i)%nat <$> drop n q) +
   sum_nat (worker_potential (MAX_ATTEMPTS s) <$> st_workers s))%nat.
Proof. done. Qed.

Lemma requeue_potential s item :
  (wi_attempts item <= MAX_ATTEMPTS s)%nat -> attempts_ok s ->
  attempts_ok (requeue s item) ∧ MAX_ATTEMPTS (requeue s item) = MAX_ATTEMPTS s ∧
  (potential (requeue s item) <= potential s + 4 * (weight (MAX_ATTEMPTS s) item - 1))%nat.
Proof.
  intros Ha [Hq Hw]. unfold requeue. simpl. case_match eqn:E.
  - split; [done|]. split; [done|]. change (potential (set_counts s _ _)) with (potential s). lia.
  - apply Nat.ltb_ge in E. split; [|split; [done|]].
    + split; [|done]. simpl. apply Forall_app. split; [done|]. by constructor.
    + rewrite potential_sched. unfold potential. set (it := {| wi_inst := _; wi_extra := _; wi_attempts := _ |}).
      pose proof (pending_push_le s it (fun i => 4 * weight (MAX_ATTEMPTS s) i)%nat) as Hp. cbv beta in Hp.
      assert (weight (MAX_ATTEMPTS s) it = weight (MAX_ATTEMPTS s) item - 1)%nat as Hwt by (unfold weight; simpl; lia).
      lia.
Qed.

Lemma set_worker_potential s w k k' : st_workers s !! w = Some k ->
  (potential (set_worker s w k') + worker_potential (MAX_ATTEMPTS s) k =
   potential s + worker_potential (MAX_ATTEMPTS s) k')%nat.
Proof.
  intros Hw. unfold potential. simpl. change (MAX_ATTEMPTS (set_worker s w k')) with (MAX_ATTEMPTS s).
  change (pending (set_worker s w k')) with (pending s).
  pose proof (sum_nat_insert (worker_potential (MAX_ATTEMPTS s)) _ _ _ k' Hw). lia.
Qed.

Lemma set_worker_attempts s w k : attempts_ok s ->
  match k with Awaiting _ _ i | Settled _ i _ => (wi_attempts i <= MAX_ATTEMPTS s)%nat | _ => True end ->
  attempts_ok (set_worker s w k).
Proof. intros [Hq Hw] Hk. split; [done|]. simpl. by apply Forall_insert. Qed.

Lemma pickNode_frame ex s n s' : pickNode ex s = (n, s') ->
  exists rr, s' = set_sched s (st_queue s) (st_next s) rr (st_salt s).
Proof.
  unfold pickNode. destruct (aliveNodes s); intros [= <- <-]; [exists (st_rr s); by destruct s|eauto].
Qed.

Lemma settle_frame s salt node item :
  exists single multi perNode, (settle env verify instances s salt node item).2 = set_results s single multi perNode.
Proof.
  assert (exists single multi perNode, s = set_results s single multi perNode) as Hid.
  { exists (st_single s), (st_multi s), (st_perNode s). by destruct s. }
  unfold settle, record. repeat case_match; simpl; eauto.
Qed.

Lemma chaos_frame s : exists killed fired, killChaosTarget args s = set_nodes s (st_nodes s) killed fired.
Proof.
  assert (exists killed fired, s = set_nodes s (st_nodes s) killed fired) as Hid.
  { exists (st_killed s), (st_chaosFired s). by destruct s. }
  unfold killChaosTarget. repeat case_match; eauto.
Qed.

Lemma eject_frame s n : exists nodes killed, eject s n = set_nodes s nodes killed (st_chaosFired s) ∧
  length nodes = length (st_nodes s).
Proof.
  assert (exists nodes killed, s = set_nodes s nodes killed (st_chaosFired s) ∧ length nodes = length (st_nodes s)) as Hid.
  { exists (st_nodes s), (st_killed s). by destruct s. }
  unfold eject. destruct (st_nodes s !! n) as [h|]; [|done]. destruct (nh_alive h); [|done].
  eexists _, _. split; [done|]. by rewrite length_insert.
Qed.

(** A segment of a worker that has not returned lowers the potential. *)
Definition decreases (s s' : State) : Prop :=
  attempts_ok s' ∧ MAX_ATTEMPTS s' = MAX_ATTEMPTS s ∧ (potential s' < potential s)%nat.

Lemma weight_pos max item : (wi_attempts item <= max)%nat -> (1 <= weight max item)%nat.
Proof. unfold weight. lia. Qed.

Lemma sched_potential s rr salt :
  potential (set_sched s (st_queue s) (st_next s) rr salt) = potential s.
Proof. done. Qed.

Lemma advance_potential s item : st_queue s !! st_next s = Some item ->
  (potential (set_sched s (st_queue s) (S (st_next s)) (st_rr s) (st_salt s)) +
   4 * weight (MAX_ATTEMPTS s) item = potential s)%nat.
Proof.
  intros Hi. rewrite potential_sched. unfold potential. rewrite (pending_cons s item Hi), fmap_cons, sum_nat_cons. lia.
Qed.

Lemma exhausted_potential s : st_queue s !! st_next s = None ->
  potential (set_sched s (st_queue s) (S (st_next s)) (st_rr s) (st_salt s)) = potential s.
Proof.
  intros Hi%lookup_ge_None. rewrite potential_sched. unfold potential, pending. by rewrite !drop_ge by lia.
Qed.

Lemma loop_head_decreases w s : st_workers s !! w = Some Looping -> attempts_ok s ->
  decreases s (loop_head w s).
Proof.
  intros Hw Hok. unfold loop_head. cbv zeta. set (s1 := set_sched _ _ _ _ _).
  assert (attempts_ok s1) as Hok1 by done. change (st_queue s1) with (st_queue s).
  destruct (st_queue s !! st_next s) as [item|] eqn:Ei.
  2: { pose proof (exhausted_potential s Ei) as Hp. fold s1 in Hp.
       pose proof (set_worker_potential s1 w Looping Returned Hw) as Hs. simpl in Hs.
       split; [by apply set_worker_attempts|]. split; [done|]. lia. }
  pose proof (advance_potential s item Ei) as Hp. fold s1 in Hp.
  assert (wi_attempts item <= MAX_ATTEMPTS s)%nat as Ha.
  { destruct Hok as [Hq _]. rewrite Forall_lookup in Hq. by apply (Hq _ _ Ei). }
  pose proof (weight_pos _ _ Ha). destruct (pickNode _ s1) as [[n|] s2] eqn:En.
  - apply pickNode_frame in En as [rr ->]. cbv zeta. simpl. set (s3 := set_sched _ _ _ _ _).
    pose proof (set_worker_potential s3 w Looping (Awaiting (st_salt s) n item) Hw) as Hs. simpl in Hs.
    change (potential s3) with (potential s1) in Hs. change (MAX_ATTEMPTS s3) with (MAX_ATTEMPTS s) in Hs.
    split; [by apply (set_worker_attempts s3)|]. split; [done|]. lia.
  - apply pickNode_frame in En as [rr ->]. set (s3 := set_sched s1 _ _ _ _).
    destruct (requeue_potential s3 item Ha Hok1) as (H1 & H2 & H3).
    change (potential s3) with (potential s1) in H3. change (MAX_ATTEMPTS s3) with (MAX_ATTEMPTS s) in *.
    split; [done|]. split; [done|]. lia.
Qed.

Lemma after_outcome_decreases w n item o s :
  st_workers s !! w = Some (Settled n item o) -> attempts_ok s -> decreases s (after_outcome args w n item o s).
Proof.
  intros Hw Hok. pose proof (set_worker_potential s w _ Looping Hw) as Hp. simpl in Hp.
  assert (wi_attempts item <= MAX_ATTEMPTS s)%nat as Ha.
  { destruct Hok as [_ Hq]. rewrite Forall_lookup in Hq. by apply (Hq _ _ Hw). }
  pose proof (weight_pos _ _ Ha) as Hwt.
  assert (attempts_ok (set_worker s w Looping)) as Hok1 by (by apply set_worker_attempts).
  unfold after_outcome. cbv zeta. set (s1 := set_worker s w Looping) in *.
  assert (forall s2, attempts_ok s2 -> MAX_ATTEMPTS s2 = MAX_ATTEMPTS s -> potential s2 = potential s1 ->
    decreases s (requeue s2 item)) as Hreq.
  { intros s2 Hok2 Hm2 Hp2. rewrite <-Hm2 in Ha. destruct (requeue_potential s2 item Ha Hok2) as (H1 & H2 & H3).
    rewrite Hm2 in *. split; [done|]. split; [congruence|]. lia. }
  destruct o.
  - destruct (ca_chaosAtStart args); [split; [done|split; [done|lia]]|].
    destruct (chaos_frame s1) as (killed & fired & ->). split; [done|]. split; [done|].
    change (potential (set_nodes s1 (st_nodes s1) killed fired)) with (potential s1). lia.
  - destruct (eject_frame s1 n) as (nodes & killed & -> & Hl). change (st_nodes s1) with (st_nodes s) in Hl.
    set (s2 := set_counts _ _ _). assert (MAX_ATTEMPTS s2 = MAX_ATTEMPTS s) as Hm.
    { unfold MAX_ATTEMPTS. simpl. by rewrite Hl. }
    apply Hreq; [|done|].
    + destruct Hok1 as [Hq Hk]. unfold attempts_ok. rewrite Hm. done.
    + unfold potential. rewrite Hm. done.
  - by apply Hreq.
Qed.

Lemma settle_decreases w salt n item s :
  st_workers s !! w = Some (Awaiting salt n item) -> attempts_ok s ->
  decreases s (let '(o, s') := settle env verify instances s salt (node_name s n) item in set_worker s' w (Settled n item o)).
Proof.
  intros Hw Hok. destruct (settle_frame s salt (node_name s n) item) as (si & mu & pe & E).
  destruct (settle _ _ _ _ _ _ _) as [o s'] eqn:Es. simpl in E. subst s'.
  assert (wi_attempts item <= MAX_ATTEMPTS s)%nat as Ha.
  { destruct Hok as [_ Hq]. rewrite Forall_lookup in Hq. by apply (Hq _ _ Hw). }
  pose proof (weight_pos _ _ Ha). pose proof (set_worker_potential (set_results s si mu pe) w _ (Settled n item o) Hw) as Hp.
  simpl in Hp. change (potential (set_results s si mu pe)) with (potential s) in Hp.
  change (MAX_ATTEMPTS (set_results s si mu pe)) with (MAX_ATTEMPTS s) in Hp.
  split; [by apply (set_worker_attempts (set_results s si mu pe))|]. split; [done|]. lia.
Qed.

Definition returned (s : State) (w : nat) : Prop :=
  match st_workers s !! w with Some Returned | None => True | _ => False end.

#[export] Instance returned_dec s w : Decision (returned s w).
Proof. unfold returned. destruct (st_workers s !! w) as [[]|]; apply _. Defined.

Lemma worker_step_decreases w s : ~ returned s w -> attempts_ok s ->
  decreases s (worker_step env verify args instances w s).
Proof.
  unfold returned, worker_step. intros Hr Hok. destruct (st_workers s !! w) as [[| | |]|] eqn:Ew; try done.
  - by apply loop_head_decreases.
  - by apply settle_decreases.
  - by apply after_outcome_decreases.
Qed.

Lemma worker_step_returned w s : returned s w -> worker_step env verify args instances w s = s.
Proof. unfold returned, worker_step. by destruct (st_workers s !! w) as [[| | |]|]. Qed.

Lemma requeue_workers s item : st_workers (requeue s item) = st_workers s.
Proof. unfold requeue. by case_match. Qed.

(** A segment of one worker leaves the others where they are. *)
Lemma worker_step_other v w s : v <> w ->
  st_workers (worker_step env verify args instances v s) !! w = st_workers s !! w.
Proof.
  intros Hne. unfold worker_step. destruct (st_workers s !! v) as [[|salt n item|n item o|]|]; try done.
  - unfold loop_head. cbv zeta. case_match; [|simpl; by rewrite list_lookup_insert_ne].
    destruct (pickNode _ _) as [[n|] s2] eqn:En; apply pickNode_frame in En as [rr ->].
    + simpl. by rewrite list_lookup_insert_ne.
    + by rewrite requeue_workers.
  - destruct (settle_frame s salt (node_name s n) item) as (si & mu & pe & E).
    destruct (settle _ _ _ _ _ _ _) as [o s']. simpl in E. subst s'. simpl. by rewrite list_lookup_insert_ne.
  - unfold after_outcome. cbv zeta.
    assert (st_workers (set_worker s v Looping) !! w = st_workers s !! w) as Hs by (by apply list_lookup_insert_ne).
    destruct o; [| |by rewrite requeue_workers].
    + case_match; [done|]. by destruct (chaos_frame (set_worker s v Looping)) as (? & ? & ->).
    + rewrite requeue_workers. by destruct (eject_frame (set_worker s v Looping) n) as (? & ? & -> & _).
Qed.

Lemma run_returned sched s w : returned s w -> returned (run env verify args instances sched s) w.
Proof.
  revert s. induction sched as [|v sched IH]; intros s Hs; [done|]. simpl. apply IH.
  destruct (decide (v = w)) as [->|Hne]; [by rewrite worker_step_returned|].
  unfold returned. by rewrite worker_step_other.
Qed.

(** The occurrences of a worker that has not returned by the end of a schedule are all effective. *)
Lemma run_potential sched s w : attempts_ok s -> ~ returned (run env verify args instances sched s) w ->
  (potential (run env verify args instances sched s) + length (List.filter (Nat.eqb w) sched) <= potential s)%nat.
Proof.
  revert s. induction sched as [|v sched IH]; intros s Hok Hr; simpl in *; [lia|].
  destruct (decide (returned s v)) as [Hv|Hv].
  - rewrite (worker_step_returned v s Hv) in *. specialize (IH s Hok Hr).
    destruct (Nat.eqb w v) eqn:E; [|done]. apply Nat.eqb_eq in E as <-.
    destruct Hr. by apply run_returned.
  - destruct (worker_step_decreases v s Hv Hok) as (Hok' & _ & Hlt). specialize (IH _ Hok' Hr).
    destruct (Nat.eqb w v); simpl; lia.
Qed.

Definition dispatch_bound (nodes : list NodeHandle) : nat :=
  (4 * (6 * Nat.max 1 (length nodes) + 1) * length (initial_queue instances) + CONCURRENCY)%nat.

Lemma initial_attempts : Forall (fun i => wi_attempts i = 0%nat) (initial_queue instances).
Proof.
  unfold initial_queue. apply Forall_concat, Forall_forall. intros l (i & inst & -> & _)%elem_of_lookup_imap_1.
  constructor; [done|]. case_match; [|constructor]. by apply Forall_replicate.
Qed.

Lemma sum_nat_const {A} (f : A -> nat) c l : Forall (fun x => f x = c) l -> sum_nat (f <$> l) = (c * length l)%nat.
Proof. induction 1 as [|x l Hx _ IH]; [simpl; unfold sum_nat; simpl; lia|]. rewrite fmap_cons, sum_nat_cons, Hx, IH. simpl. lia. Qed.

Lemma start_ok nodes : attempts_ok (start args instances nodes) ∧
  potential (start args instances nodes) = dispatch_bound nodes.
Proof.
  assert (attempts_ok (initial_state nodes instances) ∧
    potential (initial_state nodes instances) = dispatch_bound nodes) as Hi.
  { split.
    - split; [|repeat constructor]. eapply Forall_impl; [apply initial_attempts|]. simpl. intros i ->. lia.
    - unfold potential, pending, dispatch_bound. simpl. rewrite drop_0.
      rewrite (sum_nat_const _ (4 * (6 * Nat.max 1 (length nodes) + 1))%nat).
      + unfold CONCURRENCY. simpl. unfold sum_nat. simpl. lia.
      + eapply Forall_impl; [apply initial_attempts|]. intros i Hi. cbv beta.
        change (MAX_ATTEMPTS (initial_state nodes instances)) with (6 * Nat.max 1 (length nodes))%nat.
        unfold weight. rewrite Hi. lia. }
  unfold start. cbv zeta. case_match; [|done].
  destruct (chaos_frame (initial_state nodes instances)) as (k & f & ->). done.
Qed.

Lemma returned_all s : length (st_workers s) = CONCURRENCY -> (forall w, (w < CONCURRENCY)%nat -> returned s w) ->
  all_returned s = true.
Proof.
  intros Hl Hr. unfold all_returned. apply forallb_forall. intros k (w & Hw)%list_elem_of_In%list_elem_of_lookup.
  specialize (Hr w). unfold returned in Hr. rewrite Hw in Hr. apply lookup_lt_Some in Hw.
  rewrite Hl in Hw. specialize (Hr Hw). by destruct k.
Qed.

Lemma step_length w s : length (st_workers (worker_step env verify args instances w s)) = length (st_workers s).
Proof.
  unfold worker_step. destruct (st_workers s !! w) as [[|salt n item|n item o|]|]; try done.
  - unfold loop_head. cbv zeta. case_match; [|simpl; by rewrite length_insert].
    destruct (pickNode _ _) as [[n|] s2] eqn:En; apply pickNode_frame in En as [rr ->].
    + simpl. by rewrite length_insert.
    + by rewrite requeue_workers.
  - destruct (settle_frame s salt (node_name s n) item) as (si & mu & pe & E).
    destruct (settle _ _ _ _ _ _ _) as [o s']. simpl in E. subst s'. simpl. by rewrite length_insert.
  - unfold after_outcome. cbv zeta.
    assert (length (st_workers (set_worker s w Looping)) = length (st_workers s)) as Hs by apply length_insert.
    destruct o; [| |by rewrite requeue_workers].
    + case_match; [done|]. by destruct (chaos_frame (set_worker s w Looping)) as (? & ? & ->).
    + rewrite requeue_workers. by destruct (eject_frame (set_worker s w Looping) n) as (? & ? & -> & _).
Qed.

Lemma run_length sched s : length (st_workers (run env verify args instances sched s)) = length (st_workers s).
Proof. revert s. induction sched as [|w sched IH]; intros s; [done|]. simpl. by rewrite IH, step_length. Qed.

Lemma start_length nodes : length (st_workers (start args instances nodes)) = CONCURRENCY.
Proof.
  unfold start. cbv zeta. case_match; [|done].
  by destruct (chaos_frame (initial_state nodes instances)) as (k & f & ->).
Qed.

(** C28: whatever the network answers and however the workers interleave, dispatching ends: every
    schedule that gives each of the four workers more than [dispatch_bound] turns has seen all of
    them return.  (A dispatch that fails is retried at most [6 * max(1, nodes)] times.) *)
Theorem dispatch_terminates nodes sched :
  (forall w, (w < CONCURRENCY)%nat -> (dispatch_bound nodes < length (List.filter (Nat.eqb w) sched))%nat) ->
  all_returned (run env verify args instances sched (start args instances nodes)) = true.
Proof.
  intros Hs. destruct (start_ok nodes) as [Hok Hp]. apply returned_all; [by rewrite run_length, start_length|].
  intros w Hw. destruct (decide (returned (run env verify args instances sched (start args instances nodes)) w)) as [|Hr]; [done|].
  pose proof (run_potential sched _ w Hok Hr). specialize (Hs w Hw). lia.
Qed.

(** ** What is recorded *)

(** A result that came in a response of [node] whose signature verified under [node]'s key. *)
Definition certified (node : string) (c : ComparableResult) : Prop :=
  exists k resp r rest, env k = Replied resp ∧ xr_nodeId resp = node ∧ xr_results resp = r :: rest ∧
    verify node resp = Ok true ∧ c = comparableOf r.

Definition ids : list string := ei_id <$> instances.

Record results_ok (s : State) : Prop := {
  ro_single : forall id c, st_single s !! id = Some c ->
    id ∈ ids ∧ (id ∉ redundantIds instances) ∧ exists node, certified node c;
  ro_multi : Forall (fun kv => kv.1 ∈ redundantIds instances ∧ kv.2 <> [] ∧
    Forall (fun v => certified (vr_nodeId v) (vr_result v)) kv.2) (st_multi s);
  ro_keys : NoDup (fst <$> st_multi s) }.

(** Items in the system are instances of the suite. *)
Definition items_ok (s : State) : Prop :=
  Forall (fun i => wi_inst i ∈ instances) (st_queue s) ∧
  Forall (fun k => match k with Awaiting _ _ i | Settled _ i _ => wi_inst i ∈ instances | _ => True end) (st_workers s).

Lemma redundant_in_ids id : id ∈ redundantIds instances -> id ∈ ids.
Proof.
  unfold redundantIds, ids. rewrite list_elem_of_In, in_concat. intros (l & Hl & Hid).
  rewrite <-list_elem_of_In in Hl. apply elem_of_lookup_imap_1 in Hl as (i & x & -> & Hx).
  case_match; [|done]. destruct Hid as [<-|[]]. apply list_elem_of_fmap. exists x. split; [done|].
  by eapply list_elem_of_lookup_2.
Qed.

Lemma push_variant_keys id v l :
  fst <$> push_variant id v l = if bool_decide (id ∈ fst <$> l) then fst <$> l else (fst <$> l) ++ [id].
Proof.
  induction l as [|[k vs] l IH]; [done|]. cbn [push_variant]. destruct (decide (k = id)) as [->|Hne].
  - rewrite (bool_decide_eq_true_2 (id = id)) by done. rewrite bool_decide_eq_true_2; [done|]. left.
  - rewrite (bool_decide_eq_false_2 (k = id)) by done. rewrite !fmap_cons, IH. cbn [fst].
    rewrite (bool_decide_ext (id ∈ k :: (fst <$> l)) (id ∈ fst <$> l)) by (rewrite elem_of_cons; naive_solver).
    by destruct (bool_decide (id ∈ fst <$> l)).
Qed.

Lemma push_variant_Forall (P : string * list Variant -> Prop) id v l :
  P (id, [v]) -> (forall vs, P (id, vs) -> P (id, vs ++ [v])) -> Forall P l -> Forall P (push_variant id v l).
Proof.
  intros H0 Hp. induction 1 as [|[k vs] l Hk Hl IH]; simpl; [by constructor|].
  case_bool_decide as Hkid; [|by constructor]. subst k. constructor; [auto|done].
Qed.

Lemma record_results_ok s node item r :
  results_ok s -> wi_inst item ∈ instances -> certified node (comparableOf r) ->
  results_ok (record instances s node item r).
Proof.
  intros [Hs Hm Hk] Hi Hc. unfold record. destruct (st_perNode s !! node) as [[ex pa]|]; [|done].
  case_bool_decide as Hr; constructor; simpl; try done.
  - apply push_variant_Forall; [| |done].
    + split_and!; [done|done|]. by constructor.
    + simpl. intros vs (? & _ & Hvs). split_and!; [done|by destruct vs|]. apply Forall_app. split; [done|]. by constructor.
  - rewrite push_variant_keys. case_bool_decide; [done|]. apply NoDup_app. split_and!; [done| |apply NoDup_singleton].
    intros x Hx. rewrite list_elem_of_singleton. by intros ->.
  - intros id c. destruct (decide (id = ei_id (wi_inst item))) as [->|Hne].
    + rewrite lookup_insert_eq. intros [= <-]. split_and!; [|done|eauto]. apply list_elem_of_fmap. eauto.
    + rewrite lookup_insert_ne by done. apply Hs.
Qed.

Lemma settle_results_ok s salt node item :
  results_ok s -> wi_inst item ∈ instances -> results_ok (settle env verify instances s salt node item).2.
Proof.
  intros Hok Hi. unfold settle. destruct (env salt) as [resp|msg] eqn:Ee; [|done].
  destruct (xr_results resp) as [|r rest] eqn:Er; [done|]. case_bool_decide as Hn; [|done]. simpl.
  destruct (verify node resp) as [[|]|] eqn:Ev; try done. apply record_results_ok; [done|done|].
  exists salt, resp, r, rest. done.
Qed.

Lemma requeue_ok s item : results_ok s -> items_ok s -> wi_inst item ∈ instances ->
  results_ok (requeue s item) ∧ items_ok (requeue s item).
Proof.
  intros [Hs Hm Hk] [Hq Hw] Hi. unfold requeue. case_match; [done|]. split; [done|]. split; [|done].
  simpl. apply Forall_app. split; [done|]. by constructor.
Qed.

Lemma set_worker_ok s w k : results_ok s -> items_ok s ->
  match k with Awaiting _ _ i | Settled _ i _ => wi_inst i ∈ instances | _ => True end ->
  results_ok (set_worker s w k) ∧ items_ok (set_worker s w k).
Proof. intros [Hs Hm Hk] [Hq Hw] Hi. split; [done|]. split; [done|]. simpl. by apply Forall_insert. Qed.

Lemma worker_step_ok w s : results_ok s -> items_ok s ->
  results_ok (worker_step env verify args instances w s) ∧ items_ok (worker_step env verify args instances w s).
Proof.
  intros Hr Hi. unfold worker_step. destruct (st_workers s !! w) as [[|salt n item|n item o|]|] eqn:Ew; try done.
  - assert (results_ok (set_sched s (st_queue s) (S (st_next s)) (st_rr s) (st_salt s))) by (by destruct Hr).
    unfold loop_head. cbv zeta. simpl. destruct (st_queue s !! st_next s) as [item|] eqn:Eq; [|by apply set_worker_ok].
    assert (wi_inst item ∈ instances) as Hin.
    { destruct Hi as [Hq _]. rewrite Forall_lookup in Hq. by apply (Hq _ _ Eq). }
    destruct (pickNode _ _) as [[n|] s2] eqn:En; apply pickNode_frame in En as [rr ->].
    + apply set_worker_ok; [by destruct Hr|done|done].
    + apply requeue_ok; [by destruct Hr|done|done].
  - assert (wi_inst item ∈ instances) as Hin.
    { destruct Hi as [_ Hw]. rewrite Forall_lookup in Hw. by apply (Hw _ _ Ew). }
    pose proof (settle_results_ok s salt (node_name s n) item Hr Hin) as Hs.
    destruct (settle_frame s salt (node_name s n) item) as (si & mu & pe & E).
    destruct (settle _ _ _ _ _ _ _) as [o s']. simpl in E, Hs. subst s'. by apply set_worker_ok.
  - assert (wi_inst item ∈ instances) as Hin.
    { destruct Hi as [_ Hw]. rewrite Forall_lookup in Hw. by apply (Hw _ _ Ew). }
    destruct (set_worker_ok s w Looping Hr Hi I) as [Hr1 Hi1]. unfold after_outcome. cbv zeta. destruct o.
    + case_match; [done|]. destruct (chaos_frame (set_worker s w Looping)) as (? & ? & ->). by destruct Hr1.
    + destruct (eject_frame (set_worker s w Looping) n) as (? & ? & -> & _). apply requeue_ok; [by destruct Hr1|done|done].
    + apply requeue_ok; [by destruct Hr1|done|done].
Qed.

Lemma start_results_ok nodes : results_ok (start args instances nodes) ∧ items_ok (start args instances nodes).
Proof.
  assert (results_ok (initial_state nodes instances) ∧ items_ok (initial_state nodes instances)) as [Hr Hi].
  { split; constructor; simpl; [by intros id c|constructor|constructor| |by repeat constructor].
    unfold initial_queue. apply Forall_concat, Forall_forall. intros l (i & x & -> & Hx)%elem_of_lookup_imap_1.
    apply list_elem_of_lookup_2 in Hx. constructor; [done|]. case_match; [|constructor]. by apply Forall_replicate. }
  unfold start. cbv zeta. case_match; [|done].
  destruct (chaos_frame (initial_state nodes instances)) as (k & f & ->). by destruct Hr.
Qed.

Lemma run_ok sched nodes : results_ok (run env verify args instances sched (start args instances nodes)).
Proof.
  destruct (start_results_ok nodes) as [Hr Hi]. revert Hr Hi. generalize (start args instances nodes) as s.
  induction sched as [|w sched IH]; intros s Hr Hi; [done|]. simpl.
  destruct (worker_step_ok w s Hr Hi). by apply IH.
Qed.

(** ** Votes *)

Definition votes (k : string) (l : list Variant) : nat := length (List.filter (fun v => String.eqb (vkey v) k) l).

Lemma votes_app k l v : votes k (l ++ [v]) = (votes k l + if String.eqb (vkey v) k then 1 else 0)%nat.
Proof. unfold votes. rewrite List.filter_app, length_app. cbn [List.filter]. by destruct (String.eqb (vkey v) k). Qed.

Lemma tally_votes k l : default 0%nat (tally l !! k) = votes k l.
Proof.
  induction l as [|v l IH] using rev_ind; [done|]. unfold tally in *. rewrite foldl_app. cbn [foldl].
  rewrite votes_app. destruct (String.eqb_spec (vkey v) k) as [Hk|Hk].
  - subst k. rewrite lookup_insert_eq. simpl. rewrite <-IH. lia.
  - rewrite lookup_insert_ne by done. rewrite <-IH. lia.
Qed.

Lemma max_votes_reached l : (0 < max_votes l)%nat -> exists k, votes k l = max_votes l.
Proof.
  assert (forall m : gmap string nat, (0 < map_fold (fun _ => Nat.max) 0%nat m)%nat ->
    exists k, m !! k = Some (map_fold (fun _ => Nat.max) 0%nat m)) as Hm.
  { apply (map_fold_weak_ind (fun x (m : gmap string nat) => (0 < x)%nat -> exists k, m !! k = Some x)); [lia|].
    intros k x m r Hk IH Hpos. destruct (decide (r <= x)%nat) as [Hle|Hle].
    - exists k. rewrite lookup_insert_eq. f_equal. lia.
    - destruct IH as [k' Hk']; [lia|]. exists k'. rewrite lookup_insert_ne by congruence. rewrite Hk'. f_equal. lia. }
  intros [k Hk]%Hm. exists k. rewrite <-tally_votes, Hk. done.
Qed.

(** A strict majority of the executions agree on one canonical result. *)
Definition majority (l : list Variant) : Prop := exists k, (length l < votes k l * 2)%nat.

Lemma max_votes_majority l : (length l < max_votes l * 2)%nat -> majority l.
Proof. intros Hl. destruct (max_votes_reached l) as [k Hk]; [lia|]. exists k. lia. Qed.

(** ** The cross-check only adds executions of the instance under vote *)

Record grew (id : string) (s s' : State) : Prop := {
  gw_keys : fst <$> st_multi s' = fst <$> st_multi s;
  gw_single : st_single s' = st_single s;
  gw_failed : st_failed s' = st_failed s;
  gw_nodes : st_nodes s' = st_nodes s;
  gw_other : forall id', id' <> id -> multi_of s' id' = multi_of s id' }.

#[local] Instance grew_preorder id : PreOrder (grew id).
Proof.
  split; [done|]. intros s1 s2 s3 [] []. constructor; try congruence. intros id' Hne.
  rewrite gw_other1 by done. by apply gw_other0.
Qed.

Lemma push_variant_other id v l id' : id' <> id ->
  find (fun kv => bool_decide (kv.1 = id')) (push_variant id v l) = find (fun kv => bool_decide (kv.1 = id')) l.
Proof.
  intros Hne. induction l as [|[k vs] l IH]; simpl.
  - by rewrite bool_decide_eq_false_2 by done.
  - destruct (decide (k = id)) as [->|Hk].
    + rewrite (bool_decide_eq_true_2 (id = id)) by done. simpl. by rewrite bool_decide_eq_false_2 by done.
    + rewrite (bool_decide_eq_false_2 (k = id)) by done. simpl. by rewrite IH.
Qed.

Lemma record_grew s node item r :
  ei_id (wi_inst item) ∈ redundantIds instances -> ei_id (wi_inst item) ∈ fst <$> st_multi s ->
  grew (ei_id (wi_inst item)) s (record instances s node item r).
Proof.
  intros Hr Hk. unfold record. destruct (st_perNode s !! node) as [[ex pa]|]; [|done].
  rewrite bool_decide_eq_true_2 by done. constructor; simpl; try done.
  - rewrite push_variant_keys. by rewrite bool_decide_eq_true_2.
  - intros id' Hne. unfold multi_of. simpl. by rewrite push_variant_other.
Qed.

Lemma settle_grew s salt node item :
  ei_id (wi_inst item) ∈ redundantIds instances -> ei_id (wi_inst item) ∈ fst <$> st_multi s ->
  grew (ei_id (wi_inst item)) s (settle env verify instances s salt node item).2.
Proof. intros Hr Hk. unfold settle. repeat (case_match; simpl; try done). by apply record_grew. Qed.

Definition voting (id : string) (s : State) : Prop :=
  results_ok s ∧ id ∈ redundantIds instances ∧ id ∈ fst <$> st_multi s.

Lemma extra_copy_grew inst s s' : inst ∈ instances -> voting (ei_id inst) s ->
  extra_copy env verify instances inst s = Some s' -> grew (ei_id inst) s s' ∧ voting (ei_id inst) s'.
Proof.
  intros Hi (Hok & Hr & Hk). unfold extra_copy.
  destruct (pickNode _ s) as [[n|] s1] eqn:En; [|done]. apply pickNode_frame in En as [rr ->]. intros [= <-].
  set (s2 := set_sched _ _ _ _ _). set (item := {| wi_inst := inst; wi_extra := _; wi_attempts := _ |}).
  assert (results_ok s2) as Hok2 by (by destruct Hok).
  pose proof (settle_grew s2 (st_salt s) (node_name s n) item Hr Hk) as Hg.
  pose proof (settle_results_ok s2 (st_salt s) (node_name s n) item Hok2 Hi) as Hok3.
  split; [|split_and!; [exact Hok3|done|exact (eq_ind_r (fun l => ei_id inst ∈ l) Hk (gw_keys _ _ _ Hg))]].
  etrans; [|exact Hg]. by constructor.
Qed.

Lemma extra_copies_grew k inst s : inst ∈ instances -> voting (ei_id inst) s ->
  grew (ei_id inst) s (extra_copies env verify instances k inst s) ∧
  voting (ei_id inst) (extra_copies env verify instances k inst s).
Proof.
  intros Hi. revert s. induction k as [|k IH]; intros s Hv; simpl; [done|].
  destruct (extra_copy _ _ _ _ _) as [s1|] eqn:E; [|done]. apply extra_copy_grew in E as [Hg Hv1]; [|done|done].
  destruct (IH s1 Hv1) as [Hg2 Hv2]. split; [by etrans|done].
Qed.

Lemma vote_rounds_grew n inst s : inst ∈ instances -> voting (ei_id inst) s ->
  grew (ei_id inst) s (vote_rounds env verify instances n inst s) ∧
  voting (ei_id inst) (vote_rounds env verify instances n inst s).
Proof.
  intros Hi. revert s. induction n as [|n IH]; intros s Hv; simpl; [done|]. case_match; [done|].
  destruct (extra_copies_grew REDUNDANT_COPIES inst s Hi Hv) as [Hg Hv1].
  destruct (IH _ Hv1) as [Hg2 Hv2]. split; [by etrans|done].
Qed.

Lemma cross_check_grew ks s v s' v' :
  foldl (cross_check_one env verify instances) (s, v) ks = (s', v') ->
  NoDup ks -> results_ok s -> (forall id, id ∈ ks -> id ∈ redundantIds instances ∧ id ∈ fst <$> st_multi s) ->
  results_ok s' ∧ fst <$> st_multi s' = fst <$> st_multi s ∧ st_single s' = st_single s ∧
  st_failed s' = st_failed s ∧ st_nodes s' = st_nodes s ∧
  (forall id, id ∉ ks -> multi_of s' id = multi_of s id) ∧
  (vd_disagreements v' = [] -> vd_disagreements v = [] ∧ forall id, id ∈ ks -> majority (multi_of s' id)).
Proof.
  revert s v. induction ks as [|id ks IH]; intros s v; cbn [foldl].
  { intros [= <- <-] _ Hok _. split_and!; try done. intros Hd. split; [done|]. intros id Hid. by apply elem_of_nil in Hid. }
  intros Hf [Hid Hnd]%NoDup_cons Hok Hks. destruct (Hks id) as [Hred Hkey]; [left|].
  destruct (cross_check_one env verify instances (s, v) id) as [s1 v1] eqn:E1. unfold cross_check_one in E1.
  destruct (find (fun i => bool_decide (ei_id i = id)) instances) as [inst|] eqn:Ei.
  2: { exfalso. apply redundant_in_ids, list_elem_of_fmap in Hred as (x & Hx & Hin).
       pose proof (proj1 (find_None _ _) Ei x Hin) as Hf'. apply bool_decide_eq_false in Hf'. congruence. }
  apply find_Some in Ei as [Hin Heq]. apply bool_decide_eq_true in Heq. subst id.
  destruct (vote_rounds_grew 2 inst s Hin) as [[] (Hok1 & _ & Hk1)]; [done|].
  cbv zeta in E1. set (s2 := vote_rounds env verify instances 2 inst s) in *.
  assert (s1 = s2) as -> by (destruct (_ <=? _)%nat; [|destruct (_ <? _)%nat]; congruence).
  assert ((vd_disagreements v1 = [] -> vd_disagreements v = [] ∧ majority (multi_of s2 (ei_id inst))) ->
    results_ok s' ∧ fst <$> st_multi s' = fst <$> st_multi s ∧ st_single s' = st_single s ∧
    st_failed s' = st_failed s ∧ st_nodes s' = st_nodes s ∧
    (forall id, id ∉ ei_id inst :: ks -> multi_of s' id = multi_of s id) ∧
    (vd_disagreements v' = [] -> vd_disagreements v = [] ∧
       forall id, id ∈ ei_id inst :: ks -> majority (multi_of s' id))) as Hgo.
  { intros Hv1. destruct (IH s2 v1 Hf Hnd Hok1) as (H1 & H2 & H3 & H4 & H5 & H6 & H7).
    { intros id Hin'. rewrite gw_keys0. apply Hks. by right. }
    split_and!; [exact H1|congruence..| |].
    - intros id [Hne Hnin]%not_elem_of_cons. rewrite H6 by done. by apply gw_other0.
    - intros Hd. destruct (H7 Hd) as [Hd1 Hmaj]. destruct (Hv1 Hd1) as [Hd0 Hm]. split; [done|].
      intros id [->|Hin']%elem_of_cons; [by rewrite H6|by apply Hmaj]. }
  apply Hgo. clear Hgo. destruct (Nat.leb_spec (max_votes (multi_of s2 (ei_id inst)) * 2) (length (multi_of s2 (ei_id inst)))).
  - injection E1 as <-. simpl. intros Hd. by apply app_eq_nil in Hd as [_ ?].
  - intros Hd. split; [destruct (_ <? _)%nat; by simplify_eq|by apply max_votes_majority].
Qed.

(** ** Coverage *)

Lemma covered_all (s : State) :
  results_ok s -> NoDup ids -> (size (st_single s) + length (st_multi s) = length instances)%nat ->
  forall id, id ∈ ids -> is_Some (st_single s !! id) ∨ id ∈ fst <$> st_multi s.
Proof.
  intros [Hs Hm Hk] Hnd Hsize id Hid.
  assert ((map_to_list (st_single s)).*1 ++ (st_multi s).*1 ≡ₚ ids) as Hperm.
  { apply submseteq_length_Permutation.
    2: { rewrite length_app, !length_fmap. unfold ids. rewrite length_fmap. rewrite length_map_to_list. lia. }
    apply NoDup_submseteq.
    - apply NoDup_app. split_and!; [apply NoDup_fst_map_to_list| |done].
      intros x ([k c] & -> & Hx)%list_elem_of_fmap ([k' vs] & Hkk & Hx')%list_elem_of_fmap. simpl in *. subst k'.
      apply elem_of_map_to_list in Hx. rewrite Forall_forall in Hm. destruct (Hs _ _ Hx) as (_ & Hn & _).
      apply Hn. by apply (Hm _ Hx').
    - intros x [([k c] & -> & Hx)%list_elem_of_fmap|([k vs] & -> & Hx)%list_elem_of_fmap]%elem_of_app; simpl.
      + apply elem_of_map_to_list in Hx. by apply (Hs _ _ Hx).
      + rewrite Forall_forall in Hm. apply redundant_in_ids. by apply (Hm _ Hx). }
  rewrite <-Hperm in Hid. apply elem_of_app in Hid as [([k c] & -> & Hx)%list_elem_of_fmap|Hx]; [left|by right].
  apply elem_of_map_to_list in Hx. simpl. eauto.
Qed.

Lemma multi_of_entry s id : id ∈ fst <$> st_multi s -> exists vs, (id, vs) ∈ st_multi s ∧ multi_of s id = vs.
Proof.
  intros ([k vs] & -> & Hin)%list_elem_of_fmap. unfold multi_of. destruct (find _ _) as [[k' vs']|] eqn:E.
  - apply find_Some in E as [Hin' Hk]. apply bool_decide_eq_true in Hk. simpl in *. subst k'. eauto.
  - pose proof (proj1 (find_None _ _) E _ Hin) as Hf. apply bool_decide_eq_false in Hf. by destruct Hf.
Qed.

(** The redundant instances are every twentieth, and no other one shares its id with them. *)
Lemma elem_redundantIds id : id ∈ redundantIds instances <->
  exists i x, instances !! i = Some x ∧ ei_id x = id ∧ (i mod REDUNDANT_EVERY = 0)%nat.
Proof.
  unfold redundantIds, redundant_at. rewrite list_elem_of_In, in_concat. split.
  - intros (l & Hl & Hin). rewrite <-list_elem_of_In in Hl. rewrite <-list_elem_of_In in Hin. apply elem_of_lookup_imap in Hl as (i & x & -> & Hi).
    destruct (Nat.eqb_spec (i mod REDUNDANT_EVERY) 0); [|by apply elem_of_nil in Hin]. apply list_elem_of_singleton in Hin as ->. eauto.
  - intros (i & x & Hi & <- & Hr). exists [ei_id x]. split; [|by left].
    rewrite <-list_elem_of_In. apply elem_of_lookup_imap. exists i, x. by rewrite Hr.
Qed.
Lemma redundant_index i x : NoDup ids -> instances !! i = Some x ->
  ei_id x ∈ redundantIds instances <-> (i mod REDUNDANT_EVERY = 0)%nat.
Proof.
  intros Hnd Hi. rewrite elem_redundantIds. split; [|by eauto 6]. intros (j & y & Hj & Heq & Hr).
  assert (i = j) as ->; [|done]. eapply NoDup_lookup; [exact Hnd|..]; unfold ids; rewrite list_lookup_fmap; [by rewrite Hi|].
  rewrite Hj. simpl. by rewrite Heq.
Qed.

(** What an accepted certificate says of one instance in the final state: of a redundant one that a strict majority of its
    signed executions agree, of any other that its result is signed. *)
Definition instance_certified (s : State) (redundant : bool) (id : string) : Prop :=
  if redundant then
    multi_of s id <> [] ∧ Forall (fun v => certified (vr_nodeId v) (vr_result v)) (multi_of s id) ∧ majority (multi_of s id)
  else exists c node, st_single s !! id = Some c ∧ certified node c.

(** C27: acceptance is sound.  Whatever the schedule and the network, if the coordinator accepts a run over instances with
    distinct ids, then no instance was given up and every one of them is certified: for each twentieth instance, starting with
    the first, every recorded execution comes from a response that its node signed and a strict majority of them agree on the
    canonical result; for each other one, the result comes from a response that its node signed; and at least one node is
    still alive. *)
Theorem accepted_certificate_sound nodes sched res s' :
  NoDup ids -> ca_count args = length instances ->
  certify env verify args instances (run env verify args instances sched (start args instances nodes)) = (res, s') ->
  ce_accepted res = true ->
  (forall i x, instances !! i = Some x -> instance_certified s' (i mod REDUNDANT_EVERY =? 0)%nat (ei_id x)) ∧
  st_failed s' = 0%nat ∧ aliveNodes s' <> [].
Proof.
  intros Hnd Hcount. pose proof (run_ok sched nodes) as Hok. set (s := run _ _ _ _ _ _) in *. unfold certify. cbv zeta.
  destruct (cross_check env verify instances s) as [s1 v] eqn:Ec. intros [= <- <-] Hacc. simpl in Hacc.
  unfold cross_check in Ec. apply cross_check_grew in Ec as (Hok1 & Hkeys & _ & _ & _ & _ & Hmaj);
    [|apply (ro_keys _ Hok)|done|].
  2: { intros id Hid. split; [|done]. apply list_elem_of_fmap in Hid as ([k vs] & -> & Hin).
       pose proof (ro_multi _ Hok) as Hm. rewrite Forall_forall in Hm. by apply (Hm _ Hin). }
  bool_to_prop. repeat match goal with H : (_ =? _)%nat = true |- _ => apply Nat.eqb_eq in H end.
  destruct Hmaj as [_ Hmaj]; [done|]. split_and!; [|done|done]. intros i x Hi.
  pose proof (redundant_index i x Hnd Hi) as Hred. unfold instance_certified.
  destruct (covered_all s1 Hok1 Hnd ltac:(congruence) (ei_id x)) as [[c Hc]|Hk].
  - apply list_elem_of_fmap. exists x. split; [done|]. by eapply list_elem_of_lookup_2.
  - destruct (ro_single _ Hok1 _ _ Hc) as (_ & Hno & node & Hcert).
    destruct (Nat.eqb_spec (i mod REDUNDANT_EVERY) 0) as [Hr|Hr]; [by destruct Hno; apply Hred|eauto].
  - destruct (multi_of_entry s1 _ Hk) as (vs & Hin & Hvs). pose proof (ro_multi _ Hok1) as Hm.
    rewrite Forall_forall in Hm. destruct (Hm _ Hin) as (Hr & Hne & Hcert). simpl in *. apply Hred in Hr.
    rewrite Hr, Nat.eqb_refl, Hvs. split_and!; [done|done|]. rewrite <-Hvs. apply Hmaj. by rewrite <-Hkeys.
Qed.
End facts.

(** ** Concrete runs: two nodes, two instances *)

Section demo.
Local Open Scope string_scope.

Definition demo_instance (id : string) : EvalInstance :=
  {| ei_id := id; ei_templateId := "t"; ei_transformId := "identity"; ei_seed := 0; ei_prompt := "p";
     ei_expected := exact "x"; ei_meta := None |}.
Definition demo_suite : list EvalInstance := [demo_instance "i0"; demo_instance "i1"].
Definition demo_handle (id : string) (port : Z) : NodeHandle :=
  {| nh_id := id; nh_port := port; nh_proc := true; nh_alive := true |}.
Definition demo_mesh : list NodeHandle := [demo_handle "n1" 9201; demo_handle "n2" 9202].
Definition demo_reply (node : string) : Reply :=
  Replied {| xr_nodeId := node; xr_requestId := "r"; xr_signature := "s";
    xr_results := [{| er_instanceId := "i"; er_output := "x"; er_passed := true; er_score := num_of_Z 1;
                      er_durationMs := 1; er_nodeId := None |}] |}.
Definition demo_verify : string -> ExecuteResponse -> result string bool := fun _ _ => Ok true.
Definition demo_args : CoordArgs := {| ca_count := 2; ca_chaos := None; ca_chaosAtStart := false |}.

(** Dispatches alternate between the two nodes; [healthy] answers all of them, with [n2_dead]
    every dispatch to the second node is refused. *)
Definition healthy (k : nat) : Reply := demo_reply (if Nat.even k then "n1" else "n2").
Definition n2_dead (k : nat) : Reply := if Nat.even k then demo_reply "n1" else Failed "ECONNREFUSED".

Definition demo_run (env : nat -> Reply) (sched : list nat) : State :=
  @run demo_text env demo_verify demo_args demo_suite sched (start demo_args demo_suite demo_mesh).
Definition demo_certify (env : nat -> Reply) (sched : list nat) : CertificationResult * State :=
  @certify demo_text env demo_verify demo_args demo_suite (demo_run env sched).

Lemma dispatch_terminates_witness :
  all_returned (demo_run n2_dead (List.concat (replicate 213 [0; 1; 2; 3]%nat))) = true.
Proof.
  apply (@dispatch_terminates demo_text n2_dead demo_verify demo_args demo_suite demo_mesh).
  intros w Hw. change (dispatch_bound demo_suite demo_mesh) with 212%nat.
  do 4 (destruct w as [|w]; [apply Nat.ltb_lt; vm_compute; reflexivity|]). unfold CONCURRENCY in Hw. lia.
Defined.

Definition demo_sched : list nat := [0; 1; 2; 3; 0; 0; 0; 1; 1; 1; 2; 2; 2; 3; 3; 3]%nat.

Lemma accepted_certificate_sound_witness :
  @instance_certified demo_text healthy demo_verify (demo_certify healthy demo_sched).2 true "i0" ∧
  @instance_certified demo_text healthy demo_verify (demo_certify healthy demo_sched).2 false "i1".
Proof.
  destruct (@accepted_certificate_sound demo_text healthy demo_verify demo_args demo_suite demo_mesh demo_sched
    (demo_certify healthy demo_sched).1 (demo_certify healthy demo_sched).2) as (Hall & _).
  - apply (bool_decide_eq_true_1 _). vm_compute. reflexivity.
  - reflexivity.
  - unfold demo_certify, demo_run. by destruct (@certify _ _ _ _ _ _).
  - vm_compute. reflexivity.
  - split; [exact (Hall 0%nat (demo_instance "i0") eq_refl)|exact (Hall 1%nat (demo_instance "i1") eq_refl)].
Defined.
End demo.

(** A failed dispatch can be dropped although a node survives.  A worker that finds the queue
    empty still advances [next], so a dispatch that fails afterwards is pushed behind [next] and
    no worker reads it: with two nodes, two instances and the second node refusing connections, there
    is a run in which every worker returns, the first node is alive, no instance is counted as failed,
    and yet an instance has no result and the run is rejected. *)
Theorem retry_lost_on_node_death :
  exists sched, let s := demo_run n2_dead sched in
    all_returned s = true ∧ aliveNodes s <> [] ∧ st_failed s = 0%nat ∧
    (length (initial_queue demo_suite) + st_requeues s = length (st_queue s))%nat ∧
    st_single s !! "i1"%string = None ∧ multi_of s "i1" = [] ∧
    ce_accepted (demo_certify n2_dead sched).1 = false.
Proof.
  exists [0; 1; 2; 3; 0; 0; 0; 3; 3; 3; 1; 1; 1; 2; 2; 2]%nat.
  split_and!; vm_compute; try reflexivity. discriminate.
Qed.
