(* ===== verification/Utf8.v ===== *)
(** * Incremental UTF-8 decoding

    [new TextDecoder()] with [decode(chunk, { stream: true })], the decoder of the web platform that stage execution, the
    router and the stream checks of swarmlet/control and swarmlet/protocol feed bytes to.  Text is the UTF-8 bytes of the
    decoded characters: a valid sequence stands for itself, a malformed one becomes the bytes of U+FFFD, and a byte order
    mark at the start of the stream is dropped. *)

From stdpp Require Import list numbers.
From S2P Require Import Prelude.

Local Open Scope Z_scope.

(** The bytes of an unfinished sequence, how many are missing, and the range of the next one *)
Record Utf8 := { u_pending : list Z; u_needed : nat; u_lower : Z; u_upper : Z; u_started : bool }.
Definition newUtf8 : Utf8 := {| u_pending := []; u_needed := 0; u_lower := 128; u_upper := 191; u_started := false |}.

Definition FFFD : list Z := [239; 191; 189].
Definition BOM : list Z := [239; 187; 191].

(** A character goes out: the byte order mark at the start does not. *)
Definition emit (started : bool) (c : list Z) : list Z * Utf8 :=
  (if negb started && bool_decide (c = BOM) then [] else c,
   {| u_pending := []; u_needed := 0; u_lower := 128; u_upper := 191; u_started := true |}).

Definition lead (started : bool) (b : Z) (needed : nat) (lower upper : Z) : list Z * Utf8 :=
  ([], {| u_pending := [b]; u_needed := needed; u_lower := lower; u_upper := upper; u_started := started |}).

Definition first_byte (started : bool) (b : Z) : list Z * Utf8 :=
  if b <? 128 then emit started [b]
  else if (194 <=? b) && (b <=? 223) then lead started b 1 128 191
  else if (224 <=? b) && (b <=? 239) then
    lead started b 2 (if b =? 224 then 160 else 128) (if b =? 237 then 159 else 191)
  else if (240 <=? b) && (b <=? 244) then
    lead started b 3 (if b =? 240 then 144 else 128) (if b =? 244 then 143 else 191)
  else emit started FFFD.

Definition decode_byte (s : Utf8) (b : Z) : list Z * Utf8 :=
  match u_needed s with
  | O => first_byte (u_started s) b
  | S needed =>
      if (b <? u_lower s) || (u_upper s <? b) then
        (* the byte is looked at again as the first of a sequence *)
        let '(out, s') := emit (u_started s) FFFD in
        let '(out', s'') := first_byte (u_started s') b in (out ++ out', s'')
      else
        match needed with
        | O => emit (u_started s) (u_pending s ++ [b])
        | S _ => ([], {| u_pending := u_pending s ++ [b]; u_needed := needed; u_lower := 128; u_upper := 191; u_started := u_started s |})
        end
  end.

(** [decode(chunk, { stream: true })] *)
Fixpoint decode_chunk (s : Utf8) (chunk : list Z) : list Z * Utf8 :=
  match chunk with
  | [] => ([], s)
  | b :: chunk => let '(out, s) := decode_byte s b in let '(out', s) := decode_chunk s chunk in (out ++ out', s)
  end.
(** [decode()]: an unfinished sequence is malformed. *)
Definition decode_end (s : Utf8) : list Z := match u_needed s with O => [] | S _ => (emit (u_started s) FFFD).1 end.
(** The whole of a stream *)
Definition decode_all (l : list Z) : list Z := let '(out, s) := decode_chunk newUtf8 l in out ++ decode_end s.

Lemma decode_app s l k : decode_chunk s (l ++ k) =
  let '(out, s') := decode_chunk s l in let '(out', s'') := decode_chunk s' k in (out ++ out', s'').
Proof.
  revert s. induction l as [|b l IH]; intros s; cbn; [by destruct (decode_chunk s k)|].
  destruct (decode_byte s b) as [o s1]. rewrite IH. destruct (decode_chunk s1 l) as [o1 s2].
  destruct (decode_chunk s2 k) as [o2 s3]. by rewrite app_assoc.
Qed.

(** ** Valid UTF-8 *)

(** The encoding of one character *)
Inductive char : list Z -> Prop :=
  | char_1 a : 0 <= a < 128 -> char [a]
  | char_2 a b : 194 <= a <= 223 -> 128 <= b <= 191 -> char [a; b]
  | char_3 a b c : 224 <= a <= 239 -> (if a =? 224 then 160 else 128) <= b <= (if a =? 237 then 159 else 191) ->
      128 <= c <= 191 -> char [a; b; c]
  | char_4 a b c d : 240 <= a <= 244 -> (if a =? 240 then 144 else 128) <= b <= (if a =? 244 then 143 else 191) ->
      128 <= c <= 191 -> 128 <= d <= 191 -> char [a; b; c; d].
Inductive valid : list Z -> Prop :=
  | valid_nil : valid []
  | valid_char c l : char c -> valid l -> valid (c ++ l).

Lemma valid_app l k : valid l -> valid k -> valid (l ++ k).
Proof. induction 1; [done|]. intros Hk. rewrite <-app_assoc. constructor; auto. Qed.
Lemma char_FFFD : char FFFD.
Proof. by apply (char_3 239 191 189). Qed.
Lemma valid_one c : char c -> valid c.
Proof. intros Hc. rewrite <-(app_nil_r c). by repeat constructor. Qed.

(** Between characters *)
Definition rest (started : bool) : Utf8 := {| u_pending := []; u_needed := 0; u_lower := 128; u_upper := 191; u_started := started |}.

(** Inside one: what the next bytes may be *)
Inductive partial : Utf8 -> Prop :=
  | partial_rest s : partial (rest s)
  | partial_last p lo up s : (forall b, lo <= b <= up -> char (p ++ [b])) ->
      partial {| u_pending := p; u_needed := 1; u_lower := lo; u_upper := up; u_started := s |}
  | partial_more p n lo up s :
      (forall b, lo <= b <= up ->
         partial {| u_pending := p ++ [b]; u_needed := S n; u_lower := 128; u_upper := 191; u_started := s |}) ->
      partial {| u_pending := p; u_needed := S (S n); u_lower := lo; u_upper := up; u_started := s |}.

Lemma emit_partial s c : partial (emit s c).2.
Proof. constructor. Qed.
Lemma emit_valid s c : char c -> valid (emit s c).1.
Proof. intros Hc. cbn. destruct (_ && _); [constructor|by apply valid_one]. Qed.

Lemma first_partial s b : partial (first_byte s b).2.
Proof.
  unfold first_byte. destruct (Z.ltb_spec b 128); [constructor|].
  destruct (_ && _) eqn:E2.
  { apply andb_true_iff in E2 as [H1%Z.leb_le H2%Z.leb_le]. apply partial_last. intros c Hc. by constructor. }
  destruct (_ && _) eqn:E3 at 1.
  { apply andb_true_iff in E3 as [H1%Z.leb_le H2%Z.leb_le]. apply partial_more. intros c Hc.
    apply partial_last. intros d Hd. by apply (char_3 b c d). }
  destruct (_ && _) eqn:E4 at 1; [|constructor].
  apply andb_true_iff in E4 as [H1%Z.leb_le H2%Z.leb_le]. apply partial_more. intros c Hc.
  apply partial_more. intros d Hd. apply partial_last. intros e He. by apply (char_4 b c d e).
Qed.
Lemma first_valid s b : 0 <= b -> valid (first_byte s b).1.
Proof.
  intros Hb. unfold first_byte. destruct (Z.ltb_spec b 128); [apply emit_valid; by constructor|].
  destruct (_ && _); [constructor|]. destruct (_ && _); [constructor|]. destruct (_ && _); [constructor|].
  apply emit_valid, char_FFFD.
Qed.

(** A byte out of range ends the character and starts another. *)
Lemma broken_ok s b : 0 <= b -> let '(out, s') := emit s FFFD in let '(out', s'') := first_byte (u_started s') b in
  partial s'' ∧ valid (out ++ out').
Proof.
  intros Hb. unfold emit. cbn [u_started]. pose proof (first_partial true b) as H1. pose proof (first_valid true b Hb) as H2.
  destruct (first_byte true b) as [o s1]. split; [done|]. apply valid_app; [|done].
  destruct (_ && _); [constructor|apply valid_one, char_FFFD].
Qed.
Lemma decode_byte_ok s b : 0 <= b -> partial s -> partial (decode_byte s b).2 ∧ valid (decode_byte s b).1.
Proof.
  intros Hb Hs. unfold decode_byte. destruct Hs as [s0|p lo up s0 Hp|p n lo up s0 Hp]; cbn [u_needed u_lower u_upper u_pending u_started].
  - split; [apply first_partial|by apply first_valid].
  - destruct (_ || _) eqn:E.
    + pose proof (broken_ok s0 b Hb) as H0. unfold emit in *. cbn [u_started] in *. by destruct (first_byte true b) as [o s1].
    + apply orb_false_iff in E as [H1%Z.ltb_ge H2%Z.ltb_ge]. split; [apply emit_partial|apply emit_valid, Hp; lia].
  - destruct (_ || _) eqn:E.
    + pose proof (broken_ok s0 b Hb) as H0. unfold emit in *. cbn [u_started] in *. by destruct (first_byte true b) as [o s1].
    + apply orb_false_iff in E as [H1%Z.ltb_ge H2%Z.ltb_ge]. split; [apply Hp; lia|constructor].
Qed.
Lemma decode_chunk_ok l : Forall (fun b => 0 <= b) l -> forall s, partial s ->
  partial (decode_chunk s l).2 ∧ valid (decode_chunk s l).1.
Proof.
  induction 1 as [|b l Hb _ IH]; intros s Hs; cbn; [split; [done|constructor]|].
  destruct (decode_byte_ok s b Hb Hs) as [H1 H2]. destruct (decode_byte s b) as [o s1]. destruct (IH s1 H1) as [H3 H4].
  destruct (decode_chunk s1 l) as [o1 s2]. split; [done|by apply valid_app].
Qed.

(** A character passes unchanged. *)
Lemma byte_next p n lo up s b : lo <= b <= up ->
  decode_byte {| u_pending := p; u_needed := S (S n); u_lower := lo; u_upper := up; u_started := s |} b =
  ([], {| u_pending := p ++ [b]; u_needed := S n; u_lower := 128; u_upper := 191; u_started := s |}).
Proof. intros Hb. unfold decode_byte. cbn. destruct (Z.ltb_spec b lo), (Z.ltb_spec up b); try lia. done. Qed.
Lemma byte_last p lo up s b : lo <= b <= up ->
  decode_byte {| u_pending := p; u_needed := 1; u_lower := lo; u_upper := up; u_started := s |} b = emit s (p ++ [b]).
Proof. intros Hb. unfold decode_byte. cbn. destruct (Z.ltb_spec b lo), (Z.ltb_spec up b); try lia. done. Qed.
Lemma byte_first s a : decode_byte (rest s) a = first_byte s a.
Proof. done. Qed.
Ltac range := repeat match goal with
  | |- context [?x <? ?y] => destruct (Z.ltb_spec x y); try lia
  | |- context [?x <=? ?y] => destruct (Z.leb_spec x y); try lia end.
Lemma decode_char s c : char c -> decode_chunk (rest s) c = emit s c.
Proof.
  intros Hc. destruct Hc as [a Ha|a b Ha Hb|a b c Ha Hb Hc|a b c d Ha Hb Hc Hd]; cbn [decode_chunk]; rewrite byte_first.
  - unfold first_byte. range. unfold emit. by rewrite app_nil_r.
  - replace (first_byte s a) with (lead s a 1 128 191) by (unfold first_byte; by range).
    unfold lead. rewrite byte_last by done. unfold emit. by rewrite app_nil_r.
  - replace (first_byte s a) with (lead s a 2 (if a =? 224 then 160 else 128) (if a =? 237 then 159 else 191))
      by (unfold first_byte; by range).
    unfold lead. rewrite byte_next, byte_last by done. unfold emit. by rewrite app_nil_r.
  - replace (first_byte s a) with (lead s a 3 (if a =? 240 then 144 else 128) (if a =? 244 then 143 else 191))
      by (unfold first_byte; by range).
    unfold lead. rewrite byte_next, byte_next, byte_last by done. unfold emit. by rewrite app_nil_r.
Qed.
Lemma decode_valid l : valid l -> decode_chunk (rest true) l = (l, rest true).
Proof.
  induction 1 as [|c l Hc _ IH]; [done|]. rewrite decode_app, (decode_char true c Hc). unfold emit. cbn. fold (rest true). by rewrite IH.
Qed.

(** The outputs of the chunks of a stream, and what its end adds *)
Fixpoint decode_stream (s : Utf8) (chunks : list (list Z)) : list (list Z) :=
  match chunks with
  | [] => [decode_end s]
  | c :: chunks => let '(out, s) := decode_chunk s c in out :: decode_stream s chunks
  end.

Lemma stream_whole chunks : forall s, mjoin (decode_stream s chunks) =
  let '(out, s') := decode_chunk s (mjoin chunks) in out ++ decode_end s'.
Proof.
  induction chunks as [|c chunks IH]; intros s; cbn [decode_stream]; [by cbn; rewrite app_nil_r|].
  change (mjoin (c :: chunks)) with (c ++ mjoin chunks). rewrite decode_app. destruct (decode_chunk s c) as [o s1]. change (mjoin (o :: ?l)) with (o ++ mjoin l). rewrite IH.
  destruct (decode_chunk s1 _) as [o1 s2]. by rewrite app_assoc.
Qed.

(** However a stream of bytes is cut into chunks, the decoded pieces together are the decoding of the whole, which is
    valid UTF-8; and if the bytes are valid UTF-8 to begin with, nothing changes but a leading byte order mark. *)
Theorem decode_chunking chunks : Forall (fun b => 0 <= b) (mjoin chunks) ->
  mjoin (decode_stream newUtf8 chunks) = decode_all (mjoin chunks) ∧ valid (decode_all (mjoin chunks)) ∧
  (forall c l, char c -> valid l -> mjoin chunks = c ++ l -> decode_all (mjoin chunks) = if bool_decide (c = BOM) then l else c ++ l).
Proof.
  intros Hb. split; [exact (stream_whole chunks newUtf8)|]. split.
  - unfold decode_all. destruct (decode_chunk_ok _ Hb newUtf8 (partial_rest false)) as [H1 H2].
    destruct (decode_chunk newUtf8 _) as [o s]. apply valid_app; [done|]. unfold decode_end. destruct (u_needed s); [constructor|].
    apply emit_valid, char_FFFD.
  - intros c l Hc Hl ->. unfold decode_all. rewrite decode_app. change newUtf8 with (rest false). rewrite (decode_char false c Hc).
    unfold emit. cbn [negb andb]. fold (rest true). rewrite (decode_valid l Hl). cbn. rewrite app_nil_r. by destruct (bool_decide _).
Qed.

(** The three bytes of a euro sign in three chunks *)
Lemma decode_chunking_witness :
  mjoin (decode_stream newUtf8 [[226]; [130]; [172]]) = decode_all (mjoin [[226]; [130]; [172]]) ∧
  decode_all (mjoin [[226]; [130]; [172]]) = [226; 130; 172].
Proof.
  split; [|vm_compute; reflexivity]. apply (decode_chunking [[226]; [130]; [172]]). cbn. repeat (constructor; [lia|]). constructor.
Defined.
