(* ===== verification/StageExecution.v ===== *)
(** * Execution over native stage workers (swarmlet/control/stage-execution.ts)

    One request runs over the resident workers of a deployment: the prompt goes through the stages in batches, or is
    prefilled on one worker whose state is copied to another, and tokens are decoded greedily.  Whatever fails, the
    workers are reset and the capsules deleted; if that is not acknowledged the deployment is withdrawn.

    A call is a resumption that asks its environment: the tunnels for a port, a worker for a response, the abort signal
    whether it fired, the caller to take a token, the manager to withdraw the deployment.  [Executor] is the object the
    calls share, with the capsule files of each session.  The ten second signal of the cleanup starts fresh for each
    command, so it is not asked.  Text is UTF-8 bytes; a response is the chunks its body arrives in. *)

From S2P Require Import Prelude Async JsNum Json Types Validate Canon Utf8.

Local Open Scope string_scope.
Local Open Scope list_scope.
Local Open Scope Z_scope.

Definition BATCH : Z := 64.
Definition EMBEDDING : Z := 2048.
Definition VOCAB : Z := 248320.
Definition CHUNK : Z := 262144.
Definition MAX_STATE : Z := 512 * 1024 * 1024.
Definition MAX_MANIFEST : Z := 16 * 1024 * 1024.
Definition MAX_RESPONSE : Z := 4 * 1024 * 1024.

Record StageExecutionPlan := {
  xp_deploymentId : string; xp_mode : NativeMode; xp_profile : string; xp_endpoints : list NativeStageEndpoint;
  xp_qualification : option StateTransferQualification }.
Inductive Role := r_system | r_user | r_assistant.
Record Message := { ms_role : Role; ms_content : string }.
Record StageGenerationRequest := {
  gq_prompt : option string; gq_messages : option (list Message); gq_maxTokens : num; gq_temperature : option num }.
Record StageTokenChunk := { tk_tokenId : option Z; tk_text : list Z }.
Inductive FinishReason := f_stop | f_length.
Record StageGenerationResult := {
  gr_text : list Z; gr_tokenIds : list Z; gr_finishReason : FinishReason; gr_promptTokens : Z; gr_completionTokens : Z }.
Inductive Operation := o_state_delete | o_reset | o_withdraw.
Record StageCleanupFailure := { cf_nodeId : string; cf_port : Z; cf_operation : Operation; cf_error : string }.

(** What the code takes from the engine and the runtime *)
Class StageHost := {
  #[global] sh_json :: JsonText;
  (** [Number(s)] *)
  Number_of : string -> num;
  sha256_hex : list Z -> string }.

Definition role_name (r : Role) : string := match r with r_system => "system" | r_user => "user" | r_assistant => "assistant" end.
Definition message_json (m : Message) : json := JObj [("role", JStr (role_name (ms_role m))); ("content", JStr (ms_content m))].

(** [integer] *)
Definition integer (x : option json) (low high : Z) : option Z :=
  match as_num x ≫= as_safe_int with
  | Some z => if (low <=? z) && (z <=? high) then Some z else None
  | None => None
  end.
Definition integers (x : option json) (low high : Z) : option (list Z) :=
  l ← as_arr x; mapM (fun v => integer (Some v) low high) l.

(** ** What is sent to a worker, and what comes back *)

Inductive Cmd :=
  | C_status
  | C_tokenize (text : string)
  | C_chat_tokens (messages : list Message)
  | C_eval (session : string) (position : Z) (input : list Z + list json)
  | C_export (session file : string)
  | C_state_read (session file : string) (offset : Z)
  | C_state_write (session file : string) (offset : Z) (data : list Z)
  | C_import (session file : string)
  | C_state_delete (session file : string)
  | C_reset (session : string).

(** The chunks of the body, until it ends or reading it fails *)
Inductive Response :=
  | Failed (why : string)
  | NoBody
  | Body (ok : bool) (status : Z) (chunks : list (list Z)) (broken : option string).

Inductive Ask :=
  | A_port (nodeId : string) (port : Z)
  | A_fetch (target : NativeStageEndpoint) (port : Z) (c : Cmd)
  | A_aborted
  | A_token (chunk : StageTokenChunk)
  | A_unsafe (deploymentId : string) (failures : list StageCleanupFailure).
Definition answer (a : Ask) : Type :=
  match a with
  | A_port _ _ => result string Z
  | A_fetch _ _ _ => Response
  | A_aborted => option string
  | A_token _ | A_unsafe _ _ => result string unit
  end.

(** [x_capsules] are the files each session may have left on the endpoint of an index. *)
Record Executor := { x_active : gset string; x_unsafe : gset string; x_capsules : gmap string (list (nat * string)) }.
Definition newExecutor : Executor := {| x_active := ∅; x_unsafe := ∅; x_capsules := ∅ |}.
Definition set_active v (x : Executor) : Executor := {| x_active := v; x_unsafe := x_unsafe x; x_capsules := x_capsules x |}.
Definition set_unsafe v (x : Executor) : Executor := {| x_active := x_active x; x_unsafe := v; x_capsules := x_capsules x |}.
Definition set_capsules v (x : Executor) : Executor := {| x_active := x_active x; x_unsafe := x_unsafe x; x_capsules := v |}.

Abbreviation Sync := (M Executor string).
Abbreviation Exec := (Async (S := Executor) answer).

Definition ask (a : Ask) : Exec (answer a) := fun m => (Susp a (fun r m => (Fin (Ok r), m)), m).
Definition of_result {A} (r : result string A) : Exec A := fun m => (Fin r, m).
(** The outcome of a call that may throw *)
Definition attempt {A} (x : Exec A) : Exec (result string A) := acatch (a ← x; mret (Ok a)) (fun e => mret (Err e)).

Definition isBusy (deploymentId : string) (x : Executor) : bool := bool_decide (deploymentId ∈ x_active x).
Definition acknowledgeRecovery (deploymentId : string) : Sync unit :=
  m ← mget;
  if isBusy deploymentId m then mthrow "cannot acknowledge recovery during active execution"
  else mmodify (fun m => set_unsafe (x_unsafe m ∖ {[deploymentId]}) m).

Definition throwIfAborted : Exec unit :=
  a ← ask A_aborted;
  match a with Some why => athrow why | None => mret tt end.

Section execution.
Context `{StageHost}.

(** [String(x)] *)
Fixpoint js_String (v : json) : string :=
  match v with
  | JNull => "null"
  | JBool b => if b then "true" else "false"
  | JNum n => num_string n
  | JStr s => s
  | JArr l => join "," (List.map (fun v => match v with JNull => "" | _ => js_String v end) l)
  | JObj _ => "[object Object]"
  end.

Definition text_of (l : list Z) : string := foldr (fun b s => String (Ascii.ascii_of_nat (Z.to_nat b)) s) "" l.
(** [buffer.toString("utf8")], which keeps a byte order mark *)
Definition buffer_text (l : list Z) : string :=
  let '(out, s) := decode_chunk {| u_pending := []; u_needed := 0; u_lower := 128; u_upper := 191; u_started := true |} l in
  text_of (out ++ decode_end s).

Definition object (x : option json) : result string fields :=
  match as_obj x with Some o => Ok o | None => Err "expected native object response" end.
Definition parse_object (l : list Z) : result string fields :=
  match JSON_parse (buffer_text l) with None => Err "JSON Parse error" | Some v => object (Some v) end.

(** The body within its bound *)
Fixpoint read_body (bound total : Z) (chunks : list (list Z)) (broken : option string) (acc : list Z) : result string (list Z) :=
  match chunks with
  | [] => match broken with Some e => Err e | None => Ok acc end
  | c :: chunks =>
      let total := total + Z.of_nat (length c) in
      if bound <? total then Err ("native response exceeds " +:+ pretty bound +:+ " byte bound")
      else read_body bound total chunks broken (acc ++ c)
  end.
Definition command_result (bound : Z) (r : Response) : result string fields :=
  match r with
  | Failed e => Err e
  | NoBody => Err "empty native response"
  | Body ok status chunks broken =>
      l ← read_body bound 0 chunks broken [];
      o ← parse_object l;
      if ok then Ok o
      else Err ("native command failed (" +:+ pretty status +:+ "): " +:+
                match jget o "error" with None | Some JNull => "unknown error" | Some v => js_String v end)
  end.

(** A worker with the port its tunnel has here *)
Record Prepared := { pr_target : NativeStageEndpoint; pr_port : Z; pr_status : fields }.

Definition request_worker (target : NativeStageEndpoint) (port : Z) (c : Cmd) (bound : Z) : Exec fields :=
  r ← ask (A_fetch target port c);
  of_result (command_result bound r).
(** [command] with the signal of the request *)
Definition command (e : Prepared) (c : Cmd) : Exec fields :=
  throwIfAborted ;; request_worker (pr_target e) (pr_port e) c MAX_RESPONSE.

(** ** Checks before anything is sent *)

Definition identity_fields (i : NativeStageIdentity) : list (string * json) :=
  [("schema", JNum (num_of_Z (si_schema i))); ("engine", JStr (si_engine i)); ("model_sha256", JStr (si_model_sha256 i));
   ("source_sha256", JStr (si_source_sha256 i)); ("ctx", JNum (num_of_Z (si_ctx i))); ("cache_k", JStr (si_cache_k i));
   ("cache_v", JStr (si_cache_v i)); ("ubatch", JNum (num_of_Z (si_ubatch i))); ("flash_attn", JStr (si_flash_attn i));
   ("stage_start", JStr (si_stage_start i)); ("stage_end", JStr (si_stage_end i)); ("stage_total", JStr (si_stage_total i))].
Definition assertIdentity (actual : option json) (expected : NativeStageIdentity) : result string unit :=
  a ← object actual;
  match find (fun f => negb (strict_eq (jget a f.1) (Some f.2))) (identity_fields expected) with
  | Some f => Err ("native identity mismatch: " +:+ f.1)
  | None => Ok tt
  end.

Definition key (e : NativeStageEndpoint) : string := se_nodeId e +:+ ":" +:+ pretty (se_port e).

Definition identity_ok (i : NativeStageIdentity) : bool :=
  (si_schema i =? 1) && SHA256 (si_engine i) && SHA256 (si_model_sha256 i) && SHA256 (si_source_sha256 i) &&
  (64 <=? si_ctx i) && (si_ctx i <=? 32768) && String.eqb (si_cache_k i) "f32" && String.eqb (si_cache_v i) "f32" &&
  (si_ubatch i =? 1) && String.eqb (si_flash_attn i) "disabled".
Definition compatible (i first : NativeStageIdentity) : bool :=
  String.eqb (si_engine i) (si_engine first) && String.eqb (si_source_sha256 i) (si_source_sha256 first) && (si_ctx i =? si_ctx first).

(** The end of the interval of a stage that begins at [boundary] *)
Definition stage_end (i : NativeStageIdentity) (boundary : Z) : option Z :=
  if String.eqb (si_stage_start i) "" || String.eqb (si_stage_end i) "" || negb (String.eqb (si_stage_total i) "24") ||
     negb (num_eqb (Number_of (si_stage_start i)) (num_of_Z boundary)) then None
  else integer (Some (JNum (Number_of (si_stage_end i)))) (boundary + 1) 24.
Definition full_endpoint (i first : NativeStageIdentity) : bool :=
  String.eqb (si_stage_start i) "" && String.eqb (si_stage_end i) "" && String.eqb (si_stage_total i) "" &&
  String.eqb (si_model_sha256 i) (si_model_sha256 first) && String.eqb (si_model_sha256 i) (si_source_sha256 i).

Fixpoint validate_endpoints (mode : NativeMode) (first : NativeStageIdentity) (boundary : Z) (seen : list string)
    (l : list NativeStageEndpoint) : result string Z :=
  match l with
  | [] => Ok boundary
  | e :: l =>
      if String.eqb (se_nodeId e) "" || negb ((1024 <=? se_port e) && (se_port e <=? 65535)) ||
         negb (SHA256 (se_binarySha256 e)) || bool_decide (key e ∈ seen)
      then Err "invalid or duplicate native endpoint" else
      let i := se_identity e in
      if negb (identity_ok i) then Err "unqualified native identity" else
      if negb (compatible i first) then Err "incompatible native source, ABI or context" else
      match mode with
      | stages_mode =>
          match stage_end i boundary with
          | Some next => validate_endpoints mode first next (key e :: seen) l
          | None => Err "stage intervals must cover 24 transformer layers in order"
          end
      | prefill_decode_mode =>
          if full_endpoint i first then validate_endpoints mode first boundary (key e :: seen) l
          else Err "prefill-decode requires matching full models"
      end
  end.

Definition validatePlan (plan : StageExecutionPlan) : result string unit :=
  if negb (String.eqb (xp_profile plan) "qwen35-2b-q8") || String.eqb (xp_deploymentId plan) ""
  then Err "only an identified Qwen35-2B deployment is supported" else
  match xp_endpoints plan with
  | [] => Err "invalid native execution layout"
  | first :: _ =>
      let n := length (xp_endpoints plan) in
      if negb ((n =? 2)%nat || (n =? 3)%nat) then Err "invalid native execution layout" else
      if bool_decide (xp_mode plan = prefill_decode_mode) && negb (n =? 2)%nat
      then Err "prefill-decode requires exactly two endpoints" else
      boundary ← validate_endpoints (xp_mode plan) (se_identity first) 0 [] (xp_endpoints plan);
      if bool_decide (xp_mode plan = stages_mode) && negb (boundary =? 24) then Err "incomplete stage coverage" else
      if bool_decide (xp_mode plan = prefill_decode_mode) &&
         negb (holds (fun q => SHA256 (st_sourceBinarySha256 q) && SHA256 (st_targetBinarySha256 q) && SHA256 (st_evidenceSha256 q))
                     (xp_qualification plan))
      then Err "prefill-decode binary-pair qualification required" else Ok tt
  end.

Definition byteLength (s : string) : Z := Z.of_nat (String.length s).
Definition max_tokens (q : StageGenerationRequest) : option Z := integer (Some (JNum (gq_maxTokens q))) 1 128.

(** The options and roles the type leaves open are checked where a body is parsed. *)
Definition validateRequest (q : StageGenerationRequest) : result string Z :=
  match max_tokens q with
  | None => Err "only greedy generation of 1..128 tokens is supported"
  | Some n =>
      if match gq_temperature q with Some t => negb (num_eqb t num_zero) | None => false end
      then Err "only greedy generation of 1..128 tokens is supported" else
      match gq_prompt q, gq_messages q with
      | None, None | Some _, Some _ => Err "provide exactly one prompt or messages"
      | Some p, None =>
          if String.eqb p "" || (65536 <? byteLength p) then Err "prompt must be nonempty and at most 65536 bytes" else Ok n
      | None, Some l =>
          if bool_decide (l = []) || (64 <? length l)%nat || (65536 <? byteLength (stringify (JArr (message_json <$> l))))
          then Err "invalid text-only chat messages" else Ok n
      end
  end.

(** ** The workers *)

Definition prepare_one (target : NativeStageEndpoint) : Exec Prepared :=
  r ← ask (A_port (se_nodeId target) (se_port target));
  port ← of_result r;
  let e := {| pr_target := target; pr_port := port; pr_status := [] |} in
  status ← command e C_status;
  of_result (assertIdentity (jget status "identity") (se_identity target)) ;;
  if negb (is_number EMBEDDING (jget status "n_embd")) || negb (is_number VOCAB (jget status "n_vocab")) ||
     negb (is_string (se_binarySha256 target) (jget status "binary_sha256"))
  then athrow "unexpected native model dimensions or binary identity" else
  if negb (is_string "" (jget status "session")) || negb (is_number 0 (jget status "position"))
  then athrow "native endpoint is busy or has uncleared state" else
  mret {| pr_target := target; pr_port := port; pr_status := status |}.
Fixpoint prepare_all (l : list NativeStageEndpoint) : Exec (list Prepared) :=
  match l with
  | [] => mret []
  | t :: l => e ← prepare_one t; es ← prepare_all l; mret (e :: es)
  end.

(** The pair of binaries the state transfer is qualified for *)
Definition pair_qualified (plan : StageExecutionPlan) (l : list Prepared) : bool :=
  match xp_qualification plan, l with
  | Some q, a :: b :: _ =>
      is_string (st_sourceBinarySha256 q) (jget (pr_status a) "binary_sha256") &&
      is_string (st_targetBinarySha256 q) (jget (pr_status b) "binary_sha256")
  | _, _ => false
  end.
Definition prepare (plan : StageExecutionPlan) : Exec (list Prepared) :=
  l ← prepare_all (xp_endpoints plan);
  if bool_decide (xp_mode plan = prefill_decode_mode) && negb (pair_qualified plan l)
  then athrow "native binary pair differs from state-transfer qualification" else mret l.

(** What the last stage answers *)
Record Output := { ou_token : Z; ou_isEog : bool; ou_pieceBytes : list Z }.

Definition acknowledged (out : fields) (position : Z) : result string unit :=
  if is_number position (jget out "position") then Ok tt else Err "native position acknowledgement mismatch".
Definition activations_of (out : fields) (count : Z) : result string (list json) :=
  match as_arr (jget out "activations") with
  | Some l => if (Z.of_nat (length l) =? count * EMBEDDING) && forallb (fun x => isNum (Some x)) l then Ok l
              else Err "invalid native activation batch"
  | None => Err "invalid native activation batch"
  end.
Definition output_of (out : fields) : result string Output :=
  match integer (jget out "token") 0 (VOCAB - 1), as_bool (jget out "isEog"), integers (jget out "pieceBytes") 0 255, jget out "logits" with
  | Some t, Some b, Some l, None =>
      if (65536 <? Z.of_nat (length l)) then Err "invalid compact native token response"
      else Ok {| ou_token := t; ou_isEog := b; ou_pieceBytes := l |}
  | _, _, _, _ => Err "invalid compact native token response"
  end.

(** [eval] on an inner stage and on the last one *)
Definition eval_middle (e : Prepared) (session : string) (position : Z) (input : list Z + list json) (count : Z) : Exec (list json) :=
  out ← command e (C_eval session position input);
  of_result (acknowledged out (position + count)) ;; of_result (activations_of out count).
Definition eval_last (e : Prepared) (session : string) (position : Z) (input : list Z + list json) (count : Z) : Exec Output :=
  out ← command e (C_eval session position input);
  of_result (acknowledged out (position + count)) ;; of_result (output_of out).

(** A batch through the stages *)
Fixpoint pass (l : list Prepared) (session : string) (position : Z) (input : list Z + list json) (count : Z) : Exec Output :=
  match l with
  | [] => athrow "undefined is not an object"
  | [e] => eval_last e session position input count
  | e :: l => a ← eval_middle e session position input count; pass l session position (inr a) count
  end.

Fixpoint batches (fuel : nat) (l : list Z) : list (list Z) :=
  match fuel, l with
  | S fuel, _ :: _ => take (Z.to_nat BATCH) l :: batches fuel (drop (Z.to_nat BATCH) l)
  | _, _ => []
  end.
Fixpoint prefill (l : list Prepared) (session : string) (position : Z) (bs : list (list Z)) (last : option Output)
    : Exec (Z * option Output) :=
  match bs with
  | [] => mret (position, last)
  | b :: bs =>
      let count := Z.of_nat (length b) in
      out ← pass l session position (inl b) count;
      prefill l session (position + count) bs (Some out)
  end.

(** ** The copy of a state *)

Definition track (session : string) (i : nat) (file : string) : Exec unit :=
  lift (mmodify (fun x =>
    let l := default [] (x_capsules x !! session) in
    if bool_decide ((i, file) ∈ l) then x else set_capsules (<[session := l ++ [(i, file)]]> (x_capsules x)) x)).
Definition capsules (session : string) (i : nat) (x : Executor) : list string :=
  snd <$> List.filter (fun c => (c.1 =? i)%nat) (default [] (x_capsules x !! session)).

Record Exported := { ep_bytes : Z; ep_sha256 : string; ep_envelope : string; ep_position : option json }.

(** One chunk read and written: the size of the file, and the bytes *)
Definition copy_chunk (source destination : Prepared) (session name : string) (max : Z) (exported : option Exported)
    (offset : Z) (size : option Z) : Exec (Z * list Z) :=
  read ← command source (C_state_read session name offset);
  match integers (jget read "data") 0 255, integer (jget read "total_bytes") 1 max with
  | Some data, Some total =>
      if bool_decide (data = []) || (CHUNK <? Z.of_nat (length data)) then athrow "invalid bounded capsule chunk" else
      let size := default total size in
      let next := offset + Z.of_nat (length data) in
      if negb (total =? size) || negb (is_number next (jget read "next_offset")) || (size <? next) ||
         negb (strict_eq (jget read "eof") (Some (JBool (next =? size))))
      then athrow "capsule read offset or size changed" else
      if match exported with Some x => negb (size =? ep_bytes x) | None => false end
      then athrow "capsule size differs from export" else
      track session 1 name ;;
      ack ← command destination (C_state_write session name offset data);
      if negb (is_number next (jget ack "next_offset")) || negb (is_number next (jget ack "total_bytes"))
      then athrow "capsule write acknowledgement mismatch" else mret (size, data)
  | _, _ => athrow "invalid bounded capsule chunk"
  end.
(** A chunk is not empty, so that the size of the file bounds their number. *)
Fixpoint copy_rest (fuel : nat) (source destination : Prepared) (session name : string) (max : Z) (exported : option Exported)
    (offset size : Z) (acc : list Z) : Exec (list Z) :=
  match fuel with
  | O => mret acc
  | S fuel =>
      if offset <? size then
        '(_, data) ← copy_chunk source destination session name max exported offset (Some size);
        copy_rest fuel source destination session name max exported (offset + Z.of_nat (length data)) size (acc ++ data)
      else mret acc
  end.
Definition copy_file (source destination : Prepared) (session name : string) (max : Z) (exported : option Exported) : Exec (list Z) :=
  '(size, data) ← copy_chunk source destination session name max exported 0 None;
  copy_rest (Z.to_nat size) source destination session name max exported (Z.of_nat (length data)) size data.

Definition exported_of (o : fields) : result string Exported :=
  match integer (jget o "bytes") 1 MAX_STATE, js_String <$> jget o "sha256", js_String <$> jget o "envelope_sha256" with
  | Some n, Some s, Some v =>
      if SHA256 s && SHA256 v then Ok {| ep_bytes := n; ep_sha256 := s; ep_envelope := v; ep_position := jget o "position" |}
      else Err "invalid native capsule descriptor"
  | _, _, _ => Err "invalid native capsule descriptor"
  end.

Definition transfer (source destination : Prepared) (session file : string) : Exec unit :=
  track session 0 file ;; track session 0 (file +:+ ".json") ;;
  o ← command source (C_export session file);
  exported ← of_result (exported_of o);
  bytes ← copy_file source destination session file MAX_STATE (Some exported);
  if negb (strict_eq (Some (JStr (sha256_hex bytes))) (jget o "sha256")) then athrow "capsule transport checksum mismatch" else
  manifest ← copy_file source destination session (file +:+ ".json") MAX_MANIFEST None;
  meta ← of_result (parse_object manifest);
  if negb (strict_eq (jget meta "envelope_sha256") (jget o "envelope_sha256")) ||
     negb (strict_eq (jget meta "sha256") (jget o "sha256")) || negb (strict_eq (jget meta "bytes") (jget o "bytes")) ||
     negb (is_string session (jget meta "session")) || negb (strict_eq (jget meta "position") (jget o "position"))
  then athrow "capsule manifest differs from export" else
  of_result (assertIdentity (jget meta "identity") (se_identity (pr_target source))).

(** The continuation on the second worker begins where the first one stopped. *)
Definition handover (source destination : Prepared) (session file : string) (position : Z) : Exec unit :=
  transfer source destination session file ;;
  throwIfAborted ;;
  imported ← request_worker (pr_target destination) (pr_port destination) (C_import session file) MAX_MANIFEST;
  if negb (is_number position (jget imported "position")) || negb (is_number 0 (jget imported "evaluated_tokens"))
  then athrow "state import did not acknowledge zero-replay continuation" else mret tt.

(** ** Decoding *)

(** [emit]: the caller has the token, or the wait for it was given up. *)
Definition emit_token (onToken : bool) (chunk : StageTokenChunk) : Exec unit :=
  if onToken then throwIfAborted ;; r ← ask (A_token chunk); of_result r else mret tt.

(** [more] tokens may still be generated. *)
Fixpoint decode_loop (onToken : bool) (l : list Prepared) (session : string) (more : nat) (position : Z) (out : Output)
    (decoder : Utf8) (ids text : list Z) : Exec (FinishReason * Utf8 * list Z * list Z) :=
  match more with
  | O => mret (f_length, decoder, ids, text)
  | S more =>
      throwIfAborted ;;
      if ou_isEog out then mret (f_stop, decoder, ids, text) else
      let '(piece, decoder) := decode_chunk decoder (ou_pieceBytes out) in
      let ids := ids ++ [ou_token out] in let text := text ++ piece in
      emit_token onToken {| tk_tokenId := Some (ou_token out); tk_text := piece |} ;;
      throwIfAborted ;;
      match more with
      | O => mret (f_length, decoder, ids, text)
      | S _ =>
          next ← pass l session position (inl [ou_token out]) 1;
          decode_loop onToken l session more (position + 1) next decoder ids text
      end
  end.

Definition tokenize (q : StageGenerationRequest) (maxTokens : Z) (first : Prepared) : Exec (list Z) :=
  o ← command first (match gq_prompt q with Some p => C_tokenize p | None => C_chat_tokens (default [] (gq_messages q)) end);
  match integers (jget o "tokens") 0 (VOCAB - 1) with
  | Some tokens =>
      if bool_decide (tokens = []) || (si_ctx (se_identity (pr_target first)) <? Z.of_nat (length tokens) + maxTokens)
      then athrow "invalid prompt tokens or context capacity exceeded" else mret tokens
  | None => athrow "invalid prompt tokens or context capacity exceeded"
  end.

(** Everything after the prompt is known; the workers hold state from here on. *)
Definition run_request (plan : StageExecutionPlan) (onToken : bool) (session : string) (maxTokens : Z) (l : list Prepared)
    (first : Prepared) (prompt : list Z) : Exec StageGenerationResult :=
  let file := session +:+ ".state" in
  '(position, last) ← prefill (if bool_decide (xp_mode plan = stages_mode) then l else [first]) session 0
                        (batches (length prompt) prompt) None;
  decoders ← (match xp_mode plan, l with
              | stages_mode, _ => mret l
              | prefill_decode_mode, _ :: second :: _ => handover first second session file position ;; mret [second]
              | prefill_decode_mode, _ => athrow "undefined is not an object"
              end);
  match last with
  | None => athrow "undefined is not an object"
  | Some out =>
      '(reason, decoder, ids, text) ← decode_loop onToken decoders session (Z.to_nat maxTokens) position out newUtf8 [] [];
      let tail := decode_end decoder in
      (if bool_decide (tail = []) then mret tt else emit_token onToken {| tk_tokenId := None; tk_text := tail |}) ;;
      mret {| gr_text := text ++ tail; gr_tokenIds := ids; gr_finishReason := reason;
              gr_promptTokens := Z.of_nat (length prompt); gr_completionTokens := Z.of_nat (length ids) |}
  end.

(** ** Cleanup *)

Definition failure_of (e : Prepared) (op : Operation) (why : string) : StageCleanupFailure :=
  {| cf_nodeId := se_nodeId (pr_target e); cf_port := se_port (pr_target e); cf_operation := op; cf_error := why |}.
Definition note (e : Prepared) (op : Operation) (r : result string unit) : list StageCleanupFailure :=
  match r with Ok _ => [] | Err why => [failure_of e op why] end.

Definition delete_capsule (e : Prepared) (session file : string) : Exec unit :=
  o ← request_worker (pr_target e) (pr_port e) (C_state_delete session file) MAX_RESPONSE;
  if strict_eq (jget o "deleted") (Some (JBool true)) then mret tt else athrow "capsule deletion was not acknowledged".
Definition reset_worker (e : Prepared) (session : string) : Exec unit :=
  request_worker (pr_target e) (pr_port e) (C_reset session) MAX_RESPONSE ;;
  status ← request_worker (pr_target e) (pr_port e) C_status MAX_RESPONSE;
  if is_string "" (jget status "session") && is_number 0 (jget status "position") then mret tt
  else athrow "reset did not clear native state".

Fixpoint delete_capsules (e : Prepared) (session : string) (files : list string) : Exec (list StageCleanupFailure) :=
  match files with
  | [] => mret []
  | f :: files =>
      r ← attempt (delete_capsule e session f);
      fs ← delete_capsules e session files;
      mret (note e o_state_delete r ++ fs)
  end.
Fixpoint cleanup (i : nat) (l : list Prepared) (session : string) : Exec (list StageCleanupFailure) :=
  match l with
  | [] => mret []
  | e :: l =>
      x ← lift mget;
      deletes ← delete_capsules e session (capsules session i x);
      r ← attempt (reset_worker e session);
      fs ← cleanup (S i) l session;
      mret (deletes ++ note e o_reset r ++ fs)
  end.

(** The deployment is withdrawn when its workers may hold state. *)
Definition withdraw (deploymentId : string) (failures : list StageCleanupFailure) : Exec (list StageCleanupFailure) :=
  if bool_decide (failures = []) then mret [] else
  lift (mmodify (fun x => set_unsafe ({[deploymentId]} ∪ x_unsafe x) x)) ;;
  r ← ask (A_unsafe deploymentId failures);
  mret (failures ++ match r with Ok _ => [] | Err why => [{| cf_nodeId := "control"; cf_port := 0; cf_operation := o_withdraw; cf_error := why |}] end).

(** The end of a call: what it throws carries the cleanup failures. *)
Definition release {A} (deploymentId : string) (r : result string A) (failures : list StageCleanupFailure) : Exec A :=
  lift (mmodify (fun x => set_active (x_active x ∖ {[deploymentId]}) x)) ;;
  match r, failures with
  | Err why, _ => athrow why
  | Ok a, [] => mret a
  | Ok _, _ :: _ => athrow "native cleanup failed; deployment withdrawn"
  end.

Definition acquire (plan : StageExecutionPlan) (q : StageGenerationRequest) : Sync Z :=
  match validatePlan plan, validateRequest q with
  | Err e, _ | Ok _, Err e => mthrow e
  | Ok _, Ok n =>
      m ← mget;
      if isBusy (xp_deploymentId plan) m then mthrow "native deployment is busy" else
      if bool_decide (xp_deploymentId plan ∈ x_unsafe m) then mthrow "native deployment requires recovery after unsafe cleanup" else
      mmodify (fun x => set_active ({[xp_deploymentId plan]} ∪ x_active x) x) ;;
      mret n
  end.

Definition generate (plan : StageExecutionPlan) (q : StageGenerationRequest) (onToken : bool) (session : string)
    : Exec StageGenerationResult :=
  let id := xp_deploymentId plan in
  maxTokens ← lift (acquire plan q);
  begun ← attempt (
    l ← prepare plan;
    match l with
    | [] => athrow "undefined is not an object"
    | first :: _ => prompt ← tokenize q maxTokens first; mret (l, first, prompt)
    end);
  match begun with
  | Err why => release id (Err why) []
  | Ok (l, first, prompt) =>
      r ← attempt (run_request plan onToken session maxTokens l first prompt);
      failures ← cleanup 0 l session;
      failures ← withdraw id failures;
      release id r failures
  end.
End execution.
