(* ===== verification/StageExecutionFacts.v ===== *)
(** * Native execution leaves nothing behind

    [owed] is what the workers may still hold after a list of asks: resident state on a worker, capsule files.  A call
    ends with nothing owed, or with its deployment withdrawn. *)

From S2P Require Import Prelude Async JsNum Json Types Validate Canon Utf8 Traces StageExecution.

Local Open Scope string_scope.
Local Open Scope list_scope.
Local Open Scope Z_scope.

(** ** Rules *)

Lemma hoare_attempt {A} (V : list (Event answer) -> forall w, answer w -> Prop) R P (x : Exec A) Q E E' :
  hoare V R P x Q E -> hoare V R P (attempt x) (fun r tr m => match r with Ok a => Q a tr m | Err e => E e tr m end) E'.
Proof.
  intros Hx. unfold attempt. eapply (hoare_catch _ _ _ _ E).
  - eapply hoare_bind; [exact Hx|]. intros a. by apply hoare_ret.
  - intros e. by apply hoare_ret.
Qed.
(** A command, by what its response means *)
Lemma hoare_fetch `{StageHost} (V : list (Event answer) -> forall w, answer w -> Prop) R t p c bound P Q E :
  (forall (a : answer (A_fetch t p c)) tr m m', P tr m -> R m m' -> V tr (A_fetch t p c) a ->
     post Q E (tr ++ [Ev (A_fetch t p c) a]) (command_result bound a) m') ->
  hoare V R P (request_worker t p c bound) Q E.
Proof. intros HQ tr m Hm. cbn. intros a m' HR HV. exact (HQ a tr m m' Hm HR HV). Qed.

Section owed.
Context `{StageHost}.

Record Owed := { ow_state : gset string; ow_files : gset (string * string) }.
Definition nothing : Owed := {| ow_state := ∅; ow_files := ∅ |}.

(** What a command does to the worker [k], whatever it answers, and what an answer clears *)
Definition may_hold (k : string) (c : Cmd) (o : Owed) : Owed :=
  match c with
  | C_eval _ _ _ | C_import _ _ => {| ow_state := {[k]} ∪ ow_state o; ow_files := ow_files o |}
  | C_export _ f => {| ow_state := {[k]} ∪ ow_state o; ow_files := {[(k, f); (k, f +:+ ".json")]} ∪ ow_files o |}
  | C_state_write _ f _ _ => {| ow_state := ow_state o; ow_files := {[(k, f)]} ∪ ow_files o |}
  | _ => o
  end.
Definition clears (k : string) (c : Cmd) (r : Response) (o : Owed) : Owed :=
  match c, command_result MAX_RESPONSE r with
  | C_status, Ok s =>
      if is_string "" (jget s "session") && is_number 0 (jget s "position")
      then {| ow_state := ow_state o ∖ {[k]}; ow_files := ow_files o |} else o
  | C_state_delete _ f, Ok s =>
      if strict_eq (jget s "deleted") (Some (JBool true))
      then {| ow_state := ow_state o; ow_files := ow_files o ∖ {[(k, f)]} |} else o
  | _, _ => o
  end.
Definition owed_event (o : Owed) (e : Event answer) : Owed :=
  match ev_ask e as w return answer w -> Owed with
  | A_fetch t _ c => fun r => clears (key t) c r (may_hold (key t) c o)
  | _ => fun _ => o
  end (ev_answer e).
Definition owed (tr : list (Event answer)) : Owed := foldl owed_event nothing tr.

Lemma owed_snoc tr e : owed (tr ++ [e]) = owed_event (owed tr) e.
Proof. unfold owed. by rewrite foldl_app. Qed.

Context (id session : string).

(** While a call waits, others leave its lease and its files alone. *)
Definition held (m m' : Executor) : Prop :=
  (id ∈ x_active m -> id ∈ x_active m') ∧ (id ∈ x_active m -> id ∈ x_unsafe m -> id ∈ x_unsafe m') ∧
  x_capsules m' !! session = x_capsules m !! session.
Definition anything (tr : list (Event answer)) (w : Ask) (a : answer w) : Prop := True.

Abbreviation triple := (hoare anything held).

Lemma capsules_held m m' i : held m m' -> capsules session i m' = capsules session i m.
Proof. intros (_ & _ & Hc). unfold capsules. by rewrite Hc. Qed.

(** What is owed is on the workers [l], in the files their indices are tracked for. *)
Definition within (i : nat) (l : list Prepared) (o : Owed) (m : Executor) : Prop :=
  (forall k, k ∈ ow_state o -> exists e, e ∈ l ∧ k = key (pr_target e)) ∧
  (forall k f, (k, f) ∈ ow_files o -> exists n e, l !! n = Some e ∧ k = key (pr_target e) ∧ f ∈ capsules session (i + n) m).

Lemma within_held i l o m m' : held m m' -> within i l o m -> within i l o m'.
Proof.
  intros Hh [H1 H2]. split; [done|]. intros k f Hk. destruct (H2 k f Hk) as (n & e & Hn & He & Hf).
  exists n, e. by rewrite (capsules_held m m').
Qed.
Lemma within_nil i o m : within i [] o m <-> o = nothing.
Proof.
  split; [|intros ->; by split]. intros [H1 H2]. destruct o as [s f]. unfold nothing. cbn in *. f_equal; apply set_eq.
  - intros k. split; [intros Hk|by intros ?%elem_of_empty]. destruct (H1 k Hk) as (e & He & _). by apply elem_of_nil in He.
  - intros [k g]. split; [intros Hk|by intros ?%elem_of_empty]. by destruct (H2 k g Hk) as (n & e & He & _).
Qed.

(** ** Commands of a request *)

Section request.
Context (l : list Prepared).

(** The lease is held, what is owed is on [l], and the files [fs] are tracked. *)
Definition B (fs : list (nat * string)) (tr : list (Event answer)) (m : Executor) : Prop :=
  id ∈ x_active m ∧ within 0 l (owed tr) m ∧ forall i f, (i, f) ∈ fs -> f ∈ capsules session i m.

Lemma B_held fs tr m m' : held m m' -> B fs tr m -> B fs tr m'.
Proof.
  intros Hh (H1 & H2 & H3). split; [by apply Hh|]. split; [by apply (within_held 0 l (owed tr) m)|].
  intros i f Hf. rewrite (capsules_held m m') by done. auto.
Qed.
Lemma B_fewer fs fs' tr m : (forall x, x ∈ fs' -> x ∈ fs) -> B fs tr m -> B fs' tr m.
Proof. intros Hs (H1 & H2 & H3). split_and!; auto. Qed.
Lemma B_none fs tr m : B fs tr m -> B [] tr m.
Proof. apply B_fewer. by intros x ?%elem_of_nil. Qed.

(** Commands whose traces are accounted for *)
Definition covered (fs : list (nat * string)) (e : Prepared) (c : Cmd) : Prop :=
  match c with
  | C_eval _ _ _ | C_import _ _ => e ∈ l
  | C_export _ f => l !! 0%nat = Some e ∧ (0%nat, f) ∈ fs ∧ (0%nat, f +:+ ".json") ∈ fs
  | C_state_write _ f _ _ => l !! 1%nat = Some e ∧ (1%nat, f) ∈ fs
  | _ => True
  end.

Lemma within_less o o' m i : ow_state o' ⊆ ow_state o -> ow_files o' ⊆ ow_files o -> within i l o m -> within i l o' m.
Proof. intros Hs Hf [H1 H2]. split; [intros k Hk; apply H1; set_solver|intros k f Hk; apply H2; set_solver]. Qed.
Lemma within_may fs e c o m : covered fs e c -> (forall i f, (i, f) ∈ fs -> f ∈ capsules session i m) ->
  within 0 l o m -> within 0 l (may_hold (key (pr_target e)) c o) m.
Proof.
  intros Hc Hfs [H1 H2]. destruct c; cbn [may_hold covered] in *; try done; split; cbn.
  - intros k [->%elem_of_singleton|Hk]%elem_of_union; [by exists e|auto].
  - exact H2.
  - destruct Hc as (He & _). intros k [->%elem_of_singleton|Hk]%elem_of_union; [exists e; split; [by eapply list_elem_of_lookup_2|done]|auto].
  - destruct Hc as (He & Hf1 & Hf2). intros k f Hk. apply elem_of_union in Hk as [Hk|Hk]; [|by apply H2]. exists 0%nat, e.
    rewrite elem_of_union, !elem_of_singleton in Hk. destruct Hk as [[= -> ->]|[= -> ->]]; auto.
  - exact H1.
  - destruct Hc as (He & Hf1). intros k f [[= -> ->]%elem_of_singleton|Hk]%elem_of_union; [|by apply H2]. exists 1%nat, e. auto.
  - intros k [->%elem_of_singleton|Hk]%elem_of_union; [by exists e|auto].
  - exact H2.
Qed.
Lemma within_clears k c r o m : within 0 l o m -> within 0 l (clears k c r o) m.
Proof.
  intros Ho. unfold clears. destruct c; try done; destruct (command_result _ r); try done; case_match; try done;
    (eapply within_less; [| |exact Ho]; cbn; set_solver).
Qed.

Definition safe {A} (fs : list (nat * string)) (x : Exec A) : Prop := triple (B fs) x (fun _ => B fs) (fun _ => B []).

Lemma safe_fetch fs e c : covered fs e c -> safe fs (ask (A_fetch (pr_target e) (pr_port e) c)).
Proof.
  intros Hc. apply hoare_ask. intros a tr m m' (H1 & H2 & H3) Hh _.
  apply (B_held fs _ m m' Hh). split; [done|]. split; [|done]. rewrite owed_snoc. unfold owed_event. cbn.
  by apply within_clears, (within_may fs).
Qed.
Lemma safe_other fs w : (match w with A_fetch _ _ _ => False | _ => True end) -> safe fs (ask w).
Proof.
  intros Hw. apply hoare_ask. intros a tr m m' (H1 & H2 & H3) Hh _. apply (B_held fs _ m m' Hh). split; [done|]. split; [|done].
  rewrite owed_snoc. by destruct w.
Qed.
Lemma safe_seq {A C} fs (x : Exec A) (f : A -> Exec C) : safe fs x -> (forall a, safe fs (f a)) -> safe fs (x ≫= f).
Proof. apply hoare_bind. Qed.
Lemma safe_ret {A} fs (a : A) : safe fs (mret a).
Proof. by apply hoare_ret. Qed.
Lemma safe_throw {A} fs e : safe fs (athrow (A := A) e).
Proof. apply hoare_throw. intros tr m. apply B_none. Qed.
Lemma safe_result {A} fs (r : result string A) : safe fs (of_result r).
Proof. apply hoare_result. intros tr m Hm. destruct r; [done|by eapply B_none]. Qed.
Lemma safe_if {A} fs (b : bool) (x y : Exec A) : safe fs x -> safe fs y -> safe fs (if b then x else y).
Proof. by destruct b. Qed.

#[local] Hint Resolve safe_ret safe_throw safe_result : safe.
Ltac safe := repeat first [ solve [auto with safe] | match goal with
  | |- forall _, _ => intros ?
  | |- safe _ (_ ≫= _) => apply safe_seq
  | |- safe _ (ask (A_fetch _ _ _)) => apply safe_fetch
  | |- safe _ (ask _) => apply safe_other; exact I
  | |- safe _ (if _ then _ else _) => apply safe_if
  | |- safe _ (match ?x with _ => _ end) => destruct x eqn:?
  end ].

Lemma safe_abort fs : safe fs throwIfAborted.
Proof. unfold throwIfAborted. safe. Qed.
#[local] Hint Resolve safe_abort : safe.
Lemma safe_request fs e c bound : covered fs e c -> safe fs (request_worker (pr_target e) (pr_port e) c bound).
Proof. intros Hc. unfold request_worker. safe. Qed.
Lemma safe_command fs e c : covered fs e c -> safe fs (command e c).
Proof. intros Hc. unfold command. apply safe_seq; [safe|]. intros _. by apply safe_request. Qed.
Lemma safe_eval_middle fs e s p x n : e ∈ l -> safe fs (eval_middle e s p x n).
Proof. intros He. unfold eval_middle. apply safe_seq; [by apply safe_command|]. safe. Qed.
Lemma safe_eval_last fs e s p x n : e ∈ l -> safe fs (eval_last e s p x n).
Proof. intros He. unfold eval_last. apply safe_seq; [by apply safe_command|]. safe. Qed.
Lemma safe_pass fs k : (forall e, e ∈ k -> e ∈ l) -> forall s p x n, safe fs (pass k s p x n).
Proof.
  induction k as [|e [|e' k] IH]; intros Hk s p x n; cbn [pass]; [safe|apply safe_eval_last, Hk; left|].
  apply safe_seq; [apply safe_eval_middle, Hk; left|]. intros a. apply IH. intros e0 He0. apply Hk. by right.
Qed.
Lemma safe_prefill fs k bs : (forall e, e ∈ k -> e ∈ l) -> forall s p o, safe fs (prefill k s p bs o).
Proof.
  intros Hk. induction bs as [|b bs IH]; intros s p o; cbn [prefill]; [safe|]. apply safe_seq; [by apply safe_pass|]. intros out. apply IH.
Qed.
Lemma safe_emit fs b c : safe fs (emit_token b c).
Proof. unfold emit_token. safe. Qed.
Lemma safe_decode fs b k s : (forall e, e ∈ k -> e ∈ l) -> forall n p o d ids t, safe fs (decode_loop b k s n p o d ids t).
Proof.
  intros Hk n. induction n as [|n IH]; intros p o d ids t; cbn [decode_loop]; [safe|].
  apply safe_seq; [safe|]. intros _. apply safe_if; [safe|]. destruct (decode_chunk d _) as [piece d'].
  apply safe_seq; [apply safe_emit|]. intros _. apply safe_seq; [safe|]. intros _. destruct n; [safe|].
  apply safe_seq; [by apply safe_pass|]. intros next. apply IH.
Qed.

(** *** The copy *)
Lemma track_adds fs i f : triple (B fs) (track session i f) (fun _ => B ((i, f) :: fs)) (fun _ => B []).
Proof.
  apply hoare_lift. intros tr m (H1 & H2 & H3). cbn. set (k := default [] (x_capsules m !! session)).
  assert (forall j g, g ∈ capsules session j m -> g ∈ capsules session j (if bool_decide ((i, f) ∈ k) then m
    else set_capsules (<[session := k ++ [(i, f)]]> (x_capsules m)) m)) as Hkeep.
  { intros j g Hg. case_bool_decide; [done|]. unfold capsules in *. cbn. rewrite lookup_insert_eq. cbn. fold k in Hg.
    rewrite List.filter_app, fmap_app. apply elem_of_app. by left. }
  split_and!.
  - by case_bool_decide.
  - destruct H2 as [H2 H4]. split; [done|]. intros k0 g Hk0. destruct (H4 k0 g Hk0) as (n & e & Hn & He & Hg). exists n, e. auto.
  - intros j g [[= -> ->]|Hg]%elem_of_cons; [|by auto]. case_bool_decide as Hin; unfold capsules; cbn.
    + fold k. apply list_elem_of_fmap. exists (i, f). split; [done|]. apply List_filter_elem. split; [done|]. apply Nat.eqb_refl.
    + rewrite lookup_insert_eq. cbn. rewrite List.filter_app, fmap_app. apply elem_of_app. right. cbn. rewrite Nat.eqb_refl. left.
Qed.
Lemma safe_fewer {A} fs fs' (x : Exec A) : (forall y, y ∈ fs -> y ∈ fs') -> triple (B fs') x (fun _ => B fs') (fun _ => B []) ->
  triple (B fs') x (fun _ => B fs) (fun _ => B []).
Proof. intros Hs Hx. eapply hoare_weaken; [exact Hx|done| |done]. intros a tr m. by apply B_fewer. Qed.
Lemma safe_track {A} fs i f (x : Exec A) : safe ((i, f) :: fs) x -> safe fs (track session i f ;; x).
Proof.
  intros Hx. eapply hoare_bind; [apply track_adds|]. intros []. apply safe_fewer; [by right|exact Hx].
Qed.

Lemma safe_chunk fs source destination name max x off size : l !! 1%nat = Some destination ->
  safe fs (copy_chunk source destination session name max x off size).
Proof.
  intros Hd. unfold copy_chunk. apply safe_seq; [by apply safe_command|]. intros read.
  destruct (integers _ _ _) as [data|]; [|safe]. destruct (integer _ _ _) as [total|]; [|safe]. cbv zeta.
  apply safe_if; [safe|]. apply safe_if; [safe|]. apply safe_if; [safe|]. apply safe_track.
  apply safe_seq; [|safe]. apply safe_command. split; [done|left].
Qed.
Lemma safe_rest fs source destination name max x fuel : l !! 1%nat = Some destination ->
  forall off size acc, safe fs (copy_rest fuel source destination session name max x off size acc).
Proof.
  intros Hd. induction fuel as [|fuel IH]; intros off size acc; cbn [copy_rest]; [safe|]. apply safe_if; [|safe].
  apply safe_seq; [by apply safe_chunk|]. intros [s data]. apply IH.
Qed.
Lemma safe_file fs source destination name max x : l !! 1%nat = Some destination ->
  safe fs (copy_file source destination session name max x).
Proof. intros Hd. unfold copy_file. apply safe_seq; [by apply safe_chunk|]. intros [s data]. by apply safe_rest. Qed.
Lemma safe_transfer fs source destination file : l !! 0%nat = Some source -> l !! 1%nat = Some destination ->
  safe fs (transfer source destination session file).
Proof.
  intros Hs Hd. unfold transfer. do 2 apply safe_track. apply safe_seq.
  { apply safe_command. split; [done|]. split; [right; left|left]. }
  intros o. apply safe_seq; [safe|]. intros x. apply safe_seq; [by apply safe_file|]. intros bytes. apply safe_if; [safe|].
  apply safe_seq; [by apply safe_file|]. intros manifest. apply safe_seq; [safe|]. intros meta. apply safe_if; [safe|]. safe.
Qed.
Lemma safe_handover fs source destination file p : l !! 0%nat = Some source -> l !! 1%nat = Some destination ->
  safe fs (handover source destination session file p).
Proof.
  intros Hs Hd. unfold handover. apply safe_seq; [by apply safe_transfer|]. intros _. apply safe_seq; [safe|]. intros _.
  apply safe_seq; [apply safe_request; by eapply list_elem_of_lookup_2|]. safe.
Qed.

Lemma safe_run plan b n first prompt : l !! 0%nat = Some first -> safe [] (run_request plan b session n l first prompt).
Proof.
  intros Hf. assert (first ∈ l) as Hin by (by eapply list_elem_of_lookup_2).
  unfold run_request. cbv zeta. apply safe_seq.
  { apply safe_prefill. destruct (bool_decide _); [done|]. by intros e ->%list_elem_of_singleton. }
  intros [p last]. apply (hoare_bind _ _ _ (fun k tr m => (forall e, e ∈ k -> e ∈ l) ∧ B [] tr m)).
  - destruct (xp_mode plan); [apply hoare_ret; by intros tr m|]. destruct l as [|a [|second k]] eqn:El; [by apply hoare_throw|by apply hoare_throw|].
    rewrite <-El in *. eapply hoare_bind; [apply safe_handover; [done|by rewrite El]|]. intros []. apply hoare_ret. intros tr m Hm.
    split; [|exact Hm]. intros e ->%list_elem_of_singleton. rewrite El. right; left.
  - intros k. apply hoare_pure. intros Hk. destruct last as [out|]; [|apply safe_throw].
    apply safe_seq; [by apply safe_decode|]. intros [[[reason d] ids] t]. apply safe_seq; [|safe].
    apply safe_if; [safe|apply safe_emit].
Qed.
End request.

(** ** Cleanup *)

Section cleanup.
Context (i : nat) (e : Prepared) (l : list Prepared).

(** The worker [e] is being cleaned: of its files [fs] are left. *)
Definition D (fs : list string) (tr : list (Event answer)) (m : Executor) : Prop :=
  (forall k, k ∈ ow_state (owed tr) -> exists e', e' ∈ e :: l ∧ k = key (pr_target e')) ∧
  (forall k f, (k, f) ∈ ow_files (owed tr) -> (k = key (pr_target e) ∧ f ∈ fs) \/
     exists n e', l !! n = Some e' ∧ k = key (pr_target e') ∧ f ∈ capsules session (S i + n) m).
Definition Act (p : Prop) (I : list (Event answer) -> Executor -> Prop) (tr : list (Event answer)) (m : Executor) : Prop :=
  id ∈ x_active m ∧ (p -> I tr m).

Lemma D_held fs tr m m' : held m m' -> D fs tr m -> D fs tr m'.
Proof.
  intros Hh [H1 H2]. split; [done|]. intros k f Hk. destruct (H2 k f Hk) as [?|(n & e' & Hn & He & Hf)]; [by left|right].
  exists n, e'. by rewrite (capsules_held m m').
Qed.

Lemma delete_one p f fs : triple (Act p (D (f :: fs))) (delete_capsule e session f) (fun _ => Act p (D fs)) (fun _ => Act False (D fs)).
Proof.
  unfold delete_capsule.
  apply (hoare_bind _ _ _ (fun (o : fields) tr m => id ∈ x_active m ∧
    (p -> strict_eq (jget o "deleted") (Some (JBool true)) = true -> D fs tr m))).
  - apply hoare_fetch. intros a tr m m' [H1 H2] Hh _. destruct (command_result _ a) as [o|why] eqn:Ho; (split; [by apply Hh|]); [|done].
    intros Hp Hdel. apply (D_held _ _ m m' Hh).
    specialize (H2 Hp) as [H3 H4]. unfold D. rewrite owed_snoc. unfold owed_event. cbn [ev_ask ev_answer may_hold].
    unfold clears. rewrite Ho, Hdel. cbn. split; [done|]. intros k g [Hk Hne]%elem_of_difference.
    destruct (H4 k g Hk) as [[-> Hg]|Hg]; [left|by right]. split; [done|]. apply elem_of_cons in Hg as [->|Hg]; [|done].
    by rewrite elem_of_singleton in Hne.
  - intros o. destruct (strict_eq _ _) eqn:Ed.
    + apply hoare_ret. intros tr m [H1 H2]. split; [done|]. auto.
    + apply hoare_throw. intros tr m [H1 _]. by split.
Qed.

Lemma delete_all p fs : triple (Act p (D fs)) (delete_capsules e session fs) (fun r => Act (p ∧ r = []) (D [])) (fun _ _ _ => False).
Proof.
  revert p. induction fs as [|f fs IH]; intros p; cbn [delete_capsules].
  - apply hoare_ret. intros tr m [H1 H2]. split; [done|]. intros [Hp _]. auto.
  - eapply hoare_bind; [apply hoare_attempt, (delete_one p f fs)|]. intros r. cbv beta.
    eapply (hoare_bind _ _ _ (fun x => Act ((p ∧ note e o_state_delete r = []) ∧ x = []) (D []))).
    + eapply hoare_weaken; [apply (IH (p ∧ note e o_state_delete r = []))| |done|done]. intros tr m. destruct r; intros [H1 H2].
      * split; [done|]. intros [Hp _]. auto.
      * split; [done|]. by intros [_ ?].
    + intros x. apply hoare_ret. intros tr m [H1 H2]. split; [done|]. intros [Hp [Hn Hx]%app_nil]. auto.
Qed.

Lemma reset_one p : triple (Act p (D [])) (reset_worker e session) (fun _ => Act p (fun tr => within (S i) l (owed tr)))
  (fun _ => Act False (D [])).
Proof.
  unfold reset_worker.
  apply (hoare_bind _ _ _ (fun _ => Act p (D []))).
  - apply hoare_fetch. intros a tr m m' [H1 H2] Hh _.
    assert (Act p (D []) (tr ++ [Ev (A_fetch (pr_target e) (pr_port e) (C_reset session)) a]) m') as Hm'.
    { split; [by apply Hh|]. intros Hp. apply (D_held _ _ m m' Hh). unfold D. rewrite owed_snoc. exact (H2 Hp). }
    destruct (command_result _ a); [exact Hm'|by destruct Hm'].
  - intros _. set (ok := fun s => is_string "" (jget s "session") && is_number 0 (jget s "position")).
    apply (hoare_bind _ _ _ (fun s tr m => id ∈ x_active m ∧ (p -> ok s = true -> within (S i) l (owed tr) m))).
    + apply hoare_fetch. intros a tr m m' [H1 H2] Hh _. destruct (command_result _ a) as [s|why] eqn:Hs; (split; [by apply Hh|]); [|done].
      intros Hp Hok. apply (within_held _ _ _ m m' Hh). specialize (H2 Hp) as [H3 H4]. rewrite owed_snoc. unfold owed_event.
      cbn [ev_ask ev_answer may_hold]. unfold clears. rewrite Hs. unfold ok in Hok. rewrite Hok. split; cbn.
      * intros k [Hk Hne]%elem_of_difference. destruct (H3 k Hk) as (e' & He & ->). apply elem_of_cons in He as [->|He]; [|by exists e'].
        by rewrite elem_of_singleton in Hne.
      * intros k f Hk. destruct (H4 k f Hk) as [[_ ?%elem_of_nil]|?]; [done|done].
    + intros s. fold (ok s). destruct (ok s) eqn:Ek.
      * apply hoare_ret. intros tr m [H1 H2]. split; [done|]. auto.
      * apply hoare_throw. intros tr m [H1 _]. by split.
Qed.
End cleanup.

Lemma cleanup_all l : forall i p, triple (Act p (fun tr => within i l (owed tr))) (cleanup i l session)
  (fun r => Act (p ∧ r = []) (fun tr _ => owed tr = nothing)) (fun _ _ _ => False).
Proof.
  induction l as [|e l IH]; intros i p; cbn [cleanup].
  - apply hoare_ret. intros tr m [H1 H2]. split; [done|]. intros [Hp _]. by apply (within_nil i _ m), H2.
  - apply (hoare_bind _ _ _ (fun x tr m => Act p (D i e l (capsules session i x)) tr m)).
    { apply hoare_lift. intros tr m [H1 H2]. cbn. split; [done|]. intros Hp. specialize (H2 Hp) as [H3 H4]. split; [done|].
      intros k f Hk. destruct (H4 k f Hk) as ([|n] & e' & Hn & He & Hf).
      - injection Hn as <-. left. split; [done|]. by rewrite Nat.add_0_r in Hf.
      - right. exists n, e'. split; [done|]. split; [done|]. by replace (S i + n)%nat with (i + S n)%nat by lia. }
    intros x. eapply hoare_bind; [apply delete_all|]. intros d. cbv beta.
    eapply hoare_bind; [apply hoare_attempt, (reset_one i e l (p ∧ d = []))|]. intros r. cbv beta.
    eapply (hoare_bind _ _ _ (fun y => Act (((p ∧ d = []) ∧ note e o_reset r = []) ∧ y = []) (fun tr _ => owed tr = nothing))).
    + eapply hoare_weaken; [apply (IH (S i) ((p ∧ d = []) ∧ note e o_reset r = []))| |done|done]. intros tr m.
      destruct r; intros [H1 H2]; (split; [done|]).
      * intros [Hp _]. auto.
      * by intros [_ ?].
    + intros y. apply hoare_ret. intros tr m [H1 H2]. split; [done|]. intros [Hp [Hd [Hn Hy]%app_nil]%app_nil]. auto.
Qed.

(** ** A whole call *)

Lemma safe_prepare_all ts : safe [] [] (prepare_all ts).
Proof.
  induction ts as [|t ts IH]; cbn [prepare_all]; [apply safe_ret|]. apply safe_seq; [|intros e; apply safe_seq; [exact IH|intros es; apply safe_ret]].
  unfold prepare_one. apply safe_seq; [by apply safe_other|]. intros r. apply safe_seq; [apply safe_result|]. intros port. cbv zeta.
  apply safe_seq; [by apply safe_command|]. intros status. apply safe_seq; [apply safe_result|]. intros _.
  apply safe_if; [apply safe_throw|]. apply safe_if; [apply safe_throw|apply safe_ret].
Qed.
Lemma safe_prepare plan : safe [] [] (prepare plan).
Proof.
  unfold prepare. apply safe_seq; [apply safe_prepare_all|]. intros k. apply safe_if; [apply safe_throw|apply safe_ret].
Qed.
Lemma safe_tokenize q n first : safe [] [] (tokenize q n first).
Proof.
  unfold tokenize. apply safe_seq; [apply safe_command; by destruct (gq_prompt q)|]. intros o.
  destruct (integers _ _ _) as [tokens|]; [|apply safe_throw]. apply safe_if; [apply safe_throw|apply safe_ret].
Qed.

Definition asked (tr : list (Event answer)) : Prop := exists failures a, failures <> [] ∧ Ev (A_unsafe id failures) a ∈ tr.
Definition withdrawn (tr : list (Event answer)) (m : Executor) : Prop := id ∈ x_unsafe m ∧ asked tr.

Lemma withdraw_ok failures : triple (fun tr m => id ∈ x_active m ∧ (failures = [] -> owed tr = nothing)) (withdraw id failures)
  (fun fs tr m => id ∈ x_active m ∧ ((fs = [] ∧ owed tr = nothing) \/ (fs <> [] ∧ withdrawn tr m))) (fun _ _ _ => False).
Proof.
  unfold withdraw. case_bool_decide as Hf.
  - apply hoare_ret. intros tr m [H1 H2]. auto.
  - apply (hoare_bind _ _ _ (fun _ tr m => id ∈ x_active m ∧ id ∈ x_unsafe m)).
    { apply hoare_lift. intros tr m [H1 _]. cbn. set_solver. }
    intros _. apply (hoare_bind _ _ _ (fun (_ : answer (A_unsafe id failures)) tr m => id ∈ x_active m ∧ withdrawn tr m)).
    { apply hoare_ask. intros a tr m m' [H1 H2] (Hh1 & Hh2 & _) _. split; [auto|]. split; [auto|]. exists failures, a.
      split; [done|]. apply elem_of_app. right. left. }
    intros r. apply hoare_ret. intros tr m [H1 H2]. split; [done|]. right. split; [|done]. by destruct failures.
Qed.

Definition settled_call {A} (r : result string A) (tr : list (Event answer)) (m : Executor) : Prop :=
  (owed tr = nothing \/ withdrawn tr m) ∧ (is_ok r = true -> owed tr = nothing) ∧ (tr = [] \/ id ∉ x_active m).

Lemma release_ok {A} (r : result string A) fs : triple
  (fun tr m => (fs = [] ∧ owed tr = nothing) \/ (fs <> [] ∧ withdrawn tr m)) (release id r fs)
  (fun a => settled_call (Ok a)) (fun e => settled_call (A := A) (Err e)).
Proof.
  unfold release. apply (hoare_bind _ _ _ (fun _ tr m => ((fs = [] ∧ owed tr = nothing) \/ (fs <> [] ∧ withdrawn tr m)) ∧ id ∉ x_active m)).
  { apply hoare_lift. intros tr m Hm. cbn. split; [exact Hm|set_solver]. }
  intros _. unfold settled_call. destruct r as [a|e].
  - destruct fs; [apply hoare_ret|apply hoare_throw]; intros tr m [[[? ?]|[? ?]] Hn]; split_and!; auto; done.
  - apply hoare_throw. intros tr m [[[? ?]|[? ?]] Hn]; split_and!; auto; done.
Qed.
End owed.

Lemma generate_settles `{StageHost} plan q onToken session :
  hoare anything (held (xp_deploymentId plan) session) (fun tr _ => tr = []) (generate plan q onToken session)
    (fun a => settled_call (xp_deploymentId plan) (Ok a)) (fun e => settled_call (A := StageGenerationResult) (xp_deploymentId plan) (Err e)).
Proof.
  set (id := xp_deploymentId plan). unfold generate. cbv zeta.
  apply (hoare_bind _ _ _ (fun _ => B id session [] [])).
  { apply hoare_lift. intros tr m ->. unfold acquire.
    assert (forall e, settled_call (A := StageGenerationResult) id (Err e) [] m) as He by (intros e; split_and!; auto; done).
    destruct (validatePlan plan); [|apply He]. destruct (validateRequest q); [|apply He].
    unfold mbind at 1, M_bind at 1, mget. cbv beta iota. destruct (isBusy _ _); [apply He|]. case_bool_decide; [apply He|].
    cbn. split; [cbn; fold id; set_solver|]. split; [by apply within_nil|]. by intros i f ?%elem_of_nil. }
  intros n. apply (hoare_bind _ _ _ (fun r tr m => match r with
    | Ok x => x.1.1 !! 0%nat = Some x.1.2 ∧ B id session [] [] tr m | Err _ => B id session [] [] tr m end)).
  { apply (hoare_attempt _ _ (B id session [] []) _ (fun x tr m => x.1.1 !! 0%nat = Some x.1.2 ∧ B id session [] [] tr m)
      (fun _ => B id session [] [])).
    apply (hoare_bind _ _ _ (fun _ => B id session [] [])); [apply safe_prepare|]. intros [|first k].
    - by apply hoare_throw.
    - apply (hoare_bind _ _ _ (fun _ => B id session [] [])); [apply safe_tokenize|]. intros prompt.
      apply hoare_ret. by intros tr m. }
  cbv beta. intros [[[l first] prompt]|why].
  - cbn [fst]. apply hoare_pure. intros Hl.
    apply (hoare_bind _ _ _ (fun _ => B id session l [])).
    { eapply hoare_weaken; [apply hoare_attempt, (safe_run id session l plan onToken n first prompt Hl)| |by intros [?|?] ? ?|intros e tr m Hm; exact Hm].
      intros tr m (H1 & H2 & H3). split_and!; [done| |done]. apply within_nil in H2. rewrite H2. split; cbn; set_solver. }
    intros r. eapply hoare_bind.
    { eapply hoare_weaken; [apply (cleanup_all id session l 0 True)| |intros a tr m Hm; exact Hm|by intros ? ? ?].
      intros tr m (H1 & H2 & _). by split. }
    intros fs. cbv beta. eapply hoare_bind.
    { eapply hoare_weaken; [apply (withdraw_ok id session fs)| |intros a tr m Hm; exact Hm|by intros ? ? ?].
      intros tr m [H1 H2]. split; [done|]. intros ->. auto. }
    intros fs'. cbv beta. eapply hoare_weaken; [apply (release_ok id session r fs')| |done|done]. by intros tr m [_ ?].
  - eapply hoare_weaken; [apply (release_ok id session (Err why) [])| |done|done]. intros tr m (_ & H2 & _). left. split; [done|].
    by apply within_nil in H2.
Qed.

(** C4: A call leaves nothing behind.  Whatever the tunnels, the workers, the caller and the abort signal answer, and whatever
    other calls do meanwhile: when a call ends, every worker it fed has acknowledged that its state is empty and every
    capsule file it may have created is deleted, or else the deployment is marked unsafe and the manager was told
    to withdraw it; a call that returns a result left nothing; and the lease is given back. *)
Theorem generate_leaves_nothing `{StageHost} plan q onToken session m tr r m' :
  let id := xp_deploymentId plan in
  plays anything (held id session) [] (generate plan q onToken session m).1 (generate plan q onToken session m).2 tr r m' ->
  (owed tr = nothing \/ id ∈ x_unsafe m' ∧ exists failures a, failures <> [] ∧ Ev (A_unsafe id failures) a ∈ tr) ∧
  (is_ok r = true -> owed tr = nothing) ∧ (tr = [] \/ id ∉ x_active m').
Proof.
  intros id Hp. pose proof (hoare_plays _ _ _ _ _ _ [] m tr r m' (generate_settles plan q onToken session) eq_refl Hp) as Hr.
  destruct r; exact Hr.
Qed.

(** ** Two workers of twelve layers each *)

Section demo.
Definition hex64 (c : string) : string := foldr (fun _ s => c +:+ s) "" (seq 0 64).
Definition demo_stage (start end_ : string) : NativeStageIdentity :=
  {| si_schema := 1; si_engine := hex64 "a"; si_model_sha256 := hex64 "b"; si_source_sha256 := hex64 "c"; si_ctx := 4096;
     si_cache_k := "f32"; si_cache_v := "f32"; si_ubatch := 1; si_flash_attn := "disabled"; si_stage_start := start;
     si_stage_end := end_; si_stage_total := "24" |}.
Definition demo_worker (node start end_ : string) : NativeStageEndpoint :=
  {| se_nodeId := node; se_port := 9001; se_identity := demo_stage start end_; se_binarySha256 := hex64 "d" |}.
Definition demo_plan : StageExecutionPlan :=
  {| xp_deploymentId := "d"; xp_mode := stages_mode; xp_profile := "qwen35-2b-q8";
     xp_endpoints := [demo_worker "n1" "0" "12"; demo_worker "n2" "12" "24"]; xp_qualification := None |}.
Definition demo_ask : StageGenerationRequest :=
  {| gq_prompt := Some "hello"; gq_messages := None; gq_maxTokens := num_of_Z 1; gq_temperature := None |}.

Definition demo_status (start end_ session : string) : json :=
  JObj [("identity", JObj (identity_fields (demo_stage start end_))); ("n_embd", JNum (num_of_Z EMBEDDING));
        ("n_vocab", JNum (num_of_Z VOCAB)); ("binary_sha256", JStr (hex64 "d")); ("session", JStr session);
        ("position", JNum num_zero)].
Definition demo_text (s : string) : option json :=
  if String.eqb s "s" then Some (demo_status "0" "12" "")
  else if String.eqb s "S" then Some (demo_status "12" "24" "")
  else if String.eqb s "t" then Some (JObj [("tokens", JArr [JNum (num_of_Z 5); JNum (num_of_Z 6)])])
  else if String.eqb s "a" then Some (JObj [("position", JNum (num_of_Z 2)); ("activations", JArr (replicate 4096 (JNum num_zero)))])
  else if String.eqb s "o" then Some (JObj [("position", JNum (num_of_Z 2)); ("token", JNum (num_of_Z 7)); ("isEog", JBool false);
                                            ("pieceBytes", JArr [JNum (num_of_Z 104)])])
  else if String.eqb s "r" then Some (JObj []) else None.
#[local] Instance demo_host : StageHost :=
  {| sh_json := {| num_string := fun n => pretty (default 0 (as_int n)); JSON_parse := demo_text |};
     Number_of := fun s => num_of_Z (if String.eqb s "0" then 0 else if String.eqb s "12" then 12 else 24);
     sha256_hex := fun _ => "" |}.

Definition demo_body (n1 : bool) (c : Cmd) : list Z :=
  match c with
  | C_status => [if n1 then 115 else 83]
  | C_tokenize _ => [116]
  | C_eval _ _ _ => [if n1 then 97 else 111]
  | _ => [114]
  end.
(** The workers answer, the second one not to a reset if [lost]. *)
Definition demo_answers (lost : bool) (tr : list (Event answer)) (w : Ask) : answer w :=
  match w with
  | A_port _ _ => Ok 40000
  | A_fetch t _ c =>
      let n1 := String.eqb (se_nodeId t) "n1" in
      match c with C_reset _ => if lost && negb n1 then Failed "timed out" else Body true 200 [demo_body n1 c] None
      | _ => Body true 200 [demo_body n1 c] None end
  | A_aborted => None
  | A_token _ => Ok tt
  | A_unsafe _ _ => Ok tt
  end.
Abbreviation demo_run lost :=
  (run (demo_answers lost) [] (generate demo_plan demo_ask false "x" newExecutor).1 (generate demo_plan demo_ask false "x" newExecutor).2).

Example demo_result : (demo_run false).1.2 =
  Ok {| gr_text := [104]; gr_tokenIds := [7]; gr_finishReason := f_length; gr_promptTokens := 2; gr_completionTokens := 1 |}.
Proof. vm_compute. reflexivity. Qed.
Example demo_lost : (demo_run true).1.2 = Err "native cleanup failed; deployment withdrawn" ∧
  bool_decide ("d" ∈ x_unsafe (demo_run true).2) = true.
Proof. split; vm_compute; reflexivity. Qed.

Lemma held_refl id session m : held id session m m.
Proof. done. Qed.
Lemma generate_leaves_nothing_witness :
  plays anything (held "d" "x") [] (generate demo_plan demo_ask false "x" newExecutor).1
    (generate demo_plan demo_ask false "x" newExecutor).2 (demo_run false).1.1 (demo_run false).1.2 (demo_run false).2 ∧
  owed (demo_run false).1.1 = nothing.
Proof.
  assert (plays anything (held "d" "x") [] (generate demo_plan demo_ask false "x" newExecutor).1
    (generate demo_plan demo_ask false "x" newExecutor).2 (demo_run false).1.1 (demo_run false).1.2 (demo_run false).2) as Hp
    by (apply run_plays; [apply held_refl|done]).
  split; [exact Hp|].
  apply (generate_leaves_nothing demo_plan demo_ask false "x" newExecutor (demo_run false).1.1 (demo_run false).1.2 (demo_run false).2 Hp).
  rewrite demo_result. reflexivity.
Defined.
End demo.
