(* ===== verification/StageDecode.v ===== *)
(** * Native execution decodes greedily

    The workers as deterministic machines: [answer_of k h] is what the worker [k] answers after the inputs [h].  With such
    workers, a call returns the greedy continuation of the prompt by the stages composed: each worker is given every batch
    once and in order, each stage the activations of the one before it, and a copied state stands for the inputs it was
    made from. *)

From S2P Require Import Prelude Async JsNum Json Types Validate Canon Utf8 Traces StageExecution StageExecutionFacts.

Local Open Scope string_scope.
Local Open Scope list_scope.
Local Open Scope Z_scope.

Section decode.
Context `{StageHost}.

(** ** The workers *)

(** An input with its session and its position *)
Definition Feed : Type := string * Z * (list Z + list json).
Record Worker := { w_fed : list Feed; w_files : gmap string (list Z) }.
Definition idle : Worker := {| w_fed := []; w_files := ∅ |}.

(** [answer_of k h] is the response of [k] to the last of the inputs [h]; [capsule] is the file of a state, [manifest] the
    one beside it, [restore] what an import makes of a file; [prompt] is what the first worker makes of the request. *)
Record Engine := {
  answer_of : string -> list Feed -> fields;
  capsule : list Feed -> list Z;
  manifest : list Feed -> list Z;
  restore : list Z -> list Feed;
  prompt_tokens : list Z }.
Context (en : Engine).

Definition set_file (f : string) (b : list Z) (w : Worker) : Worker := {| w_fed := w_fed w; w_files := <[f := b]> (w_files w) |}.
Definition work (c : Cmd) (w : Worker) : Worker :=
  match c with
  | C_eval s p x => {| w_fed := w_fed w ++ [(s, p, x)]; w_files := w_files w |}
  | C_export _ f => set_file (f +:+ ".json") (manifest en (w_fed w)) (set_file f (capsule en (w_fed w)) w)
  | C_state_write _ f off data => set_file f (take (Z.to_nat off) (default [] (w_files w !! f)) ++ data) w
  | C_import _ f => {| w_fed := restore en (default [] (w_files w !! f)); w_files := w_files w |}
  | C_state_delete _ f => {| w_fed := w_fed w; w_files := delete f (w_files w) |}
  | C_reset _ => {| w_fed := []; w_files := w_files w |}
  | C_status | C_tokenize _ | C_chat_tokens _ | C_state_read _ _ _ => w
  end.
Definition observe (k : string) (w : Worker) (ev : Event answer) : Worker :=
  match ev_ask ev with A_fetch t _ c => if String.eqb (key t) k then work c w else w | _ => w end.
(** The worker [k] after the asks [tr] *)
Definition worker_of (tr : list (Event answer)) (k : string) : Worker := foldl (observe k) idle tr.

(** What a response without an error says *)
Definition says (k : string) (w : Worker) (c : Cmd) (o : fields) : Prop :=
  match c with
  | C_eval s p x => o = answer_of en k (w_fed w ++ [(s, p, x)])
  | C_tokenize _ | C_chat_tokens _ => forall l, integers (jget o "tokens") 0 (VOCAB - 1) = Some l -> l = prompt_tokens en
  | C_state_read _ f off => forall b, w_files w !! f = Some b ->
      (forall d, integers (jget o "data") 0 255 = Some d -> exists n, d = take n (drop (Z.to_nat off) b)) ∧
      (forall max z, integer (jget o "total_bytes") 1 max = Some z -> z = Z.of_nat (length b))
  | _ => True
  end.
Definition honest (tr : list (Event answer)) (w : Ask) : answer w -> Prop :=
  match w with
  | A_fetch t _ c => fun a => forall bound o, command_result bound a = Ok o -> says (key t) (worker_of tr (key t)) c o
  | _ => fun _ => True
  end.
(** What the caller was given *)
Definition given (tr : list (Event answer)) : list StageTokenChunk :=
  omap (fun ev => match ev_ask ev with A_token c => Some c | _ => None end) tr.

(** ** The reference *)

(** The inputs of the stage after [k], whose inputs are [h] *)
Definition acts (o : fields) : list json := default [] (as_arr (jget o "activations")).
Fixpoint pushed_from (k : string) (before h : list Feed) : list Feed :=
  match h with
  | [] => []
  | x :: h => (x.1, inr (acts (answer_of en k (before ++ [x])))) :: pushed_from k (before ++ [x]) h
  end.
Definition pushed (k : string) (h : list Feed) : list Feed := pushed_from k [] h.

(** The stages composed, on the inputs of the first *)
Fixpoint whole (ks : list string) (h : list Feed) : option Output :=
  match ks with
  | [] => None
  | [k] => match output_of (answer_of en k h) with Ok out => Some out | Err _ => None end
  | k :: ks => whole ks (pushed k h)
  end.

Fixpoint feeds (session : string) (position : Z) (bs : list (list Z)) : list Feed :=
  match bs with
  | [] => []
  | b :: bs => (session, position, inl b) :: feeds session (position + Z.of_nat (length b)) bs
  end.

(** At most [more] tokens after the inputs [h] *)
Fixpoint greedy (ks : list string) (session : string) (more : nat) (h : list Feed) (position : Z) : list Output * FinishReason :=
  match more, whole ks h with
  | S more, Some out =>
      if ou_isEog out then ([], f_stop) else
      let '(outs, r) := greedy ks session more (h ++ [(session, position, inl [ou_token out])]) (position + 1) in (out :: outs, r)
  | _, _ => ([], f_length)
  end.

Lemma worker_snoc tr ev k : worker_of (tr ++ [ev]) k = observe k (worker_of tr k) ev.
Proof. unfold worker_of. by rewrite foldl_app. Qed.
Lemma given_tokens_snoc tr ev : given (tr ++ [ev]) = given tr ++ match ev_ask ev with A_token c => [c] | _ => [] end.
Proof. unfold given. rewrite omap_app. cbn. by destruct (ev_ask ev). Qed.
Lemma pushed_snoc k h x : pushed k (h ++ [x]) = pushed k h ++ [(x.1, inr (acts (answer_of en k (h ++ [x]))))].
Proof.
  unfold pushed. assert (forall b, pushed_from k b (h ++ [x]) =
    pushed_from k b h ++ [(x.1, inr (acts (answer_of en k (b ++ h ++ [x]))))]) as Hb; [|exact (Hb [])].
  induction h as [|y h IH]; intros b; cbn; [done|]. f_equal. rewrite IH. by rewrite <-!app_assoc.
Qed.

(** ** Triples over the workers *)

Definition anyone (m m' : Executor) : Prop := True.
(** The workers [F] and what was given *)
Definition At (F : list (string * Worker)) (G : list StageTokenChunk) (tr : list (Event answer)) (m : Executor) : Prop :=
  Forall (fun x => worker_of tr x.1 = x.2) F ∧ given tr = G.
Definition whatever (e : string) (tr : list (Event answer)) (m : Executor) : Prop := True.
Abbreviation runs P x Q := (hoare honest anyone P x Q whatever).

Lemma runs_seq {A C} P (I : A -> _ -> _ -> Prop) (Q : C -> _ -> _ -> Prop) (x : Exec A) f :
  runs P x I -> (forall a, runs (I a) (f a) Q) -> runs P (x ≫= f) Q.
Proof. apply hoare_bind. Qed.
Lemma runs_throw {A} P e (Q : A -> _ -> _ -> Prop) : runs P (athrow e) Q.
Proof. by apply hoare_throw. Qed.
Lemma runs_result {A} P (r : result string A) (Q : A -> _ -> _ -> Prop) :
  (forall a, r = Ok a -> forall tr m, P tr m -> Q a tr m) -> runs P (of_result r) Q.
Proof. intros HQ. apply hoare_result. intros tr m Hm. destruct r; cbn; [by apply HQ|done]. Qed.
Lemma runs_check {A} P (r : result string A) : runs P (of_result r) (fun _ => P).
Proof. by apply runs_result. Qed.
Lemma runs_lift {A} (x : Sync A) F G : runs (At F G) (lift x) (fun _ => At F G).
Proof. apply hoare_lift. intros tr m Hm. by destruct (x m) as [[a|e] m']. Qed.
(** What is asked of neither a worker nor the caller changes nothing. *)
Lemma runs_other w F G : match w with A_fetch _ _ _ | A_token _ => False | _ => True end ->
  runs (At F G) (ask w) (fun (_ : answer w) => At F G).
Proof.
  intros Hw. apply hoare_ask. intros a tr m m' [H1 H2] _ _. split; [|rewrite given_tokens_snoc, H2; destruct w; by rewrite ?app_nil_r].
  eapply Forall_impl; [exact H1|]. intros [k x] Hx. rewrite worker_snoc. by destruct w.
Qed.
Lemma runs_abort F G : runs (At F G) throwIfAborted (fun _ => At F G).
Proof.
  unfold throwIfAborted. eapply runs_seq; [by apply runs_other|]. intros [e|]; [apply runs_throw|by apply hoare_ret].
Qed.

(** A command to a worker of the list *)
Lemma runs_request F1 F2 e c w G bound : let k := key (pr_target e) in NoDup ((F1 ++ (k, w) :: F2).*1) ->
  runs (At (F1 ++ (k, w) :: F2) G) (request_worker (pr_target e) (pr_port e) c bound)
    (fun o tr m => says k w c o ∧ At (F1 ++ (k, work c w) :: F2) G tr m).
Proof.
  intros k Hnd. apply hoare_fetch. intros a tr m m' [HF HG] _ Hh.
  apply Forall_app in HF as [HF1 [Hk HF2]%Forall_cons]. cbn in Hk.
  rewrite fmap_app in Hnd. cbn [fmap list_fmap fst] in Hnd. apply NoDup_app in Hnd as (Hn1 & Hn2 & Hn3). apply NoDup_cons in Hn3 as [Hn3 Hn4].
  cbn [honest] in Hh. fold k in Hh. rewrite Hk in Hh.
  destruct (command_result bound a) as [o|why] eqn:Ho; [|exact I]. cbn [post]. split; [by apply (Hh bound)|].
  split; [|rewrite given_tokens_snoc, HG; by rewrite app_nil_r].
  assert (forall F, k ∉ F.*1 -> Forall (fun x => worker_of tr x.1 = x.2) F ->
    Forall (fun x => worker_of (tr ++ [Ev (A_fetch (pr_target e) (pr_port e) c) a]) x.1 = x.2) F) as Hframe.
  { intros F Hin. rewrite !Forall_forall. intros HF x Hx. rewrite worker_snoc. unfold observe. cbn [ev_ask]. fold k.
    rewrite (proj2 (String.eqb_neq k x.1)); [by apply HF|]. intros ->. apply Hin. apply list_elem_of_fmap. by exists x. }
  apply Forall_app. split; [|constructor].
  - apply Hframe; [|done]. intros Hin. apply (Hn2 k Hin). left.
  - cbn. rewrite worker_snoc. unfold observe. cbn [ev_ask]. fold k. by rewrite String.eqb_refl, Hk.
  - by apply Hframe.
Qed.
Lemma runs_command F1 F2 e c w G : let k := key (pr_target e) in NoDup ((F1 ++ (k, w) :: F2).*1) ->
  runs (At (F1 ++ (k, w) :: F2) G) (command e c) (fun o tr m => says k w c o ∧ At (F1 ++ (k, work c w) :: F2) G tr m).
Proof. intros k Hnd. unfold command. eapply runs_seq; [apply runs_abort|]. intros ?. by apply runs_request. Qed.

(** ** A batch through the stages *)

(** The workers [kfs], with their files, when the first has had the inputs [h] *)
Fixpoint flow (kfs : list (string * gmap string (list Z))) (h : list Feed) : list (string * Worker) :=
  match kfs with
  | [] => []
  | (k, fs) :: kfs => (k, {| w_fed := h; w_files := fs |}) :: flow kfs (pushed k h)
  end.
Lemma flow_keys kfs : forall h, (flow kfs h).*1 = kfs.*1.
Proof. induction kfs as [|[k fs] kfs IH]; intros h; cbn; [done|]. f_equal. apply IH. Qed.
Lemma flow_NoDup kfs h : NoDup (kfs.*1) -> NoDup (([] ++ flow kfs h).*1).
Proof. cbn [app]. by rewrite flow_keys. Qed.
Lemma activations_acts out n l : activations_of out n = Ok l -> l = acts out.
Proof. unfold activations_of, acts. destruct (as_arr _) as [l'|]; [|done]. case_match; [|done]. by intros [= ->]. Qed.

Definition the_keys (l : list Prepared) : list string := (fun e => key (pr_target e)) <$> l.

Lemma runs_pass l s p n G : forall F kfs h x, kfs.*1 = the_keys l -> NoDup ((F ++ flow kfs h).*1) ->
  runs (At (F ++ flow kfs h) G) (pass l s p x n)
    (fun out tr m => whole (the_keys l) (h ++ [(s, p, x)]) = Some out ∧ At (F ++ flow kfs (h ++ [(s, p, x)])) G tr m).
Proof.
  induction l as [|e l IH]; intros F kfs h x Hk Hnd; [apply runs_throw|].
  destruct kfs as [|[k fs] kfs]; [done|]. injection Hk as -> Hk. set (k := key (pr_target e)) in *.
  cbn [flow] in *. set (w := {| w_fed := h; w_files := fs |}) in *. destruct l as [|e' l].
  - cbn [pass the_keys fmap list_fmap whole]. destruct kfs; [|done]. unfold eval_last.
    eapply runs_seq; [by apply runs_command|]. intros o. cbv beta. apply hoare_pure. intros Ho.
    eapply runs_seq; [apply runs_check|]. intros ?. cbv beta.
    change (o = answer_of en k (h ++ [(s, p, x)])) in Ho. subst o.
    apply runs_result. intros out Hout tr m Hm. split; [|exact Hm]. fold k. by rewrite Hout.
  - change (pass (e :: e' :: l) s p x n) with (a ← eval_middle e s p x n; pass (e' :: l) s p (inr a) n).
    change (the_keys (e :: e' :: l)) with (k :: the_keys (e' :: l)).
    assert (forall h', whole (k :: the_keys (e' :: l)) h' = whole (the_keys (e' :: l)) (pushed k h')) as Hw by done.
    rewrite Hw, pushed_snoc. cbn [fst].
    set (F' := F ++ [(k, work (C_eval s p x) w)]).
    apply (runs_seq _ (fun a tr m => a = acts (answer_of en k (h ++ [(s, p, x)])) ∧ At (F' ++ flow kfs (pushed k h)) G tr m)).
    + unfold eval_middle. eapply runs_seq; [by apply runs_command|]. intros o. cbv beta. apply hoare_pure. intros Ho.
      eapply runs_seq; [apply runs_check|]. intros ?. cbv beta.
      change (o = answer_of en k (h ++ [(s, p, x)])) in Ho. subst o.
      apply runs_result. intros ? Ha tr m Hm. split; [by apply activations_acts in Ha|unfold F'; by rewrite <-app_assoc].
    + intros a. apply hoare_pure. intros ->.
      eapply hoare_weaken; [apply (IH F' kfs (pushed k h)); [done|]|by intros tr m Hm| |done].
      * unfold F'. rewrite !fmap_app in *. cbn in *. by rewrite <-app_assoc.
      * intros out tr m [Hm1 Hm2]. split; [exact Hm1|]. unfold F' in Hm2. by rewrite <-app_assoc in Hm2.
Qed.

Lemma runs_prefill l s bs F : forall p kfs h last, kfs.*1 = the_keys l -> (forall h, NoDup ((F ++ flow kfs h).*1)) -> forall G,
  runs (At (F ++ flow kfs h) G) (prefill l s p bs last)
    (fun r tr m => (r.1 = p + Z.of_nat (length (mjoin bs)) ∧
       r.2 = match bs with [] => last | _ => whole (the_keys l) (h ++ feeds s p bs) end) ∧ At (F ++ flow kfs (h ++ feeds s p bs)) G tr m).
Proof.
  induction bs as [|b bs IH]; intros p kfs h last Hk Hnd G; cbn [prefill feeds].
  - apply hoare_ret. intros tr m Hm. cbn. rewrite app_nil_r. split; [split; [lia|done]|exact Hm].
  - eapply runs_seq; [by apply (runs_pass l s p (Z.of_nat (length b)) G F kfs h (inl b) Hk)|].
    intros out. cbv beta. apply hoare_pure. intros Hout.
    eapply hoare_weaken; [apply (IH _ kfs (h ++ [(s, p, inl b)]) (Some out) Hk Hnd)|intros tr m Hm; exact Hm| |done].
    intros r tr m [[Hr1 Hr2] Hm]. rewrite <-app_assoc in *. split; [|exact Hm]. split.
    + change (mjoin (b :: bs)) with (b ++ mjoin bs). rewrite length_app. lia.
    + rewrite Hr2. by destruct bs.
Qed.

(** ** Decoding *)

(** The texts of the pieces, and the decoder after them *)
Fixpoint decode_pieces (d : Utf8) (l : list (list Z)) : list (list Z) * Utf8 :=
  match l with
  | [] => ([], d)
  | c :: l => let '(p, d) := decode_chunk d c in let '(ps, d) := decode_pieces d l in (p :: ps, d)
  end.
Definition chunk_of (token : Z) (text : list Z) : StageTokenChunk := {| tk_tokenId := Some token; tk_text := text |}.

Lemma runs_token b c F G : runs (At F G) (emit_token b c) (fun _ => At F (if b then G ++ [c] else G)).
Proof.
  unfold emit_token. destruct b; [|by apply hoare_ret]. eapply runs_seq; [apply runs_abort|]. intros ?.
  apply (runs_seq _ (fun (_ : answer (A_token c)) => At F (G ++ [c]))).
  - apply hoare_ask. intros r tr m m' [H1 H2] _ _. split; [|by rewrite given_tokens_snoc, H2].
    eapply Forall_impl; [exact H1|]. intros [k x] Hx. by rewrite worker_snoc.
  - intros r. apply runs_check.
Qed.

(** What the loop adds to its accumulators, if the tokens are [outs] *)
Definition decoded (b : bool) (G : list StageTokenChunk) (d : Utf8) (ids text : list Z) (outs : list Output) (reason : FinishReason)
    (r : FinishReason * Utf8 * list Z * list Z) (tr : list (Event answer)) : Prop :=
  let '(ps, d') := decode_pieces d (ou_pieceBytes <$> outs) in
  r = (reason, d', ids ++ (ou_token <$> outs), text ++ mjoin ps) ∧
  given tr = G ++ if b then zip_with chunk_of (ou_token <$> outs) ps else [].

Lemma decoded_cons b G d ids text out outs reason r tr piece d' : decode_chunk d (ou_pieceBytes out) = (piece, d') ->
  decoded b (if b then G ++ [chunk_of (ou_token out) piece] else G) d' (ids ++ [ou_token out]) (text ++ piece) outs reason r tr ->
  decoded b G d ids text (out :: outs) reason r tr.
Proof.
  unfold decoded. intros Hd. cbn [fmap list_fmap decode_pieces]. rewrite Hd. destruct (decode_pieces d' _) as [ps d2].
  intros [-> Hg]. change (mjoin (piece :: ps)) with (piece ++ mjoin ps). rewrite <-!app_assoc. split; [done|].
  rewrite Hg. destruct b; [|done]. by rewrite <-app_assoc.
Qed.

Lemma runs_decode b l s kfs : kfs.*1 = the_keys l -> NoDup (kfs.*1) -> forall more p h out d ids text G,
  whole (the_keys l) h = Some out ->
  runs (At (flow kfs h) G) (decode_loop b l s more p out d ids text)
    (fun r tr m => decoded b G d ids text (greedy (the_keys l) s more h p).1 (greedy (the_keys l) s more h p).2 r tr).
Proof.
  intros Hk Hnd more. induction more as [|more IH]; intros p h out d ids text G Hout; cbn [decode_loop greedy].
  - apply hoare_ret. intros tr m [_ Hm]. unfold decoded. cbn. by rewrite !app_nil_r, Hm, app_nil_r || (rewrite !app_nil_r; destruct b; rewrite ?app_nil_r).
  - rewrite Hout. eapply runs_seq; [apply runs_abort|]. intros ?. cbv beta. destruct (ou_isEog out).
    + apply hoare_ret. intros tr m [_ Hm]. unfold decoded. cbn. rewrite !app_nil_r. split; [done|]. destruct b; by rewrite ?app_nil_r.
    + destruct (decode_chunk d (ou_pieceBytes out)) as [piece d'] eqn:Hd. cbv zeta.
      eapply runs_seq; [apply runs_token|]. intros ?. cbv beta. eapply runs_seq; [apply runs_abort|]. intros ?. cbv beta.
      set (h' := h ++ [(s, p, inl [ou_token out])]).
      destruct (greedy (the_keys l) s more h' (p + 1)) as [outs reason] eqn:Hg. cbn [fst snd].
      destruct more as [|more].
      * injection Hg as <- <-. apply hoare_ret. intros tr m [_ Hm]. apply (decoded_cons _ _ _ _ _ _ _ _ _ _ _ _ Hd).
        unfold decoded. cbn. rewrite !app_nil_r, Hm. split; [done|]. destruct b; by rewrite ?app_nil_r.
      * eapply runs_seq; [apply (runs_pass l s p 1 _ [] kfs h _ Hk); by apply flow_NoDup|]. intros next. cbv beta.
        apply hoare_pure. intros Hn. eapply hoare_weaken; [apply (IH (p + 1) h' next); exact Hn|intros tr m Hm; exact Hm| |done].
        intros r tr m. rewrite Hg. apply (decoded_cons _ _ _ _ _ _ _ _ _ _ _ _ Hd).
Qed.

(** ** The copy of a state *)

Lemma set_file_twice f a b w : set_file f a (set_file f b w) = set_file f a w.
Proof. unfold set_file. cbn. by rewrite insert_insert_eq. Qed.

Section copy.
Context (source destination : Prepared) (s name : string) (w1 : Worker) (b : list Z).
Abbreviation k1 := (key (pr_target source)).
Abbreviation k2 := (key (pr_target destination)).
Hypothesis Hkeys : k1 <> k2.
Hypothesis Hfile : w_files w1 !! name = Some b.

Lemma two_keys (w2 : Worker) : NoDup ([(k1, w1); (k2, w2)].*1).
Proof. cbn. apply NoDup_cons. split; [by rewrite list_elem_of_singleton|apply NoDup_singleton]. Qed.

(** One chunk: it is the next one, it is not empty, and it lands behind the ones before it. *)
Lemma runs_chunk max x off size w2 G : 0 <= off -> take (Z.to_nat off) (default [] (w_files w2 !! name)) = take (Z.to_nat off) b ->
  runs (At [(k1, w1); (k2, w2)] G) (copy_chunk source destination s name max x off size)
    (fun r tr m => (r.1 = Z.of_nat (length b) ∧ r.2 <> [] ∧ off + Z.of_nat (length r.2) <= r.1 ∧
        take (Z.to_nat off) b ++ r.2 = take (Z.to_nat (off + Z.of_nat (length r.2))) b) ∧
      At [(k1, w1); (k2, set_file name (take (Z.to_nat (off + Z.of_nat (length r.2))) b) w2)] G tr m).
Proof.
  intros Hoff Hw2. unfold copy_chunk.
  eapply runs_seq; [apply (runs_command [] [(k2, w2)] source (C_state_read s name off) w1), two_keys|]. intros o. cbv beta.
  apply hoare_pure. intros Ho. destruct (Ho b Hfile) as [Hdata Htotal]. clear Ho.
  destruct (integers (jget o "data") 0 255) as [data|]; [|apply runs_throw].
  destruct (integer (jget o "total_bytes") 1 max) as [total|] eqn:Ht; [|apply runs_throw].
  apply Htotal in Ht as ->. destruct (Hdata data eq_refl) as [n Hn]. cbv zeta.
  destruct (bool_decide (data = []) || _) eqn:E1; [apply runs_throw|]. apply orb_false_iff in E1 as [E1%bool_decide_eq_false _].
  set (sz := default (Z.of_nat (length b)) size) in *. set (next := off + Z.of_nat (length data)) in *.
  destruct (_ || negb (strict_eq _ _)) eqn:E2; [apply runs_throw|]. apply orb_false_iff in E2 as [E2 _].
  apply orb_false_iff in E2 as [E2 Hle%Z.ltb_ge]. apply orb_false_iff in E2 as [Hs%negb_false_iff%Z.eqb_eq _].
  destruct (match x with Some _ => _ | None => _ end); [apply runs_throw|].
  eapply runs_seq; [apply runs_lift|]. intros ?. cbv beta.
  eapply runs_seq; [apply (runs_command [(k1, w1)] [] destination (C_state_write s name off data) w2), two_keys|]. intros ack. cbv beta.
  apply hoare_pure. intros _. destruct (_ || _); [apply runs_throw|]. apply hoare_ret. intros tr m Hm. cbn [fst snd]. fold next.
  assert (take (Z.to_nat off) b ++ data = take (Z.to_nat next) b) as Happ.
  { unfold next. rewrite Z2Nat.inj_add, Nat2Z.id by lia. rewrite <-take_take_drop, Hn. f_equal. rewrite length_take.
    destruct (Nat.min_spec n (length (drop (Z.to_nat off) b))) as [[_ ->]|[? ->]]; [done|]. by rewrite !take_ge by lia. }
  split_and!; [by rewrite <-Hs|done|done|exact Happ|].
  assert (work (C_state_write s name off data) w2 = set_file name (take (Z.to_nat next) b) w2) as <-; [|exact Hm].
  cbn [work]. by rewrite Hw2, Happ.
Qed.
Lemma runs_rest max x w2 fuel : forall off acc G, 0 <= off <= Z.of_nat (length b) -> Z.of_nat (length b) - off <= Z.of_nat fuel ->
  runs (At [(k1, w1); (k2, set_file name (take (Z.to_nat off) b) w2)] G)
    (copy_rest fuel source destination s name max x off (Z.of_nat (length b)) acc)
    (fun _ => At [(k1, w1); (k2, set_file name b w2)] G).
Proof.
  assert (forall off acc G, Z.of_nat (length b) <= off -> runs (At [(k1, w1); (k2, set_file name (take (Z.to_nat off) b) w2)] G)
    (mret acc) (fun (_ : list Z) => At [(k1, w1); (k2, set_file name b w2)] G)) as Hend.
  { intros off acc G Hoff. apply hoare_ret. intros tr m Hm. by rewrite take_ge in Hm by lia. }
  induction fuel as [|fuel IH]; intros off acc G Hoff Hfuel; cbn [copy_rest]; [apply Hend; lia|].
  destruct (off <? Z.of_nat (length b)) eqn:E; [|apply Hend; apply Z.ltb_ge in E; lia].
  eapply runs_seq.
  { apply runs_chunk; [lia|]. unfold set_file. cbn. rewrite lookup_insert_eq. cbn. by rewrite take_take, Nat.min_id. }
  intros [sz data]. cbv beta. apply hoare_pure. intros (Hsz & Hne & Hle & _). cbn [fst snd] in *. subst sz.
  rewrite set_file_twice. apply IH; destruct data; cbn in *; [done|lia|done|lia].
Qed.
Lemma runs_file max x w2 G : runs (At [(k1, w1); (k2, w2)] G) (copy_file source destination s name max x)
  (fun _ => At [(k1, w1); (k2, set_file name b w2)] G).
Proof.
  unfold copy_file. eapply runs_seq; [apply runs_chunk; [lia|done]|]. intros [sz data]. cbv beta. apply hoare_pure.
  intros (Hsz & Hne & Hle & _). cbn [fst snd] in *. subst sz. rewrite Z.add_0_l. apply runs_rest; lia.
Qed.
End copy.

(** The destination takes over the inputs of the source. *)
Lemma runs_handover source destination s file p h fs G : key (pr_target source) <> key (pr_target destination) ->
  (forall h, restore en (capsule en h) = h) ->
  runs (At [(key (pr_target source), {| w_fed := h; w_files := fs |}); (key (pr_target destination), idle)] G)
    (handover source destination s file p)
    (fun _ tr m => exists fs', At (flow [(key (pr_target destination), fs')] h) G tr m).
Proof.
  intros Hk Hrestore. unfold handover. set (k1 := key (pr_target source)) in *. set (k2 := key (pr_target destination)) in *.
  set (w1 := work (C_export s file) {| w_fed := h; w_files := fs |}).
  set (w2 := set_file (file +:+ ".json") (manifest en h) (set_file file (capsule en h) idle)).
  assert (file <> file +:+ ".json") as Hne.
  { intros He%(f_equal String.length). rewrite length_app_string in He. cbn in He. lia. }
  apply (runs_seq _ (fun _ => At [(k1, w1); (k2, w2)] G)).
  { unfold transfer. do 2 (eapply runs_seq; [apply runs_lift|]; intros ?; cbv beta).
    eapply runs_seq; [apply (runs_command [] [(k2, idle)] source (C_export s file) {| w_fed := h; w_files := fs |}), two_keys; exact Hk|].
    intros o. cbv beta. apply hoare_pure. intros _. eapply runs_seq; [apply runs_check|]. intros ?. cbv beta.
    eapply runs_seq.
    { apply (runs_file source destination s file w1 (capsule en h) Hk). cbn. rewrite lookup_insert_ne by done. by rewrite lookup_insert_eq. }
    intros bytes. cbv beta. destruct (negb _); [apply runs_throw|]. eapply runs_seq.
    { apply (runs_file source destination s (file +:+ ".json") w1 (manifest en h) Hk). cbn. by rewrite lookup_insert_eq. }
    intros meta. cbv beta. eapply runs_seq; [apply runs_check|]. intros ?. cbv beta. destruct (_ || _); [apply runs_throw|].
    apply runs_check. }
  intros ?. cbv beta. eapply runs_seq; [apply runs_abort|]. intros ?. cbv beta.
  eapply runs_seq; [apply (runs_request [(k1, w1)] [] destination (C_import s file) w2), two_keys; exact Hk|].
  intros o. cbv beta. apply hoare_pure. intros _. destruct (_ || _); [apply runs_throw|]. apply hoare_ret. intros tr m Hm.
  exists (w_files w2). destruct Hm as [[_ Hm]%Forall_cons Hg]. split; [|exact Hg]. cbn [flow]. 
  assert (work (C_import s file) w2 = {| w_fed := h; w_files := w_files w2 |}) as <-; [|exact Hm].
  cbn [work]. f_equal. unfold w2. cbn. rewrite lookup_insert_ne by done. rewrite lookup_insert_eq. apply Hrestore.
Qed.

(** ** A request *)

Definition prompt_feeds (session : string) : list Feed := feeds session 0 (batches (length (prompt_tokens en)) (prompt_tokens en)).
(** What a call returns, and what it gives the caller, when the tokens are [outs] *)
Definition result_of (x : list Output * FinishReason) : StageGenerationResult :=
  {| gr_text := decode_all (mjoin (ou_pieceBytes <$> x.1)); gr_tokenIds := ou_token <$> x.1; gr_finishReason := x.2;
     gr_promptTokens := Z.of_nat (length (prompt_tokens en)); gr_completionTokens := Z.of_nat (length x.1) |}.
Definition chunks_of (outs : list Output) : list StageTokenChunk :=
  let '(ps, d) := decode_pieces newUtf8 (ou_pieceBytes <$> outs) in
  zip_with chunk_of (ou_token <$> outs) ps ++
  if bool_decide (decode_end d = []) then [] else [{| tk_tokenId := None; tk_text := decode_end d |}].
Definition fulfils (b : bool) (x : list Output * FinishReason) (g : StageGenerationResult) (tr : list (Event answer)) : Prop :=
  g = result_of x ∧ given tr = if b then chunks_of x.1 else [].

Lemma batches_join fuel : forall l, (length l <= fuel)%nat -> mjoin (batches fuel l) = l.
Proof.
  induction fuel as [|fuel IH]; intros [|t l] Hl; cbn [batches]; try done; [cbn in Hl; lia|].
  change (mjoin (?a :: ?k)) with (a ++ mjoin k). rewrite IH; [apply take_drop|]. rewrite length_drop. unfold BATCH. cbn in *. lia.
Qed.
Lemma batches_ne l : l <> [] -> batches (length l) l <> [].
Proof. by destruct l. Qed.
Lemma pieces_whole l : forall d, mjoin (decode_pieces d l).1 ++ decode_end (decode_pieces d l).2 =
  let '(out, d') := decode_chunk d (mjoin l) in out ++ decode_end d'.
Proof.
  induction l as [|c l IH]; intros d; cbn [decode_pieces]; [done|].
  change (mjoin (c :: l)) with (c ++ mjoin l). rewrite decode_app. destruct (decode_chunk d c) as [o d1]. specialize (IH d1).
  destruct (decode_pieces d1 l) as [ps d2]. cbn [fst snd] in *. change (mjoin (o :: ps)) with (o ++ mjoin ps).
  rewrite <-app_assoc, IH. destruct (decode_chunk d1 _) as [o' d3]. by rewrite app_assoc.
Qed.
Lemma greedy_ext ks ks' s : (forall h, whole ks h = whole ks' h) -> forall more h p, greedy ks s more h p = greedy ks' s more h p.
Proof.
  intros Hw more. induction more as [|more IH]; intros h p; cbn [greedy]; [done|]. rewrite Hw. destruct (whole ks' h) as [out|]; [|done].
  destruct (ou_isEog out); [done|]. by rewrite IH.
Qed.

(** The tail of a request, once the workers [l] have had the inputs [h] *)
Lemma runs_tail b l s n p h out kfs : kfs.*1 = the_keys l -> NoDup (kfs.*1) -> whole (the_keys l) h = Some out ->
  runs (At (flow kfs h) [])
    ('(reason, decoder, ids, text) ← decode_loop b l s n p out newUtf8 [] [];
     let tail := decode_end decoder in
     (if bool_decide (tail = []) then mret tt else emit_token b {| tk_tokenId := None; tk_text := tail |}) ;;
     mret {| gr_text := text ++ tail; gr_tokenIds := ids; gr_finishReason := reason;
             gr_promptTokens := Z.of_nat (length (prompt_tokens en)); gr_completionTokens := Z.of_nat (length ids) |})
    (fun g tr m => fulfils b (greedy (the_keys l) s n h p) g tr).
Proof.
  intros Hk Hnd Hout. set (x := greedy (the_keys l) s n h p).
  eapply runs_seq; [by apply (runs_decode b l s kfs Hk Hnd n p h out)|]. intros [[[reason d] ids] text]. cbv beta iota zeta.
  fold x. unfold decoded. destruct (decode_pieces newUtf8 (ou_pieceBytes <$> x.1)) as [ps d'] eqn:Hps.
  apply hoare_pure. intros [= -> -> -> ->]. cbn [app].
  pose proof (pieces_whole (ou_pieceBytes <$> x.1) newUtf8) as Htext. rewrite Hps in Htext. cbn [fst snd] in Htext.
  apply (runs_seq _ (fun _ tr _ => given tr = if b then chunks_of x.1 else [])).
  - unfold chunks_of. rewrite Hps. destruct (bool_decide (decode_end d' = [])).
    + apply hoare_ret. intros tr m Hm. rewrite Hm. destruct b; by rewrite ?app_nil_r.
    + eapply hoare_weaken; [apply (runs_token b _ [] (if b then zip_with chunk_of (ou_token <$> x.1) ps else []))| | |done].
      * intros tr m Hm. split; [constructor|exact Hm].
      * intros ? tr m [_ Hm]. rewrite Hm. by destruct b.
  - intros ?. apply hoare_ret. intros tr m Hm. split; [|exact Hm]. unfold result_of, decode_all. rewrite Htext, length_fmap. done.
Qed.

Definition all_idle (ks : list string) : list (string * Worker) := (fun k => (k, idle)) <$> ks.
Lemma all_idle_flow ks : all_idle ks = flow ((fun k => (k, ∅)) <$> ks) [].
Proof. induction ks as [|k ks IH]; cbn; [done|]. by rewrite <-IH. Qed.
Lemma keyed ks : ((fun k : string => (k, ∅ : gmap string (list Z))) <$> ks).*1 = ks.
Proof. rewrite <-list_fmap_compose. apply list_fmap_id. Qed.

(** The stages that decode together: all of them, or a full model *)
Definition model_keys (plan : StageExecutionPlan) : list string :=
  match xp_mode plan with
  | stages_mode => key <$> xp_endpoints plan
  | prefill_decode_mode => key <$> take 1 (xp_endpoints plan)
  end.
(** Where a state is copied, both workers hold the same model. *)
Definition same_models (plan : StageExecutionPlan) : Prop :=
  xp_mode plan = prefill_decode_mode -> (forall h, restore en (capsule en h) = h) ∧
  forall e e', e ∈ xp_endpoints plan -> e' ∈ xp_endpoints plan -> forall h, answer_of en (key e) h = answer_of en (key e') h.

Lemma runs_run plan b s n l first : same_models plan -> prompt_tokens en <> [] -> l !! 0%nat = Some first ->
  pr_target <$> l = xp_endpoints plan -> NoDup (key <$> xp_endpoints plan) ->
  (xp_mode plan = prefill_decode_mode -> length (xp_endpoints plan) = 2%nat) ->
  runs (At (all_idle (key <$> xp_endpoints plan)) []) (run_request plan b s n l first (prompt_tokens en))
    (fun g tr m => fulfils b (greedy (model_keys plan) s (Z.to_nat n) (prompt_feeds s) (Z.of_nat (length (prompt_tokens en)))) g tr).
Proof.
  intros Hsame Hne Hfirst Htargets Hnd Hlen. unfold run_request, model_keys. cbv zeta.
  assert (the_keys l = key <$> xp_endpoints plan) as Hkeys by (by rewrite <-Htargets, <-list_fmap_compose).
  pose proof (batches_join _ (prompt_tokens en) (Nat.le_refl _)) as Hjoin. pose proof (batches_ne _ Hne) as Hbs.
  unfold prompt_feeds. set (bs := batches _ _) in *.
  destruct (xp_mode plan) eqn:Emode.
  - rewrite bool_decide_true by done. rewrite all_idle_flow, <-Hkeys. set (kfs := (fun k => (k, ∅)) <$> the_keys l).
    assert (kfs.*1 = the_keys l) as Hkfs by apply keyed.
    eapply runs_seq; [apply (runs_prefill l s bs [] 0 kfs [] None Hkfs)|].
    { intros h. apply flow_NoDup. by rewrite Hkfs, Hkeys. }
    intros [p last]. cbv beta iota. apply hoare_pure. cbn [fst snd app]. intros [-> Hlast]. rewrite Hjoin.
    apply (runs_seq _ (fun k tr m => k = l ∧ At (flow kfs (feeds s 0 bs)) [] tr m)); [by apply hoare_ret|].
    intros k. apply hoare_pure. intros ->.
    destruct last as [out|]; [|apply runs_throw]. rewrite Z.add_0_l. apply (runs_tail _ _ _ _ _ _ _ kfs); [done|by rewrite Hkfs, Hkeys|].
    rewrite Hlast. by destruct bs.
  - destruct (Hsame Emode) as [Hrestore Hans]. specialize (Hlen eq_refl). rewrite bool_decide_false by done.
    destruct l as [|a [|c [|]]]; try (rewrite <-Htargets in Hlen; done). injection Hfirst as ->.
    rewrite <-Htargets in *. cbn [fmap list_fmap take] in *. set (k1 := key (pr_target first)) in *. set (k2 := key (pr_target c)) in *.
    assert (k1 <> k2) as Hk by (intros Hk; apply NoDup_cons in Hnd as [Hnd _]; apply Hnd; rewrite Hk; left).
    apply (runs_seq _ (fun r tr m => (r.1 = Z.of_nat (length (mjoin bs)) ∧ r.2 = whole [k1] (feeds s 0 bs)) ∧
      At [(k1, {| w_fed := feeds s 0 bs; w_files := ∅ |}); (k2, idle)] [] tr m)).
    { eapply hoare_weaken; [apply (runs_prefill [first] s bs [(k2, idle)] 0 [(k1, ∅)] [] None); [done|]| | |done].
      - intros h. cbn. apply NoDup_cons. split; [by rewrite list_elem_of_singleton|apply NoDup_singleton].
      - intros tr m [Hm Hg]. split; [|exact Hg]. cbn in *. rewrite !Forall_cons in *. naive_solver.
      - intros r tr m [[Hr1 Hr2] [Hm Hg]]. split; [split; [lia|rewrite Hr2; by destruct bs]|].
        split; [|exact Hg]. cbn in *. rewrite !Forall_cons in *. naive_solver. }
    intros [p last]. cbv beta iota. apply hoare_pure. cbn [fst snd]. intros [-> Hlast]. rewrite Hjoin.
    apply (runs_seq _ (fun k tr m => exists fs', k = [c] ∧ At (flow [(k2, fs')] (feeds s 0 bs)) [] tr m)).
    { eapply runs_seq; [by apply runs_handover|]. intros ?. apply hoare_ret. intros tr m [fs' Hm]. by exists fs'. }
    assert (forall h, whole [k2] h = whole [k1] h) as Hw.
    { intros h. cbn [whole]. rewrite (Hans (pr_target c) (pr_target first)); [done| |]; set_solver. }
    intros k tr m [fs' [-> Hm]]. revert tr m Hm. destruct last as [out|]; [|apply runs_throw].
    rewrite (greedy_ext [k1] [k2]) by (intros h; by rewrite Hw). apply (runs_tail b [c] s _ _ _ _ [(k2, fs')]); [done|apply NoDup_singleton|].
    by rewrite Hlast, <-Hw.
Qed.

(** ** Before and after *)

(** A question that does not change its worker *)
Lemma runs_probe F G e c bound : (forall w, work c w = w) ->
  runs (At F G) (request_worker (pr_target e) (pr_port e) c bound)
    (fun o tr m => (forall w, (key (pr_target e), w) ∈ F -> says (key (pr_target e)) w c o) ∧ At F G tr m).
Proof.
  intros Hc. apply hoare_fetch. intros a tr m m' [HF HG] _ Hh. cbn [honest] in Hh.
  destruct (command_result bound a) as [o|why] eqn:Ho; [|exact I]. cbn [post]. split.
  - intros w Hw. rewrite Forall_forall in HF. specialize (HF _ Hw). cbn in HF. rewrite <-HF. by apply (Hh bound).
  - split; [|by rewrite given_tokens_snoc, HG, app_nil_r]. eapply Forall_impl; [exact HF|]. intros [k x] Hx. rewrite worker_snoc.
    unfold observe. cbn [ev_ask]. destruct (String.eqb _ _); [by rewrite Hc|done].
Qed.
Lemma runs_ask_command F G e c : (forall w, work c w = w) ->
  runs (At F G) (command e c)
    (fun o tr m => (forall w, (key (pr_target e), w) ∈ F -> says (key (pr_target e)) w c o) ∧ At F G tr m).
Proof. intros Hc. unfold command. eapply runs_seq; [apply runs_abort|]. intros ?. by apply runs_probe. Qed.

Lemma runs_prepare_one t F G : runs (At F G) (prepare_one t) (fun e tr m => pr_target e = t ∧ At F G tr m).
Proof.
  unfold prepare_one. eapply runs_seq; [by apply runs_other|]. intros r. cbv beta.
  eapply runs_seq; [apply runs_check|]. intros port. cbv beta zeta.
  eapply runs_seq; [by apply runs_ask_command|]. intros st. cbv beta. apply hoare_pure. intros _.
  eapply runs_seq; [apply runs_check|]. intros ?. cbv beta. destruct (_ || _); [apply runs_throw|].
  destruct (_ || _); [apply runs_throw|]. by apply hoare_ret.
Qed.
Lemma runs_prepare_all ts F G : runs (At F G) (prepare_all ts) (fun l tr m => pr_target <$> l = ts ∧ At F G tr m).
Proof.
  induction ts as [|t ts IH]; cbn [prepare_all]; [by apply hoare_ret|].
  eapply runs_seq; [apply runs_prepare_one|]. intros e. cbv beta. apply hoare_pure. intros He.
  eapply runs_seq; [exact IH|]. intros l. cbv beta. apply hoare_pure. intros Hl. apply hoare_ret. intros tr m Hm.
  split; [|exact Hm]. cbn. by rewrite He, Hl.
Qed.
Lemma runs_tokenize q n first F G w : (key (pr_target first), w) ∈ F ->
  runs (At F G) (tokenize q n first) (fun l tr m => (l = prompt_tokens en ∧ l <> []) ∧ At F G tr m).
Proof.
  intros Hw. unfold tokenize. eapply runs_seq; [apply runs_ask_command; intros ?; by destruct (gq_prompt q)|]. intros o. cbv beta.
  apply hoare_pure. intros Ho. specialize (Ho w Hw).
  destruct (integers (jget o "tokens") 0 (VOCAB - 1)) as [l|] eqn:El; [|apply runs_throw].
  destruct (_ || _) eqn:E; [apply runs_throw|]. apply orb_false_iff in E as [E%bool_decide_eq_false _].
  apply hoare_ret. intros tr m Hm. split; [|exact Hm]. split; [|done]. destruct (gq_prompt q); by apply Ho.
Qed.

(** The cleanup gives the caller nothing. *)
Definition calm {A} (x : Exec A) : Prop := forall G, hoare honest anyone (At [] G) x (fun _ => At [] G) (fun _ => At [] G).
Lemma calm_seq {A C} (x : Exec A) (f : A -> Exec C) : calm x -> (forall a, calm (f a)) -> calm (x ≫= f).
Proof. intros Hx Hf G. eapply hoare_bind; [apply Hx|]. intros a. apply Hf. Qed.
Lemma calm_ret {A} (a : A) : calm (mret a).
Proof. intros G. by apply hoare_ret. Qed.
Lemma calm_throw {A} e : calm (athrow (A := A) e).
Proof. intros G. by apply hoare_throw. Qed.
Lemma calm_attempt {A} (x : Exec A) : calm x -> calm (attempt x).
Proof. intros Hx G. eapply hoare_weaken; [apply hoare_attempt, Hx|done|by intros [?|?] ? ?|intros ? ? ? H'; exact H']. Qed.
Lemma calm_lift {A} (x : Sync A) : calm (lift x).
Proof. intros G. apply hoare_lift. intros tr m Hm. by destruct (x m) as [[a|e] m']. Qed.
Lemma calm_request t p c bound : calm (request_worker t p c bound).
Proof.
  intros G. apply hoare_fetch. intros a tr m m' [_ HG] _ _.
  assert (At [] G (tr ++ [Ev (A_fetch t p c) a]) m') as Hm by (split; [constructor|by rewrite given_tokens_snoc, HG, app_nil_r]).
  by destruct (command_result bound a).
Qed.
Lemma calm_delete_all e s fs : calm (delete_capsules e s fs).
Proof.
  induction fs as [|f fs IH]; cbn [delete_capsules]; [apply calm_ret|].
  apply calm_seq; [|intros r; apply calm_seq; [exact IH|intros x; apply calm_ret]].
  apply calm_attempt, calm_seq; [apply calm_request|]. intros o. destruct (strict_eq _ _); [apply calm_ret|apply calm_throw].
Qed.
Lemma calm_cleanup l s : forall i, calm (cleanup i l s).
Proof.
  induction l as [|e l IH]; intros i; cbn [cleanup]; [apply calm_ret|].
  apply calm_seq; [apply calm_lift|]. intros x. apply calm_seq; [apply calm_delete_all|]. intros d.
  apply calm_seq; [|intros r; apply calm_seq; [apply IH|intros y; apply calm_ret]].
  apply calm_attempt, calm_seq; [apply calm_request|]. intros ?. apply calm_seq; [apply calm_request|]. intros o.
  destruct (_ && _); [apply calm_ret|apply calm_throw].
Qed.
Lemma calm_withdraw id fs : calm (withdraw id fs).
Proof.
  unfold withdraw. destruct (bool_decide _); [apply calm_ret|]. apply calm_seq; [apply calm_lift|]. intros ?.
  intros G. apply (hoare_bind _ _ _ (fun (_ : answer (A_unsafe id fs)) => At [] G)); [|intros r; by apply hoare_ret].
  apply hoare_ask. intros r tr m m' [_ HG] _ _. split; [constructor|]. by rewrite given_tokens_snoc, HG, app_nil_r.
Qed.

Lemma runs_any {A} P (x : Exec A) : runs P x (fun _ _ _ => True).
Proof.
  intros tr m _. generalize (x m).2 as m1. generalize (x m).1 as st. intros st. revert tr.
  induction st as [[v|e]|w k IH] using step_ind; intros tr m1; cbn; [done..|]. intros v m' _ _. apply IH.
Qed.
Lemma runs_release_err {A} P id why fs (Q : A -> _ -> _ -> Prop) : runs P (release id (Err why) fs) Q.
Proof. unfold release. eapply runs_seq; [apply runs_any|]. intros ?. apply runs_throw. Qed.

Lemma endpoints_distinct mode first l : forall boundary seen z, validate_endpoints mode first boundary seen l = Ok z ->
  NoDup (key <$> l) ∧ (forall k, k ∈ key <$> l -> k ∉ seen).
Proof.
  induction l as [|e l IH]; intros boundary seen z H1; cbn [validate_endpoints] in H1; cbn.
  - split; [constructor|]. by intros k ?%elem_of_nil.
  - assert (key e ∉ seen ∧ exists b', validate_endpoints mode first b' (key e :: seen) l = Ok z) as [Hs [b' Hl]].
    { destruct (_ || _) eqn:E1 in H1; [done|]. apply orb_false_iff in E1 as [_ E1%bool_decide_eq_false]. split; [done|].
      destruct (negb _) in H1; [done|]. destruct (negb _) in H1; [done|]. destruct mode.
      - destruct (stage_end _ _); [by eexists|done].
      - destruct (full_endpoint _ _); [by eexists|done]. }
    apply IH in Hl as [Hnd Hin]. split.
    + apply NoDup_cons. split; [|done]. intros Hk. apply (Hin _ Hk). left.
    + intros k [->|Hk]%elem_of_cons; [done|]. intros Hin'. apply (Hin k Hk). by right.
Qed.
Lemma plan_distinct plan u : validatePlan plan = Ok u ->
  NoDup (key <$> xp_endpoints plan) ∧ (xp_mode plan = prefill_decode_mode -> length (xp_endpoints plan) = 2%nat).
Proof.
  unfold validatePlan. destruct (_ || _); [done|]. destruct (xp_endpoints plan) as [|e l] eqn:El; [done|]. cbv zeta.
  destruct (negb _); [done|]. destruct (_ && _) eqn:E; [done|].
  destruct (validate_endpoints _ _ _ _ _) as [z|] eqn:Ev; [|done]. intros _. split; [by apply endpoints_distinct in Ev as [? _]|].
  intros Hm. rewrite bool_decide_true in E by done. cbn [andb] in E. by apply negb_false_iff, Nat.eqb_eq in E.
Qed.

(** What a call with the limit [n] is expected to decode *)
Definition expected (plan : StageExecutionPlan) (session : string) (n : Z) : list Output * FinishReason :=
  greedy (model_keys plan) session (Z.to_nat n) (prompt_feeds session) (Z.of_nat (length (prompt_tokens en))).

Lemma generate_fulfils plan q b s : same_models plan ->
  runs (fun tr _ => tr = []) (generate plan q b s)
    (fun g tr m => exists n, validateRequest q = Ok n ∧ fulfils b (expected plan s n) g tr).
Proof.
  intros Hsame. unfold generate. cbv zeta. set (F := all_idle (key <$> xp_endpoints plan)).
  apply (runs_seq _ (fun n tr m => ((exists u, validatePlan plan = Ok u) ∧ validateRequest q = Ok n) ∧ At F [] tr m)).
  { apply hoare_lift. intros tr m ->. unfold acquire. destruct (validatePlan plan) as [u|]; [|done].
    destruct (validateRequest q) as [n|]; [|done]. unfold mbind, M_bind, mget. destruct (isBusy _ _); [done|].
    case_bool_decide; [done|]. cbn. split; [by split; [exists u|]|]. split; [|done]. unfold F, all_idle. rewrite Forall_fmap.
    by apply Forall_true. }
  intros n. cbv beta. apply hoare_pure. intros [[u Hplan] Hq]. apply plan_distinct in Hplan as [Hnd Hlen].
  apply (runs_seq _ (fun r tr m => match r with
    | Ok x => (pr_target <$> x.1.1 = xp_endpoints plan ∧ x.1.1 !! 0%nat = Some x.1.2 ∧ x.2 = prompt_tokens en ∧ x.2 <> []) ∧ At F [] tr m
    | Err _ => True end)).
  { apply (hoare_attempt honest anyone (At F []) _ (fun x tr m => (pr_target <$> x.1.1 = xp_endpoints plan ∧
      x.1.1 !! 0%nat = Some x.1.2 ∧ x.2 = prompt_tokens en ∧ x.2 <> []) ∧ At F [] tr m) whatever).
    apply (runs_seq _ (fun l tr m => pr_target <$> l = xp_endpoints plan ∧ At F [] tr m)).
    { unfold prepare. eapply runs_seq; [apply runs_prepare_all|]. intros l. cbv beta. apply hoare_pure. intros Hl.
      destruct (_ && _); [apply runs_throw|]. by apply hoare_ret. }
    intros l. apply hoare_pure. intros Hl. destruct l as [|first l]; [apply runs_throw|].
    eapply runs_seq; [apply (runs_tokenize q n first F [] idle)|].
    { unfold F. rewrite <-Hl. left. }
    intros p. cbv beta. apply hoare_pure. intros [-> Hp]. by apply hoare_ret. }
  intros [[[l first] p]|why]; [|apply runs_release_err]. apply hoare_pure. cbn [fst snd]. intros (Hl & Hfirst & -> & Hne).
  apply (runs_seq _ (fun r tr _ => match r with Ok g => g = result_of (expected plan s n) ∧
    given tr = (if b then chunks_of (expected plan s n).1 else []) | Err _ => True end)).
  { apply (hoare_attempt honest anyone _ _ (fun g tr _ => fulfils b (expected plan s n) g tr) whatever). by apply runs_run. }
  intros r. destruct r as [g|why].
  - apply hoare_pure. intros Hg. set (G := if b then _ else _).
    apply (hoare_weaken honest anyone _ (At [] G) _ _ (fun g' tr m => g' = g ∧ At [] G tr m) _ whatever).
    2: { intros tr m Hm. by split; [constructor|]. }
    2: { intros ? tr m [-> [_ Hm]]. exists n. split; [done|]. by split. }
    2: done.
    eapply runs_seq; [eapply hoare_weaken; [apply calm_cleanup|done|intros ? ? ? Hm; exact Hm|done]|]. intros fs. cbv beta.
    eapply runs_seq; [eapply hoare_weaken; [apply calm_withdraw|done|intros ? ? ? Hm; exact Hm|done]|]. intros fs'. cbv beta.
    unfold release. eapply runs_seq; [apply runs_lift|]. intros ?. cbv beta. destruct fs'; [by apply hoare_ret|apply runs_throw].
  - eapply runs_seq; [apply runs_any|]. intros fs. eapply runs_seq; [apply runs_any|]. intros fs'. apply runs_release_err.
Qed.
End decode.

(** C5: Native execution is greedy decoding.  If the workers are deterministic machines that answer for the inputs they were
    given, and an import restores the state that was exported, then a call that returns gives the tokens the composed stages
    decode greedily from the prompt: through every batch, position, hand-over between stages, copied state and cut
    character; and the caller was given exactly these tokens, with pieces of exactly this text. *)
Theorem generate_decodes_greedily `{StageHost} (en : Engine) plan q onToken session m tr g m' : same_models en plan ->
  plays (honest en) anyone [] (generate plan q onToken session m).1 (generate plan q onToken session m).2 tr (Ok g) m' ->
  exists n, validateRequest q = Ok n ∧
    let '(outs, reason) := greedy en (model_keys plan) session (Z.to_nat n) (prompt_feeds en session)
                             (Z.of_nat (length (prompt_tokens en))) in
    g = {| gr_text := decode_all (mjoin (ou_pieceBytes <$> outs)); gr_tokenIds := ou_token <$> outs; gr_finishReason := reason;
           gr_promptTokens := Z.of_nat (length (prompt_tokens en)); gr_completionTokens := Z.of_nat (length outs) |} ∧
    given tr = if onToken then chunks_of outs else [].
Proof.
  intros Hsame Hp. pose proof (hoare_plays _ _ _ _ _ _ [] m tr _ m' (generate_fulfils en plan q onToken session Hsame) eq_refl Hp) as Hr.
  destruct Hr as (n & Hn & Hg & Hgiven). exists n. split; [done|]. unfold expected in *.
  destruct (greedy _ _ _ _ _ _) as [outs reason]. by split.
Qed.

(** ** Two workers decode a euro sign in two tokens *)

Section demo_decode.
Definition euro_middle (position count : Z) : json :=
  JObj [("position", JNum (num_of_Z position)); ("activations", JArr (replicate (Z.to_nat (count * EMBEDDING)) (JNum num_zero)))].
Definition euro_last (position token : Z) (piece : list Z) : json :=
  JObj [("position", JNum (num_of_Z position)); ("token", JNum (num_of_Z token)); ("isEog", JBool false);
        ("pieceBytes", JArr ((fun b => JNum (num_of_Z b)) <$> piece))].
Definition euro_text (s : string) : option json :=
  if String.eqb s "b" then Some (euro_middle 2 2) else if String.eqb s "c" then Some (euro_middle 3 1)
  else if String.eqb s "p" then Some (euro_last 2 7 [226; 130]) else if String.eqb s "q" then Some (euro_last 3 8 [172])
  else demo_text s.
#[local] Instance euro_host : StageHost :=
  {| sh_json := {| num_string := fun n => pretty (default 0 (as_int n)); JSON_parse := euro_text |};
     Number_of := fun s => num_of_Z (if String.eqb s "0" then 0 else if String.eqb s "12" then 12 else 24);
     sha256_hex := fun _ => "" |}.

(** The body of a response: the letter tells the worker and how many inputs it had. *)
Definition euro_body (k : string) (h : list Feed) (c : Cmd) : list Z :=
  let n1 := String.eqb k "n1:9001" in
  match c with
  | C_status => [if n1 then 115 else 83]
  | C_tokenize _ | C_chat_tokens _ => [116]
  | C_eval s p x => [(if n1 then 97 else 111) + Z.of_nat (length h) + 1]
  | _ => [114]
  end.
Definition euro_engine : Engine :=
  {| answer_of := fun k h => match parse_object (euro_body k (removelast h) (C_eval "" 0 (inl []))) with Ok o => o | Err _ => [] end;
     capsule := fun _ => []; manifest := fun _ => []; restore := fun _ => []; prompt_tokens := [5; 6] |}.
Definition euro_answers (tr : list (Event answer)) (w : Ask) : answer w :=
  match w with
  | A_port _ _ => Ok 40000
  | A_fetch t _ c => Body true 200 [euro_body (key t) (w_fed (worker_of euro_engine tr (key t))) c] None
  | A_aborted => None
  | A_token _ => Ok tt
  | A_unsafe _ _ => Ok tt
  end.
Definition euro_ask : StageGenerationRequest :=
  {| gq_prompt := Some "hello"; gq_messages := None; gq_maxTokens := num_of_Z 2; gq_temperature := None |}.
Abbreviation euro_run :=
  (run euro_answers [] (generate demo_plan euro_ask true "x" newExecutor).1 (generate demo_plan euro_ask true "x" newExecutor).2).

Lemma one_chunk bound l o : command_result bound (Body true 200 [l] None) = Ok o -> parse_object l = Ok o.
Proof.
  unfold command_result. cbn [read_body]. destruct (bound <? _); [done|]. cbn [app]. unfold mbind, result_bind.
  by destruct (parse_object l).
Qed.
Lemma euro_honest tr w : honest euro_engine tr w (euro_answers tr w).
Proof.
  destruct w as [| t p c | | |]; try exact I. cbn [honest euro_answers]. intros bound o Ho%one_chunk. destruct c; try exact I; cbn [says].
  - vm_compute in Ho. injection Ho as <-. vm_compute. by intros l [= <-].
  - vm_compute in Ho. injection Ho as <-. vm_compute. by intros l [= <-].
  - cbn [answer_of euro_engine]. rewrite removelast_last. cbn [euro_body] in *. by rewrite Ho.
  - vm_compute in Ho. injection Ho as <-. intros b Hb. split; [by intros d Hd|by intros max z Hz].
Qed.

Lemma generate_decodes_greedily_witness :
  euro_run.1.2 = Ok {| gr_text := [226; 130; 172]; gr_tokenIds := [7; 8]; gr_finishReason := f_length; gr_promptTokens := 2;
                       gr_completionTokens := 2 |} ∧
  given euro_run.1.1 = chunks_of (greedy euro_engine (model_keys demo_plan) "x" 2 (prompt_feeds euro_engine "x") 2).1.
Proof.
  assert (euro_run.1.2 = Ok {| gr_text := [226; 130; 172]; gr_tokenIds := [7; 8]; gr_finishReason := f_length; gr_promptTokens := 2;
    gr_completionTokens := 2 |}) as Hr by (vm_compute; reflexivity).
  split; [exact Hr|].
  assert (plays (honest euro_engine) anyone [] (generate demo_plan euro_ask true "x" newExecutor).1
    (generate demo_plan euro_ask true "x" newExecutor).2 euro_run.1.1 euro_run.1.2 euro_run.2) as Hp
    by (apply run_plays; [done|apply euro_honest]).
  rewrite Hr in Hp.
  destruct (generate_decodes_greedily euro_engine demo_plan euro_ask true "x" newExecutor _ _ _ ltac:(by intros ?) Hp) as (n & Hn & Hg).
  assert (Ok n = Ok (A := Z) (E := string) 2) as Hn2 by (rewrite <-Hn; vm_compute; reflexivity). injection Hn2 as ->.
  destruct (greedy _ _ _ _ _ _) as [outs reason]. exact (proj2 Hg).
Defined.
End demo_decode.
