(* ===== verification/Sse.v ===== *)
(** * Event streams on their way through the router

    What reads the text of a response as it passes: the token counter of control/router.ts, the end check of
    protocol/inference-stream.ts and the translation of protocol/completions-compat.ts.  Each decodes chunks, keeps the
    partial line and handles the complete ones.  Text is the UTF-8 bytes of a string. *)

From S2P Require Import Prelude JsNum Json Canon Utf8 StageExecution.

Local Open Scope string_scope.
Local Open Scope list_scope.
Local Open Scope Z_scope.

(** ** Strings as bytes *)

Fixpoint bytes_of (s : string) : list Z :=
  match s with "" => [] | String a s => Z.of_nat (Ascii.nat_of_ascii a) :: bytes_of s end.

(** [s.length]: a character of four bytes is two code units. *)
Definition units_of_byte (b : Z) : Z := if b <? 128 then 1 else if b <? 192 then 0 else if b <? 240 then 1 else 2.
Fixpoint utf16_length (l : list Z) : Z := match l with [] => 0 | b :: l => units_of_byte b + utf16_length l end.

(** The code units *)
Fixpoint utf16 (l : list Z) : list Z :=
  match l with
  | [] => []
  | a :: l =>
      if a <? 128 then a :: utf16 l else
      match l with
      | [] => []
      | b :: l =>
          if a <? 224 then (a - 192) * 64 + (b - 128) :: utf16 l else
          match l with
          | [] => []
          | c :: l =>
              if a <? 240 then (a - 224) * 4096 + (b - 128) * 64 + (c - 128) :: utf16 l else
              match l with
              | [] => []
              | d :: l =>
                  let p := (a - 240) * 262144 + (b - 128) * 4096 + (c - 128) * 64 + (d - 128) - 65536 in
                  55296 + p / 1024 :: 56320 + p mod 1024 :: utf16 l
              end
          end
      end
  end.

(** The white space of [trim] and of [\s], as code points *)
Definition is_white (c : Z) : bool :=
  (9 <=? c) && (c <=? 13) || (c =? 32) || (c =? 160) || (c =? 5760) || (8192 <=? c) && (c <=? 8202) || (c =? 8232) ||
  (c =? 8233) || (c =? 8239) || (c =? 8287) || (c =? 12288) || (c =? 65279).

(** Every white space character has one to three bytes. *)
Fixpoint trim_start (l : list Z) : list Z :=
  match l with
  | a :: r =>
      if is_white a && (a <? 128) then trim_start r else
      match r with
      | b :: r =>
          if (a =? 194) && is_white ((a - 192) * 64 + (b - 128)) then trim_start r else
          match r with
          | c :: r => if (224 <=? a) && (a <? 240) && is_white ((a - 224) * 4096 + (b - 128) * 64 + (c - 128)) then trim_start r else l
          | [] => l
          end
      | [] => l
      end
  | [] => []
  end.
(** The same from the end, on the reversed bytes *)
Fixpoint trim_start_rev (l : list Z) : list Z :=
  match l with
  | a :: r =>
      if is_white a && (a <? 128) then trim_start_rev r else
      match r with
      | b :: r =>
          if (b =? 194) && is_white ((b - 192) * 64 + (a - 128)) then trim_start_rev r else
          match r with
          | c :: r => if (224 <=? c) && (c <? 240) && is_white ((c - 224) * 4096 + (b - 128) * 64 + (a - 128)) then trim_start_rev r else l
          | [] => l
          end
      | [] => l
      end
  | [] => []
  end.
Definition trim_text (l : list Z) : list Z := rev (trim_start_rev (rev (trim_start l))).

(** The complete lines, and what follows the last line feed *)
Fixpoint cut_lines (l : list Z) : list (list Z) * list Z :=
  match l with
  | [] => ([], [])
  | b :: l =>
      let '(lines, r) := cut_lines l in
      if b =? 10 then ([] :: lines, r) else
      match lines with
      | [] => ([], b :: r)
      | line :: lines => ((b :: line) :: lines, r)
      end
  end.

Definition data_prefix : list Z := bytes_of "data:".
(** The text after [data:] in a line *)
Definition data_of (line : list Z) : option (list Z) :=
  if bool_decide (take 5 line = data_prefix) then Some (trim_text (drop 5 line)) else None.
Definition DONE : list Z := bytes_of "[DONE]".

Section sse.
Context `{StageHost}.

Definition parse_text (l : list Z) : option json := JSON_parse (text_of l).

(** ** [TokenCounter] *)

Record Counter := { tc_streamed : bool; tc_decoder : Utf8; tc_rest : list Z; tc_tail : list Z }.
Definition newCounter (streamed : bool) : Counter := {| tc_streamed := streamed; tc_decoder := newUtf8; tc_rest := []; tc_tail := [] |}.

(** Whether a choice carries text; [None] when reading it throws *)
Definition has_text (c : json) : option bool :=
  match c with
  | JNull => None
  | JObj o =>
      let d := default [] (as_obj (jget o "delta")) in
      Some (truthy_json (jget o "text") || truthy_json (jget d "content") || truthy_json (jget d "reasoning_content"))
  | _ => Some false
  end.
Fixpoint count_choices (l : list json) : Z :=
  match l with
  | [] => 0
  | c :: l => match has_text c with None => 0 | Some b => (if b then 1 else 0) + count_choices l end
  end.
(** The choices of an event that can be walked; of a text or nothing, none has text. *)
Definition count_event (v : json) : Z :=
  match as_obj (Some v) with Some o => count_choices (default [] (as_arr (jget o "choices"))) | None => 0 end.
Definition count_line (line : list Z) : Z :=
  match data_of (trim_text line) with
  | Some data => if bool_decide (data = []) || bool_decide (data = DONE) then 0 else
                 match parse_text data with Some v => count_event v | None => 0 end
  | None => 0
  end.
Definition count_lines (l : list (list Z)) : Z := foldr (fun line n => count_line line + n) 0 l.

(** [s.slice(-n)] *)
Definition slice_last (n : nat) (l : list Z) : list Z := drop (length l - n) l.

(** [feed], with what it emits *)
Definition feed (chunk : list Z) (c : Counter) : option Z * Counter :=
  let '(text, d) := decode_chunk (tc_decoder c) chunk in
  if negb (tc_streamed c) then
    (None, {| tc_streamed := false; tc_decoder := d; tc_rest := tc_rest c; tc_tail := slice_last 4096 (tc_tail c ++ utf16 text) |})
  else
    let '(lines, r) := cut_lines (tc_rest c ++ text) in
    let n := count_lines lines in
    (if n =? 0 then None else Some n, {| tc_streamed := true; tc_decoder := d; tc_rest := r; tc_tail := tc_tail c |}).

(** The first match of [/"completion_tokens"\s*:\s*(\d+)/] *)
Definition is_digit_unit (c : Z) : bool := (48 <=? c) && (c <=? 57).
Fixpoint skip_white (l : list Z) : list Z := match l with c :: r => if is_white c then skip_white r else l | [] => [] end.
Fixpoint digits (l : list Z) : list Z := match l with c :: r => if is_digit_unit c then c :: digits r else [] | [] => [] end.
Definition decimal (l : list Z) : Z := foldl (fun n c => n * 10 + (c - 48)) 0 l.
Definition usage_literal : list Z := 34 :: bytes_of "completion_tokens" ++ [34].
Definition usage_here (l : list Z) : option num :=
  if bool_decide (take (length usage_literal) l = usage_literal) then
    match skip_white (drop (length usage_literal) l) with
    | 58 :: l => let ds := digits (skip_white l) in if bool_decide (ds = []) then None else Some (num_of_Z (decimal ds))
    | _ => None
    end
  else None.
Fixpoint find_usage (l : list Z) : option num :=
  match usage_here l, l with
  | Some n, _ => Some n
  | None, [] => None
  | None, _ :: l => find_usage l
  end.
(** [finish], with what it emits *)
Definition finish (c : Counter) : option num := if tc_streamed c then None else find_usage (tc_tail c).

(** ** [inferenceStream] *)

(** What the platform does with the stream: it pulls and the read of the upstream settles, or the consumer cancels. *)
Inductive Read := R_value (chunk : list Z) | R_done | R_error (why : string).
Inductive Effect :=
  | X_enqueue (chunk : list Z)
  | X_close
  | X_error (why : string)
  | X_chunk (chunk : list Z)
  | X_finish
  | X_failure (why : string)
  | X_abort.
Record Relay := { rl_sse : bool; rl_decoder : Utf8; rl_rest : list Z; rl_terminal : bool; rl_finished : bool }.
Definition newRelay (sse : bool) : Relay :=
  {| rl_sse := sse; rl_decoder := newUtf8; rl_rest := []; rl_terminal := false; rl_finished := false |}.

(** A terminal line: the end marker, or an event with an error *)
Inductive Verdict := V_none | V_done | V_error.
Definition line_verdict (line : list Z) : Verdict :=
  match data_of (trim_text line) with
  | Some data =>
      if bool_decide (data = DONE) then V_done else
      match parse_text data with
      | Some (JObj o) => if truthy_json (jget o "error") then V_error else V_none
      | _ => V_none
      end
  | None => V_none
  end.
Definition is_terminal (line : list Z) : bool := match line_verdict line with V_none => false | _ => true end.
Definition line_effects (line : list Z) : list Effect :=
  match line_verdict line with V_error => [X_failure "Upstream reported a stream error."] | _ => [] end.

Definition MAX_EVENT : Z := 1024 * 1024.
(** [inspect]: the effects, whether it threw, the state *)
Definition inspect (bytes : list Z) (s : Relay) : list Effect * option string * Relay :=
  if negb (rl_sse s) then ([], None, s) else
  let '(text, d) := decode_chunk (rl_decoder s) bytes in
  let '(lines, r) := cut_lines (rl_rest s ++ text) in
  (mjoin (line_effects <$> lines), if MAX_EVENT <? utf16_length r then Some "Upstream SSE event exceeds 1 MiB" else None,
   {| rl_sse := true; rl_decoder := d; rl_rest := r; rl_terminal := rl_terminal s || existsb is_terminal lines;
      rl_finished := rl_finished s |}).

Definition finish_once (s : Relay) : list Effect * Relay :=
  if rl_finished s then ([], s)
  else ([X_finish], {| rl_sse := rl_sse s; rl_decoder := rl_decoder s; rl_rest := rl_rest s; rl_terminal := rl_terminal s;
                       rl_finished := true |}).
Definition error_event (why : string) : list Z :=
  [10; 10] ++ bytes_of ("data: " +:+ stringify (JObj [("error", JObj [("message", JStr why); ("type", JStr "server_error");
    ("code", JStr "upstream_stream_interrupted")])])) ++ [10; 10].
(** [fail] on a stream the consumer still reads *)
Definition fail_stream (why : string) (s : Relay) : list Effect * Relay :=
  let '(x, s') := finish_once s in
  ([X_failure why; X_abort] ++ (if rl_sse s then [X_enqueue (error_event why); X_close] else [X_error why]) ++ x, s').

(** A pull; whether the stream goes on *)
Definition pull (r : Read) (s : Relay) : list Effect * Relay * bool :=
  match r with
  | R_done =>
      if rl_sse s && negb (rl_terminal s)
      then (fail_stream "Upstream stream ended before [DONE]; response is incomplete." s, false)
      else let '(x, s') := finish_once s in (x ++ [X_close], s', false)
  | R_value chunk =>
      let '(x, threw, s') := inspect chunk s in
      match threw with
      | None => (x ++ [X_chunk chunk; X_enqueue chunk], s', true)
      | Some why => let '(y, s'') := fail_stream ("Upstream stream interrupted: " +:+ why) s' in (x ++ y, s'', false)
      end
  | R_error why => (fail_stream ("Upstream stream interrupted: " +:+ why) s, false)
  end.
(** Whether the consumer gives the stream up, and if so while a pull waits for a read: that read then settles, as [r], and
    writing to the closed stream throws [closed]. *)
Inductive Interest := I_stays | I_leaves | I_leaves_waiting (r : Read) (closed : string).
(** [cancel] *)
Definition cancel (s : Relay) : list Effect * Relay := let '(x, s') := finish_once s in (x ++ [X_abort], s').
(** [fail] once the consumer has cancelled: it reports and aborts, and can neither deliver nor finish again. *)
Definition fail_closed (why : string) : list Effect := [X_failure why; X_abort].
Definition stream_cut (why : string) : string := "Upstream stream interrupted: " +:+ why.
(** The rest of a pull whose read settles after the cancel; at an early end [fail] runs in the [try] and again in the
    [catch]. *)
Definition pull_closed (r : Read) (closed : string) (s : Relay) : list Effect :=
  match r with
  | R_done =>
      (if rl_sse s && negb (rl_terminal s) then fail_closed "Upstream stream ended before [DONE]; response is incomplete." else []) ++
      fail_closed (stream_cut closed)
  | R_value chunk =>
      let '(x, threw, _) := inspect chunk s in
      x ++ match threw with
           | None => X_chunk chunk :: fail_closed (stream_cut closed)
           | Some why => fail_closed (stream_cut why)
           end
  | R_error why => fail_closed (stream_cut why)
  end.
Definition leave (i : Interest) (s : Relay) : list Effect * bool :=
  match i with
  | I_stays => ([], true)
  | I_leaves => ((cancel s).1, false)
  | I_leaves_waiting r closed => let '(x, s') := cancel s in (x ++ pull_closed r closed s', false)
  end.

(** The reads of a stream until it ends, or until the consumer gives it up; whether it is still open *)
Fixpoint relay_run (rs : list Read) (i : Interest) (s : Relay) : list Effect * bool :=
  match rs with
  | [] => leave i s
  | r :: rs => let '(x, s', more) := pull r s in
               if more : bool then let '(y, open) := relay_run rs i s' in (x ++ y, open) else (x, false)
  end.

(** ** [chatSseToCompletions] *)

Record Legacy := { lg_decoder : Utf8; lg_buffer : list Z; lg_id : json; lg_created : json; lg_model : json }.
Definition or_json (v : option json) (d : json) : json := match v with None | Some JNull => d | Some v => v end.

(** The events of the choices of a delta; [None] when reading one throws *)
Definition legacy_event (s : Legacy) (text index reason : json) : list Z :=
  bytes_of ("data: " +:+ stringify (JObj [("id", lg_id s); ("object", JStr "text_completion"); ("created", lg_created s);
    ("model", lg_model s); ("choices", JArr [JObj [("text", text); ("index", index); ("logprobs", JNull);
    ("finish_reason", reason)]])])) ++ [10; 10].
Definition legacy_choice (s : Legacy) (c : json) : option (list Z) :=
  match c with
  | JNull => None
  | _ =>
      let o := default [] (as_obj (Some c)) in
      let text := or_json (jget (default [] (as_obj (jget o "delta"))) "content") (JStr "") in
      if negb (truthy_json (Some text)) && negb (truthy_json (jget o "finish_reason")) then Some []
      else Some (legacy_event s text (or_json (jget o "index") (JNum num_zero)) (or_json (jget o "finish_reason") JNull))
  end.
Fixpoint legacy_choices (s : Legacy) (l : list json) : option (list Z) :=
  match l with [] => Some [] | c :: l => x ← legacy_choice s c; y ← legacy_choices s l; Some (x ++ y) end.
(** [chat.choices ?? []], walked *)
Definition walk (v : option json) : option (list json) :=
  match v with
  | None | Some JNull => Some []
  | Some (JArr l) => Some l
  | Some (JStr _) => Some []
  | Some _ => None
  end.
Definition with_head (o : fields) (s : Legacy) : Legacy :=
  {| lg_decoder := lg_decoder s; lg_buffer := lg_buffer s;
     lg_id := if truthy_json (jget o "id") then default JNull (jget o "id") else lg_id s;
     lg_created := match jget o "created" with Some (JNum n) => JNum n | _ => lg_created s end;
     lg_model := if truthy_json (jget o "model") then default JNull (jget o "model") else lg_model s |}.
(** A complete line: what it becomes, or a throw that ends the stream *)
Definition legacy_line (s : Legacy) (line : list Z) : option (list Z) * Legacy :=
  match data_of line with
  | None => (Some [], s)
  | Some data =>
      if bool_decide (data = DONE) then (Some (bytes_of "data: [DONE]" ++ [10; 10]), s) else
      match parse_text data with
      | None => (Some [], s)
      | Some JNull => (None, s)
      | Some v =>
          let o := default [] (as_obj (Some v)) in
          let s := with_head o s in
          (l ← walk (jget o "choices"); legacy_choices s l, s)
      end
  end.
Fixpoint legacy_lines (s : Legacy) (l : list (list Z)) : option (list Z) * Legacy :=
  match l with
  | [] => (Some [], s)
  | line :: l =>
      match legacy_line s line with
      | (None, s) => (None, s)
      | (Some x, s) => let '(y, s) := legacy_lines s l in ((fun y => x ++ y) <$> y, s)
      end
  end.
Definition legacy_chunk (s : Legacy) (chunk : list Z) : option (list Z) * Legacy :=
  let '(text, d) := decode_chunk (lg_decoder s) chunk in
  let '(lines, r) := cut_lines (lg_buffer s ++ text) in
  legacy_lines {| lg_decoder := d; lg_buffer := r; lg_id := lg_id s; lg_created := lg_created s; lg_model := lg_model s |} lines.
(** What the end of the upstream enqueues; the piece is empty when the last line is not the end marker. *)
Definition legacy_end (s : Legacy) : list (list Z) :=
  match data_of (trim_text (lg_buffer s)) with
  | Some data => [if bool_decide (data = DONE) then bytes_of "data: [DONE]" ++ [10; 10] else []]
  | None => []
  end.
(** How the client's stream ends: closed, by a line that threw in a pull, or by the upstream breaking off *)
Inductive LegacyEnd := L_closed | L_thrown | L_broken.
(** The pieces enqueued and how the stream ends.  A pull reads until a chunk gives something; a line that throws takes what
    its own chunk gave so far with it, and the pieces of earlier chunks stay. *)
Fixpoint legacy_run (s : Legacy) (chunks : list (list Z)) (broken : bool) : list (list Z) * LegacyEnd :=
  match chunks with
  | [] => if broken then ([], L_broken) else (legacy_end s, L_closed)
  | c :: chunks =>
      match legacy_chunk s c with
      | (None, _) => ([], L_thrown)
      | (Some out, s) => let '(pieces, e) := legacy_run s chunks broken in
                         (if bool_decide (out = []) then pieces else out :: pieces, e)
      end
  end.

(** ** [completionsToChat] and [chatToCompletions] *)

(** The request without its prompt, which becomes a message *)
Definition put (k : string) (v : json) (o : fields) : fields :=
  if existsb (fun kv => String.eqb kv.1 k) o then (fun kv => if String.eqb kv.1 k then (k, v) else kv) <$> o else o ++ [(k, v)].
Definition prompt_content (v : option json) : string :=
  match v with
  | Some (JArr l) => join (String (Ascii.ascii_of_nat 10) "") (js_String <$> l)
  | Some (JStr s) => s
  | _ => ""
  end.
Definition completionsToChat (path : string) (body : fields) : string * fields :=
  if negb (String.eqb path "/v1/completions") then (path, body)
  else ("/v1/chat/completions",
        put "messages" (JArr [JObj [("role", JStr "user"); ("content", JStr (prompt_content (jget body "prompt")))]])
          (List.filter (fun kv => negb (String.eqb kv.1 "prompt")) body)).

Definition legacy_text (c : fields) : json :=
  let m := default [] (as_obj (jget c "message")) in
  let content := or_json (jget m "content") (JStr "") in
  let reasoning := or_json (jget m "reasoning_content") (JStr "") in
  if truthy_json (Some content) then content else if truthy_json (Some reasoning) then reasoning else JStr "".
(** [new_id] is [cmpl-] and a random id, [nowSec] the time; [None] when it throws *)
Definition chatToCompletions (new_id : string) (nowSec : Z) (payload : json) : option json :=
  p ← match payload with JNull => None | _ => Some (default [] (as_obj (Some payload))) end;
  l ← match jget p "choices" with None | Some JNull => Some [] | Some (JArr l) => Some l | Some _ => None end;
  cs ← mapM (fun c => match c with JNull => None | _ => Some (default [] (as_obj (Some c))) end) l;
  Some (JObj [("id", or_json (jget p "id") (JStr new_id)); ("object", JStr "text_completion");
    ("created", or_json (jget p "created") (JNum (num_of_Z nowSec))); ("model", or_json (jget p "model") (JStr ""));
    ("choices", JArr (imap (fun i c => JObj [("text", legacy_text c); ("index", JNum (num_of_Z (Z.of_nat i))); ("logprobs", JNull);
       ("finish_reason", or_json (jget c "finish_reason") JNull)]) cs));
    ("usage", or_json (jget p "usage") JNull)]).
End sse.
