(* ===== verification/SseFacts.v ===== *)
(** * What passes through the router

    The readers of [Sse] see the same lines however the bytes were cut; a line that throws is where the cut shows.  The relay
    forwards the bytes while no line outgrows its bound, and says when the upstream broke off. *)

From S2P Require Import Prelude JsNum Json Canon Utf8 StageExecution Sse.

Local Open Scope string_scope.
Local Open Scope list_scope.
Local Open Scope Z_scope.

(** ** Lines *)

Lemma cut_lines_app a b : cut_lines (a ++ b) =
  let '(la, ra) := cut_lines a in let '(lb, rb) := cut_lines (ra ++ b) in (la ++ lb, rb).
Proof.
  induction a as [|x a IH]; cbn; [by destruct (cut_lines b)|]. rewrite IH. destruct (cut_lines a) as [la ra].
  destruct (x =? 10) eqn:Ex.
  - by destruct (cut_lines (ra ++ b)).
  - destruct la as [|l la]; cbn; [rewrite Ex|]; destruct (cut_lines (ra ++ b)) as [lb rb]; [by destruct lb|done].
Qed.

(** A partial line grows into the next line. *)
Lemma cut_lines_grows r b : cut_lines r = ([], r) -> exists t, hd_error ((cut_lines (r ++ b)).1 ++ [(cut_lines (r ++ b)).2]) = Some (r ++ t).
Proof.
  revert b. induction r as [|x r IH]; intros b Hr.
  - exists (default [] (hd_error ((cut_lines b).1 ++ [(cut_lines b).2]))). cbn. by destruct (cut_lines b) as [[|l lb] rb].
  - cbn in *. destruct (x =? 10) eqn:Ex; [by destruct (cut_lines r)|].
    destruct (cut_lines r) as [[|l lr] rr] eqn:Er; [|done]. injection Hr as ->. destruct (IH b eq_refl) as [t Ht].
    destruct (cut_lines (r ++ b)) as [[|l lb] rb]; cbn in *; injection Ht as ->; by exists t.
Qed.
Lemma cut_lines_rest l : cut_lines (cut_lines l).2 = ([], (cut_lines l).2).
Proof.
  induction l as [|x l IH]; [done|]. cbn. destruct (cut_lines l) as [[|k lines] r] eqn:El; cbn in *; destruct (x =? 10) eqn:Ex; cbn; try done.
  by rewrite Ex, IH.
Qed.

Lemma utf16_length_app a b : utf16_length (a ++ b) = utf16_length a + utf16_length b.
Proof. induction a as [|x a IH]; cbn; [done|]. rewrite IH. lia. Qed.
Lemma utf16_length_nonneg a : 0 <= utf16_length a.
Proof. induction a as [|x a IH]; cbn; [done|]. unfold units_of_byte. repeat case_match; lia. Qed.

(** The lines and the partial line of a text that continues [r] *)
Definition lines_of (r text : list Z) : list (list Z) := (cut_lines (r ++ text)).1.
Definition last_of (r text : list Z) : list Z := (cut_lines (r ++ text)).2.
Lemma lines_of_app r a b : lines_of r (a ++ b) = lines_of r a ++ lines_of (last_of r a) b ∧ last_of r (a ++ b) = last_of (last_of r a) b.
Proof.
  unfold lines_of, last_of. rewrite app_assoc, (cut_lines_app (r ++ a)). destruct (cut_lines (r ++ a)) as [la ra]. cbn.
  by destruct (cut_lines (ra ++ b)).
Qed.
Lemma last_of_rest r text : cut_lines (last_of r text) = ([], last_of r text).
Proof. apply cut_lines_rest. Qed.

(** What a decoder makes of the chunks *)
Definition text_from (d : Utf8) (l : list Z) : list Z := (decode_chunk d l).1.
Definition decoder_after (d : Utf8) (l : list Z) : Utf8 := (decode_chunk d l).2.
Lemma text_from_app d a b : text_from d (a ++ b) = text_from d a ++ text_from (decoder_after d a) b ∧
  decoder_after d (a ++ b) = decoder_after (decoder_after d a) b.
Proof.
  unfold text_from, decoder_after. rewrite decode_app. destruct (decode_chunk d a) as [o d1]. cbn. by destruct (decode_chunk d1 b).
Qed.

(** One chunk of a reader, whose partial line is [r], and what the others add *)
Lemma chunk_lines d r x text d1 lines r1 : decode_chunk d x = (text, d1) -> cut_lines (r ++ text) = (lines, r1) -> forall more,
  lines_of r (text_from d (x ++ more)) = lines ++ lines_of r1 (text_from d1 more) ∧
  last_of r (text_from d (x ++ more)) = last_of r1 (text_from d1 more) ∧ cut_lines r1 = ([], r1).
Proof.
  intros E1 E2 more. assert (text_from d (x ++ more) = text ++ text_from d1 more) as ->.
  { unfold text_from. rewrite decode_app, E1. by destruct (decode_chunk d1 more). }
  destruct (lines_of_app r text (text_from d1 more)) as [-> ->].
  assert (lines_of r text = lines ∧ last_of r text = r1) as [-> Hr1] by (unfold lines_of, last_of; by rewrite E2).
  rewrite Hr1. split_and!; [done..|]. rewrite <-Hr1. apply last_of_rest.
Qed.
Lemma no_more d r : cut_lines r = ([], r) -> lines_of r (text_from d []) = [] ∧ last_of r (text_from d []) = r.
Proof. intros Hr. unfold lines_of, last_of. cbn. by rewrite app_nil_r, Hr. Qed.

Section sse.
Context `{StageHost}.

(** ** The token counter *)

Fixpoint feed_all (chunks : list (list Z)) (c : Counter) : Z * Counter :=
  match chunks with
  | [] => (0, c)
  | x :: chunks => let '(n, c) := feed x c in let '(k, c) := feed_all chunks c in (default 0 n + k, c)
  end.
(** What a response adds to the count, in the stream and at its end *)
Definition counted (streamed : bool) (chunks : list (list Z)) : Z * option num :=
  let '(n, c) := feed_all chunks (newCounter streamed) in (n, finish c).

Lemma count_lines_app a b : count_lines (a ++ b) = count_lines a + count_lines b.
Proof. induction a as [|x a IH]; cbn; [done|]. fold (count_lines (a ++ b)). rewrite IH. unfold count_lines. lia. Qed.

Lemma feed_all_streamed chunks : forall d r t, cut_lines r = ([], r) ->
  let x := feed_all chunks {| tc_streamed := true; tc_decoder := d; tc_rest := r; tc_tail := t |} in
  x.1 = count_lines (lines_of r (text_from d (mjoin chunks))) ∧ tc_streamed x.2 = true.
Proof.
  induction chunks as [|x chunks IH]; intros d r t Hr; cbn [feed_all].
  - change (mjoin (@nil (list Z))) with (@nil Z). by destruct (no_more d r Hr) as [-> _].
  - unfold feed. cbn [tc_streamed negb tc_decoder tc_rest tc_tail]. change (mjoin (x :: chunks)) with (x ++ mjoin chunks).
    destruct (decode_chunk d x) as [text d1] eqn:E1. destruct (cut_lines (r ++ text)) as [lines r1] eqn:E2.
    destruct (chunk_lines d r x text d1 lines r1 E1 E2 (mjoin chunks)) as (-> & _ & Hr1). rewrite count_lines_app.
    specialize (IH d1 r1 t Hr1). destruct (feed_all chunks _) as [k c1]. cbn [fst snd] in *. destruct IH as [-> Hs].
    split; [|done]. destruct (count_lines lines =? 0) eqn:E; cbn; lia.
Qed.

(** Valid text has whole code units. *)
Lemma utf16_app a b : valid a -> utf16 (a ++ b) = utf16 a ++ utf16 b.
Proof.
  induction 1 as [|c l Hc Hl IH]; [done|]. rewrite <-app_assoc.
  assert (forall k, utf16 (c ++ k) = utf16 c ++ utf16 k) as Hk; [|by rewrite !Hk, IH, app_assoc].
  intros k. destruct Hc; cbn [app utf16]; 
    repeat match goal with |- context [?x <? ?y] => destruct (Z.ltb_spec x y); try lia end; done.
Qed.
Lemma slice_slice n a b : slice_last n (slice_last n a ++ b) = slice_last n (a ++ b).
Proof.
  unfold slice_last. rewrite !length_app, !length_drop.
  destruct (decide (length a <= n)%nat) as [Hl|Hl].
  - replace (length a - n)%nat with 0%nat by lia. by rewrite drop_0, Nat.sub_0_r.
  - rewrite !drop_app. rewrite length_drop, drop_drop. f_equal; f_equal; lia.
Qed.
Lemma feed_all_whole chunks : Forall (fun b => 0 <= b) (mjoin chunks) -> forall d t, partial d ->
  let x := feed_all chunks {| tc_streamed := false; tc_decoder := d; tc_rest := []; tc_tail := t |} in
  x.1 = 0 ∧ finish x.2 = find_usage (if bool_decide (chunks = []) then t else slice_last 4096 (t ++ utf16 (text_from d (mjoin chunks)))).
Proof.
  induction chunks as [|x chunks IH]; intros Hb d t Hd; cbn [feed_all]; [done|].
  change (mjoin (x :: chunks)) with (x ++ mjoin chunks) in *. apply Forall_app in Hb as [Hx Hb].
  unfold feed. cbn [tc_streamed negb tc_decoder tc_rest tc_tail].
  destruct (decode_chunk_ok x Hx d Hd) as [Hd1 Hv]. destruct (decode_chunk d x) as [text d1] eqn:E1. cbn [fst snd] in *.
  assert (text_from d (x ++ mjoin chunks) = text ++ text_from d1 (mjoin chunks)) as ->.
  { unfold text_from. rewrite decode_app, E1. by destruct (decode_chunk d1 _). }
  specialize (IH Hb d1 (slice_last 4096 (t ++ utf16 text)) Hd1). destruct (feed_all chunks _) as [k c1]. cbn [fst snd] in *.
  destruct IH as [-> ->]. split; [done|]. f_equal. rewrite utf16_app, app_assoc by done.
  destruct chunks as [|y chunks]; cbn [bool_decide]; [by cbn; rewrite app_nil_r|]. apply slice_slice.
Qed.

Lemma counted_lines chunks : (counted true chunks).1 = count_lines (lines_of [] (text_from newUtf8 (mjoin chunks))).
Proof.
  destruct (feed_all_streamed chunks newUtf8 [] [] eq_refl) as [H1 _]. unfold counted, newCounter. by destruct (feed_all chunks _).
Qed.
Lemma counted_whole streamed chunks : Forall (fun b => 0 <= b) (mjoin chunks) -> counted streamed chunks = counted streamed [mjoin chunks].
Proof.
  intros Hb. assert (mjoin [mjoin chunks] = mjoin chunks) as Hj by apply app_nil_r. destruct streamed.
  - destruct (feed_all_streamed chunks newUtf8 [] [] eq_refl) as [H1 H2].
    destruct (feed_all_streamed [mjoin chunks] newUtf8 [] [] eq_refl) as [H3 H4]. rewrite Hj in H3. unfold counted, newCounter.
    destruct (feed_all chunks _) as [n c], (feed_all [mjoin chunks] _) as [n' c']. cbn [fst snd] in *. unfold finish. by rewrite H2, H4, H1, H3.
  - assert (Forall (fun b => 0 <= b) (mjoin [mjoin chunks])) as Hb1 by by rewrite Hj.
    pose proof (feed_all_whole chunks Hb newUtf8 [] (partial_rest false)) as [H1 H2].
    pose proof (feed_all_whole [mjoin chunks] Hb1 newUtf8 [] (partial_rest false)) as [H3 H4]. rewrite Hj in H4. cbn [bool_decide] in H4.
    unfold counted, newCounter. destruct (feed_all chunks _) as [n c]. destruct (feed_all [mjoin chunks] _) as [n' c'].
    cbn [fst snd] in *. subst n n'. f_equal. rewrite H2, H4. by destruct chunks.
Qed.

(** ** The translation *)

Lemma legacy_lines_app a b s : legacy_lines s (a ++ b) =
  match legacy_lines s a with
  | (None, s) => (None, s)
  | (Some x, s) => let '(y, s) := legacy_lines s b in ((fun y => x ++ y) <$> y, s)
  end.
Proof.
  revert s. induction a as [|l a IH]; intros s; cbn [legacy_lines app].
  - destruct (legacy_lines s b) as [[y|] s1]; done.
  - destruct (legacy_line s l) as [[x|] s1]; [|done]. rewrite IH. destruct (legacy_lines s1 a) as [[y|] s2]; [|done].
    destruct (legacy_lines s2 b) as [[z|] s3]; cbn; [by rewrite app_assoc|done].
Qed.
(** The lines do not touch the decoder and the partial line. *)
Definition head_of (s t : Legacy) : Legacy :=
  {| lg_decoder := lg_decoder s; lg_buffer := lg_buffer s; lg_id := lg_id t; lg_created := lg_created t; lg_model := lg_model t |}.
Lemma legacy_lines_head l : forall s t, legacy_lines (head_of s t) l =
  let '(x, t') := legacy_lines t l in (x, head_of s t').
Proof.
  induction l as [|line l IH]; intros s t; cbn [legacy_lines]; [done|].
  assert (legacy_line (head_of s t) line = let '(x, t') := legacy_line t line in (x, head_of s t')) as ->.
  { unfold legacy_line. destruct (data_of line) as [data|]; [|done]. destruct (bool_decide _); [done|].
    destruct (parse_text data) as [[]|]; try done. cbn. f_equal. destruct (walk _) as [k|]; cbn; [|done].
    induction k as [|c k IHk]; cbn; [done|]. rewrite IHk. f_equal. }
  destruct (legacy_line t line) as [[x|] t1]; [|done]. rewrite IH. by destruct (legacy_lines t1 l).
Qed.

(** What the complete lines of a text become, and what its last line adds when the upstream ends *)
Definition translated_from (d : Utf8) (r : list Z) (t : Legacy) (bytes : list Z) : option (list Z) :=
  (legacy_lines t (lines_of r (text_from d bytes))).1.
Definition translated (s : Legacy) (bytes : list Z) : option (list Z) := translated_from newUtf8 [] s bytes.
Definition closing_from (d : Utf8) (r : list Z) (bytes : list Z) : list Z :=
  if bool_decide (data_of (trim_text (last_of r (text_from d bytes))) = Some DONE) then bytes_of "data: [DONE]" ++ [10; 10] else [].
Definition closing (bytes : list Z) : list Z := closing_from newUtf8 [] bytes.

(** The run over the chunks of a stream, given by its lines *)
Lemma legacy_end_closing s : mjoin (legacy_end s) =
  if bool_decide (data_of (trim_text (lg_buffer s)) = Some DONE) then bytes_of "data: [DONE]" ++ [10; 10] else [].
Proof.
  unfold legacy_end. destruct (data_of _) as [data|]; [|done]. change (mjoin [?x]) with (x ++ []). rewrite app_nil_r.
  by destruct (decide (data = DONE)) as [->|Hd]; [rewrite !bool_decide_true|rewrite !bool_decide_false by congruence].
Qed.
Lemma legacy_run_lines chunks broken : forall d r t, cut_lines r = ([], r) ->
  let run := legacy_run {| lg_decoder := d; lg_buffer := r; lg_id := lg_id t; lg_created := lg_created t; lg_model := lg_model t |}
               chunks broken in
  match translated_from d r t (mjoin chunks) with
  | Some x => run.2 = (if broken : bool then L_broken else L_closed) ∧
              mjoin run.1 = x ++ (if broken then [] else closing_from d r (mjoin chunks))
  | None => run.2 = L_thrown ∧ exists k, (k < length chunks)%nat ∧
              translated_from d r t (mjoin (take k chunks)) = Some (mjoin run.1) ∧ translated_from d r t (mjoin (take (S k) chunks)) = None
  end.
Proof.
  induction chunks as [|c chunks IH]; intros d r t Hr; cbn [legacy_run].
  - change (mjoin (@nil (list Z))) with (@nil Z). unfold translated_from, closing_from. destruct (no_more d r Hr) as [-> ->]. cbn [legacy_lines fst].
    destruct broken; cbn [fst snd]; [done|]. by rewrite legacy_end_closing.
  - unfold legacy_chunk. cbn [lg_decoder lg_buffer lg_id lg_created lg_model]. change (mjoin (c :: chunks)) with (c ++ mjoin chunks).
    destruct (decode_chunk d c) as [text d1] eqn:E1. destruct (cut_lines (r ++ text)) as [lines r1] eqn:E2.
    pose proof (fun more => chunk_lines d r c text d1 lines r1 E1 E2 more) as Hc. destruct (Hc []) as (_ & _ & Hr1).
    set (at1 := {| lg_decoder := d1; lg_buffer := r1; lg_id := JNull; lg_created := JNull; lg_model := JNull |}).
    change {| lg_decoder := d1; lg_buffer := r1; lg_id := lg_id t; lg_created := lg_created t; lg_model := lg_model t |}
      with (head_of at1 t). rewrite legacy_lines_head.
    assert (forall more, translated_from d r t (c ++ more) =
      x ← (legacy_lines t lines).1; y ← translated_from d1 r1 (legacy_lines t lines).2 more; Some (x ++ y)) as Ht.
    { intros more. unfold translated_from. destruct (Hc more) as (-> & _). rewrite legacy_lines_app.
      destruct (legacy_lines t lines) as [[x|] t1]; [|done]. cbn. by destruct (legacy_lines t1 _) as [[y|] t2]. }
    assert (forall more, closing_from d r (c ++ more) = closing_from d1 r1 more) as Hl.
    { intros more. unfold closing_from. by destruct (Hc more) as (_ & -> & _). }
    rewrite Ht, Hl. destruct (legacy_lines t lines) as [[x|] t1]; cbn [fst snd mbind option_bind] in *.
    + pose proof (IH d1 r1 t1 Hr1) as Hrun. cbn zeta in Hrun.
      change {| lg_decoder := d1; lg_buffer := r1; lg_id := lg_id t1; lg_created := lg_created t1; lg_model := lg_model t1 |}
        with (head_of at1 t1) in Hrun.
      destruct (legacy_run (head_of at1 t1) chunks broken) as [pieces e]. cbn [fst snd] in *.
      assert (mjoin (if bool_decide (x = []) then pieces else x :: pieces) = x ++ mjoin pieces) as ->.
      { case_bool_decide; [by subst|done]. }
      destruct (translated_from d1 r1 t1 (mjoin chunks)) as [y|]; cbn [mbind option_bind].
      * destruct Hrun as [-> ->]. by rewrite app_assoc.
      * destruct Hrun as (-> & k & Hk & H1 & H2). split; [done|]. exists (S k). split; [cbn; lia|].
        change (mjoin (take (S ?n) (c :: chunks))) with (c ++ mjoin (take n chunks)). by rewrite !Ht, H1, H2.
    + split; [done|]. exists 0%nat. split; [cbn; lia|].
      change (mjoin (take 1 (c :: chunks))) with (c ++ mjoin (take 0 chunks)). rewrite Ht. split; [|done].
      unfold translated_from. change (mjoin (take 0 (c :: chunks))) with (@nil Z). by destruct (no_more d r Hr) as [-> _].
Qed.

(** ** The relay *)

Definition sent (x : list Effect) : list Z := mjoin (omap (fun e => match e with X_enqueue c => Some c | _ => None end) x).
Definition finishes (x : list Effect) : list Effect := List.filter (fun e => match e with X_finish => true | _ => false end) x.
Definition failures (x : list Effect) : list string := omap (fun e => match e with X_failure w => Some w | _ => None end) x.

Lemma sent_app a b : sent (a ++ b) = sent a ++ sent b.
Proof. unfold sent. rewrite omap_app. apply join_app. Qed.
Lemma finishes_app a b : finishes (a ++ b) = finishes a ++ finishes b.
Proof. apply List.filter_app. Qed.
Lemma lines_quiet l : sent (mjoin (line_effects <$> l)) = [] ∧ finishes (mjoin (line_effects <$> l)) = [].
Proof.
  induction l as [|line l [IH1 IH2]]; [done|]. change (mjoin (line_effects <$> line :: l)) with (line_effects line ++ mjoin (line_effects <$> l)).
  rewrite sent_app, finishes_app, IH1, IH2. unfold line_effects. by destruct (line_verdict line).
Qed.

(** The hook runs once, when the stream is over. *)
Lemma inspect_frame c s : let '(x, _, s') := inspect c s in finishes x = [] ∧ rl_finished s' = rl_finished s ∧ sent x = [] ∧ rl_sse s' = rl_sse s.
Proof.
  unfold inspect. destruct (rl_sse s) eqn:Es; cbn [negb]; [|done]. destruct (decode_chunk _ _) as [text d]. destruct (cut_lines _) as [lines r].
  cbn. destruct (lines_quiet lines) as [-> ->]. done.
Qed.
Lemma fail_finishes why s : rl_finished s = false -> finishes (fail_stream why s).1 = [X_finish].
Proof.
  intros Hs. unfold fail_stream, finish_once. rewrite Hs. cbn [fst]. rewrite !finishes_app. by destruct (rl_sse s).
Qed.
Lemma pull_closed_finishes r closed s : finishes (pull_closed r closed s) = [].
Proof.
  destruct r as [c| |why]; cbn [pull_closed]; [|by destruct (rl_sse s && negb (rl_terminal s))|done].
  pose proof (inspect_frame c s) as Hf. destruct (inspect c s) as [[x threw] s']. destruct Hf as (Hx & _).
  rewrite finishes_app, Hx. by destruct threw.
Qed.
Lemma relay_finishes rs : forall cancelled s, rl_finished s = false ->
  finishes (relay_run rs cancelled s).1 = if (relay_run rs cancelled s).2 : bool then [] else [X_finish].
Proof.
  induction rs as [|r rs IH]; intros cancelled s Hs; cbn [relay_run].
  - unfold leave, cancel, finish_once. rewrite Hs. destruct cancelled as [| |r closed]; [done..|]. cbn [fst snd].
    by rewrite !finishes_app, pull_closed_finishes.
  - destruct r as [c| |why]; cbn [pull].
    + pose proof (inspect_frame c s) as Hf. destruct (inspect c s) as [[x threw] s']. destruct Hf as (Hx & Hs' & _). rewrite Hs in Hs'.
      destruct threw as [why|].
      * pose proof (fail_finishes ("Upstream stream interrupted: " +:+ why) s' Hs') as Hf. destruct (fail_stream _ s') as [y s2].
        cbn [fst snd] in *. by rewrite finishes_app, Hx, Hf.
      * specialize (IH cancelled s' Hs'). destruct (relay_run rs cancelled s') as [y open]. cbn [fst snd] in *.
        by rewrite !finishes_app, Hx, IH.
    + destruct (rl_sse s && negb (rl_terminal s)).
      * pose proof (fail_finishes "Upstream stream ended before [DONE]; response is incomplete." s Hs) as Hf.
        destruct (fail_stream _ s) as [y s2]. exact Hf.
      * unfold finish_once. by rewrite Hs.
    + pose proof (fail_finishes ("Upstream stream interrupted: " +:+ why) s Hs) as Hf. destruct (fail_stream _ s) as [y s2]. exact Hf.
Qed.

(** No line is longer than the bound. *)
Definition bounded (r : list Z) (d : Utf8) (bytes : list Z) : Prop :=
  Forall (fun l => utf16_length l <= MAX_EVENT) (last_of r (text_from d bytes) :: lines_of r (text_from d bytes)).

Lemma bounded_step d r x text d1 lines r1 more : decode_chunk d x = (text, d1) -> cut_lines (r ++ text) = (lines, r1) ->
  bounded r d (x ++ more) -> bounded r1 d1 more ∧ utf16_length r1 <= MAX_EVENT.
Proof.
  intros E1 E2 Hb. destruct (chunk_lines d r x text d1 lines r1 E1 E2 more) as (Hl & Hr & Hr1). unfold bounded in *.
  rewrite Hl, Hr in Hb. apply Forall_cons in Hb as [Hb1 [_ Hb2]%Forall_app]. split; [by constructor|].
  destruct (cut_lines_grows r1 (text_from d1 more) Hr1) as [t Ht]. unfold lines_of, last_of in *.
  assert (utf16_length (r1 ++ t) <= MAX_EVENT) as Hlen.
  { destruct (cut_lines (r1 ++ text_from d1 more)) as [[|l k] q]; cbn in *; injection Ht as <-; [done|]. by apply Forall_cons in Hb2 as [? _]. }
  rewrite utf16_length_app in Hlen. pose proof (utf16_length_nonneg t). lia.
Qed.

Definition broke_off : string := "Upstream stream ended before [DONE]; response is incomplete.".
(** What the consumer is sent last, when the upstream ends or breaks *)
Definition farewell (sse complete : bool) (end_ : Read) : list Z :=
  match end_ with
  | R_done => if sse && negb complete then error_event broke_off else []
  | R_error why => if sse then error_event ("Upstream stream interrupted: " +:+ why) else []
  | R_value _ => []
  end.
Lemma relay_end end_ s : match end_ with R_value _ => False | _ => True end -> rl_finished s = false ->
  sent (relay_run [end_] I_stays s).1 = farewell (rl_sse s) (rl_terminal s) end_ ∧ (relay_run [end_] I_stays s).2 = false.
Proof.
  intros He Hs. destruct end_ as [c| |why]; [done| |]; cbn [relay_run pull]; unfold fail_stream, finish_once; rewrite Hs; cbn [fst snd].
  - destruct (rl_sse s) eqn:E1; destruct (rl_terminal s) eqn:E2; cbn; rewrite ?app_nil_r; done.
  - destruct (rl_sse s) eqn:E1; cbn; rewrite ?app_nil_r; done.
Qed.

(** What the last, unfinished line holds when [bytes] have come *)
Definition unfinished (d : Utf8) (r : list Z) (bytes : list Z) : Z := utf16_length (last_of r (text_from d bytes)).
Definition too_long : string := "Upstream stream interrupted: Upstream SSE event exceeds 1 MiB".
(** An event stream is forwarded up to the chunk that leaves an unfinished line beyond the bound, and ended there. *)
Lemma relay_values chunks end_ : match end_ with R_value _ => False | _ => True end -> forall d r term, cut_lines r = ([], r) ->
  utf16_length r <= MAX_EVENT -> exists k, (k <= length chunks)%nat ∧
  sent (relay_run ((R_value <$> chunks) ++ [end_]) I_stays
          {| rl_sse := true; rl_decoder := d; rl_rest := r; rl_terminal := term; rl_finished := false |}).1 =
    mjoin (take k chunks) ++ (if decide (k = length chunks)
                              then farewell true (term || existsb is_terminal (lines_of r (text_from d (mjoin chunks)))) end_
                              else error_event too_long) ∧
  (forall j, (j <= k)%nat -> unfinished d r (mjoin (take j chunks)) <= MAX_EVENT) ∧
  ((k < length chunks)%nat -> MAX_EVENT < unfinished d r (mjoin (take (S k) chunks))).
Proof.
  intros He. assert (forall d r, cut_lines r = ([], r) -> unfinished d r (@mjoin list _ Z []) = utf16_length r) as Hu.
  { intros d r Hr. unfold unfinished. change (mjoin (@nil (list Z))) with (@nil Z). by destruct (no_more d r Hr) as [_ ->]. }
  induction chunks as [|c chunks IH]; intros d r term Hr Hlen.
  - exists 0%nat. change (mjoin (@nil (list Z))) with (@nil Z). destruct (no_more d r Hr) as [-> _]. rewrite orb_false_r.
    change ((R_value <$> []) ++ [end_]) with [end_]. split; [done|]. split; [|split; [intros j _; rewrite take_nil, Hu by done; done|cbn; lia]].
    by destruct (relay_end end_ {| rl_sse := true; rl_decoder := d; rl_rest := r; rl_terminal := term; rl_finished := false |} He eq_refl).
  - change (mjoin (c :: chunks)) with (c ++ mjoin chunks).
    change ((R_value <$> c :: chunks) ++ [end_]) with (R_value c :: ((R_value <$> chunks) ++ [end_])).
    cbn [relay_run pull]. unfold inspect. cbn [rl_sse negb rl_decoder rl_rest rl_terminal rl_finished].
    destruct (decode_chunk d c) as [text d1] eqn:E1. destruct (cut_lines (r ++ text)) as [lines r1] eqn:E2.
    pose proof (fun more => chunk_lines d r c text d1 lines r1 E1 E2 more) as Hc. destruct (Hc []) as (_ & _ & Hr1).
    assert (forall more, unfinished d r (c ++ more) = unfinished d1 r1 more) as Hstep.
    { intros more. unfold unfinished. by destruct (Hc more) as (_ & -> & _). }
    destruct (lines_quiet lines) as [Hq _]. destruct (Z.ltb_spec MAX_EVENT (utf16_length r1)) as [Hlong|Hfit].
    + exists 0%nat. split; [cbn; lia|]. split; [|split].
      * unfold fail_stream, finish_once. cbn [rl_finished rl_sse fst]. rewrite sent_app, Hq. cbn. by rewrite app_nil_r.
      * intros j Hj. assert (j = 0%nat) as -> by lia. change (take 0 (c :: chunks)) with (@nil (list Z)). by rewrite Hu.
      * intros _. change (mjoin (take 1 (c :: chunks))) with (c ++ mjoin (take 0 chunks)). by rewrite Hstep, Hu.
    + destruct (IH d1 r1 (term || existsb is_terminal lines) Hr1 Hfit) as (k & Hk & Hs & Hbefore & Hafter).
      exists (S k). split; [cbn; lia|]. split; [|split].
      * destruct (relay_run _ I_stays _) as [x open]. cbn [fst] in *. rewrite !sent_app, Hq, Hs.
        destruct (Hc (mjoin chunks)) as (-> & _). rewrite existsb_app, orb_assoc. cbn [app sent omap list_omap]. unfold sent. cbn.
        rewrite app_nil_r, <-app_assoc. f_equal. f_equal. by destruct (decide (k = length chunks)) as [->|]; [rewrite decide_True|rewrite decide_False by lia].
      * intros [|j] Hj; [by change (take 0 (c :: chunks)) with (@nil (list Z)); rewrite Hu|].
        change (mjoin (take (S j) (c :: chunks))) with (c ++ mjoin (take j chunks)). rewrite Hstep. apply Hbefore. lia.
      * intros Hlt. change (mjoin (take (S (S k)) (c :: chunks))) with (c ++ mjoin (take (S k) chunks)). rewrite Hstep. apply Hafter. cbn in Hlt. lia.
Qed.
Lemma bounded_unfinished chunks k : bounded [] newUtf8 (mjoin chunks) -> unfinished newUtf8 [] (mjoin (take k chunks)) <= MAX_EVENT.
Proof.
  rewrite <-(take_drop k chunks) at 1. rewrite join_app. intros Hb. unfold unfinished, text_from, last_of.
  destruct (decode_chunk newUtf8 (mjoin (take k chunks))) as [text d1] eqn:E1. cbn [fst].
  destruct (cut_lines ([] ++ text)) as [lines r1] eqn:E2. by destruct (bounded_step newUtf8 [] _ text d1 lines r1 _ E1 E2 Hb).
Qed.
(** Any other body is forwarded whole. *)
Lemma relay_plain chunks end_ : match end_ with R_value _ => False | _ => True end -> forall t,
  sent (relay_run ((R_value <$> chunks) ++ [end_]) I_stays (newRelay false)).1 = mjoin chunks ++ farewell false t end_.
Proof.
  intros He t. induction chunks as [|c chunks IH].
  - change ((R_value <$> []) ++ [end_]) with [end_]. destruct (relay_end end_ (newRelay false) He eq_refl) as [-> _]. by destruct end_.
  - change ((R_value <$> c :: chunks) ++ [end_]) with (R_value c :: ((R_value <$> chunks) ++ [end_])).
    cbn [relay_run pull]. unfold inspect. cbn [newRelay rl_sse negb]. fold (newRelay false). destruct (relay_run _ _ _) as [x open].
    cbn [fst] in *. rewrite sent_app, IH. change (mjoin (c :: chunks)) with (c ++ mjoin chunks).
    rewrite <-app_assoc. f_equal. apply app_nil_r.
Qed.
End sse.

(** C38: The relay is transparent and never hides a broken stream.  The chunks are forwarded byte for byte and in order, all of
    them unless the upstream is an event stream whose unfinished line outgrows 1 MiB: then the chunk that brings it there is
    the first not forwarded, and an explicit error event ends the stream.  While no line of the stream is longer than
    1 MiB nothing is lost however the bytes were cut: every byte is forwarded, and an event stream that ends before its end
    marker or an error, or that breaks, is closed with an explicit error event.  Whatever the upstream and the consumer do, the
    request is released exactly once. *)
Theorem relay_truthful `{StageHost} sse chunks end_ : match end_ with R_value _ => False | _ => True end ->
  let out := sent (relay_run ((R_value <$> chunks) ++ [end_]) I_stays (newRelay sse)).1 in
  let last := farewell sse (existsb is_terminal (lines_of [] (text_from newUtf8 (mjoin chunks)))) end_ in
  let held k := unfinished newUtf8 [] (mjoin (take k chunks)) in
  (exists k, (k <= length chunks)%nat ∧
     out = mjoin (take k chunks) ++ (if decide (k = length chunks) then last else error_event too_long) ∧
     (sse = true -> forall j, (j <= k)%nat -> held j <= MAX_EVENT) ∧
     ((k < length chunks)%nat -> sse = true ∧ MAX_EVENT < held (S k))) ∧
  ((sse = true -> bounded [] newUtf8 (mjoin chunks)) -> out = mjoin chunks ++ last) ∧
  (forall rs cancelled, finishes (relay_run rs cancelled (newRelay sse)).1 =
     if (relay_run rs cancelled (newRelay sse)).2 : bool then [] else [X_finish]).
Proof.
  intros He. cbn zeta. split; [|split; [|intros rs cancelled; by apply relay_finishes]].
  - destruct sse.
    + destruct (relay_values chunks end_ He newUtf8 [] false eq_refl ltac:(done)) as (k & Hk & Hs & Hbefore & Hafter).
      exists k. split; [done|]. split; [exact Hs|]. split; [by intros _|]. intros Hlt. split; [done|by apply Hafter].
    + exists (length chunks). rewrite decide_True, firstn_all by done. split; [done|]. split; [|split; [done|lia]]. by apply relay_plain.
  - intros Hb. destruct sse; [|by apply relay_plain].
    destruct (relay_values chunks end_ He newUtf8 [] false eq_refl ltac:(done)) as (k & Hk & Hs & _ & Hafter).
    assert (k = length chunks) as ->.
    { destruct (decide (k = length chunks)); [done|]. pose proof (bounded_unfinished chunks (S k) (Hb eq_refl)). lia. }
    rewrite decide_True, firstn_all in Hs by done. exact Hs.
Qed.

(** C39: How a response was cut does not change what the readers make of it, but for one case.  The tokens counted in a stream
    and at its end are functions of the bytes alone, and those of an event stream are the tokens of its complete lines.  The
    stream of a legacy client is the translation of the complete lines, with the end marker if the last line is one, and how
    it ends is the same for every cut.  If a line throws, the client gets exactly the translation of the chunks before the
    one that completes that line, and the stream fails: this part alone depends on the cut. *)
Theorem readers_of_cut_streams `{StageHost} streamed chunks s broken : Forall (fun b => 0 <= b) (mjoin chunks) ->
  lg_decoder s = newUtf8 -> lg_buffer s = [] ->
  (counted streamed chunks = counted streamed [mjoin chunks] ∧
   (counted true chunks).1 = count_lines (lines_of [] (text_from newUtf8 (mjoin chunks)))) ∧
  (let run := legacy_run s chunks broken in
   match translated s (mjoin chunks) with
   | Some x => run.2 = (if broken then L_broken else L_closed) ∧
               mjoin run.1 = x ++ (if broken then [] else closing (mjoin chunks))
   | None => run.2 = L_thrown ∧ exists k, (k < length chunks)%nat ∧
               translated s (mjoin (take k chunks)) = Some (mjoin run.1) ∧ translated s (mjoin (take (S k) chunks)) = None
   end) ∧
  (forall chunks', mjoin chunks' = mjoin chunks ->
   (legacy_run s chunks' broken).2 = (legacy_run s chunks broken).2 ∧
   ((legacy_run s chunks broken).2 ≠ L_thrown -> mjoin (legacy_run s chunks' broken).1 = mjoin (legacy_run s chunks broken).1)).
Proof.
  intros Hb Hd Hr. split; [by split; [apply counted_whole|apply counted_lines]|].
  destruct s as [d b i cr mo]. cbn in Hd, Hr. subst d b.
  pose proof (fun k => legacy_run_lines k broken newUtf8 [] (Build_Legacy newUtf8 [] i cr mo) eq_refl) as Hrun.
  cbn [lg_id lg_created lg_model] in Hrun. cbn zeta in Hrun. split; [exact (Hrun chunks)|].
  intros chunks' Hj. pose proof (Hrun chunks') as H1. pose proof (Hrun chunks) as H2. rewrite Hj in H1.
  destruct (translated_from _ _ _ _) as [x|]; destruct H1 as [-> H1], H2 as [-> H2]; [by rewrite H1, H2|done].
Qed.

Section demo_sse.
#[local] Instance sse_host : StageHost :=
  {| sh_json := {| num_string := fun n => pretty (default 0 (as_int n));
                   JSON_parse := fun s =>
                     if String.eqb s "t" then Some (JObj [("choices", JArr [JObj [("text", JStr "a")]])]) else
                     if String.eqb s "d" then Some (JObj [("choices", JArr [JObj [("delta", JObj [("content", JStr "a")])]])]) else
                     if String.eqb s "null" then Some JNull else None |};
     Number_of := fun _ => num_zero; sha256_hex := fun _ => "" |}.
(** An event, cut inside its first word, and the end marker *)
Definition cut_stream : list (list Z) := [bytes_of "da"; bytes_of "ta: t" ++ [10; 10]; bytes_of "data: [DONE]" ++ [10]].

Definition broken_stream : list (list Z) := [bytes_of "da"; bytes_of "ta: t" ++ [10; 10]].

Lemma relay_truthful_witness :
  bounded [] newUtf8 (mjoin broken_stream) ∧
  sent (relay_run ((R_value <$> broken_stream) ++ [R_done]) I_stays (newRelay true)).1 =
    mjoin broken_stream ++ farewell true (existsb is_terminal (lines_of [] (text_from newUtf8 (mjoin broken_stream)))) R_done ∧
  existsb is_terminal (lines_of [] (text_from newUtf8 (mjoin broken_stream))) = false.
Proof.
  assert (bounded [] newUtf8 (mjoin broken_stream)) as Hb.
  { unfold bounded. apply (bool_decide_eq_true_1 _). vm_compute. reflexivity. }
  split; [exact Hb|]. split; [|vm_compute; reflexivity].
  exact (proj1 (proj2 (relay_truthful true broken_stream R_done I)) (fun _ => Hb)).
Defined.

Definition legacy_start : Legacy :=
  {| lg_decoder := newUtf8; lg_buffer := []; lg_id := JStr "i"; lg_created := JNum num_zero; lg_model := JStr "m" |}.
(** A good event, and then one that is no object *)
Definition throwing_stream : list (list Z) := [bytes_of "data: d" ++ [10; 10]; bytes_of "data: null" ++ [10; 10]].
Lemma readers_of_cut_streams_witness :
  (counted true cut_stream = counted true [mjoin cut_stream] ∧ (counted true cut_stream).1 = 1) ∧
  (exists x, translated legacy_start (mjoin cut_stream) = Some x ∧
     mjoin (legacy_run legacy_start cut_stream false).1 = x ++ closing (mjoin cut_stream)) ∧
  (legacy_run legacy_start throwing_stream false).2 = L_thrown.
Proof.
  destruct (readers_of_cut_streams true cut_stream legacy_start false
    ltac:(apply (bool_decide_eq_true_1 _); vm_compute; reflexivity) eq_refl eq_refl) as ((H1 & H2) & H3 & _).
  destruct (readers_of_cut_streams true throwing_stream legacy_start false
    ltac:(apply (bool_decide_eq_true_1 _); vm_compute; reflexivity) eq_refl eq_refl) as (_ & H4 & _).
  cbn zeta in H3, H4. destruct (translated legacy_start (mjoin throwing_stream)) as [x'|] eqn:E'; [discriminate E'|].
  split; [split; [exact H1|vm_compute; reflexivity]|]. split; [|exact (proj1 H4)].
  destruct (translated legacy_start (mjoin cut_stream)) as [x|] eqn:E; [|discriminate E].
  exists x. split; [reflexivity|exact (proj2 H3)].
Defined.

(** The same bytes in one chunk: the client does not get the good event. *)
Example throw_depends_on_cut :
  (legacy_run legacy_start throwing_stream false).1 ≠ [] ∧ legacy_run legacy_start [mjoin throwing_stream] false = ([], L_thrown).
Proof. split; [discriminate|reflexivity]. Qed.
End demo_sse.
