(* ===== verification/Router.v ===== *)
(** * The router (control/router.ts, control/stage-router.ts)

    Requests of the OpenAI style are matched to the deployments in service.  [accept] is everything the router does from the
    parsed body to the reservation of the deployment, without an await in between; [native_response] is the answer of a
    native deployment that is not streamed; [forward_of] and [reply_of] are what is sent to another server and what comes
    back. *)

From S2P Require Import Prelude JsNum Json Types Canon Planner Registry Resources Manager Deployments Utf8 StageExecution Sse.

Local Open Scope string_scope.
Local Open Scope list_scope.
Local Open Scope Z_scope.

Section router.
Context `{StageHost}.

(** ** [parseNativeRequest] *)

Definition request_object (v : option json) : result string fields :=
  match as_obj v with Some o => Ok o | None => Err "request must be a JSON object" end.
Definition only_keys (o : fields) (allowed : list string) : result string unit :=
  match List.filter (fun k => negb (bool_decide (k ∈ allowed))) (keys o) with
  | [] => Ok tt
  | k :: _ => Err ("native execution does not support option '" +:+ k +:+ "'")
  end.

Definition parse_role (s : string) : option Role :=
  if String.eqb s "system" then Some r_system else if String.eqb s "user" then Some r_user
  else if String.eqb s "assistant" then Some r_assistant else None.
Definition parse_message (v : json) : result string Message :=
  m ← request_object (Some v);
  only_keys m ["role"; "content"] ;;
  match as_str (jget m "role") ≫= parse_role, as_str (jget m "content") with
  | Some r, Some c => Ok {| ms_role := r; ms_content := c |}
  | _, _ => Err "native messages require system/user/assistant role and string content"
  end.

Definition model_ok (v : option json) : bool :=
  match v with
  | None => true
  | Some (JStr s) => negb (String.eqb s "") && (utf16_length (bytes_of s) <=? 256)
  | Some _ => false
  end.
Definition stream_options_ok (q : fields) : result string unit :=
  match jget q "stream_options" with
  | None => Ok tt
  | Some o =>
      if negb (strict_eq (jget q "stream") (Some (JBool true))) then Err "stream_options requires stream=true" else
      options ← request_object (Some o);
      only_keys options ["include_usage"] ;;
      if isBool (jget options "include_usage") then Ok tt else Err "stream_options.include_usage must be a boolean"
  end.

(** The request, or why native execution refuses it *)
Definition parseNativeRequest (body : json) (path : string) : result string StageGenerationRequest :=
  let chat := String.eqb path "/v1/chat/completions" in
  if negb chat && negb (String.eqb path "/v1/completions") then Err ("native execution does not support " +:+ path) else
  q ← request_object (Some body);
  only_keys q ["model"; if chat then "messages" else "prompt"; "max_tokens"; "temperature"; "n"; "stream"; "stream_options"] ;;
  if negb (model_ok (jget q "model")) then Err "model must be a nonempty string" else
  let maxTokens := match jget q "max_tokens" with None => Some (JNum (num_of_Z 64)) | v => v end in
  match as_num maxTokens, integer maxTokens 1 128 with
  | Some limit, Some _ =>
      if match jget q "temperature" with None => false | v => negb (is_number 0 v) end
      then Err "native execution supports only temperature 0" else
      if match jget q "n" with None => false | v => negb (is_number 1 v) end then Err "native execution supports only n=1" else
      if match jget q "stream" with None => false | v => negb (isBool v) end then Err "stream must be a boolean" else
      stream_options_ok q ;;
      if chat then
        match as_arr (jget q "messages") with
        | Some l =>
            if bool_decide (l = []) || (64 <? length l)%nat then Err "messages must contain 1 to 64 text messages" else
            ms ← mapM_result parse_message l;
            if 65536 <? byteLength (stringify (JArr (message_json <$> ms))) then Err "messages exceed the 65536 byte bound" else
            Ok {| gq_prompt := None; gq_messages := Some ms; gq_maxTokens := limit; gq_temperature := Some num_zero |}
        | None => Err "messages must contain 1 to 64 text messages"
        end
      else
        match as_str (jget q "prompt") with
        | Some p =>
            if String.eqb p "" || (65536 <? byteLength p) then Err "prompt must be a nonempty string of at most 65536 bytes" else
            Ok {| gq_prompt := Some p; gq_messages := None; gq_maxTokens := limit; gq_temperature := Some num_zero |}
        | None => Err "prompt must be a nonempty string of at most 65536 bytes"
        end
  | _, _ => Err "max_tokens must be an integer from 1 to 128"
  end.

(** ** The choice of a deployment *)

(** [nativeReady] and [nativeLifetimes] hold the lifetime of the workers a deployment was last used with. *)
Record Router := { rt_native : Executor; rt_ready : gmap string nat; rt_lifetimes : gmap string nat }.
Definition newRouter : Router := {| rt_native := newExecutor; rt_ready := ∅; rt_lifetimes := ∅ |}.
Definition on_native (e : Executor) (r : Router) : Router := {| rt_native := e; rt_ready := rt_ready r; rt_lifetimes := rt_lifetimes r |}.

Definition isNative (r : Route) : bool := is_native (ro_kind r).
Definition is_pinned (pin : string) (r : Route) : bool := String.eqb (ro_id r) pin || String.eqb (ro_name r) pin.

(** Least load, then the shorter round trip *)
Definition rtt (r : Route) : num := default (num_of_Z 1000000000) (ro_rttMs r).
Definition better (a b : Route) : bool :=
  if ro_inflight a =? ro_inflight b then negb (num_ltb num_zero (num_sub (rtt a) (rtt b))) else ro_inflight a <? ro_inflight b.

Definition candidates_of (table : list (string * list Route)) (model : option json) : list Route :=
  if truthy_json model then
    match as_str model ≫= fun s => find (fun m => String.eqb m.1 s) table with Some m => m.2 | None => [] end
  else match table with [m] => m.2 | _ => [] end.
Definition no_candidate (model : option json) : string :=
  if truthy_json model then "no ready deployment serves model '" +:+ js_String (default JNull model) +:+ "'"
  else "specify a model (see /v1/models)".
Definition pin_of (pinned : option string) : option string :=
  match pinned with Some p => if String.eqb p "" then None else Some p | None => None end.

Definition choose (table : list (string * list Route)) (native : Executor) (body : json) (path : string) (pinned : option string)
    : result (Z * string) Route :=
  let model := jget (default [] (as_obj (Some body))) "model" in
  let pin := pin_of pinned in
  let all := candidates_of table model in
  if bool_decide (all = []) then Err (404, no_candidate model) else
  candidates ← (if existsb isNative all then
      match parseNativeRequest body path with
      | Ok _ => Ok all
      | Err why =>
          if holds (fun p => existsb (fun c => isNative c && is_pinned p c) all) pin then Err (400, why) else
          let others := List.filter (fun c => negb (isNative c)) all in
          if bool_decide (others = []) then Err (400, why) else Ok others
      end
    else Ok all);
  pick ← match pin with
    | Some p => match find (is_pinned p) candidates with
                | Some r => Ok (Some r)
                | None => Err (409, "deployment '" +:+ p +:+ "' is not ready for model '" +:+
                                    match model with None => "undefined" | Some v => js_String v end +:+ "'")
                end
    | None => Ok (hd_error (js_sort better (List.filter (fun c => negb (isNative c) || negb (isBusy (ro_id c) native)) candidates)))
    end;
  match pick with
  | Some r => if isNative r && isBusy (ro_id r) native
              then Err (429, "native deployment is busy; retry after the active request finishes") else Ok r
  | None => Err (429, "native deployment is busy; retry after the active request finishes")
  end.

(** ** Admission *)

Inductive Decision :=
  | D_models (l : list (string * nat))
  | D_refuse (status : Z) (why : string)
  | D_serve (r : Route) (native : option (NativeExecutionPlacement * nat)).

Definition State : Type := Mgr * Router.
Definition on_mgr {A} (x : M Mgr string A) : M State string A := fun s =>
  let '(a, m) := x s.1 in (a, (m, s.2)).
Definition on_executor {A} (x : M Executor string A) : M State string A := fun s =>
  let '(a, e) := x (rt_native s.2) in (a, (s.1, on_native e s.2)).
Definition note_ready (id : string) (life : nat) (s : State) : State :=
  (s.1, {| rt_native := rt_native s.2; rt_ready := <[id := life]> (rt_ready s.2); rt_lifetimes := rt_lifetimes s.2 |}).
Definition note_lifetime (id : string) (life : nat) (s : State) : State :=
  (s.1, {| rt_native := rt_native s.2; rt_ready := rt_ready s.2; rt_lifetimes := <[id := life]> (rt_lifetimes s.2) |}).

Definition SERVED : list string := ["/v1/chat/completions"; "/v1/completions"; "/v1/embeddings"].

(** The deployment is reserved before anything is awaited. *)
Definition reserve (r : Route) : M State string Decision :=
  s ← mget;
  if isNative r then
    match nativeExecution s.1 (ro_id r) with
    | None => mret (D_refuse 503 "native deployment is no longer ready")
    | Some (plan, life) =>
        mwhen (negb (bool_decide (rt_ready s.2 !! ro_id r = Some life)))
          (on_executor (acknowledgeRecovery (ro_id r)) ;; mmodify (note_ready (ro_id r) life)) ;;
        on_mgr (trackInflight (ro_id r) 1) ;;
        mmodify (note_lifetime (ro_id r) life) ;;
        mret (D_serve r (Some (plan, life)))
    end
  else on_mgr (trackInflight (ro_id r) 1) ;; mret (D_serve r None).

(** From the table as it is when the body has arrived *)
Definition accept_body (body : json) (path : string) (pinned : option string) : M State string Decision :=
  table ← on_mgr routing;
  s ← mget;
  match choose table (rt_native s.2) body path pinned with
  | Err (status, why) => mret (D_refuse status why)
  | Ok r => reserve r
  end.
(** [bodyText] is the body once it has arrived.  The table is made when the request comes in, which is all that
    [/v1/models] needs, and again for the choice. *)
Definition accept (isPost : bool) (path bodyText : string) (pinned : option string) : M State string Decision :=
  table ← on_mgr routing;
  if String.eqb path "/v1/models" then mret (D_models ((fun m => (m.1, length m.2)) <$> table)) else
  if negb (bool_decide (path ∈ SERVED)) then mret (D_refuse 404 ("unsupported path " +:+ path)) else
  if negb isPost then mret (D_refuse 405 "POST required") else
  match JSON_parse bodyText with
  | None | Some JNull => mret (D_refuse 400 "body is not JSON")
  | Some body => accept_body body path pinned
  end.

(** A request gives its place back once. *)
Definition release_place (id : string) (released : bool) : M State string bool :=
  if released then mret true else on_mgr (trackInflight id (-1)) ;; mret true.

(** The plan the executor runs *)
Definition stage_plan (id : string) (np : NativeExecutionPlacement) : StageExecutionPlan :=
  {| xp_deploymentId := id; xp_mode := np_mode np; xp_profile := np_profile np; xp_endpoints := sw_endpoint <$> np_endpoints np;
     xp_qualification := np_stateTransferQualification np |}.

(** ** Answers *)

Definition error_body (why kind : string) : json := JObj [("error", JObj [("message", JStr why); ("type", JStr kind)])].
Definition finish_json (r : FinishReason) : json := JStr (match r with f_stop => "stop" | f_length => "length" end).
Definition usage (g : StageGenerationResult) : json :=
  JObj [("prompt_tokens", JNum (num_of_Z (gr_promptTokens g))); ("completion_tokens", JNum (num_of_Z (gr_completionTokens g)));
        ("total_tokens", JNum (num_of_Z (gr_promptTokens g + gr_completionTokens g)))].
Definition native_reply (chat : bool) (id model : string) (created : Z) (g : StageGenerationResult) : json :=
  JObj [("id", JStr id); ("object", JStr (if chat then "chat.completion" else "text_completion")); ("created", JNum (num_of_Z created));
    ("model", JStr model);
    ("choices", JArr [if chat then JObj [("index", JNum num_zero);
         ("message", JObj [("role", JStr "assistant"); ("content", JStr (text_of (gr_text g)))]); ("finish_reason", finish_json (gr_finishReason g))]
       else JObj [("index", JNum num_zero); ("text", JStr (text_of (gr_text g))); ("logprobs", JNull);
         ("finish_reason", finish_json (gr_finishReason g))]]);
    ("usage", usage g)].
(** What a request that is not streamed gets: its status and its body.  [outcome] is how the generation ended. *)
Definition native_response (body : json) (path id : string) (created : Z) (aborted : bool) (outcome : result string StageGenerationResult)
    : Z * json :=
  match parseNativeRequest body path with
  | Err why => (400, error_body why "invalid_request_error")
  | Ok _ =>
      let model := default "qwen3.5-2b" (as_str (jget (default [] (as_obj (Some body))) "model")) in
      match outcome with
      | Ok g => (200, native_reply (String.eqb path "/v1/chat/completions") id model created g)
      | Err why => (if aborted then 499 else 502, error_body why "server_error")
      end
  end.

(** [upstreamModelOf] *)
Definition upstreamModelOf (r : Route) : option string :=
  if bool_decide (ro_kind r = external) then ro_upstreamModel r else None.
(** The path and the body that are sent on: the name of the model is rewritten, nothing else, and a server that knows only
    chats gets one.  The body of the request is an object. *)
Definition forward_of (r : Route) (path bodyText : string) (body : fields) : result string (string * string) :=
  match upstreamModelOf r with
  | Some um =>
      if String.eqb um "" then Ok (path, bodyText) else
      let text := if strict_eq (Some (JStr um)) (jget body "model") then bodyText else stringify (JObj (put "model" (JStr um) body)) in
      if String.eqb path "/v1/completions" then
        match JSON_parse text with
        | Some (JObj o) => let '(p, b) := completionsToChat path o in Ok (p, stringify (JObj b))
        | _ => Err "JSON Parse error"
        end
      else Ok (path, text)
  | None => Ok (path, bodyText)
  end.
(** How the reply of the other server is passed on *)
Inductive Passing := P_nothing | P_legacy_stream | P_legacy_reply | P_relayed.
Definition reply_of (r : Route) (path : string) (hasBody upstreamOk eventStream : bool) : Passing :=
  let legacy := match upstreamModelOf r with Some um => negb (String.eqb um "") | None => false end && String.eqb path "/v1/completions" in
  if negb hasBody then P_nothing
  else if legacy && upstreamOk then if eventStream then P_legacy_stream else P_legacy_reply
  else P_relayed.
(** A failure before the reply *)
Definition upstream_failed (aborted : bool) : Z := if aborted then 499 else 502.
End router.
