(* ===== verification/RouterFacts.v ===== *)
(** * What the router admits

    An admitted request goes to a deployment that serves its model, with the least load of those that can take it, and a
    native deployment it is given can run it.  The load the manager sees is the number of requests that have not given
    their place back. *)

From S2P Require Import Prelude JsNum Json Types Canon Planner Registry Resources Manager Deployments Utf8 StageExecution Sse Router ControlLoop Scenario StageExecutionFacts.

Local Open Scope string_scope.
Local Open Scope list_scope.
Local Open Scope Z_scope.

Section router.
Context `{StageHost}.

(** ** A parsed request is accepted by the executor *)

Lemma mapM_result_length {E A B} (f : A -> result E B) l k : mapM_result f l = Ok k -> length k = length l.
Proof.
  revert k. induction l as [|x l IH]; intros k; cbn; [by intros [= <-]|]. destruct (f x) as [y|]; [|done]. cbn.
  destruct (mapM_result f l) as [ys|]; [|done]. intros [= <-]. cbn. by rewrite (IH ys).
Qed.
Lemma parsed_valid body path q : parseNativeRequest body path = Ok q -> exists n, validateRequest q = Ok n.
Proof.
  unfold parseNativeRequest. cbv zeta. destruct (_ && _); [done|]. destruct (request_object _) as [o|]; [|done]. cbn [mbind result_bind].
  destruct (only_keys o _); [|done]. cbn [mbind result_bind]. destruct (negb (model_ok _)); [done|].
  set (mt := match jget o "max_tokens" with None => _ | v => v end). destruct (as_num mt) as [limit|] eqn:El; [|done].
  destruct (integer mt 1 128) as [n|] eqn:En; [|done].
  assert (integer (Some (JNum limit)) 1 128 = Some n) as Hn by (unfold integer in *; by rewrite El in En).
  do 3 (match goal with |- (if ?b then _ else _) = _ -> _ => destruct b; [done|] end).
  destruct (stream_options_ok o); [|done]. cbn [mbind result_bind]. destruct (String.eqb path _).
  - destruct (as_arr _) as [l|]; [|done]. destruct (_ || _) eqn:E1; [done|]. destruct (mapM_result _ l) as [ms|] eqn:Em; [|done]. cbn [mbind result_bind].
    destruct (65536 <? _) eqn:E2; [done|]. intros [= <-]. exists n. unfold validateRequest, max_tokens. cbn [gq_maxTokens gq_temperature gq_prompt gq_messages]. rewrite Hn. change (negb (num_eqb num_zero num_zero)) with false. cbv iota.
    apply orb_false_iff in E1 as [E1%bool_decide_eq_false E3]. apply mapM_result_length in Em.
    rewrite bool_decide_false by (intros ->; by destruct l). rewrite Em, E3, E2. done.
  - destruct (as_str _) as [p|]; [|done]. destruct (_ || _) eqn:E1; [done|]. intros [= <-]. exists n.
    unfold validateRequest, max_tokens. cbn [gq_maxTokens gq_temperature gq_prompt gq_messages]. rewrite Hn. change (negb (num_eqb num_zero num_zero)) with false. cbv iota. by rewrite E1.
Qed.

(** ** The best candidate *)

Definition lighter (a b : Route) : Prop := ro_inflight a <= ro_inflight b.
Lemma better_lighter a b : if better a b then lighter a b else lighter b a.
Proof.
  unfold better, lighter. destruct (Z.eqb_spec (ro_inflight a) (ro_inflight b)) as [->|]; [by destruct (negb _)|].
  destruct (Z.ltb_spec (ro_inflight a) (ro_inflight b)); lia.
Qed.
Lemma best_lightest l : Forall (fun c => forall r, hd_error (js_sort better l) = Some r -> lighter r c) l.
Proof.
  assert (StronglySorted lighter (js_sort better l)) as Hs.
  { unfold js_sort. induction l as [|x l IH]; [constructor|]. cbn [foldr]. revert IH. generalize (foldr (sort_insert better) [] l).
    intros k Hk. induction Hk as [|y k Hk IH Hy]; [by repeat constructor|]. cbn [sort_insert]. pose proof (better_lighter x y) as Hxy.
    destruct (better x y).
    - constructor; [by constructor|]. constructor; [done|]. eapply Forall_impl; [exact Hy|]. unfold lighter in *. intros; lia.
    - constructor; [done|]. rewrite Forall_forall in *. intros z Hz.
      rewrite sort_insert_perm in Hz. apply elem_of_cons in Hz as [->|Hz]; [done|by apply Hy]. }
  apply Forall_forall. intros c Hc r Hr. rewrite <-(js_sort_elem better) in Hc. destruct (js_sort better l) as [|y k]; [done|]. injection Hr as ->.
  apply elem_of_cons in Hc as [->|Hc]; [unfold lighter; lia|]. apply StronglySorted_inv in Hs as [_ Hs]. rewrite Forall_forall in Hs. by apply Hs.
Qed.

(** ** The choice *)

Definition model_of (body : json) : option json := jget (default [] (as_obj (Some body))) "model".
(** A native deployment takes only what it supports, one request at a time. *)
Definition can_take (native : Executor) (body : json) (path : string) (c : Route) : Prop :=
  isNative c = true -> is_ok (parseNativeRequest body path) = true ∧ isBusy (ro_id c) native = false.

Lemma choose_ok table native body path pinned r : choose table native body path pinned = Ok r ->
  r ∈ candidates_of table (model_of body) ∧ can_take native body path r ∧
  match pin_of pinned with
  | Some p => is_pinned p r = true
  | None => forall c, c ∈ candidates_of table (model_of body) -> can_take native body path c -> lighter r c
  end.
Proof.
  unfold choose. cbv zeta. fold (model_of body). set (all := candidates_of table (model_of body)). case_bool_decide; [done|].
  assert (forall cs, (if existsb isNative all then match parseNativeRequest body path with
      | Ok _ => Ok all
      | Err why => if holds (fun p => existsb (fun c => isNative c && is_pinned p c) all) (pin_of pinned) then Err (400, why) else
          if bool_decide (List.filter (fun c => negb (isNative c)) all = []) then Err (400, why)
          else Ok (List.filter (fun c => negb (isNative c)) all) end else Ok all) = Ok cs ->
    (forall c, c ∈ cs -> c ∈ all ∧ (isNative c = true -> is_ok (parseNativeRequest body path) = true)) ∧
    (forall c, c ∈ all -> can_take native body path c -> c ∈ cs)) as Hcs.
  { intros cs. destruct (existsb isNative all) eqn:En.
    - destruct (parseNativeRequest body path) as [q|why] eqn:Eq.
      + intros [= <-]. by split.
      + destruct (holds _ _); [done|]. case_bool_decide; [done|]. intros [= <-]. split.
        * intros c [Hc Hn%negb_true_iff]%List_filter_elem. split; [done|]. by rewrite Hn.
        * intros c Hc Ht. apply List_filter_elem. split; [done|]. destruct (isNative c) eqn:E; [|done]. destruct (Ht E) as [Hq _].
          by rewrite Eq in Hq.
    - intros [= <-]. split; [|done]. intros c Hc. split; [done|]. intros Hn. exfalso.
      assert (existsb isNative all = true) as He by (apply existsb_exists; exists c; split; [by apply list_elem_of_In|done]).
      by rewrite En in He. }
  destruct (if existsb isNative all then _ else _) as [cs|]; [|done]. cbn [mbind result_bind]. destruct (Hcs cs eq_refl) as [Hin Hout].
  destruct (pin_of pinned) as [p|].
  - destruct (find (is_pinned p) cs) as [c|] eqn:Ef; [|done]. cbn [mbind result_bind]. apply find_Some in Ef as [Hc Hp].
    destruct (Hin c Hc) as [H1 H2].
    destruct (isNative c && isBusy (ro_id c) native) eqn:Eb; [done|]. intros [= ->]. split_and!; [done| |done].
    intros Hn. split; [auto|]. by rewrite Hn in Eb.
  - cbn [mbind result_bind]. set (fs := List.filter _ cs). destruct (hd_error (js_sort better fs)) as [c|] eqn:Eh; [|done].
    destruct (isNative c && isBusy (ro_id c) native) eqn:Eb; [done|]. intros [= ->].
    assert (r ∈ cs) as Hc.
    { assert (r ∈ js_sort better fs) as Hr by (destruct (js_sort better fs); [done|injection Eh as ->; left]).
      rewrite js_sort_elem in Hr. by apply List_filter_elem in Hr as [? _]. }
    destruct (Hin r Hc) as [H1 H2]. split_and!; [done| |].
    + intros Hn. split; [auto|]. by rewrite Hn in Eb.
    + intros c Hca Ht. pose proof (best_lightest fs) as Hb. rewrite Forall_forall in Hb. apply (Hb c); [|done].
      apply List_filter_elem. split; [auto|]. destruct (isNative c) eqn:E; [|done]. destruct (Ht E) as [_ Hbusy]. by rewrite Hbusy.
Qed.

(** ** The reservation *)

Lemma routing_runs m : exists table m1, routing m = (Ok table, m1) ∧ inflight m1 = inflight m.
Proof.
  unfold routing, mbind, M_bind, mget, mret, M_ret, updatingNode. eexists _, _. split; [reflexivity|].
  destruct (updateLease m) as [l|]; [|done]. by destruct (_ <=? _).
Qed.
Lemma load_tracked id delta m : forall k, load (trackInflight id delta m).2 k = if bool_decide (k = id) then Z.max 0 (load m id + delta) else load m k.
Proof.
  intros k. unfold trackInflight, mmodify, load at 1. cbn. case_bool_decide as E; [subst; by rewrite lookup_insert_eq|by rewrite lookup_insert_ne].
Qed.

Lemma reserve_ok r m rt nat m' rt' : isBusy (ro_id r) (rt_native rt) = false \/ isNative r = false ->
  reserve r (m, rt) = (Ok (D_serve r nat), (m', rt')) ->
  m' = (trackInflight (ro_id r) 1 m).2 ∧
  (isNative r = true -> exists np life, nat = Some (np, life) ∧ nativeExecution m (ro_id r) = Some (np, life) ∧
     x_active (rt_native rt') = x_active (rt_native rt) ∧
     (rt_ready rt !! ro_id r <> Some life \/ ro_id r ∉ x_unsafe (rt_native rt) -> ro_id r ∉ x_unsafe (rt_native rt'))).
Proof.
  intros Hbusy. unfold reserve, mbind, M_bind, mget. cbn [fst snd]. destruct (isNative r).
  - destruct Hbusy as [Hbusy|]; [|done]. destruct (nativeExecution m (ro_id r)) as [[np life]|]; [|done].
    case_bool_decide as E; cbn [negb mwhen].
    + cbn. intros [= <- <- <-]. split; [done|]. intros _. exists np, life. split_and!; [done..|]. intros [?|?]; done.
    + unfold on_executor, acknowledgeRecovery, mbind, M_bind, mget. cbn [fst snd]. rewrite Hbusy. cbn. intros [= <- <- <-].
      split; [done|]. intros _. exists np, life. split_and!; [done..|]. intros _. set_solver.
  - cbn. by intros [= <- <- <-].
Qed.

Lemma acquire_ok plan q n x u : validatePlan plan = Ok u -> validateRequest q = Ok n -> isBusy (xp_deploymentId plan) x = false ->
  xp_deploymentId plan ∉ x_unsafe x -> (acquire plan q x).1 = Ok n.
Proof.
  intros H1 H2 H3 H4. unfold acquire. rewrite H1, H2. unfold mbind, M_bind, mget. rewrite H3, bool_decide_false by done. done.
Qed.

Lemma accept_body_runs body path pinned m rt table m1 : routing m = (Ok table, m1) ->
  accept_body body path pinned (m, rt) = match choose table (rt_native rt) body path pinned with
    | Ok r => reserve r (m1, rt) | Err (status, why) => (Ok (D_refuse status why), (m1, rt)) end.
Proof.
  intros Hr. unfold accept_body, mbind, M_bind, on_mgr, mget. cbn [fst snd]. rewrite Hr. cbn [fst snd].
  by destruct (choose _ _ _ _ _) as [r|[status why]].
Qed.
Lemma routing_again m table m1 : routing m = (Ok table, m1) -> routing m1 = (Ok table, m1).
Proof.
  unfold routing, mbind, M_bind, updatingNode, mget. destruct (updateLease m) as [l|] eqn:E; [destruct (_ <=? _) eqn:El|];
    intros [= <- <-]; cbn; rewrite ?E, ?El; cbn; by rewrite ?E.
Qed.
(** A request is served or the count of requests stays as it was. *)
Lemma accept_cases isPost path text pinned m rt table m1 : routing m = (Ok table, m1) ->
  (exists body, JSON_parse text = Some body ∧ accept isPost path text pinned (m, rt) = accept_body body path pinned (m1, rt)) \/
  (exists d, accept isPost path text pinned (m, rt) = (Ok d, (m1, rt))) ∧
    forall r nat s, accept isPost path text pinned (m, rt) <> (Ok (D_serve r nat), s).
Proof.
  intros Hr. assert (forall f : _ -> M State string Decision, (on_mgr routing ≫= f) (m, rt) = f table (m1, rt)) as Hb.
  { intros f. unfold mbind, M_bind, on_mgr. cbn [fst snd]. by rewrite Hr. }
  unfold accept. rewrite Hb. destruct (String.eqb path _); [right; split; [by eexists|done]|].
  destruct (negb _); [right; split; [by eexists|done]|]. destruct (negb _); [right; split; [by eexists|done]|].
  destruct (JSON_parse text) as [body|]; [|right; split; [by eexists|done]].
  destruct body; [right; split; [by eexists|done]|left; by eexists..].
Qed.
Lemma reserve_serves rr s r nat s' : reserve rr s = (Ok (D_serve r nat), s') -> rr = r.
Proof.
  unfold reserve, mbind, M_bind, mget. destruct (isNative rr).
  - destruct (nativeExecution s.1 (ro_id rr)) as [[np life]|]; [|done]. destruct (mwhen _ _ _) as [[?|?] ?]; [|done].
    unfold on_mgr. cbn. by intros [= ->].
  - unfold on_mgr. cbn. by intros [= ->].
Qed.
Lemma accept_serves isPost path text pinned m rt r nat m' rt' : accept isPost path text pinned (m, rt) = (Ok (D_serve r nat), (m', rt')) ->
  exists body table m1, JSON_parse text = Some body ∧ routing m = (Ok table, m1) ∧ inflight m1 = inflight m ∧
    choose table (rt_native rt) body path pinned = Ok r ∧ reserve r (m1, rt) = (Ok (D_serve r nat), (m', rt')).
Proof.
  destruct (routing_runs m) as (table & m1 & Hr & Hi). intros Ha.
  destruct (accept_cases isPost path text pinned m rt table m1 Hr) as [(body & Hb & Hab)|[_ Hn]]; [|by apply Hn in Ha].
  rewrite Hab, (accept_body_runs _ _ _ _ _ _ _ (routing_again _ _ _ Hr)) in Ha. exists body, table, m1. split_and!; [done..| |].
  - destruct (choose _ _ _ _ _) as [rr|[st why]]; [|done]. f_equal. by eapply reserve_serves.
  - destruct (choose _ _ _ _ _) as [rr|[st why]]; [|done]. by rewrite <-(reserve_serves _ _ _ _ _ Ha) at 1.
Qed.

(** ** The load *)

(** Requests in the order they were admitted, with the deployment each was given and whether it gave its place back *)
Record House := { ho_state : State; ho_flights : list (string * bool) }.
Inductive Move :=
  | Arrives (isPost : bool) (path text : string) (pinned : option string)
  | Leaves (n : nat)
  | Meanwhile (m : Mgr) (rt : Router).
Definition move (x : Move) (h : House) : House :=
  match x with
  | Arrives isPost path text pinned =>
      match accept isPost path text pinned (ho_state h) with
      | (Ok (D_serve r _), s) => {| ho_state := s; ho_flights := ho_flights h ++ [(ro_id r, false)] |}
      | (_, s) => {| ho_state := s; ho_flights := ho_flights h |}
      end
  | Leaves n =>
      match ho_flights h !! n with
      | Some (id, released) =>
          let '(_, s) := release_place id released (ho_state h) in {| ho_state := s; ho_flights := <[n := (id, true)]> (ho_flights h) |}
      | None => h
      end
  | Meanwhile m rt => {| ho_state := (m, rt); ho_flights := ho_flights h |}
  end.
(** The manager and the executor do what they like, but only the router counts requests. *)
Definition allowed (x : Move) (h : House) : Prop :=
  match x with Meanwhile m _ => inflight m = inflight (ho_state h).1 | _ => True end.
Fixpoint moves_allowed (l : list Move) (h : House) : Prop :=
  match l with [] => True | x :: l => allowed x h ∧ moves_allowed l (move x h) end.
Definition moves (l : list Move) (h : House) : House := foldl (fun h x => move x h) h l.

(** The requests of a deployment that are under way *)
Definition under_way (id : string) (l : list (string * bool)) : Z :=
  Z.of_nat (length (List.filter (fun f => String.eqb f.1 id && negb f.2) l)).
Lemma under_way_cons id x l : under_way id (x :: l) = (if String.eqb x.1 id && negb x.2 then 1 else 0) + under_way id l.
Proof. unfold under_way. cbn [List.filter]. destruct (_ && _); cbn [length]; lia. Qed.
Lemma under_way_snoc id l x : under_way id (l ++ [x]) = under_way id l + if String.eqb x.1 id && negb x.2 then 1 else 0.
Proof. induction l as [|y l IH]; cbn [app]; rewrite !under_way_cons; [unfold under_way; cbn|rewrite IH]; lia. Qed.
Lemma under_way_leave id l : forall n k b, l !! n = Some (k, b) ->
  under_way id (<[n := (k, true)]> l) = under_way id l - if String.eqb k id && negb b then 1 else 0.
Proof.
  induction l as [|x l IH]; intros [|n] k b Hn; cbn in Hn; try done.
  - injection Hn as ->. cbn [insert list_insert]. rewrite !under_way_cons. cbn [fst snd negb]. rewrite andb_false_r. lia.
  - change (<[S n := (k, true)]> (x :: l)) with (x :: <[n := (k, true)]> l). rewrite !under_way_cons, (IH n k b Hn). lia.
Qed.
Lemma under_way_pos l : forall n k, l !! n = Some (k, false) -> 1 <= under_way k l.
Proof.
  assert (forall k l, 0 <= under_way k l) as Hp by (intros k l'; unfold under_way; lia).
  induction l as [|x l IH]; intros [|n] k Hn; cbn in Hn; try done.
  - injection Hn as ->. rewrite under_way_cons. cbn [fst snd negb]. rewrite String.eqb_refl. cbn. specialize (Hp k l). lia.
  - rewrite under_way_cons. specialize (IH n k Hn). destruct (_ && _); lia.
Qed.

(** Everything but a served request leaves the count alone. *)
Lemma reserve_refuses r m rt a s' : reserve r (m, rt) = (a, s') -> (forall r nat, a <> Ok (D_serve r nat)) -> inflight s'.1 = inflight m.
Proof.
  unfold reserve, mbind, M_bind, mget. cbn [fst snd]. destruct (isNative r).
  - destruct (nativeExecution m (ro_id r)) as [[np life]|]; [|by intros [= <- <-]]. destruct (negb _); cbn [mwhen].
    + unfold on_executor, acknowledgeRecovery, mbind, M_bind, mget. cbn [fst snd]. destruct (isBusy _ _); cbn; [by intros [= <- <-]|].
      intros [= <- <-] Hn. by destruct (Hn r (Some (np, life))).
    + cbn. intros [= <- <-] Hn. by destruct (Hn r (Some (np, life))).
  - cbn. intros [= <- <-] Hn. by destruct (Hn r None).
Qed.
Lemma accept_refuses isPost path text pinned m rt a s' : accept isPost path text pinned (m, rt) = (a, s') ->
  (forall r nat, a <> Ok (D_serve r nat)) -> inflight s'.1 = inflight m.
Proof.
  destruct (routing_runs m) as (table & m1 & Hr & Hi). intros Ha Hn.
  destruct (accept_cases isPost path text pinned m rt table m1 Hr) as [(body & Hb & Hab)|[[d Hd] _]].
  - rewrite Hab, (accept_body_runs _ _ _ _ _ _ _ (routing_again _ _ _ Hr)) in Ha. destruct (choose _ _ _ _ _) as [r|[st why]].
    + rewrite <-Hi. by eapply reserve_refuses.
    + by injection Ha as <- <-.
  - rewrite Hd in Ha. by injection Ha as <- <-.
Qed.

Definition accounted (h : House) : Prop := forall id, load (ho_state h).1 id = under_way id (ho_flights h).
Lemma move_accounted x h : allowed x h -> accounted h -> accounted (move x h).
Proof.
  intros Ha Hh. destruct x as [isPost path text pinned|n|m rt]; cbn [move].
  - destruct h as [[m rt] fl]. cbn [ho_state ho_flights] in *. destruct (accept isPost path text pinned (m, rt)) as [a [m' rt']] eqn:Ea.
    assert ((exists r nat, a = Ok (D_serve r nat)) \/ (forall r nat, a <> Ok (D_serve r nat))) as [(r & nat & ->)|Hn].
    { destruct a as [[]|]; [right|right|left; eauto|right]; done. }
    + apply accept_serves in Ea as (body & table & m1 & _ & _ & Hi & Hc & Hres). apply choose_ok in Hc as (_ & Ht & _).
      apply reserve_ok in Hres as [-> _]; [|destruct (isNative r) eqn:E; [left; by apply Ht|by right]].
      intros id. cbn [ho_state ho_flights fst]. rewrite load_tracked, under_way_snoc. cbn [fst snd negb]. rewrite andb_true_r.
      specialize (Hh id). cbn in Hh. assert (load m1 id = load m id) as Hl by (unfold load; by rewrite Hi).
      case_bool_decide as E; [subst; rewrite String.eqb_refl|rewrite (proj2 (String.eqb_neq (ro_id r) id)) by done; lia].
      rewrite Hl, Hh. unfold under_way. lia.
    + apply accept_refuses in Ea; [cbn [fst] in Ea|done]. intros id. specialize (Hh id). cbn in Hh.
      assert (load m' id = load m id) as Hl by (unfold load; by rewrite Ea). destruct a as [[]|]; cbn; congruence || (exfalso; by eapply Hn).
  - destruct (ho_flights h !! n) as [[id b]|] eqn:En; [|done]. intros k. specialize (Hh k). unfold release_place. destruct b.
    + cbn [mret M_ret ho_state ho_flights]. rewrite (under_way_leave k _ n id true En), andb_false_r. lia.
    + pose proof (load_tracked id (-1) (ho_state h).1 k) as Hl.
      change (load (trackInflight id (-1) (ho_state h).1).2 k = under_way k (<[n := (id, true)]> (ho_flights h))).
      rewrite Hl, (under_way_leave k _ n id false En).
      cbn [negb]. rewrite andb_true_r. case_bool_decide as E; [subst; rewrite String.eqb_refl|rewrite (proj2 (String.eqb_neq id k)) by done; lia].
    pose proof (under_way_pos _ n id En). lia.
  - intros id. cbn in *. rewrite <-(Hh id). unfold load. by rewrite Ha.
Qed.
Lemma moves_accounted l : forall h, moves_allowed l h -> accounted h -> accounted (moves l h).
Proof.
  induction l as [|x l IH]; intros h Hl Hh; [done|]. destruct Hl as [Hx Hl]. cbn [moves foldl]. apply IH; [done|]. by apply move_accounted.
Qed.
End router.

(** C6: Admission.  A served request goes to a deployment in service for its model: the one the client pinned, or one with
    the fewest requests among all that can take it.  Its place is counted at once, and a native deployment is given only a
    request it supports, from workers in their present lifetime, that it starts without refusing it, if its plan is valid
    and its executor has not marked it unsafe in that same lifetime (which withdraws it): nothing can come between the choice
    and the lease. *)
Theorem admission_sound `{StageHost} isPost path text pinned m rt r nat m' rt' :
  accept isPost path text pinned (m, rt) = (Ok (D_serve r nat), (m', rt')) ->
  exists body table m1, JSON_parse text = Some body ∧ routing m = (Ok table, m1) ∧
    r ∈ candidates_of table (model_of body) ∧
    match pin_of pinned with
    | Some p => is_pinned p r = true
    | None => forall c, c ∈ candidates_of table (model_of body) -> can_take (rt_native rt) body path c -> ro_inflight r <= ro_inflight c
    end ∧
    (forall id, load m' id = if bool_decide (id = ro_id r) then Z.max 0 (load m id + 1) else load m id) ∧
    (isNative r = true -> exists q n np life, parseNativeRequest body path = Ok q ∧ nat = Some (np, life) ∧
       nativeExecution m1 (ro_id r) = Some (np, life) ∧
       (validatePlan (stage_plan (ro_id r) np) = Ok tt ->
        rt_ready rt !! ro_id r <> Some life \/ ro_id r ∉ x_unsafe (rt_native rt) ->
        (acquire (stage_plan (ro_id r) np) q (rt_native rt')).1 = Ok n)).
Proof.
  intros Ha. apply accept_serves in Ha as (body & table & m1 & Hb & Hr & Hi & Hc & Hres). exists body, table, m1.
  apply choose_ok in Hc as (Hin & Htake & Hbest).
  split_and!; [done|done|done|exact Hbest| |].
  - apply reserve_ok in Hres as [-> _]; [|destruct (isNative r) eqn:E; [left; by destruct (Htake E)|by right]].
    intros k. rewrite load_tracked. unfold load. rewrite Hi. case_bool_decide as E; [by rewrite E|done].
  - intros Hn. destruct (Htake Hn) as [Hq Hbusy]. apply reserve_ok in Hres as [_ Hnat]; [|by left].
    destruct (Hnat Hn) as (np & life & -> & Hx & Hact & Hsafe).
    destruct (parseNativeRequest body path) as [q|] eqn:Eq; [|done]. destruct (parsed_valid body path q Eq) as [n Hv].
    exists q, n, np, life. split_and!; [done..|]. intros Hp Hl. eapply acquire_ok; [done..| |by apply Hsafe].
    cbn [stage_plan xp_deploymentId]. unfold isBusy in *. by rewrite Hact.
Qed.

(** C37: The load is exact.  Whatever the manager and the executor do between requests, the count of a deployment is the number
    of requests that were admitted to it and have not given their place back, each giving it back once however often it
    ends: it is never negative, and a deployment nobody uses has load zero. *)
Theorem inflight_exact `{StageHost} l m rt : inflight m = ∅ -> moves_allowed l {| ho_state := (m, rt); ho_flights := [] |} ->
  let h := moves l {| ho_state := (m, rt); ho_flights := [] |} in
  forall id, load (ho_state h).1 id = under_way id (ho_flights h).
Proof.
  intros Hm Hl h. apply moves_accounted; [done|]. intros id. unfold load. cbn. by rewrite Hm.
Qed.

(** ** A native deployment and an external one for the same model *)

Section demo_router.
Definition ask_text (s : string) : option json :=
  if String.eqb s "greedy" then Some (JObj [("model", JStr "m"); ("prompt", JStr "hello")])
  else if String.eqb s "sampled" then Some (JObj [("model", JStr "m"); ("prompt", JStr "hello"); ("temperature", JNum (num_of_Z 1))])
  else None.
#[local] Instance router_host : StageHost :=
  {| sh_json := {| num_string := fun n => pretty (default 0 (as_int n)); JSON_parse := ask_text |};
     Number_of := fun s => num_of_Z (if String.eqb s "0" then 0 else if String.eqb s "12" then 12 else 24);
     sha256_hex := fun _ => "" |}.

Definition demo_placement : NativeExecutionPlacement :=
  {| np_mode := stages_mode; np_profile := "qwen35-2b-q8";
     np_endpoints := (fun e => {| sw_endpoint := e; sw_modelPath := "f"; sw_device := "GPU0"; sw_fitMiB := None; sw_enforce_ramMiB := 0;
                                  sw_enforce_cpuCores := 0 |}) <$> xp_endpoints demo_plan;
     np_stateTransferQualification := None; np_qualificationEvidenceSha256 := "" |}.
Definition demo_deployment (id : string) (kind : DeploymentKind) (np : option NativeExecutionPlacement) : Deployment :=
  {| dep_id := id; dep_spec := sc_spec kind None; dep_savedDistribution := None; dep_state := ready;
     dep_plan := (fun np => {| pl_coordinatorNodeId := "n1"; pl_coordinatorDevice := "GPU0"; pl_workers := []; pl_tensorSplit := [];
       pl_engineTensorSplit := None; pl_ctx := 4096; pl_parallel := 1; pl_chain := 0; pl_speculation := None; pl_env := [];
       pl_modelPath := "f"; pl_mtpPath := None; pl_nativeExecution := Some np; pl_reasons := []; pl_allocations := None |}) <$> np;
     dep_endpoint := Some ("n1", 9001, "m"); dep_error := None; dep_createdAt := 0; dep_updatedAt := 0 |}.
Definition demo_house : State :=
  (set_nativeLifetimes {["native" := 7%nat]} (fresh_manager {| rg_nodes := rg_nodes sc_registry; rg_joinCodes := [];
     rg_deployments := [demo_deployment "native" stages (Some demo_placement); demo_deployment "web" external None];
     rg_intents := []; rg_assignments := []; rg_events := []; rg_apiKeys := []; rg_fleetRuns := [] |} 1000), newRouter).

(** The greedy request is pinned to the native deployment; the sampled one goes to the other server. *)
Definition served (x : result string Decision * State) : option (string * bool) :=
  match x.1 with Ok (D_serve r nat) => Some (ro_id r, present nat) | _ => None end.
Example demo_greedy : served (accept true "/v1/completions" "greedy" (Some "native") demo_house) = Some ("native", true).
Proof. vm_compute. reflexivity. Qed.
Example demo_sampled : served (accept true "/v1/completions" "sampled" None demo_house) = Some ("web", false).
Proof. vm_compute. reflexivity. Qed.

Lemma admission_sound_witness :
  match accept true "/v1/completions" "greedy" (Some "native") demo_house with
  | (Ok (D_serve r nat), s) => exists q n np life, nat = Some (np, life) ∧ (acquire (stage_plan (ro_id r) np) q (rt_native s.2)).1 = Ok n
  | _ => False
  end.
Proof.
  destruct (accept true "/v1/completions" "greedy" (Some "native") demo_house) as [a [m' rt']] eqn:E.
  pose proof demo_greedy as Hs. rewrite E in Hs. unfold served in Hs. cbn [fst] in Hs.
  destruct a as [[l|st why|r nat]|e]; try discriminate Hs.
  destruct (admission_sound true "/v1/completions" "greedy" (Some "native") demo_house.1 newRouter r nat m' rt' E)
    as (body & table & m1 & _ & Hr & Hin & _ & _ & Hn).
  assert (isNative r = true) as Hnat.
  { assert (ro_id r = "native" ∧ present nat = true) as [_ Hp] by (injection Hs as -> ->; done).
    destruct (isNative r) eqn:En; [done|]. exfalso. vm_compute in E. injection E as <- _ _ _. discriminate En. }
  destruct (Hn Hnat) as (q & n & np & life & _ & Hn1 & Hn2 & Hacq). exists q, n, np, life. split; [exact Hn1|]. cbn [snd]. apply Hacq.
  - vm_compute in E. injection E as <- <- _ _. injection Hn1 as <- <-. vm_compute. reflexivity.
  - left. cbn. by rewrite lookup_empty.
Defined.

Definition demo_moves : list Move :=
  [Arrives true "/v1/completions" "greedy" None; Arrives true "/v1/completions" "sampled" None; Leaves 0; Leaves 0].
Lemma inflight_exact_witness :
  let h := moves demo_moves {| ho_state := demo_house; ho_flights := [] |} in
  length (ho_flights h) = 2%nat ∧ (forall id, load (ho_state h).1 id = under_way id (ho_flights h)).
Proof.
  split; [vm_compute; reflexivity|].
  exact (inflight_exact demo_moves demo_house.1 newRouter eq_refl (conj I (conj I (conj I (conj I I))))).
Defined.
End demo_router.
