(* ===== verification/Download.v ===== *)
(** * Fetching a model's weights (swarmlet/node-agent/download.ts)

    The models directory is a map from paths to contents that the fetcher shares with the rest of the process; what the
    file system would refuse and how much space it reports are part of the state, so that they may change at any await.  A
    write reaches the file at once, while the code may hold it in a buffer until the stream ended, which it awaits before it
    looks at the file again; a write stream that fails is not modelled.  A response body is the chunks that arrive before it
    ends or breaks, each with whether writing it filled the buffer. *)

From S2P Require Import Prelude Async JsNum Json Types Canon Regex Utf8 StageExecution Sse.

Local Open Scope string_scope.
Local Open Scope list_scope.
Local Open Scope Z_scope.

Class FetchHost := {
  #[global] fh_stage :: StageHost;
  (** [join] of node:path *)
  path_join : string -> string -> string;
  (** [x.toFixed(1)] *)
  toFixed1 : num -> string }.

(** ** What a profile declares (swarmlet/protocol/types.ts) *)

Definition no_white (s : string) : bool := forallb (fun c => negb (is_white c)) (utf16 (bytes_of s)).
Definition after_prefix (p s : string) : option string :=
  if String.prefix p s then Some (String.substring (String.length p) (String.length s) s) else None.

(** What is left after the digits, and whether there were any *)
Fixpoint skip_digits (s : string) : bool * string :=
  match s with
  | String a t => if is_digit a then (true, (skip_digits t).2) else (false, s)
  | "" => (false, "")
  end.
Definition url_tail (s : string) : bool := String.eqb s "" || (String.prefix "/" s && no_white s).
Definition loopback_rest (s : string) : bool :=
  url_tail s ||
  match after_prefix ":" s with Some t => let '(some, rest) := skip_digits t in some && url_tail rest | None => false end.
Definition DOWNLOAD_URL_RE (s : string) : bool :=
  match after_prefix "https://" s with
  | Some t => negb (String.eqb t "") && no_white t
  | None =>
      match after_prefix "http://127.0.0.1" s, after_prefix "http://localhost" s with
      | Some t, _ | None, Some t => loopback_rest t
      | None, None => false
      end
  end.

Definition char_in (n : nat) (s : string) : bool := existsb (fun a => Nat.eqb (Ascii.nat_of_ascii a) n) (String.list_ascii_of_string s).
Definition units (s : string) : Z := utf16_length (bytes_of s).

Definition download_name_ok (name : string) : bool :=
  negb (String.eqb name "") && (units name <=? 240) && negb (char_in 47 name) && negb (char_in 92 name) &&
  negb (String.eqb name ".") && negb (String.eqb name "..").
Definition download_kind (v : option json) : option ModelKind :=
  if is_string "gguf" v then Some gguf else if is_string "mtp" v then Some mtp else None.

(** The typed file when the test holds *)
Definition validCatalogDownload (file : json) : option ModelDownloadFile :=
  f ← as_obj (Some file);
  name ← as_str (jget f "name");
  if negb (download_name_ok name) then None else
  kind ← download_kind (jget f "kind");
  url ← as_str (jget f "url");
  if negb (DOWNLOAD_URL_RE url) || (2048 <? units url) then None else
  sha256 ← as_str (jget f "sha256");
  if negb (SHA256 sha256) then None else
  bytes ← as_num (jget f "bytes") ≫= as_safe_int;
  if bytes <=? 0 then None else
  Some {| df_name := name; df_kind := kind; df_url := url; df_sha256 := sha256; df_bytes := bytes |}.

(** ** The fetcher *)

Inductive FetchStateName := idle | running | verifying | done | failed | cancelled.
Record FetchStatus := {
  fs_model : option string; fs_state : FetchStateName; fs_file : option string; fs_fileIndex : nat; fs_fileCount : nat;
  fs_receivedBytes : num; fs_totalBytes : num; fs_progress : num;
  fs_error : option string; fs_startedAt : option string; fs_finishedAt : option string }.
Definition EMPTY : FetchStatus :=
  {| fs_model := None; fs_state := idle; fs_file := None; fs_fileIndex := 0; fs_fileCount := 0; fs_receivedBytes := num_zero;
     fs_totalBytes := num_zero; fs_progress := num_zero; fs_error := None; fs_startedAt := None; fs_finishedAt := None |}.

Record Fetcher := {
  mf_status : FetchStatus; mf_running : bool; mf_cancelled : bool; mf_log : list string;
  (** the files, the directory of the models, the error [mkdirSync] would throw, and the two numbers of [statfsSync] *)
  mf_files : gmap string (list Z); mf_dir : string; mf_dirError : option string; mf_statfs : option (num * num);
  (** the environment variable, and the time as text *)
  mf_reserve : option string; mf_now : string }.
Definition newFetcher (dir : string) (files : gmap string (list Z)) (space : option (num * num)) (now : string) : Fetcher :=
  {| mf_status := EMPTY; mf_running := false; mf_cancelled := false; mf_log := []; mf_files := files; mf_dir := dir;
     mf_dirError := None; mf_statfs := space; mf_reserve := None; mf_now := now |}.
Definition set_status v (m : Fetcher) : Fetcher :=
  {| mf_status := v; mf_running := mf_running m; mf_cancelled := mf_cancelled m; mf_log := mf_log m; mf_files := mf_files m;
     mf_dir := mf_dir m; mf_dirError := mf_dirError m; mf_statfs := mf_statfs m; mf_reserve := mf_reserve m; mf_now := mf_now m |}.
Definition set_running v (m : Fetcher) : Fetcher :=
  {| mf_status := mf_status m; mf_running := v; mf_cancelled := mf_cancelled m; mf_log := mf_log m; mf_files := mf_files m;
     mf_dir := mf_dir m; mf_dirError := mf_dirError m; mf_statfs := mf_statfs m; mf_reserve := mf_reserve m; mf_now := mf_now m |}.
Definition set_cancelled v (m : Fetcher) : Fetcher :=
  {| mf_status := mf_status m; mf_running := mf_running m; mf_cancelled := v; mf_log := mf_log m; mf_files := mf_files m;
     mf_dir := mf_dir m; mf_dirError := mf_dirError m; mf_statfs := mf_statfs m; mf_reserve := mf_reserve m; mf_now := mf_now m |}.
Definition set_files v (m : Fetcher) : Fetcher :=
  {| mf_status := mf_status m; mf_running := mf_running m; mf_cancelled := mf_cancelled m; mf_log := mf_log m; mf_files := v;
     mf_dir := mf_dir m; mf_dirError := mf_dirError m; mf_statfs := mf_statfs m; mf_reserve := mf_reserve m; mf_now := mf_now m |}.
Definition add_log v (m : Fetcher) : Fetcher :=
  {| mf_status := mf_status m; mf_running := mf_running m; mf_cancelled := mf_cancelled m; mf_log := mf_log m ++ [v]; mf_files := mf_files m;
     mf_dir := mf_dir m; mf_dirError := mf_dirError m; mf_statfs := mf_statfs m; mf_reserve := mf_reserve m; mf_now := mf_now m |}.

Record Chunk := { ck_bytes : list Z; ck_full : bool }.
Inductive FetchAnswer :=
  | Rejected (why : string)
  | Answered (ok : bool) (status : Z) (body : option (list Chunk * option string)).
Inductive FetchAsk := Q_fetch (url : string) (from : option Z) | Q_read | Q_drain | Q_end | Q_hash (path : string) | Q_changed.
Definition fetch_answer (q : FetchAsk) : Type :=
  match q with Q_fetch _ _ => FetchAnswer | Q_changed => result string unit | _ => unit end.

Abbreviation FSync := (M Fetcher string).
Abbreviation Fetching := (Async (S := Fetcher) fetch_answer).
Definition fetch_ask (q : FetchAsk) : Fetching (fetch_answer q) := fun m => (Susp q (fun r m => (Fin (Ok r), m)), m).

Definition log (line : string) : FSync unit := mmodify (add_log line).
Definition with_status (f : FetchStatus -> FetchStatus) : FSync unit := mmodify (fun m => set_status (f (mf_status m)) m).

Definition at_file (name : string) (i : nat) (s : FetchStatus) : FetchStatus :=
  {| fs_model := fs_model s; fs_state := fs_state s; fs_file := Some name; fs_fileIndex := i; fs_fileCount := fs_fileCount s;
     fs_receivedBytes := fs_receivedBytes s; fs_totalBytes := fs_totalBytes s; fs_progress := fs_progress s;
     fs_error := fs_error s; fs_startedAt := fs_startedAt s; fs_finishedAt := fs_finishedAt s |}.
Definition received (v progress : num) (s : FetchStatus) : FetchStatus :=
  {| fs_model := fs_model s; fs_state := fs_state s; fs_file := fs_file s; fs_fileIndex := fs_fileIndex s; fs_fileCount := fs_fileCount s;
     fs_receivedBytes := v; fs_totalBytes := fs_totalBytes s; fs_progress := progress;
     fs_error := fs_error s; fs_startedAt := fs_startedAt s; fs_finishedAt := fs_finishedAt s |}.
Definition in_state (v : FetchStateName) (s : FetchStatus) : FetchStatus :=
  {| fs_model := fs_model s; fs_state := v; fs_file := fs_file s; fs_fileIndex := fs_fileIndex s; fs_fileCount := fs_fileCount s;
     fs_receivedBytes := fs_receivedBytes s; fs_totalBytes := fs_totalBytes s; fs_progress := fs_progress s;
     fs_error := fs_error s; fs_startedAt := fs_startedAt s; fs_finishedAt := fs_finishedAt s |}.
Definition finished (model error : option string) (now : string) (s : FetchStatus) : FetchStatus :=
  {| fs_model := model; fs_state := fs_state s; fs_file := fs_file s; fs_fileIndex := fs_fileIndex s; fs_fileCount := fs_fileCount s;
     fs_receivedBytes := fs_receivedBytes s; fs_totalBytes := fs_totalBytes s; fs_progress := fs_progress s;
     fs_error := error; fs_startedAt := fs_startedAt s; fs_finishedAt := Some now |}.
Definition started (model : string) (count : nat) (total : num) (now : string) : FetchStatus :=
  {| fs_model := Some model; fs_state := running; fs_file := None; fs_fileIndex := 0; fs_fileCount := count;
     fs_receivedBytes := num_zero; fs_totalBytes := total; fs_progress := num_zero;
     fs_error := None; fs_startedAt := Some now; fs_finishedAt := None |}.

Definition get : FSync FetchStatus := mgets mf_status.
Definition cancel_fetch : FSync unit := m ← mget; mwhen (mf_running m) (mmodify (set_cancelled true) ;; log "cancel requested").
Definition fail (model error : string) : FSync FetchStatus :=
  m ← mget;
  with_status (fun s => in_state failed (finished (Some model) (Some error) (mf_now m) s)) ;;
  log ("fetch failed for " +:+ model +:+ ": " +:+ error) ;;
  mmodify (set_running false) ;;
  get.
Definition failCancelled (v : num) : FSync FetchStatus :=
  m ← mget;
  with_status (fun s => received v (fs_progress s) (in_state cancelled (finished (fs_model s) (fs_error s) (mf_now m) s))) ;;
  mmodify (set_running false) ;;
  get.

Definition byte_count (c : list Z) : Z := Z.of_nat (length c).
Definition sizeOf (path : string) (m : Fetcher) : option Z := byte_count <$> mf_files m !! path.
Definition unlink (path : string) : FSync unit := mmodify (fun m => set_files (base.delete path (mf_files m)) m).
Definition rename (from to_ : string) : FSync unit :=
  m ← mget;
  match mf_files m !! from with
  | Some c => mmodify (set_files (<[to_ := c]> (base.delete from (mf_files m))))
  | None => mthrow ("ENOENT: no such file or directory, rename '" +:+ from +:+ "' -> '" +:+ to_ +:+ "'")
  end.
(** [createWriteStream(path, { flags })] and a write to it *)
Definition open_sink (path : string) (appending : bool) : FSync unit :=
  mmodify (fun m => set_files (<[path := if appending then default [] (mf_files m !! path) else []]> (mf_files m)) m).
Definition write_sink (path : string) (c : list Z) : FSync unit :=
  mmodify (fun m => set_files (<[path := default [] (mf_files m !! path) ++ c]> (mf_files m)) m).

Section fetcher.
Context `{FetchHost}.

(** Megabytes kept free *)
Definition modelsReserveMiB (m : Fetcher) : num :=
  let raw := match mf_reserve m with Some s => Number_of s | None => num_nan end in
  if isFinite raw && num_leb num_zero raw then js_floor raw else num_of_Z 2048.

(** The declared files of a model that are missing or have another size on disk *)
Definition missingFiles (files : list ModelDownloadFile) (m : Fetcher) : list ModelDownloadFile :=
  List.filter (fun f => negb (bool_decide (sizeOf (path_join (mf_dir m) (df_name f)) m = Some (df_bytes f)))) files.

Definition fileSha256 (path : string) : Fetching string :=
  m ← lift mget;
  match mf_files m !! path with
  | Some c => fetch_ask (Q_hash path) ;; mret (sha256_hex c)
  | None => athrow ("ENOENT: no such file or directory, open '" +:+ path +:+ "'")
  end.

Definition settled {A} (r : result string A) : Fetching A := fun m => (Fin r, m).
(** [try { x } finally { await end }] *)
Definition finally_end {A} (x : Fetching A) : Fetching A :=
  r ← acatch (a ← x; mret (Ok a)) (fun e => mret (Err e));
  fetch_ask Q_end ;;
  settled r.

Fixpoint pump (part : string) (completed total : num) (chunks : list Chunk) (broken : option string) (written : Z) : Fetching Z :=
  m ← lift mget;
  if mf_cancelled m then mret written else
  fetch_ask Q_read ;;
  match chunks with
  | [] => match broken with Some e => athrow e | None => mret written end
  | c :: chunks =>
      if bool_decide (ck_bytes c = []) then pump part completed total chunks broken written else
      let written := written + byte_count (ck_bytes c) in
      let now_received := num_add completed (num_of_Z written) in
      lift (with_status (received now_received (num_min (num_of_Z 1) (num_div now_received total)))) ;;
      lift (write_sink part (ck_bytes c)) ;;
      (if ck_full c then fetch_ask Q_drain else mret tt) ;;
      pump part completed total chunks broken written
  end.

(** The body goes to the part file; a status when the fetch was cancelled. *)
Definition store_body (name part : string) (completed total : num) (body : list Chunk * option string) (resumeFrom : Z) : Fetching (option FetchStatus) :=
  finally_end (
    written ← pump part completed total body.1 body.2 resumeFrom;
    m ← lift mget;
    if mf_cancelled m then
      lift (log (name +:+ ": cancelled; " +:+ part +:+ " kept for resume")) ;;
      s ← lift (failCancelled (num_add completed (num_of_Z written))); mret (Some s)
    else mret None).

Definition install (model : string) (file : ModelDownloadFile) (final part : string) (completed total : num) : Fetching (option FetchStatus * num) :=
  m ← lift mget;
  let got := default 0 (sizeOf part m) in
  if negb (got =? df_bytes file) then
    s ← lift (fail model (df_name file +:+ ": got " +:+ pretty got +:+ " bytes, expected " +:+ pretty (df_bytes file))); mret (Some s, completed)
  else
  lift (with_status (in_state verifying)) ;;
  digest ← fileSha256 part;
  if negb (String.eqb digest (df_sha256 file)) then
    lift (unlink part) ;;
    s ← lift (fail model (df_name file +:+ ": sha256 mismatch (expected " +:+ take_chars 12 (df_sha256 file) +:+ "…, got " +:+
                          take_chars 12 digest +:+ "…). Deleted the bad download."));
    mret (Some s, completed)
  else
  lift (rename part final) ;;
  lift (log (df_name file +:+ ": verified " +:+ take_chars 12 digest +:+ "… and installed")) ;;
  let completed := num_add completed (num_of_Z (df_bytes file)) in
  lift (with_status (fun s => received completed (num_div completed total) (in_state running s))) ;;
  mret (None, completed).

(** One declared file: a status when the fetch ends here, and the bytes completed so far *)
Definition fetch_file (model dir : string) (i : nat) (file : ModelDownloadFile) (completed total : num) : Fetching (option FetchStatus * num) :=
  let final := path_join dir (df_name file) in
  let part := final +:+ ".part" in
  lift (with_status (at_file (df_name file) i)) ;;
  m ← lift mget;
  if bool_decide (sizeOf final m = Some (df_bytes file)) then
    lift (log (df_name file +:+ ": already present (" +:+ pretty (df_bytes file) +:+ " bytes)")) ;;
    let completed := num_add completed (num_of_Z (df_bytes file)) in
    lift (with_status (received completed (num_div completed total))) ;; mret (None, completed)
  else
  let partial := default 0 (sizeOf part m) in
  resumeFrom ← lift (if df_bytes file <=? partial then unlink part ;; mret 0 else mret partial);
  let so_far := num_add completed (num_of_Z resumeFrom) in
  lift (with_status (received so_far (num_div so_far total))) ;;
  lift (log (df_name file +:+ ": " +:+ (if 0 <? resumeFrom then "resuming at " +:+ pretty resumeFrom else "starting") +:+ " / " +:+
             pretty (df_bytes file) +:+ " bytes")) ;;
  res ← fetch_ask (Q_fetch (df_url file) (if 0 <? resumeFrom then Some resumeFrom else None));
  match res with
  | Rejected why => athrow why
  | Answered ok status body =>
      if negb ok && negb (status =? 206) then
        s ← lift (fail model (df_name file +:+ ": HTTP " +:+ pretty status +:+ " from the declared URL")); mret (Some s, completed)
      else
      match body with
      | None => s ← lift (fail model (df_name file +:+ ": empty response body")); mret (Some s, completed)
      | Some body =>
          let appending := (0 <? resumeFrom) && (status =? 206) in
          resumeFrom ← lift (if (0 <? resumeFrom) && negb appending
                             then log (df_name file +:+ ": range not honoured, restarting the file") ;; unlink part ;;
                                  with_status (fun s => received completed (fs_progress s) s) ;; mret 0
                             else mret resumeFrom);
          lift (open_sink part appending) ;;
          ended ← store_body (df_name file) part completed total body resumeFrom;
          match ended with
          | Some s => mret (Some s, completed)
          | None => install model file final part completed total
          end
      end
  end.

Fixpoint fetch_files (model dir : string) (i : nat) (files : list ModelDownloadFile) (completed total : num) : Fetching (option FetchStatus) :=
  match files with
  | [] => mret None
  | f :: files =>
      x ← fetch_file model dir i f completed total;
      match x.1 with
      | Some s => mret (Some s)
      | None => fetch_files model dir (S i) files x.2 total
      end
  end.

Definition unusable (f : json) : string :=
  "control offered an unusable download entry for " +:+
  match as_obj (Some f) ≫= (fun o => jget o "name") with None | Some JNull => "?" | Some v => js_String v end.
Definition declared_files (declared : list json) : result string (list ModelDownloadFile) :=
  mapM_result (fun f => match validCatalogDownload f with Some d => Ok d | None => Err (unusable f) end) declared.
Definition gigabytes (x : num) : string := toFixed1 (num_div x (num_of_Z 1000000000)).
Definition space_needed (total reserve : num) : num := num_add (js_ceil (num_mul total (num_div (num_of_Z 105) (num_of_Z 100)))) reserve.
Definition no_space (dir : string) (total reserve free : num) : string :=
  "needs " +:+ gigabytes (space_needed total reserve) +:+ " GB free (" +:+ gigabytes total +:+ " GB payload + " +:+ gigabytes reserve +:+
  " GB kept free), " +:+ gigabytes free +:+ " GB available in " +:+ dir.

(** The files one after another, once nothing stands in the way *)
Definition fetch_all (model dir : string) (files : list ModelDownloadFile) (total : num) : Fetching FetchStatus :=
  s ← acatch (
    ended ← fetch_files model dir 0 files num_zero total;
    match ended with
    | Some s => mret s
    | None =>
        r ← fetch_ask Q_changed;
        match r with
        | Err e => athrow e
        | Ok _ =>
            m ← lift mget;
            lift (with_status (fun s => received (fs_receivedBytes s) (num_of_Z 1) (in_state done (finished (fs_model s) (fs_error s) (mf_now m) s)))) ;;
            lift (log ("fetch complete for " +:+ model)) ;;
            lift get
        end
    end) (fun e => lift (fail model e));
  lift (mmodify (set_running false)) ;;
  mret s.

Definition fetch (model : string) (declared : option (list json)) : Fetching FetchStatus :=
  m ← lift mget;
  if mf_running m then lift (fail model "another download is already running") else
  match default [] declared with
  | [] => lift (fail model "this model does not declare where its weights can be fetched from")
  | declared =>
      match declared_files declared with
      | Err e => lift (fail model e)
      | Ok files =>
          let dir := mf_dir m in
          let total := foldl num_add num_zero ((fun f => num_of_Z (df_bytes f)) <$> files) in
          match mf_dirError m with
          | Some e => lift (fail model ("models directory is not usable: " +:+ e))
          | None =>
              let reserve := num_mul (num_mul (modelsReserveMiB m) (num_of_Z 1024)) (num_of_Z 1024) in
              match mf_statfs m with
              | Some (bavail, bsize) =>
                  if num_ltb (num_mul bavail bsize) (space_needed total reserve)
                  then lift (fail model (no_space dir total reserve (num_mul bavail bsize)))
                  else
                    lift (mmodify (fun m => set_status (started model (length files) total (mf_now m)) (set_cancelled false (set_running true m)))) ;;
                    fetch_all model dir files total
              | None =>
                  lift (mmodify (fun m => set_status (started model (length files) total (mf_now m)) (set_cancelled false (set_running true m)))) ;;
                  fetch_all model dir files total
              end
          end
      end
  end.

(** ** Calls that overlap

    Each caller starts a fetch without waiting for it, so several may be under way on the one fetcher. *)

Record Pool := { po_fetcher : Fetcher; po_calls : list (Step (S := Fetcher) fetch_answer FetchStatus) }.
Inductive PoolTurn :=
  | P_fetch (model : string) (declared : option (list json))
  | P_cancel
  (** what the call of an index waits for arrives *)
  | P_answer (i : nat) (f : forall q, fetch_answer q).
Definition pool_turn (t : PoolTurn) (p : Pool) : Pool :=
  match t with
  | P_fetch model declared => let '(s, m) := fetch model declared (po_fetcher p) in {| po_fetcher := m; po_calls := po_calls p ++ [s] |}
  | P_cancel => {| po_fetcher := (cancel_fetch (po_fetcher p)).2; po_calls := po_calls p |}
  | P_answer i f =>
      match po_calls p !! i with
      | Some (Susp q k) => let '(s, m) := k (f q) (po_fetcher p) in {| po_fetcher := m; po_calls := <[i := s]> (po_calls p) |}
      | _ => p
      end
  end.
End fetcher.
