(* ===== verification/DownloadFacts.v ===== *)
(** * What a weights download leaves on disk

    However the server answers and whenever the fetch is cancelled, the only files it changes are its part files and the
    declared files whose content has the declared size and hash; a fetch that ends as done left every declared file in place.
    From a server that serves the declared content a fetch completes, resuming what an earlier one left.  All of this is for
    a fetch nobody else writes beside; the last part shows that the fetcher does not prevent it. *)

From S2P Require Import Prelude Async Rules JsNum Json Types Canon Regex Utf8 StageExecution Sse Download.

Local Open Scope string_scope.
Local Open Scope list_scope.
Local Open Scope Z_scope.

Lemma string_app_cancel (s t u : string) : s +:+ u = t +:+ u -> s = t.
Proof.
  intros H. assert (String.length s = String.length t) as Hl.
  { apply (f_equal String.length) in H. rewrite !length_app_string in H. lia. }
  revert t Hl H. induction s as [|a s IH]; intros [|b t] Hl H; cbn in Hl; try lia; [done|].
  change (String a (s +:+ u) = String b (t +:+ u)) in H. injection H as -> H. f_equal. apply IH; [lia|done].
Qed.

(** The others leave the files alone; the fetch may do what it wants. *)
Lemma files_kept_preorder : PreOrder (fun m m' : Fetcher => mf_files m' = mf_files m).
Proof. split; [done|]. intros x y z H1 H2. by rewrite H2. Qed.
Definition files_kept : Moves Fetcher := {| moves_rel := fun m m' => mf_files m' = mf_files m; moves_preorder := files_kept_preorder |}.
Lemma anything_preorder : PreOrder (fun _ _ : Fetcher => True).
Proof. by split. Qed.
Definition anything : Moves Fetcher := {| moves_rel := fun _ _ => True; moves_preorder := anything_preorder |}.

(** A synchronous method that returns, leaving the files and the wish to cancel *)
Definition plain {A} (x : FSync A) (Q : A -> Fetcher -> Prop) : Prop :=
  forall m, exists a m', x m = (Ok a, m') ∧ mf_files m' = mf_files m ∧ mf_cancelled m' = mf_cancelled m ∧ Q a m'.

Lemma plain_log s : plain (log s) (fun _ _ => True).
Proof. intros m. by eexists _, _. Qed.
Lemma plain_status f : plain (with_status f) (fun _ _ => True).
Proof. intros m. by eexists _, _. Qed.
Lemma plain_fail model e : plain (fail model e) (fun s m => fs_state s = failed ∧ mf_running m = false).
Proof. intros m. by eexists _, _. Qed.
Lemma plain_failCancelled v : plain (failCancelled v) (fun s m => fs_state s = cancelled ∧ mf_running m = false).
Proof. intros m. by eexists _, _. Qed.
#[export] Hint Resolve plain_log plain_status plain_fail plain_failCancelled : swarm.

Section facts.
Context `{FetchHost}.

Definition final_path (dir : string) (f : ModelDownloadFile) : string := path_join dir (df_name f).
Definition part_path (dir : string) (f : ModelDownloadFile) : string := final_path dir f +:+ ".part".
Definition verified (f : ModelDownloadFile) (c : list Z) : Prop := byte_count c = df_bytes f ∧ sha256_hex c = df_sha256 f.

(** What a model declares, when all of it is usable *)
Definition files_of (declared : option (list json)) : list ModelDownloadFile := omap validCatalogDownload (default [] declared).

(** Each file is as it was, or a part file, or a declared file with verified content. *)
Definition only_verified (dir : string) (files : list ModelDownloadFile) (d0 d : gmap string (list Z)) : Prop :=
  forall p, d !! p = d0 !! p ∨ (exists f, f ∈ files ∧ p = part_path dir f) ∨
       exists f c, f ∈ files ∧ p = final_path dir f ∧ d !! p = Some c ∧ verified f c.

(** No declared path is declared twice, or is the part file of another. *)
Definition separate (dir : string) (files : list ModelDownloadFile) : Prop :=
  NoDup (final_path dir <$> files) ∧ forall f g, f ∈ files -> g ∈ files -> final_path dir f <> part_path dir g.

(** ** Rules *)

(** What is known of the state survives steps that leave the files and the wish to cancel, and the others leave the files. *)
Class Quiet (I : Fetcher -> Prop) (R : Moves Fetcher) : Prop := {
  quiet_plain m m' : mf_files m' = mf_files m -> mf_cancelled m' = mf_cancelled m -> I m -> I m';
  quiet_rely m m' : R m m' -> mf_files m' = mf_files m }.
(** It survives what is written to some paths. *)
Class Writable (I : Fetcher -> Prop) (paths : string -> Prop) : Prop :=
  writable k g m : paths k -> I m -> I (set_files (partial_alter g k (mf_files m)) m).

Section rules.
Context {valid : forall w, fetch_answer w -> Fetcher -> Prop} {I : Fetcher -> Prop} {R : Moves Fetcher} `{!Quiet I R}.
Abbreviation frg := (rg valid I R anything).
Abbreviation on p := (fun m : Fetcher => p (mf_files m)).
Implicit Types (p frame : gmap string (list Z) -> Prop).

Lemma rg_plain {A} (x : FSync A) p (Q : A -> Fetcher -> Prop) E : plain x Q -> frg (on p) (lift x) (fun a m => p (mf_files m) ∧ Q a m) E.
Proof using Type*.
  intros Hx. apply rg_lift. intros m HI Hp. destruct (Hx m) as (a & m' & -> & Hf & Hc & Ha).
  split; [by eapply quiet_plain|]. split; [done|]. cbn. by rewrite Hf.
Qed.
(** A plain step before the rest *)
Lemma rg_plain_then {A B} (x : FSync A) p (Q : A -> Fetcher -> Prop) (f : A -> Fetching B) Q' E : plain x Q ->
  (forall a, frg (on p) (f a) Q' E) -> frg (on p) (lift x ≫= f) Q' E.
Proof using Type*.
  intros Hx Hf. eapply rg_bind; [by apply (rg_plain _ p Q)|]. intros a. eapply rg_conseq; [apply Hf|..]; [|done..]. by intros m _ [].
Qed.
Lemma rg_asked w p (V : fetch_answer w -> Prop) E : (forall a m, valid w a m -> V a) ->
  frg (on p) (fetch_ask w) (fun a m => p (mf_files m) ∧ V a) E.
Proof using Type*.
  intros HV. apply rg_await.
  - intros m m' _ _ HR Hp. by rewrite (quiet_rely m m' HR).
  - intros a m _ Hp Ha. split; [done|by eapply HV].
Qed.
Lemma rg_files_ask w p E : frg (on p) (fetch_ask w) (fun _ => on p) E.
Proof using Type*. eapply rg_conseq; [by apply (rg_asked w p (fun _ => True))|done|by intros a m _ []|done]. Qed.

(** The states a method begins in *)
Lemma rg_here {A} (m0 : Fetcher) p (x : Fetching A) Q E : p (mf_files m0) -> frg (on p) x Q E -> frg (fun m => m = m0) x Q E.
Proof. intros Hp Hx. eapply rg_conseq; [exact Hx|by intros m _ ->|done..]. Qed.

Lemma rg_sha256 path c p E : (forall d, p d -> d !! path = Some c) ->
  frg (on p) (fileSha256 path) (fun digest m => p (mf_files m) ∧ digest = sha256_hex c) E.
Proof using Type*.
  intros Hp. unfold fileSha256. apply rg_get. intros m _ Hm. rewrite (Hp _ Hm). eapply rg_here; [exact Hm|].
  eapply rg_bind; [apply rg_files_ask|]. intros ?. by apply rg_ret.
Qed.
Lemma rg_sha256_missing path p : (forall d, p d -> d !! path = None) ->
  frg (on p) (fileSha256 path) (fun _ _ => False) (fun _ => on p).
Proof.
  intros Hp. unfold fileSha256. apply rg_get. intros m _ Hm. rewrite (Hp _ Hm). apply rg_throw. by intros ? _ ->.
Qed.

Lemma rg_finally {A} (x : Fetching A) p (Q : A -> Prop) E : (forall e m, E e m -> p (mf_files m)) ->
  frg (on p) x (fun a m => p (mf_files m) ∧ Q a) E -> frg (on p) (finally_end x) (fun a m => p (mf_files m) ∧ Q a) (fun _ => on p).
Proof using Type*.
  intros HE Hx. unfold finally_end.
  eapply (rg_bind _ _ _ _ _ (fun r m => p (mf_files m) ∧ match r with Ok a => Q a | Err _ => True end)).
  - eapply (rg_catch _ _ _ _ _ _ _ E).
    + eapply rg_bind; [exact Hx|]. intros a. by apply rg_ret.
    + intros e. apply rg_ret. intros m _ Hm. split; [by eapply HE|done].
  - intros r. eapply (rg_bind _ _ _ _ _ (fun _ m => p (mf_files m) ∧ match r with Ok a => Q a | Err _ => True end)).
    + apply (rg_files_ask _ (fun d => p d ∧ match r with Ok a => Q a | Err _ => True end)).
    + intros ?. unfold settled. apply rg_result. intros m _ [H1 H2]. by destruct r.
Qed.

(** Steps that write one path *)
Section writes.
Context {paths : string -> Prop} `{!Writable I paths}.
Lemma sspec_write k (g : Fetcher -> option (list Z) -> option (list Z)) (P : Fetcher -> Prop) (Q : gmap string (list Z) -> Prop) E : paths k ->
  (forall m, P m -> Q (partial_alter (g m) k (mf_files m))) ->
  sspec I anything P (mmodify (fun m => set_files (partial_alter (g m) k (mf_files m)) m)) (fun _ => on Q) E.
Proof using Type*. intros Hk HQ. apply sspec_modify. intros m HI Hm. split_and!; [by apply writable|done|by apply HQ]. Qed.
Lemma rg_unlink k p (Q : gmap string (list Z) -> Prop) E : paths k -> (forall (d : gmap string (list Z)), p d -> Q (base.delete k d)) ->
  frg (on p) (lift (unlink k)) (fun _ => on Q) E.
Proof using Type*. intros Hk HQ. apply rg_lift. apply (sspec_write k (fun _ _ => None)); [done|]. intros m. apply HQ. Qed.
Lemma rg_open k (b : bool) p (Q : gmap string (list Z) -> Prop) E : paths k ->
  (forall (d : gmap string (list Z)), p d -> Q (<[k := if b then default [] (d !! k) else []]> d)) -> frg (on p) (lift (open_sink k b)) (fun _ => on Q) E.
Proof using Type*.
  intros Hk HQ. apply rg_lift. apply (sspec_write k (fun m _ => Some (if b then default [] (mf_files m !! k) else []))); [done|].
  intros m. apply HQ.
Qed.
Lemma rg_write k c p (Q : gmap string (list Z) -> Prop) E : paths k ->
  (forall (d : gmap string (list Z)), p d -> Q (<[k := default [] (d !! k) ++ c]> d)) -> frg (on p) (lift (write_sink k c)) (fun _ => on Q) E.
Proof using Type*.
  intros Hk HQ. apply rg_lift. apply (sspec_write k (fun m _ => Some (default [] (mf_files m !! k) ++ c))); [done|]. intros m. apply HQ.
Qed.
End writes.
End rules.

(** ** Any server, any cancellation *)

Section any_server.
Context (dir : string) (files : list ModelDownloadFile) (d0 : gmap string (list Z)).
Let I (m : Fetcher) : Prop := only_verified dir files d0 (mf_files m).
Abbreviation frg := (rg (ans := fetch_answer) (fun _ _ _ => True) I files_kept anything).
Abbreviation on p := (fun m : Fetcher => p (mf_files m)).
Implicit Types (p frame : gmap string (list Z) -> Prop).

Lemma I_files m m' : mf_files m' = mf_files m -> I m -> I m'.
Proof. unfold I. by intros ->. Qed.
Lemma I_part f g m : f ∈ files -> I m -> I (set_files (partial_alter g (part_path dir f) (mf_files m)) m).
Proof.
  intros Hf HI q. destruct (decide (q = part_path dir f)) as [->|Hne]; [right; left; by exists f|].
  unfold set_files; cbn. rewrite lookup_partial_alter_ne by done. destruct (HI q) as [Hq|[Hq|(h & c & Hh & -> & Hc & Hv)]]; [by left|by right; left|].
  right; right. exists h, c. split_and!; try done; by destruct Hv.
Qed.
#[local] Instance any_quiet : Quiet I files_kept.
Proof. split; [|done]. intros m m' Hm _. by apply I_files. Qed.
#[local] Instance any_writable : Writable I (fun k => exists f, f ∈ files ∧ k = part_path dir f).
Proof. intros k g m (f & Hf & ->). by apply I_part. Qed.

(** Writing at a path of the file at hand *)
Definition own (f : ModelDownloadFile) (k : string) : Prop := k = part_path dir f ∨ k = final_path dir f.
Definition stable (f : ModelDownloadFile) frame : Prop :=
  forall d g k, own f k -> frame d -> frame (partial_alter g k d).

Lemma I_final f c m : f ∈ files -> verified f c -> I m -> I (set_files (<[final_path dir f := c]> (mf_files m)) m).
Proof.
  intros Hf Hv HI q. unfold set_files; cbn. destruct (decide (q = final_path dir f)) as [->|Hne].
  - right; right. exists f, c. by rewrite lookup_insert_eq.
  - rewrite lookup_insert_ne by done. destruct (HI q) as [Hq|[Hq|(h & c' & Hh & -> & Hc & Hv')]]; [by left|by right; left|].
    right; right. by exists h, c'.
Qed.

(** Steps that write the part file *)
Lemma sspec_part f frame E : f ∈ files -> stable f frame -> sspec I anything (on frame) (unlink (part_path dir f)) (fun _ => on frame) E.
Proof. intros Hf Hs. apply (sspec_write _ (fun _ _ => None)); [by exists f|]. intros m. apply Hs. by left. Qed.
Lemma any_unlink f frame E : f ∈ files -> stable f frame -> frg (on frame) (lift (unlink (part_path dir f))) (fun _ => on frame) E.
Proof. intros Hf Hs. apply rg_unlink; [by exists f|]. intros d. apply (Hs d (fun _ => None)). by left. Qed.
Lemma any_open f b frame E : f ∈ files -> stable f frame -> frg (on frame) (lift (open_sink (part_path dir f) b)) (fun _ => on frame) E.
Proof. intros Hf Hs. apply rg_open; [by exists f|]. intros d. apply (Hs d (fun _ => Some _)). by left. Qed.
Lemma any_write f c frame E : f ∈ files -> stable f frame -> frg (on frame) (lift (write_sink (part_path dir f) c)) (fun _ => on frame) E.
Proof. intros Hf Hs. apply rg_write; [by exists f|]. intros d. apply (Hs d (fun _ => Some _)). by left. Qed.

Lemma rg_pump f completed total broken frame : f ∈ files -> stable f frame -> forall chunks written,
  frg (on frame) (pump (part_path dir f) completed total chunks broken written) (fun _ => on frame) (fun _ => on frame).
Proof.
  intros Hf Hs chunks. induction chunks as [|c chunks IH]; intros written; cbn [pump]; apply rg_get; intros m _ Hm.
  - apply (rg_conseq _ _ _ _ _ (on frame) _ (fun _ => on frame) _ (fun _ => on frame)); [|by intros ? _ ->|done..].
    destruct (mf_cancelled m); [by apply rg_ret|]. eapply rg_bind; [apply rg_files_ask|]. intros ?.
    destruct broken; [by apply rg_throw|by apply rg_ret].
  - apply (rg_conseq _ _ _ _ _ (on frame) _ (fun _ => on frame) _ (fun _ => on frame)); [|by intros ? _ ->|done..].
    destruct (mf_cancelled m); [by apply rg_ret|]. eapply rg_bind; [apply rg_files_ask|]. intros ?.
    case_bool_decide; [apply IH|]. cbv zeta. eapply rg_plain_then; [eauto with swarm|]. intros _.
    eapply rg_bind; [by apply any_write|]. intros ?. eapply (rg_bind _ _ _ _ _ (fun _ => on frame)); [|intros ?; apply IH].
    destruct (ck_full c); [apply rg_files_ask|by apply rg_ret].
Qed.

Definition not_done (x : option FetchStatus) : Prop := forall s, x = Some s -> fs_state s <> done.

Lemma rg_store f name completed total body from frame : f ∈ files -> stable f frame ->
  frg (on frame) (store_body name (part_path dir f) completed total body from) (fun x m => frame (mf_files m) ∧ not_done x) (fun _ => on frame).
Proof.
  intros Hf Hs. apply (rg_finally _ frame not_done (fun _ => on frame)); [done|]. eapply rg_bind; [by apply rg_pump|]. intros written. apply rg_get. intros m _ Hm.
  apply (rg_conseq _ _ _ _ _ (on frame) _ (fun x m => frame (mf_files m) ∧ not_done x) _ (fun _ => on frame)); [|by intros ? _ ->|done..].
  destruct (mf_cancelled m); [|by apply rg_ret].
  eapply rg_plain_then; [eauto with swarm|]. intros _. eapply rg_bind; [apply (rg_plain _ frame); eauto with swarm|].
  intros s. apply rg_ret. intros m' _ (? & Hst & _). split; [done|]. intros ? [= <-]. by rewrite Hst.
Qed.

(** The file is in place with its size. *)
Definition sized (f : ModelDownloadFile) (d : gmap string (list Z)) : Prop := byte_count <$> d !! final_path dir f = Some (df_bytes f).
Definition filed (f : ModelDownloadFile) frame (x : option FetchStatus * num) (m : Fetcher) : Prop :=
  frame (mf_files m) ∧ not_done x.1 ∧ (x.1 = None -> sized f (mf_files m)).

Lemma rg_failed f frame model e n : frg (on frame) (s ← lift (fail model e); mret (Some s, n)) (filed f frame) (fun _ => on frame).
Proof.
  eapply rg_bind; [apply (rg_plain _ frame); eauto with swarm|]. intros s. apply rg_ret. intros m _ (? & Hst & _).
  split_and!; [done| |done]. intros ? [= <-]. by rewrite Hst.
Qed.

Lemma rg_rename f c frame E : f ∈ files -> verified f c -> stable f frame ->
  frg (on (fun d => frame d ∧ d !! part_path dir f = Some c)) (lift (rename (part_path dir f) (final_path dir f)))
      (fun _ m => frame (mf_files m) ∧ sized f (mf_files m)) E.
Proof.
  intros Hf Hv Hs. apply rg_lift. unfold rename. apply sspec_get. intros m _ [Hm Hc]. rewrite Hc.
  apply sspec_modify. intros ? HI ->. split_and!; [|done|..].
  - eapply I_files; [|apply (I_final f c (set_files (base.delete (part_path dir f) (mf_files m)) m) Hf Hv)]; [done|].
    by apply (I_part f (fun _ => None)).
  - apply (Hs _ (fun _ => Some c)); [by right|]. by apply (Hs _ (fun _ => None)); [left|].
  - unfold sized, set_files; cbn. rewrite lookup_insert_eq. cbn. f_equal. by destruct Hv.
Qed.

Lemma rg_install f model completed total frame : f ∈ files -> stable f frame ->
  frg (on frame) (install model f (final_path dir f) (part_path dir f) completed total) (filed f frame) (fun _ => on frame).
Proof.
  intros Hf Hs. unfold install. apply rg_get. intros m _ Hm. cbv zeta. unfold sizeOf.
  destruct (Z.eqb_spec (default 0 (byte_count <$> mf_files m !! part_path dir f)) (df_bytes f)) as [Hl|_]; cbn [negb]; [|by eapply rg_here, rg_failed].
  destruct (mf_files m !! part_path dir f) as [c|] eqn:Ec.
  2: { set (p := fun d => frame d ∧ d !! part_path dir f = None). eapply (rg_here _ p); [done|].
       eapply (rg_plain_then _ p); [eauto with swarm|]. intros _.
       eapply (rg_bind _ _ _ _ _ (fun _ _ => False)); [|by intros ? ? ? ? ? []].
       eapply rg_conseq; [apply (rg_sha256_missing _ p)|..]; [by intros d []|done|done|by intros ? ? _ []]. }
  cbn in Hl. set (p := fun d => frame d ∧ d !! part_path dir f = Some c).
  eapply (rg_here _ p); [done|]. eapply (rg_plain_then _ p); [eauto with swarm|]. intros _.
  eapply (rg_bind _ _ _ _ _ (fun digest m => p (mf_files m) ∧ digest = sha256_hex c)); [apply rg_sha256; by intros d []|]. intros digest.
  destruct (String.eqb_spec digest (df_sha256 f)) as [Hd|_]; cbn [negb].
  - eapply (rg_bind _ _ _ _ _ (fun _ m => frame (mf_files m) ∧ sized f (mf_files m))).
    { apply (rg_conseq _ _ _ _ _ (fun m => p (mf_files m) ∧ verified f c) _ (fun _ m => frame (mf_files m) ∧ sized f (mf_files m)) _ (fun _ _ => False)); [|by intros m' _ [? ->]|done..].
      intros m0 m1 HI HG [Hp Hv]. by apply (rg_rename f c frame). }
    intros ?. eapply (rg_plain_then _ (fun d => frame d ∧ sized f d)); [eauto with swarm|]. intros _. cbv zeta.
    eapply (rg_plain_then _ (fun d => frame d ∧ sized f d)); [eauto with swarm|]. intros _. apply rg_ret. intros m' _ [? ?]. by split_and!.
  - eapply (rg_bind _ _ _ _ _ (fun _ => on frame)); [|intros ?; apply rg_failed].
    eapply rg_conseq; [by apply (any_unlink f frame (fun _ => on frame))|by intros m' _ [[] _]|done..].
Qed.

Lemma rg_fetch_file model i f completed total frame : f ∈ files -> stable f frame ->
  frg (on frame) (fetch_file model dir i f completed total) (filed f frame) (fun _ => on frame).
Proof.
  intros Hf Hs. unfold fetch_file. fold (final_path dir f). fold (part_path dir f). cbv zeta.
  eapply (rg_plain_then _ frame); [eauto with swarm|]. intros _. apply rg_get. intros m _ Hm. case_bool_decide as Hp.
  - set (p := fun d => frame d ∧ sized f d). eapply (rg_here _ p); [by split|]. do 2 (eapply (rg_plain_then _ p); [eauto with swarm|]; intros _).
    apply rg_ret. intros m' _ [? ?]. by split_and!.
  - eapply (rg_here _ frame); [done|].
    eapply (rg_bind _ _ _ _ _ (fun _ => on frame)).
    { destruct (df_bytes f <=? _); [|by apply rg_ret]. apply rg_lift. eapply (sspec_bind _ _ _ (fun _ => on frame)); [by apply sspec_part|].
      intros ?. by apply sspec_ret. }
    intros from. do 2 (eapply (rg_plain_then _ frame); [eauto with swarm|]; intros _).
    eapply (rg_bind _ _ _ _ _ (fun _ => on frame)); [apply rg_files_ask|]. intros [why|ok status [body|]]; [by apply rg_throw|..];
      (destruct (negb ok && negb (status =? 206)); [apply rg_failed|]); [|apply rg_failed].
    eapply (rg_bind _ _ _ _ _ (fun _ => on frame)).
    { destruct ((0 <? from) && _); [|by apply rg_ret]. apply rg_lift. eapply (sspec_bind _ _ _ (fun _ => on frame)); [by apply sspec_modify|]. intros ?.
      eapply (sspec_bind _ _ _ (fun _ => on frame)); [by apply sspec_part|]. intros ?.
      eapply (sspec_bind _ _ _ (fun _ => on frame)); [|intros ?; by apply sspec_ret].
      by apply sspec_modify. }
    intros from'. eapply (rg_bind _ _ _ _ _ (fun _ => on frame)); [by apply any_open|]. intros ?.
    eapply (rg_bind _ _ _ _ _ (fun x m => frame (mf_files m) ∧ not_done x)); [by apply rg_store|]. intros [s|].
    + apply rg_ret. intros m' _ [? ?]. by split_and!.
    + eapply rg_conseq; [by apply (rg_install f model completed total frame)|by intros m' _ []|done..].
Qed.

(** Every file of a list, as far as they stay out of each other's way *)
Definition all_sized (done_ : list ModelDownloadFile) (d : gmap string (list Z)) : Prop :=
  separate dir files -> forall g, g ∈ done_ -> sized g d.
Lemma stable_sized done_ rest f : files = done_ ++ f :: rest -> stable f (all_sized done_).
Proof.
  intros Heq d u k Hk Hd Hsep g Hg. pose proof (Hd Hsep g Hg) as Hs. unfold sized in *. rewrite lookup_partial_alter_ne; [done|].
  destruct Hsep as [Hnd Hpart]. assert (f ∈ files ∧ g ∈ files) as [Hf Hgf] by (rewrite Heq, !elem_of_app, elem_of_cons; auto).
  destruct Hk as [->| ->]; [by apply not_eq_sym, Hpart|]. intros Heq'. rewrite Heq, fmap_app, NoDup_app in Hnd. destruct Hnd as (_ & Hnd & _).
  apply (Hnd (final_path dir g)); [by apply list_elem_of_fmap_2|]. rewrite <-Heq'. by left.
Qed.

Lemma rg_fetch_files model total rest : forall done_ i completed, files = done_ ++ rest ->
  frg (on (all_sized done_)) (fetch_files model dir i rest completed total)
      (fun x m => not_done x ∧ (x = None -> all_sized files (mf_files m))) (fun _ _ => True).
Proof.
  induction rest as [|f rest IH]; intros done_ i completed Heq; cbn [fetch_files].
  - apply rg_ret. intros m _ Hm. rewrite app_nil_r in Heq. subst. by split.
  - assert (f ∈ files) as Hf by (rewrite Heq, elem_of_app, elem_of_cons; auto).
    eapply rg_bind; [eapply rg_conseq; [apply (rg_fetch_file model i f completed total (all_sized done_)); [done|by eapply stable_sized]|..]|].
    + done.
    + intros a m _ Ha. exact Ha.
    + done.
    + intros [[s|] c]; cbn [fst snd].
      * apply rg_ret. intros m _ (_ & Hn & _). by split.
      * eapply rg_conseq; [apply (IH (done_ ++ [f])); rewrite Heq, <-app_assoc; done| |done..].
        intros m _ (Hall & _ & Hsz) Hsep g [Hg| ->%list_elem_of_singleton]%elem_of_app; [by apply Hall|by apply Hsz].
Qed.

(** What a fetch ends with *)
Definition ends (s : FetchStatus) (m : Fetcher) : Prop := (fs_state s = done -> all_sized files (mf_files m)) ∧ mf_running m = false.

Lemma rg_ends_plain model e : frg (fun _ => True) (lift (fail model e)) ends (fun _ _ => False).
Proof.
  eapply rg_conseq; [apply (rg_plain _ (fun _ => True) _ (fun _ _ => False) (plain_fail model e))|done| |done]. intros s m _ (_ & Hs & Hr). split; [by rewrite Hs|done].
Qed.

Lemma rg_fetch_all model total : frg (on (all_sized [])) (fetch_all model dir files total) ends (fun _ _ => False).
Proof.
  unfold fetch_all. eapply (rg_bind _ _ _ _ _ (fun s m => fs_state s = done -> all_sized files (mf_files m))).
  - eapply (rg_catch _ _ _ _ _ _ _ (fun _ _ => True)).
    + eapply rg_bind; [by apply (rg_fetch_files model total files [])|]. intros [s|].
      * apply rg_ret. intros m _ [Hn _] Hs. by destruct (Hn s).
      * eapply (rg_bind _ _ _ _ _ (fun _ => on (all_sized files))).
        { eapply rg_conseq; [apply (rg_files_ask Q_changed (all_sized files) (fun _ _ => True))|intros m _ [_ Hm]; by apply Hm|done..]. }
        intros [_|e]; [|by apply rg_throw]. apply rg_get. intros m _ Hm. eapply (rg_here _ (all_sized files)); [done|].
        do 2 (eapply (rg_plain_then _ (all_sized files)); [eauto with swarm|]; intros _).
        eapply rg_conseq; [apply (rg_plain get (all_sized files) (fun _ _ => True) (fun _ _ => True)); intros m'; by eexists _, _|done|by intros s m' _ [? _]|done].
    + intros e. eapply rg_conseq; [apply (rg_ends_plain model e)|done|by intros s m _ [? _]|done].
  - intros s. eapply (rg_bind _ _ _ _ _ (fun _ => ends s)); [|intros ?; by apply rg_ret].
    apply rg_lift, sspec_modify. intros m HI Hm. by split_and!.
Qed.
End any_server.

Lemma declared_files_ok declared files : declared_files declared = Ok files -> omap validCatalogDownload declared = files.
Proof.
  unfold declared_files. revert files. induction declared as [|f l IH]; intros files; cbn [mapM_result omap list_omap]; [by intros [= <-]|].
  destruct (validCatalogDownload f) as [d|]; cbn [mbind result_bind]; [|done].
  destruct (mapM_result _ l) as [ds|] eqn:E; cbn [mbind result_bind]; [|done]. intros [= <-]. by rewrite (IH ds eq_refl).
Qed.

Lemma rg_fetch model declared m0 :
  rg (ans := fetch_answer) (fun _ _ _ => True) (fun m => only_verified (mf_dir m0) (files_of declared) (mf_files m0) (mf_files m))
     files_kept anything (fun m => m = m0) (fetch model declared) (ends (mf_dir m0) (files_of declared)) (fun _ _ => False).
Proof.
  assert (forall e, rg (ans := fetch_answer) (fun _ _ _ => True) (fun m => only_verified (mf_dir m0) (files_of declared) (mf_files m0) (mf_files m))
     files_kept anything (fun m => m = m0) (lift (fail model e)) (ends (mf_dir m0) (files_of declared)) (fun _ _ => False)) as Hfail.
  { intros e. eapply rg_conseq; [apply (rg_ends_plain (mf_dir m0) (files_of declared) (mf_files m0))|done..]. }
  unfold fetch. apply rg_get. intros m _ ->. destruct (mf_running m0); [apply Hfail|]. unfold files_of in *.
  destruct (default [] declared) as [|f l]; [apply Hfail|]. destruct (declared_files (f :: l)) as [files|e] eqn:Ed; [|apply Hfail].
  apply declared_files_ok in Ed. rewrite Ed in *. destruct (mf_dirError m0) as [e|]; [apply Hfail|]. cbv zeta.
  assert (forall total, rg (ans := fetch_answer) (fun _ _ _ => True) (fun m => only_verified (mf_dir m0) files (mf_files m0) (mf_files m))
     files_kept anything (fun m => m = m0)
     (lift (mmodify (fun m => Download.set_status (started model (length files) total (mf_now m)) (set_cancelled false (set_running true m)))) ;;
      fetch_all model (mf_dir m0) files total) (ends (mf_dir m0) files) (fun _ _ => False)) as Hgo.
  { intros total. eapply rg_bind; [|intros ?; apply rg_fetch_all]. apply rg_lift, sspec_modify. intros m HI ->. split_and!; [done..|].
    by intros _ g ?%elem_of_nil. }
  destruct (mf_statfs m0) as [[bavail bsize]|]; [|apply Hgo]. destruct (num_ltb _ _); [apply Hfail|apply Hgo].
Qed.

(** ** A server that serves what was declared *)

Section honest_server.
Context (content : string -> list Z) (dir : string).

(** It answers a range request with the rest or with everything; nothing breaks. *)
Definition honest (q : FetchAsk) : fetch_answer q -> Fetcher -> Prop :=
  match q with
  | Q_fetch url from => fun a _ => exists status chunks, a = Answered true status (Some (chunks, None)) ∧
      concat (ck_bytes <$> chunks) =
        match from with Some k => if status =? 206 then drop (Z.to_nat k) (content url) else content url | None => content url end
  | Q_changed => fun a _ => a = Ok tt
  | _ => fun _ _ => True
  end.
(** Nobody cancels, and the others leave the files alone. *)
Let I (m : Fetcher) : Prop := mf_cancelled m = false.
Abbreviation frg := (rg (ans := fetch_answer) honest I files_kept anything).
Abbreviation on p := (fun m : Fetcher => p (mf_files m)).
Implicit Types (p frame : gmap string (list Z) -> Prop).

#[local] Instance honest_quiet : Quiet I files_kept.
Proof. split; [|done]. unfold I. by intros m m' _ ->. Qed.
#[local] Instance honest_writable : Writable I (fun _ => True).
Proof. by intros k g m. Qed.

Definition serves (f : ModelDownloadFile) : Prop := verified f (content (df_url f)) ∧ 0 < df_bytes f.
(** What an earlier fetch left of the file can be resumed, or is thrown away. *)
Definition resumable (f : ModelDownloadFile) (d : gmap string (list Z)) : Prop :=
  forall c, d !! part_path dir f = Some c -> c `prefix_of` content (df_url f) ∨ df_bytes f <= byte_count c.

Lemma honest_pump k frame completed total : (forall d v, frame d -> frame (<[k := v]> d)) -> forall chunks pre written,
  frg (on (fun d => frame d ∧ d !! k = Some pre)) (pump k completed total chunks None written)
      (fun _ => on (fun d => frame d ∧ d !! k = Some (pre ++ concat (ck_bytes <$> chunks)))) (fun _ _ => False).
Proof.
  intros Hs chunks. induction chunks as [|c chunks IH]; intros pre written; cbn [pump]; apply rg_get; intros m HI Hm;
    eapply (rg_here _ (fun d => frame d ∧ d !! k = Some pre)); [done| |done|]; rewrite HI; (eapply rg_bind; [apply (rg_files_ask Q_read (fun d => frame d ∧ d !! k = Some pre))|]); intros ?.
  - cbn. rewrite app_nil_r. by apply rg_ret.
  - case_bool_decide as Hc.
    { cbn. rewrite Hc. apply IH. }
    cbv zeta. eapply (rg_plain_then _ (fun d => frame d ∧ d !! k = Some pre)); [eauto with swarm|]. intros _.
    set (p := fun d => frame d ∧ d !! k = Some (pre ++ ck_bytes c)).
    eapply (rg_bind _ _ _ _ _ (fun _ => on p)).
    { apply (rg_write k (ck_bytes c) (fun d => frame d ∧ d !! k = Some pre) p); [done|]. intros d [H1 H2]. split; [by apply Hs|]. rewrite lookup_insert_eq, H2. done. }
    intros ?. eapply (rg_bind _ _ _ _ _ (fun _ => on p)).
    { destruct (ck_full c); [apply (rg_files_ask _ p)|by apply rg_ret]. }
    intros ?. cbn. rewrite app_assoc. apply IH.
Qed.

Lemma honest_store f frame name completed total body pre from : (forall d v, frame d -> frame (<[part_path dir f := v]> d)) -> body.2 = None ->
  frg (on (fun d => frame d ∧ d !! part_path dir f = Some pre)) (store_body name (part_path dir f) completed total body from)
      (fun x m => x = None ∧ frame (mf_files m) ∧ mf_files m !! part_path dir f = Some (pre ++ concat (ck_bytes <$> body.1))) (fun _ _ => False).
Proof.
  intros Hs Hb. set (p := fun d => frame d ∧ d !! part_path dir f = Some (pre ++ concat (ck_bytes <$> body.1))).
  unfold store_body, finally_end. rewrite Hb.
  eapply (rg_bind _ _ _ _ _ (fun r m => r = Ok None ∧ p (mf_files m))).
  - eapply (rg_catch _ _ _ _ _ _ _ (fun _ _ => False)); [|intros e; by apply rg_ret].
    eapply (rg_bind _ _ _ _ _ (fun a m => a = None ∧ p (mf_files m))).
    + eapply rg_bind; [by apply honest_pump|]. intros n. apply rg_get. intros m HI Hm. rewrite HI. apply rg_ret. by intros ? _ ->.
    + intros a. apply rg_ret. by intros m _ [-> ?].
  - intros r. eapply (rg_bind _ _ _ _ _ (fun _ m => p (mf_files m) ∧ r = Ok None)).
    + eapply rg_conseq; [apply (rg_files_ask Q_end (fun d => p d ∧ r = Ok None) (fun _ _ => False))|by intros m _ []|done..].
    + intros ?. apply rg_result. intros m _ [[H1 H2] ->]. by split_and!.
Qed.

Lemma prefix_taken (l k : list Z) : l `prefix_of` k -> l = take (length l) k.
Proof. intros [x ->]. by rewrite take_app_length. Qed.

Lemma honest_install f model completed total frame : serves f ->
  (forall d v, frame d -> frame (<[final_path dir f := v]> (base.delete (part_path dir f) d))) ->
  frg (on (fun d => frame d ∧ d !! part_path dir f = Some (content (df_url f)))) (install model f (final_path dir f) (part_path dir f) completed total)
      (fun x m => x.1 = None ∧ frame (mf_files m) ∧ sized dir f (mf_files m)) (fun _ _ => False).
Proof.
  intros [[Hl Hd] _] Hs. unfold install. apply rg_get. intros m _ [Hm Hc]. cbv zeta. unfold sizeOf. rewrite Hc. cbn [fmap option_fmap option_map default].
  rewrite Hl, Z.eqb_refl. cbn [negb]. set (p := fun d => frame d ∧ d !! part_path dir f = Some (content (df_url f))).
  eapply (rg_here _ p); [by split|]. eapply (rg_plain_then _ p); [eauto with swarm|]. intros _.
  eapply (rg_bind _ _ _ _ _ (fun digest m => p (mf_files m) ∧ digest = sha256_hex (content (df_url f)))); [apply rg_sha256; by intros d []|].
  intros digest. set (p' := fun d => frame d ∧ sized dir f d).
  eapply (rg_conseq _ _ _ _ _ (fun m => p (mf_files m) ∧ digest = df_sha256 f) _ (fun x m => x.1 = None ∧ frame (mf_files m) ∧ sized dir f (mf_files m)) _ (fun _ _ => False));
    [|by intros m' _ [? ->]|done..].
  destruct (String.eqb_spec digest (df_sha256 f)) as [Hg|]; cbn [negb]; [|by intros ? ? ? ? []].
  eapply (rg_bind _ _ _ _ _ (fun _ => on p')).
  - apply rg_lift. unfold rename. apply sspec_get. intros m' _ [[Hm' Hc'] _]. rewrite Hc'. apply sspec_modify. intros ? HI ->.
    split_and!; [done..|]. split; [by apply Hs|]. unfold sized, set_files; cbn. rewrite lookup_insert_eq. cbn. by rewrite Hl.
  - intros ?. cbv zeta. do 2 (eapply (rg_plain_then _ p'); [eauto with swarm|]; intros _). apply rg_ret. by intros m' _ [].
Qed.

Definition keeps_frame f frame : Prop :=
  forall d g k, k = part_path dir f ∨ k = final_path dir f -> frame d -> frame (partial_alter g k d).

(** The part file that is written to, from what is kept of it *)
Lemma honest_fetch_file model i f completed total frame : serves f -> keeps_frame f frame ->
  frg (on (fun d => frame d ∧ resumable f d)) (fetch_file model dir i f completed total)
      (fun x m => x.1 = None ∧ frame (mf_files m) ∧ sized dir f (mf_files m)) (fun _ _ => False).
Proof.
  intros Hv Hs. set (p := fun d => frame d ∧ resumable f d). unfold fetch_file. fold (final_path dir f). fold (part_path dir f). cbv zeta.
  eapply (rg_plain_then _ p); [eauto with swarm|]. intros _. apply rg_get. intros m _ [Hm Hr]. case_bool_decide as Hp.
  { set (q := fun d => frame d ∧ sized dir f d). eapply (rg_here _ q); [by split|].
    do 2 (eapply (rg_plain_then _ q); [eauto with swarm|]; intros _). apply rg_ret. by intros m' _ []. }
  set (part := part_path dir f) in *. set (q := fun (k : Z) d => frame d ∧ 0 <= k ∧ (0 < k -> d !! part = Some (take (Z.to_nat k) (content (df_url f))))).
  eapply (rg_bind _ _ _ _ _ (fun k => on (q k))).
  { apply rg_lift. unfold sizeOf. destruct (Z.leb_spec (df_bytes f) (default 0 (byte_count <$> mf_files m !! part))) as [|Hlt].
    - eapply (sspec_bind _ _ _ (fun _ => on (q 0))); [|intros ?; by apply sspec_ret].
      apply (sspec_write (paths := fun _ => True) part (fun _ _ => None)); [done|]. intros ? ->. split; [apply Hs; [by left|done]|]. lia.
    - apply sspec_ret. intros ? _ ->. destruct (mf_files m !! part) as [c|] eqn:Ec; cbn in *; [|split; [done|lia]]. unfold byte_count in *. split; [done|]. split; [lia|].
      intros _. rewrite Nat2Z.id, Ec. f_equal. apply prefix_taken. destruct (Hr c Ec) as [?|?]; [done|]. unfold byte_count in *. lia. }
  intros from. do 2 (eapply (rg_plain_then _ (q from)); [eauto with swarm|]; intros _).
  eapply (rg_bind _ _ _ _ _ (fun a m => q from (mf_files m) ∧ honest (Q_fetch (df_url f) (if 0 <? from then Some from else None)) a m));
    [apply (rg_asked (Q_fetch _ _) (q from) (fun a => honest (Q_fetch _ _) a m)); by intros|].
  intros a. eapply (rg_conseq _ _ _ _ _ (fun m' => q from (mf_files m') ∧ exists status chunks, a = Answered true status (Some (chunks, None)) ∧
     concat (ck_bytes <$> chunks) = if (0 <? from) && (status =? 206) then drop (Z.to_nat from) (content (df_url f)) else content (df_url f))
     _ (fun x m => x.1 = None ∧ frame (mf_files m) ∧ sized dir f (mf_files m)) _ (fun _ _ => False)); [| |done..].
  2: { intros m' _ (Hq & status & chunks & -> & Hc). split; [done|]. exists status, chunks. split; [done|]. rewrite Hc. by destruct (0 <? from). }
  intros m0 m1 HI HG (Hq & status & chunks & -> & Hc). revert m0 m1 HI HG Hq. cbn [negb andb].
  set (app := (0 <? from) && (status =? 206)) in *. change (frg (on (q from)) (from' ← lift (if (0 <? from) && negb app
      then log (df_name f +:+ ": range not honoured, restarting the file") ;; unlink part ;; with_status (fun s => received completed (fs_progress s) s) ;; mret 0
      else mret from); lift (open_sink part app) ;; ended ← store_body (df_name f) part completed total (chunks, None) from';
        match ended with Some s => mret (Some s, completed) | None => install model f (final_path dir f) part completed total end)
      (fun x m => x.1 = None ∧ frame (mf_files m) ∧ sized dir f (mf_files m)) (fun _ _ => False)).
  set (pre := if app then take (Z.to_nat from) (content (df_url f)) else []).
  eapply (rg_bind _ _ _ _ _ (fun _ => on (fun d => frame d ∧ (app = true -> d !! part = Some pre)))).
  { apply rg_lift. destruct ((0 <? from) && negb app) eqn:E.
    - apply andb_true_iff in E as [_ Ha%negb_true_iff]. rewrite Ha.
      eapply (sspec_bind _ _ _ (fun _ => on frame)); [by apply sspec_modify; intros m' ? []|]. intros ?.
      eapply (sspec_bind _ _ _ (fun _ => on frame)).
      { apply (sspec_write (paths := fun _ => True) part (fun _ _ => None)); [done|]. intros m'. apply Hs. by left. }
      intros ?. eapply (sspec_bind _ _ _ (fun _ => on frame)); [by apply sspec_modify|]. intros ?. by apply sspec_ret.
    - apply sspec_ret. intros m' _ (Hf & Hk & Hpart). split; [done|]. intros Ha. unfold pre. rewrite Ha. apply Hpart.
      unfold app in Ha. apply andb_true_iff in Ha as [Ha _]. lia. }
  intros from'. eapply (rg_bind _ _ _ _ _ (fun _ => on (fun d => frame d ∧ d !! part = Some pre))).
  { apply (rg_open part app (fun d => frame d ∧ (app = true -> d !! part = Some pre)) (fun d => frame d ∧ d !! part = Some pre)); [done|].
    intros d [Hf Hk]. split; [apply (Hs d (fun _ => Some _)); [by left|done]|].
    rewrite lookup_insert_eq. unfold pre in *. destruct app; [|done]. by rewrite Hk. }
  intros ?. assert (pre ++ concat (ck_bytes <$> chunks) = content (df_url f)) as Hall.
  { unfold pre. rewrite Hc. destruct app; [apply take_drop|done]. }
  eapply (rg_bind _ _ _ _ _ (fun x m => x = None ∧ frame (mf_files m) ∧ mf_files m !! part = Some (pre ++ concat (ck_bytes <$> chunks)))).
  { apply (honest_store f frame _ completed total (chunks, None) pre from'); [|done]. intros d v. apply (Hs d (fun _ => Some v)). by left. }
  intros x. rewrite Hall. eapply (rg_conseq _ _ _ _ _ (fun m => (frame (mf_files m) ∧ mf_files m !! part = Some (content (df_url f))) ∧ x = None) _
    (fun x m => x.1 = None ∧ frame (mf_files m) ∧ sized dir f (mf_files m)) _ (fun _ _ => False)); [|by intros m' _ (? & ? & ?)|done..].
  intros m0 m1 HI HG [Hm1 ->]. apply (honest_install f model completed total frame Hv); [|done..]. intros d v Hd.
  apply (Hs _ (fun _ => Some v)); [by right|]. apply (Hs d (fun _ => None)); [by left|done].
Qed.

(** All files of a list, those still to come being resumable *)
Definition under_way (done_ rest : list ModelDownloadFile) (d : gmap string (list Z)) : Prop :=
  (forall g, g ∈ done_ -> sized dir g d) ∧ forall g, g ∈ rest -> resumable g d.

Lemma part_path_inj f g : part_path dir f = part_path dir g -> final_path dir f = final_path dir g.
Proof. apply string_app_cancel. Qed.

Lemma under_way_frame done_ f rest : separate dir (done_ ++ f :: rest) -> keeps_frame f (under_way done_ rest).
Proof.
  intros [Hnd Hsep] d u k Hk [Hd Hr]. rewrite fmap_app, NoDup_app, fmap_cons, NoDup_cons in Hnd. destruct Hnd as (_ & Hdf & Hfr & _).
  assert (f ∈ done_ ++ f :: rest) as Hf by (rewrite elem_of_app, elem_of_cons; auto).
  split; intros g Hg.
  - assert (g ∈ done_ ++ f :: rest) as Hgf by (rewrite elem_of_app; auto). unfold sized. rewrite lookup_partial_alter_ne; [by apply Hd|].
    destruct Hk as [->| ->]; [by apply not_eq_sym, Hsep|]. intros Heq. apply (Hdf (final_path dir g)); [by apply list_elem_of_fmap_2|]. rewrite <-Heq. left.
  - assert (g ∈ done_ ++ f :: rest) as Hgf by (rewrite elem_of_app, elem_of_cons; auto). intros c. rewrite lookup_partial_alter_ne; [by apply Hr|].
    destruct Hk as [->| ->]; [|by apply Hsep]. intros Heq%part_path_inj. apply Hfr. rewrite Heq. by apply list_elem_of_fmap_2.
Qed.

Lemma honest_fetch_files model total rest : forall done_ i completed, separate dir (done_ ++ rest) -> Forall serves rest ->
  frg (on (under_way done_ rest)) (fetch_files model dir i rest completed total)
      (fun x m => x = None ∧ forall g, g ∈ done_ ++ rest -> sized dir g (mf_files m)) (fun _ _ => False).
Proof.
  induction rest as [|f rest IH]; intros done_ i completed Hsep Hv; cbn [fetch_files].
  - apply rg_ret. intros m _ [Hd _]. split; [done|]. intros g. rewrite app_nil_r. apply Hd.
  - apply Forall_cons in Hv as [Hf Hv]. eapply rg_bind.
    + eapply rg_conseq; [apply (honest_fetch_file model i f completed total (under_way done_ rest)); [done|by apply under_way_frame]| |intros a m _ Ha; exact Ha|intros e m _ He; exact He].
      intros m _ [Hd Hr]. split; [split; [done|]|]; [intros g Hg; apply Hr; by right|apply Hr; left].
    + intros [[s|] c]; cbn [fst snd]; [by intros ? ? ? ? [? _]|].
      eapply rg_conseq; [apply (IH (done_ ++ [f])); [by rewrite <-app_assoc|done]| | |done].
      * intros m _ (_ & [Hd Hr] & Hsz). split; [|done]. intros g [Hg| ->%list_elem_of_singleton]%elem_of_app; [by apply Hd|done].
      * intros x m _ [-> Hall]. split; [done|]. intros g Hg. apply Hall. by rewrite <-app_assoc.
Qed.

Lemma honest_fetch_all model files total : separate dir files -> Forall serves files ->
  frg (on (under_way [] files)) (fetch_all model dir files total)
      (fun s m => fs_state s = done ∧ forall f, f ∈ files -> sized dir f (mf_files m)) (fun _ _ => False).
Proof.
  intros Hsep Hv. set (q := fun d => forall f, f ∈ files -> sized dir f d). unfold fetch_all.
  eapply (rg_bind _ _ _ _ _ (fun s m => fs_state s = done ∧ q (mf_files m))).
  2: { intros s. eapply (rg_bind _ _ _ _ _ (fun _ m => fs_state s = done ∧ q (mf_files m))); [by apply rg_lift, sspec_modify|].
       intros ?. by apply rg_ret. }
  eapply (rg_catch _ _ _ _ _ _ _ (fun _ _ => False)); [|by intros ? ? ? ? ? []].
  eapply rg_bind; [by apply (honest_fetch_files model total files [])|]. intros x.
  intros m0 m1 HI HG [-> Hq]. revert m0 m1 HI HG Hq. change (frg (on q) (r ← fetch_ask Q_changed; match r with Err e => athrow e | Ok _ =>
    m ← lift mget; lift (with_status (fun s => received (fs_receivedBytes s) (num_of_Z 1) (in_state done (finished (fs_model s) (fs_error s) (mf_now m) s)))) ;;
    lift (log ("fetch complete for " +:+ model)) ;; lift get end) (fun s m => fs_state s = done ∧ q (mf_files m)) (fun _ _ => False)).
  eapply (rg_bind _ _ _ _ _ (fun a m => q (mf_files m) ∧ a = Ok tt)); [apply (rg_asked Q_changed q (fun a => a = Ok tt)); by intros|].
  intros a m0 m1 HI HG [Hq ->]. exact (conj HI (conj Logic.I (conj eq_refl Hq))).
Qed.
End honest_server.

(** ** Properties *)

(** C18: a fetch that no other call writes files beside.  A call that finds another fetch running is refused: it ends at once as
    failed and leaves every file alone.  Any other call, whatever the server answers and whenever it is cancelled: at every
    moment each file is as it was, or a part file of a declared file, or a declared file whose content has the declared size
    and hash; it ends with a status and clears the running flag, and if the status is done every declared file is in place
    with its declared size, provided that the declared names stay out of each other's way.  ([fail] also clears the flag of
    the other fetch when it refuses; [overlapping_fetches_install_unverified] shows what then goes wrong.) *)
Theorem fetch_installs_verified model declared m :
  if mf_running m then exists s m', fetch model declared m = (Fin (Ok s), m') ∧ fs_state s = failed ∧ mf_files m' = mf_files m
  else safe (ans := fetch_answer) (fun _ _ _ => True)
    (fun m' => only_verified (mf_dir m) (files_of declared) (mf_files m) (mf_files m')) files_kept anything
    (fun _ r m' => only_verified (mf_dir m) (files_of declared) (mf_files m) (mf_files m') ∧ mf_running m' = false ∧
       exists s, r = Ok s ∧
         (fs_state s = done -> separate (mf_dir m) (files_of declared) -> forall f, f ∈ files_of declared -> sized (mf_dir m) f (mf_files m')))
    m (fetch model declared m).1 (fetch model declared m).2.
Proof.
  destruct (mf_running m) eqn:Hm; [unfold fetch; rewrite async_get, Hm; by eexists _, _|].
  eapply safe_mono; [|apply (rg_fetch model declared m m); [by left|done..]].
  intros m0 [s|e] m' (HI & _ & Hr); [|done]. destruct Hr as [Hd Hr]. split_and!; [done..|]. exists s. split; [done|exact Hd].
Qed.

(** Whether the file system reports too little space *)
Definition enough_space (files : list ModelDownloadFile) (m : Fetcher) : Prop :=
  match mf_statfs m with
  | Some (bavail, bsize) =>
      num_ltb (num_mul bavail bsize)
        (space_needed (foldl num_add num_zero ((fun f => num_of_Z (df_bytes f)) <$> files))
           (num_mul (num_mul (modelsReserveMiB m) (num_of_Z 1024)) (num_of_Z 1024))) = false
  | None => True
  end.

(** C19: from a server that serves the declared content, answering a range request with the rest or with everything, a fetch that
    nobody cancels ends as done with every declared file in place, also where an earlier fetch left a prefix of the content
    in a part file. *)
Theorem honest_fetch_completes content model declared files m :
  mf_running m = false -> mf_dirError m = None -> declared_files (default [] declared) = Ok files -> files <> [] -> enough_space files m ->
  separate (mf_dir m) files -> Forall (serves content) files -> (forall f, f ∈ files -> resumable content (mf_dir m) f (mf_files m)) ->
  safe (honest content) (fun m' => mf_cancelled m' = false) files_kept anything
    (fun _ r m' => exists s, r = Ok s ∧ fs_state s = done ∧ forall f, f ∈ files -> sized (mf_dir m) f (mf_files m'))
    m (fetch model declared m).1 (fetch model declared m).2.
Proof.
  intros Hrun Hdir Hok Hne Hspace Hsep Hserve Hres.
  set (total := foldl num_add num_zero ((fun f => num_of_Z (df_bytes f)) <$> files)).
  set (m1 := Download.set_status (started model (length files) total (mf_now m)) (set_cancelled false (set_running true m))).
  assert (fetch model declared m = fetch_all model (mf_dir m) files total m1) as ->.
  { unfold fetch. rewrite async_get, Hrun. destruct (default [] declared) as [|f l] eqn:Ed; [injection Hok as <-; done|].
    rewrite Hok. cbv zeta. rewrite Hdir. unfold enough_space in Hspace. fold total in Hspace |- *. unfold m1.
    destruct (mf_statfs m) as [[a b]|]; [rewrite Hspace|]; by rewrite async_lift. }
  eapply safe_mono; [|apply (honest_fetch_all content (mf_dir m) model files total Hsep Hserve m m1); [done..|]].
  - intros m0 [s|e] m' (_ & _ & Hr); [|done]. exists s. split; [done|exact Hr].
  - split; [by intros g ?%elem_of_nil|exact Hres].
Qed.
End facts.

(** ** Examples *)

Definition toy_hash (l : list Z) : string := if bool_decide (l = [1; 2; 3]) then String.concat "" (repeat "a" 64) else String.concat "" (repeat "b" 64).
#[local] Instance toy_host : FetchHost :=
  {| fh_stage := {| sh_json := {| num_string := fun n => pretty (default 0 (as_int n)); JSON_parse := fun _ => None |};
       Number_of := fun _ => num_nan; sha256_hex := toy_hash |};
     path_join := fun d n => d +:+ "/" +:+ n; toFixed1 := fun n => pretty (default 0 (as_int n)) |}.
Definition toy_file : ModelDownloadFile :=
  {| df_name := "w.gguf"; df_kind := gguf; df_url := "https://h/w"; df_sha256 := toy_hash [1; 2; 3]; df_bytes := 3 |}.
Definition toy_declared : option (list json) :=
  Some [JObj [("name", JStr "w.gguf"); ("kind", JStr "gguf"); ("url", JStr "https://h/w"); ("sha256", JStr (toy_hash [1; 2; 3])); ("bytes", JNum (num_of_Z 3))]].
(** The first byte is left of an earlier fetch. *)
Definition toy_fetcher : Fetcher := newFetcher "/m" {["/m/w.gguf.part" := [1]]} (Some (num_of_Z (2 ^ 40), num_of_Z 1)) "t".

Lemma honest_fetch_completes_witness :
  safe (honest (fun _ => [1; 2; 3])) (fun m' => mf_cancelled m' = false) files_kept anything
    (fun _ r m' => exists s, r = Ok s ∧ fs_state s = done ∧ forall f, f ∈ [toy_file] -> sized "/m" f (mf_files m'))
    toy_fetcher (fetch "x" toy_declared toy_fetcher).1 (fetch "x" toy_declared toy_fetcher).2.
Proof.
  apply (honest_fetch_completes (fun _ => [1; 2; 3]) "x" toy_declared [toy_file] toy_fetcher).
  - reflexivity.
  - reflexivity.
  - vm_compute. reflexivity.
  - discriminate.
  - vm_compute. reflexivity.
  - split; [apply NoDup_singleton|]. intros f g ->%list_elem_of_singleton ->%list_elem_of_singleton. discriminate.
  - apply Forall_singleton. split; [split; vm_compute; reflexivity|reflexivity].
  - intros f ->%list_elem_of_singleton c Hc. left. vm_compute in Hc. injection Hc as <-. by exists [2; 3].
Defined.

(** The first fetch has hashed what it received; a second one is refused and so clears the flag; a third one then replaces the
    part file, which the first one moves into place. *)
Definition answered (bytes : list Z) : forall q, fetch_answer q :=
  fun q => match q with
           | Q_fetch _ _ => Answered true 200 (Some ([{| ck_bytes := bytes; ck_full := false |}], None))
           | Q_changed => Ok tt
           | Q_read | Q_drain | Q_end | Q_hash _ => tt
           end.
Definition overlap : list PoolTurn :=
  [P_fetch "x" toy_declared; P_answer 0 (answered [1; 2; 3]); P_answer 0 (answered []); P_answer 0 (answered []); P_answer 0 (answered []);
   P_fetch "x" toy_declared; P_fetch "x" toy_declared; P_answer 2 (answered [6; 6; 6]); P_answer 2 (answered []);
   P_answer 0 (answered [])].
Lemma overlapping_fetches_install_unverified :
  let p := foldl (fun p t => pool_turn t p) {| po_fetcher := newFetcher "/m" ∅ None "t"; po_calls := [] |} overlap in
  mf_files (po_fetcher p) !! "/m/w.gguf" = Some [6; 6; 6] ∧ ~ verified toy_file [6; 6; 6].
Proof. split; [vm_compute; reflexivity|]. intros [_ Hv]. vm_compute in Hv. discriminate. Qed.
