(* ===== verification/UpdateLease.v ===== *)
(** * Coordinating updates (swarmlet/control/update-lease.ts, swarmlet/node-agent/update-lease.ts, protocol/bounded-body.ts)

    A node's supervisor asks the control process for the lease under which it may restart its agent, and gives it back.  A
    request is signed and carries a nonce and the node's time; the handler keeps the nonces it acted on.  A call suspends
    while it reads the body, checks the signature, loads the key and signs the answer; its state is the manager's, whose
    clock is [Date.now], and the nonces seen.  Text is UTF-8 bytes. *)

From S2P Require Import Prelude Async JsNum Json Types Canon Utf8 StageExecution Sse Registry Manager Deployments.

Local Open Scope string_scope.
Local Open Scope list_scope.
Local Open Scope Z_scope.

Record Leases := { ul_mgr : Mgr; ul_seen : gmap string Z }.
Definition set_mgr v (s : Leases) : Leases := {| ul_mgr := v; ul_seen := ul_seen s |}.
Definition set_seen v (s : Leases) : Leases := {| ul_mgr := ul_mgr s; ul_seen := v |}.
Definition clock (s : Leases) : Z := now (ul_mgr s).

(** The chunks of the body, until it ends or reading it fails *)
Record LeaseRequest := { lq_method : string; lq_length : num; lq_body : option (list (list Z) * option string) }.
Record LeaseResult := { lr_nonce : string; lr_nodeId : string; lr_lease : option Lease; lr_released : bool }.
Record LeaseResponse := { ls_status : Z; ls_result : option LeaseResult }.

Inductive Action := acquire_action | release_action (token : string).
(** A request that passed the check of its fields *)
Record LeaseBody := { lb_json : json; lb_action : Action; lb_nodeId : string; lb_nonce : string; lb_time : Z }.

Inductive LeaseAsk := U_read | U_verify (nodeId : string) (body : json) | U_key | U_sign (r : LeaseResult).
Definition lease_answer (q : LeaseAsk) : Type :=
  match q with U_read => unit | U_verify _ _ => result string bool | U_key => result string unit | U_sign _ => result string unit end.
Abbreviation LSync := (M Leases string).
Abbreviation Leasing := (Async.Async (S := Leases) lease_answer).
Definition lease_ask (q : LeaseAsk) : Leasing (lease_answer q) := fun m => (Susp q (fun r m => (Fin (Ok r), m)), m).
Definition lease_result {A} (r : result string A) : Leasing A := fun m => (Fin r, m).

(** [readBoundedText]: the text, or the status that refuses the body *)
Fixpoint readBoundedText (limit total : Z) (chunks : list (list Z)) (broken : option string) (acc : list Z) : Leasing (result Z (list Z)) :=
  lease_ask U_read ;;
  match chunks with
  | [] => mret (match broken with Some _ => Err 400 | None => Ok acc end)
  | c :: chunks =>
      let total := total + Z.of_nat (length c) in
      if limit <? total then mret (Err 413) else readBoundedText limit total chunks broken (acc ++ c)
  end.

(** [/^[a-f0-9-]{36}$/] *)
Definition is_nonce (s : string) : bool :=
  (String.length s =? 36)%nat && all_chars (fun a => is_hex a || Nat.eqb (Ascii.nat_of_ascii a) 45) s.

Definition action_of (o : fields) : option Action :=
  if is_string "acquire" (jget o "action") then Some acquire_action else
  if is_string "release" (jget o "action") then
    match as_str (jget o "token") with
    | Some t => if utf16_length (bytes_of t) =? 36 then Some (release_action t) else None
    | None => None
    end
  else None.

Definition WINDOW : Z := 30000.
Definition LIFETIME : Z := 60000.
Definition MAX_NONCES : nat := 10000.

(** The check of the fields at the time [t] *)
Definition parse_lease (b : json) (t : Z) : option LeaseBody :=
  o ← as_obj (Some b);
  if negb (is_string "swarmlet-update-lease" (jget o "kind")) then None else
  nodeId ← as_str (jget o "nodeId");
  nonce ← as_str (jget o "nonce");
  if negb (is_nonce nonce) then None else
  time ← as_num (jget o "time") ≫= as_safe_int;
  if WINDOW <? Z.abs (time - t) then None else
  action ← action_of o;
  Some {| lb_json := b; lb_action := action; lb_nodeId := nodeId; lb_nonce := nonce; lb_time := time |}.

Definition nonce_key (b : LeaseBody) : string := lb_nodeId b +:+ ":" +:+ lb_nonce b.
(** [for (const [nonce, expiry] of seen) if (expiry <= now) seen.delete(nonce)] *)
Definition prune_seen (t : Z) : LSync unit := mmodify (fun s => set_seen (base.filter (fun kv => t < kv.2) (ul_seen s)) s).
Definition on_manager {A} (x : M Mgr string A) : LSync A := fun s => let '(r, m) := x (ul_mgr s) in (r, set_mgr m s).
Definition refused (status : Z) : LeaseResponse := {| ls_status := status; ls_result := None |}.

Section handler.
Context `{Host} `{JsonText}.

(** What a request does once everything is checked; [None] is a conflict. *)
Definition grant (b : LeaseBody) (t : Z) : LSync (option LeaseResult) :=
  s ← mget;
  if present (ul_seen s !! nonce_key b) || (WINDOW <? Z.abs (lb_time b - clock s)) then mret None else
  mmodify (fun s => set_seen (<[nonce_key b := t + LIFETIME]> (ul_seen s)) s) ;;
  lease ← (match lb_action b with acquire_action => on_manager (acquireUpdate (lb_nodeId b)) | release_action _ => mret None end);
  released ← (match lb_action b with release_action token => on_manager (releaseUpdate (lb_nodeId b) token) | acquire_action => mret false end);
  mret (Some {| lr_nonce := lb_nonce b; lr_nodeId := lb_nodeId b; lr_lease := lease; lr_released := released |}).

(** A request whose fields were checked at the time [t] *)
Definition lease_checked (b : LeaseBody) (t : Z) : Leasing LeaseResponse :=
  s ← lift mget;
  if negb (present (getNode (reg (ul_mgr s)) (lb_nodeId b))) then mret (refused 401) else
  verified ← lease_ask (U_verify (lb_nodeId b) (lb_json b));
  genuine ← lease_result verified;
  if negb genuine then mret (refused 401) else
  lift (prune_seen t) ;;
  s ← lift mget;
  if present (ul_seen s !! nonce_key b) then mret (refused 409) else
  if (MAX_NONCES <=? size (ul_seen s))%nat then mret (refused 503) else
  key ← lease_ask U_key;
  lease_result key ;;
  granted ← lift (grant b t);
  match granted with
  | None => mret (refused 409)
  | Some r =>
      signed ← lease_ask (U_sign r);
      lease_result signed ;;
      mret {| ls_status := 200; ls_result := Some r |}
  end.

Definition handle_lease (req : LeaseRequest) : Leasing LeaseResponse :=
  if negb (String.eqb (lq_method req) "POST") then mret (refused 405) else
  if num_ltb (num_of_Z 4096) (lq_length req) then mret (refused 413) else
  match lq_body req with
  | None => mret (refused 400)
  | Some (chunks, broken) =>
      text ← readBoundedText 4096 0 chunks broken [];
      match text with
      | Err status => mret (refused status)
      | Ok bytes =>
          match JSON_parse (buffer_text bytes) with
          | None => mret (refused 400)
          | Some b =>
              s ← lift mget;
              match parse_lease b (clock s) with
              | None => mret (refused 400)
              | Some body => lease_checked body (clock s)
              end
          end
      end
  end.
End handler.

(** ** The node's side *)

(** A token is given when a lease is given back. *)
Definition has_token (token : option string) : bool := match token with Some k => negb (String.eqb k "") | None => false end.
(** What the node signs and sends at the time [t] *)
Definition lease_message (nodeId nonce : string) (token : option string) (t : Z) : json :=
  JObj ([("kind", JStr "swarmlet-update-lease"); ("action", JStr (if has_token token then "release" else "acquire"));
         ("nodeId", JStr nodeId); ("nonce", JStr nonce); ("time", JNum (num_of_Z t))] ++
        (if has_token token then [("token", JStr (default "" token))] else [])).

(** The answer the handler signs *)
Definition lease_json (l : Lease) : json :=
  JObj [("nodeId", JStr (le_nodeId l)); ("token", JStr (le_token l)); ("expiresAt", JNum (num_of_Z (le_expiresAt l)))].
Definition result_json (r : LeaseResult) : json :=
  JObj [("kind", JStr "swarmlet-update-lease-result"); ("nonce", JStr (lr_nonce r)); ("nodeId", JStr (lr_nodeId r));
        ("lease", match lr_lease r with Some l => lease_json l | None => JNull end); ("released", JBool (lr_released r))].

(** What the node takes from a signed answer at the time [t] *)
Definition check_lease (nodeId nonce : string) (token : option string) (genuine : bool) (value : json) (t : Z) : result string (option Lease) :=
  let o := default [] (as_obj (Some value)) in
  if negb (truthy_json (Some value)) || negb genuine || negb (is_string "swarmlet-update-lease-result" (jget o "kind")) ||
     negb (is_string nonce (jget o "nonce")) || negb (is_string nodeId (jget o "nodeId"))
  then Err "invalid update coordination signature" else
  if has_token token then Ok None else
  match jget o "lease" with
  | Some JNull => Ok None
  | v =>
      let l := default [] (as_obj v) in
      match as_str (jget l "nodeId"), as_str (jget l "token"), as_num (jget l "expiresAt") ≫= as_safe_int with
      | Some n, Some k, Some e =>
          if negb (String.eqb n nodeId) || negb (is_nonce k) || (e <? t + 30000) || (t + 125000 <? e)
          then Err "invalid update lease" else Ok (Some {| le_nodeId := n; le_token := k; le_expiresAt := e |})
      | _, _, _ => Err "invalid update lease"
      end
  end.

(** An answer of the control process: whether it is a success, the text, and whether its signature is genuine *)
Definition requestUpdateLease (nodeId nonce : string) (token : option string) (ok : bool) (status : Z) (value : option json) (genuine : bool)
    (t : Z) : result string (option Lease) :=
  if negb ok then Err ("update coordination HTTP " +:+ pretty status) else
  match value with
  | None => Err "JSON Parse error"
  | Some v => check_lease nodeId nonce token genuine v t
  end.
