(* ===== verification/UpdateLeaseFacts.v ===== *)
(** * Update leases, between the control process and a node

    The handler is refined by two steps: dropping nonces that expired, and acting on a genuine request whose nonce is not there.
    However calls interleave with each other and with the rest of the process, a signed request acts at most once, but for
    one millisecond at the edge of the window; and a granted lease is accepted by a node whose clock is not too far off. *)

From S2P Require Import Prelude Async Rules JsNum Json Types Canon Utf8 StageExecution Sse Registry Manager Deployments ControlLoop Scenario UpdateLease.

Local Open Scope string_scope.
Local Open Scope list_scope.
Local Open Scope Z_scope.

Lemma string_app_cancel_same_length (s t u v : string) : String.length u = String.length v -> s +:+ u = t +:+ v -> s = t ∧ u = v.
Proof.
  intros Hl H. assert (String.length s = String.length t) as Hs.
  { apply (f_equal String.length) in H. rewrite !length_app_string in H. lia. }
  clear Hl. revert t Hs H. induction s as [|a s IH]; intros [|b t] Hs H; cbn in Hs; try lia; [done|].
  change (String a (s +:+ u) = String b (t +:+ v)) in H. injection H as -> H. destruct (IH t) as [-> ->]; [lia|done..].
Qed.

Section facts.
Context `{Host} `{JsonText}.

Lemma updating_clock z : pres (fun m => now m = z) updatingNode.
Proof. intros m Hm. unfold updatingNode. cbn. destruct (updateLease m) as [l|]; [|done]. by destruct (_ <=? _). Qed.
Lemma acquire_clock n m : now (acquireUpdate n m).2 = now m.
Proof. set (z := now m). assert (pres (fun m => now m = z) (acquireUpdate n)) as Hp; [|by apply Hp]. unfold acquireUpdate, new_id. pose proof (updating_clock z). pres; try (by intros ? ?); by apply pres_modify. Qed.
Lemma release_clock n t m : now (releaseUpdate n t m).2 = now m.
Proof. set (z := now m). assert (pres (fun m => now m = z) (releaseUpdate n t)) as Hp; [|by apply Hp]. unfold releaseUpdate. pres; by apply pres_modify. Qed.

(** ** What a grant does *)

Lemma grant_cases b t m :
  (exists r m', grant b t m = (Ok (Some r), m') ∧ ul_seen m !! nonce_key b = None ∧ Z.abs (lb_time b - clock m) <= WINDOW ∧
     clock m' = clock m ∧ ul_seen m' = <[nonce_key b := t + LIFETIME]> (ul_seen m)) ∨ grant b t m = (Ok None, m) ∨
  (exists e m', grant b t m = (Err e, m') ∧ ul_seen m !! nonce_key b = None ∧
     clock m' = clock m ∧ ul_seen m' = <[nonce_key b := t + LIFETIME]> (ul_seen m)).
Proof.
  unfold grant, mbind, M_bind, mget. destruct (ul_seen m !! nonce_key b) eqn:Es; cbn [present orb]; [by right; left|].
  destruct (Z.ltb_spec WINDOW (Z.abs (lb_time b - clock m))) as [|Hw]; [by right; left|]. unfold mmodify. destruct (lb_action b) as [|token]; unfold on_manager.
  - cbn [ul_mgr set_seen]. pose proof (acquire_clock (lb_nodeId b) (ul_mgr m)) as Hc. destruct (acquireUpdate _ _) as [[l|e] m']; cbn in Hc.
    + left. eexists _, _. split; [reflexivity|]. by split_and!.
    + right; right. eexists _, _. split; [reflexivity|]. by split_and!.
  - cbn. pose proof (release_clock (lb_nodeId b) token (ul_mgr m)) as Hc. destruct (releaseUpdate _ _ _) as [[l|e] m']; cbn in Hc.
    + left. eexists _, _. split; [reflexivity|]. by split_and!.
    + right; right. eexists _, _. split; [reflexivity|]. by split_and!.
Qed.

(** ** The abstract machine *)

Context (genuine : string -> json -> Prop).

(** One step of it at the state's clock *)
Inductive act : Leases -> Leases -> Prop :=
  | act_expire t m : t <= clock m -> act m (prune_seen t m).2
  | act_grant b t m : genuine (lb_nodeId b) (lb_json b) -> parse_lease (lb_json b) t = Some b -> t <= clock m -> act m (grant b t m).2.
Definition acts : Moves Leases := {| moves_rel := rtc act |}.

(** Time goes on, and a nonce stays until it expires: what others do to the handler's state *)
Definition onwards (m m' : Leases) : Prop :=
  clock m <= clock m' ∧ forall k e, ul_seen m !! k = Some e -> ul_seen m' !! k = Some e ∨ e <= clock m'.
Lemma onwards_preorder : PreOrder onwards.
Proof.
  split; [split; [done|by left]|]. intros x y z [H1 H2] [H3 H4]. split; [lia|]. intros k e Hk.
  destruct (H2 k e Hk) as [Hy|Hy]; [by apply H4|right; lia].
Qed.
#[local] Existing Instance onwards_preorder.
Definition others : Moves Leases := {| moves_rel := onwards |}.

Lemma act_onwards m m' : act m m' -> onwards m m'.
Proof.
  intros [t m0 Ht|b t m0 _ _ Ht].
  - split; [done|]. intros k e Hk. cbn. destruct (Z.ltb_spec t e); [left; by apply map_lookup_filter_Some|right; unfold clock in *; cbn; lia].
  - destruct (grant_cases b t m0) as [(r & m1 & -> & Hn & _ & Hc & Hs)|[->|(e & m1 & -> & Hn & Hc & Hs)]]; [|reflexivity|];
      (split; [cbn; lia|]; intros k e' Hk; left; cbn; rewrite Hs; rewrite lookup_insert_ne; [done|congruence]).
Qed.

(** What the environment answers: a signature that verifies is genuine. *)
Definition answers (q : LeaseAsk) : lease_answer q -> Leases -> Prop :=
  match q with U_verify n b => fun a _ => a = Ok true -> genuine n b | _ => fun _ _ => True end.

Abbreviation lrg := (rg (ans := lease_answer) answers (fun _ => True) others acts).
Definition since (t : Z) (m : Leases) : Prop := t <= clock m.

Lemma since_onwards t m m' : onwards m m' -> since t m -> since t m'.
Proof. intros [H1 _] H2. unfold since in *. lia. Qed.
Lemma lrg_ask q t E : lrg (since t) (lease_ask q) (fun a m => since t m ∧ exists m', answers q a m') E.
Proof.
  eapply rg_conseq; [apply (rg_await answers (fun _ => True) others acts q (since t) (fun a m => since t m ∧ exists m', answers q a m') E)|done..].
  - intros m m' _ _ HR. by apply since_onwards.
  - intros a m _ Ht Ha. split; [done|by exists m].
Qed.
Lemma lrg_any q E : lrg (fun _ => True) (lease_ask q) (fun _ _ => True) E.
Proof. intros m0 m _ HG _. cbn. split_and!; [done..|]. intros a m' _ _ _. by split_and!. Qed.
Lemma acts_once m m' : act m m' -> acts m m'.
Proof. apply rtc_once. Qed.

Lemma read_rg limit chunks broken : forall total acc E,
  lrg (fun _ => True) (readBoundedText limit total chunks broken acc) (fun _ _ => True) E.
Proof.
  induction chunks as [|c chunks IH]; intros total acc E; cbn [readBoundedText];
    (eapply (rg_bind _ _ _ _ _ (fun _ _ => True)); [apply (lrg_any U_read)|]); intros ?; [by apply rg_ret|].
  destruct (_ <? _); [by apply rg_ret|apply IH].
Qed.

Lemma parse_fields j t b : parse_lease j t = Some b -> lb_json b = j ∧ is_nonce (lb_nonce b) = true ∧ Z.abs (lb_time b - t) <= WINDOW ∧
  exists o, as_obj (Some j) = Some o ∧ as_str (jget o "nodeId") = Some (lb_nodeId b) ∧ as_str (jget o "nonce") = Some (lb_nonce b) ∧
    (as_num (jget o "time") ≫= as_safe_int) = Some (lb_time b).
Proof.
  unfold parse_lease. destruct (as_obj _) as [o|]; [|done]. cbn [mbind option_bind]. destruct (negb _); [done|].
  destruct (as_str (jget o "nodeId")) as [n|] eqn:En; [|done]. cbn [mbind option_bind].
  destruct (as_str (jget o "nonce")) as [k|] eqn:Ek; [|done]. cbn [mbind option_bind].
  destruct (is_nonce k) eqn:Hk; [|done]. cbn [negb]. destruct (as_num _ ≫= _) as [z|] eqn:Ez; [|done]. cbn [mbind option_bind].
  destruct (Z.ltb_spec WINDOW (Z.abs (z - t))) as [|Hz]; [done|]. destruct (action_of o); [|done]. intros [= <-]. split_and!; [done..|].
  exists o. by split_and!.
Qed.

(** A genuine request: expired nonces go, and it acts unless its nonce is there. *)
Lemma verified_rg b t : parse_lease (lb_json b) t = Some b -> genuine (lb_nodeId b) (lb_json b) ->
  lrg (since t) (lift (prune_seen t) ;; s ← lift mget;
    if present (ul_seen s !! nonce_key b) then mret (refused 409) else if (MAX_NONCES <=? size (ul_seen s))%nat then mret (refused 503) else
    key ← lease_ask U_key; lease_result key ;; granted ← lift (grant b t);
    match granted with None => mret (refused 409) | Some r => signed ← lease_ask (U_sign r); lease_result signed ;; mret {| ls_status := 200; ls_result := Some r |} end)
    (fun _ _ => True) (fun _ _ => True).
Proof.
  intros Hb Hg.
  eapply (rg_bind _ _ _ _ _ (fun _ => since t)).
  { apply rg_lift, sspec_modify. intros m' _ Hs. split_and!; [done| |done]. apply acts_once. by apply (act_expire t m'). }
  intros ?. apply rg_get. intros m' _ Hs. destruct (present _); [by apply rg_ret|]. destruct (_ <=? _)%nat; [by apply rg_ret|].
  eapply (rg_conseq _ _ _ _ _ (since t)); [|by intros ? _ ->|by intros ? ? _ Q; exact Q|by intros ? ? _ Q; exact Q].
  eapply rg_bind; [apply (lrg_ask U_key t (fun _ _ => True))|]. intros [[]|e]; [|by apply rg_throw].
  eapply (rg_bind _ _ _ _ _ (fun _ => since t)); [apply rg_ret; by intros ? _ []|]. intros ?.
  eapply (rg_bind _ _ _ _ _ (fun _ _ => True)).
  { apply rg_lift. intros m2 _ Hs2. split; [done|]. split; [|by destruct (grant b t m2).1]. apply acts_once. by apply act_grant. }
  intros [r|]; [|by apply rg_ret]. eapply (rg_bind _ _ _ _ _ (fun _ _ => True)); [apply (lrg_any (U_sign r))|]. intros [[]|e]; [|by apply rg_throw].
  eapply (rg_bind _ _ _ _ _ (fun _ _ => True)); [by apply rg_ret|]. intros ?. by apply rg_ret.
Qed.

Lemma checked_rg b t : parse_lease (lb_json b) t = Some b -> lrg (since t) (lease_checked b t) (fun _ _ => True) (fun _ _ => True).
Proof.
  intros Hb. unfold lease_checked. apply rg_get. intros m _ Ht. destruct (negb _); [by apply rg_ret|].
  eapply rg_bind; [eapply rg_conseq; [apply (lrg_ask (U_verify (lb_nodeId b) (lb_json b)) t (fun _ _ => True))|by intros ? _ ->|intros a m' _ Ha; exact Ha|done]|]. intros verified.
  destruct verified as [v|e]; [|by apply rg_throw].
  eapply (rg_bind _ _ _ _ _ (fun g m => g = v ∧ since t m ∧ exists m', answers (U_verify (lb_nodeId b) (lb_json b)) (Ok v) m')); [by apply rg_ret|].
  intros g. destruct g; cbn [negb]; [|by apply rg_ret].
  eapply (rg_conseq _ _ _ _ _ (fun m => since t m ∧ genuine (lb_nodeId b) (lb_json b)) _ (fun _ _ => True) _ (fun _ _ => True)); [|intros m' _ (<- & Hs & ? & Hg); split; [done|by apply Hg]|done..].
  intros m0 m1 HI HG [Hs Hg]. exact (verified_rg b t Hb Hg m0 m1 HI HG Hs).
Qed.

Lemma handle_rg req : lrg (fun _ => True) (handle_lease req) (fun _ _ => True) (fun _ _ => True).
Proof.
  unfold handle_lease. destruct (negb _); [by apply rg_ret|]. destruct (num_ltb _ _); [by apply rg_ret|].
  destruct (lq_body req) as [[chunks broken]|]; [|by apply rg_ret].
  eapply rg_bind; [by apply read_rg|]. intros [bytes|st]; [|by apply rg_ret]. destruct (JSON_parse _) as [j|]; [|by apply rg_ret].
  apply rg_get. intros m _ _. destruct (parse_lease j (clock m)) as [b|] eqn:Eb; [|by apply rg_ret].
  destruct (parse_fields _ _ _ Eb) as (Hj & _). eapply rg_conseq; [apply checked_rg; by rewrite Hj|intros m' _ ->; unfold since; lia|done..].
Qed.

(** A step of a call, or a turn of the rest of the process *)
Definition lease_moves (m m' : Leases) : Prop := act m m' ∨ (ul_seen m' = ul_seen m ∧ clock m <= clock m').
Lemma moves_onwards m m' : rtc lease_moves m m' -> onwards m m'.
Proof.
  induction 1 as [|x y z [Hxy|[Hs Hc]] _ IH]; [reflexivity|etrans; [by apply act_onwards|done]|].
  etrans; [|exact IH]. split; [done|]. intros k e. rewrite Hs. by left.
Qed.

Lemma nonce_key_inj j j' t t' b b' : parse_lease j t = Some b -> parse_lease j' t' = Some b' -> nonce_key b = nonce_key b' ->
  lb_nodeId b = lb_nodeId b' ∧ lb_nonce b = lb_nonce b'.
Proof.
  intros (_ & Hn & _)%parse_fields (_ & Hn' & _)%parse_fields. unfold is_nonce in *. unfold nonce_key. intros Hk.
  apply andb_true_iff in Hn as [Hn%Nat.eqb_eq _], Hn' as [Hn'%Nat.eqb_eq _].
  apply string_app_cancel_same_length in Hk as [-> Hk]; [|rewrite !length_app_string; cbn; lia]. split; [done|].
  by injection Hk.
Qed.

Lemma same_key j t t' b b' : parse_lease j t = Some b -> parse_lease j t' = Some b' -> nonce_key b = nonce_key b' ∧ lb_time b = lb_time b'.
Proof.
  intros (_ & _ & _ & o & Ho & Hn & Hk & Ht)%parse_fields (_ & _ & _ & o' & Ho' & Hn' & Hk' & Ht')%parse_fields.
  assert (o' = o) as -> by congruence. unfold nonce_key. split; [|congruence]. f_equal; [congruence|]. f_equal. congruence.
Qed.

(** ** Properties *)

(** C13: every segment of every call is steps of the abstract machine, which drops expired nonces and acts on genuine requests; and
    however the calls interleave with each other and with the rest of the process while time goes on, the machine acts at most
    once on a signed request, unless the node's clock was exactly thirty seconds ahead and the request comes again exactly
    sixty seconds after it was checked.  Requests with another node or nonce do not count as the same. *)
Theorem signed_request_acts_once :
  (forall req m, safe answers (fun _ => True) others acts (fun m0 _ m' => acts m0 m') m (handle_lease req m).1 (handle_lease req m).2) ∧
  (forall j t b m r m1 m2 t' b' r' m3,
     parse_lease j t = Some b -> grant b t m = (Ok (Some r), m1) -> rtc lease_moves m1 m2 ->
     parse_lease j t' = Some b' -> grant b' t' m2 = (Ok (Some r'), m3) ->
     lb_time b = t + WINDOW ∧ clock m2 = t + LIFETIME) ∧
  (forall j j' t t' b b', parse_lease j t = Some b -> parse_lease j' t' = Some b' -> nonce_key b = nonce_key b' ->
     lb_nodeId b = lb_nodeId b' ∧ lb_nonce b = lb_nonce b').
Proof.
  split_and!; [| |apply nonce_key_inj].
  - intros req m. eapply safe_mono; [|apply (handle_rg req m m); [done|reflexivity|done]]. by intros m0 r m' (_ & ? & _).
  - intros j t b m r m1 m2 t' b' r' m3 Hb Hg Hm Hb' Hg'. destruct (same_key j t t' b b' Hb Hb') as [Hk Ht].
    destruct (parse_fields _ _ _ Hb) as (_ & _ & Hw & _).
    destruct (grant_cases b t m) as [(r1 & m1' & E & _ & _ & _ & Hs)|[E|(e & m1' & E & _)]]; rewrite E in Hg; [|done..]. injection Hg as <- ->.
    destruct (grant_cases b' t' m2) as [(r2 & m2' & E' & Hn & Hw' & _)|[E'|(e & m2' & E' & _)]]; rewrite E' in Hg'; [|done..].
    destruct (moves_onwards _ _ Hm) as [_ Hon]. destruct (Hon (nonce_key b) (t + LIFETIME)) as [Hin|Hexp].
    + rewrite Hs. by rewrite lookup_insert_eq.
    + rewrite <-Hk in Hn. by rewrite Hn in Hin.
    + rewrite <-Ht in Hw'. unfold WINDOW, LIFETIME in *. lia.
Qed.

Lemma acquire_fresh n m l m' : acquireUpdate n m = (Ok (Some l), m') -> le_nodeId l = n ∧ le_expiresAt l = now m + 120000.
Proof.
  unfold acquireUpdate. intros (? & m0 & [= <- <-] & Ha)%M_bind_ok. destruct (closed m || _ || _); [done|].
  apply M_bind_ok in Ha as (u & m1 & Hu & Ha). pose proof (updating_clock (now m) m eq_refl) as Hc. rewrite Hu in Hc. cbn in Hc.
  destruct (present u); [done|]. destruct (negb _ || _ || _ || _ || _); [done|]. apply M_bind_ok in Ha as (? & m2 & [= <- <-] & Ha).
  apply M_bind_ok in Ha as (? & m3 & [= <- <-] & Ha). destruct (negb _); [done|]. cbv zeta in Ha. destruct (existsb _ _); [done|].
  apply M_bind_ok in Ha as (token & m4 & [= <- <-] & Ha). apply M_bind_ok in Ha as (? & m5 & [= <- <-] & Ha). injection Ha as <- <-. cbn. by rewrite Hc.
Qed.

Lemma message_parsed nodeId nonce t s : is_nonce nonce = true -> Z.abs t <= MAX_SAFE_INTEGER ->
  parse_lease (lease_message nodeId nonce None t) s =
    if WINDOW <? Z.abs (t - s) then None
    else Some {| lb_json := lease_message nodeId nonce None t; lb_action := acquire_action; lb_nodeId := nodeId; lb_nonce := nonce; lb_time := t |}.
Proof.
  intros Hn Ht. unfold parse_lease, lease_message, is_string. cbn -[is_nonce num_of_Z as_safe_int Z.ltb]. rewrite Hn, num_of_Z_exact by done. done.
Qed.

(** C40: a request a node signs for itself is taken for exactly what it says when the clocks differ by at most thirty seconds; the
    lease it is granted comes back unchanged when the node's clock is at most five seconds behind and ninety ahead of the
    grant, and is refused by the node otherwise. *)
Theorem lease_roundtrip nodeId nonce m l m' sent_ checked got status :
  is_nonce nonce = true -> Z.abs sent_ <= MAX_SAFE_INTEGER ->
  acquireUpdate nodeId m = (Ok (Some l), m') -> is_nonce (le_token l) = true -> Z.abs (now m + 120000) <= MAX_SAFE_INTEGER ->
  (forall b, parse_lease (lease_message nodeId nonce None sent_) checked = Some b <->
     Z.abs (sent_ - checked) <= 30000 ∧
     b = {| lb_json := lease_message nodeId nonce None sent_; lb_action := acquire_action; lb_nodeId := nodeId; lb_nonce := nonce; lb_time := sent_ |}) ∧
  requestUpdateLease nodeId nonce None true status
    (Some (result_json {| lr_nonce := nonce; lr_nodeId := nodeId; lr_lease := Some l; lr_released := false |})) true got =
    if (now m - 5000 <=? got) && (got <=? now m + 90000) then Ok (Some l) else Err "invalid update lease".
Proof.
  intros Hn Hs (Hnode & He)%acquire_fresh Ht Hsafe. split.
  - intros b. rewrite message_parsed by done. destruct (Z.ltb_spec WINDOW (Z.abs (sent_ - checked))) as [Hw|Hw]; unfold WINDOW in Hw.
    + split; [done|lia].
    + split; [intros [= <-]; by split|]. by intros [_ ->].
  - destruct l as [n k e]. cbn [le_nodeId le_token le_expiresAt] in *. subst n e. unfold requestUpdateLease, check_lease, result_json, lease_json, is_string.
    cbn -[is_nonce num_of_Z as_safe_int Z.ltb Z.leb]. rewrite !String.eqb_refl, Ht, num_of_Z_exact by done. cbn [negb orb mbind option_bind].
    destruct (Z.leb_spec (now m - 5000) got), (Z.leb_spec got (now m + 90000)), (Z.ltb_spec (now m + 120000) (got + 30000)),
      (Z.ltb_spec (got + 125000) (now m + 120000)); try lia; done.
Qed.
End facts.

(** ** Examples *)

Definition some_nonce : string := "00000000-0000-0000-0000-000000000000".
#[local] Instance uuid_host : Host :=
  {| newId := fun _ _ => some_nonce; write_ok := fun _ _ => true; new_URL := fun _ => None; re_test := String.eqb;
     localeCompare := String.compare; show_error := fun _ => ""; show_num := fun _ => ""; Date_parse := fun _ => num_zero;
     Math_pow := fun x _ => x; show_failure := fun _ => ""; show_memory := fun _ => ""; show_topology := fun _ => "";
     sha256_json := fun _ => ""; plan_hash := fun _ _ _ _ => "" |}.

#[local] Instance no_text : JsonText := {| num_string := fun _ => ""; JSON_parse := fun _ => None |}.

(** One connected node; the clock of the control process *)
Definition quiet_manager (t : Z) : Mgr := set_now t (mgr (ControlLoop.run sc_deps (boot sc_deps sc_registry 1000) [Connect "n1"])).
Definition early_message : json := lease_message "n1" some_nonce None (1000 + WINDOW).
Definition early_body : LeaseBody :=
  {| lb_json := early_message; lb_action := acquire_action; lb_nodeId := "n1"; lb_nonce := some_nonce; lb_time := 1000 + WINDOW |}.
Definition first_state : Leases := {| ul_mgr := quiet_manager 1000; ul_seen := ∅ |}.
Definition after_first : Leases := (grant early_body 1000 first_state).2.
(** The lease is given back, a minute passes, and another call drops the expired nonce. *)
Definition given_back : Leases := set_mgr (set_updateLease None (set_now (1000 + LIFETIME) (ul_mgr after_first))) after_first.
Definition replay_state : Leases := (prune_seen (1000 + LIFETIME) given_back).2.
Definition granted_lease (x : result string (option LeaseResult) * Leases) : option Lease :=
  match x.1 with Ok (Some r) => lr_lease r | _ => None end.

(** The captured request takes the lease again, sixty seconds later. *)
Lemma replay_at_the_edge : present (granted_lease (grant early_body 1000 first_state)) = true ∧
  parse_lease early_message (1000 + LIFETIME) = Some early_body ∧ present (granted_lease (grant early_body (1000 + LIFETIME) replay_state)) = true.
Proof. split_and!; vm_compute; reflexivity. Qed.

Lemma signed_request_acts_once_witness : lb_time early_body = 1000 + WINDOW ∧ clock replay_state = 1000 + LIFETIME.
Proof.
  destruct (signed_request_acts_once (fun _ _ => True)) as (_ & Honce & _).
  refine (Honce early_message 1000 early_body first_state _ after_first replay_state (1000 + LIFETIME) early_body _ _ _ _ _ _ _).
  - vm_compute. reflexivity.
  - vm_compute. reflexivity.
  - apply (rtc_l _ _ given_back); [right; split; [reflexivity|vm_compute; discriminate]|]. apply rtc_once. left. apply act_expire. vm_compute. discriminate.
  - vm_compute. reflexivity.
  - vm_compute. reflexivity.
Defined.

Definition one_lease : Lease := {| le_nodeId := "n1"; le_token := some_nonce; le_expiresAt := 121000 |}.
Lemma lease_roundtrip_witness :
  requestUpdateLease "n1" some_nonce None true 200
    (Some (result_json {| lr_nonce := some_nonce; lr_nodeId := "n1"; lr_lease := Some one_lease; lr_released := false |})) true 900 = Ok (Some one_lease).
Proof.
  refine (proj2 (lease_roundtrip "n1" some_nonce (quiet_manager 1000) one_lease (acquireUpdate "n1" (quiet_manager 1000)).2 900 1000 900 200 _ _ _ _ _)).
  - reflexivity.
  - vm_compute. discriminate.
  - vm_compute. reflexivity.
  - reflexivity.
  - vm_compute. discriminate.
Defined.
