(* ===== verification/Release.v ===== *)
(** * Signed releases (swarmlet/protocol/release.ts, swarmlet/node-agent/update-state.ts)

    What a node accepts as a release to install, and the durable record of its updates.  The signature check is a parameter;
    JSON text is a parameter of the files that read it. *)

From S2P Require Import Prelude JsNum Json Types Canon Regex Download.

Local Open Scope string_scope.
Local Open Scope list_scope.
Local Open Scope Z_scope.

Record ReleaseFile := { rf_path : string; rf_bytes : Z; rf_sha256 : string }.
Record ReleaseManifest := {
  rm_sequence : Z; rm_version : string; rm_platform : string; rm_arch : string; rm_issuedAt : Z; rm_expiresAt : Z;
  rm_files : list ReleaseFile; rm_json : json }.
Inductive ReleaseError := Not_new | Invalid (why : string).

Definition MAX_MANIFEST_BYTES : Z := 128 * 1024.
Definition MAX_RELEASE_BYTES : Z := 4 * 1024 ^ 3.

Definition alnum (a : Ascii.ascii) : bool := is_letter a || is_digit a.
Definition path_char (a : Ascii.ascii) : bool := alnum a || existsb (Nat.eqb (code a)) [46; 95; 45]%nat.
(** [[A-Za-z0-9][A-Za-z0-9._-]*] as a whole text *)
Definition plain_name (s : string) : bool := match s with String a t => alnum a && all_chars path_char t | "" => false end.

(** [/^(?:con|prn|aux|nul|com[0-9]|lpt[0-9])(?:\.|$)/i] *)
Definition ends_here (s : string) : bool := match s with String a _ => Nat.eqb (code a) 46 | "" => true end.
Definition reserved (s : string) : bool :=
  let l := toLowerCase s in
  existsb (fun p => match after_prefix p l with Some t => ends_here t | None => false end) ["con"; "prn"; "aux"; "nul"] ||
  existsb (fun p => match after_prefix p l with Some (String d t) => is_digit d && ends_here t | _ => false end) ["com"; "lpt"].
Fixpoint last_char (s : string) : option Ascii.ascii :=
  match s with "" => None | String a "" => Some a | String _ t => last_char t end.

Definition base_name (path : string) : string := default path (after_prefix "engine/" path).
Definition validReleasePath (path : string) : bool :=
  (String.length path <=? 180)%nat && plain_name (base_name path) &&
  negb (bool_decide (last_char (base_name path) = Some (Ascii.ascii_of_nat 46))) && negb (reserved (base_name path)).

Definition agent_name (platform : string) : string := if String.eqb platform "win32" then "swarmlet-node.exe" else "swarmlet-node".
Definition in_release (path : string) : bool :=
  validReleasePath path && (String.prefix "engine/" path || String.eqb path "swarmlet-node" || String.eqb path "swarmlet-node.exe").

Definition release_file (v : json) : option ReleaseFile :=
  o ← as_obj (Some v);
  path ← as_str (jget o "path");
  if negb (in_release path) then None else
  sha256 ← as_str (jget o "sha256");
  if negb (SHA256 sha256) then None else
  bytes ← as_num (jget o "bytes") ≫= as_safe_int;
  if (bytes <? 1) || (MAX_RELEASE_BYTES <? bytes) then None else
  Some {| rf_path := path; rf_bytes := bytes; rf_sha256 := sha256 |}.

(** The files, with the names taken and the bytes counted so far *)
Fixpoint release_files (paths : list string) (bytes : Z) (l : list json) : result ReleaseError (list ReleaseFile) :=
  match l with
  | [] => Ok []
  | v :: l =>
      match release_file v with
      | None => Err (Invalid "invalid release file")
      | Some f =>
          let folded := toLowerCase (rf_path f) in
          if bool_decide (folded ∈ paths) then Err (Invalid "duplicate release file") else
          let bytes := bytes + rf_bytes f in
          if MAX_RELEASE_BYTES <? bytes then Err (Invalid "release too large") else
          rest ← release_files (folded :: paths) bytes l;
          Ok (f :: rest)
      end
  end.

(** [/^[A-Za-z0-9][A-Za-z0-9._-]{0,79}$/] *)
Definition release_version (s : string) : bool := plain_name s && (String.length s <=? 80)%nat.

Section verify.
Context `{JsonText} {Key : Type} (verifyObject : Key -> json -> bool).

Definition safe_field (o : fields) (k : string) : option Z := as_num (jget o k) ≫= as_safe_int.

Definition release_fields (o : fields) (value : json) (platform arch : string) (acceptedSequence now : Z) : result ReleaseError ReleaseManifest :=
  match is_string "swarmlet-release" (jget o "kind") && is_number 1 (jget o "schema"), safe_field o "sequence" with
  | true, Some sequence =>
      if (sequence <? 1) || (MAX_SAFE_INTEGER <? Z.abs acceptedSequence) || (acceptedSequence <? 0) then Err (Invalid "invalid release sequence") else
      if sequence <=? acceptedSequence then Err Not_new else
      match as_str (jget o "platform"), as_str (jget o "arch") with
      | Some p, Some a =>
          if negb (existsb (String.eqb p) ["darwin"; "linux"; "win32"]) || negb (existsb (String.eqb a) ["arm64"; "x64"]) ||
             negb (String.eqb p platform) || negb (String.eqb a arch) then Err (Invalid "release target mismatch") else
          match as_str (jget o "version") with
          | Some version =>
              if negb (release_version version) then Err (Invalid "invalid release version") else
              match safe_field o "issuedAt", safe_field o "expiresAt" with
              | Some issuedAt, Some expiresAt =>
                  if (issuedAt <? 0) || (now + 60000 <? issuedAt) || (expiresAt <=? now) || (expiresAt <=? issuedAt)
                  then Err (Invalid "release outside validity window") else
                  match as_arr (jget o "files") with
                  | Some l =>
                      if (length l <? 1)%nat || (256 <? length l)%nat then Err (Invalid "invalid release files") else
                      files ← release_files [] 0 l;
                      if existsb (fun f => String.eqb (rf_path f) (agent_name p)) files
                      then Ok {| rm_sequence := sequence; rm_version := version; rm_platform := p; rm_arch := a; rm_issuedAt := issuedAt;
                                 rm_expiresAt := expiresAt; rm_files := files; rm_json := value |}
                      else Err (Invalid "release missing agent")
                  | None => Err (Invalid "invalid release files")
                  end
              | _, _ => Err (Invalid "release outside validity window")
              end
          | None => Err (Invalid "invalid release version")
          end
      | _, _ => Err (Invalid "release target mismatch")
      end
  | _, _ => Err (Invalid "invalid release sequence")
  end.

Definition verifyRelease (raw : string) (pinnedKey : Key) (platform arch : string) (acceptedSequence now : Z) : result ReleaseError ReleaseManifest :=
  if MAX_MANIFEST_BYTES <? Z.of_nat (String.length raw) then Err (Invalid "release manifest too large") else
  match JSON_parse raw with
  | None => Err (Invalid "JSON Parse error")
  | Some value =>
      match as_obj (Some value) with
      | None => Err (Invalid "invalid release manifest")
      | Some o =>
          if negb (match as_str (jget o "signature") with Some s => units s =? 88 | None => false end) || negb (verifyObject pinnedKey value)
          then Err (Invalid "invalid release signature")
          else release_fields o value platform arch acceptedSequence now
      end
  end.
End verify.

(** ** The record of updates *)

Record InstalledRelease := { ir_directory : string; ir_sequence : Z }.
Record UpdateState := {
  us_accepted : Z; us_active : option InstalledRelease; us_previous : option InstalledRelease; us_pending : option InstalledRelease }.
Definition fresh_updates : UpdateState := {| us_accepted := 0; us_active := None; us_previous := None; us_pending := None |}.

#[export] Instance InstalledRelease_eq : EqDecision InstalledRelease.
Proof. solve_decision. Defined.

(** [[a-f0-9-]{36}] *)
Definition is_uuid (s : string) : bool := (String.length s =? 36)%nat && all_chars (fun a => is_hex a || Nat.eqb (code a) 45) s.
Definition directory_ok (sequence : Z) (s : string) : bool :=
  match after_prefix (pretty sequence +:+ "-") s with Some t => is_uuid t | None => false end.

(** A reference in the file: absent, valid or refused *)
Definition installed (accepted : Z) (v : option json) : option (option InstalledRelease) :=
  match v with
  | Some JNull => Some None
  | _ =>
      o ← as_obj v;
      sequence ← as_num (jget o "sequence") ≫= as_safe_int;
      directory ← as_str (jget o "directory");
      if (sequence <? 1) || (accepted <? sequence) || negb (directory_ok sequence directory) then None
      else Some (Some {| ir_directory := directory; ir_sequence := sequence |})
  end.

(** The content of the file, [None] when there is none *)
Definition readUpdateState (value : option (option json)) : result string UpdateState :=
  match value with
  | None => Ok fresh_updates
  | Some None => Err "JSON Parse error"
  | Some (Some v) =>
      match as_obj (Some v) with
      | None => Err "invalid update state"
      | Some o =>
          match as_num (jget o "acceptedSequence") ≫= as_safe_int with
          | Some accepted =>
              if accepted <? 0 then Err "invalid update state" else
              match installed accepted (jget o "active"), installed accepted (jget o "previous"), installed accepted (jget o "pending") with
              | Some a, Some p, Some q => Ok {| us_accepted := accepted; us_active := a; us_previous := p; us_pending := q |}
              | _, _, _ => Err "invalid installed release reference"
              end
          | None => Err "invalid update state"
          end
      end
  end.

(** [JSON.stringify(state)] as a value *)
Definition reference_json (r : option InstalledRelease) : json :=
  match r with Some r => JObj [("directory", JStr (ir_directory r)); ("sequence", JNum (num_of_Z (ir_sequence r)))] | None => JNull end.
Definition updates_json (s : UpdateState) : json :=
  JObj [("acceptedSequence", JNum (num_of_Z (us_accepted s))); ("active", reference_json (us_active s));
        ("previous", reference_json (us_previous s)); ("pending", reference_json (us_pending s))].

(** [/^[1-9][0-9]*-[a-f0-9-]{36}$/] *)
Definition generated_name (s : string) : bool :=
  let '(some, rest) := skip_digits s in
  some && match first_char s with Some a => negb (Nat.eqb (code a) 48) | None => false end &&
  match after_prefix "-" rest with Some t => is_uuid t | None => false end.
(** The directories of [root] that go *)
Definition pruneReleases (entries : list (string * bool)) (s : UpdateState) : list string :=
  let keep := ir_directory <$> (option_list (us_active s) ++ option_list (us_previous s) ++ option_list (us_pending s)) in
  fst <$> List.filter (fun e => e.2 && generated_name e.1 && negb (bool_decide (e.1 ∈ keep))) entries.

(** ** What an accepted release is

    A release that passes the check was signed by the pinned controller, is newer than every release accepted before, and
    installs files of distinct plain names within a bounded size; and the record of updates is read back as it was written. *)

(** A name that stays where it is put: plain characters, no separator, nothing that climbs *)
Definition stays_inside (path : string) : Prop :=
  exists name, (path = name ∨ path = "engine/" +:+ name) ∧ name <> "" ∧ name <> "." ∧ name <> ".." ∧ all_chars path_char name = true.

Lemma alnum_path a : alnum a = true -> path_char a = true.
Proof. unfold path_char. by intros ->. Qed.
Lemma plain_chars s : plain_name s = true -> s <> "" ∧ s <> "." ∧ s <> ".." ∧ all_chars path_char s = true.
Proof.
  destruct s as [|a s]; [done|]. cbn. intros [Ha Hs]%andb_true_iff. split_and!; [done|..].
  - intros [= -> ->]. done.
  - intros [= -> ->]. done.
  - by rewrite (alnum_path a Ha).
Qed.

Lemma substring_all s : forall n, (String.length s <= n)%nat -> String.substring 0 n s = s.
Proof. induction s as [|a s IH]; intros [|n] Hn; cbn in *; try done; [lia|]. f_equal. apply IH. lia. Qed.
Lemma prefix_substring p : forall s, String.prefix p s = true -> forall n, (String.length s <= n)%nat ->
  s = p +:+ String.substring (String.length p) n s.
Proof.
  induction p as [|a p IH]; intros s Hp n Hn.
  - change (String.length "") with 0%nat. by rewrite substring_all.
  - destruct s as [|b s]; [done|]. cbn in Hp. destruct (Ascii.ascii_dec a b) as [->|]; [|done].
    change (String b s = String b (p +:+ String.substring (S (String.length p)) n (String b s))). cbn in Hn.
    assert (String.substring (S (String.length p)) n (String b s) = String.substring (String.length p) n s) as -> by by destruct n.
    f_equal. apply IH; [done|lia].
Qed.
Lemma after_prefix_some p s t : after_prefix p s = Some t -> s = p +:+ t.
Proof.
  unfold after_prefix. destruct (String.prefix p s) eqn:E; [|done]. intros [= <-]. by apply prefix_substring.
Qed.

Lemma in_release_inside path : in_release path = true -> stays_inside path.
Proof.
  unfold in_release, validReleasePath. intros [Hv _]%andb_true_iff. apply andb_true_iff in Hv as [Hv _]. apply andb_true_iff in Hv as [Hv _].
  apply andb_true_iff in Hv as [_ Hv]. unfold base_name in Hv. destruct (after_prefix "engine/" path) as [t|] eqn:Ep; cbn in Hv.
  - exists t. split; [right; by apply after_prefix_some|by apply plain_chars].
  - exists path. split; [by left|by apply plain_chars].
Qed.

Lemma release_file_ok v f : release_file v = Some f -> stays_inside (rf_path f) ∧ SHA256 (rf_sha256 f) = true ∧ 1 <= rf_bytes f.
Proof.
  unfold release_file. destruct (as_obj _) as [o|]; [|done]. cbn [mbind option_bind]. destruct (as_str (jget o "path")) as [p|]; [|done]. cbn [mbind option_bind].
  destruct (in_release p) eqn:Ep; [|done]. cbn [negb]. destruct (as_str (jget o "sha256")) as [h|]; [|done]. cbn [mbind option_bind].
  destruct (SHA256 h) eqn:Eh; [|done]. cbn [negb]. destruct (as_num _ ≫= _) as [b|]; [|done]. cbn [mbind option_bind].
  destruct (Z.ltb_spec b 1); [done|]. cbn [orb]. destruct (_ <? _); [done|]. intros [= <-]. split_and!; [by apply in_release_inside|done..].
Qed.

Lemma release_files_ok l : forall paths bytes files, release_files paths bytes l = Ok files -> bytes <= MAX_RELEASE_BYTES ->
  NoDup (toLowerCase ∘ rf_path <$> files) ∧ (forall f, f ∈ files -> toLowerCase (rf_path f) ∉ paths) ∧
  bytes + sumZ (rf_bytes <$> files) <= MAX_RELEASE_BYTES ∧ Forall (fun f => stays_inside (rf_path f) ∧ SHA256 (rf_sha256 f) = true ∧ 1 <= rf_bytes f) files ∧
  length files = length l.
Proof.
  induction l as [|v l IH]; intros paths bytes files; cbn [release_files].
  - intros [= <-] Hb. split_and!; [constructor|by intros f ?%elem_of_nil|cbn; change (sumZ []) with 0; lia|constructor|done].
  - destruct (release_file v) as [f|] eqn:Ef; [|done]. cbv zeta. case_bool_decide as Hin; [done|].
    destruct (Z.ltb_spec MAX_RELEASE_BYTES (bytes + rf_bytes f)); [done|].
    destruct (release_files _ _ l) as [rest|] eqn:Er; [|done]. intros [= <-] Hb. destruct (IH _ _ _ Er) as (Hnd & Hni & Hs & Hall & Hl); [done|].
    split_and!.
    + rewrite fmap_cons. constructor; [|done]. intros (g & Hg & Hgin)%list_elem_of_fmap. apply (Hni g Hgin).
      change (toLowerCase (rf_path f) = toLowerCase (rf_path g)) in Hg. rewrite <-Hg. left.
    + intros g [->|Hg]%elem_of_cons; [done|]. intros Hp. apply (Hni g Hg). by right.
    + rewrite fmap_cons, sumZ_cons. lia.
    + constructor; [by apply release_file_ok in Ef|done].
    + cbn. by rewrite Hl.
Qed.

(** What a manifest says, as its JSON spells it *)
Definition file_said (v : json) (f : ReleaseFile) : Prop :=
  exists o, v = JObj o ∧ jget o "path" = Some (JStr (rf_path f)) ∧ jget o "sha256" = Some (JStr (rf_sha256 f)) ∧
            (as_num (jget o "bytes") ≫= as_safe_int) = Some (rf_bytes f).
Record said (o : fields) (m : ReleaseManifest) : Prop := {
  sd_sequence : (as_num (jget o "sequence") ≫= as_safe_int) = Some (rm_sequence m);
  sd_platform : jget o "platform" = Some (JStr (rm_platform m)); sd_arch : jget o "arch" = Some (JStr (rm_arch m));
  sd_version : jget o "version" = Some (JStr (rm_version m));
  sd_issued : (as_num (jget o "issuedAt") ≫= as_safe_int) = Some (rm_issuedAt m);
  sd_expires : (as_num (jget o "expiresAt") ≫= as_safe_int) = Some (rm_expiresAt m);
  sd_files : exists l, jget o "files" = Some (JArr l) ∧ Forall2 file_said l (rm_files m) }.

Lemma as_str_some v s : as_str v = Some s -> v = Some (JStr s).
Proof. destruct v as [[]|]; cbn; congruence. Qed.
Lemma release_file_said v f : release_file v = Some f -> file_said v f.
Proof.
  unfold release_file. destruct v as [| | | | |o]; try done. cbn [as_obj mbind option_bind].
  destruct (as_str (jget o "path")) as [p|] eqn:Ep; [|done]. cbn [mbind option_bind]. destruct (negb _); [done|].
  destruct (as_str (jget o "sha256")) as [h|] eqn:Eh; [|done]. cbn [mbind option_bind]. destruct (negb _); [done|].
  destruct (as_num _ ≫= _) as [b|] eqn:Eb; [|done]. cbn [mbind option_bind]. destruct (_ || _); [done|]. intros [= <-].
  exists o. split_and!; [done|by apply as_str_some..|done].
Qed.
Lemma release_files_said l : forall paths bytes files, release_files paths bytes l = Ok files -> Forall2 file_said l files.
Proof.
  induction l as [|v l IH]; intros paths bytes files; cbn [release_files]; [intros [= <-]; constructor|].
  destruct (release_file v) as [f|] eqn:Ef; [|done]. cbv zeta. case_bool_decide; [done|]. destruct (_ <? _); [done|].
  destruct (release_files _ _ l) as [rest|] eqn:Er; [|done]. intros [= <-]. constructor; [by apply release_file_said|by eapply IH].
Qed.

Section release.
Context `{JsonText} {Key : Type} (verifyObject : Key -> json -> bool).

Lemma as_safe_bound x z : as_safe_int x = Some z -> Z.abs z <= MAX_SAFE_INTEGER.
Proof. unfold as_safe_int. destruct (as_int x) as [y|]; [|done]. destruct (Z.leb_spec (Z.abs y) MAX_SAFE_INTEGER); [by intros [= <-]|done]. Qed.

Lemma release_fields_ok o value platform arch accepted now m : release_fields o value platform arch accepted now = Ok m ->
  rm_json m = value ∧ accepted < rm_sequence m <= MAX_SAFE_INTEGER ∧ rm_platform m = platform ∧ rm_arch m = arch ∧
  rm_issuedAt m <= now + 60000 ∧ now < rm_expiresAt m ∧ (1 <= length (rm_files m) <= 256)%nat ∧
  NoDup (toLowerCase ∘ rf_path <$> rm_files m) ∧ sumZ (rf_bytes <$> rm_files m) <= MAX_RELEASE_BYTES ∧
  Forall (fun f => stays_inside (rf_path f) ∧ SHA256 (rf_sha256 f) = true ∧ 1 <= rf_bytes f) (rm_files m) ∧
  exists f, f ∈ rm_files m ∧ rf_path f = agent_name platform.
Proof.
  unfold release_fields. destruct (is_string _ _ && _); [|done]. destruct (safe_field o "sequence") as [s|] eqn:Es; [|done].
  assert (Z.abs s <= MAX_SAFE_INTEGER) as Hs.
  { unfold safe_field in Es. destruct (as_num _) as [x|]; [|done]. by apply (as_safe_bound x). }
  destruct (_ || _ || _); [done|]. destruct (Z.leb_spec s accepted); [done|]. destruct (as_str (jget o "platform")) as [p|]; [|done].
  destruct (as_str (jget o "arch")) as [a|]; [|done]. destruct (negb _ || negb _ || negb (String.eqb p platform) || negb (String.eqb a arch)) eqn:Et; [done|].
  apply orb_false_iff in Et as [Et Ha%negb_false_iff%String.eqb_eq]. apply orb_false_iff in Et as [_ Hp%negb_false_iff%String.eqb_eq].
  destruct (as_str (jget o "version")) as [w|]; [|done]. destruct (negb _); [done|].
  destruct (safe_field o "issuedAt") as [i|]; [|done]. destruct (safe_field o "expiresAt") as [x|]; [|done].
  destruct (Z.ltb_spec i 0); [done|]. destruct (Z.ltb_spec (now + 60000) i); [done|]. destruct (Z.leb_spec x now); [done|]. destruct (Z.leb_spec x i); [done|]. cbn [orb].
  destruct (as_arr _) as [l|]; [|done]. destruct (Nat.ltb_spec (length l) 1); [done|]. destruct (Nat.ltb_spec 256 (length l)); [done|]. cbn [orb].
  destruct (release_files [] 0 l) as [files|] eqn:Ef; [|done]. cbn [mbind result_bind]. destruct (existsb _ files) eqn:Ea; [|done]. intros [= <-]. cbn.
  apply release_files_ok in Ef as (Hnd & _ & Hsum & Hall & Hl); [|unfold MAX_RELEASE_BYTES; lia].
  apply existsb_exists in Ea as (f & Hf & Hname%String.eqb_eq). apply list_elem_of_In in Hf.
  subst p a. split_and!; try done; try lia. exists f. by split.
Qed.

Lemma release_fields_said o value platform arch accepted now m : release_fields o value platform arch accepted now = Ok m ->
  said o m ∧ 0 <= rm_issuedAt m < rm_expiresAt m.
Proof.
  unfold release_fields. destruct (is_string _ _ && _); [|done]. destruct (safe_field o "sequence") as [s|] eqn:Es; [|done].
  destruct (_ || _ || _); [done|]. destruct (_ <=? _); [done|]. destruct (as_str (jget o "platform")) as [p|] eqn:Ep; [|done].
  destruct (as_str (jget o "arch")) as [a|] eqn:Ea; [|done]. destruct (negb _ || negb _ || _ || _); [done|].
  destruct (as_str (jget o "version")) as [w|] eqn:Ev; [|done]. destruct (negb _); [done|].
  destruct (safe_field o "issuedAt") as [i|] eqn:Ei; [|done]. destruct (safe_field o "expiresAt") as [x|] eqn:Ex; [|done].
  destruct (Z.ltb_spec i 0); [done|]. destruct (_ <? i); [done|]. destruct (x <=? now); [done|]. destruct (Z.leb_spec x i); [done|]. cbn [orb].
  destruct (jget o "files") as [[| | | |l|]|] eqn:Ef; try done. cbn [as_arr]. destruct (_ || _); [done|].
  destruct (release_files [] 0 l) as [files|] eqn:Er; [|done]. cbn [mbind result_bind]. destruct (existsb _ files); [|done]. intros [= <-].
  cbn. split; [|lia]. split; try done; try (by apply as_str_some). exists l. split; [done|by eapply release_files_said].
Qed.

Lemma verified_fields raw key platform arch accepted now m : verifyRelease verifyObject raw key platform arch accepted now = Ok m ->
  exists o v, JSON_parse raw = Some v ∧ verifyObject key v = true ∧ release_fields o v platform arch accepted now = Ok m ∧ v = JObj o ∧
    Z.of_nat (String.length raw) <= MAX_MANIFEST_BYTES.
Proof.
  unfold verifyRelease. destruct (Z.ltb_spec MAX_MANIFEST_BYTES (Z.of_nat (String.length raw))); [done|].
  destruct (JSON_parse raw) as [v|]; [|done]. destruct v as [| | | | |o]; try done. cbn [as_obj].
  destruct (negb (match as_str _ with Some s => _ | None => _ end) || negb (verifyObject key (JObj o))) eqn:E; [done|].
  apply orb_false_iff in E as [_ Hs%negb_false_iff]. intros Hf. by exists o, (JObj o).
Qed.

(** ** The record of updates *)

Definition reference_ok (accepted : Z) (r : option InstalledRelease) : Prop :=
  forall x, r = Some x -> 1 <= ir_sequence x <= accepted ∧ directory_ok (ir_sequence x) (ir_directory x) = true.
Definition well_formed (s : UpdateState) : Prop :=
  0 <= us_accepted s <= MAX_SAFE_INTEGER ∧ reference_ok (us_accepted s) (us_active s) ∧ reference_ok (us_accepted s) (us_previous s) ∧
  reference_ok (us_accepted s) (us_pending s).

Lemma installed_json accepted r : accepted <= MAX_SAFE_INTEGER -> reference_ok accepted r -> installed accepted (Some (reference_json r)) = Some r.
Proof.
  intros Ha Hr. destruct r as [[d s]|]; [|done]. destruct (Hr _ eq_refl) as [Hs Hd]. cbn [ir_sequence ir_directory] in *.
  unfold installed, reference_json. cbn -[num_of_Z as_safe_int directory_ok Z.ltb]. rewrite num_of_Z_exact by lia. cbn [mbind option_bind]. rewrite Hd.
  destruct (Z.ltb_spec s 1), (Z.ltb_spec accepted s); try lia. done.
Qed.
Lemma updates_roundtrip s : well_formed s -> readUpdateState (Some (Some (updates_json s))) = Ok s.
Proof.
  intros (Ha & H1 & H2 & H3). unfold readUpdateState, updates_json. cbn -[num_of_Z as_safe_int installed reference_json Z.ltb].
  rewrite num_of_Z_exact by lia. destruct (Z.ltb_spec (us_accepted s) 0); [lia|]. rewrite !installed_json by (done || lia). by destruct s.
Qed.
Lemma read_well_formed v s : readUpdateState v = Ok s -> well_formed s.
Proof.
  unfold readUpdateState. destruct v as [[v|]|]; [|done|].
  2: { intros [= <-]. split; [done|]. by split_and!. }
  destruct (as_obj _) as [o|]; [|done]. destruct (as_num _ ≫= _) as [a|] eqn:Ea; [|done]. destruct (Z.ltb_spec a 0); [done|].
  assert (a <= MAX_SAFE_INTEGER) as Hm.
  { destruct (as_num (jget o "acceptedSequence")) as [x|]; [|done]. apply as_safe_bound in Ea. lia. }
  assert (forall v r, installed a v = Some r -> reference_ok a r) as Hi.
  { intros w r. unfold installed. assert ((o ← as_obj w; s ← as_num (jget o "sequence") ≫= as_safe_int; d ← as_str (jget o "directory");
      if (s <? 1) || (a <? s) || negb (directory_ok s d) then None else Some (Some {| ir_directory := d; ir_sequence := s |})) = Some r -> reference_ok a r) as Hgo.
    { destruct (as_obj w) as [u|]; [|done]. cbn [mbind option_bind]. destruct (as_num (jget u "sequence") ≫= as_safe_int) as [s'|]; [|done]. cbn [mbind option_bind].
      destruct (as_str _) as [d|]; [|done]. cbn [mbind option_bind]. destruct (Z.ltb_spec s' 1), (Z.ltb_spec a s'); try done. cbn [orb].
      destruct (directory_ok s' d) eqn:Ed; [|done]. intros [= <-]. intros x [= <-]. done. }
    destruct w as [[]|]; try exact Hgo. by intros [= <-]. }
  destruct (installed a (jget o "active")) as [r1|] eqn:E1; [|done]. destruct (installed a (jget o "previous")) as [r2|] eqn:E2; [|done].
  destruct (installed a (jget o "pending")) as [r3|] eqn:E3; [|done]. intros [= <-]. split; [done|]. split_and!; cbn; by eapply Hi.
Qed.

(** ** Properties *)

(** C20: A release is accepted only from a signed manifest of at most 128 KiB, and for what that manifest says: the pinned key
    verifies the JSON itself, and the sequence number, target, validity and files accepted are the ones it spells out.  The
    sequence number is above every one accepted before, the target is this platform, the validity has begun, give or take a
    minute, and is not over; the files are 1 to 256 with at most 4 GiB together and a hash each, their names are distinct
    whatever the case and stay inside the release directory, and the agent is among them. *)
Theorem verifyRelease_sound raw key platform arch accepted now m :
  verifyRelease verifyObject raw key platform arch accepted now = Ok m ->
  (exists o, JSON_parse raw = Some (JObj o) ∧ rm_json m = JObj o ∧ verifyObject key (JObj o) = true ∧ said o m) ∧
  Z.of_nat (String.length raw) <= MAX_MANIFEST_BYTES ∧
  accepted < rm_sequence m <= MAX_SAFE_INTEGER ∧ rm_platform m = platform ∧ rm_arch m = arch ∧
  0 <= rm_issuedAt m < rm_expiresAt m ∧ rm_issuedAt m <= now + 60000 ∧ now < rm_expiresAt m ∧
  (1 <= length (rm_files m) <= 256)%nat ∧
  NoDup (toLowerCase ∘ rf_path <$> rm_files m) ∧ sumZ (rf_bytes <$> rm_files m) <= MAX_RELEASE_BYTES ∧
  Forall (fun f => stays_inside (rf_path f) ∧ SHA256 (rf_sha256 f) = true ∧ 1 <= rf_bytes f) (rm_files m) ∧
  exists f, f ∈ rm_files m ∧ rf_path f = agent_name platform.
Proof.
  intros (o & v & Hp & Hv & Hf & -> & Hlen)%verified_fields. destruct (release_fields_said _ _ _ _ _ _ _ Hf) as [Hs Ht].
  apply release_fields_ok in Hf as (Hj & H1 & H2 & H3 & H4). split_and!; try done; try tauto. by exists o.
Qed.
End release.

(** A manifest of one file, signed by the one key there is *)
Section example.
Definition sample_release : json :=
  JObj [("kind", JStr "swarmlet-release"); ("schema", JNum (num_of_Z 1)); ("sequence", JNum (num_of_Z 7)); ("version", JStr "1.0");
        ("platform", JStr "linux"); ("arch", JStr "x64"); ("issuedAt", JNum (num_of_Z 0)); ("expiresAt", JNum (num_of_Z 1000));
        ("files", JArr [JObj [("path", JStr "swarmlet-node"); ("bytes", JNum (num_of_Z 9)); ("sha256", JStr (String.concat "" (repeat "a" 64)))]]);
        ("signature", JStr (String.concat "" (repeat "s" 88)))].
#[local] Instance sample_json : JsonText :=
  {| num_string := fun _ => ""; JSON_parse := fun s => if String.eqb s "manifest" then Some sample_release else None |}.
Lemma verifyRelease_sound_witness :
  match verifyRelease (fun (k : string) v => String.eqb k "key") "manifest" "key" "linux" "x64" 6 500 with
  | Ok m => 6 < rm_sequence m ∧ (exists f, f ∈ rm_files m ∧ rf_path f = "swarmlet-node")
  | Err _ => False
  end.
Proof.
  destruct (verifyRelease (fun (k : string) v => String.eqb k "key") "manifest" "key" "linux" "x64" 6 500) as [m|e] eqn:E;
    [|vm_compute in E; discriminate E].
  destruct (verifyRelease_sound (fun (k : string) v => String.eqb k "key") "manifest" "key" "linux" "x64" 6 500 m E)
    as (_ & _ & [Hs _] & _ & _ & _ & _ & _ & _ & _ & _ & _ & Hf).
  split; [exact Hs|exact Hf].
Defined.
(** The same release is not accepted again. *)
Example replay_refused : verifyRelease (fun (k : string) v => String.eqb k "key") "manifest" "key" "linux" "x64" 7 500 = Err Not_new.
Proof. vm_compute. reflexivity. Qed.
End example.
