(* ===== verification/ReleaseStage.v ===== *)
(** * Staging a release (swarmlet/node-agent/update-stage.ts)

    The files of a release are fetched into a partial directory beside the installed ones, which gets its final name only
    after all of them were checked and flushed.  The directory of the releases is a map from the names in it to the files
    under each, and is shared with whatever else runs.  Every call of the file system and of the network may fail; what it does
    to the directory happens when its await ends.  A write may take a part of what it is given. *)

From S2P Require Import Prelude Async Rules JsNum Json Types Canon Regex Utf8 StageExecution Sse Download Release.

Local Open Scope string_scope.
Local Open Scope list_scope.
Local Open Scope Z_scope.

Abbreviation Releases := (gmap string (gmap string (list Z))).

(** The answer to a request: the chunks of the body, until it ends or breaks *)
Inductive StagedAnswer :=
  | Unreached (why : string)
  | Reached (ok : bool) (status : Z) (body : option (list (list Z) * option string)).
Inductive StagingAsk :=
  | G_io (what : string)
  | G_fetch (feed : string * string) (path : string)
  | G_read
  | G_write (size : nat)
  | G_remove.
Definition staging_answer (q : StagingAsk) : Type :=
  match q with G_io _ | G_remove => result string unit | G_fetch _ _ => StagedAnswer | G_read => unit | G_write _ => result string nat end.
Abbreviation StSync := (M Releases string).
Abbreviation Staging := (Async.Async (S := Releases) staging_answer).
Definition staging_ask (q : StagingAsk) : Staging (staging_answer q) := fun m => (Susp q (fun r m => (Fin (Ok r), m)), m).
Definition staging_result {A} (r : result string A) : Staging A := fun m => (Fin r, m).
(** A call that succeeds or throws *)
Definition io (what : string) : Staging unit := r ← staging_ask (G_io what); staging_result r.

(** ** The file system *)

Definition make_dir (d : string) : StSync unit :=
  m ← mget; if present (m !! d) then mthrow "EEXIST: file already exists, mkdir" else mmodify (<[d := ∅]>).
(** [open(path, "wx")] *)
Definition create_file (d p : string) : StSync unit :=
  m ← mget;
  match m !! d with
  | Some t => if present (t !! p) then mthrow "EEXIST: file already exists, open" else mmodify (<[d := <[p := []]> t]>)
  | None => mthrow "ENOENT: no such file or directory, open"
  end.
Definition append_file (d p : string) (c : list Z) : StSync unit :=
  mmodify (fun m => alter (alter (fun old => old ++ c) p) d m).
(** A directory takes the name of none or of an empty one. *)
Definition rename_dir (from to_ : string) : StSync unit :=
  m ← mget;
  match m !! from with
  | Some t =>
      if bool_decide (default ∅ (m !! to_) = ∅) then mmodify (fun m => <[to_ := t]> (base.delete from m))
      else mthrow "ENOTEMPTY: directory not empty, rename"
  | None => mthrow "ENOENT: no such file or directory, rename"
  end.
Definition remove_dir (d : string) : StSync unit := mmodify (base.delete d).

(** ** The release *)

Record FeedUrl := { fu_protocol : string; fu_username : string; fu_password : string; fu_search : string; fu_hash : string; fu_pathname : string }.

Section staging.
Context `{StageHost} (parse_url : string -> option FeedUrl) (JSON_stringify : json -> string).

(** The controller and the path of the manifest *)
Definition releaseFeed (controlUrl platform arch : string) : result string (string * string) :=
  match parse_url controlUrl with
  | None => Err "Invalid URL"
  | Some u =>
      if negb (existsb (String.eqb (fu_protocol u)) ["http:"; "https:"]) || negb (String.eqb (fu_username u) "") ||
         negb (String.eqb (fu_password u) "") || negb (String.eqb (fu_search u) "") || negb (String.eqb (fu_hash u) "") ||
         negb (String.eqb (fu_pathname u) "/") then Err "invalid update controller URL" else
      if negb (existsb (String.eqb platform) ["linux"; "darwin"; "win32"]) || negb (existsb (String.eqb arch) ["arm64"; "x64"])
      then Err "unsupported update target"
      else Ok (controlUrl, "/releases/" +:+ platform +:+ "-" +:+ arch +:+ "/manifest.json")
  end.

(** A chunk is written piece by piece; every piece that is accepted has at least one byte. *)
Fixpoint write_all (fuel : nat) (d p : string) (value : list Z) : Staging unit :=
  match value, fuel with
  | [], _ => mret tt
  | _, O => athrow "release file write stalled"
  | _, S fuel =>
      n ← staging_ask (G_write (length value));
      n ← staging_result n;
      if (n =? 0)%nat then athrow "release file write stalled" else
      lift (append_file d p (take n value)) ;;
      write_all fuel d p (drop n value)
  end.

(** The bytes received, which are those the hash has seen *)
Fixpoint receive (d : string) (file : ReleaseFile) (chunks : list (list Z)) (broken : option string) (seen : list Z) : Staging (list Z) :=
  staging_ask G_read ;;
  match chunks with
  | [] => match broken with Some e => athrow e | None => mret seen end
  | c :: chunks =>
      let seen := seen ++ c in
      if rf_bytes file <? byte_count seen then athrow ("release file length mismatch: " +:+ rf_path file) else
      write_all (length c) d (rf_path file) c ;;
      receive d file chunks broken seen
  end.

(** [try { x } finally { await handle.close() }] *)
Definition closing (x : Staging unit) : Staging unit :=
  r ← acatch (x ;; mret (Ok tt)) (fun e => mret (Err e));
  io "close" ;;
  staging_result r.

Definition stage_file (feed : string * string) (d : string) (sequence : Z) (file : ReleaseFile) : Staging unit :=
  res ← staging_ask (G_fetch feed (pretty sequence +:+ "/" +:+ rf_path file));
  match res with
  | Unreached why => athrow why
  | Reached true _ (Some (chunks, broken)) =>
      io "open" ;;
      lift (create_file d (rf_path file)) ;;
      closing (
        seen ← receive d file chunks broken [];
        if negb (byte_count seen =? rf_bytes file) || negb (String.eqb (sha256_hex seen) (rf_sha256 file))
        then athrow ("release file integrity mismatch: " +:+ rf_path file)
        else io "sync")
  | Reached _ status _ => athrow ("release file HTTP " +:+ pretty status)
  end.
Fixpoint stage_files (feed : string * string) (d : string) (sequence : Z) (files : list ReleaseFile) : Staging unit :=
  match files with
  | [] => mret tt
  | f :: files => stage_file feed d sequence f ;; stage_files feed d sequence files
  end.

(** The text of the manifest is written whole. *)
Definition stage_manifest (d : string) (m : ReleaseManifest) : Staging unit :=
  io "open" ;;
  lift (create_file d "manifest.json") ;;
  closing (io "writeFile" ;; lift (append_file d "manifest.json" (bytes_of (JSON_stringify (rm_json m)))) ;; io "sync").

Definition release_id (uuid : string) (m : ReleaseManifest) : string := pretty (rm_sequence m) +:+ "-" +:+ uuid.
Definition partial_name (uuid : string) (m : ReleaseManifest) : string := ".partial-" +:+ release_id uuid m.

(** The name of the directory of the release, given what [randomUUID] returns *)
Definition stageRelease (uuid controlUrl : string) (m : ReleaseManifest) : Staging string :=
  feed ← staging_result (releaseFeed controlUrl (rm_platform m) (rm_arch m));
  let staging := partial_name uuid m in
  io "mkdir releases" ;;
  io "mkdir" ;;
  lift (make_dir staging) ;;
  acatch (
    io "mkdir engine" ;;
    stage_files feed staging (rm_sequence m) (rm_files m) ;;
    stage_manifest staging m ;;
    io "sync engine" ;;
    io "sync staging" ;;
    io "rename" ;;
    lift (rename_dir staging (release_id uuid m)) ;;
    io "sync releases" ;;
    mret (release_id uuid m))
  (fun e =>
    removed ← staging_ask G_remove;
    staging_result removed ;;
    lift (remove_dir staging) ;;
    athrow e).
End staging.

(** ** What a staged release is

    Whatever the network and the file system do, and wherever the process is killed, the final name of a release is absent or
    stands for exactly the files of its manifest, each with its size and hash, and the manifest; nothing else is touched. *)

(** What a directory holds *)
Abbreviation Tree := (gmap string (list Z)).

Section facts.
Context `{StageHost} (parse_url : string -> option FeedUrl) (JSON_stringify : json -> string) (uuid : string) (m : ReleaseManifest).

Definition verified_file (f : ReleaseFile) (t : Tree) : Prop :=
  exists c, t !! rf_path f = Some c ∧ byte_count c = rf_bytes f ∧ sha256_hex c = rf_sha256 f.
Definition holds (files : list ReleaseFile) (t : Tree) : Prop :=
  dom t = list_to_set (rf_path <$> files) ∧ forall f, f ∈ files -> verified_file f t.
(** The files of the release and its manifest, and nothing else *)
Definition whole (t : Tree) : Prop :=
  t !! "manifest.json" = Some (bytes_of (JSON_stringify (rm_json m))) ∧ holds (rm_files m) (base.delete "manifest.json" t).

Definition final : string := release_id uuid m.
Definition partial : string := partial_name uuid m.
Lemma partial_not_final : partial <> final.
Proof.
  unfold partial, final, partial_name. intros Heq%(f_equal String.length). rewrite length_app_string in Heq.
  change (String.length ".partial-") with 9%nat in Heq. lia.
Qed.

(** The others leave the two names alone; the staging leaves every other name alone. *)
Lemma elsewhere_preorder : PreOrder (fun r r' : Releases => r' !! partial = r !! partial ∧ r' !! final = r !! final).
Proof. split; [done|]. intros x y z [H1 H2] [H3 H4]. split; congruence. Qed.
Definition elsewhere : Moves Releases := {| moves_rel := _; moves_preorder := elsewhere_preorder |}.
Lemma own_dirs_preorder : PreOrder (fun r r' : Releases => forall k, k <> partial -> k <> final -> r' !! k = r !! k).
Proof. split; [done|]. intros x y z H1 H2 k Hp Hf. by rewrite H2, H1. Qed.
Definition own_dirs : Moves Releases := {| moves_rel := _; moves_preorder := own_dirs_preorder |}.

(** Removing what was staged does not fail. *)
Definition removable (q : StagingAsk) : staging_answer q -> Releases -> Prop :=
  match q with G_remove => fun a _ => a = Ok tt | _ => fun _ _ => True end.

Section run.
Context (before : option Tree).
Definition installs (r : Releases) : Prop := r !! final = before ∨ exists t, r !! final = Some t ∧ whole t.
Abbreviation grg := (rg (ans := staging_answer) removable installs elsewhere own_dirs).
Abbreviation on p := (fun r : Releases => exists t : Tree, r !! partial = Some t ∧ p t).
Abbreviation any := (fun (_ : string) (_ : Releases) => True).
Implicit Types p q : Tree -> Prop.

Definition stable (P : Releases -> Prop) : Prop := forall r r', elsewhere r r' -> P r -> P r'.
Lemma stable_on p : stable (on p).
Proof. intros r r' [Hp _] (t & Ht & Hpt). exists t. by rewrite Hp. Qed.
Lemma stable_always : stable (fun _ => True).
Proof. done. Qed.

Lemma grg_ask w P E : stable P -> grg P (staging_ask w) (fun a r => P r ∧ exists r', removable w a r') E.
Proof. intros HP. apply rg_await; [intros r r' _ _ ?; by apply HP|]. intros a r _ Hr Ha. split; [done|by exists r]. Qed.
Lemma grg_asked w P E : stable P -> grg P (staging_ask w) (fun _ => P) E.
Proof. intros HP. eapply rg_conseq; [by apply (grg_ask w P E)|done|by intros a r _ []|done]. Qed.
Lemma grg_io what P E : stable P -> (forall e r, P r -> E e r) -> grg P (io what) (fun _ => P) E.
Proof.
  intros HP HE. unfold io. eapply (rg_bind _ _ _ _ _ (fun _ => P)); [by apply grg_asked|]. intros a. apply rg_result.
  intros r _ Hr. destruct a as [[]|e]; [done|by apply HE].
Qed.
(** An input or output step before the rest *)
Lemma grg_io_then {A} what P (f : unit -> Staging A) Q E : stable P -> (forall e r, P r -> E e r) -> grg P (f tt) Q E -> grg P (io what ≫= f) Q E.
Proof. intros HP HE Hf. eapply rg_bind; [by apply grg_io|]. by intros []. Qed.

(** A step that changes the partial directory *)
Lemma installs_partial g r : installs r -> installs (partial_alter g partial r).
Proof.
  intros Hr. unfold installs. rewrite lookup_partial_alter_ne; [exact Hr|apply partial_not_final].
Qed.
Lemma sspec_partial g (P Q : Releases -> Prop) E : (forall r, P r -> Q (partial_alter g partial r)) ->
  sspec installs own_dirs P (mmodify (partial_alter g partial)) (fun _ => Q) E.
Proof.
  intros HQ. apply sspec_modify. intros r HI HP. split_and!; [by apply installs_partial| |by apply HQ].
  intros k Hk _. by rewrite lookup_partial_alter_ne.
Qed.
Lemma grg_append path c p q E : (forall t, p t -> q (alter (fun old => old ++ c) path t)) ->
  grg (on p) (lift (append_file partial path c)) (fun _ => on q) E.
Proof.
  intros Hq. apply rg_lift, (sspec_partial (fmap (alter (fun old => old ++ c) path))). intros r (t & Ht & Hp).
  exists (alter (fun old => old ++ c) path t). rewrite lookup_partial_alter_eq, Ht. split; [done|by apply Hq].
Qed.
Lemma grg_create path p q : (forall t, p t -> t !! path = None -> q (<[path := []]> t)) ->
  grg (on p) (lift (create_file partial path)) (fun _ => on q) any.
Proof.
  intros Hq. apply rg_lift. unfold create_file. apply sspec_get. intros r _ (t & Ht & Hp). rewrite Ht.
  destruct (t !! path) as [c|] eqn:Ec; cbn [present]; [by apply sspec_throw|].
  apply (sspec_partial (fun _ => Some (<[path := []]> t))). intros r' ->. exists (<[path := []]> t).
  rewrite lookup_partial_alter_eq. split; [done|by apply Hq].
Qed.

(** A file being written beside what is there already *)
Definition filling p (path : string) (c : list Z) (t : Tree) : Prop := p (base.delete path t) ∧ t !! path = Some c.
Lemma filling_new p path t : p t -> t !! path = None -> filling p path [] (<[path := []]> t).
Proof. intros Hp Hn. unfold filling. by rewrite delete_insert_id, lookup_insert_eq. Qed.
Lemma filling_more p path c d t : filling p path c t -> filling p path (c ++ d) (alter (fun old => old ++ d) path t).
Proof. intros [Hp Hc]. unfold filling. by rewrite delete_alter_eq, lookup_alter_eq, Hc. Qed.

Lemma grg_write p path : forall fuel value c,
  grg (on (filling p path c)) (write_all fuel partial path value) (fun _ => on (filling p path (c ++ value))) any.
Proof.
  intros fuel. induction fuel as [|fuel IH]; intros [|b value] c; cbn [write_all]; try by apply rg_throw.
  1,2: apply rg_ret; intros r _ Hr; by rewrite app_nil_r.
  eapply (rg_bind _ _ _ _ _ (fun _ => on (filling p path c))); [apply grg_asked, stable_on|]. intros n.
  eapply (rg_bind _ _ _ _ _ (fun _ => on (filling p path c))); [apply rg_result; intros r _ Hr; by destruct n|]. intros k.
  destruct (k =? 0)%nat; [by apply rg_throw|].
  eapply (rg_bind _ _ _ _ _ (fun _ => on (filling p path (c ++ take k (b :: value))))); [apply grg_append; intros t; apply filling_more|]. intros ?.
  eapply rg_conseq; [apply IH|by intros r _ Hr; exact Hr| |done]. intros ? r _ Hr. rewrite <-app_assoc, take_drop in Hr. exact Hr.
Qed.

Lemma grg_receive p f broken chunks : forall seen,
  grg (on (filling p (rf_path f) seen)) (receive partial f chunks broken seen) (fun c => on (filling p (rf_path f) c)) any.
Proof.
  induction chunks as [|c chunks IH]; intros seen; cbn [receive];
    (eapply (rg_bind _ _ _ _ _ (fun _ => on (filling p (rf_path f) seen))); [apply grg_asked, stable_on|]); intros ?.
  - destruct broken; [by apply rg_throw|by apply rg_ret].
  - cbv zeta. destruct (_ <? _); [by apply rg_throw|]. eapply rg_bind; [apply grg_write|]. intros ?. apply IH.
Qed.

Lemma grg_closing x p q : grg (on p) x (fun _ => on q) any -> grg (on p) (closing x) (fun _ => on q) any.
Proof.
  intros Hx. unfold closing.
  eapply (rg_bind _ _ _ _ _ (fun r s => match r with Ok _ => on q s | Err _ => True end)).
  - eapply rg_catch; [eapply rg_bind; [exact Hx|]|].
    + intros ?. by apply rg_ret.
    + intros e. by apply rg_ret.
  - intros [[]|e].
    + apply grg_io_then; [apply stable_on|done|]. by apply rg_result.
    + apply grg_io_then; [apply stable_always|done|]. by apply rg_result.
Qed.

Lemma holds_more files f c t : filling (holds files) (rf_path f) c t -> byte_count c = rf_bytes f -> sha256_hex c = rf_sha256 f -> holds (files ++ [f]) t.
Proof.
  intros [[Hd Hv] Hc] Hb Hs. split.
  - rewrite fmap_app, list_to_set_app_L, <-Hd. cbn. rewrite union_empty_r_L, dom_delete_L.
    apply elem_of_dom_2 in Hc. apply set_eq. intros k. destruct (decide (k = rf_path f)); set_solver.
  - intros g [Hg| ->%list_elem_of_singleton]%elem_of_app; [|by exists c]. destruct (Hv g Hg) as (d & Hd' & ?).
    exists d. split; [|done]. by apply lookup_delete_Some in Hd' as [_ ?].
Qed.

Lemma grg_file feed sequence files f :
  grg (on (holds files)) (stage_file feed partial sequence f) (fun _ => on (holds (files ++ [f]))) any.
Proof.
  unfold stage_file. eapply (rg_bind _ _ _ _ _ (fun _ => on (holds files))); [apply grg_asked, stable_on|].
  intros [why|[] status [[chunks broken]|]]; try by apply rg_throw.
  apply grg_io_then; [apply stable_on|done|].
  eapply (rg_bind _ _ _ _ _ (fun _ => on (filling (holds files) (rf_path f) []))); [apply grg_create; intros t; apply filling_new|]. intros ?.
  apply grg_closing. eapply rg_bind; [apply grg_receive|]. intros c.
  destruct (Z.eqb_spec (byte_count c) (rf_bytes f)) as [Hb|]; [|by apply rg_throw].
  destruct (String.eqb_spec (sha256_hex c) (rf_sha256 f)) as [Hs|]; [|by apply rg_throw]. cbn [negb orb].
  eapply rg_conseq; [apply (grg_io _ (on (filling (holds files) (rf_path f) c)) any); [apply stable_on|done]|by intros r _ Hr; exact Hr| |done]. intros ? r _ (t & Ht & Hf). exists t. split; [done|by eapply holds_more].
Qed.
Lemma grg_files feed sequence rest : forall files,
  grg (on (holds files)) (stage_files feed partial sequence rest) (fun _ => on (holds (files ++ rest))) any.
Proof.
  induction rest as [|f rest IH]; intros files; cbn [stage_files].
  - apply rg_ret. intros r _ Hr. rewrite app_nil_r. exact Hr.
  - eapply rg_bind; [apply grg_file|]. intros ?. eapply rg_conseq; [apply IH|by intros r _ Hr; exact Hr| |done]. intros ? r _ Hr. rewrite <-app_assoc in Hr. exact Hr.
Qed.

Lemma grg_manifest : grg (on (holds (rm_files m))) (stage_manifest JSON_stringify partial m) (fun _ => on whole) any.
Proof.
  unfold stage_manifest. apply grg_io_then; [apply stable_on|done|].
  eapply (rg_bind _ _ _ _ _ (fun _ => on (filling (holds (rm_files m)) "manifest.json" []))); [apply grg_create; intros t; apply filling_new|]. intros ?.
  apply grg_closing. apply grg_io_then; [apply stable_on|done|].
  eapply (rg_bind _ _ _ _ _ (fun _ => on whole)); [|intros ?; by apply grg_io; [apply stable_on|]].
  apply grg_append. intros t Ht. destruct (filling_more _ _ _ (bytes_of (JSON_stringify (rm_json m))) _ Ht) as [? ?]. by split.
Qed.

(** The release under its name *)
Definition placed (r : Releases) : Prop := r !! partial = None ∧ exists t, r !! final = Some t ∧ whole t.
Lemma stable_placed : stable placed.
Proof. intros r r' [Hp Hf]. unfold placed. by rewrite Hp, Hf. Qed.
Lemma grg_rename : grg (on whole) (lift (rename_dir partial final)) (fun _ => placed) any.
Proof.
  apply rg_lift. unfold rename_dir. apply sspec_get. intros r _ (t & Ht & Hw). rewrite Ht. case_bool_decide; [|by apply sspec_throw].
  apply sspec_modify. intros r' HI ->. split_and!.
  - right. exists t. by rewrite lookup_insert_eq.
  - intros k Hp Hf. by rewrite lookup_insert_ne, lookup_delete_ne.
  - split; [|exists t; by rewrite lookup_insert_eq]. rewrite lookup_insert_ne by (apply not_eq_sym, partial_not_final). apply lookup_delete_eq.
Qed.

Lemma grg_clean e (Q : string -> Releases -> Prop) :
  grg (fun _ => True) (removed ← staging_ask G_remove; staging_result removed ;; lift (remove_dir partial) ;; athrow e) Q
    (fun _ r => r !! partial = None).
Proof.
  eapply (rg_bind _ _ _ _ _ (fun a _ => a = Ok tt)).
  - apply (rg_conseq _ _ _ _ _ (fun _ => True) _ (fun a r => True ∧ exists r', removable G_remove a r') _ (fun _ r => r !! partial = None));
      [by apply (grg_ask G_remove (fun _ => True))|done| |done]. by intros a r _ [_ [? ?]].
  - intros a. eapply (rg_bind _ _ _ _ _ (fun _ _ => True)); [apply rg_result; by intros r _ ->|]. intros ?.
    eapply (rg_bind _ _ _ _ _ (fun _ r => r !! partial = None)).
    + apply rg_lift, (sspec_partial (fun _ => None)). intros r _. by rewrite lookup_partial_alter_eq.
    + intros ?. by apply rg_throw.
Qed.

Lemma grg_make (old : option Tree) : grg (fun r => r !! partial = old) (lift (make_dir partial)) (fun _ => on (holds []))
  (fun _ r => r !! partial = old).
Proof.
  apply rg_lift. unfold make_dir. apply sspec_get. intros r _ Hr. destruct (r !! partial) as [t|] eqn:E; cbn [present].
  - apply sspec_throw. intros r' _ ->. congruence.
  - apply (sspec_partial (fun _ => Some ∅)). intros r' ->. exists ∅. rewrite lookup_partial_alter_eq. split; [done|]. split; [by rewrite dom_empty_L|].
    by intros f ?%elem_of_nil.
Qed.

Lemma grg_stage (old : option Tree) controlUrl :
  grg (fun r => r !! partial = old) (stageRelease parse_url JSON_stringify uuid controlUrl m) (fun d r => d = final ∧ placed r)
    (fun _ r => r !! partial = None ∨ r !! partial = old).
Proof.
  set (E := fun (_ : string) (r : Releases) => r !! partial = None ∨ r !! partial = old).
  assert (stable (fun r => r !! partial = old)) as Hold by (intros r r' [Hp _] Hr; congruence).
  unfold stageRelease. eapply (rg_bind _ _ _ _ _ (fun _ r => r !! partial = old)).
  { apply rg_result. intros r _ Hr. destruct (releaseFeed _ _ _ _); [done|by right]. }
  intros feed. cbv zeta. do 2 (apply grg_io_then; [done|by right|]).
  eapply (rg_bind _ _ _ _ _ (fun _ => on (holds []))).
  { eapply rg_conseq; [apply (grg_make old)|done|done|by right]. }
  intros ?. apply (rg_catch _ _ _ _ _ _ _ any).
  - apply grg_io_then; [apply stable_on|done|].
    eapply (rg_bind _ _ _ _ _ (fun _ => on (holds (rm_files m)))); [apply (grg_files feed _ (rm_files m) [])|]. intros ?.
    eapply (rg_bind _ _ _ _ _ (fun _ => on whole)); [apply grg_manifest|]. intros ?.
    do 3 (apply grg_io_then; [apply stable_on|done|]).
    eapply (rg_bind _ _ _ _ _ (fun _ => placed)); [apply grg_rename|]. intros ?.
    apply grg_io_then; [apply stable_placed|done|]. by apply rg_ret.
  - intros e. eapply rg_conseq; [apply (grg_clean e (fun d r => d = final ∧ placed r))|done|by intros d r _ ?|by intros e' r _ ?; left].
Qed.
End run.

(** ** Properties *)

(** C21: whatever the network and the file system answer, at every await, and so wherever the process is killed, the name of a
    release is as it was or stands for exactly the files of its manifest, each of its size and hash, and the manifest; no other
    name is changed but the partial one, which is gone at the end when it can be removed. *)
Theorem release_staged_whole controlUrl (r0 : Releases) :
  safe (ans := staging_answer) removable (installs (r0 !! final)) elsewhere own_dirs
    (fun _ x r => installs (r0 !! final) r ∧
       match x with
       | Ok d => d = release_id uuid m ∧ r !! partial = None ∧ exists t, r !! d = Some t ∧ whole t
       | Err _ => r !! partial = None ∨ r !! partial = r0 !! partial
       end)
    r0 (stageRelease parse_url JSON_stringify uuid controlUrl m r0).1 (stageRelease parse_url JSON_stringify uuid controlUrl m r0).2.
Proof.
  eapply safe_mono; [|apply (grg_stage (r0 !! final) (r0 !! partial) controlUrl r0 r0); [by left|reflexivity|reflexivity]].
  intros r1 [d|e] r (HI & _ & Hr); split; try done. destruct Hr as [-> [Hp Hf]]. by split_and!.
Qed.
End facts.

(** ** An example: a release of one file is staged, one byte at a write. *)

Definition tiny_answer (w : StagingAsk) : staging_answer w :=
  match w with
  | G_io _ | G_remove => Ok tt
  | G_fetch _ _ => Reached true 200 (Some ([[1; 2]; [3]], None))
  | G_read => tt
  | G_write _ => Ok 1%nat
  end.
Fixpoint play {A} (s : Async.Step (S := Releases) staging_answer A) (r : Releases) : result string A * Releases :=
  match s with
  | Fin x => (x, r)
  | Susp w k => play (k (tiny_answer w) r).1 (k (tiny_answer w) r).2
  end.
#[local] Instance tiny_json : JsonText := {| num_string := fun _ => ""; JSON_parse := fun _ => None |}.
#[local] Instance tiny_host : StageHost := {| Number_of := fun _ => num_nan; sha256_hex := fun c => if bool_decide (c = [1; 2; 3]) then "good" else "bad" |}.
Definition tiny_url (s : string) : option FeedUrl :=
  Some {| fu_protocol := "https:"; fu_username := ""; fu_password := ""; fu_search := ""; fu_hash := ""; fu_pathname := "/" |}.
Definition tiny_release (sha256 : string) : ReleaseManifest :=
  {| rm_sequence := 7; rm_version := "1"; rm_platform := "linux"; rm_arch := "x64"; rm_issuedAt := 0; rm_expiresAt := 9;
     rm_files := [{| rf_path := "swarmlet-node"; rf_bytes := 3; rf_sha256 := sha256 |}]; rm_json := JNull |}.
Definition tiny_run (sha256 : string) : result string string * Releases :=
  let x := stageRelease tiny_url (fun _ => "{}") "u" "https://c" (tiny_release sha256) ∅ in play x.1 x.2.

Example staged : tiny_run "good" = (Ok "7-u", {["7-u" := {["swarmlet-node" := [1; 2; 3]; "manifest.json" := bytes_of "{}"]}]}).
Proof. vm_compute. reflexivity. Qed.
Example not_staged : tiny_run "other" = (Err "release file integrity mismatch: swarmlet-node", ∅).
Proof. vm_compute. reflexivity. Qed.
