(* ===== verification/Supervisor.v ===== *)
(** * Updating the agent (swarmlet/node-agent/supervisor.ts)

    The supervisor starts the agent, restarts it when it exits, and replaces its release: a verified release is staged, the old
    agent drained and stopped under a lease of the control process, the new one tried, and what became of it recorded in a
    durable file before and after.  The loop is [tick]s after [boot]; a crash may happen at any await, and leaves the file.
    The others may change the configuration, end the agent, ask the supervisor to stop, and let time pass.

    The file is replaced by one rename between writing a temporary file and flushing its directory, either of which may fail.
    Staging a release, the lease, the agent's answers and the network are asked for. *)

From S2P Require Import Prelude Async JsNum Json Types Canon Regex Manager Download Release.

Local Open Scope string_scope.
Local Open Scope list_scope.
Local Open Scope Z_scope.

(** The public key of the controller, as far as it is compared *)
Record Jwk := { jk_kty : option string; jk_crv : option string; jk_x : option string }.
Record NodeConfig := { cf_controlUrl : option string; cf_controlPubJwk : option Jwk }.
Definition Binding : Type := option string * option string * option string * option string.
Definition binding (c : NodeConfig) : Binding :=
  (cf_controlUrl c, cf_controlPubJwk c ≫= jk_kty, cf_controlPubJwk c ≫= jk_crv, cf_controlPubJwk c ≫= jk_x).

Record Candidate := { cd_manifest : ReleaseManifest; cd_directory : string; cd_binding : Binding }.
Record Child := { ch_pid : nat; ch_release : option InstalledRelease; ch_exit : option Z }.
(** What an agent's local API says *)
Record Status := { st_pid : option nat; st_nodeId : option string; st_connected : bool; st_sequence : option Z }.

Record Sup := {
  (** the file of the updates, and the variables of [supervise] *)
  sp_disk : option json; sp_state : UpdateState; sp_child : option Child; sp_candidate : option Candidate; sp_stopping : bool;
  sp_switching : bool; sp_nextCheck : Z; sp_crashDelay : Z; sp_startedAt : Z;
  (** the configuration file, the clock, whether a release can be launched, and the processes started so far *)
  sp_config : NodeConfig; sp_now : Z; sp_launch : option InstalledRelease -> bool; sp_pids : nat }.
Definition set_disk v (s : Sup) : Sup :=
  {| sp_disk := v; sp_state := sp_state s; sp_child := sp_child s; sp_candidate := sp_candidate s; sp_stopping := sp_stopping s; sp_switching := sp_switching s;
     sp_nextCheck := sp_nextCheck s; sp_crashDelay := sp_crashDelay s; sp_startedAt := sp_startedAt s; sp_config := sp_config s; sp_now := sp_now s; sp_launch := sp_launch s; sp_pids := sp_pids s |}.
Definition set_state v (s : Sup) : Sup :=
  {| sp_disk := sp_disk s; sp_state := v; sp_child := sp_child s; sp_candidate := sp_candidate s; sp_stopping := sp_stopping s; sp_switching := sp_switching s;
     sp_nextCheck := sp_nextCheck s; sp_crashDelay := sp_crashDelay s; sp_startedAt := sp_startedAt s; sp_config := sp_config s; sp_now := sp_now s; sp_launch := sp_launch s; sp_pids := sp_pids s |}.
Definition set_child v (s : Sup) : Sup :=
  {| sp_disk := sp_disk s; sp_state := sp_state s; sp_child := v; sp_candidate := sp_candidate s; sp_stopping := sp_stopping s; sp_switching := sp_switching s;
     sp_nextCheck := sp_nextCheck s; sp_crashDelay := sp_crashDelay s; sp_startedAt := sp_startedAt s; sp_config := sp_config s; sp_now := sp_now s; sp_launch := sp_launch s; sp_pids := S (sp_pids s) |}.
Definition set_candidate v (s : Sup) : Sup :=
  {| sp_disk := sp_disk s; sp_state := sp_state s; sp_child := sp_child s; sp_candidate := v; sp_stopping := sp_stopping s; sp_switching := sp_switching s;
     sp_nextCheck := sp_nextCheck s; sp_crashDelay := sp_crashDelay s; sp_startedAt := sp_startedAt s; sp_config := sp_config s; sp_now := sp_now s; sp_launch := sp_launch s; sp_pids := sp_pids s |}.
Definition set_stopping v (s : Sup) : Sup :=
  {| sp_disk := sp_disk s; sp_state := sp_state s; sp_child := sp_child s; sp_candidate := sp_candidate s; sp_stopping := v; sp_switching := sp_switching s;
     sp_nextCheck := sp_nextCheck s; sp_crashDelay := sp_crashDelay s; sp_startedAt := sp_startedAt s; sp_config := sp_config s; sp_now := sp_now s; sp_launch := sp_launch s; sp_pids := sp_pids s |}.
Definition set_switching v (s : Sup) : Sup :=
  {| sp_disk := sp_disk s; sp_state := sp_state s; sp_child := sp_child s; sp_candidate := sp_candidate s; sp_stopping := sp_stopping s; sp_switching := v;
     sp_nextCheck := sp_nextCheck s; sp_crashDelay := sp_crashDelay s; sp_startedAt := sp_startedAt s; sp_config := sp_config s; sp_now := sp_now s; sp_launch := sp_launch s; sp_pids := sp_pids s |}.
Definition set_times next delay started (s : Sup) : Sup :=
  {| sp_disk := sp_disk s; sp_state := sp_state s; sp_child := sp_child s; sp_candidate := sp_candidate s; sp_stopping := sp_stopping s; sp_switching := sp_switching s;
     sp_nextCheck := next; sp_crashDelay := delay; sp_startedAt := started; sp_config := sp_config s; sp_now := sp_now s; sp_launch := sp_launch s; sp_pids := sp_pids s |}.

Inductive SupAsk :=
  | S_write (s : UpdateState) | S_sync
  | S_manifest (url : string) | S_stage (m : ReleaseManifest)
  | S_probe | S_sleep (until : Z)
  | S_lease (token : option string)
  | S_ipc (drain : bool) | S_stop | S_prune (s : UpdateState).
Definition sup_answer (q : SupAsk) : Type :=
  match q with
  | S_write _ | S_sync => result string unit
  | S_manifest _ => result string (option string)
  | S_stage _ => result string string
  | S_probe => option Status
  | S_sleep _ | S_prune _ => unit
  | S_lease _ => result string (option Lease)
  | S_ipc _ | S_stop => bool
  end.
Abbreviation SSync := (M Sup string).
Abbreviation Sup_async := (Async.Async (S := Sup) sup_answer).
Definition sup_ask (q : SupAsk) : Sup_async (sup_answer q) := fun m => (Susp q (fun r m => (Fin (Ok r), m)), m).
Definition sup_result {A} (r : result string A) : Sup_async A := fun m => (Fin r, m).

(** [writeUpdateState] *)
Definition writeUpdateState (s : UpdateState) : Sup_async unit :=
  written ← sup_ask (S_write s);
  sup_result written ;;
  lift (mmodify (set_disk (Some (updates_json s)))) ;;
  synced ← sup_ask S_sync;
  sup_result synced.
(** [state = s; await writeUpdateState(statePath, state)] *)
Definition become (s : UpdateState) : Sup_async unit := lift (mmodify (set_state s)) ;; writeUpdateState s.

Definition without_pending (s : UpdateState) : UpdateState :=
  {| us_accepted := us_accepted s; us_active := us_active s; us_previous := us_previous s; us_pending := None |}.
Definition rolled_back (s : UpdateState) : UpdateState :=
  {| us_accepted := us_accepted s; us_active := us_previous s; us_previous := None; us_pending := None |}.
Definition recorded (next : InstalledRelease) (s : UpdateState) : UpdateState :=
  {| us_accepted := ir_sequence next; us_active := us_active s; us_previous := us_previous s; us_pending := Some next |}.
Definition activated (next : InstalledRelease) (s : UpdateState) : UpdateState :=
  {| us_accepted := us_accepted s; us_active := Some next; us_previous := us_active s; us_pending := None |}.

Definition CRASH_MS : Z := 5000.
Definition next_check (m : Sup) (ms : Z) : Sup := set_times (sp_now m + ms) (sp_crashDelay m) (sp_startedAt m) m.

Definition alive (m : Sup) : bool := match sp_child m with Some c => negb (present (ch_exit c)) | None => false end.
Definition spawn (release : option InstalledRelease) : SSync unit :=
  m ← mget;
  if negb (sp_launch m release) then mthrow "cannot launch the agent"
  else mmodify (set_child (Some {| ch_pid := sp_pids m; ch_release := release; ch_exit := None |})).

(** Each failure moves to an older release, the last of which is the bootstrap: three tries are all there can be. *)
Fixpoint spawn_tries (fuel : nat) : Sup_async unit :=
  match fuel with
  | O => athrow "no release is left"
  | S fuel =>
      m ← lift mget;
      if sp_stopping m then mret tt else
      r ← acatch (lift (spawn (us_active (sp_state m))) ;; mret None) (fun e => mret (Some e));
      match r with
      | None => mret tt
      | Some e =>
          match us_active (sp_state m) with
          | None => athrow e
          | Some _ => become (rolled_back (sp_state m)) ;; spawn_tries fuel
          end
      end
  end.
Definition spawnActive : Sup_async unit := spawn_tries 3.

Definition ipc (drain : bool) : Sup_async bool :=
  m ← lift mget; if alive m then sup_ask (S_ipc drain) else mret false.
Definition stopChild : Sup_async bool :=
  m ← lift mget; if alive m then sup_ask S_stop else mret true.

Definition assertBinding (expected : Binding) : SSync unit :=
  m ← mget;
  if bool_decide (binding (sp_config m) = expected) then mret tt
  else mmodify (set_candidate None) ;; mthrow "controller binding changed during update".

Inductive Next := Go_on | Again | Leave.

Section supervisor.
Context `{JsonText} (verifyObject : Jwk -> json -> bool) (JSON_stringify : json -> string).
Context (nodeId platform arch : string).

Definition sequence_of (r : option InstalledRelease) : Z := match r with Some r => ir_sequence r | None => 0 end.
Definition looks_healthy (pid : nat) (release : option InstalledRelease) (need_link : bool) (c : NodeConfig) (v : option Status) : bool :=
  match v with
  | Some v =>
      bool_decide (st_pid v = Some pid) && bool_decide (st_nodeId v = Some nodeId) && bool_decide (st_sequence v = Some (sequence_of release)) &&
      (negb need_link || negb (truthy_json (JStr <$> cf_controlUrl c)) || st_connected v)
  | None => false
  end.

(** Every round ends with a sleep of half a second. *)
Fixpoint health_rounds (fuel : nat) (pid : nat) (release : option InstalledRelease) (deadline : Z) (need_link : bool) : Sup_async bool :=
  match fuel with
  | O => mret false
  | S fuel =>
      m ← lift mget;
      if sp_stopping m || (deadline <=? sp_now m) || negb (alive m) then mret false else
      let cfg := sp_config m in
      v ← sup_ask S_probe;
      if looks_healthy pid release need_link cfg v then mret true else
      m ← lift mget;
      sup_ask (S_sleep (sp_now m + 500)) ;;
      health_rounds fuel pid release deadline need_link
  end.
Definition healthy (pid : nat) (release : option InstalledRelease) (deadline : Z) (need_link : bool) : Sup_async bool :=
  m ← lift mget; health_rounds (S (Z.to_nat ((deadline - sp_now m) / 500 + 1))) pid release deadline need_link.

Definition child_pid (m : Sup) : nat := match sp_child m with Some c => ch_pid c | None => 0 end.

(** [fetchRelease] *)
Definition fetchRelease (url : string) (key : Jwk) : Sup_async (option ReleaseManifest) :=
  raw ← sup_ask (S_manifest url);
  raw ← sup_result raw;
  match raw with
  | None => mret None
  | Some raw =>
      m ← lift mget;
      match verifyRelease verifyObject raw key platform arch (us_accepted (sp_state m)) (sp_now m) with
      | Ok r => mret (Some r)
      | Err Not_new => mret None
      | Err (Invalid e) => athrow e
      end
  end.

(** A release to try, if there is one *)
Definition find_candidate (url : string) (key : Jwk) (authority : Binding) : Sup_async unit :=
  m ← lift mget;
  if present (sp_candidate m) then mret tt else
  manifest ← fetchRelease url key;
  match manifest with
  | None => mret tt
  | Some r =>
      directory ← sup_ask (S_stage r);
      directory ← sup_result directory;
      lift (assertBinding authority) ;;
      lift (mmodify (set_candidate (Some {| cd_manifest := r; cd_directory := directory; cd_binding := authority |})))
  end.

(** The trial of a recorded release: whether it is accepted *)
Definition try_release (next : InstalledRelease) (authority : Binding) (expiresAt : Z) (wasConnected : bool) : Sup_async bool :=
  started ← acatch (lift (assertBinding authority) ;; lift (spawn (Some next)) ;; mret true) (fun _ => mret false);
  if negb started then mret false else
  m ← lift mget;
  acatch (accepted ← healthy (child_pid m) (Some next) (Z.min (expiresAt - 5000) (sp_now m + 90000)) wasConnected;
          acatch (lift (assertBinding authority)) (fun _ => mret tt) ;; mret accepted)
         (fun _ => mret false).

(** The old agent stopped; [Leave] when the supervisor is to stop *)
Definition switch_over (next : InstalledRelease) (authority : Binding) (expiresAt : Z) (wasConnected : bool) : Sup_async Next :=
  accepted ← try_release next authority expiresAt wasConnected;
  m ← lift mget;
  (if accepted && bool_decide (binding (sp_config m) = authority)
   then become (activated next (sp_state m))
   else
     stopped ← stopChild;
     if negb stopped then athrow "unhealthy agent did not stop; awaiting service recovery" else
     m ← lift mget;
     become (without_pending (sp_state m)) ;;
     m ← lift mget;
     if sp_stopping m then mret tt else spawnActive) ;;
  lift (mmodify (set_switching false)) ;;
  m ← lift mget;
  sup_ask (S_prune (sp_state m)) ;;
  mret Go_on.

Definition switch (c : Candidate) (authority : Binding) (expiresAt : Z) (wasConnected : bool) : Sup_async Next :=
  lift (assertBinding authority) ;;
  lift (mmodify (set_switching true)) ;;
  let next := {| ir_directory := cd_directory c; ir_sequence := rm_sequence (cd_manifest c) |} in
  m ← lift mget;
  become (recorded next (sp_state m)) ;;
  acatch (lift (assertBinding authority)) (fun e =>
    m ← lift mget; become (without_pending (sp_state m)) ;; lift (mmodify (set_switching false)) ;; athrow e) ;;
  lift (mmodify (set_candidate None)) ;;
  stopped ← stopChild;
  if negb stopped then athrow "old agent did not stop; retaining previous release" else
  m ← lift mget;
  if sp_stopping m then mret Leave else switch_over next authority expiresAt wasConnected.

(** Under the lease; the drain ends and the lease is given back whatever happens. *)
Definition under_lease (c : Candidate) (authority : Binding) (l : Lease) (wasConnected : bool) : Sup_async Next :=
  r ← acatch (
    x ← (lift (assertBinding authority) ;;
         drained ← ipc true;
         m ← lift mget;
         if drained && (sp_now m <? le_expiresAt l - 30000) && negb (sp_stopping m) then switch c authority (le_expiresAt l) wasConnected else mret Go_on);
    mret (Ok x)) (fun e => mret (Err e));
  ipc false ;;
  sup_ask (S_lease (Some (le_token l))) ;;
  sup_result r.

Definition apply_candidate (key : Jwk) (authority : Binding) (c : Candidate) : Sup_async Next :=
  lift (assertBinding (cd_binding c)) ;;
  m ← lift mget;
  if rm_expiresAt (cd_manifest c) <=? sp_now m then lift (mmodify (set_candidate None)) ;; mret Again else
  match verifyRelease verifyObject (JSON_stringify (rm_json (cd_manifest c))) key platform arch (us_accepted (sp_state m)) (sp_now m) with
  | Err e => lift (mmodify (set_candidate None)) ;; athrow (match e with Not_new => "replayed release sequence" | Invalid w => w end)
  | Ok _ =>
      ok ← healthy (child_pid m) (us_active (sp_state m)) (sp_now m + 2000) false;
      if negb ok then lift (mmodify (fun m => next_check m 30000)) ;; mret Again else
      lift (assertBinding authority) ;;
      status ← sup_ask S_probe;
      let wasConnected := match status with Some v => st_connected v | None => false end in
      lease ← sup_ask (S_lease None);
      lease ← sup_result lease;
      next ← (match lease with Some l => under_lease c authority l wasConnected | None => mret Go_on end);
      match next with
      | Leave => mret Leave
      | _ => lift (mmodify (fun m => if present (sp_candidate m) then next_check m 30000 else m)) ;; mret Go_on
      end
  end.

Definition check_update : Sup_async Next :=
  m ← lift mget;
  let authority := binding (sp_config m) in
  lift (mmodify (fun m => match sp_candidate m with
                          | Some c => if bool_decide (cd_binding c = authority) then m else set_candidate None m
                          | None => m
                          end)) ;;
  match truthy_json (JStr <$> cf_controlUrl (sp_config m)), cf_controlUrl (sp_config m), cf_controlPubJwk (sp_config m) with
  | true, Some url, Some key =>
      find_candidate url key authority ;;
      m ← lift mget;
      match sp_candidate m with
      | Some c => if alive m && negb (sp_stopping m) then apply_candidate key authority c else mret Go_on
      | None => mret Go_on
      end
  | _, _, _ => mret Go_on
  end.

(** The agent is gone: false when the supervisor is done. *)
Definition restart_agent : Sup_async bool :=
  m ← lift mget;
  if match sp_child m with Some c => bool_decide (ch_exit c = Some 0) | None => false end then mret false else
  (if present (us_active (sp_state m)) then become (rolled_back (sp_state m)) else mret tt) ;;
  m ← lift mget;
  let delay := if 60000 <=? sp_now m - sp_startedAt m then CRASH_MS else sp_crashDelay m in
  sup_ask (S_sleep (sp_now m + delay)) ;;
  m ← lift mget;
  lift (mmodify (fun m => set_times (sp_nextCheck m) (Z.min 60000 (delay * 2)) (sp_startedAt m) m)) ;;
  if sp_stopping m then mret false else
  spawnActive ;;
  lift (mmodify (fun m => set_times (sp_nextCheck m) (sp_crashDelay m) (sp_now m) m)) ;;
  mret true.

(** One round of the loop: whether there is another *)
Definition tick : Sup_async bool :=
  m ← lift mget;
  on ← (if alive m then mret true else restart_agent);
  if negb on then mret false else
  m ← lift mget;
  next ← (if sp_now m <? sp_nextCheck m then mret Go_on else
    lift (mmodify (fun m => set_switching false (next_check m 300000))) ;;
    acatch check_update (fun e => m ← lift mget; if sp_switching m then athrow e else mret Go_on : Sup_async Next));
  match next with
  | Leave => mret false
  | Again => mret true
  | Go_on => m ← lift mget; sup_ask (S_sleep (sp_now m + 1000)) ;; mret true
  end.

(** A new process: what the last one left pending is given up. *)
Definition boot : Sup_async unit :=
  m ← lift mget;
  s ← sup_result (readUpdateState (Some <$> sp_disk m));
  lift (mmodify (set_state s)) ;;
  (if present (us_pending s) then become (without_pending s) else mret tt).

Fixpoint ticks (n : nat) : Sup_async unit :=
  match n with
  | O => mret tt
  | S n =>
      m ← lift mget;
      if sp_stopping m then mret tt else
      on ← tick; if (on : bool) then ticks n else mret tt
  end.

(** [n] rounds of a process, and its end *)
Definition supervise (n : nat) : Sup_async unit :=
  boot ;;
  lift (mmodify (fun m => set_times (sp_now m + 30000) CRASH_MS (sp_now m) m)) ;;
  r ← acatch (spawnActive ;; ticks n ;; mret (Ok tt)) (fun e => mret (Err e));
  lift (mmodify (set_stopping true)) ;;
  stopped ← stopChild;
  if negb stopped then athrow "agent shutdown timed out" else sup_result r.
End supervisor.
