(* ===== verification/SupervisorFacts.v ===== *)
(** * What an update may do to a node

    Whatever the network, the agent and the operator do, and wherever the process is killed: the floor of accepted releases
    never sinks, a release is tried at most once and only after that is on disk, it becomes the active one only after its
    agent answered for it, no two agents are started over each other, and the next process can read what this one wrote. *)

From S2P Require Import Prelude Async Rules JsNum Json Types Canon Regex Manager Download Release Supervisor.

Local Open Scope string_scope.
Local Open Scope list_scope.
Local Open Scope Z_scope.

(** ** A weaker invariant *)

Lemma safe_weaken {S W} {ans : W -> Type} (valid : forall w, ans w -> S -> Prop) (I J : S -> Prop) (R G : Moves S) {A} (F : S -> result string A -> S -> Prop) :
  (forall m, I m -> J m) -> (forall m m', I m -> R m m' -> I m') ->
  forall (s : Async.Step (S := S) ans A) m0 m, safe valid I R G F m0 s m -> safe valid J R G F m0 s m.
Proof.
  intros HJ HR s. induction s as [r|w k IH] using step_ind; intros m0 m; cbn; [done|]. intros (HI & HG & H).
  split_and!; [by apply HJ|done|]. intros a m' _ HRm Hv. apply IH, H; [by eapply HR|done..].
Qed.

Section facts.
Context `{JsonText} (verifyObject : Jwk -> json -> bool) (JSON_stringify : json -> string) (nodeId platform arch : string).
(** What an agent was heard to say about itself *)
Context (reported : Status -> Prop).

Definition durable (m : Sup) : UpdateState := match readUpdateState (Some <$> sp_disk m) with Ok d => d | Err _ => fresh_updates end.
Definition readable (m : Sup) : Prop := readUpdateState (Some <$> sp_disk m) = Ok (durable m).

(** The running agent's release is not above the floor on disk. *)
Definition covered (m : Sup) : Prop :=
  forall c r, sp_child m = Some c -> ch_release c = Some r -> ir_sequence r <= us_accepted (durable m).
Definition recoverable (m : Sup) : Prop := readable m ∧ covered m.

(** The agent answered locally as this release of this node. *)
Definition answered_for (r : InstalledRelease) : Prop :=
  exists v pid, reported v ∧ st_pid v = Some pid ∧ st_nodeId v = Some nodeId ∧ st_sequence v = Some (ir_sequence r).

Definition in_service (r : InstalledRelease) (d : UpdateState) : Prop := us_active d = Some r ∨ us_previous d = Some r.
(** How the file may change *)
Definition advances (d d' : UpdateState) : Prop :=
  us_accepted d <= us_accepted d' ∧
  (forall r, us_pending d' = Some r -> us_pending d = Some r ∨ us_accepted d < ir_sequence r) ∧
  (forall r, in_service r d' -> in_service r d ∨ (answered_for r ∧ (us_pending d = Some r ∨ us_accepted d < ir_sequence r))).
Lemma advances_preorder : PreOrder advances.
Proof.
  split; [intros d; split_and!; [lia|auto|auto]|]. intros x y z (H1 & H2 & H3) (H4 & H5 & H6). split_and!; [lia|..].
  - intros r [Hr|Hr]%H5; [by apply H2|right; lia].
  - intros r [Hr|[Hp Hr]]%H6; [by apply H3|]. right. split; [done|]. destruct Hr as [Hr|Hr]; [by apply H2|right; lia].
Qed.
#[local] Existing Instance advances_preorder.

(** What a segment does: the file advances, and an agent is started only when there is none. *)
Definition supervises (m m' : Sup) : Prop :=
  advances (durable m) (durable m') ∧ (sp_child m' = sp_child m ∨ alive m = false).
Lemma supervises_preorder : PreOrder supervises.
Proof.
  split; [split; [reflexivity|by left]|]. intros x y z [H1 H2] [H3 H4]. split; [by etrans|].
  destruct H2 as [H2|H2]; [|by right]. destruct H4 as [H4|H4]; [left; congruence|]. right. unfold alive in *. by rewrite <-H2.
Qed.
Definition steps : Moves Sup := {| moves_rel := supervises; moves_preorder := supervises_preorder |}.

(** The others end agents, change the configuration and what can be launched, ask to stop, and let time pass. *)
Definition same_agent (c c' : option Child) : Prop :=
  match c, c' with
  | None, None => True
  | Some c, Some c' => ch_pid c' = ch_pid c ∧ ch_release c' = ch_release c ∧ forall x, ch_exit c = Some x -> ch_exit c' = Some x
  | _, _ => False
  end.
Definition surroundings (m m' : Sup) : Prop :=
  sp_disk m' = sp_disk m ∧ sp_state m' = sp_state m ∧ sp_candidate m' = sp_candidate m ∧ sp_switching m' = sp_switching m ∧
  same_agent (sp_child m) (sp_child m') ∧ sp_now m <= sp_now m' ∧ (sp_stopping m = true -> sp_stopping m' = true).
Lemma surroundings_preorder : PreOrder surroundings.
Proof.
  split.
  - intros m. split_and!; try done. unfold same_agent. by destruct (sp_child m).
  - intros x y z (H1 & H2 & H3 & H4 & H5 & H6 & H7) (H8 & H9 & H10 & H11 & H12 & H13 & H14). split_and!; try congruence; [|lia|auto].
    unfold same_agent in *. destruct (sp_child x), (sp_child y), (sp_child z); try done. destruct H5 as (? & ? & ?), H12 as (? & ? & ?).
    split_and!; [congruence..|]. auto.
Qed.
#[local] Existing Instance surroundings_preorder.
Definition others : Moves Sup := {| moves_rel := surroundings; moves_preorder := surroundings_preorder |}.

(** Staging names the directory after the release; an agent that was stopped is gone; what is heard was said. *)
Definition answers (q : SupAsk) : sup_answer q -> Sup -> Prop :=
  match q with
  | S_stage r => fun a _ => forall d, a = Ok d -> directory_ok (rm_sequence r) d = true
  | S_probe => fun a _ => forall v, a = Some v -> reported v
  | S_stop => fun a m => a = true -> alive m = false
  | _ => fun _ _ => True
  end.

Lemma durable_same m m' : sp_disk m' = sp_disk m -> durable m' = durable m.
Proof. unfold durable. by intros ->. Qed.
Lemma alive_others m m' : surroundings m m' -> alive m = false -> alive m' = false.
Proof.
  intros (_ & _ & _ & _ & Hc & _) Ha. unfold alive in *. unfold same_agent in Hc. destruct (sp_child m) as [c|], (sp_child m') as [c'|]; try done.
  destruct Hc as (_ & _ & Hx). destruct (ch_exit c) as [x|]; [|done]. by rewrite (Hx x).
Qed.

Definition Inv (m : Sup) : Prop := recoverable m ∧ well_formed (sp_state m).
Lemma Inv_others m m' : Inv m -> others m m' -> Inv m'.
Proof.
  intros [[Hr Hc] Hw] (Hd & Hs & _ & _ & Hch & _). split; [split|by rewrite Hs].
  - unfold readable. rewrite (durable_same m m' Hd), Hd. exact Hr.
  - intros c' r Hc' Hr'. rewrite (durable_same m m' Hd). unfold same_agent in Hch. rewrite Hc' in Hch. destruct (sp_child m) as [c|] eqn:E; [|done].
    destruct Hch as (_ & He & _). apply (Hc c r); [done|congruence].
Qed.

Abbreviation srg := (rg (ans := sup_answer) answers Inv others steps).

(** ** Changes of the memory alone *)

(** The parts of the state that the rest of the process does not touch *)
Definition own (m : Sup) : UpdateState * option Candidate * bool * UpdateState := (sp_state m, sp_candidate m, sp_switching m, durable m).
(** A predicate on them, and on the agent being gone *)
Definition stable (P : Sup -> Prop) : Prop := forall m m', surroundings m m' -> P m -> P m'.

Lemma Inv_same m m' : sp_disk m' = sp_disk m -> sp_child m' = sp_child m -> well_formed (sp_state m') -> Inv m -> Inv m'.
Proof.
  intros Hd Hc Hw [[Hr Hcov] _]. split; [split|done].
  - unfold readable. by rewrite (durable_same m m' Hd), Hd.
  - intros c r. rewrite Hc, (durable_same m m' Hd). apply Hcov.
Qed.
Lemma steps_same m m' : sp_disk m' = sp_disk m -> sp_child m' = sp_child m -> steps m m'.
Proof. intros Hd Hc. split; [rewrite (durable_same m m' Hd); reflexivity|by left]. Qed.

Lemma srg_set (f : Sup -> Sup) (P Q : Sup -> Prop) E :
  (forall m, sp_disk (f m) = sp_disk m ∧ sp_child (f m) = sp_child m) ->
  (forall m, Inv m -> P m -> well_formed (sp_state (f m)) ∧ Q (f m)) ->
  srg P (lift (mmodify f)) (fun _ => Q) E.
Proof.
  intros Hf HQ. apply rg_lift, sspec_modify. intros m HI HP. destruct (Hf m) as [Hd Hc]. destruct (HQ m HI HP) as [Hw Hq].
  split_and!; [by eapply Inv_same|by apply steps_same|done].
Qed.
Lemma srg_ask q P E : stable P -> srg P (sup_ask q) (fun a m => P m ∧ exists m', answers q a m' ∧ surroundings m' m) E.
Proof.
  intros HP m0 m HI HG Hm. cbn. split_and!; [done..|]. intros a m' HI' HR Hv. split_and!; [done|reflexivity|by eapply HP|]. exists m'. split; [done|reflexivity].
Qed.
Lemma srg_asked q P E : stable P -> srg P (sup_ask q) (fun _ => P) E.
Proof. intros HP. eapply rg_conseq; [by apply (srg_ask q P E)|done|by intros a m _ []|done]. Qed.

Lemma stable_and P Q : stable P -> stable Q -> stable (fun m => P m ∧ Q m).
Proof. intros HP HQ m m' HR [H1 H2]. split; [by eapply HP|by eapply HQ]. Qed.
Lemma stable_own (p : UpdateState * option Candidate * bool * UpdateState -> Prop) : stable (fun m => p (own m)).
Proof. intros m m' (Hd & Hs & Hc & Hw & _) Hp. unfold own. by rewrite (durable_same m m' Hd), Hs, Hc, Hw. Qed.
Lemma stable_gone : stable (fun m => alive m = false).
Proof. intros m m'. apply alive_others. Qed.
Lemma stable_true : stable (fun _ => True).
Proof. done. Qed.

(** ** Writing the file *)

(** What a write leaves alone *)
Definition loose (P : Sup -> Prop) : Prop := stable P ∧ forall m d s, P m -> P (set_disk d m) ∧ P (set_state s m).
Lemma loose_and P Q : loose P -> loose Q -> loose (fun m => P m ∧ Q m).
Proof. intros [H1 H2] [H3 H4]. split; [by apply stable_and|]. intros m d s [Hp Hq]. destruct (H2 m d s Hp), (H4 m d s Hq). by split_and!. Qed.
Lemma loose_rest (p : option Candidate * bool -> Prop) : loose (fun m => p (sp_candidate m, sp_switching m)).
Proof. split; [|done]. intros m m' (_ & _ & Hc & Hs & _). by rewrite Hc, Hs. Qed.
Lemma loose_gone : loose (fun m => alive m = false).
Proof. split; [apply stable_gone|done]. Qed.

Lemma srg_write st d (P : Sup -> Prop) : well_formed st -> advances d st -> loose P ->
  srg (fun m => (durable m = d ∧ sp_state m = st) ∧ P m) (writeUpdateState st) (fun _ m => (durable m = st ∧ sp_state m = st) ∧ P m) (fun _ => P).
Proof.
  intros Hw Ha [HPs HPd]. set (A := fun m => (durable m = d ∧ sp_state m = st) ∧ P m). set (B := fun m => (durable m = st ∧ sp_state m = st) ∧ P m).
  assert (stable A) as HA by (apply stable_and; [apply (stable_own (fun o => o.2 = d ∧ o.1.1.1 = st))|done]).
  assert (stable B) as HB by (apply stable_and; [apply (stable_own (fun o => o.2 = st ∧ o.1.1.1 = st))|done]).
  unfold writeUpdateState. eapply (rg_bind _ _ _ _ _ (fun _ => A)); [by apply (srg_asked (S_write st) A)|]. intros [[]|e]; [|apply rg_throw; by intros m _ []].
  eapply (rg_bind _ _ _ _ _ (fun _ => A)); [by apply rg_ret|]. intros ?.
  eapply (rg_bind _ _ _ _ _ (fun _ => B)).
  - apply rg_lift, sspec_modify. intros m [[Hr Hc] Hwf] [[Hd Hs] HP]. pose proof (updates_roundtrip st Hw) as Hrt.
    assert (durable (set_disk (Some (updates_json st)) m) = st) as Hnew by (unfold durable, set_disk; cbn [sp_disk fmap option_fmap option_map]; by rewrite Hrt).
    split_and!; [split; [split|done]|split|].
    + unfold readable. rewrite Hnew. exact Hrt.
    + intros c r Hch Hr'. rewrite Hnew. destruct Ha as (Hacc & _). specialize (Hc c r Hch Hr'). rewrite Hd in Hc. lia.
    + rewrite Hnew, Hd. exact Ha.
    + by left.
    + split; [split; [done|]|by apply HPd]. exact Hs.
  - intros ?. eapply (rg_bind _ _ _ _ _ (fun _ => B)); [by apply (srg_asked S_sync B)|]. intros [[]|e]; [by apply rg_ret|apply rg_throw; by intros m _ []].
Qed.
Lemma srg_become st d (P : Sup -> Prop) : well_formed st -> advances d st -> loose P ->
  srg (fun m => durable m = d ∧ P m) (become st) (fun _ m => (durable m = st ∧ sp_state m = st) ∧ P m) (fun _ => P).
Proof.
  intros Hw Ha HP. unfold become. eapply (rg_bind _ _ _ _ _ (fun _ m => (durable m = d ∧ sp_state m = st) ∧ P m)); [|intros ?; by apply srg_write].
  apply srg_set; [done|]. intros m _ [Hd Hp]. split; [done|]. split; [by split|]. by apply (proj2 HP m None).
Qed.

Lemma advances_rolled d : advances d (rolled_back d).
Proof. split_and!; [cbn; lia|done|]. intros r [Hr|Hr]; [left; by right|done]. Qed.
Lemma advances_unpended d : advances d (without_pending d).
Proof. split_and!; [cbn; lia|done|]. intros r [Hr|Hr]; left; [by left|by right]. Qed.
Lemma advances_recorded next d : us_accepted d < ir_sequence next -> advances d (recorded next d).
Proof. intros Hn. split_and!; [cbn; lia| |]. - intros r [= <-]. by right. - intros r [Hr|Hr]; left; [by left|by right]. Qed.
Lemma advances_activated next d : us_pending d = Some next -> answered_for next -> advances d (activated next d).
Proof.
  intros Hp Ha. split_and!; [cbn; lia|done|]. intros r [Hr|Hr]; cbn in Hr; [|left; by left]. injection Hr as <-. right. split; [done|by left].
Qed.
Lemma wf_rolled d : well_formed d -> well_formed (rolled_back d).
Proof. intros (H1 & H2 & H3 & H4). split; [exact H1|]. split_and!; [exact H3|intros x [=]..]. Qed.
Lemma wf_unpended d : well_formed d -> well_formed (without_pending d).
Proof. intros (H1 & H2 & H3 & H4). split; [exact H1|]. split_and!; [exact H2|exact H3|intros x [=]]. Qed.
Lemma wf_recorded next d : well_formed d -> us_accepted d < ir_sequence next <= MAX_SAFE_INTEGER -> directory_ok (ir_sequence next) (ir_directory next) = true ->
  well_formed (recorded next d).
Proof.
  intros (H1 & H2 & H3 & H4) Hs Hd. split; [cbn; lia|]. split_and!.
  - intros x Hx. destruct (H2 x Hx). split; [cbn; lia|done].
  - intros x Hx. destruct (H3 x Hx). split; [cbn; lia|done].
  - intros x [= <-]. split; [cbn; lia|done].
Qed.
Lemma wf_activated next d : well_formed d -> us_pending d = Some next -> well_formed (activated next d).
Proof. intros (H1 & H2 & H3 & H4) Hp. split; [exact H1|]. split_and!; [intros x [= <-]; by apply H4|exact H2|intros x [=]]. Qed.

(** ** Starting and stopping agents *)

Definition synced (m : Sup) : Prop := durable m = sp_state m.
Definition fits (r : option InstalledRelease) (m : Sup) : Prop := forall x, r = Some x -> ir_sequence x <= us_accepted (durable m).
Lemma fits_active m : Inv m -> synced m -> fits (us_active (sp_state m)) m.
Proof. intros [_ (_ & Ha & _)] Hs x Hx. unfold synced in Hs. rewrite Hs. by apply Ha. Qed.
Lemma fits_pending m : Inv m -> synced m -> fits (us_pending (sp_state m)) m.
Proof. intros [_ (_ & _ & _ & Ha)] Hs x Hx. unfold synced in Hs. rewrite Hs. by apply Ha. Qed.

Lemma srg_spawn r (p : UpdateState * option Candidate * bool * UpdateState -> Prop) :
  srg (fun m => (p (own m) ∧ fits r m) ∧ alive m = false) (lift (spawn r)) (fun _ m => p (own m)) (fun _ m => p (own m) ∧ alive m = false).
Proof.
  apply rg_lift. unfold spawn. apply sspec_get. intros m _ [[Hp Hf] Hg]. destruct (negb (sp_launch m r)).
  - apply sspec_throw. by intros ? _ ->.
  - apply sspec_modify. intros ? [[Hr Hc] Hw] ->. split_and!; [split; [split|done]|split|]; try done.
    + intros c x [= <-] Hx. cbn in Hx. by apply Hf.
    + by right.
Qed.

Lemma srg_stop P : stable P -> srg P stopChild (fun b m => P m ∧ (b = true -> alive m = false)) (fun _ _ => False).
Proof.
  intros HP. unfold stopChild. apply rg_get. intros m _ Hm. destruct (alive m) eqn:Ea.
  - eapply (rg_conseq _ _ _ _ _ P); [apply (srg_ask S_stop P (fun _ _ => False) HP)|by intros ? _ ->| |done].
    intros b m' _ (Hp & m1 & Hb & HR). split; [done|]. intros ->. eapply alive_others; [exact HR|by apply Hb].
  - apply rg_ret. intros ? _ ->. by split.
Qed.
Lemma srg_ipc b P E : stable P -> srg P (ipc b) (fun _ => P) E.
Proof.
  intros HP. unfold ipc. apply rg_get. intros m _ Hm. destruct (alive m); [|apply rg_ret; by intros ? _ ->].
  eapply (rg_conseq _ _ _ _ _ P); [by apply (srg_asked (S_ipc b) P E)|by intros ? _ ->|done..].
Qed.

Lemma looks_answered pid r need c v : looks_healthy nodeId pid (Some r) need c (Some v) = true -> reported v -> answered_for r.
Proof.
  unfold looks_healthy. intros Hl Hv. apply andb_true_iff in Hl as [Hl _]. apply andb_true_iff in Hl as [Hl H3%bool_decide_eq_true].
  apply andb_true_iff in Hl as [H1%bool_decide_eq_true H2%bool_decide_eq_true]. exists v, pid. by split_and!.
Qed.
Lemma srg_health P E r deadline need : stable P -> forall fuel pid,
  srg P (health_rounds nodeId fuel pid r deadline need) (fun b m => P m ∧ (b = true -> forall x, r = Some x -> answered_for x)) E.
Proof.
  intros HP fuel pid. induction fuel as [|fuel IH]; cbn [health_rounds]; [by apply rg_ret|].
  apply rg_get. intros m _ Hm. eapply (rg_conseq _ _ _ _ _ P _ (fun b m => P m ∧ (b = true -> forall x, r = Some x -> answered_for x)) _ E); [|by intros ? _ ->|done..].
  destruct (_ || _ || _); [by apply rg_ret|]. cbv zeta. eapply rg_bind; [apply (srg_ask S_probe P E HP)|]. intros v.
  destruct (looks_healthy nodeId pid r need (sp_config m) v) eqn:El.
  - apply rg_ret. intros m' _ (Hp & m1 & Hv & _). split; [done|]. intros _ x ->. destruct v as [v|]; [|done]. eapply looks_answered; [exact El|by apply Hv].
  - apply rg_get. intros m' _ [Hp _]. eapply (rg_conseq _ _ _ _ _ P _ (fun b m => P m ∧ (b = true -> forall x, r = Some x -> answered_for x)) _ E); [|by intros ? _ ->|done..].
    eapply rg_bind; [by apply (srg_asked (S_sleep _) P E)|]. intros ?. exact IH.
Qed.
Lemma srg_healthy P E pid r deadline need : stable P ->
  srg P (healthy nodeId pid r deadline need) (fun b m => P m ∧ (b = true -> forall x, r = Some x -> answered_for x)) E.
Proof.
  intros HP. unfold healthy. apply rg_get. intros m _ Hm. eapply rg_conseq; [by apply (srg_health P E r deadline need HP)|by intros ? _ ->|done..].
Qed.

(** ** The release that runs *)

(** Memory and file agree, and [q] holds of the floor, the candidate and the flag. *)
Definition in_step (q : Z -> option Candidate -> bool -> Prop) (m : Sup) : Prop :=
  synced m ∧ q (us_accepted (sp_state m)) (sp_candidate m) (sp_switching m).
Lemma stable_in_step q : stable (in_step q).
Proof. exact (stable_own (fun o => o.2 = o.1.1.1 ∧ q (us_accepted o.1.1.1) o.1.1.2 o.1.2)). Qed.
(** What is left of it when a write fails *)
Definition flagged (q : Z -> option Candidate -> bool -> Prop) (_ : string) (m : Sup) : Prop := exists a, q a (sp_candidate m) (sp_switching m).

(** A change of the references under the same floor *)
Lemma srg_change (f : UpdateState -> UpdateState) q (P : Sup -> Prop) m1 :
  (forall d, us_accepted (f d) = us_accepted d) -> (well_formed (sp_state m1) -> well_formed (f (sp_state m1))) -> advances (sp_state m1) (f (sp_state m1)) ->
  Inv m1 -> in_step q m1 -> P m1 -> loose P ->
  srg (fun m => m = m1) (become (f (sp_state m1))) (fun _ m => in_step q m ∧ sp_state m = f (sp_state m1) ∧ P m) (flagged q).
Proof.
  intros Hf Hw Ha [HI Hw1] [Hs Hq] HP Hl.
  set (P' := fun m => q (us_accepted (sp_state m1)) (sp_candidate m) (sp_switching m) ∧ P m).
  assert (loose P') as HL by (apply loose_and; [apply (loose_rest (fun o => q (us_accepted (sp_state m1)) o.1 o.2))|done]).
  eapply (rg_conseq _ _ _ _ _ (fun m => durable m = sp_state m1 ∧ P' m) _ (fun _ m => (durable m = f (sp_state m1) ∧ sp_state m = f (sp_state m1)) ∧ P' m) _ (fun _ => P')).
  - apply srg_become; [by apply Hw|done|done].
  - intros m _ ->. split; [done|]. by split.
  - intros _ m _ [[Hd Hst] [Hq' HP']]. split; [|by split]. split; [unfold synced; congruence|]. by rewrite Hst, Hf.
  - intros e m _ [Hq' _]. by eexists.
Qed.

Lemma srg_spawn_tries q fuel : srg (fun m => in_step q m ∧ alive m = false) (spawn_tries fuel) (fun _ => in_step q) (flagged q).
Proof.
  induction fuel as [|fuel IH]; cbn [spawn_tries]; [apply rg_throw; intros m _ [[_ Hq] _]; by eexists|]. apply rg_get. intros m HI [Hs Hg].
  destruct (sp_stopping m); [apply rg_ret; by intros ? _ ->|]. set (P := fun m' => (in_step q m' ∧ sp_state m' = sp_state m) ∧ alive m' = false).
  eapply (rg_bind _ _ _ _ _ (fun r m' => match r with None => in_step q m' | Some _ => P m' end)).
  - eapply (rg_catch _ _ _ _ _ _ _ (fun _ => P)).
    + eapply (rg_bind _ _ _ _ _ (fun _ => in_step q)); [|intros ?; by apply rg_ret].
      set (p := fun o : UpdateState * option Candidate * bool * UpdateState => (o.2 = o.1.1.1 ∧ q (us_accepted o.1.1.1) o.1.1.2 o.1.2) ∧ o.1.1.1 = sp_state m).
      eapply (rg_conseq _ _ _ _ _ _ _ _ _ _ _ (srg_spawn (us_active (sp_state m)) p)).
      * intros m' _ ->. split; [|exact Hg]. split; [split; [exact Hs|done]|]. apply fits_active; [done|by destruct Hs].
      * intros _ m' _ [Hp _]. exact Hp.
      * intros e m' _ [[Hp1 Hp2] Hg']. split; [split; [exact Hp1|exact Hp2]|exact Hg'].
    + intros e. by apply rg_ret.
  - intros [e|]; [|by apply rg_ret]. destruct (us_active (sp_state m)) as [a|]; [|apply rg_throw; intros m' _ [[[_ Hq] _] _]; by eexists].
    eapply (rg_bind _ _ _ _ _ (fun _ m' => in_step q m' ∧ alive m' = false)); [|intros ?; exact IH].
    intros m0 m' HI' HG [[Hs' Heq] Hg']. rewrite <-Heq.
    eapply (rg_conseq _ _ _ _ _ _ _ _ _ _ _ (srg_change rolled_back q (fun m => alive m = false) m' (fun _ => eq_refl) (wf_rolled _) (advances_rolled _) HI' Hs' Hg' loose_gone)); [done| | |done..].
    + intros _ m2 _ (? & _ & ?). by split.
    + done.
Qed.

(** ** A trial *)

(** After the release is recorded: no candidate, and the pending release is [next] *)
Definition recorded_as (next : InstalledRelease) (m : Sup) : Prop :=
  (synced m ∧ sp_candidate m = None ∧ sp_switching m = true) ∧ us_pending (sp_state m) = Some next.
Definition as_recorded next (o : UpdateState * option Candidate * bool * UpdateState) : Prop :=
  (o.2 = o.1.1.1 ∧ o.1.1.2 = None ∧ o.1.2 = true) ∧ us_pending o.1.1.1 = Some next.
Lemma stable_recorded next : stable (recorded_as next).
Proof. exact (stable_own (as_recorded next)). Qed.

(** [assertBinding] at most forgets the candidate. *)
Lemma srg_binding expected (P : Sup -> Prop) (Q : Sup -> Prop) : (forall m, P m -> Q (set_candidate None m)) ->
  srg P (lift (assertBinding expected)) (fun _ => P) (fun _ => Q).
Proof.
  intros HQ. apply rg_lift. unfold assertBinding. apply sspec_get. intros m HI HP. case_bool_decide; [apply sspec_ret; by intros ? _ ->|].
  eapply (sspec_bind _ _ _ (fun _ => Q)); [|intros ?; by apply sspec_throw]. apply sspec_modify. intros ? HI' ->.
  split_and!; [apply (Inv_same m); [done..|by destruct HI|done]|by apply steps_same|by apply HQ].
Qed.

Lemma srg_try next authority expiresAt connected :
  srg (fun m => recorded_as next m ∧ alive m = false) (try_release nodeId next authority expiresAt connected)
      (fun b m => recorded_as next m ∧ (b = true -> answered_for next)) (fun _ _ => False).
Proof.
  unfold try_release. eapply (rg_bind _ _ _ _ _ (fun _ => recorded_as next)).
  - eapply (rg_catch _ _ _ _ _ _ _ (fun _ => recorded_as next)); [|intros e; by apply rg_ret].
    eapply (rg_bind _ _ _ _ _ (fun _ m => recorded_as next m ∧ alive m = false)).
    { apply (srg_binding authority _ (recorded_as next)). intros m [((Hs & Hc & Hw) & Hp) _]. split; [|done]. by split_and!. }
    intros ?. eapply (rg_bind _ _ _ _ _ (fun _ => recorded_as next)); [|intros ?; by apply rg_ret].
    eapply (rg_conseq _ _ _ _ _ _ _ _ _ _ _ (srg_spawn (Some next) (as_recorded next))).
    + intros m HI [((Hs & Hc & Hw) & Hp) Hg]. split_and!; try done. intros x [= <-]. pose proof (fits_pending m HI Hs) as Hf. by apply Hf.
    + by intros _ m _ Hp.
    + by intros e m _ [Hp _].
  - intros started. destruct started; cbn [negb]; [|by apply rg_ret]. apply rg_get. intros m _ Hm.
    eapply (rg_conseq _ _ _ _ _ (recorded_as next) _ (fun b m => recorded_as next m ∧ (b = true -> answered_for next)) _ (fun _ _ => False)); [|by intros ? _ ->|done..].
    eapply (rg_catch _ _ _ _ _ _ _ (fun _ => recorded_as next)); [|intros e; by apply rg_ret].
    eapply rg_bind; [by apply (srg_healthy (recorded_as next) (fun _ => recorded_as next)), stable_recorded|]. intros b.
    eapply (rg_bind _ _ _ _ _ (fun _ m => recorded_as next m ∧ (b = true -> answered_for next))).
    + eapply (rg_catch _ _ _ _ _ _ _ (fun _ m => recorded_as next m ∧ (b = true -> answered_for next))); [|intros e; by apply rg_ret].
      eapply (rg_conseq _ _ _ _ _ (fun m => recorded_as next m ∧ (b = true -> answered_for next))).
      * apply (srg_binding authority _ (fun m => recorded_as next m ∧ (b = true -> answered_for next))).
        intros m' [((Hs & Hc & Hw) & Hp) Hb]. split; [|done]. split; [|done]. by split_and!.
      * intros m' _ [Hr Hb]. split; [done|]. intros ->. by apply Hb.
      * done.
      * done.
    + intros ?. by apply rg_ret.
Qed.

(** ** The switch *)

(** A candidate that may be recorded over the floor [a] *)
Definition newer (a : Z) (c : Candidate) : Prop :=
  a < rm_sequence (cd_manifest c) <= MAX_SAFE_INTEGER ∧ directory_ok (rm_sequence (cd_manifest c)) (cd_directory c) = true.
Definition q_calm (a : Z) (cand : option Candidate) (switching : bool) : Prop := switching = false ∧ forall c, cand = Some c -> newer a c.
Definition calm : Sup -> Prop := in_step q_calm.
Definition q_busy (a : Z) (cand : option Candidate) (switching : bool) : Prop := cand = None ∧ switching = true.
Lemma stable_calm : stable calm.
Proof. apply stable_in_step. Qed.
(** Unless a switch was under way, a failure leaves things calm. *)
Definition failed_calm (_ : string) (m : Sup) : Prop := sp_switching m = false -> calm m.
Definition next_calm (x : Next) (m : Sup) : Prop := x <> Leave -> calm m.

Lemma calm_forgets m : calm m -> calm (set_candidate None m).
Proof. intros (Hs & Hw & _). split; [exact Hs|]. split; [exact Hw|done]. Qed.
Lemma busy_done m : in_step q_busy m -> calm (set_switching false m).
Proof. intros (Hs & Hc & _). split; [exact Hs|]. split; [done|]. intros c Hc'. cbn in Hc'. congruence. Qed.

Lemma busy_failed e m : Inv m -> flagged q_busy e m -> failed_calm e m.
Proof. intros _ (a & _ & Hw) Hn. congruence. Qed.
Lemma loose_true : loose (fun _ => True).
Proof. by split. Qed.

Lemma srg_switch_over next authority expiresAt connected :
  srg (fun m => recorded_as next m ∧ alive m = false) (switch_over nodeId next authority expiresAt connected) next_calm failed_calm.
Proof.
  unfold switch_over. eapply (rg_bind _ _ _ _ _ (fun b m => recorded_as next m ∧ (b = true -> answered_for next))).
  { eapply rg_conseq; [apply srg_try|done..]. }
  intros accepted. apply rg_get. intros m HI [((Hs & Hc & Hw) & Hp) Ha].
  eapply (rg_bind _ _ _ _ _ (fun _ => in_step q_busy)).
  - destruct (accepted && _) eqn:Eb.
    + apply andb_true_iff in Eb as [-> _].
      eapply (rg_conseq _ _ _ _ _ _ _ _ _ _ _ (srg_change (activated next) q_busy (fun _ => True) m (fun _ => eq_refl) (fun Hwf => wf_activated next _ Hwf Hp)
        (advances_activated next _ Hp (Ha eq_refl)) HI (conj Hs (conj Hc Hw)) Logic.I loose_true)); [done|by intros _ m' _ (? & _)|exact busy_failed].
    + eapply (rg_bind _ _ _ _ _ (fun b m => in_step q_busy m ∧ (b = true -> alive m = false))).
      { eapply rg_conseq; [apply (srg_stop (in_step q_busy)), stable_in_step|intros ? _ ->; exact (conj Hs (conj Hc Hw))|done|done]. }
      intros stopped. destruct stopped; cbn [negb]; [|apply rg_throw; intros m' _ [(_ & _ & Hw') _] Hn; congruence].
      apply rg_get. intros m1 HI1 [Hs1 Hg1].
      eapply (rg_bind _ _ _ _ _ (fun _ m => in_step q_busy m ∧ alive m = false)).
      { eapply (rg_conseq _ _ _ _ _ _ _ _ _ _ _ (srg_change without_pending q_busy (fun m => alive m = false) m1 (fun _ => eq_refl) (wf_unpended _)
          (advances_unpended _) HI1 Hs1 (Hg1 eq_refl) loose_gone)); [done|by intros _ m' _ (? & _ & ?)|exact busy_failed]. }
      intros ?. apply rg_get. intros m2 _ [Hs2 Hg2]. destruct (sp_stopping m2); [apply rg_ret; by intros ? _ ->|].
      eapply rg_conseq; [apply (srg_spawn_tries q_busy 3)|by intros ? _ ->|done|exact busy_failed].
  - intros ?. eapply (rg_bind _ _ _ _ _ (fun _ => calm)).
    { apply srg_set; [done|]. intros m' [_ Hwf] Hb. split; [exact Hwf|by apply busy_done]. }
    intros ?. apply rg_get. intros m' _ Hm'. eapply (rg_bind _ _ _ _ _ (fun _ => calm)).
    { eapply rg_conseq; [apply (srg_asked (S_prune (sp_state m')) calm), stable_calm|by intros ? _ ->|done..]. }
    intros ?. apply rg_ret. by intros m2 _ Hc2 _.
Qed.

Definition next_of (c : Candidate) : InstalledRelease := {| ir_directory := cd_directory c; ir_sequence := rm_sequence (cd_manifest c) |}.

Lemma srg_record c m1 : Inv m1 -> in_step (fun a _ w => w = true ∧ newer a c) m1 ->
  srg (fun m => m = m1) (become (recorded (next_of c) (sp_state m1)))
    (fun _ m => (synced m ∧ sp_switching m = true) ∧ us_pending (sp_state m) = Some (next_of c)) failed_calm.
Proof.
  intros [HI Hwf] (Hs & Hw & [Hseq Hdir]). set (P := fun m => sp_switching m = true).
  assert (loose P) as HL by exact (loose_rest (fun o => o.2 = true)).
  eapply (rg_conseq _ _ _ _ _ (fun m => durable m = sp_state m1 ∧ P m) _
    (fun _ m => (durable m = recorded (next_of c) (sp_state m1) ∧ sp_state m = recorded (next_of c) (sp_state m1)) ∧ P m) _ (fun _ => P)).
  - apply srg_become; [by apply wf_recorded|apply advances_recorded; cbn; lia|done].
  - intros m _ ->. split; [done|exact Hw].
  - intros _ m _ [[Hd Hst] Hw']. split; [split; [unfold synced; congruence|exact Hw']|]. by rewrite Hst.
  - intros e m _ Hw' Hn. unfold P in Hw'. congruence.
Qed.

Lemma srg_switch c authority expiresAt connected :
  srg (in_step (fun a cand w => q_calm a cand w ∧ newer a c)) (switch nodeId c authority expiresAt connected) next_calm failed_calm.
Proof.
  unfold switch. set (P0 := in_step (fun a cand w => q_calm a cand w ∧ newer a c)).
  eapply (rg_bind _ _ _ _ _ (fun _ => P0)).
  { eapply rg_conseq; [apply (srg_binding authority P0 calm)|done|done|by intros e m _ Hm _].
    intros m (Hs & Hq & _). apply calm_forgets. by split. }
  intros ?. eapply (rg_bind _ _ _ _ _ (fun _ => in_step (fun a _ w => w = true ∧ newer a c))).
  { apply srg_set; [done|]. intros m [_ Hwf] (Hs & _ & Hn). split; [exact Hwf|]. split; [exact Hs|by split]. }
  intros ?. cbv zeta. fold (next_of c). apply rg_get. intros m HI Hm.
  set (P1 := fun m => (synced m ∧ sp_switching m = true) ∧ us_pending (sp_state m) = Some (next_of c)).
  eapply (rg_bind _ _ _ _ _ (fun _ => P1)); [by apply srg_record|]. intros ?.
  eapply (rg_bind _ _ _ _ _ (fun _ => P1)).
  { set (P2 := fun m => P1 m ∧ sp_candidate m = None). eapply (rg_catch _ _ _ _ _ _ _ (fun _ => P2)); [apply (srg_binding authority P1 P2); by intros m' [[? ?] ?]|].
    intros e. apply rg_get. intros m1 HI1 [[[Hs1 Hw1] Hp1] Hc1].
    eapply (rg_bind _ _ _ _ _ (fun _ => in_step q_busy)).
    { eapply (rg_conseq _ _ _ _ _ _ _ _ _ _ _ (srg_change without_pending q_busy (fun _ => True) m1 (fun _ => eq_refl) (wf_unpended _)
        (advances_unpended _) HI1 (conj Hs1 (conj Hc1 Hw1)) Logic.I loose_true)); [done|by intros _ m' _ (? & _)|exact busy_failed]. }
    intros ?. eapply (rg_bind _ _ _ _ _ (fun _ => calm)); [|intros ?; apply rg_throw; by intros m' _ Hm' _].
    apply srg_set; [done|]. intros m' [_ Hwf] Hb. split; [exact Hwf|by apply busy_done]. }
  intros ?. eapply (rg_bind _ _ _ _ _ (fun _ => recorded_as (next_of c))).
  { apply srg_set; [done|]. intros m' [_ Hwf] [[Hs Hw] Hp]. split; [exact Hwf|]. by split_and!. }
  intros ?. eapply (rg_bind _ _ _ _ _ (fun b m => recorded_as (next_of c) m ∧ (b = true -> alive m = false))).
  { eapply rg_conseq; [apply (srg_stop (recorded_as (next_of c))), stable_recorded|done|done|done]. }
  intros stopped. destruct stopped; cbn [negb]; [|apply rg_throw; intros m' _ [((_ & _ & Hw') & _) _] Hn; congruence].
  apply rg_get. intros m' _ [Hr Hg]. destruct (sp_stopping m'); [apply rg_ret; by intros ? _ _ []|].
  eapply rg_conseq; [apply srg_switch_over|intros ? _ ->; by split; [|apply Hg]|done|done].
Qed.

(** ** A check for a release *)

Definition calm_with (c : Candidate) : Sup -> Prop := in_step (fun a cand w => q_calm a cand w ∧ newer a c).
Lemma calm_with_calm c m : calm_with c m -> calm m.
Proof. intros (Hs & Hq & _). by split. Qed.
Lemma stable_with c : stable (calm_with c).
Proof. apply stable_in_step. Qed.
Lemma with_forgets c m : calm_with c m -> calm (set_candidate None m).
Proof. intros Hm. by apply calm_forgets, (calm_with_calm c). Qed.
Lemma calm_not_failed e m : calm m -> failed_calm e m.
Proof. by intros Hm _. Qed.
Lemma srg_calm_binding a P : (forall m, P m -> calm m) -> srg P (lift (assertBinding a)) (fun _ => P) failed_calm.
Proof.
  intros HP. eapply rg_conseq; [apply (srg_binding a P calm)|done|done|by intros e m _ Hm _]. intros m Hm. by apply calm_forgets, HP.
Qed.
(** The times of the loop *)
Lemma srg_calm_set f P E : (forall m, P m -> P (f m)) -> (forall m, sp_disk (f m) = sp_disk m ∧ sp_child (f m) = sp_child m) -> (forall m, sp_state (f m) = sp_state m) ->
  srg P (lift (mmodify f)) (fun _ => P) E.
Proof. intros HP Hf Hs. apply srg_set; [done|]. intros m [_ Hwf] Hm. split; [by rewrite Hs|by apply HP]. Qed.

Lemma srg_under_lease c authority l connected :
  srg (calm_with c) (under_lease nodeId c authority l connected) next_calm failed_calm.
Proof.
  unfold under_lease.
  set (Qr := fun (r : result string Next) m => match r with Ok x => next_calm x m | Err e => failed_calm e m end).
  assert (forall r, stable (Qr r)) as HQ.
  { intros [x|e] m m' HR Hm.
    - intros Hx. eapply stable_calm; [exact HR|by apply Hm].
    - intros Hn. assert (sp_switching m' = sp_switching m) as Hw by by destruct HR as (_ & _ & _ & ? & _). eapply stable_calm; [exact HR|apply Hm; congruence]. }
  eapply (rg_bind _ _ _ _ _ Qr).
  - eapply (rg_catch _ _ _ _ _ _ _ failed_calm); [|intros e; by apply rg_ret].
    eapply (rg_bind _ _ _ _ _ next_calm); [|intros x; by apply rg_ret].
    eapply rg_bind; [by apply (srg_calm_binding authority (calm_with c)), calm_with_calm|]. intros ?.
    eapply rg_bind; [by apply (srg_ipc true (calm_with c)), stable_with|]. intros drained. apply rg_get. intros m _ Hm.
    destruct (drained && _ && _).
    + eapply rg_conseq; [apply srg_switch|by intros ? _ ->|done..].
    + apply rg_ret. intros ? _ -> _. by eapply calm_with_calm.
  - intros r. eapply (rg_bind _ _ _ _ _ (fun _ => Qr r)); [by apply srg_ipc|]. intros ?.
    eapply (rg_bind _ _ _ _ _ (fun _ => Qr r)); [by apply (srg_asked (S_lease _))|]. intros ?. apply rg_result. intros m _ Hm. by destruct r.
Qed.

Lemma srg_apply key authority c : srg (calm_with c) (apply_candidate verifyObject JSON_stringify nodeId platform arch key authority c) next_calm failed_calm.
Proof.
  unfold apply_candidate. eapply rg_bind; [by apply (srg_calm_binding _ (calm_with c)), calm_with_calm|]. intros ?. apply rg_get. intros m _ Hm.
  assert (forall A (x : Sup_async A) Q, srg calm x Q failed_calm -> srg (calm_with c) (lift (mmodify (set_candidate None)) ;; x) Q failed_calm) as Hforget.
  { intros A x Q Hx. eapply (rg_bind _ _ _ _ _ (fun _ => calm)); [|intros ?; exact Hx].
    apply srg_set; [done|]. intros m' [_ Hwf] Hm'. split; [exact Hwf|by eapply with_forgets]. }
  apply (rg_conseq _ _ _ _ _ (calm_with c) _ next_calm _ failed_calm); [|by intros ? _ ->|done..].
  destruct (_ <=? _); [apply Hforget, rg_ret; by intros ? _ Hc _|].
  destruct (verifyRelease _ _ _ _ _ _ _) as [r|e]; [|apply Hforget, rg_throw; by intros ? _ Hc _].
  eapply rg_bind; [by apply (srg_healthy (calm_with c) failed_calm), stable_with|]. intros ok.
  apply (rg_conseq _ _ _ _ _ (calm_with c) _ next_calm _ failed_calm); [|by intros ? _ []|done..]. destruct ok; cbn [negb].
  2: { eapply (rg_bind _ _ _ _ _ (fun _ => calm_with c)); [by apply srg_calm_set|]. intros ?. apply rg_ret. intros m' _ Hc _. by eapply calm_with_calm. }
  eapply rg_bind; [by apply (srg_calm_binding _ (calm_with c)), calm_with_calm|]. intros ?.
  eapply rg_bind; [by apply (srg_asked S_probe (calm_with c)), stable_with|]. intros status. cbv zeta.
  eapply rg_bind; [by apply (srg_asked (S_lease None) (calm_with c)), stable_with|]. intros [l|e]; [|apply rg_throw; intros m' _ Hc _; by eapply calm_with_calm].
  eapply (rg_bind _ _ _ _ _ (fun r m => r = l ∧ calm_with c m)); [by apply rg_ret|]. intros l'.
  eapply (rg_bind _ _ _ _ _ next_calm).
  { destruct l' as [l'|]; [eapply rg_conseq; [apply (srg_under_lease c authority l')|by intros ? _ []|done..]|].
    apply rg_ret. intros m' _ [_ Hc] _. by eapply calm_with_calm. }
  intros next. assert (srg calm (lift (mmodify (fun m => if present (sp_candidate m) then next_check m 30000 else m)) ;; mret Go_on) next_calm failed_calm) as Hgo.
  { eapply (rg_bind _ _ _ _ _ (fun _ => calm)); [|intros ?; apply rg_ret; by intros ? _ Hc _].
    apply srg_calm_set; intros m'; destruct (present _); done. }
  destruct next; [eapply rg_conseq; [exact Hgo|intros m' _ Hc; by apply Hc|done..]..|apply rg_ret; by intros ? _ _ []].
Qed.

Lemma srg_find url key authority : srg calm (find_candidate verifyObject platform arch url key authority) (fun _ => calm) failed_calm.
Proof.
  unfold find_candidate, fetchRelease. apply rg_get. intros m _ Hm. apply (rg_conseq _ _ _ _ _ calm _ (fun _ => calm) _ failed_calm); [|by intros ? _ ->|done..].
  destruct (present _); [by apply rg_ret|].
  eapply (rg_bind _ _ _ _ _ (fun r m => calm m ∧ forall x, r = Some x -> us_accepted (sp_state m) < rm_sequence x <= MAX_SAFE_INTEGER)).
  { eapply rg_bind; [by apply (srg_asked (S_manifest url) calm), stable_calm|]. intros [raw|e]; [|apply rg_throw; by intros ? _ Hc _].
    eapply (rg_bind _ _ _ _ _ (fun r m => r = raw ∧ calm m)); [by apply rg_ret|]. intros r. destruct r as [t|]; [|apply rg_ret; by intros ? _ [_ ?]].
    apply rg_get. intros m' _ [_ Hc]. destruct (verifyRelease _ _ _ _ _ _ _) as [x|[|e]] eqn:Ev.
    - apply rg_ret. intros ? _ ->. split; [done|]. intros y [= <-]. apply verified_fields in Ev as (o & v & _ & _ & Hf & _). apply release_fields_ok in Hf as (_ & Hs & _). exact Hs.
    - apply rg_ret. by intros ? _ ->.
    - apply rg_throw. by intros ? _ -> _. }
  intros [x|]; [|apply rg_ret; by intros ? _ [? _]].
  set (P := in_step (fun a cand w => q_calm a cand w ∧ a < rm_sequence x <= MAX_SAFE_INTEGER)).
  assert (stable P) as HP by apply stable_in_step.
  assert (forall m, P m -> calm m) as HPc by (intros m' (Hs & Hq & _); by split).
  apply (rg_conseq _ _ _ _ _ P _ (fun _ => calm) _ failed_calm); [|intros m' _ [(Hs & Hq) Hx]; split; [exact Hs|split; [exact Hq|by apply Hx]]|done..].
  eapply rg_bind; [by apply (srg_ask (S_stage x) P)|]. intros directory. destruct directory as [d|e]; [|apply rg_throw; intros m' _ [Hp _] _; by apply HPc].
  eapply (rg_bind _ _ _ _ _ (fun r m => P m ∧ directory_ok (rm_sequence x) r = true)).
  { apply rg_ret. intros m' _ [Hp (m1 & Hd & _)]. split; [done|by apply Hd]. }
  intros d'. set (P' := fun m => P m ∧ directory_ok (rm_sequence x) d' = true).
  eapply (rg_bind _ _ _ _ _ (fun _ => P')); [apply srg_calm_binding; intros m' [Hp _]; by apply HPc|]. intros ?.
  apply srg_set; [done|]. intros m' [_ Hwf] [(Hs & [Hw Hc] & Hn) Hd]. split; [exact Hwf|]. split; [exact Hs|]. split; [exact Hw|].
  intros c [= <-]. by split.
Qed.

Lemma srg_check : srg calm (check_update verifyObject JSON_stringify nodeId platform arch) next_calm failed_calm.
Proof.
  unfold check_update. apply rg_get. intros m _ Hm. cbv zeta. eapply (rg_conseq _ _ _ _ _ calm _ next_calm _ failed_calm); [|by intros ? _ ->|done..].
  eapply (rg_bind _ _ _ _ _ (fun _ => calm)).
  { apply srg_set; [intros m'; destruct (sp_candidate m'); [by destruct (bool_decide _)|done]|].
    intros m' [_ Hwf] Hc. destruct (sp_candidate m') as [c|]; [|by split]. destruct (bool_decide _); [by split|]. split; [exact Hwf|by apply calm_forgets]. }
  intros ?. destruct (truthy_json _); [|apply rg_ret; by intros ? _ Hc _]. destruct (cf_controlUrl _) as [url|]; [|apply rg_ret; by intros ? _ Hc _].
  destruct (cf_controlPubJwk _) as [key|]; [|apply rg_ret; by intros ? _ Hc _].
  eapply rg_bind; [apply srg_find|]. intros ?. apply rg_get. intros m' _ Hc. destruct (sp_candidate m') as [c|] eqn:Ec; [|apply rg_ret; by intros ? _ -> _].
  destruct (alive m' && _); [|apply rg_ret; by intros ? _ -> _].
  eapply rg_conseq; [apply srg_apply|intros ? _ ->|done..]. destruct Hc as (Hs & Hw & Hn). split; [exact Hs|]. split; [by split|by apply Hn].
Qed.

(** ** The loop *)

Definition goes_on (b : bool) (m : Sup) : Prop := b = true -> calm m.
Definition ended (_ : string) (_ : Sup) : Prop := True.

Lemma srg_restart : srg (fun m => calm m ∧ alive m = false) restart_agent goes_on ended.
Proof.
  unfold restart_agent. apply rg_get. intros m HI [Hc Hg]. destruct (match sp_child m with Some c => _ | None => _ end); [by apply rg_ret|].
  set (P := fun m => calm m ∧ alive m = false). assert (stable P) as HP by (apply stable_and; [apply stable_calm|apply stable_gone]).
  eapply (rg_bind _ _ _ _ _ (fun _ => P)).
  { destruct (present _); [|apply rg_ret; by intros ? _ ->].
    eapply (rg_conseq _ _ _ _ _ _ _ _ _ _ _ (srg_change rolled_back q_calm (fun m => alive m = false) m (fun _ => eq_refl) (wf_rolled _) (advances_rolled _) HI Hc Hg loose_gone)); [done| |done].
    intros _ m' _ (? & _ & ?). by split. }
  intros ?. apply rg_get. intros m1 _ Hm1. cbv zeta. eapply (rg_conseq _ _ _ _ _ P _ goes_on _ ended); [|by intros ? _ ->|done..].
  eapply (rg_bind _ _ _ _ _ (fun _ => P)); [by apply (srg_asked (S_sleep _) P)|]. intros ?. apply rg_get. intros m2 _ Hm2.
  eapply (rg_conseq _ _ _ _ _ P _ goes_on _ ended); [|by intros ? _ ->|done..].
  eapply (rg_bind _ _ _ _ _ (fun _ => P)); [by apply srg_calm_set|]. intros ?. destruct (sp_stopping m2); [by apply rg_ret|].
  eapply (rg_bind _ _ _ _ _ (fun _ => calm)); [eapply rg_conseq; [apply (srg_spawn_tries q_calm 3)|done..]|]. intros ?.
  eapply (rg_bind _ _ _ _ _ (fun _ => calm)); [by apply srg_calm_set|]. intros ?. apply rg_ret. by intros ? _ Hc2 _.
Qed.

Lemma srg_tick : srg calm (tick verifyObject JSON_stringify nodeId platform arch) goes_on ended.
Proof.
  unfold tick. apply rg_get. intros m _ Hm. eapply (rg_bind _ _ _ _ _ goes_on).
  { destruct (alive m) eqn:Ea; [apply rg_ret; by intros ? _ -> _|]. eapply rg_conseq; [apply srg_restart|by intros ? _ ->|done..]. }
  intros on. destruct on; cbn [negb]; [|by apply rg_ret]. apply rg_get. intros m1 _ Hm1.
  eapply (rg_bind _ _ _ _ _ next_calm).
  - destruct (_ <? _); [apply rg_ret; intros ? _ -> _; by apply Hm1|].
    eapply (rg_bind _ _ _ _ _ (fun _ => calm)).
    { apply srg_set; [done|]. intros m' [_ Hwf] ->. destruct (Hm1 eq_refl) as (Hs & _ & Hc). split; [exact Hwf|]. by split. }
    intros ?. eapply (rg_catch _ _ _ _ _ _ _ failed_calm); [eapply rg_conseq; [apply srg_check|done..]|].
    intros e. apply rg_get. intros m' _ Hf. destruct (sp_switching m') eqn:Ew; [by apply rg_throw|]. apply rg_ret. intros ? _ -> _. by apply Hf.
  - intros next. destruct next; [|apply rg_ret; intros m' _ Hc _; by apply Hc|by apply rg_ret].
    apply rg_get. intros m' _ Hc. eapply (rg_conseq _ _ _ _ _ calm _ goes_on _ ended); [|by intros ? _ ->; apply Hc|done..].
    eapply (rg_bind _ _ _ _ _ (fun _ => calm)); [by apply (srg_asked (S_sleep _) calm), stable_calm|]. intros ?. apply rg_ret. by intros ? _ Hc2 _.
Qed.

Lemma srg_ticks n : srg calm (ticks verifyObject JSON_stringify nodeId platform arch n) (fun _ _ => True) ended.
Proof.
  induction n as [|n IH]; cbn [ticks]; [by apply rg_ret|]. apply rg_get. intros m _ Hm. destruct (sp_stopping m); [by apply rg_ret|].
  eapply rg_bind; [eapply rg_conseq; [apply srg_tick|by intros ? _ ->|intros b m' _ Hb; exact Hb|done]|].
  intros on. destruct on; [|by apply rg_ret]. eapply rg_conseq; [exact IH|intros m' _ Hb; by apply Hb|done..].
Qed.

Definition starting (m : Sup) : Prop := (sp_candidate m = None ∧ sp_switching m = false) ∧ alive m = false.
Lemma loose_starting : loose starting.
Proof. apply loose_and; [exact (loose_rest (fun o => o.1 = None ∧ o.2 = false))|apply loose_gone]. Qed.

Lemma srg_boot : srg starting boot (fun _ m => synced m ∧ starting m) ended.
Proof.
  unfold boot. apply rg_get. intros m HI Hst. destruct HI as [[Hr Hcov] Hwf]. unfold readable in Hr. rewrite Hr.
  eapply (rg_bind _ _ _ _ _ (fun s m' => s = durable m ∧ m' = m)); [by apply rg_ret|]. intros s.
  eapply (rg_bind _ _ _ _ _ (fun _ m' => s = durable m ∧ synced m' ∧ sp_state m' = s ∧ starting m')).
  { apply srg_set; [done|]. intros m' _ [-> ->]. split; [by eapply read_well_formed|]. split_and!; try done; by destruct Hst as [[? ?] ?]. }
  intros ?. destruct (present (us_pending s)); [|apply rg_ret; by intros m' _ (_ & ? & _ & ?)].
  intros m0 m1 HI1 HG (_ & Hs1 & <- & Hst1).
  eapply (rg_conseq _ _ _ _ _ (fun m => durable m = sp_state m1 ∧ starting m) _
    (fun _ m => (durable m = without_pending (sp_state m1) ∧ sp_state m = without_pending (sp_state m1)) ∧ starting m) _ (fun _ => starting)).
  - apply srg_become; [by apply wf_unpended; destruct HI1|apply advances_unpended|apply loose_starting].
  - intros m' _ Hm'. exact Hm'.
  - intros _ m' _ [[Hd Hst'] Hstart]. split; [unfold synced; congruence|done].
  - done.
  - exact HI1.
  - exact HG.
  - by split.
Qed.

Lemma srg_supervise n : srg starting (supervise verifyObject JSON_stringify nodeId platform arch n) (fun _ _ => True) ended.
Proof.
  unfold supervise. eapply rg_bind; [apply srg_boot|]. intros ?. set (P := fun m => synced m ∧ starting m).
  eapply (rg_bind _ _ _ _ _ (fun _ => P)); [by apply (srg_calm_set _ P)|]. intros ?.
  eapply (rg_bind _ _ _ _ _ (fun _ _ => True)).
  - eapply (rg_catch _ _ _ _ _ _ _ ended); [|intros e; by apply rg_ret].
    eapply (rg_bind _ _ _ _ _ (fun _ => calm)).
    { eapply rg_conseq; [apply (srg_spawn_tries q_calm 3)| |done..]. intros m _ [Hs [[Hc Hw] Hg]]. split; [|done]. split; [exact Hs|].
      split; [exact Hw|]. intros c Hc'. congruence. }
    intros ?. eapply rg_bind; [apply srg_ticks|]. intros ?. by apply rg_ret.
  - intros r. eapply (rg_bind _ _ _ _ _ (fun _ _ => True)); [apply srg_set; [done|]; intros m [_ Hwf] _; by split|]. intros ?.
    eapply rg_bind; [eapply rg_conseq; [apply (srg_stop (fun _ => True)), stable_true|done..]|]. intros stopped.
    destruct stopped; cbn [negb]; [|by apply rg_throw]. apply rg_result. intros m _ _. by destruct r.
Qed.

(** ** Properties *)

(** A process just started over a file: its memory is empty, and it has started nothing. *)
Definition just_started (disk : option json) (config : NodeConfig) (t : Z) (launch : option InstalledRelease -> bool) : Sup :=
  {| sp_disk := disk; sp_state := fresh_updates; sp_child := None; sp_candidate := None; sp_stopping := false; sp_switching := false;
     sp_nextCheck := 0; sp_crashDelay := CRASH_MS; sp_startedAt := 0; sp_config := config; sp_now := t; sp_launch := launch; sp_pids := 0 |}.

(** C12: from a first start, and again from whatever a process killed at any await leaves on disk, whatever the network, the
    controller, the agents and the operator do: at every await the file can be read by the next process and covers the release
    that runs; between awaits the floor of accepted releases never sinks, a release becomes pending only above the floor, enters
    service only if it was pending and its own agent answered for it, and no agent is started while another runs.  A new
    process starts with no agent of the killed one left. *)
Theorem updates_recoverable :
  readable (just_started None {| cf_controlUrl := None; cf_controlPubJwk := None |} 0 (fun _ => true)) ∧
  forall m, recoverable m -> forall config t launch n, let m' := just_started (sp_disk m) config t launch in
    safe answers recoverable others steps (fun m0 _ m1 => recoverable m1 ∧ steps m0 m1) m'
      (supervise verifyObject JSON_stringify nodeId platform arch n m').1 (supervise verifyObject JSON_stringify nodeId platform arch n m').2.
Proof.
  split; [done|]. intros m [Hr _] config t launch n m'.
  assert (Inv m') as HI.
  { split; [split|].
    - unfold readable. rewrite (durable_same m m') by done. exact Hr.
    - intros c r Hc. done.
    - by eapply (read_well_formed None). }
  apply (safe_weaken answers Inv recoverable); [by intros ? []|apply Inv_others|].
  eapply safe_mono; [|apply (srg_supervise n m' m'); [done|reflexivity|done]]. by intros m0 r m1 ([? _] & ? & _).
Qed.
End facts.

(** ** Examples *)

Section drive.
Context (f : forall w : SupAsk, Sup -> sup_answer w) (after : SupAsk -> Sup -> Sup).
Fixpoint drive {A} (s : Async.Step (S := Sup) sup_answer A) (m : Sup) : result string A * Sup :=
  match s with
  | Fin r => (r, m)
  | Susp w k => let m' := after w m in drive (k (f w m') m').1 (k (f w m') m').2
  end.

Definition run_in {A} (x : Async.Async (S := Sup) sup_answer A) (m : Sup) : result string A * Sup := drive (x m).1 (x m).2.
Lemma run_get {B} (g : Sup -> Sup_async B) m : run_in (lift mget ≫= g) m = run_in (g m) m.
Proof. done. Qed.
Lemma run_ask {B} w (g : sup_answer w -> Sup_async B) m : run_in (sup_ask w ≫= g) m = run_in (g (f w (after w m))) (after w m).
Proof. done. Qed.

Lemma run_round nodeId pid release deadline need_link n m :
  run_in (health_rounds nodeId (S n) pid release deadline need_link) m =
  if sp_stopping m || (deadline <=? sp_now m) || negb (alive m) then (Ok false, m) else
  let m1 := after S_probe m in
  if looks_healthy nodeId pid release need_link (sp_config m) (f S_probe m1) then (Ok true, m1)
  else run_in (health_rounds nodeId n pid release deadline need_link) (after (S_sleep (sp_now m1 + 500)) m1).
Proof.
  cbn [health_rounds]. rewrite run_get. cbv beta zeta. destruct (_ || _ || _); [done|]. rewrite (run_ask S_probe).
  by destruct (looks_healthy _ _ _ _ _ _).
Qed.
(** The rounds of [healthy] suffice where time does not run backwards and a sleep takes its time: more make no difference. *)
Lemma health_rounds_enough nodeId pid release deadline need_link k n : forall m,
  (forall w m', sp_now m' <= sp_now (after w m')) -> (forall t m', t <= sp_now (after (S_sleep t) m')) ->
  deadline <= sp_now m + 500 * Z.of_nat n ->
  run_in (health_rounds nodeId (S n + k) pid release deadline need_link) m = run_in (health_rounds nodeId (S n) pid release deadline need_link) m.
Proof.
  induction n as [|n IH]; intros m Hon Hsleep Hd; cbn [Nat.add]; rewrite !run_round;
    (destruct (sp_stopping m || (deadline <=? sp_now m) || negb (alive m)) eqn:E; [done|]); cbv zeta.
  - destruct (Z.leb_spec deadline (sp_now m)); [by rewrite orb_true_r in E|lia].
  - destruct (looks_healthy _ _ _ _ _ _); [done|]. apply (IH _ Hon Hsleep).
    pose proof (Hon S_probe m). pose proof (Hsleep (sp_now (after S_probe m) + 500) (after S_probe m)). lia.
Qed.
Lemma healthy_enough nodeId pid release deadline need_link k m :
  (forall w m', sp_now m' <= sp_now (after w m')) -> (forall t m', t <= sp_now (after (S_sleep t) m')) ->
  run_in (healthy nodeId pid release deadline need_link) m =
  run_in (health_rounds nodeId (S (Z.to_nat ((deadline - sp_now m) / 500 + 1)) + k) pid release deadline need_link) m.
Proof.
  intros Hon Hsleep. unfold healthy. rewrite run_get. symmetry. apply health_rounds_enough; [done..|].
  pose proof (Z_div_mod_eq_full (deadline - sp_now m) 500). pose proof (Z.mod_pos_bound (deadline - sp_now m) 500). lia.
Qed.
End drive.

Definition demo_uuid : string := "00000000-0000-0000-0000-000000000000".
Definition demo_manifest : json :=
  JObj [("kind", JStr "swarmlet-release"); ("schema", JNum (num_of_Z 1)); ("sequence", JNum (num_of_Z 7)); ("version", JStr "1.0");
        ("platform", JStr "linux"); ("arch", JStr "x64"); ("issuedAt", JNum (num_of_Z 0)); ("expiresAt", JNum (num_of_Z 1000000));
        ("files", JArr [JObj [("path", JStr "swarmlet-node"); ("bytes", JNum (num_of_Z 9)); ("sha256", JStr (String.concat "" (repeat "a" 64)))]]);
        ("signature", JStr (String.concat "" (repeat "s" 88)))].
#[local] Instance demo_json : JsonText := {| num_string := fun _ => ""; JSON_parse := fun _ => Some demo_manifest |}.
Definition demo_release : InstalledRelease := {| ir_directory := "7-" +:+ demo_uuid; ir_sequence := 7 |}.
Definition demo_config : NodeConfig := {| cf_controlUrl := Some "http://c"; cf_controlPubJwk := Some {| jk_kty := None; jk_crv := None; jk_x := Some "k" |} |}.
Definition demo_status (m : Sup) : option Status :=
  match sp_child m with
  | Some c => Some {| st_pid := Some (ch_pid c); st_nodeId := Some "n1"; st_connected := true; st_sequence := Some (sequence_of (ch_release c)) |}
  | None => None
  end.
Definition demo_answer (w : SupAsk) (m : Sup) : sup_answer w :=
  match w with
  | S_write _ | S_sync => Ok tt
  | S_manifest _ => Ok (Some "text")
  | S_stage _ => Ok ("7-" +:+ demo_uuid)
  | S_probe => demo_status m
  | S_sleep _ | S_prune _ => tt
  | S_lease _ => Ok (Some {| le_nodeId := "n1"; le_token := demo_uuid; le_expiresAt := sp_now m + 120000 |})
  | S_ipc _ | S_stop => true
  end.
(** Sleeping takes its time; a stopped agent exits. *)
Definition demo_after (w : SupAsk) (m : Sup) : Sup :=
  match w, sp_child m with
  | S_sleep t, _ =>
      {| sp_disk := sp_disk m; sp_state := sp_state m; sp_child := sp_child m; sp_candidate := sp_candidate m; sp_stopping := sp_stopping m; sp_switching := sp_switching m;
         sp_nextCheck := sp_nextCheck m; sp_crashDelay := sp_crashDelay m; sp_startedAt := sp_startedAt m; sp_config := sp_config m; sp_now := t; sp_launch := sp_launch m; sp_pids := sp_pids m |}
  | S_stop, Some c =>
      {| sp_disk := sp_disk m; sp_state := sp_state m; sp_child := Some {| ch_pid := ch_pid c; ch_release := ch_release c; ch_exit := Some 0 |}; sp_candidate := sp_candidate m;
         sp_stopping := sp_stopping m; sp_switching := sp_switching m;
         sp_nextCheck := sp_nextCheck m; sp_crashDelay := sp_crashDelay m; sp_startedAt := sp_startedAt m; sp_config := sp_config m; sp_now := sp_now m; sp_launch := sp_launch m; sp_pids := sp_pids m |}
  | _, _ => m
  end.
Definition demo_start : Sup := just_started None demo_config 0 (fun _ => true).
Definition demo_run (n : nat) : result string unit * Sup :=
  drive demo_answer demo_after (supervise (fun _ _ => true) (fun _ => "") "n1" "linux" "x64" n demo_start).1
    (supervise (fun _ _ => true) (fun _ => "") "n1" "linux" "x64" n demo_start).2.

(** The release is installed within forty rounds, and another process may be started over what is on disk then. *)
Lemma updates_recoverable_witness :
  us_active (durable (demo_run 40).2) = Some demo_release ∧ us_accepted (durable (demo_run 40).2) = 7 ∧
  let m' := just_started (sp_disk demo_start) demo_config 5 (fun _ => true) in
  safe (answers (fun _ => True)) recoverable others (steps "n1" (fun _ => True)) (fun m0 _ m1 => recoverable m1 ∧ steps "n1" (fun _ => True) m0 m1) m'
    (supervise (fun _ _ => true) (fun _ => "") "n1" "linux" "x64" 40 m').1 (supervise (fun _ _ => true) (fun _ => "") "n1" "linux" "x64" 40 m').2.
Proof.
  split; [vm_compute; reflexivity|]. split; [vm_compute; reflexivity|].
  apply (proj2 (updates_recoverable (fun _ _ => true) (fun _ => "") "n1" "linux" "x64" (fun _ => True)) demo_start).
  split; [reflexivity|]. intros c r Hc. discriminate Hc.
Defined.
