(* ===== verification/Nat.v ===== *)
(** * Asking the gateway for a port (swarmlet/node-agent/nat.ts)

    A node behind a router asks it for a mapping to its data listener.  What the tools of the host, the network and the gateway
    answer arrives at awaits, where the other calls of the same mapper may run: a timer renews the mapping and the agent stops
    it.  Text is a list of UTF-16 code units, so the expressions of the code are read unit by unit; URLs are parsed by a
    parameter. *)

From S2P Require Import Prelude Async Traces JsNum Json Canon Utf8 StageExecution Sse.

Local Open Scope string_scope.
Local Open Scope list_scope.
Local Open Scope Z_scope.

Definition Text : Type := list Z.
#[export] Instance Text_eq : EqDecision Text := _.
Definition lit (s : string) : Text := utf16 (bytes_of s).
Definition decimal (z : Z) : Text := lit (pretty z).

(** ** Looking at text *)

Definition fold_case (c : Z) : Z := if (65 <=? c) && (c <=? 90) then c + 32 else c.
Fixpoint strip (ci : bool) (p s : Text) : option Text :=
  match p, s with
  | [], _ => Some s
  | a :: p, b :: s => if (if ci then fold_case a =? fold_case b else a =? b) then strip ci p s else None
  | _ :: _, [] => None
  end.
(** What follows the first occurrence *)
Fixpoint after_first (ci : bool) (p s : Text) : option Text :=
  match strip ci p s with
  | Some rest => Some rest
  | None => match s with [] => None | _ :: s => after_first ci p s end
  end.
(** What precedes the first occurrence, and what follows it *)
Fixpoint split_first (p s : Text) : option (Text * Text) :=
  match strip true p s with
  | Some rest => Some ([], rest)
  | None => match s with [] => None | c :: s => x ← split_first p s; Some (c :: x.1, x.2) end
  end.
Definition includes (p s : Text) : bool := present (after_first true p s).
Definition trim_units (s : Text) : Text := rev (skip_white (rev (skip_white s))).
Fixpoint word (s : Text) : Text := match s with c :: s => if is_white c then [] else c :: word s | [] => [] end.
(** [(\S+)] *)
Definition some_word (s : Text) : option Text := match word s with [] => None | w => Some w end.
Definition line_end (c : Z) : bool := (c =? 10) || (c =? 13) || (c =? 8232) || (c =? 8233).
(** The first line at whose start [f] finds something *)
Fixpoint at_lines {A} (f : Text -> option A) (start : bool) (s : Text) : option A :=
  match (if start then f s else None) with
  | Some a => Some a
  | None => match s with [] => None | c :: s => at_lines f (line_end c) s end
  end.
Definition digit (c : Z) : bool := (48 <=? c) && (c <=? 57).
Definition digits (s : Text) : bool := negb (bool_decide (s = [])) && forallb digit s.
Definition digits_value (s : Text) : Z := foldl (fun n c => n * 10 + (c - 48)) 0 s.
Fixpoint split_dots (s : Text) : list Text :=
  match s with
  | [] => [[]]
  | c :: s => if c =? 46 then [] :: split_dots s else match split_dots s with w :: ws => (c :: w) :: ws | [] => [[c]] end
  end.
(** [/^\d+\.\d+\.\d+\.\d+$/] *)
Definition dotted_quad (s : Text) : bool := (length (split_dots s) =? 4)%nat && forallb digits (split_dots s).

Definition parseTag (xml : Text) (tag : string) : option Text :=
  rest ← after_first true (lit ("<" +:+ tag +:+ ">")) xml;
  x ← split_first (lit ("</" +:+ tag +:+ ">")) rest;
  Some (trim_units x.1).
(** The blocks of [/<service>([\s\S]*?)<\/service>/gi] *)
Fixpoint service_blocks (fuel : nat) (xml : Text) : list Text :=
  match fuel with
  | O => []
  | S fuel =>
      match after_first true (lit "<service>") xml ≫= split_first (lit "</service>") with
      | Some (block, rest) => block :: service_blocks fuel rest
      | None => []
      end
  end.
Definition soapErrorCode (xml : Text) : option Z :=
  code ← match parseTag xml "errorCode" with Some c => Some c | None => parseTag xml "UPnPErrorCode" end;
  if digits code then Some (digits_value code) else None.
Definition escape_unit (c : Z) : Text :=
  if c =? 38 then lit "&amp;" else if c =? 60 then lit "&lt;" else if c =? 62 then lit "&gt;" else if c =? 34 then lit "&quot;" else [c].
Definition escapeXml (v : Text) : Text := v ≫= escape_unit.

(** The hash looks at the first unit of every character. *)
Fixpoint port_hash (h : Z) (s : Text) : Z :=
  match s with
  | [] => h
  | c :: s' =>
      let h := Z.lxor ((h * 33) mod 2 ^ 32) c mod 2 ^ 32 in
      match s' with
      | d :: s'' => if (55296 <=? c) && (c <=? 56319) && (56320 <=? d) && (d <=? 57343) then port_hash h s'' else port_hash h s'
      | [] => h
      end
  end.
Definition portFor (nodeId : Text) (dataPort : Z) : Z :=
  let port := 40000 + port_hash 5381 nodeId mod 20000 in
  if port =? dataPort then port + 1 else port.

Inductive Platform := darwin | linux | other_platform.
Record NatRoute := { ro_gateway : Text; ro_iface : option Text }.
(** The word after the first occurrence that one follows *)
Fixpoint word_after (p s : Text) : option Text :=
  match strip false p s ≫= some_word with
  | Some w => Some w
  | None => match s with [] => None | _ :: s => word_after p s end
  end.
(** The route in what the tool of the platform prints *)
Definition defaultRoute (p : Platform) (stdout : Text) : option NatRoute :=
  match p with
  | darwin =>
      let field name := at_lines (fun s => strip false (lit name) (skip_white s) ≫= fun s => some_word (skip_white s)) true stdout in
      gw ← field "gateway:"; Some {| ro_gateway := gw; ro_iface := field "interface:" |}
  | linux =>
      gw ← word_after (lit "default via ") stdout; Some {| ro_gateway := gw; ro_iface := word_after (lit "dev ") stdout |}
  | other_platform => None
  end.

Record Address := { ad_v4 : bool; ad_internal : bool; ad_address : Text }.
Definition interfaceIpv4 (interfaces : list (Text * list Address)) (iface : option Text) : option Text :=
  name ← iface;
  if bool_decide (name = []) then None else
  entry ← List.find (fun e => bool_decide (e.1 = name)) interfaces;
  ad_address <$> List.find (fun a => ad_v4 a && negb (ad_internal a)) entry.2.

(** ** The gateway *)

Record Url := { url_protocol : Text; url_hostname : Text; url_href : Text }.
Record Igd := { ig_controlUrl : Text; ig_serviceType : Text; ig_gateway : Text }.
Record Endpoint := { ep_host : Text; ep_port : Z }.
Definition LEASE_SECONDS : Z := 3600.

(** What the discovery socket receives until its timeout *)
Inductive SsdpEvent := Datagram (text : Text) | Socket_error.
Inductive NatAsk :=
  | N_route
  | N_search (gateway : Text)
  | N_describe (location : Text)
  | N_soap (igd : Igd) (action : string) (args : Text).
Definition nat_answer (q : NatAsk) : Type :=
  match q with N_route => option Text | N_search _ => list SsdpEvent | N_describe _ | N_soap _ _ _ => option Text end.

Record Nat := {
  nm_igd : option Igd; nm_mapped : option Endpoint; nm_timer : bool; nm_stopped : bool; nm_internalIp : option Text; nm_log : list string;
  (** the interfaces of the host *)
  nm_interfaces : list (Text * list Address) }.
Definition newNat (interfaces : list (Text * list Address)) : Nat :=
  {| nm_igd := None; nm_mapped := None; nm_timer := false; nm_stopped := false; nm_internalIp := None; nm_log := []; nm_interfaces := interfaces |}.
Definition set_internal v (m : Nat) : Nat :=
  {| nm_igd := nm_igd m; nm_mapped := nm_mapped m; nm_timer := nm_timer m; nm_stopped := nm_stopped m; nm_internalIp := Some v; nm_log := nm_log m; nm_interfaces := nm_interfaces m |}.
Definition set_igd v (m : Nat) : Nat :=
  {| nm_igd := Some v; nm_mapped := nm_mapped m; nm_timer := nm_timer m; nm_stopped := nm_stopped m; nm_internalIp := nm_internalIp m; nm_log := nm_log m; nm_interfaces := nm_interfaces m |}.
Definition set_mapped v (m : Nat) : Nat :=
  {| nm_igd := nm_igd m; nm_mapped := v; nm_timer := nm_timer m; nm_stopped := nm_stopped m; nm_internalIp := nm_internalIp m; nm_log := nm_log m; nm_interfaces := nm_interfaces m |}.
Definition set_timer v (m : Nat) : Nat :=
  {| nm_igd := nm_igd m; nm_mapped := nm_mapped m; nm_timer := v; nm_stopped := nm_stopped m; nm_internalIp := nm_internalIp m; nm_log := nm_log m; nm_interfaces := nm_interfaces m |}.
Definition set_stopped (m : Nat) : Nat :=
  {| nm_igd := nm_igd m; nm_mapped := nm_mapped m; nm_timer := nm_timer m; nm_stopped := true; nm_internalIp := nm_internalIp m; nm_log := nm_log m; nm_interfaces := nm_interfaces m |}.
Definition add_note v (m : Nat) : Nat :=
  {| nm_igd := nm_igd m; nm_mapped := nm_mapped m; nm_timer := nm_timer m; nm_stopped := nm_stopped m; nm_internalIp := nm_internalIp m; nm_log := nm_log m ++ [v]; nm_interfaces := nm_interfaces m |}.

Abbreviation NSync := (M Nat string).
Abbreviation Mapping := (Async.Async (S := Nat) nat_answer).
Definition nat_ask (q : NatAsk) : Mapping (nat_answer q) := fun m => (Susp q (fun r m => (Fin (Ok r), m)), m).
Definition note (line : string) : NSync unit := mmodify (add_note line).

Section mapper.
Context (new_url : Text -> option Text -> option Url) (platform : Platform) (nodeId : Text) (dataPort : Z).

Definition locationHost (location : Text) : option Text :=
  u ← new_url location None;
  if bool_decide (url_protocol u = lit "http:") then Some (url_hostname u) else None.
Definition isTrustedLocation (location gateway : Text) : bool := bool_decide (locationHost location = Some gateway).

(** [/^location:\s*(\S+)/im] *)
Definition location_of (text : Text) : option Text :=
  at_lines (fun s => strip true (lit "location:") s ≫= fun s => some_word (skip_white s)) true text.
Fixpoint discoverIgd (gateway : Text) (events : list SsdpEvent) : option Text :=
  match events with
  | [] | Socket_error :: _ => None
  | Datagram text :: events =>
      match location_of text with
      | Some l => if isTrustedLocation l gateway then Some l else discoverIgd gateway events
      | None => discoverIgd gateway events
      end
  end.

(** One block: the service when it is usable, or a URL that does not parse, which ends the search *)
Definition usable_service (block : Text) (base : Text) (gateway : Text) : result unit (option Igd) :=
  match parseTag block "serviceType", parseTag block "controlURL" with
  | Some serviceType, Some controlUrl =>
      if bool_decide (serviceType = []) || bool_decide (controlUrl = []) ||
         negb (includes (lit "WANIPConnection") serviceType || includes (lit "WANPPPConnection") serviceType) then Ok None else
      match new_url controlUrl (Some base) with
      | None => Err tt
      | Some u =>
          if bool_decide (url_protocol u = lit "http:") && bool_decide (url_hostname u = gateway)
          then Ok (Some {| ig_controlUrl := url_href u; ig_serviceType := serviceType; ig_gateway := gateway |}) else Ok None
      end
  | _, _ => Ok None
  end.
Fixpoint first_service (blocks : list Text) (base gateway : Text) : option Igd :=
  match blocks with
  | [] => None
  | b :: blocks =>
      match usable_service b base gateway with
      | Ok (Some igd) => Some igd
      | Ok None => first_service blocks base gateway
      | Err _ => None
      end
  end.
Definition igd_of (location gateway xml : Text) : option Igd :=
  let base := match parseTag xml "URLBase" with Some (c :: b) => c :: b | _ => location end in
  first_service (service_blocks (length xml) xml) base gateway.
Definition resolveIgd (location gateway : Text) : Mapping (option Igd) :=
  xml ← nat_ask (N_describe location);
  mret (xml ≫= igd_of location gateway).

Definition ip_of (xml : Text) : option Text :=
  ip ← parseTag xml "NewExternalIPAddress";
  if dotted_quad ip && negb (bool_decide (ip = lit "0.0.0.0")) then Some ip else None.
Definition externalIp (igd : Igd) : Mapping (option Text) :=
  xml ← nat_ask (N_soap igd "GetExternalIPAddress" []);
  mret (xml ≫= ip_of).

Definition mappingArgs (externalPort : Z) (internalClient : Text) : Text :=
  lit "<NewRemoteHost></NewRemoteHost>" ++
  lit "<NewExternalPort>" ++ decimal externalPort ++ lit "</NewExternalPort>" ++
  lit "<NewProtocol>TCP</NewProtocol>" ++
  lit "<NewInternalPort>" ++ decimal dataPort ++ lit "</NewInternalPort>" ++
  lit "<NewInternalClient>" ++ escapeXml internalClient ++ lit "</NewInternalClient>" ++
  lit "<NewEnabled>1</NewEnabled>" ++
  lit "<NewPortMappingDescription>" ++ escapeXml (lit "swarmlet-" ++ take 12 nodeId) ++ lit "</NewPortMappingDescription>" ++
  lit "<NewLeaseDuration>" ++ decimal LEASE_SECONDS ++ lit "</NewLeaseDuration>".
Definition unmappingArgs (externalPort : Z) : Text :=
  lit "<NewRemoteHost></NewRemoteHost><NewExternalPort>" ++ decimal externalPort ++ lit "</NewExternalPort><NewProtocol>TCP</NewProtocol>".
Definition deleteMapping (igd : Igd) (externalPort : Z) : Mapping unit :=
  nat_ask (N_soap igd "DeletePortMapping" (unmappingArgs externalPort)) ;; mret tt.

Definition accepted (xml : Text) : bool := includes (lit "<u:AddPortMappingResponse") xml.
(** Once more after what the gateway held under the port was deleted *)
Definition addMapping (igd : Igd) (externalPort : Z) (internalClient : Text) : Mapping bool :=
  xml ← nat_ask (N_soap igd "AddPortMapping" (mappingArgs externalPort internalClient));
  match xml with
  | None => mret false
  | Some xml =>
      if accepted xml then mret true else
      if bool_decide (soapErrorCode xml = Some 718) then
        deleteMapping igd externalPort ;;
        retry ← nat_ask (N_soap igd "AddPortMapping" (mappingArgs externalPort internalClient));
        mret (match retry with Some xml => accepted xml | None => false end)
      else mret false
  end.

Fixpoint try_ports (igd : Igd) (internalIp host : Text) (ports : list Z) : Mapping unit :=
  match ports with
  | [] => lift (note "nat: gateway refused every candidate port")
  | p :: ports =>
      ok ← addMapping igd p internalIp;
      if (ok : bool) then
        lift (mmodify (set_mapped (Some {| ep_host := host; ep_port := p |})) ;; note "nat: mapping established" ;; mmodify (set_timer true))
      else try_ports igd internalIp host ports
  end.

Definition start : Mapping unit :=
  stdout ← nat_ask N_route;
  match stdout ≫= defaultRoute platform with
  | None => lift (note "nat: no default route, mapping skipped")
  | Some route =>
      m ← lift mget;
      match interfaceIpv4 (nm_interfaces m) (ro_iface route) with
      | None => lift (note "nat: no IPv4 on the default interface, mapping skipped")
      | Some internalIp =>
          lift (mmodify (set_internal internalIp)) ;;
          events ← nat_ask (N_search (ro_gateway route));
          match discoverIgd (ro_gateway route) events with
          | None => lift (note "nat: no gateway IGD answered discovery")
          | Some location =>
              igd ← resolveIgd location (ro_gateway route);
              match igd with
              | None => lift (note "nat: gateway has no usable WAN connection service")
              | Some igd =>
                  lift (mmodify (set_igd igd)) ;;
                  host ← externalIp igd;
                  match host with
                  | None => lift (note "nat: gateway did not report an external address")
                  | Some host => let first := portFor nodeId dataPort in try_ports igd internalIp host [first; first + 1; first + 2]
                  end
              end
          end
      end
  end.

Definition renew : Mapping unit :=
  m ← lift mget;
  match nm_stopped m, nm_igd m, nm_mapped m, nm_internalIp m with
  | false, Some igd, Some e, Some internalIp =>
      host ← externalIp igd;
      match host with
      | None => mret tt
      | Some _ =>
          m ← lift mget;
          match nm_igd m, nm_mapped m, nm_internalIp m with
          | Some igd, Some e, Some internalIp => addMapping igd (ep_port e) internalIp ;; mret tt
          | _, _, _ => athrow "undefined is not an object (evaluating 'this.mapped.port')"
          end
      end
  | _, _, _, _ => mret tt
  end.

Definition endpoints : NSync (list Endpoint) := mgets (fun m => option_list (nm_mapped m)).

Definition stop : Mapping unit :=
  lift (mmodify set_stopped ;; mmodify (set_timer false)) ;;
  m ← lift mget;
  (match nm_igd m, nm_mapped m with Some igd, Some e => deleteMapping igd (ep_port e) | _, _ => mret tt end) ;;
  lift (mmodify (set_mapped None)).
End mapper.

(** ** What the port mapping asks for

    Whatever the network answers, every request goes to the default gateway, a mapping leads only to the data listener on the
    interface of the default route, and an endpoint is published only after the gateway accepted it.  The last part shows what
    calls that overlap can leave behind. *)

Section facts.
Context (new_url : Text -> option Text -> option Url) (platform : Platform) (nodeId : Text) (dataPort : Z).

(** A URL that was parsed to one on the gateway, over plain HTTP *)
Definition on_gateway (gateway href : Text) : Prop :=
  exists text base u, new_url text (Some base) = Some u ∧ url_protocol u = lit "http:" ∧ url_hostname u = gateway ∧ href = url_href u.
Definition asks_for (action : string) (args : Text) (ip : Text) (ports : list Z) : Prop :=
  action = "GetExternalIPAddress" ∧ args = [] ∨
  exists p, p ∈ ports ∧ (action = "DeletePortMapping" ∧ args = unmappingArgs p ∨ action = "AddPortMapping" ∧ args = mappingArgs nodeId dataPort p ip).
Definition candidates : list Z := [portFor nodeId dataPort; portFor nodeId dataPort + 1; portFor nodeId dataPort + 2].

(** What may be asked, once the route and the address of its interface are known *)
Definition within (gateway ip : Text) (e : Event nat_answer) : Prop :=
  match ev_ask e with
  | N_route => False
  | N_search g => g = gateway
  | N_describe l => isTrustedLocation new_url l gateway = true
  | N_soap igd action args => on_gateway gateway (ig_controlUrl igd) ∧ asks_for action args ip candidates
  end.
(** The last thing that was asked: the gateway accepted the mapping; and it told the address before. *)
Definition established (ip : Text) (e : Endpoint) (l : list (Event nat_answer)) : Prop :=
  exists igd l' xml x, l = l' ++ [Ev (ans := nat_answer) (N_soap igd "AddPortMapping" (mappingArgs nodeId dataPort (ep_port e) ip)) (Some xml)] ∧
    accepted xml = true ∧ Ev (ans := nat_answer) (N_soap igd "GetExternalIPAddress" []) (Some x) ∈ l' ∧ ip_of x = Some (ep_host e).

(** The other calls renew or stop. *)
Definition others (m m' : Nat) : Prop :=
  nm_interfaces m' = nm_interfaces m ∧ (nm_mapped m' = nm_mapped m ∨ nm_mapped m' = None).
Definition any_answer (tr : list (Event nat_answer)) (w : NatAsk) (a : nat_answer w) : Prop := True.
Abbreviation nat_hoare := (hoare any_answer others).

Lemma usable_on_gateway block base gateway igd : usable_service new_url block base gateway = Ok (Some igd) -> on_gateway gateway (ig_controlUrl igd).
Proof.
  unfold usable_service. destruct (parseTag block "serviceType") as [st|]; [|done]. destruct (parseTag block "controlURL") as [cu|]; [|done].
  destruct (_ || _); [done|]. destruct (new_url cu (Some base)) as [u|] eqn:Eu; [|done].
  destruct (bool_decide (url_protocol u = _)) eqn:E1; [|done]. destruct (bool_decide (url_hostname u = _)) eqn:E2; [|done].
  apply bool_decide_eq_true in E1, E2. intros [= <-]. by exists cu, base, u.
Qed.
Lemma first_on_gateway blocks base gateway igd : first_service new_url blocks base gateway = Some igd -> on_gateway gateway (ig_controlUrl igd).
Proof.
  induction blocks as [|b blocks IH]; [done|]. cbn. destruct (usable_service new_url b base gateway) as [[i|]|] eqn:E; [|done..].
  intros [= <-]. by eapply usable_on_gateway.
Qed.
Lemma discovered_trusted gateway events l : discoverIgd new_url gateway events = Some l -> isTrustedLocation new_url l gateway = true.
Proof.
  induction events as [|[text|] events IH]; [done| |done]. cbn. destruct (location_of text) as [l'|]; [|done].
  destruct (isTrustedLocation new_url l' gateway) eqn:E; [by intros [= <-]|done].
Qed.

(** ** After the route is known *)

Section known.
Context (stdout : option Text) (gateway ip : Text).
Definition At (X : list (Event nat_answer) -> Prop) (tr : list (Event nat_answer)) (m : Nat) : Prop :=
  exists l, tr = Ev (ans := nat_answer) N_route stdout :: l ∧ Forall (within gateway ip) l ∧ nm_mapped m = None ∧ X l.
Definition done_ (tr : list (Event nat_answer)) (m : Nat) : Prop :=
  exists l, tr = Ev (ans := nat_answer) N_route stdout :: l ∧ Forall (within gateway ip) l ∧
    forall e, nm_mapped m = Some e -> ep_port e ∈ candidates ∧ established ip e l.
Definition never (_ : string) (_ : list (Event nat_answer)) (_ : Nat) : Prop := False.

Lemma at_ask w X (Y : nat_answer w -> list (Event nat_answer) -> Prop) :
  (forall a, within gateway ip (Ev w a)) -> (forall a l, X l -> Y a (l ++ [Ev w a])) ->
  nat_hoare (At X) (nat_ask w) (fun a => At (Y a)) never.
Proof.
  intros Hw HY. apply hoare_ask. intros a tr m m' (l & -> & Hl & Hm & HX) [_ Ho] _. exists (l ++ [Ev w a]). split_and!; [done| |..].
  - apply Forall_app. split; [done|by constructor].
  - by destruct Ho; congruence.
  - by apply HY.
Qed.
Lemma at_lift f X : (forall m, nm_mapped (f m) = nm_mapped m) -> nat_hoare (At X) (lift (mmodify f)) (fun _ => At X) never.
Proof. intros Hf. apply hoare_lift. intros tr m (l & -> & Hl & Hm & HX). exists l. by rewrite Hf. Qed.
Lemma at_note line X : nat_hoare (At X) (lift (note line)) (fun _ => done_) never.
Proof. apply hoare_lift. intros tr m (l & -> & Hl & Hm & HX). exists l. split_and!; [done..|]. intros e He. cbn in He. congruence. Qed.

Section igd.
Context (igd : Igd) (Higd : on_gateway gateway (ig_controlUrl igd)).

Definition knows (host : Text) (l : list (Event nat_answer)) : Prop :=
  exists x, Ev (ans := nat_answer) (N_soap igd "GetExternalIPAddress" []) (Some x) ∈ l ∧ ip_of x = Some host.
Lemma knows_more host l e : knows host l -> knows host (l ++ [e]).
Proof. intros (x & Hx & Hi). exists x. rewrite elem_of_app. auto. Qed.

Lemma at_external : nat_hoare (At (fun _ => True)) (externalIp igd) (fun host => At (fun l => match host with Some h => knows h l | None => True end)) never.
Proof.
  unfold externalIp. eapply hoare_bind.
  - apply (at_ask (N_soap igd "GetExternalIPAddress" []) _ (fun a l => Ev (ans := nat_answer) (N_soap igd "GetExternalIPAddress" []) a ∈ l)).
    + intros a. split; [done|by left].
    + intros a l _. rewrite elem_of_app, list_elem_of_singleton. auto.
  - intros xml. apply hoare_ret. intros tr m (l & -> & Hl & Hm & Hx). exists l. split_and!; [done..|].
    destruct xml as [x|]; [|done]. cbn. destruct (ip_of x) eqn:E; [by exists x|done].
Qed.

Section port.
Context (host : Text) (p : Z) (Hp : p ∈ candidates).
(** The last answer accepted the mapping of the port. *)
Definition mapped_last (l : list (Event nat_answer)) : Prop :=
  exists l' xml, l = l' ++ [Ev (ans := nat_answer) (N_soap igd "AddPortMapping" (mappingArgs nodeId dataPort p ip)) (Some xml)] ∧ accepted xml = true ∧ knows host l'.

Lemma at_add_ask : nat_hoare (At (knows host)) (nat_ask (N_soap igd "AddPortMapping" (mappingArgs nodeId dataPort p ip)))
  (fun a => At (fun l => knows host l ∧ forall xml, a = Some xml -> accepted xml = true -> mapped_last l)) never.
Proof.
  apply at_ask.
  - intros a. split; [done|]. right. exists p. auto.
  - intros a l Hl. split; [by apply knows_more|]. intros xml -> Hx. by exists l, xml.
Qed.
Lemma at_add : nat_hoare (At (knows host)) (addMapping nodeId dataPort igd p ip)
  (fun ok => At (fun l => knows host l ∧ (ok = true -> mapped_last l))) never.
Proof.
  unfold addMapping. eapply hoare_bind; [apply at_add_ask|]. intros [xml|].
  2: { apply hoare_ret. intros tr m (l & -> & Hl & Hm & Hk & _). exists l. by split_and!. }
  destruct (accepted xml) eqn:Ea.
  { apply hoare_ret. intros tr m (l & -> & Hl & Hm & Hk & Hx). exists l. split_and!; [done..|]. intros _. by apply (Hx xml). }
  apply hoare_if; intros _.
  2: { apply hoare_ret. intros tr m (l & -> & Hl & Hm & Hk & _). exists l. by split_and!. }
  eapply (hoare_bind _ _ _ (fun _ => At (knows host))).
  - unfold deleteMapping. eapply (hoare_bind _ _ _ (fun _ => At (knows host))); [|intros ?; by apply hoare_ret].
    eapply hoare_weaken; [apply (at_ask (N_soap igd "DeletePortMapping" (unmappingArgs p)) (knows host) (fun _ => knows host))| |done..].
    + intros a. split; [done|]. right. exists p. auto.
    + intros a l. apply knows_more.
    + intros tr m (l & -> & Hl & Hm & Hk & _). by exists l.
  - intros ?. eapply hoare_bind; [apply at_add_ask|]. intros retry. apply hoare_ret.
    intros tr m (l & -> & Hl & Hm & Hk & Hx). exists l. split_and!; [done..|]. destruct retry as [x|]; [|done]. by apply Hx.
Qed.
End port.

Lemma at_ports host ports : (forall p, p ∈ ports -> p ∈ candidates) ->
  nat_hoare (At (knows host)) (try_ports nodeId dataPort igd ip host ports) (fun _ => done_) never.
Proof.
  induction ports as [|p ports IH]; intros Hp; cbn [try_ports]; [apply at_note|].
  eapply hoare_bind; [apply (at_add host p); apply Hp; by left|]. intros [].
  - apply hoare_lift. intros tr m (l & -> & Hl & Hm & Hk & Hx). exists l. split_and!; [done..|]. intros e [= <-].
    split; [apply Hp; by left|]. destruct (Hx eq_refl) as (l' & xml & -> & Ha & x & Hin & Hip). by exists igd, l', xml, x.
  - eapply hoare_weaken; [apply IH; intros q Hq; apply Hp; by right| |done..]. intros tr m (l & -> & Hl & Hm & Hk & _). by exists l.
Qed.
End igd.

Lemma at_known : nat_hoare (At (fun _ => True))
  (lift (mmodify (set_internal ip)) ;;
   events ← nat_ask (N_search gateway);
   match discoverIgd new_url gateway events with
   | None => lift (note "nat: no gateway IGD answered discovery")
   | Some location =>
       igd ← resolveIgd new_url location gateway;
       match igd with
       | None => lift (note "nat: gateway has no usable WAN connection service")
       | Some igd =>
           lift (mmodify (set_igd igd)) ;;
           host ← externalIp igd;
           match host with
           | None => lift (note "nat: gateway did not report an external address")
           | Some host => let first := portFor nodeId dataPort in try_ports nodeId dataPort igd ip host [first; first + 1; first + 2]
           end
       end
   end) (fun _ => done_) never.
Proof.
  eapply (hoare_bind _ _ _ (fun _ => At (fun _ => True))).
  { by apply at_lift. }
  intros ?. eapply (hoare_bind _ _ _ (fun _ => At (fun _ => True))); [by apply at_ask|]. intros events.
  destruct (discoverIgd new_url gateway events) as [location|] eqn:El; [|apply at_note]. apply discovered_trusted in El.
  unfold resolveIgd. eapply (hoare_bind _ _ _ (fun igd => fun tr m => At (fun _ => True) tr m ∧ forall i, igd = Some i -> on_gateway gateway (ig_controlUrl i))).
  - eapply (hoare_bind _ _ _ (fun _ => At (fun _ => True))); [by apply at_ask|]. intros xml. apply hoare_ret. intros tr m Hm. split; [done|].
    intros i Hi. destruct xml as [x|]; [|done]. by eapply first_on_gateway.
  - intros [igd|]; [|eapply hoare_weaken; [by apply (at_note _ (fun _ => True))|by intros tr m []|done..]].
    intros tr m [Hm Hi]. specialize (Hi igd eq_refl). revert tr m Hm.
    change (nat_hoare (At (fun _ => True)) (lift (mmodify (set_igd igd)) ;; host ← externalIp igd;
      match host with
      | None => lift (note "nat: gateway did not report an external address")
      | Some host => let first := portFor nodeId dataPort in try_ports nodeId dataPort igd ip host [first; first + 1; first + 2]
      end) (fun _ => done_) never).
    eapply (hoare_bind _ _ _ (fun _ => At (fun _ => True))); [by apply at_lift|]. intros ?.
    eapply hoare_bind; [by apply at_external|]. intros [host|]; [|eapply at_note]. by apply at_ports.
Qed.
End known.

(** ** Renewing *)

(** The others may stop the mapper meanwhile. *)
Definition stops (m m' : Nat) : Prop :=
  nm_igd m' = nm_igd m ∧ nm_internalIp m' = nm_internalIp m ∧ (nm_mapped m' = nm_mapped m ∨ nm_mapped m' = None).
(** What a renewal may ask *)
Definition renewal (igd : Igd) (ip : Text) (port : Z) (e : Event nat_answer) : Prop :=
  match ev_ask e with N_soap i action args => i = igd ∧ asks_for action args ip [port] | _ => False end.
Definition same_mapping (igd : Igd) (ip : Text) (e : Endpoint) (m : Nat) : Prop :=
  nm_igd m = Some igd ∧ nm_internalIp m = Some ip ∧ (nm_mapped m = Some e ∨ nm_mapped m = None).

Section renewing.
Context (igd : Igd) (ip : Text) (e : Endpoint).
Definition renewing (tr : list (Event nat_answer)) (m : Nat) : Prop := Forall (renewal igd ip (ep_port e)) tr ∧ same_mapping igd ip e m.
Definition cut_short (_ : string) (tr : list (Event nat_answer)) (m : Nat) : Prop := renewing tr m ∧ nm_mapped m = None.

Lemma renew_ask w : (forall a, renewal igd ip (ep_port e) (Ev w a)) -> hoare any_answer stops renewing (nat_ask w) (fun _ => renewing) cut_short.
Proof.
  intros Hw. apply hoare_ask. intros a tr m m' [Ht (Hi & Hip & Hm)] (Ei & Eip & Ho) _. split.
  - apply Forall_app. split; [done|by constructor].
  - unfold same_mapping. rewrite Ei, Eip. split_and!; [done..|]. destruct Ho as [-> | ->]; auto.
Qed.
Lemma renew_add : hoare any_answer stops renewing (addMapping nodeId dataPort igd (ep_port e) ip) (fun _ => renewing) cut_short.
Proof.
  assert (hoare any_answer stops renewing (nat_ask (N_soap igd "AddPortMapping" (mappingArgs nodeId dataPort (ep_port e) ip))) (fun _ => renewing) cut_short) as Hadd.
  { apply renew_ask. intros a. split; [done|]. right. exists (ep_port e). split; [by left|]. by right. }
  unfold addMapping. eapply hoare_bind; [exact Hadd|]. intros [xml|]; [|by apply hoare_ret].
  apply hoare_if; intros _; [by apply hoare_ret|]. apply hoare_if; intros _; [|by apply hoare_ret].
  eapply (hoare_bind _ _ _ (fun _ => renewing)).
  - unfold deleteMapping. eapply (hoare_bind _ _ _ (fun _ => renewing)); [|intros ?; by apply hoare_ret]. apply renew_ask. intros a. split; [done|].
    right. exists (ep_port e). split; [by left|]. by left.
  - intros ?. eapply hoare_bind; [exact Hadd|]. intros ?. by apply hoare_ret.
Qed.
Lemma renew_triple : hoare any_answer stops (fun tr m => tr = [] ∧ same_mapping igd ip e m) (renew nodeId dataPort) (fun _ => renewing) cut_short.
Proof.
  unfold renew. intros tr m [-> Hm]. rewrite async_get. assert (renewing [] m) as Hr by by split. revert Hr. destruct Hm as (Hi & Hip & Hm). rewrite Hi, Hip.
  destruct (nm_stopped m); [by intros ?|]. destruct (nm_mapped m) as [e'|] eqn:Ee; [|by intros ?].
  assert (e' = e) as -> by (destruct Hm; congruence). clear Hi Hip Hm Ee. intros Hr.
  refine ((_ : hoare any_answer stops renewing _ (fun _ => renewing) cut_short) [] m Hr).
  eapply (hoare_bind _ _ _ (fun _ => renewing)).
  - unfold externalIp. eapply (hoare_bind _ _ _ (fun _ => renewing)); [|intros ?; by apply hoare_ret]. apply renew_ask. intros a. split; [done|by left].
  - intros [host|]; [|by apply hoare_ret]. intros tr m1 Hm1. rewrite async_get. pose proof Hm1 as [_ (Hi & Hip & Hmap)]. rewrite Hi, Hip.
    destruct (nm_mapped m1) as [e1|] eqn:Ee; [|by split].
    assert (e1 = e) as -> by (destruct Hmap; congruence).
    refine ((_ : hoare any_answer stops renewing _ (fun _ => renewing) cut_short) tr m1 Hm1).
    eapply hoare_bind; [apply renew_add|]. intros ?. by apply hoare_ret.
Qed.
End renewing.

(** ** Properties *)

Lemma portFor_bounds : 40000 <= portFor nodeId dataPort <= 60000 ∧ portFor nodeId dataPort <> dataPort.
Proof.
  unfold portFor. pose proof (Z.mod_pos_bound (port_hash 5381 nodeId) 20000 eq_refl). cbv zeta.
  destruct (Z.eqb_spec (40000 + port_hash 5381 nodeId mod 20000) dataPort); lia.
Qed.

(** C22: whatever the host, the network and the gateway answer, a start asks the tool for the default route and, from then on, only
    that gateway: discovery answers are taken only if they point to it, and every call goes to a URL on it over plain HTTP.
    It asks only for mappings of the listener's port, at the address of the interface of the route, under one of three
    ports derived from the node's id, and an endpoint is published only when the last answer accepted its mapping and the
    gateway told its address.  A renewal asks the same gateway for the same mapping, and fails only when it was stopped
    meanwhile. *)
Theorem mapping_stays_on_gateway :
  (40000 <= portFor nodeId dataPort <= 60000 ∧ portFor nodeId dataPort <> dataPort) ∧
  (forall m l r m', nm_mapped m = None -> plays any_answer others [] (start new_url platform nodeId dataPort m).1 (start new_url platform nodeId dataPort m).2 l r m' ->
     r = Ok tt ∧ exists stdout rest, l = Ev (ans := nat_answer) N_route stdout :: rest ∧
       ((rest = [] ∧ nm_mapped m' = None) ∨
        exists route ip, stdout ≫= defaultRoute platform = Some route ∧ interfaceIpv4 (nm_interfaces m) (ro_iface route) = Some ip ∧
          Forall (within (ro_gateway route) ip) rest ∧
          forall e, nm_mapped m' = Some e -> ep_port e ∈ candidates ∧ established ip e rest)) ∧
  (forall igd ip e m l r m', same_mapping igd ip e m -> plays any_answer stops [] (renew nodeId dataPort m).1 (renew nodeId dataPort m).2 l r m' ->
     Forall (renewal igd ip (ep_port e)) l ∧ match r with Ok _ => True | Err _ => nm_mapped m' = None end).
Proof.
  split_and!; [by apply portFor_bounds..| |].
  - intros m l r m' Hm Hp.
    set (Q := fun tr m' => exists stdout rest, tr = Ev (ans := nat_answer) N_route stdout :: rest ∧
       ((rest = [] ∧ nm_mapped m' = None) ∨
        exists route ip, stdout ≫= defaultRoute platform = Some route ∧ interfaceIpv4 (nm_interfaces m) (ro_iface route) = Some ip ∧
          Forall (within (ro_gateway route) ip) rest ∧ forall e, nm_mapped m' = Some e -> ep_port e ∈ candidates ∧ established ip e rest)).
    assert (nat_hoare (fun tr m1 => tr = [] ∧ m1 = m) (start new_url platform nodeId dataPort) (fun _ => Q) never) as Hs.
    { unfold start. eapply (hoare_bind _ _ _ (fun a tr m1 => tr = [Ev (ans := nat_answer) N_route a] ∧ nm_mapped m1 = None ∧ nm_interfaces m1 = nm_interfaces m)).
      - apply hoare_ask. intros a tr m0 m1 [-> ->] [Hi Ho] _. split_and!; [done|by destruct Ho; congruence|done].
      - intros stdout. destruct (stdout ≫= defaultRoute platform) as [route|] eqn:Er.
        2: { apply hoare_lift. intros tr m1 (-> & Hn & _). exists stdout, []. split; [done|]. by left. }
        intros tr m1 (-> & Hn & Hi). rewrite async_get, Hi. destruct (interfaceIpv4 (nm_interfaces m) (ro_iface route)) as [ip|] eqn:Eip.
        + eapply wp_mono; [|apply (at_known stdout (ro_gateway route) ip [Ev (ans := nat_answer) N_route stdout] m1)].
          * intros tr' [[]|e] m2; [|done]. intros (rest & -> & Hf & He). exists stdout, rest. split; [done|]. right. by exists route, ip.
          * exists []. by split_and!.
        + cbn. exists stdout, []. split; [done|]. by left. }
    pose proof (hoare_plays _ _ _ _ _ _ [] m l r m' Hs (conj eq_refl eq_refl) Hp) as Hq. destruct r as [[]|]; [|done]. split; [done|exact Hq].
  - intros igd ip e m l r m' Hm Hp.
    pose proof (hoare_plays _ _ _ _ _ _ [] m l r m' (renew_triple igd ip e) (conj eq_refl Hm) Hp) as Hq.
    destruct r as [[]|]; cbn in Hq; [by destruct Hq|]. by destruct Hq as [[? _] ?].
Qed.
End facts.

(** ** Examples *)

(** One gateway, which answers everything; every URL that is asked for lies on it. *)
Definition home : Text := lit "10.0.0.1".
Definition home_url (t : Text) (_ : option Text) : option Url := Some {| url_protocol := lit "http:"; url_hostname := home; url_href := t |}.
Definition home_answer (q : NatAsk) : nat_answer q :=
  match q with
  | N_route => Some (lit "default via 10.0.0.1 dev eth0 proto dhcp")
  | N_search _ => [Datagram (lit ("HTTP/1.1 200 OK" +:+ String (Ascii.ascii_of_nat 10) "LOCATION: http://10.0.0.1/igd.xml"))]
  | N_describe _ => Some (lit "<Service><serviceType>urn:WANIPConnection:1</serviceType><controlURL>/ctl</controlURL></Service>")
  | N_soap _ "GetExternalIPAddress" _ => Some (lit "<NewExternalIPAddress> 203.0.113.9 </NewExternalIPAddress>")
  | N_soap _ _ _ => Some (lit "<u:AddPortMappingResponse/>")
  end.
Definition eth0 : list (Text * list Address) := [(lit "eth0", [{| ad_v4 := true; ad_internal := false; ad_address := lit "10.0.0.7" |}])].
Definition home_start := start home_url linux (lit "node") 4000 (newNat eth0).
Definition home_run := run (fun _ => home_answer) [] home_start.1 home_start.2.

Lemma mapping_stays_on_gateway_witness :
  exists e, nm_mapped home_run.2 = Some e ∧ ep_host e = lit "203.0.113.9" ∧ ep_port e ∈ candidates (lit "node") 4000.
Proof.
  destruct (mapping_stays_on_gateway home_url linux (lit "node") 4000) as (_ & Hstart & _).
  destruct (Hstart (newNat eth0) home_run.1.1 home_run.1.2 home_run.2) as (_ & stdout & rest & _ & [[_ Hn]|(route & ip & _ & _ & _ & He)]).
  - reflexivity.
  - refine (run_plays any_answer others (fun _ => home_answer) _ (fun _ _ => Logic.I) home_start.1 [] home_start.2). intros m. split; [done|by left].
  - vm_compute in Hn. discriminate Hn.
  - eexists. split; [vm_compute; reflexivity|]. split; [vm_compute; reflexivity|]. apply He. vm_compute. reflexivity.
Defined.

(** A renewal is under way when the mapper is stopped; its continuation runs before the gateway answered the deletion, and asks
    for the mapping again, for another lease. *)
Definition pending {A} (s : Async.Step (S := Nat) nat_answer A) : option string :=
  match s with Susp (N_soap _ action _) _ => Some action | _ => None end.
Definition go_on {A} (s : Async.Step (S := Nat) nat_answer A) (m : Nat) : Async.Step (S := Nat) nat_answer A * Nat :=
  match s with Susp q k => k (home_answer q) m | Fin r => (Fin r, m) end.
Example stopped_mapping_comes_back :
  let '(r1, m1) := renew (lit "node") 4000 home_run.2 in
  let '(s1, m2) := stop m1 in
  let '(r2, m3) := go_on r1 m2 in
  let '(s2, m4) := go_on s1 m3 in
  [pending r1; pending s1; pending r2; pending s2] = [Some "GetExternalIPAddress"; Some "DeletePortMapping"; Some "AddPortMapping"; None] ∧
  nm_stopped m4 = true ∧ nm_mapped m4 = None.
Proof. vm_compute. split_and!; reflexivity. Qed.
(** After the stop is over, the continuation throws, into a promise that nobody handles. *)
Example stopped_renewal_throws :
  let '(r1, m1) := renew (lit "node") 4000 home_run.2 in
  let '(s1, m2) := stop m1 in
  let '(s2, m3) := go_on s1 m2 in
  match (go_on r1 m3).1 with Fin (Err _) => True | _ => False end.
Proof. vm_compute. exact Logic.I. Qed.
